(* ===== verification/_CoqProject ===== *)
-Q . S2P
Prelude.v
Types.v
Metrics.v
Mailbox.v
Registry.v
Pending.v
Timers.v
Scheduler.v
SchedulerFacts.v
Bytes.v
Wire.v
WireFacts.v
ClusterWire.v
Tasks.v
Runner.v
RunnerFacts.v
Runtime.v
Lifecycle.v
RuntimeInv.v
LifecycleInv.v
Frames.v
Demo.v
LifecycleFacts.v
CallFacts.v
GoText.v
Discovery.v
DiscoveryFacts.v
Directory.v
DirectoryFacts.v
DirectoryClient.v
Routing.v
Drain.v
DrainFacts.v
Supervisor.v
SupervisorFacts.v
Snapshot.v
Record.v
RecordFacts.v
Encoding.v
Entry.v
EntryInv.v
EntryFacts.v
Gateway.v
Control.v
Coordinator.v
CoordinatorInv.v
CoordinatorStop.v
CoordinatorRecovery.v
CoordinatorFacts.v
CoordinatorProps.v
Game.v
Ledger.v
Wallet.v
WalletFacts.v
GoValue.v
Battle.v
BattleInv.v
BattleFacts.v
Room.v
Player.v
PlayerFacts.v
NodeRunner.v
NodeAgent.v
Monitor.v
Observer.v
NhskCards.v
NhskSettlement.v
NhskDeal.v
NhskReplay.v
NhskBattle.v
NhskBattleInv.v
NhskTrick.v
NhskBattleProps.v
NhskQuarantine.v
NhskHost.v
NhskHostFacts.v
NhskFactory.v
NhskSystem.v
NhskWire.v
NhskLegacy.v
