(* ===== verification/Prelude.v ===== *)
(** * Game Service Runtime: a verification library

    The program is a Go library for game servers.  A node runs services; a
    service is an actor with a bounded mailbox that handles one command at a time.
    Nodes talk over TCP; tooling services keep leases and directories; a game layer
    builds battles, rooms, players and a wallet on top.  This library models that
    program from its sources under [src/] and proves what makes it correct.

    ** The parts, and the files that model them

    The kernel, [src/runtime]:
    - [Types], [Metrics]: references, envelopes, errors and [errors.Is]
      ([types.go], [errors.go]); counters, gauges and durations ([metrics.go]).
    - [Mailbox], [Registry], [Pending], [Timers], [Tasks]: the shared tables of a
      node ([mailbox.go], [registry.go], [call.go], [timer.go], [task.go]).  Each
      method that holds its mutex throughout is one function of the table; where
      work continues outside the mutex ([call.go], the callbacks of timers) there
      is a step relation of the interleavings.
    - [Scheduler], [SchedulerFacts]: [scheduler.go] and [ready_queue.go] as a
      machine whose actions are the atomic operations of its goroutines.
    - [Runner], [RunnerFacts]: the worker pools of [runner.go] and
      [runner_registry.go], again by atomic actions.
    - [Runtime], [Lifecycle]: one node as a record of those tables, and every
      operation of [runtime.go], [service.go], [call.go], [cluster.go],
      [core_endpoint.go] and [lifecycle.go] on it, in a small state monad.
      Application code is an arbitrary program over the operations of its context;
      what other goroutines do while an operation waits, between the check of a
      caller and its call ([callFromServiceBegin]) and during a creation
      ([createOverlap]), is an arbitrary argument.
      [RuntimeInv], [LifecycleInv], [Frames]: the invariant of a node and what
      operations leave alone; [LifecycleFacts], [CallFacts]: the properties;
      [Demo]: a concrete node for the examples.
    The network, [src/transport/tcp]:
    - [Bytes], [Wire], [WireFacts]: [wire.go] byte by byte; [ClusterWire]: what a
      node accepts from a peer and how errors travel ([cluster.go]).
    The tooling, [src/tooling]:
    - [GoText]: white space and UTF-8 validity of Go strings.
    - [Discovery], [DiscoveryFacts]: node leases and names ([discovery]).
    - [Directory], [DirectoryFacts], [DirectoryClient], [Routing]: versioned service
      sets, their client and their routing ([servicegroup]).
    - [Drain], [DrainFacts]: visitor leases, the drain guard and their
      clients ([drain]).
    - [Supervisor], [SupervisorFacts]: the supervisor service, one recovery
      attempt, launcher, decorator and client ([supervisor]).
    - [Snapshot]: snapshots of service state, the memory store and the manager
      ([snapshot]).
    - [Record], [RecordFacts]: the recorder service, its client, the recording
      decorator and replay ([record]).
    - [Encoding]: unpadded URL base64 and decimal numbers of the Go library;
      [Entry], [EntryInv], [EntryFacts]: tickets, gateway proofs, the
      session registry with its secrets as shared slices, and the login service;
      [Gateway]: what one login or gateway connection does ([entry]).
    - [Control]: data and validation of the control plane; [Coordinator],
      [CoordinatorInv], [CoordinatorStop], [CoordinatorRecovery],
      [CoordinatorFacts], [CoordinatorProps]: the drain coordinator and its client
      ([control]), in every environment: what directory, registries, guards, agents
      and the clock answer is an [Env] over the log of calls.
    - [NodeRunner]: the worker pools that stop and create services, by atomic
      actions, for any job that advances call by call (class [Job]); [NodeAgent]: the
      agent of a node, its receipts and its lease; [Observer]: the observer of the
      cluster and its client ([control]).
    - [Monitor]: the inspection of a node ([inspection.go]) and its report
      ([monitor]).
    The game layer, [src/game]:
    - [Game]: types, validation, and the effects of a business service: a handler
      is a program that reads and writes the service's fields and appends to a
      trace; what the world answers is an [Env], any function of the trace so far.
    - [Ledger], [Wallet], [WalletFacts]: the settlement chain ([memory_ledger.go],
      [ledger_runner.go], [wallet.go]); a task of the runner looks up and commits in
      two steps, between which other workers move.
    - [GoValue], [Battle], [BattleInv], [BattleFacts]: battles and their timelines
      ([battle.go], [timeline.go]), for every game logic.
    - [Room], [Player], [PlayerFacts]: [room.go], [player.go] and [module.go], for
      every factory and every set of modules.
    The card game, [src/examples/nhsk], a program built on the library:
    - [NhskCards], [NhskSettlement], [NhskDeal], [NhskReplay]: the patterns of cards
      and their order ([card_rules.go], [rules.go]), the result and its settlement
      ([settlement.go]), dealing and custom decks ([battle.go], [custom_deck.go]),
      the outputs, the replay in memory and the local move ([outputs.go],
      [replay_document.go], [ai.go]).
    - [NhskBattle]: the battle service ([battle.go]) in a monad of state, log and
      errors; [NhskBattleInv], [NhskTrick], [NhskBattleProps]: weakest preconditions
      of its parts, its invariants, and the properties; [NhskQuarantine]: the
      boundary around it ([quarantine.go]).
    - [NhskHost], [NhskHostFacts], [NhskFactory], [NhskSystem]: the host, the
      factory with its two workers, and both together with the messages between
      them ([host.go]).
    - [NhskWire]: the byte layouts of the old game master
      ([internal/legacywire]); [NhskLegacy]: the mappers, the egress, the output
      service and the connection with its generations and routes
      ([legacy_mapper.go], [legacy_relay_mapper.go], [legacy_control_mapper.go],
      [legacy_egress.go], [output_service.go], [legacy_connection.go]).

    ** What the theorems show

    - Concurrency of the kernel: handlers of one service exclude each other, no
      wake-up is lost, at most the configured number of handlers runs; a mailbox is
      first-in first-out; a call gets at most one result and nobody blocks on
      delivering it; a timer fires at most once and never after it was cancelled;
      a runner completes every accepted task exactly once, and its close ends.
    - Lifecycle: creation is all or nothing, a failed one leaves no registration, no
      name and no timer; a finalized service has no mailbox, no timer and no call to
      it, and cannot be addressed; a closed node holds nothing; a local call gets the
      first reply or the failure of its handler as its one result; call cycles are
      refused.
    - Wire: encoding and decoding are inverse in both directions, so the format is
      canonical; frames survive short writes and truncation; what a node sends
      passes the receiver's validation and a reply means what was replied.
    - Tooling: a superseded, removed or expired lease is refused for ever, names
      resolve only while their lease lives; publishing is a compare-and-set that
      loses no update and notifies exactly the live watchers; the client of the
      directory refines the directory; round robin is fair.
      A drain is irreversible and seals the service; stale visitor leases are
      refused; restarts are bounded per window, verdicts are final, backoff is
      exponential, and a recovery attempt leaves no replacement behind.
      An account has one session per server, accepted proofs are authentic and
      cannot be replayed, secrets are wiped when they leave the registry, and a
      gateway dispatches only for a session it still holds and within its limit for
      each window of a second;
      a recorder is a log read through a window, what was recorded replays; a
      snapshot store is a register of revisions.
      The coordinator stops a service only with the evidence that it left its group,
      is drained and has no strong visitor; its conclusions are final and are what
      was asked, reported and published; only the gateway commands it.
      An agent has at most one order per request and target in flight, its workers
      read the directory before they stop anything and report every task once, and
      what they report is recorded; reports and the observer's view are exact.
    - Game: the ledger is its set of accepted requests; over wallet, runner and
      ledger, with any number of workers, a settlement is applied exactly once or
      rejected, and stays so; a battle sends its commits to its wallet alone; the
      phases of a battle mean what its settlements say and its decisions are final;
      timeline items are delivered once; the battle index of a room is fenced; the
      presence of a player refines the machine of one generation when its modules
      accept the events, bindings are decided once, a command runs the module that
      declared it, and modules cannot touch each other.
    - Card game: the classifier of cards agrees with the patterns it stands for and
      its comparison is a strict order; every deal is the whole double deck; results
      are zero-sum and a confirmed settlement is the result; a battle conserves its
      cards whatever fails but the shuffle of a start, keeps its turns in order while
      its outputs are accepted, and ends when every deadline it armed runs out; only a
      start that panics is quarantined.  Host and factory keep the capacity, account
      for every service they make, and keep the evidence of a failed battle.  No bytes
      of the game master make a decoder panic, legal outputs of a battle are encoded
      as the frames they stand for and a hand for its owner alone, and commands reach
      only the service the host named on the same connection.
    Behind them stand invariants proved for every operation ([runtime_inv],
    [runner_inv], [dir_inv], [battle_inv] and others) and, where a component has a
    contract, an abstract specification it refines.  Theorems about modelled defects
    ([permit_lost], [rejection_untold], [finish_retry_refused],
    [lookup_hides_conflict], [empty_payload_unrecordable], [empty_stop_rejected],
    [failed_recovery_rejected], [late_call_of_finalized],
    [quarantined_number_replaced], [refused_frame_ends_connection]) evaluate the code on the inputs that show them.

    ** Integers, strings, fuel

    Machine integers are [Z] with their wrap-around written out where the code can
    reach it ([u64], [i64], [i32]); times and durations are [Z] nanoseconds.  A Go
    string is a byte string.  Maps are finite maps, and where Go's iteration order
    could be observed the order is an argument (class [MapPick]) or the
    theorem does not depend on it.  Loops over data are
    structural; the others carry fuel that suffices: the search for a free session
    number two more rounds than there are calls ([create_fresh_session]), the
    eviction of tombstones one per entry ([evict_size]), [writeAll] one per byte
    ([writeAllLoop_spec]), the trimming of white space the length of the string,
    the digits of a 64-bit number twenty, the
    rounds of a drain three ([advance_fuel]),
    the swaps of a deal as many as a hand can need ([swapFuel]), the wait for a
    creation as many rounds as its ticker fires, a parameter,
    and the doubling of the backoff the count its loop has in the code.
    Bounds that theorems assume are named where they stand: operation numbers of a
    host below 2^64 and its maximum below 2^32, 670 gains in one settlement frame
    (8192 bytes); an unattended subgame needs at most 416 turns ([maxActions]).

    ** Not modelled

    Sockets and their goroutines ([transport.go], [adapter_server.go]); JSON codecs
    and archives ([codec.go] and [archive.go] of the tooling packages); the logger;
    the goroutine pool of the supervisor's runner.  Of the card game: configuration
    and the floating-point backoff of reconnects, process composition, Redis, HTTP,
    files and the XML of replays; of its connection the dialling, the deadlines and
    the waits.  The other programs under [src/examples] wire the library together
    and print.
    Code of the application (services, game logic, player modules, ledger stores,
    factories, processors) is a parameter everywhere. *)

From stdpp Require Import prelude gmap strings sorting.
From Stdlib Require Import ZArith Lia.

(** ** Go results

    A Go function that returns [(value, error)] with the zero value beside a
    non-nil error is modelled by [res E A]: exactly one of the two is
    meaningful.  [E] is the error type of the package. *)
Inductive res (E A : Type) : Type :=
| Ok (a : A)
| Err (e : E).
Arguments Ok {E A} a.
Arguments Err {E A} e.

Definition res_bind {E A B} (f : A → res E B) (r : res E A) : res E B :=
  match r with
  | Ok a => f a
  | Err e => Err e
  end.

Declare Scope go_scope.
Delimit Scope go_scope with go.

(** [let! x := c in k] is the Go idiom
    [x, err := c; if err != nil { return err }; k]. *)
Notation "'let!' x ':=' c 'in' k" := (res_bind (λ x, k) c)
  (at level 10, x pattern, c at level 100, k at level 200) : go_scope.

Definition is_Ok {E A} (r : res E A) : bool :=
  match r with Ok _ => true | Err _ => false end.

(** A Go [error] return value: [None] is nil. *)
Abbreviation error E := (option E) (only parsing).

#[global] Instance res_eq_dec {E A} `{!EqDecision E, !EqDecision A} : EqDecision (res E A).
Proof. solve_decision. Defined.

(** ** Unsigned machine integers *)

Definition u64_mod : Z := 2 ^ 64.
Definition u64 (z : Z) : Z := z mod u64_mod.
Definition u64_max : Z := u64_mod - 1.
Definition is_u64 (z : Z) : Prop := (0 ≤ z < u64_mod)%Z.

#[global] Instance is_u64_dec z : Decision (is_u64 z).
Proof. unfold is_u64. apply _. Defined.

(** The increment of a [uint64]. *)
Definition u64_succ (z : Z) : Z := u64 (z + 1).

Lemma u64_range z : is_u64 (u64 z).
Proof. apply Z.mod_pos_bound. reflexivity. Qed.

Lemma u64_small z : is_u64 z → u64 z = z.
Proof. intros. by apply Z.mod_small. Qed.

Lemma u64_succ_small z : (0 ≤ z < u64_max)%Z → u64_succ z = (z + 1)%Z.
Proof. unfold u64_max. intros. apply u64_small. unfold is_u64. lia. Qed.

Lemma u64_add_l z w : u64 (u64 z + w) = u64 (z + w).
Proof. apply Zplus_mod_idemp_l. Qed.

(** Fewer than [2^64] consecutive machine integers are pairwise distinct. *)
Lemma u64_seq_NoDup (z : Z) (n : nat) :
  (Z.of_nat n ≤ u64_mod)%Z → NoDup ((λ i, u64 (z + Z.of_nat i)) <$> seq 0 n).
Proof.
  intros Hn. apply NoDup_fmap_2_strong; [|apply NoDup_seq].
  intros x y Hx Hy Heq. apply elem_of_seq in Hx, Hy. unfold u64 in Heq.
  assert (((z + Z.of_nat x) - (z + Z.of_nat y)) mod u64_mod = 0)%Z as Hm.
  { rewrite Zminus_mod, Heq, Z.sub_diag. done. }
  apply Z.mod_divide in Hm as [k Hk]; [|done].
  assert (k = 0%Z) by (unfold u64_mod in *; nia). lia.
Qed.

(** ** Lists *)

Lemma submseteq_NoDup {A} (l k : list A) : l ⊆+ k → NoDup k → NoDup l.
Proof.
  intros [r Hr]%submseteq_Permutation Hk. rewrite Hr in Hk.
  by apply NoDup_app in Hk as [? _].
Qed.

Lemma submseteq_elem_of {A} (l k : list A) x : l ⊆+ k → x ∈ l → x ∈ k.
Proof.
  intros [r Hr]%submseteq_Permutation Hx. rewrite Hr. apply elem_of_app. by left.
Qed.

(** ** Strings in Go's order *)

Lemma ltb_le_neq s t : String.ltb s t = true ↔ String.le s t ∧ s ≠ t.
Proof.
  unfold String.le, String.leb, String.ltb. split.
  - destruct (String.compare s t) eqn:H; try done. intros _. split; [done|].
    intros ->. pose proof (String.compare_antisym t t). rewrite H in *. done.
  - intros [H Hne]. destruct (String.compare s t) eqn:He; try done.
    by apply String.compare_eq_iff in He.
Qed.

Lemma ltb_irrefl s : String.ltb s s = false.
Proof. destruct (String.ltb s s) eqn:H; [|done]. by apply ltb_le_neq in H as [_ ?]. Qed.

Lemma ltb_trans a b c : String.ltb a b = true → String.ltb b c = true → String.ltb a c = true.
Proof.
  rewrite !ltb_le_neq. intros [H1 N1] [H2 N2]. split; [by etrans|]. intros ->.
  apply N2. by apply (anti_symm String.le).
Qed.

(** ** Automation *)

Create HintDb gsr.
#[export] Hint Resolve u64_range : gsr.

(** Case analysis on every [if]/[match] that blocks a hypothesis or the goal,
    with the discriminable cases removed. *)
Ltac split_hyp H :=
  repeat (match type of H with
          | context [match ?x with _ => _ end] => destruct x eqn:?
          end; simplify_eq/=; try done).

Ltac break_goal := repeat (case_match; simplify_eq/=; try done).

(** Turn boolean tests into propositions. *)
Ltac bool_prop :=
  repeat match goal with
  | H : _ && _ = true |- _ => apply andb_true_iff in H as [? ?]
  | H : _ || _ = false |- _ => apply orb_false_iff in H as [? ?]
  | H : negb _ = true |- _ => apply negb_true_iff in H
  | H : negb _ = false |- _ => apply negb_false_iff in H
  | H : bool_decide _ = true |- _ => apply bool_decide_eq_true in H
  | H : bool_decide _ = false |- _ => apply bool_decide_eq_false in H
  | H : Z.leb _ _ = true |- _ => apply Z.leb_le in H
  | H : Z.leb _ _ = false |- _ => apply Z.leb_gt in H
  | H : Z.ltb _ _ = true |- _ => apply Z.ltb_lt in H
  | H : Z.ltb _ _ = false |- _ => apply Z.ltb_ge in H
  | H : Z.eqb _ _ = true |- _ => apply Z.eqb_eq in H
  | H : Z.eqb _ _ = false |- _ => apply Z.eqb_neq in H
  end.

(** Case analysis on a hypothesis that computes a successor state. *)
Ltac open_step H :=
  repeat match type of H with
  | context [if ?e then _ else _] => destruct e eqn:?
  | context [match ?e with _ => _ end] => destruct e eqn:?
  end; simplify_eq/=.

(** Specialise what is known of the boolean fields. *)
Ltac bool_facts :=
  repeat match goal with
  | H : ?b = ?b → _ |- _ => specialize (H eq_refl)
  | H : true = false → _ |- _ => clear H
  | H : false = true → _ |- _ => clear H
  | H : [] ≠ [] → _ |- _ => clear H
  | H : _ :: _ ≠ [] → _ |- _ => specialize (H ltac:(discriminate))
  | H : _ ∧ _ |- _ => destruct H
  | H : true = true ∨ _ |- _ => clear H
  | H : false = true ∨ _ |- _ => destruct H as [H|H]; [discriminate|]
  end.
