(* ===== verification/Types.v ===== *)
(** * Core types of the runtime package

    [src/runtime/types.go], [src/runtime/errors.go] and the status constants of
    [src/runtime/service.go].  Identifiers keep the source's names.  A Go
    [string] is a byte sequence, modelled by [string] (a list of 8-bit
    characters) whose order [String.ltb] is Go's bytewise order.  [uint64] and
    [uint32] identifiers are [Z]; [is_u64] is the type's range. *)

From stdpp Require Import prelude gmap strings.
From Stdlib Require Import ZArith.
From Stdlib Require Import Strings.Byte.
From S2P Require Import Prelude.

Abbreviation NodeID := string (only parsing).
Abbreviation ServiceID := Z (only parsing).
Abbreviation ServiceName := string (only parsing).
Abbreviation CommandID := Z (only parsing).
Abbreviation SessionID := Z (only parsing).
Abbreviation TimerID := Z (only parsing).
(** [time.Time] in nanoseconds after Go's zero time, [time.Duration] in
    nanoseconds.  The zero time is [0]. *)
Abbreviation Time := Z (only parsing).
Abbreviation Duration := Z (only parsing).

(** ServiceRef is a Runtime address, not an object pointer. *)
Record ServiceRef := mkRef { Node : NodeID; ID : ServiceID }.

#[global] Instance ServiceRef_eq_dec : EqDecision ServiceRef.
Proof. solve_decision. Defined.
#[global] Instance ServiceRef_countable : Countable ServiceRef.
Proof.
  apply (inj_countable' (λ r, (Node r, ID r)) (λ p, mkRef p.1 p.2)).
  by intros [].
Defined.

(** The Go zero value [ServiceRef{}]. *)
Definition zeroRef : ServiceRef := mkRef "" 0.

(** Go's [any] as far as the runtime package looks into it: it type-switches on
    [ServiceName] and [ServiceRef], everything else belongs to the
    application, whose values are [A]. *)
Inductive any (A : Type) : Type :=
| AnyNil
| AnyServiceName (name : ServiceName)
| AnyServiceRef (ref : ServiceRef)
| AnyApp (a : A).
Arguments AnyNil {A}.
Arguments AnyServiceName {A} name.
Arguments AnyServiceRef {A} ref.
Arguments AnyApp {A} a.

(** Envelope is the Runtime's internal message representation. *)
Record Envelope (A : Type) := mkEnvelope {
  Source : ServiceRef;
  Target : ServiceRef;
  Session : SessionID;
  Command : CommandID;
  Payload : any A;
  CallPath : list ServiceRef
}.
Arguments mkEnvelope {A}.
Arguments Source {A}.
Arguments Target {A}.
Arguments Session {A}.
Arguments Command {A}.
Arguments Payload {A}.
Arguments CallPath {A}.

(** WireEnvelope is the transport-safe representation of an Envelope
    ([src/runtime/cluster.go]). *)
Record WireEnvelope := mkWire {
  wSource : ServiceRef;
  wTarget : ServiceRef;
  wSession : SessionID;
  wCommand : CommandID;
  wPayload : list byte;
  wResponse : bool;
  wCallPath : list ServiceRef;
  wErrorCode : string;
  wErrorMessage : string
}.

(** ** Errors *)

Inductive sentinel :=
| ErrTimeout | ErrReplyTwice | ErrServiceNotFound | ErrServiceClosed
| ErrMailboxFull | ErrInvalidServiceSpec | ErrRuntimeClosed
| ErrReplyUnavailable | ErrReplyExpired | ErrUnknownCommand
| ErrServiceNameConflict | ErrCallCycle | ErrCallNotAllowed
| ErrServiceFailed | ErrStopTimeout | ErrCloseTimeout
| ErrInvalidClusterConfig | ErrClusterStart | ErrRemoteUnavailable
| ErrInvalidClusterEnvelope | ErrPayloadEncode | ErrPayloadDecode
| ErrInvalidRunnerConfig | ErrRunnerNameConflict | ErrInvalidRunnerTarget
| ErrRunnerQueueFull | ErrRunnerClosed | ErrRunnerAwaitNotAllowed
| ErrRunnerPanic.

#[global] Instance sentinel_eq_dec : EqDecision sentinel.
Proof. solve_decision. Defined.

(** The texts given to [errors.New]. *)
Definition sentinel_text (s : sentinel) : string :=
  match s with
  | ErrTimeout => "gsr: call timed out"
  | ErrReplyTwice => "gsr: reply already sent"
  | ErrServiceNotFound => "gsr: service not found"
  | ErrServiceClosed => "gsr: service closed"
  | ErrMailboxFull => "gsr: mailbox full"
  | ErrInvalidServiceSpec => "gsr: invalid service spec"
  | ErrRuntimeClosed => "gsr: runtime closed"
  | ErrReplyUnavailable => "gsr: reply unavailable"
  | ErrReplyExpired => "gsr: reply expired"
  | ErrUnknownCommand => "gsr: unknown command"
  | ErrServiceNameConflict => "gsr: service name conflict"
  | ErrCallCycle => "gsr: synchronous call cycle"
  | ErrCallNotAllowed => "gsr: service call not allowed in this context"
  | ErrServiceFailed => "gsr: service failed"
  | ErrStopTimeout => "gsr: service stop timed out"
  | ErrCloseTimeout => "gsr: close timed out"
  | ErrInvalidClusterConfig => "gsr: invalid cluster config"
  | ErrClusterStart => "gsr: cluster transport start failed"
  | ErrRemoteUnavailable => "gsr: remote node unavailable"
  | ErrInvalidClusterEnvelope => "gsr: invalid cluster envelope"
  | ErrPayloadEncode => "gsr: cluster payload encode failed"
  | ErrPayloadDecode => "gsr: cluster payload decode failed"
  | ErrInvalidRunnerConfig => "gsr: invalid runner config"
  | ErrRunnerNameConflict => "gsr: runner name conflict"
  | ErrInvalidRunnerTarget => "gsr: invalid runner target"
  | ErrRunnerQueueFull => "gsr: runner queue full"
  | ErrRunnerClosed => "gsr: runner closed"
  | ErrRunnerAwaitNotAllowed => "gsr: runner await not allowed in this context"
  | ErrRunnerPanic => "gsr: runner processor panicked"
  end.

(** An error value of the runtime: a sentinel, [fmt.Errorf("%w: ...")] around a
    sentinel, [errors.Join], a [RemoteError], the two context errors, or an
    error of the application. *)
Inductive rtError :=
| Sentinel (s : sentinel)
| WrapError (s : sentinel) (detail : string)
| JoinError (es : list rtError)
| RemoteError (code message : string)
| ContextCanceled
| ContextDeadlineExceeded
| AppError (text : string).

(** [errors.Is] against a sentinel. *)
Fixpoint errors_Is (e : rtError) (target : sentinel) : bool :=
  match e with
  | Sentinel s => bool_decide (s = target)
  | WrapError s _ => bool_decide (s = target)
  | JoinError es => existsb (λ e, errors_Is e target) es
  | _ => false
  end.

(** [errors.Join]: nil arguments are dropped, and the join of nothing is nil. *)
Definition errors_Join (es : list (error rtError)) : error rtError :=
  match omap id es with
  | [] => None
  | l => Some (JoinError l)
  end.

(** The [Error] method of [RemoteError]. *)
Definition remoteErrorText (message : string) : string :=
  if bool_decide (message = "") then "gsr: remote error"
  else ("gsr: remote error: " +:+ message).

(** The [Error] method. *)
Fixpoint errorText (e : rtError) : string :=
  match e with
  | Sentinel s => sentinel_text s
  | WrapError s d => sentinel_text s +:+ ": " +:+ d
  | JoinError es => String.concat (String (Ascii.ascii_of_nat 10) EmptyString) (map errorText es)
  | RemoteError _ message => remoteErrorText message
  | ContextCanceled => "context canceled"
  | ContextDeadlineExceeded => "context deadline exceeded"
  | AppError t => t
  end.

(** ** Status constants *)

Inductive ServiceStatus :=
| ServiceCreated | ServiceStarting | ServiceRunning | ServiceStopping
| ServiceClosed | ServiceFailed | ServiceRestarting.

#[global] Instance ServiceStatus_eq_dec : EqDecision ServiceStatus.
Proof. solve_decision. Defined.

Inductive MailboxStopPolicy := DrainMailbox | DiscardMailbox.

#[global] Instance MailboxStopPolicy_eq_dec : EqDecision MailboxStopPolicy.
Proof. solve_decision. Defined.

Record ServicePolicy := mkPolicy {
  StopTimeout : Duration;
  CloseTimeout : Duration;
  LifecycleTimeout : Duration;
  MailboxPolicy : MailboxStopPolicy
}.

Inductive runtimeState := runtimeRunning | runtimeClosing | runtimeClosed.

#[global] Instance runtimeState_eq_dec : EqDecision runtimeState.
Proof. solve_decision. Defined.

Lemma errors_Is_sentinel s t : errors_Is (Sentinel s) t = true ↔ s = t.
Proof. simpl. apply bool_decide_eq_true. Qed.
