(* ===== verification/Metrics.v ===== *)
(** * The metric collector

    [src/runtime/metrics.go].  Counters are [uint64] and wrap around, gauges are
    [int64] and durations accumulate.  A missing key reads as the Go zero
    value. *)

From stdpp Require Import prelude gmap strings pretty.
From Stdlib Require Import ZArith Lia.
From S2P Require Import Prelude Types.

Record metricCollector := mkMetrics {
  counters : gmap string Z;
  gauges : gmap string Z;
  durations : gmap string Duration
}.

Definition newMetricCollector : metricCollector := mkMetrics ∅ ∅ ∅.

(** [m[k]] on a Go map with integer values. *)
Definition getZ (m : gmap string Z) (k : string) : Z := default 0%Z (m !! k).

Definition Add (name : string) (delta : Z) (m : metricCollector) : metricCollector :=
  mkMetrics (<[name := u64 (getZ (counters m) name + delta)]> (counters m))
            (gauges m) (durations m).

Definition Inc (name : string) (m : metricCollector) : metricCollector := Add name 1 m.

Definition SetGauge (name : string) (value : Z) (m : metricCollector) : metricCollector :=
  mkMetrics (counters m) (<[name := value]> (gauges m)) (durations m).

Definition deleteGauge (name : string) (m : metricCollector) : metricCollector :=
  mkMetrics (counters m) (delete name (gauges m)) (durations m).

Definition Observe (name : string) (value : Duration) (m : metricCollector) : metricCollector :=
  mkMetrics (counters m) (gauges m)
            (<[name := (getZ (durations m) name + value)%Z]> (durations m)).

(** Readers of a [MetricsSnapshot]; the snapshot is an independent copy, which
    the immutable maps of the model are anyway. *)
Definition Counter (m : metricCollector) (name : string) : Z := getZ (counters m) name.
Definition Gauge (m : metricCollector) (name : string) : Z := getZ (gauges m) name.

Definition mailboxDepthMetric (ref : ServiceRef) : string :=
  "mailbox_depth." +:+ Node ref +:+ "." +:+ pretty (Z.to_N (ID ref)).

Definition MailboxDepth (m : metricCollector) (ref : ServiceRef) : Z :=
  Gauge m (mailboxDepthMetric ref).

(** ** Reader/writer lemmas *)

Lemma Counter_Add m n k d :
  Counter (Add k d m) n = if decide (n = k) then u64 (Counter m n + d) else Counter m n.
Proof.
  unfold Counter, Add, getZ; simpl. case_decide; subst.
  - by rewrite lookup_insert_eq.
  - by rewrite lookup_insert_ne.
Qed.

Lemma Gauge_SetGauge m n k v :
  Gauge (SetGauge k v m) n = if decide (n = k) then v else Gauge m n.
Proof.
  unfold Gauge, SetGauge, getZ; simpl. case_decide; subst.
  - by rewrite lookup_insert_eq.
  - by rewrite lookup_insert_ne.
Qed.

Lemma Gauge_Add m n k d : Gauge (Add k d m) n = Gauge m n.
Proof. done. Qed.
Lemma Gauge_Inc m n k : Gauge (Inc k m) n = Gauge m n.
Proof. done. Qed.
Lemma Gauge_Observe m n k v : Gauge (Observe k v m) n = Gauge m n.
Proof. done. Qed.
Lemma Gauge_deleteGauge m n k :
  Gauge (deleteGauge k m) n = if decide (n = k) then 0%Z else Gauge m n.
Proof.
  unfold Gauge, deleteGauge, getZ; simpl. case_decide; subst.
  - by rewrite lookup_delete_eq.
  - by rewrite lookup_delete_ne.
Qed.
