(* ===== verification/Mailbox.v ===== *)
(** * The service mailbox

    [src/runtime/mailbox.go]: a bounded FIFO of commands into which a stop
    request may always be pushed.  Every operation holds the mailbox mutex for
    its whole body (except the last line of [close]), so an operation is one
    atomic state change.  The shared [metricCollector] is threaded through. *)

From stdpp Require Import prelude gmap strings list ssreflect.
From Stdlib Require Import ZArith Lia.
From S2P Require Import Prelude Types Metrics.

Section Mailbox.
(** [A]: application payloads; [R]: stop requests. *)
Context {A R : Type}.

Record mailboxItem := mkItem {
  content : Envelope A + R;      (** [envelope] or [stop], whichever is not nil *)
  enqueuedAt : Time
}.

Record mailbox := mkMailbox {
  items : list mailboxItem;
  capacity : Z;
  depthKey : string;
  closed : bool
}.

Definition newMailbox (size : Z) (key : string) : mailbox := mkMailbox [] size key false.

Definition with_items (m : mailbox) (l : list mailboxItem) : mailbox :=
  mkMailbox l (capacity m) (depthKey m) (closed m).

Definition lenZ {B} (l : list B) : Z := Z.of_nat (length l).

Definition pushEnvelope (now : Time) (e : Envelope A) (m : mailbox) (mc : metricCollector)
  : mailbox * metricCollector * error sentinel :=
  if closed m then (m, mc, Some ErrServiceClosed)
  else if Z.leb (capacity m) (lenZ (items m)) then
    (m, Inc "mailbox_rejected_total" mc, Some ErrMailboxFull)
  else
    let items' := items m ++ [mkItem (inl e) now] in
    (with_items m items', SetGauge (depthKey m) (lenZ items') mc, None).

Definition pushStop (now : Time) (r : R) (m : mailbox) (mc : metricCollector)
  : mailbox * metricCollector * error sentinel :=
  if closed m then (m, mc, Some ErrServiceClosed)
  else
    let items' := items m ++ [mkItem (inr r) now] in
    (with_items m items', SetGauge (depthKey m) (lenZ items') mc, None).

Definition pop (now : Time) (m : mailbox) (mc : metricCollector)
  : mailbox * metricCollector * option mailboxItem :=
  match items m with
  | [] => (m, mc, None)
  | item :: rest =>
      (with_items m rest,
       Observe "mailbox_wait_duration" (now - enqueuedAt item)
         (SetGauge (depthKey m) (lenZ rest) mc),
       Some item)
  end.

Definition notEmpty (m : mailbox) : bool := bool_decide (0 < length (items m)).
Definition depth (m : mailbox) : Z := lenZ (items m).

Definition discard (m : mailbox) (mc : metricCollector) : mailbox * metricCollector :=
  (with_items m [], SetGauge (depthKey m) 0 mc).

Definition close (m : mailbox) (mc : metricCollector) : mailbox * metricCollector :=
  (mkMailbox [] (capacity m) (depthKey m) true, deleteGauge (depthKey m) mc).

(** ** Runs

    A run is any interleaving of the operations by the goroutines that share
    the mailbox.  [accepted] and [popped] are ghost logs: what a push accepted
    and what a pop returned, in the order of the lock acquisitions. *)
Inductive mailboxOp :=
| OpPushEnvelope (now : Time) (e : Envelope A)
| OpPushStop (now : Time) (r : R)
| OpPop (now : Time)
| OpDiscard
| OpClose.

Record mailboxRun := mkRun {
  box : mailbox;
  mets : metricCollector;
  accepted : list mailboxItem;
  popped : list mailboxItem
}.

Definition stepOp (s : mailboxRun) (op : mailboxOp) : mailboxRun :=
  match op with
  | OpPushEnvelope now e =>
      let '(m, mc, err) := pushEnvelope now e (box s) (mets s) in
      mkRun m mc (accepted s ++ if err is Some _ then [] else [mkItem (inl e) now]) (popped s)
  | OpPushStop now r =>
      let '(m, mc, err) := pushStop now r (box s) (mets s) in
      mkRun m mc (accepted s ++ if err is Some _ then [] else [mkItem (inr r) now]) (popped s)
  | OpPop now =>
      let '(m, mc, it) := pop now (box s) (mets s) in
      mkRun m mc (accepted s) (popped s ++ option_list it)
  | OpDiscard => let '(m, mc) := discard (box s) (mets s) in mkRun m mc (accepted s) (popped s)
  | OpClose => let '(m, mc) := close (box s) (mets s) in mkRun m mc (accepted s) (popped s)
  end.

Definition runOps (size : Z) (key : string) (mc : metricCollector) (ops : list mailboxOp)
  : mailboxRun :=
  foldl stepOp (mkRun (newMailbox size key) mc [] []) ops.

Definition keepsItems (op : mailboxOp) : bool :=
  match op with OpDiscard | OpClose => false | _ => true end.

Definition isEnvelope (i : mailboxItem) : bool :=
  match content i with inl _ => true | inr _ => false end.

(** ** Invariants *)

Lemma runOps_snoc size key mc ops op :
  runOps size key mc (ops ++ [op]) = stepOp (runOps size key mc ops) op.
Proof. unfold runOps. by rw foldl_app. Qed.

Lemma stepOp_capacity s op : capacity (box (stepOp s op)) = capacity (box s).
Proof.
  destruct op; simpl; unfold pushEnvelope, pushStop, pop;
    repeat case_match; simplify_eq/=; done.
Qed.

Lemma stepOp_sublist s op :
  popped s ++ items (box s) `sublist_of` accepted s →
  popped (stepOp s op) ++ items (box (stepOp s op)) `sublist_of` accepted (stepOp s op).
Proof.
  intros H.
  assert (popped s `sublist_of` accepted s) as Hp
    by (etrans; [|exact H]; by apply sublist_inserts_r).
  destruct op; simpl; unfold pushEnvelope, pushStop, pop;
    repeat case_match; simplify_eq/=; rw ?app_nil_r //.
  - rw assoc. by apply sublist_app.
  - rw assoc. by apply sublist_app.
  - by rw H1.
  - by rw -assoc.
Qed.

Lemma stepOp_exact s op :
  keepsItems op = true →
  accepted s = popped s ++ items (box s) →
  accepted (stepOp s op) = popped (stepOp s op) ++ items (box (stepOp s op)).
Proof.
  intros Hk H.
  destruct op; simpl in *; unfold pushEnvelope, pushStop, pop;
    repeat case_match; simplify_eq/=; rw ?H ?app_nil_r -?assoc //.
  by rw H1 app_nil_r.
Qed.

Lemma runOps_sublist size key mc ops :
  popped (runOps size key mc ops) ++ items (box (runOps size key mc ops))
    `sublist_of` accepted (runOps size key mc ops).
Proof.
  induction ops as [|op ops IH] using rev_ind; [done|].
  rw runOps_snoc. by apply stepOp_sublist.
Qed.

Lemma runOps_exact size key mc ops :
  forallb keepsItems ops = true →
  accepted (runOps size key mc ops)
    = popped (runOps size key mc ops) ++ items (box (runOps size key mc ops)).
Proof.
  induction ops as [|op ops IH] using rev_ind; [done|].
  rw forallb_app runOps_snoc /=. intros Hk. bool_prop.
  by apply stepOp_exact; auto.
Qed.

Definition envelopeCount (l : list mailboxItem) : Z := lenZ (filter isEnvelope l).

Definition boundInv (m : mailbox) : Prop := (envelopeCount (items m) ≤ Z.max 0 (capacity m))%Z.

Lemma envelopeCount_le l : (envelopeCount l ≤ lenZ l)%Z.
Proof. unfold envelopeCount, lenZ. pose proof (length_filter isEnvelope l). lia. Qed.

Lemma envelopeCount_snoc l i :
  envelopeCount (l ++ [i]) = (envelopeCount l + if isEnvelope i then 1 else 0)%Z.
Proof.
  unfold envelopeCount, lenZ. rw filter_app length_app filter_cons filter_nil.
  destruct (isEnvelope i); simpl; lia.
Qed.

Lemma stepOp_bound s op : boundInv (box s) → boundInv (box (stepOp s op)).
Proof.
  unfold boundInv. intros H.
  destruct op; simpl; unfold pushEnvelope, pushStop, pop;
    repeat case_match; simplify_eq/=; bool_prop; try done.
  - rw envelopeCount_snoc /=.
    pose proof (envelopeCount_le (items (box s))). lia.
  - rw envelopeCount_snoc /=. lia.
  - by rw H1.
  - unfold envelopeCount, lenZ in *. rw filter_cons in H.
    case_match; simpl in H; lia.
  - unfold envelopeCount, lenZ. rw filter_nil /=. lia.
  - unfold envelopeCount, lenZ. rw filter_nil /=. lia.
Qed.

(** The depth gauge of the mailbox is the queue length after every operation,
    and a closed mailbox is empty and has no gauge. *)
Definition gaugeInv (s : mailboxRun) : Prop :=
  (closed (box s) = true → items (box s) = []) ∧
  Gauge (mets s) (depthKey (box s)) = depth (box s).

Lemma stepOp_gauge s op : gaugeInv s → gaugeInv (stepOp s op).
Proof.
  intros [Hc Hg]. unfold gaugeInv, depth in *.
  destruct op; simpl; unfold pushEnvelope, pushStop, pop;
    repeat case_match; simplify_eq/=; try done;
    rw ?Gauge_Observe ?Gauge_SetGauge ?Gauge_deleteGauge ?decide_True //.
  all: split; [intros Hcl|]; try done; try congruence; naive_solver congruence.
Qed.

Lemma stepOp_depthKey s op : depthKey (box (stepOp s op)) = depthKey (box s).
Proof.
  destruct op; simpl; unfold pushEnvelope, pushStop, pop;
    repeat case_match; simplify_eq/=; done.
Qed.

Lemma runOps_invariants size key mc ops :
  Gauge mc key = 0%Z →
  let s := runOps size key mc ops in
  boundInv (box s) ∧ gaugeInv s ∧ capacity (box s) = size ∧ depthKey (box s) = key.
Proof.
  intros Hg. induction ops as [|op ops (IHb & IHg & IHc & IHk)] using rev_ind; simpl.
  - split_and!; [unfold boundInv, envelopeCount, lenZ; simpl; lia| |done|done].
    split; [done|exact Hg].
  - rw runOps_snoc stepOp_capacity stepOp_depthKey.
    split_and!; [by apply stepOp_bound|by apply stepOp_gauge|done|done].
Qed.
End Mailbox.

Arguments mailboxItem : clear implicits.
Arguments mailbox : clear implicits.
Arguments mailboxOp : clear implicits.

(** ** Properties *)

(** The mailbox is a FIFO queue under every interleaving of its users: what
    the consumer popped, followed by what is still queued, is always an ordered
    selection of what the producers got accepted, with nothing invented,
    duplicated or reordered.  When the mailbox was neither discarded nor closed
    nothing is lost either: the accepted items are exactly the popped ones
    followed by the queued ones. *)
Theorem mailbox_fifo {A R} (size : Z) (key : string) (mc : metricCollector)
    (ops : list (mailboxOp A R)) :
  let s := runOps size key mc ops in
  popped s ++ items (box s) `sublist_of` accepted s ∧
  (accepted s = popped s ++ items (box s) ∨ forallb keepsItems ops = false).
Proof.
  simpl. split; [apply runOps_sublist|].
  destruct (forallb keepsItems ops) eqn:E; [left|by right].
  by apply runOps_exact.
Qed.

(** Back-pressure and observability of the mailbox: at every moment at most
    [capacity] commands are queued (stop requests are not counted, they are
    always accepted), the depth gauge published under the mailbox key is the
    number of queued items, and a closed mailbox is empty and refuses every
    push with [ErrServiceClosed]. *)
Theorem mailbox_bounded {A R} (size : Z) (key : string) (mc : metricCollector)
    (ops : list (mailboxOp A R)) (Hfresh : Gauge mc key = 0%Z) :
  let s := runOps size key mc ops in
  (envelopeCount (items (box s)) ≤ Z.max 0 size)%Z ∧
  Gauge (mets s) key = depth (box s) ∧
  (closed (box s) = true →
     items (box s) = [] ∧
     (∀ now e, (pushEnvelope now e (box s) (mets s)).2 = Some ErrServiceClosed) ∧
     (∀ now r, (pushStop now r (box s) (mets s)).2 = Some ErrServiceClosed)).
Proof.
  simpl. destruct (runOps_invariants size key mc ops Hfresh) as (Hb & [Hc Hg] & Hs & Hk).
  unfold boundInv in Hb. rw Hs in Hb. rw Hk in Hg.
  split_and!; [done|done|]. intros Hcl.
  split_and!; [auto| |]; intros; unfold pushEnvelope, pushStop; by rw Hcl.
Qed.

Lemma mailbox_bounded_witness :
  let ref := mkRef "n" 1 in
  let e := mkEnvelope ref ref 0 7 (@AnyNil nat) [] in
  let ops := [OpPushEnvelope 5 e; OpPushEnvelope 6 e; OpPushStop 7 tt; OpPop 9] in
  let s := runOps 1 "k" newMetricCollector ops in
  envelopeCount (items (box s)) = 0%Z ∧ lenZ (items (box s)) = 1%Z ∧
  (envelopeCount (items (box s)) ≤ Z.max 0 1)%Z.
Proof.
  split; [vm_compute; reflexivity|]. split; [vm_compute; reflexivity|].
  apply (mailbox_bounded 1 "k" newMetricCollector). vm_compute. reflexivity.
Defined.
