(* ===== verification/Registry.v ===== *)
(** * The local service registry

    [src/runtime/registry.go]: live services by reference, the long-lived names,
    and bounded, expiring tombstones of removed references.  Every method runs
    under [r.mu], so each is one atomic function of the registry. *)

From stdpp Require Import prelude gmap strings list ssreflect.
From Stdlib Require Import ZArith Lia.
From S2P Require Import Prelude Types.

(** The first key a Go [for ... range] over a map yields: unspecified by the
    language, but some key of the map whenever there is one. *)
Class MapPick (K V : Type) `{Countable K} := {
  pick : gmap K V → option K;
  pick_some m k : pick m = Some k → is_Some (m !! k);
  pick_none m : pick m = None → m = ∅
}.

(** A concrete pick, the head of the canonical enumeration. *)
Program Definition headPick {K V} `{Countable K} : MapPick K V :=
  {| pick m := fst <$> head (map_to_list m) |}.
Next Obligation.
  intros K V ?? m k Hp. simpl in Hp.
  destruct (map_to_list m) as [|[k' v] l] eqn:E; simpl in Hp; [done|].
  injection Hp as <-. exists v. apply elem_of_map_to_list. rw E. by left.
Qed.
Next Obligation.
  intros K V ?? m Hp. simpl in Hp.
  destruct (map_to_list m) as [|[k' v] l] eqn:E; simpl in Hp; [|done].
  by apply map_to_list_empty_iff.
Qed.

Section Registry.
(** [I] stands for the service instance pointer; the registry reads only its
    immutable [ref] and [name]. *)
Context {I : Type} (iref : I → ServiceRef) (iname : I → ServiceName).
Context `{!MapPick ServiceRef Time}.

Record localRegistry := mkRegistry {
  services : gmap ServiceRef I;
  names : gmap ServiceName ServiceRef;
  tombstones : gmap ServiceRef Time;
  tombstoneTTL : Duration;
  tombstoneLimit : Z
}.

Definition newLocalRegistry (ttl : Duration) (limit : Z) : localRegistry :=
  mkRegistry ∅ ∅ ∅ ttl limit.

Definition with_tombstones (r : localRegistry) (t : gmap ServiceRef Time) : localRegistry :=
  mkRegistry (services r) (names r) t (tombstoneTTL r) (tombstoneLimit r).

(** [for len(tombstones) > limit { for ref := range tombstones { delete; break } }].
    [fuel] bounds the number of rounds; one round per entry is enough. *)
Fixpoint evict (fuel : nat) (limit : Z) (t : gmap ServiceRef Time) : gmap ServiceRef Time :=
  match fuel with
  | O => t
  | S fuel =>
      if Z.ltb limit (Z.of_nat (size t)) then
        match pick t with
        | Some ref => evict fuel limit (delete ref t)
        | None => t
        end
      else t
  end.

Definition cleanupLocked (now : Time) (r : localRegistry) : localRegistry :=
  let live := filter (λ p, (now < p.2)%Z) (tombstones r) in
  with_tombstones r (evict (size live) (tombstoneLimit r) live).

Definition add (now : Time) (i : I) (r : localRegistry) : localRegistry * error sentinel :=
  let r := cleanupLocked now r in
  if bool_decide (iname i ≠ "") && bool_decide (is_Some (names r !! iname i)) then
    (r, Some ErrServiceNameConflict)
  else
    let names' :=
      if bool_decide (iname i ≠ "") then <[iname i := iref i]> (names r) else names r in
    (mkRegistry (<[iref i := i]> (services r)) names' (tombstones r)
       (tombstoneTTL r) (tombstoneLimit r), None).

Definition get (now : Time) (ref : ServiceRef) (r : localRegistry)
  : localRegistry * res sentinel I :=
  let r := cleanupLocked now r in
  (r, match services r !! ref with
      | Some i => Ok i
      | None =>
          match tombstones r !! ref with
          | Some _ => Err ErrServiceClosed
          | None => Err ErrServiceNotFound
          end
      end).

Definition resolve (name : ServiceName) (r : localRegistry) : res sentinel ServiceRef :=
  match names r !! name with
  | Some ref => Ok ref
  | None => Err ErrServiceNotFound
  end.

(** The clock is read for the tombstone ([now]) and again by the clean-up
    ([later]). *)
Definition remove (now later : Time) (ref : ServiceRef) (r : localRegistry) : localRegistry :=
  let instance := services r !! ref in
  let names' :=
    match instance with
    | Some i => if bool_decide (iname i ≠ "") then delete (iname i) (names r) else names r
    | None => names r
    end in
  cleanupLocked later
    (mkRegistry (delete ref (services r)) names'
       (<[ref := (now + tombstoneTTL r)%Z]> (tombstones r))
       (tombstoneTTL r) (tombstoneLimit r)).

Definition snapshot (r : localRegistry) : list I := (map_to_list (services r)).*2.

Definition clear (r : localRegistry) : localRegistry :=
  mkRegistry ∅ ∅ ∅ (tombstoneTTL r) (tombstoneLimit r).

(** ** Eviction *)

Lemma evict_subseteq fuel limit t : evict fuel limit t ⊆ t.
Proof.
  revert t. induction fuel as [|fuel IH]; intros t; simpl; [done|].
  case_match; [|done]. case_match; [|done].
  etrans; [apply IH|apply delete_subseteq].
Qed.

Lemma evict_size fuel limit t :
  (0 ≤ limit)%Z → size t ≤ fuel → (Z.of_nat (size (evict fuel limit t)) ≤ limit)%Z.
Proof.
  intros Hl. revert t. induction fuel as [|fuel IH]; intros t Hs; simpl; [lia|].
  case_match; bool_prop; [|done].
  destruct (pick t) as [k|] eqn:Hp.
  - apply pick_some in Hp as [v Hv]. apply IH.
    rw map_size_delete_Some; [lia|by exists v].
  - apply pick_none in Hp. subst. rw map_size_empty in H. lia.
Qed.

Lemma cleanup_services now r : services (cleanupLocked now r) = services r.
Proof. done. Qed.
Lemma cleanup_names now r : names (cleanupLocked now r) = names r.
Proof. done. Qed.

Lemma cleanup_tombstones now r ref t :
  tombstones (cleanupLocked now r) !! ref = Some t →
  tombstones r !! ref = Some t ∧ (now < t)%Z.
Proof.
  simpl. intros Ht.
  eapply lookup_weaken in Ht; [|apply evict_subseteq].
  by apply map_lookup_filter_Some in Ht.
Qed.

Lemma cleanup_size now r :
  (0 ≤ tombstoneLimit r)%Z →
  (Z.of_nat (size (tombstones (cleanupLocked now r))) ≤ tombstoneLimit r)%Z.
Proof. intros. by apply evict_size. Qed.

(** ** The invariant *)

(** [ever] is the ghost set of all references ever added: [Runtime] draws
    references from a counter, so a fresh one is never in it. *)
Record registry_wf (ever : gset ServiceRef) (r : localRegistry) : Prop := {
  wf_key ref i : services r !! ref = Some i → iref i = ref;
  wf_ever ref i : services r !! ref = Some i → ref ∈ ever;
  wf_name n ref : names r !! n = Some ref →
    n ≠ "" ∧ ∃ i, services r !! ref = Some i ∧ iname i = n;
  wf_named ref i : services r !! ref = Some i → iname i ≠ "" →
    names r !! iname i = Some ref;
  wf_tomb ref t : tombstones r !! ref = Some t → services r !! ref = None ∧ ref ∈ ever
}.

Lemma wf_new ttl limit : registry_wf ∅ (newLocalRegistry ttl limit).
Proof. split; simpl; intros *; rw ?lookup_empty; done. Qed.

Lemma wf_cleanup ever now r : registry_wf ever r → registry_wf ever (cleanupLocked now r).
Proof.
  intros [Hk He Hn Hd Ht]. split; rw ?cleanup_services ?cleanup_names; auto.
  intros ref t H. apply cleanup_tombstones in H as [H _]. eauto.
Qed.

Lemma wf_add ever now i r :
  registry_wf ever r → iref i ∉ ever →
  registry_wf ({[iref i]} ∪ ever) (add now i r).1.
Proof.
  intros Hwf%(wf_cleanup _ now) Hfresh. unfold add.
  destruct Hwf as [Hk He Hn Hd Ht].
  case_match eqn:Hc; simpl.
  { split; try done.
    - intros ref j H%He. set_solver.
    - intros ref t H%Ht. destruct H. set_solver. }
  set (r' := cleanupLocked now r) in *.
  assert (services r' !! iref i = None) as Hnone.
  { destruct (services r' !! iref i) eqn:E; [|done]. by apply He in E. }
  assert (∀ ref j, <[iref i := i]> (services r') !! ref = Some j →
            (ref = iref i ∧ j = i) ∨ (ref ≠ iref i ∧ services r' !! ref = Some j)) as Hl.
  { intros ref j [[? ?]|[? ?]]%lookup_insert_Some; [left|right]; split; congruence. }
  split; simpl.
  - intros ref j [[-> ->]|[_ H]]%Hl; eauto.
  - intros ref j [[-> ->]|[_ H]]%Hl; [set_solver|]. apply He in H. set_solver.
  - intros n ref Hlook.
    assert (n ≠ "" ∧ ((n = iname i ∧ ref = iref i) ∨ names r' !! n = Some ref)) as [Hn0 Hor].
    { case_bool_decide as Hi.
      - apply lookup_insert_Some in Hlook as [[<- <-]|[? Hlook]].
        + split; [done|by left].
        + split; [by apply Hn in Hlook as [? _]|by right].
      - split; [by apply Hn in Hlook as [? _]|by right]. }
    split; [done|]. destruct Hor as [[-> ->]|H].
    + exists i. by rw lookup_insert_eq.
    + apply Hn in H as (_ & j & Hj & Hjn). exists j. rw lookup_insert_ne //.
      congruence.
  - intros ref j [[-> ->]|[Hne H]]%Hl Hne0.
    + by rw bool_decide_eq_true_2 // lookup_insert_eq.
    + specialize (Hd _ _ H Hne0). case_bool_decide as Hi; [|done].
      rw lookup_insert_ne //. intros Heq.
      apply andb_false_iff in Hc as [Hc|Hc]; bool_prop; [done|].
      apply Hc. rw Heq. by eexists.
  - intros ref t H%Ht. destruct H as [Hs Hin]. split; [|set_solver].
    rw lookup_insert_ne //. congruence.
Qed.

Lemma wf_remove ever now later ref r :
  registry_wf ever r → registry_wf ({[ref]} ∪ ever) (remove now later ref r).
Proof.
  intros [Hk He Hn Hd Ht]. apply wf_cleanup.
  assert (∀ n ref', (match services r !! ref with
                     | Some i => if bool_decide (iname i ≠ "") then delete (iname i) (names r)
                                 else names r
                     | None => names r end) !! n = Some ref' →
            names r !! n = Some ref' ∧ ref' ≠ ref) as Hnames.
  { intros n ref' H. destruct (services r !! ref) as [i|] eqn:Hs.
    - case_bool_decide as Hi.
      + apply lookup_delete_Some in H as [? H]. split; [done|].
        intros ->. apply Hn in H as (_ & j & ? & ?). congruence.
      + split; [done|]. intros ->. apply Hn in H as (? & j & ? & ?). congruence.
    - split; [done|]. intros ->. apply Hn in H as (? & j & ? & ?). congruence. }
  split; simpl.
  - intros ref' i [_ H]%lookup_delete_Some. eauto.
  - intros ref' i [_ H%He]%lookup_delete_Some. set_solver.
  - intros n ref' [H Hne]%Hnames. apply Hn in H as (? & i & Hi & ?).
    split; [done|]. exists i. by rw lookup_delete_ne.
  - intros ref' i [Hne Hi]%lookup_delete_Some Hi0.
    pose proof (Hd _ _ Hi Hi0) as Hnm.
    destruct (services r !! ref) as [j|] eqn:Hs; [|done].
    case_bool_decide as Hj; [|done].
    rw lookup_delete_ne //. intros Heq.
    pose proof (Hd _ _ Hs Hj). congruence.
  - intros ref' t [[<- _]|[? [? ?]%Ht]]%lookup_insert_Some.
    + rw lookup_delete_eq. set_solver.
    + rw lookup_delete_ne //. set_solver.
Qed.

(** ** Reachable registries

    The steps are the registry calls the Runtime makes: [CreateService] adds
    an instance with a reference drawn from the counter, [finalize] removes a
    live one, every lookup cleans up, [closeRuntime] clears. *)
Inductive registry_step : gset ServiceRef * localRegistry → gset ServiceRef * localRegistry → Prop :=
| step_add ever r now i :
    iref i ∉ ever → registry_step (ever, r) ({[iref i]} ∪ ever, (add now i r).1)
| step_get ever r now ref : registry_step (ever, r) (ever, (get now ref r).1)
| step_remove ever r now later ref :
    registry_step (ever, r) ({[ref]} ∪ ever, remove now later ref r)
| step_clear ever r : registry_step (ever, r) (ever, clear r).

Definition registry_reachable (s : gset ServiceRef * localRegistry) : Prop :=
  ∃ ttl limit, rtc registry_step (∅, newLocalRegistry ttl limit) s.

Lemma wf_step s s' : registry_step s s' → registry_wf s.1 s.2 → registry_wf s'.1 s'.2.
Proof.
  destruct 1; simpl; eauto using wf_add, wf_remove, wf_cleanup.
  intros _. split; simpl; intros *; rw ?lookup_empty; done.
Qed.

Lemma wf_steps s s' : rtc registry_step s s' → registry_wf s.1 s.2 → registry_wf s'.1 s'.2.
Proof. induction 1; eauto using wf_step. Qed.

Lemma reachable_wf s : registry_reachable s → registry_wf s.1 s.2.
Proof. intros (ttl & limit & H). eapply wf_steps; [done|]. apply wf_new. Qed.

(** A reference that was used and is not live never becomes live again. *)
Lemma dead_step s s' ref :
  registry_step s s' → ref ∈ s.1 → services s.2 !! ref = None →
  ref ∈ s'.1 ∧ services s'.2 !! ref = None.
Proof.
  destruct 1 as [ever r now i Hi|ever r now ref'|ever r now later ref'|ever r]; simpl;
    intros Hin Hnone; (split; [set_solver|]); rw ?lookup_empty //.
  - unfold add. case_match; simpl; [done|]. rw lookup_insert_ne //. congruence.
  - apply lookup_delete_None. by right.
Qed.

Lemma dead_steps s s' ref :
  rtc registry_step s s' → ref ∈ s.1 → services s.2 !! ref = None →
  services s'.2 !! ref = None.
Proof.
  induction 1 as [|s1 s2 s3 Hs _ IH]; [done|]. intros Hin Hn.
  destruct (dead_step _ _ _ Hs Hin Hn). auto.
Qed.

Lemma limit_step s s' : registry_step s s' → tombstoneLimit s'.2 = tombstoneLimit s.2.
Proof. destruct 1; simpl; try done. unfold add. by case_match. Qed.

Lemma size_step s s' :
  (0 ≤ tombstoneLimit s.2)%Z → registry_step s s' →
  (Z.of_nat (size (tombstones s.2)) ≤ tombstoneLimit s.2)%Z →
  (Z.of_nat (size (tombstones s'.2)) ≤ tombstoneLimit s'.2)%Z.
Proof.
  intros Hl. destruct 1 as [ever r now i Hi|ever r now ref'|ever r now later ref'|ever r];
    simpl in *; intros Hs.
  - pose proof (cleanup_size now r Hl). unfold add. by case_match.
  - by apply evict_size.
  - by apply evict_size.
  - rw map_size_empty. lia.
Qed.
End Registry.

Arguments localRegistry : clear implicits.

(** ** Properties *)

(** A name always resolves to a live service that carries it: in every
    reachable registry, [resolve] never returns a dangling or foreign
    reference, and conversely every live named service is the one its name
    resolves to, so no two live services share a name. *)
Theorem registry_names_live {I} (iref : I → ServiceRef) (iname : I → ServiceName)
    {Hpick : MapPick ServiceRef Time} (s : gset ServiceRef * localRegistry I)
    (Hreach : registry_reachable iref iname s) :
  (∀ n ref now, resolve n s.2 = Ok ref →
     ∃ i, (get now ref s.2).2 = Ok i ∧ iname i = n ∧ iref i = ref) ∧
  (∀ now ref i, (get now ref s.2).2 = Ok i → iname i ≠ "" → resolve (iname i) s.2 = Ok ref).
Proof.
  destruct (reachable_wf _ _ _ Hreach) as [Hk He Hn Hd Ht]. split.
  - intros n ref now. unfold resolve, get. case_match eqn:E; [|done]. intros [= <-].
    apply Hn in E as (_ & i & Hi & Hin). exists i. rw cleanup_services Hi. eauto.
  - intros now ref i. unfold get, resolve. simpl. case_match eqn:E; [|by case_match].
    intros [= ->] Hne. by rw (Hd _ _ E Hne).
Qed.

Lemma registry_names_live_witness :
  let r0 := newLocalRegistry 60 4 in
  let r := (@add _ fst snd headPick 5 (mkRef "n" 1, "wallet") r0).1 in
  resolve "wallet" r = Ok (mkRef "n" 1) ∧
  ∃ i, (@get _ headPick 9 (mkRef "n" 1) r).2 = Ok i ∧ i.2 = "wallet" ∧ i.1 = mkRef "n" 1.
Proof.
  set (r0 := newLocalRegistry 60 4).
  set (r := (@add _ fst snd headPick 5 (mkRef "n" 1, "wallet") r0).1).
  assert (resolve "wallet" r = Ok (mkRef "n" 1)) as Hr by (vm_compute; reflexivity).
  split; [exact Hr|].
  apply (registry_names_live (Hpick := headPick) fst snd ({[mkRef "n" 1]} ∪ ∅, r)); [|exact Hr].
  exists 60%Z, 4%Z. apply rtc_once.
  apply (step_add fst snd ∅ r0 5 (mkRef "n" 1, "wallet")). apply not_elem_of_empty.
Defined.

(** Removal is final and bounded: once [remove] took a reference out, every
    later lookup of it fails, as closed while its tombstone is kept and as not
    found afterwards, whatever services are created meanwhile (references come
    from a counter and are not reused); and the number of tombstones never
    exceeds the configured limit. *)
Theorem registry_removed_final {I} (iref : I → ServiceRef) (iname : I → ServiceName)
    {Hpick : MapPick ServiceRef Time} (ttl : Duration) (limit : Z)
    (ever : gset ServiceRef) (r : localRegistry I) (now later : Time) (ref : ServiceRef)
    (s' : gset ServiceRef * localRegistry I)
    (Hlimit : (0 ≤ limit)%Z)
    (Hreach : rtc (registry_step iref iname) (∅, newLocalRegistry ttl limit) (ever, r))
    (Hafter : rtc (registry_step iref iname) ({[ref]} ∪ ever, remove iname now later ref r) s') :
  (∀ now', (get now' ref s'.2).2 = Err ErrServiceClosed ∨
           (get now' ref s'.2).2 = Err ErrServiceNotFound) ∧
  (Z.of_nat (size (tombstones s'.2)) ≤ limit)%Z.
Proof.
  split.
  - intros now'. unfold get. rw cleanup_services.
    rw (dead_steps _ _ _ _ _ Hafter); [case_match; auto|set_solver|].
    simpl. apply lookup_delete_eq.
  - assert (rtc (registry_step iref iname) (∅, newLocalRegistry ttl limit) s') as Hall.
    { etrans; [exact Hreach|]. eapply rtc_l; [apply step_remove|exact Hafter]. }
    clear Hreach Hafter.
    assert (∀ s, rtc (registry_step iref iname) s s' →
      (0 ≤ tombstoneLimit s.2)%Z → (Z.of_nat (size (tombstones s.2)) ≤ tombstoneLimit s.2)%Z →
      (Z.of_nat (size (tombstones s'.2)) ≤ tombstoneLimit s.2)%Z) as Hgen.
    { induction 1 as [|s1 s2 s3 Hs _ IH]; [done|]. intros Hl Hsz.
      pose proof (size_step _ _ _ _ Hl Hs Hsz). rw -(limit_step _ _ _ _ Hs) in Hl |- *. auto. }
    apply (Hgen _ Hall); simpl; [done|]. rw map_size_empty. lia.
Qed.

Lemma registry_removed_final_witness :
  let r0 := newLocalRegistry 60 4 in
  let r := (@add _ fst snd headPick 5 (mkRef "n" 1, "wallet") r0).1 in
  let r' := @remove _ snd headPick 7 7 (mkRef "n" 1) r in
  (@get _ headPick 8 (mkRef "n" 1) r').2 = Err ErrServiceClosed ∧
  (Z.of_nat (size (tombstones r')) ≤ 4)%Z.
Proof.
  set (r0 := newLocalRegistry 60 4).
  set (r := (@add _ fst snd headPick 5 (mkRef "n" 1, "wallet") r0).1).
  split; [vm_compute; reflexivity|].
  apply (registry_removed_final (Hpick := headPick) fst snd 60 4 ({[mkRef "n" 1]} ∪ ∅) r 7 7
           (mkRef "n" 1) ({[mkRef "n" 1]} ∪ ({[mkRef "n" 1]} ∪ ∅), @remove _ snd headPick 7 7 (mkRef "n" 1) r)).
  - lia.
  - apply rtc_once, (step_add fst snd ∅ r0 5 (mkRef "n" 1, "wallet")), not_elem_of_empty.
  - apply rtc_refl.
Defined.
