(* ===== verification/Pending.v ===== *)
(** * Pending calls

    [src/runtime/call.go], the table of outstanding calls.  A caller creates an
    entry with a one-slot result channel; a reply, a node failure, a service
    failure or a shutdown takes entries out of the table under [p.mu] and sends
    to their channels after the mutex was released.  The table operations are
    functions; the interleavings of takers, senders and waiters are the step
    relation [call_step]. *)

From stdpp Require Import prelude gmap strings list ssreflect.
From Stdlib Require Import ZArith Lia.
From S2P Require Import Prelude Types.

Section Pending.
Context {A : Type}.

(** [chan] identifies the [make(chan callResult, 1)] of the call. *)
Record pendingCall := mkCall {
  csource : ServiceRef;
  ctarget : ServiceRef;
  ccommand : CommandID;
  chan : nat
}.

Record callResult := mkResult { rvalue : any A; rerr : error rtError }.

Record pendingCalls := mkPending { next : Z; calls : gmap SessionID pendingCall }.

Definition newPendingCalls : pendingCalls := mkPending 0 ∅.

(** The [for] loop of [create]: draw sessions until one is neither zero nor in
    use.  [fuel] bounds the rounds; [createLoop_total] shows that two more
    than there are calls is enough. *)
Fixpoint createLoop (fuel : nat) (call : pendingCall) (p : pendingCalls)
  : option (pendingCalls * SessionID) :=
  match fuel with
  | O => None
  | S fuel =>
      let session := u64_succ (next p) in
      let p' := mkPending session (calls p) in
      if Z.eqb session 0 then createLoop fuel call p'
      else match calls p !! session with
           | None => Some (mkPending session (<[session := call]> (calls p)), session)
           | Some _ => createLoop fuel call p'
           end
  end.

Definition create (source target : ServiceRef) (command : CommandID) (ch : nat)
    (p : pendingCalls) : option (pendingCalls * SessionID) :=
  createLoop (size (calls p) + 2) (mkCall source target command ch) p.

Definition remove (session : SessionID) (p : pendingCalls) : pendingCalls :=
  mkPending (next p) (delete session (calls p)).

Definition matches (source target : ServiceRef) (command : CommandID) (c : pendingCall) : bool :=
  bool_decide (csource c = source) && bool_decide (ctarget c = target)
    && Z.eqb (ccommand c) command.

Definition take (source target : ServiceRef) (command : CommandID) (session : SessionID)
    (p : pendingCalls) : pendingCalls * option pendingCall :=
  match calls p !! session with
  | Some c => if matches source target command c then (remove session p, Some c) else (p, None)
  | None => (p, None)
  end.

(** The three failure loops delete every entry that satisfies a test and send
    the error to each of them. *)
Definition failWhere (test : pendingCall → bool) (p : pendingCalls)
  : pendingCalls * list pendingCall :=
  (mkPending (next p) (filter (λ e, test e.2 = false) (calls p)),
   (map_to_list (filter (λ e, test e.2 = true) (calls p))).*2).

Definition nodeTest (node : NodeID) (c : pendingCall) : bool :=
  bool_decide (Node (csource c) = node) || bool_decide (Node (ctarget c) = node).
Definition serviceTest (ref : ServiceRef) (c : pendingCall) : bool :=
  bool_decide (csource c = ref) || bool_decide (ctarget c = ref).

Definition failNode (node : NodeID) := failWhere (nodeTest node).
Definition failService (ref : ServiceRef) := failWhere (serviceTest ref).
Definition failAll := failWhere (λ _, true).

Definition count (p : pendingCalls) : Z := Z.of_nat (size (calls p)).

(** ** Result channels *)

(** [ch <- r] on a channel of capacity one: [None] means the send blocks. *)
Definition sendResult (chans : gmap nat (list callResult)) (ch : nat) (r : callResult)
  : option (gmap nat (list callResult)) :=
  match chans !! ch with
  | Some [] => Some (<[ch := [r]]> chans)
  | _ => None
  end.

(** [complete]: take the matching call and send to it; the boolean is its
    return value, [None] means that the send blocks. *)
Definition complete (source target : ServiceRef) (command : CommandID) (session : SessionID)
    (r : callResult) (p : pendingCalls) (chs : gmap nat (list callResult))
  : option (pendingCalls * gmap nat (list callResult) * bool) :=
  match take source target command session p with
  | (p', Some c) => (λ chs', (p', chs', true)) <$> sendResult chs (chan c) r
  | (p', None) => Some (p', chs, false)
  end.

(** What a waiter sees of its context. *)
Inductive ctxStatus := CtxLive | CtxDeadline | CtxCanceled.

(** [select] between the result channel and [ctx.Done]; when both are ready
    Go picks either, which is [preferCtx].  [None]: still waiting. *)
Definition wait (preferCtx : bool) (buffered : option callResult) (ctx : ctxStatus)
  : option (any A * error rtError) :=
  let ctxResult :=
    match ctx with
    | CtxLive => None
    | CtxDeadline => Some (AnyNil, Some (Sentinel ErrTimeout))
    | CtxCanceled => Some (AnyNil, Some ContextCanceled)
    end in
  match buffered, ctxResult with
  | Some r, None => Some (rvalue r, rerr r)
  | Some r, Some c => Some (if preferCtx then c else (rvalue r, rerr r))
  | None, c => c
  end.

(** ** All interleavings

    [inflight] holds the calls that left the table and whose result is still
    to be sent; [delivered] is the ghost log of completed sends. *)
Record callSystem := mkSystem {
  table : pendingCalls;
  chans : gmap nat (list callResult);
  nextChan : nat;
  inflight : list (pendingCall * callResult);
  delivered : list nat
}.

Definition initSystem : callSystem := mkSystem newPendingCalls ∅ 0 [] [].

Inductive call_step : callSystem → callSystem → Prop :=
| st_create s source target command p session :
    create source target command (nextChan s) (table s) = Some (p, session) →
    call_step s (mkSystem p (<[nextChan s := []]> (chans s)) (S (nextChan s))
                   (inflight s) (delivered s))
| st_remove s session :
    call_step s (mkSystem (remove session (table s)) (chans s) (nextChan s)
                   (inflight s) (delivered s))
| st_take s source target command session p c r :
    take source target command session (table s) = (p, Some c) →
    call_step s (mkSystem p (chans s) (nextChan s) ((c, r) :: inflight s) (delivered s))
| st_fail s test p failed r :
    failWhere test (table s) = (p, failed) →
    call_step s (mkSystem p (chans s) (nextChan s)
                   (((λ c, (c, r)) <$> failed) ++ inflight s) (delivered s))
| st_send s before c r after chans' :
    inflight s = before ++ (c, r) :: after →
    sendResult (chans s) (chan c) r = Some chans' →
    call_step s (mkSystem (table s) chans' (nextChan s) (before ++ after)
                   (chan c :: delivered s))
| st_receive s ch r :
    chans s !! ch = Some [r] →
    call_step s (mkSystem (table s) (<[ch := []]> (chans s)) (nextChan s)
                   (inflight s) (delivered s)).

(** ** Session allocation *)

Lemma createLoop_spec fuel call p p' session :
  createLoop fuel call p = Some (p', session) →
  session ≠ 0%Z ∧ is_u64 session ∧ calls p !! session = None ∧
  calls p' = <[session := call]> (calls p).
Proof.
  revert p. induction fuel as [|fuel IH]; intros p; simpl; [done|].
  case_match eqn:E0; [intros H; by apply IH in H|].
  case_match eqn:E1; [intros H; by apply IH in H|].
  intros [= <- <-]. bool_prop. split_and!; auto with gsr. apply u64_range.
Qed.

Lemma createLoop_None fuel call p :
  createLoop fuel call p = None →
  ∀ i, i < fuel → u64 (next p + 1 + Z.of_nat i) ∈ ({[0%Z]} ∪ dom (calls p) : gset Z).
Proof.
  revert p. induction fuel as [|fuel IH]; intros p; simpl; [lia|]. intros H i Hi.
  assert (createLoop fuel call (mkPending (u64_succ (next p)) (calls p)) = None ∧
          u64_succ (next p) ∈ ({[0%Z]} ∪ dom (calls p) : gset Z)) as [Hrec Hin].
  { case_match eqn:E0; bool_prop.
    - split; [done|]. rw E0. set_solver.
    - case_match eqn:E1; [|done]. split; [done|].
      apply elem_of_union_r, elem_of_dom. eauto. }
  destruct i as [|i]; [by rw Z.add_0_r|].
  specialize (IH _ Hrec i ltac:(lia)). simpl in IH. unfold u64_succ in IH.
  rw -Z.add_assoc u64_add_l in IH.
  by rw (_ : (next p + 1 + Z.of_nat (S i) = next p + 1 + (1 + Z.of_nat i))%Z); [|lia].
Qed.

(** With fewer than [2^64 - 1] outstanding calls the loop ends. *)
Lemma createLoop_total call p :
  (Z.of_nat (size (calls p)) + 2 ≤ u64_mod)%Z →
  is_Some (createLoop (size (calls p) + 2) call p).
Proof.
  intros Hsz. destruct (createLoop _ call p) as [[p' ses]|] eqn:E; [eauto|exfalso].
  pose proof (createLoop_None _ _ _ E) as Hall.
  set (n := size (calls p) + 2) in *.
  pose proof (u64_seq_NoDup (next p + 1) n ltac:(lia)) as Hnd.
  apply NoDup_submseteq with (k := elements ({[0%Z]} ∪ dom (calls p) : gset Z)) in Hnd.
  - apply submseteq_length in Hnd. rw length_fmap length_seq in Hnd.
    assert (size ({[0%Z]} ∪ dom (calls p) : gset Z) ≤ 1 + size (calls p)).
    { rw size_union_alt size_singleton -(size_dom (calls p)).
      apply Nat.add_le_mono_l, subseteq_size. set_solver. }
    change (length (elements ({[0%Z]} ∪ dom (calls p) : gset Z)))
      with (size ({[0%Z]} ∪ dom (calls p) : gset Z)) in Hnd.
    unfold n in Hnd. lia.
  - intros x Hx. apply list_elem_of_fmap in Hx as (i & -> & Hi).
    apply elem_of_seq in Hi. apply elem_of_elements, Hall. lia.
Qed.

Lemma create_spec source target command ch p :
  (Z.of_nat (size (calls p)) + 2 ≤ u64_mod)%Z →
  ∃ p' session, create source target command ch p = Some (p', session) ∧
    session ≠ 0%Z ∧ is_u64 session ∧ calls p !! session = None ∧
    calls p' = <[session := mkCall source target command ch]> (calls p).
Proof.
  intros Hsz. destruct (createLoop_total (mkCall source target command ch) p Hsz)
    as [[p' session] E].
  exists p', session. split; [done|]. by eapply createLoop_spec.
Qed.

(** ** At most one result per call *)

Definition chansOf (m : gmap SessionID pendingCall) : list nat := (λ e, chan e.2) <$> map_to_list m.

Lemma chansOf_insert m k c :
  m !! k = None → chansOf (<[k := c]> m) ≡ₚ chan c :: chansOf m.
Proof. intros H. unfold chansOf. by rw map_to_list_insert. Qed.

Lemma chansOf_delete m k c :
  m !! k = Some c → chansOf m ≡ₚ chan c :: chansOf (delete k m).
Proof.
  intros H. rw -{1}(insert_delete_id m k c H). apply chansOf_insert, lookup_delete_eq.
Qed.

Lemma chansOf_filter m (test : pendingCall → bool) :
  chansOf m ≡ₚ (chan <$> (map_to_list (filter (λ e, test e.2 = true) m)).*2)
               ++ chansOf (filter (λ e, test e.2 = false) m).
Proof.
  induction m as [|k c m Hk IH] using map_ind; [done|].
  rw chansOf_insert //. destruct (test c) eqn:Ht.
  - rw map_filter_insert_True // map_filter_insert_False /=; [|congruence].
    rw delete_id // map_to_list_insert; [|by apply map_lookup_filter_None; left].
    simpl. by rw IH.
  - rw map_filter_insert_False /=; [|congruence].
    rw delete_id // map_filter_insert_True // chansOf_insert;
      [|by apply map_lookup_filter_None; left].
    rw IH. by rw Permutation_middle.
Qed.

(** Every channel is in the table, in flight or already served, and only once
    in all three together; a channel is empty until it is served. *)
Record call_inv (s : callSystem) : Prop := {
  ci_nodup : NoDup (chansOf (calls (table s)) ++ (chan ∘ fst <$> inflight s) ++ delivered s);
  ci_alloc ch : ch ∈ chansOf (calls (table s)) ++ (chan ∘ fst <$> inflight s) ++ delivered s →
    ch < nextChan s;
  ci_chans ch : ch < nextChan s → ∃ l, chans s !! ch = Some l ∧ (ch ∉ delivered s → l = [])
}.

Lemma call_inv_init : call_inv initSystem.
Proof.
  split; simpl.
  - constructor.
  - intros ch H. by apply not_elem_of_nil in H.
  - lia.
Qed.

(** A step that only moves channels around, or drops some, keeps the first
    two clauses. *)
Lemma call_inv_sub s s' :
  call_inv s → nextChan s' = nextChan s → chans s' = chans s → delivered s' = delivered s →
  chansOf (calls (table s')) ++ (chan ∘ fst <$> inflight s') ⊆+
    chansOf (calls (table s)) ++ (chan ∘ fst <$> inflight s) →
  call_inv s'.
Proof.
  intros [Hn Ha Hc] E1 E2 E3 Hsub.
  assert (chansOf (calls (table s')) ++ (chan ∘ fst <$> inflight s') ++ delivered s' ⊆+
    chansOf (calls (table s)) ++ (chan ∘ fst <$> inflight s) ++ delivered s) as Hsub'.
  { rw E3 !assoc. by apply submseteq_skips_r. }
  split.
  - eapply submseteq_NoDup; eauto.
  - intros ch Hch. rw E1. apply Ha. by eapply submseteq_elem_of.
  - intros ch. rw E1 E2 E3. apply Hc.
Qed.

Lemma take_spec source target command session p p' oc :
  take source target command session p = (p', oc) →
  (∃ c, oc = Some c ∧ calls p !! session = Some c ∧ csource c = source ∧
        ctarget c = target ∧ ccommand c = command ∧
        calls p' = delete session (calls p)) ∨
  (oc = None ∧ p' = p).
Proof.
  unfold take, matches. intros H. split_hyp H; bool_prop; [left|by right|by right].
  eexists. split_and!; eauto.
Qed.

Lemma call_inv_create s source target command p session :
  create source target command (nextChan s) (table s) = Some (p, session) →
  call_inv s →
  call_inv (mkSystem p (<[nextChan s := []]> (chans s)) (S (nextChan s))
              (inflight s) (delivered s)).
Proof.
  intros (_ & _ & Hnew & Hp)%createLoop_spec [Hn Ha Hc].
  assert (chansOf (calls p) ≡ₚ nextChan s :: chansOf (calls (table s))) as Hperm.
  { rw Hp. by apply chansOf_insert. }
  split; simpl.
  - rw Hperm. simpl. apply NoDup_cons. split; [|done].
    intros Hin. apply Ha in Hin. lia.
  - intros ch. rw Hperm. simpl. intros [->|Hin]%elem_of_cons; [lia|].
    apply Ha in Hin. lia.
  - intros ch Hch. destruct (decide (ch = nextChan s)) as [->|Hne].
    + exists []. by rw lookup_insert_eq.
    + rw lookup_insert_ne //. apply Hc. lia.
Qed.

Lemma call_inv_send s before c r after chans' :
  inflight s = before ++ (c, r) :: after →
  sendResult (chans s) (chan c) r = Some chans' →
  call_inv s →
  call_inv (mkSystem (table s) chans' (nextChan s) (before ++ after) (chan c :: delivered s)).
Proof.
  intros Hi Hs [Hn Ha Hc]. rw Hi in Hn Ha.
  assert (chansOf (calls (table s)) ++ (chan ∘ fst <$> before ++ after) ++ chan c :: delivered s
    ≡ₚ chansOf (calls (table s)) ++ (chan ∘ fst <$> before ++ (c, r) :: after) ++ delivered s)
    as Hperm.
  { rw !fmap_app fmap_cons /=. solve_Permutation. }
  unfold sendResult in Hs. split_hyp Hs.
  split; simpl.
  - by rw Hperm.
  - intros ch Hin. rw Hperm in Hin. by apply Ha in Hin.
  - intros ch Hch. destruct (decide (ch = chan c)) as [->|Hne].
    + eexists. rw lookup_insert_eq. split; [done|]. intros []. by left.
    + rw lookup_insert_ne //. apply Hc in Hch as (l & Hl & Hd). exists l. split; [done|].
      intros Hnd. apply Hd. set_solver.
Qed.

Lemma call_inv_receive s ch r :
  chans s !! ch = Some [r] → call_inv s →
  call_inv (mkSystem (table s) (<[ch := []]> (chans s)) (nextChan s) (inflight s) (delivered s)).
Proof.
  intros Hch [Hn Ha Hc]. split; simpl; auto.
  intros ch' Hlt. destruct (decide (ch' = ch)) as [->|Hne].
  - exists []. by rw lookup_insert_eq.
  - rw lookup_insert_ne //. auto.
Qed.

Lemma call_inv_step s s' : call_step s s' → call_inv s → call_inv s'.
Proof.
  destruct 1 as [s source target command p session Hcr|s session|s source target command session p c r Ht
    |s test p failed r Hf|s before c r after chans' Hi Hs|s ch r Hch]; intros Hinv.
  - by eapply call_inv_create.
  - apply (call_inv_sub s); simpl; auto. apply submseteq_skips_r.
    destruct (calls (table s) !! session) as [c|] eqn:E.
    + rw (chansOf_delete _ _ _ E). by apply submseteq_cons.
    + by rw delete_id.
  - apply take_spec in Ht as [(c' & [= <-] & Hl & _ & _ & _ & Hp)|[? _]]; [|done].
    apply (call_inv_sub s); simpl; auto. rw Hp (chansOf_delete _ _ _ Hl).
    by rw -Permutation_middle.
  - injection Hf as <- <-. apply (call_inv_sub s); simpl; auto.
    rw (chansOf_filter (calls (table s)) test) fmap_app -list_fmap_compose.
    apply Permutation_submseteq.
    rw (_ : (chan ∘ fst) ∘ (λ c, (c, r)) = chan) //. solve_Permutation.
  - by eapply call_inv_send.
  - by eapply call_inv_receive.
Qed.

Lemma call_inv_reachable s : rtc call_step initSystem s → call_inv s.
Proof.
  intros H. assert (∀ s0, rtc call_step s0 s → call_inv s0 → call_inv s) as Hgen.
  { induction 1; eauto using call_inv_step. }
  eapply Hgen; [done|apply call_inv_init].
Qed.
End Pending.

Arguments callResult : clear implicits.
Arguments callSystem : clear implicits.

(** ** Properties *)

(** C8. A call gets at most one result, and no sender ever blocks: under every
    interleaving of replies, node failures, service failures, shutdown,
    timeouts and waiters, the one-slot channel of each call that left the table
    is empty when its result is sent (so [call.result <- result] outside the
    mutex cannot block the runtime), and no channel is ever sent to twice. *)
Theorem call_result_exactly_once {A} (s : callSystem A) (Hreach : rtc call_step initSystem s) :
  (∀ c r, (c, r) ∈ inflight s → is_Some (sendResult (chans s) (chan c) r)) ∧
  NoDup (delivered s).
Proof.
  destruct (call_inv_reachable s Hreach) as [Hn Ha Hc].
  apply NoDup_app in Hn as (_ & _ & Hn). apply NoDup_app in Hn as (_ & Hdisj & Hd).
  split; [|done]. intros c r Hin.
  assert (chan c ∈ (chan ∘ fst <$> inflight s)) as Hin'
    by (apply list_elem_of_fmap; by exists (c, r)).
  destruct (Hc (chan c)) as (l & Hl & Hempty).
  { apply Ha. set_solver. }
  unfold sendResult. rw Hl (Hempty (Hdisj _ Hin')). eauto.
Qed.

Lemma call_result_exactly_once_witness :
  let caller := mkRef "a" 1 in let callee := mkRef "b" 2 in
  let c := mkCall caller callee 7 0 in
  let r := mkResult (AnyApp 5%nat) None in
  let s := mkSystem (mkPending 1 ∅) {[0 := []]} 1 [(c, r)] [] in
  is_Some (sendResult (chans s) (chan c) r).
Proof.
  set (caller := mkRef "a" 1). set (callee := mkRef "b" 2).
  set (c := mkCall caller callee 7 0). set (r := mkResult (AnyApp 5%nat) None).
  set (s := mkSystem (mkPending 1 ∅) {[0 := []]} 1 [(c, r)] []).
  assert (rtc call_step initSystem s) as Hreach.
  { eapply rtc_l; [apply (st_create initSystem caller callee 7 (mkPending 1 {[1%Z := c]}) 1);
                   reflexivity|].
    eapply rtc_l; [eapply (st_take _ caller callee 7 1 (mkPending 1 ∅) c r); reflexivity|].
    apply rtc_refl. }
  apply (proj1 (call_result_exactly_once s Hreach) c r). by left.
Defined.

(** Allocating a session terminates and is fresh: with fewer than [2^64 - 1]
    outstanding calls [create] returns a non-zero 64-bit session that no
    outstanding call uses, even after the counter wrapped around, and changes
    nothing but that one entry. *)
Theorem create_fresh_session (source target : ServiceRef) (command : CommandID) (ch : nat)
    (p : pendingCalls) (Hroom : (Z.of_nat (size (calls p)) + 2 ≤ u64_mod)%Z) :
  ∃ p' session, create source target command ch p = Some (p', session) ∧
    session ≠ 0%Z ∧ is_u64 session ∧ calls p !! session = None ∧
    calls p' = <[session := mkCall source target command ch]> (calls p).
Proof. by apply create_spec. Qed.

Lemma create_fresh_session_witness :
  let c := mkCall zeroRef zeroRef 1 0 in
  let p := mkPending u64_max {[1%Z := c]} in
  ∃ p' session, create zeroRef zeroRef 9 3 p = Some (p', session) ∧ session = 2%Z ∧
    calls p !! session = None.
Proof.
  set (c := mkCall zeroRef zeroRef 1 0). set (p := mkPending u64_max {[1%Z := c]}).
  destruct (create_fresh_session zeroRef zeroRef 9 3 p) as (p' & session & H & _ & _ & Hn & _).
  { vm_compute. discriminate. }
  exists p', session. split; [exact H|]. split; [|exact Hn].
  assert (create zeroRef zeroRef 9 3 p =
          Some (mkPending 2 (<[2%Z := mkCall zeroRef zeroRef 9 3]> (calls p)), 2%Z)) as E
    by reflexivity.
  congruence.
Defined.

(** A reply reaches exactly the call it answers: after [create], only a
    reply with the same caller, callee, command and session completes the call;
    it puts the result into that call's channel and forgets the call, so any
    second reply is reported as late; a reply with any other identity changes
    nothing. *)
Theorem reply_reaches_its_call {A} (source target : ServiceRef) (command : CommandID)
    (ch : nat) (p p' : pendingCalls) (session : SessionID)
    (chs : gmap nat (list (callResult A))) (r : callResult A)
    (Hcreate : create source target command ch p = Some (p', session))
    (Hempty : chs !! ch = Some []) :
  (∃ p'', complete source target command session r p' chs = Some (p'', <[ch := [r]]> chs, true) ∧
     calls p'' = calls p ∧
     ∀ chs' (r' : callResult A), complete source target command session r' p'' chs' = Some (p'', chs', false)) ∧
  (∀ source' target' command',
     (source', target', command') ≠ (source, target, command) →
     complete source' target' command' session r p' chs = Some (p', chs, false)).
Proof.
  apply createLoop_spec in Hcreate as (_ & _ & Hnone & Hp').
  assert (calls p' !! session = Some (mkCall source target command ch)) as Hl
    by (by rw Hp' lookup_insert_eq).
  split.
  - exists (remove session p'). split_and!.
    + unfold complete, take, matches. rw Hl /= !bool_decide_eq_true_2 // Z.eqb_refl /=.
      by rw /sendResult Hempty.
    + simpl. by rw Hp' delete_insert_id.
    + intros chs' r'. unfold complete, take. by rw lookup_delete_eq.
  - intros source' target' command' Hne. unfold complete, take. rw Hl.
    destruct (matches _ _ _ _) eqn:E; [|done]. unfold matches in E.
    bool_prop. simpl in *. congruence.
Qed.

Lemma reply_reaches_its_call_witness :
  let r := mkResult (AnyApp 5%nat) None in
  let p' := mkPending 1 {[1%Z := mkCall (mkRef "a" 1) (mkRef "b" 2) 7 0]} in
  complete (mkRef "x" 1) (mkRef "b" 2) 7 1 r p' {[0 := []]} = Some (p', {[0 := []]}, false).
Proof.
  set (r := mkResult (AnyApp 5%nat) None).
  set (p' := mkPending 1 {[1%Z := mkCall (mkRef "a" 1) (mkRef "b" 2) 7 0]}).
  apply (reply_reaches_its_call (mkRef "a" 1) (mkRef "b" 2) 7 0 newPendingCalls p' 1 {[0 := []]} r);
    [reflexivity|reflexivity|discriminate].
Defined.
