(* ===== verification/Timers.v ===== *)
(** * Timers

    [src/runtime/timer.go].  A timer is an entry of the manager's map plus a
    [time.AfterFunc] whose callback removes the entry under the mutex and calls
    [fire] only if the entry was still there.  [time.Timer.Stop] after a removal
    merely saves the callback from running in vain, so the model lets the
    callback of any timer run at any time, once or more: [expire]. *)

From stdpp Require Import prelude gmap strings list ssreflect.
From Stdlib Require Import ZArith Lia.
From S2P Require Import Prelude Types.

Record timerManager := mkTimers {
  nextTimer : Z;
  timers : gmap TimerID ServiceRef
}.

Definition newTimerManager : timerManager := mkTimers 0 ∅.

(** [add]: the identifier and the manager that holds the new entry.  The delay
    only decides when the callback runs, which the model leaves open. *)
Definition addTimer (target : ServiceRef) (m : timerManager) : timerManager * TimerID :=
  let id := u64_succ (nextTimer m) in
  (mkTimers id (<[id := target]> (timers m)), id).

(** The callback given to [time.AfterFunc]: [true] when it calls [fire]. *)
Definition expire (id : TimerID) (m : timerManager) : timerManager * bool :=
  (mkTimers (nextTimer m) (delete id (timers m)), bool_decide (is_Some (timers m !! id))).

Definition cancel (id : TimerID) (m : timerManager) : timerManager :=
  mkTimers (nextTimer m) (delete id (timers m)).

Definition cancelTarget (target : ServiceRef) (m : timerManager) : timerManager :=
  mkTimers (nextTimer m) (filter (λ e, e.2 ≠ target) (timers m)).

Definition cancelAll (m : timerManager) : timerManager := mkTimers (nextTimer m) ∅.

Definition countTimers (m : timerManager) : Z := Z.of_nat (size (timers m)).

(** ** All interleavings

    [fired] logs the callbacks that called [fire], newest first. *)
Record timerSystem := mkTimerSystem { manager : timerManager; fired : list TimerID }.

Inductive timer_step : timerSystem → timerSystem → Prop :=
| tm_add s target :
    (nextTimer (manager s) < u64_max)%Z →
    timer_step s (mkTimerSystem (addTimer target (manager s)).1 (fired s))
| tm_expire s id :
    timer_step s (mkTimerSystem (expire id (manager s)).1
      (if (expire id (manager s)).2 then id :: fired s else fired s))
| tm_cancel s id : timer_step s (mkTimerSystem (cancel id (manager s)) (fired s))
| tm_cancelTarget s target :
    timer_step s (mkTimerSystem (cancelTarget target (manager s)) (fired s))
| tm_cancelAll s : timer_step s (mkTimerSystem (cancelAll (manager s)) (fired s)).

Definition initTimers : timerSystem := mkTimerSystem newTimerManager [].

(** Live and fired identifiers were allocated, are distinct, and do not meet. *)
Record timer_inv (s : timerSystem) : Prop := {
  ti_next : (0 ≤ nextTimer (manager s) ≤ u64_max)%Z;
  ti_live id : is_Some (timers (manager s) !! id) → (0 < id ≤ nextTimer (manager s))%Z;
  ti_fired id : id ∈ fired s → (0 < id ≤ nextTimer (manager s))%Z ∧ timers (manager s) !! id = None;
  ti_nodup : NoDup (fired s)
}.

Lemma timer_inv_init : timer_inv initTimers.
Proof.
  split; simpl.
  - done.
  - intros id [x Hx]. by rw lookup_empty in Hx.
  - intros id H. by apply not_elem_of_nil in H.
  - constructor.
Qed.

(** Steps that only drop entries keep the invariant. *)
Lemma timer_inv_sub s m' :
  timer_inv s → nextTimer m' = nextTimer (manager s) → timers m' ⊆ timers (manager s) →
  timer_inv (mkTimerSystem m' (fired s)).
Proof.
  intros [Hn Hl Hf Hd] E Hsub. split; simpl; rw ?E; auto.
  - intros id [x Hx]. apply Hl. exists x. by eapply lookup_weaken.
  - intros id [Hr Hnone]%Hf. split; [done|]. by eapply lookup_weaken_None.
Qed.

Lemma timer_inv_step s s' : timer_step s s' → timer_inv s → timer_inv s'.
Proof.
  destruct 1 as [s target Hlt|s id|s id|s target|s]; intros Hinv.
  - destruct Hinv as [Hn Hl Hf Hd].
    unfold addTimer. rw u64_succ_small; [|lia]. split; simpl; auto.
    + unfold u64_max, u64_mod in *. lia.
    + intros id [x Hx]. apply lookup_insert_Some in Hx as [[<- _]|[_ Hx]]; [lia|].
      specialize (Hl id (mk_is_Some _ _ Hx)). lia.
    + intros id [Hr Hnone]%Hf. split; [lia|]. rw lookup_insert_ne //. lia.
  - assert (timer_inv (mkTimerSystem (expire id (manager s)).1 (fired s))) as Hinv'.
    { apply timer_inv_sub; [done|done|]. simpl. apply delete_subseteq. }
    simpl. case_bool_decide as Hsome; [|done].
    destruct Hinv' as [Hn Hl Hf Hd]. destruct Hinv as [_ Hl0 Hf0 _].
    split; simpl; auto.
    + intros id' [->|Hin]%elem_of_cons; [|auto].
      split; [by apply Hl0|apply lookup_delete_eq].
    + constructor; [|done]. intros Hin%Hf0. destruct Hin as [_ Hnone].
      rw Hnone in Hsome. by destruct Hsome.
  - apply timer_inv_sub; [done|done|]. apply delete_subseteq.
  - apply timer_inv_sub; [done|done|]. apply map_filter_subseteq.
  - apply timer_inv_sub; [done|done|]. apply map_empty_subseteq.
Qed.

Lemma timer_inv_steps s s' : rtc timer_step s s' → timer_inv s → timer_inv s'.
Proof. induction 1; eauto using timer_inv_step. Qed.

(** A dead identifier below the counter stays dead and does not fire. *)
Lemma dead_timer_step s s' id :
  timer_step s s' → timer_inv s → (0 < id ≤ nextTimer (manager s))%Z →
  timers (manager s) !! id = None →
  (0 < id ≤ nextTimer (manager s'))%Z ∧ timers (manager s') !! id = None ∧
  (id ∈ fired s' → id ∈ fired s).
Proof.
  destruct 1 as [s target Hlt|s id'|s id'|s target|s]; intros Hinv Hid Hnone; simpl.
  - unfold addTimer. rw u64_succ_small; [|destruct Hinv; lia]. simpl.
    split; [lia|]. split; [|done]. rw lookup_insert_ne //. lia.
  - split; [done|]. split; [apply lookup_delete_None; by right|].
    case_bool_decide as Hs; [|done]. intros [->|?]%elem_of_cons; [|done].
    rw Hnone in Hs. by destruct Hs.
  - split; [done|]. split; [apply lookup_delete_None; by right|done].
  - split; [done|]. split; [|done]. apply map_lookup_filter_None. by left.
  - split; [done|]. by rw lookup_empty.
Qed.

Lemma dead_timer_steps s s' id :
  rtc timer_step s s' → timer_inv s → (0 < id ≤ nextTimer (manager s))%Z →
  timers (manager s) !! id = None → id ∈ fired s' → id ∈ fired s.
Proof.
  induction 1 as [|s1 s2 s3 Hs _ IH]; [done|]. intros Hinv Hid Hnone Hf.
  destruct (dead_timer_step _ _ _ Hs Hinv Hid Hnone) as (Hid' & Hnone' & Hback).
  eauto using timer_inv_step.
Qed.

(** ** Properties *)

(** A timer fires at most once and never after it was cancelled: whatever
    callbacks, additions and cancellations interleave, no identifier is fired
    twice; and a timer that had not fired when [cancel], [cancelTarget] of its
    target or [cancelAll] ran is never fired by any continuation. *)
Theorem timer_cancel_final (s s' : timerSystem) (m : timerManager) (id : TimerID)
    (target : ServiceRef)
    (Hreach : rtc timer_step initTimers s)
    (Hlive : timers (manager s) !! id = Some target)
    (Hcancel : m = cancel id (manager s) ∨ m = cancelTarget target (manager s) ∨
               m = cancelAll (manager s))
    (Hafter : rtc timer_step (mkTimerSystem m (fired s)) s') :
  id ∉ fired s' ∧ NoDup (fired s').
Proof.
  assert (timer_step s (mkTimerSystem m (fired s))) as Hstep.
  { destruct Hcancel as [-> |[-> | ->]]; constructor. }
  pose proof (timer_inv_steps _ _ Hreach timer_inv_init) as Hinv.
  pose proof (timer_inv_step _ _ Hstep Hinv) as Hinv'.
  assert (timers m !! id = None) as Hnone.
  { destruct Hcancel as [-> |[-> | ->]]; simpl.
    - apply lookup_delete_eq.
    - apply map_lookup_filter_None. right. intros x Hx. simpl. intros Hne. congruence.
    - apply lookup_empty. }
  assert (nextTimer m = nextTimer (manager s)) as En
    by (by destruct Hcancel as [-> |[-> | ->]]).
  split.
  - intros Hin. destruct Hinv as [_ Hl Hf _].
    eapply dead_timer_steps in Hin; [|exact Hafter|exact Hinv'| |exact Hnone].
    + apply Hf in Hin as [_ Hn]. congruence.
    + simpl. rw En. apply Hl. eauto.
  - by destruct (timer_inv_steps _ _ Hafter Hinv').
Qed.

Lemma timer_cancel_final_witness :
  let s := mkTimerSystem (mkTimers 1 {[1%Z := mkRef "n" 4]}) [] in
  let m := cancelTarget (mkRef "n" 4) (manager s) in
  let s' := mkTimerSystem (expire 1 m).1 [] in
  (expire 1 m).2 = false ∧ 1%Z ∉ fired s'.
Proof.
  set (s := mkTimerSystem (mkTimers 1 {[1%Z := mkRef "n" 4]}) []).
  set (m := cancelTarget (mkRef "n" 4) (manager s)).
  split; [vm_compute; reflexivity|].
  apply (timer_cancel_final s (mkTimerSystem (expire 1 m).1 []) m 1 (mkRef "n" 4)).
  - apply rtc_once. apply (tm_add initTimers (mkRef "n" 4)). vm_compute. reflexivity.
  - vm_compute. reflexivity.
  - right. left. reflexivity.
  - apply rtc_once. apply (tm_expire (mkTimerSystem m []) 1).
Defined.
