(* ===== verification/Scheduler.v ===== *)
(** * The scheduler

    [src/runtime/scheduler.go] and [src/runtime/ready_queue.go] as a state
    machine of interleaved goroutines.  One action of the machine is one atomic
    operation of the source: a compare-and-swap, an atomic store, a channel
    operation, or a body that holds a mutex.  The goroutines are the dispatcher
    ([dispatchLoop]), one [process] per dispatched service, and the senders that
    run [schedule] after they pushed to a mailbox.  [step] is executable, so a
    schedule is a list of actions. *)

From stdpp Require Import prelude gmap strings list ssreflect.
From Stdlib Require Import ZArith Lia.
From S2P Require Import Prelude Types.

(** ** The ready queue *)

Record readyQueue := mkQueue { qitems : list ServiceRef; qclosed : bool }.

Definition newReadyQueue : readyQueue := mkQueue [] false.

Definition qpush (ref : ServiceRef) (q : readyQueue) : readyQueue * bool :=
  if qclosed q then (q, false) else (mkQueue (qitems q ++ [ref]) false, true).

(** [pop]: [None] while it waits on the condition variable; [Some (q, None)] is
    the [(ServiceRef{}, false)] of a closed queue. *)
Definition qpop (q : readyQueue) : option (readyQueue * option ServiceRef) :=
  if qclosed q then Some (q, None)
  else match qitems q with
       | [] => None
       | ref :: rest => Some (mkQueue rest false, Some ref)
       end.

Definition qclose (q : readyQueue) : readyQueue := mkQueue [] true.

(** ** Shared state *)

(** A queued item, as far as the scheduler looks into it. *)
Inductive work := WEnvelope | WStop.

(** The scheduling fields of [serviceInstance]. *)
Record instance := mkInst {
  ready : bool;
  permitHeld : bool;
  finalized : bool;
  box : list work
}.

(** Program counters.  A sender runs [schedule]: the compare-and-swap, the push,
    and the reset of [ready] when the queue was closed. *)
Inductive senderPC := SCas | SPush | SUnready.

(** The dispatcher: pop, acquire a permit, registry lookup, release after a
    failed lookup, [permitHeld.Store(true)] and start of [process]. *)
Inductive dispPC :=
| DPop | DAcquire (ref : ServiceRef) | DGet (ref : ServiceRef) | DRelease | DHeld (ref : ServiceRef).

(** [process]: pop the [n]-th item, run a handler (or [executeStop]), yield and
    resume inside a Call, look at [finalized], reset [ready] and return or look
    at the mailbox, call [schedule], and the deferred release. *)
Inductive procPC :=
| PPop (n : nat) | PRun (n : nat) (stop : bool) | PYieldRel (n : nat) (stop : bool)
| PBlocked (n : nat) (stop : bool) | PResumed (n : nat) (stop : bool)
| PAfter (n : nat) | PClearRet | PClear | PCheck | PCas | PPush | PUnready | PDefer | PRel.

(** The ghost flag of [TProc] records whether the goroutine owns a permit: it is
    lost only when [resume] fails because the scheduler was closed. *)
Inductive thread :=
| TSender (ref : ServiceRef) (pc : senderPC)
| TDisp (pc : dispPC)
| TProc (ref : ServiceRef) (owns : bool) (pc : procPC)
| TDone.

Record scheduler := mkSched {
  insts : gmap ServiceRef instance;
  queue : readyQueue;
  permits : nat;            (** [len(s.permits)] *)
  workers : nat;            (** [cap(s.permits)] *)
  maxBatch : nat;
  closing : bool;           (** [s.done] is closed *)
  threads : list thread
}.

Definition newScheduler (workers maxBatch : nat) (refs : list ServiceRef) : scheduler :=
  mkSched (list_to_map ((λ r, (r, mkInst false false false [])) <$> refs))
    newReadyQueue 0 workers maxBatch false [TDisp DPop].

(** ** Field updates *)

Definition set_insts (s : scheduler) m := mkSched m (queue s) (permits s) (workers s) (maxBatch s) (closing s) (threads s).
Definition set_queue (s : scheduler) q := mkSched (insts s) q (permits s) (workers s) (maxBatch s) (closing s) (threads s).
Definition set_permits (s : scheduler) p := mkSched (insts s) (queue s) p (workers s) (maxBatch s) (closing s) (threads s).
Definition set_closing (s : scheduler) c := mkSched (insts s) (queue s) (permits s) (workers s) (maxBatch s) c (threads s).
Definition set_threads (s : scheduler) l := mkSched (insts s) (queue s) (permits s) (workers s) (maxBatch s) (closing s) l.
Definition goto (s : scheduler) (i : nat) (t : thread) := set_threads s (<[i := t]> (threads s)).
Definition spawn (s : scheduler) (t : thread) := set_threads s (threads s ++ [t]).
Definition put (s : scheduler) (ref : ServiceRef) (x : instance) := set_insts s (<[ref := x]> (insts s)).

Definition with_ready (x : instance) b := mkInst b (permitHeld x) (finalized x) (box x).
Definition with_held (x : instance) b := mkInst (ready x) b (finalized x) (box x).
Definition with_box (x : instance) l := mkInst (ready x) (permitHeld x) (finalized x) l.

(** [acquire] took the permit branch of its [select]. *)
Definition acquire (s : scheduler) : option scheduler :=
  if bool_decide (permits s < workers s) then Some (set_permits s (S (permits s))) else None.

(** [release]: receive from the permit channel, or nothing if it is empty. *)
Definition release (s : scheduler) : scheduler := set_permits s (pred (permits s)).

(** ** One atomic operation of a goroutine

    [choice] resolves what the source leaves to the environment: which ready
    branch [select] takes in [acquire], whether the registry still knows a
    finalized service, and whether the running handler returns or makes a
    synchronous Call. *)
Definition stepSender (s : scheduler) (i : nat) (ref : ServiceRef) (x : instance) (pc : senderPC)
  : option scheduler :=
  match pc with
  | SCas => if ready x then Some (goto s i TDone)
            else Some (goto (put s ref (with_ready x true)) i (TSender ref SPush))
  | SPush => let '(q, ok) := qpush ref (queue s) in
             Some (goto (set_queue s q) i (if ok then TDone else TSender ref SUnready))
  | SUnready => Some (goto (put s ref (with_ready x false)) i TDone)
  end.

Definition stepDisp (s : scheduler) (i : nat) (choice : bool) (pc : dispPC) : option scheduler :=
  match pc with
  | DPop =>
      match qpop (queue s) with
      | None => None
      | Some (q, None) => Some (goto (set_queue s q) i TDone)
      | Some (q, Some ref) => Some (goto (set_queue s q) i (TDisp (DAcquire ref)))
      end
  | DAcquire ref =>
      if choice then (λ s', goto s' i (TDisp (DGet ref))) <$> acquire s
      else if closing s then Some (goto s i TDone) else None
  | DGet ref =>
      match insts s !! ref with
      | Some x => if choice then Some (goto s i (TDisp (DHeld ref)))
                  else if finalized x then Some (goto s i (TDisp DRelease)) else None
      | None => Some (goto s i (TDisp DRelease))
      end
  | DRelease => Some (goto (release s) i (TDisp DPop))
  | DHeld ref =>
      match insts s !! ref with
      | Some x => Some (spawn (goto (put s ref (with_held x true)) i (TDisp DPop))
                          (TProc ref true (PPop 0)))
      | None => None
      end
  end.

Definition stepProc (s : scheduler) (i : nat) (choice : bool) (ref : ServiceRef) (x : instance)
    (owns : bool) (pc : procPC) : option scheduler :=
  let to pc' := TProc ref owns pc' in
  match pc with
  | PPop n =>
      if bool_decide (n < maxBatch s) then
        match box x with
        | [] => Some (goto s i (to PClear))
        | WEnvelope :: rest => Some (goto (put s ref (with_box x rest)) i (to (PRun n false)))
        | WStop :: rest => Some (goto (put s ref (with_box x rest)) i (to (PRun n true)))
        end
      else Some (goto s i (to PClear))
  | PRun n stop =>
      if choice then
        if stop
        then (* executeStop finalizes the instance and closes its mailbox *)
          Some (goto (put s ref (mkInst (ready x) (permitHeld x) true [])) i (to PClearRet))
        else Some (goto s i (to (PAfter n)))
      else (* scheduler.yield *)
        if permitHeld x then Some (goto (put s ref (with_held x false)) i (to (PYieldRel n stop)))
        else Some (goto s i (to (PRun n stop)))
  | PYieldRel n stop => Some (goto (release s) i (to (PBlocked n stop)))
  | PBlocked n stop => (* scheduler.resume *)
      if choice then (λ s', goto s' i (TProc ref true (PResumed n stop))) <$> acquire s
      else if closing s then Some (goto s i (TProc ref false (PRun n stop))) else None
  | PResumed n stop => Some (goto (put s ref (with_held x true)) i (to (PRun n stop)))
  | PAfter n => if finalized x then Some (goto s i (to PClearRet)) else Some (goto s i (to (PPop (S n))))
  | PClearRet => Some (goto (put s ref (with_ready x false)) i (to PDefer))
  | PClear => Some (goto (put s ref (with_ready x false)) i (to PCheck))
  | PCheck =>
      if bool_decide (box x ≠ []) && negb (finalized x) then Some (goto s i (to PCas))
      else Some (goto s i (to PDefer))
  | PCas => if ready x then Some (goto s i (to PDefer))
            else Some (goto (put s ref (with_ready x true)) i (to PPush))
  | PPush => let '(q, ok) := qpush ref (queue s) in
             Some (goto (set_queue s q) i (to (if ok then PDefer else PUnready)))
  | PUnready => Some (goto (put s ref (with_ready x false)) i (to PDefer))
  | PDefer =>
      if permitHeld x then Some (goto (put s ref (with_held x false)) i (to PRel))
      else Some (goto s i TDone)
  | PRel => Some (goto (release s) i TDone)
  end.

Inductive action :=
| ARun (i : nat) (choice : bool)      (** goroutine [i] makes its next step *)
| AEnqueue (ref : ServiceRef) (w : work)  (** a push into the mailbox, then [schedule] *)
| AFinalize (ref : ServiceRef)        (** a finalization by another goroutine *)
| ACloseDone | ACloseQueue.           (** [scheduler.close] *)

Definition step (s : scheduler) (a : action) : option scheduler :=
  match a with
  | ARun i choice =>
      match threads s !! i with
      | Some (TSender ref pc) => x ← insts s !! ref; stepSender s i ref x pc
      | Some (TDisp pc) => stepDisp s i choice pc
      | Some (TProc ref owns pc) => x ← insts s !! ref; stepProc s i choice ref x owns pc
      | _ => None
      end
  | AEnqueue ref w =>
      x ← insts s !! ref;
      if finalized x then None
      else Some (spawn (put s ref (with_box x (box x ++ [w]))) (TSender ref SCas))
  | AFinalize ref =>
      x ← insts s !! ref;
      Some (put s ref (mkInst (ready x) (permitHeld x) true []))
  | ACloseDone => Some (set_closing s true)
  | ACloseQueue => if closing s then Some (set_queue s (qclose (queue s))) else None
  end.

(** A schedule is a list of actions. *)
Fixpoint steps (s : scheduler) (l : list action) : option scheduler :=
  match l with
  | [] => Some s
  | a :: l => s' ← step s a; steps s' l
  end.
