(* ===== verification/SchedulerFacts.v ===== *)
(** * Scheduler: the token invariant

    The accounting behind the scheduler's guarantees: at every moment there is
    at most one token for a service (the right to process its mailbox), the
    [ready] flag is false only when there is none, and a non-empty mailbox has a
    token or a goroutine on its way to create one. *)

From stdpp Require Import prelude gmap strings list ssreflect.
From Stdlib Require Import ZArith Lia.
From S2P Require Import Prelude Types Scheduler.

(** ** Invariants *)

Section Invariants.
Implicit Types (s : scheduler) (x : ServiceRef) (y : instance).

Definition at_ref (x r : ServiceRef) : nat := if decide (r = x) then 1 else 0.

(** A token for [x] is a right to process [x]: an entry of the queue, or a
    goroutine between a won compare-and-swap and the reset of [ready]. *)
Definition tok (x : ServiceRef) (t : thread) : nat :=
  match t with
  | TSender r SPush | TSender r SUnready => at_ref x r
  | TDisp (DAcquire r) | TDisp (DGet r) | TDisp (DHeld r) => at_ref x r
  | TProc _ _ PCheck | TProc _ _ PCas | TProc _ _ PDefer | TProc _ _ PRel => 0
  | TProc r _ _ => at_ref x r
  | _ => 0
  end.

(** A goroutine that is about to call [schedule] for [x]. *)
Definition caller (x : ServiceRef) (t : thread) : nat :=
  match t with
  | TSender r SCas | TProc r _ PCheck | TProc r _ PCas => at_ref x r
  | _ => 0
  end.

(** The permits a goroutine owns. *)
Definition net (t : thread) : nat :=
  match t with
  | TDisp (DGet _) | TDisp DRelease | TDisp (DHeld _) => 1
  | TProc _ _ (PBlocked _ _) => 0
  | TProc _ owns _ => if owns then 1 else 0
  | _ => 0
  end.

(** A goroutine that executes application code of [x]. *)
Definition handling (x : ServiceRef) (t : thread) : Prop :=
  match t with
  | TProc r _ (PRun _ _) | TProc r _ (PYieldRel _ _) | TProc r _ (PBlocked _ _)
  | TProc r _ (PResumed _ _) => r = x
  | _ => False
  end.

Definition total x s : nat :=
  sum_list_with (tok x) (threads s) + sum_list_with (at_ref x) (qitems (queue s)).
Definition callers x s : nat := sum_list_with (caller x) (threads s).

Definition instOK s x y : Prop :=
  total x s ≤ 1 ∧
  (ready y = false → total x s = 0) ∧
  (closing s = false → finalized y = false →
     (ready y = true → total x s = 1) ∧
     (box y ≠ [] → ready y = true ∨ 0 < callers x s)).

Definition threadOK s (t : thread) : Prop :=
  match t with
  | TSender _ SUnready | TProc _ _ PUnready => closing s = true
  | TProc r _ PClearRet => ∃ y, insts s !! r = Some y ∧ finalized y = true
  | _ => True
  end ∧
  match t with TProc _ false _ => closing s = true | _ => True end.

Record sched_inv s : Prop := {
  si_inst x y : insts s !! x = Some y → instOK s x y;
  si_thread i t : threads s !! i = Some t → threadOK s t;
  si_queue : qclosed (queue s) = true → closing s = true;
  si_permits : closing s = false →
    sum_list_with net (threads s) ≤ permits s;
  si_bound : permits s ≤ workers s
}.

Lemma sum_insert {T} (f : T → nat) l i t t' :
  l !! i = Some t →
  sum_list_with f (<[i := t']> l) + f t = sum_list_with f l + f t'.
Proof.
  revert i. induction l as [|a l IH]; intros [|i] H; simplify_eq/=; [lia|].
  specialize (IH i H). lia.
Qed.

Lemma sum_lookup {T} (f : T → nat) l i t : l !! i = Some t → f t ≤ sum_list_with f l.
Proof. revert i. induction l as [|a l IH]; intros [|i] H; simplify_eq/=; [lia|]. specialize (IH i H). lia. Qed.

Lemma sum_app {T} (f : T → nat) l t : sum_list_with f (l ++ [t]) = sum_list_with f l + f t.
Proof. rw sum_list_with_app /=. lia. Qed.

(** The change of the two sums when goroutine [i] moves to [t']. *)
Ltac sums x E :=
  match type of E with
  | threads ?s !! ?i = Some ?t =>
      match goal with
      | |- context [<[i := ?t']> (threads s)] =>
          pose proof (sum_insert (tok x) (threads s) i t t' E);
          pose proof (sum_insert (caller x) (threads s) i t t' E)
      end
  end.

Ltac finish :=
  bool_facts;
  repeat (lazymatch goal with
          | |- _ ∧ _ => split
          | |- _ → _ => intro
          end; bool_facts);
  try discriminate; try congruence;
  first [ lia | by left | right; lia ].

(** The final arithmetic for an instance that was [y1] before. *)
Ltac inst_arith Hi E x y1 Hl :=
  pose proof (Hi _ _ Hl);
  repeat match goal with Hq : qitems (queue _) = _ |- _ => rewrite Hq in *; clear Hq end;
  try sums x E; rw ?sum_app; simpl in *; unfold at_ref in *;
  repeat case_decide; subst; try congruence;
  destruct (closing _) eqn:?, (ready y1) eqn:?, (finalized y1) eqn:?, (box y1) eqn:?;
  simplify_eq/=; finish.

(** One successor: any instance [x], before and after. *)
Ltac inst_case Hi E :=
  let x := fresh "x" in let y := fresh "y" in let Hy := fresh "Hy" in
  intros x y Hy; unfold instOK, total, callers, goto, put, spawn, release in *; simpl in *;
  lazymatch type of Hy with
  | <[_ := _]> _ !! _ = _ =>
      apply lookup_insert_Some in Hy as [[<- <-]|[? Hy]];
      [ match goal with Ey : insts _ !! ?r = Some ?y0 |- _ => inst_arith Hi E r y0 Ey end
      | inst_arith Hi E x y Hy ]
  | _ => inst_arith Hi E x y Hy
  end.

Lemma inst_step_sender s i ref y0 pc s' :
  threads s !! i = Some (TSender ref pc) → insts s !! ref = Some y0 →
  stepSender s i ref y0 pc = Some s' → sched_inv s →
  ∀ x y, insts s' !! x = Some y → instOK s' x y.
Proof.
  intros E Ey H [Hi Ht Hq _ _]. pose proof (Ht _ _ E) as [Hcl _].
  destruct pc; unfold stepSender, qpush in H; open_step H; inst_case Hi E.
Qed.

Lemma qpop_spec q q' o :
  qpop q = Some (q', o) →
  (qclosed q = true ∧ q' = q ∧ o = None) ∨
  (∃ ref rest, q = mkQueue (ref :: rest) false ∧ q' = mkQueue rest false ∧ o = Some ref).
Proof.
  unfold qpop. destruct q as [l c]; simpl. intros H. open_step H; [by left|].
  right. eauto.
Qed.

Lemma inst_step_disp s i choice pc s' :
  threads s !! i = Some (TDisp pc) → stepDisp s i choice pc = Some s' → sched_inv s →
  ∀ x y, insts s' !! x = Some y → instOK s' x y.
Proof.
  intros E H [Hi Ht Hq _ _].
  destruct pc as [|ref|ref| |ref]; simpl in H.
  - destruct (qpop (queue s)) as [[q o]|] eqn:Ep; [|done].
    apply qpop_spec in Ep as [(Hc & -> & ->)|(ref & rest & Eq & -> & ->)]; injection H as <-.
    + specialize (Hq Hc). inst_case Hi E.
    + unfold instOK, total in Hi. rw Eq in Hi. simpl in Hi. inst_case Hi E.
  - unfold acquire in H. open_step H; inst_case Hi E.
  - destruct (insts s !! ref) as [y0|] eqn:Ey; open_step H; inst_case Hi E.
  - open_step H. inst_case Hi E.
  - destruct (insts s !! ref) as [y0|] eqn:Ey; open_step H; inst_case Hi E.
Qed.

Lemma inst_step_proc s i choice ref y0 owns pc s' :
  threads s !! i = Some (TProc ref owns pc) → insts s !! ref = Some y0 →
  stepProc s i choice ref y0 owns pc = Some s' → sched_inv s →
  ∀ x y, insts s' !! x = Some y → instOK s' x y.
Proof.
  intros E Ey H [Hi Ht Hq _ _]. pose proof (Ht _ _ E) as [Hcl _]. simpl in Hcl.
  destruct pc; unfold stepProc, qpush, acquire in H; open_step H.
  all: try inst_case Hi E.
  - destruct Hcl as (y & Hy & Hfin). simplify_eq. inst_case Hi E.
  - intros x y Hy. unfold instOK, total, callers, goto in *; simpl in *.
    destruct (decide (ref = x)) as [->|Hne]; [|inst_arith Hi E x y Hy].
    assert (y = y0) as -> by congruence.
    apply andb_false_iff in Heqb as [Hb|Hb]; bool_prop; [apply dec_stable in Hb|];
      inst_arith Hi E x y0 Ey.
Qed.

Lemma inst_step s a s' :
  step s a = Some s' → sched_inv s → ∀ x y, insts s' !! x = Some y → instOK s' x y.
Proof.
  intros H Hinv. destruct a as [i choice|ref w|ref| |]; simpl in H.
  - destruct (threads s !! i) as [[ref pc|pc|ref owns pc|]|] eqn:E; try done.
    + destruct (insts s !! ref) as [y0|] eqn:Ey; [|done]. by eapply inst_step_sender.
    + by eapply inst_step_disp.
    + destruct (insts s !! ref) as [y0|] eqn:Ey; [|done]. by eapply inst_step_proc.
  - destruct (insts s !! ref) as [y0|] eqn:Ey; [|done]. simpl in H. open_step H.
    destruct Hinv as [Hi _ _ _ _]. inst_case Hi I.
  - destruct (insts s !! ref) as [y0|] eqn:Ey; [|done]. simpl in H. open_step H.
    destruct Hinv as [Hi _ _ _ _]. inst_case Hi I.
  - open_step H. destruct Hinv as [Hi _ _ _ _]. inst_case Hi I.
  - open_step H. destruct Hinv as [Hi _ Hq _ _]. inst_case Hi I.
Qed.
End Invariants.

(** * Scheduler: properties

    Mutual exclusion of handlers, no lost wake-up, the bound on concurrently
    running handlers, and a schedule that loses a permit. *)

Section Facts.
Implicit Types (s : scheduler) (x : ServiceRef) (y : instance).

(** *** Goroutines *)

Lemma thread_keep s s' t :
  (closing s = true → closing s' = true) →
  (∀ r y, insts s !! r = Some y → finalized y = true →
     ∃ y', insts s' !! r = Some y' ∧ finalized y' = true) →
  threadOK s t → threadOK s' t.
Proof.
  intros Hc Hf. unfold threadOK. intros [H1 H2]. split.
  - destruct t as [r []|[]|r o []|]; auto. destruct H1 as (y & Hy & Hfin). eauto.
  - destruct t as [| |r [] ?|]; auto.
Qed.

Lemma fin_put s r y0 y :
  insts s !! r = Some y0 → (finalized y0 = true → finalized y = true) →
  ∀ r' z, insts s !! r' = Some z → finalized z = true →
    ∃ z', <[r := y]> (insts s) !! r' = Some z' ∧ finalized z' = true.
Proof.
  intros Hy0 Hfin r' z Hz Hzf. destruct (decide (r = r')) as [->|Hne].
  - exists y. rw lookup_insert_eq. split; [done|]. apply Hfin. congruence.
  - exists z. by rw lookup_insert_ne.
Qed.

(** A goroutine that did not move. *)
Ltac thread_rest Ht Hk :=
  eapply thread_keep; [| |by apply (Ht _ _ Hk)]; simpl; auto;
  try (eapply fin_put; [eassumption|by auto]); eauto.

Ltac thread_case Ht :=
  let k := fresh "k" in let t := fresh "t" in let Hk := fresh "Hk" in
  intros k t Hk; unfold goto, put, spawn in *; simpl in *;
  try (apply lookup_app_Some in Hk as [Hk|[_ Hk]];
       [|apply list_lookup_singleton_Some in Hk as [_ <-]; by repeat split]);
  lazymatch type of Hk with
  | <[_ := _]> _ !! _ = _ =>
      apply list_lookup_insert_Some in Hk as [(<- & <- & _)|[_ Hk]];
      [ repeat split; simpl; auto | thread_rest Ht Hk ]
  | _ => thread_rest Ht Hk
  end.

Lemma thread_step s a s' :
  step s a = Some s' → sched_inv s → ∀ k t, threads s' !! k = Some t → threadOK s' t.
Proof.
  intros H [_ Ht Hq _ _]. destruct a as [i choice|ref w|ref| |]; simpl in H.
  - destruct (threads s !! i) as [[ref pc|pc|ref owns pc|]|] eqn:E; try done;
      pose proof (Ht _ _ E) as [Hcl Hown]; simpl in Hcl, Hown.
    + destruct (insts s !! ref) as [y0|] eqn:Ey; [|done]. simpl in H.
      destruct pc; unfold stepSender, qpush in H; open_step H; thread_case Ht.
    + destruct pc as [|ref|ref| |ref]; simpl in H.
      * destruct (qpop (queue s)) as [[q [ref|]]|] eqn:Ep; simplify_eq; thread_case Ht.
      * unfold acquire in H. open_step H; thread_case Ht.
      * open_step H; thread_case Ht.
      * open_step H; thread_case Ht.
      * destruct (insts s !! ref) as [y0|] eqn:Ey; open_step H; thread_case Ht.
    + destruct (insts s !! ref) as [y0|] eqn:Ey; [|done]. simpl in H.
      destruct pc; unfold stepProc, qpush, acquire in H; open_step H.
      all: try by thread_case Ht.
      * thread_case Ht. eexists. by rw lookup_insert_eq.
      * thread_case Ht. eauto.
  - destruct (insts s !! ref) as [y0|] eqn:Ey; [|done]. simpl in H. open_step H.
    thread_case Ht.
  - destruct (insts s !! ref) as [y0|] eqn:Ey; [|done]. simpl in H. open_step H.
    thread_case Ht.
  - open_step H. thread_case Ht.
  - open_step H. thread_case Ht.
Qed.

(** *** Permits *)

Ltac net_case E :=
  unfold goto, put, spawn, release in *; simpl in *;
  match type of E with
  | threads ?s !! ?i = Some ?t =>
      match goal with
      | |- context [<[i := ?t']> (threads s)] =>
          pose proof (sum_insert net (threads s) i t t' E);
          pose proof (sum_lookup net (threads s) i t E)
      end
  end; rw ?sum_app; simpl in *;
  repeat match goal with owns : bool |- _ => destruct owns end; bool_prop;
  try congruence; lia.

Ltac permit_case Hp E :=
  split;
  [ let Hc := fresh in intros Hc; try (exfalso; congruence); specialize (Hp Hc); net_case E
  | unfold goto, put, spawn, release in *; simpl in *; bool_prop; lia ].

Lemma permits_step s a s' :
  step s a = Some s' → sched_inv s →
  (closing s' = false → sum_list_with net (threads s') ≤ permits s') ∧
  permits s' ≤ workers s'.
Proof.
  intros H [_ Ht _ Hp Hb]. destruct a as [i choice|ref w|ref| |]; simpl in H.
  - destruct (threads s !! i) as [[ref pc|pc|ref owns pc|]|] eqn:E; try done;
      pose proof (Ht _ _ E) as [_ Hown]; simpl in Hown.
    + destruct (insts s !! ref) as [y0|] eqn:Ey; [|done]. simpl in H.
      destruct pc; unfold stepSender, qpush in H; open_step H;
        permit_case Hp E.
    + destruct pc as [|ref|ref| |ref]; simpl in H.
      1: destruct (qpop (queue s)) as [[q [ref|]]|] eqn:Ep; simplify_eq; permit_case Hp E.
      all: unfold acquire in H; open_step H; permit_case Hp E.
    + destruct (insts s !! ref) as [y0|] eqn:Ey; [|done]. simpl in H.
      destruct pc; unfold stepProc, qpush, acquire in H; open_step H.
      all: permit_case Hp E.
  - destruct (insts s !! ref) as [y0|] eqn:Ey; [|done]. simpl in H. open_step H.
    split; [intros Hc; specialize (Hp Hc)|done]. unfold spawn; simpl. rw sum_app /=. lia.
  - destruct (insts s !! ref) as [y0|] eqn:Ey; [|done]. simpl in H. by open_step H.
  - by open_step H.
  - destruct (closing s) eqn:Ec; [|done]. injection H as <-. split; [|done].
    simpl. congruence.
Qed.


Lemma queue_step s a s' :
  step s a = Some s' → sched_inv s → qclosed (queue s') = true → closing s' = true.
Proof.
  intros H [_ _ Hq _ _]. destruct a as [i choice|ref w|ref| |]; simpl in H.
  - destruct (threads s !! i) as [[ref pc|pc|ref owns pc|]|] eqn:E; try done.
    + destruct (insts s !! ref) as [y0|] eqn:Ey; [|done]. simpl in H.
      destruct pc; unfold stepSender, qpush in H; open_step H; simpl in *; auto; naive_solver.
    + destruct pc as [|ref|ref| |ref]; simpl in H.
      1: destruct (qpop (queue s)) as [[q o]|] eqn:Ep; [|done];
        apply qpop_spec in Ep as [(Hc & -> & ->)|(ref & rest & Eq & -> & ->)]; by simplify_eq/=.
      all: unfold acquire in H; open_step H; simpl in *; auto; naive_solver.
    + destruct (insts s !! ref) as [y0|] eqn:Ey; [|done]. simpl in H.
      destruct pc; unfold stepProc, qpush, acquire in H; open_step H; simpl in *; auto; naive_solver.
  - destruct (insts s !! ref) as [y0|] eqn:Ey; [|done]. simpl in H. open_step H; simpl in *; auto; naive_solver.
  - destruct (insts s !! ref) as [y0|] eqn:Ey; [|done]. simpl in H. open_step H; simpl in *; auto; naive_solver.
  - open_step H; simpl in *; auto; naive_solver.
  - destruct (closing s) eqn:Ec; [|done]. injection H as <-; auto.
Qed.

Lemma sched_inv_step s a s' : step s a = Some s' → sched_inv s → sched_inv s'.
Proof.
  intros H Hinv. destruct (permits_step _ _ _ H Hinv).
  split; eauto using inst_step, thread_step, queue_step.
Qed.

Lemma sched_inv_init w b refs : sched_inv (newScheduler w b refs).
Proof.
  split; simpl; try done; try lia.
  - intros x y Hy. apply elem_of_list_to_map_2 in Hy.
    apply list_elem_of_fmap in Hy as (r & [= -> ->] & _).
    unfold instOK, total, callers; simpl. split_and!; try done. lia.
  - intros [|i] t [= <-]. done.
Qed.

Lemma sched_inv_steps s l s' : steps s l = Some s' → sched_inv s → sched_inv s'.
Proof.
  revert s. induction l as [|a l IH]; intros s H Hinv; simpl in H; [congruence|].
  destruct (step s a) as [s1|] eqn:E; [|done]. eauto using sched_inv_step.
Qed.

Lemma steps_workers s l s' : steps s l = Some s' → workers s' = workers s.
Proof.
  assert (∀ s a s', step s a = Some s' → workers s' = workers s) as Hstep.
  { clear. intros s a s' H. destruct a as [i choice|ref w|ref| |]; simpl in H.
    - destruct (threads s !! i) as [[ref pc|pc|ref owns pc|]|] eqn:E; try done.
      + destruct (insts s !! ref) as [y0|] eqn:Ey; [|done]. simpl in H.
        destruct pc; unfold stepSender, qpush in H; by open_step H.
      + destruct pc; unfold stepDisp, acquire in H; by open_step H.
      + destruct (insts s !! ref) as [y0|] eqn:Ey; [|done]. simpl in H.
        destruct pc; unfold stepProc, qpush, acquire in H; by open_step H.
    - destruct (insts s !! ref) as [y0|] eqn:Ey; [|done]. simpl in H. by open_step H.
    - destruct (insts s !! ref) as [y0|] eqn:Ey; [|done]. simpl in H. by open_step H.
    - by open_step H.
    - by open_step H. }
  revert s. induction l as [|a l IH]; intros s H; simpl in H; [congruence|].
  destruct (step s a) as [s1|] eqn:E; [|done]. rw (IH s1 H). eauto.
Qed.

Lemma sum_two {T} (f : T → nat) l i j t u :
  i ≠ j → l !! i = Some t → l !! j = Some u → f t + f u ≤ sum_list_with f l.
Proof.
  revert i j. induction l as [|a l IH]; intros [|i] [|j] Hne Hi Hj; simplify_eq/=.
  - pose proof (sum_lookup f _ _ _ Hj). lia.
  - pose proof (sum_lookup f _ _ _ Hi). lia.
  - specialize (IH i j ltac:(congruence) Hi Hj). lia.
Qed.

Lemma handling_tok x t : handling x t → tok x t = 1.
Proof.
  destruct t as [|[]|r o []|]; simpl; try done; intros ->; unfold at_ref; by rw decide_True.
Qed.
End Facts.

(** A goroutine that runs application code and is not parked in a Call. *)
Definition running (t : thread) : nat :=
  match t with
  | TProc _ _ (PRun _ _) | TProc _ _ (PYieldRel _ _) | TProc _ _ (PResumed _ _) => 1
  | _ => 0
  end.

Lemma running_le_net s :
  closing s = false → (∀ i t, threads s !! i = Some t → threadOK s t) →
  sum_list_with running (threads s) ≤ sum_list_with net (threads s).
Proof.
  intros Hc. generalize (threads s). intros l Hl. induction l as [|t l IH]; [done|].
  assert (running t ≤ net t) as Ht.
  { destruct (Hl 0 t eq_refl) as [_ Hown].
    destruct t as [| |r [] []|]; simpl in *; try lia; congruence. }
  simpl. specialize (IH (λ i, Hl (S i))). lia.
Qed.

Lemma sum_pos {T} (f : T → nat) l : 0 < sum_list_with f l → ∃ i t, l !! i = Some t ∧ 0 < f t.
Proof.
  induction l as [|t l IH]; simpl; [lia|]. intros H.
  destruct (decide (0 < f t)) as [Hp|Hz]; [by exists 0, t|].
  destruct IH as (i & u & ? & ?); [lia|]. by exists (S i), u.
Qed.

(** A schedule used by the examples: the dispatcher is goroutine 0, every
    [AEnqueue] starts the next sender and every dispatch the next [process]. *)
Definition svc : ServiceRef := mkRef "n" 1.
Definition go (i : nat) : action := ARun i true.
Definition oneHandler : list action :=
  [AEnqueue svc WEnvelope; go 1; go 1; go 0; go 0; go 0; go 0; go 2].

(** ** Properties *)

(** The interleaving [l] of a fresh scheduler with [w] workers and batches of
    [b], on the services [refs], leads to [s]. *)
Definition reaches (w b : nat) (refs : list ServiceRef) (l : list action) (s : scheduler) : Prop :=
  steps (newScheduler w b refs) l = Some s.

(** C1. Handlers of one service never overlap: under every interleaving of
    senders, dispatcher and workers, at most one goroutine is executing (or is
    parked inside a synchronous Call of) the handler of a given service, which
    is what lets service code keep its state without locks. *)
Theorem handlers_mutually_exclusive (w b : nat) (refs : list ServiceRef) (l : list action)
    (s : scheduler) (x : ServiceRef) (y : instance) (i j : nat) (ti tj : thread)
    (Hrun : reaches w b refs l s)
    (Hx : insts s !! x = Some y)
    (Hti : threads s !! i = Some ti) (Htj : threads s !! j = Some tj)
    (Hhi : handling x ti) (Hhj : handling x tj) : i = j.
Proof.
  destruct (sched_inv_steps _ _ _ Hrun (sched_inv_init _ _ _)) as [Hi _ _ _ _].
  destruct (Hi _ _ Hx) as [Htot _]. unfold total in Htot.
  destruct (decide (i = j)) as [|Hne]; [done|].
  pose proof (sum_two (tok x) _ _ _ _ _ Hne Hti Htj) as Hsum.
  rw !handling_tok // in Hsum. lia.
Qed.

Lemma handlers_mutually_exclusive_witness :
  ∃ s, steps (newScheduler 2 32 [svc]) oneHandler = Some s ∧
    ∀ j tj, threads s !! j = Some tj → handling svc tj → 2 = j.
Proof.
  eexists. split; [vm_compute; reflexivity|]. intros j tj Hj Hh.
  eapply (handlers_mutually_exclusive 2 32 [svc] oneHandler _ svc _ 2 j _ tj);
    [vm_compute; reflexivity|vm_compute; reflexivity|vm_compute; reflexivity|exact Hj
    |reflexivity|exact Hh].
Defined.

(** C3. No wake-up is lost: as long as the scheduler is open, a live service
    with a non-empty mailbox is in the ready queue, or some goroutine holds the
    right to process it, or some goroutine is about to call [schedule] for it;
    in particular a message pushed while [process] is resetting [ready] is not
    forgotten. *)
Theorem no_lost_wakeup (w b : nat) (refs : list ServiceRef) (l : list action)
    (s : scheduler) (x : ServiceRef) (y : instance)
    (Hrun : reaches w b refs l s)
    (Hopen : closing s = false) (Hx : insts s !! x = Some y)
    (Hlive : finalized y = false) (Hmail : box y ≠ []) :
  x ∈ qitems (queue s) ∨
  ∃ i t, threads s !! i = Some t ∧ (0 < tok x t ∨ 0 < caller x t).
Proof.
  destruct (sched_inv_steps _ _ _ Hrun (sched_inv_init _ _ _)) as [Hi _ _ _ _].
  destruct (Hi _ _ Hx) as (_ & _ & Hrest). destruct (Hrest Hopen Hlive) as [Hready Hbox].
  destruct (Hbox Hmail) as [Hr|Hc].
  - specialize (Hready Hr). unfold total in Hready.
    destruct (decide (0 < sum_list_with (tok x) (threads s))) as [Hp|Hz].
    + right. apply sum_pos in Hp as (i & t & ? & ?). eauto 6.
    + left. destruct (sum_pos (at_ref x) (qitems (queue s))) as (i & r & Hr' & Hat); [lia|].
      unfold at_ref in Hat. case_decide; [subst|lia]. by eapply list_elem_of_lookup_2.
  - right. apply sum_pos in Hc as (i & t & ? & ?). eauto 6.
Qed.

Lemma no_lost_wakeup_witness :
  ∃ s, steps (newScheduler 2 32 [svc]) (oneHandler ++ [go 2; go 2; go 2; go 2; AEnqueue svc WEnvelope])
         = Some s ∧
    (svc ∈ qitems (queue s) ∨ ∃ i t, threads s !! i = Some t ∧ (0 < tok svc t ∨ 0 < caller svc t)).
Proof.
  eexists. split; [vm_compute; reflexivity|].
  eapply (no_lost_wakeup 2 32 [svc] (oneHandler ++ [go 2; go 2; go 2; go 2; AEnqueue svc WEnvelope]));
    [vm_compute; reflexivity|reflexivity|vm_compute; reflexivity|reflexivity|discriminate].
Defined.

(** The execution permits bound concurrency: until the scheduler is closed,
    no more handlers run at the same time than there are workers, whatever
    Calls yield and resume in between. *)
Theorem handlers_bounded (w b : nat) (refs : list ServiceRef) (l : list action) (s : scheduler)
    (Hrun : reaches w b refs l s) (Hopen : closing s = false) :
  sum_list_with running (threads s) ≤ w.
Proof.
  pose proof (sched_inv_steps _ _ _ Hrun (sched_inv_init _ _ _)) as [_ Ht _ Hp Hb].
  pose proof (running_le_net s Hopen Ht). specialize (Hp Hopen).
  pose proof (steps_workers _ _ _ Hrun) as Hw. simpl in Hw. lia.
Qed.

Lemma handlers_bounded_witness :
  ∃ s, steps (newScheduler 1 32 [svc]) oneHandler = Some s ∧
    sum_list_with running (threads s) = 1 ∧ sum_list_with running (threads s) ≤ 1.
Proof.
  eexists. split; [vm_compute; reflexivity|]. split; [reflexivity|].
  eapply (handlers_bounded 1 32 [svc] oneHandler); [vm_compute; reflexivity|reflexivity].
Defined.

(** The permit accounting is not exact: there is a schedule of two messages
    to one service, on two workers, after which every goroutine has finished
    and every queue is empty, but one permit is still taken.  The second
    [process] starts (storing [permitHeld]) between the first one's reset of
    [ready] and its deferred compare-and-swap; the first then clears the flag
    that belongs to the second, whose own deferred compare-and-swap fails.  The
    permit is never returned, so the pool is one worker smaller for good. *)
Theorem permit_lost :
  ∃ l s, steps (newScheduler 2 32 [svc]) l = Some s ∧
    Forall (λ t, t = TDisp DPop ∨ t = TDone) (threads s) ∧
    qitems (queue s) = [] ∧ (∃ y, insts s !! svc = Some y ∧ box y = [] ∧ ready y = false) ∧
    permits s = 1.
Proof.
  exists (oneHandler ++ [go 2; go 2; go 2; go 2;
    AEnqueue svc WEnvelope; go 3; go 3; go 0; go 0; go 0; go 0;
    go 2; go 2; go 2; go 2; go 4; go 4; go 4; go 4; go 4; go 4; go 4]).
  eexists. split; [vm_compute; reflexivity|]. simpl.
  split; [repeat (apply Forall_cons_2; [by auto|]); apply Forall_nil_2|]. split; [reflexivity|]. split; [|reflexivity].
  eexists. split; [vm_compute; reflexivity|]. by split.
Qed.
