(* ===== verification/Bytes.v ===== *)
(** * Bytes, big-endian integers and strings as byte sequences

    What the sources use of Go's [encoding/binary] (big endian) and of the
    conversion between [string] and [[]byte], on [Byte.byte] lists. *)

From stdpp Require Import prelude strings list ssreflect.
From Stdlib Require Import ZArith Lia Strings.Byte.
From S2P Require Import Prelude.

Local Open Scope Z_scope.

#[global] Instance byte_eq_dec : EqDecision byte := Byte.byte_eq_dec.

Definition byteZ (b : byte) : Z := Z.of_N (Byte.to_N b).

Definition byte_of_Z (z : Z) : byte := default x00 (Byte.of_N (Z.to_N (z mod 256))).

Lemma byteZ_range b : 0 ≤ byteZ b < 256.
Proof. unfold byteZ. pose proof (Byte.to_N_bounded b). lia. Qed.

Lemma byte_of_byteZ b : byte_of_Z (byteZ b) = b.
Proof.
  unfold byte_of_Z. rw Z.mod_small; [|apply byteZ_range].
  unfold byteZ. by rw N2Z.id Byte.of_to_N.
Qed.

Lemma byteZ_of_Z z : byteZ (byte_of_Z z) = z mod 256.
Proof.
  unfold byte_of_Z, byteZ. pose proof (Z.mod_pos_bound z 256 ltac:(lia)) as Hb.
  destruct (Byte.of_N (Z.to_N (z mod 256))) as [b|] eqn:E; simpl.
  - apply Byte.to_of_N in E. lia.
  - apply Byte.of_N_None_iff in E. lia.
Qed.

(** [binary.BigEndian.PutUintN] with [n] bytes: the value modulo [256^n], most
    significant byte first. *)
Fixpoint be_bytes (n : nat) (v : Z) : list byte :=
  match n with
  | O => []
  | S n => be_bytes n (v / 256) ++ [byte_of_Z v]
  end.

(** [binary.BigEndian.UintN]. *)
Definition be_value (l : list byte) : Z := foldl (λ acc b, acc * 256 + byteZ b) 0 l.

Lemma length_be_bytes n v : length (be_bytes n v) = n.
Proof. revert v. induction n as [|n IH]; intros v; simpl; [done|]. rw length_app IH /=. lia. Qed.

Lemma be_value_snoc l b : be_value (l ++ [b]) = be_value l * 256 + byteZ b.
Proof. unfold be_value. by rw foldl_app. Qed.

Lemma be_value_bytes n v : be_value (be_bytes n v) = v mod 256 ^ Z.of_nat n.
Proof.
  revert v. induction n as [|n IH]; intros v; [by rw Z.mod_1_r|].
  simpl be_bytes. rw be_value_snoc IH byteZ_of_Z Nat2Z.inj_succ Z.pow_succ_r; [|lia].
  rw Z.rem_mul_r; lia.
Qed.

Lemma be_value_range l : 0 ≤ be_value l < 256 ^ Z.of_nat (length l).
Proof.
  induction l as [|b l IH] using rev_ind; [done|].
  rw be_value_snoc length_app /= Nat.add_1_r Nat2Z.inj_succ Z.pow_succ_r; [|lia].
  pose proof (byteZ_range b). lia.
Qed.

Lemma be_bytes_value l : be_bytes (length l) (be_value l) = l.
Proof.
  induction l as [|b l IH] using rev_ind; [done|].
  rw length_app /= Nat.add_1_r be_value_snoc /=.
  pose proof (byteZ_range b). f_equal.
  - rw Z.div_add_l; [|lia]. rw Z.div_small; [|lia]. by rw Z.add_0_r.
  - f_equal. unfold byte_of_Z. rw Z.add_comm Z.mod_add; [|lia]. apply byte_of_byteZ.
Qed.

Lemma be_value_small n v : 0 ≤ v < 256 ^ Z.of_nat n → be_value (be_bytes n v) = v.
Proof. intros. rw be_value_bytes. by apply Z.mod_small. Qed.

(** [len] as a Go [int]. *)
Definition len {A} (l : list A) : Z := Z.of_nat (length l).

Lemma len_app {A} (l k : list A) : len (l ++ k) = len l + len k.
Proof. unfold len. rw length_app. lia. Qed.

Lemma len_nonneg {A} (l : list A) : 0 ≤ len l.
Proof. unfold len. lia. Qed.

Lemma len_be_bytes n v : len (be_bytes n v) = Z.of_nat n.
Proof. unfold len. by rw length_be_bytes. Qed.

(** [[]byte(s)] and [string(b)]. *)
Definition bytes_of (s : string) : list byte := String.list_byte_of_string s.
Definition string_of (l : list byte) : string := String.string_of_list_byte l.

Lemma string_of_bytes_of s : string_of (bytes_of s) = s.
Proof. apply String.string_of_list_byte_of_string. Qed.
Lemma bytes_of_string_of l : bytes_of (string_of l) = l.
Proof. apply String.list_byte_of_string_of_list_byte. Qed.

(** [len] of a string counts bytes. *)
Definition slen (s : string) : Z := len (bytes_of s).

#[global] Arguments be_bytes : simpl never.
#[global] Arguments be_value : simpl never.
