(* ===== verification/Wire.v ===== *)
(** * The TCP wire format

    [src/transport/tcp/wire.go]: the bounded binary encoding of a
    [WireEnvelope], length-prefixed frames, and the node handshake.  A
    [bytes.Buffer] is the list of bytes written so far; an [io.Reader] is the
    list of bytes the peer will send before the connection ends. *)

From stdpp Require Import prelude strings list ssreflect.
From Stdlib Require Import ZArith Lia Strings.Byte.
From S2P Require Import Prelude Types Bytes.

Local Open Scope Z_scope.
Local Open Scope go_scope.

Inductive tcpError :=
| ErrFrameTooLarge | ErrInvalidFrame | ErrProtocolVersion | ErrPeerIdentity
| ErrEOF | ErrUnexpectedEOF | ErrIO.

#[global] Instance tcpError_eq_dec : EqDecision tcpError.
Proof. solve_decision. Defined.

Definition protocolVersion : Z := 1.
Definition wireVersion : Z := 1.
Definition defaultMaxFrameSize : Z := 16 * 2 ^ 20.
Definition maxHandshakeFrameSize : Z := 1024.
Definition maxNodeIDLength : Z := 255.
Definition maxCallPathLength : Z := 64.
Definition maxErrorCodeLength : Z := 128.
Definition maxErrorMessageLength : Z := 4096.
Definition maxUint16 : Z := 2 ^ 16 - 1.
Definition maxUint32 : Z := 2 ^ 32 - 1.
(** [int(^uint(0) >> 1)] on a 64-bit platform. *)
Definition maxInt : Z := 2 ^ 63 - 1.

Definition handshakeMagic : list byte := ["G"; "S"; "R"; "H"]%byte.

(** ** Writers *)

Definition writeUint16 (out : list byte) (v : Z) : list byte := out ++ be_bytes 2 v.
Definition writeUint32 (out : list byte) (v : Z) : list byte := out ++ be_bytes 4 v.
Definition writeUint64 (out : list byte) (v : Z) : list byte := out ++ be_bytes 8 v.

Definition writeString16 (out : list byte) (value : string) (maximum : Z) : res tcpError (list byte) :=
  if (maximum <? slen value) || (maxUint16 <? slen value) then Err ErrFrameTooLarge
  else Ok (writeUint16 out (slen value) ++ bytes_of value).

Definition writeServiceRef (out : list byte) (ref : ServiceRef) : res tcpError (list byte) :=
  let! out := writeString16 out (Node ref) maxNodeIDLength in
  Ok (writeUint64 out (ID ref)).

Fixpoint writeServiceRefs (out : list byte) (refs : list ServiceRef) : res tcpError (list byte) :=
  match refs with
  | [] => Ok out
  | ref :: refs => let! out := writeServiceRef out ref in writeServiceRefs out refs
  end.

Definition serviceRefWireSize (ref : ServiceRef) : res tcpError Z :=
  if (maxNodeIDLength <? slen (Node ref)) || (maxUint16 <? slen (Node ref))
  then Err ErrFrameTooLarge
  else Ok (2 + slen (Node ref) + 8).

Fixpoint addRefSizes (size : Z) (refs : list ServiceRef) : res tcpError Z :=
  match refs with
  | [] => Ok size
  | ref :: refs => let! refSize := serviceRefWireSize ref in addRefSizes (size + refSize) refs
  end.

Definition wireEnvelopeSize (e : WireEnvelope) : res tcpError Z :=
  if (maxCallPathLength <? len (wCallPath e)) || (maxErrorCodeLength <? slen (wErrorCode e))
     || (maxErrorMessageLength <? slen (wErrorMessage e)) then Err ErrFrameTooLarge
  else if maxUint32 <? len (wPayload e) then Err ErrFrameTooLarge
  else
    let! sourceSize := serviceRefWireSize (wSource e) in
    let! targetSize := serviceRefWireSize (wTarget e) in
    let! size := addRefSizes (2 + sourceSize + targetSize + 8 + 4 + 2) (wCallPath e) in
    Ok (size + (2 + slen (wErrorCode e)) + (2 + slen (wErrorMessage e)) + (4 + len (wPayload e))).

Definition encodeWireEnvelope (e : WireEnvelope) (maxFrameSize : Z) : res tcpError (list byte) :=
  if maxFrameSize =? 0 then Err ErrFrameTooLarge
  else
    let! size := wireEnvelopeSize e in
    if (maxFrameSize <? size) || (maxInt <? size) then Err ErrFrameTooLarge
    else
      let output := [byte_of_Z wireVersion] in
      let flags := if wResponse e then 1 else 0 in
      let output := output ++ [byte_of_Z flags] in
      let! output := writeServiceRef output (wSource e) in
      let! output := writeServiceRef output (wTarget e) in
      let output := writeUint64 output (wSession e) in
      let output := writeUint32 output (wCommand e) in
      let output := writeUint16 output (len (wCallPath e)) in
      let! output := writeServiceRefs output (wCallPath e) in
      let! output := writeString16 output (wErrorCode e) maxErrorCodeLength in
      let! output := writeString16 output (wErrorMessage e) maxErrorMessageLength in
      let output := writeUint32 output (len (wPayload e)) in
      Ok (output ++ wPayload e).

(** ** The reader *)

Record wireReader := mkReader { data : list byte; pos : nat }.

Definition remaining (r : wireReader) : Z := len (data r) - Z.of_nat (pos r).

Definition readBytes (r : wireReader) (length : Z) : res tcpError (list byte * wireReader) :=
  if remaining r <? length then Err ErrInvalidFrame
  else
    let n := Z.to_nat length in
    Ok (take n (drop (pos r) (data r)), mkReader (data r) (pos r + n)).

Definition readByte (r : wireReader) : res tcpError (Z * wireReader) :=
  let! (d, r) := readBytes r 1 in
  Ok (byteZ (hd x00 d), r).

Definition readUint16 (r : wireReader) : res tcpError (Z * wireReader) :=
  let! (d, r) := readBytes r 2 in Ok (be_value d, r).
Definition readUint32 (r : wireReader) : res tcpError (Z * wireReader) :=
  let! (d, r) := readBytes r 4 in Ok (be_value d, r).
Definition readUint64 (r : wireReader) : res tcpError (Z * wireReader) :=
  let! (d, r) := readBytes r 8 in Ok (be_value d, r).

Definition readString16 (r : wireReader) (maximum : Z) : res tcpError (string * wireReader) :=
  let! (length, r) := readUint16 r in
  if maximum <? length then Err ErrFrameTooLarge
  else
    let! (d, r) := readBytes r length in
    Ok (string_of d, r).

Definition readServiceRef (r : wireReader) : res tcpError (ServiceRef * wireReader) :=
  let! (node, r) := readString16 r maxNodeIDLength in
  let! (id, r) := readUint64 r in
  Ok (mkRef node id, r).

Fixpoint readServiceRefs (n : nat) (r : wireReader) : res tcpError (list ServiceRef * wireReader) :=
  match n with
  | O => Ok ([], r)
  | S n =>
      let! (ref, r) := readServiceRef r in
      let! (refs, r) := readServiceRefs n r in
      Ok (ref :: refs, r)
  end.

(** A failed read whose error the caller replaces by [ErrInvalidFrame]. *)
Definition orInvalid {A} (c : res tcpError A) : res tcpError A :=
  match c with Ok a => Ok a | Err _ => Err ErrInvalidFrame end.

Definition decodeWireEnvelope (bs : list byte) : res tcpError WireEnvelope :=
  let reader := mkReader bs 0 in
  let! (version, reader) := orInvalid (readByte reader) in
  if negb (version =? wireVersion) then Err ErrInvalidFrame else
  let! (flags, reader) := orInvalid (readByte reader) in
  if negb (Z.ldiff flags 1 =? 0) then Err ErrInvalidFrame else
  let! (source, reader) := readServiceRef reader in
  let! (target, reader) := readServiceRef reader in
  let! (session, reader) := readUint64 reader in
  let! (command, reader) := readUint32 reader in
  let! (pathLength, reader) := orInvalid (readUint16 reader) in
  if maxCallPathLength <? pathLength then Err ErrInvalidFrame else
  let! (path, reader) := readServiceRefs (Z.to_nat pathLength) reader in
  let! (errorCode, reader) := readString16 reader maxErrorCodeLength in
  let! (errorMessage, reader) := readString16 reader maxErrorMessageLength in
  let! (payloadLength, reader) := readUint32 reader in
  let! (payload, reader) := orInvalid (readBytes reader payloadLength) in
  if negb (remaining reader =? 0) then Err ErrInvalidFrame else
  Ok (mkWire source target session command payload (negb (Z.land flags 1 =? 0))
        path errorCode errorMessage).

(** ** Frames *)

(** An [io.Writer] that may accept only part of the data: each call answers with
    the number of bytes it took, or fails.  [w k d] is the answer of its [k]-th
    call, and what it took in all calls is what the peer receives. *)
Definition Writer := nat → list byte → res tcpError Z.

(** The state of a connection being written: the number of calls made to the
    writer and the bytes it took. *)
Record sink := mkSink { callCount : nat; sent : list byte }.

(** [writeAll], with one round of fuel per byte: a round without progress ends
    the loop with [io.ErrUnexpectedEOF]. *)
Fixpoint writeAllLoop (fuel : nat) (w : Writer) (d : list byte) (c : sink) : sink * error tcpError :=
  match d with
  | [] => (c, None)
  | _ =>
      match fuel with
      | O => (c, None)
      | S fuel =>
          match w (callCount c) d with
          | Err e => (mkSink (S (callCount c)) (sent c), Some e)
          | Ok written =>
              if written =? 0 then (mkSink (S (callCount c)) (sent c), Some ErrUnexpectedEOF)
              else writeAllLoop fuel w (drop (Z.to_nat written) d)
                     (mkSink (S (callCount c)) (sent c ++ take (Z.to_nat written) d))
          end
      end
  end.

Definition writeAll (w : Writer) (d : list byte) (c : sink) : sink * error tcpError :=
  writeAllLoop (length d) w d c.

Definition writeFrame (w : Writer) (body : list byte) (maxFrameSize : Z) (c : sink)
  : sink * error tcpError :=
  if len body =? 0 then (c, Some ErrInvalidFrame)
  else if maxFrameSize <? len body then (c, Some ErrFrameTooLarge)
  else
    match writeAll w (be_bytes 4 (len body)) c with
    | (c, Some e) => (c, Some e)
    | (c, None) => writeAll w body c
    end.

(** [io.ReadFull] of [n] bytes from the rest of the stream. *)
Definition readFull (n : Z) (stream : list byte) : res tcpError (list byte * list byte) :=
  if n <=? len stream then Ok (take (Z.to_nat n) stream, drop (Z.to_nat n) stream)
  else if len stream =? 0 then Err ErrEOF
  else Err ErrUnexpectedEOF.

Definition readFrame (stream : list byte) (maxFrameSize : Z) : res tcpError (list byte * list byte) :=
  let! (header, stream) := readFull 4 stream in
  let length := be_value header in
  if length =? 0 then Err ErrInvalidFrame
  else if maxFrameSize <? length then Err ErrFrameTooLarge
  else readFull length stream.

(** ** Handshake *)

Definition handshakeBody (node : NodeID) (version : Z) : res tcpError (list byte) :=
  if bool_decide (node = "") || (maxNodeIDLength <? slen node) then Err ErrPeerIdentity
  else writeString16 (writeUint16 handshakeMagic version) node maxNodeIDLength.

Definition writeHandshake (w : Writer) (node : NodeID) (version : Z) (c : sink)
  : sink * error tcpError :=
  match handshakeBody node version with
  | Err e => (c, Some e)
  | Ok body => writeFrame w body maxHandshakeFrameSize c
  end.

Definition readHandshake (stream : list byte) : res tcpError (NodeID * Z * list byte) :=
  let! (body, stream) := readFrame stream maxHandshakeFrameSize in
  let wire := mkReader body 0 in
  let! (magic, wire) := orInvalid (readBytes wire (len handshakeMagic)) in
  if negb (bool_decide (magic = handshakeMagic)) then Err ErrInvalidFrame else
  let! (version, wire) := readUint16 wire in
  let! (node, wire) := orInvalid (readString16 wire maxNodeIDLength) in
  if bool_decide (node = "") || negb (remaining wire =? 0) then Err ErrInvalidFrame else
  Ok (node, version, stream).

(** Both sides of the handshake.  [stream] is what the peer sends, the returned
    sink what this side wrote.  The deadline set around the exchange only bounds
    how long the operations may wait. *)
Definition initiateHandshake (w : Writer) (stream : list byte) (local target : NodeID)
    (version : Z) (c : sink) : sink * res tcpError NodeID :=
  match writeHandshake w local version c with
  | (c, Some e) => (c, Err e)
  | (c, None) =>
      (c, let! (peer, peerVersion, _) := readHandshake stream in
          if negb (peerVersion =? version) then Err ErrProtocolVersion
          else if bool_decide (peer ≠ target) || bool_decide (peer = local)
                  || bool_decide (peer = "")
          then Err ErrPeerIdentity
          else Ok peer)
  end.

Definition acceptHandshake (w : Writer) (stream : list byte) (local : NodeID) (version : Z)
    (c : sink) : sink * res tcpError NodeID :=
  match readHandshake stream with
  | Err e => (c, Err e)
  | Ok (peer, peerVersion, _) =>
      match writeHandshake w local version c with
      | (c, Some e) => (c, Err e)
      | (c, None) =>
          (c, if negb (peerVersion =? version) then Err ErrProtocolVersion
              else if bool_decide (peer = "") || bool_decide (peer = local)
              then Err ErrPeerIdentity
              else Ok peer)
      end
  end.
