(* ===== verification/WireFacts.v ===== *)
(** * The TCP wire format: lemmas and properties

    The encoder is characterised by one function, [wireBytes], and every reader
    by the bytes it consumes; the round trips follow. *)

From stdpp Require Import prelude strings list.
From Stdlib Require Import ZArith Lia Strings.Byte.
From S2P Require Import Prelude Types Bytes Wire.

Local Open Scope Z_scope.

(** ** What the encoder writes *)

Definition stringBytes (s : string) : list byte := be_bytes 2 (slen s) ++ bytes_of s.
Definition refBytes (r : ServiceRef) : list byte := stringBytes (Node r) ++ be_bytes 8 (ID r).

Definition wireBytes (e : WireEnvelope) : list byte :=
  [byte_of_Z wireVersion; byte_of_Z (if wResponse e then 1 else 0)]
  ++ refBytes (wSource e) ++ refBytes (wTarget e)
  ++ be_bytes 8 (wSession e) ++ be_bytes 4 (wCommand e)
  ++ be_bytes 2 (len (wCallPath e)) ++ concat (refBytes <$> wCallPath e)
  ++ stringBytes (wErrorCode e) ++ stringBytes (wErrorMessage e)
  ++ be_bytes 4 (len (wPayload e)) ++ wPayload e.

#[local] Arguments stringBytes : simpl never.
#[local] Arguments refBytes : simpl never.
#[local] Arguments wireBytes : simpl never.

(** The limits of the format. *)
Definition refFits (r : ServiceRef) : Prop := slen (Node r) ≤ maxNodeIDLength.
Record wireFits (e : WireEnvelope) : Prop := {
  fits_source : refFits (wSource e);
  fits_target : refFits (wTarget e);
  fits_path_len : len (wCallPath e) ≤ maxCallPathLength;
  fits_path : Forall refFits (wCallPath e);
  fits_code : slen (wErrorCode e) ≤ maxErrorCodeLength;
  fits_message : slen (wErrorMessage e) ≤ maxErrorMessageLength;
  fits_payload : len (wPayload e) ≤ maxUint32
}.

(** The ranges of the Go field types. *)
Definition refTyped (r : ServiceRef) : Prop := is_u64 (ID r).
Record wireTyped (e : WireEnvelope) : Prop := {
  typed_source : refTyped (wSource e);
  typed_target : refTyped (wTarget e);
  typed_session : is_u64 (wSession e);
  typed_command : 0 ≤ wCommand e < 2 ^ 32;
  typed_path : Forall refTyped (wCallPath e)
}.

Lemma slen_nonneg s : 0 ≤ slen s.
Proof. apply len_nonneg. Qed.

Lemma len_stringBytes s : len (stringBytes s) = 2 + slen s.
Proof. unfold stringBytes. rewrite len_app, len_be_bytes. done. Qed.

Lemma len_refBytes r : len (refBytes r) = 2 + slen (Node r) + 8.
Proof. unfold refBytes. rewrite len_app, len_stringBytes, len_be_bytes. lia. Qed.

Lemma writeString16_spec out s m :
  m ≤ maxUint16 →
  writeString16 out s m = if m <? slen s then Err ErrFrameTooLarge else Ok (out ++ stringBytes s).
Proof.
  intros Hm. unfold writeString16, writeUint16, stringBytes.
  destruct (m <? slen s) eqn:E; [done|]. bool_prop.
  replace (maxUint16 <? slen s) with false by (symmetry; apply Z.ltb_ge; lia).
  simpl. by rewrite <- (assoc_L app).
Qed.

Lemma writeServiceRef_spec out r :
  writeServiceRef out r =
    if maxNodeIDLength <? slen (Node r) then Err ErrFrameTooLarge else Ok (out ++ refBytes r).
Proof.
  unfold writeServiceRef. rewrite writeString16_spec by done.
  case_match; [done|]. unfold writeUint64, refBytes. simpl. by rewrite <- (assoc_L app).
Qed.

Lemma writeServiceRefs_fits out l :
  Forall refFits l → writeServiceRefs out l = Ok (out ++ concat (refBytes <$> l)).
Proof.
  intros H. revert out. induction H as [|r l Hr _ IH]; intros out; simpl; [by rewrite app_nil_r|].
  rewrite writeServiceRef_spec. replace (maxNodeIDLength <? slen (Node r)) with false
    by (symmetry; by apply Z.ltb_ge).
  simpl. by rewrite IH, <- (assoc_L app).
Qed.

Lemma serviceRefWireSize_spec r :
  serviceRefWireSize r =
    if maxNodeIDLength <? slen (Node r) then Err ErrFrameTooLarge else Ok (len (refBytes r)).
Proof.
  unfold serviceRefWireSize. rewrite len_refBytes.
  destruct (maxNodeIDLength <? slen (Node r)) eqn:E; [done|]. bool_prop.
  replace (maxUint16 <? slen (Node r)) with false; [done|].
  symmetry. apply Z.ltb_ge. unfold maxUint16, maxNodeIDLength in *. lia.
Qed.

#[local] Opaque be_bytes stringBytes refBytes.

Lemma addRefSizes_spec l size :
  (Forall refFits l ∧ addRefSizes size l = Ok (size + len (concat (refBytes <$> l)))) ∨
  (¬ Forall refFits l ∧ addRefSizes size l = Err ErrFrameTooLarge).
Proof.
  revert size. induction l as [|r l IH]; intros size; csimpl.
  - left. split; [done|]. f_equal. unfold len; simpl. lia.
  - rewrite serviceRefWireSize_spec. destruct (maxNodeIDLength <? slen (Node r)) eqn:E; bool_prop; simpl.
    + right. split; [|done]. intros Hf. apply Forall_cons in Hf as [Hr _]. unfold refFits in Hr. lia.
    + destruct (IH (size + len (refBytes r))) as [[Hf ->]|[Hf ->]].
      * left. split; [by constructor|]. f_equal. rewrite len_app. lia.
      * right. split; [|done]. intros Hf'. apply Forall_cons in Hf' as [_ ?]. done.
Qed.

Lemma len_cons {A} (a : A) l : len (a :: l) = 1 + len l.
Proof. unfold len. simpl. lia. Qed.

Lemma len_wireBytes e :
  len (wireBytes e) =
    2 + len (refBytes (wSource e)) + len (refBytes (wTarget e)) + 8 + 4 + 2
    + len (concat (refBytes <$> wCallPath e))
    + (2 + slen (wErrorCode e)) + (2 + slen (wErrorMessage e)) + (4 + len (wPayload e)).
Proof.
  unfold wireBytes. rewrite !len_app, !len_be_bytes, !len_stringBytes, !len_cons.
  change (len (@nil byte)) with 0. lia.
Qed.

(** The size computed before encoding is the size of the encoding. *)
Lemma wireEnvelopeSize_spec e :
  (wireFits e ∧ wireEnvelopeSize e = Ok (len (wireBytes e))) ∨
  (¬ wireFits e ∧ wireEnvelopeSize e = Err ErrFrameTooLarge).
Proof.
  unfold wireEnvelopeSize. rewrite !serviceRefWireSize_spec.
  destruct (maxCallPathLength <? _) eqn:E1; bool_prop; simpl.
  { right. split; [|done]. intros []. lia. }
  destruct (maxErrorCodeLength <? _) eqn:E2; bool_prop; simpl.
  { right. split; [|done]. intros []. lia. }
  destruct (maxErrorMessageLength <? _) eqn:E3; bool_prop; simpl.
  { right. split; [|done]. intros []. lia. }
  destruct (maxUint32 <? _) eqn:E4; bool_prop; simpl.
  { right. split; [|done]. intros []. lia. }
  destruct (maxNodeIDLength <? slen (Node (wSource e))) eqn:E5; bool_prop; simpl.
  { right. split; [|done]. intros []. unfold refFits in *. lia. }
  destruct (maxNodeIDLength <? slen (Node (wTarget e))) eqn:E6; bool_prop; simpl.
  { right. split; [|done]. intros []. unfold refFits in *. lia. }
  destruct (addRefSizes_spec (wCallPath e)
    (2 + len (refBytes (wSource e)) + len (refBytes (wTarget e)) + 8 + 4 + 2)) as [[Hf ->]|[Hf ->]].
  - left. split; [by split|]. simpl. by rewrite len_wireBytes.
  - right. split; [|done]. by intros [].
Qed.

Lemma ltb_false a b : a ≤ b → (b <? a) = false.
Proof. intros. by apply Z.ltb_ge. Qed.

Lemma encode_spec e maxFrameSize :
  0 ≤ maxFrameSize ≤ maxUint32 →
  (wireFits e ∧ len (wireBytes e) ≤ maxFrameSize ∧
     encodeWireEnvelope e maxFrameSize = Ok (wireBytes e)) ∨
  (¬ (wireFits e ∧ len (wireBytes e) ≤ maxFrameSize) ∧
     encodeWireEnvelope e maxFrameSize = Err ErrFrameTooLarge).
Proof.
  intros Hmax. unfold encodeWireEnvelope.
  assert (2 ≤ len (wireBytes e)) as Hpos.
  { rewrite len_wireBytes. pose proof (len_nonneg (refBytes (wSource e))).
    pose proof (len_nonneg (refBytes (wTarget e))). pose proof (slen_nonneg (wErrorCode e)).
    pose proof (slen_nonneg (wErrorMessage e)). pose proof (len_nonneg (wPayload e)).
    pose proof (len_nonneg (concat (refBytes <$> wCallPath e))). lia. }
  destruct (maxFrameSize =? 0) eqn:E0; bool_prop.
  { right. split; [|done]. lia. }
  destruct (wireEnvelopeSize_spec e) as [[Hf ->]|[Hf ->]]; simpl.
  - destruct (maxFrameSize <? len (wireBytes e)) eqn:E1; bool_prop; simpl.
    { right. split; [|done]. lia. }
    rewrite (ltb_false _ maxInt) by (unfold maxInt, maxUint32 in *; lia). left.
    destruct Hf as [H1 H2 H3 H4 H5 H6 H7]. unfold refFits in *.
    rewrite writeServiceRef_spec, ltb_false by done; simpl.
    rewrite writeServiceRef_spec, ltb_false by done; simpl.
    rewrite writeServiceRefs_fits by done; simpl.
    rewrite writeString16_spec, ltb_false by done; simpl.
    rewrite writeString16_spec, ltb_false by done; simpl.
    split; [by split|]. split; [lia|]. f_equal. unfold wireBytes, writeUint64, writeUint32, writeUint16.
    simpl. by rewrite <- !(assoc_L app).
  - right. split; [|done]. tauto.
Qed.

(** ** What the readers consume *)

Definition rest (r : wireReader) : list byte := drop (pos r) (data r).
Definition readerOk (r : wireReader) : Prop := (pos r ≤ length (data r))%nat.

(** A reader operation and the encoding it inverts: it accepts every encoding of
    a value in [P], consuming exactly it, and accepts nothing else. *)
Class Inverts {A} (op : wireReader → res tcpError (A * wireReader)) (enc : A → list byte)
    (P : A → Prop) : Prop := {
  inverts_fwd : ∀ r a k, readerOk r → P a → rest r = enc a ++ k →
    ∃ r', op r = Ok (a, r') ∧ readerOk r' ∧ rest r' = k;
  inverts_bwd : ∀ r a r', readerOk r → op r = Ok (a, r') →
    P a ∧ readerOk r' ∧ rest r = enc a ++ rest r'
}.

Lemma len_rest r : readerOk r → len (rest r) = remaining r.
Proof. unfold readerOk, rest, remaining, len. intros. rewrite length_drop. lia. Qed.

#[global] Instance readBytes_inverts n : 0 ≤ n → Inverts (λ r, readBytes r n) id (λ d, len d = n).
Proof.
  intros Hn. split; intros r d; unfold readBytes.
  - intros k Hr Hd Hrest. simpl in *. assert (length d = Z.to_nat n) as Hl by (unfold len in Hd; lia).
    rewrite ltb_false.
    + exists (mkReader (data r) (pos r + Z.to_nat n)). fold (rest r). rewrite Hrest.
      rewrite take_app_length' by lia. split; [done|]. unfold readerOk, rest in *; simpl.
      pose proof (f_equal length Hrest) as Hlen. rewrite length_drop, length_app in Hlen.
      split; [lia|]. rewrite <- drop_drop, Hrest. by rewrite drop_app_length' by lia.
    + rewrite <- len_rest, Hrest, len_app by done. pose proof (len_nonneg k). lia.
  - intros r' Hr Hop. destruct (remaining r <? n) eqn:E; [done|]. bool_prop. simplify_eq.
    rewrite <- len_rest in E by done. fold (rest r). unfold len in *.
    assert (length (rest r) = length (data r) - pos r)%nat as Hlr by apply length_drop.
    split; [rewrite length_take; lia|]. unfold readerOk, rest in *; simpl in *.
    split; [lia|]. rewrite <- drop_drop. symmetry. apply take_drop.
Qed.

Lemma readBytes_be {A} (n : nat) (f : list byte → A) (enc : A → list byte) (P : A → Prop) :
  (∀ a, P a → len (enc a) = Z.of_nat n ∧ f (enc a) = a) →
  (∀ d, len d = Z.of_nat n → P (f d) ∧ enc (f d) = d) →
  Inverts (λ r, res_bind (λ '(d, r), Ok (f d, r)) (readBytes r (Z.of_nat n))) enc P.
Proof.
  intros H1 H2. pose proof (readBytes_inverts (Z.of_nat n) ltac:(lia)) as [F B]. split.
  - intros r a k Hr Ha Hrest. destruct (H1 a Ha) as [Hl Hf].
    destruct (F r (enc a) k Hr Hl Hrest) as (r' & -> & ? & ?). exists r'. simpl. by rewrite Hf.
  - intros r a r' Hr Hop. destruct (readBytes r (Z.of_nat n)) as [[d r'']|] eqn:E; [|done].
    simpl in Hop. simplify_eq. destruct (B r d r' Hr E) as (Hd & ? & Hrest).
    destruct (H2 d Hd) as [? ->]. done.
Qed.

Lemma readUint_inverts (n : nat) :
  Inverts (λ r, res_bind (λ '(d, r), Ok (be_value d, r)) (readBytes r (Z.of_nat n)))
    (be_bytes n) (λ v, 0 ≤ v < 256 ^ Z.of_nat n).
Proof.
  apply readBytes_be.
  - intros v Hv. by rewrite len_be_bytes, be_value_small.
  - intros d Hd. unfold len in Hd. apply Nat2Z.inj in Hd as <-.
    split; [apply be_value_range|apply be_bytes_value].
Qed.

#[global] Instance readUint16_inverts : Inverts readUint16 (be_bytes 2) (λ v, 0 ≤ v < 2 ^ 16).
Proof. exact (readUint_inverts 2). Qed.
#[global] Instance readUint32_inverts : Inverts readUint32 (be_bytes 4) (λ v, 0 ≤ v < 2 ^ 32).
Proof. exact (readUint_inverts 4). Qed.
#[global] Instance readUint64_inverts : Inverts readUint64 (be_bytes 8) is_u64.
Proof. exact (readUint_inverts 8). Qed.

#[global] Instance readByte_inverts :
  Inverts readByte (λ v, [byte_of_Z v]) (λ v, 0 ≤ v < 256).
Proof.
  apply (readBytes_be 1 (λ d, byteZ (hd x00 d))).
  - intros v Hv. split; [done|]. simpl. rewrite byteZ_of_Z. by apply Z.mod_small.
  - intros [|b [|]] Hd; try (exfalso; unfold len in Hd; simpl in Hd; lia). simpl.
    split; [apply byteZ_range|]. by rewrite byte_of_byteZ.
Qed.

#[global] Instance orInvalid_inverts {A} (op : wireReader → res tcpError (A * wireReader)) enc P :
  Inverts op enc P → Inverts (λ r, orInvalid (op r)) enc P.
Proof.
  intros [F B]. split.
  - intros r a k H1 H2 H3. destruct (F r a k H1 H2 H3) as (r' & -> & ?). by exists r'.
  - intros r a r' Hr Hop. apply B; [done|]. by destruct (op r).
Qed.

(** Sequencing: read [a], then [b], and combine them. *)
Lemma bind_inverts {A B C} (op1 : wireReader → res tcpError (A * wireReader))
    (op2 : A → wireReader → res tcpError (B * wireReader)) enc1 P1 (enc2 : A → B → list byte) P2
    (f : A → B → C) (fst' : C → A) (snd' : C → B) :
  Inverts op1 enc1 P1 → (∀ a, P1 a → Inverts (op2 a) (enc2 a) (P2 a)) →
  (∀ c, f (fst' c) (snd' c) = c) → (∀ a b, fst' (f a b) = a ∧ snd' (f a b) = b) →
  Inverts (λ r, res_bind (λ '(a, r), res_bind (λ '(b, r), Ok (f a b, r)) (op2 a r)) (op1 r))
    (λ c, enc1 (fst' c) ++ enc2 (fst' c) (snd' c)) (λ c, P1 (fst' c) ∧ P2 (fst' c) (snd' c)).
Proof.
  intros [F1 B1] H2 Hf Hp. split.
  - intros r c k Hr [Ha Hb] Hrest. rewrite <- (assoc_L app) in Hrest.
    destruct (F1 r _ _ Hr Ha Hrest) as (r1 & -> & Hr1 & Hrest1). simpl.
    destruct (H2 _ Ha) as [F2 _]. destruct (F2 r1 _ _ Hr1 Hb Hrest1) as (r2 & -> & ? & ?).
    exists r2. simpl. by rewrite Hf.
  - intros r c r' Hr Hop. destruct (op1 r) as [[a r1]|] eqn:E1; [|done]. simpl in Hop.
    destruct (op2 a r1) as [[b r2]|] eqn:E2; [|done]. simpl in Hop. simplify_eq.
    destruct (Hp a b) as [-> ->]. destruct (B1 r a r1 Hr E1) as (Ha & Hr1 & ->).
    destruct (H2 a Ha) as [_ B2]. destruct (B2 r1 b r' Hr1 E2) as (Hb & ? & ->).
    by rewrite (assoc_L app).
Qed.

#[local] Transparent stringBytes refBytes.

#[global] Instance readString16_inverts maximum :
  maximum ≤ maxUint16 → Inverts (λ r, readString16 r maximum) stringBytes (λ s, slen s ≤ maximum).
Proof.
  intros Hmax. destruct readUint16_inverts as [F1 B1].
  split; intros r s; unfold readString16, stringBytes.
  - intros k Hr Hs Hrest. rewrite <- (assoc_L app) in Hrest. pose proof (slen_nonneg s).
    destruct (F1 r (slen s) _ Hr ltac:(unfold maxUint16 in *; lia) Hrest) as (r1 & -> & Hr1 & Hrest1).
    simpl. rewrite ltb_false by done.
    destruct (readBytes_inverts (slen s) ltac:(done)) as [F2 _].
    destruct (F2 r1 (bytes_of s) k Hr1 eq_refl Hrest1) as (r2 & -> & ? & ?).
    exists r2. simpl. by rewrite string_of_bytes_of.
  - intros r' Hr Hop. destruct (readUint16 r) as [[n r1]|] eqn:E1; [|done]. simpl in Hop.
    destruct (maximum <? n) eqn:E; [done|]. bool_prop.
    destruct (readBytes r1 n) as [[d r2]|] eqn:E2; [|done]. simpl in Hop. simplify_eq.
    destruct (B1 r n r1 Hr E1) as (Hn & Hr1 & ->). simpl in Hn.
    destruct (readBytes_inverts n ltac:(lia)) as [_ B2].
    destruct (B2 r1 d r' Hr1 E2) as (Hd & ? & ->).
    unfold slen. rewrite bytes_of_string_of, Hd. split_and!; [done..|]. by rewrite <- (assoc_L app).
Qed.

Definition refOk (r : ServiceRef) : Prop := refFits r ∧ refTyped r.

#[global] Instance readServiceRef_inverts : Inverts readServiceRef refBytes refOk.
Proof.
  pose proof (bind_inverts (λ r, readString16 r maxNodeIDLength) (λ _, readUint64) stringBytes
    (λ s, slen s ≤ maxNodeIDLength) (λ _, be_bytes 8) (λ _, is_u64) mkRef Node ID) as H.
  apply H.
  - by apply readString16_inverts.
  - intros. apply readUint64_inverts.
  - by intros [].
  - done.
Qed.

#[local] Opaque stringBytes refBytes.

#[global] Instance readServiceRefs_inverts n :
  Inverts (readServiceRefs n) (λ l, concat (refBytes <$> l))
    (λ l, length l = n ∧ Forall refOk l).
Proof.
  induction n as [|n [F B]]; split; intros r l; simpl.
  - intros k Hr [Hl _] Hrest. destruct l; [|done]. by exists r.
  - intros r' Hr [= <- <-]. done.
  - intros k Hr [Hl Hall] Hrest. destruct l as [|a l]; [done|]. simpl in Hl.
    apply Forall_cons in Hall as [Ha Hall]. csimpl in Hrest. rewrite <- (assoc_L app) in Hrest.
    destruct (inverts_fwd r a _ Hr Ha Hrest) as (r1 & -> & Hr1 & Hrest1). simpl.
    destruct (F r1 l k Hr1 ltac:(split; [lia|done]) Hrest1) as (r2 & -> & ?). by exists r2.
  - intros r' Hr Hop. destruct (readServiceRef r) as [[a r1]|] eqn:E1; [|done]. simpl in Hop.
    destruct (readServiceRefs n r1) as [[l1 r2]|] eqn:E2; [|done]. simpl in Hop. simplify_eq.
    destruct (inverts_bwd r a r1 Hr E1) as (Ha & Hr1 & ->).
    destruct (B r1 l1 r' Hr1 E2) as ([<- Hall] & ? & ->). csimpl.
    split_and!; [done|by constructor|done|]. by rewrite <- (assoc_L app).
Qed.

(** ** The envelope *)

#[local] Hint Extern 1 (_ ≤ _) => first [done | lia] : typeclass_instances.

(** Run the reader [op] of the goal on the encoding of [v] in front of it. *)
Ltac read_fwd op v :=
  lazymatch goal with
  | Hr : readerOk ?r, Hrest : rest ?r = _ |- _ =>
      let r' := fresh "r" in let Hr' := fresh "Hr" in let Hrest' := fresh "Hrest" in
      let E := fresh "E" in
      edestruct (inverts_fwd (op := op) r v) as (r' & E & Hr' & Hrest');
      [exact Hr| |exact Hrest|]; [done|]; simpl in E; rewrite E; clear E Hr Hrest; simpl
  end.

(** What the reader [op] that succeeded in hypothesis [H] consumed. *)
Ltac read_bwd H op :=
  match type of H with
  | context [res_bind _ ?c] =>
      let v := fresh "v" in let r' := fresh "r" in let E := fresh "E" in
      let Hv := fresh "Hv" in let Hr' := fresh "Hr" in let Hrest := fresh "Hrest" in
      destruct c as [[v r']|] eqn:E; [simpl in H|done];
      match goal with
      | Hr : readerOk ?r |- _ =>
          destruct (inverts_bwd (op := op) r v r' Hr E) as (Hv & Hr' & Hrest); clear E Hr;
          simpl in Hv
      end
  end.

Lemma decode_wireBytes e : wireFits e → wireTyped e → decodeWireEnvelope (wireBytes e) = Ok e.
Proof.
  intros Hf Ht. unfold decodeWireEnvelope. set (r0 := mkReader (wireBytes e) 0).
  assert (readerOk r0) as Hr0 by (unfold readerOk; simpl; lia).
  assert (rest r0 = [byte_of_Z wireVersion] ++ [byte_of_Z (if wResponse e then 1 else 0)] ++
     refBytes (wSource e) ++ refBytes (wTarget e)
  ++ be_bytes 8 (wSession e) ++ be_bytes 4 (wCommand e)
  ++ be_bytes 2 (len (wCallPath e)) ++ concat (refBytes <$> wCallPath e)
  ++ stringBytes (wErrorCode e) ++ stringBytes (wErrorMessage e)
  ++ be_bytes 4 (len (wPayload e)) ++ wPayload e ++ []) as Hrest0.
  { unfold rest, r0; simpl. by rewrite app_nil_r. }
  clearbody r0. destruct Hf, Ht.
  assert (∀ f : bool, 0 ≤ (if f then 1 else 0) < 256) as Hflag by (by intros []).
  assert (0 ≤ wireVersion < 256) as Hversion by done.
  assert (0 ≤ len (wCallPath e) < 2 ^ 16) as Hpath
    by (pose proof (len_nonneg (wCallPath e)); unfold maxCallPathLength in *; lia).
  assert (0 ≤ len (wPayload e) < 2 ^ 32) as Hpayload
    by (pose proof (len_nonneg (wPayload e)); unfold maxUint32 in *; lia).
  assert (length (wCallPath e) = Z.to_nat (len (wCallPath e)) ∧ Forall refOk (wCallPath e)) as Hrefs.
  { split; [unfold len; lia|]. apply Forall_and. by split. }
  read_fwd (λ r, orInvalid (readByte r)) wireVersion.
  read_fwd (λ r, orInvalid (readByte r)) (if wResponse e then 1 else 0).
  assert (Z.ldiff (if wResponse e then 1 else 0) 1 =? 0 = true) as -> by (by destruct (wResponse e)).
  simpl.
  read_fwd readServiceRef (wSource e).
  read_fwd readServiceRef (wTarget e).
  read_fwd readUint64 (wSession e).
  read_fwd readUint32 (wCommand e).
  read_fwd (λ r, orInvalid (readUint16 r)) (len (wCallPath e)).
  rewrite ltb_false by done.
  read_fwd (readServiceRefs (Z.to_nat (len (wCallPath e)))) (wCallPath e).
  read_fwd (λ r, readString16 r maxErrorCodeLength) (wErrorCode e).
  read_fwd (λ r, readString16 r maxErrorMessageLength) (wErrorMessage e).
  read_fwd readUint32 (len (wPayload e)).
  read_fwd (λ r, orInvalid (readBytes r (len (wPayload e)))) (wPayload e).
  rewrite <- len_rest, Hrest0 by done. simpl. f_equal.
  destruct e as [? ? ? ? ? response ? ? ?]; simpl. by destruct response.
Qed.

Lemma flag_roundtrip v :
  0 ≤ v < 256 → Z.ldiff v 1 = 0 → (if negb (Z.land v 1 =? 0) then 1 else 0) = v.
Proof.
  intros Hv Hd. pose proof (Z.ldiff_le v 1 ltac:(lia) Hd).
  assert (v = 0 ∨ v = 1) as [-> | ->] by lia; done.
Qed.

Lemma decode_inv bs e :
  decodeWireEnvelope bs = Ok e → wireFits e ∧ wireTyped e ∧ bs = wireBytes e.
Proof.
  unfold decodeWireEnvelope. intros H.
  assert (readerOk (mkReader bs 0)) as Hr0 by (unfold readerOk; simpl; lia).
  read_bwd H (λ r, orInvalid (readByte r)).
  destruct (v =? wireVersion) eqn:Ev; [bool_prop; subst v; simpl in H|done].
  read_bwd H (λ r, orInvalid (readByte r)).
  destruct (Z.ldiff v 1 =? 0) eqn:Ef; [bool_prop; simpl in H|done].
  read_bwd H readServiceRef.
  read_bwd H readServiceRef.
  read_bwd H readUint64.
  read_bwd H readUint32.
  read_bwd H (λ r, orInvalid (readUint16 r)).
  destruct (maxCallPathLength <? v4) eqn:Ep; [done|bool_prop].
  read_bwd H (readServiceRefs (Z.to_nat v4)).
  read_bwd H (λ r, readString16 r maxErrorCodeLength).
  read_bwd H (λ r, readString16 r maxErrorMessageLength).
  read_bwd H readUint32.
  read_bwd H (λ r, orInvalid (readBytes r v8)).
  destruct (remaining r10 =? 0) eqn:Er; [bool_prop; simplify_eq/=|done].
  destruct Hv1 as [??], Hv2 as [??], Hv6 as [Hlen [??]%Forall_and].
  assert (len v5 = v4) as Hl by (unfold len; lia).
  assert (bs = rest (mkReader bs 0)) as Hbs by done.
  assert (rest r10 = []) as Hend.
  { apply nil_length_inv. rewrite <- len_rest in Er by done. unfold len in Er. lia. }
  split_and!.
  - split; simpl; try done; [lia|unfold maxUint32; lia].
  - by split.
  - unfold wireBytes; simpl. rewrite Hl, flag_roundtrip by done.
    rewrite Hbs, Hrest, Hrest0, Hrest1, Hrest2, Hrest3, Hrest4, Hrest5, Hrest6, Hrest7, Hrest8,
      Hrest9, Hrest10, Hend, app_nil_r. done.
Qed.

(** C4. Decoding inverts encoding: whatever frame limit the sender used, the
    frame body it produced for an envelope whose fields are in the range of
    their Go types decodes to that envelope. *)
Theorem wire_decode_encode e maxFrameSize bs :
  0 ≤ maxFrameSize ≤ maxUint32 → wireTyped e →
  encodeWireEnvelope e maxFrameSize = Ok bs → decodeWireEnvelope bs = Ok e.
Proof.
  intros Hmax Ht He. destruct (encode_spec e maxFrameSize Hmax) as [(Hf & _ & E)|[_ E]];
    rewrite E in He; simplify_eq.
  by apply decode_wireBytes.
Qed.

Definition sampleEnvelope : WireEnvelope :=
  mkWire (mkRef "gate" 7) (mkRef "lobby" 9) 41 12 (bytes_of "payload") true
    [mkRef "gate" 7; mkRef "battle" 2] "not_found" "service not found".

Example wire_decode_encode_witness :
  encodeWireEnvelope sampleEnvelope defaultMaxFrameSize = Ok (wireBytes sampleEnvelope) ∧
  decodeWireEnvelope (wireBytes sampleEnvelope) = Ok sampleEnvelope.
Proof.
  assert (encodeWireEnvelope sampleEnvelope defaultMaxFrameSize = Ok (wireBytes sampleEnvelope))
    as E by (vm_compute; reflexivity).
  split; [exact E|].
  apply (wire_decode_encode sampleEnvelope defaultMaxFrameSize); [done| |exact E].
  split; try done; repeat constructor; done.
Defined.

(** The format is canonical: a body that decodes is exactly the encoding of
    the envelope it decodes to (no two bodies mean the same envelope, trailing
    bytes and unknown flags are refused), its fields are in range, and it is
    re-encoded to the same bytes under any frame limit it respects. *)
Theorem wire_encode_decode bs e maxFrameSize :
  0 ≤ maxFrameSize ≤ maxUint32 → len bs ≤ maxFrameSize →
  decodeWireEnvelope bs = Ok e → wireTyped e ∧ encodeWireEnvelope e maxFrameSize = Ok bs.
Proof.
  intros Hmax Hlen [Hf [Ht ->]]%decode_inv. split; [done|].
  by destruct (encode_spec e maxFrameSize Hmax) as [(_ & _ & E)|[[] E]].
Qed.

Example wire_encode_decode_witness :
  decodeWireEnvelope (wireBytes sampleEnvelope) = Ok sampleEnvelope ∧
  encodeWireEnvelope sampleEnvelope 4096 = Ok (wireBytes sampleEnvelope).
Proof.
  assert (decodeWireEnvelope (wireBytes sampleEnvelope) = Ok sampleEnvelope) as E
    by (vm_compute; reflexivity).
  split; [exact E|].
  refine (proj2 (wire_encode_decode (wireBytes sampleEnvelope) sampleEnvelope 4096 _ _ E)).
  - clear E. vm_compute. split; discriminate.
  - clear E. vm_compute. discriminate.
Defined.

(** The encoder is total on its documented limits and nothing else: it
    succeeds exactly when every field respects its limit and the body fits the
    frame, and fails only with [ErrFrameTooLarge], so no write error can occur
    halfway and no body exceeds the frame limit. *)
Theorem wire_encode_total e maxFrameSize :
  0 ≤ maxFrameSize ≤ maxUint32 →
  (wireFits e ∧ len (wireBytes e) ≤ maxFrameSize →
     encodeWireEnvelope e maxFrameSize = Ok (wireBytes e)) ∧
  (¬ (wireFits e ∧ len (wireBytes e) ≤ maxFrameSize) →
     encodeWireEnvelope e maxFrameSize = Err ErrFrameTooLarge).
Proof. intros Hmax. destruct (encode_spec e maxFrameSize Hmax) as [(?&?&?)|[??]]; tauto. Qed.

Example wire_encode_total_witness :
  encodeWireEnvelope sampleEnvelope 64 = Err ErrFrameTooLarge.
Proof.
  refine (proj2 (wire_encode_total sampleEnvelope 64 _) _); [done|].
  intros [_ H]. vm_compute in H. by apply H.
Defined.

(** ** Frames *)

(** A writer that reports how much of the data it took, as [io.Writer] does. *)
Definition writerHonest (w : Writer) : Prop :=
  ∀ k d n, w k d = Ok n → 0 ≤ n ≤ len d.

(** A writer that always makes progress. *)
Definition writerReliable (w : Writer) : Prop :=
  ∀ k d, d ≠ [] → ∃ n, w k d = Ok n ∧ 0 < n ≤ len d.

Lemma writeAllLoop_spec w fuel d c c' err :
  writerHonest w → (length d ≤ fuel)%nat → writeAllLoop fuel w d c = (c', err) →
  ∃ p, sent c' = sent c ++ p ∧ p `prefix_of` d ∧ (err = None → p = d).
Proof.
  intros Hw. revert d c. induction fuel as [|fuel IH]; intros d c Hfuel; destruct d as [|b d].
  1,3: intros [= <- <-]; exists []; rewrite app_nil_r; by split_and!.
  { simpl in Hfuel. lia. }
  cbn [writeAllLoop]. destruct (w (callCount c) (b :: d)) as [n|e] eqn:E.
  - apply Hw in E. destruct (n =? 0) eqn:En; bool_prop.
    { intros [= <- <-]. exists []. rewrite app_nil_r. split_and!; [done|apply prefix_nil|done]. }
    intros Hloop. apply IH in Hloop as (p & Hp & Hpre & Hdone).
    2: { rewrite length_drop. simpl in *. lia. }
    exists (take (Z.to_nat n) (b :: d) ++ p). cbn [sent] in Hp. rewrite Hp, (assoc_L app).
    split_and!; [done| |].
    + rewrite <- (take_drop (Z.to_nat n) (b :: d)) at 2. by apply prefix_app.
    + intros ->. rewrite Hdone by done. apply take_drop.
  - intros [= <- <-]. exists []. rewrite app_nil_r. split_and!; [done|apply prefix_nil|done].
Qed.

Lemma writeAllLoop_reliable w fuel d c :
  writerReliable w → (writeAllLoop fuel w d c).2 = None.
Proof.
  intros Hw. revert d c. induction fuel as [|fuel IH]; intros d c; destruct d as [|b d]; try done.
  cbn [writeAllLoop]. destruct (Hw (callCount c) (b :: d)) as (n & -> & Hn); [done|].
  destruct (n =? 0) eqn:En; bool_prop; [lia|]. apply IH.
Qed.

Definition frameBytes (body : list byte) : list byte := be_bytes 4 (len body) ++ body.

Lemma writeFrame_spec w body m c c' err :
  writerHonest w → writeFrame w body m c = (c', err) →
  ∃ p, sent c' = sent c ++ p ∧ p `prefix_of` frameBytes body ∧
    (err = None → p = frameBytes body ∧ 0 < len body ≤ m).
Proof.
  intros Hw. unfold writeFrame, writeAll, frameBytes. pose proof (len_nonneg body).
  destruct (len body =? 0) eqn:E0; bool_prop.
  { intros [= <- <-]. exists []. rewrite app_nil_r. split_and!; [done|apply prefix_nil|done]. }
  destruct (m <? len body) eqn:E1; bool_prop.
  { intros [= <- <-]. exists []. rewrite app_nil_r. split_and!; [done|apply prefix_nil|done]. }
  destruct (writeAllLoop _ _ _ c) as [c1 [e|]] eqn:E2;
    apply writeAllLoop_spec in E2 as (p1 & Hp1 & Hpre1 & Hd1); try done.
  - intros [= <- <-]. exists p1. split_and!; [done| |done]. by apply prefix_app_r.
  - intros E3. apply writeAllLoop_spec in E3 as (p2 & Hp2 & Hpre2 & Hd2); [|done..].
    exists (p1 ++ p2). rewrite Hp2, Hp1, (assoc_L app). rewrite Hd1 by done.
    split_and!; [done|by apply prefix_app|]. intros He. rewrite Hd2 by done. split; [done|lia].
Qed.

Lemma writeFrame_reliable w body m c :
  writerReliable w → 0 < len body ≤ m → (writeFrame w body m c).2 = None.
Proof.
  intros Hw Hb. unfold writeFrame, writeAll.
  destruct (len body =? 0) eqn:E0; bool_prop; [lia|]. rewrite ltb_false by lia.
  pose proof (writeAllLoop_reliable w (length (be_bytes 4 (len body))) (be_bytes 4 (len body)) c Hw).
  destruct (writeAllLoop _ _ _ c) as [c1 err]. simpl in *. subst. by apply writeAllLoop_reliable.
Qed.

Lemma readFull_app d k : readFull (len d) (d ++ k) = Ok (d, k).
Proof.
  unfold readFull. rewrite len_app. pose proof (len_nonneg k).
  destruct (len d <=? len d + len k) eqn:E; bool_prop; [|lia].
  unfold len. rewrite Nat2Z.id, take_app_length, drop_app_length. done.
Qed.

Lemma readFrame_frameBytes body m k :
  0 < len body ≤ m → len body ≤ maxUint32 → readFrame (frameBytes body ++ k) m = Ok (body, k).
Proof.
  intros Hb Hu. unfold readFrame, frameBytes. rewrite <- (assoc_L app).
  pose proof (readFull_app (be_bytes 4 (len body)) (body ++ k)) as H4.
  rewrite len_be_bytes in H4. change (Z.of_nat 4) with 4 in H4. rewrite H4. simpl.
  rewrite be_value_small by (unfold maxUint32 in Hu; change (256 ^ Z.of_nat 4) with (2 ^ 32); lia).
  destruct (len body =? 0) eqn:E0; bool_prop; [lia|]. rewrite ltb_false by lia. apply readFull_app.
Qed.

Definition endOfStream (e : tcpError) : Prop := e = ErrEOF ∨ e = ErrUnexpectedEOF.

Lemma readFull_short n stream :
  len stream < n → ∃ e, readFull n stream = Err e ∧ endOfStream e.
Proof.
  intros Hn. unfold readFull. destruct (n <=? len stream) eqn:E; bool_prop; [lia|].
  destruct (len stream =? 0); eexists; (split; [done|]); [by left|by right].
Qed.

(** A truncated frame never yields a frame. *)
Lemma readFrame_prefix body m p :
  0 < len body ≤ m → len body ≤ maxUint32 → p `prefix_of` frameBytes body → p ≠ frameBytes body →
  ∃ e, readFrame p m = Err e ∧ endOfStream e.
Proof.
  intros Hb Hu [q Hq] Hne. assert (0 < len q) as Hlq.
  { destruct q; [|rewrite len_cons; pose proof (len_nonneg q); lia].
    rewrite app_nil_r in Hq. congruence. }
  assert (len p + len q = 4 + len body) as Hl.
  { rewrite <- len_app, <- Hq. unfold frameBytes. by rewrite len_app, len_be_bytes. }
  unfold readFrame. destruct (decide (len p < 4)) as [Hs|Hs].
  { destruct (readFull_short 4 p Hs) as (e & -> & He). by exists e. }
  assert (p = be_bytes 4 (len body) ++ drop 4 p) as Hp.
  { rewrite <- (take_drop 4 p) at 1. f_equal.
    assert (take 4 (frameBytes body) = be_bytes 4 (len body)) as <-.
    { unfold frameBytes. by rewrite take_app_length' by (symmetry; apply length_be_bytes). }
    rewrite Hq, take_app_le; [done|unfold len in Hs; lia]. }
  pose proof (readFull_app (be_bytes 4 (len body)) (drop 4 p)) as H4.
  rewrite <- Hp, len_be_bytes in H4. change (Z.of_nat 4) with 4 in H4. rewrite H4. simpl.
  rewrite be_value_small by (unfold maxUint32 in Hu; change (256 ^ Z.of_nat 4) with (2 ^ 32); lia).
  destruct (len body =? 0) eqn:E0; bool_prop; [lia|]. rewrite ltb_false by lia.
  apply readFull_short. unfold len in *. rewrite length_drop. lia.
Qed.

(** Frames survive short writes and truncated reads.  Whatever chunks an
    honest writer takes, a frame written without error is read back as the same
    body with the following bytes untouched; when the write fails partway, the
    bytes that reached the peer are never read as a frame: the peer sees the end
    of the stream. *)
Theorem frame_roundtrip w body m c c' err k :
  writerHonest w → 0 < len body ≤ m → m ≤ maxUint32 →
  writeFrame w body m c = (c', err) →
  ∃ p, sent c' = sent c ++ p ∧
    (err = None → readFrame (p ++ k) m = Ok (body, k)) ∧
    (p ≠ frameBytes body → ∃ e, readFrame p m = Err e ∧ endOfStream e).
Proof.
  intros Hw Hb Hm H. apply writeFrame_spec in H as (p & Hp & Hpre & Hdone); [|done].
  exists p. split_and!; [done| |].
  - intros He. destruct (Hdone He) as [-> _]. apply readFrame_frameBytes; lia.
  - intros Hne. apply (readFrame_prefix body); [lia|lia|done|done].
Qed.

(** A writer that takes at most three bytes per call. *)
Definition threeByteWriter : Writer := λ _ d, Ok (Z.min 3 (len d)).

Lemma threeByteWriter_honest : writerHonest threeByteWriter.
Proof. intros k d n [= <-]. pose proof (len_nonneg d). lia. Qed.

Lemma threeByteWriter_reliable : writerReliable threeByteWriter.
Proof.
  intros k [|b d] Hd; [done|]. eexists. split; [done|]. rewrite len_cons.
  pose proof (len_nonneg d). lia.
Qed.

Example frame_roundtrip_witness :
  ∃ p, sent (writeFrame threeByteWriter (bytes_of "hello") 64 (mkSink 0 [])).1 = [] ++ p ∧
    (None (A := tcpError) = None → readFrame (p ++ [x01; x02]) 64 = Ok (bytes_of "hello", [x01; x02])) ∧
    (p ≠ frameBytes (bytes_of "hello") → ∃ e, readFrame p 64 = Err e ∧ endOfStream e).
Proof.
  apply (frame_roundtrip threeByteWriter (bytes_of "hello") 64 (mkSink 0 []) _ None [x01; x02]).
  - apply threeByteWriter_honest.
  - vm_compute. split; [reflexivity|discriminate].
  - vm_compute. discriminate.
  - vm_compute. reflexivity.
Defined.

(** ** Handshake *)

Definition handshakeBytes (node : NodeID) (version : Z) : list byte :=
  handshakeMagic ++ be_bytes 2 version ++ stringBytes node.

Definition nodeIDOk (node : NodeID) : Prop := node ≠ "" ∧ slen node ≤ maxNodeIDLength.

Lemma handshakeBody_spec node version :
  nodeIDOk node → handshakeBody node version = Ok (handshakeBytes node version).
Proof.
  intros [Hne Hl]. unfold handshakeBody. rewrite bool_decide_false, ltb_false by done. simpl.
  rewrite writeString16_spec, ltb_false by done. unfold writeUint16, handshakeBytes.
  by rewrite <- (assoc_L app).
Qed.

Lemma len_handshakeBytes node version : len (handshakeBytes node version) = 8 + slen node.
Proof.
  unfold handshakeBytes. rewrite !len_app, len_be_bytes, len_stringBytes.
  change (len handshakeMagic) with 4. lia.
Qed.

Lemma writeHandshake_sent w node version c :
  writerReliable w → writerHonest w → nodeIDOk node →
  ∃ c', writeHandshake w node version c = (c', None) ∧
    sent c' = sent c ++ frameBytes (handshakeBytes node version).
Proof.
  intros Hr Hw Hn. unfold writeHandshake. rewrite handshakeBody_spec by done.
  assert (0 < len (handshakeBytes node version) ≤ maxHandshakeFrameSize) as Hlen.
  { rewrite len_handshakeBytes. destruct Hn. pose proof (slen_nonneg node).
    unfold maxHandshakeFrameSize, maxNodeIDLength in *. lia. }
  pose proof (writeFrame_reliable w _ maxHandshakeFrameSize c Hr Hlen) as He.
  destruct (writeFrame _ _ _ c) as [c' err] eqn:E. simpl in He. subst.
  exists c'. split; [done|]. apply writeFrame_spec in E as (p & -> & _ & Hp); [|done].
  by destruct Hp as [-> _].
Qed.

Lemma readHandshake_bytes node version k :
  nodeIDOk node → 0 ≤ version < 2 ^ 16 →
  readHandshake (frameBytes (handshakeBytes node version) ++ k) = Ok (node, version, k).
Proof.
  intros Hn Hv. unfold readHandshake.
  assert (0 < len (handshakeBytes node version) ≤ maxHandshakeFrameSize) as Hlen.
  { rewrite len_handshakeBytes. destruct Hn. pose proof (slen_nonneg node).
    unfold maxHandshakeFrameSize, maxNodeIDLength in *. lia. }
  rewrite readFrame_frameBytes by (done || (unfold maxHandshakeFrameSize, maxUint32 in *; lia)).
  simpl. set (r0 := mkReader (handshakeBytes node version) 0).
  assert (readerOk r0) as Hr0 by (unfold readerOk; simpl; lia).
  assert (rest r0 = handshakeMagic ++ be_bytes 2 version ++ stringBytes node ++ []) as Hrest0.
  { unfold rest, r0; simpl. by rewrite app_nil_r. }
  clearbody r0. destruct Hn as [Hne Hln].
  change (len handshakeMagic) with 4. read_fwd (λ r, orInvalid (readBytes r 4)) handshakeMagic.
  read_fwd readUint16 version.
  read_fwd (λ r, orInvalid (readString16 r maxNodeIDLength)) node.
  rewrite bool_decide_false by done.
  match goal with H : rest ?r = [] |- _ => by rewrite <- len_rest, H by done end.
Qed.

(** Handshake agreement.  When the two ends of a connection run the
    handshake against each other, with writers that may split the data
    arbitrarily, both sides reach the same verdict on the protocol version, and
    when both accept, each has learnt the other's node identity: the dialler
    gets the node it wanted and the acceptor gets the dialler. *)
Theorem handshake_agreement wa wb a b target va vb ca cb ca' cb' :
  writerReliable wa → writerHonest wa → writerReliable wb → writerHonest wb →
  nodeIDOk a → nodeIDOk b → 0 ≤ va < 2 ^ 16 → 0 ≤ vb < 2 ^ 16 →
  sent ca = [] → sent cb = [] →
  ca' = (writeHandshake wa a va ca).1 → cb' = (writeHandshake wb b vb cb).1 →
  initiateHandshake wa (sent cb') a target va ca =
    (ca', if decide (va ≠ vb) then Err ErrProtocolVersion
          else if decide (b = target ∧ b ≠ a) then Ok b else Err ErrPeerIdentity) ∧
  acceptHandshake wb (sent ca') b vb cb =
    (cb', if decide (va ≠ vb) then Err ErrProtocolVersion
          else if decide (a ≠ b) then Ok a else Err ErrPeerIdentity).
Proof.
  intros Hra Hwa Hrb Hwb Ha Hb Hva Hvb Hca Hcb -> ->.
  destruct (writeHandshake_sent wa a va ca Hra Hwa Ha) as (ca1 & Ea & Sa).
  destruct (writeHandshake_sent wb b vb cb Hrb Hwb Hb) as (cb1 & Eb & Sb).
  rewrite Hca in Sa. rewrite Hcb in Sb. simpl in Sa, Sb.
  pose proof (readHandshake_bytes a va [] Ha Hva) as Ra. rewrite app_nil_r, <- Sa in Ra.
  pose proof (readHandshake_bytes b vb [] Hb Hvb) as Rb. rewrite app_nil_r, <- Sb in Rb.
  unfold initiateHandshake, acceptHandshake. rewrite Ea, Eb; simpl. rewrite Ra, Rb; simpl.
  destruct Ha as [Ha _], Hb as [Hb _]. rewrite !(bool_decide_false (_ = "")) by done.
  split; f_equal.
  - destruct (decide (va ≠ vb)) as [Hne|Heq].
    + destruct (vb =? va) eqn:E; bool_prop; [congruence|done].
    + apply dec_stable in Heq as ->. rewrite Z.eqb_refl; simpl. rewrite orb_false_r.
      destruct (decide (b = target ∧ b ≠ a)) as [[-> Hba]|Hn].
      * rewrite !bool_decide_false; naive_solver.
      * destruct (decide (b = target)) as [->|]; [|by rewrite bool_decide_true by done].
        rewrite (bool_decide_true (target = a)) by (apply dec_stable; naive_solver).
        by rewrite orb_true_r.
  - destruct (decide (va ≠ vb)) as [Hne|Heq].
    + destruct (va =? vb) eqn:E; bool_prop; [congruence|done].
    + apply dec_stable in Heq as ->. rewrite Z.eqb_refl; simpl.
      destruct (decide (a ≠ b)) as [Hn|Hn]; [by rewrite bool_decide_false by done|].
      apply dec_stable in Hn. by rewrite bool_decide_true by done.
Qed.

Example handshake_agreement_witness :
  initiateHandshake threeByteWriter
      (sent (writeHandshake threeByteWriter "lobby" 1 (mkSink 0 [])).1) "gate" "lobby" 1 (mkSink 0 [])
    = ((writeHandshake threeByteWriter "gate" 1 (mkSink 0 [])).1, Ok "lobby") ∧
  acceptHandshake threeByteWriter
      (sent (writeHandshake threeByteWriter "gate" 1 (mkSink 0 [])).1) "lobby" 1 (mkSink 0 [])
    = ((writeHandshake threeByteWriter "lobby" 1 (mkSink 0 [])).1, Ok "gate").
Proof.
  refine (handshake_agreement threeByteWriter threeByteWriter "gate" "lobby" "lobby" 1 1
    (mkSink 0 []) (mkSink 0 []) _ _ threeByteWriter_reliable threeByteWriter_honest
    threeByteWriter_reliable threeByteWriter_honest _ _ _ _ eq_refl eq_refl eq_refl eq_refl).
  - split; [done|vm_compute; discriminate].
  - split; [done|vm_compute; discriminate].
  - done.
  - done.
Defined.
