(* ===== verification/ClusterWire.v ===== *)
(** * The cluster envelope: validation, remote errors and name resolution

    The pure part of [src/runtime/cluster.go] and [src/runtime/core_endpoint.go]:
    what a node accepts from a peer, how errors travel as stable codes, and the
    payloads of the reserved name resolution command. *)

From stdpp Require Import prelude gmap strings list.
From Stdlib Require Import ZArith Lia Strings.Byte.
From S2P Require Import Prelude Types Bytes Wire WireFacts.

Local Open Scope Z_scope.

Definition maxRemoteErrorMessageLength : Z := 4096.

Definition stableRemoteErrors : list (string * sentinel) :=
  [("timeout", ErrTimeout);
   ("reply_twice", ErrReplyTwice);
   ("service_not_found", ErrServiceNotFound);
   ("service_closed", ErrServiceClosed);
   ("mailbox_full", ErrMailboxFull);
   ("invalid_service_spec", ErrInvalidServiceSpec);
   ("runtime_closed", ErrRuntimeClosed);
   ("reply_unavailable", ErrReplyUnavailable);
   ("reply_expired", ErrReplyExpired);
   ("unknown_command", ErrUnknownCommand);
   ("service_name_conflict", ErrServiceNameConflict);
   ("call_cycle", ErrCallCycle);
   ("call_not_allowed", ErrCallNotAllowed);
   ("service_failed", ErrServiceFailed);
   ("stop_timeout", ErrStopTimeout);
   ("close_timeout", ErrCloseTimeout);
   ("invalid_cluster_config", ErrInvalidClusterConfig);
   ("cluster_start", ErrClusterStart);
   ("remote_unavailable", ErrRemoteUnavailable);
   ("invalid_envelope", ErrInvalidClusterEnvelope);
   ("payload_encode", ErrPayloadEncode);
   ("payload_decode", ErrPayloadDecode)].

(** The map is filled in table order, so a repeated code would keep the last
    entry. *)
Definition stableRemoteErrorsByCode : gmap string sentinel :=
  foldl (λ m d, <[d.1 := d.2]> m) ∅ stableRemoteErrors.

(** [message[:n]] on bytes. *)
Definition truncate (n : Z) (s : string) : string :=
  if n <? slen s then string_of (take (Z.to_nat n) (bytes_of s)) else s.

Fixpoint findStable (err : rtError) (table : list (string * sentinel)) : option string :=
  match table with
  | [] => None
  | (code, s) :: table => if errors_Is err s then Some code else findStable err table
  end.

Definition encodeRemoteError (err : rtError) : string * string :=
  match findStable err stableRemoteErrors with
  | Some code => (code, "")
  | None => ("remote", truncate maxRemoteErrorMessageLength (errorText err))
  end.

Definition decodeRemoteError (code message : string) : rtError :=
  match stableRemoteErrorsByCode !! code with
  | Some s => Sentinel s
  | None => RemoteError code message
  end.

(** ** The core endpoint *)

Definition coreResolveNameCommand : CommandID := 2 ^ 32 - 1.
Definition maxCoreServiceNameLength : Z := 1024.

Definition encodeCoreResolveName {A} (value : any A) : res rtError (list byte) :=
  match value with
  | AnyServiceName name =>
      if maxCoreServiceNameLength <? slen name then Err (Sentinel ErrInvalidClusterEnvelope)
      else Ok (bytes_of name)
  | _ => Err (Sentinel ErrInvalidClusterEnvelope)
  end.

Definition decodeCoreResolveName (payload : list byte) : res rtError ServiceName :=
  if maxCoreServiceNameLength <? len payload then Err (Sentinel ErrInvalidClusterEnvelope)
  else Ok (string_of payload).

Definition encodeCoreResolveResponse {A} (value : any A) (node : NodeID) : res rtError (list byte) :=
  match value with
  | AnyServiceRef ref =>
      if bool_decide (Node ref ≠ node) || (ID ref =? 0) then Err (Sentinel ErrInvalidClusterEnvelope)
      else Ok (be_bytes 8 (ID ref))
  | _ => Err (Sentinel ErrInvalidClusterEnvelope)
  end.

Definition decodeCoreResolveResponse (payload : list byte) (node : NodeID) : res rtError ServiceRef :=
  if negb (len payload =? 8) then Err (Sentinel ErrInvalidClusterEnvelope)
  else
    let id := be_value payload in
    if id =? 0 then Err (Sentinel ErrInvalidClusterEnvelope) else Ok (mkRef node id).

(** ** Validation of what a peer sent *)

(** [len(path) == 0 || path[len(path)-1] != target], negated. *)
Definition pathEndsAt (path : list ServiceRef) (target : ServiceRef) : bool :=
  match last path with Some ref => bool_decide (ref = target) | None => false end.

Definition validate (node : NodeID) (state : runtimeState) (peer : NodeID) (wire : WireEnvelope)
  : error sentinel :=
  if bool_decide (state ≠ runtimeRunning) then Some ErrRuntimeClosed
  else if bool_decide (peer = "") || bool_decide (Node (wSource wire) ≠ peer)
          || bool_decide (Node (wTarget wire) ≠ node) then Some ErrInvalidClusterEnvelope
  else if wResponse wire then
    if (wSession wire =? 0) || negb (len (wCallPath wire) =? 0)
       || (bool_decide (wErrorCode wire = "") && bool_decide (wErrorMessage wire ≠ ""))
       || (bool_decide (wErrorCode wire ≠ "") && negb (len (wPayload wire) =? 0))
    then Some ErrInvalidClusterEnvelope
    else if (ID (wSource wire) =? 0)
            && (negb (wCommand wire =? coreResolveNameCommand) || negb (ID (wTarget wire) =? 0))
    then Some ErrInvalidClusterEnvelope
    else if (ID (wSource wire) =? 0) && bool_decide (wErrorCode wire = "")
            && negb (len (wPayload wire) =? 8)
    then Some ErrInvalidClusterEnvelope
    else None
  else if bool_decide (wErrorCode wire ≠ "") || bool_decide (wErrorMessage wire ≠ "")
  then Some ErrInvalidClusterEnvelope
  else if ID (wTarget wire) =? 0 then
    if negb (wCommand wire =? coreResolveNameCommand) || (wSession wire =? 0)
       || negb (ID (wSource wire) =? 0) || (maxCoreServiceNameLength <? len (wPayload wire))
    then Some ErrInvalidClusterEnvelope
    else if negb (pathEndsAt (wCallPath wire) (wTarget wire)) then Some ErrInvalidClusterEnvelope
    else None
  else if wSession wire =? 0 then
    if negb (len (wCallPath wire) =? 0) then Some ErrInvalidClusterEnvelope else None
  else if negb (pathEndsAt (wCallPath wire) (wTarget wire)) then Some ErrInvalidClusterEnvelope
  else None.

(** ** Facts *)

Lemma findStable_Some err table code :
  findStable err table = Some code → ∃ s, (code, s) ∈ table ∧ errors_Is err s = true.
Proof.
  induction table as [|[c s] table IH]; simpl; [done|].
  destruct (errors_Is err s) eqn:E.
  - intros [= ->]. exists s. split; [by left|done].
  - intros (s' & ? & ?)%IH. exists s'. split; [by right|done].
Qed.

Lemma findStable_None err table s c :
  findStable err table = None → (c, s) ∈ table → errors_Is err s = false.
Proof.
  induction table as [|[c' s'] table IH]; simpl; [by intros _ ?%not_elem_of_nil|].
  destruct (errors_Is err s') eqn:E; [done|]. intros Hn [[= -> ->]|Hin]%elem_of_cons; auto.
Qed.

(** The table has no repeated code and no empty one. *)
Lemma stable_codes code s :
  (code, s) ∈ stableRemoteErrors →
  stableRemoteErrorsByCode !! code = Some s ∧ code ≠ "" ∧ slen code ≤ maxErrorCodeLength.
Proof.
  revert code s. cut (Forall (λ d, stableRemoteErrorsByCode !! d.1 = Some d.2 ∧ d.1 ≠ "" ∧
    (slen d.1 <=? maxErrorCodeLength) = true) stableRemoteErrors).
  { intros H code s Hin. rewrite Forall_forall in H. destruct (H _ Hin) as (? & ? & ?).
    simpl in *. bool_prop. done. }
  eapply (bool_decide_eq_true_1 _). vm_compute. reflexivity.
Qed.

Lemma slen_string_of l : slen (string_of l) = len l.
Proof. unfold slen. by rewrite bytes_of_string_of. Qed.

Lemma slen_truncate n s : 0 ≤ n → slen (truncate n s) ≤ n.
Proof.
  intros Hn. unfold truncate. destruct (n <? slen s) eqn:E; bool_prop; [|done].
  rewrite slen_string_of. unfold len. rewrite length_take. lia.
Qed.

Lemma encodeRemoteError_spec (err : rtError) :
  let '(code, message) := encodeRemoteError err in
  code ≠ "" ∧ slen code ≤ maxErrorCodeLength ∧ slen message ≤ maxErrorMessageLength ∧
  ((∃ s, decodeRemoteError code message = Sentinel s ∧ errors_Is err s = true) ∨
   ((∀ c s, (c, s) ∈ stableRemoteErrors → errors_Is err s = false) ∧
    decodeRemoteError code message =
      RemoteError "remote" (truncate maxRemoteErrorMessageLength (errorText err)))).
Proof.
  unfold encodeRemoteError. destruct (findStable err stableRemoteErrors) as [code|] eqn:E.
  - apply findStable_Some in E as (s & (Hc & Hne & Hl)%stable_codes & His).
    unfold decodeRemoteError. rewrite Hc. split_and!; try done. left. by exists s.
  - split_and!; [done|done| |].
    + by apply slen_truncate.
    + right. split; [|done]. intros c s. by apply findStable_None.
Qed.

(** Errors keep their meaning across nodes.  An error that is (or wraps, or
    joins) one of the stable runtime errors is received as a runtime error the
    original is an instance of, so [errors.Is] against it holds on both nodes;
    any other error becomes a [RemoteError] with code "remote" and a prefix of
    the original text; and what is sent always respects the limits of the TCP
    format and of the receiver's validation. *)
Theorem remote_error_roundtrip (err : rtError) :
  let '(code, message) := encodeRemoteError err in
  code ≠ "" ∧ slen code ≤ maxErrorCodeLength ∧ slen message ≤ maxErrorMessageLength ∧
  ((∃ s, decodeRemoteError code message = Sentinel s ∧ errors_Is err s = true) ∨
   ((∀ c s, (c, s) ∈ stableRemoteErrors → errors_Is err s = false) ∧
    decodeRemoteError code message =
      RemoteError "remote" (truncate maxRemoteErrorMessageLength (errorText err)))).
Proof. apply encodeRemoteError_spec. Qed.

Lemma core_name_roundtrip {A} name payload :
  encodeCoreResolveName (A := A) (AnyServiceName name) = Ok payload →
  decodeCoreResolveName payload = Ok name ∧ len payload ≤ maxCoreServiceNameLength.
Proof.
  simpl. destruct (maxCoreServiceNameLength <? slen name) eqn:E; [done|]. intros [= <-].
  unfold decodeCoreResolveName. change (len (bytes_of name)) with (slen name).
  rewrite E, string_of_bytes_of. bool_prop. done.
Qed.

Lemma core_response_roundtrip {A} ref node payload :
  is_u64 (ID ref) → encodeCoreResolveResponse (A := A) (AnyServiceRef ref) node = Ok payload →
  decodeCoreResolveResponse payload node = Ok ref ∧ len payload = 8.
Proof.
  intros Hid. simpl. destruct (bool_decide (Node ref ≠ node)) eqn:En; [done|]. simpl.
  destruct (ID ref =? 0) eqn:E0; [done|]. intros [= <-]. bool_prop.
  apply dec_stable in En as <-. unfold decodeCoreResolveResponse. rewrite len_be_bytes.
  change (negb (Z.of_nat 8 =? 8)) with false. cbv iota.
  rewrite be_value_small by (exact Hid). split; [|done].
  destruct (ID ref =? 0) eqn:E1; bool_prop; [done|]. by destruct ref.
Qed.
