(* ===== verification/Tasks.v ===== *)
(** * Lifecycle task tracking

    [src/runtime/task.go]: the goroutines that run [Init], [Stop] and [Close] of
    a service, so that the ones that outlive their timeout are cancelled once and
    reported when the runtime closes.  A cancel function is identified by a
    number; calling it is an entry of the returned list. *)

From stdpp Require Import prelude gmap strings list ssreflect.
From Stdlib Require Import ZArith Lia.
From S2P Require Import Prelude Types Metrics.

Local Open Scope Z_scope.

Inductive runtimeTaskKind := runtimeTaskInit | runtimeTaskDispatch | runtimeTaskStop | runtimeTaskClose.

Record runtimeTask := mkTask {
  taskOwner : ServiceRef;
  taskKind : runtimeTaskKind;
  taskStarted : Time;
  taskCancel : option nat;
  timedOut : bool
}.

Record taskTracker := mkTracker { nextTask : Z; tasks : gmap Z runtimeTask }.

Definition newTaskTracker : taskTracker := mkTracker 0 ∅.

Definition taskGauge (t : taskTracker) (mc : metricCollector) : metricCollector :=
  SetGauge "runtime_tasks_active" (Z.of_nat (size (tasks t))) mc.

Definition begin (now : Time) (owner : ServiceRef) (kind : runtimeTaskKind) (cancel : option nat)
    (t : taskTracker) (mc : metricCollector) : taskTracker * metricCollector * Z :=
  let id := u64_succ (nextTask t) in
  let t := mkTracker id (<[id := mkTask owner kind now cancel false]> (tasks t)) in
  (t, taskGauge t mc, id).

Definition finish (id : Z) (t : taskTracker) (mc : metricCollector) : taskTracker * metricCollector :=
  match tasks t !! id with
  | Some _ =>
      let t := mkTracker (nextTask t) (delete id (tasks t)) in
      (t, taskGauge t mc)
  | None => (t, mc)
  end.

(** The task with the mark, and the cancel function to call. *)
Definition markTimedOutLocked (task : runtimeTask) : runtimeTask * bool * option nat :=
  if timedOut task then (task, false, None)
  else (mkTask (taskOwner task) (taskKind task) (taskStarted task) (taskCancel task) true,
        true, taskCancel task).

Definition timeout (id : Z) (t : taskTracker) (mc : metricCollector)
  : taskTracker * metricCollector * list nat :=
  match tasks t !! id with
  | None => (t, mc, [])
  | Some task =>
      let '(task', marked, cancel) := markTimedOutLocked task in
      (mkTracker (nextTask t) (<[id := task']> (tasks t)),
       (if marked then Inc "runtime_task_timeouts_total" mc else mc), option_list cancel)
  end.

(** The loop over all tasks of an owner, in the order of the enumeration. *)
Definition timeoutOwner (owner : ServiceRef) (t : taskTracker) (mc : metricCollector)
  : taskTracker * metricCollector * list nat :=
  foldl (λ '(t, mc, cancels) id,
           match tasks t !! id with
           | Some task =>
               if bool_decide (taskOwner task = owner) then
                 let '(t, mc, c) := timeout id t mc in (t, mc, cancels ++ c)
               else (t, mc, cancels)
           | None => (t, mc, cancels)
           end)
    (t, mc, []) (map_to_list (tasks t)).*1.

Definition active (t : taskTracker) : list (Z * runtimeTask) := map_to_list (tasks t).

Definition reportActiveTasks (t : taskTracker) (mc : metricCollector) : metricCollector :=
  match active t with
  | [] => mc
  | l => Add "runtime_tasks_abandoned_total" (Z.of_nat (length l)) mc
  end.

(** ** Facts *)

Lemma timeout_once id t mc :
  let '(t1, mc1, _) := timeout id t mc in
  timeout id t1 mc1 = (t1, mc1, []).
Proof.
  unfold timeout at 1. destruct (tasks t !! id) as [task|] eqn:E.
  2: { unfold timeout. by rw E. }
  unfold markTimedOutLocked. destruct (timedOut task) eqn:Et; simpl.
  - unfold timeout; simpl. rw lookup_insert_eq /markTimedOutLocked Et /=.
    by rw insert_insert_eq.
  - unfold timeout; simpl. rw lookup_insert_eq /markTimedOutLocked /=.
    by rw insert_insert_eq.
Qed.

Lemma finish_gone id t mc : tasks (finish id t mc).1 !! id = None.
Proof. unfold finish. case_match eqn:E; simpl; [apply lookup_delete_eq|done]. Qed.
