(* ===== verification/Runner.v ===== *)
(** * Runners

    [src/runtime/runner.go] and [src/runtime/runner_registry.go]: a fixed pool of
    workers over a bounded queue, for work outside the mailboxes.

    The goroutines of a runner interleave freely: the state has a program point
    for every worker and for the one goroutine that runs the body of [closeOnce],
    and a step is one action of one of them.  [lifecycle] is a reader-writer lock:
    submitters enter only while the closer does not hold it ([locked]), and the
    closer enters only when no submitter is inside ([counting] is the number of
    submitters that have queued their task and not yet counted it).  What other
    code answers (the processor, [Runtime.Send]) is a part of the step's label.
    [taskNo] numbers the tasks in the order in which the runner queued them, to
    tell them apart; it is not data of the program. *)

From stdpp Require Import prelude gmap strings list sorting.
From Stdlib Require Import ZArith Lia.
From S2P Require Import Prelude Types Metrics.

Local Open Scope Z_scope.

Inductive RunnerStatus := RunnerRunning | RunnerClosing | RunnerClosed.
#[global] Instance RunnerStatus_eq_dec : EqDecision RunnerStatus.
Proof. solve_decision. Defined.

Record RunnerConfig := mkRunnerConfig { rcName : string; rcWorkers : Z; rcQueueSize : Z }.

Definition i32 (z : Z) : Z := (z + 2 ^ 31) mod 2 ^ 32 - 2 ^ 31.

Section Runner.
Context {Req Res : Type} (zero : Res).

Record RunnerResult := mkResult { Value : Res; rErr : error rtError }.

Record runnerTask := mkRunnerTask {
  taskNo : nat; tRequest : Req; tTarget : ServiceRef; tCommand : CommandID; tAwait : bool
}.

(** Where a worker is: at its [select], with a task it took, inside the processor,
    with the processor's result, on the way out of [execute], past the loop, gone. *)
Inductive worker :=
| WIdle | WGot (t : runnerTask) | WRunning (t : runnerTask) | WFinishing (t : runnerTask) (r : RunnerResult)
| WLeaving | WExiting | WGone.

(** Where [closeOnce] is: not begun, holding the lock, status stored, cancelled and
    draining, with a task it drained, returned. *)
Inductive closer := CNone | CLocked | CStored | CDraining | CHolding (t : runnerTask) | CReturned.

Record counters := mkCounters {
  submitted : Z; completed : Z; failed : Z; rejected : Z; delivery : Z
}.

Record Runner := mkRunner {
  node : NodeID;
  config : RunnerConfig;
  queue : list runnerTask;
  cancelled : bool;                        (** [ctx] is done, with [ErrRunnerClosed] *)
  done_ : bool;                            (** [done] is closed *)
  status : RunnerStatus;
  remaining : Z;
  active : Z;
  counts : counters;
  metrics : metricCollector;
  workers : list worker;
  closing : closer;
  counting : nat;
  next : nat;                              (** the number of tasks ever queued *)
  outs : list (nat * RunnerResult)         (** every result ever completed *)
}.

Definition set_queue f s := mkRunner (node s) (config s) (f (queue s)) (cancelled s) (done_ s) (status s) (remaining s)
  (active s) (counts s) (metrics s) (workers s) (closing s) (counting s) (next s) (outs s).
Definition set_cancelled b s := mkRunner (node s) (config s) (queue s) b (done_ s) (status s) (remaining s)
  (active s) (counts s) (metrics s) (workers s) (closing s) (counting s) (next s) (outs s).
Definition set_done b st s := mkRunner (node s) (config s) (queue s) (cancelled s) b st (remaining s)
  (active s) (counts s) (metrics s) (workers s) (closing s) (counting s) (next s) (outs s).
Definition set_status st s := mkRunner (node s) (config s) (queue s) (cancelled s) (done_ s) st (remaining s)
  (active s) (counts s) (metrics s) (workers s) (closing s) (counting s) (next s) (outs s).
Definition set_remaining n s := mkRunner (node s) (config s) (queue s) (cancelled s) (done_ s) (status s) n
  (active s) (counts s) (metrics s) (workers s) (closing s) (counting s) (next s) (outs s).
Definition set_active f s := mkRunner (node s) (config s) (queue s) (cancelled s) (done_ s) (status s) (remaining s)
  (f (active s)) (counts s) (metrics s) (workers s) (closing s) (counting s) (next s) (outs s).
Definition set_counts f g s := mkRunner (node s) (config s) (queue s) (cancelled s) (done_ s) (status s) (remaining s)
  (active s) (f (counts s)) (g (metrics s)) (workers s) (closing s) (counting s) (next s) (outs s).
Definition set_worker i w s := mkRunner (node s) (config s) (queue s) (cancelled s) (done_ s) (status s) (remaining s)
  (active s) (counts s) (metrics s) (<[i := w]> (workers s)) (closing s) (counting s) (next s) (outs s).
Definition set_closing c s := mkRunner (node s) (config s) (queue s) (cancelled s) (done_ s) (status s) (remaining s)
  (active s) (counts s) (metrics s) (workers s) c (counting s) (next s) (outs s).
Definition set_counting n s := mkRunner (node s) (config s) (queue s) (cancelled s) (done_ s) (status s) (remaining s)
  (active s) (counts s) (metrics s) (workers s) (closing s) n (next s) (outs s).
Definition note_accepted s := mkRunner (node s) (config s) (queue s) (cancelled s) (done_ s) (status s) (remaining s)
  (active s) (counts s) (metrics s) (workers s) (closing s) (counting s) (S (next s)) (outs s).
Definition note_out o s := mkRunner (node s) (config s) (queue s) (cancelled s) (done_ s) (status s) (remaining s)
  (active s) (counts s) (metrics s) (workers s) (closing s) (counting s) (next s) (outs s ++ [o]).

(** ** Construction *)

(** [NewRunner]; the runtime is running and has no runner of that name (the
    registry below), and the processor is given. *)
Definition NewRunner (n : NodeID) (c : RunnerConfig) (mc : metricCollector) : res rtError Runner :=
  if bool_decide (rcName c = "") || (rcWorkers c <? 1) || (rcQueueSize c <? 1)
  then Err (Sentinel ErrInvalidRunnerConfig)
  else Ok (mkRunner n c [] false false RunnerRunning (i32 (rcWorkers c)) 0 (mkCounters 0 0 0 0 0) mc
             (replicate (Z.to_nat (rcWorkers c)) WIdle) CNone 0 0 []).

(** ** Submitting *)

Definition observeRejected (s : Runner) : Runner :=
  set_counts (λ c, mkCounters (submitted c) (completed c) (failed c) (u64_succ (rejected c)) (delivery c))
    (Inc "runner_tasks_rejected_total") s.

Definition locked (s : Runner) : bool :=
  match closing s with CNone | CReturned => false | _ => true end.

Definition number (n : nat) (t : runnerTask) : runnerTask :=
  mkRunnerTask n (tRequest t) (tTarget t) (tCommand t) (tAwait t).

(** The part of [Submit] and [enqueueAwait] under the read lock, up to the send on
    the channel; [counted] is the rest. *)
Definition enqueue (t : runnerTask) (s : Runner) : Runner * error rtError :=
  if bool_decide (status s ≠ RunnerRunning) then (observeRejected s, Some (Sentinel ErrRunnerClosed))
  else if Z.of_nat (length (queue s)) <? rcQueueSize (config s)
  then (set_counting (S (counting s)) (note_accepted (set_queue (λ q, q ++ [number (next s) t]) s)), None)
  else (observeRejected s, Some (Sentinel ErrRunnerQueueFull)).

Definition counted (s : Runner) : Runner :=
  set_counts (λ c, mkCounters (u64_succ (submitted c)) (completed c) (failed c) (rejected c) (delivery c))
    (Inc "runner_tasks_submitted_total") (set_counting (pred (counting s)) s).

(** [Submit] on a runner that is not nil. *)
Definition Submit (t : runnerTask) (s : Runner) : Runner * error rtError :=
  if bool_decide (Node (tTarget t) ≠ node s) || (ID (tTarget t) =? 0) || (tCommand t =? 0)
  then (observeRejected s, Some (Sentinel ErrInvalidRunnerTarget))
  else enqueue t s.

(** ** Working *)

(** How a processor ends. *)
Inductive procEnd := Returned (v : Res) (e : error rtError) | Panicked (text : string).

Definition invokeRunnerProcessor (p : procEnd) : RunnerResult :=
  match p with
  | Returned v e => mkResult v e
  | Panicked text => mkResult zero (Some (WrapError ErrRunnerPanic text))
  end.

(** [complete]; [sent] is what [Runtime.Send] answers. *)
Definition complete (t : runnerTask) (r : RunnerResult) (sent : error rtError) (s : Runner) : Runner :=
  let s := note_out (taskNo t, r) s in
  let s := set_counts (λ c, mkCounters (submitted c) (u64_succ (completed c)) (failed c) (rejected c) (delivery c))
             (Inc "runner_tasks_completed_total") s in
  let s := match rErr r with
           | None => s
           | Some _ => set_counts (λ c, mkCounters (submitted c) (completed c) (u64_succ (failed c)) (rejected c) (delivery c))
                         (Inc "runner_tasks_failed_total") s
           end in
  if tAwait t then s
  else match sent with
       | None => s
       | Some _ => set_counts (λ c, mkCounters (submitted c) (completed c) (failed c) (rejected c) (u64_succ (delivery c)))
                     (Inc "runner_result_delivery_failed_total") s
       end.

Definition closedResult : RunnerResult := mkResult zero (Some (Sentinel ErrRunnerClosed)).

(** ** Steps *)

Inductive label :=
| LSubmit (t : runnerTask) | LEnqueueAwait (t : runnerTask) | LCounted
| LTake (i : nat)                                     (** [case task := <-r.queue] *)
| LSeeDone (i : nat)                                  (** [case <-r.ctx.Done()] *)
| LBegin (i : nat) (sent : error rtError)             (** the cause test, then [complete] or [execute] *)
| LProcess (i : nat) (p : procEnd)                    (** the processor returns or panics *)
| LComplete (i : nat) (sent : error rtError)
| LLeave (i : nat)                                    (** the deferred [active.Add(-1)] *)
| LExit (i : nat)                                     (** the deferred function of [runWorker] *)
| LCloseLock | LCloseStatus | LCloseCancel | LCloseTake
| LCloseComplete (sent : error rtError)
| LCloseUnlock.

Definition step (l : label) (s : Runner) : option Runner :=
  match l with
  | LSubmit t => if locked s then None else Some (Submit t s).1
  | LEnqueueAwait t => if locked s then None else Some (enqueue t s).1
  | LCounted => match counting s with O => None | S _ => Some (counted s) end
  | LTake i =>
      match workers s !! i, queue s with
      | Some WIdle, t :: q => Some (set_worker i (WGot t) (set_queue (λ _, q) s))
      | _, _ => None
      end
  | LSeeDone i =>
      match workers s !! i with
      | Some WIdle => if cancelled s then Some (set_worker i WExiting s) else None
      | _ => None
      end
  | LBegin i sent =>
      match workers s !! i with
      | Some (WGot t) =>
          if cancelled s then Some (set_worker i WIdle (complete t closedResult sent s))
          else Some (set_worker i (WRunning t) (set_active Z.succ s))
      | _ => None
      end
  | LProcess i p =>
      match workers s !! i with
      | Some (WRunning t) => Some (set_worker i (WFinishing t (invokeRunnerProcessor p)) s)
      | _ => None
      end
  | LComplete i sent =>
      match workers s !! i with
      | Some (WFinishing t r) => Some (set_worker i WLeaving (complete t r sent s))
      | _ => None
      end
  | LLeave i =>
      match workers s !! i with
      | Some WLeaving => Some (set_worker i WIdle (set_active Z.pred s))
      | _ => None
      end
  | LExit i =>
      match workers s !! i with
      | Some WExiting =>
          let s := set_worker i WGone (set_remaining (remaining s - 1) s) in
          Some (if remaining s =? 0 then set_done true RunnerClosed s else s)
      | _ => None
      end
  | LCloseLock =>
      match closing s, counting s with CNone, O => Some (set_closing CLocked s) | _, _ => None end
  | LCloseStatus =>
      match closing s with CLocked => Some (set_closing CStored (set_status RunnerClosing s)) | _ => None end
  | LCloseCancel =>
      match closing s with CStored => Some (set_closing CDraining (set_cancelled true s)) | _ => None end
  | LCloseTake =>
      match closing s, queue s with
      | CDraining, t :: q => Some (set_closing (CHolding t) (set_queue (λ _, q) s))
      | _, _ => None
      end
  | LCloseComplete sent =>
      match closing s with
      | CHolding t => Some (set_closing CDraining (complete t closedResult sent s))
      | _ => None
      end
  | LCloseUnlock =>
      match closing s, queue s with CDraining, [] => Some (set_closing CReturned s) | _, _ => None end
  end.

(** [Close] answers nil: the body of [closeOnce] has returned and [done] is closed. *)
Definition closeReturned (s : Runner) : bool :=
  match closing s with CReturned => done_ s | _ => false end.

(** ** Await *)

(** What ends the wait: the result, the caller's context, or the runner's. *)
Inductive awaitEnd := AwaitResult (r : RunnerResult) | AwaitContext (cause : rtError) | AwaitClosed.
Inductive awaitAction := AYield | AEnqueue | AResume.

(** [Await]: [allowed] and [exclusive] are the tests on the owner's context and its
    [awaiting] flag; [yielded], [queued] and [resumed] are what [scheduler.yield],
    [enqueueAwait] and [scheduler.resume] answer. *)
Definition Await (allowed exclusive yielded : bool) (queued : error rtError) (ended : awaitEnd) (resumed : error rtError)
  : RunnerResult * list awaitAction :=
  let refused := mkResult zero (Some (Sentinel ErrRunnerAwaitNotAllowed)) in
  if negb allowed then (refused, [])
  else if negb exclusive then (refused, [])
  else if negb yielded then (refused, [AYield])
  else
    match queued with
    | Some e => (mkResult zero (Some (default e resumed)), [AYield; AEnqueue; AResume])
    | None =>
        let r := match ended with
                 | AwaitResult r => r
                 | AwaitContext cause => mkResult zero (Some cause)
                 | AwaitClosed => mkResult zero (Some (Sentinel ErrRunnerClosed))
                 end in
        (mkResult (Value r) (match rErr r with Some e => Some e | None => resumed end), [AYield; AEnqueue; AResume])
    end.
End Runner.
Arguments RunnerResult Res : clear implicits.
Arguments runnerTask Req : clear implicits.
Arguments worker Req Res : clear implicits.
Arguments closer Req : clear implicits.
Arguments Runner Req Res : clear implicits.
Arguments label Req Res : clear implicits.

(** ** The registry of runners *)

(** [runnerRegistry]: the runners of a runtime by name; [R] is the type of the
    entries ([runtimeRunner]), whatever requests they process. *)
Definition addRunner {R} (name : string) (r : R) (rs : gmap string R) : res rtError (gmap string R) :=
  match rs !! name with
  | Some _ => Err (Sentinel ErrRunnerNameConflict)
  | None => Ok (<[name := r]> rs)
  end.

Definition runnerNames {R} (rs : gmap string R) : list string := merge_sort String.le (map_to_list rs).*1.
Definition runnerSnapshot {R} (rs : gmap string R) : list R := omap (λ n, rs !! n) (runnerNames rs).

(** [closeAll]: every runner is closed, in the order of the names, and the errors
    are joined. *)
Fixpoint closeRunners {R} (close : R → error rtError) (l : list R) (acc : error rtError) : error rtError :=
  match l with
  | [] => acc
  | r :: l =>
      closeRunners close l
        match close r with
        | None => acc
        | Some e => Some (JoinError (match acc with Some a => [a; e] | None => [e] end))
        end
  end.
Definition closeAll {R} (close : R → error rtError) (rs : gmap string R) : error rtError :=
  closeRunners close (runnerSnapshot rs) None.
