(* ===== verification/RunnerFacts.v ===== *)
(** * What a runner guarantees

    Every interleaving of submitters, workers and the closer keeps [runner_inv]:
    each accepted task is in exactly one place until it is completed.  From it:
    results are delivered exactly once, a close that returns has completed every
    accepted task, and a close that has begun cannot get stuck. *)

From stdpp Require Import prelude gmap strings list sorting relations.
From Stdlib Require Import ZArith Lia.
From S2P Require Import Prelude Types Metrics Runner.

Local Open Scope Z_scope.

(** ** Sums over the workers *)

Fixpoint sumZ {A} (f : A → Z) (l : list A) : Z :=
  match l with [] => 0 | x :: l => f x + sumZ f l end.

Lemma sumZ_app {A} (f : A → Z) l l' : sumZ f (l ++ l') = sumZ f l + sumZ f l'.
Proof. induction l as [|x l IH]; simpl; lia. Qed.

Lemma sumZ_insert {A} (f : A → Z) l i x y :
  l !! i = Some x → sumZ f (<[i := y]> l) = sumZ f l - f x + f y.
Proof.
  intros H. rewrite <- (take_drop_middle l i x H) at 2.
  rewrite insert_take_drop by (by eapply lookup_lt_Some). rewrite !sumZ_app. simpl. lia.
Qed.

Lemma sumZ_replicate {A} (f : A → Z) n x : sumZ f (replicate n x) = Z.of_nat n * f x.
Proof. induction n as [|n IH]; simpl; [done|]. lia. Qed.

Lemma sumZ_nonneg {A} (f : A → Z) l : (∀ x, 0 ≤ f x) → 0 ≤ sumZ f l.
Proof. intros Hf. induction l as [|x l IH]; simpl; [done|]. specialize (Hf x). lia. Qed.

Lemma sumZ_zero {A} (f : A → Z) l : (∀ x, 0 ≤ f x) → sumZ f l = 0 → ∀ x, x ∈ l → f x = 0.
Proof.
  intros Hf. induction l as [|y l IH]; simpl; intros Hs x Hx; [by apply elem_of_nil in Hx|].
  pose proof (Hf y). pose proof (sumZ_nonneg f l Hf). apply elem_of_cons in Hx as [->|Hx]; [lia|]. apply IH; [lia|done].
Qed.

Lemma sumZ_le {A} (f g : A → Z) l : (∀ x, f x ≤ g x) → sumZ f l ≤ sumZ g l.
Proof. intros Hf. induction l as [|x l IH]; simpl; [done|]. specialize (Hf x). lia. Qed.

Lemma concat_insert {A B} (f : A → list B) l i x y :
  l !! i = Some x → concat (f <$> <[i := y]> l) ++ f x ≡ₚ concat (f <$> l) ++ f y.
Proof.
  intros H. rewrite <- (take_drop_middle l i x H) at 2.
  rewrite insert_take_drop by (by eapply lookup_lt_Some). rewrite !fmap_app, !fmap_cons, !concat_app. simpl. solve_Permutation.
Qed.

Section Facts.
Context {Req Res : Type} (zero : Res).
#[local] Arguments seq : simpl never.
Implicit Types (s : Runner Req Res) (w : worker Req Res) (t : runnerTask Req).

(** ** The invariant *)

Definition held w : list nat :=
  match w with WGot t | WRunning t | WFinishing t _ => [taskNo t] | _ => [] end.
Definition heldC (c : closer Req) : list nat := match c with CHolding t => [taskNo t] | _ => [] end.
Definition working w : Z := match w with WRunning _ | WFinishing _ _ | WLeaving => 1 | _ => 0 end.
Definition present w : Z := match w with WGone => 0 | _ => 1 end.
Definition stays w : Prop := match w with WExiting | WGone => False | _ => True end.

(** Where the accepted tasks that are not completed are. *)
Definition inHand s : list nat :=
  (taskNo <$> queue s) ++ concat (held <$> workers s) ++ heldC (closing s).

Record runner_inv s : Prop := {
  ri_tasks : seq 0 (next s) ≡ₚ (outs s).*1 ++ inHand s;
  ri_queue : Z.of_nat (length (queue s)) ≤ rcQueueSize (config s);
  ri_config : 1 ≤ rcWorkers (config s);
  ri_workers : Z.of_nat (length (workers s)) = rcWorkers (config s);
  ri_active : active s = sumZ working (workers s);
  ri_remaining : remaining s = sumZ present (workers s);
  ri_done : done_ s = true ↔ remaining s = 0;
  ri_status : status s = match closing s with
                         | CNone | CLocked => RunnerRunning
                         | _ => if done_ s then RunnerClosed else RunnerClosing
                         end;
  ri_cancelled : cancelled s = match closing s with CNone | CLocked | CStored => false | _ => true end;
  ri_stays : cancelled s = false → Forall stays (workers s);
  ri_counting : counting s ≠ 0%nat → closing s = CNone;
  ri_returned : closing s = CReturned → queue s = [];
  ri_submitted : submitted (counts s) = u64 (Z.of_nat (next s) - Z.of_nat (counting s));
  ri_bound : (counting s ≤ next s)%nat;
  ri_completed : completed (counts s) = u64 (Z.of_nat (length (outs s)))
}.

Lemma u64_succ_u64 z : u64_succ (u64 z) = u64 (z + 1).
Proof. unfold u64_succ, u64. by rewrite Zplus_mod_idemp_l. Qed.

Lemma complete_eq t r sent s :
  ∃ c m, complete t r sent s = set_counts (λ _, c) (λ _, m) (note_out (taskNo t, r) s)
    ∧ completed c = u64_succ (completed (counts s)) ∧ submitted c = submitted (counts s).
Proof. unfold complete. destruct (rErr r), (tAwait t), sent; eexists _, _; by split_and!. Qed.

Lemma held_split (ws : list (worker Req Res)) i w :
  ws !! i = Some w →
  ∃ rest, concat (held <$> ws) ≡ₚ held w ++ rest ∧ ∀ w', concat (held <$> <[i := w']> ws) ≡ₚ held w' ++ rest.
Proof.
  intros H. exists (concat (held <$> take i ws) ++ concat (held <$> drop (S i) ws)). split.
  - rewrite <- (take_drop_middle ws i w H) at 1. rewrite fmap_app, fmap_cons, concat_app. simpl. solve_Permutation.
  - intros w'. rewrite insert_take_drop by (by eapply lookup_lt_Some). rewrite fmap_app, fmap_cons, concat_app.
    simpl. solve_Permutation.
Qed.

Lemma stays_insert (ws : list (worker Req Res)) i w : stays w → Forall stays ws → Forall stays (<[i := w]> ws).
Proof. intros Hw H. by apply Forall_insert. Qed.

Lemma stays_present (ws : list (worker Req Res)) : Forall stays ws → sumZ present ws = Z.of_nat (length ws).
Proof. induction 1 as [|w ws Hw _ IH]; [done|]. simpl. destruct w; simpl in *; try done; lia. Qed.

(** The arithmetic of one worker's step. *)
Ltac worker_step H :=
  let rest := fresh "rest" in let R := fresh "R" in let R' := fresh "R'" in
  destruct (held_split _ _ _ H) as (rest & R & R');
  split; simpl;
  rewrite ?(sumZ_insert working _ _ _ _ H), ?(sumZ_insert present _ _ _ _ H), ?length_insert; simpl; try done; try lia.

Lemma submit_inv t s : runner_inv s → locked s = false → runner_inv (enqueue t s).1.
Proof.
  intros I Hl. unfold enqueue. case_bool_decide as Hst; [by destruct I; split|].
  destruct (Z.ltb_spec (Z.of_nat (length (queue s))) (rcQueueSize (config s))) as [Hq|]; [|by destruct I; split].
  assert (closing s = CNone) as Hc.
  { destruct I. rewrite ri_status0 in Hst. unfold locked in Hl. destruct (closing s); try done. by destruct (done_ s). }
  destruct I. split; simpl; try done.
  - unfold inHand in *. simpl. rewrite seq_S, fmap_app. simpl. rewrite ri_tasks0. solve_Permutation.
  - rewrite length_app. simpl. lia.
  - intros H. by rewrite Hc in H.
  - rewrite ri_submitted0. f_equal. lia.
  - lia.
Qed.

Lemma complete_inv_worker t r sent s i w w' :
  runner_inv s → workers s !! i = Some w → held w = [taskNo t] → held w' = [] → working w' = working w →
  present w' = present w → stays w' → runner_inv (set_worker i w' (complete t r sent s)).
Proof.
  intros [] H Hh Hh' Hw Hp Hs. destruct (complete_eq t r sent s) as (c & m & -> & Hc & Hsub).
  worker_step H; try congruence; try lia.
  - unfold inHand in *. simpl. rewrite R', Hh'. rewrite R, Hh in ri_tasks0. rewrite ri_tasks0, fmap_app. simpl. solve_Permutation.
  - intros Hc'. apply stays_insert; auto.
  - rewrite Hc, ri_completed0, u64_succ_u64, length_app. f_equal. simpl. lia.
Qed.

Lemma closer_complete_inv t r sent s :
  runner_inv s → closing s = CHolding t → runner_inv (set_closing CDraining (complete t r sent s)).
Proof.
  intros [] H. destruct (complete_eq t r sent s) as (c & m & -> & Hc & Hsub). rewrite H in *.
  split; simpl; try done; try congruence.
  - unfold inHand in *. simpl. rewrite H in ri_tasks0. simpl in ri_tasks0. rewrite ri_tasks0, fmap_app. simpl. solve_Permutation.
  - intros Hn. by apply ri_counting0 in Hn.
  - rewrite Hc, ri_completed0, u64_succ_u64, length_app. f_equal. simpl. lia.
Qed.

Lemma take_inv i t q s :
  runner_inv s → workers s !! i = Some WIdle → queue s = t :: q →
  runner_inv (set_worker i (WGot t) (set_queue (λ _, q) s)).
Proof.
  intros [] H Hq. rewrite Hq in *. cbn [length] in ri_queue0. worker_step H.
  - unfold inHand in *. simpl. rewrite R'. rewrite Hq, R in ri_tasks0. simpl in *. rewrite ri_tasks0. solve_Permutation.
  - intros Hc. apply stays_insert; auto. done.
  - intros Hc. specialize (ri_returned0 Hc). done.
Qed.

Lemma move_inv i w w' f s :
  runner_inv s → workers s !! i = Some w → held w' = held w → present w' = present w → stays w' →
  f (active s) = active s - working w + working w' → runner_inv (set_worker i w' (set_active f s)).
Proof.
  intros [] H Hh Hp Hs Ha. worker_step H.
  - unfold inHand in *. simpl. rewrite R', Hh. rewrite R in ri_tasks0. done.
  - intros Hc. apply stays_insert; auto.
Qed.

Lemma see_done_inv i s :
  runner_inv s → workers s !! i = Some WIdle → cancelled s = true → runner_inv (set_worker i WExiting s).
Proof.
  intros [] H Hc. worker_step H; [|congruence].
  unfold inHand in *. simpl. rewrite R'. rewrite R in ri_tasks0. done.
Qed.

Lemma exit_inv i s :
  runner_inv s → workers s !! i = Some WExiting →
  let s' := set_worker i WGone (set_remaining (remaining s - 1) s) in
  runner_inv (if remaining s' =? 0 then set_done true RunnerClosed s' else s').
Proof.
  intros I H. assert (cancelled s = true) as Hc.
  { destruct (cancelled s) eqn:E; [done|]. pose proof (ri_stays _ I E) as Hs. rewrite Forall_forall in Hs.
    by destruct (Hs WExiting); apply list_elem_of_lookup_2 with i. }
  destruct I. assert (done_ s = false) as Hd.
  { destruct (done_ s); [|done]. exfalso. assert (remaining s = 0) as Hr by by apply ri_done0. rewrite ri_remaining0 in Hr.
    assert (0 ≤ sumZ present (workers s) - present WExiting + present WGone); [|simpl in *; lia].
    rewrite <- (sumZ_insert present _ _ _ _ H). apply sumZ_nonneg. intros []; simpl; lia. }
  simpl. destruct (Z.eqb_spec (remaining s - 1) 0) as [Hz|Hz]; worker_step H; try congruence; try lia.
  all: try (unfold inHand in *; simpl; rewrite R'; rewrite R in ri_tasks0; done).
  - rewrite ri_cancelled0 in Hc. by destruct (closing s).
  - rewrite Hd. split; [done|lia].
Qed.

Lemma not_done s : runner_inv s → cancelled s = false → done_ s = false.
Proof.
  intros [] Hc. destruct (done_ s); [|done]. assert (remaining s = 0) as Hr by by apply ri_done0.
  rewrite ri_remaining0, stays_present in Hr by auto. lia.
Qed.

Lemma enqueue_counts_inv (f : counters → counters) g s :
  runner_inv s → submitted (f (counts s)) = submitted (counts s) → completed (f (counts s)) = completed (counts s) →
  runner_inv (set_counts f g s).
Proof. intros [] Hs Hc. split; simpl; try done; congruence. Qed.

Lemma runner_step_inv l s s' : runner_inv s → step zero l s = Some s' → runner_inv s'.
Proof.
  intros I H. destruct l as [t|t| |i|i|i sent|i p|i sent|i|i| | | | |sent| ]; simpl in H.
  - destruct (locked s) eqn:Hl; [done|]. injection H as <-. unfold Submit.
    destruct (_ || _); [by apply enqueue_counts_inv|by apply submit_inv].
  - destruct (locked s) eqn:Hl; [done|]. injection H as <-. by apply submit_inv.
  - destruct (counting s) as [|n] eqn:Hn; [done|]. injection H as <-. destruct I. rewrite Hn in *.
    unfold counted. rewrite Hn. split; simpl; try done; [intros _; by apply ri_counting0| |lia].
    rewrite ri_submitted0, u64_succ_u64. f_equal. lia.
  - destruct (workers s !! i) as [[]|] eqn:Hw; try done. destruct (queue s) as [|t q] eqn:Hq; [done|]. injection H as <-.
    by apply take_inv.
  - destruct (workers s !! i) as [[]|] eqn:Hw; try done. destruct (cancelled s) eqn:Hc; [|done]. injection H as <-.
    by apply see_done_inv.
  - destruct (workers s !! i) as [[]|] eqn:Hw; try done. destruct (cancelled s) eqn:Hc; injection H as <-.
    + by eapply complete_inv_worker.
    + eapply move_inv; [done..|]. simpl. lia.
  - destruct (workers s !! i) as [[]|] eqn:Hw; try done. injection H as <-.
    apply (move_inv i _ (WFinishing t (invokeRunnerProcessor zero p)) (λ a, a)) in Hw; [by destruct s|done..|simpl; lia].
  - destruct (workers s !! i) as [[]|] eqn:Hw; try done. injection H as <-. by eapply complete_inv_worker.
  - destruct (workers s !! i) as [[]|] eqn:Hw; try done. injection H as <-. eapply move_inv; [done..|]. simpl. lia.
  - destruct (workers s !! i) as [[]|] eqn:Hw; try done. injection H as <-. by apply exit_inv.
  - destruct (closing s) eqn:Hc; try done. destruct (counting s) eqn:Hn; [|done]. injection H as <-. destruct I.
    rewrite Hc in *. split; simpl; try done; try (by rewrite Hn). unfold inHand in *. by rewrite Hc in ri_tasks0.
  - destruct (closing s) eqn:Hc; try done. injection H as <-.
    pose proof (ri_cancelled _ I) as Hcan. rewrite Hc in Hcan. pose proof (not_done _ I Hcan) as Hd. destruct I. rewrite Hc in *.
    split; simpl; try done; try (by rewrite Hd); try (by intros ?%ri_counting0).
    unfold inHand in *. by rewrite Hc in ri_tasks0.
  - destruct (closing s) eqn:Hc; try done. injection H as <-. destruct I. rewrite Hc in *.
    split; simpl; try done; try (by intros ?%ri_counting0); try (intros; by apply ri_stays0).
    unfold inHand in *. by rewrite Hc in ri_tasks0.
  - destruct (closing s) eqn:Hc; try done. destruct (queue s) as [|t q] eqn:Hq; [done|]. injection H as <-. destruct I.
    rewrite Hc, Hq in *. cbn [length] in ri_queue0. split; simpl; try done; try lia; try (by intros ?%ri_counting0).
    unfold inHand in *. rewrite Hc, Hq in ri_tasks0. simpl in *. rewrite ri_tasks0. solve_Permutation.
  - destruct (closing s) eqn:Hc; try done. injection H as <-. by apply closer_complete_inv.
  - destruct (closing s) eqn:Hc; try done. destruct (queue s) as [|t q] eqn:Hq; [|done]. injection H as <-. destruct I.
    rewrite Hc, Hq in *. split; simpl; try done; try (by rewrite Hq); try (by intros ?%ri_counting0).
    unfold inHand in *. simpl. rewrite Hq. by rewrite Hc, Hq in ri_tasks0.
Qed.

(** ** Runs *)

Definition runner_step s s' : Prop := ∃ l, step zero l s = Some s'.
Definition runner_reachable (c : RunnerConfig) s : Prop :=
  ∃ n mc s0, NewRunner n c mc = Ok s0 ∧ rtc runner_step s0 s.

Lemma complete_config t r sent s : config (complete t r sent s) = config s.
Proof. by destruct (complete_eq t r sent s) as (c & m & -> & _). Qed.

Lemma step_config l s s' : step zero l s = Some s' → config s' = config s.
Proof.
  destruct l; simpl; unfold Submit, enqueue; intros H; repeat case_match; simplify_eq/=; rewrite ?complete_config; try done.
Qed.

Lemma new_runner_inv n c mc s : NewRunner n c mc = Ok s → rcWorkers c < 2 ^ 31 → runner_inv s.
Proof.
  unfold NewRunner. destruct (_ || _) eqn:Hg; [done|]. intros [= <-] Hw. apply orb_false_iff in Hg as [[_ H1]%orb_false_iff H2].
  bool_prop. assert (i32 (rcWorkers c) = rcWorkers c) as Hi.
  { unfold i32. rewrite Z.mod_small by lia. lia. }
  assert (concat (held <$> replicate (Z.to_nat (rcWorkers c)) (WIdle : worker Req Res)) = []) as Hh.
  { generalize (Z.to_nat (rcWorkers c)). intros k. induction k as [|k IH]; [done|]. simpl. done. }
  split; simpl; try done; rewrite ?sumZ_replicate, ?length_replicate, ?Hi; simpl; try lia.
  - unfold inHand. simpl. by rewrite Hh.
  - intros _. by apply Forall_replicate.
Qed.

Lemma runner_reachable_inv c s : runner_reachable c s → rcWorkers c < 2 ^ 31 → runner_inv s ∧ config s = c.
Proof.
  intros (n & mc & s0 & Hn & Hs) Hw. assert (runner_inv s0 ∧ config s0 = c) as H0.
  { split; [by eapply new_runner_inv|]. unfold NewRunner in Hn. destruct (_ || _); by simplify_eq. }
  clear Hn. induction Hs as [|s1 s2 s3 [l Hl] _ IH]; [done|]. apply IH. destruct H0 as [I E]. split; [by eapply runner_step_inv|].
  by rewrite (step_config _ _ _ Hl).
Qed.

Lemma held_gone (ws : list (worker Req Res)) : sumZ present ws = 0 → ∀ w, w ∈ ws → w = WGone.
Proof.
  intros Hs w Hw. assert (present w = 0) as H; [|by destruct w].
  eapply (sumZ_zero present); [|done..]. intros []; simpl; lia.
Qed.

Lemma all_gone (ws : list (worker Req Res)) : (∀ w, w ∈ ws → w = WGone) → concat (held <$> ws) = [].
Proof.
  induction ws as [|w ws IH]; intros H; [done|]. rewrite fmap_cons. simpl.
  rewrite (H w) by set_solver. apply IH. set_solver.
Qed.

Lemma returned_inv s : runner_inv s → closeReturned s = true →
  closing s = CReturned ∧ queue s = [] ∧ (∀ w, w ∈ workers s → w = WGone) ∧ status s = RunnerClosed ∧ counting s = 0%nat.
Proof.
  intros [] H. unfold closeReturned in H. destruct (closing s); try done.
  assert (remaining s = 0) as Hr by by apply ri_done0. rewrite ri_remaining0 in Hr.
  split_and!; [done|auto|by apply held_gone|by rewrite ri_status0, H|].
  destruct (counting s); [done|]. by specialize (ri_counting0 ltac:(done)).
Qed.

Lemma returned_step s s' : runner_inv s → closeReturned s = true → runner_step s s' →
  closeReturned s' = true ∧ outs s' = outs s ∧ next s' = next s.
Proof.
  intros I H [l Hl]. destruct (returned_inv _ I H) as (Hc & Hq & Hw & Hs & Hn).
  assert (∀ i w, workers s !! i = Some w → w = WGone) as Hw' by (intros i w Hi; by apply Hw, list_elem_of_lookup_2 with i).
  destruct l as [t|t| |i|i|i sent|i p|i sent|i|i| | | | |sent| ]; simpl in Hl;
    try (destruct (workers s !! i) as [w|] eqn:Hi; [rewrite (Hw' _ _ Hi) in Hl|]; done);
    try (rewrite Hc in Hl; done); try (rewrite Hn in Hl; done);
    unfold locked in Hl; rewrite Hc in Hl; injection Hl as <-; unfold Submit, enqueue; rewrite Hs; [destruct (_ || _)|];
    by unfold closeReturned in *; simpl; rewrite ?Hc in *.
Qed.

Lemma returned_steps s s' : runner_inv s → closeReturned s = true → rtc runner_step s s' →
  runner_inv s' ∧ closeReturned s' = true ∧ outs s' = outs s ∧ next s' = next s.
Proof.
  intros I H Hr. revert I H. induction Hr as [s|s1 s2 s3 Hst _ IH]; intros I H; [done|].
  destruct (returned_step _ _ I H Hst) as (H2 & <- & <-). destruct Hst as [l Hl].
  by apply IH; [eapply runner_step_inv|].
Qed.

(** ** Progress of a close *)

Definition weight w : Z :=
  match w with
  | WGone => 0 | WExiting => 1 | WIdle => 2 | WLeaving => 3 | WFinishing _ _ => 4 | WRunning _ => 5 | WGot _ => 6
  end.
Definition weightC (c : closer Req) : Z :=
  match c with CReturned => 0 | CDraining => 2 | CHolding _ => 3 | CStored => 4 | CLocked => 5 | CNone => 6 end.
Definition measure s : Z := 10 * Z.of_nat (length (queue s)) + sumZ weight (workers s) + weightC (closing s).

(** The steps of workers and of the closer. *)
Definition internal (l : label Req Res) : bool :=
  match l with LSubmit _ | LEnqueueAwait _ | LCounted => false | _ => true end.
Definition internal_step s s' : Prop := ∃ l, internal l = true ∧ step zero l s = Some s'.

Lemma measure_nonneg s : 0 ≤ measure s.
Proof.
  unfold measure. assert (0 ≤ sumZ weight (workers s)) by (apply sumZ_nonneg; intros []; simpl; lia).
  assert (0 ≤ weightC (closing s)) by (destruct (closing s); simpl; lia). lia.
Qed.

Lemma measure_complete t r sent s : measure (complete t r sent s) = measure s.
Proof. by destruct (complete_eq t r sent s) as (c & m & -> & _). Qed.

Lemma measure_worker i w w' s :
  workers s !! i = Some w → measure (set_worker i w' s) = measure s - weight w + weight w'.
Proof. intros H. unfold measure. simpl. rewrite (sumZ_insert weight _ _ _ _ H). lia. Qed.

Lemma measure_closing c s : measure (set_closing c s) = measure s - weightC (closing s) + weightC c.
Proof. unfold measure. simpl. lia. Qed.

Lemma complete_frame t r sent s :
  workers (complete t r sent s) = workers s ∧ closing (complete t r sent s) = closing s.
Proof. by destruct (complete_eq t r sent s) as (c & m & -> & _). Qed.

Lemma internal_decreases s s' : internal_step s s' → measure s' < measure s.
Proof.
  intros (l & Hi & Hl). destruct l as [t|t| |i|i|i sent|i p|i sent|i|i| | | | |sent| ]; try done; simpl in Hl.
  all: try (destruct (workers s !! i) as [[]|] eqn:Hw; try done).
  all: try (match type of Hl with context [closing ?x] => destruct (closing x) eqn:Hc; try done end).
  - destruct (queue s) eqn:Hq; [done|]. injection Hl as <-. rewrite (measure_worker _ WIdle) by done.
    unfold measure. simpl. rewrite Hq. simpl. lia.
  - destruct (cancelled s); [|done]. injection Hl as <-. rewrite (measure_worker _ WIdle) by done. simpl. lia.
  - destruct (cancelled s); injection Hl as <-; rewrite (measure_worker _ (WGot t)); try (by rewrite ?(proj1 (complete_frame _ _ _ _))).
    + rewrite measure_complete. simpl. lia.
    + unfold measure. simpl. lia.
  - injection Hl as <-. rewrite (measure_worker _ (WRunning t)) by done. simpl. lia.
  - injection Hl as <-. rewrite (measure_worker _ (WFinishing t r)); [rewrite measure_complete; simpl; lia|].
    by rewrite (proj1 (complete_frame _ _ _ _)).
  - injection Hl as <-. rewrite (measure_worker _ WLeaving) by done. unfold measure. simpl. lia.
  - injection Hl as <-. assert (measure (set_worker i WGone (set_remaining (remaining s - 1) s)) < measure s) as Hm.
    { rewrite (measure_worker _ WExiting) by done. unfold measure. simpl. lia. }
    by destruct (_ =? _).
  - destruct (counting s); [|done]. injection Hl as <-. rewrite measure_closing, Hc. simpl. lia.
  - injection Hl as <-. rewrite measure_closing. unfold measure. simpl. rewrite Hc. simpl. lia.
  - injection Hl as <-. rewrite measure_closing. unfold measure. simpl. rewrite Hc. simpl. lia.
  - destruct (queue s) eqn:Hq; [done|]. injection Hl as <-. unfold measure. simpl. rewrite Hq, Hc. simpl. lia.
  - injection Hl as <-. rewrite measure_closing, measure_complete, (proj2 (complete_frame _ _ _ _)), Hc. simpl. lia.
  - destruct (queue s) eqn:Hq; [|done]. injection Hl as <-. rewrite measure_closing, Hc. simpl. lia.
Qed.

(** A worker that is not gone can move once the runner is cancelled. *)
Lemma worker_moves s i w :
  workers s !! i = Some w → w ≠ WGone → cancelled s = true → ∃ s', internal_step s s'.
Proof.
  intros Hw Hn Hc. destruct w as [|t|t|t r| | |]; [| | | | | |done]; eexists.
  - exists (LSeeDone i). split; [done|]. simpl. by rewrite Hw, Hc.
  - exists (LBegin i None). split; [done|]. simpl. by rewrite Hw, Hc.
  - exists (LProcess i (Panicked "")). split; [done|]. simpl. by rewrite Hw.
  - exists (LComplete i None). split; [done|]. simpl. by rewrite Hw.
  - exists (LLeave i). split; [done|]. simpl. by rewrite Hw.
  - exists (LExit i). split; [done|]. simpl. by rewrite Hw.
Qed.

Lemma close_progress s :
  runner_inv s → closing s ≠ CNone → closeReturned s = true ∨ ∃ s', internal_step s s'.
Proof.
  intros I Hn. destruct (closing s) as [| | | |t| ] eqn:Hc; try done.
  - right. eexists. exists LCloseStatus. split; [done|]. simpl. by rewrite Hc.
  - right. eexists. exists LCloseCancel. split; [done|]. simpl. by rewrite Hc.
  - right. destruct (queue s) as [|t q] eqn:Hq; eexists.
    + exists LCloseUnlock. split; [done|]. simpl. by rewrite Hc, Hq.
    + exists LCloseTake. split; [done|]. simpl. by rewrite Hc, Hq.
  - right. eexists. exists (LCloseComplete None). split; [done|]. simpl. by rewrite Hc.
  - destruct I. rewrite Hc in *. unfold closeReturned. rewrite Hc. destruct (done_ s) eqn:Hd; [by left|]. right.
    destruct (decide (Forall (λ w, present w = 0) (workers s))) as [Hall|Hex].
    + exfalso. assert (sumZ present (workers s) = 0) as Hz; [|rewrite <- ri_remaining0 in Hz; by apply ri_done0 in Hz].
      clear -Hall. induction Hall as [|w ws Hw _ IH]; simpl; [done|]. by rewrite Hw, IH.
    + apply not_Forall_Exists in Hex; [|apply _]. apply Exists_exists in Hex as (w & Hin & Hp).
      apply list_elem_of_lookup in Hin as [i Hi]. eapply worker_moves; [done| |done]. intros ->. by apply Hp.
Qed.

Lemma internal_runner s s' : internal_step s s' → runner_step s s'.
Proof. intros (l & _ & H). by exists l. Qed.

Lemma internal_steps_bounded n s s' : nsteps internal_step n s s' → Z.of_nat n + measure s' ≤ measure s.
Proof. induction 1 as [|n s1 s2 s3 H _ IH]; [lia|]. apply internal_decreases in H. lia. Qed.

Lemma closing_kept s s' : closing s ≠ CNone → internal_step s s' → closing s' ≠ CNone.
Proof.
  intros Hc (l & Hi & Hl). destruct l as [t|t| |i|i|i sent|i p|i sent|i|i| | | | |sent| ]; try done; simpl in Hl.
  all: repeat case_match; simplify_eq/=; rewrite ?(proj2 (complete_frame _ _ _ _)); congruence.
Qed.

(** C9. A runner neither loses nor repeats work.  In every interleaving of
    submitters, workers and a close, each accepted task is in exactly one place,
    completed, queued or held by one goroutine, so that no result is delivered
    twice; the queue stays within its size, at most [Workers] processors run, and
    the counters of accepted and completed tasks are exact (modulo 2^64). *)
Theorem runner_exactly_once c s :
  runner_reachable c s → rcWorkers c < 2 ^ 31 →
  seq 0 (next s) ≡ₚ (outs s).*1 ++ inHand s
  ∧ NoDup (outs s).*1
  ∧ Z.of_nat (length (queue s)) ≤ rcQueueSize c
  ∧ active s ≤ rcWorkers c
  ∧ completed (counts s) = u64 (Z.of_nat (length (outs s)))
  ∧ submitted (counts s) = u64 (Z.of_nat (next s) - Z.of_nat (counting s)).
Proof.
  intros Hr Hw. destruct (runner_reachable_inv _ _ Hr Hw) as [[] <-]. split_and!; try done.
  - apply (NoDup_app (outs s).*1 (inHand s)). rewrite <- ri_tasks0. apply NoDup_seq.
  - rewrite ri_active0, <- ri_workers0, <- (Z.mul_1_r (Z.of_nat _)). clear.
    induction (workers s) as [|w ws IH]; [done|]. simpl length. assert (working w ≤ 1) by (destruct w; simpl; lia). simpl. lia.
Qed.

(** When [Close] answers nil, every task that was ever accepted has been completed
    exactly once, and the runner is finished for good: whatever happens later, no
    task is accepted and no result is produced. *)
Theorem runner_close_complete c s s' :
  runner_reachable c s → rcWorkers c < 2 ^ 31 → closeReturned s = true → rtc runner_step s s' →
  (outs s').*1 ≡ₚ seq 0 (next s) ∧ outs s' = outs s
  ∧ ∀ t, is_Some (Submit t s').2 ∧ (enqueue t s').2 = Some (Sentinel ErrRunnerClosed).
Proof.
  intros Hr Hw Hc Hs. destruct (runner_reachable_inv _ _ Hr Hw) as [I _].
  destruct (returned_steps _ _ I Hc Hs) as (I' & Hc' & Ho & Hn). destruct (returned_inv _ I' Hc') as (Hcl & Hq & Hg & Hst & _).
  assert (∀ t, (enqueue t s').2 = Some (Sentinel ErrRunnerClosed)) as He.
  { intros t. unfold enqueue. by rewrite Hst. }
  split_and!; [|done|].
  - rewrite <- Hn, (ri_tasks _ I'). unfold inHand. rewrite Hq, Hcl, (all_gone _ Hg). simpl. by rewrite app_nil_r.
  - intros t. split; [|done]. unfold Submit. destruct (_ || _); [by eexists|]. rewrite He. by eexists.
Qed.

(** C10. A close that has begun ends.  Once the closer holds the lock, the steps of
    workers and closer are finitely many, at most [measure], in whatever order they
    come, and when none is possible any more [Close] has returned: no
    interleaving deadlocks.  (A processor's return is such a step.) *)
Theorem runner_close_terminates c s n s' :
  runner_reachable c s → rcWorkers c < 2 ^ 31 → closing s ≠ CNone → nsteps internal_step n s s' →
  Z.of_nat n ≤ measure s ∧ (closeReturned s' = true ∨ ∃ s'', internal_step s' s'').
Proof.
  intros Hr Hw Hc Hs. pose proof (internal_steps_bounded _ _ _ Hs). pose proof (measure_nonneg s'). split; [lia|].
  destruct (runner_reachable_inv _ _ Hr Hw) as [I _]. clear Hr H H0.
  induction Hs as [s|n s1 s2 s3 H1 _ IH]; [by apply close_progress|]. apply IH; [by eapply closing_kept|].
  destruct H1 as (l & _ & Hl). by eapply runner_step_inv.
Qed.
End Facts.

(** *** Witnesses *)

Definition sampleConfig : RunnerConfig := mkRunnerConfig "io" 1 1.
Definition sampleNew : Runner Z Z :=
  mkRunner "n1" sampleConfig [] false false RunnerRunning 1 0 (mkCounters 0 0 0 0 0) newMetricCollector [WIdle] CNone 0 0 [].
Definition sampleTask : runnerTask Z := mkRunnerTask 0 5 (mkRef "n1" 3) 9 false.

(** A task is run, a second one is drained by the close. *)
Definition sampleLabels : list (label Z Z) :=
  [LSubmit sampleTask; LTake 0; LSubmit sampleTask; LCounted; LCounted; LCloseLock; LBegin 0 None].
Definition sampleClose : list (label Z Z) :=
  [LCloseStatus; LCloseCancel; LCloseTake; LProcess 0 (Returned 6 None); LCloseComplete None; LComplete 0 None;
   LCloseUnlock; LLeave 0; LSeeDone 0; LExit 0].

Fixpoint runLabels (l : list (label Z Z)) (s : Runner Z Z) : option (Runner Z Z) :=
  match l with [] => Some s | x :: l => match step 0 x s with Some s => runLabels l s | None => None end end.

Lemma runLabels_rtc l s s' : runLabels l s = Some s' → rtc (runner_step 0) s s'.
Proof.
  revert s. induction l as [|x l IH]; intros s H; simpl in H; [by simplify_eq|].
  destruct (step 0 x s) as [s1|] eqn:Hs; [|done]. eapply rtc_l; [by exists x|auto].
Qed.

Definition sampleMid : Runner Z Z := Eval vm_compute in default sampleNew (runLabels sampleLabels sampleNew).
Definition sampleEnd : Runner Z Z := Eval vm_compute in default sampleNew (runLabels sampleClose sampleMid).

Lemma sampleMid_reachable : runner_reachable 0 sampleConfig sampleMid.
Proof.
  exists "n1", newMetricCollector, sampleNew. split; [reflexivity|]. apply (runLabels_rtc sampleLabels). vm_compute. reflexivity.
Qed.
Lemma sampleEnd_reachable : runner_reachable 0 sampleConfig sampleEnd.
Proof.
  exists "n1", newMetricCollector, sampleNew. split; [reflexivity|]. apply (runLabels_rtc (sampleLabels ++ sampleClose)).
  vm_compute. reflexivity.
Qed.

Lemma runner_exactly_once_witness : NoDup (outs sampleEnd).*1 ∧ length (outs sampleEnd) = 2%nat.
Proof.
  split; [|reflexivity]. apply (runner_exactly_once 0 sampleConfig sampleEnd sampleEnd_reachable). reflexivity.
Defined.

Lemma runner_close_complete_witness : (outs sampleEnd).*1 ≡ₚ seq 0 2 ∧ (outs sampleMid).*1 = [].
Proof.
  split; [|reflexivity].
  apply (runner_close_complete 0 sampleConfig sampleEnd sampleEnd sampleEnd_reachable); [reflexivity..|apply rtc_refl].
Defined.

Lemma runner_close_terminates_witness :
  closeReturned sampleMid = true ∨ ∃ s, internal_step 0 sampleMid s.
Proof.
  apply (runner_close_terminates 0 sampleConfig sampleMid 0 sampleMid sampleMid_reachable); [reflexivity|discriminate|constructor].
Defined.
