(* ===== verification/Runtime.v ===== *)
(** * The runtime of one node

    [src/runtime/runtime.go], the call path of [src/runtime/call.go], the context
    objects of [src/runtime/service.go] and the node-to-node part of
    [src/runtime/cluster.go].  The mutable objects of a node are one record; an
    operation is a function of a small state monad.  Operations are atomic here:
    the interleavings inside the shared components are the subject of [Mailbox],
    [Registry], [Pending], [Timers] and [Scheduler].  A blocking operation is
    split at the point where it waits. *)

From stdpp Require Import prelude gmap strings list.
From Stdlib Require Import ZArith Lia Strings.Byte.
From S2P Require Import Prelude Types Metrics Mailbox Registry Pending Timers Tasks Bytes ClusterWire.

Local Open Scope Z_scope.

(** [ClusterCodec]: the application's payload encoding, an interface whose
    implementations the node is given. *)
Class ClusterCodec (A : Type) := {
  Encode : CommandID → bool → any A → res string (list byte);
  Decode : CommandID → bool → list byte → res string (any A)
}.

(** What [ClusterTransport.Send] answers, given the sends before it. *)
Class ClusterTransport := {
  transportSend : list (NodeID * WireEnvelope) → NodeID → WireEnvelope → bool
}.

(** [Config.Now], by reading. *)
Class Clock := { reading : nat → Time }.

(** The immutable fields of a service instance, which identify its pointer. *)
Record handle := mkHandle { href : ServiceRef; hname : ServiceName }.

(** A [stopRequest], identified by its result channel. *)
Abbreviation stopRequest := nat (only parsing).

Section Runtime.
Context {A : Type} {CC : ClusterCodec A} {CT : ClusterTransport} {CL : Clock}.
Context {MP : MapPick ServiceRef Time}.

Record serviceInstance := mkInstance {
  policy : ServicePolicy;
  box : mailbox A stopRequest;
  status : ServiceStatus;
  closing : bool;
  finalized : bool;
  callPath : list ServiceRef;
  isDone : bool;
  result : error rtError
}.

(** The closure a timer holds. *)
Record timerJob := mkJob { jobTarget : ServiceRef; jobCommand : CommandID; jobPayload : any A }.

Record Runtime := mkRuntime {
  node : NodeID;
  mailboxSize : Z;
  slowCommandThreshold : Duration;
  clustered : bool;                               (** [cluster != nil] *)
  registry : localRegistry handle;
  heap : gmap ServiceRef serviceInstance;
  pending : pendingCalls;
  chans : gmap nat (list (callResult A));  (** the result channels of calls *)
  nextChan : nat;
  timers : timerManager;
  jobs : gmap TimerID timerJob;
  tracker : taskTracker;
  metrics : metricCollector;
  nextID : Z;
  state : runtimeState;
  ticks : nat;                                    (** clock readings so far *)
  scheduled : list ServiceRef;                    (** calls of [scheduler.schedule] *)
  outbox : list (NodeID * WireEnvelope);          (** calls of [transport.Send] *)
  stopResults : list (stopRequest * error rtError)
}.

(** ** Construction *)

Record Config := mkConfig {
  cfgNodeID : NodeID;
  cfgWorkers : Z;
  cfgMailboxSize : Z;
  cfgMaxBatch : Z;
  cfgSlowCommandThreshold : Duration;
  cfgShutdownTimeout : Duration;
  cfgTombstoneTTL : Duration;
  cfgTombstoneLimit : Z
}.

Definition orDefault (minimum value fallback : Z) : Z := if value <? minimum then fallback else value.

(** The defaults [NewRuntime] fills in ([Duration]s in nanoseconds). *)
Definition normalizeConfig (c : Config) : Config :=
  mkConfig (if bool_decide (cfgNodeID c = "") then "local" else cfgNodeID c)
    (orDefault 1 (cfgWorkers c) 1)
    (orDefault 1 (cfgMailboxSize c) 64)
    (orDefault 1 (cfgMaxBatch c) 32)
    (orDefault 1 (cfgSlowCommandThreshold c) (100 * 10 ^ 6))
    (orDefault 1 (cfgShutdownTimeout c) (5 * 10 ^ 9))
    (orDefault 1 (cfgTombstoneTTL c) (60 * 10 ^ 9))
    (orDefault 1 (cfgTombstoneLimit c) 4096).

(** [withCluster] tells whether [NewClusterRuntime] attached a transport. *)
Definition NewRuntime (config : Config) (withCluster : bool) : Runtime :=
  let c := normalizeConfig config in
  mkRuntime (cfgNodeID c) (cfgMailboxSize c) (cfgSlowCommandThreshold c) withCluster
    (newLocalRegistry (cfgTombstoneTTL c) (cfgTombstoneLimit c)) ∅ newPendingCalls ∅ 0
    newTimerManager ∅ newTaskTracker newMetricCollector 0 runtimeRunning 0 [] [] [].

(** ** The state monad *)

Definition M (X : Type) : Type := Runtime → Runtime * X.

#[global] Instance M_ret : MRet M := λ X x r, (r, x).
#[global] Instance M_bind : MBind M := λ X Y k m r, let '(r, x) := m r in k x r.

Definition get {X} (f : Runtime → X) : M X := λ r, (r, f r).
Definition when (b : bool) (m : M unit) : M unit := if b then m else mret tt.

Definition set_registry v : M unit := λ r,
  (mkRuntime (node r) (mailboxSize r) (slowCommandThreshold r) (clustered r) v (heap r)
     (pending r) (chans r) (nextChan r) (timers r) (jobs r) (tracker r) (metrics r) (nextID r)
     (state r) (ticks r) (scheduled r) (outbox r) (stopResults r), tt).
Definition set_heap v : M unit := λ r,
  (mkRuntime (node r) (mailboxSize r) (slowCommandThreshold r) (clustered r) (registry r) v
     (pending r) (chans r) (nextChan r) (timers r) (jobs r) (tracker r) (metrics r) (nextID r)
     (state r) (ticks r) (scheduled r) (outbox r) (stopResults r), tt).
Definition set_pending p c n : M unit := λ r,
  (mkRuntime (node r) (mailboxSize r) (slowCommandThreshold r) (clustered r) (registry r) (heap r)
     p c n (timers r) (jobs r) (tracker r) (metrics r) (nextID r)
     (state r) (ticks r) (scheduled r) (outbox r) (stopResults r), tt).
Definition set_timers t j : M unit := λ r,
  (mkRuntime (node r) (mailboxSize r) (slowCommandThreshold r) (clustered r) (registry r) (heap r)
     (pending r) (chans r) (nextChan r) t j (tracker r) (metrics r) (nextID r)
     (state r) (ticks r) (scheduled r) (outbox r) (stopResults r), tt).
Definition set_tracker t : M unit := λ r,
  (mkRuntime (node r) (mailboxSize r) (slowCommandThreshold r) (clustered r) (registry r) (heap r)
     (pending r) (chans r) (nextChan r) (timers r) (jobs r) t (metrics r) (nextID r)
     (state r) (ticks r) (scheduled r) (outbox r) (stopResults r), tt).
Definition set_metrics m : M unit := λ r,
  (mkRuntime (node r) (mailboxSize r) (slowCommandThreshold r) (clustered r) (registry r) (heap r)
     (pending r) (chans r) (nextChan r) (timers r) (jobs r) (tracker r) m (nextID r)
     (state r) (ticks r) (scheduled r) (outbox r) (stopResults r), tt).
Definition set_nextID n : M unit := λ r,
  (mkRuntime (node r) (mailboxSize r) (slowCommandThreshold r) (clustered r) (registry r) (heap r)
     (pending r) (chans r) (nextChan r) (timers r) (jobs r) (tracker r) (metrics r) n
     (state r) (ticks r) (scheduled r) (outbox r) (stopResults r), tt).
Definition set_state s : M unit := λ r,
  (mkRuntime (node r) (mailboxSize r) (slowCommandThreshold r) (clustered r) (registry r) (heap r)
     (pending r) (chans r) (nextChan r) (timers r) (jobs r) (tracker r) (metrics r) (nextID r)
     s (ticks r) (scheduled r) (outbox r) (stopResults r), tt).
Definition set_ticks n : M unit := λ r,
  (mkRuntime (node r) (mailboxSize r) (slowCommandThreshold r) (clustered r) (registry r) (heap r)
     (pending r) (chans r) (nextChan r) (timers r) (jobs r) (tracker r) (metrics r) (nextID r)
     (state r) n (scheduled r) (outbox r) (stopResults r), tt).
Definition set_logs s o t : M unit := λ r,
  (mkRuntime (node r) (mailboxSize r) (slowCommandThreshold r) (clustered r) (registry r) (heap r)
     (pending r) (chans r) (nextChan r) (timers r) (jobs r) (tracker r) (metrics r) (nextID r)
     (state r) (ticks r) s o t, tt).

(** [r.now()]. *)
Definition now : M Time :=
  n ← get ticks; _ ← set_ticks (S n); mret (reading n).

Definition metric (f : metricCollector → metricCollector) : M unit :=
  m ← get metrics; set_metrics (f m).
Definition inc (name : string) : M unit := metric (Inc name).

(** Dereference an instance pointer; a pointer the node handed out is in the
    heap ([runtime_inv]), the default is never read. *)
Definition noPolicy : ServicePolicy := mkPolicy 0 0 0 DrainMailbox.
Definition nullInstance : serviceInstance :=
  mkInstance noPolicy (newMailbox 0 "") ServiceCreated false false [] false None.

Definition instanceOf (ref : ServiceRef) : M serviceInstance :=
  get (λ r, default nullInstance (heap r !! ref)).

(** [new(serviceInstance)] *)
Definition allocInstance (ref : ServiceRef) (i : serviceInstance) : M unit :=
  h ← get heap; set_heap (<[ref := i]> h).

(** Assignments through an instance pointer. *)
Definition modifyInstance (ref : ServiceRef) (f : serviceInstance → serviceInstance) : M unit :=
  h ← get heap; set_heap (alter f ref h).

Definition putInstance (ref : ServiceRef) (i : serviceInstance) : M unit :=
  modifyInstance ref (λ _, i).

Definition with_box (i : serviceInstance) b :=
  mkInstance (policy i) b (status i) (closing i) (finalized i) (callPath i) (isDone i) (result i).
Definition with_status (i : serviceInstance) s :=
  mkInstance (policy i) (box i) s (closing i) (finalized i) (callPath i) (isDone i) (result i).
Definition with_closing (i : serviceInstance) :=
  mkInstance (policy i) (box i) (status i) true (finalized i) (callPath i) (isDone i) (result i).
Definition with_finalized (i : serviceInstance) :=
  mkInstance (policy i) (box i) (status i) (closing i) true (callPath i) (isDone i) (result i).
Definition with_path (i : serviceInstance) p :=
  mkInstance (policy i) (box i) (status i) (closing i) (finalized i) p (isDone i) (result i).
Definition with_result (i : serviceInstance) e :=
  mkInstance (policy i) (box i) (status i) (closing i) (finalized i) (callPath i) true e.

(** ** Component calls *)

Definition registryGet (ref : ServiceRef) : M (res sentinel handle) :=
  t ← now; r ← get registry;
  let '(r, x) := Registry.get t ref r in
  _ ← set_registry r; mret x.

Definition registryAdd (h : handle) : M (error sentinel) :=
  t ← now; r ← get registry;
  let '(r, x) := Registry.add href hname t h r in
  _ ← set_registry r; mret x.

Definition registryRemove (ref : ServiceRef) : M unit :=
  t ← now; t' ← now; r ← get registry;
  set_registry (Registry.remove hname t t' ref r).

Definition schedule (ref : ServiceRef) : M unit :=
  r ← get (λ r, (scheduled r, outbox r, stopResults r));
  let '(s, o, t) := r in set_logs (s ++ [ref]) o t.

Definition transportSendM (n : NodeID) (wire : WireEnvelope) : M bool :=
  r ← get (λ r, (scheduled r, outbox r, stopResults r));
  let '(s, o, t) := r in
  _ ← set_logs s (o ++ [(n, wire)]) t;
  mret (transportSend o n wire).

Definition sendStopResult (q : stopRequest) (e : error rtError) : M unit :=
  r ← get (λ r, (scheduled r, outbox r, stopResults r));
  let '(s, o, t) := r in set_logs s o (t ++ [(q, e)]).

(** [ch <- r] on a buffered result channel.  A second send would block; that no
    call ever gets one is [call_result_exactly_once]. *)
Definition deliverTo (chs : gmap nat (list (callResult A))) (r : callResult A) (c : pendingCall)
  : gmap nat (list (callResult A)) :=
  default chs (sendResult chs (chan c) r).

(** The failure methods of [pendingCalls]. *)
Definition failPending (test : pendingCall → bool) (e : rtError) : M unit :=
  p ← get pending; chs ← get chans; n ← get nextChan;
  let '(p, failed) := failWhere test p in
  set_pending p (foldl (λ chs c, deliverTo chs (mkResult AnyNil (Some e)) c) chs failed) n.

Definition pendingRemove (session : SessionID) : M unit :=
  p ← get pending; chs ← get chans; n ← get nextChan;
  set_pending (Pending.remove session p) chs n.

Definition pendingTake (source target : ServiceRef) (command : CommandID) (session : SessionID)
  : M (option pendingCall) :=
  p ← get pending; chs ← get chans; n ← get nextChan;
  let '(p, c) := Pending.take source target command session p in
  _ ← set_pending p chs n; mret c.

Definition sendTo (c : pendingCall) (res : callResult A) : M unit :=
  p ← get pending; chs ← get chans; n ← get nextChan;
  set_pending p (deliverTo chs res c) n.

(** [pendingCalls.complete]. *)
Definition pendingComplete (source target : ServiceRef) (command : CommandID)
    (session : SessionID) (res : callResult A) : M bool :=
  c ← pendingTake source target command session;
  match c with
  | None => mret false
  | Some c => _ ← sendTo c res; mret true
  end.

(** [pendingCalls.create] with its new channel. *)
Definition pendingCreate (source target : ServiceRef) (command : CommandID) : M (SessionID * nat) :=
  p ← get pending; chs ← get chans; n ← get nextChan;
  match Pending.create source target command n p with
  | Some (p, session) => _ ← set_pending p (<[n := []]> chs) (S n); mret (session, n)
  | None => mret (0, n)
  end.

(** ** Sending *)

Definition clusterSend (envelope : Envelope A) : M (error rtError) :=
  self ← get node;
  let source := if bool_decide (Source envelope = zeroRef) then mkRef self 0 else Source envelope in
  let payload : res rtError (list byte) :=
    if ID (Target envelope) =? 0 then
      if negb (Command envelope =? coreResolveNameCommand) || (Session envelope =? 0)
         || negb (ID source =? 0)
      then Err (Sentinel ErrInvalidClusterEnvelope)
      else encodeCoreResolveName (Payload envelope)
    else
      match Encode (Command envelope) false (Payload envelope) with
      | Ok p => Ok p
      | Err e => Err (WrapError ErrPayloadEncode e)
      end in
  match payload with
  | Err e => mret (Some e)
  | Ok payload =>
      let wire := mkWire source (Target envelope) (Session envelope) (Command envelope) payload
                    false (CallPath envelope) "" "" in
      sent ← transportSendM (Node (Target envelope)) wire;
      if (sent : bool) then _ ← inc "cluster_messages_sent_total"; mret None
      else _ ← inc "cluster_send_errors_total"; mret (Some (Sentinel ErrRemoteUnavailable))
  end.

Definition toError (e : sentinel) : error rtError := Some (Sentinel e).

Definition sendLocalEnvelope (envelope : Envelope A) : M (error rtError) :=
  st ← get state;
  if bool_decide (st ≠ runtimeRunning) then mret (toError ErrRuntimeClosed) else
  g ← registryGet (Target envelope);
  match g with
  | Err e => mret (toError e)
  | Ok h =>
      i ← instanceOf (href h);
      if bool_decide (status i ≠ ServiceRunning) || finalized i then mret (toError ErrServiceClosed)
      else
        t ← now; mc ← get metrics;
        let '(b, mc, err) := pushEnvelope t envelope (box i) mc in
        _ ← set_metrics mc;
        _ ← putInstance (href h) (with_box i b);
        match err with
        | Some e => mret (toError e)
        | None => _ ← schedule (href h); mret None
        end
  end.

Definition sendEnvelope (envelope : Envelope A) : M (error rtError) :=
  st ← get state;
  if bool_decide (st ≠ runtimeRunning) then mret (toError ErrRuntimeClosed) else
  self ← get node; cl ← get clustered;
  if bool_decide (Node (Target envelope) ≠ self) then
    if bool_decide (Node (Target envelope) = "") || negb cl
    then mret (toError ErrRemoteUnavailable)
    else clusterSend envelope
  else sendLocalEnvelope envelope.

Definition Send (target : ServiceRef) (id : CommandID) (payload : any A) : M (error rtError) :=
  self ← get node;
  sendEnvelope (mkEnvelope (mkRef self 0) target 0 id payload []).

Definition sendFrom (source target : ServiceRef) (id : CommandID) (payload : any A)
  : M (error rtError) :=
  let envelope := mkEnvelope source target 0 id payload [] in
  if bool_decide (source ≠ zeroRef) then
    g ← registryGet source;
    match g with
    | Err e => mret (toError e)
    | Ok h =>
        i ← instanceOf (href h);
        if bool_decide (status i ≠ ServiceRunning) && bool_decide (status i ≠ ServiceStopping)
        then mret (toError ErrServiceClosed)
        else sendEnvelope envelope
    end
  else sendEnvelope envelope.

(** ** Timers *)

Definition After (target : ServiceRef) (id : CommandID) (payload : any A)
  : M (res rtError TimerID) :=
  st ← get state;
  if bool_decide (st ≠ runtimeRunning) then mret (Err (Sentinel ErrRuntimeClosed)) else
  g ← registryGet target;
  match g with
  | Err e => mret (Err (Sentinel e))
  | Ok h =>
      i ← instanceOf (href h);
      if bool_decide (status i ≠ ServiceRunning) || finalized i
      then mret (Err (Sentinel ErrServiceClosed))
      else
        tm ← get timers; js ← get jobs;
        let '(tm, tid) := addTimer target tm in
        _ ← set_timers tm (<[tid := mkJob target id payload]> js);
        mret (Ok tid)
  end.

Definition Cancel (id : TimerID) : M unit :=
  tm ← get timers; js ← get jobs; set_timers (cancel id tm) js.

Definition errIs (e : error rtError) (s : sentinel) : bool :=
  match e with Some e => errors_Is e s | None => false end.

Definition observeTimerDelivery (err : error rtError) : M unit :=
  match err with
  | None => inc "timer_deliveries_total"
  | Some _ =>
      _ ← inc "timer_delivery_errors_total";
      if errIs err ErrMailboxFull then inc "timer_delivery_mailbox_full_total"
      else if errIs err ErrServiceClosed || errIs err ErrServiceNotFound
      then inc "timer_delivery_target_closed_total"
      else if errIs err ErrRuntimeClosed then inc "timer_delivery_runtime_closed_total"
      else inc "timer_delivery_other_errors_total"
  end.

Definition deliverTimer (job : timerJob) : M unit :=
  _ ← inc "timers_fired_total";
  err ← Send (jobTarget job) (jobCommand job) (jobPayload job);
  observeTimerDelivery err.

(** The callback of [time.AfterFunc]. *)
Definition timerFires (id : TimerID) : M unit :=
  tm ← get timers; js ← get jobs;
  let '(tm, ok) := expire id tm in
  _ ← set_timers tm js;
  match ok, js !! id with
  | true, Some job => deliverTimer job
  | _, _ => mret tt
  end.

(** ** Replies and calls *)

Definition clusterReply (responder caller : ServiceRef) (command : CommandID)
    (session : SessionID) (value : any A) (replyErr : error rtError) : M (error rtError) :=
  self ← get node;
  r ← match replyErr with
      | Some e => mret (([] : list byte), encodeRemoteError e, Some e)
      | None =>
          let payload : res rtError (list byte) :=
            if (ID responder =? 0) && (command =? coreResolveNameCommand)
            then encodeCoreResolveResponse value self
            else match Encode command true value with
                 | Ok p => Ok p
                 | Err e => Err (AppError e)
                 end in
          match payload with
          | Ok p => mret (p, ("", ""), None)
          | Err e =>
              let e' := if errors_Is e ErrInvalidClusterEnvelope then e
                        else WrapError ErrPayloadEncode (errorText e) in
              _ ← inc "cluster_encode_errors_total";
              mret ([], encodeRemoteError e', Some e')
          end
      end;
  let '(payload, (code, message), resultErr) := r in
  let wire := mkWire responder caller session command payload true [] code message in
  sent ← transportSendM (Node caller) wire;
  if (sent : bool) then _ ← inc "cluster_messages_sent_total"; mret resultErr
  else _ ← inc "cluster_reply_errors_total"; mret (toError ErrRemoteUnavailable).

Definition reply (responder caller : ServiceRef) (command : CommandID) (session : SessionID)
    (value : any A) (err : error rtError) : M (error rtError) :=
  self ← get node; cl ← get clustered;
  if bool_decide (Node caller ≠ self) then
    if bool_decide (Node caller = "") || negb cl then mret (toError ErrRemoteUnavailable)
    else clusterReply responder caller command session value err
  else
    ok ← pendingComplete caller responder command session (mkResult value err);
    if (ok : bool) then mret None
    else _ ← inc "late_reply_total"; mret (toError ErrReplyExpired).

(** The deferred counter of [call]. *)
Definition observeRemoteCall (target : ServiceRef) (err : error rtError) : M unit :=
  self ← get node;
  if bool_decide (Node target ≠ "") && bool_decide (Node target ≠ self) then
    match err with
    | Some _ => inc "remote_calls_failed_total"
    | None => inc "remote_calls_succeeded_total"
    end
  else mret tt.

(** [call] up to [pending.wait]: the session and channel it waits on, or the
    error it returned. *)
Definition callBegin (source target : ServiceRef) (id : CommandID) (payload : any A)
    (path : list ServiceRef) : M (res rtError (SessionID * nat)) :=
  st ← get state;
  if bool_decide (st ≠ runtimeRunning) then
    _ ← observeRemoteCall target (toError ErrRuntimeClosed);
    mret (Err (Sentinel ErrRuntimeClosed))
  else
    self ← get node;
    let source := if bool_decide (source = zeroRef) then mkRef self 0 else source in
    s ← pendingCreate source target id;
    let '(session, ch) := s in
    err ← sendEnvelope (mkEnvelope source target session id payload path);
    match err with
    | Some e =>
        _ ← pendingRemove session;
        _ ← observeRemoteCall target (Some e);
        mret (Err e)
    | None => mret (Ok (session, ch))
    end.

(** The rest of [call], once [wait] returned [value, err]. *)
Definition callEnd (target : ServiceRef) (session : SessionID) (value : any A) (err : error rtError)
  : M (any A * error rtError) :=
  _ ← match err with Some _ => pendingRemove session | None => mret tt end;
  _ ← observeRemoteCall target err;
  mret (value, err).

(** [pending.wait]: [None] while it blocks. *)
Definition callWait (ch : nat) (preferCtx : bool) (ctx : ctxStatus)
  : M (option (any A * error rtError)) :=
  p ← get pending; chs ← get chans; n ← get nextChan;
  let buffered := match chs !! ch with Some (r :: _) => Some r | _ => None end in
  let w := wait preferCtx buffered ctx in
  _ ← match w, buffered with
      | Some _, Some _ =>
          if (match ctx with CtxLive => false | _ => preferCtx end)
          then mret tt else set_pending p (<[ch := []]> chs) n
      | _, _ => mret tt
      end;
  mret w.

(** [callFromService] up to the wait; [permit] is the answer of [yield].  The
    state of the source is not checked again before [call] creates the pending
    call: [overlap] is what the rest of the node does in between, the
    finalization of the source included. *)
Definition callFromServiceBegin (source : ServiceRef) (permit : bool) (overlap : M unit)
    (target : ServiceRef) (id : CommandID) (payload : any A) : M (res rtError (SessionID * nat)) :=
  i ← instanceOf source;
  if closing i then mret (Err (Sentinel ErrServiceClosed))
  else if bool_decide (status i ≠ ServiceRunning) && bool_decide (status i ≠ ServiceStopping)
  then mret (Err (Sentinel ErrServiceClosed))
  else
    let path := match callPath i with [] => [source] | p => p end in
    if bool_decide (target ∈ path) then mret (Err (Sentinel ErrCallCycle))
    else if negb permit then mret (Err (Sentinel ErrCallNotAllowed))
    else _ ← overlap; callBegin source target id payload (path ++ [target]).

(** The rest of [callFromService]; [resumed] is the answer of [resume]. *)
Definition callFromServiceEnd (target : ServiceRef) (session : SessionID) (value : any A)
    (err resumed : error rtError) : M (any A * error rtError) :=
  r ← callEnd target session value err;
  mret (r.1, match r.2 with Some e => Some e | None => resumed end).

Definition Call (target : ServiceRef) (id : CommandID) (payload : any A)
  : M (res rtError (SessionID * nat)) :=
  callBegin zeroRef target id payload [target].

Definition Resolve (name : ServiceName) : M (res rtError ServiceRef) :=
  r ← get registry;
  mret match Registry.resolve name r with Ok ref => Ok ref | Err e => Err (Sentinel e) end.

(** [ResolveRemote]: the local answer, or the call it makes. *)
Definition ResolveRemoteBegin (n : NodeID) (name : ServiceName)
  : M (res rtError ServiceRef + res rtError (SessionID * nat)) :=
  self ← get node;
  if bool_decide (n = self) then r ← Resolve name; mret (inl r)
  else if bool_decide (n = "") then mret (inl (Err (Sentinel ErrRemoteUnavailable)))
  else
    let target := mkRef n 0 in
    r ← callBegin zeroRef target coreResolveNameCommand (AnyServiceName name) [target];
    mret (inr r).

(** The check of the answer. *)
Definition ResolveRemoteEnd (n : NodeID) (answer : any A * error rtError)
  : res rtError ServiceRef :=
  match answer with
  | (_, Some e) => Err e
  | (AnyServiceRef ref, None) =>
      if bool_decide (Node ref ≠ n) || (ID ref =? 0)
      then Err (Sentinel ErrInvalidClusterEnvelope) else Ok ref
  | _ => Err (Sentinel ErrInvalidClusterEnvelope)
  end.

(** ** Receiving from a peer *)

Definition replyTo (wire : WireEnvelope) (value : any A) (err : error rtError) : M unit :=
  _ ← clusterReply (wTarget wire) (wSource wire) (wCommand wire) (wSession wire) value err;
  mret tt.

Definition receiveCommand (wire : WireEnvelope) : M unit :=
  if ID (wTarget wire) =? 0 then
    match decodeCoreResolveName (wPayload wire) with
    | Err e => replyTo wire AnyNil (Some e)
    | Ok name =>
        r ← get registry;
        match Registry.resolve name r with
        | Ok ref => replyTo wire (AnyServiceRef ref) None
        | Err e => replyTo wire (AnyServiceRef zeroRef) (toError e)
        end
    end
  else
    match Decode (wCommand wire) false (wPayload wire) with
    | Err e =>
        _ ← inc "cluster_decode_errors_total";
        when (negb (wSession wire =? 0)) (replyTo wire AnyNil (Some (WrapError ErrPayloadDecode e)))
    | Ok payload =>
        err ← sendLocalEnvelope (mkEnvelope (wSource wire) (wTarget wire) (wSession wire)
                                   (wCommand wire) payload (wCallPath wire));
        match err with
        | None => mret tt
        | Some e =>
            _ ← inc "cluster_delivery_errors_total";
            when (negb (wSession wire =? 0)) (replyTo wire AnyNil (Some e))
        end
    end.

Definition decodeReply (wire : WireEnvelope) : callResult A * bool :=
  if bool_decide (wErrorCode wire ≠ "") then
    (mkResult AnyNil (Some (decodeRemoteError (wErrorCode wire) (wErrorMessage wire))), false)
  else if (ID (wSource wire) =? 0) && (wCommand wire =? coreResolveNameCommand) then
    match decodeCoreResolveResponse (wPayload wire) (Node (wSource wire)) with
    | Ok ref => (mkResult (AnyServiceRef ref) None, false)
    | Err e => (mkResult AnyNil (Some e), false)
    end
  else
    match Decode (wCommand wire) true (wPayload wire) with
    | Ok v => (mkResult v None, false)
    | Err e => (mkResult AnyNil (Some (WrapError ErrPayloadDecode e)), true)
    end.

Definition receiveReply (wire : WireEnvelope) : M unit :=
  c ← pendingTake (wTarget wire) (wSource wire) (wCommand wire) (wSession wire);
  match c with
  | None => inc "late_reply_total"
  | Some c =>
      let '(res, decodeError) := decodeReply wire in
      _ ← when decodeError (inc "cluster_decode_errors_total");
      sendTo c res
  end.

Definition receive (peer : NodeID) (wire : WireEnvelope) : M unit :=
  _ ← inc "cluster_messages_received_total";
  self ← get node; st ← get state;
  match validate self st peer wire with
  | Some e =>
      _ ← inc "cluster_invalid_envelopes_total";
      if bool_decide (e = ErrRuntimeClosed) then mret tt
      else when (negb (wResponse wire) && negb (wSession wire =? 0)
                 && bool_decide (Node (wSource wire) = peer)
                 && bool_decide (Node (wTarget wire) = self)
                 && (negb (ID (wTarget wire) =? 0) || (wCommand wire =? coreResolveNameCommand)))
             (replyTo wire AnyNil (toError e))
  | None => if wResponse wire then receiveReply wire else receiveCommand wire
  end.

Definition unavailable (peer : NodeID) : M unit :=
  if bool_decide (peer = "") then mret tt
  else
    _ ← inc "cluster_node_unavailable_total";
    failPending (nodeTest peer) (Sentinel ErrRemoteUnavailable).

End Runtime.

Arguments serviceInstance : clear implicits.
Arguments timerJob : clear implicits.
Arguments Runtime : clear implicits.
Arguments M : clear implicits.

(** The operations are units for instance search. *)
#[global] Typeclasses Opaque
  get when set_registry set_heap set_pending set_timers set_tracker set_metrics
  set_nextID set_state set_ticks set_logs now metric inc instanceOf allocInstance
  modifyInstance putInstance registryGet registryAdd registryRemove schedule
  transportSendM sendStopResult failPending pendingRemove pendingTake sendTo
  pendingComplete pendingCreate clusterSend sendLocalEnvelope sendEnvelope Send sendFrom
  After Cancel observeTimerDelivery deliverTimer timerFires clusterReply reply
  observeRemoteCall callBegin callEnd callWait callFromServiceBegin callFromServiceEnd
  Call Resolve ResolveRemoteBegin replyTo receiveCommand receiveReply receive unavailable.
