(* ===== verification/Lifecycle.v ===== *)
(** * Service lifecycle

    [src/runtime/lifecycle.go] and the execution of application code in
    [src/runtime/runtime.go], [src/runtime/service.go] and
    [src/runtime/task.go]: creation, command execution, stop, close, and the
    shutdown of the node.

    Application code (the [Service] interface) is a program over the operations
    its context offers; the theorems hold for every program.  Where an operation
    waits, what the rest of the node does meanwhile is an argument of type
    [M unit], again arbitrary. *)

From stdpp Require Import prelude gmap strings list.
From Stdlib Require Import ZArith Lia.
From S2P Require Import Prelude Types Metrics Mailbox Registry Pending Timers Tasks ClusterWire Runtime.

Local Open Scope Z_scope.

(** How application code ends. *)
Inductive outcome := Returned (err : error rtError) | Panicked (text : string).

(** Application code that performs operations [Op] and uses their results. *)
Inductive prog (Op Res : Type) :=
| Ret (o : outcome)
| Do (op : Op) (k : Res → prog Op Res).
Arguments Ret {Op Res} o.
Arguments Do {Op Res} op k.

Section Lifecycle.
Context {A : Type} {CC : ClusterCodec A} {CT : ClusterTransport} {CL : Clock}.
Context {MP : MapPick ServiceRef Time}.
Local Abbreviation M := (M A) (only parsing).

(** ** Contexts *)

(** The non-blocking operations of [ServiceContext]. *)
Inductive serviceOp :=
| SSend (target : ServiceRef) (id : CommandID) (payload : any A)
| SAfter (id : CommandID) (payload : any A).
Inductive serviceRes := SErr (e : error rtError) | STimer (r : res rtError TimerID).

(** The operations available to a handler: its [CommandContext] and the
    [ServiceContext] the service kept. *)
Inductive commandOp := CReply (value : any A) | CService (op : serviceOp).

Definition serviceCtx (self : ServiceRef) (op : serviceOp) : M serviceRes :=
  match op with
  | SSend target id payload => e ← sendFrom self target id payload; mret (SErr e)
  | SAfter id payload => r ← After self id payload; mret (STimer r)
  end.

(** [commandContext] *)
Record commandContext := mkContext {
  ctxSelf : ServiceRef;
  ctxSource : ServiceRef;
  ctxSession : SessionID;
  ctxCommand : CommandID;
  replied : bool
}.

Definition set_replied (c : commandContext) : commandContext :=
  mkContext (ctxSelf c) (ctxSource c) (ctxSession c) (ctxCommand c) true.

Definition Reply (c : commandContext) (value : any A) : M (commandContext * error rtError) :=
  if ctxSession c =? 0 then mret (c, toError ErrReplyUnavailable)
  else if replied c then mret (c, toError ErrReplyTwice)
  else
    e ← reply (ctxSelf c) (ctxSource c) (ctxCommand c) (ctxSession c) value None;
    mret (set_replied c, e).

Fixpoint runService (self : ServiceRef) (p : prog serviceOp serviceRes) : M outcome :=
  match p with
  | Ret o => mret o
  | Do op k => r ← serviceCtx self op; runService self (k r)
  end.

Fixpoint runCommand (c : commandContext) (p : prog commandOp serviceRes)
  : M (commandContext * outcome) :=
  match p with
  | Ret o => mret (c, o)
  | Do (CReply v) k =>
      r ← Reply c v;
      let '(c, e) := r in runCommand c (k (SErr e))
  | Do (CService op) k => r ← serviceCtx (ctxSelf c) op; runCommand c (k r)
  end.

(** [invokeService] *)
Definition invokeService (o : outcome) : error rtError :=
  match o with
  | Returned err => err
  | Panicked text => Some (WrapError ErrServiceFailed ("panic: " +:+ text))
  end.

(** ** Tasks *)

Definition taskBegin (owner : ServiceRef) (kind : runtimeTaskKind) (cancel : option nat) : M Z :=
  t ← now; tr ← get tracker; mc ← get metrics;
  let '(tr, mc, id) := begin t owner kind cancel tr mc in
  _ ← set_tracker tr; _ ← set_metrics mc; mret id.

Definition taskFinish (id : Z) : M unit :=
  tr ← get tracker; mc ← get metrics;
  let '(tr, mc) := finish id tr mc in
  _ ← set_tracker tr; set_metrics mc.

Definition taskTimeout (id : Z) : M unit :=
  tr ← get tracker; mc ← get metrics;
  let '(tr, mc, _) := timeout id tr mc in
  _ ← set_tracker tr; set_metrics mc.

Definition taskTimeoutOwner (owner : ServiceRef) : M unit :=
  tr ← get tracker; mc ← get metrics;
  let '(tr, mc, _) := timeoutOwner owner tr mc in
  _ ← set_tracker tr; set_metrics mc.

Definition invokeInlineTask (owner : ServiceRef) (kind : runtimeTaskKind)
    (p : prog serviceOp serviceRes) : M (error rtError) :=
  id ← taskBegin owner kind None;
  o ← runService owner p;
  _ ← taskFinish id;
  mret (invokeService o).

(** ** Stop and close callbacks *)

(** What the [select] of [runClose] saw: the callback returned, or the timer
    fired after it had run the operations of the program. *)
Inductive closeRun := CloseDone (p : prog serviceOp serviceRes) | CloseTimedOut (p : prog serviceOp serviceRes).

(** The same for [runStop], whose context may also end with its parent. *)
Inductive stopRun :=
| StopDone (p : prog serviceOp serviceRes)
| StopTimedOut (p : prog serviceOp serviceRes)
| StopParentDone (p : prog serviceOp serviceRes) (cause : rtError).

Definition observeLifecycleError (phase : string) (err : error rtError) : M unit :=
  match err with
  | None => mret tt
  | Some e =>
      _ ← inc ("service_" +:+ phase +:+ "_errors_total");
      when (errors_Is e ErrServiceFailed) (inc "service_panics_total")
  end.

Definition runClose (ref : ServiceRef) (run : closeRun) : M (error rtError) :=
  _ ← modifyInstance ref with_closing;
  id ← taskBegin ref runtimeTaskClose None;
  match run with
  | CloseDone p =>
      o ← runService ref p;
      _ ← taskFinish id;
      _ ← observeLifecycleError "close" (invokeService o);
      mret (invokeService o)
  | CloseTimedOut p =>
      _ ← runService ref p;
      _ ← taskTimeout id;
      _ ← inc "close_timeouts_total";
      mret (toError ErrCloseTimeout)
  end.

Definition runStop (ref : ServiceRef) (q : stopRequest) (run : stopRun) : M (error rtError) :=
  id ← taskBegin ref runtimeTaskStop (Some q);
  match run with
  | StopDone p =>
      o ← runService ref p;
      _ ← taskFinish id;
      _ ← observeLifecycleError "stop" (invokeService o);
      mret (invokeService o)
  | StopTimedOut p =>
      _ ← runService ref p;
      _ ← taskTimeout id;
      _ ← inc "stop_timeouts_total";
      mret (toError ErrStopTimeout)
  | StopParentDone p cause =>
      _ ← runService ref p;
      _ ← taskTimeout id;
      mret (Some cause)
  end.

(** ** Finalization *)

Definition finalize (ref : ServiceRef) (st : ServiceStatus) (cause : error rtError) : M unit :=
  i ← instanceOf ref;
  if finalized i then mret tt
  else
    mc ← get metrics;
    let '(b, mc) := Mailbox.close (box i) mc in
    _ ← set_metrics mc;
    _ ← putInstance ref (with_box (with_finalized i) b);
    tm ← get timers; js ← get jobs;
    _ ← set_timers (cancelTarget ref tm) js;
    _ ← failPending (serviceTest ref) (default (Sentinel ErrServiceClosed) cause);
    _ ← registryRemove ref;
    _ ← modifyInstance ref (λ i, with_status i st);
    _ ← inc "service_stopped_total";
    modifyInstance ref (λ i, with_result i cause).

(** ** Creation *)

Record ServiceImpl := mkService {
  startupCommand : option (CommandID * any A);
  initProg : prog serviceOp serviceRes
}.

Record ServiceSpec := mkSpec {
  specName : ServiceName;
  specService : option ServiceImpl;
  specPolicy : ServicePolicy
}.

Definition defaultTimeout : Duration := 5 * 10 ^ 9.

Definition normalizePolicy (p : ServicePolicy) : ServicePolicy :=
  let stop := if StopTimeout p <=? 0 then defaultTimeout else StopTimeout p in
  let close := if CloseTimeout p <=? 0 then defaultTimeout else CloseTimeout p in
  let life := if LifecycleTimeout p <=? 0 then stop + close else LifecycleTimeout p in
  mkPolicy stop close life (MailboxPolicy p).

(** Close the half-made service and report [err]. *)
Definition abandon (ref : ServiceRef) (close : closeRun) (st : ServiceStatus) (err : rtError)
  : M (res rtError ServiceRef) :=
  closeErr ← runClose ref close;
  let result := default err (errors_Join [Some err; closeErr]) in
  _ ← finalize ref st (Some result);
  mret (Err result).

(** What other goroutines did while [CreateService] ran: before it took
    [createMu] the second time, between the service's becoming [Running] and the
    startup command, and before it returned. *)
Record createOverlap := mkOverlap {
  beforeRunning : M unit;
  beforeStartup : M unit;
  beforeReturn : M unit
}.

Definition noOverlap : createOverlap := mkOverlap (mret tt) (mret tt) (mret tt).

(** [CreateService]; [close] is how [Close] went if it was needed. *)
Definition CreateService (spec : ServiceSpec) (concurrent : createOverlap) (close : closeRun)
  : M (res rtError ServiceRef) :=
  st ← get state;
  if bool_decide (st ≠ runtimeRunning) then mret (Err (Sentinel ErrRuntimeClosed)) else
  match specService spec with
  | None => mret (Err (Sentinel ErrInvalidServiceSpec))
  | Some service =>
      self ← get node; n ← get nextID;
      _ ← set_nextID (u64_succ n);
      let ref := mkRef self (u64_succ n) in
      size ← get mailboxSize;
      _ ← allocInstance ref (mkInstance (normalizePolicy (specPolicy spec))
                             (newMailbox size (mailboxDepthMetric ref)) ServiceCreated
                             false false [] false None);
      added ← registryAdd (mkHandle ref (specName spec));
      match added with
      | Some e => mret (Err (Sentinel e))
      | None =>
          _ ← modifyInstance ref (λ i, with_status i ServiceStarting);
          err ← invokeInlineTask ref runtimeTaskInit (initProg service);
          match err with
          | Some e =>
              _ ← when (errors_Is e ErrServiceFailed) (inc "service_panics_total");
              abandon ref close ServiceFailed e
          | None =>
              _ ← beforeRunning concurrent;
              st ← get state; i ← instanceOf ref;
              if bool_decide (st ≠ runtimeRunning) || finalized i
                 || bool_decide (status i ≠ ServiceStarting)
              then abandon ref close ServiceClosed (Sentinel ErrRuntimeClosed)
              else
                _ ← putInstance ref (with_status i ServiceRunning);
                _ ← beforeStartup concurrent;
                err ← match startupCommand service with
                      | Some (id, payload) => sendFrom ref ref id payload
                      | None => mret None
                      end;
                match err with
                | Some e => abandon ref close ServiceFailed e
                | None =>
                    _ ← beforeReturn concurrent; _ ← inc "service_created_total"; mret (Ok ref)
                end
          end
      end
  end.

(** ** Command execution *)

Definition closeAfterFailure (ref : ServiceRef) (close : closeRun) : M unit :=
  _ ← modifyInstance ref (λ i, with_status i ServiceFailed);
  closeErr ← runClose ref close;
  finalize ref ServiceFailed (errors_Join [toError ErrServiceFailed; closeErr]).

(** The reply a failed handler leaves to the runtime. *)
Definition replyFailure (c : commandContext) (err : rtError) : M unit :=
  when (negb (ctxSession c =? 0) && negb (replied c))
    (_ ← reply (ctxSelf c) (ctxSource c) (ctxCommand c) (ctxSession c) AnyNil (Some err);
     mret tt).

Definition executeEnvelope (ref : ServiceRef) (envelope : Envelope A)
    (handler : prog commandOp serviceRes) (close : closeRun) : M unit :=
  started ← now;
  _ ← modifyInstance ref (λ i, with_path i (CallPath envelope));
  r ← runCommand (mkContext ref (Source envelope) (Session envelope) (Command envelope) false) handler;
  let '(c, o) := r in
  _ ← match o with
      | Returned (Some err) => _ ← inc "handler_errors_total"; replyFailure c err
      | _ => mret tt
      end;
  ended ← now;
  threshold ← get slowCommandThreshold;
  _ ← inc "commands_handled_total";
  _ ← metric (Observe "command_duration" (ended - started));
  _ ← when (threshold <=? ended - started) (inc "slow_commands_total");
  _ ← match o with
      | Panicked _ =>
          _ ← inc "service_panics_total";
          _ ← replyFailure c (Sentinel ErrServiceFailed);
          closeAfterFailure ref close
      | Returned _ => mret tt
      end;
  modifyInstance ref (λ i, with_path i []).

(** ** Stop *)

(** What [Stop] did before it waits. *)
Inductive stopStart :=
| StopReturns (err : error rtError)
| StopJoins                      (** [instance.wait(ctx)] *)
| StopEnqueued.

Definition Stop (ref : ServiceRef) (q : stopRequest) : M stopStart :=
  g ← registryGet ref;
  match g with
  | Err e => mret (StopReturns (toError e))
  | Ok h =>
      i ← instanceOf (href h);
      if bool_decide (status i ≠ ServiceRunning) then
        mret (if bool_decide (status i = ServiceStopping) || bool_decide (status i = ServiceFailed)
                 || finalized i
              then StopJoins else StopReturns (toError ErrServiceClosed))
      else
        let i := with_status i ServiceStopping in
        mc ← get metrics;
        let '(b, mc) :=
          match MailboxPolicy (policy i) with
          | DiscardMailbox => discard (box i) mc
          | DrainMailbox => (box i, mc)
          end in
        t ← now;
        let '(b, mc, err) := pushStop t q b mc in
        _ ← set_metrics mc;
        _ ← putInstance (href h) (with_box i b);
        match err with
        | Some e => mret (StopReturns (toError e))
        | None => _ ← schedule (href h); mret StopEnqueued
        end
  end.

(** [instance.wait]: [None] while it blocks on a live context. *)
Definition instanceWait (ref : ServiceRef) (ctx : error rtError) : M (option (error rtError)) :=
  i ← instanceOf ref;
  mret (if isDone i then Some (result i)
        else match ctx with Some cause => Some (Some cause) | None => None end).

(** The two branches of the [select] in [Stop] that give up waiting. *)
Definition stopCanceled (ref : ServiceRef) (cause : rtError) : M (error rtError) :=
  _ ← taskTimeoutOwner ref;
  _ ← finalize ref ServiceFailed (Some cause);
  mret (Some cause).

Definition stopTimedOut (ref : ServiceRef) : M (error rtError) :=
  _ ← inc "stop_timeouts_total";
  _ ← taskTimeoutOwner ref;
  _ ← finalize ref ServiceFailed (toError ErrStopTimeout);
  mret (toError ErrStopTimeout).

(** [errors.Is] against the two context errors. *)
Fixpoint isContextError (e : rtError) : bool :=
  match e with
  | ContextCanceled | ContextDeadlineExceeded => true
  | JoinError es => existsb isContextError es
  | _ => false
  end.

Definition executeStop (ref : ServiceRef) (q : stopRequest) (run : stopRun) (concurrent : M unit)
    (close : closeRun) : M unit :=
  i ← instanceOf ref;
  if finalized i then sendStopResult q (toError ErrServiceClosed)
  else
    stopErr ← runStop ref q run;
    _ ← concurrent;
    i ← instanceOf ref;
    if finalized i then sendStopResult q (toError ErrServiceClosed)
    else if errIs stopErr ErrStopTimeout
            || match stopErr with Some e => isContextError e | None => false end
    then
      _ ← finalize ref ServiceFailed stopErr;
      sendStopResult q stopErr
    else
      closeErr ← runClose ref close;
      let result := errors_Join [stopErr; closeErr] in
      _ ← finalize ref (match result with None => ServiceClosed | Some _ => ServiceFailed end) result;
      sendStopResult q result.

(** ** The batch loop of a worker

    [process] of [src/runtime/scheduler.go] at the level of the node; its
    interleavings are in [Scheduler].  [app] is the application's reaction to
    each item. *)
Record appBehaviour := mkApp {
  onCommand : Envelope A → prog commandOp serviceRes;
  onStop : stopRun;
  onClose : closeRun;
  meanwhile : M unit
}.

Definition popItem (ref : ServiceRef) : M (option (mailboxItem A stopRequest)) :=
  i ← instanceOf ref; t ← now; mc ← get metrics;
  let '(b, mc, item) := pop t (box i) mc in
  _ ← set_metrics mc;
  _ ← putInstance ref (with_box i b);
  mret item.

Fixpoint process (n : nat) (ref : ServiceRef) (app : appBehaviour) : M unit :=
  let reschedule :=
    i ← instanceOf ref;
    when (notEmpty (box i) && negb (finalized i)) (schedule ref) in
  match n with
  | O => reschedule
  | S n =>
      item ← popItem ref;
      match item with
      | None => reschedule
      | Some item =>
          match content item with
          | inr q => executeStop ref q (onStop app) (meanwhile app) (onClose app)
          | inl envelope =>
              _ ← executeEnvelope ref envelope (onCommand app envelope) (onClose app);
              i ← instanceOf ref;
              if finalized i then mret tt else process n ref app
          end
      end
  end.

(** ** Shutdown of the node *)

(** What the waits of [closeRuntime] saw: the errors of the runners, of the
    transport and of the scheduler; whether every pending creation finished in
    time; the stop results, unless the context ended first; and whether the
    context had ended at the three places where it is tested. *)
Record closeEvents := mkCloseEvents {
  runnersErr : error rtError;
  transportErr : error rtError;
  schedulerErr : error rtError;
  createdInTime : bool;
  stopPhase : M (option (list (error rtError)));
  expiredAtStop : bool;
  expiredAtForce : bool;
  expiredAtScheduler : bool;
  closeCause : rtError          (** [runtimeCloseCause(ctx)] *)
}.

Definition joinErr (acc e : error rtError) : error rtError :=
  match e with None => acc | Some _ => errors_Join [acc; e] end.

(** An error of a wait that only says that the shutdown ran out of time. *)
Definition causeOf (expired : bool) (cause : rtError) (e : rtError) : rtError :=
  if expired && isContextError e then cause else e.

Definition joinStopResults (ev : closeEvents) (acc : error rtError) (errs : list (error rtError))
  : error rtError :=
  foldl (λ acc err,
           match err with
           | Some e => if errors_Is e ErrServiceClosed then acc
                       else joinErr acc (Some (causeOf (expiredAtStop ev) (closeCause ev) e))
           | None => acc
           end) acc errs.

Fixpoint finalizeAll (ev : closeEvents) (hs : list handle) : M unit :=
  match hs with
  | [] => mret tt
  | h :: hs =>
      _ ← when (expiredAtForce ev) (taskTimeoutOwner (href h));
      _ ← finalize (href h) (if expiredAtForce ev then ServiceFailed else ServiceClosed)
            (Some (if expiredAtForce ev then closeCause ev else Sentinel ErrRuntimeClosed));
      finalizeAll ev hs
  end.

Definition closeRuntime (ev : closeEvents) : M (error rtError) :=
  let result := joinErr None (runnersErr ev) in
  _ ← failPending (λ _, true) (Sentinel ErrRuntimeClosed);
  cl ← get clustered;
  let result := if (cl : bool) then joinErr result (transportErr ev) else result in
  let result := if createdInTime ev then result else Some (closeCause ev) in
  reg ← get registry;
  let instances := snapshot reg in
  phase ← stopPhase ev;
  let result :=
    match phase with
    | Some errs => joinStopResults ev result errs
    | None => joinErr result (Some (closeCause ev))
    end in
  _ ← finalizeAll ev instances;
  tm ← get timers; js ← get jobs;
  _ ← set_timers (cancelAll tm) js;
  _ ← failPending (λ _, true) (Sentinel ErrRuntimeClosed);
  let result :=
    match schedulerErr ev with
    | None => result
    | Some e => joinErr result (Some (causeOf (expiredAtScheduler ev) (closeCause ev) e))
    end in
  tr ← get tracker;
  _ ← metric (reportActiveTasks tr);
  reg ← get registry;
  _ ← set_registry (clear reg);
  mret result.

(** [Close]: [None] when another caller is closing, which it then waits for. *)
Definition Close (ev : closeEvents) : M (option (error rtError)) :=
  st ← get state;
  if bool_decide (st ≠ runtimeRunning) then mret None
  else
    _ ← set_state runtimeClosing;
    result ← closeRuntime ev;
    _ ← set_state runtimeClosed;
    mret (Some result).
End Lifecycle.

(** The operations are units for instance search. *)
#[global] Typeclasses Opaque
  serviceCtx Reply runService runCommand taskBegin taskFinish taskTimeout
  taskTimeoutOwner invokeInlineTask observeLifecycleError runClose runStop finalize
  abandon CreateService closeAfterFailure replyFailure executeEnvelope Stop instanceWait
  stopCanceled stopTimedOut executeStop popItem process finalizeAll closeRuntime Close.
