(* ===== verification/RuntimeInv.v ===== *)
(** * The invariant of a node

    Every operation of [Runtime] and [Lifecycle] preserves [runtime_inv]: what
    the registry, the heap of instances, the timers and the pending calls say
    about each other. *)

From stdpp Require Import prelude gmap strings list.
From Stdlib Require Import ZArith Lia.
From S2P Require Import Prelude Types Metrics Mailbox Registry Pending Timers Tasks ClusterWire Runtime Lifecycle.

Local Open Scope Z_scope.

Section RuntimeInv.
Context {A : Type} {CC : ClusterCodec A} {CT : ClusterTransport} {CL : Clock}.
Context {MP : MapPick ServiceRef Time}.
Local Abbreviation M := (M A) (only parsing).
Local Abbreviation Runtime := (Runtime A) (only parsing).
Implicit Types r : Runtime.

(** ** Weakest preconditions *)

Definition wp {X} (m : M X) (Q : X → Runtime → Prop) r : Prop := Q (m r).2 (m r).1.

Lemma wp_ret {X} (x : X) (Q : X → Runtime → Prop) r : Q x r → wp (mret x) Q r.
Proof. done. Qed.
Lemma wp_bind {X Y} (m : M X) (k : X → M Y) Q r :
  wp m (λ x, wp (k x) Q) r → wp (m ≫= k) Q r.
Proof. unfold wp, mbind, M_bind. by destruct (m r). Qed.
Lemma wp_get {X} (f : Runtime → X) Q r : Q (f r) r → wp (get f) Q r.
Proof. done. Qed.
Lemma wp_mono {X} (m : M X) (Q Q' : X → Runtime → Prop) r :
  wp m Q r → (∀ x r', Q x r' → Q' x r') → wp m Q' r.
Proof. unfold wp. auto. Qed.

(** ** Operations that leave the core of the node alone *)

(** Equality of everything the invariant speaks of. *)
Record same_core (r r' : Runtime) : Prop := {
  sc_node : node r' = node r;
  sc_heap : heap r' = heap r;
  sc_services : services (registry r') = services (registry r);
  sc_names : names (registry r') = names (registry r);
  sc_pending : pending r' = pending r;
  sc_timers : timers r' = timers r;
  sc_jobs : jobs r' = jobs r;
  sc_next : nextID r' = nextID r;
  sc_state : state r' = state r
}.

#[global] Instance same_core_refl : Reflexive same_core.
Proof. by split. Qed.
#[global] Instance same_core_trans : Transitive same_core.
Proof. intros a b c [] []. split; congruence. Qed.

Class Quiet {X} (m : M X) : Prop := quiet r : same_core r (m r).1.

Lemma wp_quiet {X} (m : M X) Q r :
  Quiet m → (∀ x r', same_core r r' → m r = (r', x) → Q x r') → wp m Q r.
Proof. intros Hq H. apply H; [apply Hq|]. by destruct (m r). Qed.

#[global] Instance quiet_ret {X} (x : X) : Quiet (mret x).
Proof. intros r. reflexivity. Qed.
#[global] Instance quiet_get {X} (f : Runtime → X) : Quiet (get f).
Proof. intros r. reflexivity. Qed.
#[global] Instance quiet_bind {X Y} (m : M X) (k : X → M Y) :
  Quiet m → (∀ x, Quiet (k x)) → Quiet (m ≫= k).
Proof.
  intros Hm Hk r. specialize (Hm r). unfold mbind, M_bind. destruct (m r) as [r' x].
  etrans; [exact Hm|apply Hk].
Qed.
#[global] Instance quiet_when b (m : M unit) : Quiet m → Quiet (when b m).
Proof. intros. unfold when. destruct b; apply _. Qed.
#[global] Instance quiet_metrics v : Quiet (set_metrics (A := A) v).
Proof. by split. Qed.
#[global] Instance quiet_ticks v : Quiet (set_ticks (A := A) v).
Proof. by split. Qed.
#[global] Instance quiet_tracker v : Quiet (set_tracker (A := A) v).
Proof. by split. Qed.
#[global] Instance quiet_logs s o t : Quiet (set_logs (A := A) s o t).
Proof. by split. Qed.
#[global] Instance quiet_now : Quiet (now (A := A)).
Proof. unfold now. apply _. Qed.
#[global] Instance quiet_metric f : Quiet (metric (A := A) f).
Proof. unfold metric. apply _. Qed.
#[global] Instance quiet_inc n : Quiet (inc (A := A) n).
Proof. unfold inc. apply _. Qed.
#[global] Instance quiet_instanceOf ref : Quiet (instanceOf (A := A) ref).
Proof. unfold instanceOf. apply _. Qed.
#[global] Instance quiet_schedule ref : Quiet (schedule (A := A) ref).
Proof. unfold schedule. apply quiet_bind; [apply _|]. intros [[] ?]. apply _. Qed.
#[global] Instance quiet_transport n w : Quiet (transportSendM (A := A) n w).
Proof. unfold transportSendM. apply quiet_bind; [apply _|]. intros [[] ?]. apply _. Qed.
#[global] Instance quiet_stopResult q e : Quiet (sendStopResult (A := A) q e).
Proof. unfold sendStopResult. apply quiet_bind; [apply _|]. intros [[] ?]. apply _. Qed.
#[global] Instance quiet_taskBegin o k c : Quiet (taskBegin (A := A) o k c).
Proof. unfold taskBegin. repeat (apply quiet_bind; [apply _|intros ?]). repeat case_match. apply _. Qed.
#[global] Instance quiet_taskFinish i : Quiet (taskFinish (A := A) i).
Proof. unfold taskFinish. repeat (apply quiet_bind; [apply _|intros ?]). repeat case_match; apply _. Qed.
#[global] Instance quiet_taskTimeout i : Quiet (taskTimeout (A := A) i).
Proof. unfold taskTimeout. repeat (apply quiet_bind; [apply _|intros ?]). repeat case_match; apply _. Qed.
#[global] Instance quiet_taskTimeoutOwner o : Quiet (taskTimeoutOwner (A := A) o).
Proof. unfold taskTimeoutOwner. repeat (apply quiet_bind; [apply _|intros ?]). repeat case_match; apply _. Qed.
#[global] Instance quiet_registryGet ref : Quiet (registryGet (A := A) ref).
Proof. unfold registryGet. intros r. by split. Qed.
#[global] Instance quiet_observe phase err : Quiet (observeLifecycleError (A := A) phase err).
Proof. unfold observeLifecycleError. case_match; apply _. Qed.
#[global] Instance quiet_observeTimer err : Quiet (observeTimerDelivery (A := A) err).
Proof. unfold observeTimerDelivery. repeat case_match; apply _. Qed.
#[global] Instance quiet_observeCall t err : Quiet (observeRemoteCall (A := A) t err).
Proof. unfold observeRemoteCall. apply quiet_bind; [apply _|]. intros. repeat case_match; apply _. Qed.
#[global] Instance quiet_clusterSend e : Quiet (clusterSend (A := A) e).
Proof.
  unfold clusterSend. apply quiet_bind; [apply _|]. intros self. cbv zeta.
  case_match; [|apply _]. apply quiet_bind; [apply _|]. intros []; apply _.
Qed.
#[global] Instance quiet_clusterReply a b c d v e : Quiet (clusterReply (A := A) a b c d v e).
Proof.
  unfold clusterReply. apply quiet_bind; [apply _|]. intros self.
  apply quiet_bind; [repeat case_match; apply _|].
  intros [[? [??]] ?]. apply quiet_bind; [apply _|]. intros []; apply _.
Qed.
#[global] Instance quiet_replyTo w v e : Quiet (replyTo (A := A) w v e).
Proof. unfold replyTo. apply _. Qed.

(** ** The invariant *)

Definition registered r (ref : ServiceRef) : Prop := is_Some (services (registry r) !! ref).

Definition runs (s : ServiceStatus) : Prop :=
  s = ServiceStarting ∨ s = ServiceRunning ∨ s = ServiceStopping.

(** A reference to a service of this node, as opposed to a remote one or to the
    node itself ([ID = 0]). *)
Definition local r (ref : ServiceRef) : Prop := Node ref = node r ∧ ID ref ≠ 0.

(** The invariant, with the sessions [X] of calls being set up exempted. *)
Record inv_except (X : gset SessionID) r : Prop := {
  (** The registry holds live instances of this node under their own reference. *)
  inv_registered ref h : services (registry r) !! ref = Some h →
    href h = ref ∧ local r ref ∧ ∃ i, heap r !! ref = Some i ∧ finalized i = false;
  (** A name stands for the service registered under it. *)
  inv_names name ref : names (registry r) !! name = Some ref ↔
    ∃ h, services (registry r) !! ref = Some h ∧ hname h = name ∧ name ≠ "";
  (** While the node runs, a service that runs is registered. *)
  inv_runs ref i : heap r !! ref = Some i → runs (status i) → state r = runtimeRunning →
    registered r ref;
  (** A finalized service has a closed, empty mailbox and announced its result. *)
  inv_final ref i : heap r !! ref = Some i → finalized i = true →
    Mailbox.closed (box i) = true ∧ items (box i) = [] ∧ isDone i = true;
  (** Timers only target registered services, and carry their command. *)
  inv_timer id target : Timers.timers (timers r) !! id = Some target →
    registered r target ∧ ∃ job, jobs r !! id = Some job ∧ jobTarget job = target;
  (** No pending call waits for a service that is gone. *)
  inv_pending session c : calls (pending r) !! session = Some c → session ∉ X →
    local r (ctarget c) → registered r (ctarget c);
  (** References are drawn from the counter. *)
  inv_ids ref i : heap r !! ref = Some i → Node ref = node r ∧ 0 < ID ref ≤ nextID r;
  inv_next : is_u64 (nextID r)
}.

Definition runtime_inv r : Prop := inv_except ∅ r.

Lemma inv_core X r r' : same_core r r' → inv_except X r → inv_except X r'.
Proof.
  intros [Hn Hh Hs Hsn Hp Ht Hj Hi Hst] [H1 Hnm H2 H3 H4 H5 H6 H7].
  split; unfold registered, local in *; rewrite ?Hn, ?Hh, ?Hs, ?Hsn, ?Hp, ?Ht, ?Hj, ?Hi, ?Hst; auto.
Qed.

(** Operations that preserve the invariant. *)
Class Preserves {X} (m : M X) : Prop := preserves E r : inv_except E r → inv_except E (m r).1.

#[global] Instance preserves_quiet {X} (m : M X) : Quiet m → Preserves m | 5.
Proof. intros Hq E r. apply inv_core, Hq. Qed.

#[global] Instance preserves_bind {X Y} (m : M X) (k : X → M Y) :
  Preserves m → (∀ x, Preserves (k x)) → Preserves (m ≫= k) | 10.
Proof.
  intros Hm Hk E r Hr. specialize (Hm E r Hr). unfold mbind, M_bind. destruct (m r) as [r' x].
  by apply Hk.
Qed.

#[global] Instance preserves_when b (m : M unit) : Preserves m → Preserves (when b m).
Proof. intros. unfold when. destruct b; apply _. Qed.

(** A bind whose continuation may rely on the state the first part left. *)
Lemma preserves_bind_with {X Y} (m : M X) (k : X → M Y) :
  Quiet m → (∀ E r, inv_except E r → inv_except E (k (m r).2 (m r).1).1) → Preserves (m ≫= k).
Proof.
  intros Hm Hk E r Hr. specialize (Hk E r Hr). unfold mbind, M_bind.
  by destruct (m r) as [r' x].
Qed.

(** ** Updates of an instance *)

(** [i'] may replace [i]. *)
Record update_ok r ref (i i' : serviceInstance A) : Prop := {
  up_final : finalized i' = finalized i;
  up_runs : runs (status i') → state r = runtimeRunning → registered r ref;
  up_closed : finalized i' = true →
    Mailbox.closed (box i') = true ∧ items (box i') = [] ∧ isDone i' = true
}.

Lemma inv_modify E r ref f :
  inv_except E r → (∀ i, heap r !! ref = Some i → update_ok r ref i (f i)) →
  inv_except E (modifyInstance ref f r).1.
Proof.
  intros [H1 Hnm H2 H3 H4 H5 H6 H7] Hf.
  assert (∀ ref' i', heap (modifyInstance ref f r).1 !! ref' = Some i' →
    (ref' ≠ ref ∧ heap r !! ref' = Some i') ∨
    (ref' = ref ∧ ∃ i, heap r !! ref = Some i ∧ i' = f i)) as Hl.
  { intros ref' i'. simpl. intros [(<- & i & Hi & ->)|[? ?]]%lookup_alter_Some; eauto. }
  split.
  - intros ref' h Hh. destruct (H1 _ _ Hh) as (? & ? & i & Hi & Hfin). split_and!; [done|done|].
    simpl. destruct (decide (ref = ref')) as [->|Hne].
    + exists (f i). rewrite lookup_alter_eq, Hi. split; [done|].
      by rewrite (up_final _ _ _ _ (Hf _ Hi)).
    + exists i. by rewrite lookup_alter_ne.
  - exact Hnm.
  - intros ref' i' [[_ Hi]|(-> & i & Hi & ->)]%Hl; [by apply H2|]. by apply (Hf _ Hi).
  - intros ref' i' [[_ Hi]|(-> & i & Hi & ->)]%Hl; [by apply (H3 ref')|]. by apply (Hf _ Hi).
  - done.
  - done.
  - intros ref' i' [[_ Hi]|(-> & i & Hi & _)]%Hl; by eapply H6.
  - done.
Qed.

(** Fields that the invariant does not read. *)
Lemma update_same E r ref i i' :
  inv_except E r → heap r !! ref = Some i →
  finalized i' = finalized i → status i' = status i → isDone i' = isDone i → box i' = box i →
  update_ok r ref i i'.
Proof.
  intros Hr Hi Hf Hs Hd Hb. split; [done| |].
  - rewrite Hs. by apply (inv_runs _ _ Hr _ _ Hi).
  - rewrite Hf, Hd, Hb. by apply (inv_final _ _ Hr _ _ Hi).
Qed.

(** A new mailbox for a service that is not finalized. *)
Lemma update_box E r ref i b :
  inv_except E r → heap r !! ref = Some i → finalized i = false → update_ok r ref i (with_box i b).
Proof.
  intros Hr Hi Hf. split; simpl; [done| |congruence]. by apply (inv_runs _ _ Hr _ _ Hi).
Qed.

#[global] Instance preserves_closing ref : Preserves (modifyInstance (A := A) ref with_closing).
Proof. intros E r Hr. apply inv_modify; [done|]. intros i Hi. by eapply update_same. Qed.
#[global] Instance preserves_path ref p :
  Preserves (modifyInstance (A := A) ref (λ i, with_path i p)).
Proof. intros E r Hr. apply inv_modify; [done|]. intros i Hi. by eapply update_same. Qed.
#[global] Instance preserves_failed ref :
  Preserves (modifyInstance (A := A) ref (λ i, with_status i ServiceFailed)).
Proof.
  intros E r Hr. apply inv_modify; [done|]. intros i Hi.
  split; simpl; [done|by intros [|[|]]|]. by apply (inv_final _ _ Hr _ _ Hi).
Qed.

(** ** Sending *)

(** Everything but the instances. *)
Record same_ctl (r r' : Runtime) : Prop := {
  ct_node : node r' = node r;
  ct_services : services (registry r') = services (registry r);
  ct_pending : pending r' = pending r;
  ct_timers : timers r' = timers r;
  ct_jobs : jobs r' = jobs r;
  ct_next : nextID r' = nextID r;
  ct_state : state r' = state r
}.

#[global] Instance same_ctl_refl : Reflexive same_ctl.
Proof. by split. Qed.
#[global] Instance same_ctl_trans : Transitive same_ctl.
Proof. intros a b c [] []. split; congruence. Qed.
Lemma core_ctl r r' : same_core r r' → same_ctl r r'.
Proof. intros []. by split. Qed.

Lemma ctl_registered r r' ref : same_ctl r r' → registered r' ref ↔ registered r ref.
Proof. intros []. unfold registered. by rewrite ct_services0. Qed.

Lemma registryGet_Ok ref r h :
  (registryGet (A := A) ref r).2 = Ok h → services (registry r) !! ref = Some h.
Proof.
  unfold registryGet, mbind, M_bind; simpl. rewrite ?cleanup_services.
  case_match eqn:E; [|by case_match]. by intros [= <-].
Qed.

End RuntimeInv.

(** Walk through the binds of a goal [wp]. *)
Ltac wp_get_step := apply wp_bind, wp_get.
Tactic Notation "wp_q" ident(x) ident(r') ident(Hq) ident(E) :=
  apply wp_bind; apply wp_quiet; [apply _|]; intros x r' Hq E.

Section RuntimeOps.
Context {A : Type} {CC : ClusterCodec A} {CT : ClusterTransport} {CL : Clock}.
Context {MP : MapPick ServiceRef Time}.
Local Abbreviation M := (M A) (only parsing).
Local Abbreviation Runtime := (Runtime A) (only parsing).
Implicit Types r : Runtime.

Lemma sendLocalEnvelope_spec E e r :
  inv_except E r →
  wp (sendLocalEnvelope e) (λ err r',
    inv_except E r' ∧ same_ctl r r' ∧ (err = None → registered r (Target e))) r.
Proof.
  intros Hr. unfold sendLocalEnvelope. wp_get_step.
  case_bool_decide as Hst; [by apply wp_ret|].
  wp_q g r1 Hq Eg. assert (inv_except E r1) as Hr1 by (by eapply inv_core).
  destruct g as [h|e']; [|by apply wp_ret; split_and!; [|apply core_ctl|]].
  assert (services (registry r) !! Target e = Some h) as Hh
    by (apply registryGet_Ok; by rewrite Eg).
  apply core_ctl in Hq. wp_get_step.
  set (i := default nullInstance (heap r1 !! href h)).
  destruct (bool_decide (status i ≠ ServiceRunning) || finalized i) eqn:Eguard;
    [by apply wp_ret; split_and!|].
  apply orb_false_iff in Eguard as [_ Hfin].
  assert (heap r1 !! href h = Some i) as Hi.
  { assert (services (registry r1) !! Target e = Some h) as Hh1 by (by rewrite (ct_services _ _ Hq)).
    destruct (inv_registered _ _ Hr1 _ _ Hh1) as (Hhr & _ & j & Hj & _).
    unfold i. by rewrite Hhr, Hj. }
  wp_q t r2 Hq2 Et. wp_get_step.
  destruct (pushEnvelope t e (box i) (metrics r2)) as [[b mc] err].
  wp_q u r3 Hq3 Em. assert (same_core r1 r3) as Hc3 by (by etrans).
  apply wp_bind. set (r4 := (putInstance (href h) (with_box i b) r3).1).
  assert (inv_except E r4) as Hr4.
  { apply inv_modify; [by eapply inv_core|]. intros j Hj. rewrite (sc_heap _ _ Hc3), Hi in Hj.
    injection Hj as <-. eapply update_box; [by eapply inv_core|by rewrite (sc_heap _ _ Hc3)|done]. }
  assert (same_ctl r r4) as Hct.
  { etrans; [exact Hq|]. etrans; [apply core_ctl; exact Hc3|done]. }
  unfold wp at 1. fold r4. destruct err as [err|]; [by apply wp_ret; split_and!|].
  wp_q u' r5 Hq5 Es. apply wp_ret.
  split_and!; [by eapply inv_core|etrans; [exact Hct|by apply core_ctl]|by eexists].
Qed.

Lemma sendEnvelope_spec E e r :
  inv_except E r →
  wp (sendEnvelope e) (λ err r',
    inv_except E r' ∧ same_ctl r r' ∧
    (err = None → Node (Target e) = node r → registered r (Target e))) r.
Proof.
  intros Hr. unfold sendEnvelope. wp_get_step. case_bool_decide; [by apply wp_ret|].
  do 2 wp_get_step. case_bool_decide as Hn.
  - case_match; [by apply wp_ret|]. apply wp_quiet; [apply _|]. intros x r' Hc _.
    split_and!; [by eapply inv_core|by apply core_ctl|done].
  - eapply wp_mono; [by apply sendLocalEnvelope_spec|]. simpl. naive_solver.
Qed.

#[global] Instance preserves_sendLocal e : Preserves (sendLocalEnvelope (A := A) e).
Proof. intros E r Hr. by apply (sendLocalEnvelope_spec E e). Qed.
#[global] Instance preserves_sendEnvelope e : Preserves (sendEnvelope (A := A) e).
Proof. intros E r Hr. by apply (sendEnvelope_spec E e). Qed.
#[global] Instance preserves_Send t c v : Preserves (Send (A := A) t c v).
Proof. unfold Send. apply _. Qed.
#[global] Instance preserves_sendFrom s t c v : Preserves (sendFrom (A := A) s t c v).
Proof.
  unfold sendFrom. case_match; [|apply _]. apply preserves_bind; [apply _|]. intros [|]; [|apply _].
  apply preserves_bind; [apply _|]. intros. case_match; apply _.
Qed.

(** ** Timers *)

Lemma inv_set_timers E r tm js :
  inv_except E r →
  (∀ id target, Timers.timers tm !! id = Some target →
     registered r target ∧ ∃ job, js !! id = Some job ∧ jobTarget job = target) →
  inv_except E (set_timers tm js r).1.
Proof. intros [H1 Hnm H2 H3 H4 H5 H6 H7] Ht. by split. Qed.

#[global] Instance preserves_After t c v : Preserves (After (A := A) t c v).
Proof.
  intros E r Hr. change (wp (After t c v) (λ _ r', inv_except E r') r).
  unfold After. wp_get_step. case_bool_decide; [by apply wp_ret|].
  wp_q g r1 Hq Eg. assert (inv_except E r1) as Hr1 by (by eapply inv_core).
  destruct g as [h|e']; [|by apply wp_ret].
  assert (registered r1 t) as Hreg.
  { eexists. rewrite (sc_services _ _ Hq). apply registryGet_Ok. by rewrite Eg. }
  wp_get_step. case_match; [by apply wp_ret|]. do 2 wp_get_step.
  unfold addTimer. apply wp_bind. apply wp_ret. apply inv_set_timers; [done|]. simpl.
  intros id target [[<- <-]|[Hne Hid]]%lookup_insert_Some.
  - split; [done|]. eexists. by rewrite lookup_insert_eq.
  - rewrite lookup_insert_ne by done. by apply (inv_timer _ _ Hr1).
Qed.

#[global] Instance preserves_Cancel id : Preserves (Cancel (A := A) id).
Proof.
  intros E r Hr. apply inv_set_timers; [done|]. simpl.
  intros id' target [_ H]%lookup_delete_Some. by apply (inv_timer _ _ Hr).
Qed.

#[global] Instance preserves_deliverTimer job : Preserves (deliverTimer (A := A) job).
Proof. unfold deliverTimer. apply _. Qed.

#[global] Instance preserves_timerFires id : Preserves (timerFires (A := A) id).
Proof.
  intros E r Hr. change (wp (timerFires id) (λ _ r', inv_except E r') r).
  unfold timerFires. do 2 wp_get_step. unfold expire. apply wp_bind.
  set (tm := mkTimers _ _). set (r1 := (set_timers tm (jobs r) r).1).
  assert (inv_except E r1) as Hr1.
  { apply inv_set_timers; [done|]. simpl.
    intros id' target [_ H]%lookup_delete_Some. by apply (inv_timer _ _ Hr). }
  unfold wp at 1. fold r1. case_bool_decide; [|by apply wp_ret].
  case_match; [|by apply wp_ret]. by apply preserves_deliverTimer.
Qed.

(** ** Pending calls *)

Lemma inv_set_pending E E' r p c n :
  inv_except E r →
  (∀ session call, calls p !! session = Some call → session ∉ E' →
     local r (ctarget call) → registered r (ctarget call)) →
  inv_except E' (set_pending p c n r).1.
Proof. intros [H1 Hnm H2 H3 H4 H5 H6 H7] Ht. by split. Qed.

(** Removing calls keeps the invariant. *)
Lemma inv_shrink_pending E r p c n :
  inv_except E r → (∀ session call, calls p !! session = Some call →
    calls (pending r) !! session = Some call) →
  inv_except E (set_pending p c n r).1.
Proof.
  intros Hr Hsub. eapply inv_set_pending; [done|]. intros session call H%Hsub.
  by apply (inv_pending _ _ Hr).
Qed.

#[global] Instance preserves_failPending test e : Preserves (failPending (A := A) test e).
Proof.
  intros E r Hr. apply inv_shrink_pending; [done|]. simpl.
  by intros session call [? _]%map_lookup_filter_Some.
Qed.
#[global] Instance preserves_pendingRemove s : Preserves (pendingRemove (A := A) s).
Proof.
  intros E r Hr. apply inv_shrink_pending; [done|]. simpl.
  by intros session call [_ ?]%lookup_delete_Some.
Qed.
#[global] Instance preserves_pendingTake a b c d : Preserves (pendingTake (A := A) a b c d).
Proof.
  intros E r Hr. change (wp (pendingTake a b c d) (λ _ r', inv_except E r') r).
  unfold pendingTake. do 3 wp_get_step.
  destruct (Pending.take a b c d (pending r)) as [p oc] eqn:Et. apply wp_bind. apply wp_ret.
  apply inv_shrink_pending; [done|]. intros session call.
  unfold Pending.take in Et. repeat case_match; simplify_eq; try done.
  simpl. by intros [_ ?]%lookup_delete_Some.
Qed.
#[global] Instance preserves_sendTo c v : Preserves (sendTo (A := A) c v).
Proof. intros E r Hr. by apply inv_shrink_pending. Qed.
#[global] Instance preserves_complete a b c d v : Preserves (pendingComplete (A := A) a b c d v).
Proof.
  unfold pendingComplete. apply preserves_bind; [apply _|]. intros [|]; apply _.
Qed.
#[global] Instance preserves_reply a b c d v e : Preserves (reply (A := A) a b c d v e).
Proof.
  unfold reply. do 2 (apply preserves_bind; [apply _|]; intros). case_match; [case_match; apply _|].
  apply preserves_bind; [apply _|]. intros []; apply _.
Qed.
End RuntimeOps.
