(* ===== verification/LifecycleInv.v ===== *)
(** * The invariant of a node: calls, cluster traffic and lifecycle *)

From stdpp Require Import prelude gmap strings list.
From Stdlib Require Import ZArith Lia.
From S2P Require Import Prelude Types Metrics Mailbox Registry Pending Timers Tasks ClusterWire Runtime Lifecycle RuntimeInv.

Local Open Scope Z_scope.

Section LifecycleInv.
Context {A : Type} {CC : ClusterCodec A} {CT : ClusterTransport} {CL : Clock}.
Context {MP : MapPick ServiceRef Time}.
Local Abbreviation M := (M A) (only parsing).
Local Abbreviation Runtime := (Runtime A) (only parsing).
Implicit Types r : Runtime.

(** ** Calls *)

Lemma ctl_local r r' ref : same_ctl r r' → local r' ref ↔ local r ref.
Proof. intros []. unfold local. by rewrite ct_node. Qed.

Lemma inv_weaken E E' r : E ⊆ E' → inv_except E r → inv_except E' r.
Proof.
  intros Hs [H1 Hnm H2 H3 H4 H5 H6 H7]. split; auto. intros session c Hc Hn. apply (H5 _ _ Hc).
  set_solver.
Qed.

(** The call being set up waits for a live service. *)
#[global] Instance preserves_callBegin s t id v path : Preserves (callBegin (A := A) s t id v path).
Proof.
  intros E r Hr. change (wp (callBegin s t id v path) (λ _ r', inv_except E r') r).
  unfold callBegin. wp_get_step. case_bool_decide as Hst.
  { wp_q u r1 Hq Eq. by apply wp_ret; eapply inv_core. }
  wp_get_step.
  set (src := if bool_decide (s = zeroRef) then _ else s).
  apply wp_bind. unfold pendingCreate. do 3 wp_get_step.
  destruct (Pending.create src t id (nextChan r) (pending r)) as [[p session]|] eqn:Ec.
  2: { apply wp_ret. apply wp_bind. eapply wp_mono; [by apply sendEnvelope_spec|].
       intros [err|] r1 (Hr1 & _); [|by apply wp_ret].
       apply wp_bind. unfold wp at 1. set (r2 := (pendingRemove 0 r1).1).
       assert (inv_except E r2) by (by apply preserves_pendingRemove).
       wp_q u r3 Hq Eq. apply wp_ret. by eapply inv_core. }
  unfold Pending.create in Ec. apply createLoop_spec in Ec as (_ & _ & Hfresh & Hcalls).
  apply wp_bind. set (chs := <[nextChan r:=[]]> (chans r)).
  set (r0 := (set_pending p chs (S (nextChan r)) r).1). unfold wp at 1. fold r0.
  assert (inv_except ({[session]} ∪ E) r0) as Hr0.
  { eapply inv_set_pending; [exact Hr|]. rewrite Hcalls. intros ses call Hl Hn.
    apply lookup_insert_Some in Hl as [[<- _]|[_ Hl]]; [set_solver|].
    apply (inv_pending _ _ Hr _ _ Hl). set_solver. }
  apply wp_ret. apply wp_bind. eapply wp_mono; [by apply sendEnvelope_spec|].
  intros err r1 (Hr1 & Hct & Hreg). simpl in Hreg.
  assert (calls (pending r1) = <[session := mkCall src t id (nextChan r)]> (calls (pending r))) as Hc1
    by (rewrite (ct_pending _ _ Hct); exact Hcalls).
  destruct err as [err|].
  - apply wp_bind. unfold wp at 1. set (r2 := (pendingRemove session r1).1).
    assert (inv_except E r2) as Hr2.
    { eapply inv_set_pending; [exact Hr1|]. simpl. rewrite Hc1. intros ses call Hl Hn.
      apply lookup_delete_Some in Hl as [Hne Hl]. rewrite lookup_insert_ne in Hl by done.
      intros Hloc. apply (ctl_registered r0); [done|]. apply (ctl_local r0) in Hloc; [|done].
      exact (inv_pending _ _ Hr _ _ Hl Hn Hloc). }
    wp_q u r3 Hq Eq. apply wp_ret. by eapply inv_core.
  - apply wp_ret. destruct Hr1 as [H1 Hnm H2 H3 H4 H5 H6 H7]. split; try done.
    rewrite Hc1. intros ses call Hl Hn Hloc.
    apply (ctl_registered r0); [done|]. apply (ctl_local r0) in Hloc; [|done].
    apply lookup_insert_Some in Hl as [[<- <-]|[Hne Hl]].
    + simpl in *. apply Hreg; [done|]. by destruct Hloc.
    + exact (inv_pending _ _ Hr _ _ Hl Hn Hloc).
Qed.

#[global] Instance preserves_Call t id v : Preserves (Call (A := A) t id v).
Proof. unfold Call. apply _. Qed.
#[global] Instance preserves_callEnd t s v e : Preserves (callEnd (A := A) t s v e).
Proof. unfold callEnd. apply preserves_bind; [|apply _]. case_match; apply _. Qed.
#[global] Instance preserves_callWait ch p c : Preserves (callWait (A := A) ch p c).
Proof.
  intros E r Hr. change (wp (callWait ch p c) (λ _ r', inv_except E r') r).
  unfold callWait. do 3 wp_get_step. apply wp_bind.
  apply (wp_mono _ (λ _ r', inv_except E r')); [|by intros x r1 Hr1; apply wp_ret].
  repeat case_match; first [by apply wp_ret | by apply inv_shrink_pending].
Qed.
#[global] Instance preserves_callFromServiceBegin s p (overlap : M unit) t id v :
  Preserves overlap → Preserves (callFromServiceBegin (A := A) s p overlap t id v).
Proof.
  intros. unfold callFromServiceBegin. apply preserves_bind; [apply _|]. intros i.
  repeat case_match; apply _.
Qed.
#[global] Instance preserves_callFromServiceEnd t s v e e' :
  Preserves (callFromServiceEnd (A := A) t s v e e').
Proof. unfold callFromServiceEnd. apply _. Qed.
#[global] Instance preserves_ResolveRemote n name : Preserves (ResolveRemoteBegin (A := A) n name).
Proof.
  unfold ResolveRemoteBegin. apply preserves_bind; [apply _|]. intros.
  case_match; [unfold Resolve; apply _|]. case_match; apply _.
Qed.

(** ** Cluster traffic *)

#[global] Instance preserves_receiveCommand w : Preserves (receiveCommand (A := A) w).
Proof.
  unfold receiveCommand. case_match.
  - case_match; [|apply _]. apply preserves_bind; [apply _|]. intros. case_match; apply _.
  - case_match; [|apply _]. apply preserves_bind; [apply _|]. intros [|]; apply _.
Qed.
#[global] Instance preserves_receiveReply w : Preserves (receiveReply (A := A) w).
Proof.
  unfold receiveReply. apply preserves_bind; [apply _|]. intros [|]; [|apply _].
  case_match. apply _.
Qed.
#[global] Instance preserves_receive p w : Preserves (receive (A := A) p w).
Proof.
  unfold receive. do 3 (apply preserves_bind; [apply _|]; intros).
  case_match; [|case_match; apply _]. apply preserves_bind; [apply _|]. intros. case_match; apply _.
Qed.
#[global] Instance preserves_unavailable p : Preserves (unavailable (A := A) p).
Proof. unfold unavailable. case_match; apply _. Qed.

(** ** Application code *)

#[global] Instance preserves_serviceCtx self op : Preserves (serviceCtx (A := A) self op).
Proof. destruct op; unfold serviceCtx; apply _. Qed.
#[global] Instance preserves_runService self p : Preserves (runService (A := A) self p).
Proof. induction p as [o|op k IH]; simpl; apply _. Qed.
#[global] Instance preserves_Reply c v : Preserves (Reply (A := A) c v).
Proof. unfold Reply. repeat case_match; apply _. Qed.
#[global] Instance preserves_runCommand c p : Preserves (runCommand (A := A) c p).
Proof.
  revert c. induction p as [o|[v|op] k IH]; intros c; simpl; [apply _| |apply _].
  apply preserves_bind; [apply _|]. intros [c' e]. apply IH.
Qed.
#[global] Instance preserves_inlineTask o k p : Preserves (invokeInlineTask (A := A) o k p).
Proof. unfold invokeInlineTask. apply _. Qed.
#[global] Instance preserves_runClose ref run : Preserves (runClose (A := A) ref run).
Proof. unfold runClose. do 2 (apply preserves_bind; [apply _|]; intros). case_match; apply _. Qed.
#[global] Instance preserves_runStop ref q run : Preserves (runStop (A := A) ref q run).
Proof. unfold runStop. apply preserves_bind; [apply _|]; intros. case_match; apply _. Qed.

(** ** Names *)

(** The names of a registry and the handles that bear them. *)
Definition named (sv : gmap ServiceRef handle) (nm : gmap ServiceName ServiceRef) : Prop :=
  ∀ name ref, nm !! name = Some ref ↔ ∃ h, sv !! ref = Some h ∧ hname h = name ∧ name ≠ "".

Lemma names_removed sv nm ref :
  named sv nm →
  named (delete ref sv)
    match sv !! ref with
    | Some h => if bool_decide (hname h ≠ "") then delete (hname h) nm else nm
    | None => nm
    end.
Proof.
  intros Hnm name ref'. split.
  - intros Hl. assert (nm !! name = Some ref') as Hin.
    { repeat case_match; [by apply lookup_delete_Some in Hl as [_ ?]|done|done]. }
    apply Hnm in Hin as Hh. destruct Hh as (h & Hh & Hname & Hne). exists h.
    split_and!; [|done|done]. rewrite lookup_delete_ne; [done|]. intros <-.
    rewrite Hh, bool_decide_true in Hl by congruence. by rewrite Hname, lookup_delete_eq in Hl.
  - intros (h & [Hne Hh]%lookup_delete_Some & Hname & Hnz).
    assert (nm !! name = Some ref') as Hin by (apply Hnm; eauto).
    destruct (sv !! ref) as [h0|] eqn:H0; [|done]. case_bool_decide; [|done].
    rewrite lookup_delete_ne; [done|]. intros Heq. rewrite <- Heq in Hin.
    assert (nm !! hname h0 = Some ref) by (apply Hnm; eauto). congruence.
Qed.

Lemma names_added sv nm h :
  named sv nm → sv !! href h = None → (hname h ≠ "" → nm !! hname h = None) →
  named (<[href h := h]> sv) (if bool_decide (hname h ≠ "") then <[hname h := href h]> nm else nm).
Proof.
  intros Hnm Hnone Hconf name ref. split.
  - intros Hl. case_bool_decide as Hz; [apply lookup_insert_Some in Hl as [[<- <-]|[Hne Hl]]|].
    + exists h. by rewrite lookup_insert_eq.
    + apply Hnm in Hl as (h' & Hl & ? & ?). exists h'. rewrite lookup_insert_ne; [done|congruence].
    + apply Hnm in Hl as (h' & Hl & ? & ?). exists h'. rewrite lookup_insert_ne; [done|congruence].
  - intros (h' & [[<- <-]|[Hne Hl]]%lookup_insert_Some & <- & Hz).
    + rewrite bool_decide_true by done. by rewrite lookup_insert_eq.
    + assert (nm !! hname h' = Some ref) as Hin by (apply Hnm; eauto).
      case_bool_decide as Hz0; [|done]. rewrite lookup_insert_ne; [done|].
      intros Heq. rewrite <- Heq, (Hconf Hz0) in Hin. done.
Qed.

(** ** Finalization *)

Definition finalInstance (i : serviceInstance A) (st : ServiceStatus) (cause : error rtError)
  : serviceInstance A :=
  mkInstance (policy i) (mkMailbox [] (capacity (box i)) (depthKey (box i)) true) st (closing i) true
    (callPath i) true cause.

Record finalize_effect (ref : ServiceRef) (st : ServiceStatus) (cause : error rtError) r r' : Prop := {
  fe_node : node r' = node r;
  fe_heap : heap r' = alter (λ i, finalInstance i st cause) ref (heap r);
  fe_services : services (registry r') = delete ref (services (registry r));
  fe_names : names (registry r') =
    match services (registry r) !! ref with
    | Some h => if bool_decide (hname h ≠ "") then delete (hname h) (names (registry r)) else names (registry r)
    | None => names (registry r)
    end;
  fe_pending : pending r' = (failService ref (pending r)).1;
  fe_timers : timers r' = cancelTarget ref (timers r);
  fe_jobs : jobs r' = jobs r;
  fe_next : nextID r' = nextID r;
  fe_state : state r' = state r
}.

Lemma finalize_first ref st cause r :
  finalized (default nullInstance (heap r !! ref)) = false →
  finalize_effect ref st cause r (finalize ref st cause r).1.
Proof.
  intros Hf. unfold finalize, mbind, M_bind. simpl. rewrite Hf. simpl. split; try done. simpl.
  apply map_eq. intros ref'.
  destruct (decide (ref = ref')) as [<-|Hne]; [|by rewrite !lookup_alter_ne].
  rewrite !lookup_alter_eq. by destruct (heap r !! ref).
Qed.

Lemma finalize_again ref st cause r i :
  heap r !! ref = Some i → finalized i = true → finalize ref st cause r = (r, tt).
Proof.
  intros Hi Hf. unfold finalize, mbind, M_bind. simpl. rewrite Hi. simpl. by rewrite Hf.
Qed.

Lemma finalize_inv ref st cause E r :
  ¬ runs st → inv_except E r → inv_except E (finalize ref st cause r).1.
Proof.
  intros Hst Hr. destruct (finalized (default nullInstance (heap r !! ref))) eqn:Hf.
  { destruct (heap r !! ref) as [i|] eqn:Hi; [|done]. by rewrite (finalize_again ref st cause r i). }
  pose proof (finalize_first ref st cause r Hf) as [Hn Hh Hs Hsn Hp Ht Hj Hx Hstate].
  assert (∀ ref', registered r ref' → ref' ≠ ref → registered (finalize ref st cause r).1 ref') as Hreg.
  { intros ref' H Hne. unfold registered in *. rewrite Hs. by rewrite lookup_delete_ne. }
  destruct Hr as [H1 Hnm H2 H3 H4 H5 H6 H7]. split; unfold local in *; rewrite ?Hn, ?Hj, ?Hx, ?Hstate.
  - rewrite Hs, Hh. intros ref' h [Hne Hl]%lookup_delete_Some.
    rewrite lookup_alter_ne by done. by apply H1.
  - rewrite Hs, Hsn. intros name ref'. by apply names_removed.
  - rewrite Hh. intros ref' i [(<- & j & _ & ->)|[Hne Hi]]%lookup_alter_Some; [done|].
    intros Hrun Hrs. apply Hreg; [by eapply H2|done].
  - rewrite Hh. intros ref' i [(<- & j & _ & ->)|[Hne Hi]]%lookup_alter_Some; [done|].
    by apply (H3 ref').
  - rewrite Ht. simpl. intros id target [Hl Hne]%map_lookup_filter_Some. simpl in Hne.
    destruct (H4 _ _ Hl) as [? ?]. split; [by apply Hreg|done].
  - rewrite Hp. simpl. intros session c [Hl Htest]%map_lookup_filter_Some Hn' Hloc.
    simpl in Htest. unfold serviceTest in Htest. apply orb_false_iff in Htest as [Ha Hb]. bool_prop.
    apply Hreg; [by eapply H5|done].
  - rewrite Hh. intros ref' i [(<- & j & Hi & ->)|[Hne Hi]]%lookup_alter_Some; by eapply H6.
  - done.
Qed.

#[global] Instance preserves_finalize_failed ref cause :
  Preserves (finalize (A := A) ref ServiceFailed cause).
Proof. intros E r. apply finalize_inv. by intros [|[|]]. Qed.
#[global] Instance preserves_finalize_closed ref cause :
  Preserves (finalize (A := A) ref ServiceClosed cause).
Proof. intros E r. apply finalize_inv. by intros [|[|]]. Qed.

#[global] Instance preserves_abandon_failed ref c e :
  Preserves (abandon (A := A) ref c ServiceFailed e).
Proof. unfold abandon. apply _. Qed.
#[global] Instance preserves_abandon_closed ref c e :
  Preserves (abandon (A := A) ref c ServiceClosed e).
Proof. unfold abandon. apply _. Qed.

(** ** Commands, stop, batch *)

#[global] Instance preserves_closeAfterFailure ref c : Preserves (closeAfterFailure (A := A) ref c).
Proof. unfold closeAfterFailure. apply _. Qed.
#[global] Instance preserves_replyFailure c e : Preserves (replyFailure (A := A) c e).
Proof. unfold replyFailure. apply _. Qed.
#[global] Instance preserves_executeEnvelope ref e h c :
  Preserves (executeEnvelope (A := A) ref e h c).
Proof.
  unfold executeEnvelope. do 3 (apply preserves_bind; [apply _|]; intros).
  case_match. apply preserves_bind; [repeat case_match; apply _|]. intros.
  do 5 (apply preserves_bind; [apply _|]; intros).
  apply preserves_bind; [case_match; apply _|]. apply _.
Qed.

#[global] Instance preserves_Stop ref q : Preserves (Stop (A := A) ref q).
Proof.
  intros E r Hr. change (wp (Stop ref q) (λ _ r', inv_except E r') r). unfold Stop.
  wp_q g r1 Hq Eg. assert (inv_except E r1) as Hr1 by (by eapply inv_core).
  destruct g as [h|e']; [|by apply wp_ret].
  assert (services (registry r1) !! ref = Some h) as Hh.
  { rewrite (sc_services _ _ Hq). apply registryGet_Ok. by rewrite Eg. }
  destruct (inv_registered _ _ Hr1 _ _ Hh) as (Hhr & _ & i & Hi & Hfin).
  wp_get_step. rewrite Hhr, Hi. simpl default. cbv beta.
  case_bool_decide as Hrun; [by apply wp_ret|]. wp_get_step.
  destruct (match MailboxPolicy _ with DrainMailbox => _ | DiscardMailbox => _ end) as [b mc].
  wp_q t r2 Hq2 Et. destruct (pushStop t q b mc) as [[b' mc'] err].
  wp_q u r3 Hq3 Eu. assert (same_core r1 r3) as Hc by (by etrans).
  apply wp_bind. unfold wp at 1.
  set (r4 := (putInstance ref _ r3).1). assert (inv_except E r4) as Hr4.
  { apply inv_modify; [by eapply inv_core|]. intros j Hj.
    rewrite (sc_heap _ _ Hc), Hi in Hj. injection Hj as <-. split; simpl; [done| |congruence].
    intros _ _. unfold registered. rewrite (sc_services _ _ Hc), Hh. by eexists. }
  destruct err; [by apply wp_ret|]. wp_q u' r5 Hq5 Es. apply wp_ret. by eapply inv_core.
Qed.

#[global] Instance preserves_stopCanceled ref c : Preserves (stopCanceled (A := A) ref c).
Proof. unfold stopCanceled. apply _. Qed.
#[global] Instance preserves_stopTimedOut ref : Preserves (stopTimedOut (A := A) ref).
Proof. unfold stopTimedOut. apply _. Qed.

#[global] Instance preserves_executeStop ref q s c cl :
  Preserves c → Preserves (executeStop (A := A) ref q s c cl).
Proof.
  intros Hc. unfold executeStop. apply preserves_bind; [apply _|]. intros.
  case_match; [apply _|]. do 3 (apply preserves_bind; [apply _|]; intros).
  do 2 (case_match; [apply _|]). apply preserves_bind; [apply _|]. intros e.
  apply preserves_bind; [|apply _]. destruct (errors_Join _); apply _.
Qed.

#[global] Instance preserves_popItem ref : Preserves (popItem (A := A) ref).
Proof.
  intros E r Hr. change (wp (popItem ref) (λ _ r', inv_except E r') r). unfold popItem.
  wp_get_step. wp_q t r1 Hq Et. wp_get_step.
  destruct (pop t _ (metrics r1)) as [[b mc] item] eqn:Ep. wp_q u r2 Hq2 Eu.
  assert (same_core r r2) as Hc by (by etrans). apply wp_bind. apply wp_ret.
  apply inv_modify; [by eapply inv_core|]. intros i Hi. rewrite (sc_heap _ _ Hc) in Hi.
  rewrite Hi in Ep |- *. simpl in Ep |- *. split; simpl; [done| |].
  - intros Hrun Hst. rewrite (sc_state _ _ Hc) in Hst. unfold registered.
    rewrite (sc_services _ _ Hc). by apply (inv_runs _ _ Hr _ _ Hi).
  - intros Hfin. destruct (inv_final _ _ Hr _ _ Hi Hfin) as (Hcl & Hem & Hd).
    unfold pop in Ep. rewrite Hem in Ep. by simplify_eq.
Qed.

Lemma preserves_process n ref (app : appBehaviour (A := A)) :
  Preserves (meanwhile app) → Preserves (process n ref app).
Proof.
  intros Happ. induction n as [|n IH]; simpl; [apply _|].
  apply preserves_bind; [apply _|]. intros [item|]; [|apply _].
  case_match; [|apply _]. apply preserves_bind; [apply _|]. intros.
  apply preserves_bind; [apply _|]. intros. case_match; apply _.
Qed.

(** ** Creation *)

Lemma inv_alloc E r ref i :
  inv_except E r → nextID r < u64_max → ref = mkRef (node r) (u64_succ (nextID r)) →
  finalized i = false → ¬ runs (status i) →
  inv_except E (allocInstance ref i (set_nextID (u64_succ (nextID r)) r).1).1 ∧
  heap r !! ref = None.
Proof.
  intros [H1 Hnm H2 H3 H4 H5 H6 H7] Hmax Href Hf Hs.
  assert (u64_succ (nextID r) = nextID r + 1) as Hsucc
    by (apply u64_succ_small; unfold is_u64 in *; lia).
  assert (heap r !! ref = None) as Hfresh.
  { destruct (heap r !! ref) eqn:Hi; [|done]. apply H6 in Hi as [_ Hi]. rewrite Href in Hi.
    simpl in Hi. lia. }
  split; [|done]. split; simpl.
  - intros ref' h Hh. destruct (H1 _ _ Hh) as (? & ? & j & Hj & ?). split_and!; [done|done|].
    exists j. rewrite lookup_insert_ne by congruence. done.
  - exact Hnm.
  - intros ref' j [[<- <-]|[Hne Hj]]%lookup_insert_Some; [done|]. by eapply H2.
  - intros ref' j [[<- <-]|[Hne Hj]]%lookup_insert_Some; [congruence|]. by eapply H3.
  - done.
  - done.
  - intros ref' j [[<- <-]|[Hne Hj]]%lookup_insert_Some.
    + rewrite Href, Hsucc. simpl. unfold is_u64 in *. split; [done|lia].
    + destruct (H6 _ _ Hj). split; [done|]. rewrite Hsucc. lia.
  - apply u64_range.
Qed.

Lemma registryAdd_spec r h :
  wp (registryAdd (A := A) h) (λ err r',
    same_core r r' ∧ err ≠ None ∨
    err = None ∧ node r' = node r ∧ heap r' = heap r ∧
      services (registry r') = <[href h := h]> (services (registry r)) ∧
      names (registry r') = (if bool_decide (hname h ≠ "") then <[hname h := href h]> (names (registry r)) else names (registry r)) ∧
      (hname h ≠ "" → names (registry r) !! hname h = None) ∧
      pending r' = pending r ∧ timers r' = timers r ∧ jobs r' = jobs r ∧ nextID r' = nextID r ∧
      state r' = state r) r.
Proof.
  unfold registryAdd. wp_q t r1 Hq Et. wp_get_step. destruct Hq.
  unfold Registry.add. rewrite cleanup_names.
  destruct (_ && _) eqn:Ec; apply wp_bind; apply wp_ret; simpl.
  - left. split; [|done]. split; simpl; congruence.
  - right. split_and!; simpl; try congruence; [by case_match; congruence|].
    intros Hz. rewrite bool_decide_true in Ec by done. simpl in Ec. bool_prop.
    rewrite sc_names in Ec. by apply eq_None_not_Some.
Qed.

Lemma inv_register E r r' h i :
  inv_except E r → heap r !! href h = Some i → finalized i = false →
  node r' = node r → heap r' = heap r →
  services (registry r) !! href h = None →
  services (registry r') = <[href h := h]> (services (registry r)) →
  names (registry r') = (if bool_decide (hname h ≠ "") then <[hname h := href h]> (names (registry r)) else names (registry r)) →
  (hname h ≠ "" → names (registry r) !! hname h = None) →
  pending r' = pending r → timers r' = timers r → jobs r' = jobs r → nextID r' = nextID r →
  state r' = state r → inv_except E r'.
Proof.
  intros [H1 Hnm H2 H3 H4 H5 H6 H7] Hi Hf Hn Hh Hnone Hs Hsn Hconf Hp Ht Hj Hx Hst.
  assert (∀ ref, registered r ref → registered r' ref) as Hreg.
  { intros ref [h' ?]. unfold registered. rewrite Hs.
    destruct (decide (href h = ref)) as [->|]; [rewrite lookup_insert_eq; by eexists|].
    rewrite lookup_insert_ne by done. by eexists. }
  split; unfold local in *; rewrite ?Hn, ?Hh, ?Hp, ?Ht, ?Hj, ?Hx, ?Hst; eauto.
  - rewrite Hs. intros ref h' [[<- <-]|[Hne Hl]]%lookup_insert_Some; [|by apply H1].
    destruct (H6 _ _ Hi). split_and!; [done|done|lia|]. by exists i.
  - rewrite Hs, Hsn. intros name ref. by apply names_added.
  - intros id target Hl. destruct (H4 _ _ Hl). auto.
Qed.

(** A finalized service is not registered. *)
Lemma finalized_unregistered E r ref i :
  inv_except E r → heap r !! ref = Some i → finalized i = true → ¬ registered r ref.
Proof.
  intros Hr Hi Hf [h Hh]. destruct (inv_registered _ _ Hr _ _ Hh) as (_ & _ & j & Hj & ?). congruence.
Qed.

(** After [finalize] the reference is not registered. *)
Lemma finalize_unregisters E ref st cause r :
  inv_except E r → ¬ runs st → ¬ registered (finalize ref st cause r).1 ref.
Proof.
  intros Hr Hst. destruct (finalized (default nullInstance (heap r !! ref))) eqn:Hf.
  - destruct (heap r !! ref) as [i|] eqn:Hi; [|done].
    rewrite (finalize_again ref st cause r i Hi Hf). by eapply finalized_unregistered.
  - unfold registered. rewrite (fe_services _ _ _ _ _ (finalize_first ref st cause r Hf)).
    rewrite lookup_delete_eq. by intros [? ?].
Qed.

(** The service [ref] is registered, under a name that resolves to it if it has
    one, and accepts commands. *)
Definition runningAt r (ref : ServiceRef) : Prop :=
  (∃ h, services (registry r) !! ref = Some h ∧
     (hname h ≠ "" → Registry.resolve (hname h) (registry r) = Ok ref)) ∧
  ∃ i, heap r !! ref = Some i ∧ status i = ServiceRunning ∧ finalized i = false.

(** Nothing of the node leads to [ref]: no entry and no name of the registry, and
    no timer. *)
Definition untraceable r (ref : ServiceRef) : Prop :=
  ¬ registered r ref ∧ (∀ name, names (registry r) !! name ≠ Some ref) ∧
  (∀ id, Timers.timers (timers r) !! id ≠ Some ref).

(** Activity that does not stop the running service [ref]. *)
Definition spares (ref : ServiceRef) (m : M unit) : Prop :=
  ∀ r, runningAt r ref → runningAt (m r).1 ref.

(** What [CreateService] promises. *)
Definition createPost (E : gset SessionID) (conc : createOverlap (A := A)) r (x : res rtError ServiceRef) r' : Prop :=
  let ref := mkRef (node r) (nextID r + 1) in
  inv_except E r' ∧
  match x with
  | Ok ref' => ref' = ref ∧
      (spares ref (beforeStartup conc) → spares ref (beforeReturn conc) → runningAt r' ref)
  | Err _ => untraceable r' ref
  end.

Lemma unregistered_untraceable E r ref :
  inv_except E r → ¬ registered r ref → untraceable r ref.
Proof.
  intros Hr Hn. split_and!; [done| |].
  - intros name (h & Hh & _)%(inv_names _ _ Hr). apply Hn. by eexists.
  - intros id Hid. apply Hn. by apply (inv_timer _ _ Hr id ref).
Qed.

Lemma registered_runningAt E r ref i :
  inv_except E r → registered r ref → heap r !! ref = Some i → status i = ServiceRunning →
  finalized i = false → runningAt r ref.
Proof.
  intros Hr [h Hh] Hi Hs Hf. split; [|by exists i]. exists h. split; [done|]. intros Hz.
  unfold Registry.resolve. by rewrite (proj2 (inv_names _ _ Hr (hname h) ref)) by eauto.
Qed.

Lemma abandon_spec E conc ref close st err r0 r :
  inv_except E r → ¬ runs st → ref = mkRef (node r0) (nextID r0 + 1) →
  wp (abandon ref close st err) (createPost E conc r0) r.
Proof.
  intros Hr Hst Href. unfold abandon. apply wp_bind.
  apply (wp_mono _ (λ _ r', inv_except E r')); [by apply preserves_runClose|].
  intros closeErr r1 Hr1. apply wp_bind. unfold wp at 1. apply wp_ret. unfold createPost.
  rewrite <- Href. assert (inv_except E (finalize ref st (Some (default err (errors_Join [Some err; closeErr]))) r1).1)
    as Hr2 by (by apply finalize_inv).
  split; [done|]. eapply unregistered_untraceable; [done|]. by eapply finalize_unregisters.
Qed.

(** A message leaves everything but one mailbox of the instances alone. *)
Definition lives r r' : Prop :=
  (services (registry r'), names (registry r')) = (services (registry r), names (registry r)) ∧
  ∀ ref i, heap r !! ref = Some i →
    ∃ i', heap r' !! ref = Some i' ∧ status i' = status i ∧ finalized i' = finalized i.

Lemma lives_core r r' : same_core r r' → lives r r'.
Proof. intros []. split; [congruence|]. rewrite sc_heap. eauto. Qed.
#[global] Instance lives_trans : Transitive lives.
Proof.
  intros a b c [S1 H1] [S2 H2]. split; [congruence|]. intros ref i (i1 & Hi1 & ? & ?)%H1.
  apply H2 in Hi1 as (i2 & Hi2 & ? & ?). exists i2. split_and!; congruence.
Qed.

Lemma sendLocal_lives e r : wp (sendLocalEnvelope (A := A) e) (λ _, lives r) r.
Proof.
  unfold sendLocalEnvelope. wp_get_step. case_match; [by apply wp_ret, lives_core|].
  wp_q g r1 Hq Eg. destruct g as [h|]; [|by apply wp_ret, lives_core].
  wp_get_step. case_match; [by apply wp_ret, lives_core|]. wp_q t r2 Hq2 Et. wp_get_step.
  destruct (pushEnvelope _ _ _ _) as [[b mc] err]. wp_q u r3 Hq3 Eu.
  apply wp_bind. unfold wp at 1. set (r4 := (putInstance _ _ r3).1).
  assert (lives r r4) as Hl.
  { assert (same_core r r3) as Hc by (etrans; [exact Hq|]; by etrans).
    apply lives_core in Hc as Hlc. destruct Hlc as [Hs Hh].
    split; [done|]. simpl. rewrite (sc_heap _ _ Hc). intros ref i Hi.
    destruct (decide (href h = ref)) as [<-|Hne].
    - rewrite lookup_alter_eq, Hi. eexists. split; [done|]. simpl.
      by rewrite (sc_heap _ _ Hq), Hi.
    - rewrite lookup_alter_ne by done. by exists i. }
  destruct err; [by apply wp_ret|]. wp_q u' r5 Hq5 Es. apply wp_ret.
  etrans; [exact Hl|by apply lives_core].
Qed.

Lemma sendFrom_lives s t c v r : wp (sendFrom (A := A) s t c v) (λ _, lives r) r.
Proof.
  assert (∀ e r, wp (sendEnvelope (A := A) e) (λ _, lives r) r) as Hse.
  { intros e r0. unfold sendEnvelope. wp_get_step. case_match; [by apply wp_ret, lives_core|].
    do 2 wp_get_step. case_match; [|apply sendLocal_lives].
    case_match; [by apply wp_ret, lives_core|]. apply wp_quiet; [apply _|].
    intros. by apply lives_core. }
  unfold sendFrom. cbv zeta. case_match; [|apply Hse].
  wp_q g r1 Hq Eg. destruct g; [|by apply wp_ret, lives_core]. wp_get_step.
  case_match; [by apply wp_ret, lives_core|]. eapply wp_mono; [apply Hse|]. simpl.
  intros _ r2 Hl. etrans; [by apply lives_core|done].
Qed.

Lemma lives_runningAt r r' ref : lives r r' → runningAt r ref → runningAt r' ref.
Proof.
  intros [[= Hs Hn] Hh] [(h & Hl & Hr) (i & Hi & Hst & Hf)]. split.
  - exists h. unfold Registry.resolve. by rewrite Hs, Hn.
  - destruct (Hh _ _ Hi) as (i' & ? & ? & ?). exists i'. split_and!; congruence.
Qed.

Class OverlapOk (conc : createOverlap (A := A)) : Prop := {
  overlap_running : Preserves (beforeRunning conc);
  overlap_startup : Preserves (beforeStartup conc);
  overlap_return : Preserves (beforeReturn conc)
}.
#[global] Instance noOverlap_ok : OverlapOk noOverlap.
Proof. split; apply _. Qed.

(** From the recheck under [createMu] on. *)
Lemma create_tail E ref conc close service r0 r `{!OverlapOk conc} :
  inv_except E r → ref = mkRef (node r0) (nextID r0 + 1) →
  wp (st ← get state; i ← instanceOf ref;
      if bool_decide (st ≠ runtimeRunning) || finalized i
         || bool_decide (status i ≠ ServiceStarting)
      then abandon ref close ServiceClosed (Sentinel ErrRuntimeClosed)
      else
        _ ← putInstance ref (with_status i ServiceRunning);
        _ ← beforeStartup conc;
        err ← match startupCommand service with
              | Some (id, payload) => sendFrom ref ref id payload
              | None => mret None
              end;
        match err with
        | Some e => abandon ref close ServiceFailed e
        | None => _ ← beforeReturn conc; _ ← inc "service_created_total"; mret (Ok ref)
        end) (createPost E conc r0) r.
Proof.
  intros Hr Href. do 2 wp_get_step.
  destruct (_ || _) eqn:Eg; [apply abandon_spec; [done|by intros [|[|]]|done]|].
  apply orb_false_iff in Eg as [[Hst Hfin]%orb_false_iff Hrun]. bool_prop.
  apply dec_stable in Hst, Hrun.
  destruct (heap r !! ref) as [i|] eqn:Hi; [|done]. simpl default in *.
  apply wp_bind. unfold wp at 1. set (r1 := (putInstance ref _ r).1).
  assert (registered r ref) as Hreg by (apply (inv_runs _ _ Hr _ _ Hi); [by left|done]).
  assert (inv_except E r1) as Hr1.
  { apply inv_modify; [done|]. intros j Hj. rewrite Hi in Hj. injection Hj as <-.
    split; simpl; [done|done|congruence]. }
  assert (runningAt r1 ref) as Hat.
  { apply (registered_runningAt E r1 ref (with_status i ServiceRunning)); try done.
    simpl. by rewrite lookup_alter_eq, Hi. }
  apply wp_bind. apply (wp_mono _ (λ _ r', inv_except E r' ∧ (spares ref (beforeStartup conc) → runningAt r' ref))).
  { split; [by apply overlap_startup|]. intros Hsp. by apply Hsp. }
  intros _ r2 [Hr2 Hat2]. apply wp_bind.
  apply (wp_mono _ (λ _ r', inv_except E r' ∧ lives r2 r')).
  { destruct (startupCommand service) as [[id payload]|]; [|by apply wp_ret; split; [|apply lives_core]].
    split; [by apply preserves_sendFrom|apply sendFrom_lives]. }
  intros err r3 [Hr3 Hl3]. destruct err as [err|].
  { apply abandon_spec; [done|by intros [|[|]]|done]. }
  apply wp_bind. apply (wp_mono _ (λ _ r', inv_except E r' ∧
    (spares ref (beforeStartup conc) → spares ref (beforeReturn conc) → runningAt r' ref))).
  { split; [by apply overlap_return|]. intros Hs1 Hs2. eapply Hs2, lives_runningAt; [done|by apply Hat2]. }
  intros _ r4 [Hr4 Hat4]. wp_q u r5 Hq Eu. apply wp_ret. unfold createPost. rewrite <- Href.
  split; [by eapply inv_core|]. split; [done|]. intros. eapply lives_runningAt; [by apply lives_core|by apply Hat4].
Qed.

Lemma CreateService_spec E r spec conc close `{!OverlapOk conc} :
  inv_except E r → nextID r < u64_max →
  wp (CreateService (A := A) spec conc close) (createPost E conc r) r.
Proof.
  intros Hr Hmax. unfold CreateService.
  assert (u64_succ (nextID r) = nextID r + 1) as Hsucc.
  { apply u64_succ_small. destruct (inv_next _ _ Hr). lia. }
  assert (∀ r', inv_except E r' → services (registry r') = services (registry r) →
    untraceable r' (mkRef (node r) (nextID r + 1))) as Hold.
  { intros r' Hr' Hs. eapply unregistered_untraceable; [done|]. intros [h Hh]. rewrite Hs in Hh.
    destruct (inv_registered _ _ Hr _ _ Hh) as (_ & _ & i & Hi & _).
    apply (inv_ids _ _ Hr) in Hi as [_ Hi]. simpl in Hi. lia. }
  wp_get_step. case_bool_decide; [by apply wp_ret; split; [|apply Hold]|].
  destruct (specService spec) as [service|]; [|by apply wp_ret; split; [|apply Hold]].
  do 2 wp_get_step. apply wp_bind. unfold wp at 1.
  set (ref := mkRef (node r) (u64_succ (nextID r))). set (r1 := (set_nextID _ r).1).
  assert (ref = mkRef (node r) (nextID r + 1)) as Href by (unfold ref; by rewrite Hsucc).
  wp_get_step. apply wp_bind. unfold wp at 1. set (i := mkInstance _ _ _ _ _ _ _ _).
  destruct (inv_alloc E r ref i Hr Hmax eq_refl eq_refl ltac:(by intros [|[|]])) as [Hr2 Hfresh].
  fold r1 in Hr2. set (r2 := (allocInstance ref i r1).1) in *.
  apply wp_bind. eapply wp_mono; [apply registryAdd_spec|]. simpl.
  intros err r3 [[Hc Herr]|(-> & Hadd)].
  { destruct err; [|done]. apply wp_ret. assert (inv_except E r3) by (by eapply inv_core).
    split; [done|]. apply Hold; [done|]. by rewrite (sc_services _ _ Hc). }
  assert (inv_except E r3) as Hr3.
  { assert (heap r2 !! ref = Some i) by (simpl; apply lookup_insert_eq).
    assert (services (registry r2) !! ref = None).
    { rewrite <- not_elem_of_dom. intros [h Hh]%elem_of_dom.
      apply (Hold r Hr eq_refl). rewrite <- Href. by exists h. }
    destruct Hadd as (?&?&?&?&?&?&?&?&?&?).
    by apply (inv_register E r2 r3 (mkHandle ref (specName spec)) i). }
  apply wp_bind. unfold wp at 1. set (r4 := (modifyInstance ref _ r3).1).
  assert (inv_except E r4) as Hr4.
  { apply inv_modify; [done|]. destruct Hadd as (?&Hh&Hs&_). rewrite Hh, lookup_insert_eq. intros j [= <-].
    split; simpl; [done| |done]. intros _ _. unfold registered. rewrite Hs.
    simpl. rewrite lookup_insert_eq. by eexists. }
  clearbody r4. apply wp_bind.
  apply (wp_mono _ (λ _ r', inv_except E r')); [by apply preserves_inlineTask|].
  intros [e|] r5 Hr5.
  { wp_q u r6 Hq Eu. apply abandon_spec; [by eapply inv_core|by intros [|[|]]|done]. }
  apply wp_bind. apply (wp_mono _ (λ _ r', inv_except E r')); [by apply overlap_running|].
  intros _ r6 Hr6. by apply create_tail.
Qed.

(** ** Shutdown *)

Lemma finalize_state ref st cause r : state (finalize (A := A) ref st cause r).1 = state r.
Proof.
  destruct (finalized (default nullInstance (heap r !! ref))) eqn:Hf.
  - unfold finalize, mbind, M_bind. simpl. by rewrite Hf.
  - apply (finalize_first ref st cause r Hf).
Qed.

Lemma finalizeAll_spec ev hs E r :
  inv_except E r →
  wp (finalizeAll (A := A) ev hs) (λ _ r', inv_except E r' ∧ state r' = state r) r.
Proof.
  revert r. induction hs as [|h hs IH]; intros r Hr; simpl; [by apply wp_ret|].
  wp_q u r1 Hq Eu. assert (inv_except E r1) as Hr1 by (by eapply inv_core).
  apply wp_bind. unfold wp at 1. set (r2 := (finalize _ _ _ r1).1).
  assert (inv_except E r2) as Hr2.
  { apply finalize_inv; [|done]. case_match; by intros [|[|]]. }
  eapply wp_mono; [by apply IH|]. simpl. intros _ r' [? Hs]. split; [done|].
  unfold r2 in Hs. rewrite finalize_state in Hs. by rewrite Hs, (sc_state _ _ Hq).
Qed.

(** What the other goroutines do during the stop phase. *)
Definition stopPhaseOk (ev : closeEvents (A := A)) : Prop :=
  Preserves (stopPhase ev) ∧
  ∀ r, state r ≠ runtimeRunning → state (stopPhase ev r).1 ≠ runtimeRunning.

(** The node that [Close] leaves: nothing registered, armed or pending. *)
Definition shutDown r : Prop :=
  services (registry r) = ∅ ∧ names (registry r) = ∅ ∧ Timers.timers (timers r) = ∅ ∧
  calls (pending r) = ∅.

Lemma closeRuntime_spec ev E r :
  inv_except E r → state r ≠ runtimeRunning → stopPhaseOk ev →
  wp (closeRuntime ev) (λ _ r', inv_except E r' ∧ shutDown r' ∧ state r' ≠ runtimeRunning) r.
Proof.
  intros Hr Hst [Hph Hphs]. unfold closeRuntime. cbv zeta.
  apply wp_bind. unfold wp at 1. set (r1 := (failPending _ _ r).1).
  assert (inv_except E r1) as Hr1 by (by apply preserves_failPending).
  assert (state r1 ≠ runtimeRunning) as Hst1 by done. clearbody r1. do 2 wp_get_step.
  apply wp_bind. unfold wp at 1. set (hs := snapshot (registry r1)).
  assert (inv_except E (stopPhase ev r1).1) as Hr2 by (by apply Hph).
  assert (state (stopPhase ev r1).1 ≠ runtimeRunning) as Hst2 by (by apply Hphs).
  destruct (stopPhase ev r1) as [r2 phase]. simpl in *.
  apply wp_bind. eapply wp_mono; [by apply finalizeAll_spec|]. simpl. intros _ r3 [Hr3 Hst3].
  do 2 wp_get_step. apply wp_bind. unfold wp at 1. set (r4 := (set_timers _ _ r3).1).
  assert (inv_except E r4) as Hr4 by (by apply inv_set_timers).
  apply wp_bind. unfold wp at 1. set (r5 := (failPending _ _ r4).1).
  assert (inv_except E r5) as Hr5 by (by apply preserves_failPending).
  assert (calls (pending r5) = ∅) as Hp5.
  { simpl. apply map_empty. intros k. apply map_lookup_filter_None. right. intros ? _. done. }
  assert (Timers.timers (timers r5) = ∅) as Ht5 by done.
  assert (state r5 ≠ runtimeRunning) as Hst5 by (change (state r3 ≠ runtimeRunning); congruence).
  clearbody r5. wp_get_step. wp_q u r6 Hq Eu. wp_get_step. apply wp_bind. apply wp_ret.
  pose proof (inv_core _ _ _ Hq Hr5) as [H1 Hnm H2 H3 H4 H5 H6 H7]. destruct Hq.
  split_and!; [|split_and!|]; simpl; try congruence.
  split; simpl; try done.
  - intros name ref. rewrite lookup_empty. split; [done|]. by intros (h & Hh%lookup_empty_Some & _).
  - intros ref i _ _ Hs. congruence.
  - rewrite sc_timers, Ht5. intros ? ?. by rewrite lookup_empty.
  - rewrite sc_pending, Hp5. intros ? ?. by rewrite lookup_empty.
Qed.
End LifecycleInv.
