(* ===== verification/Frames.v ===== *)
(** * What operations leave alone

    Frame facts of the node operations, for any relation between states that the
    primitive updates respect. *)

From stdpp Require Import prelude gmap strings list.
From Stdlib Require Import ZArith Lia Strings.Byte.
From S2P Require Import Prelude Types Metrics Mailbox Registry Pending Timers Tasks ClusterWire Runtime Lifecycle RuntimeInv LifecycleInv.

Local Open Scope Z_scope.

Class Respects {A X} (R : Runtime A → Runtime A → Prop) (m : M A X) : Prop :=
  respects r : R r (m r).1.

Section Generic.
Context {A : Type} {CC : ClusterCodec A} {CT : ClusterTransport} {CL : Clock}.
Context {MP : MapPick ServiceRef Time}.
Context (R : Runtime A → Runtime A → Prop) {HR : PreOrder R}.

#[global] Instance respects_ret {X} (x : X) : Respects R (mret x).
Proof. intros r. reflexivity. Qed.
#[global] Instance respects_get {X} (f : Runtime A → X) : Respects R (get f).
Proof. intros r. reflexivity. Qed.
#[global] Instance respects_bind {X Y} (m : M A X) (k : X → M A Y) :
  Respects R m → (∀ x, Respects R (k x)) → Respects R (m ≫= k).
Proof.
  intros Hm Hk r. specialize (Hm r). unfold mbind, M_bind. destruct (m r) as [r' x].
  etrans; [exact Hm|apply Hk].
Qed.
#[global] Instance respects_when b (m : M A unit) : Respects R m → Respects R (when b m).
Proof. intros. unfold when. destruct b; apply _. Qed.

(** The primitive updates, all but those of the pending calls. *)
Context {Hregistry : ∀ v, Respects R (set_registry v)} {Hheap : ∀ v, Respects R (set_heap v)}
  {Htimers : ∀ t j, Respects R (set_timers t j)} {Htracker : ∀ v, Respects R (set_tracker v)}
  {Hmetrics : ∀ v, Respects R (set_metrics v)} {Hticks : ∀ v, Respects R (set_ticks v)}
  {Hschedule : ∀ ref, Respects R (schedule ref)}.

Lemma respects_now : Respects R now.
Proof. unfold now. apply _. Qed.
#[local] Existing Instance respects_now.
Lemma respects_metric f : Respects R (metric f).
Proof. unfold metric. apply _. Qed.
#[local] Existing Instance respects_metric.
Lemma respects_inc n : Respects R (inc n).
Proof. unfold inc. apply _. Qed.
#[local] Existing Instance respects_inc.
Lemma respects_instanceOf ref : Respects R (instanceOf ref).
Proof. unfold instanceOf. apply _. Qed.
#[local] Existing Instance respects_instanceOf.
Lemma respects_modify ref f : Respects R (modifyInstance ref f).
Proof. unfold modifyInstance. apply _. Qed.
#[local] Existing Instance respects_modify.
Lemma respects_registryGet ref : Respects R (registryGet ref).
Proof. unfold registryGet. do 2 (apply respects_bind; [apply _|]; intros). case_match. apply _. Qed.
#[local] Existing Instance respects_registryGet.
Lemma respects_registryRemove ref : Respects R (registryRemove ref).
Proof. unfold registryRemove. apply _. Qed.
#[local] Existing Instance respects_registryRemove.

Lemma respects_sendLocal e : Respects R (sendLocalEnvelope e).
Proof.
  unfold sendLocalEnvelope, putInstance. apply respects_bind; [apply _|]. intros.
  case_match; [apply _|]. apply respects_bind; [apply _|]. intros [h|]; [|apply _].
  apply respects_bind; [apply _|]. intros. case_match; [apply _|].
  do 2 (apply respects_bind; [apply _|]; intros). repeat case_match.
  all: do 2 (apply respects_bind; [apply _|]; intros); apply _.
Qed.
#[local] Existing Instance respects_sendLocal.

Lemma respects_After t c v : Respects R (After t c v).
Proof.
  unfold After. apply respects_bind; [apply _|]. intros. case_match; [apply _|].
  apply respects_bind; [apply _|]. intros [h|]; [|apply _].
  apply respects_bind; [apply _|]. intros. case_match; [apply _|].
  do 2 (apply respects_bind; [apply _|]; intros). case_match. apply _.
Qed.
#[local] Existing Instance respects_After.

Lemma respects_taskBegin o k c : Respects R (taskBegin o k c).
Proof. unfold taskBegin. do 3 (apply respects_bind; [apply _|]; intros). repeat case_match. apply _. Qed.
Lemma respects_taskFinish i : Respects R (taskFinish i).
Proof. unfold taskFinish. do 2 (apply respects_bind; [apply _|]; intros). repeat case_match; apply _. Qed.
Lemma respects_taskTimeout i : Respects R (taskTimeout i).
Proof. unfold taskTimeout. do 2 (apply respects_bind; [apply _|]; intros). repeat case_match; apply _. Qed.
#[local] Existing Instances respects_taskBegin respects_taskFinish respects_taskTimeout.
Lemma respects_observe phase err : Respects R (observeLifecycleError phase err).
Proof. unfold observeLifecycleError. case_match; apply _. Qed.
#[local] Existing Instance respects_observe.

(** Commands to other nodes, and failing pending calls. *)
Context {Hsend : ∀ n w, wResponse w = false → Respects R (transportSendM n w)}
  {Hfail : ∀ test e, Respects R (failPending test e)}.

Lemma respects_clusterSend e : Respects R (clusterSend e).
Proof.
  unfold clusterSend. apply respects_bind; [apply _|]. intros self. cbv zeta.
  case_match; [|apply _]. apply respects_bind; [by apply Hsend|]. intros []; apply _.
Qed.
#[local] Existing Instance respects_clusterSend.
Lemma respects_sendEnvelope e : Respects R (sendEnvelope e).
Proof.
  unfold sendEnvelope. apply respects_bind; [apply _|]. intros. case_match; [apply _|].
  do 2 (apply respects_bind; [apply _|]; intros). repeat case_match; apply _.
Qed.
#[local] Existing Instance respects_sendEnvelope.
Lemma respects_sendFrom s t c v : Respects R (sendFrom s t c v).
Proof.
  unfold sendFrom. cbv zeta. case_match; [|apply _]. apply respects_bind; [apply _|].
  intros [|]; [|apply _]. apply respects_bind; [apply _|]. intros. case_match; apply _.
Qed.
#[local] Existing Instance respects_sendFrom.
Lemma respects_serviceCtx self op : Respects R (serviceCtx self op).
Proof. destruct op; unfold serviceCtx; apply _. Qed.
#[local] Existing Instance respects_serviceCtx.
Lemma respects_runService self p : Respects R (runService self p).
Proof. induction p as [o|op k IH]; simpl; apply _. Qed.
#[local] Existing Instance respects_runService.
Lemma respects_runClose ref run : Respects R (runClose ref run).
Proof. unfold runClose. do 2 (apply respects_bind; [apply _|]; intros). case_match; apply _. Qed.
#[local] Existing Instance respects_runClose.
Lemma respects_finalize ref st cause : Respects R (finalize ref st cause).
Proof.
  unfold finalize, putInstance. apply respects_bind; [apply _|]. intros. case_match; [apply _|].
  apply respects_bind; [apply _|]. intros. case_match. apply _.
Qed.
#[local] Existing Instance respects_finalize.
Lemma respects_closeAfterFailure ref c : Respects R (closeAfterFailure ref c).
Proof. unfold closeAfterFailure. apply _. Qed.
End Generic.
