(* ===== verification/Demo.v ===== *)
(** * A small node for the examples

    Concrete instances of the interfaces of a node (payload codec, transport,
    clock, map iteration) and a node with one silent service, on which the
    examples of the theorems are evaluated. *)

From stdpp Require Import prelude gmap strings list.
From Stdlib Require Import ZArith.
From S2P Require Import Prelude Types Registry Runtime Lifecycle.

Local Open Scope Z_scope.

Definition demoCodec : ClusterCodec unit :=
  {| Encode _ _ _ := Ok []; Decode _ _ _ := Ok AnyNil |}.
Definition demoTransport : ClusterTransport := {| transportSend _ _ _ := true |}.
Definition demoClock : Clock := {| reading n := Z.of_nat n |}.
Definition demoPick : MapPick ServiceRef Time := headPick.
#[local] Existing Instances demoCodec demoTransport demoClock demoPick.

Definition demoConfig : Config := mkConfig "game" 2 8 4 0 0 0 0.
Definition demoSpec : ServiceSpec (A := unit) :=
  mkSpec "lobby" (Some (mkService None (Ret (Returned None)))) (mkPolicy 0 0 0 DrainMailbox).
Definition demoCreated : Runtime unit :=
  (CreateService demoSpec noOverlap (CloseDone (Ret (Returned None))) (NewRuntime demoConfig true)).1.
Definition demoRef : ServiceRef := mkRef "game" 1.
