(* ===== verification/LifecycleFacts.v ===== *)
(** * Properties of a node: lifecycle *)

From stdpp Require Import prelude gmap strings list.
From Stdlib Require Import ZArith Lia Strings.Byte.
From S2P Require Import Prelude Types Metrics Mailbox Registry Pending Timers Tasks ClusterWire Runtime Lifecycle RuntimeInv LifecycleInv Demo.

Local Open Scope Z_scope.

Section Steps.
Context {A : Type} {CC : ClusterCodec A} {CT : ClusterTransport} {CL : Clock}.
Context {MP : MapPick ServiceRef Time}.
Local Abbreviation Runtime := (Runtime A) (only parsing).
Implicit Types r : Runtime.

(** ** Everything that can happen to a node

    API calls, timer callbacks, transport events and worker batches, in any
    order.  Application code is arbitrary; activity that overlaps a blocking
    operation is arbitrary as long as it is itself made of such operations, that
    is, preserves the invariant. *)
Inductive node_step r : Runtime → Prop :=
| ns_send t c v : node_step r (Send t c v r).1
| ns_sendFrom s t c v : node_step r (sendFrom s t c v r).1
| ns_after t c v : node_step r (After t c v r).1
| ns_cancel id : node_step r (Cancel id r).1
| ns_timer id : node_step r (timerFires id r).1
| ns_call t c v : node_step r (Call t c v r).1
| ns_callFrom s p overlap t c v :
    Preserves overlap → node_step r (callFromServiceBegin s p overlap t c v r).1
| ns_resolveRemote n name : node_step r (ResolveRemoteBegin n name r).1
| ns_wait ch p c : node_step r (callWait ch p c r).1
| ns_callEnd t s v e : node_step r (callEnd t s v e r).1
| ns_receive p w : node_step r (receive p w r).1
| ns_unavailable p : node_step r (unavailable p r).1
| ns_create spec conc close :
    nextID r < u64_max → OverlapOk conc → node_step r (CreateService spec conc close r).1
| ns_stop ref q : node_step r (Stop ref q r).1
| ns_stopCanceled ref cause : node_step r (stopCanceled ref cause r).1
| ns_stopTimedOut ref : node_step r (stopTimedOut ref r).1
| ns_process n ref app : Preserves (meanwhile app) → node_step r (process n ref app r).1
| ns_close ev : stopPhaseOk ev → node_step r (Close ev r).1.

Lemma Close_spec ev E r :
  inv_except E r → stopPhaseOk ev →
  wp (Close ev) (λ res r', inv_except E r' ∧
    match res with
    | Some _ => shutDown r' ∧ state r' = runtimeClosed
    | None => state r ≠ runtimeRunning ∧ r' = r
    end) r.
Proof.
  intros Hr Hev. unfold Close. wp_get_step. case_bool_decide as Hst; [by apply wp_ret|].
  apply wp_bind. unfold wp at 1. set (r1 := (set_state runtimeClosing r).1).
  assert (inv_except E r1) as Hr1.
  { destruct Hr as [H1 Hnm H2 H3 H4 H5 H6 H7]. by split. }
  apply wp_bind. eapply wp_mono; [by apply (closeRuntime_spec ev E r1)|].
  intros res r2 (Hr2 & Hd & _). apply wp_bind. unfold wp at 1.
  set (r3 := (set_state runtimeClosed r2).1). apply wp_ret. split; [|done].
  destruct Hr2 as [H1 Hnm H2 H3 H4 H5 H6 H7]. by split.
Qed.

Lemma step_inv r r' : node_step r r' → runtime_inv r → runtime_inv r'.
Proof.
  unfold runtime_inv. intros [] Hr; try (by apply preserves).
  - by apply (CreateService_spec ∅ r spec conc close).
  - by apply preserves_process.
  - by apply (Close_spec ev ∅ r).
Qed.

Lemma new_inv cfg cl : runtime_inv (NewRuntime (A := A) cfg cl).
Proof.
  split; simpl; [| |intros *; by rewrite lookup_empty..|by split].
  - intros *. by rewrite lookup_empty.
  - intros name ref. rewrite lookup_empty. split; [done|]. by intros (h & Hh%lookup_empty_Some & _).
Qed.

Definition node_reachable r : Prop := ∃ cfg cl, rtc node_step (NewRuntime cfg cl) r.

Lemma reachable_inv r : node_reachable r → runtime_inv r.
Proof.
  intros (cfg & cl & Hs). pose proof (new_inv cfg cl) as Hi. induction Hs; eauto using step_inv.
Qed.

Lemma registryGet_Err r ref :
  ¬ registered r ref →
  ∃ e, (registryGet (A := A) ref r).2 = Err e ∧ (e = ErrServiceClosed ∨ e = ErrServiceNotFound).
Proof.
  intros Hn. unfold registryGet, mbind, M_bind; simpl.
  destruct (services (registry r) !! ref) eqn:E; [by destruct Hn; eexists|].
  case_match; eauto.
Qed.

Definition goneError (e : error rtError) : Prop :=
  e = toError ErrServiceClosed ∨ e = toError ErrServiceNotFound ∨ e = toError ErrRuntimeClosed.

Lemma sendLocal_gone r e :
  ¬ registered r (Target e) → goneError (sendLocalEnvelope (A := A) e r).2.
Proof.
  intros Hn. change (wp (sendLocalEnvelope e) (λ err _, goneError err) r).
  unfold sendLocalEnvelope. wp_get_step. case_bool_decide; [apply wp_ret; by right; right|].
  destruct (registryGet_Err r (Target e) Hn) as (err & He & Hor).
  apply wp_bind. unfold wp at 1. rewrite He. apply wp_ret.
  destruct Hor as [-> | ->]; [by left|by right; left].
Qed.

Lemma After_gone r ref c v :
  ¬ registered r ref → ∃ e, (After (A := A) ref c v r).2 = Err e ∧ goneError (Some e).
Proof.
  intros Hn. change (wp (After ref c v) (λ x _, ∃ e, x = Err e ∧ goneError (Some e)) r).
  unfold After. wp_get_step.
  case_bool_decide; [apply wp_ret; eexists; split; [done|by right; right]|].
  destruct (registryGet_Err r ref Hn) as (err & He & Hor).
  apply wp_bind. unfold wp at 1. rewrite He. apply wp_ret. eexists; split; [done|].
  destruct Hor as [-> | ->]; [by left|by right; left].
Qed.
End Steps.

(** ** Properties *)

(** C2. Finalization is complete.  In every reachable state of a node, whatever
    sequence of API calls, timer callbacks, peer messages, application code,
    stops, timeouts and shutdowns led there, a service that was finalized holds
    nothing: its mailbox is closed and empty, no timer targets it, no call waits
    for it, and neither a message nor a timer can be addressed to it any more.
    (Calls it made itself are failed by its finalization; one whose check came
    before the finalization may still be created after it, see
    [callFromServiceBegin].) *)
Theorem finalized_holds_nothing {A} {CC : ClusterCodec A} {CT : ClusterTransport} {CL : Clock}
    {MP : MapPick ServiceRef Time} (r : Runtime A) ref i
    (Hreach : node_reachable r) (Hi : heap r !! ref = Some i) (Hfin : finalized i = true) :
  Mailbox.closed (box i) = true ∧ items (box i) = [] ∧
  (∀ id, Timers.timers (timers r) !! id ≠ Some ref) ∧
  (∀ session c, calls (pending r) !! session = Some c → ctarget c ≠ ref) ∧
  (∀ e, Target e = ref → goneError (sendLocalEnvelope e r).2) ∧
  (∀ c v, ∃ e, (After ref c v r).2 = Err e ∧ goneError (Some e)).
Proof.
  pose proof (reachable_inv r Hreach) as Hr.
  pose proof (finalized_unregistered ∅ r ref i Hr Hi Hfin) as Hn.
  destruct (inv_final _ _ Hr _ _ Hi Hfin) as (? & ? & _). split_and!; try done.
  - intros id Hid. apply Hn. by apply (inv_timer _ _ Hr id ref).
  - intros session c Hc <-. apply Hn, (inv_pending _ _ Hr session c Hc); [set_solver|].
    destruct (inv_ids _ _ Hr _ _ Hi). split; [done|lia].
  - intros e <-. by apply sendLocal_gone.
  - intros c v. by apply After_gone.
Qed.

#[local] Existing Instances demoCodec demoTransport demoClock demoPick.

Lemma demoCreated_reachable : node_reachable demoCreated.
Proof.
  exists demoConfig, true. apply rtc_once. apply ns_create; [done|apply _].
Qed.

Example finalized_holds_nothing_witness :
  let r := (stopTimedOut demoRef demoCreated).1 in
  (∀ id, Timers.timers (timers r) !! id ≠ Some demoRef) ∧
  ∀ c v, ∃ e, (After demoRef c v r).2 = Err e ∧ goneError (Some e).
Proof.
  set (r := (stopTimedOut demoRef demoCreated).1).
  destruct (heap r !! demoRef) as [i|] eqn:Hi; [|vm_compute in Hi; discriminate].
  assert (finalized i = true) as Hf by (vm_compute in Hi; injection Hi as <-; reflexivity).
  assert (node_reachable r) as Hreach.
  { destruct demoCreated_reachable as (cfg & cl & H). exists cfg, cl.
    eapply rtc_r; [exact H|]. apply ns_stopTimedOut. }
  destruct (finalized_holds_nothing r demoRef i Hreach Hi Hf) as (_ & _ & H1 & _ & _ & H2).
  split; [exact H1|exact H2].
Defined.

(** C5. Shutdown is complete.  Whoever closes a running reachable node first
    leaves it closed with no registered service or name, no armed timer and no
    pending call, whatever the services, runners and the transport did meanwhile
    and whether or not the shutdown ran out of time; afterwards no message is
    sent, no timer armed, no call started and no service created. *)
Theorem close_shuts_down {A} {CC : ClusterCodec A} {CT : ClusterTransport} {CL : Clock}
    {MP : MapPick ServiceRef Time} (r : Runtime A) (ev : closeEvents)
    (Hreach : node_reachable r) (Hrun : state r = runtimeRunning) (Hev : stopPhaseOk ev) :
  let r' := (Close ev r).1 in
  is_Some (Close ev r).2 ∧ state r' = runtimeClosed ∧ shutDown r' ∧ node_reachable r' ∧
  (∀ t c v, Send t c v r' = (r', toError ErrRuntimeClosed)) ∧
  (∀ t c v, After t c v r' = (r', Err (Sentinel ErrRuntimeClosed))) ∧
  (∀ t c v, (Call t c v r').2 = Err (Sentinel ErrRuntimeClosed)) ∧
  (∀ spec conc close, CreateService spec conc close r' = (r', Err (Sentinel ErrRuntimeClosed))).
Proof.
  intros r'. pose proof (Close_spec ev ∅ r (reachable_inv r Hreach) Hev) as [_ H].
  fold r' in H. destruct (Close ev r).2 as [res|] eqn:E; [|destruct H; congruence].
  destruct H as [Hd Hs]. split_and!; try done.
  - destruct Hreach as (cfg & cl & Hr). exists cfg, cl. eapply rtc_r; [exact Hr|]. by apply ns_close.
  - intros. unfold Send, sendEnvelope, mbind, M_bind. simpl. by rewrite Hs.
  - intros. unfold After, mbind, M_bind. simpl. by rewrite Hs.
  - intros. unfold Call, callBegin, mbind, M_bind. simpl. rewrite Hs. simpl.
    by destruct (observeRemoteCall _ _ _).
  - intros. unfold CreateService, mbind, M_bind. simpl. by rewrite Hs.
Qed.

(** Every service stopped in time, without errors. *)
Definition demoClose : closeEvents (A := unit) :=
  mkCloseEvents None None None true (mret (Some [None])) false false false (Sentinel ErrCloseTimeout).

Example close_shuts_down_witness :
  registered demoCreated demoRef ∧ shutDown (Close demoClose demoCreated).1.
Proof.
  split; [vm_compute; eexists; reflexivity|].
  apply (close_shuts_down demoCreated demoClose); [exact demoCreated_reachable|reflexivity|].
  split; [apply _|done].
Defined.


(** C6. Creation is all or nothing.  [CreateService] on a reachable node either
    returns a reference that no service had before, or returns an error and
    leaves no trace of the attempt: nothing is registered under the reference, no
    name stands for it and no timer targets it, whatever [Init], [Close] and the
    startup command did and whatever the rest of the node did meanwhile (a
    shutdown included).  A service it returns is running and registered, and its
    name resolves to it, unless another goroutine stopped it between its becoming
    [Running] and the return. *)
Theorem create_service_atomic {A} {CC : ClusterCodec A} {CT : ClusterTransport} {CL : Clock}
    {MP : MapPick ServiceRef Time} (r : Runtime A) (spec : ServiceSpec) (conc : createOverlap)
    (close : closeRun)
    (Hreach : node_reachable r) (Hmax : nextID r < u64_max) (Hconc : OverlapOk conc) :
  let ref := mkRef (node r) (nextID r + 1) in
  let '(r', x) := CreateService spec conc close r in
  heap r !! ref = None ∧
  match x with
  | Ok ref' => ref' = ref ∧
      (spares ref (beforeStartup conc) → spares ref (beforeReturn conc) → runningAt r' ref)
  | Err _ => untraceable r' ref
  end.
Proof.
  pose proof (reachable_inv r Hreach) as Hr.
  pose proof (CreateService_spec ∅ r spec conc close Hr Hmax) as H. unfold wp in H.
  destruct (CreateService spec conc close r) as [r' x]. destruct H as [_ H]. simpl in *.
  split; [|done].
  destruct (heap r !! _) eqn:Hi; [|done]. apply (inv_ids _ _ Hr) in Hi as [_ Hi]. simpl in Hi. lia.
Qed.

(** A service whose [Init] panics and whose [Close] hangs. *)
Definition demoBroken : ServiceSpec (A := unit) :=
  mkSpec "broken" (Some (mkService None (Ret (Panicked "boom")))) (mkPolicy 0 0 0 DrainMailbox).

Definition demoSecond : ServiceSpec (A := unit) :=
  mkSpec "second" (Some (mkService None (Ret (Returned None)))) (mkPolicy 0 0 0 DrainMailbox).

(** The broken service leaves no trace; the second one runs. *)
Example create_service_atomic_witness :
  let ref := mkRef "game" 2 in
  let broken := CreateService demoBroken noOverlap (CloseTimedOut (Ret (Returned None))) demoCreated in
  let second := CreateService demoSecond noOverlap (CloseDone (Ret (Returned None))) demoCreated in
  untraceable broken.1 ref ∧ second.2 = Ok ref ∧ runningAt second.1 ref.
Proof.
  intros ref broken second.
  pose proof (create_service_atomic demoCreated demoBroken noOverlap
    (CloseTimedOut (Ret (Returned None))) demoCreated_reachable eq_refl noOverlap_ok) as Hb.
  pose proof (create_service_atomic demoCreated demoSecond noOverlap
    (CloseDone (Ret (Returned None))) demoCreated_reachable eq_refl noOverlap_ok) as Hs.
  fold broken in Hb. fold second in Hs. cbv zeta in Hb, Hs.
  change (mkRef (node demoCreated) (nextID demoCreated + 1)) with ref in *.
  assert ((if broken.2 is Ok _ then false else true) = true) as Eb by (vm_compute; done).
  assert ((if second.2 is Ok _ then true else false) = true) as Es by (vm_compute; done).
  destruct broken as [rb xb], second as [rs xs]. simpl in *.
  destruct xb; [done|]. destruct xs; [|done]. destruct Hb as [_ Hb], Hs as [_ [-> Hs]].
  split_and!; [done|done|]. apply Hs; intros r Hr; exact Hr.
Defined.

(** A call that passed its check before its source was finalized is created after
    it: the failure of the source's calls has already happened, so nothing but
    the reply or the caller's context ends the wait. *)
Example late_call_of_finalized :
  let r0 := (CreateService demoSecond noOverlap (CloseDone (Ret (Returned None))) demoCreated).1 in
  let overlap := _ ← stopTimedOut demoRef; mret tt in
  let r := (callFromServiceBegin demoRef true overlap (mkRef "game" 2) 7 AnyNil r0).1 in
  (finalized <$> heap r !! demoRef) = Some true ∧
  (csource <$> calls (pending r) !! 1) = Some demoRef.
Proof. by vm_compute. Qed.
