(* ===== verification/CallFacts.v ===== *)
(** * Properties of a node: calls, replies and cluster traffic *)

From stdpp Require Import prelude gmap strings list.
From Stdlib Require Import ZArith Lia Strings.Byte.
From S2P Require Import Prelude Types Metrics Mailbox Registry Pending Timers Tasks Bytes ClusterWire Runtime Lifecycle RuntimeInv LifecycleInv Frames Demo.

Local Open Scope Z_scope.

Section Calls.
Context {A : Type} {CC : ClusterCodec A} {CT : ClusterTransport} {CL : Clock}.
Context {MP : MapPick ServiceRef Time}.
Implicit Types r : Runtime A.

(** ** Operations that leave calls and their results alone *)

Definition calm r r' : Prop := node r' = node r ∧ pending r' = pending r ∧ chans r' = chans r.

#[global] Instance calm_pre : PreOrder calm.
Proof. split; [by intros r|]. intros a b c (?&?&?) (?&?&?). split_and!; congruence. Qed.
#[global] Instance calm_registry v : Respects calm (set_registry (A := A) v).
Proof. by intros r. Qed.
#[global] Instance calm_heap v : Respects calm (set_heap (A := A) v).
Proof. by intros r. Qed.
#[global] Instance calm_timers t j : Respects calm (set_timers (A := A) t j).
Proof. by intros r. Qed.
#[global] Instance calm_tracker v : Respects calm (set_tracker (A := A) v).
Proof. by intros r. Qed.
#[global] Instance calm_metrics v : Respects calm (set_metrics (A := A) v).
Proof. by intros r. Qed.
#[global] Instance calm_ticks v : Respects calm (set_ticks (A := A) v).
Proof. by intros r. Qed.
#[global] Instance calm_schedule ref : Respects calm (schedule (A := A) ref).
Proof. by intros r. Qed.
#[global] Instance calm_transport n w : Respects calm (transportSendM (A := A) n w).
Proof. by intros r. Qed.
#[global] Instance calm_metric n : Respects calm (metric (A := A) n).
Proof. apply (respects_metric calm). Qed.
#[global] Instance calm_now : Respects calm (now (A := A)).
Proof. apply (respects_now calm). Qed.

(** The call is over and [res] waits on its result channel. *)
Definition deliveredTo (session : SessionID) (ch : nat) (res : callResult A) r : Prop :=
  calls (pending r) !! session = None ∧ chans r !! ch = Some [res].

(** No result that waits on a channel gets lost or replaced. *)
Definition keeps r r' : Prop :=
  ∀ session ch res, deliveredTo session ch res r → deliveredTo session ch res r'.

Lemma calm_keeps r r' : calm r r' → keeps r r'.
Proof. intros (_ & Hp & Hc) session ch res. unfold deliveredTo. by rewrite Hp, Hc. Qed.

#[global] Instance keeps_pre : PreOrder keeps.
Proof. split; [by intros r session ch res|]. intros a b c H1 H2 session ch res ?. by apply H2, H1. Qed.
#[global] Instance keeps_calm {X} (m : M A X) : Respects calm m → Respects keeps m.
Proof. intros H r. apply calm_keeps, H. Qed.

Lemma deliver_full (failed : list pendingCall) chs ch (res e : callResult A) :
  chs !! ch = Some [res] → foldl (λ chs c, deliverTo chs e c) chs failed !! ch = Some [res].
Proof.
  revert chs. induction failed as [|c failed IH]; intros chs Hc; simpl; [done|].
  apply IH. unfold deliverTo, sendResult. destruct (decide (chan c = ch)) as [<-|Hne]; [by rewrite Hc|].
  repeat case_match; simpl; by rewrite ?lookup_insert_ne.
Qed.
#[global] Instance keeps_fail test e : Respects keeps (failPending (A := A) test e).
Proof.
  intros r session ch res [Hn Hc]. split; simpl; [|by apply deliver_full].
  apply map_lookup_filter_None. by left.
Qed.

(** ** The session a handler has to answer *)


Section Session.
Context (self caller : ServiceRef) (command : CommandID) (session : SessionID) (ch : nat).







End Session.




(** ** How many replies a node sends *)

Definition responses r : list (NodeID * WireEnvelope) :=
  filter (λ m, wResponse m.2 = true) (outbox r).

Definition mute r r' : Prop := responses r' = responses r.

#[global] Instance mute_pre : PreOrder mute.
Proof. split; [by intros r|]. intros a b c ? ?. unfold mute in *. congruence. Qed.
#[global] Instance mute_registry v : Respects mute (set_registry (A := A) v).
Proof. by intros r. Qed.
#[global] Instance mute_heap v : Respects mute (set_heap (A := A) v).
Proof. by intros r. Qed.
#[global] Instance mute_timers t j : Respects mute (set_timers (A := A) t j).
Proof. by intros r. Qed.
#[global] Instance mute_tracker v : Respects mute (set_tracker (A := A) v).
Proof. by intros r. Qed.
#[global] Instance mute_metrics v : Respects mute (set_metrics (A := A) v).
Proof. by intros r. Qed.
#[global] Instance mute_ticks v : Respects mute (set_ticks (A := A) v).
Proof. by intros r. Qed.
#[global] Instance mute_schedule ref : Respects mute (schedule (A := A) ref).
Proof. by intros r. Qed.
#[global] Instance mute_fail test e : Respects mute (failPending (A := A) test e).
Proof. by intros r. Qed.
#[global] Instance mute_complete a b c d v : Respects mute (pendingComplete (A := A) a b c d v).
Proof.
  intros r. change (wp (pendingComplete a b c d v) (λ _ r', mute r r') r). unfold pendingComplete.
  apply wp_bind. unfold pendingTake. do 3 wp_get_step. destruct (Pending.take _ _ _ _ _) as [p [call|]];
    apply wp_bind, wp_ret; [apply wp_bind|]; by apply wp_ret.
Qed.

Lemma transport_responses n w r :
  responses (transportSendM (A := A) n w r).1 =
    responses r ++ (if wResponse w then [(n, w)] else []).
Proof.
  unfold responses. simpl. rewrite filter_app. f_equal. unfold filter; simpl.
  destruct (wResponse w); [by rewrite decide_True by done|by rewrite decide_False by done].
Qed.

#[global] Instance mute_command n w : wResponse w = false → Respects mute (transportSendM (A := A) n w).
Proof. intros Hw r. unfold mute. by rewrite transport_responses, Hw, app_nil_r. Qed.

#[global] Instance mute_inc n : Respects mute (inc (A := A) n).
Proof. apply (respects_inc mute). Qed.
#[global] Instance mute_metric n : Respects mute (metric (A := A) n).
Proof. apply (respects_metric mute). Qed.
#[global] Instance mute_now : Respects mute (now (A := A)).
Proof. apply (respects_now mute). Qed.
#[global] Instance mute_modify ref f : Respects mute (modifyInstance (A := A) ref f).
Proof. apply (respects_modify mute). Qed.
#[global] Instance mute_serviceCtx self op : Respects mute (serviceCtx (A := A) self op).
Proof. apply (respects_serviceCtx mute). Qed.
#[global] Instance mute_failure ref c : Respects mute (closeAfterFailure (A := A) ref c).
Proof. apply (respects_closeAfterFailure mute). Qed.

(** At most one more reply. *)
Definition oneMore r r' : Prop := (length (responses r') ≤ length (responses r) + 1)%nat.

Lemma mute_oneMore r r' r'' : mute r r' → oneMore r' r'' → oneMore r r''.
Proof. unfold mute, oneMore. congruence. Qed.
Lemma oneMore_mute r r' r'' : oneMore r r' → mute r' r'' → oneMore r r''.
Proof. unfold mute, oneMore. intros ? ->. done. Qed.
Lemma mute_one r r' : mute r r' → oneMore r r'.
Proof. unfold mute, oneMore. intros ->. lia. Qed.

Lemma reply_one a b c d v e r : oneMore r (reply (A := A) a b c d v e r).1.
Proof.
  change (wp (reply a b c d v e) (λ _ r', oneMore r r') r). unfold reply. do 2 wp_get_step.
  case_match.
  - case_match; [by apply wp_ret, mute_one|]. unfold clusterReply. wp_get_step.
    apply wp_bind. apply (wp_mono _ (λ _ r', mute r r')).
    { repeat case_match; try by apply wp_ret. all: apply wp_bind; unfold wp at 1; apply wp_ret; apply mute_inc. }
    intros [[payload [code msg]] err] r1 Hm. apply wp_bind. unfold wp at 1.
    set (w := mkWire _ _ _ _ _ _ _ _ _).
    assert (oneMore r (transportSendM (Node b) w r1).1) as H1.
    { eapply mute_oneMore; [exact Hm|]. unfold oneMore. rewrite transport_responses. simpl.
      rewrite length_app. simpl. lia. }
    destruct (transportSendM (Node b) w r1) as [r2 []]; simpl in *; apply wp_bind; unfold wp at 1;
      apply wp_ret; (eapply oneMore_mute; [exact H1|apply mute_inc]).
  - apply wp_bind. unfold wp at 1. pose proof (mute_complete b a c d (mkResult v e) r) as Hm.
    destruct (pendingComplete _ _ _ _ _ r) as [r1 []]; simpl in *; [by apply wp_ret, mute_one|].
    apply wp_bind. unfold wp at 1. apply wp_ret. apply mute_one. etrans; [exact Hm|apply mute_inc].
Qed.

Lemma runCommand_one p c r :
  wp (runCommand (A := A) c p) (λ x r',
    if replied c then replied x.1 = true ∧ mute r r'
    else oneMore r r' ∧ (replied x.1 = false → mute r r')) r.
Proof.
  revert c r. induction p as [o|[v|op] k IH]; intros c r; simpl.
  - apply wp_ret. simpl. destruct (replied c); [done|]. split; [by apply mute_one|done].
  - apply wp_bind. unfold Reply. case_match; [by apply wp_ret, IH|].
    destruct (replied c) eqn:Er.
    { apply wp_ret. specialize (IH (SErr (toError ErrReplyTwice)) c r). by rewrite Er in IH. }
    apply wp_bind. unfold wp at 1. apply wp_ret.
    eapply wp_mono; [apply IH|]. simpl. intros x r' [Hr Hm]. split; [|congruence].
    eapply oneMore_mute; [apply reply_one|exact Hm].
  - apply wp_bind. unfold wp at 1. pose proof (mute_serviceCtx (ctxSelf c) op r) as Hm.
    eapply wp_mono; [apply IH|]. simpl. intros x r'. destruct (replied c).
    + intros [? ?]. split; [done|by etrans].
    + intros [? Hx]. split; [by eapply mute_oneMore|]. intros ?%Hx. by etrans.
Qed.

Lemma replyFailure_one c e r :
  wp (replyFailure (A := A) c e) (λ _ r', oneMore r r' ∧ (replied c = true → mute r r')) r.
Proof.
  unfold replyFailure, when. destruct (_ && _) eqn:E.
  - apply andb_true_iff in E as [_ E]. bool_prop. apply wp_bind. unfold wp at 1. apply wp_ret.
    split; [apply reply_one|congruence].
  - apply wp_ret. split; [by apply mute_one|done].
Qed.

Lemma executeEnvelope_one ref e h close r : oneMore r (executeEnvelope (A := A) ref e h close r).1.
Proof.
  change (wp (executeEnvelope ref e h close) (λ _ r', oneMore r r') r). unfold executeEnvelope.
  apply wp_bind. unfold wp at 1. apply wp_bind. unfold wp at 1.
  set (r1 := (modifyInstance _ _ _).1).
  assert (mute r r1) as H1 by (etrans; [apply mute_now|apply mute_modify]). clearbody r1.
  apply wp_bind. eapply wp_mono; [apply runCommand_one|]. simpl. intros [c o] r2 [H2 H2'].
  apply wp_bind.
  apply (wp_mono _ (λ _ r', oneMore r1 r' ∧ ((∀ err, o ≠ Returned (Some err)) → replied c = false → mute r1 r'))).
  { destruct o as [[err|]|text]; [|by apply wp_ret|by apply wp_ret].
    apply wp_bind. unfold wp at 1. eapply wp_mono; [apply replyFailure_one|]. simpl.
    intros _ r3 [H3 H3']. split; [|intros Hn; by destruct (Hn err)].
    destruct (replied c) eqn:Er.
    - eapply oneMore_mute; [exact H2|]. etrans; [apply mute_inc|by apply H3'].
    - eapply mute_oneMore; [by apply H2'|]. eapply mute_oneMore; [apply mute_inc|exact H3]. }
  intros _ r3 [H3 H3']. apply wp_bind. unfold wp at 1. apply wp_bind, wp_get.
  do 3 (apply wp_bind; unfold wp at 1).
  match goal with |- wp _ _ ?s => set (r4 := s) end.
  assert (mute r3 r4) as H4 by (unfold r4; repeat (etrans; [|apply respects]); reflexivity).
  clearbody r4. apply wp_bind.
  apply (wp_mono _ (λ _ r', oneMore r1 r')).
  2: { intros _ r5 Ha. unfold wp. eapply mute_oneMore; [exact H1|].
       eapply oneMore_mute; [exact Ha|apply mute_modify]. }
  destruct o as [err|text]; [apply wp_ret; by eapply oneMore_mute|].
  apply wp_bind. unfold wp at 1. set (r5 := (inc _ r4).1). assert (mute r4 r5) as H5 by apply mute_inc.
  clearbody r5. apply wp_bind. eapply wp_mono; [apply replyFailure_one|]. simpl.
  intros _ r6 [H6 H6']. unfold wp. eapply oneMore_mute; [|apply mute_failure].
  destruct (replied c) eqn:Er.
  - eapply oneMore_mute; [exact H3|]. etrans; [exact H4|]. etrans; [exact H5|by apply H6'].
  - eapply mute_oneMore; [by apply H3'|]. eapply mute_oneMore; [exact H4|].
    eapply mute_oneMore; [exact H5|exact H6].
Qed.
End Calls.

(** ** Properties *)


#[local] Existing Instances demoCodec demoTransport demoClock demoPick.

(** A call to the demo service, and the envelope it left in its mailbox. *)
Definition demoCalled : Runtime unit := (Call demoRef 7 AnyNil demoCreated).1.


(** A command is answered at most once.  However often its handler tries to
    reply, and even when it then fails or panics, executing one envelope puts at
    most one reply on the network. *)
Theorem reply_at_most_once {A} {CC : ClusterCodec A} {CT : ClusterTransport} {CL : Clock}
    {MP : MapPick ServiceRef Time} (r : Runtime A) ref (e : Envelope A) h close :
  (length (responses (executeEnvelope ref e h close r).1) ≤ length (responses r) + 1)%nat.
Proof. apply executeEnvelope_one. Qed.

(** ** Call cycles *)

Definition effectivePath {A} (source : ServiceRef) (i : serviceInstance A) : list ServiceRef :=
  match callPath i with [] => [source] | p => p end.

(** Synchronous call cycles are refused before they can deadlock.  A service
    that calls a service already on its call path (itself included) gets
    [ErrCallCycle] and nothing changes; otherwise the call is started with the
    path extended by its target, which has no duplicates if the path had none,
    so a chain of nested calls is never longer than the number of services. *)
Theorem call_cycle_refused {A} {CC : ClusterCodec A} {CT : ClusterTransport} {CL : Clock}
    {MP : MapPick ServiceRef Time} (r : Runtime A) source i permit overlap target id v
    (Hi : heap r !! source = Some i) (Hlive : closing i = false)
    (Hrun : status i = ServiceRunning ∨ status i = ServiceStopping)
    (Hnodup : NoDup (effectivePath source i)) :
  (target ∈ effectivePath source i →
     callFromServiceBegin source permit overlap target id v r = (r, Err (Sentinel ErrCallCycle))) ∧
  (target ∉ effectivePath source i →
     NoDup (effectivePath source i ++ [target]) ∧
     callFromServiceBegin source true overlap target id v r =
       callBegin source target id v (effectivePath source i ++ [target]) (overlap r).1).
Proof.
  assert (bool_decide (status i ≠ ServiceRunning) && bool_decide (status i ≠ ServiceStopping) = false)
    as Hst.
  { destruct Hrun as [-> | ->]; done. }
  unfold callFromServiceBegin, mbind, M_bind. simpl. rewrite Hi. simpl. rewrite Hlive, Hst. cbv zeta.
  fold (effectivePath source i). split; intros Ht.
  - by rewrite bool_decide_true.
  - rewrite bool_decide_false by done. split; [|simpl; by destruct (overlap r)].
    apply NoDup_app. split_and!; [done|set_solver|apply NoDup_singleton].
Qed.

Example call_cycle_refused_witness :
  (callFromServiceBegin demoRef true (mret tt) demoRef 7 AnyNil demoCreated).2 = Err (Sentinel ErrCallCycle).
Proof.
  destruct (heap demoCreated !! demoRef) as [i|] eqn:Hi; [|vm_compute in Hi; discriminate].
  assert (closing i = false ∧ status i = ServiceRunning ∧ callPath i = []) as (H1 & H2 & H3).
  { vm_compute in Hi. injection Hi as <-. done. }
  destruct (call_cycle_refused demoCreated demoRef i true (mret tt) demoRef 7 AnyNil Hi H1 (or_introl H2)) as [H _].
  - unfold effectivePath. rewrite H3. apply NoDup_singleton.
  - rewrite H; [done|]. unfold effectivePath. rewrite H3. by apply list_elem_of_singleton.
Defined.

(** ** Cluster traffic *)

(** An envelope as the operations of this node build it: from a service of the
    node or the node itself, with the call path of a call, or none. *)
Definition wellFormed {A} (self : NodeID) (e : Envelope A) : Prop :=
  (Source e = zeroRef ∨ Node (Source e) = self) ∧
  (Session e = 0 → CallPath e = []) ∧
  (Session e ≠ 0 → pathEndsAt (CallPath e) (Target e) = true).

Lemma core_name_len {A} (v : any A) p :
  encodeCoreResolveName v = Ok p → len p ≤ maxCoreServiceNameLength.
Proof.
  destruct v; simpl; try done. destruct (_ <? _) eqn:E; [done|]. intros [= <-]. bool_prop. exact E.
Qed.

(** Nodes understand each other's commands: whenever a running node accepts
    an envelope for another node, the one wire envelope it hands to the transport
    is addressed to that node, carries the session, command and call path of the
    envelope, and passes the validation the receiving node applies to it. *)
Theorem cluster_send_validates {A} {CC : ClusterCodec A} {CT : ClusterTransport} {CL : Clock}
    {MP : MapPick ServiceRef Time} (r : Runtime A) (e : Envelope A)
    (Hself : node r ≠ "") (Hwf : wellFormed (node r) e)
    (Hremote : Node (Target e) ≠ node r) (Hsent : (sendEnvelope e r).2 = None) :
  ∃ wire, outbox (sendEnvelope e r).1 = outbox r ++ [(Node (Target e), wire)] ∧
    validate (Node (Target e)) runtimeRunning (node r) wire = None ∧
    wTarget wire = Target e ∧ wSession wire = Session e ∧ wCommand wire = Command e ∧
    wCallPath wire = CallPath e ∧ Node (wSource wire) = node r.
Proof.
  revert Hsent. change (wp (sendEnvelope e) (λ err r', err = None → ∃ wire,
    outbox r' = outbox r ++ [(Node (Target e), wire)] ∧
    validate (Node (Target e)) runtimeRunning (node r) wire = None ∧
    wTarget wire = Target e ∧ wSession wire = Session e ∧ wCommand wire = Command e ∧
    wCallPath wire = CallPath e ∧ Node (wSource wire) = node r) r).
  unfold sendEnvelope. wp_get_step. case_bool_decide; [by apply wp_ret|].
  do 2 wp_get_step. rewrite bool_decide_true by done. case_match; [by apply wp_ret|].
  unfold clusterSend. wp_get_step.
  set (source := if bool_decide (Source e = zeroRef) then _ else _).
  assert (Node source = node r) as Hsrc.
  { unfold source. destruct Hwf as [[->|Hn] _]; [done|]. by destruct (bool_decide (Source e = zeroRef)). }
  destruct (if ID (Target e) =? 0 then _ else _) as [payload|e'] eqn:Ep; [|by apply wp_ret].
  set (wire := mkWire _ _ _ _ _ _ _ _ _). apply wp_bind. unfold wp at 1.
  assert (validate (Node (Target e)) runtimeRunning (node r) wire = None) as Hv.
  { destruct Hwf as (_ & Hsend & Hcall). unfold validate. simpl.
    rewrite !(bool_decide_false (node r = "")), Hsrc by done. simpl.
    rewrite !bool_decide_false by (by intros Hx; apply Hx). simpl.
    destruct (ID (Target e) =? 0) eqn:Et.
    - destruct (negb (Command e =? coreResolveNameCommand) || (Session e =? 0) || negb (ID source =? 0))
        eqn:Eg; [done|]. apply orb_false_iff in Eg as [[_ Hs]%orb_false_iff _].
      simpl. apply core_name_len in Ep.
      destruct (maxCoreServiceNameLength <? len payload) eqn:El; bool_prop; [lia|].
      by rewrite Hcall.
    - destruct (Session e =? 0) eqn:Es; bool_prop; [by rewrite Hsend|by rewrite Hcall]. }
  destruct (transportSend (outbox r) (Node (Target e)) wire) eqn:Es.
  - simpl. rewrite Es. apply wp_bind. unfold wp at 1. apply wp_ret. intros _. by exists wire.
  - simpl. rewrite Es. apply wp_bind. unfold wp at 1. by apply wp_ret.
Qed.

Definition demoRemote : Envelope unit :=
  mkEnvelope demoRef (mkRef "battle" 4) 3 7 AnyNil [demoRef; mkRef "battle" 4].

Example cluster_send_validates_witness :
  ∃ wire, outbox (sendEnvelope demoRemote demoCreated).1 = outbox demoCreated ++ [("battle", wire)] ∧
    validate "battle" runtimeRunning "game" wire = None.
Proof.
  destruct (cluster_send_validates demoCreated demoRemote) as (wire & H1 & H2 & _).
  - vm_compute. discriminate.
  - split_and!; [right; vm_compute; reflexivity|discriminate|vm_compute; reflexivity].
  - vm_compute. discriminate.
  - vm_compute. reflexivity.
  - exists wire. split; [exact H1|exact H2].
Defined.

(** What the caller's node makes of a reply. *)
Definition replyMeans {A} {CC : ClusterCodec A} (command : CommandID) (value : any A)
    (err : error rtError) (result : callResult A) : Prop :=
  match err with
  | None =>
      match Encode command true value with
      | Ok _ => result = mkResult value None
      | Err _ => result = mkResult AnyNil (Some (Sentinel ErrPayloadEncode))
      end
  | Some e => ∃ e', result = mkResult AnyNil (Some e') ∧
      ((∃ s, e' = Sentinel s ∧ errors_Is e s = true) ∨ ∃ message, e' = RemoteError "remote" message)
  end.

(** The wire envelope of a reply. *)
Definition replyWire {A} {CC : ClusterCodec A} (responder caller : ServiceRef) (command : CommandID)
    (session : SessionID) (value : any A) (err : error rtError) : WireEnvelope :=
  let failed e := mkWire responder caller session command [] true []
                    (encodeRemoteError e).1 (encodeRemoteError e).2 in
  match err with
  | Some e => failed e
  | None =>
      match Encode command true value with
      | Ok p => mkWire responder caller session command p true [] "" ""
      | Err x => failed (WrapError ErrPayloadEncode x)
      end
  end.

Lemma clusterReply_wire {A} {CC : ClusterCodec A} {CT : ClusterTransport} {CL : Clock}
    (r : Runtime A) responder caller command session value err :
  ID responder ≠ 0 →
  outbox (clusterReply responder caller command session value err r).1 =
    outbox r ++ [(Node caller, replyWire responder caller command session value err)].
Proof.
  intros Hid. change (wp (clusterReply responder caller command session value err)
    (λ _ r', outbox r' = outbox r ++
       [(Node caller, replyWire responder caller command session value err)]) r).
  unfold clusterReply. wp_get_step. destruct (ID responder =? 0) eqn:E; bool_prop; [done|].
  unfold replyWire. destruct err as [e|].
  - apply wp_bind, wp_ret. destruct (encodeRemoteError e) as [code message]. simpl.
    unfold wp, mbind, M_bind. simpl. by destruct (transportSend _ _ _).
  - simpl. destruct (Encode command true value) as [p|x].
    + apply wp_bind, wp_ret. unfold wp, mbind, M_bind. simpl.
      by destruct (transportSend _ _ _).
    + simpl. apply wp_bind, wp_bind. unfold wp at 1. apply wp_ret.
      unfold wp, mbind, M_bind. simpl. by destruct (transportSend _ _ _).
Qed.

Lemma failed_reply_ok {A} {CC : ClusterCodec A} node responder caller session command e :
  node ≠ "" → Node responder = node → ID responder ≠ 0 → session ≠ 0 →
  let wire := mkWire responder caller session command [] true []
                (encodeRemoteError e).1 (encodeRemoteError e).2 in
  validate (Node caller) runtimeRunning node wire = None ∧
  ∃ e', (decodeReply (A := A) wire).1 = mkResult AnyNil (Some e') ∧
    decodeRemoteError (encodeRemoteError e).1 (encodeRemoteError e).2 = e'.
Proof.
  intros Hn Hr Hid Hs wire. pose proof (encodeRemoteError_spec e) as Hspec.
  subst wire. destruct (encodeRemoteError e) as [code message]. simpl in *.
  destruct Hspec as (Hc & _). split.
  - unfold validate. simpl. rewrite Hr, (bool_decide_false (node = "")) by done. simpl.
    rewrite !(bool_decide_false (_ ≠ _)) by (by intros Hx; apply Hx). simpl.
    destruct (session =? 0) eqn:Es; bool_prop; [done|]. simpl.
    rewrite (bool_decide_false (code = "")) by done. simpl.
    rewrite andb_false_r. simpl. destruct (ID responder =? 0) eqn:E; bool_prop; done.
  - unfold decodeReply. simpl. rewrite bool_decide_true by done. by eexists.
Qed.

(** Replies survive the network.  The reply a service sends to a caller on
    another node is one wire envelope addressed to it, which that node accepts,
    and the pending call there completes with what the service meant: the value
    itself if the payload codec round-trips it, the stable error the service
    failed with (or a [RemoteError] for a foreign one), or
    [ErrPayloadEncode] if the value could not be encoded. *)
Theorem cluster_reply_roundtrip {A} {CC : ClusterCodec A} {CT : ClusterTransport} {CL : Clock}
    (r : Runtime A) responder caller command session value err
    (Hself : node r ≠ "") (Hresp : Node responder = node r) (Hid : ID responder ≠ 0)
    (Hsession : session ≠ 0)
    (Hcodec : ∀ p, Encode command true value = Ok p → Decode command true p = Ok value) :
  ∃ wire, outbox (clusterReply responder caller command session value err r).1 =
      outbox r ++ [(Node caller, wire)] ∧
    validate (Node caller) runtimeRunning (node r) wire = None ∧
    replyMeans command value err (decodeReply wire).1.
Proof.
  eexists. split; [by apply clusterReply_wire|]. unfold replyWire, replyMeans.
  destruct err as [e|].
  - destruct (failed_reply_ok (node r) responder caller session command e) as (Hv & e' & He & Hd); [done..|].
    split; [done|]. exists e'. split; [done|]. pose proof (encodeRemoteError_spec e) as Hspec.
    destruct (encodeRemoteError e) as [code message]. simpl in Hd.
    rewrite <- Hd. destruct Hspec as (_ & _ & _ & [(s & Hs & ?)|[_ Hs]]); rewrite Hs.
    + left. by exists s.
    + right. by eexists.
  - destruct (Encode command true value) as [p|x] eqn:Ee.
    + split.
      * unfold validate. simpl. rewrite Hresp, (bool_decide_false (node r = "")) by done. simpl.
        rewrite !(bool_decide_false (_ ≠ _)) by (by intros Hx; apply Hx). simpl.
        destruct (session =? 0) eqn:Es; bool_prop; [done|]. simpl.
        destruct (ID responder =? 0) eqn:E; bool_prop; [done|]. done.
      * unfold decodeReply. simpl.
        destruct (ID responder =? 0) eqn:E; bool_prop; [done|]. simpl.
        by rewrite (Hcodec p).
    + destruct (failed_reply_ok (node r) responder caller session command
        (WrapError ErrPayloadEncode x)) as (Hv & e' & He & Hd); [done..|].
      split; [done|]. rewrite He. f_equal. f_equal. rewrite <- Hd. done.
Qed.

Example cluster_reply_roundtrip_witness :
  ∃ wire, outbox (clusterReply demoRef (mkRef "battle" 4) 7 3 AnyNil (toError ErrMailboxFull) demoCreated).1 =
      outbox demoCreated ++ [("battle", wire)] ∧
    validate "battle" runtimeRunning (node demoCreated) wire = None ∧
    replyMeans 7 AnyNil (toError ErrMailboxFull) (decodeReply wire).1.
Proof.
  apply (cluster_reply_roundtrip demoCreated demoRef (mkRef "battle" 4) 7 3 AnyNil
    (toError ErrMailboxFull)).
  - vm_compute. discriminate.
  - vm_compute. reflexivity.
  - discriminate.
  - discriminate.
  - reflexivity.
Defined.

(** ** Finalization and callers *)

Lemma foldl_deliver {A} (res : callResult A) l chs ch :
  NoDup (chan <$> l) → ch ∈ chan <$> l → chs !! ch = Some [] →
  foldl (λ chs c, deliverTo chs res c) chs l !! ch = Some [res].
Proof.
  revert chs. induction l as [|c l IH]; intros chs Hnd Hin Hch; [by apply not_elem_of_nil in Hin|].
  rewrite fmap_cons in Hnd, Hin. apply NoDup_cons in Hnd as [Hnotin Hnd]. simpl.
  apply elem_of_cons in Hin as [->|Hin].
  - assert (∀ chs', (∀ c', c' ∈ l → chan c' ≠ chan c) → chs' !! chan c = Some [res] →
      foldl (λ chs c, deliverTo chs res c) chs' l !! chan c = Some [res]) as Hkeep.
    { clear. induction l as [|c' l IH]; intros chs' Hne H; simpl; [done|]. apply IH; [set_solver|].
      unfold deliverTo, sendResult. repeat case_match; simpl; try done.
      rewrite lookup_insert_ne; [done|]. apply Hne. by left. }
    apply Hkeep.
    + intros c' Hc' Heq. apply Hnotin. rewrite <- Heq. by apply list_elem_of_fmap_2.
    + unfold deliverTo, sendResult. rewrite Hch. simpl. apply lookup_insert_eq.
  - apply IH; [done|done|]. unfold deliverTo, sendResult. repeat case_match; simpl; try done.
    rewrite lookup_insert_ne; [done|]. intros Heq. apply Hnotin. by rewrite Heq.
Qed.

(** What the waiters of a finalized service receive. *)
Definition finalResult {A} (cause : error rtError) : callResult A :=
  mkResult AnyNil (Some (default (Sentinel ErrServiceClosed) cause)).

(** Nobody waits for a service that is gone.  When a service is finalized,
    every pending call it was to answer, and every call it had made itself, is
    removed and its waiter receives the cause of the finalization (or
    [ErrServiceClosed]) at once, exactly one result in its channel.  The channels
    of pending calls are distinct and empty by [call_result_exactly_once]. *)
Theorem finalize_fails_callers {A} {CC : ClusterCodec A} {CT : ClusterTransport} {CL : Clock}
    {MP : MapPick ServiceRef Time} (r : Runtime A) ref st cause session c
    (Hfirst : finalized (default nullInstance (heap r !! ref)) = false)
    (Hdistinct : NoDup (chansOf (calls (pending r))))
    (Hcall : calls (pending r) !! session = Some c) (Hempty : chans r !! chan c = Some [])
    (Hnames : csource c = ref ∨ ctarget c = ref) :
  let r' := (finalize ref st cause r).1 in
  calls (pending r') !! session = None ∧
  chans r' !! chan c = Some [finalResult cause].
Proof.
  assert (serviceTest ref c = true) as Ht.
  { unfold serviceTest. destruct Hnames as [Hn|Hn].
    - by rewrite (bool_decide_true (csource c = ref)).
    - rewrite (bool_decide_true (ctarget c = ref)) by done. apply orb_true_r. }
  split.
  - rewrite (fe_pending _ _ _ _ _ (finalize_first ref st cause r Hfirst)). simpl.
    apply map_lookup_filter_None. right. intros c' Hc'. simplify_eq. simpl. congruence.
  - unfold finalize, mbind, M_bind. simpl. rewrite Hfirst. simpl.
    apply foldl_deliver; [|  |done].
    + rewrite (chansOf_filter (calls (pending r)) (serviceTest ref)) in Hdistinct.
      by apply NoDup_app in Hdistinct as [? _].
    + apply list_elem_of_fmap_2. apply list_elem_of_fmap. exists (session, c). split; [done|].
      apply elem_of_map_to_list. by apply map_lookup_filter_Some.
Qed.

Example finalize_fails_callers_witness :
  let r' := (finalize demoRef ServiceFailed (toError ErrStopTimeout) demoCalled).1 in
  calls (pending r') !! 1 = None ∧
  chans r' !! 0%nat = Some [mkResult AnyNil (toError ErrStopTimeout)].
Proof.
  apply (finalize_fails_callers demoCalled demoRef ServiceFailed (toError ErrStopTimeout) 1
    (mkCall (mkRef "game" 0) demoRef 7 0)).
  - vm_compute. reflexivity.
  - vm_compute. apply NoDup_singleton.
  - vm_compute. reflexivity.
  - vm_compute. reflexivity.
  - right. reflexivity.
Defined.
