(* ===== verification/GoText.v ===== *)
(** * Go text: white space and UTF-8

    [strings.TrimSpace] on byte strings: it removes leading and trailing code
    points that [unicode.IsSpace] accepts.  On UTF-8 these are the byte sequences
    below; none is a part of another character's encoding, so trimming them as
    prefixes and suffixes is trimming code points. *)

From stdpp Require Import prelude strings list.
From Stdlib Require Import ZArith Lia Strings.Byte.
From S2P Require Import Prelude Bytes.

(** U+0009..U+000D, U+0020, U+0085, U+00A0, U+1680, U+2000..U+200A, U+2028,
    U+2029, U+202F, U+205F, U+3000. *)
Definition spaceEncodings : list (list byte) :=
  [[x09]; [x0a]; [x0b]; [x0c]; [x0d]; [x20];
   [xc2; x85]; [xc2; xa0]; [xe1; x9a; x80];
   [xe2; x80; x80]; [xe2; x80; x81]; [xe2; x80; x82]; [xe2; x80; x83]; [xe2; x80; x84];
   [xe2; x80; x85]; [xe2; x80; x86]; [xe2; x80; x87]; [xe2; x80; x88]; [xe2; x80; x89];
   [xe2; x80; x8a]; [xe2; x80; xa8]; [xe2; x80; xa9]; [xe2; x80; xaf];
   [xe2; x81; x9f]; [xe3; x80; x80]].

Fixpoint stripPrefix (p l : list byte) : option (list byte) :=
  match p, l with
  | [], _ => Some l
  | a :: p, b :: l => if bool_decide (a = b) then stripPrefix p l else None
  | _ :: _, [] => None
  end.

Fixpoint stripOne (ps : list (list byte)) (l : list byte) : option (list byte) :=
  match ps with
  | [] => None
  | p :: ps => match stripPrefix p l with Some l' => Some l' | None => stripOne ps l end
  end.

(** One round per byte is enough: every round removes at least one. *)
Fixpoint trimLeft (fuel : nat) (ps : list (list byte)) (l : list byte) : list byte :=
  match fuel with
  | O => l
  | S fuel => match stripOne ps l with Some l' => trimLeft fuel ps l' | None => l end
  end.

Definition TrimSpace (s : string) : string :=
  let l := bytes_of s in
  let l := trimLeft (length l) spaceEncodings l in
  string_of (reverse (trimLeft (length l) (reverse <$> spaceEncodings) (reverse l))).

(** [strings.TrimSpace(s) == ""] *)
Definition blank (s : string) : bool := bool_decide (TrimSpace s = "").

Example trim_both : TrimSpace "  a b  " = "a b".
Proof. vm_compute. reflexivity. Qed.
Example blank_empty : blank "" = true.
Proof. vm_compute. reflexivity. Qed.

(** ** UTF-8 *)

Definition inRange (lo hi : Z) (b : byte) : bool := (lo <=? byteZ b)%Z && (byteZ b <=? hi)%Z.
Definition contByte (b : byte) : bool := inRange 128 191 b.

(** [utf8.ValidString]: the well-formed byte sequences, surrogates and overlong
    forms excluded. *)
Fixpoint validUTF8 (l : list byte) : bool :=
  match l with
  | [] => true
  | a :: l1 =>
      if inRange 0 127 a then validUTF8 l1
      else
        match l1 with
        | [] => false
        | b :: l2 =>
            if inRange 194 223 a then contByte b && validUTF8 l2
            else
              match l2 with
              | [] => false
              | c :: l3 =>
                  if inRange 224 239 a then
                    (if inRange 224 224 a then inRange 160 191 b
                     else if inRange 237 237 a then inRange 128 159 b
                     else contByte b) && contByte c && validUTF8 l3
                  else
                    match l3 with
                    | [] => false
                    | d :: l4 =>
                        if inRange 240 244 a then
                          (if inRange 240 240 a then inRange 144 191 b
                           else if inRange 244 244 a then inRange 128 143 b
                           else contByte b) && contByte c && contByte d && validUTF8 l4
                        else false
                    end
              end
        end
  end.

Definition ValidString (s : string) : bool := validUTF8 (bytes_of s).

Example utf8_samples :
  validUTF8 [xe4; xb8; xad] = true ∧ validUTF8 [xed; xa0; x80] = false ∧ validUTF8 [xc0; x80] = false.
Proof. vm_compute. done. Qed.
