(* ===== verification/Discovery.v ===== *)
(** * The discovery service

    [src/tooling/discovery/service.go] with the command and error tables of
    [commands.go]: node leases with a generation per registration, and
    long-lived service names bound to a lease.  [Handle] runs to completion for
    one command at a time; what it takes from its contexts (the clock, the
    sender, the outcome of [After]) is the [input] record. *)

From stdpp Require Import prelude gmap strings list sorting pretty.
From Stdlib Require Import ZArith Lia.
From S2P Require Import Prelude Types GoText.

Local Open Scope Z_scope.

Inductive discoveryError :=
| ErrInvalidConfig | ErrInvalidNode | ErrNodeNotFound | ErrLeaseExpired | ErrLeaseOwnerMismatch
| ErrInvalidName | ErrNameNotFound | ErrNameConflict | ErrInvalidResponse | ErrUnsupportedCommand
| ErrOther (e : rtError).      (** an error of the runtime passed through *)

Record Config := mkConfig { LeaseTTL : Duration; SweepInterval : Duration }.

Definition defaultLeaseTTL : Duration := 30 * 10 ^ 9.
Definition defaultSweepInterval : Duration := 5 * 10 ^ 9.

Record NodeLease := mkLease {
  lNode : NodeID; lEpoch : Z; lGeneration : Z; lExpiresAt : Time
}.

Record NodeRecord := mkRecord {
  rID : NodeID; rAddress : string; rEpoch : Z; rGeneration : Z; rLastSeen : Time; rExpiresAt : Time
}.

Record leaseKey := mkKey { kNode : NodeID; kEpoch : Z; kGeneration : Z }.

#[global] Instance leaseKey_eq_dec : EqDecision leaseKey.
Proof. solve_decision. Defined.
#[global] Instance leaseKey_countable : Countable leaseKey.
Proof.
  apply (inj_countable' (λ k, (kNode k, kEpoch k, kGeneration k)) (λ p, mkKey p.1.1 p.1.2 p.2)).
  by intros [].
Defined.

Record nodeRegistration := mkRegistration { record : NodeRecord; owner : ServiceRef }.
Record nameBinding := mkBinding { bRef : ServiceRef; bOwner : leaseKey }.

Record service := mkService {
  config : Config;
  authorityEpoch : Z;
  nodes : gmap NodeID nodeRegistration;
  names : gmap ServiceName nameBinding;
  namesByLease : gmap leaseKey (gset ServiceName);
  nextGeneration : Z;
  sweepScheduled : bool
}.

(** [NewService]; [epoch] is the non-zero random number of [newAuthorityEpoch]. *)
Definition NewService (c : Config) (epoch : Z) : res discoveryError service :=
  if (LeaseTTL c <? 0) || (SweepInterval c <? 0) then Err ErrInvalidConfig
  else
    let ttl := if LeaseTTL c =? 0 then defaultLeaseTTL else LeaseTTL c in
    let sweep := if SweepInterval c =? 0 then defaultSweepInterval else SweepInterval c in
    Ok (mkService (mkConfig ttl sweep) epoch ∅ ∅ ∅ 0 false).

Definition set_nodes (s : service) v :=
  mkService (config s) (authorityEpoch s) v (names s) (namesByLease s) (nextGeneration s) (sweepScheduled s).
Definition set_names (s : service) v w :=
  mkService (config s) (authorityEpoch s) (nodes s) v w (nextGeneration s) (sweepScheduled s).
Definition set_generation (s : service) v :=
  mkService (config s) (authorityEpoch s) (nodes s) (names s) (namesByLease s) v (sweepScheduled s).
Definition set_sweep (s : service) v :=
  mkService (config s) (authorityEpoch s) (nodes s) (names s) (namesByLease s) (nextGeneration s) v.

(** ** Requests and responses *)

Inductive command :=
| RegisterNode (node : NodeID) (address : string)
| Heartbeat (lease : NodeLease)
| UnregisterNode (lease : NodeLease)
| GetNode (node : NodeID)
| ListNodes
| RegisterName (lease : NodeLease) (name : ServiceName) (ref : ServiceRef)
| UnregisterName (lease : NodeLease) (name : ServiceName) (ref : ServiceRef)
| ResolveName (name : ServiceName)
| SweepExpired
| BadPayload (id : CommandID)           (** a known command with a foreign payload *)
| Unsupported (id : CommandID).

Inductive errorCode :=
| errorNone | errorInvalidNode | errorNodeNotFound | errorLeaseExpired | errorLeaseOwnerMismatch
| errorInvalidName | errorNameNotFound | errorNameConflict.

Definition codeFromError (e : error discoveryError) : option errorCode :=
  match e with
  | None => Some errorNone
  | Some ErrInvalidNode => Some errorInvalidNode
  | Some ErrNodeNotFound => Some errorNodeNotFound
  | Some ErrLeaseExpired => Some errorLeaseExpired
  | Some ErrLeaseOwnerMismatch => Some errorLeaseOwnerMismatch
  | Some ErrInvalidName => Some errorInvalidName
  | Some ErrNameNotFound => Some errorNameNotFound
  | Some ErrNameConflict => Some errorNameConflict
  | Some _ => None
  end.

Definition errorFromCode (c : errorCode) : error discoveryError :=
  match c with
  | errorNone => None
  | errorInvalidNode => Some ErrInvalidNode
  | errorNodeNotFound => Some ErrNodeNotFound
  | errorLeaseExpired => Some ErrLeaseExpired
  | errorLeaseOwnerMismatch => Some ErrLeaseOwnerMismatch
  | errorInvalidName => Some ErrInvalidName
  | errorNameNotFound => Some ErrNameNotFound
  | errorNameConflict => Some ErrNameConflict
  end.

Inductive response :=
| leaseResponse (r : res errorCode NodeLease)
| nodeResponse (r : res errorCode NodeRecord)
| nodesResponse (l : list NodeRecord)
| emptyResponse (e : errorCode)
| refResponse (r : res errorCode ServiceRef).

(** What [Handle] did: it replied, returned nil, or returned an error. *)
Inductive handled := Replied (r : response) | Returned (e : error string).

(** ** Leases *)

Definition validLease (l : NodeLease) : bool :=
  bool_decide (lNode l ≠ "") && negb (lEpoch l =? 0) && negb (lGeneration l =? 0).

Definition validNameBinding (l : NodeLease) (name : ServiceName) (ref : ServiceRef) : bool :=
  negb (blank name) && bool_decide (Node ref = lNode l) && negb (ID ref =? 0).

Definition newLeaseKey (l : NodeLease) : leaseKey := mkKey (lNode l) (lEpoch l) (lGeneration l).

Definition sameLease (r : NodeRecord) (l : NodeLease) : bool :=
  bool_decide (rID r = lNode l) && (rEpoch r =? lEpoch l) && (rGeneration r =? lGeneration l).

Definition leaseFromRecord (r : NodeRecord) : NodeLease :=
  mkLease (rID r) (rEpoch r) (rGeneration r) (rExpiresAt r).

Definition leaseActive (s : service) (k : leaseKey) : bool :=
  match nodes s !! kNode k with
  | Some g => (rEpoch (record g) =? kEpoch k) && (rGeneration (record g) =? kGeneration k)
  | None => false
  end.

Definition removeNode (node : NodeID) (s : service) : service :=
  let s' :=
    match nodes s !! node with
    | Some g =>
        let k := mkKey node (rEpoch (record g)) (rGeneration (record g)) in
        let owned := default ∅ (namesByLease s !! k) in
        set_names s (filter (λ e, e.1 ∉ owned) (names s)) (delete k (namesByLease s))
    | None => s
    end in
  set_nodes s' (delete node (nodes s')).

Definition expired (now : Time) (g : nodeRegistration) : bool := rExpiresAt (record g) <=? now.

(** The loop over the nodes; what it does to one does not depend on the others. *)
Definition pruneExpired (now : Time) (s : service) : service :=
  foldl (λ s e, if expired now e.2 then removeNode e.1 s else s) s (map_to_list (nodes s)).

(** What the contexts of a command provide. *)
Record input := mkInput {
  now : Time;
  source : ServiceRef;
  afterError : error rtError       (** the answer of [After], if it is called *)
}.

Definition scheduleSweep (i : input) (s : service) : service * error discoveryError :=
  match afterError i with
  | Some e => (s, Some (ErrOther e))
  | None => (set_sweep s true, None)
  end.

Definition nextGen (g : Z) : Z :=
  let g := u64_succ g in if g =? 0 then u64_succ g else g.

Definition registerNode (i : input) (node : NodeID) (address : string) (s : service)
  : service * res discoveryError NodeLease :=
  if bool_decide (node = "") || blank address then (s, Err ErrInvalidNode)
  else if bool_decide (Node (source i) ≠ node) then (s, Err ErrLeaseOwnerMismatch)
  else
    let '(s, err) := if sweepScheduled s then (s, None) else scheduleSweep i s in
    match err with
    | Some e => (s, Err e)
    | None =>
        let s := set_generation s (nextGen (nextGeneration s)) in
        let r := mkRecord node address (authorityEpoch s) (nextGeneration s) (now i)
                   (now i + LeaseTTL (config s)) in
        let s := removeNode node s in
        (set_nodes s (<[node := mkRegistration r (source i)]> (nodes s)), Ok (leaseFromRecord r))
    end.

(** The registration a lease refers to, if it is still the current one and
    belongs to the sender. *)
Definition checkLease (i : input) (l : NodeLease) (s : service) : res discoveryError nodeRegistration :=
  if negb (validLease l) then Err ErrInvalidNode
  else
    match nodes s !! lNode l with
    | None => Err ErrLeaseExpired
    | Some g =>
        if negb (sameLease (record g) l) then Err ErrLeaseExpired
        else if bool_decide (owner g ≠ source i) then Err ErrLeaseOwnerMismatch
        else Ok g
    end.

Definition heartbeat (i : input) (l : NodeLease) (s : service)
  : service * res discoveryError NodeLease :=
  match checkLease i l s with
  | Err e => (s, Err e)
  | Ok g =>
      let r := record g in
      let r := mkRecord (rID r) (rAddress r) (rEpoch r) (rGeneration r) (now i)
                 (now i + LeaseTTL (config s)) in
      (set_nodes s (<[lNode l := mkRegistration r (owner g)]> (nodes s)), Ok (leaseFromRecord r))
  end.

Definition unregisterNode (i : input) (l : NodeLease) (s : service)
  : service * error discoveryError :=
  match checkLease i l s with
  | Err e => (s, Some e)
  | Ok _ => (removeNode (lNode l) s, None)
  end.

Definition getNode (node : NodeID) (s : service) : res discoveryError NodeRecord :=
  if bool_decide (node = "") then Err ErrInvalidNode
  else match nodes s !! node with
       | Some g => Ok (record g)
       | None => Err ErrNodeNotFound
       end.

(** [sort.Slice] by identifier. *)
Definition byID : relation NodeRecord := λ a b, String.le (rID a) (rID b).
#[global] Instance byID_dec : RelDecision byID.
Proof. intros a b. unfold byID. apply _. Defined.

Definition listNodes (s : service) : list NodeRecord :=
  merge_sort byID (record ∘ snd <$> map_to_list (nodes s)).

(** ** Names *)

Definition checkName (i : input) (l : NodeLease) (name : ServiceName) (ref : ServiceRef) (s : service)
  : error discoveryError :=
  if negb (validLease l) || negb (validNameBinding l name ref) then Some ErrInvalidName
  else if negb (leaseActive s (newLeaseKey l)) then Some ErrLeaseExpired
  else match nodes s !! lNode l with
       | Some g => if bool_decide (owner g ≠ source i) then Some ErrLeaseOwnerMismatch else None
       | None => if bool_decide (zeroRef ≠ source i) then Some ErrLeaseOwnerMismatch else None
       end.

Definition registerName (i : input) (l : NodeLease) (name : ServiceName) (ref : ServiceRef)
    (s : service) : service * error discoveryError :=
  match checkName i l name ref s with
  | Some e => (s, Some e)
  | None =>
      let k := newLeaseKey l in
      let conflict := match names s !! name with Some b => bool_decide (bOwner b ≠ k) | None => false end in
      if conflict then (s, Some ErrNameConflict)
      else
        let owned := default ∅ (namesByLease s !! k) in
        (set_names s (<[name := mkBinding ref k]> (names s))
           (<[k := {[name]} ∪ owned]> (namesByLease s)), None)
  end.

Definition unregisterName (i : input) (l : NodeLease) (name : ServiceName) (ref : ServiceRef)
    (s : service) : service * error discoveryError :=
  match checkName i l name ref s with
  | Some e => (s, Some e)
  | None =>
      let k := newLeaseKey l in
      match names s !! name with
      | Some b =>
          if bool_decide (bOwner b ≠ k) || bool_decide (bRef b ≠ ref) then (s, Some ErrNameNotFound)
          else
            let owned := default ∅ (namesByLease s !! k) ∖ {[name]} in
            (set_names s (delete name (names s))
               (if bool_decide (owned = ∅) then delete k (namesByLease s)
                else <[k := owned]> (namesByLease s)), None)
      | None => (s, Some ErrNameNotFound)
      end
  end.

Definition resolveName (name : ServiceName) (s : service) : res discoveryError ServiceRef :=
  if blank name then Err ErrInvalidName
  else match names s !! name with
       | Some b => if leaseActive s (bOwner b) then Ok (bRef b) else Err ErrNameNotFound
       | None => Err ErrNameNotFound
       end.

(** ** The handler *)

Definition errorText (e : discoveryError) : string :=
  match e with
  | ErrInvalidConfig => "discovery: invalid config"
  | ErrInvalidNode => "discovery: invalid node"
  | ErrNodeNotFound => "discovery: node not found"
  | ErrLeaseExpired => "discovery: lease expired"
  | ErrLeaseOwnerMismatch => "discovery: lease owner mismatch"
  | ErrInvalidName => "discovery: invalid service name"
  | ErrNameNotFound => "discovery: service name not found"
  | ErrNameConflict => "discovery: service name conflict"
  | ErrInvalidResponse => "discovery: invalid response"
  | ErrUnsupportedCommand => "discovery: unsupported command"
  | ErrOther e => Types.errorText e
  end.

(** [replyLease] and its siblings: a domain error travels as a code in the reply,
    any other error is returned from the handler. *)
Definition replyWith {A} (mk : res errorCode A → response) (x : res discoveryError A) : handled :=
  match x with
  | Ok a => Replied (mk (Ok a))
  | Err e => match codeFromError (Some e) with
             | Some c => Replied (mk (Err c))
             | None => Returned (Some (errorText e))
             end
  end.

Definition replyEmpty (e : error discoveryError) : handled :=
  match codeFromError e with
  | Some c => Replied (emptyResponse c)
  | None => Returned (errorText <$> e)
  end.

Definition Handle (i : input) (c : command) (s : service) : service * handled :=
  let s := pruneExpired (now i) s in
  match c with
  | RegisterNode node address =>
      let '(s, x) := registerNode i node address s in (s, replyWith leaseResponse x)
  | Heartbeat l => let '(s, x) := heartbeat i l s in (s, replyWith leaseResponse x)
  | UnregisterNode l => let '(s, e) := unregisterNode i l s in (s, replyEmpty e)
  | GetNode node => (s, replyWith nodeResponse (getNode node s))
  | ListNodes => (s, Replied (nodesResponse (listNodes s)))
  | RegisterName l name ref => let '(s, e) := registerName i l name ref s in (s, replyEmpty e)
  | UnregisterName l name ref => let '(s, e) := unregisterName i l name ref s in (s, replyEmpty e)
  | ResolveName name => (s, replyWith refResponse (resolveName name s))
  | SweepExpired =>
      let s := set_sweep s false in
      if bool_decide (nodes s ≠ ∅) then
        let '(s, e) := scheduleSweep i s in (s, Returned (errorText <$> e))
      else (s, Returned None)
  | BadPayload id => (s, Returned (Some ("discovery: invalid payload for command " +:+ pretty id)))
  | Unsupported id => (s, Returned (Some ("discovery: unsupported service command " +:+ pretty id)))
  end.

Definition Stop (s : service) : service :=
  mkService (config s) (authorityEpoch s) ∅ ∅ ∅ (nextGeneration s) false.
