(* ===== verification/DiscoveryFacts.v ===== *)
(** * The discovery service: invariant and properties *)

From stdpp Require Import prelude gmap strings list sorting.
From Stdlib Require Import ZArith Lia.
From S2P Require Import Prelude Types GoText Discovery.

Local Open Scope Z_scope.

Implicit Types s : service.


(** ** The invariant *)

Definition keyOf (g : nodeRegistration) (node : NodeID) : leaseKey :=
  mkKey node (rEpoch (record g)) (rGeneration (record g)).

Record disc_inv s : Prop := {
  (** A registration carries its node, the authority's epoch and an issued
      generation, and belongs to a service of the node. *)
  di_node node g : nodes s !! node = Some g →
    rID (record g) = node ∧ rEpoch (record g) = authorityEpoch s ∧
    0 < rGeneration (record g) ≤ nextGeneration s ∧ Node (owner g) = node;
  (** Names belong to current leases and point into the node of the lease. *)
  di_name n b : names s !! n = Some b →
    leaseActive s (bOwner b) = true ∧ Node (bRef b) = kNode (bOwner b) ∧ ID (bRef b) ≠ 0;
  (** The reverse index is exact. *)
  di_index n k : n ∈ default ∅ (namesByLease s !! k) ↔ ∃ b, names s !! n = Some b ∧ bOwner b = k;
  di_gen : 0 ≤ nextGeneration s
}.

Lemma leaseActive_spec s k :
  leaseActive s k = true ↔ ∃ g, nodes s !! kNode k = Some g ∧ k = keyOf g (kNode k).
Proof.
  unfold leaseActive, keyOf. destruct (nodes s !! kNode k) as [g|].
  - destruct k as [n e gen]; simpl. split.
    + intros H. bool_prop. exists g. by simplify_eq.
    + intros (? & [= <-] & [= -> ->]). by rewrite !Z.eqb_refl.
  - split; [done|]. by intros (? & ? & _).
Qed.

Lemma removeNode_nodes node s : nodes (removeNode node s) = delete node (nodes s).
Proof. unfold removeNode. by destruct (nodes s !! node). Qed.

Lemma removeNode_rest node s :
  nextGeneration (removeNode node s) = nextGeneration s ∧
  authorityEpoch (removeNode node s) = authorityEpoch s ∧
  config (removeNode node s) = config s ∧
  sweepScheduled (removeNode node s) = sweepScheduled s.
Proof. unfold removeNode. by destruct (nodes s !! node). Qed.

Lemma removeNode_names node s n b :
  disc_inv s →
  names (removeNode node s) !! n = Some b ↔ names s !! n = Some b ∧ kNode (bOwner b) ≠ node.
Proof.
  intros [H1 H2 H3 H4]. unfold removeNode.
  destruct (nodes s !! node) as [g|] eqn:Hg; simpl.
  - rewrite map_lookup_filter_Some. simpl. rewrite H3. split.
    + intros [Hn Hnot]. split; [done|]. intros Heq. apply Hnot. exists b. split; [done|].
      destruct (H2 _ _ Hn) as [(g' & Hg' & ->)%leaseActive_spec _]. rewrite Heq in Hg' |- *.
      simpl in *. by simplify_eq.
    + intros [Hn Hne]. split; [done|]. intros (b' & Hb' & Hk). simplify_eq.
      apply Hne. by rewrite Hk.
  - split; [|by intros [? _]]. intros Hn. split; [done|]. intros Heq.
    destruct (H2 _ _ Hn) as [(g' & Hg' & _)%leaseActive_spec _]. congruence.
Qed.

Lemma removeNode_inv node s : disc_inv s → disc_inv (removeNode node s).
Proof.
  intros Hs. pose proof Hs as [H1 H2 H3 H4].
  destruct (removeNode_rest node s) as (Hg & He & _). split; rewrite ?Hg, ?He, ?removeNode_nodes.
  - intros node' g [_ Hn]%lookup_delete_Some. by apply H1.
  - intros n b [Hn Hne]%removeNode_names; [|done]. destruct (H2 _ _ Hn) as (Ha & ? & ?).
    split; [|done]. apply leaseActive_spec in Ha as (g & Hl & Hk). apply leaseActive_spec.
    exists g. rewrite removeNode_nodes, lookup_delete_ne by done. done.
  - intros n k. split.
    + intros Hin. assert (n ∈ default ∅ (namesByLease s !! k) ∧
        (∀ g, nodes s !! node = Some g → k ≠ keyOf g node)) as [Hin' Hk].
      { unfold removeNode in Hin. destruct (nodes s !! node) as [g|] eqn:E; simpl in Hin; [|done].
        destruct (decide (k = keyOf g node)) as [->|Hne].
        - unfold keyOf in Hin. rewrite lookup_delete_eq in Hin. simpl in Hin. set_solver.
        - rewrite lookup_delete_ne in Hin by (intros <-; by apply Hne).
          split; [done|]. by intros ? [= <-]. }
      apply H3 in Hin' as (b & Hb & Hbk). exists b. split; [|done].
      apply removeNode_names; [done|]. split; [done|]. intros Heq.
      destruct (H2 _ _ Hb) as [(g & Hgn & Hgk)%leaseActive_spec _]. rewrite Heq in *.
      apply (Hk g); [done|]. congruence.
    + intros (b & Hb & Hbk). apply removeNode_names in Hb as [Hb Hne]; [|done].
      assert (n ∈ default ∅ (namesByLease s !! k)) as Hin by (apply H3; by exists b).
      unfold removeNode. destruct (nodes s !! node) as [g|]; simpl; [|done].
      rewrite lookup_delete_ne; [done|]. intros Heq. apply Hne. by rewrite Hbk, <- Heq.
  - done.
Qed.

#[local] Opaque removeNode.

(** ** Pruning *)

Lemma prune_fold now l s :
  disc_inv s →
  let s' := foldl (λ s e, if expired now e.2 then removeNode e.1 s else s) s l in
  disc_inv s' ∧ nextGeneration s' = nextGeneration s ∧ authorityEpoch s' = authorityEpoch s ∧
  config s' = config s ∧ sweepScheduled s' = sweepScheduled s ∧
  (∀ node g, nodes s' !! node = Some g ↔
     nodes s !! node = Some g ∧ ∀ h, (node, h) ∈ l → expired now h = false).
Proof.
  revert s. induction l as [|[node h] l IH]; intros s Hs; simpl.
  { split_and!; try done. intros. set_solver. }
  set (s1 := if expired now h then removeNode node s else s).
  assert (disc_inv s1) as Hs1 by (unfold s1; case_match; [by apply removeNode_inv|done]).
  destruct (IH s1 Hs1) as (? & Hg & He & Hc & Hw & Hn).
  assert (nextGeneration s1 = nextGeneration s ∧ authorityEpoch s1 = authorityEpoch s ∧
    config s1 = config s ∧ sweepScheduled s1 = sweepScheduled s) as (? & ? & ? & ?).
  { unfold s1. case_match; [apply removeNode_rest|done]. }
  split_and!; try congruence. intros node' g. rewrite Hn. unfold s1.
  destruct (expired now h) eqn:Eh.
  - rewrite removeNode_nodes, lookup_delete_Some. split.
    + intros [[Hne Hg'] Hall]. split; [done|]. intros h' [[= <- <-]|]%elem_of_cons; auto. done.
    + intros [Hg' Hall]. split; [split; [|done]|].
      * intros <-. specialize (Hall h). rewrite Eh in Hall. discriminate Hall. by left.
      * intros h' Hin. apply Hall. by right.
  - split; intros [Hg' Hall]; (split; [done|]).
    + intros h' [[= <- <-]|]%elem_of_cons; auto.
    + intros h' Hin. apply Hall. by right.
Qed.

Lemma prune_spec now s :
  disc_inv s →
  let s' := pruneExpired now s in
  disc_inv s' ∧ nextGeneration s' = nextGeneration s ∧ authorityEpoch s' = authorityEpoch s ∧
  config s' = config s ∧ sweepScheduled s' = sweepScheduled s ∧
  (∀ node g, nodes s' !! node = Some g ↔ nodes s !! node = Some g ∧ expired now g = false).
Proof.
  intros Hs. destruct (prune_fold now (map_to_list (nodes s)) s Hs) as (? & ? & ? & ? & ? & Hn).
  unfold pruneExpired. split_and!; try done. intros node g. rewrite Hn. split.
  - intros [Hg Hall]. split; [done|]. apply Hall. by apply elem_of_map_to_list.
  - intros [Hg He]. split; [done|]. intros h Hh%elem_of_map_to_list. by simplify_eq.
Qed.

Lemma prune_names now s n b :
  disc_inv s → names (pruneExpired now s) !! n = Some b → names s !! n = Some b.
Proof.
  unfold pruneExpired. generalize (map_to_list (nodes s)) as l. intros l Hs. revert s Hs.
  induction l as [|e l IH]; intros s Hs; simpl; [done|].
  intros H. apply IH in H; [|case_match; [by apply removeNode_inv|done]].
  case_match; [|done]. by apply removeNode_names in H as [? _].
Qed.

#[local] Opaque pruneExpired.

(** ** Operations *)

Lemma inv_insert_node s node g :
  disc_inv s →
  (∀ g0, nodes s !! node = Some g0 → keyOf g0 node = keyOf g node) →
  rID (record g) = node → rEpoch (record g) = authorityEpoch s →
  0 < rGeneration (record g) ≤ nextGeneration s → Node (owner g) = node →
  disc_inv (set_nodes s (<[node := g]> (nodes s))).
Proof.
  intros [H1 H2 H3 H4] Hkey Hid Hep Hgen Hown. split; simpl; try done.
  - intros node' g' [[<- <-]|[_ Hn]]%lookup_insert_Some; [done|by apply H1].
  - intros n b Hn. destruct (H2 _ _ Hn) as (Ha & ? & ?). split; [|done].
    apply leaseActive_spec in Ha as (g0 & Hg0 & Hk). apply leaseActive_spec. simpl.
    destruct (decide (kNode (bOwner b) = node)) as [Heq|Hne].
    + exists g. rewrite Heq, lookup_insert_eq. split; [done|].
      rewrite Heq in Hg0, Hk. rewrite Hk at 1. by apply Hkey.
    + exists g0. by rewrite lookup_insert_ne.
Qed.

Lemma nextGen_small g : 0 ≤ g < u64_max → nextGen g = g + 1.
Proof.
  intros Hg. unfold nextGen. rewrite u64_succ_small by done.
  destruct (g + 1 =? 0) eqn:E; bool_prop; [lia|done].
Qed.

Lemma inv_set_generation s v : disc_inv s → nextGeneration s ≤ v → disc_inv (set_generation s v).
Proof.
  intros [H1 H2 H3 H4] Hv. split; simpl; try done; [|lia].
  intros node g Hg. destruct (H1 _ _ Hg) as (?&?&?&?). split_and!; try done; lia.
Qed.

Lemma inv_set_sweep s v : disc_inv s → disc_inv (set_sweep s v).
Proof. intros [H1 H2 H3 H4]. by split. Qed.

Lemma checkLease_Ok i l s g :
  checkLease i l s = Ok g →
  nodes s !! lNode l = Some g ∧ sameLease (record g) l = true ∧ owner g = source i ∧
  validLease l = true.
Proof.
  unfold checkLease. destruct (validLease l); [|done]. simpl.
  destruct (nodes s !! lNode l) as [g'|] eqn:E; [|done].
  destruct (sameLease (record g') l) eqn:Es; [|done]. simpl.
  case_bool_decide as Ho; [done|]. intros [= <-]. by split_and!.
Qed.

(** The generation of a registration is the highest so far, or an older one. *)
Record advances s s' : Prop := {
  ad_epoch : authorityEpoch s' = authorityEpoch s;
  ad_gen : nextGeneration s ≤ nextGeneration s';
  ad_node node g : nodes s' !! node = Some g →
    nextGeneration s < rGeneration (record g) ∨
    ∃ g0, nodes s !! node = Some g0 ∧ keyOf g0 node = keyOf g node
}.

#[global] Instance advances_refl : Reflexive advances.
Proof. intros s. split; [done|done|]. intros node g Hg. right. by exists g. Qed.
#[global] Instance advances_trans : Transitive advances.
Proof.
  intros a b c [E1 G1 N1] [E2 G2 N2]. split; [congruence|lia|]. intros node g Hg.
  destruct (N2 _ _ Hg) as [?|(g1 & Hg1 & Hk)]; [left; lia|].
  destruct (N1 _ _ Hg1) as [?|(g0 & Hg0 & Hk0)].
  - left. unfold keyOf in Hk. simplify_eq. lia.
  - right. exists g0. split; [done|congruence].
Qed.

Lemma registerNode_inv i node address s :
  disc_inv s → nextGeneration s < u64_max →
  disc_inv (registerNode i node address s).1 ∧ advances s (registerNode i node address s).1.
Proof.
  intros Hs Hmax. unfold registerNode.
  destruct (_ || _); [done|]. case_bool_decide as Hown; [done|].
  set (sw := if sweepScheduled s then (s, None) else scheduleSweep i s).
  assert (disc_inv sw.1 ∧ nodes sw.1 = nodes s ∧ nextGeneration sw.1 = nextGeneration s ∧
    authorityEpoch sw.1 = authorityEpoch s) as (Hs1 & Hn1 & Hg1 & He1).
  { unfold sw. destruct (sweepScheduled s); [done|]. unfold scheduleSweep.
    destruct (afterError i); [done|]. split; [by apply inv_set_sweep|done]. }
  destruct sw as [s1 [e|]]; simpl in *.
  { split; [done|]. split; [done|lia|]. intros node' g. rewrite Hn1. eauto. }
  assert (nextGen (nextGeneration s1) = nextGeneration s + 1) as Hng.
  { rewrite Hg1. apply nextGen_small. pose proof (di_gen _ Hs). lia. }
  rewrite Hng. set (s2 := set_generation s1 (nextGeneration s + 1)).
  assert (disc_inv s2) as Hs2 by (apply inv_set_generation; [done|lia]).
  assert (disc_inv (removeNode node s2)) as Hs3 by (by apply removeNode_inv).
  destruct (removeNode_rest node s2) as (Hg3 & He3 & _).
  pose proof (di_gen _ Hs). split.
  - apply inv_insert_node; simpl; try done.
    + intros g0. rewrite removeNode_nodes, lookup_delete_eq. done.
    + rewrite Hg3. simpl. lia.
  - split; simpl; [by rewrite He3|rewrite Hg3; simpl; lia|].
    intros node' g [[<- <-]|[Hne Hg]]%lookup_insert_Some; [left; simpl; lia|].
    rewrite removeNode_nodes in Hg. apply lookup_delete_Some in Hg as [_ Hg]. simpl in Hg.
    rewrite Hn1 in Hg. right. by exists g.
Qed.

Lemma heartbeat_inv i l s :
  disc_inv s → disc_inv (heartbeat i l s).1 ∧ advances s (heartbeat i l s).1.
Proof.
  intros Hs. unfold heartbeat. destruct (checkLease i l s) as [g|e] eqn:E; [|done].
  apply checkLease_Ok in E as (Hg & _). destruct (di_node _ Hs _ _ Hg) as (?&?&?&?).
  split.
  - apply inv_insert_node; simpl; try done. intros g0 Hg0. by simplify_eq.
  - split; simpl; [done|done|].
    intros node' g' [[<- <-]|[Hne Hg']]%lookup_insert_Some; right; eauto.
Qed.

Lemma removeNode_advances node s : advances s (removeNode node s).
Proof.
  destruct (removeNode_rest node s) as (Hg & He & _). split; [done|lia|].
  rewrite removeNode_nodes. intros node' g [_ ?]%lookup_delete_Some. eauto.
Qed.

Lemma unregisterNode_inv i l s :
  disc_inv s → disc_inv (unregisterNode i l s).1 ∧ advances s (unregisterNode i l s).1.
Proof.
  intros Hs. unfold unregisterNode. destruct (checkLease i l s); [|done].
  split; [by apply removeNode_inv|apply removeNode_advances].
Qed.

Lemma checkName_None i l name ref s :
  checkName i l name ref s = None →
  leaseActive s (newLeaseKey l) = true ∧ Node ref = lNode l ∧ ID ref ≠ 0 ∧
  ∃ g, nodes s !! lNode l = Some g ∧ owner g = source i.
Proof.
  unfold checkName. destruct (negb (validLease l)); [done|]. simpl.
  destruct (validNameBinding l name ref) eqn:Ev; [|done]. simpl.
  destruct (leaseActive s (newLeaseKey l)) eqn:Ea; [|done]. simpl. intros H.
  unfold validNameBinding in Ev. bool_prop. apply leaseActive_spec in Ea as Ea'.
  destruct Ea' as (g & Hg & _). simpl in Hg. rewrite Hg in H. case_bool_decide as Ho; [done|].
  split_and!; try done. by exists g.
Qed.

Lemma names_advance s n b : advances s (set_names s n b).
Proof. split; [done|done|]. simpl. eauto. Qed.

Lemma registerName_inv i l name ref s :
  disc_inv s → disc_inv (registerName i l name ref s).1 ∧ advances s (registerName i l name ref s).1.
Proof.
  intros Hs. unfold registerName. destruct (checkName i l name ref s) eqn:E; [done|].
  apply checkName_None in E as (Ha & Hr & Hid & _). cbv zeta.
  set (k := newLeaseKey l) in *.
  assert (∀ b, names s !! name = Some b → bOwner b = k ∨
    (match names s !! name with Some b => bool_decide (bOwner b ≠ k) | None => false end) = true) as Hc.
  { intros b ->. case_bool_decide; [by right|by left]. }
  destruct (match names s !! name with Some b => _ | None => false end) eqn:Ec; [done|]. simpl.
  split; [|apply names_advance]. destruct Hs as [H1 H2 H3 H4]. split; simpl; try done.
  - intros n b [[<- <-]|[_ Hn]]%lookup_insert_Some; [done|exact (H2 n b Hn)].
  - intros n k'. destruct (decide (k = k')) as [<-|Hk].
    + rewrite lookup_insert_eq. simpl. destruct (decide (name = n)) as [<-|Hn].
      * rewrite lookup_insert_eq. split; [eauto|set_solver].
      * rewrite lookup_insert_ne by done. rewrite elem_of_union, elem_of_singleton, H3. naive_solver.
    + rewrite lookup_insert_ne by done. rewrite H3. destruct (decide (name = n)) as [<-|Hn].
      * rewrite lookup_insert_eq. split; [|naive_solver]. intros (b & Hb & <-).
        destruct (Hc _ Hb); [congruence|done].
      * by rewrite lookup_insert_ne.
Qed.

Lemma unregisterName_inv i l name ref s :
  disc_inv s → disc_inv (unregisterName i l name ref s).1 ∧ advances s (unregisterName i l name ref s).1.
Proof.
  intros Hs. unfold unregisterName. destruct (checkName i l name ref s) eqn:E; [done|].
  destruct (names s !! name) as [b|] eqn:Eb; [|done].
  destruct (_ || _) eqn:Eo; [done|]. apply orb_false_iff in Eo as [Hk Hr]. bool_prop.
  apply dec_stable in Hk, Hr. simpl. split; [|apply names_advance].
  set (k := newLeaseKey l) in *. destruct Hs as [H1 H2 H3 H4]. split; simpl; try done.
  - intros n b' [_ Hn]%lookup_delete_Some. exact (H2 n b' Hn).
  - intros n k'. destruct (decide (k = k')) as [<-|Hne].
    + assert (default ∅ ((if bool_decide (default ∅ (namesByLease s !! k) ∖ {[name]} = ∅)
         then delete k (namesByLease s)
         else <[k:=default ∅ (namesByLease s !! k) ∖ {[name]}]> (namesByLease s)) !! k) =
         default ∅ (namesByLease s !! k) ∖ {[name]}) as ->.
      { case_bool_decide as Hem; [rewrite lookup_delete_eq; simpl; by rewrite Hem|].
        by rewrite lookup_insert_eq. }
      rewrite elem_of_difference, elem_of_singleton, H3.
      split; intros H.
      * destruct H as [(b' & Hb' & ?) Hnn]. exists b'. by rewrite lookup_delete_ne.
      * destruct H as (b' & [Hnn Hb']%lookup_delete_Some & ?). split; [by exists b'|done].
    + assert ((if bool_decide (default ∅ (namesByLease s !! k) ∖ {[name]} = ∅)
         then delete k (namesByLease s)
         else <[k:=default ∅ (namesByLease s !! k) ∖ {[name]}]> (namesByLease s)) !! k' =
         namesByLease s !! k') as ->.
      { case_bool_decide; [by rewrite lookup_delete_ne|by rewrite lookup_insert_ne]. }
      rewrite H3. split; intros (b' & Hb' & Hbk); exists b'.
      * rewrite lookup_delete_ne; [done|]. intros <-. congruence.
      * apply lookup_delete_Some in Hb' as [_ ?]. done.
Qed.

(** ** The handler *)

Lemma prune_advances now s : disc_inv s → advances s (pruneExpired now s).
Proof.
  intros Hs. destruct (prune_spec now s Hs) as (_ & Hg & He & _ & _ & Hn).
  split; [done|lia|]. intros node g [? _]%Hn. eauto.
Qed.

Lemma Handle_inv i c s :
  disc_inv s → nextGeneration s < u64_max →
  disc_inv (Handle i c s).1 ∧ advances s (Handle i c s).1.
Proof.
  intros Hs Hmax. pose proof (prune_spec (now i) s Hs) as (Hp & Hg & _).
  pose proof (prune_advances (now i) s Hs) as Ha. unfold Handle.
  set (s1 := pruneExpired (now i) s) in *. clearbody s1.
  assert (∀ s2, disc_inv s2 ∧ advances s1 s2 → disc_inv s2 ∧ advances s s2) as Hstep.
  { intros s2 [? ?]. split; [done|by etrans]. }
  apply Hstep. clear Hstep Ha.
  destruct c; simpl; try done.
  - pose proof (registerNode_inv i node address s1 Hp ltac:(lia)).
    by destruct (registerNode i node address s1).
  - pose proof (heartbeat_inv i lease s1 Hp). by destruct (heartbeat i lease s1).
  - pose proof (unregisterNode_inv i lease s1 Hp). by destruct (unregisterNode i lease s1).
  - pose proof (registerName_inv i lease name ref s1 Hp). by destruct (registerName i lease name ref s1).
  - pose proof (unregisterName_inv i lease name ref s1 Hp).
    by destruct (unregisterName i lease name ref s1).
  - assert (∀ v, advances s1 (set_sweep s1 v)) as Hsw by (intros v; split; simpl; eauto; lia).
    case_bool_decide; [|split; [by apply inv_set_sweep|apply Hsw]].
    unfold scheduleSweep. destruct (afterError i); simpl.
    + split; [by apply inv_set_sweep|apply Hsw].
    + split; [by do 2 apply inv_set_sweep|apply (Hsw true)].
Qed.

(** Any sequence of commands, short of exhausting the 64-bit generations. *)
Inductive disc_step s : service → Prop :=
| ds_handle i c : nextGeneration s < u64_max → disc_step s (Handle i c s).1.

Definition disc_reachable s : Prop :=
  ∃ c epoch s0, NewService c epoch = Ok s0 ∧ rtc disc_step s0 s.

Lemma new_disc_inv c epoch s : NewService c epoch = Ok s → disc_inv s.
Proof.
  unfold NewService. destruct (_ || _); [done|]. intros [= <-]. split; simpl; try done.
  intros n k. rewrite lookup_empty. simpl. split; [set_solver|]. intros (b & Hb & _).
  by rewrite lookup_empty in Hb.
Qed.

Lemma steps_inv s s' : rtc disc_step s s' → disc_inv s → disc_inv s' ∧ advances s s'.
Proof.
  induction 1 as [|s1 s2 s3 [i c Hmax] _ IH]; intros Hs; [done|].
  destruct (Handle_inv i c s1 Hs Hmax) as [Hi Ha]. destruct (IH Hi). split; [done|by etrans].
Qed.

Lemma disc_reachable_inv s : disc_reachable s → disc_inv s.
Proof. intros (c & epoch & s0 & Hn & Hs). eapply steps_inv; [done|]. by eapply new_disc_inv. Qed.

(** ** Properties *)

(** The lease is not the current one of its node. *)
Definition superseded s (l : NodeLease) : Prop :=
  ∀ g, nodes s !! lNode l = Some g → sameLease (record g) l = false.

Lemma superseded_steps s s' l :
  disc_inv s → rtc disc_step s s' → lGeneration l ≤ nextGeneration s → superseded s l →
  superseded s' l.
Proof.
  intros Hs Hsteps Hgen Hsup g Hg. destruct (steps_inv s s' Hsteps Hs) as [_ [_ _ Hnode]].
  unfold sameLease. destruct (Hnode _ _ Hg) as [Hlt|(g0 & Hg0 & Hk)].
  - destruct (rGeneration (record g) =? lGeneration l) eqn:E; bool_prop; [lia|].
    apply andb_false_r.
  - specialize (Hsup _ Hg0). unfold sameLease in Hsup. unfold keyOf in Hk. simplify_eq.
    destruct (steps_inv s s' Hsteps Hs) as [Hs' _].
    destruct (di_node _ Hs _ _ Hg0) as (Hid0 & _). destruct (di_node _ Hs' _ _ Hg) as (Hid & _).
    rewrite Hid. rewrite Hid0 in Hsup. congruence.
Qed.

Lemma superseded_prune now s l : disc_inv s → superseded s l → superseded (pruneExpired now s) l.
Proof.
  intros Hs Hsup g Hg. destruct (prune_spec now s Hs) as (_ & _ & _ & _ & _ & Hn).
  apply Hn in Hg as [Hg _]. by apply Hsup.
Qed.

(** Leases are fencing tokens.  Once a lease was superseded or removed (by a
    new registration of its node, by expiry or by unregistration), it is refused
    for ever: whatever commands follow, a heartbeat with it never succeeds, and
    neither does a name registration, so a node that was replaced cannot come
    back under its old identity. *)
Theorem stale_lease_refused s s' l
    (Hreach : disc_reachable s) (Hissued : lGeneration l ≤ nextGeneration s)
    (Hstale : superseded s l) (Hlater : rtc disc_step s s') :
  (∀ i, ∃ c, (Handle i (Heartbeat l) s').2 = Replied (leaseResponse (Err c)) ∧
     (c = errorLeaseExpired ∨ c = errorInvalidNode)) ∧
  (∀ i name ref, ∃ c, (Handle i (RegisterName l name ref) s').2 = Replied (emptyResponse c) ∧
     (c = errorLeaseExpired ∨ c = errorInvalidName)).
Proof.
  pose proof (disc_reachable_inv s Hreach) as Hs.
  destruct (steps_inv s s' Hlater Hs) as [Hs' _].
  pose proof (superseded_steps s s' l Hs Hlater Hissued Hstale) as Hsup.
  split; intros i *; pose proof (superseded_prune (now i) s' l Hs' Hsup) as Hp;
    destruct (prune_spec (now i) s' Hs') as (Hi & _); unfold Handle;
    set (s1 := pruneExpired (now i) s') in *; clearbody s1.
  - unfold heartbeat, checkLease. destruct (validLease l); simpl; [|eauto].
    destruct (nodes s1 !! lNode l) as [g|] eqn:Hg; [|simpl; eauto].
    rewrite (Hp g Hg). simpl. eauto.
  - unfold registerName, checkName. destruct (negb (validLease l)); simpl; [eauto|].
    destruct (validNameBinding l name ref); simpl; [|eauto].
    destruct (leaseActive s1 (newLeaseKey l)) eqn:Ea; simpl; [|eauto].
    apply leaseActive_spec in Ea as (g & Hg & Hk). simpl in Hg, Hk.
    specialize (Hp g Hg). exfalso. destruct (di_node _ Hi _ _ Hg) as (Hid & _).
    pose proof (f_equal kEpoch Hk) as He. pose proof (f_equal kGeneration Hk) as Hge. simpl in He, Hge.
    unfold sameLease in Hp. by rewrite Hid, bool_decide_true, He, Hge, !Z.eqb_refl in Hp by done.
Qed.

(** A registration, then another one of the same node. *)
Definition demoDiscovery : service := mkService (mkConfig 30 5) 77 ∅ ∅ ∅ 0 false.
Definition demoInput (t : Time) : input := mkInput t (mkRef "game" 3) None.
Definition demoRegistered : service :=
  (Handle (demoInput 10) (RegisterNode "game" "10.0.0.1") demoDiscovery).1.
Definition demoReplaced : service :=
  (Handle (demoInput 12) (RegisterNode "game" "10.0.0.2") demoRegistered).1.
Definition demoLease : NodeLease := mkLease "game" 77 1 40.

Lemma demoReplaced_reachable : disc_reachable demoReplaced.
Proof.
  exists (mkConfig 30 5), 77, demoDiscovery. split; [done|].
  eapply rtc_l; [apply (ds_handle _ (demoInput 10) (RegisterNode "game" "10.0.0.1")); done|].
  apply rtc_once. apply ds_handle. vm_compute. reflexivity.
Qed.

Example stale_lease_refused_witness :
  (Handle (demoInput 11) (Heartbeat demoLease) demoRegistered).2
    = Replied (leaseResponse (Ok (mkLease "game" 77 1 41))) ∧
  ∃ c, (Handle (demoInput 13) (Heartbeat demoLease) demoReplaced).2 = Replied (leaseResponse (Err c)) ∧
     (c = errorLeaseExpired ∨ c = errorInvalidNode).
Proof.
  split; [vm_compute; reflexivity|].
  apply (stale_lease_refused demoReplaced demoReplaced demoLease demoReplaced_reachable).
  - vm_compute. discriminate.
  - intros g Hg. vm_compute in Hg. injection Hg as <-. vm_compute. reflexivity.
  - apply rtc_refl.
Defined.

(** Names resolve only to live nodes.  When the service answers a name, the
    answer is a service of a node whose current lease has not expired at that
    moment, and the name was bound under exactly that lease. *)
Theorem resolve_only_live s i name ref
    (Hreach : disc_reachable s)
    (Hanswer : (Handle i (ResolveName name) s).2 = Replied (refResponse (Ok ref))) :
  ID ref ≠ 0 ∧
  ∃ g b, nodes s !! Node ref = Some g ∧ now i < rExpiresAt (record g) ∧
    names s !! name = Some b ∧ bRef b = ref ∧ bOwner b = keyOf g (Node ref).
Proof.
  pose proof (disc_reachable_inv s Hreach) as Hs.
  destruct (prune_spec (now i) s Hs) as (Hp & _ & _ & _ & _ & Hn).
  unfold Handle in Hanswer. simpl in Hanswer. unfold resolveName in Hanswer.
  destruct (blank name); [done|].
  destruct (names (pruneExpired (now i) s) !! name) as [b|] eqn:Hb; [|done].
  destruct (leaseActive _ (bOwner b)) eqn:Ha; [|done]. simpl in Hanswer. injection Hanswer as <-.
  destruct (di_name _ Hp _ _ Hb) as (_ & Hnode & Hid). split; [done|].
  apply leaseActive_spec in Ha as (g & Hg & Hk). apply Hn in Hg as [Hg He].
  exists g, b. rewrite Hnode. unfold expired in He. bool_prop.
  split_and!; try done; by eapply prune_names.
Qed.

Definition demoNamed : service :=
  (Handle (demoInput 20) (RegisterName (mkLease "game" 77 2 42) "lobby" (mkRef "game" 9)) demoReplaced).1.

Example resolve_only_live_witness :
  ∃ g b, nodes demoNamed !! "game" = Some g ∧ 25 < rExpiresAt (record g) ∧
    names demoNamed !! "lobby" = Some b ∧ bRef b = mkRef "game" 9 ∧ bOwner b = keyOf g "game".
Proof.
  apply (resolve_only_live demoNamed (demoInput 25) "lobby" (mkRef "game" 9)).
  - destruct demoReplaced_reachable as (c & e & s0 & H1 & H2). exists c, e, s0. split; [exact H1|].
    eapply rtc_r; [exact H2|]. apply ds_handle. vm_compute. reflexivity.
  - vm_compute. reflexivity.
Defined.
