(* ===== verification/Directory.v ===== *)
(** * The service directory

    [src/tooling/servicegroup]: versioned service sets published by
    compare-and-set, watch leases, and change notifications ([service.go]), with
    the validation of [validation.go].  Metrics are the collector of the runtime. *)

From stdpp Require Import prelude gmap strings list sorting.
From Stdlib Require Import ZArith Lia.
From S2P Require Import Prelude Types Metrics GoText.

Local Open Scope Z_scope.
Local Open Scope go_scope.

Abbreviation GroupName := string (only parsing).

Inductive groupError :=
| ErrInvalidConfig | ErrInvalidGroup | ErrInvalidServiceSet | ErrGroupNotFound | ErrVersionConflict
| ErrVersionExhausted | ErrUnauthorized | ErrInvalidWatch | ErrWatchExpired | ErrWatchOwnerMismatch
| ErrInvalidResponse | ErrInvalidRoutingKey | ErrNoRoute | ErrInvalidRoutingResult | ErrMultipleTargets
| ErrInvalidCaller
| ErrOther (e : rtError).

#[global] Instance groupError_none_dec (e : error groupError) : Decision (e = None).
Proof. destruct e; [by right|by left]. Defined.

Record ServiceSetVersion := mkVersion { AuthorityEpoch : Z; Revision : Z }.

#[global] Instance ServiceSetVersion_eq_dec : EqDecision ServiceSetVersion.
Proof. solve_decision. Defined.

Definition zeroVersion : ServiceSetVersion := mkVersion 0 0.

(** [Refs] and [Tags] may be nil, which differs from empty. *)
Record ServiceSet := mkSet {
  Name : GroupName;
  Version : ServiceSetVersion;
  Refs : option (list ServiceRef);
  Tags : option (gmap string string)
}.

Definition refsOf (set : ServiceSet) : list ServiceRef := default [] (Refs set).

Record WatchLease := mkWatchLease {
  Group : GroupName;
  Subscriber : ServiceRef;
  wlEpoch : Z;
  wlGeneration : Z;
  wlExpiresAt : Time
}.

#[global] Instance WatchLease_eq_dec : EqDecision WatchLease.
Proof. solve_decision. Defined.

Record DirectoryConfig := mkDirConfig {
  PublisherNode : NodeID; WatchTTL : Duration; DirSweepInterval : Duration
}.

Definition defaultWatchTTL : Duration := 30 * 10 ^ 9.
Definition defaultDirSweep : Duration := 5 * 10 ^ 9.

(** ** Validation *)

Definition validNode (node : NodeID) : bool := ValidString node && negb (blank node).

Definition validGroup (name : GroupName) : bool :=
  ValidString name && bool_decide (name ≠ "") && bool_decide (TrimSpace name = name).

Definition validServiceRef (ref : ServiceRef) : bool := validNode (Node ref) && negb (ID ref =? 0).

Definition validVersion (v : ServiceSetVersion) : bool :=
  negb (AuthorityEpoch v =? 0) && negb (Revision v =? 0).

Definition validExpectedVersion (v : ServiceSetVersion) : bool :=
  bool_decide (v = zeroVersion) || validVersion v.

Definition validTag (e : string * string) : bool :=
  ValidString e.1 && bool_decide (e.1 ≠ "") && bool_decide (TrimSpace e.1 = e.1) && ValidString e.2.

Definition validTags (tags : gmap string string) : bool := forallb validTag (map_to_list tags).

(** The order of the two sorts: by node, then by identifier. *)
Definition refLt (a b : ServiceRef) : Prop :=
  String.ltb (Node a) (Node b) = true ∨ (Node a = Node b ∧ ID a < ID b).
Definition refLe (a b : ServiceRef) : Prop := a = b ∨ refLt a b.

#[global] Instance refLt_dec : RelDecision refLt.
Proof. intros a b. unfold refLt. apply _. Defined.
#[global] Instance refLe_dec : RelDecision refLe.
Proof. intros a b. unfold refLe. apply _. Defined.

(** The loop that drops adjacent duplicates. *)
Fixpoint dedupe (acc : list ServiceRef) (l : list ServiceRef) : list ServiceRef :=
  match l with
  | [] => acc
  | ref :: l =>
      match last acc with
      | Some prev => if bool_decide (prev = ref) then dedupe acc l else dedupe (acc ++ [ref]) l
      | None => dedupe (acc ++ [ref]) l
      end
  end.

Definition normalizeServiceSet (name : GroupName) (refs : list ServiceRef)
    (tags : option (gmap string string)) : res groupError ServiceSet :=
  if negb (validGroup name) then Err ErrInvalidGroup
  else if negb (forallb validServiceRef refs) then Err ErrInvalidServiceSet
  else if negb (validTags (default ∅ tags)) then Err ErrInvalidServiceSet
  else Ok (mkSet name zeroVersion (Some (dedupe [] (merge_sort refLe refs))) (Some (default ∅ tags))).

(** The adjacent pairs test of [validServiceSet]. *)
Fixpoint strictlySorted (l : list ServiceRef) : bool :=
  match l with
  | [] => true
  | a :: l' => match l' with
               | [] => true
               | b :: _ => bool_decide (refLt a b) && strictlySorted l'
               end
  end.

Definition validServiceSet (set : ServiceSet) : bool :=
  validGroup (Name set) && validVersion (Version set)
  && match Refs set, Tags set with
     | Some refs, Some tags => validTags tags && forallb validServiceRef refs && strictlySorted refs
     | _, _ => false
     end.

Definition validWatchLease (l : WatchLease) : bool :=
  validGroup (Group l) && validServiceRef (Subscriber l) && negb (wlEpoch l =? 0)
  && negb (wlGeneration l =? 0) && negb (wlExpiresAt l =? 0).

Definition sameWatchLease (a b : WatchLease) : bool := bool_decide (a = b).

(** ** State *)

Record directoryService := mkDirectory {
  dirConfig : DirectoryConfig;
  authorityEpoch : Z;
  groups : gmap GroupName ServiceSet;
  watchers : gmap GroupName (gmap ServiceRef WatchLease);
  nextGeneration : Z;
  watcherCount : Z;
  sweepScheduled : bool;
  dirMetrics : metricCollector
}.

Definition NewDirectoryService (c : DirectoryConfig) (epoch : Z) (mc : metricCollector)
  : res groupError directoryService :=
  if negb (validNode (PublisherNode c)) || (WatchTTL c <? 0) || (DirSweepInterval c <? 0)
  then Err ErrInvalidConfig
  else
    let ttl := if WatchTTL c =? 0 then defaultWatchTTL else WatchTTL c in
    let sweep := if DirSweepInterval c =? 0 then defaultDirSweep else DirSweepInterval c in
    Ok (mkDirectory (mkDirConfig (PublisherNode c) ttl sweep) epoch ∅ ∅ 0 0 false mc).

Definition set_groups (s : directoryService) v :=
  mkDirectory (dirConfig s) (authorityEpoch s) v (watchers s) (nextGeneration s) (watcherCount s)
    (sweepScheduled s) (dirMetrics s).
Definition set_watchers (s : directoryService) v n :=
  mkDirectory (dirConfig s) (authorityEpoch s) (groups s) v (nextGeneration s) n
    (sweepScheduled s) (dirMetrics s).
Definition set_generation (s : directoryService) v :=
  mkDirectory (dirConfig s) (authorityEpoch s) (groups s) (watchers s) v (watcherCount s)
    (sweepScheduled s) (dirMetrics s).
Definition set_sweep (s : directoryService) v :=
  mkDirectory (dirConfig s) (authorityEpoch s) (groups s) (watchers s) (nextGeneration s)
    (watcherCount s) v (dirMetrics s).
Definition metricD (f : metricCollector → metricCollector) (s : directoryService) :=
  mkDirectory (dirConfig s) (authorityEpoch s) (groups s) (watchers s) (nextGeneration s)
    (watcherCount s) (sweepScheduled s) (f (dirMetrics s)).

(** What a command's contexts provide, and the messages it sends. *)
Record input := mkInput {
  now : Time;
  source : ServiceRef;
  afterError : error rtError;
  sendFails : ServiceRef → bool
}.
Abbreviation sends := (list (ServiceRef * ServiceSet)) (only parsing).

Definition updateWatcherGauge (s : directoryService) : directoryService :=
  metricD (SetGauge "servicegroup_watchers" (watcherCount s)) s.

(** Drop the expired leases of every group, and the groups left empty. *)
Definition liveWatch (t : Time) (l : WatchLease) : bool := t <? wlExpiresAt l.

Definition pruneGroup (t : Time) (g : gmap ServiceRef WatchLease) : option (gmap ServiceRef WatchLease) :=
  let g := filter (λ e, liveWatch t e.2 = true) g in
  if bool_decide (g = ∅) then None else Some g.

Definition expiredIn (t : Time) (g : gmap ServiceRef WatchLease) : nat :=
  size (filter (λ e, ¬ liveWatch t e.2 = true) g).

Definition pruneExpiredWatches (t : Time) (s : directoryService) : directoryService :=
  let dropped := Z.of_nat (sum_list_with (expiredIn t) (map_to_list (watchers s)).*2) in
  let s := set_watchers s (omap (pruneGroup t) (watchers s)) (watcherCount s - dropped) in
  if 0 <? dropped then updateWatcherGauge s else s.

Definition scheduleWatchSweep (i : input) (s : directoryService) : directoryService * error groupError :=
  match afterError i with
  | Some e => (s, Some (ErrOther e))
  | None => (set_sweep s true, None)
  end.

(** ** Publishing *)

Definition leaseLe (a b : WatchLease) : Prop := refLe (Subscriber a) (Subscriber b).
#[global] Instance leaseLe_dec : RelDecision leaseLe.
Proof. intros a b. unfold leaseLe. apply _. Defined.

Definition orderedLeases (s : directoryService) (name : GroupName) : list WatchLease :=
  merge_sort leaseLe (map_to_list (default ∅ (watchers s !! name))).*2.

Definition notifyWatchers (i : input) (set : ServiceSet) (s : directoryService)
  : directoryService * sends :=
  foldl (λ '(s, out) l,
           (metricD (Inc (if sendFails i (Subscriber l) then "servicegroup_notify_failed_total"
                          else "servicegroup_notify_succeeded_total")) s,
            out ++ [(Subscriber l, set)]))
    (s, []) (orderedLeases s (Name set)).

Definition publish (i : input) (name : GroupName) (expected : ServiceSetVersion)
    (refs : list ServiceRef) (tags : option (gmap string string)) (s : directoryService)
  : directoryService * sends * res groupError ServiceSet :=
  if bool_decide (Node (source i) ≠ PublisherNode (dirConfig s)) then (s, [], Err ErrUnauthorized)
  else if negb (validExpectedVersion expected) then (s, [], Err ErrInvalidServiceSet)
  else
    match normalizeServiceSet name refs tags with
    | Err e => (s, [], Err e)
    | Ok set =>
        let current := groups s !! name in
        let conflict :=
          match current with
          | Some c => bool_decide (Version c ≠ expected)
          | None => bool_decide (expected ≠ zeroVersion)
          end in
        if conflict then
          (metricD (Inc "servicegroup_publish_conflict_total") s, [], Err ErrVersionConflict)
        else
          let revision :=
            match current with
            | Some c => if Revision (Version c) =? u64_max then None else Some (Revision (Version c) + 1)
            | None => Some 1
            end in
          match revision with
          | None => (s, [], Err ErrVersionExhausted)
          | Some revision =>
              let set := mkSet (Name set) (mkVersion (authorityEpoch s) revision) (Refs set) (Tags set) in
              let s := set_groups s (<[name := set]> (groups s)) in
              let s := metricD (Inc "servicegroup_publish_succeeded_total") s in
              let s := metricD (SetGauge "servicegroup_groups" (Z.of_nat (size (groups s)))) s in
              let '(s, out) := notifyWatchers i set s in (s, out, Ok set)
          end
    end.

Definition getSet (name : GroupName) (s : directoryService) : res groupError ServiceSet :=
  if negb (validGroup name) then Err ErrInvalidGroup
  else match groups s !! name with Some set => Ok set | None => Err ErrGroupNotFound end.

(** ** Watching *)

Record WatchResult := mkWatchResult { wrLease : WatchLease; wrCurrent : option ServiceSet }.

Definition nextGen (g : Z) : Z :=
  let g := u64_succ g in if g =? 0 then u64_succ g else g.

Definition watch (i : input) (name : GroupName) (subscriber : ServiceRef) (s : directoryService)
  : directoryService * res groupError WatchResult :=
  if negb (validGroup name) then (s, Err ErrInvalidGroup)
  else if negb (validServiceRef subscriber) then (s, Err ErrInvalidWatch)
  else if bool_decide (source i ≠ subscriber) then (s, Err ErrWatchOwnerMismatch)
  else
    let '(s, err) := if sweepScheduled s then (s, None) else scheduleWatchSweep i s in
    match err with
    | Some e => (s, Err e)
    | None =>
        let s := set_generation s (nextGen (nextGeneration s)) in
        let lease := mkWatchLease name subscriber (authorityEpoch s) (nextGeneration s)
                       (now i + WatchTTL (dirConfig s)) in
        let g := default ∅ (watchers s !! name) in
        let count := match g !! subscriber with None => watcherCount s + 1 | Some _ => watcherCount s end in
        let s := set_watchers s (<[name := <[subscriber := lease]> g]> (watchers s)) count in
        (updateWatcherGauge s, Ok (mkWatchResult lease (groups s !! name)))
    end.

(** The checks [renewWatch] and [unwatch] share. *)
Definition checkWatch (i : input) (l : WatchLease) (s : directoryService) : res groupError WatchLease :=
  if negb (validWatchLease l) then Err ErrInvalidWatch
  else if bool_decide (source i ≠ Subscriber l) then Err ErrWatchOwnerMismatch
  else if negb (wlEpoch l =? authorityEpoch s) then Err ErrWatchExpired
  else
    match default ∅ (watchers s !! Group l) !! Subscriber l with
    | Some current => if sameWatchLease current l then Ok current else Err ErrWatchExpired
    | None => Err ErrWatchExpired
    end.

Definition renewWatch (i : input) (l : WatchLease) (s : directoryService)
  : directoryService * res groupError WatchLease :=
  match checkWatch i l s with
  | Err e => (s, Err e)
  | Ok c =>
      let c := mkWatchLease (Group c) (Subscriber c) (wlEpoch c) (wlGeneration c)
                 (now i + WatchTTL (dirConfig s)) in
      let g := default ∅ (watchers s !! Group l) in
      (set_watchers s (<[Group l := <[Subscriber l := c]> g]> (watchers s)) (watcherCount s), Ok c)
  end.

Definition unwatch (i : input) (l : WatchLease) (s : directoryService)
  : directoryService * error groupError :=
  match checkWatch i l s with
  | Err e => (s, Some e)
  | Ok _ =>
      let g := delete (Subscriber l) (default ∅ (watchers s !! Group l)) in
      let w := if bool_decide (g = ∅) then delete (Group l) (watchers s)
               else <[Group l := g]> (watchers s) in
      (updateWatcherGauge (set_watchers s w (watcherCount s - 1)), None)
  end.

(** ** The handler *)

Inductive commandKind :=
| commandPublishServiceSet | commandGetServiceSet | commandWatchServiceGroup
| commandRenewServiceGroupWatch | commandUnwatchServiceGroup | commandSweepExpiredWatches.

Inductive command :=
| PublishServiceSet (name : GroupName) (expected : ServiceSetVersion) (refs : list ServiceRef)
    (tags : option (gmap string string))
| GetServiceSet (name : GroupName)
| WatchServiceGroup (name : GroupName) (subscriber : ServiceRef)
| RenewServiceGroupWatch (l : WatchLease)
| UnwatchServiceGroup (l : WatchLease)
| SweepExpiredWatches
| BadPayload (k : commandKind)         (** the command with a payload of another type *)
| Unsupported (id : CommandID).

Inductive errorCode :=
| responseInvalidGroup | responseInvalidServiceSet | responseGroupNotFound | responseVersionConflict
| responseVersionExhausted | responseUnauthorized | responseInvalidWatch | responseWatchExpired
| responseWatchOwnerMismatch | responseInvalidRequest.

Definition codeFromError (e : groupError) : errorCode :=
  match e with
  | ErrInvalidGroup => responseInvalidGroup
  | ErrInvalidServiceSet => responseInvalidServiceSet
  | ErrGroupNotFound => responseGroupNotFound
  | ErrVersionConflict => responseVersionConflict
  | ErrVersionExhausted => responseVersionExhausted
  | ErrUnauthorized => responseUnauthorized
  | ErrInvalidWatch => responseInvalidWatch
  | ErrWatchExpired => responseWatchExpired
  | ErrWatchOwnerMismatch => responseWatchOwnerMismatch
  | _ => responseInvalidRequest
  end.

Definition errorFromCode (c : errorCode) : groupError :=
  match c with
  | responseInvalidGroup => ErrInvalidGroup
  | responseInvalidServiceSet => ErrInvalidServiceSet
  | responseGroupNotFound => ErrGroupNotFound
  | responseVersionConflict => ErrVersionConflict
  | responseVersionExhausted => ErrVersionExhausted
  | responseUnauthorized => ErrUnauthorized
  | responseInvalidWatch => ErrInvalidWatch
  | responseWatchExpired => ErrWatchExpired
  | responseWatchOwnerMismatch => ErrWatchOwnerMismatch
  | responseInvalidRequest => ErrInvalidResponse
  end.

Inductive response :=
| serviceSetResponse (r : res errorCode ServiceSet)
| watchResultResponse (r : res errorCode WatchResult)
| watchLeaseResponse (r : res errorCode WatchLease)
| emptyResponse (e : option errorCode).

Inductive handled := Replied (r : response) | Returned (e : error groupError).

Definition coded {A} (r : res groupError A) : res errorCode A :=
  match r with Ok a => Ok a | Err e => Err (codeFromError e) end.

(** The answers to a payload of the wrong type. *)
Definition badPayload (k : commandKind) : handled :=
  match k with
  | commandPublishServiceSet | commandGetServiceSet =>
      Replied (serviceSetResponse (Err responseInvalidRequest))
  | commandWatchServiceGroup => Replied (watchResultResponse (Err responseInvalidRequest))
  | commandRenewServiceGroupWatch => Replied (watchLeaseResponse (Err responseInvalidRequest))
  | commandUnwatchServiceGroup => Replied (emptyResponse (Some responseInvalidRequest))
  | commandSweepExpiredWatches => Returned (Some ErrInvalidWatch)
  end.

Definition Handle (i : input) (c : command) (s : directoryService)
  : directoryService * sends * handled :=
  let s := pruneExpiredWatches (now i) s in
  match c with
  | PublishServiceSet name expected refs tags =>
      let '(s, out, r) := publish i name expected refs tags s in
      (s, out, Replied (serviceSetResponse (coded r)))
  | GetServiceSet name => (s, [], Replied (serviceSetResponse (coded (getSet name s))))
  | WatchServiceGroup name subscriber =>
      let '(s, r) := watch i name subscriber s in (s, [], Replied (watchResultResponse (coded r)))
  | RenewServiceGroupWatch l =>
      let '(s, r) := renewWatch i l s in (s, [], Replied (watchLeaseResponse (coded r)))
  | UnwatchServiceGroup l =>
      let '(s, e) := unwatch i l s in (s, [], Replied (emptyResponse (codeFromError <$> e)))
  | SweepExpiredWatches =>
      let s := set_sweep s false in
      if 0 <? watcherCount s then
        let '(s, e) := scheduleWatchSweep i s in (s, [], Returned e)
      else (s, [], Returned None)
  | BadPayload k => (s, [], badPayload k)
  | Unsupported _ => (s, [], Returned (Some (ErrOther (Sentinel ErrUnknownCommand))))
  end.

Definition Stop (s : directoryService) : directoryService :=
  let s := mkDirectory (dirConfig s) (authorityEpoch s) ∅ ∅ (nextGeneration s) 0 false (dirMetrics s) in
  metricD (SetGauge "servicegroup_watchers" 0) (metricD (SetGauge "servicegroup_groups" 0) s).
