(* ===== verification/DirectoryFacts.v ===== *)
(** * Facts about the service directory

    The canonical form of published sets ([normalize_spec]), the directory
    invariant ([dir_inv]) with its preservation by every command, and how the
    published sets evolve ([grows]). *)

From stdpp Require Import prelude gmap strings list sorting relations.
From Stdlib Require Import ZArith Lia.
From S2P Require Import Prelude Types Metrics GoText Directory.

Local Open Scope Z_scope.
Local Open Scope go_scope.

(** ** The order of service references *)

Lemma refLt_irrefl a : ¬ refLt a a.
Proof. intros [[_ ?]%ltb_le_neq|[_ ?]]; [done|lia]. Qed.

Lemma refLt_trans a b c : refLt a b → refLt b c → refLt a c.
Proof.
  intros [[H1 N1]%ltb_le_neq|[E1 L1]] [[H2 N2]%ltb_le_neq|[E2 L2]].
  - left. apply (ltb_trans _ (Node b)); by apply ltb_le_neq.
  - left. apply ltb_le_neq. by rewrite <- E2.
  - left. apply ltb_le_neq. by rewrite E1.
  - right. split; [congruence|lia].
Qed.

#[global] Instance refLt_strict : StrictOrder refLt.
Proof. split; [intros a; apply refLt_irrefl|intros a b c; apply refLt_trans]. Qed.

#[global] Instance refLe_trans : Transitive refLe.
Proof. intros a b c [-> | H1] [-> | H2]; unfold refLe; eauto using refLt_trans. Qed.

#[global] Instance refLe_total : Total refLe.
Proof.
  intros [n i] [m j]. unfold refLe, refLt. cbn.
  destruct (decide (n = m)) as [->|Hn].
  - destruct (Z.lt_total i j) as [?|[->|?]]; auto 6.
  - destruct (total String.le n m) as [H|H].
    + left. right. left. by apply ltb_le_neq.
    + right. right. left. apply ltb_le_neq. auto.
Qed.

(** ** Canonical service sets *)

(** [dedupe] drops exactly the repetitions of a sorted list. *)
Lemma dedupe_spec l : ∀ acc,
  StronglySorted refLt acc →
  StronglySorted refLe l →
  (∀ x y, last acc = Some x → y ∈ l → refLe x y) →
  StronglySorted refLt (dedupe acc l) ∧ (∀ x, x ∈ dedupe acc l ↔ x ∈ acc ∨ x ∈ l).
Proof.
  induction l as [|r l IH]; intros acc Hacc Hl Hlast; simpl.
  { split; [done|]. set_solver. }
  apply StronglySorted_cons in Hl as [Hrl Hl]. rewrite Forall_forall in Hrl.
  assert (Hsnoc : (∀ x, last acc = Some x → x ≠ r) →
    StronglySorted refLt (dedupe (acc ++ [r]) l)
    ∧ (∀ x, x ∈ dedupe (acc ++ [r]) l ↔ x ∈ acc ∨ x ∈ r :: l)).
  { intros Hne. destruct (IH (acc ++ [r])) as [HS HE]; [|done|..].
    - destruct acc as [|x acc _] using rev_ind; [repeat constructor|].
      rewrite last_snoc in Hne, Hlast.
      apply StronglySorted_app_2; [|done|repeat constructor].
      intros y z Hy ->%list_elem_of_singleton.
      destruct (Hlast x r eq_refl ltac:(set_solver)) as [->|Hxr]; [by destruct (Hne r)|].
      apply elem_of_app in Hy as [Hy| ->%list_elem_of_singleton]; [|done].
      etrans; [|done]. eapply StronglySorted_app_1_elem_of; [done..|set_solver].
    - intros x y. rewrite last_snoc. intros [= <-] ?. by apply Hrl.
    - split; [done|]. intros x. rewrite HE. set_solver. }
  destruct (last acc) as [p|] eqn:Hp; [|by apply Hsnoc].
  destruct (decide (p = r)) as [->|Hne].
  - rewrite bool_decide_true by done. destruct (IH acc) as [HS HE]; [done|done|..].
    { rewrite Hp. intros x y [= <-] ?. by apply Hrl. }
    split; [done|]. intros x. rewrite HE.
    assert (r ∈ acc) by by apply last_Some_elem_of. set_solver.
  - rewrite bool_decide_false by done. apply Hsnoc. by intros x [= <-].
Qed.

Lemma strictlySorted_spec l : strictlySorted l = true ↔ StronglySorted refLt l.
Proof.
  split.
  - intros H. apply Sorted_StronglySorted; [apply _|].
    induction l as [|a [|b l] IH]; [constructor|repeat constructor|].
    simpl in H. bool_prop. constructor; [by apply IH|by constructor].
  - intros H%StronglySorted_Sorted. induction H as [|a l _ IH Hd]; [done|].
    destruct l as [|b l]; [done|]. inversion Hd; subst.
    simpl. simpl in IH. by rewrite bool_decide_true by done.
Qed.

Record canonical (name : GroupName) (refs : list ServiceRef) (tags : option (gmap string string))
    (set : ServiceSet) : Prop := {
  can_name : Name set = name;
  can_version : Version set = zeroVersion;
  can_refs : ∃ l, Refs set = Some l ∧ StronglySorted refLt l ∧ ∀ x, x ∈ l ↔ x ∈ refs;
  can_tags : Tags set = Some (default ∅ tags);
  can_valid : ∀ v, validVersion v = true → validServiceSet (mkSet (Name set) v (Refs set) (Tags set)) = true
}.

Lemma normalize_spec name refs tags set :
  normalizeServiceSet name refs tags = Ok set → canonical name refs tags set.
Proof.
  unfold normalizeServiceSet. intros H. open_step H. bool_prop.
  destruct (dedupe_spec (merge_sort refLe refs) []) as [HS HE]; [constructor| |done|].
  { apply StronglySorted_merge_sort; apply _. }
  assert (Hin : ∀ x, x ∈ dedupe [] (merge_sort refLe refs) ↔ x ∈ refs).
  { intros x. rewrite HE, merge_sort_Permutation. set_solver. }
  split; simpl; [done|done|eauto|done|].
  intros v Hv. unfold validServiceSet. cbn [Name Version Refs Tags].
  rewrite Hv, Heqb, Heqb1, !andb_true_l. apply andb_true_iff; split.
  - apply forallb_forall. intros x Hx%list_elem_of_In. rewrite Hin in Hx.
    eapply forallb_forall; [done|]. by apply list_elem_of_In.
  - by apply strictlySorted_spec.
Qed.

(** ** The number of watch leases *)

Definition total (w : gmap GroupName (gmap ServiceRef WatchLease)) : nat :=
  sum_list_with size (map_to_list w).*2.

Lemma sum_map_insert {A} (f : A → nat) (m : gmap GroupName A) n x :
  m !! n = None →
  sum_list_with f (map_to_list (<[n := x]> m)).*2 = (f x + sum_list_with f (map_to_list m).*2)%nat.
Proof. intros H. by rewrite map_to_list_insert by done. Qed.

Lemma total_insert_fresh w n g : w !! n = None → total (<[n := g]> w) = (size g + total w)%nat.
Proof. apply sum_map_insert. Qed.

Lemma total_delete w n : total w = (size (default ∅ (w !! n)) + total (delete n w))%nat.
Proof.
  destruct (w !! n) as [g|] eqn:H; simpl.
  - rewrite <- (insert_id w n g) at 1 by done. rewrite <- insert_delete_eq.
    apply total_insert_fresh, lookup_delete_eq.
  - rewrite delete_id by done. by rewrite map_size_empty.
Qed.

Lemma total_insert w n g :
  (total (<[n := g]> w) + size (default ∅ (w !! n)) = total w + size g)%nat.
Proof.
  rewrite (total_delete w n), (total_delete (<[n := g]> w) n), lookup_insert_eq, delete_insert_eq. simpl. lia.
Qed.

Lemma size_split (t : Time) (g : gmap ServiceRef WatchLease) :
  (size (filter (λ e, liveWatch t e.2 = true) g) + expiredIn t g = size g)%nat.
Proof.
  unfold expiredIn. rewrite <- map_size_disj_union by apply map_disjoint_filter_complement.
  by rewrite map_filter_union_complement.
Qed.

Lemma total_prune t w :
  (total (omap (pruneGroup t) w) + sum_list_with (expiredIn t) (map_to_list w).*2 = total w)%nat.
Proof.
  induction w as [|n g w Hn IH] using map_ind; [done|].
  rewrite total_insert_fresh, sum_map_insert by done.
  pose proof (size_split t g) as Hs.
  assert (Hp : (size (default ∅ (pruneGroup t g)) + expiredIn t g = size g)%nat).
  { rewrite <- Hs. unfold pruneGroup. case_bool_decide as He; simpl; [|done].
    by rewrite He, !map_size_empty. }
  assert (Hw : omap (pruneGroup t) w !! n = None) by by rewrite lookup_omap, Hn.
  destruct (pruneGroup t g) as [g'|] eqn:Hg; simpl in Hp.
  - rewrite (omap_insert_Some _ _ _ _ g') by done. rewrite total_insert_fresh by done. lia.
  - rewrite omap_insert_None, delete_id by done. rewrite map_size_empty in Hp. lia.
Qed.

(** ** The invariant *)

Record group_ok (epoch : Z) (n : GroupName) (set : ServiceSet) : Prop := {
  go_valid : validServiceSet set = true;
  go_name : Name set = n;
  go_epoch : AuthorityEpoch (Version set) = epoch;
  go_revision : 1 ≤ Revision (Version set) ≤ u64_max
}.

Record lease_ok (epoch : Z) (n : GroupName) (sub : ServiceRef) (l : WatchLease) : Prop := {
  lo_group : Group l = n;
  lo_subscriber : Subscriber l = sub;
  lo_epoch : wlEpoch l = epoch;
  lo_generation : wlGeneration l ≠ 0;
  lo_valid : validGroup n = true ∧ validServiceRef sub = true
}.

Record watch_ok (epoch : Z) (n : GroupName) (g : gmap ServiceRef WatchLease) : Prop := {
  wo_ne : g ≠ ∅;
  wo_leases : map_Forall (lease_ok epoch n) g
}.

Record dir_inv (s : directoryService) : Prop := {
  di_epoch : authorityEpoch s ≠ 0;
  di_groups : map_Forall (group_ok (authorityEpoch s)) (groups s);
  di_watchers : map_Forall (watch_ok (authorityEpoch s)) (watchers s);
  di_count : watcherCount s = Z.of_nat (total (watchers s));
  di_gauges : Gauge (dirMetrics s) "servicegroup_watchers" = watcherCount s
              ∧ Gauge (dirMetrics s) "servicegroup_groups" = Z.of_nat (size (groups s))
}.

(** Published sets are only ever replaced by sets of a higher revision. *)
Record grows (s s' : directoryService) : Prop := {
  gr_epoch : authorityEpoch s' = authorityEpoch s;
  gr_config : dirConfig s' = dirConfig s;
  gr_groups : ∀ n set, groups s !! n = Some set → ∃ set', groups s' !! n = Some set'
    ∧ (set' = set ∨ Revision (Version set) < Revision (Version set'))
}.

#[global] Instance grows_preorder : PreOrder grows.
Proof.
  split.
  - intros s. split; eauto.
  - intros s1 s2 s3 [E1 C1 G1] [E2 C2 G2]. split; [congruence..|].
    intros n set (set2 & H2 & D2)%G1. destruct (G2 _ _ H2) as (set3 & H3 & D3).
    exists set3. split; [done|]. destruct D2 as [-> | ?], D3 as [-> | ?]; auto. right. lia.
Qed.

(** The steps of a command are judged by both. *)
Definition good (s s' : directoryService) : Prop := dir_inv s → dir_inv s' ∧ grows s s'.

#[global] Instance good_preorder : PreOrder good.
Proof.
  split; [by intros s|]. intros s1 s2 s3 H1 H2 [I2 ?]%H1. apply H2 in I2 as [? ?].
  split; [done|by etrans].
Qed.

(** A metric that is not one of the two gauges. *)
Lemma good_metric f s :
  (∀ m k, Gauge (f m) k = Gauge m k) → good s (metricD f s).
Proof. intros Hf [????[]]. split; split; simpl; rewrite ?Hf; eauto. Qed.

Lemma good_generation s v : good s (set_generation s v).
Proof. intros []. split; split; simpl; eauto. Qed.

Lemma good_sweep s v : good s (set_sweep s v).
Proof. intros []. split; split; simpl; eauto. Qed.

#[export] Hint Resolve good_metric good_generation good_sweep : gsr.

(** New watch tables, with the count and its gauge updated. *)
Lemma good_watchers s w n :
  (dir_inv s → map_Forall (watch_ok (authorityEpoch s)) w ∧ n = Z.of_nat (total w)) →
  good s (updateWatcherGauge (set_watchers s w n)).
Proof.
  intros H Hi. destruct (H Hi) as [Hw Hn]. destruct Hi as [????[]].
  split; split; simpl; rewrite ?Gauge_SetGauge; eauto.
Qed.

Lemma prune_ok epoch t (w : gmap GroupName (gmap ServiceRef WatchLease)) :
  map_Forall (watch_ok epoch) w → map_Forall (watch_ok epoch) (omap (pruneGroup t) w).
Proof.
  intros Hw n g. rewrite lookup_omap. intros (g0 & H0 & Hg)%bind_Some.
  unfold pruneGroup in Hg. case_bool_decide; simplify_eq. split; [done|].
  intros sub l [Hl _]%map_lookup_filter_Some. by apply (Hw _ _ H0).
Qed.

Lemma good_prune t s : good s (pruneExpiredWatches t s).
Proof.
  unfold pruneExpiredWatches. pose proof (total_prune t (watchers s)) as Ht.
  case_match eqn:Hd; bool_prop.
  - apply good_watchers. intros Hi. split; [apply prune_ok, Hi|]. rewrite (di_count _ Hi). lia.
  - intros Hi. destruct Hi as [? ? Hw Hc [Hg ?]]. split; split; simpl; eauto.
    + by apply prune_ok.
    + lia.
    + split; [|done]. rewrite Hg. lia.
Qed.

(** ** Publishing *)

Lemma notify_fold i (set : ServiceSet) (l : list WatchLease) s0 s (out : sends) :
  ∃ f, (∀ m k, Gauge (f m) k = Gauge m k)
    ∧ foldl (λ '(s, out) l,
           (metricD (Inc (if sendFails i (Subscriber l) then "servicegroup_notify_failed_total"
                          else "servicegroup_notify_succeeded_total")) s,
            out ++ [(Subscriber l, set)])) (metricD s0 s, out) l
      = (metricD (f ∘ s0) s, out ++ ((λ x, (Subscriber x, set)) <$> l)).
Proof.
  revert s0 out. induction l as [|x l IH]; intros s0 out; simpl.
  { exists id. split; [done|]. by rewrite app_nil_r. }
  destruct (IH (Inc (if sendFails i (Subscriber x) then "servicegroup_notify_failed_total"
      else "servicegroup_notify_succeeded_total") ∘ s0) (out ++ [(Subscriber x, set)])) as (f & Hf & E).
  exists (f ∘ Inc (if sendFails i (Subscriber x) then "servicegroup_notify_failed_total"
      else "servicegroup_notify_succeeded_total")).
  split; [intros m k; simpl; by rewrite Hf|]. rewrite <- app_assoc in E. exact E.
Qed.

Lemma notify_spec i set s :
  ∃ f, (∀ m k, Gauge (f m) k = Gauge m k)
    ∧ notifyWatchers i set s
      = (metricD f s, (λ x, (Subscriber x, set)) <$> orderedLeases s (Name set)).
Proof.
  destruct (notify_fold i set (orderedLeases s (Name set)) id s []) as (f & Hf & E).
  exists f. split; [done|]. unfold notifyWatchers. destruct s. exact E.
Qed.

(** The new group table, with its gauge. *)
Lemma good_publish s n set :
  group_ok (authorityEpoch s) n set →
  (∀ old, groups s !! n = Some old → Revision (Version old) < Revision (Version set)) →
  good s (metricD (SetGauge "servicegroup_groups" (Z.of_nat (size (<[n := set]> (groups s)))))
            (metricD (Inc "servicegroup_publish_succeeded_total")
               (set_groups s (<[n := set]> (groups s))))).
Proof.
  intros Hok Hrev [? Hg ? ? [Hw _]]. split; split; simpl; rewrite ?Gauge_SetGauge; eauto.
  - by apply map_Forall_insert_2.
  - intros m old Hm. destruct (decide (n = m)) as [->|Hne].
    + rewrite lookup_insert_eq. eauto.
    + rewrite lookup_insert_ne by done. eauto.
Qed.

(** What a publication does, on every branch. *)
Record published (i : input) (name : GroupName) (expected : ServiceSetVersion)
    (refs : list ServiceRef) (tags : option (gmap string string))
    (s s' : directoryService) (out : sends) (set : ServiceSet) : Prop := {
  pu_author : Node (source i) = PublisherNode (dirConfig s);
  pu_expected : default zeroVersion (Version <$> groups s !! name) = expected
                ∧ (groups s !! name = None ↔ expected = zeroVersion);
  pu_set : ∃ set0, normalizeServiceSet name refs tags = Ok set0
             ∧ set = mkSet name (mkVersion (authorityEpoch s) (Revision expected + 1)) (Refs set0) (Tags set0);
  pu_groups : groups s' = <[name := set]> (groups s);
  pu_watchers : watchers s' = watchers s;
  pu_sends : out = (λ l, (Subscriber l, set)) <$> orderedLeases s name
}.

Lemma validVersion_ok e r : e ≠ 0 → r ≠ 0 → validVersion (mkVersion e r) = true.
Proof. intros ? ?. unfold validVersion. simpl. by rewrite !(proj2 (Z.eqb_neq _ _)) by done. Qed.

Lemma publish_Ok i name expected refs tags s s' out set :
  dir_inv s →
  publish i name expected refs tags s = (s', out, Ok set) →
  published i name expected refs tags s s' out set ∧ good s s'.
Proof.
  intros Hi. unfold publish. case_bool_decide as Ha; [done|].
  destruct (validExpectedVersion expected) eqn:Hv; [|done]. simpl.
  destruct (normalizeServiceSet name refs tags) as [set0|] eqn:Hnorm; [|done].
  pose proof (normalize_spec _ _ _ _ Hnorm) as Hn.
  set (conflict := match groups s !! name with Some _ => _ | None => _ end).
  destruct conflict eqn:Hcf; [done|]. subst conflict.
  set (revision := match groups s !! name with Some _ => _ | None => _ end).
  destruct revision as [rev|] eqn:Hrev; [|done]. subst revision.
  assert (Hr : 1 ≤ rev ≤ u64_max ∧ rev = Revision expected + 1
    ∧ (∀ old, groups s !! name = Some old → Revision (Version old) < rev)
    ∧ default zeroVersion (Version <$> groups s !! name) = expected
    ∧ (groups s !! name = None ↔ expected = zeroVersion)).
  { destruct (groups s !! name) as [c|] eqn:Hc; bool_prop; simpl.
    - destruct (Z.eqb_spec (Revision (Version c)) u64_max); simplify_eq.
      pose proof (go_revision _ _ _ (di_groups _ Hi _ _ Hc)) as Hrev.
      apply dec_stable in Hcf. subst expected. split_and!; try lia; try done.
      + intros ? [= <-]. lia.
      + split; [done|]. intros E. rewrite E in Hrev. simpl in Hrev. lia.
    - apply dec_stable in Hcf as ->. simplify_eq. by split_and!. }
  destruct Hr as (Hr & -> & Hold & He).
  set (set1 := mkSet _ _ _ _).
  set (s1 := metricD _ (metricD _ (set_groups s _))).
  destruct (notify_spec i set1 s1) as (f & Hf & ->). intros [= <- <- <-].
  assert (Name set1 = name) as Hnm by apply Hn.
  split.
  - split; try done.
    + exists set0. split; [done|]. unfold set1. by rewrite (can_name _ _ _ _ Hn).
    + by rewrite <- Hnm.
  - transitivity s1; [|by apply good_metric]. apply good_publish; [|done].
    split; [|done|done|done].
    apply (can_valid _ _ _ _ Hn), validVersion_ok; [apply Hi|simpl; lia].
Qed.

Lemma publish_Err i name expected refs tags s s' out e :
  publish i name expected refs tags s = (s', out, Err e) →
  out = [] ∧ groups s' = groups s ∧ watchers s' = watchers s ∧ good s s'.
Proof.
  unfold publish. case_bool_decide; [by intros [= <- <- _]|].
  destruct (validExpectedVersion expected); [|by intros [= <- <- _]]. simpl.
  destruct (normalizeServiceSet name refs tags) as [set0|]; [|by intros [= <- <- _]].
  set (conflict := match groups s !! name with Some _ => _ | None => _ end).
  destruct conflict.
  { intros [= <- <- _]. split_and!; try done. by apply good_metric. }
  set (revision := match groups s !! name with Some _ => _ | None => _ end).
  destruct revision; [|by intros [= <- <- _]]. destruct (notifyWatchers _ _ _). done.
Qed.

(** ** Watching *)

Lemma good_schedule i s s' e : scheduleWatchSweep i s = (s', e) → good s s'.
Proof. unfold scheduleWatchSweep. destruct (afterError i); intros [= <- _]; [done|]. apply good_sweep. Qed.

Lemma nextGen_ne g : nextGen g ≠ 0.
Proof. unfold nextGen. destruct (Z.eqb_spec (u64_succ g) 0) as [->|?]; [|done]. by vm_compute. Qed.

(** Writing one lease into the tables. *)
Lemma insert_lease_ok epoch (w : gmap GroupName (gmap ServiceRef WatchLease)) n sub l :
  map_Forall (watch_ok epoch) w → lease_ok epoch n sub l →
  map_Forall (watch_ok epoch) (<[n := <[sub := l]> (default ∅ (w !! n))]> w).
Proof.
  intros Hw Hl. apply map_Forall_insert_2; [|done]. split; [apply insert_non_empty|].
  apply map_Forall_insert_2; [done|]. destruct (w !! n) as [g|] eqn:Hg; simpl.
  - by apply (Hw n g).
  - apply map_Forall_empty.
Qed.

Lemma insert_lease_total (w : gmap GroupName (gmap ServiceRef WatchLease)) n sub l :
  let g := default ∅ (w !! n) in
  Z.of_nat (total (<[n := <[sub := l]> g]> w))
  = Z.of_nat (total w) + match g !! sub with Some _ => 0 | None => 1 end.
Proof.
  intros g. pose proof (total_insert w n (<[sub := l]> g)) as H. fold g in H.
  rewrite map_size_insert in H. destruct (g !! sub); simpl in H; lia.
Qed.

Lemma good_watch i name sub s : good s (watch i name sub s).1.
Proof.
  unfold watch. destruct (validGroup name) eqn:Hg; [|done].
  destruct (validServiceRef sub) eqn:Hr; [|done]. simpl. case_bool_decide; [done|].
  destruct (if sweepScheduled s then _ else _) as [s1 err] eqn:Hs.
  transitivity s1.
  { destruct (sweepScheduled s); [by simplify_eq|]. by eapply good_schedule. }
  destruct err; [done|]. simpl.
  transitivity (set_generation s1 (nextGen (nextGeneration s1))); [apply good_generation|].
  apply good_watchers. intros Hi. split.
  - apply insert_lease_ok; [apply Hi|]. split; try done. apply nextGen_ne.
  - rewrite insert_lease_total. destruct Hi as [? ? ? Hc ?]. simpl in *. rewrite Hc. destruct (_ !! sub); lia.
Qed.

Lemma checkWatch_Ok i l s c :
  checkWatch i l s = Ok c →
  c = l ∧ source i = Subscriber l ∧ default ∅ (watchers s !! Group l) !! Subscriber l = Some l.
Proof.
  unfold checkWatch, sameWatchLease. intros H. open_step H. bool_prop. subst.
  split_and!; try done. by apply dec_stable.
Qed.

Lemma current_watch_ok s n sub l :
  dir_inv s → default ∅ (watchers s !! n) !! sub = Some l → lease_ok (authorityEpoch s) n sub l.
Proof.
  intros Hi H. destruct (watchers s !! n) as [g|] eqn:Hg; simpl in H; [|done].
  by apply (di_watchers _ Hi _ _ Hg).
Qed.

Lemma good_renew i l s : good s (renewWatch i l s).1.
Proof.
  unfold renewWatch. destruct (checkWatch i l s) as [c|] eqn:Hc; [|done].
  apply checkWatch_Ok in Hc as (-> & _ & Hl). simpl. intros Hi.
  pose proof (current_watch_ok _ _ _ _ Hi Hl) as Hok.
  pose proof (insert_lease_total (watchers s) (Group l) (Subscriber l)
    (mkWatchLease (Group l) (Subscriber l) (wlEpoch l) (wlGeneration l)
       (now i + WatchTTL (dirConfig s)))) as Ht.
  cbv zeta in Ht. rewrite Hl in Ht. destruct Hi as [? ? ? Hc ?].
  split; split; simpl; eauto.
  - apply insert_lease_ok; [done|]. by destruct Hok.
  - rewrite Hc. simpl in Ht. lia.
Qed.

Lemma good_unwatch i l s : good s (unwatch i l s).1.
Proof.
  unfold unwatch. destruct (checkWatch i l s) as [c|] eqn:Hc; [|done].
  apply checkWatch_Ok in Hc as (-> & _ & Hl). simpl.
  set (g := default ∅ (watchers s !! Group l)) in *.
  apply good_watchers. intros Hi. pose proof (total_delete (watchers s) (Group l)) as Ht. fold g in Ht.
  assert (size g = S (size (delete (Subscriber l) g))) as Hsz.
  { rewrite <- (insert_delete_id g _ _ Hl) at 1. by rewrite map_size_insert_None by apply lookup_delete_eq. }
  rewrite (di_count _ Hi). case_bool_decide as He.
  - rewrite He, map_size_empty in Hsz. split; [|lia].
    intros n g' [_ H]%lookup_delete_Some. by apply (di_watchers _ Hi).
  - pose proof (total_insert (watchers s) (Group l) (delete (Subscriber l) g)) as H. fold g in H.
    split; [|lia]. apply map_Forall_insert_2; [|apply Hi]. split; [done|].
    intros sub l' [_ Hl']%lookup_delete_Some. by eapply current_watch_ok.
Qed.

(** ** Every command *)

Lemma Handle_good i c s : good s (Handle i c s).1.1.
Proof.
  unfold Handle. set (s1 := pruneExpiredWatches (now i) s).
  transitivity s1; [apply good_prune|].
  destruct c as [n v r t|n|n sub|l|l| |k|id]; simpl; try done.
  - destruct (publish i n v r t s1) as [[s' out] [set|e]] eqn:Hp; simpl.
    + intros Hi. by eapply publish_Ok.
    + by eapply publish_Err.
  - pose proof (good_watch i n sub s1). by destruct (watch i n sub s1).
  - pose proof (good_renew i l s1). by destruct (renewWatch i l s1).
  - pose proof (good_unwatch i l s1). by destruct (unwatch i l s1).
  - transitivity (set_sweep s1 false); [apply good_sweep|]. case_match; [|done].
    destruct (scheduleWatchSweep i _) eqn:Hs. by eapply good_schedule.
Qed.

(** * What the service directory guarantees

    Reachable directories satisfy the invariant; a publication is a
    compare-and-set that loses no update and tells exactly the live watchers. *)

(** ** Reachable directories *)

Inductive dir_step (s : directoryService) : directoryService → Prop :=
| dir_handle i c : dir_step s (Handle i c s).1.1.

(** Created with a non-zero epoch ([newAuthorityEpoch] draws until it has one) and
    a collector in which nobody has set the directory's gauges. *)
Definition dir_initial (s : directoryService) : Prop :=
  ∃ c epoch mc, NewDirectoryService c epoch mc = Ok s ∧ epoch ≠ 0
    ∧ Gauge mc "servicegroup_watchers" = 0 ∧ Gauge mc "servicegroup_groups" = 0.

Definition dir_reachable (s : directoryService) : Prop := ∃ s0, dir_initial s0 ∧ rtc dir_step s0 s.

Lemma dir_steps_good s s' : rtc dir_step s s' → good s s'.
Proof. induction 1 as [|s1 s2 s3 [i c] _ IH]; [done|]. etrans; [apply Handle_good|exact IH]. Qed.

Lemma dir_reachable_inv s : dir_reachable s → dir_inv s.
Proof.
  intros (s0 & (c & epoch & mc & H & ? & ? & ?) & Hs). apply (dir_steps_good _ _ Hs).
  unfold NewDirectoryService in H. open_step H; by split.
Qed.

(** ** Compare-and-set *)

Lemma Handle_publish_Ok i name v refs tags s s' out set :
  dir_inv s →
  Handle i (PublishServiceSet name v refs tags) s = (s', out, Replied (serviceSetResponse (Ok set))) →
  published i name v refs tags (pruneExpiredWatches (now i) s) s' out set ∧ dir_inv s'.
Proof.
  intros Hi. destruct (good_prune (now i) s Hi) as [Hi1 _]. unfold Handle.
  destruct (publish i name v refs tags _) as [[s1 out1] [set1|e]] eqn:Hp; [|done].
  intros [= <- <- <-]. destruct (publish_Ok _ _ _ _ _ _ _ _ _ Hi1 Hp) as [? Hg].
  split; [done|]. by apply Hg.
Qed.

(** C11. No lost update: once a publication to a group succeeds against an
    expected version, no later publication against that same version can
    succeed, whoever sends it and whatever commands the directory handles in
    between; the directory stays at the published revision or a later one. *)
Theorem publish_no_lost_update s s' s'' i i' name v refs refs' tags tags' out set :
  dir_reachable s →
  Handle i (PublishServiceSet name v refs tags) s = (s', out, Replied (serviceSetResponse (Ok set))) →
  rtc dir_step s' s'' →
  (∃ set'', groups s'' !! name = Some set''
     ∧ (set'' = set ∨ Revision (Version set) < Revision (Version set'')))
  ∧ ∀ set', (Handle i' (PublishServiceSet name v refs' tags') s'').2
            ≠ Replied (serviceSetResponse (Ok set')).
Proof.
  intros Hr%dir_reachable_inv Hp Hs. destruct (Handle_publish_Ok _ _ _ _ _ _ _ _ _ Hr Hp) as [Hpub Hi'].
  destruct (dir_steps_good _ _ Hs Hi') as [Hi'' Hgr].
  destruct (gr_groups _ _ Hgr name set) as (set'' & Hset & Hrev).
  { rewrite (pu_groups _ _ _ _ _ _ _ _ _ Hpub). apply lookup_insert_eq. }
  split; [eauto|]. intros set' Hh.
  destruct (Handle i' _ s'') as [[s3 out'] h] eqn:Hp''. simpl in Hh. subst h.
  apply Handle_publish_Ok in Hp'' as [Hpub' _]; [|done].
  destruct (pu_expected _ _ _ _ _ _ _ _ _ Hpub') as [He _].
  assert (groups (pruneExpiredWatches (now i') s'') = groups s'') as Hg.
  { unfold pruneExpiredWatches. by case_match. }
  rewrite Hg, Hset in He. simpl in He.
  destruct (pu_set _ _ _ _ _ _ _ _ _ Hpub) as (set0 & _ & Hse).
  assert (Revision (Version set) = Revision v + 1) by by rewrite Hse.
  assert (Revision (Version set) ≤ Revision (Version set'')) by (destruct Hrev as [->|?]; lia).
  rewrite He in *. lia.
Qed.

(** ** A directory to try things on *)

Definition demoDir : directoryService :=
  mkDirectory (mkDirConfig "ops" 30 5) 9 ∅ ∅ 0 0 false newMetricCollector.
Definition dirInput (t : Time) (r : ServiceRef) : input := mkInput t r None (λ _, false).
Definition demoWatched : directoryService :=
  (Handle (dirInput 10 (mkRef "b" 2)) (WatchServiceGroup "rooms" (mkRef "b" 2))
    (Handle (dirInput 10 (mkRef "a" 7)) (WatchServiceGroup "rooms" (mkRef "a" 7)) demoDir).1.1).1.1.
Definition demoPublish (v : ServiceSetVersion) : command :=
  PublishServiceSet "rooms" v [mkRef "b" 1; mkRef "a" 1; mkRef "b" 1] None.
Definition demoOps : input := dirInput 12 (mkRef "ops" 1).
Definition demoSet : ServiceSet := mkSet "rooms" (mkVersion 9 1) (Some [mkRef "a" 1; mkRef "b" 1]) (Some ∅).

Lemma demoWatched_reachable : dir_reachable demoWatched.
Proof.
  exists demoDir. split.
  - exists (mkDirConfig "ops" 30 5), 9, newMetricCollector. by vm_compute.
  - eapply rtc_l; [apply dir_handle|]. eapply rtc_l; [apply dir_handle|]. apply rtc_refl.
Qed.

Lemma publish_no_lost_update_witness :
  ∃ set'', groups (Handle demoOps (demoPublish zeroVersion) demoWatched).1.1 !! "rooms" = Some set''
    ∧ (set'' = demoSet ∨ 1 < Revision (Version set'')).
Proof.
  apply (publish_no_lost_update demoWatched (Handle demoOps (demoPublish zeroVersion) demoWatched).1.1
    (Handle demoOps (demoPublish zeroVersion) demoWatched).1.1 demoOps demoOps "rooms" zeroVersion
    [mkRef "b" 1; mkRef "a" 1; mkRef "b" 1] [] None None
    [(mkRef "a" 7, demoSet); (mkRef "b" 2, demoSet)] demoSet).
  - apply demoWatched_reachable.
  - by vm_compute.
  - apply rtc_refl.
Defined.

(** ** Notifications *)

Lemma prune_lookup t s n sub l :
  (∃ g, watchers (pruneExpiredWatches t s) !! n = Some g ∧ g !! sub = Some l)
  ↔ (∃ g, watchers s !! n = Some g ∧ g !! sub = Some l) ∧ t < wlExpiresAt l.
Proof.
  assert (watchers (pruneExpiredWatches t s) = omap (pruneGroup t) (watchers s)) as ->.
  { unfold pruneExpiredWatches. by case_match. }
  split.
  - intros (g & Hg & Hl). rewrite lookup_omap in Hg. apply bind_Some in Hg as (g0 & H0 & Hg).
    unfold pruneGroup in Hg. case_bool_decide; simplify_eq.
    apply map_lookup_filter_Some in Hl as [Hl Ht]. unfold liveWatch in Ht. bool_prop. eauto.
  - intros [(g & Hg & Hl) Ht].
    assert (filter (λ e, liveWatch t e.2 = true) g !! sub = Some l) as Hf.
    { apply map_lookup_filter_Some. split; [done|]. by apply Z.ltb_lt. }
    eexists. rewrite lookup_omap, Hg. split; [|exact Hf]. simpl. unfold pruneGroup.
    rewrite bool_decide_false; [done|]. intros E. by rewrite E in Hf.
Qed.

#[local] Instance leaseLe_trans : Transitive leaseLe.
Proof. intros a b c. apply refLe_trans. Qed.
#[local] Instance leaseLe_total : Total leaseLe.
Proof. intros a b. apply refLe_total. Qed.

(** The notified subscribers: strictly ordered, hence without repetition. *)
Lemma orderedLeases_spec s n :
  dir_inv s →
  StronglySorted refLt (Subscriber <$> orderedLeases s n)
  ∧ ∀ sub, sub ∈ Subscriber <$> orderedLeases s n
      ↔ ∃ g l, watchers s !! n = Some g ∧ g !! sub = Some l.
Proof.
  intros Hi. unfold orderedLeases.
  set (w := default ∅ (watchers s !! n)). set (l := (map_to_list w).*2).
  assert (Hsub : ∀ k x, w !! k = Some x → Subscriber x = k).
  { intros k x Hk. by apply (current_watch_ok _ n k x Hi Hk). }
  assert (Hkeys : Subscriber <$> l = (map_to_list w).*1).
  { unfold l. rewrite <- list_fmap_compose. apply list_fmap_ext. intros j [k x] Hj. simpl.
    apply Hsub. apply elem_of_map_to_list. by eapply list_elem_of_lookup_2. }
  assert (Hp : Subscriber <$> merge_sort leaseLe l ≡ₚ (map_to_list w).*1).
  { by rewrite merge_sort_Permutation, Hkeys. }
  split.
  - assert (StronglySorted refLe (Subscriber <$> merge_sort leaseLe l)) as HS.
    { apply (StronglySorted_fmap _ leaseLe); [by intros|]. apply StronglySorted_merge_sort; apply _. }
    assert (NoDup (Subscriber <$> merge_sort leaseLe l)) as Hnd.
    { rewrite Hp. apply NoDup_fst_map_to_list. }
    revert HS Hnd. generalize (Subscriber <$> merge_sort leaseLe l). clear.
    intros l. induction 1 as [|a l HS IH Hall]; intros Hnd; constructor.
    + apply IH. by apply NoDup_cons in Hnd as [_ ?].
    + apply NoDup_cons in Hnd as [Hnin _]. rewrite Forall_forall in *. intros x Hx.
      destruct (Hall x Hx) as [->|?]; done.
  - intros sub. rewrite Hp, list_elem_of_fmap. split.
    + intros ([k x] & -> & Hk%elem_of_map_to_list). unfold w in Hk.
      destruct (watchers s !! n) as [g|]; simpl in Hk; [|done]. eauto.
    + intros (g & x & Hg & Hx). exists (sub, x). split; [done|].
      apply elem_of_map_to_list. unfold w. by rewrite Hg.
Qed.

(** A successful publication stores the set and sends it to exactly the
    subscribers whose watch lease on that group has not expired, each once, in
    node and identifier order; and from then on the group resolves to it. *)
Theorem publish_notifies s s' i name v refs tags out set :
  dir_reachable s →
  Handle i (PublishServiceSet name v refs tags) s = (s', out, Replied (serviceSetResponse (Ok set))) →
  StronglySorted refLt out.*1
  ∧ (∀ x, x ∈ out.*2 → x = set)
  ∧ (∀ sub, sub ∈ out.*1 ↔ ∃ g l, watchers s !! name = Some g ∧ g !! sub = Some l ∧ now i < wlExpiresAt l)
  ∧ (∀ x, x ∈ refsOf set ↔ x ∈ refs)
  ∧ getSet name s' = Ok set.
Proof.
  intros Hr%dir_reachable_inv Hp. destruct (Handle_publish_Ok _ _ _ _ _ _ _ _ _ Hr Hp) as [Hpub Hi'].
  destruct (good_prune (now i) s Hr) as [Hi1 _].
  destruct (orderedLeases_spec _ name Hi1) as [HS HE].
  destruct (pu_set _ _ _ _ _ _ _ _ _ Hpub) as (set0 & Hcan%normalize_spec & Hse).
  pose proof (pu_sends _ _ _ _ _ _ _ _ _ Hpub) as ->.
  assert (((λ l, (Subscriber l, set)) <$> orderedLeases (pruneExpiredWatches (now i) s) name).*1
    = Subscriber <$> orderedLeases (pruneExpiredWatches (now i) s) name) as Hf.
  { by rewrite <- list_fmap_compose. }
  rewrite Hf. split_and!; [done| | | |].
  - intros x (y & -> & (z & -> & _)%list_elem_of_fmap)%list_elem_of_fmap. done.
  - intros sub. rewrite HE. split.
    + intros (g & l & H). destruct (proj1 (prune_lookup (now i) s name sub l)) as [(g0 & ? & ?) ?]; eauto 10.
    + intros (g & l & ? & ? & ?). destruct (proj2 (prune_lookup (now i) s name sub l)) as (g0 & ? & ?); eauto.
  - destruct (can_refs _ _ _ _ Hcan) as (l & Hl & _ & Hin). intros x. unfold refsOf. rewrite Hse. simpl.
    by rewrite Hl.
  - assert (groups s' !! name = Some set) as Hg.
    { rewrite (pu_groups _ _ _ _ _ _ _ _ _ Hpub). apply lookup_insert_eq. }
    unfold getSet. rewrite Hg. pose proof (di_groups _ Hi' _ _ Hg) as Hok.
    pose proof (go_valid _ _ _ Hok) as Hv. unfold validServiceSet in Hv. rewrite (go_name _ _ _ Hok) in Hv.
    bool_prop. by rewrite H.
Qed.

Lemma publish_notifies_witness :
  StronglySorted refLt [mkRef "a" 7; mkRef "b" 2]
  ∧ getSet "rooms" (Handle demoOps (demoPublish zeroVersion) demoWatched).1.1 = Ok demoSet.
Proof.
  destruct (publish_notifies demoWatched (Handle demoOps (demoPublish zeroVersion) demoWatched).1.1
    demoOps "rooms" zeroVersion [mkRef "b" 1; mkRef "a" 1; mkRef "b" 1] None
    [(mkRef "a" 7, demoSet); (mkRef "b" 2, demoSet)] demoSet) as (HS & _ & _ & _ & HG).
  - apply demoWatched_reachable.
  - by vm_compute.
  - split; [exact HS|exact HG].
Defined.
