(* ===== verification/DirectoryClient.v ===== *)
(** * The directory client

    [src/tooling/servicegroup/client.go]: typed access to a directory through a
    caller.  A value of the wire type of a response is a [response]; the type
    assertions of the client are matches on its constructor.  [client_publish]
    shows that between a client and a directory no check of the client rejects
    an honest answer. *)

From stdpp Require Import prelude gmap strings list sorting.
From Stdlib Require Import ZArith Lia.
From S2P Require Import Prelude Types Metrics GoText Directory DirectoryFacts.

Local Open Scope Z_scope.
Local Open Scope go_scope.

(** [CommandCaller.Call] at the client's fixed target, over the state of the world. *)
Class DirectoryCaller (S : Type) := {
  call : command → S → S * res groupError response
}.

Definition sameServiceSetContent (a b : ServiceSet) : bool :=
  bool_decide (Name a = Name b) && bool_decide (refsOf a = refsOf b)
  && bool_decide (default ∅ (Tags a) = default ∅ (Tags b)).

(** [errorFromCode] on the code of a response. *)
Definition decodeResponse {X} (r : res errorCode X) : res groupError X :=
  match r with Ok x => Ok x | Err c => Err (errorFromCode c) end.

Definition serviceSetFromResponse (value : response) (name : GroupName) : res groupError ServiceSet :=
  match value with
  | serviceSetResponse r =>
      let! set := decodeResponse r in
      if negb (validServiceSet set) || bool_decide (Name set ≠ name) then Err ErrInvalidResponse
      else Ok set
  | _ => Err ErrInvalidResponse
  end.

(** A result without a current set carries the zero value of one. *)
Definition validWireWatchResult (r : WatchResult) : bool :=
  validWatchLease (wrLease r)
  && match wrCurrent r with
     | None => true
     | Some c => validServiceSet c && bool_decide (Name c = Group (wrLease r))
                 && (AuthorityEpoch (Version c) =? wlEpoch (wrLease r))
     end.

Section Client.
Context {S : Type} {DC : DirectoryCaller S}.

Definition Publish (name : GroupName) (expected : ServiceSetVersion) (refs : list ServiceRef)
    (tags : option (gmap string string)) (w : S) : S * res groupError ServiceSet :=
  if negb (validExpectedVersion expected) then (w, Err ErrInvalidServiceSet)
  else
    match normalizeServiceSet name refs tags with
    | Err e => (w, Err e)
    | Ok input =>
        let '(w, value) := call (PublishServiceSet (Name input) expected (refsOf input) (Tags input)) w in
        (w, let! value := value in
            let! set := serviceSetFromResponse value (Name input) in
            if bool_decide (expected = zeroVersion) && negb (Revision (Version set) =? 1)
            then Err ErrInvalidResponse
            else if bool_decide (expected ≠ zeroVersion)
                    && (negb (AuthorityEpoch (Version set) =? AuthorityEpoch expected)
                        || negb (Revision (Version set) =? u64_succ (Revision expected)))
            then Err ErrInvalidResponse
            else if negb (sameServiceSetContent set input) then Err ErrInvalidResponse
            else Ok set)
    end.

Definition Get (name : GroupName) (w : S) : S * res groupError ServiceSet :=
  if negb (validGroup name) then (w, Err ErrInvalidGroup)
  else
    let '(w, value) := call (GetServiceSet name) w in
    (w, let! value := value in serviceSetFromResponse value name).

Definition Watch (name : GroupName) (subscriber : ServiceRef) (w : S) : S * res groupError WatchResult :=
  if negb (validGroup name) then (w, Err ErrInvalidGroup)
  else if negb (validServiceRef subscriber) then (w, Err ErrInvalidWatch)
  else
    let '(w, value) := call (WatchServiceGroup name subscriber) w in
    (w, let! value := value in
        match value with
        | watchResultResponse r =>
            let! r := decodeResponse r in
            if negb (validWireWatchResult r) then Err ErrInvalidResponse
            else if bool_decide (Group (wrLease r) ≠ name)
                    || bool_decide (Subscriber (wrLease r) ≠ subscriber)
            then Err ErrInvalidResponse
            else Ok r
        | _ => Err ErrInvalidResponse
        end).

Definition RenewWatch (lease : WatchLease) (w : S) : S * res groupError WatchLease :=
  if negb (validWatchLease lease) then (w, Err ErrInvalidWatch)
  else
    let '(w, value) := call (RenewServiceGroupWatch lease) w in
    (w, let! value := value in
        match value with
        | watchLeaseResponse r =>
            let! renewed := decodeResponse r in
            if negb (validWatchLease renewed) then Err ErrInvalidResponse
            else if bool_decide (Group renewed ≠ Group lease)
                    || bool_decide (Subscriber renewed ≠ Subscriber lease)
                    || negb (wlEpoch renewed =? wlEpoch lease)
                    || negb (wlGeneration renewed =? wlGeneration lease)
                    || (wlExpiresAt renewed <? wlExpiresAt lease)
            then Err ErrInvalidResponse
            else Ok renewed
        | _ => Err ErrInvalidResponse
        end).

Definition Unwatch (lease : WatchLease) (w : S) : S * error groupError :=
  if negb (validWatchLease lease) then (w, Some ErrInvalidWatch)
  else
    let '(w, value) := call (UnwatchServiceGroup lease) w in
    (w, match value with
        | Err e => Some e
        | Ok (emptyResponse e) => errorFromCode <$> e
        | Ok _ => Some ErrInvalidResponse
        end).
End Client.

(** ** A client of the directory itself *)

(** A call that reaches the directory with input [i]; the world is the directory
    and the notifications it has sent.  An error the handler returns reaches the
    caller as such. *)
Definition callDirectory (i : input) : DirectoryCaller (directoryService * sends) := {|
  call c '(s, log) :=
    let '(s, out, h) := Handle i c s in
    ((s, log ++ out), match h with
                      | Replied r => Ok r
                      | Returned (Some e) => Err e
                      | Returned None => Err ErrInvalidResponse
                      end)
|}.

(** Normalising twice changes nothing. *)
Lemma sorted_le_of_lt l : StronglySorted refLt l → StronglySorted refLe l.
Proof.
  induction 1 as [|x l _ IH Hx]; constructor; [done|].
  eapply Forall_impl; [exact Hx|]. intros y Hy. by right.
Qed.

#[global] Instance refLe_antisymm : AntiSymm (=) refLe.
Proof.
  intros a b [? | H1] [? | H2]; [by subst..|]. by destruct (refLt_irrefl a (refLt_trans _ _ _ H1 H2)).
Qed.

Lemma dedupe_strict l : ∀ acc,
  StronglySorted refLt (acc ++ l) → dedupe acc l = acc ++ l.
Proof.
  induction l as [|r l IH]; intros acc H; simpl; [by rewrite app_nil_r|].
  assert (dedupe (acc ++ [r]) l = acc ++ r :: l) as Hnext.
  { rewrite IH; rewrite <- app_assoc; done. }
  destruct (last acc) as [p|] eqn:Hp; [|done]. rewrite bool_decide_false; [done|]. intros ->.
  apply (refLt_irrefl r). eapply StronglySorted_app_1_elem_of; [exact H|by apply last_Some_elem_of|set_solver].
Qed.

Lemma sort_dedupe_strict l : StronglySorted refLt l → dedupe [] (merge_sort refLe l) = l.
Proof.
  intros HS. assert (merge_sort refLe l = l) as ->; [|by apply (dedupe_strict l [])].
  apply (StronglySorted_unique refLe); [|by apply sorted_le_of_lt|apply merge_sort_Permutation].
  apply StronglySorted_merge_sort; apply _.
Qed.

Lemma normalize_Ok name refs tags set :
  normalizeServiceSet name refs tags = Ok set ↔
  validGroup name = true ∧ forallb validServiceRef refs = true ∧ validTags (default ∅ tags) = true
  ∧ set = mkSet name zeroVersion (Some (dedupe [] (merge_sort refLe refs))) (Some (default ∅ tags)).
Proof.
  unfold normalizeServiceSet.
  destruct (validGroup name), (forallb validServiceRef refs), (validTags (default ∅ tags)); naive_solver.
Qed.

Lemma normalize_idempotent name refs tags set :
  normalizeServiceSet name refs tags = Ok set →
  normalizeServiceSet (Name set) (refsOf set) (Tags set) = Ok set.
Proof.
  intros H. destruct (can_refs _ _ _ _ (normalize_spec _ _ _ _ H)) as (l & Hl & HS & Hin).
  apply normalize_Ok in H as (Hn & Hr & Ht & ->). simpl in Hl. injection Hl as Hl.
  unfold refsOf. cbn [Name Refs Tags default]. rewrite Hl. apply normalize_Ok.
  split_and!; [done| |done|].
  - apply forallb_forall. intros x Hx%list_elem_of_In. apply Hin in Hx.
    eapply forallb_forall; [exact Hr|]. by apply list_elem_of_In.
  - simpl. by rewrite sort_dedupe_strict.
Qed.

(** A publication is a function of the normalised set only. *)
Lemma publish_normalized i name expected refs tags set s :
  normalizeServiceSet name refs tags = Ok set →
  publish i (Name set) expected (refsOf set) (Tags set) s = publish i name expected refs tags s.
Proof.
  intros H. unfold publish. rewrite (normalize_idempotent _ _ _ _ H), H.
  by rewrite (can_name _ _ _ _ (normalize_spec _ _ _ _ H)).
Qed.

(** The errors of a publication survive their wire codes. *)
Lemma publish_error_code i name expected refs tags s s' out e :
  publish i name expected refs tags s = (s', out, Err e) → errorFromCode (codeFromError e) = e.
Proof.
  unfold publish. intros H. case_bool_decide; [by simplify_eq|].
  destruct (validExpectedVersion expected); simpl in H; [|by simplify_eq].
  destruct (normalizeServiceSet name refs tags) as [set|e'] eqn:Hn; simpl in H.
  2: { unfold normalizeServiceSet in Hn. open_step Hn; by simplify_eq. }
  open_step H; by simplify_eq.
Qed.

(** The answer to a successful publication passes every check of the client. *)
Lemma published_accepted i name expected refs tags s s' out set input :
  dir_inv s → dir_inv s' →
  published i name expected refs tags s s' out set →
  normalizeServiceSet name refs tags = Ok input →
  serviceSetFromResponse (serviceSetResponse (Ok set)) (Name input) = Ok set
  ∧ (expected = zeroVersion → Revision (Version set) = 1)
  ∧ (expected ≠ zeroVersion → AuthorityEpoch (Version set) = AuthorityEpoch expected
       ∧ Revision (Version set) = u64_succ (Revision expected))
  ∧ sameServiceSetContent set input = true.
Proof.
  intros Hi Hi' Hp Hn.
  assert (groups s' !! name = Some set) as Hg.
  { rewrite (pu_groups _ _ _ _ _ _ _ _ _ Hp). apply lookup_insert_eq. }
  pose proof (di_groups _ Hi' _ _ Hg) as Hok.
  destruct (pu_set _ _ _ _ _ _ _ _ _ Hp) as (set0 & Hs0 & ->).
  rewrite Hn in Hs0. injection Hs0 as <-.
  pose proof (normalize_spec _ _ _ _ Hn) as Hcan.
  destruct (pu_expected _ _ _ _ _ _ _ _ _ Hp) as [He Hz].
  split_and!.
  - unfold serviceSetFromResponse. cbn [decodeResponse res_bind Name].
    rewrite (go_valid _ _ _ Hok), (can_name _ _ _ _ Hcan). by rewrite bool_decide_false by (intros Hx; by apply Hx).
  - by intros ->.
  - intros Hne. simpl. destruct (groups s !! name) as [old|] eqn:Hold; [|by destruct Hne; apply Hz].
    simpl in He. subst expected. pose proof (di_groups _ Hi _ _ Hold) as Ho.
    split; [by rewrite (go_epoch _ _ _ Ho)|].
    pose proof (go_revision _ _ _ Ho). pose proof (go_revision _ _ _ Hok) as Hr. simpl in Hr.
    rewrite u64_succ_small; [done|]. lia.
  - unfold sameServiceSetContent, refsOf. cbn [Name Refs Tags]. rewrite (can_name _ _ _ _ Hcan).
    by rewrite !(bool_decide_true (_ = _)).
Qed.

(** Between a client and a directory the wire is transparent: with input the
    client itself would accept, [Client.Publish] leaves the directory exactly
    where [publish] leaves it, with the same notifications, and returns the same
    set or the same error; no client-side check (name, validity, epoch and
    revision arithmetic, content) ever rejects what the directory answers. *)
Theorem client_publish i name expected refs tags s log :
  dir_inv s →
  validExpectedVersion expected = true →
  is_Ok (normalizeServiceSet name refs tags) = true →
  Publish (DC := callDirectory i) name expected refs tags (s, log)
  = let '(s', out, r) := publish i name expected refs tags (pruneExpiredWatches (now i) s) in
    ((s', log ++ out), r).
Proof.
  intros Hi Hv Hok. unfold Publish. rewrite Hv. cbn [negb].
  destruct (normalizeServiceSet name refs tags) as [input|] eqn:Hn; [|done].
  cbn [call callDirectory]. unfold Handle. rewrite (publish_normalized _ _ _ _ _ _ _ Hn).
  destruct (good_prune (now i) s Hi) as [Hi1 _].
  destruct (publish i name expected refs tags _) as [[s' out] [set|e]] eqn:Hp; cbn [coded].
  - destruct (publish_Ok _ _ _ _ _ _ _ _ _ Hi1 Hp) as [Hpub Hg]. destruct (Hg Hi1) as [Hi' _].
    destruct (published_accepted _ _ _ _ _ _ _ _ _ _ Hi1 Hi' Hpub Hn) as (E1 & H0 & H1 & E2).
    unfold res_bind. rewrite E1, E2. cbn [negb]. do 2 f_equal.
    destruct (decide (expected = zeroVersion)) as [E|E].
    + rewrite (bool_decide_true _ E), (H0 E). cbn.
      by rewrite bool_decide_false by (intros Hx; by apply Hx).
    + rewrite (bool_decide_false _ E), (bool_decide_true _ E).
      destruct (H1 E) as [-> ->]. by rewrite !Z.eqb_refl.
  - cbn [res_bind serviceSetFromResponse decodeResponse]. by rewrite (publish_error_code _ _ _ _ _ _ _ _ _ Hp).
Qed.

Definition emptyDirectory : directoryService :=
  mkDirectory (mkDirConfig "ops" 30 5) 9 ∅ ∅ 0 0 false newMetricCollector.

Lemma client_publish_witness :
  (Publish (DC := callDirectory (mkInput 12 (mkRef "ops" 1) None (λ _, false)))
     "rooms" zeroVersion [mkRef "b" 1; mkRef "a" 1; mkRef "b" 1] None (emptyDirectory, [])).2
  = Ok (mkSet "rooms" (mkVersion 9 1) (Some [mkRef "a" 1; mkRef "b" 1]) (Some ∅)).
Proof.
  rewrite (client_publish (mkInput 12 (mkRef "ops" 1) None (λ _, false)) "rooms" zeroVersion
    [mkRef "b" 1; mkRef "a" 1; mkRef "b" 1] None emptyDirectory []).
  - by vm_compute.
  - by split.
  - by vm_compute.
  - by vm_compute.
Defined.
