(* ===== verification/Routing.v ===== *)
(** * Routing over service sets

    [src/tooling/servicegroup/routing.go]: the three routing policies and the
    router.  A policy is an instance of [RoutingPolicy]; the router's dispatcher,
    a runtime or a service context, is an instance of [CommandSender] and
    [CommandCaller], and the runtime of [Runtime] is one. *)

From stdpp Require Import prelude gmap strings numbers list sorting.
From Stdlib Require Import ZArith Lia.
From S2P Require Import Prelude Types Metrics Mailbox Registry Pending Timers Bytes ClusterWire Tasks Runtime Lifecycle Demo GoText Directory.

Local Open Scope Z_scope.

Abbreviation RoutingKey := string (only parsing).

(** ** Policies *)

(** [RoutingPolicy]: [Pick] may change the policy's own state. *)
Class RoutingPolicy (P : Type) := {
  Pick : ServiceSet → RoutingKey → P → P * res groupError (list ServiceRef)
}.

Definition validateRoutingSet (set : ServiceSet) : error groupError :=
  if negb (validServiceSet set) then Some ErrInvalidServiceSet
  else if bool_decide (refsOf set = []) then Some ErrNoRoute
  else None.

(** FNV-1a over 64 bits, as [hash/fnv] computes it. *)
Definition fnvOffset : Z := 14695981039346656037.
Definition fnvPrime : Z := 1099511628211.

Fixpoint fnv1a (h : Z) (key : string) : Z :=
  match key with
  | EmptyString => h
  | String c key => fnv1a (u64 (Z.lxor h (Z.of_N (Ascii.N_of_ascii c)) * fnvPrime)) key
  end.

(** [set.Refs[index]]; an index out of range would panic. *)
Definition at_ (refs : list ServiceRef) (index : Z) : option ServiceRef := refs !! Z.to_nat index.

Definition single (o : option ServiceRef) : list ServiceRef := option_list o.

Record Hash := mkHash {}.

Definition HashPick (set : ServiceSet) (key : RoutingKey) (p : Hash)
  : Hash * res groupError (list ServiceRef) :=
  match validateRoutingSet set with
  | Some e => (p, Err e)
  | None =>
      if bool_decide (key = "") || negb (ValidString key) then (p, Err ErrInvalidRoutingKey)
      else (p, Ok (single (at_ (refsOf set) (fnv1a fnvOffset key mod Z.of_nat (length (refsOf set))))))
  end.
#[global] Instance Hash_policy : RoutingPolicy Hash := {| Pick := HashPick |}.

Record RoundRobin := mkRoundRobin { next : Z }.

Definition RoundRobinPick (set : ServiceSet) (_ : RoutingKey) (p : RoundRobin)
  : RoundRobin * res groupError (list ServiceRef) :=
  match validateRoutingSet set with
  | Some e => (p, Err e)
  | None =>
      let added := u64_succ (next p) in
      (mkRoundRobin added,
       Ok (single (at_ (refsOf set) (u64 (added - 1) mod Z.of_nat (length (refsOf set))))))
  end.
#[global] Instance RoundRobin_policy : RoutingPolicy RoundRobin := {| Pick := RoundRobinPick |}.

Record Broadcast := mkBroadcast {}.

Definition BroadcastPick (set : ServiceSet) (_ : RoutingKey) (p : Broadcast)
  : Broadcast * res groupError (list ServiceRef) :=
  match validateRoutingSet set with
  | Some e => (p, Err e)
  | None => (p, Ok (refsOf set))
  end.
#[global] Instance Broadcast_policy : RoutingPolicy Broadcast := {| Pick := BroadcastPick |}.

(** ** Selecting targets *)

(** The loop over the picked targets, with the set of those seen. *)
Fixpoint checkTargets (members seen : gset ServiceRef) (targets : list ServiceRef) : bool :=
  match targets with
  | [] => true
  | target :: targets =>
      validServiceRef target && bool_decide (target ∈ members) && negb (bool_decide (target ∈ seen))
      && checkTargets members ({[target]} ∪ seen) targets
  end.

(** [None] is the nil policy. *)
Definition selectRoutingTargets `{RoutingPolicy P} (set : ServiceSet) (policy : option P)
    (key : RoutingKey) : option P * res groupError (list ServiceRef) :=
  match validateRoutingSet set, policy with
  | Some e, _ => (policy, Err e)
  | None, None => (policy, Err ErrInvalidRoutingResult)
  | None, Some p =>
      let '(p, r) := Pick set key p in
      match r with
      | Err e => (Some p, Err e)
      | Ok targets =>
          if bool_decide (targets = []) then (Some p, Err ErrInvalidRoutingResult)
          else if checkTargets (list_to_set (refsOf set)) ∅ targets then (Some p, Ok targets)
          else (Some p, Err ErrInvalidRoutingResult)
      end
  end.

(** ** The router *)

Class CommandSender (D V : Type) := {
  dispatchSend : ServiceRef → CommandID → V → D → D * error rtError
}.
Class CommandCaller (D V R : Type) := {
  dispatchCall : ServiceRef → CommandID → V → D → D * res rtError R
}.

Inductive routeError :=
| RouteErr (e : groupError)
| DispatchErr (e : rtError)
| BroadcastErr (failures : list (ServiceRef * rtError)).

(** The loop of [Send]: every target is attempted, whatever happened before. *)
Fixpoint sendEach `{CommandSender D V} (command : CommandID) (payload : V)
    (targets : list ServiceRef) (d : D) : D * list (ServiceRef * rtError) :=
  match targets with
  | [] => (d, [])
  | target :: targets =>
      let '(d, err) := dispatchSend target command payload d in
      let '(d, failures) := sendEach command payload targets d in
      (d, match err with Some e => (target, e) :: failures | None => failures end)
  end.

Definition RouterSend `{RoutingPolicy P, CommandSender D V} (set : ServiceSet) (policy : option P)
    (key : RoutingKey) (command : CommandID) (payload : V) (d : D)
  : D * option P * error routeError :=
  let '(policy, r) := selectRoutingTargets set policy key in
  match r with
  | Err e => (d, policy, Some (RouteErr e))
  | Ok [target] =>
      let '(d, err) := dispatchSend target command payload d in (d, policy, DispatchErr <$> err)
  | Ok targets =>
      let '(d, failures) := sendEach command payload targets d in
      (d, policy, if bool_decide (failures = []) then None else Some (BroadcastErr failures))
  end.

Definition RouterCall `{RoutingPolicy P, CommandCaller D V R} (set : ServiceSet) (policy : option P)
    (key : RoutingKey) (command : CommandID) (payload : V) (d : D)
  : D * option P * res routeError R :=
  let '(policy, r) := selectRoutingTargets set policy key in
  match r with
  | Err e => (d, policy, Err (RouteErr e))
  | Ok [target] =>
      let '(d, answer) := dispatchCall target command payload d in
      (d, policy, match answer with Ok v => Ok v | Err e => Err (DispatchErr e) end)
  | Ok _ => (d, policy, Err (RouteErr ErrMultipleTargets))
  end.

(** The runtime as a dispatcher. *)
#[global] Instance runtime_sender {A} {CC : ClusterCodec A} {CT : ClusterTransport} {CL : Clock}
    {MP : MapPick ServiceRef Time} : CommandSender (Runtime A) (any A) := {|
  dispatchSend target command payload := Send target command payload
|}.

(** ** What the selection guarantees *)

Lemma checkTargets_spec members targets : ∀ seen,
  checkTargets members seen targets = true ↔
  Forall (λ t, validServiceRef t = true) targets ∧ (∀ t, t ∈ targets → t ∈ members ∧ t ∉ seen)
  ∧ NoDup targets.
Proof.
  induction targets as [|t ts IH]; intros seen; simpl.
  { split; [|done]. intros _. split_and!; [constructor|set_solver|constructor]. }
  rewrite !andb_true_iff, negb_true_iff, bool_decide_eq_true, bool_decide_eq_false, IH, Forall_cons, NoDup_cons.
  set_solver.
Qed.

Lemma select_Ok `{RoutingPolicy P} set (p : P) key q targets :
  selectRoutingTargets set (Some p) key = (q, Ok targets) →
  validServiceSet set = true ∧ targets ≠ [] ∧ NoDup targets ∧ targets ⊆ refsOf set.
Proof.
  unfold selectRoutingTargets, validateRoutingSet.
  destruct (validServiceSet set); [|done]. simpl. case_bool_decide; [done|].
  destruct (Pick set key p) as [p' [ts|e]]; [|done].
  destruct (bool_decide (ts = [])) eqn:Hne; [done|].
  destruct (checkTargets _ _ _) eqn:Hc; [|done]. intros [= _ <-]. bool_prop.
  apply checkTargets_spec in Hc as (_ & Hin & Hnd). split_and!; [done..|].
  intros t [Ht _]%Hin. by apply elem_of_list_to_set in Ht.
Qed.

(** A valid, non-empty set. *)
Definition routable (set : ServiceSet) : Prop := validServiceSet set = true ∧ refsOf set ≠ [].

Lemma routable_validate set : routable set → validateRoutingSet set = None.
Proof. intros [Hv Hne]. unfold validateRoutingSet. rewrite Hv. simpl. by rewrite bool_decide_false. Qed.

Lemma at_in refs z : refs ≠ [] → ∃ r, at_ refs (z mod Z.of_nat (length refs)) = Some r ∧ r ∈ refs.
Proof.
  intros Hne. assert (0 < Z.of_nat (length refs)) by (destruct refs; simpl; [done|lia]).
  pose proof (Z.mod_pos_bound z (Z.of_nat (length refs)) ltac:(lia)).
  destruct (lookup_lt_is_Some_2 refs (Z.to_nat (z mod Z.of_nat (length refs)))) as [r Hr]; [lia|].
  exists r. split; [done|]. by eapply list_elem_of_lookup_2.
Qed.

(** * What the router guarantees

    Every target a router attempts is a distinct member of the set, whatever the
    policy answers, and failures are reported exactly; round robin is fair. *)

(** ** Recording what is attempted *)

(** A dispatcher that also keeps every attempt with its answer. *)
Definition Recorded (D : Type) : Type := D * list (ServiceRef * error rtError).

#[global] Instance recorded_sender `{CommandSender D V} : CommandSender (Recorded D) V := {|
  dispatchSend t c v '(d, log) :=
    let '(d, err) := dispatchSend t c v d in ((d, log ++ [(t, err)]), err)
|}.

Definition failuresOf (log : list (ServiceRef * error rtError)) : list (ServiceRef * rtError) :=
  omap (λ x, pair x.1 <$> x.2) log.

Lemma failuresOf_nil log : failuresOf log = [] ↔ Forall (λ x, x.2 = None) log.
Proof.
  induction log as [|[t [e|]] log IH]; csimpl; rewrite ?Forall_cons; [done| |].
  - split; [done|]. by intros [? _].
  - unfold failuresOf in IH. simpl. rewrite IH. naive_solver.
Qed.

Lemma sendEach_recorded `{CommandSender D V} command (payload : V) targets (d : D) log d' log' fs :
  sendEach (D := Recorded D) command payload targets (d, log) = ((d', log'), fs) →
  ∃ new, log' = log ++ new ∧ new.*1 = targets ∧ fs = failuresOf new.
Proof.
  revert d log fs. induction targets as [|t ts IH]; intros d log fs; simpl.
  { intros [= <- <- <-]. exists []. by rewrite app_nil_r. }
  destruct (dispatchSend t command payload d) as [d1 err].
  destruct (sendEach _ _ ts _) as [[d2 log2] fs2] eqn:Hs. intros [= <- <- <-].
  apply IH in Hs as (new & -> & <- & ->). exists ((t, err) :: new).
  rewrite <- app_assoc. split_and!; [done..|]. unfold failuresOf. csimpl. by destruct err.
Qed.

(** Whatever the policy answers and however dispatching goes, a routed [Send]
    attempts distinct members of the set only, and its result says exactly what
    happened: nil when at least one target was attempted and all accepted, a
    routing error when nothing was attempted, the single target's error, or the
    failed targets of a broadcast in order with their errors. *)
Theorem router_send_reports `{RoutingPolicy P, CommandSender D V}
    set (policy : option P) key command (payload : V) (d d' : D) log q err :
  RouterSend (D := Recorded D) set policy key command payload (d, []) = ((d', log), q, err) →
  NoDup log.*1 ∧ log.*1 ⊆ refsOf set
  ∧ match err with
    | None => log ≠ [] ∧ Forall (λ x, x.2 = None) log
    | Some (RouteErr _) => log = [] ∧ d' = d
    | Some (DispatchErr e) => ∃ t, log = [(t, Some e)]
    | Some (BroadcastErr fs) => fs ≠ [] ∧ fs = failuresOf log
    end.
Proof.
  unfold RouterSend. destruct (selectRoutingTargets set policy key) as [q1 r] eqn:Hsel.
  destruct r as [targets|e].
  2: { intros [= <- <- _ <-]. split_and!; [apply NoDup_nil_2|set_solver|done..]. }
  assert (∃ p, policy = Some p) as [p ->].
  { destruct policy; [eauto|]. unfold selectRoutingTargets in Hsel. by destruct (validateRoutingSet set). }
  apply select_Ok in Hsel as (_ & Hne & Hnd & Hsub).
  destruct targets as [|t [|u ts]]; [done| |].
  - simpl. destruct (dispatchSend t command payload d) as [d1 e1].
    intros [= <- <- _ <-]. split_and!; [done..|]. destruct e1 as [e|]; simpl; [eauto|].
    split; [done|]. by repeat constructor.
  - destruct (sendEach _ _ _ _) as [[d1 log1] fs] eqn:Hs. intros [= <- <- _ <-].
    apply sendEach_recorded in Hs as (new & -> & Hnew & ->). simpl. rewrite Hnew.
    split_and!; [done..|]. case_bool_decide as Hf; [|done].
    split; [by destruct new|]. by apply failuresOf_nil.
Qed.

#[local] Existing Instances demoCodec demoTransport demoClock demoPick.

(** Broadcasting on a node where one of the two members does not exist. *)
Definition demoRoute :=
  RouterSend (D := Recorded (Runtime unit))
    (mkSet "rooms" (mkVersion 9 1) (Some [mkRef "game" 1; mkRef "game" 2]) (Some ∅))
    (Some (mkBroadcast)) "" 3 AnyNil (demoCreated, []).

Lemma router_send_reports_witness :
  demoRoute.2 = Some (BroadcastErr [(mkRef "game" 2, Sentinel ErrServiceNotFound)])
  ∧ demoRoute.1.1.2.*1 ⊆ [mkRef "game" 1; mkRef "game" 2].
Proof.
  assert (demoRoute = ((demoRoute.1.1.1, demoRoute.1.1.2), demoRoute.1.2, demoRoute.2)) as E
    by by destruct demoRoute as [[[? ?] ?] ?].
  destruct (router_send_reports (P := Broadcast) _ _ _ _ _ _ _ _ _ _ E) as (_ & Hs & _).
  split; [by vm_compute|exact Hs].
Defined.

(** ** Round robin *)

(** The targets of [m] successive selections with one policy. *)
Fixpoint picks (m : nat) (set : ServiceSet) (key : RoutingKey) (p : RoundRobin) : list ServiceRef :=
  match m with
  | O => []
  | S m => match selectRoutingTargets set (Some p) key with
           | (Some p, Ok targets) => targets ++ picks m set key p
           | _ => []
           end
  end.

Definition slot (refs : list ServiceRef) (z : Z) : option ServiceRef :=
  at_ refs (z mod Z.of_nat (length refs)).

Lemma select_round_robin set key c :
  routable set → is_u64 c →
  ∃ r, slot (refsOf set) c = Some r
    ∧ selectRoutingTargets set (Some (mkRoundRobin c)) key = (Some (mkRoundRobin (u64_succ c)), Ok [r]).
Proof.
  intros Hr Hc. destruct (at_in (refsOf set) c (proj2 Hr)) as (r & Hat & Hin).
  exists r. split; [done|]. unfold selectRoutingTargets. rewrite (routable_validate _ Hr).
  simpl. unfold RoundRobinPick. rewrite (routable_validate _ Hr). simpl.
  assert (u64 (u64_succ c - 1) = c) as ->.
  { unfold u64_succ, Z.sub. rewrite u64_add_l. rewrite <- (u64_small c) at 2 by done. f_equal. lia. }
  rewrite Hat. simpl. rewrite (bool_decide_true (r ∈ _)) by by apply elem_of_list_to_set.
  rewrite (bool_decide_false (r ∈ ∅)) by set_solver.
  assert (validServiceRef r = true) as ->; [|done].
  destruct Hr as [Hv _]. unfold validServiceSet in Hv. unfold refsOf in Hin.
  destruct (Refs set) as [refs|], (Tags set); bool_prop; try done. simpl in Hin.
  eapply forallb_forall; [done|]. by apply list_elem_of_In.
Qed.

Lemma picks_slots set key m : ∀ c,
  routable set → 0 ≤ c → c + Z.of_nat m ≤ u64_mod →
  picks m set key (mkRoundRobin c) = omap (slot (refsOf set)) (seqZ c (Z.of_nat m)).
Proof.
  induction m as [|m IH]; intros c Hr Hc Hm; [done|].
  rewrite seqZ_cons by lia. simpl picks. csimpl.
  destruct (select_round_robin set key c) as (r & Hs & ->); [done|unfold is_u64; lia|].
  rewrite Hs. replace (Z.pred (Z.of_nat (S m))) with (Z.of_nat m) by lia.
  destruct (decide (m = 0%nat)) as [->|Hm0]; [done|].
  rewrite u64_succ_small by (unfold u64_max; lia).
  simpl. f_equal. rewrite IH by (done || lia). by rewrite <- Z.add_1_r.
Qed.

Lemma omap_fmap {X Y W} (f : Y → option W) (g : X → Y) (l : list X) : omap f (g <$> l) = omap (f ∘ g) l.
Proof. induction l as [|x l IH]; [done|]. csimpl. by rewrite IH. Qed.

(** A block of consecutive numbers meets every residue once. *)
Lemma block_residues c (n : nat) :
  (n > 0)%nat → (λ z, z mod Z.of_nat n) <$> seqZ c (Z.of_nat n) ≡ₚ seqZ 0 (Z.of_nat n).
Proof.
  intros Hn. apply submseteq_length_Permutation.
  - apply NoDup_submseteq.
    + apply NoDup_fmap_2_strong; [|apply NoDup_seqZ].
      intros x y Hx%elem_of_seqZ Hy%elem_of_seqZ Heq.
      pose proof (Z.div_mod x (Z.of_nat n) ltac:(lia)). pose proof (Z.div_mod y (Z.of_nat n) ltac:(lia)).
      destruct (Z.lt_trichotomy (x / Z.of_nat n) (y / Z.of_nat n)) as [?|[?|?]]; nia.
    + intros z (x & -> & _)%list_elem_of_fmap. apply elem_of_seqZ.
      pose proof (Z.mod_pos_bound x (Z.of_nat n) ltac:(lia)). lia.
  - by rewrite length_fmap, !length_seqZ.
Qed.

Lemma slots_all refs : omap (at_ refs) (seqZ 0 (Z.of_nat (length refs))) = refs.
Proof.
  assert (∀ pre, omap (at_ (pre ++ refs)) (seqZ (Z.of_nat (length pre)) (Z.of_nat (length refs))) = refs) as H.
  { induction refs as [|r refs IH]; intros pre; [done|].
    rewrite seqZ_cons by (simpl; lia). csimpl. unfold at_ at 1. rewrite Nat2Z.id.
    rewrite list_lookup_middle by done. f_equal.
    specialize (IH (pre ++ [r])). rewrite length_app, <- app_assoc in IH. simpl in IH.
    replace (Z.succ (Z.of_nat (length pre))) with (Z.of_nat (length pre + 1)) by lia.
    by replace (Z.pred (Z.of_nat (S (length refs)))) with (Z.of_nat (length refs)) by lia. }
  apply (H []).
Qed.

(** Round robin is fair: any [k * n] successive selections from a set of [n]
    members pick every member exactly [k] times, wherever the counter stands, as
    long as the 64-bit counter does not wrap around. *)
Theorem round_robin_fair set key c k :
  routable set → 0 ≤ c → c + Z.of_nat (k * length (refsOf set)) ≤ u64_mod →
  picks (k * length (refsOf set)) set key (mkRoundRobin c) ≡ₚ mjoin (replicate k (refsOf set)).
Proof.
  intros Hr Hc Hm. rewrite picks_slots by done. clear key.
  assert (length (refsOf set) > 0)%nat as Hpos by (destruct Hr as [_ ?]; destruct (refsOf set); [done|simpl; lia]).
  revert c Hc Hm. induction k as [|k IH]; intros c Hc Hm; [done|]. simpl Nat.mul.
  rewrite Nat2Z.inj_add, seqZ_app, omap_app by lia. simpl.
  apply Permutation_app; [|apply IH; lia].
  rewrite <- (slots_all (refsOf set)) at 3. rewrite <- (block_residues c) by done.
  by rewrite omap_fmap.
Qed.

Definition demoSet3 : ServiceSet :=
  mkSet "rooms" (mkVersion 9 1) (Some [mkRef "a" 1; mkRef "a" 2; mkRef "b" 1]) (Some ∅).

Lemma round_robin_fair_witness :
  picks 6 demoSet3 "" (mkRoundRobin 4) ≡ₚ refsOf demoSet3 ++ refsOf demoSet3.
Proof.
  apply (round_robin_fair demoSet3 "" 4 2); [split; [by vm_compute|done]|lia|by vm_compute].
Defined.
