(* ===== verification/Drain.v ===== *)
(** * Visitor leases and the drain guard

    [src/tooling/drain]: the registry of visitors, which knows who still uses a
    service ([service.go]), the guard that stops external work of a service that
    is being drained ([guard.go]), and the typed clients of both ([client.go],
    [guard_client.go]).

    The clock is read twice by a command that grants or renews a lease: [now] is
    the reading of the pruning, [later] the second one.  The wire types of
    [commands.go] have the fields of the types they stand for, so a response is
    the value and an error code. *)

From stdpp Require Import prelude gmap strings list sorting.
From Stdlib Require Import ZArith Lia.
From S2P Require Import Prelude Types Metrics GoText.

Local Open Scope Z_scope.

Inductive drainError :=
| ErrInvalidConfig | ErrInvalidCaller | ErrInvalidLease | ErrInvalidTarget | ErrInvalidVisitor | ErrLeaseExpired
| ErrLeaseOwnerMismatch | ErrLeaseExhausted | ErrInvalidResponse | ErrUnsupportedCommand | ErrInvalidGuard
| ErrUnauthorized | ErrDraining
| ErrOther (e : rtError).

Record VisitorLease := mkLease {
  Target : ServiceRef; Visitor : ServiceRef; AuthorityEpoch : Z; Generation : Z; Weak : bool; ExpiresAt : Time
}.
#[global] Instance VisitorLease_eq_dec : EqDecision VisitorLease.
Proof. solve_decision. Defined.

Record VisitorRef := mkVisitorRef { vrVisitor : ServiceRef; vrGeneration : Z; vrWeak : bool; vrExpiresAt : Time }.
Record VisitorRegistryConfig := mkConfig { LeaseTTL : Duration; SweepInterval : Duration }.

Definition defaultLeaseTTL : Duration := 30 * 10 ^ 9.
Definition defaultSweepInterval : Duration := 5 * 10 ^ 9.

(** ** Validation *)

Definition validNode (node : NodeID) : bool := ValidString node && negb (blank node).
Definition validServiceRef (ref : ServiceRef) : bool := validNode (Node ref) && negb (ID ref =? 0).
Definition validLease (l : VisitorLease) : bool :=
  validServiceRef (Target l) && validServiceRef (Visitor l) && negb (AuthorityEpoch l =? 0)
  && negb (Generation l =? 0) && negb (ExpiresAt l =? 0).
Definition validVisitorRef (v : VisitorRef) : bool :=
  validServiceRef (vrVisitor v) && negb (vrGeneration v =? 0) && negb (vrExpiresAt v =? 0).
Definition sameLease (a b : VisitorLease) : bool := bool_decide (a = b).

(** The order of [sortVisitorRefs] and of the test on adjacent visitors. *)
Definition refLt (a b : ServiceRef) : Prop :=
  String.ltb (Node a) (Node b) = true ∨ (Node a = Node b ∧ ID a < ID b).
#[global] Instance refLt_dec : RelDecision refLt.
Proof. intros a b. unfold refLt. apply _. Defined.
Definition visitorLe (a b : VisitorRef) : Prop := vrVisitor a = vrVisitor b ∨ refLt (vrVisitor a) (vrVisitor b).
#[global] Instance visitorLe_dec : RelDecision visitorLe.
Proof. intros a b. unfold visitorLe. apply _. Defined.

Fixpoint adjacentOk (l : list VisitorRef) : bool :=
  match l with
  | [] => true
  | a :: l' => match l' with
               | [] => true
               | b :: _ => bool_decide (refLt (vrVisitor a) (vrVisitor b)) && adjacentOk l'
               end
  end.
Definition validVisitorRefs (l : list VisitorRef) : bool := forallb validVisitorRef l && adjacentOk l.

(** ** The registry *)

Record visitorRegistryService := mkRegistry {
  config : VisitorRegistryConfig;
  authorityEpoch : Z;
  leases : gmap ServiceRef (gmap ServiceRef VisitorLease);
  nextGeneration : Z;
  sweepScheduled : bool;
  metrics : metricCollector
}.

(** [newAuthorityEpoch]: eight random bytes, zero excluded. *)
Definition newAuthorityEpoch (random : Z) : Z := if random =? 0 then 1 else random.

Definition NewVisitorRegistryService (c : VisitorRegistryConfig) (random : Z) (mc : metricCollector)
  : res drainError visitorRegistryService :=
  if (LeaseTTL c <? 0) || (SweepInterval c <? 0) then Err ErrInvalidConfig
  else
    let ttl := if LeaseTTL c =? 0 then defaultLeaseTTL else LeaseTTL c in
    let sweep := if SweepInterval c =? 0 then defaultSweepInterval else SweepInterval c in
    Ok (mkRegistry (mkConfig ttl sweep) (newAuthorityEpoch random) ∅ 0 false mc).

Definition set_leases v (s : visitorRegistryService) :=
  mkRegistry (config s) (authorityEpoch s) v (nextGeneration s) (sweepScheduled s) (metrics s).
Definition set_generation v (s : visitorRegistryService) :=
  mkRegistry (config s) (authorityEpoch s) (leases s) v (sweepScheduled s) (metrics s).
Definition set_sweep v (s : visitorRegistryService) :=
  mkRegistry (config s) (authorityEpoch s) (leases s) (nextGeneration s) v (metrics s).
Definition metric (f : metricCollector → metricCollector) (s : visitorRegistryService) :=
  mkRegistry (config s) (authorityEpoch s) (leases s) (nextGeneration s) (sweepScheduled s) (f (metrics s)).

(** What a command's contexts provide. *)
Record input := mkInput { now : Time; later : Time; source : ServiceRef; afterError : error rtError }.

Definition allLeases (s : visitorRegistryService) : list VisitorLease :=
  concat ((λ g : gmap ServiceRef VisitorLease, (map_to_list g).*2) <$> (map_to_list (leases s)).*2).

Definition updateLeaseGauges (s : visitorRegistryService) : visitorRegistryService :=
  let strong := filter (λ l, Weak l = false) (allLeases s) in
  metric (SetGauge "visitor_strong_leases" (Z.of_nat (length strong)))
    (metric (SetGauge "visitor_leases" (Z.of_nat (length (allLeases s)))) s).

Definition live (t : Time) (l : VisitorLease) : Prop := t < ExpiresAt l.

#[global] Instance live_dec t l : Decision (live t l).
Proof. unfold live. apply _. Defined.

Definition pruneTarget (t : Time) (g : gmap ServiceRef VisitorLease) : option (gmap ServiceRef VisitorLease) :=
  let g := filter (λ e, live t e.2) g in if bool_decide (g = ∅) then None else Some g.

Definition pruneExpired (t : Time) (s : visitorRegistryService) : visitorRegistryService :=
  let expired := length (filter (λ l, ¬ live t l) (allLeases s)) in
  let s := set_leases (omap (pruneTarget t) (leases s)) s in
  if bool_decide (expired = 0%nat) then s
  else updateLeaseGauges (metric (Add "visitor_expired_total" (Z.of_nat expired)) s).

Definition scheduleSweep (i : input) (s : visitorRegistryService) : visitorRegistryService * error drainError :=
  match afterError i with
  | Some e => (s, Some (ErrOther e))
  | None => (set_sweep true s, None)
  end.

Definition nextLeaseGeneration (s : visitorRegistryService) : res drainError Z :=
  if nextGeneration s =? u64_max then Err ErrLeaseExhausted else Ok (nextGeneration s + 1).

Definition acquire (i : input) (target visitor : ServiceRef) (weak : bool) (s : visitorRegistryService)
  : visitorRegistryService * res drainError VisitorLease :=
  if negb (validServiceRef target) then (s, Err ErrInvalidTarget)
  else if negb (validServiceRef visitor) then (s, Err ErrInvalidVisitor)
  else if bool_decide (source i ≠ visitor) then (s, Err ErrLeaseOwnerMismatch)
  else
    match nextLeaseGeneration s with
    | Err e => (s, Err e)
    | Ok generation =>
        let '(s, err) := if sweepScheduled s then (s, None) else scheduleSweep i s in
        match err with
        | Some e => (s, Err e)
        | None =>
            let s := set_generation generation s in
            let lease := mkLease target visitor (authorityEpoch s) generation weak (later i + LeaseTTL (config s)) in
            let s := set_leases (<[target := <[visitor := lease]> (default ∅ (leases s !! target))]> (leases s)) s in
            (updateLeaseGauges (metric (Inc "visitor_acquire_total") s), Ok lease)
        end
    end.

(** The tests [renew] and [release] share. *)
Definition checkLease (i : input) (l : VisitorLease) (s : visitorRegistryService) : res drainError VisitorLease :=
  if negb (validLease l) then Err ErrInvalidLease
  else if bool_decide (source i ≠ Visitor l) then Err ErrLeaseOwnerMismatch
  else
    match default ∅ (leases s !! Target l) !! Visitor l with
    | Some current => if sameLease current l then Ok current else Err ErrLeaseExpired
    | None => Err ErrLeaseExpired
    end.

Definition renew (i : input) (l : VisitorLease) (s : visitorRegistryService)
  : visitorRegistryService * res drainError VisitorLease :=
  match checkLease i l s with
  | Err e => (s, Err e)
  | Ok current =>
      let expiresAt := later i + LeaseTTL (config s) in
      let expiresAt := if ExpiresAt current <? expiresAt then expiresAt else ExpiresAt current + 1 in
      let c := mkLease (Target current) (Visitor current) (AuthorityEpoch current) (Generation current)
                 (Weak current) expiresAt in
      (metric (Inc "visitor_renew_total")
         (set_leases (<[Target l := <[Visitor c := c]> (default ∅ (leases s !! Target l))]> (leases s)) s), Ok c)
  end.

Definition release (i : input) (l : VisitorLease) (s : visitorRegistryService)
  : visitorRegistryService * error drainError :=
  match checkLease i l s with
  | Err e => (s, Some e)
  | Ok _ =>
      let g := delete (Visitor l) (default ∅ (leases s !! Target l)) in
      let m := if bool_decide (g = ∅) then delete (Target l) (leases s) else <[Target l := g]> (leases s) in
      (updateLeaseGauges (metric (Inc "visitor_release_total") (set_leases m s)), None)
  end.

Definition visitorRef (l : VisitorLease) : VisitorRef :=
  mkVisitorRef (Visitor l) (Generation l) (Weak l) (ExpiresAt l).

Definition listVisitors (target : ServiceRef) (s : visitorRegistryService) : res drainError (list VisitorRef) :=
  if negb (validServiceRef target) then Err ErrInvalidTarget
  else Ok (merge_sort visitorLe (visitorRef <$> (map_to_list (default ∅ (leases s !! target))).*2)).

(** ** Error codes *)

Inductive errorCode :=
| responseOK | responseInvalidLease | responseInvalidTarget | responseInvalidVisitor | responseLeaseExpired
| responseLeaseOwnerMismatch | responseLeaseExhausted | responseInvalidRequest | responseInvalidGuard
| responseUnauthorized.
#[global] Instance errorCode_eq_dec : EqDecision errorCode.
Proof. solve_decision. Defined.

Definition errorFromCode (c : errorCode) : error drainError :=
  match c with
  | responseOK => None
  | responseInvalidLease => Some ErrInvalidLease
  | responseInvalidTarget => Some ErrInvalidTarget
  | responseInvalidVisitor => Some ErrInvalidVisitor
  | responseLeaseExpired => Some ErrLeaseExpired
  | responseLeaseOwnerMismatch => Some ErrLeaseOwnerMismatch
  | responseLeaseExhausted => Some ErrLeaseExhausted
  | _ => Some ErrInvalidResponse
  end.

Definition codeFromError (e : drainError) : errorCode :=
  match e with
  | ErrInvalidLease => responseInvalidLease
  | ErrInvalidTarget => responseInvalidTarget
  | ErrInvalidVisitor => responseInvalidVisitor
  | ErrLeaseExpired => responseLeaseExpired
  | ErrLeaseOwnerMismatch => responseLeaseOwnerMismatch
  | ErrLeaseExhausted => responseLeaseExhausted
  | _ => responseInvalidRequest
  end.

Definition guardErrorFromCode (c : errorCode) : error drainError :=
  match c with
  | responseOK => None
  | responseInvalidGuard => Some ErrInvalidGuard
  | responseUnauthorized => Some ErrUnauthorized
  | _ => Some ErrInvalidResponse
  end.

Definition guardCodeFromError (e : error drainError) : errorCode :=
  match e with
  | None => responseOK
  | Some ErrInvalidGuard => responseInvalidGuard
  | Some ErrUnauthorized => responseUnauthorized
  | Some _ => responseInvalidGuard
  end.

(** ** The handler of the registry *)

Inductive visitorCommand :=
| AcquireVisitorLease (target visitor : ServiceRef) (weak : bool)
| RenewVisitorLease (l : VisitorLease)
| ReleaseVisitorLease (l : VisitorLease)
| ListVisitors (target : ServiceRef)
| SweepVisitors
| BadLeasePayload          (** acquire or renew with another payload type *)
| BadReleasePayload
| BadListPayload
| BadSweepPayload
| UnknownVisitorCommand.

(** A reply by its wire type; a nil slice of visitors is [None]. *)
Inductive visitorResponse :=
| LeaseResponse (l : option VisitorLease) (e : errorCode)
| EmptyResponse (e : errorCode)
| ListResponse (l : option (list VisitorRef)) (e : errorCode).

(** What [Handle] does: a reply, or an error (nil included). *)
Inductive handled := Replied (r : visitorResponse) | Returned (e : error drainError).

Definition Handle (i : input) (c : visitorCommand) (s : visitorRegistryService) : visitorRegistryService * handled :=
  let s := pruneExpired (now i) s in
  match c with
  | AcquireVisitorLease target visitor weak =>
      let '(s, r) := acquire i target visitor weak s in
      (s, match r with
          | Ok l => Replied (LeaseResponse (Some l) responseOK)
          | Err e => if bool_decide (codeFromError e = responseInvalidRequest) then Returned (Some e)
                     else Replied (LeaseResponse None (codeFromError e))
          end)
  | RenewVisitorLease l =>
      let '(s, r) := renew i l s in
      (s, match r with
          | Ok l => Replied (LeaseResponse (Some l) responseOK)
          | Err e => Replied (LeaseResponse None (codeFromError e))
          end)
  | ReleaseVisitorLease l =>
      let '(s, r) := release i l s in
      (s, Replied (EmptyResponse (match r with None => responseOK | Some e => codeFromError e end)))
  | ListVisitors target =>
      (s, match listVisitors target s with
          | Ok l => Replied (ListResponse (Some l) responseOK)
          | Err e => Replied (ListResponse None (codeFromError e))
          end)
  | SweepVisitors =>
      let s := set_sweep false s in
      if bool_decide (leases s = ∅) then (s, Returned None)
      else let '(s, e) := scheduleSweep i s in (s, Returned e)
  | BadLeasePayload => (s, Replied (LeaseResponse None responseInvalidRequest))
  | BadReleasePayload => (s, Replied (EmptyResponse responseInvalidRequest))
  | BadListPayload => (s, Replied (ListResponse None responseInvalidRequest))
  | BadSweepPayload => (s, Returned (Some ErrInvalidLease))
  | UnknownVisitorCommand => (s, Returned (Some (ErrOther (Sentinel ErrUnknownCommand))))
  end.

Definition Stop (s : visitorRegistryService) : visitorRegistryService :=
  updateLeaseGauges (set_sweep false (set_leases ∅ s)).

(** ** The clients *)

(** [c.caller.Call]: what the caller gets for a command; [None] is a value of
    another type. *)
Definition callResult : Type := res rtError (option visitorResponse).

Definition zeroLease : VisitorLease := mkLease zeroRef zeroRef 0 0 false 0.

(** The decoding of a [leaseResponse]; the lease of an error is the zero value. *)
Definition leaseOf (r : callResult) : res drainError VisitorLease :=
  match r with
  | Err e => Err (ErrOther e)
  | Ok (Some (LeaseResponse l e)) =>
      match errorFromCode e with
      | Some e => Err e
      | None => let l := default zeroLease l in if validLease l then Ok l else Err ErrInvalidResponse
      end
  | Ok _ => Err ErrInvalidResponse
  end.

Section Client.
(** The call a client makes, with the state it acts on. *)
Context {W : Type} (call : visitorCommand → W → W * callResult).

Definition Acquire (target visitor : ServiceRef) (weak : bool) (w : W) : W * res drainError VisitorLease :=
  if negb (validServiceRef target) then (w, Err ErrInvalidTarget)
  else if negb (validServiceRef visitor) then (w, Err ErrInvalidVisitor)
  else
    let '(w, r) := call (AcquireVisitorLease target visitor weak) w in
    (w, match leaseOf r with
        | Err e => Err e
        | Ok l => if bool_decide (Target l ≠ target) || bool_decide (Visitor l ≠ visitor) || negb (Bool.eqb (Weak l) weak)
                  then Err ErrInvalidResponse else Ok l
        end).

Definition Renew (l : VisitorLease) (w : W) : W * res drainError VisitorLease :=
  if negb (validLease l) then (w, Err ErrInvalidLease)
  else
    let '(w, r) := call (RenewVisitorLease l) w in
    (w, match leaseOf r with
        | Err e => Err e
        | Ok n => if bool_decide (Target n ≠ Target l) || bool_decide (Visitor n ≠ Visitor l)
                     || negb (AuthorityEpoch n =? AuthorityEpoch l) || negb (Generation n =? Generation l)
                     || negb (Bool.eqb (Weak n) (Weak l)) || negb (ExpiresAt l <? ExpiresAt n)
                  then Err ErrInvalidResponse else Ok n
        end).

Definition Release (l : VisitorLease) (w : W) : W * error drainError :=
  if negb (validLease l) then (w, Some ErrInvalidLease)
  else
    let '(w, r) := call (ReleaseVisitorLease l) w in
    (w, match r with
        | Err e => Some (ErrOther e)
        | Ok (Some (EmptyResponse e)) => errorFromCode e
        | Ok _ => Some ErrInvalidResponse
        end).

Definition List (target : ServiceRef) (w : W) : W * res drainError (list VisitorRef) :=
  if negb (validServiceRef target) then (w, Err ErrInvalidTarget)
  else
    let '(w, r) := call (ListVisitors target) w in
    (w, match r with
        | Err e => Err (ErrOther e)
        | Ok (Some (ListResponse l e)) =>
            match errorFromCode e with
            | Some e => Err e
            | None => match l with
                      | Some l => if validVisitorRefs l then Ok l else Err ErrInvalidResponse
                      | None => Err ErrInvalidResponse
                      end
            end
        | Ok _ => Err ErrInvalidResponse
        end).
End Client.

(** ** The guard *)

Definition BeginDrainCommand : CommandID := 0x02700201.
Definition GetDrainStatusCommand : CommandID := 0x02700202.

Record DrainStatus := mkStatus { Draining : bool; StartedAt : Time }.
Definition validDrainStatus (st : DrainStatus) : bool :=
  if Draining st then negb (StartedAt st =? 0) else StartedAt st =? 0.

(** The wrapped service handles a payload of type [V] and answers whatever it does;
    its state is [I]. *)
Record guardDecorator (I : Type) := mkGuard {
  inner : I;
  controller : ServiceRef;
  external : gset CommandID;
  draining : bool;
  startedAt : Time;
  guardMetrics : metricCollector
}.
Arguments mkGuard {I}. Arguments inner {I}. Arguments controller {I}. Arguments external {I}.
Arguments draining {I}. Arguments startedAt {I}. Arguments guardMetrics {I}.

Fixpoint addExternal (l : list CommandID) (acc : gset CommandID) : option (gset CommandID) :=
  match l with
  | [] => Some acc
  | c :: l =>
      if (c =? 0) || (c =? BeginDrainCommand) || (c =? GetDrainStatusCommand) then None
      else if bool_decide (c ∈ acc) then None
      else addExternal l ({[c]} ∪ acc)
  end.

Definition Decorate {I} (service : option I) (ctl : ServiceRef) (cmds : list CommandID) (mc : metricCollector)
  : res drainError (guardDecorator I) :=
  match service with
  | None => Err ErrInvalidGuard
  | Some service =>
      if negb (validServiceRef ctl) || (Z.of_nat (length cmds) =? 0) then Err ErrInvalidGuard
      else match addExternal cmds ∅ with
           | None => Err ErrInvalidGuard
           | Some ext => Ok (mkGuard service ctl ext false 0 mc)
           end
  end.

Section Guard.
(** [H]: what the wrapped service does with a command; [Out] is whatever it returns
    and replies. *)
Context {I V Out : Type} (innerInit : I → I * error drainError) (innerHandle : CommandID → V → I → I * Out).

Inductive guardOut :=
| GStatus (st : DrainStatus) (e : errorCode)     (** [replyStatus] *)
| GRejected                                      (** [ErrDraining] *)
| GInner (o : Out).

Definition currentStatus (d : guardDecorator I) : DrainStatus := mkStatus (draining d) (startedAt d).

Definition Init (self : ServiceRef) (d : guardDecorator I) : guardDecorator I * error drainError :=
  if bool_decide (self = controller d) then (d, Some ErrInvalidGuard)
  else
    let '(x, e) := innerInit (inner d) in
    (mkGuard x (controller d) (external d) (draining d) (startedAt d) (guardMetrics d), e).

Definition begin (from : ServiceRef) (clock : Time) (ok : bool) (d : guardDecorator I) : guardDecorator I * guardOut :=
  if negb ok then (d, GStatus (mkStatus false 0) (guardCodeFromError (Some ErrInvalidGuard)))
  else if bool_decide (from ≠ controller d)
  then (d, GStatus (mkStatus false 0) (guardCodeFromError (Some ErrUnauthorized)))
  else if draining d
  then (mkGuard (inner d) (controller d) (external d) (draining d) (startedAt d)
          (Inc "drain_guard_begin_duplicate_total" (guardMetrics d)),
        GStatus (currentStatus d) (guardCodeFromError None))
  else (mkGuard (inner d) (controller d) (external d) true clock
          (Inc "drain_guard_begun_total" (guardMetrics d)),
        GStatus (mkStatus true clock) (guardCodeFromError None)).

Definition guardStatus (ok : bool) (d : guardDecorator I) : guardOut :=
  if negb ok then GStatus (mkStatus false 0) (guardCodeFromError (Some ErrInvalidGuard))
  else GStatus (currentStatus d) (guardCodeFromError None).

(** A command: one of the guard's, with the right payload type or not, or any other. *)
Inductive guardCommand := Begin (ok : bool) | GetStatus (ok : bool) | Work (c : CommandID) (v : V).

Definition guardHandle (from : ServiceRef) (clock : Time) (c : guardCommand) (d : guardDecorator I)
  : guardDecorator I * guardOut :=
  match c with
  | Begin ok => begin from clock ok d
  | GetStatus ok => (d, guardStatus ok d)
  | Work c v =>
      if draining d && bool_decide (c ∈ external d)
      then (mkGuard (inner d) (controller d) (external d) (draining d) (startedAt d)
              (Inc "drain_guard_rejected_total" (guardMetrics d)), GRejected)
      else let '(x, o) := innerHandle c v (inner d) in
           (mkGuard x (controller d) (external d) (draining d) (startedAt d) (guardMetrics d), GInner o)
  end.
End Guard.

(** [guardStatusFromResponse]; [None] is a value of another type. *)
Definition guardStatusFromResponse (r : option (DrainStatus * errorCode)) : res drainError DrainStatus :=
  match r with
  | None => Err ErrInvalidResponse
  | Some (st, e) =>
      match guardErrorFromCode e with
      | Some e => Err e
      | None => if validDrainStatus st then Ok st else Err ErrInvalidResponse
      end
  end.
