(* ===== verification/DrainFacts.v ===== *)
(** * What visitor leases and the drain guard guarantee

    The registry is seen through [held]: the lease a visitor has on a target.  Each
    command changes it as its answer says ([Handle_held]); from this follow the
    fencing of stale leases and what a client is told.  The guard is a wall that,
    once up, no external command passes. *)

From stdpp Require Import prelude gmap strings list sorting relations.
From Stdlib Require Import ZArith Lia.
From S2P Require Import Prelude Types Metrics GoText Drain.

Local Open Scope Z_scope.

(** ** The order of references *)

Lemma drainLt_trans : Transitive refLt.
Proof.
  intros a b c [H1|[E1 H1]] [H2|[E2 H2]].
  - left. by eapply ltb_trans.
  - left. by rewrite <- E2.
  - left. by rewrite E1.
  - right. split; [congruence|lia].
Qed.

Lemma drainLt_irrefl a : ¬ refLt a a.
Proof. intros [H|[_ H]]; [|lia]. by rewrite ltb_irrefl in H. Qed.

Lemma drainLt_total a b : a = b ∨ refLt a b ∨ refLt b a.
Proof.
  destruct (decide (Node a = Node b)) as [E|E].
  - destruct (Z.lt_trichotomy (ID a) (ID b)) as [H|[H|H]].
    + right. left. right. done.
    + left. destruct a, b. simpl in *. congruence.
    + right. right. right. done.
  - right. destruct (total String.le (Node a) (Node b)) as [H|H].
    + left. left. by apply ltb_le_neq.
    + right. left. apply ltb_le_neq. by split; [|apply not_eq_sym].
Qed.

(** ** Leases *)

Definition held (s : visitorRegistryService) (t v : ServiceRef) : option VisitorLease := leases s !! t ≫= (.!! v).

(** What is left of a lease at a time. *)
Definition alive (t : Time) (o : option VisitorLease) : option VisitorLease :=
  match o with Some l => if bool_decide (live t l) then Some l else None | None => None end.

Record registry_inv (s : visitorRegistryService) : Prop := {
  vi_group : ∀ t g, leases s !! t = Some g → g ≠ ∅;
  vi_lease : ∀ t v l, held s t v = Some l →
    Target l = t ∧ Visitor l = v ∧ validServiceRef t = true ∧ validServiceRef v = true
    ∧ AuthorityEpoch l = authorityEpoch s ∧ 1 ≤ Generation l ≤ nextGeneration s;
  vi_epoch : authorityEpoch s ≠ 0;
  vi_next : 0 ≤ nextGeneration s ≤ u64_max;
  vi_ttl : 0 ≤ LeaseTTL (config s)
}.

Lemma held_metric f s : held (metric f s) = held s.
Proof. done. Qed.
Lemma held_gauges s : held (updateLeaseGauges s) = held s.
Proof. done. Qed.

Lemma prune_fields t s :
  leases (pruneExpired t s) = omap (pruneTarget t) (leases s) ∧ nextGeneration (pruneExpired t s) = nextGeneration s
  ∧ authorityEpoch (pruneExpired t s) = authorityEpoch s ∧ config (pruneExpired t s) = config s
  ∧ sweepScheduled (pruneExpired t s) = sweepScheduled s.
Proof. unfold pruneExpired. by case_bool_decide. Qed.

Lemma prune_held t s a v : held (pruneExpired t s) a v = alive t (held s a v).
Proof.
  unfold held. rewrite (proj1 (prune_fields t s)), lookup_omap. destruct (leases s !! a) as [g|]; simpl; [|done].
  unfold pruneTarget. destruct (g !! v) as [l|] eqn:Hl; simpl.
  - destruct (decide (live t l)) as [Hlive|Hlive]; [rewrite (bool_decide_true (live t l)) by done|rewrite (bool_decide_false (live t l)) by done].
    + assert (filter (λ e, live t e.2) g !! v = Some l) as Hf.
      { apply map_lookup_filter_Some. by split. }
      rewrite bool_decide_false; [done|]. intros E. by rewrite E in Hf.
    + assert (filter (λ e, live t e.2) g !! v = None) as Hf.
      { apply map_lookup_filter_None. right. intros x Hx. by simplify_eq. }
      by case_bool_decide.
  - assert (filter (λ e, live t e.2) g !! v = None) as Hf by (apply map_lookup_filter_None; by left).
    by case_bool_decide.
Qed.

Lemma prune_inv t s : registry_inv s → registry_inv (pruneExpired t s).
Proof.
  intros [G L E N T]. destruct (prune_fields t s) as (HL & HN & HE & HC & _). split.
  - intros a g. rewrite HL, lookup_omap. destruct (leases s !! a) as [g0|]; simpl; [|done].
    unfold pruneTarget. case_bool_decide; [done|]. by intros [= <-].
  - intros a v l. rewrite prune_held, HE, HN. unfold alive. destruct (held s a v) as [l'|] eqn:Hh; [|done].
    case_bool_decide; [|done]. intros [= <-]. by apply L.
  - by rewrite HE.
  - by rewrite HN.
  - by rewrite HC.
Qed.

Lemma held_insert s t v l a b :
  held (set_leases (<[t := <[v := l]> (default ∅ (leases s !! t))]> (leases s)) s) a b
  = if bool_decide ((a, b) = (t, v)) then Some l else held s a b.
Proof.
  unfold held. simpl. destruct (decide (a = t)) as [->|Ha].
  - rewrite lookup_insert_eq. simpl. destruct (decide (b = v)) as [->|Hb].
    + by rewrite lookup_insert_eq, bool_decide_true.
    + rewrite lookup_insert_ne by done. rewrite bool_decide_false by congruence. by destruct (leases s !! t).
  - rewrite lookup_insert_ne by done. by rewrite bool_decide_false by congruence.
Qed.

Definition without (s : visitorRegistryService) (t v : ServiceRef) : gmap ServiceRef (gmap ServiceRef VisitorLease) :=
  let g := delete v (default ∅ (leases s !! t)) in
  if bool_decide (g = ∅) then delete t (leases s) else <[t := g]> (leases s).

Lemma held_delete s t v a b :
  held (set_leases (without s t v) s) a b = if bool_decide ((a, b) = (t, v)) then None else held s a b.
Proof.
  unfold held, without. simpl. destruct (decide (a = t)) as [->|Ha].
  - set (g := delete v (default ∅ (leases s !! t))).
    assert (leases s !! t ≫= (.!! b) = default ∅ (leases s !! t) !! b) as -> by (by destruct (leases s !! t)).
    assert ((if bool_decide ((t, b) = (t, v)) then None else default ∅ (leases s !! t) !! b) = g !! b) as ->.
    { unfold g. destruct (decide (b = v)) as [->|Hb].
      - by rewrite bool_decide_true, lookup_delete_eq.
      - rewrite bool_decide_false by congruence. by rewrite lookup_delete_ne. }
    case_bool_decide as Hg; [rewrite lookup_delete_eq, Hg; done|]. by rewrite lookup_insert_eq.
  - rewrite (bool_decide_false ((a, b) = (t, v))) by congruence. case_bool_decide; [by rewrite lookup_delete_ne|by rewrite lookup_insert_ne].
Qed.

(** ** Commands *)

Lemma visitorLease_Ok i l s c :
  registry_inv s → checkLease i l s = Ok c →
  c = l ∧ validLease l = true ∧ source i = Visitor l ∧ held s (Target l) (Visitor l) = Some l.
Proof.
  intros I. unfold checkLease. destruct (validLease l) eqn:Hv; [|done]. cbn [negb].
  destruct (decide (source i = Visitor l)) as [Hs|Hs];
    [rewrite bool_decide_false by (by intros ?)|by rewrite bool_decide_true].
  destruct (default ∅ (leases s !! Target l) !! Visitor l) as [cur|] eqn:Hc; [|done].
  unfold sameLease. case_bool_decide as Heq; [|done]. intros [= <-]. subst cur. split_and!; try done.
  unfold held. by destruct (leases s !! Target l).
Qed.

(** The lease an answer grants, where it grants one. *)
Definition granted (h : handled) : option VisitorLease :=
  match h with Replied (LeaseResponse (Some l) responseOK) => Some l | _ => None end.
Definition released (h : handled) : bool :=
  match h with Replied (EmptyResponse responseOK) => true | _ => false end.

(** What a command did to the leases, by its answer. *)
Definition held_by (i : input) (c : visitorCommand) (h : handled) (s : visitorRegistryService) (t v : ServiceRef)
  : option VisitorLease :=
  let rest := alive (now i) (held s t v) in
  match c with
  | AcquireVisitorLease _ _ _ | RenewVisitorLease _ =>
      match granted h with
      | Some l => if bool_decide ((t, v) = (Target l, Visitor l)) then Some l else rest
      | None => rest
      end
  | ReleaseVisitorLease l => if released h && bool_decide ((t, v) = (Target l, Visitor l)) then None else rest
  | _ => rest
  end.

(** When a lease is granted, and which. *)
Definition grant_ok (i : input) (c : visitorCommand) (l : VisitorLease) (s : visitorRegistryService) : Prop :=
  source i = Visitor l ∧
  match c with
  | AcquireVisitorLease t v w =>
      l = mkLease t v (authorityEpoch s) (nextGeneration s + 1) w (later i + LeaseTTL (config s))
      ∧ validServiceRef t = true ∧ validServiceRef v = true ∧ nextGeneration s < u64_max
  | RenewVisitorLease l0 =>
      alive (now i) (held s (Target l0) (Visitor l0)) = Some l0 ∧ validLease l0 = true
      ∧ l = mkLease (Target l0) (Visitor l0) (AuthorityEpoch l0) (Generation l0) (Weak l0) (ExpiresAt l)
      ∧ ExpiresAt l0 < ExpiresAt l
  | _ => False
  end.

Record handled_as (i : input) (c : visitorCommand) (s s' : visitorRegistryService) (h : handled) : Prop := {
  ha_held : ∀ t v, held s' t v = held_by i c h s t v;
  ha_grant : ∀ l, granted h = Some l → grant_ok i c l s;
  ha_next : nextGeneration s' = match c, granted h with
                                | AcquireVisitorLease _ _ _, Some _ => nextGeneration s + 1
                                | _, _ => nextGeneration s
                                end;
  ha_inv : registry_inv s';
  ha_same : authorityEpoch s' = authorityEpoch s ∧ config s' = config s
}.

Lemma acquire_spec i t v w s :
  registry_inv s →
  let '(s', r) := acquire i t v w s in
  match r with
  | Err _ => held s' = held s ∧ nextGeneration s' = nextGeneration s ∧ registry_inv s'
             ∧ authorityEpoch s' = authorityEpoch s ∧ config s' = config s
  | Ok l => l = mkLease t v (authorityEpoch s) (nextGeneration s + 1) w (later i + LeaseTTL (config s))
            ∧ source i = v ∧ validServiceRef t = true ∧ validServiceRef v = true ∧ nextGeneration s < u64_max
            ∧ nextGeneration s' = nextGeneration s + 1
            ∧ (∀ a b, held s' a b = if bool_decide ((a, b) = (t, v)) then Some l else held s a b)
            ∧ registry_inv s' ∧ authorityEpoch s' = authorityEpoch s ∧ config s' = config s
  end.
Proof.
  intros I. unfold acquire. destruct (validServiceRef t) eqn:Ht; [|done]. destruct (validServiceRef v) eqn:Hv; [|done]. simpl.
  case_bool_decide as Hs; [done|]. unfold nextLeaseGeneration. destruct (Z.eqb_spec (nextGeneration s) u64_max) as [|Hn]; [done|].
  assert (∀ b, registry_inv (set_sweep b s)) as Isw by (intros b; by destruct I).
  destruct (if sweepScheduled s then _ else _) as [s1 err] eqn:Hsw.
  assert (∃ b, s1 = set_sweep b s) as [b ->].
  { unfold scheduleSweep in Hsw. destruct (sweepScheduled s) eqn:Hb, (afterError i); injection Hsw as <- _;
      try (exists true; done); exists (sweepScheduled s); by destruct s. }
  destruct err as [e|]; [split_and!; try done; apply Isw|].
  set (l := mkLease t v _ _ w _). split_and!; try done; [destruct I; lia|intros a b'; apply (held_insert (set_sweep b s))|].
  destruct I as [G L Ep N T]. split; try done; [| |simpl; lia].
  - intros a g. simpl. rewrite lookup_insert_Some. intros [[<- <-]|[_ Hg]]; [apply insert_non_empty|by eapply G].
  - intros a c l'. pose proof (held_insert (set_sweep b s) t v l a c) as Hh. change (held (set_leases _ _) a c) with
      (held (updateLeaseGauges (metric (Inc "visitor_acquire_total") (set_leases (<[t:=<[v:=l]> (default ∅ (leases (set_sweep b s) !! t))]>
        (leases (set_sweep b s))) (set_sweep b s)))) a c) in Hh. unfold held in *. simpl in *. rewrite Hh.
    case_bool_decide as He; [intros [= <-]; injection He as -> ->|intros Hl].
    + simpl. split_and!; try done; lia.
    + destruct (L _ _ _ Hl) as (? & ? & ? & ? & ? & ?). split_and!; try done; lia.
Qed.

Lemma renew_spec i l s :
  registry_inv s →
  let '(s', r) := renew i l s in
  match r with
  | Err _ => s' = s
  | Ok n => held s (Target l) (Visitor l) = Some l ∧ validLease l = true ∧ source i = Visitor l
            ∧ n = mkLease (Target l) (Visitor l) (AuthorityEpoch l) (Generation l) (Weak l) (ExpiresAt n)
            ∧ ExpiresAt l < ExpiresAt n
            ∧ nextGeneration s' = nextGeneration s
            ∧ (∀ a b, held s' a b = if bool_decide ((a, b) = (Target l, Visitor l)) then Some n else held s a b)
            ∧ registry_inv s' ∧ authorityEpoch s' = authorityEpoch s ∧ config s' = config s
  end.
Proof.
  intros I. unfold renew. destruct (checkLease i l s) as [c|e] eqn:Hc; [|done].
  destruct (visitorLease_Ok _ _ _ _ I Hc) as (-> & Hv & Hs & Hh).
  set (n := mkLease _ _ _ _ _ _). simpl. split_and!; try done.
  - destruct (Z.ltb_spec (ExpiresAt l) (later i + LeaseTTL (config s))); lia.
  - intros a b. apply (held_insert s (Target l) (Visitor l) n a b).
  - destruct I as [G L Ep N T]. split; try done.
    + intros a g. simpl. rewrite lookup_insert_Some. intros [[<- <-]|[_ Hg]]; [apply insert_non_empty|by eapply G].
    + intros a c l'. pose proof (held_insert s (Target l) (Visitor l) n a c) as Hi. unfold held in *. simpl in *. rewrite Hi.
      case_bool_decide as He; [intros [= <-]; injection He as -> ->|apply L]. simpl. destruct (L _ _ _ Hh) as (? & ? & ? & ? & ? & ?).
      split_and!; try done; lia.
Qed.

Lemma release_spec i l s :
  registry_inv s →
  let '(s', r) := release i l s in
  match r with
  | Some _ => s' = s
  | None => held s (Target l) (Visitor l) = Some l ∧ source i = Visitor l ∧ nextGeneration s' = nextGeneration s
            ∧ (∀ a b, held s' a b = if bool_decide ((a, b) = (Target l, Visitor l)) then None else held s a b)
            ∧ registry_inv s' ∧ authorityEpoch s' = authorityEpoch s ∧ config s' = config s
  end.
Proof.
  intros I. unfold release. destruct (checkLease i l s) as [c|e] eqn:Hc; [|done].
  destruct (visitorLease_Ok _ _ _ _ I Hc) as (-> & Hv & Hs & Hh). fold (without s (Target l) (Visitor l)).
  pose proof (held_delete s (Target l) (Visitor l)) as Hd.
  split_and!; try done. destruct I as [G L Ep N T]. split; try done.
  - intros a g. simpl. unfold without. case_bool_decide as Hg.
    + intros [_ H]%lookup_delete_Some. by eapply G.
    + rewrite lookup_insert_Some. intros [[<- <-]|[_ H]]; [done|by eapply G].
  - intros a c l'. specialize (Hd a c). unfold held in *. simpl in *. rewrite Hd. case_bool_decide; [done|]. apply L.
Qed.

Lemma code_ok e : codeFromError e ≠ responseOK.
Proof. by destruct e. Qed.

Lemma Handle_handled i c s : registry_inv s → handled_as i c s (Handle i c s).1 (Handle i c s).2.
Proof.
  intros I. pose proof (prune_inv (now i) s I) as Ip. pose proof (prune_held (now i) s) as Hp.
  destruct (prune_fields (now i) s) as (_ & Hn & He & Hc & _).
  assert (∀ h : handled, granted h = None → released h = false → handled_as i c s (pruneExpired (now i) s) h) as Same.
  { intros h Hg Hr. split; try done.
    - intros t v. rewrite Hp. unfold held_by. rewrite Hg, Hr. by destruct c.
    - by rewrite Hg.
    - rewrite Hn, Hg. by destruct c. }
  unfold Handle. destruct c as [t v w|l|l|t| | | | | |]; try by apply Same.
  - pose proof (acquire_spec i t v w _ Ip) as A. destruct (acquire i t v w _) as [s' [l|e]].
    + destruct A as (-> & Hs & Ht & Hv & Hb & Hn' & Hh & Ii & Ha & Hcfg). rewrite He, Hc, Hn in *. split; simpl; try done.
      * intros a b. rewrite Hh, Hp. done.
      * intros l [= <-]. by unfold grant_ok.
    + destruct A as (Hh & Hn' & Ii & Ha & Hcfg).
      destruct (Same (if bool_decide (codeFromError e = responseInvalidRequest) then Returned (Some e)
                      else Replied (LeaseResponse None (codeFromError e)))) as [S1 S2 S3 S4 S5]; try by case_bool_decide.
      split; simpl; try done; [intros a b; rewrite Hh; apply S1|by rewrite Hn', S3|by rewrite Ha, Hcfg].
  - pose proof (renew_spec i l _ Ip) as A. destruct (renew i l _) as [s' [n|e]].
    + destruct A as (Hh0 & Hv & Hs & Hl & Hx & Hn' & Hh & Ii & Ha & Hcfg). rewrite Hp in Hh0. split; simpl; try done.
      * intros a b. unfold held_by. simpl. rewrite Hh, Hp. by rewrite Hl.
      * intros l' [= <-]. unfold grant_ok. rewrite Hl. simpl. by rewrite <- Hl.
      * by rewrite Hn', Hn.
      * by rewrite Ha, Hcfg.
    + subst s'. apply Same; simpl; [|done]. by destruct (codeFromError e).
  - pose proof (release_spec i l _ Ip) as A. destruct (release i l _) as [s' [e|]].
    + subst s'. apply Same; simpl; [done|]. by destruct e.
    + destruct A as (Hh0 & Hs & Hn' & Hh & Ii & Ha & Hcfg). split; simpl; try done.
      * intros a b. rewrite Hh, Hp. done.
      * by rewrite Hn', Hn.
      * by rewrite Ha, Hcfg.
  - apply Same; simpl; by destruct (listVisitors t _).
  - set (s1 := set_sweep false (pruneExpired (now i) s)).
    assert (∀ b h, granted h = None → handled_as i SweepVisitors s (set_sweep b (pruneExpired (now i) s)) h) as Sw.
    { intros b h Hg. destruct (Same (Returned None)) as [S1 S2 S3 S4 S5]; try done. split; try done; [by rewrite Hg|by destruct S4]. }
    case_bool_decide; [by apply Sw|]. unfold scheduleSweep. destruct (afterError i); by apply Sw.
Qed.

(** ** Runs of the registry *)

Definition registry_step (s s' : visitorRegistryService) : Prop := (∃ i c, s' = (Handle i c s).1) ∨ s' = Stop s.
Definition registry_reachable (s : visitorRegistryService) : Prop :=
  ∃ c random mc s0, NewVisitorRegistryService c random mc = Ok s0 ∧ rtc registry_step s0 s.

Lemma stop_inv s : registry_inv s → registry_inv (Stop s).
Proof.
  intros [G L Ep N T]. by split.
Qed.

Lemma registry_step_inv s s' : registry_step s s' → registry_inv s → registry_inv s'.
Proof. intros [(i & c & ->)| ->] I; [by apply (ha_inv i c s _ (Handle i c s).2), Handle_handled|by apply stop_inv]. Qed.

Lemma registry_reachable_inv s : registry_reachable s → registry_inv s.
Proof.
  intros (c & random & mc & s0 & Hn & Hs). assert (registry_inv s0) as I0.
  { unfold NewVisitorRegistryService in Hn. destruct (_ || _) eqn:Hg; [done|]. apply orb_false_iff in Hg as [H1 H2].
    bool_prop. injection Hn as <-. split; simpl; try done.
    - unfold newAuthorityEpoch. destruct (Z.eqb_spec random 0); done.
    - destruct (LeaseTTL c =? 0); [done|lia]. }
  clear Hn. induction Hs as [|s1 s2 s3 Hst _ IH]; [done|]. apply IH. by eapply registry_step_inv.
Qed.

(** A lease that is no longer the current one, nor can become it again. *)
Definition gone (l : VisitorLease) (s : visitorRegistryService) : Prop :=
  Generation l ≤ nextGeneration s ∧ ∀ c, held s (Target l) (Visitor l) = Some c → Generation c ≠ Generation l.

Lemma alive_Some t o l : alive t o = Some l → o = Some l ∧ live t l.
Proof. unfold alive. destruct o as [x|]; [|done]. case_bool_decide; [|done]. by intros [= <-]. Qed.

Lemma gone_handle i c l s : registry_inv s → gone l s → gone l (Handle i c s).1.
Proof.
  intros I [Hg Hh]. destruct (Handle_handled i c s I) as [H1 H2 H3 _ _].
  assert (nextGeneration s ≤ nextGeneration (Handle i c s).1) as Hle.
  { rewrite H3. destruct c; try lia. destruct (granted _); lia. }
  split; [lia|]. intros x. rewrite H1. unfold held_by.
  assert (∀ y, alive (now i) (held s (Target l) (Visitor l)) = Some y → Generation y ≠ Generation l) as Hrest.
  { intros y [Hy _]%alive_Some. by apply Hh. }
  destruct c as [t v w|l0|l0| | | | | | |]; try by apply Hrest.
  - destruct (granted _) as [n|] eqn:Hgr; [|by apply Hrest]. case_bool_decide as He; [|by apply Hrest]. intros [= <-].
    destruct (H2 _ eq_refl) as (_ & -> & _). simpl. lia.
  - destruct (granted _) as [n|] eqn:Hgr; [|by apply Hrest]. case_bool_decide as He; [|by apply Hrest]. intros [= <-].
    destruct (H2 _ eq_refl) as (_ & Hal & _ & Hn & _). rewrite Hn in He. simpl in He. injection He as E1 E2.
    rewrite <- E1, <- E2 in Hal. rewrite Hn. simpl. by apply Hrest.
  - destruct (_ && _); [done|]. by apply Hrest.
Qed.

Lemma gone_steps l s s' : registry_inv s → gone l s → rtc registry_step s s' → registry_inv s' ∧ gone l s'.
Proof.
  intros I Hg Hs. revert I Hg. induction Hs as [s|s1 s2 s3 Hst _ IH]; intros I Hg; [done|].
  apply IH; [by eapply registry_step_inv|]. destruct Hst as [(i & c & ->)| ->]; [by apply gone_handle|].
  destruct Hg as [Hle _]. split; [done|]. intros c. unfold held. simpl. by rewrite lookup_empty.
Qed.

Lemma gone_refused l s i :
  registry_inv s → gone l s →
  granted (Handle i (RenewVisitorLease l) s).2 = None ∧ released (Handle i (ReleaseVisitorLease l) s).2 = false.
Proof.
  intros I [_ Hg]. split.
  - destruct (granted _) as [n|] eqn:Hgr; [|done].
    destruct (ha_grant _ _ _ _ _ (Handle_handled i (RenewVisitorLease l) s I) _ Hgr) as (_ & [Hh _]%alive_Some & _).
    by destruct (Hg _ Hh).
  - pose proof (release_spec i l _ (prune_inv (now i) s I)) as R. simpl.
    destruct (release i l (pruneExpired (now i) s)) as [s' [e|]]; simpl; [by destruct e|].
    destruct R as [Hh _]. rewrite prune_held in Hh. apply alive_Some in Hh as [Hh _]. by destruct (Hg _ Hh).
Qed.

(** How a current lease ceases to be: it expires, is released, or is superseded. *)
Definition ends (i : input) (c : visitorCommand) (h : handled) (l : VisitorLease) : Prop :=
  ¬ live (now i) l ∨ (c = ReleaseVisitorLease l ∧ released h = true)
  ∨ (∃ w n, c = AcquireVisitorLease (Target l) (Visitor l) w ∧ granted h = Some n).

Lemma ends_gone i c l s :
  registry_inv s → held s (Target l) (Visitor l) = Some l → ends i c (Handle i c s).2 l → gone l (Handle i c s).1.
Proof.
  intros I Hh He. destruct (vi_lease _ I _ _ _ Hh) as (_ & _ & _ & _ & _ & Hgen).
  destruct (Handle_handled i c s I) as [H1 H2 H3 _ _]. split.
  { rewrite H3. destruct c; try lia. destruct (granted _); lia. }
  intros x. rewrite H1. unfold held_by. rewrite Hh. simpl. destruct He as [Hl|[[-> Hr]|(w & n & -> & Hn)]].
  - rewrite bool_decide_false by done. destruct c as [t v w|l0|l0| | | | | | |]; try done; [| |by destruct (_ && _)].
    + destruct (granted _) as [n|] eqn:Hgr; [|done]. destruct (bool_decide _); [|done]. intros [= <-].
      destruct (H2 _ eq_refl) as (_ & -> & _). simpl. lia.
    + destruct (granted _) as [n|] eqn:Hgr; [|done]. destruct (decide ((Target l, Visitor l) = (Target n, Visitor n))) as [E|E];
        [|by rewrite bool_decide_false]. destruct (H2 _ eq_refl) as (_ & [Hh0 Hlive]%alive_Some & _ & Hn & _).
      rewrite Hn in E. simpl in E. injection E as E1 E2. rewrite <- E1, <- E2 in Hh0. by simplify_eq.
  - by rewrite Hr, bool_decide_true.
  - rewrite Hn. destruct (H2 _ Hn) as (_ & -> & _). simpl. rewrite bool_decide_true by done. intros [= <-]. simpl. lia.
Qed.

(** A visitor lease that has expired, been released or been superseded is dead
    for good: from then on, whatever commands come, its renewal and its release are
    refused and it is never the current lease again, because generations only grow
    and exhausting them is refused instead of wrapping around. *)
Theorem visitor_lease_fenced s l i c s' i' :
  registry_reachable s → held s (Target l) (Visitor l) = Some l → ends i c (Handle i c s).2 l →
  rtc registry_step (Handle i c s).1 s' →
  held s' (Target l) (Visitor l) ≠ Some l
  ∧ granted (Handle i' (RenewVisitorLease l) s').2 = None
  ∧ released (Handle i' (ReleaseVisitorLease l) s').2 = false.
Proof.
  intros I%registry_reachable_inv Hh He Hs. pose proof (ends_gone _ _ _ _ I Hh He) as Hg.
  destruct (gone_steps l _ _ (ha_inv _ _ _ _ _ (Handle_handled i c s I)) Hg Hs) as [I' Hg'].
  split; [|by apply gone_refused]. intros Hc. by destruct (proj2 Hg' _ Hc).
Qed.

(** ** Listing *)

#[local] Instance visitorLe_trans : Transitive visitorLe.
Proof.
  intros a b c [E1|H1] [E2|H2]; unfold visitorLe; [left; congruence|right; by rewrite E1|right; by rewrite <- E2|].
  right. by eapply drainLt_trans.
Qed.
#[local] Instance visitorLe_total : Total visitorLe.
Proof. intros a b. unfold visitorLe. destruct (drainLt_total (vrVisitor a) (vrVisitor b)) as [|[|]]; auto. Qed.

(** A client that calls the registry; [fail] is what a failed call reports. *)
Definition callRegistry (fail : rtError) (i : input) (c : visitorCommand) (s : visitorRegistryService)
  : visitorRegistryService * callResult :=
  let '(s, h) := Handle i c s in
  (s, match h with Replied r => Ok (Some r) | Returned _ => Err fail end).

Definition listed (s : visitorRegistryService) (t : ServiceRef) : list VisitorRef :=
  merge_sort visitorLe (visitorRef <$> (map_to_list (default ∅ (leases s !! t))).*2).

Lemma listed_elem s t r : r ∈ listed s t ↔ ∃ v l, held s t v = Some l ∧ r = visitorRef l.
Proof.
  unfold listed, held. rewrite merge_sort_Permutation, list_elem_of_fmap. split.
  - intros (l & -> & ([v l'] & -> & Hl%elem_of_map_to_list)%list_elem_of_fmap). exists v, l'.
    split; [|done]. destruct (leases s !! t); simpl in *; [done|by rewrite lookup_empty in Hl].
  - intros (v & l & Hl & ->). exists l. split; [done|]. apply list_elem_of_fmap. exists (v, l). split; [done|].
    apply elem_of_map_to_list. by destruct (leases s !! t).
Qed.

Lemma listed_sorted s t : registry_inv s → StronglySorted (λ a b, refLt (vrVisitor a) (vrVisitor b)) (listed s t).
Proof.
  intros I. assert (StronglySorted visitorLe (listed s t)) as HS by (apply StronglySorted_merge_sort; apply _).
  assert (NoDup (vrVisitor <$> listed s t)) as HN.
  { unfold listed. rewrite merge_sort_Permutation, <- !list_fmap_compose.
    assert (((vrVisitor ∘ visitorRef) ∘ snd) <$> map_to_list (default ∅ (leases s !! t))
      = (map_to_list (default ∅ (leases s !! t))).*1) as ->; [|apply NoDup_fst_map_to_list].
    apply list_fmap_ext. intros j [k x] Hj. simpl. apply list_elem_of_lookup_2, elem_of_map_to_list in Hj.
    assert (held s t k = Some x) as Hh by (unfold held; by destruct (leases s !! t)).
    by destruct (vi_lease _ I _ _ _ Hh) as (_ & ? & _). }
  induction HS as [|a l _ IH Ha]; [constructor|]. apply NoDup_cons in HN as [Hn HN]. constructor; [by apply IH|].
  rewrite Forall_forall in *. intros x Hx. destruct (Ha x Hx) as [E|E]; [|done]. destruct Hn. rewrite E.
  by apply list_elem_of_fmap_2.
Qed.

Lemma adjacent_sorted (l : list VisitorRef) :
  StronglySorted (λ a b, refLt (vrVisitor a) (vrVisitor b)) l → adjacentOk l = true.
Proof.
  induction 1 as [|a l HS IH Ha]; [done|]. destruct l as [|b l]; [done|]. simpl. simpl in IH. rewrite IH, andb_true_r.
  apply bool_decide_eq_true. by inversion Ha.
Qed.

(** Listing the visitors of a service through the client answers exactly the
    visitors whose lease has not expired at that moment, each once, strictly
    ordered, with the generation and expiry of the current lease; no check of the
    client rejects the registry's answer. *)
Theorem visitor_list_exact s t fail i :
  registry_reachable s → validServiceRef t = true → 0 ≤ now i →
  ∃ L, (List (callRegistry fail i) t s).2 = Ok L
    ∧ StronglySorted (λ a b, refLt (vrVisitor a) (vrVisitor b)) L
    ∧ ∀ r, r ∈ L ↔ ∃ v l, held s t v = Some l ∧ live (now i) l ∧ r = visitorRef l.
Proof.
  intros I%registry_reachable_inv Ht Hnow. pose proof (prune_inv (now i) s I) as Ip.
  assert (∀ r, r ∈ listed (pruneExpired (now i) s) t ↔ ∃ v l, held s t v = Some l ∧ live (now i) l ∧ r = visitorRef l) as Hin.
  { intros r. rewrite listed_elem. setoid_rewrite prune_held. split.
    - intros (v & l & [Hh Hl]%alive_Some & ->). eauto.
    - intros (v & l & Hh & Hl & ->). exists v, l. rewrite Hh. simpl. by rewrite bool_decide_true. }
  exists (listed (pruneExpired (now i) s) t). split; [|split; [by apply listed_sorted|done]].
  unfold List, callRegistry, Handle, listVisitors. rewrite Ht. simpl. fold (listed (pruneExpired (now i) s) t).
  assert (validVisitorRefs (listed (pruneExpired (now i) s) t) = true) as ->; [|done].
  unfold validVisitorRefs. rewrite adjacent_sorted by (by apply listed_sorted). rewrite andb_true_r. apply forallb_forall.
  intros r Hr%list_elem_of_In%Hin. destruct Hr as (v & l & Hh & Hl & ->).
  destruct (vi_lease _ I _ _ _ Hh) as (_ & Hvis & _ & Hv & _ & Hg).
  unfold validVisitorRef, live in *. simpl. rewrite Hvis, Hv. simpl.
  apply andb_true_iff. split; apply negb_true_iff, Z.eqb_neq; lia.
Qed.

(** ** The guard *)

Section Guard.
Context {I V Out : Type} (innerHandle : CommandID → V → I → I * Out).
Local Notation inputs := (list (ServiceRef * Time * guardCommand (V := V))).
Implicit Types (d : guardDecorator I).

Definition guardStep d (x : ServiceRef * Time * guardCommand (V := V)) : guardDecorator I :=
  (guardHandle innerHandle x.1.1 x.1.2 x.2 d).1.
Definition guardRun (l : inputs) d : guardDecorator I := foldl guardStep d l.

(** The command that starts a drain. *)
Definition begins (ctl : ServiceRef) (x : ServiceRef * Time * guardCommand (V := V)) : bool :=
  bool_decide (x.1.1 = ctl) && match x.2 with Begin true => true | _ => false end.

(** The work that reaches the wrapped service, given whether the drain has begun. *)
Fixpoint passing (ctl : ServiceRef) (ext : gset CommandID) (up : bool) (l : inputs) : list (CommandID * V) :=
  match l with
  | [] => []
  | x :: l =>
      let rest := passing ctl ext (up || begins ctl x) l in
      match x.2 with
      | Work c v => if up && bool_decide (c ∈ ext) then rest else (c, v) :: rest
      | _ => rest
      end
  end.

Definition work (x : I) (cv : CommandID * V) : I := (innerHandle cv.1 cv.2 x).1.

Lemma guardStep_spec d x :
  let up := begins (controller d) x in
  controller (guardStep d x) = controller d ∧ external (guardStep d x) = external d
  ∧ draining (guardStep d x) = draining d || up
  ∧ startedAt (guardStep d x) = (if negb (draining d) && up then x.1.2 else startedAt d)
  ∧ inner (guardStep d x) = foldl work (inner d) (passing (controller d) (external d) (draining d) [x]).
Proof.
  destruct x as [[from clock] [ok|ok|c v]]; unfold guardStep, begins; simpl.
  - unfold begin. destruct ok; simpl; [|by rewrite andb_false_r, orb_false_r, andb_false_r].
    rewrite andb_true_r, bool_decide_not. destruct (bool_decide (from = controller d)); simpl;
      [|by rewrite orb_false_r, andb_false_r]. destruct (draining d) eqn:Hd; by rewrite ?Hd.
  - by rewrite andb_false_r, orb_false_r, andb_false_r.
  - rewrite andb_false_r, orb_false_r, andb_false_r.
    destruct (draining d && bool_decide (c ∈ external d)); simpl; [done|]. unfold work. simpl. by destruct (innerHandle c v (inner d)).
Qed.

Lemma passing_app ctl ext up l l' :
  passing ctl ext up (l ++ l') = passing ctl ext up l ++ passing ctl ext (up || existsb (begins ctl) l) l'.
Proof.
  revert up. induction l as [|x l IH]; intros up; simpl; [by rewrite orb_false_r|]. rewrite IH, orb_assoc.
  by destruct x.2; try destruct (_ && _).
Qed.

Lemma guardRun_spec l d :
  controller (guardRun l d) = controller d ∧ external (guardRun l d) = external d
  ∧ draining (guardRun l d) = draining d || existsb (begins (controller d)) l
  ∧ (draining d = true → startedAt (guardRun l d) = startedAt d)
  ∧ inner (guardRun l d) = foldl work (inner d) (passing (controller d) (external d) (draining d) l).
Proof.
  induction l as [|x l IH] using rev_ind; [by rewrite orb_false_r|]. unfold guardRun in *. rewrite foldl_snoc.
  destruct IH as (Hc & He & Hd & Hs & Hi). destruct (guardStep_spec (foldl guardStep d l) x) as (C & X & D & S & N).
  rewrite Hc, He, Hd in *. split_and!; [done|done| | |].
  - rewrite D, existsb_app. simpl. by rewrite orb_false_r, orb_assoc.
  - intros Hdr. rewrite S, Hdr. simpl. by apply Hs.
  - rewrite N, passing_app, foldl_app. by rewrite Hi.
Qed.

(** The work among some commands, without the external one once the drain is on. *)
Definition workOf (sealed : CommandID → bool) (l : inputs) : list (CommandID * V) :=
  omap (λ x, match x.2 with Work c v => if sealed c then None else Some (c, v) | _ => None end) l.

Lemma passing_up ctl ext l : passing ctl ext true l = workOf (λ c, bool_decide (c ∈ ext)) l.
Proof.
  induction l as [|[y [| |c v]] l IH]; simpl; [done|done|done|]. case_bool_decide; [done|]. by f_equal.
Qed.
End Guard.

Lemma addExternal_spec l : ∀ acc e, addExternal l acc = Some e → ∀ c, c ∈ e ↔ c ∈ l ∨ c ∈ acc.
Proof.
  induction l as [|a l IH]; intros acc e H c; simpl in H; [simplify_eq; set_solver|].
  destruct (_ || _); [done|]. case_bool_decide; [done|]. rewrite (IH _ _ H). set_solver.
Qed.

Lemma Decorate_Ok {I} (x0 : I) ctl cmds mc d :
  Decorate (Some x0) ctl cmds mc = Ok d →
  inner d = x0 ∧ controller d = ctl ∧ draining d = false ∧ ∀ c, c ∈ external d ↔ c ∈ cmds.
Proof.
  unfold Decorate. destruct (_ || _); [done|]. destruct (addExternal cmds ∅) as [e|] eqn:He; [|done]. intros [= <-]. simpl.
  split_and!; try done. intros c. rewrite (addExternal_spec _ _ _ He). set_solver.
Qed.

Lemma passing_all {V} ctl ext (l : list (ServiceRef * Time * guardCommand (V := V))) :
  existsb (begins ctl) l = false → passing ctl ext false l = workOf (λ _, false) l.
Proof.
  induction l as [|x l IH]; [done|]. simpl. intros [-> Hl]%orb_false_iff. simpl. rewrite (IH Hl). by destruct x.2.
Qed.

(** C13. A drain is irreversible, seals the service against outside work and against
    nothing else.  Over any commands from any senders, a guard drains exactly when the
    configured controller has said so, and the start of the drain never changes once it
    is set.  The wrapped service has handled, in order, all the work that came before
    the drain and, of the work that came afterwards, exactly the commands that are not
    external: an external one is refused with [ErrDraining] and does not reach it, any
    other one gets the wrapped service's own answer. *)
Theorem drain_guard_final {I V Out} (innerHandle : CommandID → V → I → I * Out) x0 ctl cmds mc d0 l l' :
  Decorate (Some x0) ctl cmds mc = Ok d0 →
  let d := guardRun innerHandle l d0 in
  let d' := guardRun innerHandle (l ++ l') d0 in
  (draining d = true ↔ ∃ x, x ∈ l ∧ begins ctl x = true)
  ∧ (draining d = true →
     draining d' = true ∧ startedAt d' = startedAt d
     ∧ inner d' = foldl (work innerHandle) (inner d) (workOf (λ c, bool_decide (c ∈ cmds)) l'))
  ∧ (draining d = false → inner d = foldl (work innerHandle) x0 (workOf (λ _, false) l))
  ∧ ∀ from clock c v,
      let '(e, o) := guardHandle innerHandle from clock (Work c v) d in
      if draining d && bool_decide (c ∈ cmds) then o = GRejected ∧ inner e = inner d
      else o = GInner (innerHandle c v (inner d)).2 ∧ inner e = (innerHandle c v (inner d)).1.
Proof.
  intros (Hi0 & Hc0 & Hd0 & Hext)%Decorate_Ok. intros d d'. destruct (guardRun_spec innerHandle l d0) as (C & X & D & _ & N).
  rewrite Hc0, Hd0, Hi0 in *. fold d in C, X, D, N.
  assert (∀ c, bool_decide (c ∈ external d) = bool_decide (c ∈ cmds)) as Hsame.
  { intros c. apply bool_decide_ext. by rewrite X, Hext. }
  split_and!.
  - rewrite D. simpl. rewrite existsb_exists. by setoid_rewrite list_elem_of_In.
  - intros Hd. unfold d', guardRun. rewrite foldl_app. fold (guardRun innerHandle l d0). fold d.
    destruct (guardRun_spec innerHandle l' d) as (_ & _ & D' & S' & N'). rewrite Hd in D', N'. unfold guardRun in *.
    split_and!; [by rewrite D'|by apply S'|]. rewrite N', passing_up. f_equal.
    apply list_omap_ext, Forall_Forall2_diag, Forall_true. intros x. by destruct x.2; rewrite ?Hsame.
  - intros Hd. rewrite Hd in D. rewrite N. by rewrite passing_all.
  - intros from clock c v. simpl. rewrite Hsame. destruct (_ && _); [done|].
    by destruct (innerHandle c v (inner d)).
Qed.

(** *** Witnesses *)

Definition sampleVisitor : ServiceRef := mkRef "n2" 4.
Definition sampleTarget : ServiceRef := mkRef "n1" 7.
Definition sampleRegistry : visitorRegistryService :=
  mkRegistry (mkConfig 100 10) 9 ∅ 0 false newMetricCollector.
Definition at_ (t : Time) : input := mkInput t t sampleVisitor None.
Definition sampleAcquire : visitorCommand := AcquireVisitorLease sampleTarget sampleVisitor false.
Definition sampleHeld : visitorRegistryService := (Handle (at_ 5) sampleAcquire sampleRegistry).1.
Definition sampleLease : VisitorLease := mkLease sampleTarget sampleVisitor 9 1 false 105.

Lemma sampleHeld_reachable : registry_reachable sampleHeld.
Proof.
  exists (mkConfig 100 10), 9, newMetricCollector, sampleRegistry. split; [reflexivity|].
  apply rtc_once. left. by exists (at_ 5), sampleAcquire.
Qed.

Lemma visitor_lease_fenced_witness :
  granted (Handle (at_ 8) (RenewVisitorLease sampleLease) (Handle (at_ 6) sampleAcquire sampleHeld).1).2 = None.
Proof.
  apply (visitor_lease_fenced sampleHeld sampleLease (at_ 6) sampleAcquire); [apply sampleHeld_reachable|vm_compute; reflexivity| |].
  - right. right. exists false, (mkLease sampleTarget sampleVisitor 9 2 false 106). split; vm_compute; reflexivity.
  - apply rtc_refl.
Defined.

Lemma visitor_list_exact_witness :
  (List (callRegistry (Sentinel ErrTimeout) (at_ 104)) sampleTarget sampleHeld).2
  = Ok [mkVisitorRef sampleVisitor 1 false 105].
Proof.
  destruct (visitor_list_exact sampleHeld sampleTarget (Sentinel ErrTimeout) (at_ 104)) as (L & HL & _);
    [apply sampleHeld_reachable|vm_compute; reflexivity|discriminate|].
  rewrite HL. vm_compute in HL. injection HL as <-. reflexivity.
Defined.

Definition countWork (c : CommandID) (v : Z) (n : Z) : Z * unit := (n + v, tt).
Definition sampleGuard : guardDecorator Z := mkGuard 0 (mkRef "ctl" 1) {[5]} false 0 newMetricCollector.

Lemma drain_guard_final_witness :
  let before := [(zeroRef, 1, Work 5 10)] in
  let begin := [(mkRef "ctl" 1, 2, Begin true)] in
  let after := [(zeroRef, 3, Work 5 100); (zeroRef, 4, Work 6 1000)] in
  let d := guardRun countWork ((before ++ begin) ++ after) sampleGuard in
  draining d = true ∧ inner d = 1010.
Proof.
  intros before begin after d.
  destruct (drain_guard_final countWork 0 (mkRef "ctl" 1) [5] newMetricCollector sampleGuard
    (before ++ begin) after ltac:(vm_compute; reflexivity)) as (_ & H & _).
  destruct H as (Hd & _ & Hi); [vm_compute; reflexivity|].
  split; [exact Hd|]. unfold d. rewrite Hi. vm_compute. reflexivity.
Defined.
