(* ===== verification/Supervisor.v ===== *)
(** * Supervision

    [src/tooling/supervisor]: the supervisor service, which decides what happens
    when a supervised service fails ([service.go]); the runner, which carries out
    one recovery attempt ([runner.go]); the launcher that prepares, publishes and
    aborts replacements ([launcher.go]); the decorator that reports panics
    ([decorator.go]); and the client ([client.go]).

    The entries of the service are heap objects reached only through its map, so
    the map holds the values.  [Submit] of the executor answers what [submit] of
    the [input] says, a function of the task; the clock is read once or twice per
    command and [now], [later] are its readings. *)

From stdpp Require Import prelude gmap strings list.
From Stdlib Require Import ZArith Lia.
From S2P Require Import Prelude Types Metrics GoText.

Local Open Scope Z_scope.

Inductive supError :=
| ErrInvalidConfig | ErrInvalidContext | ErrInvalidKey | ErrInvalidPolicy | ErrInvalidRegistration | ErrAlreadyRegistered
| ErrServiceNotRegistered | ErrInvalidNotice | ErrDuplicateNotice | ErrStaleNotice | ErrRestartSuppressed
| ErrRecoveryQueueFull | ErrRunnerClosed | ErrSnapshotNotFound | ErrRecoveryFailed | ErrCreateFailed
| ErrNamePublishFailed | ErrAbortFailed | ErrStaleRecovery | ErrInvalidResponse
| Joined (es : list supError)
| ErrOther (e : rtError).

(** [errors.Is] against a sentinel, given as a test. *)
Fixpoint supIs (test : supError → bool) (e : supError) : bool :=
  match e with
  | Joined es => existsb (supIs test) es
  | _ => test e
  end.
Definition isQueueFull (e : supError) : bool := match e with ErrRecoveryQueueFull => true | _ => false end.
Definition isStaleRecovery (e : supError) : bool := match e with ErrStaleRecovery => true | _ => false end.
Definition isSnapshotNotFound (e : supError) : bool := match e with ErrSnapshotNotFound => true | _ => false end.
Definition isCreateFailed (e : supError) : bool := match e with ErrCreateFailed => true | _ => false end.

Record ServiceKey := mkKey { Namespace : string; KeyID : string }.
#[global] Instance ServiceKey_eq_dec : EqDecision ServiceKey.
Proof. solve_decision. Defined.
#[global] Instance ServiceKey_countable : Countable ServiceKey.
Proof. apply (inj_countable' (λ k, (Namespace k, KeyID k)) (λ p, mkKey p.1 p.2)). by intros []. Defined.

Inductive RestartStrategy := RestartNever | RestartOnFailure | DestroyOnFailure | StrategyOther (n : Z).
#[global] Instance RestartStrategy_eq_dec : EqDecision RestartStrategy.
Proof. solve_decision. Defined.

Record RestartPolicy := mkPolicy {
  Strategy : RestartStrategy; MaxAttempts : Z; MaxRestarts : Z; Window : Duration; MinBackoff : Duration; MaxBackoff : Duration
}.
Record Registration := mkRegistration {
  regKey : ServiceKey; regRef : ServiceRef; regGeneration : Z; Policy : RestartPolicy
}.

Inductive ServiceStatus :=
| ServiceRunning | ServiceRestartStopped | ServiceDestroyed | ServiceBackoff | ServicePreparing | ServicePublishing
| ServiceRecoveryFailed | ServiceRestartSuppressed.
#[global] Instance ServiceStatus_eq_dec : EqDecision ServiceStatus.
Proof. solve_decision. Defined.

Inductive RecoveryFailure :=
| RecoveryFailureNone | RecoveryFailureSnapshotNotFound | RecoveryFailurePrepare | RecoveryFailureCreate
| RecoveryFailurePublish | RecoveryFailureAbort | RecoveryFailureQueueFull | RecoveryFailureSuppressed
| RecoveryFailureOther (n : Z).
#[global] Instance RecoveryFailure_eq_dec : EqDecision RecoveryFailure.
Proof. solve_decision. Defined.

Record RecoveryTask := mkRecovery {
  tSupervisor : ServiceRef; tKey : ServiceKey; tFailedRef : ServiceRef; tGeneration : Z; tAttempt : Z; tDelay : Duration
}.
#[global] Instance RecoveryTask_eq_dec : EqDecision RecoveryTask.
Proof. solve_decision. Defined.
Definition zeroTask : RecoveryTask := mkRecovery zeroRef (mkKey "" "") zeroRef 0 0 0.

(** [panicKind]: [Kind] is [FailureHandlerPanic]. *)
Record FailureNotice := mkNotice {
  nKey : ServiceKey; FailedRef : ServiceRef; nGeneration : Z; OccurredAt : Time; panicKind : bool
}.

Record Record_ := mkRecord {
  recRegistration : Registration; recStatus : ServiceStatus; recAttempt : Z; recAttemptsInFault : Z;
  recRestarts : Z; recLastFailure : RecoveryFailure
}.

(** ** Validation *)

Definition validText (value : string) : bool := ValidString value && negb (blank value).
Definition validateServiceKey (k : ServiceKey) : error supError :=
  if negb (validText (Namespace k)) || negb (validText (KeyID k)) then Some ErrInvalidKey else None.
Definition concreteRef (r : ServiceRef) : bool := negb (bool_decide (Node r = "") || (ID r =? 0)).

Definition validateRestartPolicy (p : RestartPolicy) : error supError :=
  match Strategy p with
  | RestartNever | DestroyOnFailure =>
      if negb (MaxAttempts p =? 0) || negb (MaxRestarts p =? 0) || negb (Window p =? 0) || negb (MinBackoff p =? 0)
         || negb (MaxBackoff p =? 0) then Some ErrInvalidPolicy else None
  | RestartOnFailure =>
      if (MaxAttempts p <? 1) || (MaxRestarts p <? 1) || (Window p <=? 0) || (MinBackoff p <=? 0)
         || (MaxBackoff p <? MinBackoff p) then Some ErrInvalidPolicy else None
  | StrategyOther _ => Some ErrInvalidPolicy
  end.

Definition validateRegistration (r : Registration) : error supError :=
  match validateServiceKey (regKey r) with
  | Some e => Some e
  | None => if negb (concreteRef (regRef r)) || (regGeneration r =? 0) then Some ErrInvalidRegistration
            else validateRestartPolicy (Policy r)
  end.

Definition isOk {E} (e : error E) : bool := match e with None => true | Some _ => false end.

Definition validateFailureNotice (n : FailureNotice) : bool :=
  isOk (validateServiceKey (nKey n)) && concreteRef (FailedRef n) && negb (nGeneration n =? 0)
  && negb (OccurredAt n =? 0) && panicKind n.

Definition validateRecoveryTask (t : RecoveryTask) : bool :=
  concreteRef (tSupervisor t) && isOk (validateServiceKey (tKey t)) && concreteRef (tFailedRef t)
  && bool_decide (Node (tFailedRef t) = Node (tSupervisor t)) && negb (tGeneration t =? 0) && negb (tAttempt t =? 0)
  && (0 <=? tDelay t).

(** ** Backoff *)

(** The doubling loop; [fuel] is the number of rounds left, [attempt - 1] at first. *)
Fixpoint backoffLoop (fuel : nat) (maxBackoff delay : Duration) : Duration :=
  match fuel with
  | O => delay
  | S fuel =>
      if delay <? maxBackoff then
        if maxBackoff / 2 <? delay then maxBackoff else backoffLoop fuel maxBackoff (delay * 2)
      else delay
  end.
Definition restartBackoff (p : RestartPolicy) (attempt : Z) : Duration :=
  let delay := backoffLoop (Z.to_nat (attempt - 1)) (MaxBackoff p) (MinBackoff p) in
  if MaxBackoff p <? delay then MaxBackoff p else delay.

(** ** The service *)

Record serviceEntry := mkEntry {
  registration : Registration;
  status : ServiceStatus;
  nextAttempt : Z;
  activeTask : RecoveryTask;
  attemptsInFault : Z;
  restarts : list Time;
  lastFailure : RecoveryFailure;
  decided : Z;
  preparedRef : ServiceRef
}.

Record service := mkService { entries : gmap ServiceKey serviceEntry; metrics : metricCollector }.

Definition NewService (mc : metricCollector) : service := mkService ∅ mc.

Record input := mkInput {
  self : ServiceRef; source : ServiceRef; now : Time; later : Time; submit : RecoveryTask → error supError
}.

Definition inc (name : string) (s : service) : service := mkService (entries s) (Inc name (metrics s)).
Definition put (k : ServiceKey) (e : serviceEntry) (s : service) : service := mkService (<[k := e]> (entries s)) (metrics s).

(** [runtimeRoot]: the source of the calls a runner makes. *)
Definition runtimeRoot (node : NodeID) : ServiceRef := mkRef node 0.

Definition register (i : input) (r : Registration) (s : service) : service * error supError :=
  match validateRegistration r with
  | Some e => (s, Some e)
  | None =>
      if bool_decide (Node (regRef r) ≠ Node (self i)) || bool_decide (regRef r = self i)
      then (s, Some ErrInvalidRegistration)
      else match entries s !! regKey r with
           | Some _ => (s, Some ErrAlreadyRegistered)
           | None => (put (regKey r) (mkEntry r ServiceRunning 0 zeroTask 0 [] RecoveryFailureNone 0 zeroRef) s, None)
           end
  end.

(** [pruneRestarts]: drop the leading restarts that are not after the cutoff. *)
Fixpoint dropBefore (cutoff : Time) (l : list Time) : list Time :=
  match l with
  | [] => []
  | t :: l' => if cutoff <? t then l else dropBefore cutoff l'
  end.
Definition pruneRestarts (now : Time) (e : serviceEntry) : serviceEntry :=
  mkEntry (registration e) (status e) (nextAttempt e) (activeTask e) (attemptsInFault e)
    (dropBefore (now - Window (Policy (registration e))) (restarts e)) (lastFailure e) (decided e) (preparedRef e).

Definition get (i : input) (k : ServiceKey) (s : service) : service * res supError Record_ :=
  match validateServiceKey k with
  | Some e => (s, Err e)
  | None =>
      match entries s !! k with
      | None => (s, Err ErrServiceNotRegistered)
      | Some e =>
          let e := pruneRestarts (now i) e in
          (put k e s,
           Ok (mkRecord (registration e) (status e) (tAttempt (activeTask e)) (attemptsInFault e)
                 (Z.of_nat (length (restarts e))) (lastFailure e)))
      end
  end.

Definition setStatus st e :=
  mkEntry (registration e) st (nextAttempt e) (activeTask e) (attemptsInFault e) (restarts e) (lastFailure e) (decided e) (preparedRef e).
Definition setFault n f e :=
  mkEntry (registration e) (status e) (nextAttempt e) (activeTask e) n (restarts e) f (decided e) (preparedRef e).
Definition setLastFailure f e := setFault (attemptsInFault e) f e.
Definition setDecided g e :=
  mkEntry (registration e) (status e) (nextAttempt e) (activeTask e) (attemptsInFault e) (restarts e) (lastFailure e) g (preparedRef e).
Definition setPrepared r e :=
  mkEntry (registration e) (status e) (nextAttempt e) (activeTask e) (attemptsInFault e) (restarts e) (lastFailure e) (decided e) r.
Definition setActive t e :=
  mkEntry (registration e) (status e) (nextAttempt e) t (attemptsInFault e) (restarts e) (lastFailure e) (decided e) (preparedRef e).

(** The commit of a replacement, shared by [recoveryCommitted] and by a failure of
    the replacement that overtakes it.  [at_] is the time of the restart. *)
Definition commitEntry (ref : ServiceRef) (g : Z) (at_ pruneAt : Time) (e : serviceEntry) : serviceEntry :=
  pruneRestarts pruneAt
    (mkEntry (mkRegistration (regKey (registration e)) ref g (Policy (registration e))) ServiceRunning (nextAttempt e)
       (activeTask e) 0 (restarts e ++ [at_]) RecoveryFailureNone (decided e) zeroRef).

(** [schedule]; the entry is stored under [k]. *)
Definition schedule (i : input) (k : ServiceKey) (e : serviceEntry) (s : service) : service * error supError :=
  if MaxAttempts (Policy (registration e)) <=? attemptsInFault e
  then (inc "supervisor_restarts_suppressed_total" (put k (setStatus ServiceRecoveryFailed e) s), Some ErrRestartSuppressed)
  else
    let e := mkEntry (registration e) (status e) (u64_succ (nextAttempt e)) (activeTask e) (attemptsInFault e + 1)
               (restarts e) (lastFailure e) (decided e) (preparedRef e) in
    let task := mkRecovery (self i) (regKey (registration e)) (regRef (registration e))
                  (u64_succ (regGeneration (registration e))) (nextAttempt e)
                  (restartBackoff (Policy (registration e)) (attemptsInFault e)) in
    match submit i task with
    | Some err =>
        let f := if supIs isQueueFull err then RecoveryFailureQueueFull else RecoveryFailurePrepare in
        (inc "supervisor_restarts_failed_total" (put k (setLastFailure f (setActive task (setStatus ServiceRecoveryFailed e))) s),
         Some err)
    | None => (inc "supervisor_restarts_scheduled_total" (put k (setStatus ServiceBackoff (setActive task e)) s), None)
    end.

(** The decision on a notice for the entry [e], which is stored under its key. *)
Definition decideFailure (i : input) (n : FailureNotice) (e : serviceEntry) (s : service) : service * error supError :=
  if bool_decide (FailedRef n ≠ regRef (registration e)) || negb (nGeneration n =? regGeneration (registration e))
  then (inc "supervisor_failure_notices_stale_total" s, Some ErrStaleNotice)
  else if bool_decide (status e ≠ ServiceRunning) || (decided e =? nGeneration n)
  then (inc "supervisor_failure_notices_duplicate_total" s, Some ErrDuplicateNotice)
  else
    let e := setDecided (nGeneration n) e in
    let s := inc "supervisor_failure_notices_total" (put (nKey n) e s) in
    match Strategy (Policy (registration e)) with
    | RestartNever => (put (nKey n) (setStatus ServiceRestartStopped e) s, None)
    | DestroyOnFailure => (put (nKey n) (setStatus ServiceDestroyed e) s, None)
    | RestartOnFailure =>
        let e := pruneRestarts (later i) e in
        if MaxRestarts (Policy (registration e)) <=? Z.of_nat (length (restarts e))
        then (inc "supervisor_restarts_suppressed_total"
                (put (nKey n) (setLastFailure RecoveryFailureSuppressed (setStatus ServiceRestartSuppressed e)) s),
              Some ErrRestartSuppressed)
        else schedule i (nKey n) (setFault 0 RecoveryFailureNone e) s
    | StrategyOther _ => (s, Some ErrInvalidPolicy)
    end.

(** A failure of a replacement whose commit has not arrived yet commits it first. *)
Definition overtakes (n : FailureNotice) (e : serviceEntry) : bool :=
  bool_decide (status e = ServicePublishing) && bool_decide (FailedRef n = preparedRef e)
  && (nGeneration n =? tGeneration (activeTask e)).

Definition handleFailure (i : input) (n : FailureNotice) (s : service) : service * error supError :=
  if negb (validateFailureNotice n) || bool_decide (source i ≠ FailedRef n) then (s, Some ErrInvalidNotice)
  else
    match entries s !! nKey n with
    | None => (s, Some ErrServiceNotRegistered)
    | Some e =>
        if overtakes n e then
          let e := commitEntry (FailedRef n) (nGeneration n) (now i) (now i) e in
          decideFailure i n e (inc "supervisor_restarts_succeeded_total" (put (nKey n) e s))
        else decideFailure i n e s
    end.

Definition activeEntry (i : input) (t : RecoveryTask) (sts : list ServiceStatus) (s : service) : res supError serviceEntry :=
  if bool_decide (source i ≠ runtimeRoot (Node (self i))) || bool_decide (tSupervisor t ≠ self i) then Err ErrStaleRecovery
  else
    match entries s !! tKey t with
    | None => Err ErrStaleRecovery
    | Some e =>
        if bool_decide (activeTask e ≠ t) || negb (tGeneration t =? u64_succ (regGeneration (registration e)))
        then Err ErrStaleRecovery
        else if bool_decide (status e ∈ sts) then Ok e else Err ErrStaleRecovery
    end.

(** A result that was already applied: the runner may repeat it. *)
Definition repeated (i : input) (t : RecoveryTask) (applied : serviceEntry → bool) (s : service) : bool :=
  bool_decide (source i = runtimeRoot (Node (self i)))
  && match entries s !! tKey t with
     | Some e => bool_decide (activeTask e = t) && applied e
     | None => false
     end.

Definition recoveryStarted (i : input) (t : RecoveryTask) (s : service) : service * error supError :=
  if repeated i t (λ e, bool_decide (status e = ServicePreparing)) s then (s, None)
  else
    match activeEntry i t [ServiceBackoff] s with
    | Err e => (s, Some e)
    | Ok e => (put (tKey t) (setStatus ServicePreparing e) s, None)
    end.

Definition recoveryPrepared (i : input) (t : RecoveryTask) (ref : ServiceRef) (s : service) : service * error supError :=
  if repeated i t (λ e, bool_decide (status e = ServicePublishing) && bool_decide (preparedRef e = ref)) s then (s, None)
  else
    match activeEntry i t [ServicePreparing] s with
    | Err e => (s, Some e)
    | Ok e =>
        if negb (concreteRef ref) || bool_decide (Node ref ≠ Node (self i)) || bool_decide (ref = self i)
        then (s, Some ErrStaleRecovery)
        else (put (tKey t) (setStatus ServicePublishing (setPrepared ref e)) s, None)
    end.

Definition recoveryCommitted (i : input) (t : RecoveryTask) (ref : ServiceRef) (s : service) : service * error supError :=
  if repeated i t (λ e, bool_decide (status e = ServiceRunning) && (regGeneration (registration e) =? tGeneration t)
                        && bool_decide (regRef (registration e) = ref)) s then (s, None)
  else
    match activeEntry i t [ServicePublishing] s with
    | Err _ => (s, Some ErrStaleRecovery)
    | Ok e =>
        if bool_decide (preparedRef e ≠ ref) then (s, Some ErrStaleRecovery)
        else (inc "supervisor_restarts_succeeded_total"
                (put (tKey t) (commitEntry ref (tGeneration t) (now i) (later i) e) s), None)
    end.

Definition reportable (f : RecoveryFailure) : bool :=
  match f with RecoveryFailureNone | RecoveryFailureOther _ => false | _ => true end.

Definition recoveryFailed (i : input) (t : RecoveryTask) (f : RecoveryFailure) (s : service) : service * error supError :=
  if negb (reportable f) then (s, Some ErrStaleRecovery)
  else
    match activeEntry i t [ServiceBackoff; ServicePreparing; ServicePublishing] s with
    | Err e => (s, Some e)
    | Ok e =>
        let e := setLastFailure f (setPrepared zeroRef e) in
        let s := inc "supervisor_restarts_failed_total" (put (tKey t) e s) in
        if bool_decide (f = RecoveryFailureAbort) || (MaxAttempts (Policy (registration e)) <=? attemptsInFault e)
        then (inc "supervisor_restarts_suppressed_total" (put (tKey t) (setStatus ServiceRecoveryFailed e) s), None)
        else schedule i (tKey t) e s
    end.

(** ** Commands *)

Inductive supCommand :=
| Register (r : Registration)
| Get (k : ServiceKey)
| Failure (n : FailureNotice)
| RecoveryStarted (t : RecoveryTask)
| RecoveryPrepared (t : RecoveryTask) (ref : ServiceRef)
| RecoveryCommitted (t : RecoveryTask) (ref : ServiceRef)
| RecoveryFailed (t : RecoveryTask) (f : RecoveryFailure)
| BadRegister | BadGet | BadFailure | BadRecovery     (** a known command, another payload type *)
| UnknownSupCommand.

(** The answer: an [operationResponse] or [recordResponse] with its error, or, for a
    failure notice, the error of the handler. *)
Inductive answer := Operation (e : error supError) | ARecord (r : res supError Record_) | HandlerError (e : error supError).

Definition Handle (i : input) (c : supCommand) (s : service) : service * answer :=
  match c with
  | Register r => let '(s, e) := register i r s in (s, Operation e)
  | Get k => let '(s, r) := get i k s in (s, ARecord r)
  | Failure n => let '(s, e) := handleFailure i n s in (s, HandlerError e)
  | RecoveryStarted t => let '(s, e) := recoveryStarted i t s in (s, Operation e)
  | RecoveryPrepared t ref => let '(s, e) := recoveryPrepared i t ref s in (s, Operation e)
  | RecoveryCommitted t ref => let '(s, e) := recoveryCommitted i t ref s in (s, Operation e)
  | RecoveryFailed t f => let '(s, e) := recoveryFailed i t f s in (s, Operation e)
  | BadRegister => (s, Operation (Some ErrInvalidRegistration))
  | BadGet => (s, ARecord (Err ErrInvalidKey))
  | BadFailure => (s, HandlerError (Some ErrInvalidNotice))
  | BadRecovery => (s, Operation (Some ErrStaleRecovery))
  | UnknownSupCommand => (s, HandlerError (Some (ErrOther (Sentinel ErrUnknownCommand))))
  end.

(** ** Error codes *)

Inductive responseError :=
| responseOK | responseInvalidConfig | responseInvalidKey | responseInvalidPolicy | responseInvalidRegistration
| responseAlreadyRegistered | responseServiceNotRegistered | responseInvalidNotice | responseDuplicateNotice
| responseStaleNotice | responseRestartSuppressed | responseRecoveryQueueFull | responseRunnerClosed
| responseSnapshotNotFound | responseRecoveryFailed | responseCreateFailed | responseNamePublishFailed
| responseAbortFailed | responseStaleRecovery.

Definition errorFromResponse (c : responseError) : error supError :=
  match c with
  | responseOK => None
  | responseInvalidConfig => Some ErrInvalidConfig
  | responseInvalidKey => Some ErrInvalidKey
  | responseInvalidPolicy => Some ErrInvalidPolicy
  | responseInvalidRegistration => Some ErrInvalidRegistration
  | responseAlreadyRegistered => Some ErrAlreadyRegistered
  | responseServiceNotRegistered => Some ErrServiceNotRegistered
  | responseInvalidNotice => Some ErrInvalidNotice
  | responseDuplicateNotice => Some ErrDuplicateNotice
  | responseStaleNotice => Some ErrStaleNotice
  | responseRestartSuppressed => Some ErrRestartSuppressed
  | responseRecoveryQueueFull => Some ErrRecoveryQueueFull
  | responseRunnerClosed => Some ErrRunnerClosed
  | responseSnapshotNotFound => Some ErrSnapshotNotFound
  | responseRecoveryFailed => Some ErrRecoveryFailed
  | responseCreateFailed => Some ErrCreateFailed
  | responseNamePublishFailed => Some ErrNamePublishFailed
  | responseAbortFailed => Some ErrAbortFailed
  | responseStaleRecovery => Some ErrStaleRecovery
  end.

(** The code of one sentinel; the tests of [responseFromError] in order. *)
Definition sentinelCodes : list ((supError → bool) * responseError) :=
  [(λ e, match e with ErrInvalidConfig => true | _ => false end, responseInvalidConfig);
   (λ e, match e with ErrInvalidKey => true | _ => false end, responseInvalidKey);
   (λ e, match e with ErrInvalidPolicy => true | _ => false end, responseInvalidPolicy);
   (λ e, match e with ErrInvalidRegistration => true | _ => false end, responseInvalidRegistration);
   (λ e, match e with ErrAlreadyRegistered => true | _ => false end, responseAlreadyRegistered);
   (λ e, match e with ErrServiceNotRegistered => true | _ => false end, responseServiceNotRegistered);
   (λ e, match e with ErrInvalidNotice => true | _ => false end, responseInvalidNotice);
   (λ e, match e with ErrDuplicateNotice => true | _ => false end, responseDuplicateNotice);
   (λ e, match e with ErrStaleNotice => true | _ => false end, responseStaleNotice);
   (λ e, match e with ErrRestartSuppressed => true | _ => false end, responseRestartSuppressed);
   (isQueueFull, responseRecoveryQueueFull);
   (λ e, match e with ErrRunnerClosed => true | _ => false end, responseRunnerClosed);
   (isSnapshotNotFound, responseSnapshotNotFound);
   (isCreateFailed, responseCreateFailed);
   (λ e, match e with ErrNamePublishFailed => true | _ => false end, responseNamePublishFailed);
   (λ e, match e with ErrAbortFailed => true | _ => false end, responseAbortFailed);
   (isStaleRecovery, responseStaleRecovery)].

Fixpoint firstCode (l : list ((supError → bool) * responseError)) (e : supError) : responseError :=
  match l with
  | [] => responseRecoveryFailed
  | (test, c) :: l => if supIs test e then c else firstCode l e
  end.
Definition responseFromError (e : error supError) : responseError :=
  match e with None => responseOK | Some e => firstCode sentinelCodes e end.

(** ** The runner *)

Record LaunchRequest := mkLaunch {
  lSupervisor : ServiceRef; lKey : ServiceKey; lFailedRef : ServiceRef; lGeneration : Z; lAttempt : Z
}.
Definition launchOf (t : RecoveryTask) : LaunchRequest :=
  mkLaunch (tSupervisor t) (tKey t) (tFailedRef t) (tGeneration t) (tAttempt t).

(** [callOperation]: [tries] are the outcomes of the calls it makes, [None] a value
    of another type; when they end, its context ended with [cause] while it waited
    to try again. *)
Fixpoint callOperation (tries : list (res rtError (option responseError))) (cause : rtError) : error supError :=
  match tries with
  | [] => Some (ErrOther cause)
  | Ok (Some c) :: _ => errorFromResponse c
  | Ok None :: _ => Some ErrInvalidResponse
  | Err e :: tries => if errors_Is e ErrMailboxFull then callOperation tries cause else Some (ErrOther e)
  end.

(** What a recovery does to the world, with what it was answered. *)
Inductive action :=
| Told (c : supCommand) (e : error supError)          (** [callOperation] on the supervisor *)
| Prepared (r : LaunchRequest) (ref : ServiceRef) (e : error supError)
| Committed (r : LaunchRequest) (ref : ServiceRef) (e : error supError)
| Aborted (r : LaunchRequest) (ref : ServiceRef) (e : error supError).

(** The world answers as a function of everything done so far; [stopped] is whether
    the runner's context is done, and [waited] whether the delay passed. *)
Class World := {
  waited : Duration → bool;
  stopped : list action → bool;
  onTell : list action → supCommand → error supError;
  onPrepare : list action → LaunchRequest → ServiceRef * error supError;
  onCommit : list action → LaunchRequest → ServiceRef → error supError;
  onAbort : list action → LaunchRequest → ServiceRef → error supError
}.

Section Execute.
Context {W : World}.

Definition tell (c : supCommand) (tr : list action) : list action * error supError :=
  let e := onTell tr c in (tr ++ [Told c e], e).
Definition abortLaunch (r : LaunchRequest) (ref : ServiceRef) (tr : list action) : list action * error supError :=
  let e := onAbort tr r ref in (tr ++ [Aborted r ref e], e).
Definition reportFailure (t : RecoveryTask) (f : RecoveryFailure) (tr : list action) : list action :=
  (tell (RecoveryFailed t f) tr).1.

Definition classifyPrepareFailure (e : supError) : RecoveryFailure :=
  if supIs isSnapshotNotFound e then RecoveryFailureSnapshotNotFound
  else if supIs isCreateFailed e then RecoveryFailureCreate
  else RecoveryFailurePrepare.

Definition abort (t : RecoveryTask) (r : LaunchRequest) (ref : ServiceRef) (cause : supError) (f : RecoveryFailure)
    (tr : list action) : list action :=
  let '(tr, e) := abortLaunch r ref tr in
  match e with
  | Some _ => reportFailure t RecoveryFailureAbort tr
  | None => if supIs isStaleRecovery cause then tr else reportFailure t f tr
  end.

Definition localRef (t : RecoveryTask) (ref : ServiceRef) : bool :=
  concreteRef ref && bool_decide (Node ref = Node (tSupervisor t)).

Definition execute (t : RecoveryTask) : list action :=
  if negb (waited (tDelay t)) then []
  else
    let '(tr, e) := tell (RecoveryStarted t) [] in
    match e with
    | Some _ => tr
    | None =>
        let r := launchOf t in
        let '(ref, e) := onPrepare tr r in
        let tr := tr ++ [Prepared r ref e] in
        match e with
        | Some e =>
            if stopped tr then tr
            else
              let failure := classifyPrepareFailure e in
              if localRef t ref then
                let '(tr, ae) := abortLaunch r ref tr in
                reportFailure t (match ae with Some _ => RecoveryFailureAbort | None => failure end) tr
              else reportFailure t failure tr
        | None =>
            if negb (localRef t ref) then reportFailure t RecoveryFailureCreate tr
            else
              let '(tr, e) := tell (RecoveryPrepared t ref) tr in
              match e with
              | Some e => abort t r ref e RecoveryFailurePrepare tr
              | None =>
                  let e := onCommit tr r ref in
                  let tr := tr ++ [Committed r ref e] in
                  match e with
                  | Some _ =>
                      let '(tr, ae) := abortLaunch r ref tr in
                      reportFailure t (match ae with Some _ => RecoveryFailureAbort | None => RecoveryFailurePublish end) tr
                  | None =>
                      let '(tr, e) := tell (RecoveryCommitted t ref) tr in
                      match e with
                      | Some e => abort t r ref e RecoveryFailurePublish tr
                      | None => tr
                      end
                  end
              end
        end
    end.
End Execute.

(** ** The launcher *)

Section Launcher.
(** [build]: the factory's answer, the name of the specification and whether it has
    a service; [create], [stop]: the runtime's; [publish], [withdraw]: the
    publisher's, [None] if there is no publisher. *)
Context (build : LaunchRequest → res supError (string * bool)) (create : LaunchRequest → res supError ServiceRef)
  (stop : ServiceRef → error rtError)
  (publisher : option ((ServiceKey → ServiceRef → error supError) * (ServiceKey → ServiceRef → error supError))).

Definition validateLaunchRequest (r : LaunchRequest) : bool :=
  concreteRef (lSupervisor r) && isOk (validateServiceKey (lKey r)) && concreteRef (lFailedRef r)
  && bool_decide (Node (lFailedRef r) = Node (lSupervisor r)) && negb (lGeneration r =? 0) && negb (lAttempt r =? 0).

(** The decorator's configuration is valid for a valid request, so [Decorate] is
    given a service that is not nil and does not fail. *)
Definition Prepare (r : LaunchRequest) : ServiceRef * error supError :=
  if negb (validateLaunchRequest r) then (zeroRef, Some ErrInvalidConfig)
  else
    match build r with
    | Err e => (zeroRef, Some (Joined [ErrRecoveryFailed; e]))
    | Ok (name, hasService) =>
        if bool_decide (name ≠ "") || negb hasService then (zeroRef, Some ErrInvalidConfig)
        else match create r with
             | Err e => (zeroRef, Some (Joined [ErrCreateFailed; e]))
             | Ok ref => (ref, None)
             end
    end.

Definition launchable (r : LaunchRequest) (ref : ServiceRef) : bool :=
  validateLaunchRequest r && concreteRef ref && bool_decide (Node ref = Node (lSupervisor r)).

Definition Commit (r : LaunchRequest) (ref : ServiceRef) : error supError :=
  if negb (launchable r ref) then Some ErrInvalidConfig
  else
    match publisher with
    | None => None
    | Some (publish, _) =>
        match publish (lKey r) ref with Some e => Some (Joined [ErrNamePublishFailed; e]) | None => None end
    end.

Definition Abort (r : LaunchRequest) (ref : ServiceRef) : error supError :=
  if negb (launchable r ref) then Some ErrInvalidConfig
  else
    let result := match publisher with Some (_, withdraw) => withdraw (lKey r) ref | None => None end in
    let result :=
      match stop ref with
      | Some e => if errors_Is e ErrServiceClosed || errors_Is e ErrServiceNotFound then result
                  else Some (match result with Some w => Joined [Joined [w]; ErrOther e] | None => Joined [ErrOther e] end)
      | None => result
      end in
    match result with Some e => Some (Joined [ErrAbortFailed; e]) | None => None end.
End Launcher.

(** ** The decorator *)

Inductive outcome := Returned (e : error rtError) | Panicked (text : string).

(** [Handle] of a decorated service: the notices it sends and what its caller sees. *)
Definition decoratedHandle (key : ServiceKey) (generation : Z) (me : ServiceRef) (clock : Time) (o : outcome)
  : list FailureNotice * outcome :=
  match o with
  | Returned e => ([], Returned e)
  | Panicked text => ([mkNotice key me generation clock true], Panicked text)
  end.

(** ** The client *)

Definition validateRecord (r : Record_) (key : ServiceKey) : bool :=
  bool_decide (regKey (recRegistration r) = key) && isOk (validateRegistration (recRegistration r))
  && (0 <=? recAttemptsInFault r) && (0 <=? recRestarts r)
  && match recLastFailure r with RecoveryFailureOther _ => false | _ => true end.

Section Client.
(** [c.caller.Call] with the state it acts on; [None] is a value of another type, and
    the record of an erroneous response is the zero value, which is not looked at. *)
Context {W : Type} (callOp : supCommand → W → W * res rtError (option responseError))
  (callRecord : supCommand → W → W * res rtError (option (Record_ * responseError))).

Definition clientRegister (r : Registration) (w : W) : W * error supError :=
  match validateRegistration r with
  | Some e => (w, Some e)
  | None =>
      let '(w, v) := callOp (Register r) w in
      (w, match v with
          | Err e => Some (ErrOther e)
          | Ok None => Some ErrInvalidResponse
          | Ok (Some c) => errorFromResponse c
          end)
  end.

Definition clientGet (key : ServiceKey) (w : W) : W * res supError Record_ :=
  match validateServiceKey key with
  | Some e => (w, Err e)
  | None =>
      let '(w, v) := callRecord (Get key) w in
      (w, match v with
          | Err e => Err (ErrOther e)
          | Ok None => Err ErrInvalidResponse
          | Ok (Some (r, c)) =>
              match errorFromResponse c with
              | Some e => Err e
              | None => if validateRecord r key then Ok r else Err ErrInvalidResponse
              end
          end)
  end.
End Client.
