(* ===== verification/SupervisorFacts.v ===== *)
(** * What supervision guarantees

    The closed form of the backoff; the machine every supervised service goes
    through ([entry_step]) with its invariant ([entry_ok]); the bound on restarts
    per window; and the runner, which leaves no prepared replacement behind. *)

From stdpp Require Import prelude gmap strings list relations.
From Stdlib Require Import ZArith Lia.
From S2P Require Import Prelude Types Metrics GoText Supervisor.

Local Open Scope Z_scope.

(** ** Backoff *)

Lemma backoffLoop_spec n M d :
  0 < d → d ≤ M → Z.min M (backoffLoop n M d) = Z.min M (d * 2 ^ Z.of_nat n) ∧ d ≤ backoffLoop n M d.
Proof.
  revert d. induction n as [|n IH]; intros d Hd HM; [simpl; split; [f_equal|]; lia|].
  cbn [backoffLoop]. replace (2 ^ Z.of_nat (S n)) with (2 * 2 ^ Z.of_nat n) by (rewrite <- Z.pow_succ_r; [f_equal|]; lia).
  assert (1 ≤ 2 ^ Z.of_nat n) by (pose proof (Z.pow_pos_nonneg 2 (Z.of_nat n)); lia).
  destruct (Z.ltb_spec d M) as [Hlt|Hge]; [|split; [|lia]; nia].
  destruct (Z.ltb_spec (M / 2) d) as [Hh|Hh].
  - split; [|lia]. assert (M < 2 * d). { pose proof (Z.div_lt_upper_bound M 2 d). pose proof (Z.mul_div_le M 2).
      pose proof (Z.mod_pos_bound M 2). pose proof (Z.div_mod M 2). lia. }
    rewrite Z.min_l by lia. rewrite Z.min_l by nia. done.
  - assert (d * 2 ≤ M). { pose proof (Z.mul_div_le M 2). lia. }
    destruct (IH (d * 2)) as [-> Hle]; [lia..|]. split; [f_equal; lia|lia].
Qed.

(** The delay before a recovery attempt is exactly exponential backoff: the
    minimum doubled for each earlier attempt of the same fault, capped at the
    maximum, whatever the number of attempts; every intermediate value of the
    loop stays within the maximum, so that no machine integer overflows. *)
Theorem restart_backoff_exponential p attempt :
  validateRestartPolicy p = None → Strategy p = RestartOnFailure → 1 ≤ attempt →
  restartBackoff p attempt = Z.min (MaxBackoff p) (MinBackoff p * 2 ^ (attempt - 1))
  ∧ MinBackoff p ≤ restartBackoff p attempt ≤ MaxBackoff p.
Proof.
  intros Hv Hs Ha. unfold validateRestartPolicy in Hv. rewrite Hs in Hv. destruct (_ || _) eqn:Hg; [done|]. bool_prop.
  destruct (backoffLoop_spec (Z.to_nat (attempt - 1)) (MaxBackoff p) (MinBackoff p)) as [He Hle]; [lia..|].
  rewrite Z2Nat.id in He by lia. unfold restartBackoff. rewrite <- He.
  destruct (Z.ltb_spec (MaxBackoff p) (backoffLoop (Z.to_nat (attempt - 1)) (MaxBackoff p) (MinBackoff p))); lia.
Qed.

Lemma restart_backoff_exponential_witness :
  restartBackoff (mkPolicy RestartOnFailure 9 3 1000 10 100) 4 = Z.min 100 (10 * 2 ^ 3)
  ∧ restartBackoff (mkPolicy RestartOnFailure 9 3 1000 10 100) 9 = 100.
Proof.
  split; [|reflexivity]. apply (restart_backoff_exponential (mkPolicy RestartOnFailure 9 3 1000 10 100) 4); [reflexivity..|discriminate].
Defined.

(** ** The machine of one entry *)

Definition recovering (st : ServiceStatus) : bool :=
  match st with ServiceBackoff | ServicePreparing | ServicePublishing => true | _ => false end.
Definition ended (st : ServiceStatus) : bool :=
  match st with ServiceRunning => false | st => negb (recovering st) end.

Definition policy (e : serviceEntry) : RestartPolicy := Policy (registration e).
Definition generation (e : serviceEntry) : Z := regGeneration (registration e).

Record entry_ok (e : serviceEntry) : Prop := {
  eo_policy : validateRestartPolicy (policy e) = None;
  eo_recovering : recovering (status e) = true →
    Strategy (policy e) = RestartOnFailure ∧ Z.of_nat (length (restarts e)) < MaxRestarts (policy e)
    ∧ tGeneration (activeTask e) = u64_succ (generation e) ∧ 1 ≤ attemptsInFault e;
  eo_attempts : 0 ≤ attemptsInFault e ≤ MaxAttempts (policy e)
}.

(** What one command may do to an entry; [c] tells whether it committed a
    replacement. *)
Record touched (i : input) (e e' : serviceEntry) (c : bool) : Prop := {
  to_policy : policy e' = policy e;
  to_key : regKey (registration e') = regKey (registration e);
  to_registration : if c then status e = ServicePublishing ∧ generation e' = u64_succ (generation e)
                                ∧ regRef (registration e') = preparedRef e
                    else registration e' = registration e;
  to_restarts : ∃ d, restarts e ++ (if c then [now i] else []) = d ++ restarts e'
                     ∧ Forall (λ x, x ≤ later i - Window (policy e)) d;
  to_ended : ended (status e) = true → status e' = status e ∧ c = false;
  to_ok : entry_ok e'
}.

Lemma dropBefore_split c l : ∃ d, l = d ++ dropBefore c l ∧ Forall (λ x, x ≤ c) d.
Proof.
  induction l as [|t l (d & E & H)]; [by exists []|]. cbn [dropBefore]. destruct (Z.ltb_spec c t); [by exists []|].
  exists (t :: d). split; [by rewrite <- app_comm_cons, <- E|]. by constructor.
Qed.

Lemma prune_split t e T :
  t ≤ T → ∃ d, restarts e = d ++ restarts (pruneRestarts t e) ∧ Forall (λ x, x ≤ T - Window (policy e)) d.
Proof.
  intros Ht. destruct (dropBefore_split (t - Window (policy e)) (restarts e)) as (d & E & H). exists d. split; [done|].
  eapply Forall_impl; [exact H|]. simpl. intros x ?. lia.
Qed.

Lemma prune_length t e : (length (restarts (pruneRestarts t e)) ≤ length (restarts e))%nat.
Proof. destruct (prune_split t e t) as (d & E & _); [done|]. apply (f_equal length) in E. rewrite length_app in E. lia. Qed.

Lemma attempts_policy e n : entry_ok e → 0 ≤ n ≤ attemptsInFault e → 0 ≤ n ≤ MaxAttempts (policy e).
Proof. intros [] ?. lia. Qed.

Lemma touched_refl i e : entry_ok e → touched i e e false.
Proof. intros H. split; try done. exists []. by rewrite app_nil_r. Qed.

(** Changes of an entry that keep registration and restarts. *)
Lemma touched_status i e e' :
  registration e' = registration e → restarts e' = restarts e → (ended (status e) = true → status e' = status e) →
  entry_ok e' → touched i e e' false.
Proof.
  intros Hr Hs He Ho. split; unfold policy; rewrite ?Hr; try done; [|by intros ?%He].
  exists []. by rewrite app_nil_r, Hs.
Qed.

(** The entry [schedule] leaves. *)
Lemma schedule_entry i k e s :
  validateRestartPolicy (policy e) = None → Strategy (policy e) = RestartOnFailure →
  Z.of_nat (length (restarts e)) < MaxRestarts (policy e) → 0 ≤ attemptsInFault e ≤ MaxAttempts (policy e) →
  ∃ e', entries (schedule i k e s).1 = <[k := e']> (entries s) ∧ registration e' = registration e ∧ restarts e' = restarts e
    ∧ status e' ≠ ServiceRunning ∧ entry_ok e'.
Proof.
  intros Hv Hs Hr Ha. unfold schedule. fold (policy e).
  destruct (Z.leb_spec (MaxAttempts (policy e)) (attemptsInFault e)) as [Hm|Hm].
  { eexists. split; [done|]. by split_and!. }
  destruct (submit i _) as [err|].
  - eexists. split; [done|]. split_and!; try done. split; simpl; try done; unfold policy in *; simpl; lia.
  - eexists. split; [done|]. split_and!; try done. split; simpl; try done; unfold policy in *; simpl; try lia.
    intros _. split_and!; try done; simpl; lia.
Qed.

(** What a command does to the whole table. *)
Definition service_ok (s : service) : Prop :=
  map_Forall (λ k e, regKey (registration e) = k ∧ entry_ok e) (entries s).

Inductive table_step (i : input) (s s' : service) : Prop :=
| ts_same : entries s' = entries s → table_step i s s'
| ts_new k r : entries s !! k = None → regKey r = k → validateRestartPolicy (Policy r) = None →
    entries s' = <[k := mkEntry r ServiceRunning 0 zeroTask 0 [] RecoveryFailureNone 0 zeroRef]> (entries s) →
    table_step i s s'
| ts_entry k e e' c : entries s !! k = Some e → touched i e e' c → entries s' = <[k := e']> (entries s) → table_step i s s'.

Lemma commit_touched i e g at_ p :
  entry_ok e → status e = ServicePublishing → at_ = now i → p ≤ later i → g = u64_succ (generation e) →
  touched i e (commitEntry (preparedRef e) g at_ p e) true.
Proof.
  intros [Hp Hr Ha] Hs -> Hle ->. rewrite Hs in Hr. destruct (Hr eq_refl) as (Hst & Hlen & Hg & Hf).
  split; try done.
  - destruct (prune_split p (mkEntry (registration e) ServiceRunning 0 zeroTask 0 (restarts e ++ [now i]) RecoveryFailureNone 0 zeroRef)
      (later i) Hle) as (d & E & H). exists d. split; [exact E|exact H].
  - by rewrite Hs.
  - split; simpl; try done. unfold policy in *. simpl. lia.
Qed.

Lemma register_table i r s : table_step i s (register i r s).1.
Proof.
  unfold register. destruct (validateRegistration r) eqn:Hv; [by apply ts_same|].
  destruct (_ || _); [by apply ts_same|]. destruct (entries s !! regKey r) eqn:He; [by apply ts_same|].
  eapply ts_new; [done|done| |done]. unfold validateRegistration in Hv. destruct (validateServiceKey _); [done|].
  by destruct (_ || _).
Qed.

Lemma pruned_ok t e : entry_ok e → entry_ok (pruneRestarts t e).
Proof.
  intros [Hp Hr Ha]. split; try done. simpl. intros H. destruct (Hr H) as (? & ? & ? & ?). split_and!; try done.
  pose proof (prune_length t e). unfold policy in *. simpl in *. lia.
Qed.

Lemma get_table i k s : service_ok s → now i ≤ later i → table_step i s (get i k s).1.
Proof.
  intros Hok Hc. unfold get. destruct (validateServiceKey k); [by apply ts_same|].
  destruct (entries s !! k) as [e|] eqn:He; [|by apply ts_same]. destruct (Hok _ _ He) as [_ Ho].
  apply (ts_entry i s _ k e (pruneRestarts (now i) e) false); [done| |done]. split; try done.
  - destruct (prune_split (now i) e (later i) Hc) as (d & E & H). exists d. by rewrite app_nil_r.
  - by apply pruned_ok.
Qed.

Lemma activeEntry_Ok i t sts s e :
  activeEntry i t sts s = Ok e →
  entries s !! tKey t = Some e ∧ activeTask e = t ∧ tGeneration t = u64_succ (generation e) ∧ status e ∈ sts.
Proof.
  unfold activeEntry. destruct (_ || _); [done|]. destruct (entries s !! tKey t) as [x|]; [|done].
  destruct (_ || _) eqn:Hg; [done|]. apply orb_false_iff in Hg as [H1 H2%negb_false_iff%Z.eqb_eq].
  apply bool_decide_eq_false, dec_stable in H1. case_bool_decide; [|done]. by intros [= <-].
Qed.

Lemma started_table i t s : service_ok s → table_step i s (recoveryStarted i t s).1.
Proof.
  intros Hok. unfold recoveryStarted. destruct (repeated _ _ _ _); [by apply ts_same|].
  destruct (activeEntry _ _ _ _) as [e|] eqn:Ha; [|by apply ts_same]. apply activeEntry_Ok in Ha as (He & Ht & Hg & Hs).
  destruct (Hok _ _ He) as [_ []]. apply list_elem_of_singleton in Hs. eapply ts_entry; [done| |done].
  apply touched_status; try done; [by rewrite Hs|]. split; try done. intros _. apply eo_recovering0. by rewrite Hs.
Qed.

Lemma prepared_table i t ref s : service_ok s → table_step i s (recoveryPrepared i t ref s).1.
Proof.
  intros Hok. unfold recoveryPrepared. destruct (repeated _ _ _ _); [by apply ts_same|].
  destruct (activeEntry _ _ _ _) as [e|] eqn:Ha; [|by apply ts_same]. apply activeEntry_Ok in Ha as (He & Ht & Hg & Hs).
  destruct (_ || _); [by apply ts_same|].
  destruct (Hok _ _ He) as [_ []]. apply list_elem_of_singleton in Hs. eapply ts_entry; [done| |done].
  apply touched_status; try done; [by rewrite Hs|]. split; try done. intros _. apply eo_recovering0. by rewrite Hs.
Qed.

Lemma committed_table i t ref s : service_ok s → table_step i s (recoveryCommitted i t ref s).1.
Proof.
  intros Hok. unfold recoveryCommitted. destruct (repeated _ _ _ _); [by apply ts_same|].
  destruct (activeEntry _ _ _ _) as [e|] eqn:Ha; [|by apply ts_same]. apply activeEntry_Ok in Ha as (He & Ht & Hg & Hs).
  destruct (decide (preparedRef e = ref)) as [<-|Hr]; [rewrite bool_decide_false by (by intros ?)|
    rewrite bool_decide_true by done; by apply ts_same].
  destruct (Hok _ _ He) as [_ Ho]. apply list_elem_of_singleton in Hs. eapply ts_entry; [done| |done]. by apply commit_touched.
Qed.

Lemma failed_table i t f s : service_ok s → table_step i s (recoveryFailed i t f s).1.
Proof.
  intros Hok. unfold recoveryFailed. destruct (negb _); [by apply ts_same|].
  destruct (activeEntry _ _ _ _) as [e|] eqn:Ha; [|by apply ts_same]. apply activeEntry_Ok in Ha as (He & Ht & Hg & Hs).
  destruct (Hok _ _ He) as [_ Ho]. assert (recovering (status e) = true) as Hrec.
  { rewrite !elem_of_cons in Hs. destruct Hs as [->|[->|[->|[]%elem_of_nil]]]; done. }
  assert (ended (status e) = false) as Hend by (by destruct (status e)).
  destruct Ho as [Hp Hr Hat]. destruct (Hr Hrec) as (Hst & Hlen & Hgen & H1).
  destruct (_ || _).
  - eapply ts_entry; [done| |simpl; by rewrite insert_insert_eq]. apply touched_status; try done. by rewrite Hend.
  - destruct (schedule_entry i (tKey t) (setLastFailure f (setPrepared zeroRef e))
      (inc "supervisor_restarts_failed_total" (put (tKey t) (setLastFailure f (setPrepared zeroRef e)) s)))
      as (e' & E & Hreg & Hres & Hrun & Hok'); try done.
    eapply ts_entry; [done| |rewrite E; simpl; by rewrite insert_insert_eq].
    apply touched_status; try done. by rewrite Hend.
Qed.

Lemma touched_trans i e e1 e2 c :
  touched i e e1 c → touched i e1 e2 false → touched i e e2 c.
Proof.
  intros [P1 K1 R1 (d1 & E1 & F1) N1 O1] [P2 K2 R2 (d2 & E2 & F2) N2 O2]. split; try done; try congruence.
  - destruct c; [|congruence]. unfold generation in *. by rewrite R2.
  - rewrite app_nil_r in E2. exists (d1 ++ d2). rewrite <- app_assoc, <- E2. split; [done|].
    apply Forall_app. split; [done|]. by rewrite <- P1.
  - intros He. destruct (N1 He) as [Hs Hc]. rewrite <- Hs in He. destruct (N2 He) as [Hs2 _]. split; congruence.
Qed.

Lemma decide_touched i n e s :
  entry_ok e → entries s !! nKey n = Some e →
  ∃ e', touched i e e' false ∧ entries (decideFailure i n e s).1 = <[nKey n := e']> (entries s).
Proof.
  intros Ho He. pose proof (touched_refl i e Ho) as Hrefl. unfold decideFailure.
  destruct (_ || _); [exists e; split; [done|]; simpl; by rewrite insert_id|].
  destruct (_ || _) eqn:Hg; [exists e; split; [done|]; simpl; by rewrite insert_id|].
  apply orb_false_iff in Hg as [Hrun%bool_decide_eq_false%dec_stable Hd].
  assert (ended (status e) = false) as Hend by (by rewrite Hrun). destruct Ho as [Hp Hr Ha].
  assert (∀ st, recovering st = false → touched i e (setStatus st (setDecided (nGeneration n) e)) false) as Hset.
  { intros st Hst. apply touched_status; try done; [by rewrite Hend|]. split; try done. simpl. by rewrite Hst. }
  simpl. destruct (Strategy (Policy (registration e))) eqn:Hst.
  - eexists. split; [by apply (Hset ServiceRestartStopped)|]. simpl. by rewrite insert_insert_eq.
  - set (e1 := pruneRestarts (later i) (setDecided (nGeneration n) e)).
    assert (∃ d, restarts e ++ [] = d ++ restarts e1 ∧ Forall (λ x, x ≤ later i - Window (policy e)) d) as Hsplit.
    { destruct (prune_split (later i) (setDecided (nGeneration n) e) (later i)) as (d & E & F); [done|]. exists d.
      by rewrite app_nil_r. }
    change (dropBefore _ _) with (restarts e1). fold (policy e).
    destruct (Z.leb_spec (MaxRestarts (policy e)) (Z.of_nat (length (restarts e1)))) as [Hm|Hm].
    + eexists. split; [|simpl; by rewrite insert_insert_eq]. split; try done. by rewrite Hend.
    + destruct (schedule_entry i (nKey n) (setFault 0 RecoveryFailureNone e1)
        (inc "supervisor_failure_notices_total" (put (nKey n) (setDecided (nGeneration n) e) s)))
        as (e' & E & Hreg & Hres & Hnr & Hok); try done; [simpl; unfold policy in *; simpl; lia|].
      exists e'. split; [|rewrite E; simpl; by rewrite insert_insert_eq].
      split; unfold policy; rewrite ?Hreg, ?Hres; try done. by rewrite Hend.
  - eexists. split; [by apply (Hset ServiceDestroyed)|]. simpl. by rewrite insert_insert_eq.
  - eexists. split; [|done]. apply touched_status; try done.
Qed.

Lemma failure_table i n s : service_ok s → now i ≤ later i → table_step i s (handleFailure i n s).1.
Proof.
  intros Hok Hc. unfold handleFailure. destruct (_ || _); [by apply ts_same|].
  destruct (entries s !! nKey n) as [e|] eqn:He; [|by apply ts_same]. destruct (Hok _ _ He) as [_ Ho].
  destruct (overtakes n e) eqn:Hov.
  - unfold overtakes in Hov. apply andb_true_iff in Hov as [[Hs%bool_decide_eq_true Hr%bool_decide_eq_true]%andb_true_iff Hg%Z.eqb_eq].
    assert (touched i e (commitEntry (FailedRef n) (nGeneration n) (now i) (now i) e) true) as Hcom.
    { rewrite Hr. apply commit_touched; try done. rewrite Hg. apply Ho. by rewrite Hs. }
    destruct (decide_touched i n (commitEntry (FailedRef n) (nGeneration n) (now i) (now i) e)
      (inc "supervisor_restarts_succeeded_total" (put (nKey n) (commitEntry (FailedRef n) (nGeneration n) (now i) (now i) e) s)))
      as (e' & Ht & E); [by apply (to_ok _ _ _ _ Hcom)|simpl; by rewrite lookup_insert_eq|].
    eapply ts_entry; [done|by eapply touched_trans|]. rewrite E. simpl. by rewrite insert_insert_eq.
  - destruct (decide_touched i n e s Ho He) as (e' & Ht & E). by eapply ts_entry.
Qed.

Lemma Handle_table i c s : service_ok s → now i ≤ later i → table_step i s (Handle i c s).1.
Proof.
  intros Hok Hc. unfold Handle. destruct c as [r|k|n|t|t ref|t ref|t f| | | | |]; try by apply ts_same.
  - pose proof (register_table i r s). by destruct (register i r s).
  - pose proof (get_table i k s Hok Hc). by destruct (get i k s).
  - pose proof (failure_table i n s Hok Hc). by destruct (handleFailure i n s).
  - pose proof (started_table i t s Hok). by destruct (recoveryStarted i t s).
  - pose proof (prepared_table i t ref s Hok). by destruct (recoveryPrepared i t ref s).
  - pose proof (committed_table i t ref s Hok). by destruct (recoveryCommitted i t ref s).
  - pose proof (failed_table i t f s Hok). by destruct (recoveryFailed i t f s).
Qed.

Lemma table_ok i s s' : table_step i s s' → service_ok s → service_ok s'.
Proof.
  intros [E|k r Hn Hk Hv E|k e e' c He Ht E] Hok; unfold service_ok; rewrite E; [done|..]; apply map_Forall_insert_2; try done.
  - split; [done|]. split; simpl; try done. unfold policy. simpl. unfold validateRestartPolicy in Hv.
    destruct (Strategy (Policy r)); try done; destruct (_ || _) eqn:Hg; try done; bool_prop; lia.
  - destruct (Hok _ _ He) as [Hk _]. split; [by rewrite (to_key _ _ _ _ Ht)|by apply (to_ok _ _ _ _ Ht)].
Qed.

(** ** Restarts per window *)

(** A supervisor with the times at which each service was restarted so far, and the
    clock, which never goes back. *)
Record supervised := mkSupervised { svc : service; restarted : ServiceKey → list Time; clock : Time }.

Definition generationOf (s : service) (k : ServiceKey) : option Z := generation <$> entries s !! k.

(** A restart is a change of the committed generation. *)
Definition observe (i : input) (s s' : service) (k : ServiceKey) : list Time :=
  match generationOf s k, generationOf s' k with
  | Some g, Some g' => if bool_decide (g = g') then [] else [now i]
  | _, _ => []
  end.

Inductive sup_step (x : supervised) : supervised → Prop :=
| ss_command i c :
    clock x ≤ now i → now i ≤ later i →
    sup_step x (mkSupervised (Handle i c (svc x)).1
                  (λ k, restarted x k ++ observe i (svc x) (Handle i c (svc x)).1 k) (later i)).

Definition sup_initial (x : supervised) : Prop := (∃ mc, svc x = NewService mc) ∧ ∀ k, restarted x k = [].
Definition sup_reachable (x : supervised) : Prop := ∃ x0, sup_initial x0 ∧ rtc sup_step x0 x.

(** The restarts within the window that ends at [t]. *)
Definition within (W t : Z) (l : list Time) : Z := Z.of_nat (length (filter (λ x, t - W < x ∧ x ≤ t) l)).

Record intensity (W M T : Z) (h r : list Time) : Prop := {
  in_split : ∃ d, h = d ++ r ∧ Forall (λ x, x ≤ T - W) d;
  in_past : Forall (λ x, x ≤ T) h;
  in_bound : ∀ t, within W t h ≤ M
}.

Lemma within_app W t l l' : within W t (l ++ l') = within W t l + within W t l'.
Proof. unfold within. rewrite filter_app, length_app. lia. Qed.

Lemma within_old W t d : Forall (λ x, x ≤ t - W) d → within W t d = 0.
Proof.
  intros H. unfold within. assert (filter (λ x, t - W < x ∧ x ≤ t) d = []) as ->; [|done].
  induction H as [|x d Hx _ IH]; [done|]. rewrite filter_cons_False; [done|lia].
Qed.

Lemma within_length W t l : within W t l ≤ Z.of_nat (length l).
Proof. unfold within. pose proof (length_filter (λ x, t - W < x ∧ x ≤ t) l). lia. Qed.

Lemma intensity_keep W M T T' h r r' d' :
  intensity W M T h r → T ≤ T' → r = d' ++ r' → Forall (λ x, x ≤ T' - W) d' → intensity W M T' h r'.
Proof.
  intros [(d & -> & Hd) Hp Hb] HT -> Hd'. split; [|by eapply Forall_impl; [exact Hp|]; simpl; lia|done].
  exists (d ++ d'). rewrite <- app_assoc. split; [done|]. apply Forall_app. split; [|done].
  eapply Forall_impl; [exact Hd|]. simpl. lia.
Qed.

Lemma intensity_add W M T h r at_ :
  intensity W M T h r → T ≤ at_ → Z.of_nat (length r) < M → intensity W M at_ (h ++ [at_]) (r ++ [at_]).
Proof.
  intros [(d & -> & Hd) Hp Hb] HT Hr. split.
  - exists d. rewrite <- app_assoc. split; [done|]. eapply Forall_impl; [exact Hd|]. simpl. lia.
  - apply Forall_app. split; [by eapply Forall_impl; [exact Hp|]; simpl; lia|]. by constructor.
  - intros t. destruct (decide (t < at_)) as [Hlt|Hge].
    + rewrite within_app. replace (within W t [at_]) with 0; [specialize (Hb t); lia|].
      unfold within. rewrite filter_cons_False; [done|lia].
    + rewrite <- app_assoc, within_app, within_old.
      * pose proof (within_length W t (r ++ [at_])). rewrite length_app in *. simpl in *. lia.
      * eapply Forall_impl; [exact Hd|]. simpl. lia.
Qed.

Lemma u64_succ_ne g : u64_succ g ≠ g.
Proof.
  unfold u64_succ, u64, u64_mod. intros H. pose proof (Z.mod_pos_bound (g + 1) (2 ^ 64) ltac:(lia)) as Hb. rewrite H in Hb.
  destruct (decide (g = 2 ^ 64 - 1)) as [->|]; [done|]. rewrite Z.mod_small in H; lia.
Qed.

(** What is known of each service of a reachable supervisor. *)
Definition sup_inv (x : supervised) : Prop :=
  service_ok (svc x)
  ∧ ∀ k, match entries (svc x) !! k with
         | None => restarted x k = []
         | Some e => intensity (Window (policy e)) (MaxRestarts (policy e)) (clock x) (restarted x k) (restarts e)
         end.

Lemma sup_inv_step x x' : sup_inv x → sup_step x x' → sup_inv x'.
Proof.
  intros [Hok Hin] [i c Hclk Hnl]. pose proof (Handle_table i c (svc x) Hok Hnl) as Ht.
  split; [by eapply table_ok|]. intros k. specialize (Hin k). simpl. unfold observe, generationOf.
  destruct Ht as [E|k' r Hn Hk Hv E|k' e e' b He Ht E]; rewrite E.
  - destruct (entries (svc x) !! k) as [e|]; simpl; [|by rewrite app_nil_r].
    rewrite bool_decide_true, app_nil_r by done. eapply (intensity_keep _ _ _ _ _ _ _ []); [done|lia|done|done].
  - destruct (decide (k = k')) as [->|Hne].
    + rewrite Hn in *. rewrite lookup_insert_eq. simpl. rewrite app_nil_r, Hin. split; [by exists []|done|].
      intros t. unfold within. simpl. unfold policy. simpl. unfold validateRestartPolicy in Hv.
      destruct (Strategy (Policy r)); try done; destruct (_ || _) eqn:Hg; try done; bool_prop; lia.
    + rewrite lookup_insert_ne by done. destruct (entries (svc x) !! k) as [e|]; simpl; [|by rewrite app_nil_r].
      rewrite bool_decide_true, app_nil_r by done. eapply (intensity_keep _ _ _ _ _ _ _ []); [done|lia|done|done].
  - destruct (decide (k = k')) as [->|Hne].
    + rewrite He in *. rewrite lookup_insert_eq. simpl. destruct Ht as [P _ R (d & Es & Fd) _ _]. rewrite P. destruct b.
      * destruct R as (Hs & Hg & _). rewrite bool_decide_false by (rewrite Hg; apply not_eq_sym, u64_succ_ne).
        assert (recovering (status e) = true) as Hrec by (by rewrite Hs).
        destruct (eo_recovering _ (proj2 (Hok _ _ He)) Hrec) as (_ & Hlen & _).
        eapply intensity_keep; [by eapply intensity_add|done|done|done].
      * rewrite bool_decide_true, app_nil_r by (unfold generation; by rewrite R). rewrite app_nil_r in Es.
        eapply intensity_keep; [done|lia|done|done].
    + rewrite lookup_insert_ne by done. destruct (entries (svc x) !! k) as [e0|]; simpl; [|by rewrite app_nil_r].
      rewrite bool_decide_true, app_nil_r by done. eapply (intensity_keep _ _ _ _ _ _ _ []); [done|lia|done|done].
Qed.

Lemma sup_reachable_inv x : sup_reachable x → sup_inv x.
Proof.
  intros (x0 & [[mc H0] Hh] & Hs). assert (sup_inv x0) as I0.
  { split; rewrite H0; simpl; [apply map_Forall_empty|]. intros k. by rewrite lookup_empty. }
  clear H0 Hh. induction Hs as [|x1 x2 x3 H1 _ IH]; [done|]. apply IH. by eapply sup_inv_step.
Qed.

Lemma sup_steps_entry x x' k e :
  sup_inv x → rtc sup_step x x' → entries (svc x) !! k = Some e →
  ∃ e', entries (svc x') !! k = Some e' ∧ policy e' = policy e
    ∧ (ended (status e) = true → status e' = status e ∧ registration e' = registration e).
Proof.
  intros I Hs. revert I e. induction Hs as [x|x1 x2 x3 H1 _ IH]; intros I e He; [by exists e|].
  assert (sup_inv x2) as I2 by (by eapply sup_inv_step).
  assert (∃ e1, entries (svc x2) !! k = Some e1 ∧ policy e1 = policy e
    ∧ (ended (status e) = true → status e1 = status e ∧ registration e1 = registration e)) as (e1 & He1 & Hp1 & Hf1).
  { destruct H1 as [i c _ Hnl]. simpl. destruct (Handle_table i c (svc x1) (proj1 I) Hnl) as [E|k' r Hn _ _ E|k' e0 e' b He0 Ht E];
      rewrite E; [by exists e|..].
    - exists e. rewrite lookup_insert_ne by congruence. done.
    - destruct (decide (k' = k)) as [->|Hne]; [|exists e; by rewrite lookup_insert_ne].
      simplify_eq. exists e'. rewrite lookup_insert_eq. split_and!; [done|apply (to_policy _ _ _ _ Ht)|].
      intros Hend. destruct (to_ended _ _ _ _ Ht Hend) as [Hst ->]. split; [done|apply (to_registration _ _ _ _ Ht)]. }
  destruct (IH I2 e1 He1) as (e' & He' & Hp' & Hf'). exists e'. split_and!; [done|congruence|].
  intros Hend. destruct (Hf1 Hend) as [Hs1 Hr1]. destruct Hf' as [Hs2 Hr2]; [by rewrite Hs1|]. split; congruence.
Qed.


(** A verdict is final.  Once a supervised service is stopped, destroyed,
    suppressed or given up, no notice, late result, query or registration changes
    its status or its registration; policies never change, and a registered service
    is never forgotten. *)
Theorem supervisor_verdict_final x x' k e :
  sup_reachable x → entries (svc x) !! k = Some e → rtc sup_step x x' →
  ∃ e', entries (svc x') !! k = Some e' ∧ policy e' = policy e
    ∧ (ended (status e) = true → status e' = status e ∧ registration e' = registration e).
Proof. intros I%sup_reachable_inv He Hs. by eapply sup_steps_entry. Qed.

(** ** The runner *)

(** A recovery attempt leaves no replacement behind.  Whatever the launcher, the
    supervisor and the context of the runner answer, every local replacement that
    was prepared is, when the attempt is over, either published and accepted by the
    supervisor, and then never aborted, or aborted; it is published only after the
    supervisor accepted its preparation. *)
Theorem recovery_no_leak {W : World} t ref :
  Prepared (launchOf t) ref None ∈ execute t → localRef t ref = true →
  (Committed (launchOf t) ref None ∈ execute t ∧ Told (RecoveryPrepared t ref) None ∈ execute t
   ∧ Told (RecoveryCommitted t ref) None ∈ execute t ∧ ∀ e, Aborted (launchOf t) ref e ∉ execute t)
  ∨ (∃ e, Aborted (launchOf t) ref e ∈ execute t).
Proof.
  unfold execute, abort, reportFailure, abortLaunch, tell. destruct (negb _); [by intros []%elem_of_nil|]. simpl.
  destruct (onTell [] (RecoveryStarted t)); simpl; [set_solver|].
  destruct (onPrepare _ _) as [ref0 [e|]].
  - destruct (stopped _); [set_solver|]. destruct (localRef t ref0); simpl; set_solver.
  - destruct (localRef t ref0) eqn:Hl; simpl; [|intros Hin Hloc; assert (ref = ref0) as -> by set_solver; congruence].
    intros Hin Hloc. assert (ref = ref0) as <-.
    { repeat case_match; simpl in *; set_solver. }
    clear Hin. repeat case_match; simpl;
      try (right; eexists; repeat first [apply list_elem_of_here|apply list_elem_of_further]; fail).
    left. split_and!; [rewrite !elem_of_cons; tauto..|].
    intros e. rewrite !elem_of_cons, elem_of_nil. intros [?|[?|[?|[?|[?|[]]]]]]; discriminate.
Qed.

(** *** Witnesses *)

Definition sampleKey : ServiceKey := mkKey "game" "room-1".
Definition sampleSelf : ServiceRef := mkRef "n1" 1.
Definition samplePolicy : RestartPolicy := mkPolicy RestartOnFailure 2 1 1000 10 100.
Definition sampleInput (from : ServiceRef) (t : Time) : input := mkInput sampleSelf from t t (λ _, None).
Definition sampleRecovery : RecoveryTask := mkRecovery sampleSelf sampleKey (mkRef "n1" 5) 2 1 10.

(** A service fails, is replaced, and fails again within the window. *)
Definition sampleRun : list (input * supCommand) :=
  [(sampleInput zeroRef 1, Register (mkRegistration sampleKey (mkRef "n1" 5) 1 samplePolicy));
   (sampleInput (mkRef "n1" 5) 2, Failure (mkNotice sampleKey (mkRef "n1" 5) 1 2 true));
   (sampleInput (runtimeRoot "n1") 13, RecoveryStarted sampleRecovery);
   (sampleInput (runtimeRoot "n1") 14, RecoveryPrepared sampleRecovery (mkRef "n1" 6));
   (sampleInput (runtimeRoot "n1") 15, RecoveryCommitted sampleRecovery (mkRef "n1" 6));
   (sampleInput (mkRef "n1" 6) 16, Failure (mkNotice sampleKey (mkRef "n1" 6) 2 16 true))].

Definition supStep (x : supervised) (ic : input * supCommand) : supervised :=
  mkSupervised (Handle ic.1 ic.2 (svc x)).1
    (λ k, restarted x k ++ observe ic.1 (svc x) (Handle ic.1 ic.2 (svc x)).1 k) (later ic.1).

Fixpoint timed (t : Time) (l : list (input * supCommand)) : Prop :=
  match l with [] => True | ic :: l => t ≤ now ic.1 ∧ now ic.1 ≤ later ic.1 ∧ timed (later ic.1) l end.

Lemma supRun_rtc l x : timed (clock x) l → rtc sup_step x (foldl supStep x l).
Proof.
  revert x. induction l as [|ic l IH]; intros x; [done|]. intros (H1 & H2 & H3).
  eapply rtc_l; [by apply (ss_command x ic.1 ic.2)|]. by apply (IH (supStep x ic)).
Qed.

Definition sampleStart : supervised := mkSupervised (NewService newMetricCollector) (λ _, []) 0.
Definition sampleSupervised : supervised := foldl supStep sampleStart sampleRun.

Lemma sampleSupervised_reachable : sup_reachable sampleSupervised.
Proof.
  exists sampleStart. split; [split; [by exists newMetricCollector|done]|].
  apply supRun_rtc. simpl. lia.
Qed.

Definition sampleEntry : option serviceEntry := Eval vm_compute in entries (svc sampleSupervised) !! sampleKey.


Lemma supervisor_verdict_final_witness :
  status <$> sampleEntry = Some ServiceRestartSuppressed
  ∧ ∃ e', entries (svc sampleSupervised) !! sampleKey = Some e' ∧ policy e' = samplePolicy.
Proof.
  split; [reflexivity|].
  destruct (supervisor_verdict_final sampleSupervised sampleSupervised sampleKey
    (default (mkEntry (mkRegistration sampleKey zeroRef 0 samplePolicy) ServiceRunning 0 zeroTask 0 [] RecoveryFailureNone 0 zeroRef) sampleEntry)
    sampleSupervised_reachable) as (e' & He & Hp & _); [vm_compute; reflexivity|apply rtc_refl|].
  exists e'. split; [exact He|]. rewrite Hp. reflexivity.
Defined.

(** Publishing fails. *)
Definition sampleWorld : World := {|
  waited _ := true; stopped _ := false; onTell _ _ := None; onPrepare _ _ := (mkRef "n1" 6, None);
  onCommit _ _ _ := Some ErrNamePublishFailed; onAbort _ _ _ := None |}.

Lemma recovery_no_leak_witness :
  ∃ e, Aborted (launchOf sampleRecovery) (mkRef "n1" 6) e ∈ execute (W := sampleWorld) sampleRecovery.
Proof.
  destruct (recovery_no_leak (W := sampleWorld) sampleRecovery (mkRef "n1" 6)) as [(H & _)|H];
    [apply list_elem_of_In; vm_compute; auto 10|reflexivity| |exact H].
  apply list_elem_of_In in H. vm_compute in H. exfalso. repeat (destruct H as [H|H]; [discriminate|]). exact H.
Defined.
