(* ===== verification/Snapshot.v ===== *)
(** * Snapshots of business state

    [src/tooling/snapshot]: validation ([validation.go]), the in-memory store
    ([memory_store.go]) and the manager that captures a state from a service and
    saves it ([manager.go]).  A [nil] payload is [None]; a nil context is [None]
    and [Some e] a context whose [context.Cause] is [e].  The store is a class, so
    the manager is one function for every store; [MemoryStore] is an instance. *)

From stdpp Require Import prelude gmap strings list.
From Stdlib Require Import ZArith Lia Strings.Byte.
From S2P Require Import Prelude Types GoText Bytes.

Local Open Scope Z_scope.
Local Open Scope go_scope.

Inductive snapError :=
| ErrInvalidConfig | ErrInvalidContext | ErrInvalidKey | ErrInvalidTarget | ErrInvalidState | ErrPayloadTooLarge
| ErrSnapshotNotFound | ErrStaleSnapshot | ErrSnapshotConflict | ErrInvalidResponse | ErrUnsupportedCommand
| ErrOther (e : rtError).

Record Key := mkKey { Namespace : string; KeyID : string }.
#[global] Instance Key_eq_dec : EqDecision Key.
Proof. solve_decision. Defined.
#[global] Instance Key_countable : Countable Key.
Proof. apply (inj_countable' (λ k, (Namespace k, KeyID k)) (λ p, mkKey p.1 p.2)). by intros []. Defined.

Record State := mkState { Schema : string; Version : Z; Revision : Z; Payload : option (list byte) }.
#[global] Instance State_eq_dec : EqDecision State.
Proof. solve_decision. Defined.

Record Snapshot := mkSnapshot { SnapKey : Key; Source : ServiceRef; CapturedAt : Time; SnapState : State }.
#[global] Instance Snapshot_eq_dec : EqDecision Snapshot.
Proof. solve_decision. Defined.

Record CaptureResponse := mkCapture { capKey : Key; capState : State }.

(** ** Validation *)

Definition maxNamespaceBytes : Z := 128.
Definition maxKeyIDBytes : Z := 256.
Definition maxSchemaBytes : Z := 128.
Definition defaultMaxPayloadBytes : Z := 2 ^ 20.

Definition validTrimmedText (value : string) (maxBytes : Z) : bool :=
  bool_decide (value ≠ "") && ValidString value && bool_decide (TrimSpace value = value)
  && (Z.of_nat (String.length value) <=? maxBytes).

Definition validateKey (k : Key) : error snapError :=
  if negb (validTrimmedText (Namespace k) maxNamespaceBytes) || negb (validTrimmedText (KeyID k) maxKeyIDBytes)
  then Some ErrInvalidKey else None.

Definition validateTarget (target : ServiceRef) : error snapError :=
  if bool_decide (Node target = "") || (ID target =? 0) then Some ErrInvalidTarget else None.

Definition validateState (st : State) (maxPayloadBytes : Z) : error snapError :=
  match Payload st with
  | None => Some ErrInvalidState
  | Some payload =>
      if negb (validTrimmedText (Schema st) maxSchemaBytes) || (Version st =? 0) || (Revision st =? 0)
      then Some ErrInvalidState
      else if (0 <? maxPayloadBytes) && (maxPayloadBytes <? Z.of_nat (length payload)) then Some ErrPayloadTooLarge
      else None
  end.

Definition validateSnapshot (s : Snapshot) (maxPayloadBytes : Z) : error snapError :=
  match validateKey (SnapKey s) with
  | Some e => Some e
  | None =>
      match validateTarget (Source s) with
      | Some e => Some e
      | None =>
          match validateState (SnapState s) maxPayloadBytes with
          | Some e => Some e
          | None => if CapturedAt s =? 0 then Some ErrInvalidState else None
          end
      end
  end.

(** [bytes.Equal] does not tell a nil payload from an empty one. *)
Definition equalState (a b : State) : bool :=
  bool_decide (Schema a = Schema b) && (Version a =? Version b) && (Revision a =? Revision b)
  && bool_decide (default [] (Payload a) = default [] (Payload b)).

(** ** Stores *)

Abbreviation context := (option (error rtError)) (only parsing).

Definition usable (ctx : context) : error snapError :=
  match ctx with
  | None => Some ErrInvalidContext
  | Some (Some e) => Some (ErrOther e)
  | Some None => None
  end.

Class Store (W : Type) := {
  Save : context → Snapshot → W → W * res snapError Snapshot;
  Load : context → Key → W → W * res snapError Snapshot
}.

(** [None] is a nil [*MemoryStore]; the map of a zero store is nil and reads as empty. *)
Abbreviation MemoryStore := (option (gmap Key Snapshot)) (only parsing).

Definition NewMemoryStore : MemoryStore := Some ∅.

Definition memorySave (ctx : context) (candidate : Snapshot) (w : MemoryStore) : MemoryStore * res snapError Snapshot :=
  match w with
  | None => (w, Err ErrInvalidConfig)
  | Some m =>
      match usable ctx with
      | Some e => (w, Err e)
      | None =>
          match validateSnapshot candidate 0 with
          | Some e => (w, Err e)
          | None =>
              match m !! SnapKey candidate with
              | None => (Some (<[SnapKey candidate := candidate]> m), Ok candidate)
              | Some current =>
                  if Revision (SnapState current) <? Revision (SnapState candidate)
                  then (Some (<[SnapKey candidate := candidate]> m), Ok candidate)
                  else if Revision (SnapState candidate) <? Revision (SnapState current) then (w, Err ErrStaleSnapshot)
                  else if equalState (SnapState candidate) (SnapState current) then (w, Ok current)
                  else (w, Err ErrSnapshotConflict)
              end
          end
      end
  end.

Definition memoryLoad (ctx : context) (k : Key) (w : MemoryStore) : MemoryStore * res snapError Snapshot :=
  match w with
  | None => (w, Err ErrInvalidConfig)
  | Some m =>
      match usable ctx with
      | Some e => (w, Err e)
      | None =>
          match validateKey k with
          | Some e => (w, Err e)
          | None => (w, match m !! k with Some s => Ok s | None => Err ErrSnapshotNotFound end)
          end
      end
  end.

#[global] Instance memoryStore : Store MemoryStore := {| Save := memorySave; Load := memoryLoad |}.

(** ** The manager *)

(** [Config.Now] left nil is the system clock, which [Capture] gets as an argument. *)
Record Manager := mkManager { maxPayloadBytes : Z }.

Definition NewManager (callerNil storeNil : bool) (maxPayload : Z) : res snapError Manager :=
  if callerNil || storeNil || (maxPayload <? 0) then Err ErrInvalidConfig
  else Ok (mkManager (if maxPayload =? 0 then defaultMaxPayloadBytes else maxPayload)).

Section Manager.
(** [call] is [caller.Call] with [CaptureCommand]: [Ok None] is a value of another
    type.  [now] is the reading of the clock after the call, [later] the context as
    the store finds it. *)
Context {W : Type} {ST : Store W}.

Definition Capture (m : Manager) (call : ServiceRef → Key → res rtError (option CaptureResponse))
    (now : Time) (ctx later : context) (target : ServiceRef) (k : Key) (w : W) : W * res snapError Snapshot :=
  match usable ctx with
  | Some e => (w, Err e)
  | None =>
      match validateTarget target with
      | Some e => (w, Err e)
      | None =>
          match validateKey k with
          | Some e => (w, Err e)
          | None =>
              match call target k with
              | Err e => (w, Err (ErrOther e))
              | Ok None => (w, Err ErrInvalidResponse)
              | Ok (Some response) =>
                  if bool_decide (validateKey (capKey response) ≠ None) || bool_decide (capKey response ≠ k)
                  then (w, Err ErrInvalidResponse)
                  else
                    match validateState (capState response) (maxPayloadBytes m) with
                    | Some e => (w, Err e)
                    | None =>
                        let result := mkSnapshot k target now (capState response) in
                        match validateSnapshot result (maxPayloadBytes m) with
                        | Some e => (w, Err e)
                        | None =>
                            let '(w, r) := Save later result w in
                            (w, match r with
                                | Err e => Err e
                                | Ok canonical =>
                                    if bool_decide (SnapKey canonical ≠ k)
                                       || negb (equalState (SnapState canonical) (SnapState result))
                                    then Err ErrInvalidResponse
                                    else match validateSnapshot canonical (maxPayloadBytes m) with
                                         | Some _ => Err ErrInvalidResponse
                                         | None => Ok canonical
                                         end
                                end)
                        end
                    end
              end
          end
      end
  end.

Definition LoadSnapshot (m : Manager) (ctx later : context) (k : Key) (w : W) : W * res snapError Snapshot :=
  match usable ctx with
  | Some e => (w, Err e)
  | None =>
      match validateKey k with
      | Some e => (w, Err e)
      | None =>
          let '(w, r) := Load later k w in
          (w, match r with
              | Err e => Err e
              | Ok result =>
                  if bool_decide (SnapKey result ≠ k) then Err ErrInvalidResponse
                  else match validateSnapshot result (maxPayloadBytes m) with Some e => Err e | None => Ok result end
              end)
      end
  end.
End Manager.

(** ** The store as a register of revisions *)

Inductive storeOp := OpSave (ctx : context) (s : Snapshot) | OpLoad (ctx : context) (k : Key).

Definition perform {W} `{!Store W} (o : storeOp) (w : W) : W * res snapError Snapshot :=
  match o with OpSave ctx s => Save ctx s w | OpLoad ctx k => Load ctx k w end.

Fixpoint performAll {W} `{!Store W} (os : list storeOp) (w : W) : W * list (res snapError Snapshot) :=
  match os with
  | [] => (w, [])
  | o :: os => let '(w, r) := perform o w in let '(w, rs) := performAll os w in (w, r :: rs)
  end.

(** What is stored is valid and sits under its own key. *)
Definition storeOk (w : MemoryStore) : Prop :=
  ∀ m k s, w = Some m → m !! k = Some s → SnapKey s = k ∧ validateSnapshot s 0 = None.

(** [supersedes a b]: [b] may be read after [a] was. *)
Definition supersedes (a b : Snapshot) : Prop :=
  Revision (SnapState a) ≤ Revision (SnapState b) ∧ (Revision (SnapState a) = Revision (SnapState b) → a = b).

(** The current snapshot of a key has superseded [a]. *)
Definition retained (a : Snapshot) (w : MemoryStore) : Prop :=
  ∃ m b, w = Some m ∧ m !! SnapKey a = Some b ∧ supersedes a b.

Lemma supersedes_refl a : supersedes a a.
Proof. by split. Qed.

Lemma supersedes_trans a b c : supersedes a b → supersedes b c → supersedes a c.
Proof.
  intros [H1 E1] [H2 E2]. split; [lia|]. intros H. assert (a = b) as -> by (apply E1; lia). by apply E2.
Qed.

Lemma validate_payload s n : validateSnapshot s n = None → is_Some (Payload (SnapState s)).
Proof.
  unfold validateSnapshot, validateState. intros H.
  destruct (validateKey (SnapKey s)), (validateTarget (Source s)), (Payload (SnapState s)); done.
Qed.

Lemma equalState_eq a b :
  is_Some (Payload a) → is_Some (Payload b) → equalState a b = true → a = b.
Proof.
  destruct a as [? ? ? [pa|]], b as [? ? ? [pb|]]; intros Ha Hb H;
    try (by destruct Ha); try (by destruct Hb).
  unfold equalState in H. cbn in H. bool_prop. by subst.
Qed.

(** One save: the result is what the store holds under the key afterwards, and it
    supersedes what it held before; an error changes nothing. *)
Lemma memorySave_spec ctx c w w' r :
  storeOk w → memorySave ctx c w = (w', r) →
  storeOk w' ∧ (∀ a, retained a w → retained a w')
  ∧ match r with
    | Err _ => w' = w
    | Ok s => ∃ m, w' = Some m ∧ m !! SnapKey s = Some s ∧ SnapKey s = SnapKey c ∧ SnapState s = SnapState c
    end.
Proof.
  intros Hok H. unfold memorySave in H. destruct w as [m|]; [|by simplify_eq].
  destruct (usable ctx); [by simplify_eq|]. destruct (validateSnapshot c 0) eqn:Hv; [by simplify_eq|].
  assert (storeOk (Some (<[SnapKey c:=c]> m))) as Hins.
  { intros ? k s [= <-]. destruct (decide (k = SnapKey c)) as [->|].
    - rewrite lookup_insert_eq. by intros [= <-].
    - rewrite lookup_insert_ne by done. by apply Hok. }
  assert ((∀ cur, m !! SnapKey c = Some cur → Revision (SnapState cur) < Revision (SnapState c)) →
          ∀ a, retained a (Some m) → retained a (Some (<[SnapKey c:=c]> m))) as Hret.
  { intros Hlt a (? & b & [= <-] & Hb & Hs). destruct (decide (SnapKey a = SnapKey c)) as [E|E].
    - exists (<[SnapKey c:=c]> m), c. rewrite E, lookup_insert_eq. split_and!; [done..|].
      rewrite E in Hb. specialize (Hlt _ Hb). destruct Hs. split; lia.
    - exists (<[SnapKey c:=c]> m), b. by rewrite lookup_insert_ne. }
  destruct (m !! SnapKey c) as [cur|] eqn:Hc; 
    [destruct (Revision (SnapState cur) <? _) eqn:Hlt; [|destruct (Revision (SnapState c) <? _) eqn:Hgt]|].
  - bool_prop. simplify_eq. split_and!; [done|apply Hret; naive_solver|]. eexists. rewrite lookup_insert_eq. done.
  - by simplify_eq.
  - destruct (equalState (SnapState c) _) eqn:He; simplify_eq; [|done]. split_and!; [done|done|].
    destruct (Hok _ _ _ eq_refl Hc) as [Hk Hvc].
    exists m. rewrite Hk. split_and!; [done..|]. symmetry. apply equalState_eq; eauto using validate_payload.
  - simplify_eq. split_and!; [done|apply Hret; naive_solver|]. eexists. rewrite lookup_insert_eq. done.
Qed.

Lemma perform_spec o w w' r :
  storeOk w → perform o w = (w', r) →
  storeOk w' ∧ (∀ a, retained a w → retained a w')
  ∧ (∀ s, r = Ok s → ∃ m, w' = Some m ∧ m !! SnapKey s = Some s).
Proof.
  intros Hok H. destruct o as [ctx c|ctx k]; cbn in H.
  - destruct (memorySave_spec _ _ _ _ _ Hok H) as (? & ? & Hr). split_and!; [done..|].
    intros s ->. destruct Hr as (m & ? & ? & _). eauto.
  - unfold memoryLoad in H. destruct w as [m|]; [|by simplify_eq].
    destruct (usable ctx); [by simplify_eq|]. destruct (validateKey k); [by simplify_eq|]. simplify_eq.
    split_and!; [done..|]. intros s Hs. exists m. split; [done|].
    destruct (m !! k) as [s'|] eqn:Hm; simplify_eq. by destruct (Hok _ _ _ eq_refl Hm) as [-> _].
Qed.

Lemma performAll_retained os : ∀ w w' rs a b,
  storeOk w → performAll os w = (w', rs) → retained a w → Ok b ∈ rs → SnapKey a = SnapKey b → supersedes a b.
Proof.
  induction os as [|o os IH]; intros w w' rs a b Hok H Ha Hb E; cbn in H; simplify_eq/=; [set_solver|].
  destruct (perform o w) as [w1 r] eqn:Hp. destruct (performAll os w1) as [w2 rs'] eqn:Hr. simplify_eq.
  destruct (perform_spec _ _ _ _ Hok Hp) as (Hok1 & Hret & Hres).
  apply elem_of_cons in Hb as [<-|Hb]; [|eauto].
  destruct (Hres b eq_refl) as (m & -> & Hm). destruct (Hret _ Ha) as (? & c & [= <-] & Hc & Hs).
  rewrite E, Hm in Hc. by injection Hc as <-.
Qed.

Lemma performAll_ordered os : ∀ w w' rs i j a b,
  storeOk w → performAll os w = (w', rs) →
  (i ≤ j)%nat → rs !! i = Some (Ok a) → rs !! j = Some (Ok b) → SnapKey a = SnapKey b → supersedes a b.
Proof.
  induction os as [|o os IH]; intros w w' rs i j a b Hok H Hij Hi Hj E; cbn in H; simplify_eq/=.
  destruct (perform o w) as [w1 r] eqn:Hp. destruct (performAll os w1) as [w2 rs'] eqn:Hr. simplify_eq.
  destruct (perform_spec _ _ _ _ Hok Hp) as (Hok1 & Hret & Hres). destruct i as [|i], j as [|j]; simplify_eq/=.
  - apply supersedes_refl.
  - destruct (Hres a eq_refl) as (m & -> & Hm). eapply performAll_retained; [exact Hok1|exact Hr| | |exact E].
    + exists m, a. split_and!; [done..|]. apply supersedes_refl.
    + by eapply list_elem_of_lookup_2.
  - lia.
  - eapply (IH w1 w' rs' i j); eauto. lia.
Qed.

Lemma newStoreOk : storeOk NewMemoryStore.
Proof. intros m k s [= <-]. by rewrite lookup_empty. Qed.

(** A memory store is a linearisable register of revisions: in every sequence
    of saves and loads of a fresh store, what a later operation returns for a key
    never has an older revision than what an earlier one returned, and all
    operations that return the same revision of a key return the same snapshot,
    with the same source and capture time (the first one saved). *)
Theorem snapshot_revision_agreement os i j a b :
  (i ≤ j)%nat →
  (performAll os NewMemoryStore).2 !! i = Some (Ok a) →
  (performAll os NewMemoryStore).2 !! j = Some (Ok b) →
  SnapKey a = SnapKey b →
  Revision (SnapState a) ≤ Revision (SnapState b)
  ∧ (Revision (SnapState a) = Revision (SnapState b) → a = b).
Proof.
  destruct (performAll os NewMemoryStore) as [w rs] eqn:H. cbn. intros Hij Hi Hj E.
  exact (performAll_ordered _ _ _ _ _ _ _ _ newStoreOk H Hij Hi Hj E).
Qed.

Definition sampleSnap (at_ r : Z) (p : list byte) : Snapshot :=
  mkSnapshot (mkKey "player" "7") (mkRef "n" 1) at_ (mkState "v" 1 r (Some p)).
Definition sampleOps : list storeOp :=
  [OpSave (Some None) (sampleSnap 10 3 [x01]); OpSave (Some None) (sampleSnap 11 2 [x01]);
   OpSave (Some None) (sampleSnap 12 3 [x01]); OpSave (Some None) (sampleSnap 13 3 [x02]);
   OpLoad (Some None) (mkKey "player" "7")].

Lemma snapshot_revision_agreement_witness :
  (performAll sampleOps NewMemoryStore).2
  = [Ok (sampleSnap 10 3 [x01]); Err ErrStaleSnapshot; Ok (sampleSnap 10 3 [x01]); Err ErrSnapshotConflict;
     Ok (sampleSnap 10 3 [x01])]
  ∧ sampleSnap 10 3 [x01] = sampleSnap 10 3 [x01].
Proof.
  split; [by vm_compute|].
  apply (snapshot_revision_agreement sampleOps 0 4); [lia|by vm_compute..].
Defined.

(** ** Capturing into a memory store *)

Lemma validateSnapshot_state s n :
  validateSnapshot s n = None ↔
  validateKey (SnapKey s) = None ∧ validateTarget (Source s) = None ∧ validateState (SnapState s) n = None
  ∧ CapturedAt s ≠ 0.
Proof.
  unfold validateSnapshot. destruct (validateKey (SnapKey s)), (validateTarget (Source s)), (validateState (SnapState s) n); try naive_solver.
  destruct (CapturedAt s =? 0) eqn:E; bool_prop; naive_solver.
Qed.

(** No validation error is [ErrInvalidResponse], which is kept for answers. *)
Lemma usable_error ctx e : usable ctx = Some e → e ≠ ErrInvalidResponse.
Proof. by destruct ctx as [[]|]; intros [= <-]. Qed.
Lemma target_error t e : validateTarget t = Some e → e ≠ ErrInvalidResponse.
Proof. unfold validateTarget. intros H. open_step H; done. Qed.
Lemma key_error k e : validateKey k = Some e → e ≠ ErrInvalidResponse.
Proof. unfold validateKey. intros H. open_step H; done. Qed.
Lemma state_error st n e : validateState st n = Some e → e ≠ ErrInvalidResponse.
Proof. unfold validateState. intros H. open_step H; done. Qed.
Lemma snapshot_error s n e : validateSnapshot s n = Some e → e ≠ ErrInvalidResponse.
Proof.
  unfold validateSnapshot. intros H. destruct (validateKey (SnapKey s)) eqn:?; [simplify_eq; by eapply key_error|].
  destruct (validateTarget (Source s)) eqn:?; [simplify_eq; by eapply target_error|].
  destruct (validateState (SnapState s) n) eqn:?; [simplify_eq; by eapply state_error|]. open_step H; done.
Qed.
Lemma save_error ctx c w w' e : memorySave ctx c w = (w', Err e) → e ≠ ErrInvalidResponse.
Proof.
  unfold memorySave. intros H. destruct w as [m|]; [|by simplify_eq].
  destruct (usable ctx) eqn:?; [simplify_eq; by eapply usable_error|].
  destruct (validateSnapshot c 0) eqn:?; [simplify_eq; by eapply snapshot_error|]. open_step H; done.
Qed.
#[local] Hint Resolve usable_error target_error key_error state_error snapshot_error save_error : gsr.

Lemma equalState_refl a : equalState a a = true.
Proof. unfold equalState. by rewrite !bool_decide_true, !Z.eqb_refl. Qed.

(** A capture over a memory store is all or nothing, and its own checks of the
    store's answer never fail.  With a valid store: either it fails, for a reason
    other than the store's answer, and the store is unchanged; or the snapshot it
    returns is valid within the manager's limit, carries the requested key and
    exactly the state the service answered, and is what the store holds, so a load
    through the manager returns it. *)
Theorem capture_all_or_nothing m call now ctx later target k w w' r :
  storeOk w → Capture m call now ctx later target k w = (w', r) →
  storeOk w'
  ∧ match r with
    | Err e => w' = w ∧ (∀ c, call target k = Ok (Some c) → capKey c = k → e ≠ ErrInvalidResponse)
    | Ok s =>
        (∃ c, call target k = Ok (Some c) ∧ SnapState s = capState c) ∧ SnapKey s = k
        ∧ validateSnapshot s (maxPayloadBytes m) = None
        ∧ LoadSnapshot m (Some None) (Some None) k w' = (w', Ok s)
    end.
Proof.
  intros Hok H. unfold Capture in H.
  destruct (usable ctx) eqn:Hu; [simplify_eq; split_and!; eauto with gsr|].
  destruct (validateTarget target) eqn:Ht; [simplify_eq; split_and!; eauto with gsr|].
  destruct (validateKey k) eqn:Hk; [simplify_eq; split_and!; eauto with gsr|].
  destruct (call target k) as [[c|]|e] eqn:Hc; [|by simplify_eq..].
  destruct (bool_decide (validateKey (capKey c) ≠ None) || _) eqn:Hr.
  { simplify_eq. split_and!; [done..|]. intros c' [= <-] Hck.
    rewrite Hck, Hk, !bool_decide_false in Hr by (by intros []). done. }
  destruct (validateState (capState c) _) eqn:Hs; [simplify_eq; split_and!; eauto with gsr|].
  destruct (validateSnapshot _ _) eqn:Hv in H; [simplify_eq; split_and!; eauto with gsr|].
  destruct (Save later _ w) as [w1 r1] eqn:Hsave. destruct (memorySave_spec _ _ _ _ _ Hok Hsave) as (Hok1 & _ & Hres).
  destruct r1 as [s|e]; simplify_eq; [|split_and!; eauto with gsr].
  destruct Hres as (mm & -> & Hm & Hsk & Hst). cbn in Hsk, Hst. rewrite Hsk, Hst, equalState_refl, bool_decide_false by auto.
  cbn [orb negb]. destruct (Hok1 _ _ _ eq_refl Hm) as [_ Hv0].
  assert (validateSnapshot s (maxPayloadBytes m) = None) as Hvs.
  { apply validateSnapshot_state in Hv0 as (? & ? & _ & ?). apply validateSnapshot_state. by rewrite Hst. }
  rewrite Hvs. split_and!; [done|by exists c|done|done|].
  unfold LoadSnapshot. cbn. rewrite Hk. rewrite <- Hsk, Hm. cbn. rewrite bool_decide_false by auto. by rewrite Hvs.
Qed.

Definition sampleCall (r : Z) : ServiceRef → Key → res rtError (option CaptureResponse) :=
  λ _ k, Ok (Some (mkCapture k (mkState "v" 1 r (Some [x01])))).

Lemma capture_all_or_nothing_witness :
  let w := (Capture (mkManager 16) (sampleCall 1) 10 (Some None) (Some None) (mkRef "n" 1) (mkKey "player" "7")
              NewMemoryStore).1 in
  LoadSnapshot (mkManager 16) (Some None) (Some None) (mkKey "player" "7") w = (w, Ok (sampleSnap 10 1 [x01])).
Proof.
  cbv zeta.
  destruct (capture_all_or_nothing (mkManager 16) (sampleCall 1) 10 (Some None) (Some None) (mkRef "n" 1)
    (mkKey "player" "7") NewMemoryStore _ (Ok (sampleSnap 10 1 [x01])) newStoreOk eq_refl) as (_ & _ & _ & _ & H).
  exact H.
Defined.
