(* ===== verification/Record.v ===== *)
(** * Recording and replaying commands

    [src/tooling/record]: the recorder service with its bounded windows
    ([service.go]), the decorator that records what enters a service
    ([decorator.go]), the replay of a bundle ([replay.go]), the client
    ([client.go]) and the payload checks of the cluster codec ([codec.go]).

    A nil byte slice is [None].  [append([]byte(nil), p...)] of an empty slice is
    nil, which [copyBytes] keeps: an entry with an empty payload is valid until it
    is cloned.  The name of the gauge of a key is a digest of the key and an
    argument here. *)

From stdpp Require Import prelude gmap strings list.
From Stdlib Require Import ZArith Lia Strings.Byte.
From S2P Require Import Prelude Types Metrics GoText Bytes.

Local Open Scope Z_scope.
Local Open Scope go_scope.

Inductive recError :=
| ErrInvalidConfig | ErrInvalidContext | ErrInvalidKey | ErrInvalidTarget | ErrInvalidEntry | ErrInvalidBundle
| ErrInvalidResponse | ErrRecordNotFound | ErrSequenceConflict | ErrSequenceExhausted
| ErrCodecEncode (cause : string) | ErrCodecDecode (cause : string) | ErrRedaction (cause : string)
| ErrReplayTarget | ErrUnsupportedCommand
| ErrOther (e : rtError).

Abbreviation StableKey := string (only parsing).
Abbreviation Sequence := Z (only parsing).
Abbreviation bytes := (option (list byte)) (only parsing).

Definition FormatVersion : Z := 1.

Record RecordEntry := mkRecordEntry {
  reFormat : Z; TargetKey : StableKey; Target : ServiceRef; Source : ServiceRef; Seq : Sequence; RecordedAt : Time;
  Command : CommandID; Payload : bytes; TraceID : string
}.
#[global] Instance RecordEntry_eq_dec : EqDecision RecordEntry.
Proof. solve_decision. Defined.

Record RecordBundle := mkBundle {
  rbFormat : Z; rbKey : StableKey; InitialState : bytes; Entries : list RecordEntry
}.

(** ** Validation *)

Definition maxStableKeyBytes : Z := 384.

Definition validateKey (k : StableKey) : error recError :=
  if bool_decide (k = "") || negb (ValidString k) || bool_decide (TrimSpace k ≠ k)
     || (maxStableKeyBytes <? Z.of_nat (String.length k))
  then Some ErrInvalidKey else None.

Definition validateTarget (target : ServiceRef) : error recError :=
  if bool_decide (Node target = "") || (ID target =? 0) then Some ErrInvalidTarget else None.

Definition validateEntry (e : RecordEntry) : error recError :=
  if negb (reFormat e =? FormatVersion) then Some ErrInvalidEntry
  else if bool_decide (validateKey (TargetKey e) ≠ None) then Some ErrInvalidEntry
  else if bool_decide (validateTarget (Target e) ≠ None) || (Seq e =? 0) || (RecordedAt e =? 0)
          || (Command e =? 0) || bool_decide (Payload e = None)
  then Some ErrInvalidEntry
  else None.

(** The loop over the entries; [index] is that of the head. *)
Fixpoint validEntries (k : StableKey) (index : Z) (l : list RecordEntry) : bool :=
  match l with
  | [] => true
  | e :: l => bool_decide (validateEntry e = None) && bool_decide (TargetKey e = k) && (Seq e =? u64 (index + 1))
              && validEntries k (index + 1) l
  end.

Definition validateBundle (b : RecordBundle) : error recError :=
  if negb (rbFormat b =? FormatVersion) then Some ErrInvalidBundle
  else if bool_decide (validateKey (rbKey b) ≠ None) then Some ErrInvalidBundle
  else if validEntries (rbKey b) 0 (Entries b) then None else Some ErrInvalidBundle.

Definition nextSequence (s : Sequence) : res recError Sequence :=
  if s =? u64_max then Err ErrSequenceExhausted else Ok (s + 1).

(** [append([]byte(nil), p...)] *)
Definition copyBytes (p : bytes) : bytes :=
  match p with Some (b :: l) => Some (b :: l) | _ => None end.

Definition cloneEntry (e : RecordEntry) : RecordEntry :=
  mkRecordEntry (reFormat e) (TargetKey e) (Target e) (Source e) (Seq e) (RecordedAt e) (Command e)
    (copyBytes (Payload e)) (TraceID e).
Definition cloneEntries (l : list RecordEntry) : list RecordEntry := cloneEntry <$> l.
Definition cloneBundle (b : RecordBundle) : RecordBundle :=
  mkBundle (rbFormat b) (rbKey b) (copyBytes (InitialState b)) (cloneEntries (Entries b)).

(** ** The recorder *)

Inductive responseCode := responseOK | responseInvalid | responseNotFound | responseSequenceConflict.
#[global] Instance responseCode_eq_dec : EqDecision responseCode.
Proof. solve_decision. Defined.

Definition responseCodeFromError (e : error recError) : responseCode :=
  match e with
  | None => responseOK
  | Some ErrRecordNotFound => responseNotFound
  | Some ErrSequenceConflict => responseSequenceConflict
  | Some _ => responseInvalid
  end.

Definition errorFromResponseCode (c : responseCode) : error recError :=
  match c with
  | responseOK => None
  | responseNotFound => Some ErrRecordNotFound
  | responseSequenceConflict => Some ErrSequenceConflict
  | responseInvalid => Some ErrInvalidResponse
  end.

Record RecorderService := mkRecorder {
  maxEntries : Z;
  records : gmap StableKey (list RecordEntry);
  lastSeq : gmap StableKey Sequence;
  metrics : metricCollector
}.

Definition NewRecorderService (max : Z) (mc : metricCollector) : res recError RecorderService :=
  if max <=? 0 then Err ErrInvalidConfig else Ok (mkRecorder max ∅ ∅ mc).

Section Recorder.
Context (retainedMetric : StableKey → string).

Definition append (entry : RecordEntry) (s : RecorderService) : RecorderService * error recError :=
  match validateEntry entry with
  | Some e => (s, Some e)
  | None =>
      let previous := default 0 (lastSeq s !! TargetKey entry) in
      match nextSequence previous with
      | Err _ => (s, Some ErrSequenceConflict)
      | Ok expected =>
          if negb (Seq entry =? expected) then (s, Some ErrSequenceConflict)
          else
            let entry := cloneEntry entry in
            let entries := default [] (records s !! TargetKey entry) ++ [entry] in
            let '(entries, mc) :=
              if maxEntries s <? Z.of_nat (length entries)
              then (drop (Z.to_nat (Z.of_nat (length entries) - maxEntries s)) entries,
                    Inc "record_evicted_total" (metrics s))
              else (entries, metrics s) in
            (mkRecorder (maxEntries s) (<[TargetKey entry := entries]> (records s))
               (<[TargetKey entry := Seq entry]> (lastSeq s))
               (SetGauge (retainedMetric (TargetKey entry)) (Z.of_nat (length entries)) mc), None)
      end
  end.

(** The loop of [list]: [room] more entries fit. *)
Fixpoint collect (after : Sequence) (room : nat) (l : list RecordEntry) : list RecordEntry :=
  match l with
  | [] => []
  | e :: l =>
      if after <? Seq e
      then match room with
           | 0%nat | 1%nat => [cloneEntry e]
           | S room => cloneEntry e :: collect after room l
           end
      else collect after room l
  end.

Definition listRecords (k : StableKey) (after : Sequence) (limit : Z) (s : RecorderService) : res recError (list RecordEntry) :=
  if bool_decide (validateKey k ≠ None) || (limit <=? 0) || (maxEntries s <? limit) then Err ErrInvalidEntry
  else Ok (collect after (Z.to_nat limit) (default [] (records s !! k))).

Definition clear (k : StableKey) (s : RecorderService) : RecorderService * error recError :=
  match validateKey k with
  | Some e => (s, Some e)
  | None => (mkRecorder (maxEntries s) (delete k (records s)) (lastSeq s) (SetGauge (retainedMetric k) 0 (metrics s)), None)
  end.

Inductive recorderCommand :=
| AppendRecord (e : RecordEntry)
| ListRecords (k : StableKey) (after : Sequence) (limit : Z)
| ClearRecords (k : StableKey)
| BadEmptyPayload      (** append or clear with another payload type *)
| BadListPayload
| UnknownRecorderCommand.

(** A reply by its wire type; the entries of an error are nil. *)
Inductive recorderResponse :=
| EmptyResponse (c : responseCode)
| ListResponse (l : option (list RecordEntry)) (c : responseCode).

Definition Handle (c : recorderCommand) (s : RecorderService) : RecorderService * res recError recorderResponse :=
  match c with
  | AppendRecord e => let '(s, err) := append e s in (s, Ok (EmptyResponse (responseCodeFromError err)))
  | ListRecords k after limit =>
      (s, Ok (match listRecords k after limit s with
              | Ok l => ListResponse (Some l) responseOK
              | Err e => ListResponse None (responseCodeFromError (Some e))
              end))
  | ClearRecords k => let '(s, err) := clear k s in (s, Ok (EmptyResponse (responseCodeFromError err)))
  | BadEmptyPayload => (s, Ok (EmptyResponse responseInvalid))
  | BadListPayload => (s, Ok (ListResponse None responseInvalid))
  | UnknownRecorderCommand => (s, Err (ErrOther (Sentinel ErrUnknownCommand)))
  end.
End Recorder.

Definition Stop (s : RecorderService) : RecorderService := mkRecorder (maxEntries s) ∅ ∅ (metrics s).

(** ** The client *)

Abbreviation context := (option (error rtError)) (only parsing).

Definition usableContext (ctx : context) : error recError :=
  match ctx with
  | None => Some ErrInvalidContext
  | Some (Some e) => Some (ErrOther e)
  | Some None => None
  end.

Section Client.
(** [caller.Call] at the target; [Ok None] is a value of another type. *)
Context {W : Type} (call : recorderCommand → W → W * res rtError (option recorderResponse)).

Definition emptyOf (r : res rtError (option recorderResponse)) : error recError :=
  match r with
  | Err e => Some (ErrOther e)
  | Ok (Some (EmptyResponse c)) => errorFromResponseCode c
  | Ok _ => Some ErrInvalidResponse
  end.

Definition ClientAppend (ctx : context) (target : ServiceRef) (e : RecordEntry) (w : W) : W * error recError :=
  match usableContext ctx with
  | Some err => (w, Some err)
  | None =>
      match validateTarget target with
      | Some err => (w, Some err)
      | None =>
          match validateEntry e with
          | Some err => (w, Some err)
          | None => let '(w, r) := call (AppendRecord (cloneEntry e)) w in (w, emptyOf r)
          end
      end
  end.

Definition ClientList (ctx : context) (target : ServiceRef) (k : StableKey) (after : Sequence) (limit : Z) (w : W)
  : W * res recError (list RecordEntry) :=
  match usableContext ctx with
  | Some err => (w, Err err)
  | None =>
      match validateTarget target with
      | Some err => (w, Err err)
      | None =>
          if bool_decide (validateKey k ≠ None) || (limit <=? 0) then (w, Err ErrInvalidEntry)
          else
            let '(w, r) := call (ListRecords k after limit) w in
            (w, match r with
                | Err e => Err (ErrOther e)
                | Ok (Some (ListResponse l c)) =>
                    match errorFromResponseCode c with
                    | Some e => Err e
                    | None => if forallb (λ e, bool_decide (validateEntry e = None)) (default [] l)
                              then Ok (cloneEntries (default [] l)) else Err ErrInvalidResponse
                    end
                | Ok _ => Err ErrInvalidResponse
                end)
      end
  end.

Definition ClientClear (ctx : context) (target : ServiceRef) (k : StableKey) (w : W) : W * error recError :=
  match usableContext ctx with
  | Some err => (w, Some err)
  | None =>
      match validateTarget target with
      | Some err => (w, Some err)
      | None =>
          match validateKey k with
          | Some err => (w, Some err)
          | None => let '(w, r) := call (ClearRecords k) w in (w, emptyOf r)
          end
      end
  end.
End Client.

(** ** The payload checks of the cluster codec *)

Inductive recorderPayload :=
| PayloadRequest (c : recorderCommand)
| PayloadResponse (r : recorderResponse)
| PayloadOther.

Definition validateRecorderPayload (response : bool) (value : recorderPayload) : error recError :=
  let check (b : bool) := if b then Some ErrInvalidResponse else None in
  match value with
  | PayloadRequest (AppendRecord e) => check (response || bool_decide (validateEntry e ≠ None))
  | PayloadRequest (ListRecords k _ limit) => check (response || bool_decide (validateKey k ≠ None) || (limit <=? 0))
  | PayloadRequest (ClearRecords k) => check (response || bool_decide (validateKey k ≠ None))
  | PayloadResponse (EmptyResponse _) => check (negb response)
  | PayloadResponse (ListResponse l _) =>
      check (negb response || negb (forallb (λ e, bool_decide (validateEntry e = None)) (default [] l)))
  | _ => Some ErrInvalidResponse
  end.

(** ** The decorator *)

(** The codec and the redactor of the application, over its payloads [V]; the text
    of an error is its message.  A redactor may be nil. *)
Record CommandCodec (V : Type) := mkCodec {
  Encode : CommandID → V → res string bytes;
  Decode : CommandID → bytes → res string V
}.
Arguments Encode {V} _ _ _. Arguments Decode {V} _ _ _.

Definition Redactor : Type := option (CommandID → bytes → res string bytes).

Record Decorator (I : Type) := mkDecorator {
  inner : I; recorder : ServiceRef; targetKey : StableKey; strict : bool; sequence : Sequence; decMetrics : metricCollector
}.
Arguments mkDecorator {I}. Arguments inner {I}. Arguments recorder {I}. Arguments targetKey {I}.
Arguments strict {I}. Arguments sequence {I}. Arguments decMetrics {I}.

Definition NewDecorator {I} (service : option I) (rec : ServiceRef) (k : StableKey) (codecNil isStrict : bool)
    (mc : metricCollector) : res recError (Decorator I) :=
  match service with
  | None => Err ErrInvalidConfig
  | Some service =>
      if codecNil then Err ErrInvalidConfig
      else match validateTarget rec with
           | Some e => Err e
           | None => match validateKey k with
                     | Some e => Err e
                     | None => Ok (mkDecorator service rec k isStrict 0 mc)
                     end
           end
  end.

Section Decorator.
Context {I V Out : Type} (codec : CommandCodec V) (redactor : Redactor)
  (innerHandle : CommandID → V → I → I * Out).

(** What the contexts answer during one command. *)
Record decInput := mkDecInput { self : ServiceRef; source : ServiceRef; now : Time; sendError : RecordEntry → error rtError }.

Definition redacted (c : CommandID) (payload : bytes) : res recError bytes :=
  match redactor with
  | None => Ok payload
  | Some f => match f c payload with Err e => Err (ErrRedaction e) | Ok p => Ok (copyBytes p) end
  end.

(** [record]: the next sequence, and the entry offered to [Send], if it got so far. *)
Definition record (i : decInput) (c : CommandID) (v : V) (d : Decorator I)
  : option RecordEntry * res recError Sequence :=
  match nextSequence (sequence d) with
  | Err e => (None, Err e)
  | Ok seq =>
      match Encode codec c v with
      | Err e => (None, Err (ErrCodecEncode e))
      | Ok payload =>
          match redacted c (copyBytes payload) with
          | Err e => (None, Err e)
          | Ok payload =>
              let entry := mkRecordEntry FormatVersion (targetKey d) (self i) (source i) seq (now i) c payload "" in
              match validateEntry entry with
              | Some e => (None, Err e)
              | None =>
                  (Some (cloneEntry entry),
                   match sendError i (cloneEntry entry) with Some e => Err (ErrOther e) | None => Ok seq end)
              end
          end
      end
  end.

Inductive decOut := RecordRefused (e : recError) | InnerOut (o : Out).

(** [Handle]: the entry offered to the recorder, and what the handler returns. *)
Definition decHandle (i : decInput) (c : CommandID) (v : V) (d : Decorator I)
  : Decorator I * option RecordEntry * decOut :=
  let '(offered, r) := record i c v d in
  match r with
  | Err e =>
      if strict d then (d, offered, RecordRefused e)
      else let '(x, o) := innerHandle c v (inner d) in
           (mkDecorator x (recorder d) (targetKey d) (strict d) (sequence d)
              (Inc "record_recording_failure_total" (decMetrics d)), offered, InnerOut o)
  | Ok seq =>
      let '(x, o) := innerHandle c v (inner d) in
      (mkDecorator x (recorder d) (targetKey d) (strict d) seq (decMetrics d), offered, InnerOut o)
  end.
End Decorator.

(** ** Replay *)

Section Replay.
Context {V : Type} (codec : CommandCodec V).

(** The factory answers the target, [None] for a nil runtime; [send] is the
    target's [Send].  The result has the commands accepted by [Send]. *)
Fixpoint replayEntries (send : CommandID → V → error rtError) (l : list RecordEntry)
  : list (CommandID * V) * error recError :=
  match l with
  | [] => ([], None)
  | e :: l =>
      match Decode codec (Command e) (copyBytes (Payload e)) with
      | Err err => ([], Some (ErrCodecDecode err))
      | Ok payload =>
          match send (Command e) payload with
          | Some err => ([], Some (ErrOther err))
          | None => let '(sent, r) := replayEntries send l in ((Command e, payload) :: sent, r)
          end
      end
  end.

Definition Replay (ctx : context) (b : RecordBundle) (codecNil factoryNil : bool)
    (factory : RecordBundle → res rtError (option (CommandID → V → error rtError) * ServiceRef))
  : list (CommandID * V) * error recError :=
  match usableContext ctx with
  | Some e => ([], Some e)
  | None =>
      if codecNil || factoryNil then ([], Some ErrInvalidConfig)
      else
        match validateBundle b with
        | Some e => ([], Some e)
        | None =>
            match factory (cloneBundle b) with
            | Err e => ([], Some (ErrOther e))
            | Ok (None, _) => ([], Some ErrReplayTarget)
            | Ok (Some send, ref) =>
                if bool_decide (validateTarget ref ≠ None) then ([], Some ErrReplayTarget)
                else replayEntries send (Entries b)
            end
        end
  end.
End Replay.
