(* ===== verification/RecordFacts.v ===== *)
(** * Properties of recording and replay

    The recorder refines an unbounded log of accepted entries, seen through a
    window; and a command sequence that passed a recording decorator is replayed
    as it was. *)

From stdpp Require Import prelude gmap strings list.
From Stdlib Require Import ZArith Lia Strings.Byte.
From S2P Require Import Prelude Types Metrics GoText Bytes Record.

Local Open Scope Z_scope.

(** ** The log a recorder stands for *)

(** Everything ever accepted for a key, and how much of it was cleared. *)
Record recordLog := mkLog { accepted : gmap StableKey (list RecordEntry); cleared : gmap StableKey nat }.

Definition emptyLog : recordLog := mkLog ∅ ∅.
Definition logOf (k : StableKey) (g : recordLog) : list RecordEntry := default [] (accepted g !! k).
Definition clearedOf (k : StableKey) (g : recordLog) : nat := default 0%nat (cleared g !! k).

(** What a window of [max] entries shows of the log of [k]. *)
Definition window (max : nat) (k : StableKey) (g : recordLog) : list RecordEntry :=
  drop (clearedOf k g `max` (length (logOf k g) - max)) (logOf k g).

(** The specification of a command: the [n]-th accepted entry has number [n]. *)
Definition logHandle (max : Z) (c : recorderCommand) (g : recordLog) : recordLog * option recorderResponse :=
  match c with
  | AppendRecord e =>
      if bool_decide (validateEntry e ≠ None) then (g, Some (EmptyResponse responseInvalid))
      else if bool_decide (Seq e = Z.of_nat (length (logOf (TargetKey e) g)) + 1 ∧ Seq e ≤ u64_max)
      then (mkLog (<[TargetKey e := logOf (TargetKey e) g ++ [cloneEntry e]]> (accepted g)) (cleared g),
            Some (EmptyResponse responseOK))
      else (g, Some (EmptyResponse responseSequenceConflict))
  | ListRecords k after limit =>
      (g, Some (if bool_decide (validateKey k = None ∧ 0 < limit ≤ max)
                then ListResponse (Some (take (Z.to_nat limit) (filter (λ e, after < Seq e) (window (Z.to_nat max) k g)))) responseOK
                else ListResponse None responseInvalid))
  | ClearRecords k =>
      if bool_decide (validateKey k = None)
      then (mkLog (accepted g) (<[k := length (logOf k g)]> (cleared g)), Some (EmptyResponse responseOK))
      else (g, Some (EmptyResponse responseInvalid))
  | BadEmptyPayload => (g, Some (EmptyResponse responseInvalid))
  | BadListPayload => (g, Some (ListResponse None responseInvalid))
  | UnknownRecorderCommand => (g, None)
  end.

Fixpoint logRun (max : Z) (cs : list recorderCommand) (g : recordLog) : list (option recorderResponse) :=
  match cs with
  | [] => []
  | c :: cs => let '(g, r) := logHandle max c g in r :: logRun max cs g
  end.

Definition replyOf (r : res recError recorderResponse) : option recorderResponse :=
  match r with Ok r => Some r | Err _ => None end.

Fixpoint recorderRun (metric : StableKey → string) (cs : list recorderCommand) (s : RecorderService)
  : list (option recorderResponse) :=
  match cs with
  | [] => []
  | c :: cs => let '(s, r) := Handle metric c s in replyOf r :: recorderRun metric cs s
  end.

(** ** The simulation *)

Record simulates (s : RecorderService) (g : recordLog) : Prop := mkSim {
  sim_max : 0 < maxEntries s;
  sim_window k : default [] (records s !! k) = window (Z.to_nat (maxEntries s)) k g;
  sim_last k : default 0 (lastSeq s !! k) = Z.of_nat (length (logOf k g));
  sim_bound k : Z.of_nat (length (logOf k g)) ≤ u64_max;
  sim_cleared k : (clearedOf k g ≤ length (logOf k g))%nat;
  sim_clone k : Forall (λ e, cloneEntry e = e) (logOf k g)
}.

Lemma copyBytes_idem p : copyBytes (copyBytes p) = copyBytes p.
Proof. by destruct p as [[]|]. Qed.

Lemma cloneEntry_idem e : cloneEntry (cloneEntry e) = cloneEntry e.
Proof. unfold cloneEntry. cbn. by rewrite copyBytes_idem. Qed.

Lemma collect_spec after l : ∀ room,
  Forall (λ e, cloneEntry e = e) l → (0 < room)%nat →
  collect after room l = take room (filter (λ e, after < Seq e) l).
Proof.
  induction l as [|e l IH]; intros room Hl Hr; [by destruct room|].
  apply Forall_cons in Hl as [He Hl]. cbn [collect]. rewrite filter_cons.
  destruct (after <? Seq e) eqn:E; bool_prop.
  - rewrite decide_True by done. destruct room as [|[|room]]; [lia|by rewrite He|].
    rewrite He, IH by (done || lia). done.
  - rewrite decide_False by lia. by apply IH.
Qed.

Lemma window_Forall P max k g : Forall P (logOf k g) → Forall P (window max k g).
Proof. apply Forall_drop. Qed.

(** What an accepted entry does to the recorder. *)
Lemma append_Ok metric e s :
  0 < maxEntries s → validateEntry e = None → nextSequence (default 0 (lastSeq s !! TargetKey e)) = Ok (Seq e) →
  let w := default [] (records s !! TargetKey e) ++ [cloneEntry e] in
  ∃ mc, append metric e s
    = (mkRecorder (maxEntries s) (<[TargetKey e := drop (length w - Z.to_nat (maxEntries s)) w]> (records s))
         (<[TargetKey e := Seq e]> (lastSeq s)) mc, None).
Proof.
  intros Hm Hv Hn w. unfold append. rewrite Hv, Hn, Z.eqb_refl. cbn [negb TargetKey cloneEntry]. fold w.
  destruct (maxEntries s <? Z.of_nat (length w)) eqn:Hlt; bool_prop; eexists; cbn; f_equal.
  - do 3 f_equal. lia.
  - by replace (length w - Z.to_nat (maxEntries s))%nat with 0%nat by lia.
Qed.

Lemma append_refused metric e s err :
  validateEntry e = None → nextSequence (default 0 (lastSeq s !! TargetKey e)) = err → err ≠ Ok (Seq e) →
  append metric e s = (s, Some ErrSequenceConflict).
Proof.
  intros Hv <- Hn. unfold append. rewrite Hv. destruct (nextSequence _) as [n|]; [|done].
  destruct (Seq e =? n) eqn:E; bool_prop; naive_solver.
Qed.

(** Appending to the log shifts the window the way [append] cuts its slice. *)
Lemma window_append (M c : nat) (l : list RecordEntry) e :
  (0 < M)%nat → (c ≤ length l)%nat →
  let w := drop (c `max` (length l - M)) l ++ [e] in
  drop (c `max` (length (l ++ [e]) - M)) (l ++ [e]) = drop (length w - M) w.
Proof.
  intros HM Hc w. subst w. set (k := (c `max` (length l - M))%nat).
  assert (k ≤ length l)%nat by (subst k; lia).
  rewrite <- drop_app_le by done. rewrite drop_drop, length_drop, length_app. cbn [length]. f_equal. lia.
Qed.

Lemma logOf_insert k k' l g c :
  logOf k' (mkLog (<[k:=l]> (accepted g)) c) = if decide (k' = k) then l else logOf k' g.
Proof. unfold logOf. cbn. case_decide; subst; [by rewrite lookup_insert_eq|by rewrite lookup_insert_ne]. Qed.

Lemma default_insert {A} (k k' : StableKey) (x d : A) (m : gmap StableKey A) :
  default d (<[k:=x]> m !! k') = if decide (k' = k) then x else default d (m !! k').
Proof. case_decide; subst; [by rewrite lookup_insert_eq|by rewrite lookup_insert_ne]. Qed.

Lemma validateEntry_code e err : validateEntry e = Some err → responseCodeFromError (Some err) = responseInvalid.
Proof. unfold validateEntry. intros H. open_step H; done. Qed.

Lemma append_simulates metric e s g :
  simulates s g →
  simulates (append metric e s).1 (logHandle (maxEntries s) (AppendRecord e) g).1
  ∧ Some (EmptyResponse (responseCodeFromError (append metric e s).2)) = (logHandle (maxEntries s) (AppendRecord e) g).2
  ∧ maxEntries (append metric e s).1 = maxEntries s.
Proof.
  intros H. unfold logHandle. destruct (validateEntry e) as [err|] eqn:Hv.
  { unfold append. rewrite Hv, bool_decide_true by done. cbn [fst snd]. by rewrite (validateEntry_code _ _ Hv). }
  rewrite bool_decide_false by (intros Hx; by apply Hx).
  pose proof (sim_last _ _ H (TargetKey e)) as Hl. pose proof (sim_bound _ _ H (TargetKey e)) as Hb.
  case_bool_decide as Hacc.
  - destruct Hacc as [Hs Hs']. destruct (append_Ok metric e s) as [mc Ha]; [apply H|done| |].
    { rewrite Hl. unfold nextSequence. destruct (_ =? _) eqn:E; bool_prop; [lia|by rewrite Hs]. }
    rewrite Ha. cbn [fst snd]. split_and!; [|done|done].
    pose proof (sim_max _ _ H) as Hmax. pose proof (sim_cleared _ _ H (TargetKey e)) as Hc.
    constructor; cbn [maxEntries records lastSeq]; [done| | | | |]; intros k; unfold window; rewrite ?logOf_insert, ?default_insert;
      case_decide; subst; try apply H.
    1: { rewrite (sim_window _ _ H). symmetry. apply window_append; [lia|done]. }
    4: { apply Forall_app. split; [apply H|]. constructor; [apply cloneEntry_idem|done]. }
    all: rewrite ?length_app; cbn [length]; unfold clearedOf in *; cbn [cleared] in *; lia.
  - erewrite append_refused; [by cbn|done|done|]. rewrite Hl. unfold nextSequence.
    destruct (_ =? _) eqn:E; bool_prop; [done|]. intros [= Hx]. lia.
Qed.

Lemma handle_simulates metric c s g :
  simulates s g →
  simulates (Handle metric c s).1 (logHandle (maxEntries s) c g).1
  ∧ replyOf (Handle metric c s).2 = (logHandle (maxEntries s) c g).2
  ∧ maxEntries (Handle metric c s).1 = maxEntries s.
Proof.
  intros H. destruct c as [e|k after limit|k| | |]; try done.
  - destruct (append_simulates metric e s g H) as (H1 & H2 & H3). unfold Handle.
    destruct (append metric e s) as [s' err]. done.
  - cbn -[window]. split_and!; [done| |done]. f_equal. unfold listRecords.
    destruct (decide (validateKey k = None ∧ 0 < limit ≤ maxEntries s)) as [Hd|Hd].
    + rewrite (bool_decide_true _ Hd). destruct Hd as (-> & ? & ?). rewrite bool_decide_false by (intros Hx; by apply Hx).
      destruct (limit <=? 0) eqn:?, (maxEntries s <? limit) eqn:?; bool_prop; try lia. cbn [orb].
      rewrite (sim_window _ _ H), collect_spec; [done| |lia]. apply window_Forall, H.
    + rewrite (bool_decide_false _ Hd). destruct (_ || _) eqn:E; [done|]. bool_prop. destruct Hd. split; [|lia].
      by destruct (validateKey k); [destruct H0|].
  - cbn. unfold clear. destruct (validateKey k) as [err|] eqn:Hk.
    + rewrite bool_decide_false by done. cbn. unfold validateKey in Hk. open_step Hk; done.
    + rewrite bool_decide_true by done. cbn. split_and!; [|done|done]. destruct H as [? Hw ? ? Hc ?].
      constructor; cbn; try done; intros k'; unfold window, clearedOf; cbn [cleared accepted logOf];
        rewrite default_insert; case_decide; subst; try apply Hc; rewrite ?lookup_delete_ne by done; try apply Hw; try (unfold logOf; cbn; lia).
      unfold logOf; cbn. rewrite lookup_delete_eq. cbn. symmetry. apply drop_ge. lia.
Qed.

Lemma new_simulates max mc s : NewRecorderService max mc = Ok s → simulates s emptyLog ∧ maxEntries s = max.
Proof.
  unfold NewRecorderService. destruct (max <=? 0) eqn:E; intros [= <-]. bool_prop. split; [|done].
  constructor; cbn; intros; try done; unfold logOf, clearedOf; cbn; lia || done.
Qed.

Lemma run_simulates metric cs : ∀ s g, simulates s g → recorderRun metric cs s = logRun (maxEntries s) cs g.
Proof.
  induction cs as [|c cs IH]; intros s g H; [done|]. cbn [recorderRun logRun].
  destruct (handle_simulates metric c s g H) as (H1 & H2 & H3).
  destruct (Handle metric c s) as [s' r], (logHandle (maxEntries s) c g) as [g' r'] eqn:E.
  cbn [fst snd] in *. rewrite H2, (IH s' g' H1), H3. done.
Qed.

(** C40. A recorder answers every sequence of commands exactly as an unbounded log
    would that is read through a window of [maxEntries] entries: entry [n] of a
    key is accepted when it carries number [n] and refused otherwise, a listing
    shows the accepted entries after the cursor in order and without gaps, except
    those cleared or older than the last [maxEntries], and clearing neither loses
    the numbering nor shows an old entry again. *)
Theorem recorder_refines_log metric max mc s cs :
  NewRecorderService max mc = Ok s → recorderRun metric cs s = logRun max cs emptyLog.
Proof. intros [H <-]%new_simulates. by apply run_simulates. Qed.

Definition sampleEntry (n : Z) : RecordEntry :=
  mkRecordEntry 1 "k" (mkRef "n" 1) (mkRef "n" 2) n 5 9 (Some [x07]) "".

Lemma recorder_refines_log_witness :
  recorderRun (λ k, k) [AppendRecord (sampleEntry 1); AppendRecord (sampleEntry 3); AppendRecord (sampleEntry 2);
                        AppendRecord (sampleEntry 3); ListRecords "k" 0 2; ClearRecords "k"; ListRecords "k" 0 2]
    (mkRecorder 2 ∅ ∅ newMetricCollector)
  = [Some (EmptyResponse responseOK); Some (EmptyResponse responseSequenceConflict); Some (EmptyResponse responseOK);
     Some (EmptyResponse responseOK); Some (ListResponse (Some [sampleEntry 2; sampleEntry 3]) responseOK);
     Some (EmptyResponse responseOK); Some (ListResponse (Some []) responseOK)].
Proof.
  rewrite (recorder_refines_log (λ k, k) 2 newMetricCollector (mkRecorder 2 ∅ ∅ newMetricCollector) _ eq_refl).
  by vm_compute.
Defined.

(** ** Recording and replaying *)

Section Roundtrip.
Context {I V Out : Type} (codec : CommandCodec V) (innerHandle : CommandID → V → I → I * Out)
  (metric : StableKey → string).

(** What happens around a decorated service: a command reaches it, and its entry
    the recorder when [Send] took it; or the recorder handles somebody else's
    command. *)
Inductive event := Incoming (i : decInput) (c : CommandID) (v : V) | Elsewhere (c : recorderCommand).

Definition aboutOther (k : StableKey) (ev : event) : bool :=
  match ev with
  | Elsewhere (AppendRecord e) => bool_decide (TargetKey e ≠ k)
  | Elsewhere (ClearRecords k') => bool_decide (k' ≠ k)
  | _ => true
  end.

(** The decorator, the recorder, and the commands whose recording succeeded. *)
Definition happen (ev : event) (w : Decorator I * RecorderService * list (CommandID * V))
  : Decorator I * RecorderService * list (CommandID * V) :=
  let '(d, s, done) := w in
  match ev with
  | Incoming i c v =>
      let '(offered, r) := record codec None i c v d in
      let '(d', _, _) := decHandle codec None innerHandle i c v d in
      match offered, r with
      | Some e, Ok _ => (d', (Handle metric (AppendRecord e) s).1, done ++ [(c, v)])
      | _, _ => (d', s, done)
      end
  | Elsewhere c => (d, (Handle metric c s).1, done)
  end.

(** The codec decodes what it encodes. *)
Definition codecLaw : Prop := ∀ c v p, Encode codec c v = Ok p → Decode codec c (copyBytes p) = Ok v.

(** An entry stands for a command. *)
Definition stands (k : StableKey) (n : nat) (e : RecordEntry) (cv : CommandID * V) : Prop :=
  validateEntry e = None ∧ TargetKey e = k ∧ Seq e = Z.of_nat n + 1 ∧ Command e = cv.1 ∧ cloneEntry e = e
  ∧ Decode codec (Command e) (Payload e) = Ok cv.2.

(** While nothing was evicted, the recorder holds an entry for every recorded command. *)
Record recorded (k : StableKey) (w : Decorator I * RecorderService * list (CommandID * V)) : Prop := mkRecorded {
  rd_key : targetKey w.1.1 = k;
  rd_seq : sequence w.1.1 = Z.of_nat (length w.2);
  rd_max : 0 < maxEntries w.1.2 < 2 ^ 63;
  rd_last : default 0 (lastSeq w.1.2 !! k) = Z.of_nat (length w.2);
  rd_entries : Z.of_nat (length w.2) ≤ maxEntries w.1.2 →
    length (default [] (records w.1.2 !! k)) = length w.2
    ∧ ∀ n e cv, default [] (records w.1.2 !! k) !! n = Some e → w.2 !! n = Some cv → stands k n e cv
}.

(** The shape of a successful recording. *)
Lemma record_Ok i c v (d : Decorator I) off n :
  codecLaw → record codec None i c v d = (off, Ok n) →
  ∃ e, off = Some e ∧ n = Seq e ∧ nextSequence (sequence d) = Ok (Seq e)
    ∧ cloneEntry e = e ∧ TargetKey e = targetKey d ∧ Command e = c ∧ Decode codec c (Payload e) = Ok v
    ∧ validateEntry e = None.
Proof.
  intros Hlaw H. unfold record in H. destruct (nextSequence (sequence d)) as [n'|] eqn:Hn; [|done].
  destruct (Encode codec c v) as [p|] eqn:He; [|done]. cbn [redacted] in H.
  destruct (validateEntry _) eqn:Hv in H; [done|]. destruct (sendError i _) in H; simplify_eq.
  eexists. split_and!; [done..| | | | |]; try done.
  - apply cloneEntry_idem.
  - cbn. rewrite copyBytes_idem. by apply Hlaw.
  - unfold cloneEntry. cbn. by rewrite copyBytes_idem.
Qed.

Lemma decHandle_keeps i c v (d : Decorator I) :
  targetKey (decHandle codec None innerHandle i c v d).1.1 = targetKey d
  ∧ sequence (decHandle codec None innerHandle i c v d).1.1
    = match (record codec None i c v d).2 with Ok n => n | Err _ => sequence d end.
Proof.
  unfold decHandle. destruct (record codec None i c v d) as [off [n|e]]; [|destruct (strict d)]; cbn;
    destruct (innerHandle c v (inner d)); done.
Qed.

(** A command about other keys leaves the records of [k] alone. *)
Lemma elsewhere_keeps k c s :
  aboutOther k (Elsewhere c) = true →
  records (Handle metric c s).1 !! k = records s !! k ∧ lastSeq (Handle metric c s).1 !! k = lastSeq s !! k
  ∧ maxEntries (Handle metric c s).1 = maxEntries s.
Proof.
  intros Hk. destruct c as [e|k' ? ?|k'| | |]; try done; cbn in Hk |- *; bool_prop.
  - unfold append. destruct (validateEntry e); [done|]. destruct (nextSequence _); [|done].
    destruct (negb _); [done|]. destruct (_ <? _); cbn; by rewrite !lookup_insert_ne.
  - unfold clear. destruct (validateKey k'); [done|]. cbn. by rewrite lookup_delete_ne.
Qed.

Lemma recorded_step k ev w : codecLaw → aboutOther k ev = true → recorded k w → recorded k (happen ev w).
Proof.
  intros Hlaw Ho [Hk Hs Hm Hl He]. destruct w as [[d s] done]. cbn [fst snd] in *. destruct ev as [i c v|c]; cbn [happen].
  2: { destruct (elsewhere_keeps k c s Ho) as (E1 & E2 & E3). constructor; cbn [fst snd]; rewrite ?E1, ?E2, ?E3; done. }
  destruct (decHandle_keeps i c v d) as [Hk' Hs'].
  destruct (record codec None i c v d) as [off r] eqn:Hr, (decHandle codec None innerHandle i c v d) as [[d' ?] ?].
  cbn [fst snd] in *. destruct r as [n|err].
  2: { destruct off; constructor; cbn [fst snd]; congruence || done. }
  destruct (record_Ok _ _ _ _ _ _ Hlaw Hr) as (e & -> & -> & Hn & Hc & Hke & Hce & Hd & Hv).
  rewrite Hk in Hke. rewrite Hs, <- Hl in Hn.
  assert (Seq e = Z.of_nat (length done) + 1) as Hseq.
  { unfold nextSequence in Hn. destruct (_ =? _); [done|]. injection Hn. lia. }
  rewrite <- Hke in Hn. destruct (append_Ok metric e s ltac:(lia) Hv Hn) as [mc Ha]. unfold Handle. rewrite Ha.
  constructor; cbn [fst snd maxEntries records lastSeq]; rewrite ?Hke, ?length_app, ?default_insert, ?decide_True by done;
    cbn [length]; try done; try lia; [congruence|].
  intros Hlen. destruct He as [Hlen' Hst]; [lia|].  
  replace (_ - _)%nat with 0%nat by lia. rewrite drop_0, length_app. cbn [length]. split; [lia|].
  intros n x cv Hx Hcv. destruct (decide (n = length done)) as [->|Hne].
  - rewrite lookup_app_r, <- Hlen', Nat.sub_diag in Hx by lia. rewrite lookup_app_r, Nat.sub_diag in Hcv by lia.
    cbn in Hx, Hcv. simplify_eq. rewrite Hc. by split_and!.
  - assert (n < length done)%nat. { apply lookup_lt_Some in Hcv. rewrite length_app in Hcv. cbn in Hcv. lia. }
    rewrite lookup_app_l in Hx by lia. rewrite lookup_app_l in Hcv by lia. eauto.
Qed.

Lemma recorded_run k evs w :
  codecLaw → forallb (aboutOther k) evs = true → recorded k w → recorded k (foldl (λ w ev, happen ev w) w evs).
Proof.
  intros Hlaw. revert w. induction evs as [|ev evs IH]; intros w Ho Hw; [done|]. cbn in *.
  apply andb_true_iff in Ho as [? ?]. apply IH; [done|]. by apply recorded_step.
Qed.

(** Entries that stand for commands, listed, validated and replayed. *)
Lemma stands_listed k es done :
  length es = length done →
  ∀ off : nat, (∀ n e cv, es !! n = Some e → done !! n = Some cv → stands k (off + n) e cv) →
  Z.of_nat (off + length es) < 2 ^ 63 →
  Forall (λ e, cloneEntry e = e ∧ 0 < Seq e) es ∧ validEntries k (Z.of_nat off) es = true
  ∧ ∀ send, (∀ c v, send c v = None) → replayEntries codec send es = (done, None).
Proof.
  revert done. induction es as [|e es IH]; intros [|cv done] Hlen off Hst Hb; [by split_and!|discriminate|discriminate|].
  destruct (IH done ltac:(by injection Hlen) (S off)) as (H1 & H2 & H3).
  { intros n x y Hx Hy. replace (S off + n)%nat with (off + S n)%nat by lia. by apply Hst. }
  { cbn in Hb. lia. }
  destruct (Hst 0%nat e cv eq_refl eq_refl) as (Hv & Hk & Hs & Hc & Hcl & Hd). rewrite Nat.add_0_r in Hs. split_and!.
  - constructor; [split; [done|lia]|done].
  - cbn [validEntries]. rewrite !bool_decide_true by done. rewrite u64_small by (split; unfold u64_mod in *; cbn in Hb; lia).
    rewrite Hs, Z.eqb_refl. cbn [andb]. by replace (Z.of_nat off + 1) with (Z.of_nat (S off)) by lia.
  - intros send Hsend. cbn [replayEntries]. replace (copyBytes (Payload e)) with (Payload e) by (by rewrite <- Hcl at 1).
    rewrite Hd, Hsend, (H3 send Hsend). destruct cv; cbn in *. by subst.
Qed.

Lemma collect_all l : Forall (λ e, cloneEntry e = e ∧ 0 < Seq e) l →
  ∀ room, (length l ≤ room)%nat → (0 < room)%nat → collect 0 room l = l.
Proof.
  intros Hl room Hlen Hr. rewrite collect_spec; [|eapply Forall_impl; [exact Hl|naive_solver]|done].
  rewrite take_ge; [|etrans; [apply length_filter|done]]. clear Hlen Hr.
  induction Hl as [|e l [_ He] _ IH]; [done|]. rewrite filter_cons_True by done. by rewrite IH.
Qed.

(** What a recording decorator recorded is replayed as it happened.  A
    decorator and a recorder start fresh for a key; the decorated service handles
    commands while the recorder serves other keys in between; recordings may fail
    for any reason (encoding, validation, a refused [Send]).  As long as no more
    commands were recorded than the recorder keeps, listing the key gives a valid
    bundle, and replaying it with a codec that decodes what it encodes sends to
    any accepting target exactly the recorded commands, in order, with their
    payloads. *)
Theorem record_replay_roundtrip k evs d s init d' s' done :
  codecLaw → validateKey k = None → forallb (aboutOther k) evs = true →
  targetKey d = k → sequence d = 0 → lastSeq s !! k = None → records s !! k = None → 0 < maxEntries s < 2 ^ 63 →
  foldl (λ w ev, happen ev w) (d, s, []) evs = (d', s', done) → Z.of_nat (length done) ≤ maxEntries s' →
  ∃ es, listRecords k 0 (maxEntries s') s' = Ok es
    ∧ ∀ send ref factory, (∀ c v, send c v = None) → validateTarget ref = None →
        (∀ b, factory b = Ok (Some send, ref)) →
        Replay codec (Some None) (mkBundle FormatVersion k init es) false false factory = (done, None).
Proof.
  intros Hlaw Hk Ho Hd Hq Hl Hr Hm Hrun Hlen.
  assert (recorded k (d, s, [])) as H0.
  { constructor; cbn [fst snd length]; rewrite ?Hl, ?Hr; try done; lia. }
  pose proof (recorded_run k evs _ Hlaw Ho H0) as [_ _ Hm' _ He]. rewrite Hrun in Hm', He. cbn [fst snd] in *.
  destruct (He Hlen) as [Hl' Hst]. set (es := default [] (records s' !! k)) in *. exists es.
  destruct (stands_listed k es done Hl' 0 Hst ltac:(cbn; lia)) as (Hcl & Hvalid & Hrep).
  split.
  - unfold listRecords. rewrite Hk, bool_decide_false by (intros Hx; by apply Hx).
    destruct (_ <=? 0) eqn:?, (_ <? _) eqn:?; bool_prop; try lia. cbn [orb]. fold es. f_equal.
    apply collect_all; [done|lia|lia].
  - intros send ref factory Hsend Href Hf. unfold Replay. cbn [usableContext orb].
    unfold validateBundle. cbn [rbFormat rbKey Entries]. rewrite Z.eqb_refl, Hk, bool_decide_false by (intros Hx; by apply Hx).
    cbn [negb]. change 0 with (Z.of_nat 0). rewrite Hvalid, Hf, Href, bool_decide_false by (intros Hx; by apply Hx). by apply Hrep.
Qed.
End Roundtrip.

(** A codec of one-byte payloads. *)
Definition sampleCodec : CommandCodec byte :=
  mkCodec byte (λ _ b, Ok (Some [b])) (λ _ p, match p with Some [b] => Ok b | _ => Err "bad" end).
Definition sampleDecorator : Decorator nat := mkDecorator 0%nat (mkRef "n" 9) "k" true 0 newMetricCollector.
Definition sampleHandler (c : CommandID) (b : byte) (n : nat) : nat * unit := (S n, tt).
Definition sampleIn : decInput := mkDecInput (mkRef "n" 1) (mkRef "n" 2) 5 (λ _, None).
Definition refusedIn : decInput := mkDecInput (mkRef "n" 1) (mkRef "n" 2) 5 (λ _, Some (Sentinel ErrMailboxFull)).
Definition sampleEvents : list (event (V := byte)) :=
  [Incoming sampleIn 9 x01; Incoming refusedIn 9 x02; Elsewhere (ClearRecords "j"); Incoming sampleIn 8 x03].

Lemma record_replay_roundtrip_witness :
  let w := foldl (λ w ev, happen sampleCodec sampleHandler (λ k, k) ev w)
             (sampleDecorator, mkRecorder 4 ∅ ∅ newMetricCollector, []) sampleEvents in
  ∃ es, listRecords "k" 0 4 w.1.2 = Ok es
    ∧ Replay sampleCodec (Some None) (mkBundle FormatVersion "k" None es) false false
        (λ _, Ok (Some (λ _ _, None), mkRef "iso" 1)) = ([(9, x01); (8, x03)], None).
Proof.
  cbv zeta.
  destruct (record_replay_roundtrip sampleCodec sampleHandler (λ k, k) "k" sampleEvents sampleDecorator
    (mkRecorder 4 ∅ ∅ newMetricCollector) None
    (foldl (λ w ev, happen sampleCodec sampleHandler (λ k, k) ev w)
       (sampleDecorator, mkRecorder 4 ∅ ∅ newMetricCollector, []) sampleEvents).1.1
    (foldl (λ w ev, happen sampleCodec sampleHandler (λ k, k) ev w)
       (sampleDecorator, mkRecorder 4 ∅ ∅ newMetricCollector, []) sampleEvents).1.2
    [(9, x01); (8, x03)]) as (es & Hes & Hrep).
  - by intros c v p [= <-].
  - by vm_compute.
  - by vm_compute.
  - done.
  - done.
  - done.
  - done.
  - done.
  - by vm_compute.
  - by vm_compute.
  - exists es. split; [exact Hes|]. by apply (Hrep (λ _ _, None) (mkRef "iso" 1)).
Defined.

(** A command whose encoding is empty cannot be recorded: cloning the empty payload
    makes it nil, and validation refuses nil.  A strict decorator then refuses the
    command itself. *)
Theorem empty_payload_unrecordable {I V Out} (codec : CommandCodec V) (h : CommandID → V → I → I * Out) i c v d :
  Encode codec c v = Ok (Some []) → sequence d < u64_max → strict d = true →
  decHandle codec None h i c v d = (d, None, RecordRefused ErrInvalidEntry).
Proof.
  intros He Hs Hst. unfold decHandle, record, nextSequence. destruct (_ =? _) eqn:E; bool_prop; [lia|].
  rewrite He. cbn [redacted copyBytes]. unfold validateEntry. cbn -[validateKey validateTarget].
  case_bool_decide; [by rewrite Hst|]. rewrite orb_true_r. by rewrite Hst.
Qed.
