(* ===== verification/Encoding.v ===== *)
(** * Text encodings of the Go library

    What [src/tooling/entry] uses of [encoding/base64] ([RawURLEncoding]), of
    [strconv] (decimal [uint64]) and of [strings.Split], on byte lists, with the
    round trips.  Decoding base64 skips line ends and ignores the spare bits of
    the last character, as the library does. *)

From stdpp Require Import prelude strings list.
From Stdlib Require Import ZArith Lia Strings.Byte.
From S2P Require Import Prelude Bytes.

Local Open Scope Z_scope.

(** ** [base64.RawURLEncoding] *)

(** The alphabet: A-Z, a-z, 0-9, '-', '_'. *)
Definition encodeChar (z : Z) : byte :=
  byte_of_Z (if z <? 26 then 65 + z else if z <? 52 then 71 + z else if z <? 62 then z - 4
             else if z =? 62 then 45 else 95).

Definition decodeChar (b : byte) : option Z :=
  let z := byteZ b in
  if (65 <=? z) && (z <=? 90) then Some (z - 65)
  else if (97 <=? z) && (z <=? 122) then Some (z - 71)
  else if (48 <=? z) && (z <=? 57) then Some (z + 4)
  else if z =? 45 then Some 62
  else if z =? 95 then Some 63
  else None.

Fixpoint base64Encode (l : list byte) : list byte :=
  match l with
  | [] => []
  | [a] => let v := byteZ a * 2 ^ 4 in [encodeChar (v / 2 ^ 6); encodeChar (v mod 2 ^ 6)]
  | [a; b] =>
      let v := (byteZ a * 2 ^ 8 + byteZ b) * 2 ^ 2 in
      [encodeChar (v / 2 ^ 12); encodeChar (v / 2 ^ 6 mod 2 ^ 6); encodeChar (v mod 2 ^ 6)]
  | a :: b :: c :: l =>
      let v := byteZ a * 2 ^ 16 + byteZ b * 2 ^ 8 + byteZ c in
      encodeChar (v / 2 ^ 18) :: encodeChar (v / 2 ^ 12 mod 2 ^ 6) :: encodeChar (v / 2 ^ 6 mod 2 ^ 6)
        :: encodeChar (v mod 2 ^ 6) :: base64Encode l
  end.

(** The values of the characters, line ends skipped; an alien character is an error. *)
Fixpoint sextets (l : list byte) : option (list Z) :=
  match l with
  | [] => Some []
  | b :: l =>
      match decodeChar b with
      | Some z => cons z <$> sextets l
      | None => if bool_decide (b = x0a) || bool_decide (b = x0d) then sextets l else None
      end
  end.

Fixpoint quanta (l : list Z) : option (list byte) :=
  match l with
  | [] => Some []
  | [_] => None
  | [a; b] => Some [byte_of_Z ((a * 2 ^ 6 + b) / 2 ^ 4)]
  | [a; b; c] =>
      let v := (a * 2 ^ 12 + b * 2 ^ 6 + c) / 2 ^ 2 in Some [byte_of_Z (v / 2 ^ 8); byte_of_Z v]
  | a :: b :: c :: d :: l =>
      let v := a * 2 ^ 18 + b * 2 ^ 12 + c * 2 ^ 6 + d in
      (λ t, byte_of_Z (v / 2 ^ 16) :: byte_of_Z (v / 2 ^ 8) :: byte_of_Z v :: t) <$> quanta l
  end.

Definition base64Decode (l : list byte) : option (list byte) := sextets l ≫= quanta.

Lemma decode_encodeChar z : 0 ≤ z < 64 → decodeChar (encodeChar z) = Some z.
Proof.
  intros Hz. unfold decodeChar, encodeChar. rewrite byteZ_of_Z.
  destruct (z <? 26) eqn:E1, (z <? 52) eqn:E2, (z <? 62) eqn:E3, (z =? 62) eqn:E4; bool_prop; try lia;
    rewrite Z.mod_small by lia;
    repeat match goal with
    | |- context [if ?c then _ else _] => destruct c eqn:?; bool_prop; try lia
    end; try (f_equal; lia).
  all: repeat match goal with
       | H : (_ && _) = false |- _ => apply andb_false_iff in H as [H|H]; bool_prop
       end; try lia.
Qed.

Lemma byte_of_Z_eq z b : z mod 256 = byteZ b → byte_of_Z z = b.
Proof.
  intros H. rewrite <- (byte_of_byteZ b), <- H. unfold byte_of_Z. by rewrite Z.mod_mod.
Qed.

Lemma sextets_encode z l : 0 ≤ z < 64 → sextets (encodeChar z :: l) = cons z <$> sextets l.
Proof. intros. cbn [sextets]. by rewrite decode_encodeChar. Qed.

Lemma base64_roundtrip l : base64Decode (base64Encode l) = Some l.
Proof.
  unfold base64Decode. revert l. fix IH 1. intros [|a [|b [|c l]]]; [done| | |].
  1-3: pose proof (byteZ_range a); try pose proof (byteZ_range b); try pose proof (byteZ_range c).
  - cbn [base64Encode]. rewrite !sextets_encode by (Z.div_mod_to_equations; lia). cbn. do 2 f_equal.
    apply byte_of_Z_eq. Z.div_mod_to_equations; lia.
  - cbn [base64Encode]. rewrite !sextets_encode by (Z.div_mod_to_equations; lia). cbn.
    do 2 f_equal; [|f_equal]; apply byte_of_Z_eq; Z.div_mod_to_equations; lia.
  - cbn [base64Encode]. rewrite !sextets_encode by (Z.div_mod_to_equations; lia). specialize (IH l).
    destruct (sextets (base64Encode l)) as [s|]; [|done]. cbn in IH |- *. rewrite IH. cbn.
    do 2 f_equal; [|f_equal; [|f_equal]]; apply byte_of_Z_eq; Z.div_mod_to_equations; lia.
Qed.

#[global] Instance base64Encode_inj : Inj (=) (=) base64Encode.
Proof. intros a b H. apply (inj Some). by rewrite <- !base64_roundtrip, H. Qed.

(** The characters of an encoding decode to something, so they are no separator. *)
Definition plainChar (b : byte) : Prop := is_Some (decodeChar b).

Lemma base64_plain l : Forall plainChar (base64Encode l).
Proof.
  revert l. fix IH 1. intros [|a [|b [|c l]]]; [constructor| | |].
  1-3: pose proof (byteZ_range a); try pose proof (byteZ_range b); try pose proof (byteZ_range c).
  all: cbn [base64Encode]; repeat (constructor; [unfold plainChar; rewrite decode_encodeChar by (Z.div_mod_to_equations; lia); done|]).
  - constructor.
  - constructor.
  - apply IH.
Qed.

Lemma plain_not b : plainChar b → b ≠ x20 ∧ b ≠ x0a ∧ b ≠ x0d.
Proof. intros [z Hz]. split_and!; by intros ->. Qed.

(** ** Decimal [uint64] *)

Definition digit (z : Z) : byte := byte_of_Z (48 + z).

(** [strconv.FormatUint(z, 10)]; twenty digits are enough for a [uint64]. *)
Fixpoint digits (fuel : nat) (z : Z) (acc : list byte) : list byte :=
  match fuel with
  | O => acc
  | S fuel => if z <? 10 then digit z :: acc else digits fuel (z / 10) (digit (z mod 10) :: acc)
  end.
Definition formatUint (z : Z) : list byte := digits 20 z [].

Definition isDigit (b : byte) : bool := (48 <=? byteZ b) && (byteZ b <=? 57).

(** The value of a string of digits; [strconv.ParseUint] fails above [u64_max]. *)
Definition digitsValue (l : list byte) : Z := foldl (λ v b, v * 10 + (byteZ b - 48)) 0 l.

Lemma byteZ_digit z : 0 ≤ z < 10 → byteZ (digit z) = 48 + z.
Proof. intros. unfold digit. rewrite byteZ_of_Z. apply Z.mod_small. lia. Qed.

Lemma isDigit_digit z : 0 ≤ z < 10 → isDigit (digit z) = true.
Proof. intros. unfold isDigit. rewrite byteZ_digit by done. apply andb_true_iff. split; apply Z.leb_le; lia. Qed.

Lemma digits_spec fuel : ∀ z acc,
  0 ≤ z < 10 ^ Z.of_nat fuel → (0 < fuel)%nat →
  ∃ l, digits fuel z acc = l ++ acc ∧ forallb isDigit l = true ∧ digitsValue l = z
    ∧ ∃ b t, l = b :: t ∧ (0 < z → b ≠ x30).
Proof.
  induction fuel as [|fuel IH]; intros z acc Hz Hf; [lia|]. cbn [digits]. destruct (z <? 10) eqn:E; bool_prop.
  - exists [digit z]. split_and!; [done| | |].
    + cbn. by rewrite isDigit_digit by lia.
    + unfold digitsValue. cbn [foldl]. rewrite byteZ_digit by lia. lia.
    + eexists _, _. split; [done|]. intros Hp Hx. apply (f_equal byteZ) in Hx. rewrite byteZ_digit in Hx by lia.
      replace (byteZ x30) with 48 in Hx by done. lia.
  - rewrite Nat2Z.inj_succ, Z.pow_succ_r in Hz by lia.
    destruct fuel as [|fuel]; [cbn in Hz; lia|].
    destruct (IH (z / 10) (digit (z mod 10) :: acc)) as (l & Hl & Hd & Hv & b & t & Hb & Hnz).
    { split; [apply Z.div_pos; lia|]. apply Z.div_lt_upper_bound; lia. }
    { lia. }
    exists (l ++ [digit (z mod 10)]). split_and!.
    + rewrite Hl, <- app_assoc. done.
    + rewrite forallb_app, Hd. cbn. by rewrite isDigit_digit by (apply Z.mod_pos_bound; lia).
    + unfold digitsValue in *. rewrite foldl_app. cbn [foldl]. rewrite Hv, byteZ_digit by (apply Z.mod_pos_bound; lia).
      Z.div_mod_to_equations. lia.
    + subst l. eexists _, _. split; [done|]. intros _. apply Hnz. Z.div_mod_to_equations. lia.
Qed.

Lemma formatUint_spec z :
  is_u64 z → 0 < z →
  forallb isDigit (formatUint z) = true ∧ digitsValue (formatUint z) = z
  ∧ ∃ b t, formatUint z = b :: t ∧ b ≠ x30.
Proof.
  intros [Hz1 Hz2] Hp. destruct (digits_spec 20 z []) as (l & Hl & Hd & Hv & b & t & Hb & Hnz).
  { split; [done|]. etrans; [exact Hz2|]. by vm_compute. }
  { lia. }
  unfold formatUint. rewrite Hl, app_nil_r. eauto 10.
Qed.

(** ** [strings.Split] at one byte *)

Fixpoint splitAt (sep : byte) (l : list byte) : list (list byte) :=
  match l with
  | [] => [[]]
  | b :: l =>
      if bool_decide (b = sep) then [] :: splitAt sep l
      else match splitAt sep l with
           | f :: fs => (b :: f) :: fs
           | [] => [[b]]
           end
  end.

Fixpoint joinWith (sep : byte) (fs : list (list byte)) : list byte :=
  match fs with
  | [] => []
  | [f] => f
  | f :: fs => f ++ sep :: joinWith sep fs
  end.

Lemma splitAt_field sep f l : sep ∉ f → splitAt sep (f ++ sep :: l) = f :: splitAt sep l.
Proof.
  induction f as [|b f IH]; intros Hs; cbn; [by rewrite bool_decide_true|].
  apply not_elem_of_cons in Hs as [? ?]. rewrite bool_decide_false by done. by rewrite IH.
Qed.

Lemma splitAt_last sep f : sep ∉ f → splitAt sep f = [f].
Proof.
  induction f as [|b f IH]; intros Hs; [done|]. cbn.
  apply not_elem_of_cons in Hs as [? ?]. rewrite bool_decide_false by done. by rewrite IH.
Qed.

Lemma split_join sep fs : fs ≠ [] → Forall (λ f, sep ∉ f) fs → splitAt sep (joinWith sep fs) = fs.
Proof.
  intros Hne Hall. induction Hall as [|f fs Hf Hfs IH]; [done|].
  destruct fs as [|g fs]; [by apply splitAt_last|].
  change (joinWith sep (f :: g :: fs)) with (f ++ sep :: joinWith sep (g :: fs)).
  rewrite splitAt_field by done. by rewrite IH.
Qed.

Lemma digit_not b : isDigit b = true → b ≠ x20 ∧ b ≠ x0a ∧ b ≠ x0d.
Proof. intros H. split_and!; intros ->; by vm_compute in H. Qed.
