(* ===== verification/Entry.v ===== *)
(** * Login tickets and gateway proofs

    [src/tooling/entry]: the types and validation ([types.go], [validation.go]),
    the proof line of a gateway connection ([proof.go]), the session registry
    ([registry.go]), the login service ([service.go], [commands.go]) and its
    client ([client.go]).

    Secrets are byte slices that are shared between the registry's maps and
    overwritten with zeros when they are given up, so the registry has a heap and
    its entries hold addresses.  The MAC is an argument; random bytes are
    arguments, [None] where the generator fails.  Every method of the registry
    holds its mutex; the readings of its clock are arguments. *)

From stdpp Require Import prelude gmap strings list.
From Stdlib Require Import ZArith Lia Strings.Byte.
From S2P Require Import Prelude Types GoText Bytes Encoding.

Local Open Scope Z_scope.

Inductive entryError :=
| ErrInvalidConfig | ErrInvalidIdentity | ErrInvalidTicket | ErrUnauthorized | ErrTicketExpired | ErrSessionRevoked
| ErrInvalidProof | ErrProofReplay | ErrSessionCapacity
| ErrRandom                     (** the random generator failed *)
| ErrOther (e : rtError).

Abbreviation SecretRef := string (only parsing).
Abbreviation ConnectionID := string (only parsing).

Record AuthIdentity := mkIdentity { AccountID : string; PlayerID : string; Server : string }.
#[global] Instance AuthIdentity_eq_dec : EqDecision AuthIdentity.
Proof. solve_decision. Defined.

Record LoginTicket := mkTicket {
  tUID : string; tSubID : string; tServer : string; tSecretRef : SecretRef; tGeneration : Z; tExpiresAt : Time
}.
#[global] Instance LoginTicket_eq_dec : EqDecision LoginTicket.
Proof. solve_decision. Defined.

Record TicketIssue := mkIssue { Ticket : LoginTicket; ReplacedConnectionID : ConnectionID }.
Record SessionIdentity := mkSession { sUID : string; sSubID : string; sPlayerID : string; sServer : string; sGeneration : Z }.
#[global] Instance SessionIdentity_eq_dec : EqDecision SessionIdentity.
Proof. solve_decision. Defined.
Record GatewayProof := mkProof {
  pUID : string; pSubID : string; pServer : string; pGeneration : Z; pSequence : Z; MAC : list byte
}.
#[global] Instance GatewayProof_eq_dec : EqDecision GatewayProof.
Proof. solve_decision. Defined.
Record SessionBinding := mkBinding { Identity : SessionIdentity; bReplaced : ConnectionID }.

(** ** Validation *)

Definition validText (value : string) : bool := ValidString value && negb (blank value).
Definition validIdentity (i : AuthIdentity) : bool :=
  validText (AccountID i) && validText (PlayerID i) && validText (Server i).
Definition validTicket (t : LoginTicket) : bool :=
  validText (tUID t) && validText (tSubID t) && validText (tServer t) && bool_decide (tSecretRef t ≠ "")
  && negb (tGeneration t =? 0) && negb (tExpiresAt t =? 0).
Definition validProofFields (p : GatewayProof) : bool :=
  validText (pUID p) && validText (pSubID p) && validText (pServer p)
  && negb (pGeneration p =? 0) && negb (pSequence p =? 0).

(** ** The proof line *)

Definition proofPrefix : string := "GSR-Gateway-Proof-v1".
Definition maxAuthLine : Z := 4096.
Definition macSize : Z := 32.

Definition encodedText (value : string) : list byte := base64Encode (bytes_of value).

Definition decodedText (value : list byte) : option string :=
  match base64Decode value with
  | None => None
  | Some decoded => let text := string_of decoded in if validText text then Some text else None
  end.

Definition canonicalUint (value : list byte) : option Z :=
  match value with
  | [] => None
  | b :: rest =>
      if bool_decide (rest ≠ []) && bool_decide (b = x30) then None
      else if negb (forallb isDigit value) then None
      else let parsed := digitsValue value in
           if (parsed <=? u64_max) && negb (parsed =? 0) then Some parsed else None
  end.

(** The bytes under the MAC; every line ends with a line feed. *)
Definition gatewayProofInput (p : GatewayProof) : list byte :=
  bytes_of proofPrefix ++ x0a :: bytes_of "uid=" ++ encodedText (pUID p)
  ++ x0a :: bytes_of "subid=" ++ encodedText (pSubID p)
  ++ x0a :: bytes_of "server=" ++ encodedText (pServer p)
  ++ x0a :: bytes_of "generation=" ++ formatUint (pGeneration p)
  ++ x0a :: bytes_of "sequence=" ++ formatUint (pSequence p) ++ [x0a].

Definition FormatAuthLine (p : GatewayProof) : res entryError (list byte) :=
  if negb (validProofFields p) || negb (len (MAC p) =? macSize) then Err ErrInvalidProof
  else
    let line := bytes_of "AUTH" ++ x20 :: encodedText (pUID p) ++ x20 :: encodedText (pSubID p)
                ++ x20 :: encodedText (pServer p) ++ x20 :: formatUint (pGeneration p)
                ++ x20 :: formatUint (pSequence p) ++ x20 :: base64Encode (MAC p) ++ [x0a] in
    if maxAuthLine <? len line then Err ErrInvalidProof else Ok line.

(** [strings.HasSuffix(line, "\n")] and [strings.TrimSuffix]. *)
Definition trimLine (line : list byte) : option (list byte) :=
  match reverse line with
  | b :: rest => if bool_decide (b = x0a) then Some (reverse rest) else None
  | [] => None
  end.

Definition ParseAuthLine (line : list byte) : res entryError GatewayProof :=
  match trimLine line with
  | None => Err ErrInvalidProof
  | Some body =>
      if (maxAuthLine <? len line) || bool_decide (x0d ∈ line) then Err ErrInvalidProof
      else
        match splitAt x20 body with
        | [f0; f1; f2; f3; f4; f5; f6] =>
            if bool_decide (f0 ≠ bytes_of "AUTH") then Err ErrInvalidProof
            else
              match decodedText f1, decodedText f2, decodedText f3, canonicalUint f4, canonicalUint f5, base64Decode f6 with
              | Some uid, Some subID, Some server, Some generation, Some sequence, Some mac =>
                  if negb (len mac =? macSize) then Err ErrInvalidProof
                  else let p := mkProof uid subID server generation sequence mac in
                       if validProofFields p then Ok p else Err ErrInvalidProof
              | _, _, _, _, _, _ => Err ErrInvalidProof
              end
        | _ => Err ErrInvalidProof
        end
  end.

Section Mac.
(** HMAC-SHA256: a key, a message, 32 bytes. *)
Context (hmac : list byte → list byte → list byte).

(** A nil MAC is the empty list. *)
Definition SignGatewayProof (secret : list byte) (p : GatewayProof) : GatewayProof :=
  mkProof (pUID p) (pSubID p) (pServer p) (pGeneration p) (pSequence p)
    (if (len secret <? macSize) || negb (validProofFields p) then [] else hmac secret (gatewayProofInput p)).

Definition VerifyGatewayProof (secret : list byte) (p : GatewayProof) : bool :=
  if (len secret <? macSize) || negb (validProofFields p) || negb (len (MAC p) =? macSize) then false
  else bool_decide (MAC (SignGatewayProof secret (mkProof (pUID p) (pSubID p) (pServer p) (pGeneration p) (pSequence p) []))
                    = MAC p).
End Mac.

(** ** The session registry *)

Record secretMaterial := mkMaterial { smIdentity : AuthIdentity; smSecret : Z; smExpires : Time }.
Record sessionRecord := mkRecord {
  srTicket : LoginTicket; srIdentity : AuthIdentity; srSecret : Z; srLastSeq : Z; srConnection : ConnectionID
}.

(** A [sessionKey] is the pair of uid and server. *)
Abbreviation sessionKey := (string * string)%type (only parsing).

Record InMemorySessionRegistry := mkRegistry {
  capacity : Z;
  pending : gmap SecretRef secretMaterial;
  sessions : gmap sessionKey sessionRecord;
  heap : gmap Z (list byte);      (** the slices of secrets, by address *)
  nextAddr : Z
}.

Definition defaultRegistryCapacity : Z := 1024.

Definition NewInMemorySessionRegistry (c : Z) : res entryError InMemorySessionRegistry :=
  if c <? 0 then Err ErrInvalidConfig
  else Ok (mkRegistry (if c =? 0 then defaultRegistryCapacity else c) ∅ ∅ ∅ 0).

Definition set_pending v r := mkRegistry (capacity r) v (sessions r) (heap r) (nextAddr r).
Definition set_sessions v r := mkRegistry (capacity r) (pending r) v (heap r) (nextAddr r).
Definition set_heap v r := mkRegistry (capacity r) (pending r) (sessions r) v (nextAddr r).

Definition secretAt (r : InMemorySessionRegistry) (a : Z) : list byte := default [] (heap r !! a).

(** [zero]. *)
Definition zero (a : Z) (r : InMemorySessionRegistry) : InMemorySessionRegistry :=
  set_heap (alter (λ l, replicate (length l) x00) a (heap r)) r.
Definition zeroAll (addrs : list Z) (r : InMemorySessionRegistry) : InMemorySessionRegistry := foldr zero r addrs.

Definition pruneExpired (now : Time) (r : InMemorySessionRegistry) : InMemorySessionRegistry :=
  let deadPending := filter (λ e, ¬ now < smExpires e.2) (pending r) in
  let deadSessions := filter (λ e, ¬ now < tExpiresAt (srTicket e.2)) (sessions r) in
  zeroAll ((smSecret <$> (map_to_list deadPending).*2) ++ (srSecret <$> (map_to_list deadSessions).*2))
    (set_sessions (filter (λ e, now < tExpiresAt (srTicket e.2)) (sessions r))
       (set_pending (filter (λ e, now < smExpires e.2) (pending r)) r)).

(** [newSecretRef] and [newOpaqueID]: the encoding of random bytes. *)
Definition opaque (random : option (list byte)) : option string := (λ l, string_of (base64Encode l)) <$> random.

Definition StoreSecret (now later : Time) (random : option (list byte)) (identity : AuthIdentity) (secret : list byte)
    (expiresAt : Time) (r : InMemorySessionRegistry) : InMemorySessionRegistry * res entryError SecretRef :=
  if negb (validIdentity identity) || (len secret <? 32) || (expiresAt =? 0) || negb (now <? expiresAt)
  then (r, Err ErrInvalidIdentity)
  else
    let r := pruneExpired later r in
    if capacity r <=? Z.of_nat (size (pending r)) + Z.of_nat (size (sessions r)) then (r, Err ErrSessionCapacity)
    else
      match opaque random with
      | None => (r, Err ErrRandom)
      | Some ref =>
          (mkRegistry (capacity r) (<[ref := mkMaterial identity (nextAddr r) expiresAt]> (pending r)) (sessions r)
             (<[nextAddr r := secret]> (heap r)) (nextAddr r + 1), Ok ref)
      end.

Definition DiscardSecret (ref : SecretRef) (r : InMemorySessionRegistry) : InMemorySessionRegistry :=
  match pending r !! ref with
  | Some m => zero (smSecret m) (set_pending (delete ref (pending r)) r)
  | None => set_pending (delete ref (pending r)) r
  end.

(** The loop of [Current], in the order the map yields its records. *)
Definition newest (identity : AuthIdentity) (l : list sessionRecord) : option LoginTicket :=
  foldl (λ cur s,
    if bool_decide (AccountID (srIdentity s) = AccountID identity) && bool_decide (Server (srIdentity s) = Server identity)
       && match cur with None => true | Some c => tGeneration c <? tGeneration (srTicket s) end
    then (if tGeneration (srTicket s) =? 0 then None else Some (srTicket s)) else cur) None l.

(** The order in which a range over the sessions yields them. *)
Class SessionOrder := {
  inOrder : gmap sessionKey sessionRecord → list sessionRecord;
  inOrder_perm m : inOrder m ≡ₚ (map_to_list m).*2
}.

Section Order.
Context {SO : SessionOrder}.

Definition Current (now : Time) (identity : AuthIdentity) (r : InMemorySessionRegistry)
  : InMemorySessionRegistry * option LoginTicket :=
  if negb (validIdentity identity) then (r, None)
  else let r := pruneExpired now r in (r, newest identity (inOrder (sessions r))).
End Order.

(** Revoking [previous] when it is still the current ticket. *)
Definition revokePrevious (previous : option LoginTicket) (r : InMemorySessionRegistry)
  : InMemorySessionRegistry * ConnectionID :=
  match previous with
  | None => (r, "")
  | Some p =>
      match sessions r !! (tUID p, tServer p) with
      | Some old =>
          if (tGeneration (srTicket old) =? tGeneration p) && bool_decide (tSubID (srTicket old) = tSubID p)
          then (zero (srSecret old) (set_sessions (delete (tUID p, tServer p) (sessions r)) r), srConnection old)
          else (r, "")
      | None => (r, "")
      end
  end.

Definition Replace (now : Time) (t : LoginTicket) (identity : AuthIdentity) (previous : option LoginTicket)
    (r : InMemorySessionRegistry) : InMemorySessionRegistry * res entryError ConnectionID :=
  if negb (validTicket t) || negb (validIdentity identity) || bool_decide (tServer t ≠ Server identity)
  then (r, Err ErrInvalidTicket)
  else if match previous with Some p => negb (validTicket p) | None => false end then (r, Err ErrInvalidTicket)
  else
    match pending r !! tSecretRef t with
    | None => (r, Err ErrUnauthorized)
    | Some material =>
        if bool_decide (smIdentity material ≠ identity) || negb (smExpires material =? tExpiresAt t)
        then (r, Err ErrUnauthorized)
        else if negb (now <? tExpiresAt t) then (r, Err ErrTicketExpired)
        else
          let '(r, replaced) := revokePrevious previous r in
          let r := set_pending (delete (tSecretRef t) (pending r)) r in
          let key := (tUID t, tServer t) in
          let r := match sessions r !! key with Some old => zero (srSecret old) r | None => r end in
          (set_sessions (<[key := mkRecord t identity (smSecret material) 0 ""]> (sessions r)) r, Ok replaced)
    end.

Definition Issue (now : Time) (t : LoginTicket) (identity : AuthIdentity) (r : InMemorySessionRegistry)
  : InMemorySessionRegistry * error entryError :=
  let '(r, e) := Replace now t identity None r in (r, match e with Ok _ => None | Err e => Some e end).

Section Verify.
Context (hmac : list byte → list byte → list byte).

Definition VerifyAndBind (now : Time) (p : GatewayProof) (connectionID : ConnectionID) (r : InMemorySessionRegistry)
  : InMemorySessionRegistry * res entryError SessionBinding :=
  if negb (validProofFields p) || negb (validText connectionID) then (r, Err ErrInvalidProof)
  else
    let key := (pUID p, pServer p) in
    match sessions r !! key with
    | None => (r, Err ErrSessionRevoked)
    | Some s =>
        if negb (now <? tExpiresAt (srTicket s))
        then (zero (srSecret s) (set_sessions (delete key (sessions r)) r), Err ErrTicketExpired)
        else if bool_decide (tSubID (srTicket s) ≠ pSubID p) || negb (tGeneration (srTicket s) =? pGeneration p)
                || negb (VerifyGatewayProof hmac (secretAt r (srSecret s)) p)
        then (r, Err ErrInvalidProof)
        else if pSequence p <=? srLastSeq s then (r, Err ErrProofReplay)
        else
          (set_sessions (<[key := mkRecord (srTicket s) (srIdentity s) (srSecret s) (pSequence p) connectionID]> (sessions r)) r,
           Ok (mkBinding (mkSession (tUID (srTicket s)) (tSubID (srTicket s)) (PlayerID (srIdentity s)) (tServer (srTicket s))
                            (tGeneration (srTicket s))) (srConnection s)))
    end.
End Verify.

Definition IsBound (now : Time) (i : SessionIdentity) (connectionID : ConnectionID) (r : InMemorySessionRegistry)
  : InMemorySessionRegistry * bool :=
  if negb (validText (sUID i)) || negb (validText (sSubID i)) || negb (validText (sPlayerID i)) || negb (validText (sServer i))
     || (sGeneration i =? 0) || negb (validText connectionID)
  then (r, false)
  else
    let r := pruneExpired now r in
    (r, match sessions r !! (sUID i, sServer i) with
        | Some s => bool_decide (tSubID (srTicket s) = sSubID i) && (tGeneration (srTicket s) =? sGeneration i)
                    && bool_decide (PlayerID (srIdentity s) = sPlayerID i) && bool_decide (srConnection s = connectionID)
        | None => false
        end).

Definition Unbind (connectionID : ConnectionID) (generation : Z) (r : InMemorySessionRegistry) : InMemorySessionRegistry :=
  if negb (validText connectionID) || (generation =? 0) then r
  else set_sessions ((λ s, if (tGeneration (srTicket s) =? generation) && bool_decide (srConnection s = connectionID)
                           then mkRecord (srTicket s) (srIdentity s) (srSecret s) (srLastSeq s) "" else s) <$> sessions r) r.

Definition Revoke (uid server : string) (generation : Z) (r : InMemorySessionRegistry)
  : InMemorySessionRegistry * ConnectionID :=
  if negb (validText uid) || negb (validText server) || (generation =? 0) then (r, "")
  else
    match sessions r !! (uid, server) with
    | Some s => if tGeneration (srTicket s) =? generation
                then (zero (srSecret s) (set_sessions (delete (uid, server) (sessions r)) r), srConnection s)
                else (r, "")
    | None => (r, "")
    end.

Definition Connection (now : Time) (uid server : string) (r : InMemorySessionRegistry)
  : InMemorySessionRegistry * ConnectionID :=
  let r := pruneExpired now r in
  (r, match sessions r !! (uid, server) with Some s => srConnection s | None => "" end).

(** ** The login service *)

(** What the service needs of a registry. *)
Class TicketRegistry (W : Type) := {
  regCurrent : AuthIdentity → W → W * option LoginTicket;
  regReplace : LoginTicket → AuthIdentity → option LoginTicket → W → W * res entryError ConnectionID
}.

Record IssueTicket := mkIssueTicket { itIdentity : AuthIdentity; itSecretRef : SecretRef; itExpiresAt : Time }.

(** An [accountServerKey] is a pair. *)
Record loginService := mkLogin { current : gmap (string * string) LoginTicket }.

Definition NewLoginService (registryNil : bool) : res entryError loginService :=
  if registryNil then Err ErrInvalidConfig else Ok (mkLogin ∅).

(** The clock of the service and its two random identifiers. *)
Record issueInput := mkIssueInput { svcNow : Time; uidBytes : option (list byte); subBytes : option (list byte) }.

Definition nextGeneration (previous : option LoginTicket) : Z :=
  match previous with
  | None => 1
  | Some p => let g := u64_succ (tGeneration p) in if g =? 0 then 1 else g
  end.

Section Login.
Context {W : Type} {TR : TicketRegistry W}.

Definition issue (i : issueInput) (q : IssueTicket) (s : loginService) (w : W)
  : loginService * W * res entryError TicketIssue :=
  if negb (validIdentity (itIdentity q)) || bool_decide (itSecretRef q = "") || (itExpiresAt q =? 0)
  then (s, w, Err ErrInvalidTicket)
  else if negb (svcNow i <? itExpiresAt q) then (s, w, Err ErrTicketExpired)
  else
    let key := (AccountID (itIdentity q), Server (itIdentity q)) in
    let '(w, previous) := match current s !! key with
                          | Some t => (w, Some t)
                          | None => regCurrent (itIdentity q) w
                          end in
    match opaque (uidBytes i) with
    | None => (s, w, Err ErrRandom)
    | Some uid =>
        match opaque (subBytes i) with
        | None => (s, w, Err ErrRandom)
        | Some subID =>
            let ticket := mkTicket uid subID (Server (itIdentity q)) (itSecretRef q) (nextGeneration previous) (itExpiresAt q) in
            let '(w, r) := regReplace ticket (itIdentity q) previous w in
            match r with
            | Err e => (s, w, Err e)
            | Ok replaced => (mkLogin (<[key := ticket]> (current s)), w, Ok (mkIssue ticket replaced))
            end
        end
    end.

Inductive responseError :=
| responseOK | responseInvalidIdentity | responseInvalidTicket | responseUnauthorized | responseTicketExpired
| responseSessionRevoked | responseInvalidProof | responseProofReplay | responseSessionCapacity.

Definition responseFromError (e : error entryError) : responseError :=
  match e with
  | None => responseOK
  | Some ErrInvalidIdentity => responseInvalidIdentity
  | Some ErrInvalidTicket => responseInvalidTicket
  | Some ErrUnauthorized => responseUnauthorized
  | Some ErrTicketExpired => responseTicketExpired
  | Some ErrSessionRevoked => responseSessionRevoked
  | Some ErrInvalidProof => responseInvalidProof
  | Some ErrProofReplay => responseProofReplay
  | Some _ => responseSessionCapacity
  end.

Definition errorFromResponse (c : responseError) : error entryError :=
  match c with
  | responseOK => None
  | responseInvalidIdentity => Some ErrInvalidIdentity
  | responseInvalidTicket => Some ErrInvalidTicket
  | responseUnauthorized => Some ErrUnauthorized
  | responseTicketExpired => Some ErrTicketExpired
  | responseSessionRevoked => Some ErrSessionRevoked
  | responseInvalidProof => Some ErrInvalidProof
  | responseProofReplay => Some ErrProofReplay
  | responseSessionCapacity => Some ErrSessionCapacity
  end.

Definition zeroIssue : TicketIssue := mkIssue (mkTicket "" "" "" "" 0 0) "".

Inductive loginCommand := IssueTicketCommand (q : IssueTicket) | BadIssuePayload | UnknownLoginCommand.

(** A reply, or the error of an unknown command. *)
Definition loginHandle (i : issueInput) (c : loginCommand) (s : loginService) (w : W)
  : loginService * W * res entryError (TicketIssue * responseError) :=
  match c with
  | IssueTicketCommand q =>
      let '(s, w, r) := issue i q s w in
      (s, w, Ok (match r with Ok t => (t, responseOK) | Err e => (zeroIssue, responseFromError (Some e)) end))
  | BadIssuePayload => (s, w, Ok (zeroIssue, responseInvalidTicket))
  | UnknownLoginCommand => (s, w, Err (ErrOther (Sentinel ErrUnknownCommand)))
  end.
End Login.

(** ** The client *)

Section Client.
(** [Ok None] is a value of another type. *)
Context {W : Type} (call : IssueTicket → W → W * res rtError (option (TicketIssue * responseError))).

Definition ClientIssue (ctxNil : bool) (q : IssueTicket) (w : W) : W * res entryError TicketIssue :=
  if ctxNil || negb (validIdentity (itIdentity q)) || bool_decide (itSecretRef q = "") || (itExpiresAt q =? 0)
  then (w, Err ErrInvalidTicket)
  else
    let '(w, r) := call q w in
    (w, match r with
        | Err e => Err (ErrOther e)
        | Ok None => Err ErrUnauthorized
        | Ok (Some (iss, code)) =>
            match errorFromResponse code with
            | Some e => Err e
            | None =>
                let t := Ticket iss in
                if negb (validTicket t) || bool_decide (tServer t ≠ Server (itIdentity q))
                   || bool_decide (tSecretRef t ≠ itSecretRef q) || negb (tExpiresAt t =? itExpiresAt q)
                then Err ErrUnauthorized else Ok iss
            end
        end).
End Client.
