(* ===== verification/EntryInv.v ===== *)
(** * The proof line and the bytes under the MAC

    The auth line of a gateway connection is parsed back to the proof it was made
    of, and the message under the MAC determines the proof, so a MAC stands for
    one proof. *)

From stdpp Require Import prelude gmap strings list.
From Stdlib Require Import ZArith Lia Strings.Byte.
From S2P Require Import Prelude Types Bytes GoText Encoding Entry.

Local Open Scope Z_scope.

(** A field of the line: characters that no separator is. *)
Definition clean (f : list byte) : Prop := x20 ∉ f ∧ x0a ∉ f ∧ x0d ∉ f.

Lemma clean_base64 l : clean (base64Encode l).
Proof.
  pose proof (base64_plain l) as H. rewrite Forall_forall in H.
  split_and!; intros Hin; by destruct (plain_not _ (H _ Hin)) as (? & ? & ?).
Qed.

Lemma clean_digits l : forallb isDigit l = true → clean l.
Proof.
  intros H. rewrite forallb_forall in H.
  split_and!; intros Hin%list_elem_of_In; by destruct (digit_not _ (H _ Hin)) as (? & ? & ?).
Qed.

Lemma clean_uint z : is_u64 z → 0 < z → clean (formatUint z).
Proof. intros Hz Hp. apply clean_digits. by destruct (formatUint_spec z Hz Hp). Qed.

Lemma decoded_encoded s : validText s = true → decodedText (encodedText s) = Some s.
Proof.
  intros H. unfold decodedText, encodedText. rewrite base64_roundtrip, string_of_bytes_of. by rewrite H.
Qed.

Lemma canonical_format z : is_u64 z → 0 < z → canonicalUint (formatUint z) = Some z.
Proof.
  intros Hz Hp. destruct (formatUint_spec z Hz Hp) as (Hd & Hv & b & t & Hb & Hnz).
  unfold canonicalUint. rewrite Hb in *. rewrite (bool_decide_false (b = x30)) by done. rewrite andb_false_r, Hd. cbn [negb].
  rewrite Hv. destruct Hz. rewrite (proj2 (Z.leb_le _ _)) by (unfold u64_max in *; lia).
  rewrite (proj2 (Z.eqb_neq _ _)) by lia. done.
Qed.

Lemma trimLine_snoc l : trimLine (l ++ [x0a]) = Some l.
Proof. unfold trimLine. rewrite reverse_snoc, bool_decide_true by done. by rewrite reverse_involutive. Qed.

(** The line is its fields, joined. *)
Definition authFields (p : GatewayProof) : list (list byte) :=
  [bytes_of "AUTH"; encodedText (pUID p); encodedText (pSubID p); encodedText (pServer p);
   formatUint (pGeneration p); formatUint (pSequence p); base64Encode (MAC p)].

Record proofOk (p : GatewayProof) : Prop := mkProofOk {
  po_uid : validText (pUID p) = true;
  po_sub : validText (pSubID p) = true;
  po_server : validText (pServer p) = true;
  po_gen : 0 < pGeneration p;
  po_seq : 0 < pSequence p
}.

Lemma validProofFields_ok p :
  is_u64 (pGeneration p) → is_u64 (pSequence p) → validProofFields p = true → proofOk p.
Proof.
  intros [Hg _] [Hs _] H. unfold validProofFields in H. bool_prop. constructor; done || lia.
Qed.

Lemma authFields_clean p :
  is_u64 (pGeneration p) → is_u64 (pSequence p) → proofOk p → Forall clean (authFields p).
Proof.
  intros Hg Hs [? ? ? ? ?]. unfold authFields, encodedText.
  repeat constructor; try apply clean_base64; try (by apply clean_uint).
  all: apply (bool_decide_unpack _); by vm_compute.
Qed.

Lemma joinWith_elem sep (fs : list (list byte)) x : x ≠ sep → Forall (λ f, x ∉ f) fs → x ∉ joinWith sep fs.
Proof.
  intros Hx H. induction H as [|f fs Hf Hfs IH]; [set_solver|]. destruct fs as [|g fs]; [done|].
  change (joinWith sep (f :: g :: fs)) with (f ++ sep :: joinWith sep (g :: fs)). set_solver.
Qed.

(** The gateway's auth line round-trips: parsing what [FormatAuthLine] wrote
    gives back the proof, field by field and byte by byte of the MAC. *)
Theorem auth_line_roundtrip p line :
  is_u64 (pGeneration p) → is_u64 (pSequence p) →
  FormatAuthLine p = Ok line → ParseAuthLine line = Ok p.
Proof.
  intros Hg Hs H. unfold FormatAuthLine in H.
  destruct (validProofFields p) eqn:Hv; [|done]. destruct (len (MAC p) =? macSize) eqn:Hm; [|done]. cbn [negb orb] in H.
  match type of H with context [maxAuthLine <? len ?l] =>
    assert (l = joinWith x20 (authFields p) ++ [x0a]) as Hl end.
  { unfold authFields, joinWith. repeat (rewrite <- !app_assoc; cbn [app]). done. }
  rewrite Hl in H. destruct (maxAuthLine <? len _) eqn:Hmax in H; [done|]. assert (line = joinWith x20 (authFields p) ++ [x0a]) as -> by congruence. clear H Hl.
  pose proof (validProofFields_ok _ Hg Hs Hv) as Hok.
  pose proof (authFields_clean _ Hg Hs Hok) as Hclean.
  unfold ParseAuthLine. rewrite trimLine_snoc, Hmax.
  rewrite bool_decide_false.
  2: { rewrite elem_of_app. intros [Hin|Hin]; [|by apply list_elem_of_singleton in Hin].
       revert Hin. apply joinWith_elem; [done|]. eapply Forall_impl; [exact Hclean|]. by intros f (_ & _ & ?). }
  cbn [orb]. rewrite split_join; [|done|eapply Forall_impl; [exact Hclean|by intros f (? & _ & _)]].
  unfold authFields. rewrite bool_decide_false by auto. destruct Hok.
  rewrite !decoded_encoded, !canonical_format, base64_roundtrip by done. rewrite Hm. cbn [negb].
  destruct p as [uid sub server g s mac]. cbn in *. by rewrite Hv.
Qed.

Definition sampleProof : GatewayProof := mkProof "u" "s" "srv" 7 18446744073709551615 (replicate 32 xab).

Lemma auth_line_roundtrip_witness :
  ∃ line, FormatAuthLine sampleProof = Ok line ∧ ParseAuthLine line = Ok sampleProof.
Proof.
  eexists. split; [vm_compute; reflexivity|].
  apply (auth_line_roundtrip sampleProof); [by vm_compute; split|by vm_compute; split|by vm_compute].
Defined.

(** ** The bytes under the MAC *)

Definition inputFields (p : GatewayProof) : list (list byte) :=
  [bytes_of proofPrefix; bytes_of "uid=" ++ encodedText (pUID p); bytes_of "subid=" ++ encodedText (pSubID p);
   bytes_of "server=" ++ encodedText (pServer p); bytes_of "generation=" ++ formatUint (pGeneration p);
   bytes_of "sequence=" ++ formatUint (pSequence p); []].

Lemma gatewayProofInput_join p : gatewayProofInput p = joinWith x0a (inputFields p).
Proof. unfold gatewayProofInput, inputFields, joinWith. repeat (rewrite <- !app_assoc; cbn [app]). done. Qed.

Lemma inputFields_clean p :
  is_u64 (pGeneration p) → is_u64 (pSequence p) → proofOk p → Forall (λ f, x0a ∉ f) (inputFields p).
Proof.
  intros Hg Hs [? ? ? ? ?]. unfold inputFields, encodedText.
  assert (∀ l f, bool_decide (x0a ∉ bytes_of l) = true → clean f → x0a ∉ bytes_of l ++ f) as Happ.
  { intros l f Hl%bool_decide_eq_true (_ & ? & _). set_solver. }
  repeat constructor; try (apply Happ; [done|]); try apply clean_base64; try (by apply clean_uint); [|set_solver].
  apply (bool_decide_unpack _). by vm_compute.
Qed.

Lemma formatUint_inj a b : is_u64 a → is_u64 b → 0 < a → 0 < b → formatUint a = formatUint b → a = b.
Proof.
  intros Ha Hb Pa Pb H. destruct (formatUint_spec a Ha Pa) as (_ & <- & _).
  destruct (formatUint_spec b Hb Pb) as (_ & <- & _). by rewrite H.
Qed.

Lemma encodedText_inj a b : encodedText a = encodedText b → a = b.
Proof. unfold encodedText. intros H%(inj base64Encode). rewrite <- (string_of_bytes_of a), <- (string_of_bytes_of b). by rewrite H. Qed.

(** The message under a proof's MAC determines the proof: two valid proofs with
    the same message agree in user, sub-session, server, generation and sequence.
    So a MAC made for one proof is never computed over the bytes of another. *)
Theorem proof_input_injective p q :
  is_u64 (pGeneration p) → is_u64 (pSequence p) → is_u64 (pGeneration q) → is_u64 (pSequence q) →
  validProofFields p = true → validProofFields q = true →
  gatewayProofInput p = gatewayProofInput q →
  (pUID p, pSubID p, pServer p, pGeneration p, pSequence p) = (pUID q, pSubID q, pServer q, pGeneration q, pSequence q).
Proof.
  intros Hg Hs Hg' Hs' Hv Hv' H.
  pose proof (validProofFields_ok _ Hg Hs Hv) as Hp. pose proof (validProofFields_ok _ Hg' Hs' Hv') as Hq.
  rewrite !gatewayProofInput_join in H.
  apply (f_equal (splitAt x0a)) in H. rewrite !split_join in H; try done; [|by apply inputFields_clean..].
  unfold inputFields in H.
  assert (∀ l a b : list byte, l ++ a = l ++ b → a = b) as Hinv by (intros; by eapply app_inv_head).
  pose proof (Hinv _ _ _ (f_equal (λ l, nth 1 l []) H)) as H1%encodedText_inj.
  pose proof (Hinv _ _ _ (f_equal (λ l, nth 2 l []) H)) as H2%encodedText_inj.
  pose proof (Hinv _ _ _ (f_equal (λ l, nth 3 l []) H)) as H3%encodedText_inj.
  pose proof (Hinv _ _ _ (f_equal (λ l, nth 4 l []) H)) as H4.
  pose proof (Hinv _ _ _ (f_equal (λ l, nth 5 l []) H)) as H5.
  destruct Hp, Hq. apply formatUint_inj in H4, H5; [|done..]. congruence.
Qed.

(** The same proof before and after it was signed. *)
Lemma proof_input_injective_witness :
  let unsigned := mkProof "u" "s" "srv" 7 18446744073709551615 [] in
  gatewayProofInput sampleProof = gatewayProofInput unsigned
  ∧ (pUID sampleProof, pSubID sampleProof, pServer sampleProof, pGeneration sampleProof, pSequence sampleProof)
    = (pUID unsigned, pSubID unsigned, pServer unsigned, pGeneration unsigned, pSequence unsigned).
Proof.
  split; [by vm_compute|].
  refine (proof_input_injective sampleProof (mkProof "u" "s" "srv" 7 18446744073709551615 []) _ _ _ _ _ _ _).
  1-4: by vm_compute; split.
  all: by vm_compute.
Defined.

(** * The invariant of the login system

    A registry and the login service in front of it, under every operation the program
    performs on them: tickets are issued through the login service alone, the only
    caller of [Replace], and [Issue] of the registry, which has no caller, is left out.
    Two invariants: of the heap (who owns which secret, and what it
    holds), and of the tickets (one session per account and server, known to the
    login service). *)

(** ** The heap *)

(** What was stored: identity, secret, expiry. *)
Definition history : Type := list (AuthIdentity * list byte * Time).

Definition live (r : InMemorySessionRegistry) (a : Z) : Prop :=
  (∃ ref m, pending r !! ref = Some m ∧ smSecret m = a) ∨ (∃ k s, sessions r !! k = Some s ∧ srSecret s = a).

Record heap_inv (h : history) (r : InMemorySessionRegistry) : Prop := mkHeapInv {
  hi_pp ref ref' m m' : pending r !! ref = Some m → pending r !! ref' = Some m' → smSecret m = smSecret m' → ref = ref';
  hi_ss k k' s s' : sessions r !! k = Some s → sessions r !! k' = Some s' → srSecret s = srSecret s' → k = k';
  hi_ps ref m k s : pending r !! ref = Some m → sessions r !! k = Some s → smSecret m ≠ srSecret s;
  hi_pc ref m : pending r !! ref = Some m →
    ∃ sec, heap r !! smSecret m = Some sec ∧ (smIdentity m, sec, smExpires m) ∈ h;
  hi_sc k s : sessions r !! k = Some s →
    ∃ sec, heap r !! srSecret s = Some sec ∧ (srIdentity s, sec, tExpiresAt (srTicket s)) ∈ h;
  hi_next a : is_Some (heap r !! a) → a < nextAddr r;
  hi_zero a l : heap r !! a = Some l → live r a ∨ Forall (λ b, b = x00) l
}.

Lemma zeroAll_fields A r :
  pending (zeroAll A r) = pending r ∧ sessions (zeroAll A r) = sessions r ∧ nextAddr (zeroAll A r) = nextAddr r
  ∧ capacity (zeroAll A r) = capacity r.
Proof. induction A as [|a A IH]; [done|]. exact IH. Qed.

Definition wipe (l : list byte) : list byte := replicate (length l) x00.

Lemma zeroAll_heap A r a :
  heap (zeroAll A r) !! a = if decide (a ∈ A) then wipe <$> heap r !! a else heap r !! a.
Proof.
  induction A as [|b A IH]; [by rewrite decide_False by set_solver|].
  cbn [zeroAll foldr]. unfold zero at 1. cbn [heap set_heap]. destruct (decide (a = b)) as [->|Hne].
  - rewrite lookup_alter_eq. change (foldr zero r A) with (zeroAll A r). rewrite IH, (decide_True _ _ (list_elem_of_here _ _)).
    case_decide; [|done]. destruct (heap r !! b) as [l|]; [|done]. cbn. unfold wipe. by rewrite length_replicate.
  - rewrite lookup_alter_ne by done. change (foldr zero r A) with (zeroAll A r). rewrite IH.
    destruct (decide (a ∈ A)); [by rewrite decide_True by set_solver|by rewrite decide_False by set_solver].
Qed.

(** Giving up some entries and wiping exactly their secrets. *)
Lemma heap_inv_remove h r P S A :
  heap_inv h r → P ⊆ pending r → S ⊆ sessions r →
  (∀ ref m, pending r !! ref = Some m → smSecret m ∈ A ↔ P !! ref = None) →
  (∀ k s, sessions r !! k = Some s → srSecret s ∈ A ↔ S !! k = None) →
  heap_inv h (zeroAll A (set_sessions S (set_pending P r))).
Proof.
  intros [Hpp Hss Hps Hpc Hsc Hn Hz] HP HS HA1 HA2. set (r0 := set_sessions S (set_pending P r)).
  destruct (zeroAll_fields A r0) as (E1 & E2 & E3 & _).
  assert (∀ ref m, P !! ref = Some m → pending r !! ref = Some m ∧ smSecret m ∉ A) as HP'.
  { intros ref m Hm. pose proof (lookup_weaken _ _ _ _ Hm HP) as Hr. split; [done|]. intros Hin.
    apply (HA1 _ _ Hr) in Hin. congruence. }
  assert (∀ k s, S !! k = Some s → sessions r !! k = Some s ∧ srSecret s ∉ A) as HS'.
  { intros k s Hm. pose proof (lookup_weaken _ _ _ _ Hm HS) as Hr. split; [done|]. intros Hin.
    apply (HA2 _ _ Hr) in Hin. congruence. }
  constructor; rewrite ?E1, ?E2, ?E3; subst r0; cbn [pending sessions set_pending set_sessions].
  - intros ref ref' m m' [? _]%HP' [? _]%HP'. eauto.
  - intros k k' s s' [? _]%HS' [? _]%HS'. eauto.
  - intros ref m k s [? _]%HP' [? _]%HS'. eauto.
  - intros ref m [H Hni]%HP'. rewrite zeroAll_heap, decide_False by done. eauto.
  - intros k s [H Hni]%HS'. rewrite zeroAll_heap, decide_False by done. eauto.
  - intros a. rewrite zeroAll_heap. case_decide; [rewrite fmap_is_Some|]; apply Hn.
  - intros a l. rewrite zeroAll_heap. cbn [heap set_pending set_sessions]. case_decide as Ha.
    + intros (l0 & Hl0 & ->)%fmap_Some. right. unfold wipe. apply Forall_replicate. done.
    + intros Hl. destruct (Hz _ _ Hl) as [[(ref & m & Hm & <-)|(k & s & Hs & <-)]|]; [| |by right]; left.
      * left. rewrite E1. exists ref, m. split; [|done]. cbn. destruct (P !! ref) as [m'|] eqn:E; [|destruct Ha; by apply (HA1 _ _ Hm)].
        destruct (HP' _ _ E). congruence.
      * right. rewrite E2. exists k, s. split; [|done]. cbn. destruct (S !! k) as [s'|] eqn:E; [|destruct Ha; by apply (HA2 _ _ Hs)].
        destruct (HS' _ _ E). congruence.
Qed.

(** What the invariants look at in a session. *)
Definition core (s : sessionRecord) : LoginTicket * AuthIdentity * Z := (srTicket s, srIdentity s, srSecret s).

(** Changing sequence numbers and connections only. *)
Definition sameCores (S S' : gmap sessionKey sessionRecord) : Prop := ∀ k, core <$> S !! k = core <$> S' !! k.

Lemma sameCores_lookup S S' k s : sameCores S S' → S !! k = Some s → ∃ s', S' !! k = Some s' ∧ core s' = core s.
Proof.
  intros H Hs. specialize (H k). rewrite Hs in H. destruct (S' !! k) as [s'|]; [|done].
  exists s'. split; [done|]. cbn in H. congruence.
Qed.

Lemma heap_inv_update h r S : heap_inv h r → sameCores S (sessions r) → heap_inv h (set_sessions S r).
Proof.
  intros [Hpp Hss Hps Hpc Hsc Hn Hz] HS.
  assert (∀ k s, S !! k = Some s → ∃ s', sessions r !! k = Some s' ∧ core s' = core s) as HS' by eauto using sameCores_lookup.
  constructor; cbn [pending sessions heap nextAddr set_sessions]; try done.
  - intros k k' s s' (t & Ht & [= E1 E2 E3])%HS' (t' & Ht' & [= E1' E2' E3'])%HS' E. eapply Hss; eauto. congruence.
  - intros ref m k s Hm (t & Ht & [= E1 E2 E3])%HS'. rewrite <- E3. eauto.
  - intros k s (t & Ht & [= E1 E2 E3])%HS'. rewrite <- E1, <- E2, <- E3. eauto.
  - intros a l Hl. destruct (Hz _ _ Hl) as [[?|(k & s & Hs & <-)]|]; [by left; left| |by right]. left. right.
    destruct (sameCores_lookup (sessions r) S k s) as (s' & Hs' & [= _ _ E]); [intros ?; symmetry; apply HS|done|].
    cbn. eauto.
Qed.

Lemma heap_inv_remove_session h r k s :
  heap_inv h r → sessions r !! k = Some s → heap_inv h (zero (srSecret s) (set_sessions (delete k (sessions r)) r)).
Proof.
  intros H Hs. pose proof (heap_inv_remove h r (pending r) (delete k (sessions r)) [srSecret s] H) as Hr. destruct r.
  apply Hr; [done|apply delete_subseteq| |].
  - intros ref m Hm. rewrite list_elem_of_singleton. split; [|congruence]. intros E. by destruct (hi_ps _ _ H _ _ _ _ Hm Hs).
  - intros k' s' Hs'. rewrite list_elem_of_singleton. split.
    + intros E. rewrite (hi_ss _ _ H _ _ _ _ Hs' Hs E). apply lookup_delete_eq.
    + intros E. destruct (decide (k' = k)) as [->|]; [congruence|]. rewrite lookup_delete_ne in E by done. congruence.
Qed.

Lemma heap_inv_remove_pending h r ref m :
  heap_inv h r → pending r !! ref = Some m → heap_inv h (zero (smSecret m) (set_pending (delete ref (pending r)) r)).
Proof.
  intros H Hm. pose proof (heap_inv_remove h r (delete ref (pending r)) (sessions r) [smSecret m] H) as Hr. destruct r.
  apply Hr; [apply delete_subseteq|done| |].
  - intros ref' m' Hm'. rewrite list_elem_of_singleton. split.
    + intros E. rewrite (hi_pp _ _ H _ _ _ _ Hm' Hm E). apply lookup_delete_eq.
    + intros E. destruct (decide (ref' = ref)) as [->|]; [congruence|]. rewrite lookup_delete_ne in E by done. congruence.
  - intros k s Hs. rewrite list_elem_of_singleton. split; [|congruence]. intros E. by destruct (hi_ps _ _ H _ _ _ _ Hm Hs).
Qed.

Lemma filter_None_iff {K V} `{Countable K} (P : K * V → Prop) `{!∀ x, Decision (P x)} (m : gmap K V) k v :
  m !! k = Some v → filter P m !! k = None ↔ ¬ P (k, v).
Proof.
  intros Hm. rewrite map_lookup_filter_None. split; [|naive_solver].
  intros [?|Hx]; [congruence|]. intros HP. exact (Hx v Hm HP).
Qed.

Lemma heap_inv_prune h now r : heap_inv h r → heap_inv h (pruneExpired now r).
Proof.
  intros H. unfold pruneExpired. apply heap_inv_remove; [done|apply map_filter_subseteq|apply map_filter_subseteq| |].
  - intros ref m Hm. rewrite (filter_None_iff _ _ _ _ Hm). cbn. rewrite elem_of_app. split.
    + intros [(x & E & Hx)%list_elem_of_fmap|(x & E & Hx)%list_elem_of_fmap].
      * apply list_elem_of_fmap in Hx as ([ref' m'] & -> & Hx). apply elem_of_map_to_list, map_lookup_filter_Some in Hx as [Hx Hd].
        cbn in *. by destruct (hi_pp _ _ H _ _ _ _ Hm Hx E); simplify_eq.
      * apply list_elem_of_fmap in Hx as ([k s] & -> & Hx). apply elem_of_map_to_list, map_lookup_filter_Some in Hx as [Hx _].
        by destruct (hi_ps _ _ H _ _ _ _ Hm Hx).
    + intros Hd. left. apply list_elem_of_fmap. exists m. split; [done|]. apply list_elem_of_fmap. exists (ref, m).
      split; [done|]. by apply elem_of_map_to_list, map_lookup_filter_Some.
  - intros k s Hs. rewrite (filter_None_iff _ _ _ _ Hs). cbn. rewrite elem_of_app. split.
    + intros [(x & E & Hx)%list_elem_of_fmap|(x & E & Hx)%list_elem_of_fmap].
      * apply list_elem_of_fmap in Hx as ([ref m] & -> & Hx). apply elem_of_map_to_list, map_lookup_filter_Some in Hx as [Hx _].
        by destruct (hi_ps _ _ H _ _ _ _ Hx Hs).
      * apply list_elem_of_fmap in Hx as ([k' s'] & -> & Hx). apply elem_of_map_to_list, map_lookup_filter_Some in Hx as [Hx Hd].
        cbn in *. by destruct (hi_ss _ _ H _ _ _ _ Hs Hx E); simplify_eq.
    + intros Hd. right. apply list_elem_of_fmap. exists s. split; [done|]. apply list_elem_of_fmap. exists (k, s).
      split; [done|]. by apply elem_of_map_to_list, map_lookup_filter_Some.
Qed.

Lemma heap_inv_history h h' r : heap_inv h r → h ⊆ h' → heap_inv h' r.
Proof.
  intros [Hpp Hss Hps Hpc Hsc Hn Hz] Hh. constructor; try done.
  - intros ref m Hm. destruct (Hpc _ _ Hm) as (sec & ? & ?). eauto.
  - intros k s Hs. destruct (Hsc _ _ Hs) as (sec & ? & ?). eauto.
Qed.

(** A secret is stored under a fresh reference. *)
Lemma heap_inv_alloc h r ref identity secret expiresAt :
  heap_inv h r → pending r !! ref = None →
  heap_inv ((identity, secret, expiresAt) :: h)
    (mkRegistry (capacity r) (<[ref := mkMaterial identity (nextAddr r) expiresAt]> (pending r)) (sessions r)
       (<[nextAddr r := secret]> (heap r)) (nextAddr r + 1)).
Proof.
  intros H Hf. apply (heap_inv_history _ ((identity, secret, expiresAt) :: h)) in H; [|set_solver].
  assert (∀ a l, heap r !! a = Some l → a ≠ nextAddr r) as Hne.
  { intros a l Hl ->. pose proof (hi_next _ _ H (nextAddr r) ltac:(eauto)). lia. }
  assert (∀ ref m, pending r !! ref = Some m → smSecret m ≠ nextAddr r) as Hp.
  { intros ? m Hm. destruct (hi_pc _ _ H _ _ Hm) as (? & ? & _). eauto. }
  assert (∀ k s, sessions r !! k = Some s → srSecret s ≠ nextAddr r) as Hs.
  { intros ? s Hx. destruct (hi_sc _ _ H _ _ Hx) as (? & ? & _). eauto. }
  constructor; cbn [pending sessions heap nextAddr].
  - intros r1 r2 m1 m2 [[<- <-]|[? H1]]%lookup_insert_Some [[<- <-]|[? H2]]%lookup_insert_Some E; cbn in E; try done.
    + by destruct (Hp _ _ H2).
    + by destruct (Hp _ _ H1).
    + by eapply (hi_pp _ _ H).
  - apply (hi_ss _ _ H).
  - intros r1 m k s [[<- <-]|[? H1]]%lookup_insert_Some Hk E; cbn in E; [by destruct (Hs _ _ Hk)|].
    by eapply (hi_ps _ _ H).
  - intros r1 m [[<- <-]|[? H1]]%lookup_insert_Some; cbn.
    + exists secret. rewrite lookup_insert_eq. set_solver.
    + rewrite lookup_insert_ne by (symmetry; eauto). by eapply (hi_pc _ _ H).
  - intros k s Hk. rewrite lookup_insert_ne by (symmetry; eauto). by eapply (hi_sc _ _ H).
  - intros a [l [[<- <-]|[? Hl]]%lookup_insert_Some]; [lia|]. pose proof (hi_next _ _ H a ltac:(eauto)). lia.
  - intros a l [[<- <-]|[? Hl]]%lookup_insert_Some.
    + left. left. eexists ref, _. cbn. by rewrite lookup_insert_eq.
    + destruct (hi_zero _ _ H _ _ Hl) as [[(r1 & m & Hm & <-)|Hlive]|Hzero]; [left; left|left; right|by right].
      * exists r1, m. cbn. rewrite lookup_insert_ne; [done|]. intros ->. congruence.
      * exact Hlive.
Qed.

(** A pending secret becomes the secret of a new session. *)
Lemma heap_inv_move h r ref m key t :
  heap_inv h r → pending r !! ref = Some m → sessions r !! key = None → smExpires m = tExpiresAt t →
  heap_inv h (set_sessions (<[key := mkRecord t (smIdentity m) (smSecret m) 0 ""]> (sessions r))
                (set_pending (delete ref (pending r)) r)).
Proof.
  intros H Hm Hk He. constructor; cbn [pending sessions heap nextAddr set_sessions set_pending].
  - intros r1 r2 m1 m2 [_ H1]%lookup_delete_Some [_ H2]%lookup_delete_Some. by eapply (hi_pp _ _ H).
  - intros k k' s s' [[<- <-]|[? H1]]%lookup_insert_Some [[<- <-]|[? H2]]%lookup_insert_Some E; cbn in E; try done.
    + by destruct (hi_ps _ _ H _ _ _ _ Hm H2).
    + by destruct (hi_ps _ _ H _ _ _ _ Hm H1).
    + by eapply (hi_ss _ _ H).
  - intros r1 m1 k s [Hne H1]%lookup_delete_Some [[<- <-]|[? H2]]%lookup_insert_Some; cbn.
    + intros E. apply Hne. by eapply (hi_pp _ _ H).
    + by eapply (hi_ps _ _ H).
  - intros r1 m1 [_ H1]%lookup_delete_Some. by eapply (hi_pc _ _ H).
  - intros k s [[<- <-]|[? H2]]%lookup_insert_Some; cbn; [|by eapply (hi_sc _ _ H)].
    rewrite <- He. by eapply (hi_pc _ _ H).
  - apply (hi_next _ _ H).
  - intros a l Hl. destruct (hi_zero _ _ H _ _ Hl) as [[(r1 & m1 & H1 & <-)|(k & s & Hs & <-)]|Hz]; [| |by right]; left.
    + destruct (decide (r1 = ref)) as [->|].
      * right. eexists key, _. cbn. rewrite lookup_insert_eq. split; [done|]. cbn. congruence.
      * left. exists r1, m1. cbn. by rewrite lookup_delete_ne.
    + right. exists k, s. cbn. rewrite lookup_insert_ne; [done|]. intros ->. congruence.
Qed.

(** ** The tickets *)

Definition account (s : sessionRecord) : string * string := (AccountID (srIdentity s), Server (srIdentity s)).

Record ticket_inv (cur : gmap (string * string) LoginTicket) (S : gmap sessionKey sessionRecord) : Prop := mkTicketInv {
  ti_key k s : S !! k = Some s →
    k = (tUID (srTicket s), tServer (srTicket s)) ∧ tServer (srTicket s) = Server (srIdentity s)
    ∧ tGeneration (srTicket s) ≠ 0;
  ti_single k k' s s' : S !! k = Some s → S !! k' = Some s' → account s = account s' → k = k';
  ti_current key t : cur !! key = Some t → ∀ k s, S !! k = Some s → account s = key → srTicket s = t
}.

Lemma ticket_inv_subset cur S S' : ticket_inv cur S → S' ⊆ S → ticket_inv cur S'.
Proof.
  intros [H1 H2 H3] Hs. constructor.
  - intros k s Hk. eapply H1, lookup_weaken; eauto.
  - intros k k' s s' Hk Hk'. eapply H2; eapply lookup_weaken; eauto.
  - intros key t Ht k s Hk. eapply H3; eauto using lookup_weaken.
Qed.

Lemma ticket_inv_update cur S S' : ticket_inv cur S → sameCores S' S → ticket_inv cur S'.
Proof.
  intros [H1 H2 H3] Hs.
  assert (∀ k s, S' !! k = Some s → ∃ s', S !! k = Some s' ∧ core s' = core s) as HS by eauto using sameCores_lookup.
  constructor.
  - intros k s (t & Ht & [= E1 E2 E3])%HS. rewrite <- E1, <- E2. eauto.
  - intros k k' s s' (t & Ht & [= E1 E2 E3])%HS (t' & Ht' & [= E1' E2' E3'])%HS E.
    eapply H2; [exact Ht|exact Ht'|]. unfold account in *. congruence.
  - intros key x Hx k s (t & Ht & [= E1 E2 E3])%HS E. rewrite <- E1. eapply H3; eauto. unfold account in *. congruence.
Qed.

(** The newest ticket of an account that has one session is that session's. *)
Lemma newest_spec identity l t :
  tGeneration t ≠ 0 →
  (∀ s, s ∈ l → account s = (AccountID identity, Server identity) → srTicket s = t) →
  (∃ s, s ∈ l ∧ account s = (AccountID identity, Server identity)) →
  newest identity l = Some t.
Proof.
  intros Hg Hall Hex. unfold newest.
  enough (∀ cur, (cur = None ∨ cur = Some t) →
    ((∃ s, s ∈ l ∧ account s = (AccountID identity, Server identity)) ∨ cur = Some t) →
    foldl (λ cur s,
      if bool_decide (AccountID (srIdentity s) = AccountID identity) && bool_decide (Server (srIdentity s) = Server identity)
         && match cur with None => true | Some c => tGeneration c <? tGeneration (srTicket s) end
      then (if tGeneration (srTicket s) =? 0 then None else Some (srTicket s)) else cur) cur l = Some t) as H.
  { apply H; [by left|by left]. }
  clear Hex. induction l as [|s l IH]; intros cur Hc Hor; cbn [foldl].
  { destruct Hor as [(s & Hs & _)|]; [set_solver|done]. }
  destruct (decide (account s = (AccountID identity, Server identity))) as [E|E].
  - assert (srTicket s = t) as Ht by (apply Hall; [set_solver|done]).
    pose proof E as E'. unfold account in E'. injection E' as E1 E2.
    rewrite !bool_decide_true, Ht by done. cbn [andb].
    apply IH; [intros; apply Hall; set_solver| |right].
    + destruct Hc as [->| ->]; [right|]; [|rewrite Z.ltb_irrefl; by right]. by rewrite (proj2 (Z.eqb_neq _ _)).
    + destruct Hc as [->| ->]; [|by rewrite Z.ltb_irrefl]. by rewrite (proj2 (Z.eqb_neq _ _)).
  - replace (bool_decide _ && bool_decide _) with false.
    2: { symmetry. apply andb_false_iff. rewrite !bool_decide_eq_false. unfold account in E.
         destruct (decide (AccountID (srIdentity s) = AccountID identity)); [right|by left]. congruence. }
    cbn [andb]. apply IH; [intros; apply Hall; set_solver|done|].
    destruct Hor as [(s' & [-> |Hs']%elem_of_cons & E')|]; [done|left; eauto|by right].
Qed.

Lemma newest_None identity l :
  (∀ s, s ∈ l → account s ≠ (AccountID identity, Server identity)) → newest identity l = None.
Proof.
  intros Hall. unfold newest. induction l as [|s l IH]; [done|]. cbn [foldl].
  replace (bool_decide _ && bool_decide _) with false; [apply IH; intros; apply Hall; set_solver|].
  symmetry. apply andb_false_iff. rewrite !bool_decide_eq_false. specialize (Hall s ltac:(set_solver)). unfold account in Hall.
  destruct (decide (AccountID (srIdentity s) = AccountID identity)); [right|by left]. congruence.
Qed.

(** ** [Replace] *)

(** Giving up whatever session is under a key. *)
Definition evictKey (key : sessionKey) (r : InMemorySessionRegistry) : InMemorySessionRegistry :=
  match sessions r !! key with
  | Some old => zero (srSecret old) (set_sessions (delete key (sessions r)) r)
  | None => r
  end.

(** A registry without some of its sessions, the secrets of which are wiped. *)
Definition shrinks (r r' : InMemorySessionRegistry) : Prop :=
  (∀ h, heap_inv h r → heap_inv h r') ∧ pending r' ⊆ pending r ∧ sessions r' ⊆ sessions r.

Lemma evictKey_shrinks key r :
  shrinks r (evictKey key r) ∧ pending (evictKey key r) = pending r ∧ sessions (evictKey key r) = delete key (sessions r).
Proof.
  unfold evictKey, shrinks. destruct (sessions r !! key) as [old|] eqn:E.
  - split_and!; try done; [intros; by apply heap_inv_remove_session|apply delete_subseteq].
  - split_and!; try done. by rewrite delete_id.
Qed.

Lemma revokePrevious_shrinks previous r r' c :
  revokePrevious previous r = (r', c) →
  shrinks r r' ∧ pending r' = pending r
  ∧ ∀ p s, previous = Some p → sessions r' !! (tUID p, tServer p) = Some s → srTicket s ≠ p.
Proof.
  unfold revokePrevious, shrinks. destruct previous as [p|]; [|intros [= <- <-]; by split_and!].
  destruct (sessions r !! (tUID p, tServer p)) as [old|] eqn:E.
  2: { intros [= <- <-]. split_and!; try done. intros ? s [= <-]. congruence. }
  destruct (_ && _) eqn:B; intros [= <- <-]; (split_and!; try done).
  - intros h Hh. by apply heap_inv_remove_session.
  - apply delete_subseteq.
  - intros ? s [= <-]. cbn. by rewrite lookup_delete_eq.
  - intros ? s [= <-] Hs <-. rewrite E in Hs. injection Hs as ->. by rewrite Z.eqb_refl, bool_decide_true in B.
Qed.

(** A successful [Replace]. *)
Lemma Replace_Ok now t identity previous r r' c :
  Replace now t identity previous r = (r', Ok c) →
  validTicket t = true ∧ tServer t = Server identity ∧ now < tExpiresAt t ∧
  ∃ r1 m, shrinks r r1 ∧ pending r1 = pending r ∧ pending r !! tSecretRef t = Some m
    ∧ smIdentity m = identity ∧ smExpires m = tExpiresAt t ∧ sessions r1 !! (tUID t, tServer t) = None
    ∧ (∀ p s, previous = Some p → sessions r1 !! (tUID p, tServer p) = Some s → srTicket s ≠ p)
    ∧ r' = set_sessions (<[(tUID t, tServer t) := mkRecord t identity (smSecret m) 0 ""]> (sessions r1))
             (set_pending (delete (tSecretRef t) (pending r1)) r1).
Proof.
  unfold Replace. intros H. destruct (_ || _) eqn:B1 in H; [done|]. bool_prop. destruct (match previous with Some p => negb (validTicket p) | None => false end) in H; [done|].
  destruct (pending r !! tSecretRef t) as [m|] eqn:Hm; [|done]. destruct (_ || _) eqn:B2 in H; [done|]. bool_prop.
  destruct (now <? tExpiresAt t) eqn:B3; [|done]. cbn [negb] in H. bool_prop.
  destruct (revokePrevious previous r) as [r0 c0] eqn:Hr. injection H as H <-.
  destruct (revokePrevious_shrinks _ _ _ _ Hr) as ((S1 & S2 & S3) & Hp & Hprev).
  set (key := (tUID t, tServer t)) in *. destruct (evictKey_shrinks key r0) as ((T1 & T2 & T3) & Tp & Ts).
  repeat match goal with H : ¬ _ ≠ _ |- _ => apply dec_stable in H end.
  split_and!; try done. exists (evictKey key r0), m. split_and!; try done.
  - split_and!; [by auto|by etrans|by etrans].
  - congruence.
  - by rewrite Ts, lookup_delete_eq.
  - intros p s -> Hs. apply (Hprev p s); [done|]. eapply lookup_weaken; eauto.
  - subst r'. rewrite Ts, Tp, insert_delete_eq. unfold evictKey. cbn [sessions set_pending].
    destruct (sessions r0 !! key); done.
Qed.

Lemma Replace_Err now t identity previous r r' e : Replace now t identity previous r = (r', Err e) → r' = r.
Proof.
  unfold Replace. intros H. destruct (_ || _) in H; [by simplify_eq|]. destruct (match previous with Some p => negb (validTicket p) | None => false end) in H; [by simplify_eq|].
  destruct (pending r !! tSecretRef t) as [m|]; [|by simplify_eq]. destruct (_ || _) in H; [by simplify_eq|].
  destruct (negb _) in H; [by simplify_eq|]. by destruct (revokePrevious previous r).
Qed.

Lemma shrinks_prune now r : shrinks r (pruneExpired now r).
Proof.
  split_and!; [intros; by apply heap_inv_prune| |]; unfold pruneExpired;
    destruct (zeroAll_fields ((smSecret <$> (map_to_list (filter (λ e, ¬ now < smExpires e.2) (pending r))).*2)
      ++ (srSecret <$> (map_to_list (filter (λ e, ¬ now < tExpiresAt (srTicket e.2)) (sessions r))).*2))
      (set_sessions (filter (λ e, now < tExpiresAt (srTicket e.2)) (sessions r))
       (set_pending (filter (λ e, now < smExpires e.2) (pending r)) r))) as (E1 & E2 & _);
    rewrite ?E1, ?E2; apply map_filter_subseteq.
Qed.

Lemma shrinks_refl r : shrinks r r.
Proof. by split_and!. Qed.

(** ** The system *)

(** The in-memory registry behind the login service; its clock reads [curNow] and
    [repNow] during the two calls. *)
Definition memoryTickets {SO : SessionOrder} (curNow repNow : Time) : TicketRegistry InMemorySessionRegistry := {|
  regCurrent i r := Current curNow i r;
  regReplace t i p r := Replace repNow t i p r
|}.

Record system := mkSystem { registry : InMemorySessionRegistry; login : loginService; stored : history }.

Inductive op :=
| OpStore (now later : Time) (random : option (list byte)) (identity : AuthIdentity) (secret : list byte) (expiresAt : Time)
| OpDiscard (ref : SecretRef)
| OpCurrent (now : Time) (identity : AuthIdentity)
| OpIssue (i : issueInput) (curNow repNow : Time) (q : IssueTicket)
| OpRestart                                   (** a new login service, which knows nothing *)
| OpVerify (now : Time) (p : GatewayProof) (c : ConnectionID)
| OpIsBound (now : Time) (i : SessionIdentity) (c : ConnectionID)
| OpUnbind (c : ConnectionID) (generation : Z)
| OpRevoke (uid server : string) (generation : Z)
| OpConnection (now : Time) (uid server : string).

Section System.
Context {SO : SessionOrder} (hmac : list byte → list byte → list byte).

Definition apply (o : op) (w : system) : system :=
  let r := registry w in
  match o with
  | OpStore now later random identity secret expiresAt =>
      let '(r, res) := StoreSecret now later random identity secret expiresAt r in
      mkSystem r (login w) (match res with Ok _ => (identity, secret, expiresAt) :: stored w | Err _ => stored w end)
  | OpDiscard ref => mkSystem (DiscardSecret ref r) (login w) (stored w)
  | OpCurrent now identity => mkSystem (Current now identity r).1 (login w) (stored w)
  | OpIssue i curNow repNow q =>
      let '(s, r, _) := issue (TR := memoryTickets curNow repNow) i q (login w) r in mkSystem r s (stored w)
  | OpRestart => mkSystem r (mkLogin ∅) (stored w)
  | OpVerify now p c => mkSystem (VerifyAndBind hmac now p c r).1 (login w) (stored w)
  | OpIsBound now i c => mkSystem (IsBound now i c r).1 (login w) (stored w)
  | OpUnbind c g => mkSystem (Unbind c g r) (login w) (stored w)
  | OpRevoke uid server g => mkSystem (Revoke uid server g r).1 (login w) (stored w)
  | OpConnection now uid server => mkSystem (Connection now uid server r).1 (login w) (stored w)
  end.

(** The random reference of a stored secret is not one in use: 32 random bytes. *)
Definition freshRef (o : op) (w : system) : Prop :=
  match o with
  | OpStore _ later random _ _ _ =>
      ∀ ref, opaque random = Some ref → pending (pruneExpired later (registry w)) !! ref = None
  | _ => True
  end.

Inductive reachable (c : Z) : system → Prop :=
| reach_init r : NewInMemorySessionRegistry c = Ok r → reachable c (mkSystem r (mkLogin ∅) [])
| reach_step w o : reachable c w → freshRef o w → reachable c (apply o w).

Record entry_inv (w : system) : Prop := mkEntryInv {
  ei_heap : heap_inv (stored w) (registry w);
  ei_tickets : ticket_inv (current (login w)) (sessions (registry w))
}.

(** Shrinking, and changing only sequence numbers and connections, is harmless. *)
Lemma inv_shrink w r : entry_inv w → shrinks (registry w) r → entry_inv (mkSystem r (login w) (stored w)).
Proof. intros [H1 H2] (Hh & _ & Hs). constructor; cbn; [by apply Hh|by eapply ticket_inv_subset]. Qed.

Lemma inv_update w S :
  entry_inv w → sameCores S (sessions (registry w)) → entry_inv (mkSystem (set_sessions S (registry w)) (login w) (stored w)).
Proof. intros [H1 H2] Hs. constructor; cbn; [by apply heap_inv_update|by eapply ticket_inv_update]. Qed.

Lemma sessions_inOrder S s : s ∈ inOrder S ↔ ∃ k, S !! k = Some s.
Proof.
  rewrite inOrder_perm, list_elem_of_fmap. split.
  - intros ([k x] & -> & Hx%elem_of_map_to_list). eauto.
  - intros [k Hk]. exists (k, s). split; [done|]. by apply elem_of_map_to_list.
Qed.

(** The ticket the login service revokes is the account's session, if it has one. *)
Definition revokes (identity : AuthIdentity) (previous : option LoginTicket) (S : gmap sessionKey sessionRecord) : Prop :=
  ∀ k s, S !! k = Some s → account s = (AccountID identity, Server identity) → previous = Some (srTicket s).

Lemma current_revokes now identity r r' previous cur :
  validIdentity identity = true → ticket_inv cur (sessions r) → Current now identity r = (r', previous) →
  shrinks r r' ∧ revokes identity previous (sessions r').
Proof.
  intros Hv Ht H. unfold Current in H. rewrite Hv in H. cbn [negb] in H. injection H as <- <-.
  destruct (shrinks_prune now r) as (S1 & S2 & S3). split; [done|].
  pose proof (ticket_inv_subset _ _ _ Ht S3) as [K1 K2 _]. intros k s Hk E. apply newest_spec.
  - by apply (K1 _ _ Hk).
  - intros s' [k' Hk']%sessions_inOrder E'. assert (k = k') as <- by (eapply K2; eauto; congruence). congruence.
  - exists s. split; [|done]. apply sessions_inOrder. eauto.
Qed.

(** What a successful issue leaves: the account's only session is the new one. *)
Lemma replace_single now t identity previous r r' c cur :
  ticket_inv cur (sessions r) → revokes identity previous (sessions r) →
  Replace now t identity previous r = (r', Ok c) →
  ticket_inv (<[(AccountID identity, Server identity) := t]> cur) (sessions r')
  ∧ sessions r' !! (tUID t, tServer t) = Some (mkRecord t identity (default 0 (smSecret <$> pending r !! tSecretRef t)) 0 "")
  ∧ (∀ h, heap_inv h r → heap_inv h r').
Proof.
  intros Ht Hrev H. destruct (Replace_Ok _ _ _ _ _ _ _ H) as (Hvt & Hsrv & Hnow & r1 & m & Hsh & Hp & Hm & Hid & Hex & Hk & Hprev & ->).
  destruct Hsh as (S1 & S2 & S3). pose proof (ticket_inv_subset _ _ _ Ht S3) as [K1 K2 K3].
  assert (∀ k s, sessions r1 !! k = Some s → account s ≠ (AccountID identity, Server identity)) as Hnone.
  { intros k s Hs E. pose proof (Hrev _ _ (lookup_weaken _ _ _ _ Hs S3) E) as Hpr. destruct (K1 _ _ Hs) as (-> & _ & _).
    by apply (Hprev _ _ Hpr Hs). }
  cbn [sessions set_sessions]. split_and!.
  - constructor.
    + intros k s [[<- <-]|[? Hs]]%lookup_insert_Some; [|by apply K1]. cbn. split_and!; [done..|].
      unfold validTicket in Hvt. bool_prop. done.
    + intros k k' s s' [[<- <-]|[? Hs]]%lookup_insert_Some [[<- <-]|[? Hs']]%lookup_insert_Some E; try done.
      * by destruct (Hnone _ _ Hs').
      * by destruct (Hnone _ _ Hs).
      * by eapply K2.
    + intros key x [[<- <-]|[Hne Hx]]%lookup_insert_Some k s [[<- <-]|[? Hs]]%lookup_insert_Some E; try done.
      * by destruct (Hnone _ _ Hs).
      * by eapply K3.
  - rewrite lookup_insert_eq, Hm. done.
  - intros h Hh. subst identity. apply heap_inv_move; [by apply S1|congruence|done|done].
Qed.

Lemma previous_revokes curNow i q cur r r1 previous :
  validIdentity (itIdentity q) = true → ticket_inv cur (sessions r) →
  match cur !! (AccountID (itIdentity q), Server (itIdentity q)) with
  | Some t => (r, Some t)
  | None => regCurrent (TicketRegistry := memoryTickets curNow i) (itIdentity q) r
  end = (r1, previous) →
  shrinks r r1 ∧ revokes (itIdentity q) previous (sessions r1).
Proof.
  intros Hv Ht H. destruct (cur !! _) as [t|] eqn:E.
  - injection H as <- <-. split; [apply shrinks_refl|]. intros k s Hk Ha. f_equal. symmetry. by eapply (ti_current _ _ Ht).
  - exact (current_revokes _ _ _ _ _ _ Hv Ht H).
Qed.

Lemma issue_spec i curNow repNow q w s' r' res :
  entry_inv w → issue (TR := memoryTickets curNow repNow) i q (login w) (registry w) = (s', r', res) →
  entry_inv (mkSystem r' s' (stored w))
  ∧ match res with
    | Ok iss =>
        ∀ k s, sessions r' !! k = Some s → account s = (AccountID (itIdentity q), Server (itIdentity q)) → srTicket s = Ticket iss
    | Err _ => True
    end.
Proof.
  intros Hw H. pose proof Hw as [Hh Ht]. unfold issue in H.
  destruct (_ || _) eqn:B in H; [by simplify_eq; destruct w|]. bool_prop.
  destruct (negb (svcNow i <? _)) in H; [by simplify_eq; destruct w|].
  destruct (match current (login w) !! _ with Some t => _ | None => _ end) as [r1 previous] eqn:Hprev in H.
  destruct (previous_revokes _ _ _ _ _ _ _ ltac:(done) Ht Hprev) as [Hsh Hrev].
  pose proof (inv_shrink _ _ Hw Hsh) as Hw1. pose proof Hw1 as [Hh1 Ht1]. cbn in Hh1, Ht1.
  destruct (opaque (uidBytes i)) as [uid|]; [|by simplify_eq]. destruct (opaque (subBytes i)) as [sub|]; [|by simplify_eq].
  cbn [regReplace memoryTickets] in H. destruct (Replace repNow _ _ _ _) as [r2 [c|e]] eqn:Hr.
  - injection H as <- <- <-. destruct (replace_single _ _ _ _ _ _ _ _ Ht1 Hrev Hr) as (T1 & T2 & T3).
    split; [constructor; cbn; [by apply T3|done]|]. intros k s Hs Ha. eapply (ti_current _ _ T1); [|done|done].
    apply lookup_insert_eq.
  - simplify_eq. by apply Replace_Err in Hr as ->.
Qed.

Lemma sameCores_insert S k s s' : S !! k = Some s → core s' = core s → sameCores (<[k := s']> S) S.
Proof.
  intros Hk E k'. destruct (decide (k' = k)) as [->|]; [|by rewrite lookup_insert_ne].
  rewrite lookup_insert_eq, Hk. cbn. by rewrite E.
Qed.

Lemma verify_inv now p c w : entry_inv w → entry_inv (apply (OpVerify now p c) w).
Proof.
  intros Hw. cbn. unfold VerifyAndBind. destruct (_ || _); [by destruct w|].
  destruct (sessions (registry w) !! _) as [s|] eqn:Hs; [|by destruct w].
  destruct (negb _); [|destruct (_ || _); [by destruct w|destruct (_ <=? _); [by destruct w|]]]; cbn [fst].
  - apply inv_shrink; [done|]. split_and!; [intros; by apply heap_inv_remove_session|done|apply delete_subseteq].
  - apply inv_update; [done|]. by eapply sameCores_insert.
Qed.

Lemma apply_inv o w : entry_inv w → freshRef o w → entry_inv (apply o w).
Proof.
  intros Hw Hf. destruct o as [now later random identity secret exp|ref|now identity|i cn rn q| |now p c|now i c|c g|uid srv g|now uid srv].
  - cbn in Hf |- *. unfold StoreSecret. destruct (_ || _); [by destruct w|].
    pose proof (inv_shrink _ _ Hw (shrinks_prune later (registry w))) as Hp. destruct (_ <=? _); [done|].
    destruct (opaque random) as [ref|] eqn:Ho; [|done]. specialize (Hf ref eq_refl). destruct Hp as [Hh Ht].
    constructor; cbn; [by apply heap_inv_alloc|done].
  - cbn. unfold DiscardSecret. destruct (pending (registry w) !! ref) as [m|] eqn:Hm.
    + apply inv_shrink; [done|]. split_and!; [intros; by apply heap_inv_remove_pending|apply delete_subseteq|done].
    + rewrite delete_id by done. by destruct w as [[]].
  - cbn. unfold Current. destruct (negb _); [by destruct w|]. apply inv_shrink; [done|apply shrinks_prune].
  - cbn. destruct (issue _ _ _ _) as [[s' r'] res] eqn:Hi. by destruct (issue_spec _ _ _ _ _ _ _ _ Hw Hi).
  - destruct Hw as [Hh [K1 K2 K3]]. constructor; [done|]. constructor; [done..|]. cbn. intros key t Ht. by rewrite lookup_empty in Ht.
  - by apply verify_inv.
  - cbn. unfold IsBound. destruct (_ || _); [by destruct w|]. apply inv_shrink; [done|apply shrinks_prune].
  - cbn. unfold Unbind. destruct (_ || _); [by destruct w|]. apply inv_update; [done|]. intros k. rewrite lookup_fmap.
    destruct (sessions (registry w) !! k) as [s|]; [|done]. cbn. by destruct (_ && _).
  - cbn. unfold Revoke. destruct (_ || _); [by destruct w|]. destruct (sessions (registry w) !! _) as [s|] eqn:Hs; [|by destruct w].
    destruct (_ =? _); [|by destruct w]. apply inv_shrink; [done|].
    split_and!; [intros; by apply heap_inv_remove_session|done|apply delete_subseteq].
  - cbn. unfold Connection. apply inv_shrink; [done|apply shrinks_prune].
Qed.

Lemma entry_reachable_inv c w : reachable c w → entry_inv w.
Proof.
  induction 1 as [r Hr|w o _ IH Hf]; [|by apply apply_inv].
  unfold NewInMemorySessionRegistry in Hr. destruct (c <? 0); simplify_eq.
  constructor; constructor; cbn; intros *; rewrite ?lookup_empty; try done.
Qed.
End System.
