(* ===== verification/EntryFacts.v ===== *)
(** * Properties of the login system

    One session per account and server; accepted proofs are authentic and never
    replayed; secrets that are given up are wiped. *)

From stdpp Require Import prelude gmap strings list.
From Stdlib Require Import ZArith Lia Strings.Byte.
From S2P Require Import Prelude Types GoText Bytes Encoding Entry EntryInv.

Local Open Scope Z_scope.

(** The canonical order, for the examples. *)
Program Definition canonicalOrder : SessionOrder := {| inOrder m := (map_to_list m).*2 |}.
Next Obligation. done. Qed.

(** C37. SingleSession holds in every reachable state of registry and login service,
    restarts of the service included: an account has at most one session per
    server, and after a ticket was issued the account's only session is the one of
    that ticket, so the proofs of every earlier ticket are refused. *)
Theorem login_single_session {SO : SessionOrder} hmac c w i curNow repNow q s' r' iss :
  reachable hmac c w →
  (∀ k k' s s', sessions (registry w) !! k = Some s → sessions (registry w) !! k' = Some s' →
     account s = account s' → k = k')
  ∧ (issue (TR := memoryTickets curNow repNow) i q (login w) (registry w) = (s', r', Ok iss) →
     ∀ k s, sessions r' !! k = Some s → account s = (AccountID (itIdentity q), Server (itIdentity q)) →
       srTicket s = Ticket iss).
Proof.
  intros Hw%entry_reachable_inv. split; [apply (ei_tickets _ Hw)|]. intros H.
  by destruct (issue_spec _ _ _ _ _ _ _ _ Hw H) as [_ ?].
Qed.

Definition sampleIdentity : AuthIdentity := mkIdentity "acc" "player" "srv".
Definition sampleSecret : list byte := replicate 32 x11.
Definition ofRes {X} (d : X) (r : res entryError X) : X := match r with Ok x => x | Err _ => d end.
Definition sampleOps : list op :=
  let q ref := mkIssueTicket sampleIdentity (string_of (base64Encode ref)) 100 in
  [OpStore 1 1 (Some [x01]) sampleIdentity sampleSecret 100;
   OpIssue (mkIssueInput 1 (Some [x02]) (Some [x03])) 1 1 (q [x01]);
   OpStore 2 2 (Some [x04]) sampleIdentity sampleSecret 100;
   OpRestart;
   OpIssue (mkIssueInput 2 (Some [x05]) (Some [x06])) 2 2 (q [x04])].
Definition emptySystem : system := mkSystem (mkRegistry 1024 ∅ ∅ ∅ 0) (mkLogin ∅) [].
Definition runOps {SO : SessionOrder} hmac (os : list op) (w : system) : system := foldl (λ w o, apply hmac o w) w os.

(** A toy MAC of 32 bytes. *)
Definition toyMac (key msg : list byte) : list byte := be_bytes 32 (be_value key + be_value msg).

Lemma sample_reachable (SO := canonicalOrder) n : reachable toyMac 0 (runOps toyMac (take n sampleOps) emptySystem).
Proof.
  destruct n as [|[|[|[|[|n]]]]]; cbn [take sampleOps runOps foldl];
    rewrite ?take_nil; cbn [foldl];
    repeat (refine (reach_step _ _ _ _ _ _); [|first [exact I|vm_compute; by intros ? [= <-]]]);
    by apply reach_init.
Qed.

Lemma login_single_session_witness (SO := canonicalOrder) :
  let w := runOps toyMac sampleOps emptySystem in
  size (sessions (registry w)) = 1%nat
  ∧ ∀ k k' s s', sessions (registry w) !! k = Some s → sessions (registry w) !! k' = Some s' →
      account s = account s' → k = k'.
Proof.
  split; [by vm_compute|].
  exact (proj1 (login_single_session toyMac 0 _ (mkIssueInput 0 None None) 0 0 (mkIssueTicket sampleIdentity "" 0)
    (mkLogin ∅) (registry emptySystem) zeroIssue (sample_reachable 5))).
Defined.

Lemma verified_mac hmac sec p :
  VerifyGatewayProof hmac sec p = true → macSize ≤ len sec ∧ MAC p = hmac sec (gatewayProofInput p).
Proof.
  unfold VerifyGatewayProof, SignGatewayProof. destruct (len sec <? macSize) eqn:Hlen; [done|].
  destruct (validProofFields p) eqn:Hv; [|done]. cbn [orb negb]. destruct (negb _); [done|].
  unfold validProofFields in Hv |- *. cbn [MAC pUID pSubID pServer pGeneration pSequence orb]. rewrite Hv. cbn [negb].
  intros H. bool_prop. split; [lia|]. by rewrite <- H.
Qed.

(** An accepted gateway proof is authentic: in every reachable state, a proof
    that [VerifyAndBind] accepts carries the MAC, over its own fields, under a
    secret that was stored for an authenticated identity of that server whose
    ticket has not expired, and the binding names that identity's player and the
    proof's user, sub-session and generation. *)
Theorem accepted_proof_authentic {SO : SessionOrder} hmac c w now p conn r' b :
  reachable hmac c w → VerifyAndBind hmac now p conn (registry w) = (r', Ok b) →
  ∃ identity secret expiresAt,
    (identity, secret, expiresAt) ∈ stored w ∧ now < expiresAt ∧ macSize ≤ len secret
    ∧ Server identity = pServer p
    ∧ MAC p = hmac secret (gatewayProofInput p)
    ∧ Identity b = mkSession (pUID p) (pSubID p) (PlayerID identity) (pServer p) (pGeneration p).
Proof.
  intros Hw%entry_reachable_inv H. unfold VerifyAndBind in H. destruct (_ || _) eqn:B in H; [done|].
  destruct (sessions (registry w) !! _) as [s|] eqn:Hs; [|done].
  destruct (now <? tExpiresAt (srTicket s)) eqn:Hnow; [|done]. cbn [negb] in H.
  destruct (bool_decide (tSubID (srTicket s) ≠ pSubID p)) eqn:Hsub; [done|].
  destruct (tGeneration (srTicket s) =? pGeneration p) eqn:Hgen; [|done].
  destruct (VerifyGatewayProof _ _ _) eqn:H1 in H; [|done]. cbn [orb negb] in H.
  apply bool_decide_eq_false, dec_stable in Hsub. bool_prop. destruct (_ <=? _); [done|]. injection H as _ <-.
  destruct (hi_sc _ _ (ei_heap _ Hw) _ _ Hs) as (sec & Hsec & Hin).
  destruct (ti_key _ _ (ei_tickets _ Hw) _ _ Hs) as (Hk & Hsrv & _). injection Hk as Hu Hsv.
  unfold secretAt in H1. rewrite Hsec in H1. apply verified_mac in H1 as [Hlen Hmac].
  exists (srIdentity s), sec, (tExpiresAt (srTicket s)). split_and!; [done|lia|done|congruence|done|]. cbn. congruence.
Qed.

Definition boundSystem (SO := canonicalOrder) : system := runOps toyMac (take 2 sampleOps) emptySystem.
Definition goodProof : GatewayProof :=
  SignGatewayProof toyMac sampleSecret (mkProof (string_of (base64Encode [x02])) (string_of (base64Encode [x03])) "srv" 1 7 []).

Lemma accepted_proof_authentic_witness (SO := canonicalOrder) :
  ∃ identity secret expiresAt, (identity, secret, expiresAt) ∈ stored boundSystem
    ∧ MAC goodProof = toyMac secret (gatewayProofInput goodProof).
Proof.
  destruct (accepted_proof_authentic toyMac 0 boundSystem 5 goodProof "conn" _ (mkBinding (mkSession (string_of (base64Encode [x02]))
    (string_of (base64Encode [x03])) "player" "srv" 1) "") (sample_reachable 2) ltac:(vm_compute; reflexivity))
    as (i & s & e & H1 & _ & _ & _ & H2 & _).
  exists i, s, e. split; [exact H1|exact H2].
Defined.

(** Secrets do not outlive their use: in every reachable state each slice of
    secret bytes the registry ever allocated is either owned by exactly one pending
    entry or session and still holds what was stored for that identity, or it is
    overwritten with zeros. *)
Theorem secrets_wiped {SO : SessionOrder} hmac c w a l :
  reachable hmac c w → heap (registry w) !! a = Some l →
  Forall (λ b, b = x00) l
  ∨ (∃ ref m, pending (registry w) !! ref = Some m ∧ smSecret m = a ∧ (smIdentity m, l, smExpires m) ∈ stored w
       ∧ (∀ k s, sessions (registry w) !! k = Some s → srSecret s ≠ a)
       ∧ (∀ ref' m', pending (registry w) !! ref' = Some m' → smSecret m' = a → ref' = ref))
  ∨ (∃ k s, sessions (registry w) !! k = Some s ∧ srSecret s = a ∧ (srIdentity s, l, tExpiresAt (srTicket s)) ∈ stored w
       ∧ (∀ ref m, pending (registry w) !! ref = Some m → smSecret m ≠ a)
       ∧ (∀ k' s', sessions (registry w) !! k' = Some s' → srSecret s' = a → k' = k)).
Proof.
  intros [Hh _]%entry_reachable_inv Hl. destruct (hi_zero _ _ Hh _ _ Hl) as [[(ref & m & Hm & <-)|(k & s & Hs & <-)]|]; [right..|by left].
  - left. exists ref, m. destruct (hi_pc _ _ Hh _ _ Hm) as (sec & E & Hin). rewrite Hl in E. injection E as <-.
    split_and!; [done..| |].
    + intros k s Hs E. by apply (hi_ps _ _ Hh _ _ _ _ Hm Hs).
    + intros ref' m' Hm' E. by eapply (hi_pp _ _ Hh).
  - right. exists k, s. destruct (hi_sc _ _ Hh _ _ Hs) as (sec & E & Hin). rewrite Hl in E. injection E as <-.
    split_and!; [done..| |].
    + intros ref m Hm. by apply (hi_ps _ _ Hh _ _ _ _ Hm Hs).
    + intros k' s' Hs' E. by eapply (hi_ss _ _ Hh).
Qed.

Lemma secrets_wiped_witness (SO := canonicalOrder) :
  let w := runOps toyMac sampleOps emptySystem in
  heap (registry w) !! 0 = Some (replicate 32 x00) ∧ heap (registry w) !! 1 = Some sampleSecret
  ∧ ∃ k s, sessions (registry w) !! k = Some s ∧ srSecret s = 1.
Proof.
  split_and!; [by vm_compute..|].
  destruct (secrets_wiped toyMac 0 _ 1 sampleSecret (sample_reachable 5) ltac:(by vm_compute))
    as [H|[(ref & m & H & _)|(k & s & H & E & _)]].
  - by apply Forall_cons in H as [? _].
  - exfalso. assert (pending (registry (runOps toyMac (take 5 sampleOps) emptySystem)) !! ref = None) as Hp.
    { change (pending (registry (runOps toyMac (take 5 sampleOps) emptySystem))) with (∅ : gmap string secretMaterial).
      apply lookup_empty. }
    discriminate (eq_trans (eq_sym H) Hp).
  - exists k, s. split; [exact H|exact E].
Defined.

(** ** Replay *)

(** No operation may create another session under the key: user identifiers are 16
    random bytes. *)
Definition otherKey (key : sessionKey) (o : op) : Prop :=
  match o with
  | OpIssue i _ _ q => ∀ uid, opaque (uidBytes i) = Some uid → (uid, Server (itIdentity q)) ≠ key
  | _ => True
  end.

(** The session under the key, if there is one, has accepted number [n]. *)
Definition consumed (key : sessionKey) (n : Z) (S : gmap sessionKey sessionRecord) : Prop :=
  ∀ s, S !! key = Some s → n ≤ srLastSeq s.

Lemma consumed_subset key n S S' : consumed key n S → S' ⊆ S → consumed key n S'.
Proof. intros H Hs s Hk. eapply H, lookup_weaken; eauto. Qed.

Section Replay.
Context {SO : SessionOrder} (hmac : list byte → list byte → list byte).

Lemma apply_consumed key n o w :
  otherKey key o → consumed key n (sessions (registry w)) → consumed key n (sessions (registry (apply hmac o w))).
Proof.
  intros Ho H. destruct o as [now later random identity secret exp|ref|now identity|i cn rn q| |now p c|now i c|c g|uid srv g|now uid srv]; cbn.
  - unfold StoreSecret. destruct (_ || _); [done|]. pose proof (shrinks_prune later (registry w)) as (_ & _ & Hs).
    pose proof (consumed_subset _ _ _ _ H Hs). destruct (_ <=? _); [done|]. by destruct (opaque random).
  - unfold DiscardSecret. by destruct (pending (registry w) !! ref).
  - unfold Current. destruct (negb _); [done|]. eapply consumed_subset; [exact H|]. by destruct (shrinks_prune now (registry w)) as (_ & _ & ?).
  - unfold issue. destruct (_ || _); [done|]. destruct (negb _); [done|].
    destruct (match current (login w) !! _ with Some t => _ | None => _ end) as [r1 previous] eqn:Hp.
    assert (sessions r1 ⊆ sessions (registry w)) as Hr1.
    { destruct (current (login w) !! _); [by injection Hp as <- <-|]. cbn in Hp. unfold Current in Hp.
      destruct (negb _) in Hp; [by injection Hp as <- <-|]. injection Hp as <- _. by destruct (shrinks_prune cn (registry w)) as (_ & _ & ?). }
    pose proof (consumed_subset _ _ _ _ H Hr1) as H1. cbn in Ho.
    destruct (opaque (uidBytes i)) as [uid|]; [|done]. destruct (opaque (subBytes i)) as [sub|]; [|done].
    specialize (Ho uid eq_refl). cbn [regReplace memoryTickets].
    destruct (Replace rn _ _ _ _) as [r2 [c|e]] eqn:Hr; [|by apply Replace_Err in Hr as ->].
    apply Replace_Ok in Hr as (_ & _ & _ & r3 & m & (_ & _ & Hs3) & _ & _ & _ & _ & _ & _ & ->). cbn.
    intros s. rewrite lookup_insert_ne by done. by apply (consumed_subset _ _ _ _ H1 Hs3).
  - done.
  - unfold VerifyAndBind. destruct (_ || _); [done|]. destruct (sessions (registry w) !! _) as [s|] eqn:Hs; [|done].
    destruct (negb _); [eapply consumed_subset; [exact H|apply delete_subseteq]|]. destruct (_ || _); [done|].
    destruct (_ <=? _) eqn:B; [done|]. bool_prop. cbn. intros s' [[<- <-]|[_ ?]]%lookup_insert_Some; [|by apply H].
    cbn. specialize (H _ Hs). lia.
  - unfold IsBound. destruct (_ || _); [done|]. eapply consumed_subset; [exact H|]. by destruct (shrinks_prune now (registry w)) as (_ & _ & ?).
  - unfold Unbind. destruct (_ || _); [done|]. cbn. intros s. rewrite lookup_fmap. intros (s0 & Hs0 & ->)%fmap_Some.
    specialize (H _ Hs0). by destruct (_ && _).
  - unfold Revoke. destruct (_ || _); [done|]. destruct (sessions (registry w) !! _) as [s|]; [|done].
    destruct (_ =? _); [|done]. eapply consumed_subset; [exact H|apply delete_subseteq].
  - unfold Connection. cbn. eapply consumed_subset; [exact H|]. by destruct (shrinks_prune now (registry w)) as (_ & _ & ?).
Qed.
End Replay.

(** What acceptance records, and what it requires. *)
Lemma accepted_consumes hmac now p c r r' b :
  VerifyAndBind hmac now p c r = (r', Ok b) →
  consumed (pUID p, pServer p) (pSequence p) (sessions r')
  ∧ ∀ n, consumed (pUID p, pServer p) n (sessions r) → n < pSequence p.
Proof.
  unfold VerifyAndBind. intros H. destruct (_ || _) in H; [done|].
  destruct (sessions r !! _) as [s|] eqn:Hs; [|done]. destruct (negb _) in H; [done|]. destruct (_ || _) in H; [done|].
  destruct (_ <=? _) eqn:B in H; [done|]. bool_prop. injection H as <- _. split.
  - intros s' Hs'. cbn in Hs'. rewrite lookup_insert_eq in Hs'. injection Hs' as <-. done.
  - intros n Hn. specialize (Hn _ Hs). lia.
Qed.

(** C38. An accepted gateway proof cannot be replayed: whatever registry, login
    service and connections do afterwards, short of issuing a ticket for the same
    user identifier, every later proof accepted for that user and server has a
    greater sequence number, so neither that proof nor an older one is accepted
    again. *)
Theorem proof_replay_refused {SO : SessionOrder} hmac now p conn w r1 b os now' p' conn' r2 b' :
  VerifyAndBind hmac now p conn (registry w) = (r1, Ok b) →
  Forall (otherKey (pUID p, pServer p)) os →
  VerifyAndBind hmac now' p' conn' (registry (runOps hmac os (mkSystem r1 (login w) (stored w)))) = (r2, Ok b') →
  pUID p' = pUID p → pServer p' = pServer p → pSequence p < pSequence p'.
Proof.
  intros [H1 _]%accepted_consumes Hos [_ H2]%accepted_consumes Eu Es. apply H2. rewrite Eu, Es.
  assert (consumed (pUID p, pServer p) (pSequence p) (sessions (registry (mkSystem r1 (login w) (stored w))))) as H by done.
  revert H. generalize (mkSystem r1 (login w) (stored w)). clear H1 H2.
  induction Hos as [|o os Ho _ IH]; intros w' H; [done|]. cbn. apply IH. by apply apply_consumed.
Qed.

Lemma proof_replay_refused_witness (SO := canonicalOrder) :
  let p n := SignGatewayProof toyMac sampleSecret (mkProof (string_of (base64Encode [x02])) (string_of (base64Encode [x03])) "srv" 1 n []) in
  let r1 := (VerifyAndBind toyMac 5 (p 7) "conn" (registry boundSystem)).1 in
  (VerifyAndBind toyMac 6 (p 7) "conn2" r1).2 = Err ErrProofReplay ∧ 7 < 8.
Proof.
  cbv zeta. split; [by vm_compute|].
  refine (proof_replay_refused toyMac 5 (SignGatewayProof toyMac sampleSecret (mkProof (string_of (base64Encode [x02]))
      (string_of (base64Encode [x03])) "srv" 1 7 [])) "conn" boundSystem _
    (mkBinding (mkSession (string_of (base64Encode [x02])) (string_of (base64Encode [x03])) "player" "srv" 1) "")
    [OpUnbind "conn" 1; OpRestart] 6 (SignGatewayProof toyMac sampleSecret (mkProof (string_of (base64Encode [x02]))
      (string_of (base64Encode [x03])) "srv" 1 8 [])) "conn2" _
    (mkBinding (mkSession (string_of (base64Encode [x02])) (string_of (base64Encode [x03])) "player" "srv" 1) "") _ _ _ _ _).
  - vm_compute. reflexivity.
  - by repeat constructor.
  - vm_compute. reflexivity.
  - done.
  - done.
Defined.
