(* ===== verification/Gateway.v ===== *)
(** * The login and gateway adapters

    [src/tooling/entry/login_adapter.go] and [gateway_adapter.go]: what one
    connection does, from its first byte to its end.  The handler of a connection
    is a function of what the network, the registry and the services answer; it
    writes to the connection, dispatches commands and closes other connections,
    which is its trace.  Other goroutines act on the registry between two packets:
    [meanwhile] is whatever they do. *)

From stdpp Require Import prelude gmap strings list sorting.
From Stdlib Require Import ZArith Lia Strings.Byte.
From S2P Require Import Prelude Types GoText Bytes Encoding Entry.

Local Open Scope Z_scope.

Definition second : Duration := 10 ^ 9.
Definition defaultGatewayPacketBytes : Z := 4096.
Definition defaultMaxConnections : Z := 1024.
Definition defaultGatewayIdleTimeout : Duration := 30 * second.
Definition defaultGatewayPacketsPerSecond : Z := 100.
Definition defaultCallTimeout : Duration := 5 * second.
Definition defaultHandshakeTimeout : Duration := 10 * second.

(** ** Configuration *)

Record gatewayConfig := mkGatewayConfig {
  MaxPacketBytes : Z; CallTimeout : Duration; MaxConnections : Z; IdleTimeout : Duration; MaxPacketsPerSecond : Z
}.

Definition orDefault (v d : Z) : Z := if v =? 0 then d else v.

(** [anyNil]: one of the four interfaces is nil. *)
Definition NewGatewayAdapter (anyNil : bool) (c : gatewayConfig) : res entryError gatewayConfig :=
  if anyNil || (MaxPacketBytes c <? 0) || (CallTimeout c <? 0) || (MaxConnections c <? 0) || (IdleTimeout c <? 0)
     || (MaxPacketsPerSecond c <? 0)
  then Err ErrInvalidConfig
  else
    let bytes := orDefault (MaxPacketBytes c) defaultGatewayPacketBytes in
    if maxAuthLine <? bytes then Err ErrInvalidConfig
    else Ok (mkGatewayConfig bytes (orDefault (CallTimeout c) defaultCallTimeout)
               (orDefault (MaxConnections c) defaultMaxConnections) (orDefault (IdleTimeout c) defaultGatewayIdleTimeout)
               (orDefault (MaxPacketsPerSecond c) defaultGatewayPacketsPerSecond)).

(** ** The packet rate *)

Record packetRate := mkRate { rateLimit : Z; rateStart : Time; rateUsed : Z }.

Definition allow (now : Time) (r : packetRate) : packetRate * bool :=
  let r := if (rateStart r =? 0) || negb (now <? rateStart r + second) then mkRate (rateLimit r) now 0 else r in
  let r := mkRate (rateLimit r) (rateStart r) (rateUsed r + 1) in
  (r, rateUsed r <=? rateLimit r).

(** ** Packets *)

Definition containsLineTerminator (payload : list byte) : bool :=
  existsb (λ b, bool_decide (b = x0a) || bool_decide (b = x0d)) payload.

Definition validResponsePacket (payload : list byte) (limit : Z) : bool :=
  (0 <? len payload) && (len payload + 1 <=? limit) && negb (containsLineTerminator payload).

(** [readLimitedLine] of what [ReadSlice] returned; the flag of an error says
    whether it is a timeout. *)
Definition readLimitedLine (limit : Z) (r : res bool (list byte)) : res bool (list byte) :=
  match r with
  | Err timeout => Err timeout
  | Ok line => if (len line =? 0) || (limit <? len line) || bool_decide (last line ≠ Some x0a) then Err false else Ok line
  end.

Definition readErrorCode (timeout : bool) (fallback : string) : string := if timeout then "timeout" else fallback.

Section Gateway.
(** The application's payloads and results. *)
Context {V X : Type}.

Record Route := mkRoute { rTarget : ServiceRef; rCommand : CommandID; rPayload : V; rCall : bool }.

Definition validRoute (r : Route) : bool :=
  bool_decide (Node (rTarget r) ≠ "") && negb (ID (rTarget r) =? 0) && negb (rCommand r =? 0).

Inductive action :=
| WroteError (code : string)
| WroteOK
| WroteResponse (payload : list byte)
| CloseOther (id : ConnectionID)
| Verified (p : GatewayProof) (accepted : bool)
| CheckedBound (i : SessionIdentity) (bound : bool)
| SentCommand (at_ : Time) (r : Route)
| CalledCommand (at_ : Time) (r : Route)
| Unbound (generation : Z).

(** What the gateway needs of a registry ([GatewayRegistry]). *)
Class GatewayRegistry (W : Type) := {
  gwVerify : Time → GatewayProof → ConnectionID → W → W * res entryError SessionBinding;
  gwIsBound : Time → SessionIdentity → ConnectionID → W → W * bool;
  gwUnbind : ConnectionID → Z → W → W
}.

Context {W : Type} {GR : GatewayRegistry W}.
Context (mapPacket : SessionIdentity → list byte → res string Route)      (** [ProtocolMapper.Map] *)
        (encodeResult : option (SessionIdentity → list byte → X → res string (list byte))). (** [CallResponseMapper], if it is one *)

(** One packet and what the world answers while it is served. *)
Record packetInput := mkPacketInput {
  meanwhile : W → W;
  readSlice : res bool (list byte);
  checkNow : Time;
  rateNow : Time;
  sendError : error rtError;
  callAnswer : res rtError X;
  writeOk : bool
}.

(** The loop; the end of the list is a connection that failed. *)
Fixpoint serve (limit : Z) (id : ConnectionID) (b : SessionIdentity) (rate : packetRate) (l : list packetInput) (w : W)
  : W * list action :=
  match l with
  | [] => (w, [])
  | i :: l =>
      let w := meanwhile i w in
      match readLimitedLine limit (readSlice i) with
      | Err timeout => (w, if timeout then [WroteError "timeout"] else [])
      | Ok line =>
          let packet := take (length line - 1) line in
          let '(w, bound) := gwIsBound (checkNow i) b id w in
          if negb bound then (w, [CheckedBound b false; WroteError "session_revoked"])
          else
            let '(rate, ok) := allow (rateNow i) rate in
            if negb ok then (w, [CheckedBound b true; WroteError "rate_limited"])
            else
              match mapPacket b packet with
              | Err _ => (w, [CheckedBound b true; WroteError "protocol"])
              | Ok route =>
                  if negb (validRoute route) then (w, [CheckedBound b true; WroteError "protocol"])
                  else if rCall route then
                    let did := [CheckedBound b true; CalledCommand (rateNow i) route] in
                    match callAnswer i with
                    | Err _ => (w, did ++ [WroteError "command"])
                    | Ok result =>
                        match encodeResult with
                        | None => (w, did ++ [WroteError "protocol"])
                        | Some encode =>
                            match encode b packet result with
                            | Err _ => (w, did ++ [WroteError "protocol"])
                            | Ok response =>
                                if negb (validResponsePacket response limit) then (w, did ++ [WroteError "protocol"])
                                else if negb (writeOk i) then (w, did)
                                else let '(w, t) := serve limit id b rate l w in (w, did ++ WroteResponse response :: t)
                            end
                        end
                    end
                  else
                    let did := [CheckedBound b true; SentCommand (rateNow i) route] in
                    match sendError i with
                    | Some _ => (w, did ++ [WroteError "command"])
                    | None => if negb (writeOk i) then (w, did)
                              else let '(w, t) := serve limit id b rate l w in (w, did ++ WroteOK :: t)
                    end
              end
      end
  end.

(** [handle] of the gateway adapter: the slot, the random identifier, the auth line
    and then the packets.  The binding is given up when the connection ends. *)
Definition handle (c : gatewayConfig) (slotFree : bool) (id : option ConnectionID) (authLine : res bool (list byte))
    (verifyNow : Time) (okWritten : bool) (l : list packetInput) (w : W) : W * list action :=
  if negb slotFree then (w, [WroteError "busy"])
  else
    match id with
    | None => (w, [])
    | Some id =>
        match readLimitedLine (MaxPacketBytes c) authLine with
        | Err timeout => (w, [WroteError (readErrorCode timeout "invalid_proof")])
        | Ok line =>
            match ParseAuthLine line with
            | Err _ => (w, [WroteError "invalid_proof"])
            | Ok proof =>
                let '(w, r) := gwVerify verifyNow proof id w in
                match r with
                | Err _ => (w, [Verified proof false; WroteError "invalid_proof"])
                | Ok binding =>
                    let b := Identity binding in
                    let close := if bool_decide (bReplaced binding = "") then [] else [CloseOther (bReplaced binding)] in
                    let '(w, t) := if negb okWritten then (w, [])
                                   else let '(w, t) := serve (MaxPacketBytes c) id b (mkRate (MaxPacketsPerSecond c) 0 0) l w in
                                        (w, WroteOK :: t) in
                    (gwUnbind id (sGeneration b) w, Verified proof true :: close ++ t ++ [Unbound (sGeneration b)])
                end
            end
        end
    end.
End Gateway.
Arguments Route V : clear implicits.
Arguments action V : clear implicits.

(** ** The login adapter *)

Record VerifiedLogin := mkVerified { vlIdentity : AuthIdentity; vlSecret : list byte; vlExpiresAt : Time }.

Inductive loginAction :=
| LWroteError (code : string)
| LWroteTicket (line : list byte)
| LCloseOther (id : ConnectionID)
| LDiscarded (ref : SecretRef).

(** [strconv.FormatInt] of a millisecond count, the minus sign included. *)
Definition formatInt (z : Z) : list byte := if z <? 0 then x2d :: formatUint (- z) else formatUint z.

Definition formatTicketLine (unixMilli : Time → Z) (t : LoginTicket) : res entryError (list byte) :=
  if negb (validText (tUID t)) || negb (validText (tSubID t)) || negb (validText (tServer t)) || (tGeneration t =? 0)
     || (tExpiresAt t =? 0)
  then Err ErrInvalidTicket
  else Ok (bytes_of "TICKET" ++ x20 :: encodedText (tUID t) ++ x20 :: encodedText (tSubID t) ++ x20 :: encodedText (tServer t)
           ++ x20 :: formatUint (tGeneration t) ++ x20 :: formatInt (unixMilli (tExpiresAt t)) ++ [x0a]).

(** [handshakeErrorCode]: whether the context's deadline passed, and whether the error is a timeout. *)
Definition handshakeErrorCode (deadline timeout : bool) : string := if deadline || timeout then "timeout" else "unauthorized".

Section LoginAdapter.
(** The registry and the issuer act on the world [W]. *)
Context {W : Type} (store : AuthIdentity → list byte → Time → W → W * res entryError SecretRef)
  (discard : SecretRef → W → W) (issueTicket : IssueTicket → W → W * res (bool * entryError) TicketIssue)
  (unixMilli : Time → Z).

(** [accepted]: what the handshake returned, its flag saying whether the error is a
    timeout; [deadline1], [deadline2]: whether the deadline had passed. *)
Definition loginHandle (slotFree deadlineSet : bool) (accepted : res bool VerifiedLogin) (deadline1 deadline2 : bool) (w : W)
  : W * list loginAction :=
  if negb slotFree then (w, [LWroteError "busy"])
  else if negb deadlineSet then (w, [])
  else
    match accepted with
    | Err timeout => (w, [LWroteError (handshakeErrorCode deadline1 timeout)])
    | Ok v =>
        if negb (validIdentity (vlIdentity v)) || (len (vlSecret v) <? 32) || (vlExpiresAt v =? 0)
        then (w, [LWroteError (handshakeErrorCode deadline1 false)])
        else
          let '(w, r) := store (vlIdentity v) (vlSecret v) (vlExpiresAt v) w in
          match r with
          | Err _ => (w, [LWroteError "unavailable"])
          | Ok ref =>
              let '(w, r) := issueTicket (mkIssueTicket (vlIdentity v) ref (vlExpiresAt v)) w in
              match r with
              | Err (timeout, _) => (discard ref w, [LDiscarded ref; LWroteError (handshakeErrorCode deadline2 timeout)])
              | Ok iss =>
                  let close := if bool_decide (ReplacedConnectionID iss = "") then [] else [LCloseOther (ReplacedConnectionID iss)] in
                  (w, close ++ match formatTicketLine unixMilli (Ticket iss) with
                               | Err _ => [LWroteError "unavailable"]
                               | Ok line => [LWroteTicket line]
                               end)
              end
          end
    end.
End LoginAdapter.

(** ** The gateway is guarded *)



Section Facts.
Context {V X W : Type} {GR : GatewayRegistry W}
  (mapPacket : SessionIdentity → list byte → res string (Route V))
  (encodeResult : option (SessionIdentity → list byte → X → res string (list byte))).







End Facts.

(** ** The rate *)







(** A registry that always holds the binding, and a client that sends five packets
    within a second. *)
#[local] Instance boundRegistry : GatewayRegistry unit := {|
  gwVerify _ _ _ w := (w, Err ErrInvalidProof); gwIsBound _ _ _ w := (w, true); gwUnbind _ _ w := w
|}.

