(* ===== verification/Control.v ===== *)
(** * The control plane: data, validation and error codes

    The types of [src/tooling/control] ([drain_types.go], [stop_types.go],
    [recovery_types.go]), their validation and normalisation
    ([drain_validation.go], [recovery_validation.go], [validation.go]), the copies
    of [drain_copy.go] and the error codes of [commands.go] and [service.go].

    A Go string that enumerates constants is an inductive type with a constructor
    per constant and one for every other string.  A slice whose nil-ness the code
    looks at is an [option]; [appendNil] is [append([]T(nil), l...)], which is nil
    for an empty [l].  The deep copies of service sets ([cloneDrainServiceSet],
    [cloneDrainTags]) are the identity on values. *)

From stdpp Require Import prelude gmap strings list sorting.
From Stdlib Require Import ZArith Lia.
From S2P Require Import Prelude Types GoText Directory.

Local Open Scope Z_scope.

Abbreviation Principal := string (only parsing).
Abbreviation RequestID := string (only parsing).
Abbreviation BlueprintID := string (only parsing).

Inductive controlError :=
| ErrInvalidConfig | ErrInvalidCaller | ErrInvalidNode | ErrNodeNotFound | ErrNodeDisabled | ErrUnauthorized
| ErrInvalidPrincipal | ErrInvalidRequestID | ErrInvalidDrainRequest | ErrRequestConflict | ErrDrainOperationNotFound
| ErrOperationOwnerMismatch | ErrInvalidResponse | ErrUnsupportedCommand | ErrNodeStopQueueFull | ErrNodeStopRunnerClosed
| ErrInvalidStopRequest | ErrStopOperationNotFound | ErrStopDisabled | ErrStopRequestConflict | ErrStopNotReady
| ErrStopTargetMismatch | ErrInvalidRecoveryRequest | ErrRecoveryOperationNotFound | ErrRecoveryRequestConflict
| ErrRecoveryNotReady | ErrRecoveryQueueFull | ErrRecoveryRunnerClosed
| ErrCall (e : rtError).   (** an error of a [Call], passed through *)
#[global] Instance controlError_none_dec (e : error controlError) : Decision (e = None).
Proof. destruct e; [by right|by left]. Defined.

Definition appendNil {A} (l : list A) : option (list A) := match l with [] => None | _ => Some l end.

(** ** Drain operations *)

Inductive DrainPhase :=
| DrainPreparing | DrainPublishUnknown | DrainGuarding | DrainWaitingVisitors | DrainReadyToStop | DrainConflict
| DrainSuperseded | DrainPhaseOther (text : string).
#[global] Instance DrainPhase_eq_dec : EqDecision DrainPhase.
Proof. solve_decision. Defined.

Definition drainPhaseText (p : DrainPhase) : string :=
  match p with
  | DrainPreparing => "preparing" | DrainPublishUnknown => "publish_unknown" | DrainGuarding => "guarding"
  | DrainWaitingVisitors => "waiting_visitors" | DrainReadyToStop => "ready_to_stop" | DrainConflict => "conflict"
  | DrainSuperseded => "superseded" | DrainPhaseOther t => t
  end.

Record DrainTarget := mkDrainTarget { dtRef : ServiceRef; Guarded : bool; StrongVisitorCount : Z }.

Record DrainOperation := mkDrainOperation {
  doRequestID : RequestID; doPrincipal : Principal; doGroup : GroupName; doExpected : ServiceSetVersion;
  doOriginal : ServiceSet; doPublished : ServiceSet; doTargets : option (list DrainTarget); doPhase : DrainPhase;
  doCreatedAt : Time; doUpdatedAt : Time
}.

Record DrainAudit := mkAudit {
  auSequence : Z; auRequestID : RequestID; auPrincipal : Principal; auAction : string; auOutcome : string;
  auOccurredAt : Time
}.

Record StartDrainRequest := mkStartDrain {
  sdRequestID : RequestID; sdPrincipal : Principal; sdGroup : GroupName; sdExpected : ServiceSetVersion;
  sdNextRefs : list ServiceRef; sdNextTags : option (gmap string string)
}.

(** ** Stop operations *)

Inductive StopTargetState :=
| StopTargetPending | StopTargetQueued | StopTargetStopped | StopTargetSuperseded | StopTargetFailed
| StopTargetStateOther (text : string).
#[global] Instance StopTargetState_eq_dec : EqDecision StopTargetState.
Proof. solve_decision. Defined.

Inductive StopFailure :=
| StopFailureNone | StopFailureQueueFull | StopFailureRunnerClosed | StopFailureDirectoryUnavailable | StopFailureRuntimeStop
| StopFailureOther (text : string).
#[global] Instance StopFailure_eq_dec : EqDecision StopFailure.
Proof. solve_decision. Defined.

Record NodeStopReceipt := mkStopReceipt {
  srRequestID : RequestID; srTarget : ServiceRef; srState : StopTargetState; srFailure : StopFailure; srUpdatedAt : Time
}.
Record StopTargetRequest := mkStopTargetRequest { strTarget : ServiceRef; strAgent : ServiceRef }.
#[global] Instance StopTargetRequest_eq_dec : EqDecision StopTargetRequest.
Proof. solve_decision. Defined.
Record StopTarget := mkStopTarget {
  stTarget : ServiceRef; stAgent : ServiceRef; stState : StopTargetState; stFailure : StopFailure
}.

Inductive StopPhase :=
| StopDispatching | StopWaiting | StopCompleted | StopFailed | StopSuperseded | StopPhaseOther (text : string).
#[global] Instance StopPhase_eq_dec : EqDecision StopPhase.
Proof. solve_decision. Defined.

Definition stopPhaseText (p : StopPhase) : string :=
  match p with
  | StopDispatching => "dispatching" | StopWaiting => "waiting" | StopCompleted => "completed" | StopFailed => "failed"
  | StopSuperseded => "superseded" | StopPhaseOther t => t
  end.

Record StopOperation := mkStopOperation {
  soRequestID : RequestID; soPrincipal : Principal; soGroup : GroupName; soPublished : ServiceSet;
  soTargets : option (list StopTarget); soPhase : StopPhase; soCreatedAt : Time; soUpdatedAt : Time
}.
Record BeginStopRequest := mkBeginStop {
  bsRequestID : RequestID; bsPrincipal : Principal; bsTargets : list StopTargetRequest
}.
Record NodeStopTask := mkStopTask {
  ntAgent : ServiceRef; ntRequestID : RequestID; ntTarget : ServiceRef; ntGroup : GroupName; ntPublished : ServiceSet
}.
Record nodeStopResult := mkStopResult {
  nsRequestID : RequestID; nsTarget : ServiceRef; nsState : StopTargetState; nsFailure : StopFailure
}.

(** ** Recovery operations *)

Inductive RecoveryTargetState :=
| RecoveryTargetPending | RecoveryTargetCreating | RecoveryTargetCreated | RecoveryTargetPublished | RecoveryTargetFailed
| RecoveryTargetAbandoned | RecoveryTargetStateOther (text : string).
#[global] Instance RecoveryTargetState_eq_dec : EqDecision RecoveryTargetState.
Proof. solve_decision. Defined.

Inductive RecoveryFailure :=
| RecoveryFailureNone | RecoveryFailureQueueFull | RecoveryFailureRunnerClosed | RecoveryFailureBlueprintUnavailable
| RecoveryFailureCreate | RecoveryFailureDirectoryUnavailable | RecoveryFailureDirectoryChanged | RecoveryFailurePublish
| RecoveryFailureOther (text : string).
#[global] Instance RecoveryFailure_eq_dec : EqDecision RecoveryFailure.
Proof. solve_decision. Defined.

Record RecoveryTarget := mkRecoveryTarget {
  rtRemoved : ServiceRef; rtAgent : ServiceRef; rtBlueprint : BlueprintID; rtCreated : ServiceRef;
  rtState : RecoveryTargetState; rtFailure : RecoveryFailure
}.
Record RecoveryTargetRequest := mkRecoveryTargetRequest { rrRemoved : ServiceRef; rrAgent : ServiceRef; rrBlueprint : BlueprintID }.
#[global] Instance RecoveryTargetRequest_eq_dec : EqDecision RecoveryTargetRequest.
Proof. solve_decision. Defined.

Inductive RecoveryPhase :=
| RecoveryCreating | RecoveryAwaitingConfirmation | RecoveryPublishing | RecoveryCompleted | RecoveryFailed | RecoveryAbandoned
| RecoveryPhaseOther (text : string).
#[global] Instance RecoveryPhase_eq_dec : EqDecision RecoveryPhase.
Proof. solve_decision. Defined.

Definition recoveryPhaseText (p : RecoveryPhase) : string :=
  match p with
  | RecoveryCreating => "creating" | RecoveryAwaitingConfirmation => "awaiting_confirmation"
  | RecoveryPublishing => "publishing" | RecoveryCompleted => "completed" | RecoveryFailed => "failed"
  | RecoveryAbandoned => "abandoned" | RecoveryPhaseOther t => t
  end.

Record RecoveryOperation := mkRecoveryOperation {
  roRequestID : RequestID; roPrincipal : Principal; roGroup : GroupName; roExpected : ServiceSet; roPublished : ServiceSet;
  roTargets : option (list RecoveryTarget); roPhase : RecoveryPhase; roCreatedAt : Time; roUpdatedAt : Time
}.
Record BeginRecoveryRequest := mkBeginRecovery {
  brRequestID : RequestID; brPrincipal : Principal; brGroup : GroupName; brExpected : ServiceSet;
  brTargets : list RecoveryTargetRequest
}.
Record RecoveryCreateTask := mkCreateTask {
  rcAgent : ServiceRef; rcRequestID : RequestID; rcRemoved : ServiceRef; rcBlueprint : BlueprintID
}.
#[global] Instance RecoveryCreateTask_eq_dec : EqDecision RecoveryCreateTask.
Proof. solve_decision. Defined.
Record RecoveryReceipt := mkRecoveryReceipt {
  rvRequestID : RequestID; rvRemoved : ServiceRef; rvBlueprint : BlueprintID; rvCreated : ServiceRef;
  rvState : RecoveryTargetState; rvFailure : RecoveryFailure; rvUpdatedAt : Time
}.
Record recoveryCreateResult := mkCreateResult {
  rsRequestID : RequestID; rsRemoved : ServiceRef; rsBlueprint : BlueprintID; rsCreated : ServiceRef;
  rsState : RecoveryTargetState; rsFailure : RecoveryFailure
}.

(** ** Zero values *)

Definition zeroSet : ServiceSet := mkSet "" zeroVersion None None.
Definition zeroDrainOperation : DrainOperation :=
  mkDrainOperation "" "" "" zeroVersion zeroSet zeroSet None (DrainPhaseOther "") 0 0.
Definition zeroStopOperation : StopOperation := mkStopOperation "" "" "" zeroSet None (StopPhaseOther "") 0 0.
Definition zeroRecoveryOperation : RecoveryOperation :=
  mkRecoveryOperation "" "" "" zeroSet zeroSet None (RecoveryPhaseOther "") 0 0.
Definition zeroStopReceipt : NodeStopReceipt := mkStopReceipt "" zeroRef (StopTargetStateOther "") StopFailureNone 0.
Definition zeroRecoveryReceipt : RecoveryReceipt :=
  mkRecoveryReceipt "" zeroRef "" zeroRef (RecoveryTargetStateOther "") RecoveryFailureNone 0.

(** ** Validation of names and sets *)

Definition validNode (node : NodeID) : bool := negb (blank node).
Definition validAgent (node : NodeID) (agent : ServiceRef) : bool := bool_decide (Node agent = node) && negb (ID agent =? 0).
Definition validServiceRef (ref : ServiceRef) : bool := validNode (Node ref) && negb (ID ref =? 0).

Definition validTrimmedUTF8 (value : string) : bool :=
  ValidString value && bool_decide (value ≠ "") && bool_decide (TrimSpace value = value).
Definition validPrincipal (p : Principal) : bool := validTrimmedUTF8 p.
Definition validRequestID (r : RequestID) : bool := validTrimmedUTF8 r.
Definition validBlueprintID (b : BlueprintID) : bool := validTrimmedUTF8 b.
Definition validDrainGroup (g : GroupName) : bool := validTrimmedUTF8 g.
Definition validDrainVersion (v : ServiceSetVersion) : bool := negb (AuthorityEpoch v =? 0) && negb (Revision v =? 0).
Definition validDrainTags (tags : gmap string string) : bool :=
  forallb (λ e, validTrimmedUTF8 e.1 && ValidString e.2) (map_to_list tags).

Definition validDrainServiceSet (set : ServiceSet) : bool :=
  validDrainGroup (Name set) && validDrainVersion (Version set)
  && match Refs set, Tags set with
     | Some refs, Some tags => validDrainTags tags && forallb validServiceRef refs && strictlySorted refs
     | _, _ => false
     end.

Definition emptyDrainServiceSet (set : ServiceSet) : bool :=
  bool_decide (Name set = "") && bool_decide (Version set = zeroVersion)
  && match Refs set, Tags set with None, None => true | _, _ => false end.

Definition sameDrainServiceSet (left right : ServiceSet) : bool :=
  bool_decide (Name left = Name right) && bool_decide (Version left = Version right)
  && bool_decide (refsOf left = refsOf right) && bool_decide (default ∅ (Tags left) = default ∅ (Tags right)).

(** ** Validation of drains *)

Definition normalizeStartDrainRequest (r : StartDrainRequest) : res controlError StartDrainRequest :=
  if negb (validRequestID (sdRequestID r)) then Err ErrInvalidRequestID
  else if negb (validPrincipal (sdPrincipal r)) then Err ErrInvalidPrincipal
  else if negb (validDrainGroup (sdGroup r)) || negb (validDrainVersion (sdExpected r))
          || negb (validDrainTags (default ∅ (sdNextTags r))) then Err ErrInvalidDrainRequest
  else if negb (forallb validServiceRef (sdNextRefs r)) then Err ErrInvalidDrainRequest
  else Ok (mkStartDrain (sdRequestID r) (sdPrincipal r) (sdGroup r) (sdExpected r)
             (dedupe [] (merge_sort refLe (sdNextRefs r))) (Some (default ∅ (sdNextTags r)))).

Definition sameStartDrainRequest (a b : StartDrainRequest) : bool :=
  bool_decide (sdRequestID a = sdRequestID b) && bool_decide (sdPrincipal a = sdPrincipal b)
  && bool_decide (sdGroup a = sdGroup b) && bool_decide (sdExpected a = sdExpected b)
  && bool_decide (sdNextRefs a = sdNextRefs b) && bool_decide (default ∅ (sdNextTags a) = default ∅ (sdNextTags b)).

(** [drainTargets]: the members that are not retained, sorted. *)
Definition targetLe (a b : DrainTarget) : Prop := refLe (dtRef a) (dtRef b).
#[global] Instance targetLe_dec : RelDecision targetLe.
Proof. intros a b. unfold targetLe. apply _. Defined.

Definition drainTargets (original published : ServiceSet) : list DrainTarget :=
  merge_sort targetLe
    ((λ ref, mkDrainTarget ref false 0) <$> filter (λ ref, ref ∉ refsOf published) (refsOf original)).

Definition validDrainPhase (p : DrainPhase) : bool := match p with DrainPhaseOther _ => false | _ => true end.

Definition validDrainTargets (targets : option (list DrainTarget)) (original published : ServiceSet) : bool :=
  match targets with
  | None => false
  | Some l => bool_decide (dtRef <$> l = dtRef <$> drainTargets original published)
              && forallb (λ t, 0 <=? StrongVisitorCount t) l
  end.

(** [len] of the targets. *)
Definition lenTargets {A} (l : option (list A)) : nat := length (default [] l).

Definition validDrainOperation (o : DrainOperation) : bool :=
  let originalOk := validDrainServiceSet (doOriginal o) && bool_decide (Name (doOriginal o) = doGroup o)
                    && bool_decide (Version (doOriginal o) = doExpected o) in
  let publishedOk := validDrainServiceSet (doPublished o) && bool_decide (Name (doPublished o) = doGroup o)
                     && (AuthorityEpoch (Version (doPublished o)) =? AuthorityEpoch (doExpected o))
                     && (Revision (Version (doPublished o)) =? u64_succ (Revision (doExpected o))) in
  validRequestID (doRequestID o) && validPrincipal (doPrincipal o) && validDrainGroup (doGroup o)
  && validDrainVersion (doExpected o) && validDrainPhase (doPhase o) && negb (doCreatedAt o =? 0)
  && negb (doUpdatedAt o <? doCreatedAt o)
  && (emptyDrainServiceSet (doOriginal o) || originalOk) && (emptyDrainServiceSet (doPublished o) || publishedOk)
  && match doPhase o with
     | DrainPreparing => emptyDrainServiceSet (doPublished o) && Nat.eqb (lenTargets (doTargets o)) 0
     | DrainPublishUnknown =>
         validDrainServiceSet (doOriginal o) && emptyDrainServiceSet (doPublished o) && Nat.eqb (lenTargets (doTargets o)) 0
     | DrainConflict =>
         (emptyDrainServiceSet (doOriginal o) || originalOk) && emptyDrainServiceSet (doPublished o)
         && Nat.eqb (lenTargets (doTargets o)) 0
     | DrainGuarding | DrainWaitingVisitors | DrainReadyToStop =>
         validDrainServiceSet (doOriginal o) && validDrainServiceSet (doPublished o)
         && validDrainTargets (doTargets o) (doOriginal o) (doPublished o)
     | DrainSuperseded =>
         validDrainServiceSet (doOriginal o)
         && (if emptyDrainServiceSet (doPublished o) then Nat.eqb (lenTargets (doTargets o)) 0
             else validDrainServiceSet (doPublished o) && validDrainTargets (doTargets o) (doOriginal o) (doPublished o))
     | DrainPhaseOther _ => true
     end.

(** The loop of [validDrainAudits] with the previous sequence number. *)
Fixpoint validAuditsFrom (previous : Z) (l : list DrainAudit) : bool :=
  match l with
  | [] => true
  | a :: l =>
      negb (auSequence a =? 0) && negb (auSequence a <=? previous) && validRequestID (auRequestID a)
      && validPrincipal (auPrincipal a) && validTrimmedUTF8 (auAction a) && validTrimmedUTF8 (auOutcome a)
      && negb (auOccurredAt a =? 0) && validAuditsFrom (auSequence a) l
  end.
Definition validDrainAudits (l : list DrainAudit) : bool := validAuditsFrom 0 l.

(** ** Validation of stops *)

Definition validStopTargetRequest (t : StopTargetRequest) : bool :=
  validServiceRef (strTarget t) && validServiceRef (strAgent t) && bool_decide (strTarget t ≠ strAgent t)
  && bool_decide (Node (strTarget t) = Node (strAgent t)).

Definition stopRequestLe (a b : StopTargetRequest) : Prop := refLe (strTarget a) (strTarget b).
#[global] Instance stopRequestLe_dec : RelDecision stopRequestLe.
Proof. intros a b. unfold stopRequestLe. apply _. Defined.

(** The loop that looks for equal neighbours. *)
Fixpoint equalNeighbours (l : list ServiceRef) : bool :=
  match l with
  | [] => false
  | a :: l' => match l' with [] => false | b :: _ => bool_decide (a = b) || equalNeighbours l' end
  end.

Definition normalizeBeginStopRequest (r : BeginStopRequest) : res controlError BeginStopRequest :=
  if negb (validRequestID (bsRequestID r)) then Err ErrInvalidRequestID
  else if negb (validPrincipal (bsPrincipal r)) then Err ErrInvalidPrincipal
  else if negb (forallb validStopTargetRequest (bsTargets r)) then Err ErrInvalidStopRequest
  else
    let targets := merge_sort stopRequestLe (bsTargets r) in
    if equalNeighbours (strTarget <$> targets) then Err ErrInvalidStopRequest
    else Ok (mkBeginStop (bsRequestID r) (bsPrincipal r) targets).

Definition sameBeginStopRequest (a b : BeginStopRequest) : bool :=
  bool_decide (bsRequestID a = bsRequestID b) && bool_decide (bsPrincipal a = bsPrincipal b)
  && bool_decide (bsTargets a = bsTargets b).

Definition validNodeStopResult (r : nodeStopResult) : bool :=
  validRequestID (nsRequestID r) && validServiceRef (nsTarget r)
  && match nsState r with
     | StopTargetStopped | StopTargetSuperseded => bool_decide (nsFailure r = StopFailureNone)
     | StopTargetPending => bool_decide (nsFailure r = StopFailureDirectoryUnavailable)
     | StopTargetFailed =>
         bool_decide (nsFailure r = StopFailureRuntimeStop) || bool_decide (nsFailure r = StopFailureRunnerClosed)
     | _ => false
     end.

Definition validNodeStopReceipt (r : NodeStopReceipt) : bool :=
  validRequestID (srRequestID r) && validServiceRef (srTarget r) && negb (srUpdatedAt r =? 0)
  && match srState r with
     | StopTargetQueued | StopTargetStopped | StopTargetSuperseded => bool_decide (srFailure r = StopFailureNone)
     | StopTargetPending =>
         bool_decide (srFailure r = StopFailureQueueFull) || bool_decide (srFailure r = StopFailureDirectoryUnavailable)
     | StopTargetFailed =>
         bool_decide (srFailure r = StopFailureRuntimeStop) || bool_decide (srFailure r = StopFailureRunnerClosed)
     | StopTargetStateOther _ => false
     end.

Definition validStopTarget (t : StopTarget) : bool :=
  validStopTargetRequest (mkStopTargetRequest (stTarget t) (stAgent t))
  && match stState t with
     | StopTargetQueued | StopTargetStopped | StopTargetSuperseded => bool_decide (stFailure t = StopFailureNone)
     | StopTargetPending =>
         bool_decide (stFailure t = StopFailureNone) || bool_decide (stFailure t = StopFailureQueueFull)
         || bool_decide (stFailure t = StopFailureDirectoryUnavailable)
     | StopTargetFailed =>
         bool_decide (stFailure t = StopFailureRunnerClosed) || bool_decide (stFailure t = StopFailureRuntimeStop)
     | StopTargetStateOther _ => false
     end.

Definition validStopPhase (p : StopPhase) : bool := match p with StopPhaseOther _ => false | _ => true end.

(** The loop of the failed phase: no target is open or superseded, one failed. *)
Definition closedTarget (t : StopTarget) : bool :=
  negb (bool_decide (stState t = StopTargetPending)) && negb (bool_decide (stState t = StopTargetQueued))
  && negb (bool_decide (stState t = StopTargetSuperseded)).

Definition validStopOperation (o : StopOperation) : bool :=
  validRequestID (soRequestID o) && validPrincipal (soPrincipal o) && validDrainGroup (soGroup o)
  && validDrainServiceSet (soPublished o) && bool_decide (Name (soPublished o) = soGroup o) && validStopPhase (soPhase o)
  && match soTargets o with
     | None => false
     | Some l =>
         negb (soCreatedAt o =? 0) && negb (soUpdatedAt o <? soCreatedAt o)
         && forallb validStopTarget l && strictlySorted (stTarget <$> l)
         && match soPhase o with
            | StopCompleted => forallb (λ t, bool_decide (stState t = StopTargetStopped)) l
            | StopFailed => forallb closedTarget l && existsb (λ t, bool_decide (stState t = StopTargetFailed)) l
            | _ => true
            end
     end.

Definition validNodeStopTask (t : NodeStopTask) : bool :=
  validServiceRef (ntAgent t) && validRequestID (ntRequestID t) && validServiceRef (ntTarget t)
  && bool_decide (ntAgent t ≠ ntTarget t) && bool_decide (Node (ntAgent t) = Node (ntTarget t)) && validDrainGroup (ntGroup t)
  && validDrainServiceSet (ntPublished t) && bool_decide (Name (ntPublished t) = ntGroup t).

Definition sameNodeStopTask (a b : NodeStopTask) : bool :=
  bool_decide (ntAgent a = ntAgent b) && bool_decide (ntRequestID a = ntRequestID b) && bool_decide (ntTarget a = ntTarget b)
  && bool_decide (ntGroup a = ntGroup b) && sameDrainServiceSet (ntPublished a) (ntPublished b).

(** ** Validation of recoveries *)

Definition validRecoveryTargetRequest (t : RecoveryTargetRequest) : bool :=
  validServiceRef (rrRemoved t) && validServiceRef (rrAgent t) && bool_decide (rrRemoved t ≠ rrAgent t)
  && bool_decide (Node (rrRemoved t) = Node (rrAgent t)) && validBlueprintID (rrBlueprint t).

Definition recoveryRequestLe (a b : RecoveryTargetRequest) : Prop := refLe (rrRemoved a) (rrRemoved b).
#[global] Instance recoveryRequestLe_dec : RelDecision recoveryRequestLe.
Proof. intros a b. unfold recoveryRequestLe. apply _. Defined.

Definition normalizeBeginRecoveryRequest (r : BeginRecoveryRequest) : res controlError BeginRecoveryRequest :=
  if negb (validRequestID (brRequestID r)) then Err ErrInvalidRequestID
  else if negb (validPrincipal (brPrincipal r)) then Err ErrInvalidPrincipal
  else if negb (validDrainGroup (brGroup r)) || negb (validDrainServiceSet (brExpected r))
          || bool_decide (Name (brExpected r) ≠ brGroup r) then Err ErrInvalidRecoveryRequest
  else if bool_decide (brTargets r = []) then Err ErrInvalidRecoveryRequest
  else if negb (forallb validRecoveryTargetRequest (brTargets r)) then Err ErrInvalidRecoveryRequest
  else
    let targets := merge_sort recoveryRequestLe (brTargets r) in
    if equalNeighbours (rrRemoved <$> targets) then Err ErrInvalidRecoveryRequest
    else Ok (mkBeginRecovery (brRequestID r) (brPrincipal r) (brGroup r) (brExpected r) targets).

Definition sameBeginRecoveryRequest (a b : BeginRecoveryRequest) : bool :=
  bool_decide (brRequestID a = brRequestID b) && bool_decide (brPrincipal a = brPrincipal b)
  && bool_decide (brGroup a = brGroup b) && sameDrainServiceSet (brExpected a) (brExpected b)
  && bool_decide (brTargets a = brTargets b).

Definition validRecoveryTargetState (s : RecoveryTargetState) : bool :=
  match s with RecoveryTargetStateOther _ => false | _ => true end.
Definition validRecoveryFailure (f : RecoveryFailure) : bool := match f with RecoveryFailureOther _ => false | _ => true end.
Definition validRecoveryPhase (p : RecoveryPhase) : bool := match p with RecoveryPhaseOther _ => false | _ => true end.

Definition validRecoveryTarget (t : RecoveryTarget) : bool :=
  let created := validServiceRef (rtCreated t) && bool_decide (rtCreated t ≠ rtRemoved t)
                 && bool_decide (rtCreated t ≠ rtAgent t) && bool_decide (Node (rtCreated t) = Node (rtAgent t)) in
  validRecoveryTargetRequest (mkRecoveryTargetRequest (rtRemoved t) (rtAgent t) (rtBlueprint t))
  && validRecoveryTargetState (rtState t) && validRecoveryFailure (rtFailure t)
  && match rtState t with
     | RecoveryTargetPending | RecoveryTargetCreating =>
         bool_decide (rtCreated t = zeroRef) && bool_decide (rtFailure t = RecoveryFailureNone)
     | RecoveryTargetCreated | RecoveryTargetPublished => created && bool_decide (rtFailure t = RecoveryFailureNone)
     | RecoveryTargetFailed => bool_decide (rtCreated t = zeroRef) && bool_decide (rtFailure t ≠ RecoveryFailureNone)
     | RecoveryTargetAbandoned =>
         bool_decide (rtFailure t = RecoveryFailureNone) && (bool_decide (rtCreated t = zeroRef) || created)
     | RecoveryTargetStateOther _ => false
     end.

Definition containsRecoveryRef (refs : list ServiceRef) (target : ServiceRef) : bool := bool_decide (target ∈ refs).

Definition validRecoveryPublishedSet (o : RecoveryOperation) : bool :=
  let set := roPublished o in
  validDrainServiceSet set && bool_decide (Name set = roGroup o)
  && (AuthorityEpoch (Version set) =? AuthorityEpoch (Version (roExpected o)))
  && (Revision (Version set) =? u64_succ (Revision (Version (roExpected o))))
  && forallb (λ ref, containsRecoveryRef (refsOf set) ref) (refsOf (roExpected o))
  && forallb (λ t, negb (containsRecoveryRef (refsOf set) (rtRemoved t)) && containsRecoveryRef (refsOf set) (rtCreated t))
       (default [] (roTargets o)).

Definition validRecoveryOperation (o : RecoveryOperation) : bool :=
  validRequestID (roRequestID o) && validPrincipal (roPrincipal o) && validDrainGroup (roGroup o)
  && validDrainServiceSet (roExpected o) && bool_decide (Name (roExpected o) = roGroup o) && validRecoveryPhase (roPhase o)
  && match roTargets o with
     | None => false
     | Some l =>
         negb (roCreatedAt o =? 0) && negb (roUpdatedAt o <? roCreatedAt o)
         && forallb validRecoveryTarget l && strictlySorted (rtRemoved <$> l)
         && match roPhase o with
            | RecoveryCreating => emptyDrainServiceSet (roPublished o)
            | RecoveryAwaitingConfirmation =>
                emptyDrainServiceSet (roPublished o) && forallb (λ t, bool_decide (rtState t = RecoveryTargetCreated)) l
            | RecoveryPublishing => emptyDrainServiceSet (roPublished o) || validRecoveryPublishedSet o
            | RecoveryCompleted =>
                validRecoveryPublishedSet o && forallb (λ t, bool_decide (rtState t = RecoveryTargetPublished)) l
            | RecoveryFailed =>
                forallb (λ t, negb (bool_decide (rtState t = RecoveryTargetCreating))
                              && negb (bool_decide (rtState t = RecoveryTargetPending))) l
                && (emptyDrainServiceSet (roPublished o) || validRecoveryPublishedSet o)
            | RecoveryAbandoned =>
                emptyDrainServiceSet (roPublished o) && forallb (λ t, bool_decide (rtState t = RecoveryTargetAbandoned)) l
            | RecoveryPhaseOther _ => false
            end
     end.

Definition validRecoveryCreateTask (t : RecoveryCreateTask) : bool :=
  validServiceRef (rcAgent t) && validRequestID (rcRequestID t) && validServiceRef (rcRemoved t)
  && bool_decide (rcAgent t ≠ rcRemoved t) && bool_decide (Node (rcAgent t) = Node (rcRemoved t)) && validBlueprintID (rcBlueprint t).

Definition sameRecoveryCreateTask (a b : RecoveryCreateTask) : bool := bool_decide (a = b).

Definition validRecoveryCreateResult (r : recoveryCreateResult) : bool :=
  validRequestID (rsRequestID r) && validServiceRef (rsRemoved r) && validBlueprintID (rsBlueprint r)
  && validRecoveryTargetState (rsState r) && validRecoveryFailure (rsFailure r)
  && match rsState r with
     | RecoveryTargetCreated =>
         validServiceRef (rsCreated r) && bool_decide (rsCreated r ≠ rsRemoved r) && bool_decide (rsFailure r = RecoveryFailureNone)
     | RecoveryTargetFailed =>
         bool_decide (rsCreated r = zeroRef)
         && (bool_decide (rsFailure r = RecoveryFailureQueueFull) || bool_decide (rsFailure r = RecoveryFailureBlueprintUnavailable)
             || bool_decide (rsFailure r = RecoveryFailureCreate) || bool_decide (rsFailure r = RecoveryFailureRunnerClosed))
     | _ => false
     end.

Definition validRecoveryReceipt (r : RecoveryReceipt) : bool :=
  negb (rvUpdatedAt r =? 0) && validRequestID (rvRequestID r) && validServiceRef (rvRemoved r) && validBlueprintID (rvBlueprint r)
  && match rvState r with
     | RecoveryTargetCreating => bool_decide (rvCreated r = zeroRef) && bool_decide (rvFailure r = RecoveryFailureNone)
     | RecoveryTargetCreated | RecoveryTargetFailed =>
         validRecoveryCreateResult
           (mkCreateResult (rvRequestID r) (rvRemoved r) (rvBlueprint r) (rvCreated r) (rvState r) (rvFailure r))
     | _ => false
     end.

(** ** Copies *)

(** A copy of a drain operation keeps an empty target list; the copies of the other
    two make it nil. *)
Definition cloneDrainOperation (o : DrainOperation) : DrainOperation := o.

Definition cloneStopOperation (o : StopOperation) : StopOperation :=
  mkStopOperation (soRequestID o) (soPrincipal o) (soGroup o) (soPublished o)
    (match soTargets o with Some l => appendNil l | None => None end) (soPhase o) (soCreatedAt o) (soUpdatedAt o).

Definition cloneRecoveryOperation (o : RecoveryOperation) : RecoveryOperation :=
  mkRecoveryOperation (roRequestID o) (roPrincipal o) (roGroup o) (roExpected o) (roPublished o)
    (match roTargets o with Some l => appendNil l | None => None end) (roPhase o) (roCreatedAt o) (roUpdatedAt o).

(** ** Error codes *)

Inductive errorCode :=
| responseOK | responseInvalidNode | responseNodeNotFound | responseNodeDisabled | responseUnauthorized
| responseInvalidRequest | responseInvalidPrincipal | responseInvalidRequestID | responseInvalidDrainRequest
| responseRequestConflict | responseOperationNotFound | responseOperationOwnerMismatch | responseInvalidStopRequest
| responseStopOperationNotFound | responseStopDisabled | responseStopRequestConflict | responseStopNotReady
| responseStopTargetMismatch | responseInvalidRecoveryRequest | responseRecoveryNotFound
| responseRecoveryRequestConflict | responseRecoveryNotReady | responseRecoveryDisabled
| responseOther (text : string).

Definition errorFromCode (c : errorCode) : error controlError :=
  match c with
  | responseOK => None
  | responseInvalidNode => Some ErrInvalidNode
  | responseNodeNotFound => Some ErrNodeNotFound
  | responseNodeDisabled => Some ErrNodeDisabled
  | responseUnauthorized => Some ErrUnauthorized
  | responseInvalidPrincipal => Some ErrInvalidPrincipal
  | responseInvalidRequestID => Some ErrInvalidRequestID
  | responseInvalidDrainRequest => Some ErrInvalidDrainRequest
  | responseRequestConflict => Some ErrRequestConflict
  | responseOperationNotFound => Some ErrDrainOperationNotFound
  | responseOperationOwnerMismatch => Some ErrOperationOwnerMismatch
  | responseInvalidStopRequest => Some ErrInvalidStopRequest
  | responseStopOperationNotFound => Some ErrStopOperationNotFound
  | responseStopDisabled => Some ErrStopDisabled
  | responseStopRequestConflict => Some ErrStopRequestConflict
  | responseStopNotReady => Some ErrStopNotReady
  | responseStopTargetMismatch => Some ErrStopTargetMismatch
  | responseInvalidRecoveryRequest => Some ErrInvalidRecoveryRequest
  | responseRecoveryNotFound => Some ErrRecoveryOperationNotFound
  | responseRecoveryRequestConflict => Some ErrRecoveryRequestConflict
  | responseRecoveryNotReady | responseRecoveryDisabled => Some ErrRecoveryNotReady
  | responseInvalidRequest | responseOther _ => Some ErrInvalidResponse
  end.

Definition codeFromError (e : error controlError) : errorCode :=
  match e with
  | None => responseOK
  | Some ErrInvalidNode => responseInvalidNode
  | Some ErrNodeNotFound => responseNodeNotFound
  | Some ErrNodeDisabled => responseNodeDisabled
  | Some ErrUnauthorized => responseUnauthorized
  | Some ErrInvalidPrincipal => responseInvalidPrincipal
  | Some ErrInvalidRequestID => responseInvalidRequestID
  | Some ErrInvalidDrainRequest => responseInvalidDrainRequest
  | Some ErrRequestConflict => responseRequestConflict
  | Some ErrDrainOperationNotFound => responseOperationNotFound
  | Some ErrOperationOwnerMismatch => responseOperationOwnerMismatch
  | Some ErrInvalidStopRequest => responseInvalidStopRequest
  | Some ErrStopOperationNotFound => responseStopOperationNotFound
  | Some ErrStopDisabled => responseStopDisabled
  | Some ErrStopRequestConflict => responseStopRequestConflict
  | Some ErrStopNotReady => responseStopNotReady
  | Some ErrStopTargetMismatch => responseStopTargetMismatch
  | Some ErrInvalidRecoveryRequest => responseInvalidRecoveryRequest
  | Some ErrRecoveryOperationNotFound => responseRecoveryNotFound
  | Some ErrRecoveryRequestConflict => responseRecoveryRequestConflict
  | Some ErrRecoveryNotReady => responseRecoveryNotReady
  | Some _ => responseInvalidRequest
  end.
