(* ===== verification/Coordinator.v ===== *)
(** * The drain coordinator

    [src/tooling/control/drain_service.go]: the service that drains, stops and
    recovers members of a service group on behalf of authorised operators.

    A handler is a program of the state monad [Co]: it reads and writes the fields
    of the service and appends every call it makes, with its answer, to a log.  What
    the directory, the visitor registry, the guards, the node agents and the clock
    answer is the instance of [Env], any function of the log so far.  Calls to the
    directory and the visitor registry go through the modelled clients
    ([DirectoryClient.Get], [DirectoryClient.Publish], [Drain.List]), so their
    checks of the answers are the real ones.

    A pointer to an operation record is a value that is passed and returned: no
    handler keeps one, and every handler that changes a record stores it before it
    answers. *)

From stdpp Require Import prelude gmap strings list sorting.
From Stdlib Require Import ZArith Lia.
From S2P Require Import Prelude Types Metrics GoText Drain Directory DirectoryClient Control.

Local Open Scope Z_scope.

(** ** The service *)

Record DrainCoordinatorConfig := mkCoConfig {
  Gateway : ServiceRef; AllowedPrincipals : list Principal; coDirectory : ServiceRef; VisitorRegistry : ServiceRef;
  coCallTimeout : Duration; AuditLimit : Z
}.

Record drainOperationRecord := mkDrainRecord { drRequest : StartDrainRequest; drOperation : DrainOperation }.
Record stopOperationRecord := mkStopRecord { spRequest : BeginStopRequest; spOperation : StopOperation }.
Record recoveryOperationRecord := mkRecoveryRecord { rpRequest : BeginRecoveryRequest; rpOperation : RecoveryOperation }.

Record drainCoordinatorService := mkCoordinator {
  coConfig : DrainCoordinatorConfig;
  operations : gmap RequestID drainOperationRecord;
  stops : gmap RequestID stopOperationRecord;
  recoveries : gmap RequestID recoveryOperationRecord;
  audits : list DrainAudit;
  sequence : Z;
  coMetrics : metricCollector
}.

Definition defaultCallTimeout : Duration := 3 * 10 ^ 9.
Definition defaultDrainAuditLimit : Z := 1024.

Definition validDrainCoordinatorConfig (c : DrainCoordinatorConfig) : bool :=
  validServiceRef (Gateway c) && validServiceRef (coDirectory c) && validServiceRef (VisitorRegistry c)
  && negb (bool_decide (AllowedPrincipals c = [])) && negb (coCallTimeout c <? 0) && negb (AuditLimit c <? 0)
  && forallb validPrincipal (AllowedPrincipals c) && bool_decide (NoDup (AllowedPrincipals c)).

Definition NewDrainCoordinatorService (c : DrainCoordinatorConfig) (mc : metricCollector)
  : res controlError drainCoordinatorService :=
  if negb (validDrainCoordinatorConfig c) then Err ErrInvalidConfig
  else
    let timeout := if coCallTimeout c =? 0 then defaultCallTimeout else coCallTimeout c in
    let limit := if AuditLimit c =? 0 then defaultDrainAuditLimit else AuditLimit c in
    Ok (mkCoordinator (mkCoConfig (Gateway c) (AllowedPrincipals c) (coDirectory c) (VisitorRegistry c) timeout limit)
          ∅ ∅ ∅ [] 0 mc).

Definition Stop (s : drainCoordinatorService) : drainCoordinatorService :=
  mkCoordinator (coConfig s) ∅ ∅ ∅ [] 0 (coMetrics s).

(** ** Effects *)

(** What a [Call] returns: an error, or a value that has the expected type or not. *)
Abbreviation answer X := (res rtError (option (X * errorCode))) (only parsing).

Inductive event :=
| DirectoryCall (c : Directory.command) (r : res groupError Directory.response)
| VisitorCall (c : Drain.visitorCommand) (r : Drain.callResult)
| GuardCall (target : ServiceRef) (begin : bool) (r : res rtError (option (DrainStatus * Drain.errorCode)))
| StopCall (agent : ServiceRef) (task : NodeStopTask) (r : answer NodeStopReceipt)
| StopReceiptCall (agent : ServiceRef) (id : RequestID) (target : ServiceRef) (r : answer NodeStopReceipt)
| RecoveryCall (agent : ServiceRef) (task : RecoveryCreateTask) (r : answer RecoveryReceipt)
| RecoveryReceiptCall (agent : ServiceRef) (id : RequestID) (removed : ServiceRef) (r : answer RecoveryReceipt)
| Clock (t : Time).

Class Env := {
  ansDirectory : list event → Directory.command → res groupError Directory.response;
  ansVisitors : list event → Drain.visitorCommand → Drain.callResult;
  ansGuard : list event → ServiceRef → bool → res rtError (option (DrainStatus * Drain.errorCode));
  ansStop : list event → ServiceRef → NodeStopTask → answer NodeStopReceipt;
  ansStopReceipt : list event → ServiceRef → RequestID → ServiceRef → answer NodeStopReceipt;
  ansRecovery : list event → ServiceRef → RecoveryCreateTask → answer RecoveryReceipt;
  ansRecoveryReceipt : list event → ServiceRef → RequestID → ServiceRef → answer RecoveryReceipt;
  ansClock : list event → Time
}.

Record world := mkWorld { svc : drainCoordinatorService; log : list event }.
Definition Co (X : Type) : Type := world → world * X.
#[global] Instance co_ret : MRet Co := λ X x w, (w, x).
#[global] Instance co_bind : MBind Co := λ X Y k m w, let '(w, x) := m w in k x w.

Definition modify (f : drainCoordinatorService → drainCoordinatorService) : Co unit := λ w, (mkWorld (f (svc w)) (log w), ()).
Definition gets {X} (f : drainCoordinatorService → X) : Co X := λ w, (w, f (svc w)).
Definition emit (e : event) (w : world) : world := mkWorld (svc w) (log w ++ [e]).

Definition set_operations v (s : drainCoordinatorService) :=
  mkCoordinator (coConfig s) v (stops s) (recoveries s) (audits s) (sequence s) (coMetrics s).
Definition set_stops v (s : drainCoordinatorService) :=
  mkCoordinator (coConfig s) (operations s) v (recoveries s) (audits s) (sequence s) (coMetrics s).
Definition set_recoveries v (s : drainCoordinatorService) :=
  mkCoordinator (coConfig s) (operations s) (stops s) v (audits s) (sequence s) (coMetrics s).
Definition set_audits l n (s : drainCoordinatorService) :=
  mkCoordinator (coConfig s) (operations s) (stops s) (recoveries s) l n (coMetrics s).
Definition set_metrics v (s : drainCoordinatorService) :=
  mkCoordinator (coConfig s) (operations s) (stops s) (recoveries s) (audits s) (sequence s) v.

Definition putOperation (id : RequestID) r : Co unit := modify (λ s, set_operations (<[id := r]> (operations s)) s).
Definition putStop (id : RequestID) r : Co unit := modify (λ s, set_stops (<[id := r]> (stops s)) s).
Definition putRecovery (id : RequestID) r : Co unit := modify (λ s, set_recoveries (<[id := r]> (recoveries s)) s).
Definition inc (name : string) : Co unit := modify (λ s, set_metrics (Inc name (coMetrics s)) s).

(** ** Answers *)

Inductive coResponse :=
| drainOperationResponse (o : DrainOperation) (e : errorCode)
| stopOperationResponse (o : StopOperation) (e : errorCode)
| recoveryOperationResponse (o : RecoveryOperation) (e : errorCode)
| drainAuditsResponse (l : list DrainAudit) (e : errorCode).

Definition replyOperation (o : DrainOperation) (e : error controlError) : coResponse :=
  match e with
  | Some _ => drainOperationResponse zeroDrainOperation (codeFromError e)
  | None => drainOperationResponse (cloneDrainOperation o) responseOK
  end.
Definition replyStopOperation (o : StopOperation) (e : error controlError) : coResponse :=
  match e with
  | Some _ => stopOperationResponse zeroStopOperation (codeFromError e)
  | None => stopOperationResponse (cloneStopOperation o) responseOK
  end.
Definition replyRecoveryOperation (o : RecoveryOperation) (e : error controlError) : coResponse :=
  match e with
  | Some _ => recoveryOperationResponse zeroRecoveryOperation (codeFromError e)
  | None => recoveryOperationResponse (cloneRecoveryOperation o) responseOK
  end.
Definition replyAudits (l : list DrainAudit) (e : error controlError) : coResponse :=
  match e with
  | Some _ => drainAuditsResponse [] (codeFromError e)
  | None => drainAuditsResponse l responseOK
  end.

Definition gatewaySource (source : ServiceRef) (s : drainCoordinatorService) : bool :=
  bool_decide (source = Gateway (coConfig s)).
Definition allowed (p : Principal) (s : drainCoordinatorService) : bool :=
  bool_decide (p ∈ AllowedPrincipals (coConfig s)).

(** ** Versions *)

Definition expectedPublishedSet (r : StartDrainRequest) (v : ServiceSetVersion) : ServiceSet :=
  mkSet (sdGroup r) v (appendNil (sdNextRefs r)) (Some (default ∅ (sdNextTags r))).

Definition isExpectedNextVersion (expected actual : ServiceSetVersion) : bool :=
  (AuthorityEpoch actual =? AuthorityEpoch expected) && (Revision actual =? u64_succ (Revision expected)).

Definition isVersionAfter (expected actual : ServiceSetVersion) : bool :=
  if negb (AuthorityEpoch actual =? AuthorityEpoch expected) then negb (AuthorityEpoch actual =? 0)
  else Revision expected <? Revision actual.

Section Handlers.
Context {EN : Env}.

(** ** Calls *)

Definition now : Co Time := λ w, let t := ansClock (log w) in (emit (Clock t) w, t).

#[global] Instance coDirectoryCaller : DirectoryCaller world := {|
  call c w := let r := ansDirectory (log w) c in (emit (DirectoryCall c r) w, r)
|}.

Definition callVisitors (c : Drain.visitorCommand) (w : world) : world * Drain.callResult :=
  let r := ansVisitors (log w) c in (emit (VisitorCall c r) w, r).

Definition getDirectory (group : GroupName) : Co (res groupError ServiceSet) := DirectoryClient.Get group.
Definition publishDirectory (r : StartDrainRequest) : Co (res groupError ServiceSet) :=
  DirectoryClient.Publish (sdGroup r) (sdExpected r) (sdNextRefs r) (sdNextTags r).
Definition listVisitors (target : ServiceRef) : Co (res drainError (list VisitorRef)) := Drain.List callVisitors target.

(** [beginGuard] and [guardStatus]: the two calls of a guard client. *)
Definition callGuard (target : ServiceRef) (begin : bool) : Co (res drainError DrainStatus) := λ w,
  let r := ansGuard (log w) target begin in
  (emit (GuardCall target begin r) w,
   match r with Err e => Err (Drain.ErrOther e) | Ok v => guardStatusFromResponse v end).

Definition nodeStopReceiptFromResponse (r : answer NodeStopReceipt) (id : RequestID) (target : ServiceRef)
  : res controlError NodeStopReceipt :=
  match r with
  | Err e => Err (ErrCall e)
  | Ok None => Err ErrInvalidResponse
  | Ok (Some (receipt, c)) =>
      match errorFromCode c with
      | Some e => Err e
      | None => if negb (validNodeStopReceipt receipt) || bool_decide (srRequestID receipt ≠ id)
                   || bool_decide (srTarget receipt ≠ target)
                then Err ErrInvalidResponse else Ok receipt
      end
  end.

Definition beginNodeStop (o : StopOperation) (t : StopTarget) : Co (res controlError NodeStopReceipt) := λ w,
  let task := mkStopTask (stAgent t) (soRequestID o) (stTarget t) (soGroup o) (soPublished o) in
  let r := ansStop (log w) (stAgent t) task in
  (emit (StopCall (stAgent t) task r) w, nodeStopReceiptFromResponse r (soRequestID o) (stTarget t)).

Definition getNodeStopReceipt (o : StopOperation) (t : StopTarget) : Co (res controlError NodeStopReceipt) := λ w,
  let r := ansStopReceipt (log w) (stAgent t) (soRequestID o) (stTarget t) in
  (emit (StopReceiptCall (stAgent t) (soRequestID o) (stTarget t) r) w,
   nodeStopReceiptFromResponse r (soRequestID o) (stTarget t)).

Definition recoveryReceiptFromResponse (r : answer RecoveryReceipt) (id : RequestID) (t : RecoveryTarget)
  : res controlError RecoveryReceipt :=
  match r with
  | Err e => Err (ErrCall e)
  | Ok None => Err ErrInvalidResponse
  | Ok (Some (receipt, c)) =>
      match errorFromCode c with
      | Some e => Err e
      | None => if negb (validRecoveryReceipt receipt) || bool_decide (rvRequestID receipt ≠ id)
                   || bool_decide (rvRemoved receipt ≠ rtRemoved t) || bool_decide (rvBlueprint receipt ≠ rtBlueprint t)
                then Err ErrInvalidResponse else Ok receipt
      end
  end.

Definition beginNodeRecovery (o : RecoveryOperation) (t : RecoveryTarget) : Co (res controlError RecoveryReceipt) := λ w,
  let task := mkCreateTask (rtAgent t) (roRequestID o) (rtRemoved t) (rtBlueprint t) in
  let r := ansRecovery (log w) (rtAgent t) task in
  (emit (RecoveryCall (rtAgent t) task r) w, recoveryReceiptFromResponse r (roRequestID o) t).

Definition getNodeRecoveryReceipt (o : RecoveryOperation) (t : RecoveryTarget) : Co (res controlError RecoveryReceipt) := λ w,
  let r := ansRecoveryReceipt (log w) (rtAgent t) (roRequestID o) (rtRemoved t) in
  (emit (RecoveryReceiptCall (rtAgent t) (roRequestID o) (rtRemoved t) r) w,
   recoveryReceiptFromResponse r (roRequestID o) t).

(** ** Audits *)

Definition appendAudit (id : RequestID) (p : Principal) (action outcome : string) : Co unit :=
  n ← gets (λ s, let n := u64_succ (sequence s) in if n =? 0 then u64_succ n else n);
  t ← now;
  l ← gets audits;
  limit ← gets (AuditLimit ∘ coConfig);
  let l := l ++ [mkAudit n id p action outcome t] in
  if Z.of_nat (length l) <=? limit then modify (set_audits l n)
  else
    _ ← modify (set_audits (drop (Z.to_nat (Z.of_nat (length l) - limit)) l) n);
    inc "drain_audit_evicted_total".

(** ** Draining *)

Definition setDrain (r : drainOperationRecord) (original published : ServiceSet) (targets : option (list DrainTarget))
    (phase : DrainPhase) (updated : Time) : drainOperationRecord :=
  let o := drOperation r in
  mkDrainRecord (drRequest r)
    (mkDrainOperation (doRequestID o) (doPrincipal o) (doGroup o) (doExpected o) original published targets phase
       (doCreatedAt o) updated).

(** [touch]: the clock does not move the operation back. *)
Definition touch (r : drainOperationRecord) : Co drainOperationRecord :=
  t ← now;
  let o := drOperation r in
  mret (if t <? doUpdatedAt o then r else setDrain r (doOriginal o) (doPublished o) (doTargets o) (doPhase o) t).

Definition setPhase (r : drainOperationRecord) (phase : DrainPhase) : Co drainOperationRecord :=
  let o := drOperation r in
  touch (setDrain r (doOriginal o) (doPublished o) (doTargets o) phase (doUpdatedAt o)).

Definition setOriginal (r : drainOperationRecord) (set : ServiceSet) : drainOperationRecord :=
  let o := drOperation r in setDrain r set (doPublished o) (doTargets o) (doPhase o) (doUpdatedAt o).
Definition setTargets (r : drainOperationRecord) (l : list DrainTarget) : drainOperationRecord :=
  let o := drOperation r in setDrain r (doOriginal o) (doPublished o) (Some l) (doPhase o) (doUpdatedAt o).

Definition confirmPublish (r : drainOperationRecord) (published : ServiceSet) : Co drainOperationRecord :=
  let o := drOperation r in
  setPhase (setDrain r (doOriginal o) published (Some (drainTargets (doOriginal o) published)) (doPhase o) (doUpdatedAt o))
    DrainGuarding.

(** The functions [prepare] to [waitForVisitors] return the record and whether the
    loop of [advance] goes on. *)
Definition prepare (r : drainOperationRecord) : Co (drainOperationRecord * bool) :=
  set ← getDirectory (sdGroup (drRequest r));
  match set with
  | Err _ => mret (r, false)
  | Ok set =>
      if bool_decide (Version set ≠ sdExpected (drRequest r)) then
        r ← setPhase r DrainConflict;
        _ ← inc "drain_operations_conflict_total";
        mret (r, false)
      else
        let r := setOriginal r set in
        published ← publishDirectory (drRequest r);
        match published with
        | Err ErrVersionConflict =>
            r ← setPhase r DrainConflict;
            _ ← inc "drain_operations_conflict_total";
            mret (r, false)
        | Err _ =>
            r ← setPhase r DrainPublishUnknown;
            _ ← inc "drain_operations_publish_unknown_total";
            mret (r, false)
        | Ok published =>
            r ← confirmPublish r published;
            mret (r, true)
        end
  end.

Definition confirmPublished (r : drainOperationRecord) : Co (drainOperationRecord * bool) :=
  set ← getDirectory (sdGroup (drRequest r));
  match set with
  | Err _ => mret (r, false)
  | Ok set =>
      if sameDrainServiceSet set (expectedPublishedSet (drRequest r) (Version set))
         && isExpectedNextVersion (sdExpected (drRequest r)) (Version set)
      then r ← confirmPublish r set; mret (r, true)
      else if isVersionAfter (sdExpected (drRequest r)) (Version set)
      then r ← setPhase r DrainSuperseded; mret (r, false)
      else mret (r, false)
  end.

Definition directoryStillPublished (r : drainOperationRecord) : Co (drainOperationRecord * bool) :=
  set ← getDirectory (sdGroup (drRequest r));
  match set with
  | Err _ => mret (r, false)
  | Ok set =>
      if sameDrainServiceSet set (doPublished (drOperation r)) then mret (r, true)
      else r ← setPhase r DrainSuperseded; mret (r, false)
  end.

Definition isDraining (x : res drainError DrainStatus) : bool := match x with Ok st => Draining st | Err _ => false end.

(** One iteration of the loop of [guard]: the target, and whether it is guarded. *)
Definition guardTarget (t : DrainTarget) : Co (DrainTarget * bool) :=
  if Guarded t then mret (t, true)
  else if negb (Drain.validServiceRef (dtRef t)) then mret (t, false)
  else
    begun ← callGuard (dtRef t) true;
    if isDraining begun then mret (mkDrainTarget (dtRef t) true (StrongVisitorCount t), true)
    else
      status ← callGuard (dtRef t) false;
      if isDraining status then mret (mkDrainTarget (dtRef t) true (StrongVisitorCount t), true)
      else _ ← inc "drain_operations_guard_unknown_total"; mret (t, false).

(** One iteration of the loop of [waitForVisitors]. *)
Definition countTarget (t : DrainTarget) : Co (DrainTarget * bool) :=
  visitors ← listVisitors (dtRef t);
  match visitors with
  | Err _ => mret (t, false)
  | Ok l =>
      let strong := Z.of_nat (length (filter (λ v, vrWeak v = false) l)) in
      mret (mkDrainTarget (dtRef t) (Guarded t) strong, strong =? 0)
  end.

(** A loop over the targets that remembers whether every iteration succeeded. *)
Fixpoint eachTarget (f : DrainTarget → Co (DrainTarget * bool)) (l : list DrainTarget) : Co (list DrainTarget * bool) :=
  match l with
  | [] => mret ([], true)
  | t :: l =>
      x ← f t;
      y ← eachTarget f l;
      mret (x.1 :: y.1, x.2 && y.2)
  end.

Definition guard (r : drainOperationRecord) : Co (drainOperationRecord * bool) :=
  still ← directoryStillPublished r;
  if negb still.2 then mret (still.1, false)
  else
    targets ← eachTarget guardTarget (default [] (doTargets (drOperation r)));
    let r := setTargets r targets.1 in
    if negb targets.2 then r ← touch r; mret (r, false)
    else r ← setPhase r DrainWaitingVisitors; mret (r, true).

Definition waitForVisitors (r : drainOperationRecord) : Co (drainOperationRecord * bool) :=
  still ← directoryStillPublished r;
  if negb still.2 then mret (still.1, false)
  else
    targets ← eachTarget countTarget (default [] (doTargets (drOperation r)));
    let r := setTargets r targets.1 in
    if negb targets.2 then r ← touch r; mret (r, false)
    else
      r ← setPhase r DrainReadyToStop;
      _ ← inc "drain_operations_ready_total";
      mret (r, false).

(** One round of the loop of [advance]. *)
Definition advanceOnce (r : drainOperationRecord) : Co (drainOperationRecord * bool) :=
  match doPhase (drOperation r) with
  | DrainPreparing => prepare r
  | DrainPublishUnknown => confirmPublished r
  | DrainGuarding => guard r
  | DrainWaitingVisitors => waitForVisitors r
  | _ => mret (r, false)
  end.

Fixpoint advanceLoop (fuel : nat) (r : drainOperationRecord) : Co drainOperationRecord :=
  match fuel with
  | O => mret r
  | S fuel => x ← advanceOnce r; if x.2 : bool then advanceLoop fuel x.1 else mret x.1
  end.

(** Three rounds are enough: [advance_fuel]. *)
Definition advance (r : drainOperationRecord) : Co drainOperationRecord := advanceLoop 3 r.

Definition handleStart (source : ServiceRef) (request : StartDrainRequest) : Co coResponse :=
  gw ← gets (gatewaySource source);
  if negb gw then mret (replyOperation zeroDrainOperation (Some ErrUnauthorized))
  else
    match normalizeStartDrainRequest request with
    | Err e => mret (replyOperation zeroDrainOperation (Some e))
    | Ok n =>
        ok ← gets (allowed (sdPrincipal n));
        if negb ok then
          _ ← appendAudit (sdRequestID n) (sdPrincipal n) "start" "denied";
          _ ← inc "drain_operations_denied_total";
          mret (replyOperation zeroDrainOperation (Some ErrUnauthorized))
        else
          existing ← gets (λ s, operations s !! sdRequestID n);
          match existing with
          | Some existing =>
              if negb (sameStartDrainRequest (drRequest existing) n) then
                _ ← inc "drain_operations_conflict_total";
                mret (replyOperation zeroDrainOperation (Some ErrRequestConflict))
              else
                _ ← appendAudit (sdRequestID n) (sdPrincipal n) "start" "duplicate";
                _ ← inc "drain_operations_duplicate_total";
                mret (replyOperation (drOperation existing) None)
          | None =>
              t ← now;
              let r := mkDrainRecord n
                (mkDrainOperation (sdRequestID n) (sdPrincipal n) (sdGroup n) (sdExpected n) zeroSet zeroSet None DrainPreparing t t) in
              _ ← putOperation (sdRequestID n) r;
              r ← advance r;
              _ ← putOperation (sdRequestID n) r;
              _ ← appendAudit (sdRequestID n) (sdPrincipal n) "start" (drainPhaseText (doPhase (drOperation r)));
              _ ← inc "drain_operations_started_total";
              mret (replyOperation (drOperation r) None)
          end
    end.

(** The checks [handleResolve], [handleGet], [handleResolveStop] and [handleGetStop]
    share: the source, the identifiers, the principal. *)
Definition authorize (source : ServiceRef) (id : RequestID) (p : Principal) (action counter : string)
  : Co (error controlError) :=
  gw ← gets (gatewaySource source);
  if negb gw then mret (Some ErrUnauthorized)
  else if negb (validRequestID id) then mret (Some ErrInvalidRequestID)
  else if negb (validPrincipal p) then mret (Some ErrInvalidPrincipal)
  else
    ok ← gets (allowed p);
    if negb ok then
      _ ← appendAudit id p action "denied";
      _ ← inc counter;
      mret (Some ErrUnauthorized)
    else mret None.

Definition handleResolve (source : ServiceRef) (id : RequestID) (p : Principal) : Co coResponse :=
  refused ← authorize source id p "resolve" "drain_operations_denied_total";
  match refused with
  | Some e => mret (replyOperation zeroDrainOperation (Some e))
  | None =>
      r ← gets (λ s, operations s !! id);
      match r with
      | None => mret (replyOperation zeroDrainOperation (Some ErrDrainOperationNotFound))
      | Some r =>
          if bool_decide (doPrincipal (drOperation r) ≠ p)
          then mret (replyOperation zeroDrainOperation (Some ErrOperationOwnerMismatch))
          else
            r ← advance r;
            _ ← putOperation id r;
            _ ← appendAudit id p "resolve" (drainPhaseText (doPhase (drOperation r)));
            mret (replyOperation (drOperation r) None)
      end
  end.

Definition handleGet (source : ServiceRef) (id : RequestID) (p : Principal) : Co coResponse :=
  refused ← authorize source id p "get" "drain_operations_denied_total";
  match refused with
  | Some e => mret (replyOperation zeroDrainOperation (Some e))
  | None =>
      r ← gets (λ s, operations s !! id);
      mret (match r with
            | None => replyOperation zeroDrainOperation (Some ErrDrainOperationNotFound)
            | Some r => if bool_decide (doPrincipal (drOperation r) ≠ p)
                        then replyOperation zeroDrainOperation (Some ErrOperationOwnerMismatch)
                        else replyOperation (drOperation r) None
            end)
  end.

Definition handleListAudit (source : ServiceRef) (p : Principal) : Co coResponse :=
  gw ← gets (gatewaySource source);
  if negb gw then mret (replyAudits [] (Some ErrUnauthorized))
  else if negb (validPrincipal p) then mret (replyAudits [] (Some ErrInvalidPrincipal))
  else
    ok ← gets (allowed p);
    if negb ok then
      _ ← appendAudit "denied" p "list_audit" "denied";
      _ ← inc "drain_operations_denied_total";
      mret (replyAudits [] (Some ErrUnauthorized))
    else l ← gets audits; mret (replyAudits l None).

(** ** Stopping *)

Definition stopTerminal (p : StopPhase) : bool :=
  bool_decide (p = StopCompleted) || bool_decide (p = StopFailed) || bool_decide (p = StopSuperseded).

Definition setStop (r : stopOperationRecord) (targets : option (list StopTarget)) (phase : StopPhase) (updated : Time)
  : stopOperationRecord :=
  let o := spOperation r in
  mkStopRecord (spRequest r)
    (mkStopOperation (soRequestID o) (soPrincipal o) (soGroup o) (soPublished o) targets phase (soCreatedAt o) updated).

Definition touchStop (r : stopOperationRecord) : Co stopOperationRecord :=
  t ← now;
  let o := spOperation r in
  mret (if negb (t <? soUpdatedAt o) then setStop r (soTargets o) (soPhase o) t else r).

Definition setStopPhase (r : stopOperationRecord) (phase : StopPhase) : Co stopOperationRecord :=
  let o := spOperation r in
  if bool_decide (soPhase o = phase) then mret r
  else
    r ← touchStop (setStop r (soTargets o) phase (soUpdatedAt o));
    _ ← match phase with
        | StopCompleted => inc "drain_stop_operations_completed_total"
        | StopFailed => inc "drain_stop_operations_failed_total"
        | StopSuperseded => inc "drain_stop_operations_superseded_total"
        | _ => mret ()
        end;
    mret r.

Definition applyNodeStopReceipt (r : stopOperationRecord) (index : nat) (receipt : NodeStopReceipt) : Co stopOperationRecord :=
  let o := spOperation r in
  touchStop (setStop r (alter (λ t, mkStopTarget (stTarget t) (stAgent t) (srState receipt) (srFailure receipt)) index <$> soTargets o)
               (soPhase o) (soUpdatedAt o)).

(** The loop of [concludeStop]: [None] when a superseded target ends it, else
    all stopped, all terminal, any failed. *)
Fixpoint stopVerdict (allStopped allTerminal anyFailed : bool) (l : list StopTarget) : option (bool * bool * bool) :=
  match l with
  | [] => Some (allStopped, allTerminal, anyFailed)
  | t :: l =>
      match stState t with
      | StopTargetSuperseded => None
      | StopTargetFailed => stopVerdict false allTerminal true l
      | StopTargetPending | StopTargetQueued => stopVerdict false false anyFailed l
      | StopTargetStopped | StopTargetStateOther _ => stopVerdict allStopped allTerminal anyFailed l
      end
  end.

Definition concludeStop (r : stopOperationRecord) : Co stopOperationRecord :=
  setStopPhase r
    match stopVerdict true true false (default [] (soTargets (spOperation r))) with
    | None => StopSuperseded
    | Some (allStopped, allTerminal, anyFailed) =>
        if allStopped then StopCompleted else if allTerminal && anyFailed then StopFailed else StopWaiting
    end.

Definition matchesStopDirectory (published : ServiceSet) : Co (res groupError bool) :=
  current ← getDirectory (Name published);
  mret (match current with Err e => Err e | Ok set => Ok (sameDrainServiceSet set published) end).

(** The two loops of [advanceStop] over the indices of the targets. *)
Fixpoint readReceipts (indices : list nat) (r : stopOperationRecord) : Co stopOperationRecord :=
  match indices with
  | [] => mret r
  | i :: rest =>
      match default [] (soTargets (spOperation r)) !! i with
      | None => mret r
      | Some t =>
          receipt ← getNodeStopReceipt (spOperation r) t;
          r ← match receipt with Ok x => applyNodeStopReceipt r i x | Err _ => mret r end;
          readReceipts rest r
      end
  end.

(** [false]: the loop returned from [advanceStop]. *)
Fixpoint dispatchStops (indices : list nat) (r : stopOperationRecord) : Co (stopOperationRecord * bool) :=
  match indices with
  | [] => mret (r, true)
  | i :: rest =>
      match default [] (soTargets (spOperation r)) !! i with
      | None => mret (r, true)
      | Some t =>
          if bool_decide (stState t ≠ StopTargetPending) then dispatchStops rest r
          else
            matches_ ← matchesStopDirectory (soPublished (spOperation r));
            match matches_ with
            | Err _ => r ← setStopPhase r StopWaiting; mret (r, false)
            | Ok false => r ← setStopPhase r StopSuperseded; mret (r, false)
            | Ok true =>
                receipt ← beginNodeStop (spOperation r) t;
                r ← match receipt with Ok x => applyNodeStopReceipt r i x | Err _ => mret r end;
                dispatchStops rest r
            end
      end
  end.

Definition indices (r : stopOperationRecord) : list nat := seq 0 (lenTargets (soTargets (spOperation r))).

Definition advanceStop (r : stopOperationRecord) : Co stopOperationRecord :=
  if stopTerminal (soPhase (spOperation r)) then mret r
  else
    matches_ ← matchesStopDirectory (soPublished (spOperation r));
    match matches_ with
    | Err _ => setStopPhase r StopWaiting
    | Ok false => setStopPhase r StopSuperseded
    | Ok true =>
        r ← readReceipts (indices r) r;
        x ← dispatchStops (indices r) r;
        if x.2 : bool then concludeStop x.1 else mret x.1
    end.

Definition matchesDrainStopTargets (targets : list StopTargetRequest) (drained : list DrainTarget) : bool :=
  bool_decide (strTarget <$> targets = dtRef <$> drained).

Definition stopTargetsFromRequest (l : list StopTargetRequest) : list StopTarget :=
  (λ t, mkStopTarget (strTarget t) (strAgent t) StopTargetPending StopFailureNone) <$> l.

Definition handleBeginStop (source : ServiceRef) (request : BeginStopRequest) : Co coResponse :=
  gw ← gets (gatewaySource source);
  if negb gw then mret (replyStopOperation zeroStopOperation (Some ErrUnauthorized))
  else
    match normalizeBeginStopRequest request with
    | Err e => mret (replyStopOperation zeroStopOperation (Some e))
    | Ok n =>
        let id := bsRequestID n in
        let p := bsPrincipal n in
        let refuse outcome e := _ ← appendAudit id p "begin_stop" outcome; mret (replyStopOperation zeroStopOperation (Some e)) in
        ok ← gets (allowed p);
        if negb ok then
          _ ← appendAudit id p "begin_stop" "denied";
          _ ← inc "drain_stop_operations_denied_total";
          mret (replyStopOperation zeroStopOperation (Some ErrUnauthorized))
        else
          existing ← gets (λ s, stops s !! id);
          match existing with
          | Some existing =>
              if negb (sameBeginStopRequest (spRequest existing) n) then refuse "conflict" ErrStopRequestConflict
              else
                _ ← appendAudit id p "begin_stop" "duplicate";
                _ ← inc "drain_stop_operations_duplicate_total";
                mret (replyStopOperation (spOperation existing) None)
          | None =>
              drained ← gets (λ s, operations s !! id);
              match drained with
              | None => refuse "not_ready" ErrStopNotReady
              | Some d =>
                  let o := drOperation d in
                  if bool_decide (doPhase o ≠ DrainReadyToStop) then refuse "not_ready" ErrStopNotReady
                  else if bool_decide (doPrincipal o ≠ p) then refuse "owner_mismatch" ErrOperationOwnerMismatch
                  else if negb (matchesDrainStopTargets (bsTargets n) (default [] (doTargets o)))
                  then refuse "target_mismatch" ErrStopTargetMismatch
                  else
                    matches_ ← matchesStopDirectory (doPublished o);
                    match matches_ with
                    | Err _ => refuse "directory_unavailable" ErrInvalidResponse
                    | Ok false => refuse "superseded" ErrStopNotReady
                    | Ok true =>
                        t ← now;
                        r ← advanceStop (mkStopRecord n
                              (mkStopOperation id p (doGroup o) (doPublished o) (Some (stopTargetsFromRequest (bsTargets n)))
                                 StopDispatching t t));
                        _ ← putStop id r;
                        _ ← appendAudit id p "begin_stop" (stopPhaseText (soPhase (spOperation r)));
                        _ ← inc "drain_stop_operations_started_total";
                        mret (replyStopOperation (spOperation r) None)
                    end
              end
          end
    end.

Definition handleResolveStop (source : ServiceRef) (id : RequestID) (p : Principal) : Co coResponse :=
  refused ← authorize source id p "resolve_stop" "drain_stop_operations_denied_total";
  match refused with
  | Some e => mret (replyStopOperation zeroStopOperation (Some e))
  | None =>
      r ← gets (λ s, stops s !! id);
      match r with
      | None =>
          _ ← appendAudit id p "resolve_stop" "not_found";
          mret (replyStopOperation zeroStopOperation (Some ErrStopOperationNotFound))
      | Some r =>
          if bool_decide (soPrincipal (spOperation r) ≠ p) then
            _ ← appendAudit id p "resolve_stop" "owner_mismatch";
            mret (replyStopOperation zeroStopOperation (Some ErrOperationOwnerMismatch))
          else
            r ← (if stopTerminal (soPhase (spOperation r)) then mret r
                 else r ← advanceStop r; _ ← putStop id r; mret r);
            _ ← appendAudit id p "resolve_stop" (stopPhaseText (soPhase (spOperation r)));
            mret (replyStopOperation (spOperation r) None)
      end
  end.

Definition handleGetStop (source : ServiceRef) (id : RequestID) (p : Principal) : Co coResponse :=
  refused ← authorize source id p "get_stop" "drain_stop_operations_denied_total";
  match refused with
  | Some e => mret (replyStopOperation zeroStopOperation (Some e))
  | None =>
      r ← gets (λ s, stops s !! id);
      mret (match r with
            | None => replyStopOperation zeroStopOperation (Some ErrStopOperationNotFound)
            | Some r => if bool_decide (soPrincipal (spOperation r) ≠ p)
                        then replyStopOperation zeroStopOperation (Some ErrOperationOwnerMismatch)
                        else replyStopOperation (spOperation r) None
            end)
  end.

(** ** Recovery *)

Definition recoveryTerminal (p : RecoveryPhase) : bool :=
  bool_decide (p = RecoveryCompleted) || bool_decide (p = RecoveryFailed) || bool_decide (p = RecoveryAbandoned).

Definition setRecovery (r : recoveryOperationRecord) (published : ServiceSet) (targets : option (list RecoveryTarget))
    (phase : RecoveryPhase) (updated : Time) : recoveryOperationRecord :=
  let o := rpOperation r in
  mkRecoveryRecord (rpRequest r)
    (mkRecoveryOperation (roRequestID o) (roPrincipal o) (roGroup o) (roExpected o) published targets phase (roCreatedAt o) updated).

Definition touchRecovery (r : recoveryOperationRecord) : Co recoveryOperationRecord :=
  t ← now;
  let o := rpOperation r in
  mret (if negb (t <? roUpdatedAt o) then setRecovery r (roPublished o) (roTargets o) (roPhase o) t else r).

Definition setRecoveryPhase (r : recoveryOperationRecord) (phase : RecoveryPhase) : Co recoveryOperationRecord :=
  let o := rpOperation r in
  if bool_decide (roPhase o = phase) then mret r
  else
    r ← touchRecovery (setRecovery r (roPublished o) (roTargets o) phase (roUpdatedAt o));
    _ ← match phase with
        | RecoveryCompleted => inc "recovery_operations_completed_total"
        | RecoveryFailed => inc "recovery_operations_failed_total"
        | RecoveryAbandoned => inc "recovery_operations_abandoned_total"
        | _ => mret ()
        end;
    mret r.

Definition setEvery (state : RecoveryTargetState) (l : list RecoveryTarget) : list RecoveryTarget :=
  (λ t, mkRecoveryTarget (rtRemoved t) (rtAgent t) (rtBlueprint t) (rtCreated t) state RecoveryFailureNone) <$> l.

Definition applyNodeRecoveryReceipt (r : recoveryOperationRecord) (index : nat) (x : RecoveryReceipt)
  : Co recoveryOperationRecord :=
  let o := rpOperation r in
  touchRecovery (setRecovery r (roPublished o)
    (alter (λ t, mkRecoveryTarget (rtRemoved t) (rtAgent t) (rtBlueprint t) (rvCreated x) (rvState x) (rvFailure x)) index
       <$> roTargets o) (roPhase o) (roUpdatedAt o)).

(** The two loops of [recoveryPublishedSet]: append what is missing, then the
    exchange sort, which swaps in place. *)
Fixpoint appendMissing (refs : list ServiceRef) (l : list RecoveryTarget) : list ServiceRef :=
  match l with
  | [] => refs
  | t :: l => appendMissing (if containsRecoveryRef refs (rtCreated t) then refs else refs ++ [rtCreated t]) l
  end.

(** The inner loop: [x] is at the left position, [l] are the positions to its right. *)
Fixpoint exchangeInto (x : ServiceRef) (l : list ServiceRef) : ServiceRef * list ServiceRef :=
  match l with
  | [] => (x, [])
  | y :: l => if bool_decide (refLt y x) then let '(z, l) := exchangeInto y l in (z, x :: l)
              else let '(z, l) := exchangeInto x l in (z, y :: l)
  end.
(** The outer loop, one position per element. *)
Fixpoint exchangeSort (n : nat) (l : list ServiceRef) : list ServiceRef :=
  match n, l with
  | S n, x :: l => let '(y, l) := exchangeInto x l in y :: exchangeSort n l
  | _, _ => l
  end.

Definition recoveryPublishedSet (o : RecoveryOperation) : ServiceSet :=
  let refs := appendMissing (refsOf (roExpected o)) (default [] (roTargets o)) in
  mkSet (roGroup o)
    (mkVersion (AuthorityEpoch (Version (roExpected o))) (u64_succ (Revision (Version (roExpected o)))))
    (appendNil (exchangeSort (length refs) refs)) (Some (default ∅ (Tags (roExpected o)))).

Definition completeRecoveryPublish (r : recoveryOperationRecord) (published : ServiceSet) : Co recoveryOperationRecord :=
  let o := rpOperation r in
  setRecoveryPhase
    (setRecovery r published (setEvery RecoveryTargetPublished <$> roTargets o) (roPhase o) (roUpdatedAt o))
    RecoveryCompleted.

Definition publishRecoveryDirectory (o : RecoveryOperation) (candidate : ServiceSet) : Co (res groupError ServiceSet) :=
  DirectoryClient.Publish (roGroup o) (Version (roExpected o)) (refsOf candidate) (Tags candidate).

Definition resolveRecoveryPublish (r : recoveryOperationRecord) : Co recoveryOperationRecord :=
  let o := rpOperation r in
  current ← getDirectory (roGroup o);
  match current with
  | Err _ => touchRecovery r
  | Ok current =>
      if sameDrainServiceSet current (recoveryPublishedSet o) then completeRecoveryPublish r current
      else if negb (sameDrainServiceSet current (roExpected o)) then setRecoveryPhase r RecoveryFailed
      else mret r
  end.

(** The loop of [advanceRecovery] over the indices. *)
Fixpoint createTargets (indices : list nat) (r : recoveryOperationRecord) : Co recoveryOperationRecord :=
  match indices with
  | [] => mret r
  | i :: rest =>
      match default [] (roTargets (rpOperation r)) !! i with
      | None => mret r
      | Some t =>
          if bool_decide (rtState t = RecoveryTargetCreated) || bool_decide (rtState t = RecoveryTargetFailed)
          then createTargets rest r
          else
            receipt ← (if bool_decide (rtState t = RecoveryTargetPending) then beginNodeRecovery (rpOperation r) t
                       else getNodeRecoveryReceipt (rpOperation r) t);
            r ← match receipt with Ok x => applyNodeRecoveryReceipt r i x | Err _ => mret r end;
            createTargets rest r
      end
  end.

Definition isState (st : RecoveryTargetState) (t : RecoveryTarget) : bool := bool_decide (rtState t = st).

Definition advanceRecovery (r : recoveryOperationRecord) : Co recoveryOperationRecord :=
  let o := rpOperation r in
  if bool_decide (roPhase o = RecoveryPublishing) then resolveRecoveryPublish r
  else if bool_decide (roPhase o ≠ RecoveryCreating) then mret r
  else
    current ← getDirectory (roGroup o);
    match current with
    | Err _ => touchRecovery r
    | Ok current =>
        if negb (sameDrainServiceSet current (roExpected o)) then setRecoveryPhase r RecoveryFailed
        else
          r ← createTargets (seq 0 (lenTargets (roTargets o))) r;
          let l := default [] (roTargets (rpOperation r)) in
          let allCreated := forallb (isState RecoveryTargetCreated) l in
          let allTerminal := forallb (λ t, negb (isState RecoveryTargetPending t) && negb (isState RecoveryTargetCreating t)) l in
          let anyFailed := existsb (isState RecoveryTargetFailed) l in
          if allCreated then setRecoveryPhase r RecoveryAwaitingConfirmation
          else if allTerminal && anyFailed then setRecoveryPhase r RecoveryFailed
          else touchRecovery r
    end.

Definition matchesStopRecoveryTargets (l : list StopTarget) (targets : list RecoveryTargetRequest) : bool :=
  bool_decide (stTarget <$> l = rrRemoved <$> targets).

Definition recoveryTargetsFromRequest (l : list RecoveryTargetRequest) : list RecoveryTarget :=
  (λ t, mkRecoveryTarget (rrRemoved t) (rrAgent t) (rrBlueprint t) zeroRef RecoveryTargetPending RecoveryFailureNone) <$> l.

Definition handleBeginRecovery (source : ServiceRef) (request : BeginRecoveryRequest) : Co coResponse :=
  let refuse e : Co coResponse := mret (replyRecoveryOperation zeroRecoveryOperation (Some e)) in
  gw ← gets (gatewaySource source);
  if negb gw then refuse ErrUnauthorized
  else
    match normalizeBeginRecoveryRequest request with
    | Err e => refuse e
    | Ok n =>
        let id := brRequestID n in
        let p := brPrincipal n in
        ok ← gets (allowed p);
        if negb ok then _ ← appendAudit id p "begin_recovery" "denied"; refuse ErrUnauthorized
        else
          existing ← gets (λ s, recoveries s !! id);
          match existing with
          | Some existing =>
              if negb (sameBeginRecoveryRequest (rpRequest existing) n)
              then _ ← appendAudit id p "begin_recovery" "conflict"; refuse ErrRecoveryRequestConflict
              else mret (replyRecoveryOperation (rpOperation existing) None)
          | None =>
              stop ← gets (λ s, stops s !! id);
              match stop with
              | None => refuse ErrStopOperationNotFound
              | Some stop =>
                  let so := spOperation stop in
                  if bool_decide (soPrincipal so ≠ p) then refuse ErrOperationOwnerMismatch
                  else if negb (stopTerminal (soPhase so))
                          || negb (matchesStopRecoveryTargets (default [] (soTargets so)) (brTargets n))
                  then refuse ErrRecoveryNotReady
                  else if existsb (λ t, containsRecoveryRef (refsOf (brExpected n)) (rrRemoved t)) (brTargets n)
                  then refuse ErrInvalidRecoveryRequest
                  else
                    current ← getDirectory (brGroup n);
                    match current with
                    | Err _ => refuse ErrRecoveryNotReady
                    | Ok current =>
                        if negb (sameDrainServiceSet current (brExpected n)) then refuse ErrRecoveryNotReady
                        else
                          t ← now;
                          r ← advanceRecovery (mkRecoveryRecord n
                                (mkRecoveryOperation id p (brGroup n) (brExpected n) zeroSet
                                   (Some (recoveryTargetsFromRequest (brTargets n))) RecoveryCreating t t));
                          _ ← putRecovery id r;
                          _ ← appendAudit id p "begin_recovery" (recoveryPhaseText (roPhase (rpOperation r)));
                          _ ← inc "recovery_operations_started_total";
                          mret (replyRecoveryOperation (rpOperation r) None)
                    end
              end
          end
    end.

Definition authorizedRecovery (source : ServiceRef) (id : RequestID) (p : Principal) (action : string)
  : Co (res controlError recoveryOperationRecord) :=
  gw ← gets (gatewaySource source);
  if negb gw then mret (Err ErrUnauthorized)
  else if negb (validRequestID id) then mret (Err ErrInvalidRequestID)
  else if negb (validPrincipal p) then mret (Err ErrInvalidPrincipal)
  else
    ok ← gets (allowed p);
    if negb ok then _ ← appendAudit id p action "denied"; mret (Err ErrUnauthorized)
    else
      r ← gets (λ s, recoveries s !! id);
      mret (match r with
            | None => Err ErrRecoveryOperationNotFound
            | Some r => if bool_decide (roPrincipal (rpOperation r) ≠ p) then Err ErrOperationOwnerMismatch else Ok r
            end).

Definition handleResolveRecovery (source : ServiceRef) (id : RequestID) (p : Principal) : Co coResponse :=
  r ← authorizedRecovery source id p "resolve_recovery";
  match r with
  | Err e => mret (replyRecoveryOperation zeroRecoveryOperation (Some e))
  | Ok r =>
      r ← (if recoveryTerminal (roPhase (rpOperation r)) then mret r
           else r ← advanceRecovery r; _ ← putRecovery id r; mret r);
      _ ← appendAudit id p "resolve_recovery" (recoveryPhaseText (roPhase (rpOperation r)));
      mret (replyRecoveryOperation (rpOperation r) None)
  end.

Definition handleGetRecovery (source : ServiceRef) (id : RequestID) (p : Principal) : Co coResponse :=
  r ← authorizedRecovery source id p "get_recovery";
  mret (match r with
        | Err e => replyRecoveryOperation zeroRecoveryOperation (Some e)
        | Ok r => replyRecoveryOperation (rpOperation r) None
        end).

Definition handleConfirmRecovery (source : ServiceRef) (id : RequestID) (p : Principal) : Co coResponse :=
  r ← authorizedRecovery source id p "confirm_recovery";
  match r with
  | Err e => mret (replyRecoveryOperation zeroRecoveryOperation (Some e))
  | Ok r =>
      let o := rpOperation r in
      if bool_decide (roPhase o ≠ RecoveryAwaitingConfirmation) then mret (replyRecoveryOperation o (Some ErrRecoveryNotReady))
      else
        current ← getDirectory (roGroup o);
        if match current with Ok current => sameDrainServiceSet current (roExpected o) | Err _ => false end then
          r ← setRecoveryPhase r RecoveryPublishing;
          published ← publishRecoveryDirectory (rpOperation r) (recoveryPublishedSet o);
          match published with
          | Err _ =>
              _ ← putRecovery id r;
              _ ← appendAudit id p "confirm_recovery" "publishing";
              mret (replyRecoveryOperation (rpOperation r) None)
          | Ok published =>
              r ← completeRecoveryPublish r published;
              _ ← putRecovery id r;
              _ ← appendAudit id p "confirm_recovery" (recoveryPhaseText (roPhase (rpOperation r)));
              mret (replyRecoveryOperation (rpOperation r) None)
          end
        else
          r ← setRecoveryPhase r RecoveryFailed;
          _ ← putRecovery id r;
          mret (replyRecoveryOperation (rpOperation r) (Some ErrRecoveryNotReady))
  end.

Definition handleAbandonRecovery (source : ServiceRef) (id : RequestID) (p : Principal) : Co coResponse :=
  r ← authorizedRecovery source id p "abandon_recovery";
  match r with
  | Err e => mret (replyRecoveryOperation zeroRecoveryOperation (Some e))
  | Ok r =>
      let o := rpOperation r in
      if bool_decide (roPhase o = RecoveryCompleted) || bool_decide (roPhase o = RecoveryPublishing)
      then mret (replyRecoveryOperation o (Some ErrRecoveryNotReady))
      else
        r ← setRecoveryPhase
              (setRecovery r (roPublished o) (setEvery RecoveryTargetAbandoned <$> roTargets o) (roPhase o) (roUpdatedAt o))
              RecoveryAbandoned;
        _ ← putRecovery id r;
        _ ← appendAudit id p "abandon_recovery" (recoveryPhaseText (roPhase (rpOperation r)));
        mret (replyRecoveryOperation (rpOperation r) None)
  end.

(** ** The handler *)

Inductive payloadKind := DrainPayload | AuditPayload | StopPayload | RecoveryPayload.

Inductive coCommand :=
| StartDrain (r : StartDrainRequest)
| ResolveDrain (id : RequestID) (p : Principal)
| GetDrain (id : RequestID) (p : Principal)
| ListAudit (p : Principal)
| BeginStop (r : BeginStopRequest)
| ResolveStop (id : RequestID) (p : Principal)
| GetStop (id : RequestID) (p : Principal)
| BeginRecovery (r : BeginRecoveryRequest)
| ConfirmRecovery (id : RequestID) (p : Principal)
| ResolveRecovery (id : RequestID) (p : Principal)
| GetRecovery (id : RequestID) (p : Principal)
| AbandonRecovery (id : RequestID) (p : Principal)
| BadPayload (k : payloadKind)      (** a command of that family with a payload of another type *)
| UnknownCommand.

(** [None] is the error [ErrUnknownCommand]. *)
Definition Handle (source : ServiceRef) (c : coCommand) : Co (option coResponse) :=
  match c with
  | StartDrain r => x ← handleStart source r; mret (Some x)
  | ResolveDrain id p => x ← handleResolve source id p; mret (Some x)
  | GetDrain id p => x ← handleGet source id p; mret (Some x)
  | ListAudit p => x ← handleListAudit source p; mret (Some x)
  | BeginStop r => x ← handleBeginStop source r; mret (Some x)
  | ResolveStop id p => x ← handleResolveStop source id p; mret (Some x)
  | GetStop id p => x ← handleGetStop source id p; mret (Some x)
  | BeginRecovery r => x ← handleBeginRecovery source r; mret (Some x)
  | ConfirmRecovery id p => x ← handleConfirmRecovery source id p; mret (Some x)
  | ResolveRecovery id p => x ← handleResolveRecovery source id p; mret (Some x)
  | GetRecovery id p => x ← handleGetRecovery source id p; mret (Some x)
  | AbandonRecovery id p => x ← handleAbandonRecovery source id p; mret (Some x)
  | BadPayload DrainPayload => mret (Some (replyOperation zeroDrainOperation (Some ErrInvalidDrainRequest)))
  | BadPayload AuditPayload => mret (Some (replyAudits [] (Some ErrInvalidDrainRequest)))
  | BadPayload StopPayload => mret (Some (replyStopOperation zeroStopOperation (Some ErrInvalidStopRequest)))
  | BadPayload RecoveryPayload => mret (Some (replyRecoveryOperation zeroRecoveryOperation (Some ErrInvalidRecoveryRequest)))
  | UnknownCommand => mret None
  end.

(** A sequence of commands, each with its source. *)
Fixpoint run (l : list (ServiceRef * coCommand)) : Co (list (option coResponse)) :=
  match l with
  | [] => mret []
  | (source, c) :: l => x ← Handle source c; xs ← run l; mret (x :: xs)
  end.
End Handlers.

(** ** The client *)

(** [drainOperationFromResponse] and its siblings; [None] is a value of another type. *)
Definition drainOperationFromResponse (value : option coResponse) : res controlError DrainOperation :=
  match value with
  | Some (drainOperationResponse o c) =>
      match errorFromCode c with
      | Some e => Err e
      | None => if validDrainOperation o then Ok (cloneDrainOperation o) else Err ErrInvalidResponse
      end
  | _ => Err ErrInvalidResponse
  end.
Definition stopOperationFromResponse (value : option coResponse) : res controlError StopOperation :=
  match value with
  | Some (stopOperationResponse o c) =>
      match errorFromCode c with
      | Some e => Err e
      | None => if validStopOperation o then Ok (cloneStopOperation o) else Err ErrInvalidResponse
      end
  | _ => Err ErrInvalidResponse
  end.
Definition recoveryOperationFromResponse (value : option coResponse) : res controlError RecoveryOperation :=
  match value with
  | Some (recoveryOperationResponse o c) =>
      match errorFromCode c with
      | Some e => Err e
      | None => if validRecoveryOperation o then Ok (cloneRecoveryOperation o) else Err ErrInvalidResponse
      end
  | _ => Err ErrInvalidResponse
  end.
Definition auditsFromResponse (value : option coResponse) : res controlError (list DrainAudit) :=
  match value with
  | Some (drainAuditsResponse l c) =>
      match errorFromCode c with
      | Some e => Err e
      | None => if validDrainAudits l then Ok l else Err ErrInvalidResponse
      end
  | _ => Err ErrInvalidResponse
  end.

Section Client.
(** [c.caller.Call] at the client's target. *)
Context {W : Type} (call : coCommand → W → W * res rtError (option coResponse)).

Definition send {X} (c : coCommand) (decode : option coResponse → res controlError X) (w : W) : W * res controlError X :=
  let '(w, r) := call c w in (w, match r with Err e => Err (ErrCall e) | Ok v => decode v end).

(** The checks every request by identifier makes first. *)
Definition checked {X} (id : RequestID) (p : Principal) (k : W → W * res controlError X) (w : W) : W * res controlError X :=
  if negb (validRequestID id) then (w, Err ErrInvalidRequestID)
  else if negb (validPrincipal p) then (w, Err ErrInvalidPrincipal)
  else k w.

Definition ClientStart (r : StartDrainRequest) (w : W) : W * res controlError DrainOperation :=
  match normalizeStartDrainRequest r with
  | Err e => (w, Err e)
  | Ok r => send (StartDrain r) drainOperationFromResponse w
  end.
Definition ClientResolve (id : RequestID) (p : Principal) : W → W * res controlError DrainOperation :=
  checked id p (send (ResolveDrain id p) drainOperationFromResponse).
Definition ClientGet (id : RequestID) (p : Principal) : W → W * res controlError DrainOperation :=
  checked id p (send (GetDrain id p) drainOperationFromResponse).
Definition ClientListAudit (p : Principal) (w : W) : W * res controlError (list DrainAudit) :=
  if negb (validPrincipal p) then (w, Err ErrInvalidPrincipal) else send (ListAudit p) auditsFromResponse w.
Definition ClientBeginStop (r : BeginStopRequest) (w : W) : W * res controlError StopOperation :=
  match normalizeBeginStopRequest r with
  | Err e => (w, Err e)
  | Ok r => send (BeginStop r) stopOperationFromResponse w
  end.
Definition ClientResolveStop (id : RequestID) (p : Principal) : W → W * res controlError StopOperation :=
  checked id p (send (ResolveStop id p) stopOperationFromResponse).
Definition ClientGetStop (id : RequestID) (p : Principal) : W → W * res controlError StopOperation :=
  checked id p (send (GetStop id p) stopOperationFromResponse).
Definition ClientBeginRecovery (r : BeginRecoveryRequest) (w : W) : W * res controlError RecoveryOperation :=
  match normalizeBeginRecoveryRequest r with
  | Err e => (w, Err e)
  | Ok r => send (BeginRecovery r) recoveryOperationFromResponse w
  end.
Definition callRecovery (c : RequestID → Principal → coCommand) (id : RequestID) (p : Principal)
  : W → W * res controlError RecoveryOperation :=
  checked id p (send (c id p) recoveryOperationFromResponse).
End Client.
