(* ===== verification/CoordinatorInv.v ===== *)
(** * The drain coordinator: invariants

    A small Hoare logic for the programs of [Coordinator] ([spec]), the evidence a
    log holds, and the invariants of drain, stop and recovery records.  The
    environment is arbitrary except for its clock, which is after the zero time. *)

From stdpp Require Import prelude gmap strings list sorting.
From Stdlib Require Import ZArith Lia.
From S2P Require Import Prelude Types Metrics GoText Drain Directory DirectoryFacts DirectoryClient Control Coordinator.

Local Open Scope Z_scope.

(** ** Programs that only call and count *)

(** The fields of the service other than its metrics. *)
Definition stored (s : drainCoordinatorService) :=
  (coConfig s, operations s, stops s, recoveries s, audits s, sequence s).

(** Events other than an order to stop a service. *)
Definition calm (e : event) : Prop := match e with StopCall _ _ _ => False | _ => True end.
Definition quiet (w w' : world) : Prop :=
  stored (svc w') = stored (svc w) ∧ ∃ k, log w' = log w ++ k ∧ Forall calm k.

#[global] Instance quiet_preorder : PreOrder quiet.
Proof.
  split; [intros w; split; [done|]; exists []; by rewrite app_nil_r|].
  intros a b c [H1 (k & Hk & Ck)] [H3 (k' & Hk' & Ck')]. split; [congruence|].
  exists (k ++ k'). split; [by rewrite Hk', Hk, app_assoc|by apply Forall_app].
Qed.

(** [spec P m R]: from a log with [P], [m] changes nothing but metrics, and returns
    something that has [R] with the longer log. *)
Definition spec {X} (P : list event → Prop) (m : Co X) (R : X → list event → Prop) : Prop :=
  ∀ w, P (log w) → quiet w (m w).1 ∧ R (m w).2 (log (m w).1).

Lemma spec_ret {X} (P : list event → Prop) (x : X) R : (∀ l, P l → R x l) → spec P (mret x) R.
Proof. intros H w Hw. split; [done|by apply H]. Qed.

Lemma spec_bind {X Y} P (m : Co X) (k : X → Co Y) R R' :
  spec P m R → (∀ x, spec (R x) (k x) R') → spec P (m ≫= k) R'.
Proof.
  intros Hm Hk w Hw. unfold mbind, co_bind. destruct (Hm w Hw) as [H1 H2].
  destruct (m w) as [w1 x]. simpl in *. destruct (Hk x w1 H2) as [H3 H4]. split; [by etrans|done].
Qed.

Lemma spec_mono {X} (P P' : list event → Prop) (m : Co X) (R R' : X → list event → Prop) :
  spec P' m R' → (∀ l, P l → P' l) → (∀ x l, R' x l → R x l) → spec P m R.
Proof. intros H HP HR w Hw. destruct (H w (HP _ Hw)). eauto. Qed.

(** Facts about a log that stay true when it grows. *)
Class Grows (F : list event → Prop) := grows : ∀ l l', l `prefix_of` l' → F l → F l'.

Lemma spec_frame {X} (F : list event → Prop) {HF : Grows F} P (m : Co X) R :
  spec P m R → spec (λ l, P l ∧ F l) m (λ x l, R x l ∧ F l).
Proof.
  intros H w [Hw HFw]. destruct (H w Hw) as [Hq H3]. split; [done|]. split; [done|].
  destruct Hq as [_ (k & -> & _)]. eapply grows; [by exists k|done].
Qed.

#[global] Instance grows_const (A : Prop) : Grows (λ _, A).
Proof. by intros l l' _ H. Qed.
#[global] Instance grows_and F G {HF : Grows F} {HG : Grows G} : Grows (λ l, F l ∧ G l).
Proof. intros l l' Hl [? ?]. split; by eapply grows. Qed.
#[global] Instance grows_or F G {HF : Grows F} {HG : Grows G} : Grows (λ l, F l ∨ G l).
Proof. intros l l' Hl [?|?]; [left|right]; by eapply grows. Qed.
#[global] Instance grows_forall {A} (F : A → list event → Prop) {HF : ∀ a, Grows (F a)} : Grows (λ l, ∀ a, F a l).
Proof. intros l l' Hl H a. by eapply grows. Qed.
#[global] Instance grows_Forall {A} (F : A → list event → Prop) (as_ : list A) {HF : ∀ a, Grows (F a)} :
  Grows (λ l, Forall (λ a, F a l) as_).
Proof. intros l l' Hl H. eapply Forall_impl; [exact H|]. intros a. apply (HF a l l' Hl). Qed.
#[global] Instance grows_impl (A : Prop) F {HF : Grows F} : Grows (λ l, A → F l).
Proof. intros l l' Hl H Ha. eapply grows; [done|by apply H]. Qed.
#[global] Instance grows_elem e : Grows (λ l, e ∈ l).
Proof. intros l l' [k ->] H. set_solver. Qed.

Lemma quiet_emit e w : calm e → quiet w (emit e w).
Proof. intros He. split; [done|]. exists [e]. split; [done|by constructor]. Qed.

Lemma spec_inc name P : Grows P → spec P (inc name) (λ _, P).
Proof.
  intros _ w Hw. split; [|done]. split; [done|]. exists []. by rewrite app_nil_r.
Qed.

Section Logic.
Context {EN : Env}.

Lemma spec_now P : Grows P → spec P now (λ t l, P l ∧ ∃ l0, t = ansClock l0).
Proof.
  intros HP w Hw. split; [by apply quiet_emit|]. split; [|by eexists].
  simpl. eapply HP; [|done]. by eexists.
Qed.

(** ** What the directory answers *)

Lemma validServiceSet_drain set : validServiceSet set = true → validDrainServiceSet set = true.
Proof.
  unfold validServiceSet, validDrainServiceSet, validDrainGroup, validGroup, validVersion, validDrainVersion, validTrimmedUTF8.
  destruct (Refs set) as [refs|], (Tags set) as [tags|]; rewrite ?andb_false_r; try done.
  intros H. apply andb_true_iff in H as [H1 H2]. rewrite H1. simpl. clear H1.
  apply andb_true_iff in H2 as [H2 H3]. apply andb_true_iff in H2 as [H2 H4].
  rewrite H3, andb_true_r. apply andb_true_iff. split; [exact H2|].
  apply forallb_forall. intros x Hx. rewrite forallb_forall in H4. specialize (H4 x Hx).
  unfold Directory.validServiceRef, Directory.validNode in H4. unfold validServiceRef, validNode.
  apply andb_true_iff in H4 as [H4 ->]. apply andb_true_iff in H4 as [_ ->]. done.
Qed.

Lemma valid_not_empty set : validDrainServiceSet set = true → emptyDrainServiceSet set = false.
Proof.
  unfold validDrainServiceSet, emptyDrainServiceSet. destruct (Refs set), (Tags set); rewrite ?andb_false_r; done.
Qed.

(** A directory answered a read of [g] with [set]. *)
Definition directoryRead (e : event) (g : GroupName) (set : ServiceSet) : Prop :=
  ∃ resp, e = DirectoryCall (GetServiceSet g) (Ok resp) ∧ serviceSetFromResponse resp g = Ok set.

Lemma serviceSetFromResponse_Ok resp g set :
  serviceSetFromResponse resp g = Ok set → validDrainServiceSet set = true ∧ Name set = g.
Proof.
  unfold serviceSetFromResponse. destruct resp as [x| | |]; try done. destruct x as [s|c]; simpl; [|done].
  destruct (validServiceSet s) eqn:Hv; simpl; [|done]. case_bool_decide as Hn; [done|].
  intros [= <-]. split; [by apply validServiceSet_drain|]. by destruct (decide (Name s = g)).
Qed.

(** The directory was read as [set] at a point where the log had [P]; [l2] came after. *)
Definition readSince (P : list event → Prop) (g : GroupName) (set : ServiceSet) (l : list event) : Prop :=
  ∃ l1 e l2, l = l1 ++ e :: l2 ∧ P l1 ∧ directoryRead e g set.
#[global] Instance readSince_grows P g set : Grows (readSince P g set).
Proof.
  intros l l' [k ->] (l1 & e & l2 & -> & H). exists l1, e, (l2 ++ k). by rewrite <- app_assoc.
Qed.

Definition getPost (P : list event → Prop) (g : GroupName) (x : res groupError ServiceSet) (l : list event) : Prop :=
  P l ∧ match x with
        | Ok set => validDrainServiceSet set = true ∧ Name set = g ∧ readSince P g set l
        | Err _ => True
        end.
#[global] Instance getPost_grows P g x {HP : Grows P} : Grows (getPost P g x).
Proof. unfold getPost. destruct x; apply _. Qed.

Lemma spec_get P g : Grows P → spec P (getDirectory g) (getPost P g).
Proof.
  intros HP w Hw. unfold getDirectory, Get, getPost. destruct (validGroup g) eqn:Hg; simpl; [|done].
  split; [by apply quiet_emit|]. split; [eapply HP; [|done]; by eexists|].
  destruct (ansDirectory (log w) (GetServiceSet g)) as [resp|e] eqn:Ha; simpl; [|done].
  destruct (serviceSetFromResponse resp g) as [set|e] eqn:Hs; simpl; [|done].
  destruct (serviceSetFromResponse_Ok _ _ _ Hs) as [Hv Hn]. split_and!; [done..|].
  eexists _, _, []. split_and!; [reflexivity|done|]. eexists. split; [reflexivity|done].
Qed.

(** What a publication confirms. *)
Record publishedAs (name : GroupName) (expected : ServiceSetVersion) (refs : list ServiceRef) (tags : gmap string string)
    (set : ServiceSet) : Prop := {
  pa_valid : validDrainServiceSet set = true;
  pa_name : Name set = name;
  pa_epoch : AuthorityEpoch (Version set) = AuthorityEpoch expected;
  pa_revision : Revision (Version set) = u64_succ (Revision expected);
  pa_refs : refsOf set = refs;
  pa_tags : default ∅ (Tags set) = tags
}.

Lemma spec_publish P name expected refs tags : Grows P → expected ≠ zeroVersion →
  spec P (DirectoryClient.Publish name expected refs tags) (λ x l,
    P l ∧ ∀ set, x = Ok set →
      publishedAs name expected (dedupe [] (merge_sort refLe refs)) (default ∅ tags) set).
Proof.
  intros HP He w Hw. unfold Publish. destruct (validExpectedVersion expected); simpl; [|done].
  destruct (normalizeServiceSet name refs tags) as [i|e] eqn:Hi; simpl; [|done].
  split; [by apply quiet_emit|]. split; [eapply HP; [|done]; by eexists|].
  destruct (ansDirectory _ _) as [resp|e]; simpl; [|done].
  destruct (serviceSetFromResponse resp (Name i)) as [set|e] eqn:Hs; simpl; [|done].
  rewrite (bool_decide_false (expected = zeroVersion)) by done. rewrite (bool_decide_true (expected ≠ zeroVersion)) by done. simpl.
  destruct (AuthorityEpoch (Version set) =? _) eqn:H1; simpl; [|done].
  destruct (Revision (Version set) =? _) eqn:H2; simpl; [|done].
  destruct (sameServiceSetContent set i) eqn:H3; simpl; [|done]. intros s [= <-].
  apply normalize_Ok in Hi as (_ & _ & _ & ->). destruct (serviceSetFromResponse_Ok _ _ _ Hs) as [Hv Hn].
  unfold sameServiceSetContent in H3. bool_prop. by split.
Qed.

(** ** Evidence in the log *)

Definition guardAnswer (r : res rtError (option (DrainStatus * Drain.errorCode))) : res drainError DrainStatus :=
  match r with Err e => Err (Drain.ErrOther e) | Ok v => guardStatusFromResponse v end.

(** [ref] answered that it is draining. *)
Definition guardedBy (ref : ServiceRef) (l : list event) : Prop :=
  ∃ begin r, GuardCall ref begin r ∈ l ∧ isDraining (guardAnswer r) = true.

(** The registry listed the visitors of [ref], none of them strong. *)
Definition clearBy (ref : ServiceRef) (l : list event) : Prop :=
  ∃ vs c, VisitorCall (ListVisitors ref) (Ok (Some (ListResponse (Some vs) c))) ∈ l
          ∧ Drain.errorFromCode c = None ∧ Forall (λ v, vrWeak v = true) vs.

(** All of [refs] answered that they are draining; after that the directory was read
    as [published]; after that none of them had a strong visitor. *)
Definition readyBy (published : ServiceSet) (refs : list ServiceRef) (l : list event) : Prop :=
  ∃ l1 e set l2, l = l1 ++ e :: l2 ∧ Forall (λ ref, guardedBy ref l1) refs
    ∧ directoryRead e (Name published) set ∧ sameDrainServiceSet set published = true
    ∧ Forall (λ ref, clearBy ref l2) refs.

#[global] Instance guardedBy_grows ref : Grows (guardedBy ref).
Proof. intros l l' [k ->] (b & r & Hin & H). exists b, r. split; [set_solver|done]. Qed.
#[global] Instance clearBy_grows ref : Grows (clearBy ref).
Proof. intros l l' [k ->] (vs & c & Hin & H). exists vs, c. split; [set_solver|done]. Qed.
#[global] Instance readyBy_grows p refs : Grows (readyBy p refs).
Proof.
  intros l l' [k ->] (l1 & e & set & l2 & -> & H1 & H2 & H3 & H4).
  exists l1, e, set, (l2 ++ k). split_and!; [by rewrite <- app_assoc|done..|].
  eapply Forall_impl; [exact H4|]. intros ref. apply clearBy_grows. by exists k.
Qed.

(** ** Drain records *)

(** What normalisation guarantees of a request. *)
Record startOk (q : StartDrainRequest) : Prop := {
  sq_id : validRequestID (sdRequestID q) = true;
  sq_principal : validPrincipal (sdPrincipal q) = true;
  sq_group : validDrainGroup (sdGroup q) = true;
  sq_version : validDrainVersion (sdExpected q) = true;
  sq_sorted : StronglySorted refLt (sdNextRefs q)
}.

Definition originalOk (r : drainOperationRecord) : Prop :=
  validDrainServiceSet (doOriginal (drOperation r)) = true ∧ Name (doOriginal (drOperation r)) = sdGroup (drRequest r)
  ∧ Version (doOriginal (drOperation r)) = sdExpected (drRequest r).
Definition publishedOk (r : drainOperationRecord) : Prop :=
  publishedAs (sdGroup (drRequest r)) (sdExpected (drRequest r)) (sdNextRefs (drRequest r)) (default ∅ (sdNextTags (drRequest r)))
    (doPublished (drOperation r)).
Definition unpublished (r : drainOperationRecord) : Prop :=
  doPublished (drOperation r) = zeroSet ∧ doTargets (drOperation r) = None.

(** The targets are the removed members; a guarded one said so. *)
Definition targetsOk (r : drainOperationRecord) (l : list event) : Prop :=
  ∃ ts, doTargets (drOperation r) = Some ts
    ∧ dtRef <$> ts = dtRef <$> drainTargets (doOriginal (drOperation r)) (doPublished (drOperation r))
    ∧ Forall (λ t, 0 ≤ StrongVisitorCount t) ts
    ∧ Forall (λ t, Guarded t = true → guardedBy (dtRef t) l) ts.
Definition allGuarded (r : drainOperationRecord) : Prop :=
  Forall (λ t, Guarded t = true) (default [] (doTargets (drOperation r))).
Definition allReady (r : drainOperationRecord) (l : list event) : Prop :=
  Forall (λ t, Guarded t = true ∧ StrongVisitorCount t = 0) (default [] (doTargets (drOperation r)))
  ∧ readyBy (doPublished (drOperation r)) (dtRef <$> default [] (doTargets (drOperation r))) l.

Definition shapeOk (r : drainOperationRecord) (l : list event) : Prop :=
  match doPhase (drOperation r) with
  | DrainPreparing => (doOriginal (drOperation r) = zeroSet ∨ originalOk r) ∧ unpublished r
  | DrainPublishUnknown => originalOk r ∧ unpublished r
  | DrainConflict => (doOriginal (drOperation r) = zeroSet ∨ originalOk r) ∧ unpublished r
  | DrainGuarding => originalOk r ∧ publishedOk r ∧ targetsOk r l
  | DrainWaitingVisitors => originalOk r ∧ publishedOk r ∧ targetsOk r l ∧ allGuarded r
  | DrainReadyToStop => originalOk r ∧ publishedOk r ∧ targetsOk r l ∧ allReady r l
  | DrainSuperseded => originalOk r ∧ (unpublished r ∨ publishedOk r ∧ targetsOk r l)
  | DrainPhaseOther _ => False
  end.

Record drainOk (r : drainOperationRecord) (l : list event) : Prop := {
  ok_request : startOk (drRequest r);
  ok_id : doRequestID (drOperation r) = sdRequestID (drRequest r);
  ok_principal : doPrincipal (drOperation r) = sdPrincipal (drRequest r);
  ok_group : doGroup (drOperation r) = sdGroup (drRequest r);
  ok_expected : doExpected (drOperation r) = sdExpected (drRequest r);
  ok_time : 0 < doCreatedAt (drOperation r) ≤ doUpdatedAt (drOperation r);
  ok_shape : shapeOk r l
}.

#[global] Instance targetsOk_grows r : Grows (targetsOk r).
Proof.
  intros l l' Hl (ts & H1 & H2 & H3 & H4). exists ts. split_and!; [done..|].
  eapply Forall_impl; [exact H4|]. intros t Ht Hg. eapply grows; [done|by apply Ht].
Qed.
#[global] Instance allReady_grows r : Grows (allReady r).
Proof. unfold allReady. apply _. Qed.
#[global] Instance drainOk_grows r : Grows (drainOk r).
Proof.
  intros l l' Hl [? ? ? ? ? ? Hs]. split; [done..|]. unfold shapeOk in *.
  pose proof (targetsOk_grows r l l' Hl). pose proof (allReady_grows r l l' Hl).
  destruct (doPhase (drOperation r)); naive_solver.
Qed.

(** A well-formed record passes the checks of the client. *)
Lemma drainOk_valid r l : drainOk r l → validDrainOperation (drOperation r) = true.
Proof.
  intros [[H1 H2 H3 H4 _] E1 E2 E3 E4 Ht Hs]. unfold validDrainOperation. rewrite E1, E2, E3, E4, H1, H2, H3, H4.
  rewrite (proj2 (Z.eqb_neq _ _)) by lia. rewrite (proj2 (Z.ltb_ge _ _)) by lia.
  assert (originalOk r → validDrainServiceSet (doOriginal (drOperation r)) = true
          ∧ validDrainServiceSet (doOriginal (drOperation r)) && bool_decide (Name (doOriginal (drOperation r)) = sdGroup (drRequest r))
            && bool_decide (Version (doOriginal (drOperation r)) = sdExpected (drRequest r)) = true) as Ho.
  { intros (-> & -> & ->). by rewrite !bool_decide_true. }
  assert (publishedOk r → validDrainServiceSet (doPublished (drOperation r)) = true
          ∧ validDrainServiceSet (doPublished (drOperation r)) && bool_decide (Name (doPublished (drOperation r)) = sdGroup (drRequest r))
            && (AuthorityEpoch (Version (doPublished (drOperation r))) =? AuthorityEpoch (sdExpected (drRequest r)))
            && (Revision (Version (doPublished (drOperation r))) =? u64_succ (Revision (sdExpected (drRequest r)))) = true) as Hp.
  { intros [-> -> -> -> _ _]. by rewrite bool_decide_true, !Z.eqb_refl. }
  assert (targetsOk r l → validDrainTargets (doTargets (drOperation r)) (doOriginal (drOperation r)) (doPublished (drOperation r)) = true) as Hv.
  { intros (ts & -> & Hr & Hc & _). simpl. rewrite bool_decide_true by done. simpl. apply forallb_forall. intros t Hin.
    rewrite Forall_forall in Hc. apply Z.leb_le, Hc. by apply list_elem_of_In. }
  unfold shapeOk, unpublished in Hs. destruct (doPhase (drOperation r)); simpl; try done.
  - destruct Hs as ([->|Ho'%Ho] & -> & ->); [done|]. destruct Ho' as [-> ->]. by rewrite orb_true_r.
  - destruct Hs as (Ho'%Ho & -> & ->). destruct Ho' as [-> ->]. by rewrite orb_true_r.
  - destruct Hs as (Ho'%Ho & Hp'%Hp & ->%Hv). destruct Ho' as [-> ->], Hp' as [-> ->]. by rewrite !orb_true_r.
  - destruct Hs as (Ho'%Ho & Hp'%Hp & ->%Hv & _). destruct Ho' as [-> ->], Hp' as [-> ->]. by rewrite !orb_true_r.
  - destruct Hs as (Ho'%Ho & Hp'%Hp & ->%Hv & _). destruct Ho' as [-> ->], Hp' as [-> ->]. by rewrite !orb_true_r.
  - destruct Hs as ([->|Ho'%Ho] & -> & ->); [done|]. destruct Ho' as [-> ->]. by rewrite orb_true_r.
  - destruct Hs as (Ho'%Ho & [[-> ->]|[Hp'%Hp ->%Hv]]); destruct Ho' as [-> ->]; [by rewrite orb_true_r|].
    destruct Hp' as [Hp' ->]. by rewrite !orb_true_r, (valid_not_empty _ Hp'), Hp'.
Qed.

(** ** Changing a drain record *)

(** A record with other contents: the request, the identity and the time of creation
    stay. *)
Definition became (r : drainOperationRecord) (original published : ServiceSet) (targets : option (list DrainTarget))
    (phase : DrainPhase) (r' : drainOperationRecord) : Prop :=
  ∃ t, doUpdatedAt (drOperation r) ≤ t ∧ r' = setDrain r original published targets phase t.

Lemma spec_touch P r : Grows P →
  spec P (touch r) (λ r' l, P l ∧ became r (doOriginal (drOperation r)) (doPublished (drOperation r))
                                    (doTargets (drOperation r)) (doPhase (drOperation r)) r').
Proof.
  intros HP. eapply spec_bind; [by apply spec_now|]. intros t. apply spec_ret. intros l [Hl _]. split; [done|].
  destruct (t <? doUpdatedAt (drOperation r)) eqn:E; bool_prop.
  - exists (doUpdatedAt (drOperation r)). split; [done|]. by destruct r as [q []].
  - by exists t.
Qed.

Lemma spec_setPhase P r ph : Grows P →
  spec P (setPhase r ph) (λ r' l, P l ∧ became r (doOriginal (drOperation r)) (doPublished (drOperation r))
                                       (doTargets (drOperation r)) ph r').
Proof. intros HP. eapply spec_mono; [by apply spec_touch|done|]. by intros r' l [? ?]. Qed.

(** The moves between phases. *)
Inductive drainNext : DrainPhase → DrainPhase → Prop :=
| next_conflict : drainNext DrainPreparing DrainConflict
| next_unknown : drainNext DrainPreparing DrainPublishUnknown
| next_published : drainNext DrainPreparing DrainGuarding
| next_confirmed : drainNext DrainPublishUnknown DrainGuarding
| next_overtaken : drainNext DrainPublishUnknown DrainSuperseded
| next_guarded : drainNext DrainGuarding DrainWaitingVisitors
| next_guard_lost : drainNext DrainGuarding DrainSuperseded
| next_ready : drainNext DrainWaitingVisitors DrainReadyToStop
| next_wait_lost : drainNext DrainWaitingVisitors DrainSuperseded.

(** A later state of a target: no guard is forgotten. *)
Definition kept (t t' : DrainTarget) : Prop := dtRef t' = dtRef t ∧ (Guarded t = true → Guarded t' = true).
#[global] Instance kept_preorder : PreOrder kept.
Proof. split; [by intros t|]. intros a b c [? ?] [? ?]. split; [congruence|auto]. Qed.

(** Once there are targets, the published set and the targets' identity are frozen
    and no guard is forgotten. *)
Record drainStep (r r' : drainOperationRecord) : Prop := {
  ds_request : drRequest r' = drRequest r;
  ds_phase : rtc drainNext (doPhase (drOperation r)) (doPhase (drOperation r'));
  ds_created : doCreatedAt (drOperation r') = doCreatedAt (drOperation r);
  ds_updated : doUpdatedAt (drOperation r) ≤ doUpdatedAt (drOperation r');
  ds_frozen : ∀ ts, doTargets (drOperation r) = Some ts →
    doOriginal (drOperation r') = doOriginal (drOperation r) ∧ doPublished (drOperation r') = doPublished (drOperation r)
    ∧ ∃ ts', doTargets (drOperation r') = Some ts'
             ∧ Forall2 kept ts ts'
}.

#[global] Instance drainStep_preorder : PreOrder drainStep.
Proof.
  split.
  - intros r. split; [done|done|done|done|]. intros ts Hts. split_and!; [done..|]. by exists ts.
  - intros a b c [] []. split; [congruence|by etrans|congruence|lia|].
    intros ts Hts. destruct (ds_frozen0 ts Hts) as (H1 & H2 & ts1 & Hts1 & F1).
    destruct (ds_frozen1 ts1 Hts1) as (H3 & H4 & ts2 & Hts2 & F2).
    split_and!; [congruence..|]. exists ts2. split; [done|by etrans].
Qed.

Lemma spec_conseq {X} (P : list event → Prop) (m : Co X) (R R' : X → list event → Prop) :
  spec P m R' → (∀ x l, R' x l → R x l) → spec P m R.
Proof. intros. by eapply spec_mono. Qed.

(** The post-condition of a round: the record stays well-formed, moves along the
    phases, and the loop only goes on after progress. *)
Definition rank (p : DrainPhase) : nat :=
  match p with DrainPreparing | DrainPublishUnknown => 3 | DrainGuarding => 2 | DrainWaitingVisitors => 1 | _ => 0 end.

Definition roundPost (r : drainOperationRecord) (x : drainOperationRecord * bool) (l : list event) : Prop :=
  drainOk x.1 l ∧ drainStep r x.1 ∧ (x.2 = true → (rank (doPhase (drOperation x.1)) < rank (doPhase (drOperation r)))%nat).

Lemma became_ok r o p ts ph r' l :
  became r o p ts ph r' → drainOk r l → shapeOk (setDrain r o p ts ph (doUpdatedAt (drOperation r))) l → drainOk r' l.
Proof. intros (t & Ht & ->) [] Hs. split; try done. simpl. lia. Qed.

Lemma became_step r o p ts ph r' :
  became r o p ts ph r' → drainNext (doPhase (drOperation r)) ph →
  (∀ l, doTargets (drOperation r) = Some l →
     o = doOriginal (drOperation r) ∧ p = doPublished (drOperation r)
     ∧ ∃ l', ts = Some l' ∧ Forall2 kept l l') →
  drainStep r r'.
Proof. intros (t & Ht & ->) Hn Hf. split; [done|by apply rtc_once|done|done|exact Hf]. Qed.

(** ** The rounds of [advance] *)

Lemma startOk_nonzero q : startOk q → sdExpected q ≠ zeroVersion.
Proof. intros H%sq_version E. by rewrite E in H. Qed.

Lemma startOk_normal q : startOk q → dedupe [] (merge_sort refLe (sdNextRefs q)) = sdNextRefs q.
Proof. intros H. by apply sort_dedupe_strict, sq_sorted. Qed.

Lemma spec_setPhase_ret {X} P r ph (name : string) (f : drainOperationRecord → X) (R : X → list event → Prop) : Grows P →
  (∀ r' l, P l → became r (doOriginal (drOperation r)) (doPublished (drOperation r)) (doTargets (drOperation r)) ph r' → R (f r') l) →
  spec P (r' ← setPhase r ph; _ ← inc name; mret (f r')) R.
Proof.
  intros HP HR. eapply spec_bind; [by apply spec_setPhase|]. intros r'.
  eapply spec_bind; [apply spec_inc; apply _|]. intros []. apply spec_ret. intros l [Hl Hb]. by apply HR.
Qed.

Lemma conflict_ok r r' l :
  drainOk r l → doPhase (drOperation r) = DrainPreparing →
  became r (doOriginal (drOperation r)) (doPublished (drOperation r)) (doTargets (drOperation r)) DrainConflict r' →
  roundPost r (r', false) l.
Proof.
  intros Hok Hph Hb. pose proof (ok_shape _ _ Hok) as Hs. unfold shapeOk in Hs. rewrite Hph in Hs. destruct Hs as [Ho Hu].
  split_and!; [by eapply became_ok| |done].
  eapply became_step; [exact Hb|rewrite Hph; constructor|]. intros ts Hts. destruct Hu as [_ Hu]. congruence.
Qed.

Lemma confirm_ok r set r' l :
  drainOk r l → originalOk r → doPhase (drOperation r) = DrainPreparing ∨ doPhase (drOperation r) = DrainPublishUnknown →
  unpublished r →
  publishedAs (sdGroup (drRequest r)) (sdExpected (drRequest r)) (sdNextRefs (drRequest r)) (default ∅ (sdNextTags (drRequest r))) set →
  became r (doOriginal (drOperation r)) set (Some (drainTargets (doOriginal (drOperation r)) set)) DrainGuarding r' →
  roundPost r (r', true) l.
Proof.
  intros Hok Ho Hph Hu Hp Hb. assert (drainOk r' l) as Hok'.
  { eapply became_ok; [exact Hb|done|]. unfold shapeOk. simpl. split_and!; [done|exact Hp|].
    eexists. split_and!; [reflexivity|done|..].
    - apply Forall_forall. intros t Ht. unfold drainTargets in Ht. simpl in Ht. rewrite merge_sort_Permutation in Ht.
      apply list_elem_of_fmap in Ht as (ref & -> & _). done.
    - apply Forall_forall. intros t Ht. unfold drainTargets in Ht. simpl in Ht. rewrite merge_sort_Permutation in Ht.
      apply list_elem_of_fmap in Ht as (ref & -> & _). done. }
  split_and!; [done| |].
  - eapply became_step; [exact Hb|destruct Hph as [->| ->]; constructor|]. intros ts Hts. destruct Hu as [_ Hu]. congruence.
  - intros _. destruct Hb as (t & _ & ->). simpl. destruct Hph as [->| ->]; simpl; lia.
Qed.

Lemma spec_weaken {X} (P P' : list event → Prop) (m : Co X) (R : X → list event → Prop) :
  spec P' m R → (∀ l, P l → P' l) → spec P m R.
Proof. intros. by eapply spec_mono. Qed.

Lemma spec_pure {X} (A : Prop) (P : list event → Prop) (m : Co X) R : (A → spec P m R) → spec (λ l, P l ∧ A) m R.
Proof. intros H w [Hw HA]. by apply H. Qed.

Lemma round_after r r1 x l :
  drainStep r r1 → doPhase (drOperation r1) = doPhase (drOperation r) → roundPost r1 x l → roundPost r x l.
Proof. intros Hs Hp (H1 & H2 & H3). split_and!; [done|by etrans|by rewrite <- Hp]. Qed.

Lemma spec_prepare r : doPhase (drOperation r) = DrainPreparing → spec (drainOk r) (prepare r) (roundPost r).
Proof.
  intros Hph. eapply spec_bind; [apply spec_get; apply _|]. intros [set|e].
  2: { apply spec_ret. intros l [Hl _]. by split_and!. }
  case_bool_decide as Hv.
  { apply spec_setPhase_ret; [apply _|]. intros r' l [Hok _] Hb. by apply conflict_ok. }
  set (r1 := setOriginal r set). apply (spec_weaken _ (λ l, (drainOk r1 l ∧ unpublished r) ∧ originalOk r1)).
  2: { intros l [[] (Hs & Hn & _)]. unfold shapeOk in *. rewrite Hph in *. destruct ok_shape0 as [_ Hu].
       split_and!; try done; [|apply Hu..]. split; try done. unfold shapeOk. simpl. rewrite Hph. split; [by right|done]. }
  apply spec_pure. intros Ho. apply spec_pure. intros Hu.
  assert (drainStep r r1) as Hstep by (split; [done..|intros ts Hts; destruct Hu as [_ Hu]; congruence]).
  eapply spec_conseq; [|intros x l; apply (round_after r r1 x l Hstep); done].
  intros w Hw. revert w Hw.
  change (spec (drainOk r1) (published ← publishDirectory (drRequest r1);
    match published with
    | Err ErrVersionConflict => r ← setPhase r1 DrainConflict; _ ← inc "drain_operations_conflict_total"; mret (r, false)
    | Err _ => r ← setPhase r1 DrainPublishUnknown; _ ← inc "drain_operations_publish_unknown_total"; mret (r, false)
    | Ok published => r ← confirmPublish r1 published; mret (r, true)
    end) (roundPost r1)).
  apply (spec_weaken _ (λ l, drainOk r1 l ∧ startOk (drRequest r1))); [|by intros l [] ].
  apply spec_pure. intros Hq.
  eapply spec_bind; [apply spec_publish; [apply _|by apply startOk_nonzero]|]. intros published.
  apply spec_pure. intros Hp. destruct published as [set1|e1].
  - specialize (Hp set1 eq_refl). rewrite startOk_normal in Hp by done.
    eapply spec_bind; [apply spec_setPhase; apply _|]. intros r'. apply spec_ret. intros l [Hok Hb].
    eapply confirm_ok; [done..|by left|exact Hu|exact Hp|exact Hb].
  - assert (∀ r' l, drainOk r1 l →
      became r1 (doOriginal (drOperation r1)) (doPublished (drOperation r1)) (doTargets (drOperation r1)) DrainPublishUnknown r' →
      roundPost r1 (r', false) l) as Hun.
    { intros r' l Hok Hb. split_and!; [by eapply became_ok| |done].
      eapply became_step; [exact Hb|simpl; rewrite Hph; constructor|]. intros ts Hts. destruct Hu as [_ Hu].
      change (doTargets (drOperation r) = Some ts) in Hts. congruence. }
    destruct e1; apply spec_setPhase_ret; try apply _; intros r' l Hok Hb; try by apply Hun.
    by apply conflict_ok.
Qed.

Lemma sameDrainServiceSet_spec a b :
  sameDrainServiceSet a b = true ↔
  Name a = Name b ∧ Version a = Version b ∧ refsOf a = refsOf b ∧ default ∅ (Tags a) = default ∅ (Tags b).
Proof. unfold sameDrainServiceSet. rewrite !andb_true_iff, !bool_decide_eq_true. tauto. Qed.

Lemma default_appendNil {A} (l : list A) : default [] (appendNil l) = l.
Proof. by destruct l. Qed.

Lemma superseded_ok r r' l :
  drainOk r l → rank (doPhase (drOperation r)) ≠ 0%nat → doPhase (drOperation r) ≠ DrainPreparing →
  became r (doOriginal (drOperation r)) (doPublished (drOperation r)) (doTargets (drOperation r)) DrainSuperseded r' →
  roundPost r (r', false) l.
Proof.
  intros Hok Hr Hp Hb. pose proof (ok_shape _ _ Hok) as Hs. unfold shapeOk in Hs. split_and!; [| |done].
  - eapply became_ok; [done..|]. unfold shapeOk. simpl. destruct (doPhase (drOperation r)); try done.
    + destruct Hs. split; [done|by left].
    + destruct Hs as (? & ? & ?). split; [done|by right].
    + destruct Hs as (? & ? & ? & _). split; [done|by right].
  - eapply became_step; [exact Hb|destruct (doPhase (drOperation r)); try done; constructor|].
    intros ts Hts. split_and!; [done..|]. by exists ts.
Qed.

Lemma spec_superseded r (P : list event → Prop) {HP : Grows P} :
  rank (doPhase (drOperation r)) ≠ 0%nat → doPhase (drOperation r) ≠ DrainPreparing → (∀ l, P l → drainOk r l) →
  spec P (r' ← setPhase r DrainSuperseded; mret (r', false)) (λ x l, x.2 = false ∧ roundPost r x l).
Proof.
  intros Hr Hp HPd. eapply spec_bind; [by apply spec_setPhase|]. intros r'. apply spec_ret. intros l [Hl Hb].
  split; [done|]. apply superseded_ok; auto.
Qed.

Lemma spec_confirmPublished r :
  doPhase (drOperation r) = DrainPublishUnknown → spec (drainOk r) (confirmPublished r) (roundPost r).
Proof.
  intros Hph. eapply spec_bind; [apply spec_get; apply _|]. intros [set|e].
  2: { apply spec_ret. intros l [Hl _]. by split_and!. }
  destruct (_ && _) eqn:Hm.
  - apply andb_true_iff in Hm as [(_ & _ & Hrefs & Htags)%sameDrainServiceSet_spec Hv]. unfold isExpectedNextVersion in Hv. bool_prop.
    eapply spec_bind; [apply spec_setPhase; apply _|]. intros r'. apply spec_ret.
    intros l [(Hok & Hval & Hn & _) Hb]. pose proof (ok_shape _ _ Hok) as Hs. unfold shapeOk in Hs. rewrite Hph in Hs.
    destruct Hs as [Ho Hu]. eapply confirm_ok; [done|done|by right|done| |exact Hb].
    split; [done..| |done]. simpl. rewrite Hrefs. apply default_appendNil.
  - destruct (isVersionAfter _ _).
    + eapply spec_conseq; [apply spec_superseded; [apply _|by rewrite Hph..|by intros l [? _]]|]. by intros x l [_ ?].
    + apply spec_ret. intros l [Hl _]. by split_and!.
Qed.

Lemma spec_still r : rank (doPhase (drOperation r)) ≠ 0%nat → doPhase (drOperation r) ≠ DrainPreparing →
  spec (drainOk r) (directoryStillPublished r) (λ x l,
    if x.2 then x.1 = r ∧ drainOk r l ∧ ∃ set, sameDrainServiceSet set (doPublished (drOperation r)) = true
                                              ∧ readSince (drainOk r) (sdGroup (drRequest r)) set l
    else roundPost r (x.1, false) l).
Proof.
  intros Hr Hp. eapply spec_bind; [apply spec_get; apply _|]. intros [set|e].
  2: { apply spec_ret. intros l [Hl _]. by split_and!. }
  destruct (sameDrainServiceSet set (doPublished (drOperation r))) eqn:Hs.
  - apply spec_ret. intros l (Hok & _ & _ & Hread). split_and!; [done..|]. by exists set.
  - eapply spec_conseq; [apply spec_superseded; [apply _|done..|by intros l [? _]]|].
    intros [r' b] l [Hb Hpost]. simpl in Hb. by subst b.
Qed.

Lemma spec_exists {X A} (P : A → list event → Prop) (m : Co X) R : (∀ a, spec (P a) m R) → spec (λ l, ∃ a, P a l) m R.
Proof. intros H w [a Hw]. by eapply H. Qed.

(** The loops over the targets. *)
Lemma spec_eachTarget P f (F : DrainTarget → DrainTarget * bool → list event → Prop) ts :
  (∀ t x, Grows (F t x)) → (∀ t, spec P (f t) (λ x l, P l ∧ F t x l)) →
  spec P (eachTarget f ts) (λ y l, P l ∧ Forall2 (λ t t', ∃ b, F t (t', b) l ∧ (y.2 = true → b = true)) ts y.1).
Proof.
  intros HF Hf. induction ts as [|t ts IH]; simpl.
  { apply spec_ret. intros l Hl. by split. }
  eapply spec_bind; [apply Hf|]. intros x. eapply spec_bind; [by apply spec_frame; [apply _|apply IH]|].
  intros y. apply spec_ret. intros l [[Hl Hall] Hx]. split; [done|]. simpl. constructor.
  - exists x.2. split; [by destruct x|]. intros [? ?]%andb_true_iff. done.
  - eapply Forall2_impl; [exact Hall|]. intros a b (c & Hc & Himp). exists c. split; [done|].
    intros [_ ?]%andb_true_iff. auto.
Qed.

(** Guarding one target: it is only marked when it said that it is draining. *)
Definition guardPost (t : DrainTarget) (x : DrainTarget * bool) (l : list event) : Prop :=
  kept t x.1 ∧ StrongVisitorCount x.1 = StrongVisitorCount t
  ∧ (Guarded x.1 = true → Guarded t = true ∨ guardedBy (dtRef t) l) ∧ (x.2 = true → Guarded x.1 = true).
#[global] Instance guardPost_grows t x : Grows (guardPost t x).
Proof. unfold guardPost. apply _. Qed.

Lemma spec_callGuard P ref b : Grows P →
  spec P (callGuard ref b) (λ x l, P l ∧ (isDraining x = true → guardedBy ref l)).
Proof.
  intros HP w Hw. split; [by apply quiet_emit|]. split; [eapply HP; [|done]; by eexists|].
  simpl. intros Hd. exists b, (ansGuard (log w) ref b). split; [set_solver|exact Hd].
Qed.

Lemma guardPost_same t l : guardPost t (t, Guarded t) l.
Proof. split_and!; [by split|done|by left|done]. Qed.

Lemma spec_guardTarget P t : Grows P → spec P (guardTarget t) (λ x l, P l ∧ guardPost t x l).
Proof.
  intros HP. unfold guardTarget. destruct (Guarded t) eqn:Hg.
  { apply spec_ret. intros l Hl. split; [done|]. rewrite <- Hg. apply guardPost_same. }
  assert (∀ l, P l → P l ∧ guardPost t (t, false) l) as Hno.
  { intros l Hl. split; [done|]. rewrite <- Hg. apply guardPost_same. }
  destruct (Drain.validServiceRef (dtRef t)); simpl; [|by apply spec_ret].
  assert (∀ l, P l ∧ guardedBy (dtRef t) l →
    P l ∧ guardPost t (mkDrainTarget (dtRef t) true (StrongVisitorCount t), true) l) as Hyes.
  { intros l [Hl He]. split; [done|]. split_and!; [by split|done|by right|done]. }
  eapply spec_bind; [by apply spec_callGuard|]. intros x. destruct (isDraining x) eqn:Hx.
  { apply spec_ret. intros l [Hl He]. apply Hyes. split; [done|by apply He]. }
  apply (spec_weaken _ P); [|by intros l [? _]].
  eapply spec_bind; [by apply spec_callGuard|]. intros y. destruct (isDraining y) eqn:Hy.
  { apply spec_ret. intros l [Hl He]. apply Hyes. split; [done|by apply He]. }
  eapply spec_bind; [apply spec_inc; apply _|]. intros []. apply spec_ret. intros l [Hl _]. by apply Hno.
Qed.

Lemma targets_kept r ts ts' l :
  doTargets (drOperation r) = Some ts → Forall2 kept ts ts' → Forall (λ t, 0 ≤ StrongVisitorCount t) ts' →
  Forall (λ t, Guarded t = true → guardedBy (dtRef t) l) ts' → targetsOk r l → targetsOk (setTargets r ts') l.
Proof.
  intros Hts Hk Hc Hg (ts0 & H0 & Hrefs & _). exists ts'. split_and!; try done. simpl. rewrite <- Hrefs.
  assert (ts0 = ts) as -> by congruence. clear -Hk. induction Hk as [|a b l k [H _] _ IH]; [done|]. csimpl. by rewrite H, IH.
Qed.

Lemma Forall2_Forall_r' {A B} (P : A → B → Prop) (Q : B → Prop) l k :
  Forall2 P l k → (∀ a b, a ∈ l → P a b → Q b) → Forall Q k.
Proof.
  induction 1 as [|a b l k Hab H IH]; intros HQ; constructor; [apply (HQ a); [set_solver|done]|].
  apply IH. intros x y Hx. apply HQ. set_solver.
Qed.

Lemma round_targets r ts ts' :
  doTargets (drOperation r) = Some ts → Forall2 kept ts ts' → drainStep r (setTargets r ts').
Proof. intros Hts Hk. split; try done. intros ts0 H0. split_and!; [done..|]. exists ts'. split; [done|]. by simplify_eq. Qed.

Lemma touched_ok r r' l :
  drainOk r l →
  became r (doOriginal (drOperation r)) (doPublished (drOperation r)) (doTargets (drOperation r)) (doPhase (drOperation r)) r' →
  roundPost r (r', false) l.
Proof.
  intros Hok (t & Ht & ->). split_and!; [|split; try done|done].
  - destruct Hok. split; try done. simpl in *. lia.
  - intros ts Hts. split_and!; [done..|]. by exists ts.
Qed.

Lemma spec_guard r : doPhase (drOperation r) = DrainGuarding → spec (drainOk r) (guard r) (roundPost r).
Proof.
  intros Hph. eapply spec_bind; [apply spec_still; by rewrite Hph|]. intros [r0 [|]]; simpl; [|by apply spec_ret].
  apply (spec_weaken _ (drainOk r)); [|by intros l (_ & ? & _)].
  eapply spec_bind; [apply spec_eachTarget; [apply _|intros t; apply spec_guardTarget; apply _]|].
  intros [ts' all]. simpl.
  apply (spec_weaken _ (λ l, (drainOk (setTargets r ts') l ∧ (all = true → allGuarded (setTargets r ts'))) ∧ drainStep r (setTargets r ts'))).
  2: { intros l [Hok Hall]. pose proof (ok_shape _ _ Hok) as Hs. unfold shapeOk in Hs. rewrite Hph in Hs.
       destruct Hs as (Ho & Hp & Ht). pose proof Ht as (ts & Hts & Hrefs & Hc & Hg). rewrite Hts in Hall. simpl in Hall.
       assert (Forall2 kept ts ts') as Hk.
       { eapply Forall2_impl; [exact Hall|]. intros a b (c & (? & _) & _). done. }
       split_and!; [| |by eapply round_targets].
       - destruct Hok. split; try done. unfold shapeOk. simpl. rewrite Hph. split_and!; [done..|].
         rewrite Forall_forall in Hc, Hg. eapply targets_kept; [exact Hts|done|..|exact Ht].
         + eapply Forall2_Forall_r'; [exact Hall|]. intros a b Ha (c & (_ & Hst & _) & _). simpl in Hst. rewrite Hst. auto.
         + eapply Forall2_Forall_r'; [exact Hall|]. intros a b Ha (c & ([Hr _] & _ & Hgb & _) & _) Hb. simpl in *. rewrite Hr.
           destruct (Hgb Hb) as [?|?]; auto.
       - intros Ha. eapply Forall2_Forall_r'; [exact Hall|]. intros a b _ (c & (_ & _ & _ & Hb) & Hc'). apply Hb, Hc', Ha. }
  apply spec_pure. intros Hstep. apply spec_pure. intros Hag. destruct all; simpl.
  - eapply spec_bind; [apply spec_setPhase; apply _|]. intros r'. apply spec_ret. intros l [Hok Hb].
    eapply round_after; [exact Hstep|done|]. pose proof (ok_shape _ _ Hok) as Hs. unfold shapeOk in Hs. simpl in Hs. rewrite Hph in Hs.
    destruct Hs as (Ho & Hp & Ht). split_and!.
    + eapply became_ok; [exact Hb|done|]. unfold shapeOk. simpl. split_and!; [done..|]. by apply Hag.
    + eapply became_step; [exact Hb|simpl; rewrite Hph; constructor|]. intros ts Hts. split_and!; [done..|]. by exists ts.
    + intros _. destruct Hb as (t & _ & ->). simpl. rewrite Hph. simpl. lia.
  - eapply spec_bind; [apply spec_touch; apply _|]. intros r'. apply spec_ret. intros l [Hok Hb].
    eapply round_after; [exact Hstep|done|]. by apply touched_ok.
Qed.

(** Counting the visitors of one target, after [base]. *)
Definition clearAfter (base : list event) (ref : ServiceRef) (l : list event) : Prop := ∃ l2, l = base ++ l2 ∧ clearBy ref l2.
#[global] Instance clearAfter_grows base ref : Grows (clearAfter base ref).
Proof.
  intros l l' [k ->] (l2 & -> & H). exists (l2 ++ k). split; [by rewrite app_assoc|]. eapply grows; [by exists k|done].
Qed.

Definition countPost (base : list event) (t : DrainTarget) (x : DrainTarget * bool) (l : list event) : Prop :=
  kept t x.1 ∧ (Guarded x.1 = true → Guarded t = true) ∧ (0 ≤ StrongVisitorCount t → 0 ≤ StrongVisitorCount x.1)
  ∧ (x.2 = true → StrongVisitorCount x.1 = 0 ∧ clearAfter base (dtRef t) l).
#[global] Instance countPost_grows base t x : Grows (countPost base t x).
Proof. unfold countPost. apply _. Qed.
#[global] Instance prefix_grows base : Grows (λ l, base `prefix_of` l).
Proof. intros l l' H1 H2. by etrans. Qed.

Lemma spec_listVisitors P base ref : Grows P →
  spec (λ l, P l ∧ base `prefix_of` l) (listVisitors ref) (λ x l, (P l ∧ base `prefix_of` l)
    ∧ ∀ vs, x = Ok vs → Forall (λ v, vrWeak v = true) vs → clearAfter base ref l).
Proof.
  intros HP w [Hw [l2 Hb]]. unfold listVisitors, Drain.List. destruct (Drain.validServiceRef ref); simpl.
  2: { split; [done|]. split; [|done]. split; [done|by exists l2]. }
  split; [by apply quiet_emit|]. split.
  { split; [eapply HP; [|done]; by eexists|]. rewrite Hb, <- app_assoc. by eexists. }
  intros vs Hx Hall. exists (l2 ++ [VisitorCall (ListVisitors ref) (ansVisitors (log w) (ListVisitors ref))]).
  split; [by rewrite app_assoc, <- Hb|].
  destruct (ansVisitors (log w) (ListVisitors ref)) as [[[]|]|]; try done. exists vs, e.
  destruct (Drain.errorFromCode e) eqn:He; [done|]. destruct l as [l|]; [|done].
  destruct (validVisitorRefs l); [|done]. injection Hx as ->. split_and!; [set_solver|done..].
Qed.

Lemma no_strong vs : length (filter (λ v, vrWeak v = false) vs) = 0%nat → Forall (λ v, vrWeak v = true) vs.
Proof.
  intros H%length_zero_iff_nil. apply Forall_forall. intros v Hv. destruct (vrWeak v) eqn:E; [done|].
  assert (v ∈ filter (λ v, vrWeak v = false) vs) as Hin by (by apply list_elem_of_filter). rewrite H in Hin. set_solver.
Qed.

Lemma spec_countTarget P base t : Grows P →
  spec (λ l, P l ∧ base `prefix_of` l) (countTarget t) (λ x l, (P l ∧ base `prefix_of` l) ∧ countPost base t x l).
Proof.
  intros HP. eapply spec_bind; [by apply spec_listVisitors|]. intros [vs|e]; apply spec_ret; intros l [Hl Hc]; (split; [done|]).
  - split_and!; simpl; [by split|done|lia|]. intros Hz. bool_prop. split; [done|]. apply (Hc vs eq_refl), no_strong. lia.
  - by split_and!.
Qed.

Lemma spec_wait r : doPhase (drOperation r) = DrainWaitingVisitors → spec (drainOk r) (waitForVisitors r) (roundPost r).
Proof.
  intros Hph. eapply spec_bind; [apply spec_still; by rewrite Hph|]. intros [r0 [|]]; simpl; [|by apply spec_ret].
  apply (spec_weaken _ (λ l, ∃ pre : list event * event * ServiceSet, (drainOk r l ∧ (pre.1.1 ++ [pre.1.2]) `prefix_of` l)
    ∧ (drainOk r pre.1.1 ∧ directoryRead pre.1.2 (sdGroup (drRequest r)) pre.2
       ∧ sameDrainServiceSet pre.2 (doPublished (drOperation r)) = true))).
  2: { intros l (_ & Hok & set & Hs & l1 & e & l2 & -> & Hok1 & Hr). exists (l1, e, set). split_and!; try done.
       exists l2. by rewrite <- app_assoc. }
  apply spec_exists. intros [[l1 e] set]. simpl. apply spec_pure. intros (Hok1 & Hread & Hsame).
  eapply spec_bind; [apply (spec_eachTarget _ _ (countPost (l1 ++ [e]))); [apply _|intros t; apply spec_countTarget; apply _]|].
  intros [ts' all]. simpl.
  apply (spec_weaken _ (λ l, (drainOk (setTargets r ts') l ∧ (all = true → allReady (setTargets r ts') l)) ∧ drainStep r (setTargets r ts'))).
  2: { intros l [[Hok Hpre] Hall]. pose proof (ok_shape _ _ Hok) as Hs. unfold shapeOk in Hs. rewrite Hph in Hs.
       destruct Hs as (Ho & Hp & Ht & Hag). pose proof Ht as (ts & Hts & Hrefs & Hc & Hg).
       pose proof (ok_shape _ _ Hok1) as Hs1. unfold shapeOk in Hs1. rewrite Hph in Hs1. destruct Hs1 as (_ & _ & (ts0 & Hts0 & _ & _ & Hg1) & _).
       unfold allGuarded in Hag. rewrite Hts in Hall, Hag. simpl in Hall, Hag. assert (ts0 = ts) as -> by congruence.
       rewrite Forall_forall in Hc, Hg, Hg1, Hag.
       assert (Forall2 kept ts ts') as Hk.
       { eapply Forall2_impl; [exact Hall|]. intros a b (c & (? & _) & _). done. }
       assert (∀ a b, a ∈ ts → kept a b → Guarded b = true) as Hgb by (intros a b Ha [_ H]; auto).
       split_and!; [| |by eapply round_targets].
       - destruct Hok. split; try done. unfold shapeOk. simpl. rewrite Hph. split_and!; [done..| |].
         + eapply targets_kept; [exact Hts|done|..|exact Ht].
           * eapply Forall2_Forall_r'; [exact Hall|]. intros a b Ha (c & (_ & _ & H & _) & _). auto.
           * eapply Forall2_Forall_r'; [exact Hall|]. intros a b Ha (c & ([Hr _] & _) & _) Hb. simpl in *. rewrite Hr. auto.
         + eapply Forall2_Forall_r'; [exact Hk|]. intros a b Ha Hkab. by eapply Hgb.
       - intros Ha. split; simpl.
         + eapply Forall2_Forall_r'; [exact Hall|]. intros a b Hin (c & (Hkab & _ & _ & H) & Hc'). split; [by eapply Hgb|].
           by apply H, Hc'.
         + destruct Hpre as [l2 ->]. exists l1, e, set, l2. rewrite (pa_name _ _ _ _ _ Hp). split_and!; [by rewrite <- app_assoc| |done|done|].
           * apply Forall_fmap. eapply Forall2_Forall_r'; [exact Hall|]. intros a b Hin (c & ([Hr _] & _) & _). simpl in *. rewrite Hr. auto.
           * apply Forall_fmap. eapply Forall2_Forall_r'; [exact Hall|]. intros a b Hin (c & ([Hr _] & _ & _ & H) & Hc').
             simpl in *. rewrite Hr. destruct (H (Hc' Ha)) as [_ (l3 & E & Hcl)]. by simplify_list_eq. }
  apply spec_pure. intros Hstep. destruct all; simpl.
  - apply (spec_weaken _ (λ l, drainOk (setTargets r ts') l ∧ allReady (setTargets r ts') l)); [|by intros l [? H]; auto].
    apply spec_setPhase_ret; [apply _|]. intros r' l [Hok Hre] Hb.
    eapply round_after; [exact Hstep|done|]. pose proof (ok_shape _ _ Hok) as Hs. unfold shapeOk in Hs. simpl in Hs. rewrite Hph in Hs.
    destruct Hs as (Ho & Hp & Ht & _). split_and!; [|  |done].
    + eapply became_ok; [exact Hb|done|]. unfold shapeOk. simpl. split_and!; [done|done|exact Ht|exact Hre].
    + eapply became_step; [exact Hb|simpl; rewrite Hph; constructor|]. intros ts Hts. split_and!; [done..|]. by exists ts.
  - apply (spec_weaken _ (drainOk (setTargets r ts'))); [|by intros l [? _]].
    eapply spec_bind; [apply spec_touch; apply _|]. intros r'. apply spec_ret. intros l [Hok Hb].
    eapply round_after; [exact Hstep|done|]. by apply touched_ok.
Qed.

Lemma spec_advanceOnce r : spec (drainOk r) (advanceOnce r) (roundPost r).
Proof.
  unfold advanceOnce. destruct (doPhase (drOperation r)) eqn:Hph;
    [by apply spec_prepare|by apply spec_confirmPublished|by apply spec_guard|by apply spec_wait|..];
    (apply spec_ret; intros l Hl; by split_and!).
Qed.

Lemma spec_advanceLoop n r : spec (drainOk r) (advanceLoop n r) (λ r' l, drainOk r' l ∧ drainStep r r').
Proof.
  revert r. induction n as [|n IH]; intros r; simpl; [apply spec_ret; by intros l Hl|].
  eapply spec_bind; [apply spec_advanceOnce|]. intros [r' [|]]; simpl.
  - apply (spec_weaken _ (λ l, drainOk r' l ∧ drainStep r r')); [|by intros l (? & ? & _)].
    apply spec_pure. intros Hs. eapply spec_conseq; [apply IH|]. intros x l [? ?]. split; [done|by etrans].
  - apply spec_ret. by intros l (? & ? & _).
Qed.

Lemma advanceLoop_rank n m r w :
  drainOk r (log w) → (rank (doPhase (drOperation r)) ≤ n)%nat → (rank (doPhase (drOperation r)) ≤ m)%nat →
  advanceLoop n r w = advanceLoop m r w.
Proof.
  revert m r w. assert (∀ r w, rank (doPhase (drOperation r)) = 0%nat → advanceOnce r w = (w, (r, false))) as H0.
  { intros r w Hr. unfold advanceOnce. by destruct (doPhase (drOperation r)). }
  induction n as [|n IH]; intros m r w Hok Hn Hm; destruct m as [|m]; simpl; unfold mbind, co_bind; try done.
  - by rewrite H0 by lia.
  - by rewrite H0 by lia.
  - destruct (spec_advanceOnce r w Hok) as [_ (Hok' & _ & Hr)].
    destruct (advanceOnce r w) as [w' [r' [|]]]; simpl in *; [|done]. specialize (Hr eq_refl). apply IH; [done|lia..].
Qed.

(** A decided operation does not change. *)
Lemma spec_advance r :
  spec (drainOk r) (advance r)
    (λ r' l, drainOk r' l ∧ drainStep r r' ∧ (rank (doPhase (drOperation r)) = 0%nat → r' = r)).
Proof.
  destruct (decide (rank (doPhase (drOperation r)) = 0%nat)) as [H0|Hne].
  - assert (∀ w, advance r w = (w, r)) as Heq.
    { intros w. unfold advance. simpl. unfold mbind, co_bind, advanceOnce. by destruct (doPhase (drOperation r)). }
    intros w Hw. rewrite Heq. by split_and!.
  - eapply spec_conseq; [apply spec_advanceLoop|]. intros r' l [? ?]. by split_and!.
Qed.

(** Three rounds suffice. *)
Lemma advance_fuel n r w : (3 ≤ n)%nat → drainOk r (log w) → advanceLoop n r w = advance r w.
Proof. intros Hn Hok. apply advanceLoop_rank; [done|destruct (doPhase (drOperation r)); simpl; lia..]. Qed.
End Logic.
