(* ===== verification/CoordinatorStop.v ===== *)
(** * The drain coordinator: stop operations

    The invariant of a stop record next to the drain it belongs to, and what is known
    of every order to stop a service: it directly follows a reading of the
    directory, and the log before it holds the evidence of the drain. *)

From stdpp Require Import prelude gmap strings list sorting.
From Stdlib Require Import ZArith Lia.
From S2P Require Import Prelude Types Metrics GoText Drain Directory DirectoryFacts DirectoryClient Control Coordinator CoordinatorInv.

Local Open Scope Z_scope.

(** ** Orders to stop *)

(** The log [l1] justifies the order [task]. *)
Definition justified (task : NodeStopTask) (l1 : list event) : Prop :=
  (∃ l0 e set, l1 = l0 ++ [e] ∧ directoryRead e (Name (ntPublished task)) set ∧ sameDrainServiceSet set (ntPublished task) = true)
  ∧ ntTarget task ∉ refsOf (ntPublished task)
  ∧ ∃ refs, ntTarget task ∈ refs ∧ readyBy (ntPublished task) refs l1.

Definition ordersOk (l : list event) : Prop :=
  ∀ l1 agent task r l2, l = l1 ++ StopCall agent task r :: l2 → justified task l1.

Lemma ordersOk_calm l k : ordersOk l → Forall calm k → ordersOk (l ++ k).
Proof.
  intros H Hk l1 agent task r l2 E. apply app_eq_inv in E as [(k' & -> & E)|(k' & -> & E)].
  - destruct k' as [|e k']; simpl in E.
    + subst k. inversion Hk as [|? ? Hc]; subst. done.
    + injection E as <- ->. by eapply (H l1 agent task r k').
  - subst k. apply Forall_app in Hk as [_ Hk]. inversion Hk as [|? ? Hc]; subst. done.
Qed.

Lemma ordersOk_order l agent task r : ordersOk l → justified task l → ordersOk (l ++ [StopCall agent task r]).
Proof.
  intros H Hj l1 agent' task' r' l2 E. apply app_eq_inv in E as [(k' & -> & E)|(k' & -> & E)].
  - destruct k' as [|e k']; simplify_list_eq; [done|]. by eapply (H l1 agent' task' r' k').
  - destruct k' as [|e [|? k']]; by simplify_list_eq.
Qed.

(** ** Programs that may give orders *)

(** Like [spec], for programs that may give orders: [m] changes nothing but metrics,
    every order it gives is justified, and the log only grows. *)
Definition ospec {X} (P : list event → Prop) (m : Co X) (R : X → list event → Prop) : Prop :=
  ∀ w, P (log w) → ordersOk (log w) →
    stored (svc (m w).1) = stored (svc w) ∧ log w `prefix_of` log (m w).1 ∧ ordersOk (log (m w).1) ∧ R (m w).2 (log (m w).1).

Lemma ospec_spec {X} P (m : Co X) R : spec P m R → ospec P m R.
Proof.
  intros H w Hw Ho. destruct (H w Hw) as [[H1 (k & Hk & Ck)] H2]. rewrite Hk. split_and!; [done|by exists k|by apply ordersOk_calm|].
  by rewrite <- Hk.
Qed.

Lemma ospec_ret {X} (P : list event → Prop) (x : X) R : (∀ l, P l → R x l) → ospec P (mret x) R.
Proof. intros. by apply ospec_spec, spec_ret. Qed.

Lemma ospec_bind {X Y} P (m : Co X) (k : X → Co Y) R R' :
  ospec P m R → (∀ x, ospec (R x) (k x) R') → ospec P (m ≫= k) R'.
Proof.
  intros Hm Hk w Hw Ho. unfold mbind, co_bind. destruct (Hm w Hw Ho) as (H1 & H2 & H3 & H4).
  destruct (m w) as [w1 x]. simpl in *. destruct (Hk x w1 H4 H3) as (H5 & H6 & H7 & H8).
  split_and!; [congruence|by etrans|done..].
Qed.

Lemma ospec_mono {X} (P P' : list event → Prop) (m : Co X) (R R' : X → list event → Prop) :
  ospec P' m R' → (∀ l, P l → P' l) → (∀ x l, R' x l → R x l) → ospec P m R.
Proof. intros H HP HR w Hw Ho. destruct (H w (HP _ Hw) Ho) as (? & ? & ? & ?). split_and!; auto. Qed.

Lemma ospec_pure {X} (A : Prop) (P : list event → Prop) (m : Co X) R : (A → ospec P m R) → ospec (λ l, P l ∧ A) m R.
Proof. intros H w [Hw HA]. by apply H. Qed.

(** ** Stop records *)

(** The facts of a request that was normalised. *)
Record stopRequestOk (q : BeginStopRequest) : Prop := {
  bq_id : validRequestID (bsRequestID q) = true;
  bq_principal : validPrincipal (bsPrincipal q) = true;
  bq_targets : Forall (λ t, validStopTargetRequest t = true) (bsTargets q);
  bq_sorted : StronglySorted refLt (strTarget <$> bsTargets q)
}.

Definition stopVerdictOk (phase : StopPhase) (ts : list StopTarget) : Prop :=
  match phase with
  | StopCompleted => Forall (λ t, stState t = StopTargetStopped) ts
  | StopFailed => Forall (λ t, closedTarget t = true) ts ∧ Exists (λ t, stState t = StopTargetFailed) ts
  | StopPhaseOther _ => False
  | _ => True
  end.

(** The agent of [t] answered a call about it with a receipt that says what [t] says. *)
Definition receiptSeen (id : RequestID) (t : StopTarget) (l : list event) : Prop :=
  ∃ r receipt,
    (StopReceiptCall (stAgent t) id (stTarget t) r ∈ l
     ∨ ∃ g p, StopCall (stAgent t) (mkStopTask (stAgent t) id (stTarget t) g p) r ∈ l)
    ∧ nodeStopReceiptFromResponse r id (stTarget t) = Ok receipt
    ∧ stState t = srState receipt ∧ stFailure t = srFailure receipt.
Definition reported (id : RequestID) (t : StopTarget) (l : list event) : Prop :=
  (stState t = StopTargetPending ∧ stFailure t = StopFailureNone) ∨ receiptSeen id t l.

(** [d] is the finished drain the stop belongs to. *)
Record stopOk (d : drainOperationRecord) (r : stopOperationRecord) (l : list event) : Prop := {
  so_request : stopRequestOk (spRequest r);
  so_id : soRequestID (spOperation r) = bsRequestID (spRequest r);
  so_principal : soPrincipal (spOperation r) = bsPrincipal (spRequest r);
  so_group : soGroup (spOperation r) = sdGroup (drRequest d);
  so_published : soPublished (spOperation r) = doPublished (drOperation d);
  so_time : 0 < soCreatedAt (spOperation r) ≤ soUpdatedAt (spOperation r);
  so_ready : doPhase (drOperation d) = DrainReadyToStop;
  so_same : bsRequestID (spRequest r) = sdRequestID (drRequest d);
  so_targets : ∃ ts, soTargets (spOperation r) = Some ts
    ∧ (λ t, mkStopTargetRequest (stTarget t) (stAgent t)) <$> ts = bsTargets (spRequest r)
    ∧ stTarget <$> ts = dtRef <$> default [] (doTargets (drOperation d))
    ∧ Forall (λ t, validStopTarget t = true) ts
    ∧ Forall (λ t, reported (soRequestID (spOperation r)) t l) ts
    ∧ stopVerdictOk (soPhase (spOperation r)) ts
}.

#[global] Instance receiptSeen_grows id t : Grows (receiptSeen id t).
Proof. intros l l' [k ->] (r & x & [H|(g & p & H)] & H'); exists r, x; (split; [|done]); [left|right; exists g, p]; set_solver. Qed.
#[global] Instance reported_grows id t : Grows (reported id t).
Proof. unfold reported. apply _. Qed.
#[global] Instance stopOk_grows d r : Grows (stopOk d r).
Proof.
  intros l l' Hl [? ? ? ? ? ? ? ? (ts & ? & ? & ? & ? & Hr & ?)]. split; try done. exists ts. split_and!; try done.
  eapply Forall_impl; [exact Hr|]. intros t. by apply reported_grows.
Qed.

(** A well-formed stop passes the checks of the client, when it has targets. *)
Lemma stopOk_valid d r l :
  stopOk d r l → drainOk d l → bsTargets (spRequest r) ≠ [] →
  validStopOperation (cloneStopOperation (spOperation r)) = true.
Proof.
  intros [[H1 H2 H3 H4] E1 E2 E3 E4 Ht Hr _ (ts & Hts & Hreq & Hdr & Hv & _ & Hp)] Hd Hne.
  pose proof (ok_shape _ _ Hd) as Hs. unfold shapeOk in Hs. rewrite Hr in Hs. destruct Hs as (_ & [Pv Pn _ _ _ _] & _).
  pose proof (sq_group _ (ok_request _ _ Hd)) as Hg.
  assert (appendNil ts = Some ts) as Ha by (destruct ts; [by destruct Hne|done]).
  unfold validStopOperation, cloneStopOperation. simpl. rewrite Hts, Ha, E1, E2, E3, E4, H1, H2, Hg, Pv, Pn.
  rewrite bool_decide_true by done. rewrite (proj2 (Z.eqb_neq _ _)) by lia. rewrite (proj2 (Z.ltb_ge _ _)) by lia.
  assert (forallb validStopTarget ts = true) as ->.
  { apply forallb_forall. intros t Hin. rewrite Forall_forall in Hv. by apply Hv, list_elem_of_In. }
  assert (strictlySorted (stTarget <$> ts) = true) as ->.
  { apply strictlySorted_spec. rewrite <- Hreq, <- list_fmap_compose in H4. exact H4. }
  unfold stopVerdictOk in Hp. destruct (soPhase (spOperation r)); simpl; try done.
  - apply forallb_forall. intros t Hin. rewrite Forall_forall in Hp. by apply bool_decide_eq_true, Hp, list_elem_of_In.
  - destruct Hp as [Hc He]. apply andb_true_iff. split.
    + apply forallb_forall. intros t Hin. rewrite Forall_forall in Hc. by apply Hc, list_elem_of_In.
    + apply existsb_exists. apply Exists_exists in He as (t & Hin & Hf). exists t. split; [by apply list_elem_of_In|].
      by apply bool_decide_eq_true.
Qed.

(** ** Changing a stop record *)

Definition stopBecame (r : stopOperationRecord) (ts : list StopTarget) (ph : StopPhase) (r' : stopOperationRecord) : Prop :=
  ∃ t, soUpdatedAt (spOperation r) ≤ t ∧ r' = setStop r (Some ts) ph t.

Definition samePair (a b : StopTarget) : Prop := stTarget b = stTarget a ∧ stAgent b = stAgent a.

Lemma stopBecame_ok d r ts ts' ph r' l :
  stopBecame r ts' ph r' → stopOk d r l → soTargets (spOperation r) = Some ts → Forall2 samePair ts ts' →
  Forall (λ t, validStopTarget t = true) ts' → Forall (λ t, reported (soRequestID (spOperation r)) t l) ts' →
  stopVerdictOk ph ts' → stopOk d r' l.
Proof.
  intros (t & Ht & ->) [? ? ? ? ? ? ? ? (ts0 & Hts0 & Hreq & Hdr & _ & _)] Hts Hp Hv Hrep Hph.
  assert (ts0 = ts) as -> by congruence. split; try done; [simpl; lia|]. exists ts'. split_and!; try done.
  - simpl. rewrite <- Hreq. clear -Hp. induction Hp as [|a b l k [E1 E2] _ IH]; csimpl; congruence.
  - rewrite <- Hdr. clear -Hp. induction Hp as [|a b l k [E1 E2] _ IH]; csimpl; congruence.
Qed.

Section StopLogic.
Context {EN : Env}.

Lemma spec_touchStop P r ts : Grows P → soTargets (spOperation r) = Some ts →
  spec P (touchStop r) (λ r' l, P l ∧ stopBecame r ts (soPhase (spOperation r)) r').
Proof.
  intros HP Hts. eapply spec_bind; [by apply spec_now|]. intros t. apply spec_ret. intros l [Hl _]. split; [done|].
  destruct (t <? soUpdatedAt (spOperation r)) eqn:E; bool_prop; simpl.
  - exists (soUpdatedAt (spOperation r)). split; [done|]. rewrite <- Hts. by destruct r as [q []].
  - exists t. by rewrite Hts.
Qed.

Lemma spec_setStopPhase P r ts ph : Grows P → soTargets (spOperation r) = Some ts →
  spec P (setStopPhase r ph) (λ r' l, P l ∧ stopBecame r ts ph r').
Proof.
  intros HP Hts. unfold setStopPhase. case_bool_decide as Hph.
  { apply spec_ret. intros l Hl. split; [done|]. exists (soUpdatedAt (spOperation r)). split; [done|].
    rewrite <- Hts, <- Hph. by destruct r as [q []]. }
  eapply spec_bind; [apply (spec_touchStop P _ ts); done|]. intros r'.
  set (Q := λ l, P l ∧ stopBecame r ts ph r'). assert (Grows Q) as HQ by apply _.
  apply (spec_bind Q _ _ (λ _, Q)); [|by intros []; apply spec_ret].
  destruct ph; try (by apply spec_inc); by apply spec_ret.
Qed.

(** The targets of a record that is not yet decided. *)
Definition open (p : StopPhase) : Prop := p = StopDispatching ∨ p = StopWaiting.

Definition stopInv (d : drainOperationRecord) (r : stopOperationRecord) (l : list event) : Prop :=
  stopOk d r l ∧ drainOk d l ∧ open (soPhase (spOperation r)).
#[global] Instance stopInv_grows d r : Grows (stopInv d r).
Proof. unfold stopInv. apply _. Qed.

Lemma open_verdict p ts : open p → stopVerdictOk p ts.
Proof. by intros [-> | ->]. Qed.

Lemma receipt_valid r id target x : nodeStopReceiptFromResponse r id target = Ok x → validNodeStopReceipt x = true.
Proof.
  unfold nodeStopReceiptFromResponse. destruct r as [[[x0 c]|]|]; try done. destruct (errorFromCode c); [done|].
  destruct (validNodeStopReceipt x0) eqn:Hv; simpl; [|done]. repeat case_bool_decide; simpl; try done. by intros [= <-].
Qed.

Lemma receipt_target t x :
  validStopTarget t = true → validNodeStopReceipt x = true →
  validStopTarget (mkStopTarget (stTarget t) (stAgent t) (srState x) (srFailure x)) = true.
Proof.
  unfold validStopTarget, validNodeStopReceipt. simpl. intros [-> _]%andb_true_iff. rewrite !andb_true_iff.
  intros [_ H]. split; [done|]. destruct (srState x), (srFailure x); by vm_compute in H |- *.
Qed.

Lemma samePair_refl ts : Forall2 samePair ts ts.
Proof. induction ts; by repeat constructor. Qed.

(** Recording a receipt at an index. *)
Lemma spec_apply d r i ts t x P : Grows P →
  soTargets (spOperation r) = Some ts → ts !! i = Some t → validNodeStopReceipt x = true →
  (∀ l, P l → stopInv d r l ∧ receiptSeen (soRequestID (spOperation r)) (mkStopTarget (stTarget t) (stAgent t) (srState x) (srFailure x)) l) →
  spec P (applyNodeStopReceipt r i x)
    (λ r' l, stopInv d r' l ∧ lenTargets (soTargets (spOperation r')) = lenTargets (soTargets (spOperation r))).
Proof.
  intros HP Hts Hi Hx Hinv. set (f := λ t, mkStopTarget (stTarget t) (stAgent t) (srState x) (srFailure x)).
  eapply spec_conseq; [apply (spec_touchStop P _ (alter f i ts)); [done|simpl; by rewrite Hts]|].
  intros r' l [Hl Hb]. destruct (Hinv l Hl) as [(Hok & Hd & Hop) Hseen].
  assert (∀ t', t' ∈ alter f i ts → t' ∈ ts ∨ t' = f t) as Helem.
  { intros t' Ht'. apply list_elem_of_lookup in Ht' as [j Hj]. destruct (decide (i = j)) as [<-|Hij].
    - rewrite list_lookup_alter_eq, Hi in Hj. simpl in Hj. injection Hj as <-. by right.
    - rewrite list_lookup_alter_ne in Hj by done. left. by apply list_elem_of_lookup_2 in Hj. }
  pose proof (so_targets _ _ _ Hok) as (ts0 & Hts0 & _ & _ & Hv & Hrep & _). assert (ts0 = ts) as -> by congruence.
  rewrite Forall_forall in Hv, Hrep. pose proof (list_elem_of_lookup_2 _ _ _ Hi) as Hin.
  split; [split_and!; [|done|]|].
  - eapply (stopBecame_ok d r ts (alter f i ts)); [exact Hb|done|done|..|by apply open_verdict].
    + clear. revert i. induction ts as [|a ts IH]; intros [|i]; simpl; constructor; try done; [apply samePair_refl|apply IH].
    + apply Forall_forall. intros t' [Ht'| ->]%Helem; [auto|]. apply receipt_target; auto.
    + apply Forall_forall. intros t' [Ht'| ->]%Helem; [auto|]. by right.
  - destruct Hb as (u & _ & ->). done.
  - destruct Hb as (u & _ & ->). unfold lenTargets. simpl. rewrite Hts. simpl. apply length_alter.
Qed.

(** ** The loops *)

Lemma elem_last {A} (x : A) l : x ∈ l ++ [x].
Proof. set_solver. Qed.

Lemma spec_readReceipts d idx r :
  spec (stopInv d r) (readReceipts idx r) (λ r' l, stopInv d r' l ∧ lenTargets (soTargets (spOperation r')) = lenTargets (soTargets (spOperation r))).
Proof.
  revert r. induction idx as [|i idx IH]; intros r; simpl; [by apply spec_ret|].
  destruct (soTargets (spOperation r)) as [ts|] eqn:Hts; simpl; [|by apply spec_ret; intros l Hl; rewrite Hts].
  destruct (ts !! i) as [t|] eqn:Hi; [|by apply spec_ret; intros l Hl; rewrite Hts].
  eapply (spec_bind _ _ _ (λ x l, stopInv d r l ∧ ∀ y, x = Ok y → validNodeStopReceipt y = true
    ∧ receiptSeen (soRequestID (spOperation r)) (mkStopTarget (stTarget t) (stAgent t) (srState y) (srFailure y)) l)).
  { intros w Hw. split; [by apply quiet_emit|]. split; [eapply stopInv_grows; [|exact Hw]; by eexists|].
    intros y Hy. unfold getNodeStopReceipt in *. simpl in *. split; [by eapply receipt_valid|].
    eexists _, y. split_and!; [left; by apply elem_last|exact Hy|done|done]. }
  intros x. eapply (spec_bind _ _ _ (λ r' l, stopInv d r' l ∧ lenTargets (soTargets (spOperation r')) = lenTargets (Some ts))).
  - destruct x as [y|e].
    + rewrite <- Hts.
      apply (spec_weaken _ (λ l, (stopInv d r l ∧ receiptSeen (soRequestID (spOperation r))
        (mkStopTarget (stTarget t) (stAgent t) (srState y) (srFailure y)) l) ∧ validNodeStopReceipt y = true)).
      2: { intros l [Hl Hy]. destruct (Hy y eq_refl). done. }
      apply spec_pure. intros Hv. eapply spec_apply; [apply _|done..].
    + apply spec_ret. intros l [Hl _]. by rewrite Hts.
  - intros r'. apply spec_pure. intros Hlen. rewrite <- Hlen. apply IH.
Qed.

Lemma drained_not_published ref o p : ref ∈ dtRef <$> drainTargets o p → ref ∉ refsOf p.
Proof.
  intros (t & -> & Ht)%list_elem_of_fmap. unfold drainTargets in Ht. rewrite merge_sort_Permutation in Ht.
  apply list_elem_of_fmap in Ht as (ref & -> & Hin). by apply list_elem_of_filter in Hin as [? _].
Qed.

Lemma ospec_directory P p : Grows P →
  ospec P (matchesStopDirectory p) (λ x l, P l ∧ (x = Ok true →
    ∃ l0 e set, l = l0 ++ [e] ∧ directoryRead e (Name p) set ∧ sameDrainServiceSet set p = true)).
Proof.
  intros HP. apply ospec_spec. intros w Hw. unfold matchesStopDirectory, mbind, co_bind, mret, co_ret, getDirectory, Get.
  destruct (validGroup (Name p)); simpl; [|done]. split; [by apply quiet_emit|]. split; [eapply HP; [|done]; by eexists|].
  destruct (ansDirectory (log w) (GetServiceSet (Name p))) as [resp|e] eqn:Ha; simpl; [|done].
  destruct (serviceSetFromResponse resp (Name p)) as [set|e] eqn:Hs; simpl; [|done].
  intros [= Hm]. eexists _, _, set. split_and!; [reflexivity| |done]. by exists resp.
Qed.

Lemma stop_justified d r l ts i t l0 e set :
  stopOk d r l → drainOk d l → soTargets (spOperation r) = Some ts → ts !! i = Some t →
  l = l0 ++ [e] → directoryRead e (Name (soPublished (spOperation r))) set → sameDrainServiceSet set (soPublished (spOperation r)) = true →
  justified (mkStopTask (stAgent t) (soRequestID (spOperation r)) (stTarget t) (soGroup (spOperation r)) (soPublished (spOperation r))) l.
Proof.
  intros Hok Hd Hts Hi Hl Hread Hsame. split; [by exists l0, e, set|]. simpl.
  pose proof (so_targets _ _ _ Hok) as (ts0 & Hts0 & _ & Hdr & _). assert (ts0 = ts) as -> by congruence.
  assert (stTarget t ∈ dtRef <$> default [] (doTargets (drOperation d))) as Hin.
  { rewrite <- Hdr. apply list_elem_of_fmap. exists t. split; [done|]. by apply list_elem_of_lookup_2 in Hi. }
  pose proof (ok_shape _ _ Hd) as Hs. unfold shapeOk in Hs. rewrite (so_ready _ _ _ Hok) in Hs.
  destruct Hs as (_ & _ & (ts1 & Hts1 & Hrefs & _) & [_ Hready]). rewrite (so_published _ _ _ Hok). split.
  - rewrite Hts1 in Hin. simpl in Hin. rewrite Hrefs in Hin. by eapply drained_not_published.
  - by eexists.
Qed.

(** Setting a phase its targets support. *)
Lemma spec_phase d r ph : (∀ ts, soTargets (spOperation r) = Some ts → stopVerdictOk ph ts) →
  spec (stopInv d r) (setStopPhase r ph) (λ r' l, stopOk d r' l ∧ drainOk d l).
Proof.
  intros Hph w Hw. pose proof (so_targets _ _ _ (proj1 Hw)) as (ts & Hts & _).
  apply (spec_conseq (stopInv d r) _ (λ r' l, stopOk d r' l ∧ drainOk d l) (λ r' l, stopInv d r l ∧ stopBecame r ts ph r'));
    [apply spec_setStopPhase; [apply _|done]| |exact Hw].
  intros r' l [(Hok & Hd & Hop) Hb]. split; [|done].
  pose proof (so_targets _ _ _ Hok) as (ts0 & Hts0 & _ & _ & Hv & Hrep & _). assert (ts0 = ts) as -> by congruence.
  eapply stopBecame_ok; [exact Hb|done|done|apply samePair_refl|done|done|by apply Hph].
Qed.

Lemma ospec_dispatch d idx r :
  ospec (stopInv d r) (dispatchStops idx r) (λ x l, stopOk d x.1 l ∧ drainOk d l ∧ (x.2 = true → open (soPhase (spOperation x.1)))).
Proof.
  revert r. induction idx as [|i idx IH]; intros r; simpl; [apply ospec_ret; by intros l (? & ? & ?)|].
  destruct (soTargets (spOperation r)) as [ts|] eqn:Hts; simpl; [|by apply ospec_ret; intros l (? & ? & ?)].
  destruct (ts !! i) as [t|] eqn:Hi; [|by apply ospec_ret; intros l (? & ? & ?)].
  case_bool_decide; [apply IH|].
  eapply ospec_bind; [apply (ospec_directory (stopInv d r)); apply _|]. intros [[|]|e].
  - eapply (ospec_bind _ _ _ (λ x l, stopInv d r l ∧ ∀ y, x = Ok y → validNodeStopReceipt y = true
      ∧ receiptSeen (soRequestID (spOperation r)) (mkStopTarget (stTarget t) (stAgent t) (srState y) (srFailure y)) l)).
    { intros w [Hinv Hread] Ho. destruct (Hread eq_refl) as (l0 & e & set & Hl & Hr & Hs). pose proof Hinv as (Hok & Hd & _).
      split_and!; [done|by eexists|..].
      - apply ordersOk_order; [done|]. by eapply stop_justified.
      - eapply stopInv_grows; [|exact Hinv]; by eexists.
      - intros y Hy. unfold beginNodeStop in *. simpl in *. split; [by eapply receipt_valid|].
        eexists _, y. split_and!; [right; eexists _, _; by apply elem_last|exact Hy|done|done]. }
    intros x. eapply (ospec_bind _ _ _ (λ r' l, stopInv d r' l)); [|intros r'; apply IH].
    apply ospec_spec. destruct x as [y|e].
    + apply (spec_weaken _ (λ l, (stopInv d r l ∧ receiptSeen (soRequestID (spOperation r))
        (mkStopTarget (stTarget t) (stAgent t) (srState y) (srFailure y)) l) ∧ validNodeStopReceipt y = true)).
      2: { intros l [Hl Hy]. destruct (Hy y eq_refl). done. }
      apply spec_pure. intros Hv. eapply spec_conseq; [eapply spec_apply; [apply _|done..]|]. by intros r' l [? _].
    + apply spec_ret. by intros l [? _].
  - apply ospec_spec, (spec_weaken _ (stopInv d r)); [|by intros l [? _]].
    eapply spec_bind; [by apply spec_phase|]. intros r'. apply spec_ret. by intros l [? ?].
  - apply ospec_spec, (spec_weaken _ (stopInv d r)); [|by intros l [? _]].
    eapply spec_bind; [by apply spec_phase|]. intros r'. apply spec_ret. by intros l [? ?].
Qed.

(** The verdict of the loop of [concludeStop]. *)
Lemma stopVerdict_spec ts a b c :
  match stopVerdict a b c ts with
  | None => True
  | Some (s, t, f) =>
      (s = true → a = true ∧ Forall (λ x, validStopTarget x = true → stState x = StopTargetStopped) ts)
      ∧ (t = true → b = true ∧ Forall (λ x, closedTarget x = true) ts)
      ∧ (f = true → c = true ∨ Exists (λ x, stState x = StopTargetFailed) ts)
  end.
Proof.
  revert a b c. induction ts as [|x ts IH]; intros a b c; simpl; [naive_solver|].
  assert (stState x ≠ StopTargetPending → stState x ≠ StopTargetQueued → stState x ≠ StopTargetSuperseded → closedTarget x = true) as Hcl.
  { intros. unfold closedTarget. by rewrite !bool_decide_false. }
  assert (∀ tx, stState x = StopTargetStateOther tx → validStopTarget x = false) as Hoth.
  { intros tx E. unfold validStopTarget. rewrite E. apply andb_false_r. }
  destruct (stState x) eqn:Hx; try done;
    match goal with |- context [stopVerdict ?a ?b ?c ts] => specialize (IH a b c); destruct (stopVerdict a b c ts) as [[[s t] f]|] end;
    try done; destruct IH as (H1 & H2 & H3); split_and!; intros E;
    first [apply H1 in E as [E Hall]|apply H2 in E as [E Hall]|apply H3 in E as [E|Hex]]; try discriminate E.
  all: try (by left); try (right; by apply Exists_cons_tl); try (right; by apply Exists_cons_hd).
  all: split; [done|]; constructor; [|done]; try (by apply Hcl); intros Hv; try done.
  by rewrite (Hoth _ eq_refl) in Hv.
Qed.

Lemma spec_conclude d r : spec (stopInv d r) (concludeStop r) (λ r' l, stopOk d r' l ∧ drainOk d l).
Proof.
  intros w Hw. pose proof (so_targets _ _ _ (proj1 Hw)) as (ts & Hts & _ & _ & Hv & _). revert w Hw.
  change (spec (stopInv d r) (concludeStop r) (λ r' l, stopOk d r' l ∧ drainOk d l)).
  unfold concludeStop. rewrite Hts. simpl. pose proof (stopVerdict_spec ts true true false) as Hs.
  destruct (stopVerdict true true false ts) as [[[s t] f]|]; [|by apply spec_phase].
  destruct Hs as (H1 & H2 & H3). apply spec_phase. intros ts0 Hts0. assert (ts0 = ts) as -> by congruence.
  destruct s.
  { destruct (H1 eq_refl) as [_ Hall]. simpl. rewrite Forall_forall in Hv, Hall. apply Forall_forall. auto. }
  destruct t; [|done]. destruct f; [|done]. simpl. split; [by apply H2|]. by destruct (H3 eq_refl).
Qed.

Lemma ospec_advanceStop d r :
  ospec (λ l, stopOk d r l ∧ drainOk d l) (advanceStop r) (λ r' l, stopOk d r' l ∧ drainOk d l).
Proof.
  unfold advanceStop. destruct (stopTerminal (soPhase (spOperation r))) eqn:Ht; [by apply ospec_ret|].
  apply (ospec_mono _ (stopInv d r) _ _ (λ r' l, stopOk d r' l ∧ drainOk d l)); [|intros l [Hok Hd]|done].
  2: { split_and!; [done..|]. destruct Hok as [_ _ _ _ _ _ _ _ (ts & _ & _ & _ & _ & _ & Hv)].
       unfold stopTerminal in Ht. destruct (soPhase (spOperation r)); try done; [by left|by right]. }
  eapply ospec_bind; [apply (ospec_directory (stopInv d r)); apply _|]. intros [[|]|e].
  - apply (ospec_mono _ (stopInv d r) _ _ (λ r' l, stopOk d r' l ∧ drainOk d l)); [|by intros l [? _]|done].
    eapply ospec_bind; [apply ospec_spec, spec_readReceipts|]. intros r1. apply ospec_pure. intros _.
    eapply ospec_bind; [apply ospec_dispatch|]. intros [r2 [|]]; simpl.
    + eapply (ospec_mono _ (stopInv d r2)); [apply ospec_spec, spec_conclude|intros l (? & ? & Ho); split_and!; auto|done].
    + apply ospec_ret. by intros l (? & ? & _).
  - apply ospec_spec, (spec_weaken _ (stopInv d r)); [by apply spec_phase|by intros l [? _]].
  - apply ospec_spec, (spec_weaken _ (stopInv d r)); [by apply spec_phase|by intros l [? _]].
Qed.
End StopLogic.
