(* ===== verification/CoordinatorRecovery.v ===== *)
(** * The drain coordinator: recovery operations

    The exchange sort of [recoveryPublishedSet], and the invariant of a recovery
    record: what it published is exactly the expected members and the created
    replacements, and every replacement was reported by the agent that created it. *)

From stdpp Require Import prelude gmap strings list sorting.
From Stdlib Require Import ZArith Lia.
From S2P Require Import Prelude Types Metrics GoText Drain Directory DirectoryFacts DirectoryClient Control Coordinator CoordinatorInv.

Local Open Scope Z_scope.

(** ** The exchange sort *)

Lemma refLt_total a b : ¬ refLt b a → refLe a b.
Proof. intros H. destruct (refLe_total a b) as [?|[->|?]]; [done|by left|done]. Qed.

Lemma exchangeInto_spec x l y l' :
  exchangeInto x l = (y, l') → y :: l' ≡ₚ x :: l ∧ Forall (refLe y) l' ∧ refLe y x ∧ length l' = length l.
Proof.
  revert x y l'. induction l as [|z l IH]; intros x y l' H; simpl in H; [by simplify_eq; split_and!; [..|left|]|].
  case_bool_decide as Hlt.
  - destruct (exchangeInto z l) as [u k] eqn:E. simplify_eq. destruct (IH _ _ _ E) as (HP & HF & Hle & Hlen).
    assert (refLe y x) as Hyx by (etrans; [exact Hle|by right]).
    split_and!; [by rewrite Permutation_swap, HP, Permutation_swap|by constructor|done|simpl; lia].
  - destruct (exchangeInto x l) as [u k] eqn:E. simplify_eq. destruct (IH _ _ _ E) as (HP & HF & Hle & Hlen).
    split_and!; [by rewrite Permutation_swap, HP, Permutation_swap| |done|simpl; lia].
    constructor; [|done]. etrans; [exact Hle|by apply refLt_total].
Qed.

Lemma exchangeSort_spec n l : (length l ≤ n)%nat → exchangeSort n l ≡ₚ l ∧ StronglySorted refLe (exchangeSort n l).
Proof.
  revert l. induction n as [|n IH]; intros l Hn; destruct l as [|x l]; simpl in *; try lia; try (by split; constructor).
  destruct (exchangeInto x l) as [y k] eqn:E. destruct (exchangeInto_spec _ _ _ _ E) as (HP & HF & _ & Hlen).
  destruct (IH k) as [HP' HS]; [lia|]. split; [by rewrite HP'|]. constructor; [done|].
  rewrite HP'. done.
Qed.

(** The hand-written exchange sort is a sort. *)
Lemma exchangeSort_sorts l : exchangeSort (length l) l = merge_sort refLe l.
Proof.
  destruct (exchangeSort_spec (length l) l) as [HP HS]; [done|].
  apply (StronglySorted_unique refLe); [done|apply StronglySorted_merge_sort; apply _|by rewrite HP, merge_sort_Permutation].
Qed.

(** ** The candidate set *)

Lemma appendMissing_spec refs ts :
  NoDup refs → NoDup (appendMissing refs ts) ∧ (∀ x, x ∈ appendMissing refs ts ↔ x ∈ refs ∨ x ∈ rtCreated <$> ts).
Proof.
  revert refs. induction ts as [|t ts IH]; intros refs Hnd; csimpl; [split; [done|set_solver]|].
  unfold containsRecoveryRef. case_bool_decide as Hin.
  - destruct (IH refs Hnd) as [H1 H2]. split; [done|]. intros x. rewrite H2. set_solver.
  - destruct (IH (refs ++ [rtCreated t])) as [H1 H2].
    { apply NoDup_app. split_and!; [done|set_solver|apply NoDup_singleton]. }
    split; [done|]. intros x. rewrite H2. set_solver.
Qed.

Lemma sorted_NoDup l : StronglySorted refLt l → NoDup l.
Proof.
  induction 1 as [|x l HS IH Hx]; constructor; [|done]. intros Hin. rewrite Forall_forall in Hx.
  by apply (refLt_irrefl x), Hx.
Qed.

Lemma le_lt_sorted l : NoDup l → StronglySorted refLe l → StronglySorted refLt l.
Proof.
  intros Hnd. induction 1 as [|x l HS IH Hx]; constructor; apply NoDup_cons in Hnd as [Hn Hnd]; [by apply IH|].
  rewrite Forall_forall in Hx |- *. intros y Hy. destruct (Hx y Hy) as [->|?]; [done|done].
Qed.

(** Its references: the expected members and the replacements, strictly sorted. *)
Definition recoveredRefs (o : RecoveryOperation) : list ServiceRef :=
  merge_sort refLe (appendMissing (refsOf (roExpected o)) (default [] (roTargets o))).

Lemma candidate_refs o : refsOf (recoveryPublishedSet o) = recoveredRefs o.
Proof. unfold recoveryPublishedSet, refsOf. simpl. by rewrite default_appendNil, exchangeSort_sorts. Qed.

Lemma valid_sorted set : validDrainServiceSet set = true → StronglySorted refLt (refsOf set).
Proof.
  unfold validDrainServiceSet, refsOf. destruct (Refs set), (Tags set); rewrite ?andb_false_r; try done.
  intros H. bool_prop. by apply strictlySorted_spec.
Qed.

Lemma recoveredRefs_spec o : validDrainServiceSet (roExpected o) = true →
  StronglySorted refLt (recoveredRefs o)
  ∧ ∀ x, x ∈ recoveredRefs o ↔ x ∈ refsOf (roExpected o) ∨ x ∈ rtCreated <$> default [] (roTargets o).
Proof.
  intros Hv%valid_sorted%sorted_NoDup. destruct (appendMissing_spec _ (default [] (roTargets o)) Hv) as [Hnd Hin].
  unfold recoveredRefs. split.
  - apply le_lt_sorted; [by rewrite merge_sort_Permutation|apply StronglySorted_merge_sort; apply _].
  - intros x. by rewrite merge_sort_Permutation.
Qed.

(** ** Recovery records *)

Record recoveryRequestOk (q : BeginRecoveryRequest) : Prop := {
  rq_expected : validDrainServiceSet (brExpected q) = true;
  rq_name : Name (brExpected q) = brGroup q;
  rq_removed : Forall (λ t, rrRemoved t ∉ refsOf (brExpected q)) (brTargets q)
}.

(** The agent of [t] answered with a receipt for the replacement. *)
Definition createdSeen (id : RequestID) (t : RecoveryTarget) (l : list event) : Prop :=
  ∃ r receipt,
    (RecoveryReceiptCall (rtAgent t) id (rtRemoved t) r ∈ l
     ∨ RecoveryCall (rtAgent t) (mkCreateTask (rtAgent t) id (rtRemoved t) (rtBlueprint t)) r ∈ l)
    ∧ recoveryReceiptFromResponse r id t = Ok receipt
    ∧ rvState receipt = RecoveryTargetCreated ∧ rvCreated receipt = rtCreated t.
#[global] Instance createdSeen_grows id t : Grows (createdSeen id t).
Proof. intros l l' [k ->] (r & x & H & H'). exists r, x. split; [|done]. set_solver. Qed.

Definition replaced (st : RecoveryTargetState) : Prop := st = RecoveryTargetCreated ∨ st = RecoveryTargetPublished.
Definition seenIfReplaced (id : RequestID) (t : RecoveryTarget) (l : list event) : Prop :=
  replaced (rtState t) → createdSeen id t l.
#[global] Instance seenIfReplaced_grows id t : Grows (seenIfReplaced id t).
Proof. unfold seenIfReplaced. apply _. Qed.

Definition recoveryShape (o : RecoveryOperation) (ts : list RecoveryTarget) : Prop :=
  match roPhase o with
  | RecoveryCreating | RecoveryFailed => roPublished o = zeroSet
  | RecoveryAwaitingConfirmation | RecoveryPublishing =>
      roPublished o = zeroSet ∧ Forall (λ t, rtState t = RecoveryTargetCreated) ts
  | RecoveryCompleted =>
      publishedAs (roGroup o) (Version (roExpected o)) (recoveredRefs o) (default ∅ (Tags (roExpected o))) (roPublished o)
      ∧ Forall (λ t, rtState t = RecoveryTargetPublished) ts
  | RecoveryAbandoned => roPublished o = zeroSet ∧ Forall (λ t, rtState t = RecoveryTargetAbandoned) ts
  | RecoveryPhaseOther _ => False
  end.

Record recoveryOk (r : recoveryOperationRecord) (l : list event) : Prop := {
  rc_request : recoveryRequestOk (rpRequest r);
  rc_group : roGroup (rpOperation r) = brGroup (rpRequest r);
  rc_expected : roExpected (rpOperation r) = brExpected (rpRequest r);
  rc_targets : ∃ ts, roTargets (rpOperation r) = Some ts
    ∧ (λ t, mkRecoveryTargetRequest (rtRemoved t) (rtAgent t) (rtBlueprint t)) <$> ts = brTargets (rpRequest r)
    ∧ Forall (λ t, seenIfReplaced (roRequestID (rpOperation r)) t l) ts
    ∧ recoveryShape (rpOperation r) ts
}.
#[global] Instance recoveryOk_grows r : Grows (recoveryOk r).
Proof.
  intros l l' Hl [? ? ? (ts & ? & ? & Hs & ?)]. split; try done. exists ts. split_and!; try done.
  eapply Forall_impl; [exact Hs|]. intros t. by apply seenIfReplaced_grows.
Qed.

(** ** Changing a recovery record *)

Definition recBecame (r : recoveryOperationRecord) (p : ServiceSet) (ts : list RecoveryTarget) (ph : RecoveryPhase)
    (r' : recoveryOperationRecord) : Prop :=
  ∃ t, r' = setRecovery r p (Some ts) ph t.

Definition sameTriple (a b : RecoveryTarget) : Prop :=
  rtRemoved b = rtRemoved a ∧ rtAgent b = rtAgent a ∧ rtBlueprint b = rtBlueprint a.

Lemma recBecame_ok r p ts ts' ph r' l :
  recBecame r p ts' ph r' → recoveryOk r l → roTargets (rpOperation r) = Some ts → Forall2 sameTriple ts ts' →
  Forall (λ t, seenIfReplaced (roRequestID (rpOperation r)) t l) ts' →
  (∀ t, recoveryShape (rpOperation (setRecovery r p (Some ts') ph t)) ts') → recoveryOk r' l.
Proof.
  intros (t & ->) [? ? ? (ts0 & Hts0 & Hreq & _)] Hts Hp Hs Hsh. assert (ts0 = ts) as -> by congruence.
  split; try done. exists ts'. split_and!; try done. simpl. rewrite <- Hreq. clear -Hp.
  induction Hp as [|a b l k (E1 & E2 & E3) _ IH]; csimpl; congruence.
Qed.

Section RecoveryLogic.
Context {EN : Env}.

Lemma spec_touchRecovery P r ts : Grows P → roTargets (rpOperation r) = Some ts →
  spec P (touchRecovery r) (λ r' l, P l ∧ recBecame r (roPublished (rpOperation r)) ts (roPhase (rpOperation r)) r').
Proof.
  intros HP Hts. eapply spec_bind; [by apply spec_now|]. intros t. apply spec_ret. intros l [Hl _]. split; [done|].
  destruct (t <? roUpdatedAt (rpOperation r)); simpl.
  - exists (roUpdatedAt (rpOperation r)). rewrite <- Hts. by destruct r as [q []].
  - exists t. by rewrite Hts.
Qed.

Lemma spec_setRecoveryPhase P r ts ph : Grows P → roTargets (rpOperation r) = Some ts →
  spec P (setRecoveryPhase r ph) (λ r' l, P l ∧ recBecame r (roPublished (rpOperation r)) ts ph r').
Proof.
  intros HP Hts. unfold setRecoveryPhase. case_bool_decide as Hph.
  { apply spec_ret. intros l Hl. split; [done|]. exists (roUpdatedAt (rpOperation r)).
    rewrite <- Hts, <- Hph. by destruct r as [q []]. }
  eapply spec_bind; [apply (spec_touchRecovery P _ ts); done|]. intros r'.
  set (Q := λ l, P l ∧ recBecame r (roPublished (rpOperation r)) ts ph r'). assert (Grows Q) as HQ by apply _.
  apply (spec_bind Q _ _ (λ _, Q)); [|by intros []; apply spec_ret].
  destruct ph; try (by apply spec_inc); by apply spec_ret.
Qed.

Lemma sameTriple_refl ts : Forall2 sameTriple ts ts.
Proof. induction ts; by repeat constructor. Qed.

(** Setting a phase the targets support. *)
Lemma spec_recoveryPhase r ts ph : roTargets (rpOperation r) = Some ts →
  (∀ t, recoveryShape (rpOperation (setRecovery r (roPublished (rpOperation r)) (Some ts) ph t)) ts) →
  spec (recoveryOk r) (setRecoveryPhase r ph) recoveryOk.
Proof.
  intros Hts Hsh. eapply spec_conseq; [apply (spec_setRecoveryPhase _ _ ts); [apply _|done]|]. intros r' l [Hok Hb].
  pose proof (rc_targets _ _ Hok) as (ts0 & Hts0 & _ & Hs & _). assert (ts0 = ts) as -> by congruence.
  eapply recBecame_ok; [exact Hb|done|done|apply sameTriple_refl|done..].
Qed.

Lemma spec_recoveryTouch r : spec (recoveryOk r) (touchRecovery r) recoveryOk.
Proof.
  intros w Hw. pose proof (rc_targets _ _ Hw) as (ts & Hts & _). revert w Hw.
  eapply spec_conseq; [apply (spec_touchRecovery _ _ ts); [apply _|done]|]. intros r' l [Hok Hb].
  pose proof (rc_targets _ _ Hok) as (ts0 & Hts0 & _ & Hs & Hsh). assert (ts0 = ts) as -> by congruence.
  eapply recBecame_ok; [exact Hb|done|done|apply sameTriple_refl|done|]. intros t.
  unfold recoveryShape, recoveredRefs in *. simpl. by rewrite Hts in Hsh.
Qed.

Definition withReceipt (x : RecoveryReceipt) (t : RecoveryTarget) : RecoveryTarget :=
  mkRecoveryTarget (rtRemoved t) (rtAgent t) (rtBlueprint t) (rvCreated x) (rvState x) (rvFailure x).

Lemma recovery_receipt_state r id t x : recoveryReceiptFromResponse r id t = Ok x → rvState x ≠ RecoveryTargetPublished.
Proof.
  unfold recoveryReceiptFromResponse. destruct r as [[[x0 c]|]|]; try done. destruct (errorFromCode c); [done|].
  destruct (validRecoveryReceipt x0) eqn:Hv; simpl; [|done]. repeat case_bool_decide; simpl; try done. intros [= <-] E.
  unfold validRecoveryReceipt in Hv. rewrite E, andb_false_r in Hv. done.
Qed.

(** A call about a target that an agent answered with a receipt is evidence for it. *)
Lemma spec_ask r t (b : bool) :
  spec (recoveryOk r) (if b then beginNodeRecovery (rpOperation r) t else getNodeRecoveryReceipt (rpOperation r) t)
    (λ x l, recoveryOk r l ∧ ∀ y, x = Ok y → seenIfReplaced (roRequestID (rpOperation r)) (withReceipt y t) l).
Proof.
  destruct b; intros w Hw; (split; [by apply quiet_emit|]); (split; [eapply recoveryOk_grows; [|exact Hw]; by eexists|]);
    intros y Hy; unfold beginNodeRecovery, getNodeRecoveryReceipt in *; simpl in *; intros Hr;
    eexists _, y; (split; [|split_and!; [exact Hy| |done]]).
  2,4: destruct Hr as [Hr|Hr]; [exact Hr|by apply recovery_receipt_state in Hy].
  - right. set_solver.
  - left. set_solver.
Qed.

Definition creating (r : recoveryOperationRecord) (l : list event) : Prop :=
  recoveryOk r l ∧ roPhase (rpOperation r) = RecoveryCreating.
#[global] Instance creating_grows r : Grows (creating r).
Proof. unfold creating. apply _. Qed.

Lemma spec_applyRecovery r i ts t x P : Grows P →
  roTargets (rpOperation r) = Some ts → ts !! i = Some t →
  (∀ l, P l → creating r l ∧ seenIfReplaced (roRequestID (rpOperation r)) (withReceipt x t) l) →
  spec P (applyNodeRecoveryReceipt r i x) creating.
Proof.
  intros HP Hts Hi Hinv.
  eapply spec_conseq; [apply (spec_touchRecovery P _ (alter (withReceipt x) i ts)); [done|simpl; by rewrite Hts]|].
  intros r' l [Hl Hb]. destruct (Hinv l Hl) as [[Hok Hph] Hseen].
  pose proof (rc_targets _ _ Hok) as (ts0 & Hts0 & _ & Hs & Hsh). assert (ts0 = ts) as -> by congruence.
  split; [|by destruct Hb as (u & ->)].
  eapply (recBecame_ok r _ ts (alter (withReceipt x) i ts)); [exact Hb|done|done|..].
  - clear. revert i. induction ts as [|a ts IH]; intros [|i]; simpl; constructor; try done; [apply sameTriple_refl|apply IH].
  - apply Forall_forall. intros t' Ht'. apply list_elem_of_lookup in Ht' as [j Hj]. destruct (decide (i = j)) as [<-|Hij].
    + rewrite list_lookup_alter_eq, Hi in Hj. simpl in Hj. by injection Hj as <-.
    + rewrite list_lookup_alter_ne in Hj by done. rewrite Forall_forall in Hs. apply Hs. by apply list_elem_of_lookup_2 in Hj.
  - intros u. unfold recoveryShape in *. simpl. rewrite Hph in Hsh |- *. done.
Qed.

Lemma spec_createTargets idx r : spec (creating r) (createTargets idx r) creating.
Proof.
  revert r. induction idx as [|i idx IH]; intros r; simpl; [by apply spec_ret|].
  destruct (roTargets (rpOperation r)) as [ts|] eqn:Hts; simpl; [|by apply spec_ret].
  destruct (ts !! i) as [t|] eqn:Hi; [|by apply spec_ret].
  destruct (bool_decide (rtState t = RecoveryTargetCreated) || bool_decide (rtState t = RecoveryTargetFailed)); [apply IH|].
  eapply spec_bind; [apply spec_frame; [apply _|apply spec_ask]|]. intros x.
  eapply (spec_bind _ _ _ creating); [|apply IH]. destruct x as [y|e].
  - eapply (spec_applyRecovery r i ts t y (λ l, (recoveryOk r l ∧ seenIfReplaced (roRequestID (rpOperation r)) (withReceipt y t) l)
      ∧ roPhase (rpOperation r) = RecoveryCreating)) in Hi as Hspec; [|apply _|done|].
    + eapply spec_weaken; [exact Hspec|]. intros l [[? H] ?]. split_and!; auto.
    + intros l [[? ?] ?]. by split.
  - apply spec_ret. intros l [[? _] ?]. by split.
Qed.

(** Publishing. *)
Lemma publishedAs_candidate o set : validDrainServiceSet (roExpected o) = true → validDrainServiceSet set = true →
  Name (roExpected o) = roGroup o → sameDrainServiceSet set (recoveryPublishedSet o) = true →
  publishedAs (roGroup o) (Version (roExpected o)) (recoveredRefs o) (default ∅ (Tags (roExpected o))) set.
Proof.
  intros Hv Hs Hn (H1 & H2 & H3 & H4)%sameDrainServiceSet_spec. split; [done|by rewrite H1|by rewrite H2|by rewrite H2| |exact H4].
  by rewrite H3, candidate_refs.
Qed.

Lemma spec_complete r p ts :
  roTargets (rpOperation r) = Some ts → Forall (λ t, rtState t = RecoveryTargetCreated) ts →
  publishedAs (roGroup (rpOperation r)) (Version (roExpected (rpOperation r))) (recoveredRefs (rpOperation r))
    (default ∅ (Tags (roExpected (rpOperation r)))) p →
  spec (recoveryOk r) (completeRecoveryPublish r p) recoveryOk.
Proof.
  intros Hts Hc Hp. eapply spec_conseq;
    [apply (spec_setRecoveryPhase _ _ (setEvery RecoveryTargetPublished ts)); [apply _|simpl; by rewrite Hts]|].
  intros r' l [Hok [u ->]]. pose proof (rc_targets _ _ Hok) as (ts0 & Hts0 & _ & Hs & _). assert (ts0 = ts) as -> by congruence.
  eapply (recBecame_ok r p ts (setEvery RecoveryTargetPublished ts)); [by exists u|done|done|..].
  - clear. induction ts; by repeat constructor.
  - apply Forall_forall. intros t' (t & -> & Ht)%list_elem_of_fmap. rewrite Forall_forall in Hs, Hc.
    intros _. destruct (Hs t Ht (or_introl (Hc t Ht))) as (x & y & Hev & Hy & H1 & H2). by exists x, y.
  - intros v. unfold recoveryShape. simpl. split.
    + unfold recoveredRefs in *. simpl. rewrite Hts in Hp. simpl in Hp.
      replace (appendMissing _ (setEvery RecoveryTargetPublished ts)) with (appendMissing (refsOf (roExpected (rpOperation r))) ts); [done|].
      clear. generalize (refsOf (roExpected (rpOperation r))). induction ts as [|t ts IH]; intros refs; csimpl; [done|apply IH].
    + apply Forall_forall. by intros t' (t & -> & Ht)%list_elem_of_fmap.
Qed.

(** Use a fact of the record that does not depend on the log. *)
Lemma spec_extract {X} (A : Prop) (P : list event → Prop) (m : Co X) R : (∀ l, P l → A) → (A → spec P m R) → spec P m R.
Proof. intros HA H w Hw. apply H; [by eapply HA|done]. Qed.

Lemma recovery_facts r l : recoveryOk r l →
  ∃ ts, roTargets (rpOperation r) = Some ts ∧ recoveryShape (rpOperation r) ts
        ∧ validDrainServiceSet (roExpected (rpOperation r)) = true ∧ Name (roExpected (rpOperation r)) = roGroup (rpOperation r).
Proof.
  intros [[Hv Hn _] Hg He (ts & Hts & _ & _ & Hsh)]. exists ts. rewrite He, Hg. by split_and!.
Qed.

Lemma spec_resolvePublish r : roPhase (rpOperation r) = RecoveryPublishing → spec (recoveryOk r) (resolveRecoveryPublish r) recoveryOk.
Proof.
  intros Hph. eapply spec_extract; [intros l; apply recovery_facts|]. intros (ts & Hts & Hsh & Hv & Hn).
  unfold recoveryShape in Hsh. rewrite Hph in Hsh. destruct Hsh as [Hz Hc].
  eapply spec_bind; [apply spec_get; apply _|]. intros [set|e].
  2: { eapply spec_weaken; [apply spec_recoveryTouch|]. by intros l [? _]. }
  apply (spec_weaken _ (λ l, recoveryOk r l ∧ validDrainServiceSet set = true)); [|by intros l (? & ? & _)].
  apply spec_pure. intros Hset. destruct (sameDrainServiceSet set (recoveryPublishedSet (rpOperation r))) eqn:Hs.
  - eapply spec_complete; [done..|]. by apply publishedAs_candidate.
  - destruct (sameDrainServiceSet set (roExpected (rpOperation r))); simpl; [by apply spec_ret|].
    apply (spec_recoveryPhase _ ts); [done|]. intros t. unfold recoveryShape. simpl. done.
Qed.

Lemma spec_advanceRecovery r : spec (recoveryOk r) (advanceRecovery r) recoveryOk.
Proof.
  unfold advanceRecovery. case_bool_decide as Hp; [by apply spec_resolvePublish|].
  case_bool_decide as Hc; [by apply spec_ret|]. assert (roPhase (rpOperation r) = RecoveryCreating) as Hph by (by destruct (decide (roPhase (rpOperation r) = RecoveryCreating))).
  eapply spec_bind; [apply spec_get; apply _|]. intros [set|e].
  2: { eapply spec_weaken; [apply spec_recoveryTouch|]. by intros l [? _]. }
  apply (spec_weaken _ (creating r)); [|by intros l [? _]].
  destruct (sameDrainServiceSet set (roExpected (rpOperation r))); simpl.
  - eapply spec_bind; [apply spec_createTargets|]. intros r1.
    eapply spec_extract; [intros l [Hl _]; exact (recovery_facts _ _ Hl)|]. intros (ts & Hts & Hsh & _).
    rewrite Hts. simpl. apply spec_pure. intros Hph1. unfold recoveryShape in Hsh. rewrite Hph1 in Hsh.
    destruct (forallb (isState RecoveryTargetCreated) ts) eqn:Hall.
    + apply (spec_recoveryPhase _ ts); [done|]. intros t. unfold recoveryShape. simpl. split; [done|].
      apply Forall_forall. intros u Hu. rewrite forallb_forall in Hall. apply list_elem_of_In, Hall in Hu. by apply bool_decide_eq_true in Hu.
    + destruct (_ && _); [|apply spec_recoveryTouch].
      apply (spec_recoveryPhase _ ts); [done|]. intros t. unfold recoveryShape. simpl. done.
  - eapply spec_extract; [intros l [Hl _]; exact (recovery_facts _ _ Hl)|]. intros (ts & Hts & Hsh & _).
    unfold recoveryShape in Hsh. rewrite Hph in Hsh. apply spec_pure. intros _.
    apply (spec_recoveryPhase _ ts); [done|]. intros t. unfold recoveryShape. simpl. done.
Qed.

(** Confirming: the phase, then the publication, then its conclusion. *)
Lemma spec_confirm r : roPhase (rpOperation r) = RecoveryAwaitingConfirmation →
  spec (recoveryOk r)
    (r' ← setRecoveryPhase r RecoveryPublishing;
     published ← publishRecoveryDirectory (rpOperation r') (recoveryPublishedSet (rpOperation r));
     match published with
     | Err _ => mret (r', None)
     | Ok set => r' ← completeRecoveryPublish r' set; mret (r', Some set)
     end) (λ x l, recoveryOk x.1 l).
Proof.
  intros Hph. eapply spec_extract; [intros l; apply recovery_facts|]. intros (ts & Hts & Hsh & Hv & Hn).
  unfold recoveryShape in Hsh. rewrite Hph in Hsh. destruct Hsh as [Hz Hc].
  eapply spec_bind.
  { eapply spec_conseq; [apply (spec_setRecoveryPhase _ _ ts); [apply _|done]|]. intros r' l [Hok Hb].
    assert (recoveryOk r' l ∧ recBecame r (roPublished (rpOperation r)) ts RecoveryPublishing r') as H; [|exact H]. split; [|done].
    pose proof (rc_targets _ _ Hok) as (ts0 & Hts0 & _ & Hs & _). assert (ts0 = ts) as -> by congruence.
    eapply recBecame_ok; [exact Hb|done|done|apply sameTriple_refl|done|]. intros t. unfold recoveryShape. simpl. done. }
  intros r'. apply spec_pure. intros [u ->]. simpl. set (r' := setRecovery r (roPublished (rpOperation r)) (Some ts) RecoveryPublishing u).
  assert (Version (roExpected (rpOperation r)) ≠ zeroVersion) as Hne.
  { intros E. unfold validDrainServiceSet in Hv. rewrite E, andb_false_r in Hv. done. }
  eapply spec_bind; [apply spec_publish; [apply _|done]|]. intros [set|e]; [|apply spec_ret; by intros l [? _]].
  apply spec_pure. intros Hp. specialize (Hp set eq_refl).
  rewrite candidate_refs, sort_dedupe_strict in Hp by (by apply recoveredRefs_spec). simpl in Hp.
  eapply spec_bind; [apply (spec_complete r' set ts); [done..|]|intros r2; by apply spec_ret].
  unfold recoveredRefs in *. simpl. by rewrite Hts in Hp.
Qed.

Lemma spec_abandon r ts : roTargets (rpOperation r) = Some ts → roPublished (rpOperation r) = zeroSet →
  spec (recoveryOk r)
    (setRecoveryPhase (setRecovery r (roPublished (rpOperation r)) (setEvery RecoveryTargetAbandoned <$> roTargets (rpOperation r))
       (roPhase (rpOperation r)) (roUpdatedAt (rpOperation r))) RecoveryAbandoned) recoveryOk.
Proof.
  intros Hts Hz. eapply spec_conseq; [apply (spec_setRecoveryPhase _ _ (setEvery RecoveryTargetAbandoned ts)); [apply _|simpl; by rewrite Hts]|].
  intros r' l [Hok [u ->]].
  eapply (recBecame_ok r _ ts (setEvery RecoveryTargetAbandoned ts)); [by exists u|done|done|..].
  - clear. induction ts; by repeat constructor.
  - apply Forall_forall. intros t' (t & -> & Ht)%list_elem_of_fmap [E|E]; simpl in E; discriminate E.
  - intros v. unfold recoveryShape. simpl. split; [done|]. apply Forall_forall. by intros t' (t & -> & Ht)%list_elem_of_fmap.
Qed.
End RecoveryLogic.
