(* ===== verification/CoordinatorFacts.v ===== *)
(** * The drain coordinator: the invariant of the service

    The invariant of the whole service ([coInv]), a logic over its worlds ([wspec])
    and that every command, and so every sequence of commands, keeps it
    ([Handle_ok], [run_ok]). *)

From stdpp Require Import prelude gmap strings list sorting.
From Stdlib Require Import ZArith Lia.
From S2P Require Import Prelude Types Metrics GoText Drain Directory DirectoryFacts DirectoryClient Control Coordinator CoordinatorInv.
From S2P Require Import CoordinatorStop CoordinatorRecovery.

Local Open Scope Z_scope.

(** ** The invariant *)

(** The audits are the last ones of a history without gaps. *)
Definition auditOk (i : nat) (a : DrainAudit) : Prop :=
  auSequence a = Z.of_nat i + 1 ∧ validRequestID (auRequestID a) = true ∧ validPrincipal (auPrincipal a) = true
  ∧ validTrimmedUTF8 (auAction a) = true ∧ validTrimmedUTF8 (auOutcome a) = true ∧ 0 < auOccurredAt a.

Definition auditWindow (s : drainCoordinatorService) (hist : list DrainAudit) : Prop :=
  sequence s = Z.of_nat (length hist)
  ∧ audits s = drop (length hist - Z.to_nat (AuditLimit (coConfig s))) hist
  ∧ ∀ i a, hist !! i = Some a → auditOk i a.

(** What never changes back: drains move along their phases, decided stops and
    completed recoveries stay. *)
Record later (s0 s : drainCoordinatorService) : Prop := {
  lt_drains : ∀ id r, operations s0 !! id = Some r → ∃ r', operations s !! id = Some r' ∧ drainStep r r' ∧ (rank (doPhase (drOperation r)) = 0%nat → r' = r);
  lt_stops : ∀ id r, stops s0 !! id = Some r →
    ∃ r', stops s !! id = Some r' ∧ (stopTerminal (soPhase (spOperation r)) = true → r' = r);
  lt_recoveries : ∀ id r, recoveries s0 !! id = Some r →
    ∃ r', recoveries s !! id = Some r' ∧ (roPhase (rpOperation r) = RecoveryCompleted → r' = r)
}.

Section Base.
(** An earlier state of the service. *)
Context (s0 : drainCoordinatorService).

(** [n] bounds the number of audits so far. *)
Record coInv (n : nat) (w : world) : Prop := {
  ci_limit : 0 < AuditLimit (coConfig (svc w));
  ci_drains : ∀ id r, operations (svc w) !! id = Some r → drainOk r (log w) ∧ sdRequestID (drRequest r) = id;
  ci_stops : ∀ id r, stops (svc w) !! id = Some r →
    ∃ d, operations (svc w) !! id = Some d ∧ stopOk d r (log w);
  ci_recoveries : ∀ id r, recoveries (svc w) !! id = Some r → recoveryOk r (log w);
  ci_orders : ordersOk (log w);
  ci_audits : ∃ hist, auditWindow (svc w) hist ∧ (length hist ≤ n)%nat;
  ci_later : later s0 (svc w)
}.

Lemma coInv_mono n m w : (n ≤ m)%nat → coInv n w → coInv m w.
Proof. intros Hnm [? ? ? ? ? (h & ? & ?) ?]. split; try done. exists h. split; [done|lia]. Qed.

(** ** A logic over the whole world *)

Definition wspec {X} (P : world → Prop) (m : Co X) (R : X → world → Prop) : Prop := ∀ w, P w → R (m w).2 (m w).1.

Lemma wspec_ret {X} (P : world → Prop) (x : X) R : (∀ w, P w → R x w) → wspec P (mret x) R.
Proof. intros H w Hw. by apply H. Qed.
Lemma wspec_bind {X Y} P (m : Co X) (k : X → Co Y) R R' :
  wspec P m R → (∀ x, wspec (R x) (k x) R') → wspec P (m ≫= k) R'.
Proof.
  intros Hm Hk w Hw. unfold mbind, co_bind. specialize (Hm w Hw). destruct (m w) as [w1 x]. by apply Hk.
Qed.
Lemma wspec_gets {X} P (f : drainCoordinatorService → X) : wspec P (gets f) (λ x w, P w ∧ x = f (svc w)).
Proof. by intros w Hw. Qed.
Lemma wspec_mono {X} (P P' : world → Prop) (m : Co X) (R R' : X → world → Prop) :
  wspec P' m R' → (∀ w, P w → P' w) → (∀ x w, R' x w → R x w) → wspec P m R.
Proof. intros H HP HR w Hw. auto. Qed.
Lemma wspec_extract {X} (A : Prop) (P : world → Prop) (m : Co X) R : (∀ w, P w → A) → (A → wspec P m R) → wspec P m R.
Proof. intros HA H w Hw. apply H; [by eapply HA|done]. Qed.

Lemma co_assoc {X Y Z} (m : Co X) (f : X → Co Y) (g : Y → Co Z) w : ((m ≫= f) ≫= g) w = (m ≫= λ x, f x ≫= g) w.
Proof. unfold mbind, co_bind. by destruct (m w). Qed.

(** The tables, which neither metrics nor audits touch. *)
Definition tables (s : drainCoordinatorService) := (coConfig s, operations s, stops s, recoveries s).

Lemma coInv_grow n w w' :
  coInv n w → stored (svc w') = stored (svc w) → log w `prefix_of` log w' → ordersOk (log w') → coInv n w'.
Proof.
  intros [H1 H2 H3 H4 _ H6 [L1 L2 L3]] Hs Hl Ho. unfold stored in Hs. injection Hs as E1 E2 E3 E4 E5 E6.
  split; [by rewrite E1|..|].
  - intros id r Hr. rewrite E2 in Hr. destruct (H2 id r Hr) as [? ?]. split; [by eapply drainOk_grows|done].
  - intros id r Hr. rewrite E3 in Hr. destruct (H3 id r Hr) as (d & ? & ?). exists d. rewrite E2.
    split; [done|by eapply stopOk_grows].
  - intros id r Hr. rewrite E4 in Hr. by eapply recoveryOk_grows, H4.
  - done.
  - unfold auditWindow. by rewrite E1, E5, E6.
  - split; rewrite ?E2, ?E3, ?E4; done.
Qed.

(** A program that only calls keeps the invariant and the tables. *)
Lemma wspec_ospec {X} n F (P : list event → Prop) (m : Co X) R :
  ospec P m R →
  wspec (λ w, (coInv n w ∧ F (tables (svc w))) ∧ P (log w)) m (λ x w, (coInv n w ∧ F (tables (svc w))) ∧ R x (log w)).
Proof.
  intros H w [[Hinv HF] Hw]. destruct (H w Hw (ci_orders _ _ Hinv)) as (H1 & H2 & H3 & H4).
  split; [split|done]; [by eapply coInv_grow|]. unfold stored in H1. injection H1 as E1 E2 E3 E4 _ _.
  unfold tables. by rewrite E1, E2, E3, E4.
Qed.

Lemma wspec_spec {X} n F (P : list event → Prop) (m : Co X) R :
  spec P m R →
  wspec (λ w, (coInv n w ∧ F (tables (svc w))) ∧ P (log w)) m (λ x w, (coInv n w ∧ F (tables (svc w))) ∧ R x (log w)).
Proof. intros H. by apply wspec_ospec, ospec_spec. Qed.

Lemma wspec_inc n F name : wspec (λ w, coInv n w ∧ F (tables (svc w))) (inc name) (λ _ w, coInv n w ∧ F (tables (svc w))).
Proof. intros w [[? ? ? ? ? ? []] HF]. split; [split; try done; by split|done]. Qed.

Lemma wspec_putOperation n id r (Q : list event → Prop) :
  wspec (λ w, coInv n w ∧ (drainOk r (log w) ∧ sdRequestID (drRequest r) = id ∧ Q (log w))
              ∧ ∀ d, operations (svc w) !! id = Some d →
                   drainStep d r ∧ (rank (doPhase (drOperation d)) = 0%nat → r = d))
    (putOperation id r) (λ _ w, coInv n w ∧ operations (svc w) !! id = Some r ∧ Q (log w)).
Proof.
  intros w ([] & (Hok & Hid & HQ) & Hready). split_and!; [|apply lookup_insert_eq|done]. split; simpl; try done.
  - intros id' r' Hr'. destruct (decide (id = id')) as [<-|Hne].
    + rewrite lookup_insert_eq in Hr'. by injection Hr' as <-.
    + rewrite lookup_insert_ne in Hr' by done. auto.
  - intros id' r' Hr'. destruct (ci_stops0 id' r' Hr') as (d & Hd & Hs). exists d. split; [|done].
    destruct (decide (id = id')) as [<-|Hne]; [|by rewrite lookup_insert_ne].
    rewrite lookup_insert_eq. f_equal. apply (Hready d Hd). by rewrite (so_ready _ _ _ Hs).
  - destruct ci_later0 as [L1 L2 L3]. split; try done. intros id' r' Hr'. destruct (L1 id' r' Hr') as (r1 & Hr1 & Hst & Hfin). simpl.
    destruct (decide (id = id')) as [<-|Hne]; [|rewrite lookup_insert_ne by done; by exists r1].
    exists r. rewrite lookup_insert_eq. destruct (Hready r1 Hr1) as [H1 H2]. split_and!; [done|by etrans|]. intros H0. specialize (Hfin H0). subst r1. by apply H2.
Qed.

Lemma wspec_putStop n id d r :
  wspec (λ w, (coInv n w ∧ operations (svc w) !! id = Some d) ∧ stopOk d r (log w)
              ∧ ∀ r1, stops (svc w) !! id = Some r1 → stopTerminal (soPhase (spOperation r1)) = false)
    (putStop id r) (λ _ w, coInv n w).
Proof.
  intros w ([[] Hd] & Hok & Hopen). split; simpl; try done.
  - intros id' r' Hr'. destruct (decide (id = id')) as [<-|Hne].
    + rewrite lookup_insert_eq in Hr'. injection Hr' as <-. by exists d.
    + rewrite lookup_insert_ne in Hr' by done. auto.
  - destruct ci_later0 as [L1 L2 L3]. split; try done. intros id' r' Hr'. destruct (L2 id' r' Hr') as (r1 & Hr1 & Hst). simpl.
    destruct (decide (id = id')) as [<-|Hne]; [|rewrite lookup_insert_ne by done; by exists r1].
    exists r. rewrite lookup_insert_eq. split; [done|]. intros Ht. rewrite (Hst Ht) in Hr1. apply Hopen in Hr1. congruence.
Qed.

Lemma wspec_putRecovery n id r :
  wspec (λ w, coInv n w ∧ recoveryOk r (log w)
              ∧ ∀ r1, recoveries (svc w) !! id = Some r1 → roPhase (rpOperation r1) ≠ RecoveryCompleted)
    (putRecovery id r) (λ _ w, coInv n w).
Proof.
  intros w ([] & Hok & Hopen). split; simpl; try done.
  - intros id' r' Hr'. destruct (decide (id = id')) as [<-|Hne].
    + rewrite lookup_insert_eq in Hr'. by injection Hr' as <-.
    + rewrite lookup_insert_ne in Hr' by done. by eapply ci_recoveries0.
  - destruct ci_later0 as [L1 L2 L3]. split; try done. intros id' r' Hr'. destruct (L3 id' r' Hr') as (r1 & Hr1 & Hst). simpl.
    destruct (decide (id = id')) as [<-|Hne]; [|rewrite lookup_insert_ne by done; by exists r1].
    exists r. rewrite lookup_insert_eq. split; [done|]. intros Ht. rewrite (Hst Ht) in Hr1. by apply Hopen in Hr1.
Qed.

(** ** Audits *)

Lemma window_push (hist : list DrainAudit) a lim : (0 < lim)%nat →
  let l := drop (length hist - lim) hist ++ [a] in
  (if (Z.of_nat (length l) <=? Z.of_nat lim)%Z then l else drop (Z.to_nat (Z.of_nat (length l) - Z.of_nat lim)) l)
  = drop (length (hist ++ [a]) - lim) (hist ++ [a]).
Proof.
  intros Hlim. cbv zeta. rewrite !length_app, length_drop. simpl.
  destruct (_ <=? _) eqn:E; bool_prop.
  - replace (length hist - lim)%nat with 0%nat by lia. replace (length hist + 1 - lim)%nat with 0%nat by lia. done.
  - replace (Z.to_nat _) with 1%nat by lia.
    rewrite <- drop_app_le by lia. rewrite drop_drop. f_equal. lia.
Qed.

Section Facts.
Context {EN : Env} (clock_ok : ∀ l, 0 < ansClock l).

Lemma wspec_audit n F id p action outcome :
  validRequestID id = true → validPrincipal p = true → validTrimmedUTF8 action = true → validTrimmedUTF8 outcome = true →
  Z.of_nat n < u64_max →
  wspec (λ w, coInv n w ∧ F (tables (svc w))) (appendAudit id p action outcome) (λ _ w, coInv (S n) w ∧ F (tables (svc w))).
Proof.
  intros Hid Hp Ha Ho Hn w [[H1 H2 H3 H4 H5 (hist & (Hseq & Haud & Hh) & Hlen) [L1 L2 L3]] HF].
  unfold appendAudit, gets, now, mbind, co_bind. cbn [svc log emit].
  rewrite Hseq, u64_succ_small by lia. destruct (Z.of_nat (length hist) + 1 =? 0) eqn:E0; bool_prop; [lia|]. clear E0.
  set (t := ansClock (log w)). set (a := mkAudit (Z.of_nat (length hist) + 1) id p action outcome t).
  set (w' := emit (Clock t) w).
  assert (ordersOk (log w')) as Ho' by (apply ordersOk_calm; [done|by constructor]).
  assert (log w `prefix_of` log w') as Hl by (by eexists).
  assert (∀ s, tables s = tables (svc w) → sequence s = Z.of_nat (length hist) + 1 →
    audits s = drop (length (hist ++ [a]) - Z.to_nat (AuditLimit (coConfig (svc w)))) (hist ++ [a]) →
    coInv (S n) (mkWorld s (log w')) ∧ F (tables s)) as Hfin.
  { intros s Ht Hsq Hau. split; [|by rewrite Ht]. unfold tables in Ht. injection Ht as E1 E2 E3 E4.
    split; cbn [svc log]; [by rewrite E1|..|].
    - intros i r Hr. rewrite E2 in Hr. destruct (H2 i r Hr). split; [by eapply drainOk_grows|done].
    - intros i r Hr. rewrite E3 in Hr. destruct (H3 i r Hr) as (d & ? & ?). exists d. rewrite E2.
      split; [done|by eapply stopOk_grows].
    - intros i r Hr. rewrite E4 in Hr. by eapply recoveryOk_grows, H4.
    - done.
    - exists (hist ++ [a]). rewrite length_app. simpl. split; [|lia]. split_and!; [rewrite length_app; simpl; lia|by rewrite E1|].
      intros i b Hb. apply lookup_app_Some in Hb as [Hb|[Hi Hb]]; [by apply Hh|].
      apply list_lookup_singleton_Some in Hb as [Hi' <-]. unfold auditOk. simpl. split_and!; [lia|done..|apply clock_ok].
    - split; rewrite ?E2, ?E3, ?E4; done. }
  assert (AuditLimit (coConfig (svc w)) = Z.of_nat (Z.to_nat (AuditLimit (coConfig (svc w))))) as Hlim by lia.
  pose proof (window_push hist a (Z.to_nat (AuditLimit (coConfig (svc w)))) ltac:(lia)) as Hw. cbv zeta in Hw.
  rewrite <- Hlim in Hw. rewrite <- Haud in Hw. cbn [svc w' emit compose].
  destruct (_ <=? _) eqn:E in Hw; rewrite E.
  - apply Hfin; done.
  - unfold inc, modify. cbn [svc log fst snd]. apply Hfin; done.
Qed.

(** ** The handlers *)

(** A successful reply passes the checks of the client. *)
Definition replyOk (x : coResponse) : Prop :=
  match x with
  | drainOperationResponse o responseOK => validDrainOperation o = true
  | stopOperationResponse o responseOK => soTargets o ≠ None → validStopOperation o = true
  | drainAuditsResponse l responseOK => validDrainAudits l = true
  | _ => True
  end.

Definition handlerOk (n : nat) (m : Co coResponse) : Prop := wspec (coInv n) m (λ x w, coInv (S n) w ∧ replyOk x).

Lemma handler_ret n x : replyOk x → handlerOk n (mret x).
Proof. intros Hx. apply wspec_ret. intros w Hw. split; [|done]. eapply coInv_mono; [|done]. lia. Qed.

Lemma wspec_audit' n id p action outcome :
  validRequestID id = true → validPrincipal p = true → validTrimmedUTF8 action = true → validTrimmedUTF8 outcome = true →
  Z.of_nat n < u64_max → wspec (coInv n) (appendAudit id p action outcome) (λ _, coInv (S n)).
Proof.
  intros. eapply wspec_mono; [by apply (wspec_audit n (λ _, True))|done|]. by intros x w [? _].
Qed.
Lemma wspec_inc' n name : wspec (coInv n) (inc name) (λ _, coInv n).
Proof. eapply wspec_mono; [apply (wspec_inc n (λ _, True))|done|]. by intros x w [? _]. Qed.

(** An audit, a counter and an answer. *)
Lemma audited n id p action outcome (x : coResponse) :
  Z.of_nat n < u64_max → validRequestID id = true → validPrincipal p = true → validTrimmedUTF8 action = true → validTrimmedUTF8 outcome = true →
  replyOk x → handlerOk n (_ ← appendAudit id p action outcome; mret x).
Proof.
  intros. eapply wspec_bind; [by apply wspec_audit'|]. intros []. by apply wspec_ret.
Qed.
Lemma audited_counted n id p action outcome name (x : coResponse) :
  Z.of_nat n < u64_max → validRequestID id = true → validPrincipal p = true → validTrimmedUTF8 action = true → validTrimmedUTF8 outcome = true →
  replyOk x → handlerOk n (_ ← appendAudit id p action outcome; _ ← inc name; mret x).
Proof.
  intros. eapply wspec_bind; [by apply wspec_audit'|]. intros [].
  eapply wspec_bind; [apply wspec_inc'|]. intros []. by apply wspec_ret.
Qed.

(** Reading a field: continue with its value. *)
Lemma handler_gets {X} n (f : drainCoordinatorService → X) (k : X → Co coResponse) :
  (∀ x, wspec (λ w, coInv n w ∧ x = f (svc w)) (k x) (λ x w, coInv (S n) w ∧ replyOk x)) →
  handlerOk n (gets f ≫= k).
Proof. intros H. eapply wspec_bind; [apply wspec_gets|]. exact H. Qed.
(** Reading a second field, keeping what is known. *)
Lemma handler_more {X} n P (f : drainCoordinatorService → X) (k : X → Co coResponse) :
  (∀ x, wspec (λ w, coInv n w ∧ P w ∧ x = f (svc w)) (k x) (λ x w, coInv (S n) w ∧ replyOk x)) →
  wspec (λ w, coInv n w ∧ P w) (gets f ≫= k) (λ x w, coInv (S n) w ∧ replyOk x).
Proof. intros H w [Hw HP]. by apply H. Qed.
Lemma handler_drop {X} n (P : world → Prop) (m : Co X) R : wspec (coInv n) m R → wspec (λ w, coInv n w ∧ P w) m R.
Proof. intros H w [Hw _]. by apply H. Qed.

Lemma handler_base {X} n (P Q : world → Prop) (m : Co X) R : wspec (coInv n) m R → wspec (λ w, (coInv n w ∧ P w) ∧ Q w) m R.
Proof. intros H w [[Hw _] _]. by apply H. Qed.

Lemma normalize_start r q : normalizeStartDrainRequest r = Ok q → startOk q.
Proof.
  unfold normalizeStartDrainRequest. intros H.
  destruct (validRequestID (sdRequestID r)) eqn:H1; simpl in H; [|done].
  destruct (validPrincipal (sdPrincipal r)) eqn:H2; simpl in H; [|done].
  destruct (validDrainGroup (sdGroup r)) eqn:H3; simpl in H; [|done].
  destruct (validDrainVersion (sdExpected r)) eqn:H4; simpl in H; [|done].
  destruct (validDrainTags (default ∅ (sdNextTags r))) eqn:H5; simpl in H; [|done].
  destruct (forallb validServiceRef (sdNextRefs r)) eqn:H6; simpl in H; [|done].
  injection H as <-. split; [done..|]. simpl.
  destruct (dedupe_spec (merge_sort refLe (sdNextRefs r)) []) as [HS _]; [constructor| |done|done].
  apply StronglySorted_merge_sort; apply _.
Qed.

Lemma phase_text r l : drainOk r l → validTrimmedUTF8 (drainPhaseText (doPhase (drOperation r))) = true.
Proof. intros Hok%ok_shape. unfold shapeOk in Hok. by destruct (doPhase (drOperation r)); [vm_compute..|]. Qed.

(** Advancing a stored drain, storing it, and answering. *)
Lemma advance_store n id r0 (k : drainOperationRecord → Co coResponse) :
  (∀ r, (∃ l, drainOk r l) → wspec (λ w, coInv n w ∧ operations (svc w) !! id = Some r) (k r) (λ x w, coInv (S n) w ∧ replyOk x)) →
  sdRequestID (drRequest r0) = id →
  wspec (λ w, coInv n w ∧ operations (svc w) !! id = Some r0) (r ← advance r0; _ ← putOperation id r; k r)
    (λ x w, coInv (S n) w ∧ replyOk x).
Proof.
  intros Hk Hid. eapply wspec_bind.
  { eapply wspec_mono; [apply (wspec_spec n (λ tb, tb.1.1.2 !! id = Some r0)), spec_advance| |].
    - intros w [Hinv Hr]. split_and!; [done|done|]. by destruct (ci_drains _ _ Hinv _ _ Hr).
    - intros x w Hx. exact Hx. }
  intros r. eapply wspec_extract; [intros w (_ & Hok & _); exact (ex_intro _ _ Hok)|]. intros Hok.
  apply (wspec_bind _ _ _ (λ _ w, coInv n w ∧ operations (svc w) !! id = Some r)); [|intros []; by apply Hk].
  eapply wspec_mono; [apply (wspec_putOperation n id r (λ _, True))| |by intros x w (? & ? & _)].
  intros w [[Hinv Hr0] (Hd & Hst & Hf)]. split_and!; [done|done|by rewrite (ds_request _ _ Hst)|done|].
  intros d Hd0. assert (d = r0) as -> by (simpl in Hr0; congruence). by split.
Qed.

Lemma handleStart_ok n source q : Z.of_nat n < u64_max → handlerOk n (handleStart source q).
Proof.
  intros Hn. apply handler_gets. intros gw. apply handler_drop. destruct gw; simpl; [|by apply handler_ret].
  destruct (normalizeStartDrainRequest q) as [m|e] eqn:Hm; [|apply handler_ret; by destruct e].
  pose proof (normalize_start _ _ Hm) as Hq. apply handler_gets. intros ok. apply handler_drop. destruct ok; simpl.
  2: { apply audited_counted; try done; apply Hq. }
  apply handler_gets. intros [r|].
  - destruct (sameStartDrainRequest (drRequest r) m); simpl.
    + eapply wspec_extract; [intros w [Hinv Hr]; exact (drainOk_valid _ _ (proj1 (ci_drains _ _ Hinv _ _ (eq_sym Hr))))|].
      intros Hv. apply handler_drop. apply audited_counted; try done; apply Hq.
    + apply handler_drop. eapply wspec_bind; [apply wspec_inc'|]. intros []. by apply handler_ret.
  - set (id := sdRequestID m). eapply wspec_bind.
    { eapply wspec_mono; [apply (wspec_spec n (λ tb, tb.1.1.2 !! id = None)), (spec_now (λ _, True)), _|intros w [Hinv Hr]; by split_and!|].
      intros t w Hw. exact Hw. }
    intros t. apply (wspec_extract (0 < t)); [intros w (_ & _ & l0 & ->); apply clock_ok|]. intros Ht.
    set (r := mkDrainRecord m (mkDrainOperation _ _ _ _ _ _ _ _ _ _)).
    assert (∀ l, drainOk r l) as Hok.
    { intros l. split; try done. unfold shapeOk. simpl. split; [by left|done]. }
    eapply wspec_bind.
    { eapply wspec_mono; [apply (wspec_putOperation n id r (λ _, True))| |intros x w Hx; exact Hx].
      intros w [[Hinv Hr] _]. split_and!; [done|done|done|done|]. intros d Hd. simpl in Hr. congruence. }
    intros []. eapply wspec_mono; [apply (advance_store n id r)| |done]; [|done|by intros w (? & ? & _)].
    intros r1 [l Hr1]. apply handler_drop. apply audited_counted; try done; try apply Hq; [by eapply phase_text|by eapply drainOk_valid].
Qed.

(** The shared checks. *)
Lemma authorized n source id p action counter (k : Co coResponse) (f : controlError → coResponse) :
  Z.of_nat n < u64_max → validTrimmedUTF8 action = true → (∀ e, replyOk (f e)) →
  (validRequestID id = true → validPrincipal p = true → handlerOk n k) →
  handlerOk n (refused ← authorize source id p action counter;
               match refused with Some e => mret (f e) | None => k end).
Proof.
  intros Hn Ha Hf Hk. unfold handlerOk.
  eapply (wspec_bind _ _ _ (λ x w, match x with Some e => coInv (S n) w | None => coInv n w ∧ validRequestID id = true ∧ validPrincipal p = true end)).
  - unfold authorize. eapply wspec_bind; [apply wspec_gets|]. intros gw. apply handler_drop.
    assert (∀ e, wspec (coInv n) (mret (Some e)) (λ (x : error controlError) w,
      match x with Some _ => coInv (S n) w | None => coInv n w ∧ validRequestID id = true ∧ validPrincipal p = true end)) as Hret.
    { intros e. apply wspec_ret. intros w. apply coInv_mono. lia. }
    destruct gw; simpl; [|apply Hret]. destruct (validRequestID id) eqn:Hi; simpl; [|apply Hret].
    destruct (validPrincipal p) eqn:Hp; simpl; [|apply Hret].
    eapply wspec_bind; [apply wspec_gets|]. intros ok. apply handler_drop. destruct ok; simpl; [by apply wspec_ret|].
    eapply wspec_bind; [by apply wspec_audit'|]. intros [].
    eapply wspec_bind; [apply wspec_inc'|]. intros []. by apply wspec_ret.
  - intros [e|]; [by apply wspec_ret|]. eapply wspec_extract; [intros w [_ H]; exact H|]. intros [Hi Hp].
    apply handler_drop. by apply Hk.
Qed.

Lemma replyOk_refused e : replyOk (replyOperation zeroDrainOperation (Some e)).
Proof. by destruct e. Qed.

Lemma handleResolve_ok n source id p : Z.of_nat n < u64_max → handlerOk n (handleResolve source id p).
Proof.
  intros Hn. apply authorized; [done|done|apply replyOk_refused|]. intros Hi Hp.
  apply handler_gets. intros [r|]; [|apply handler_drop; by apply handler_ret].
  case_bool_decide; [apply handler_drop; by apply handler_ret|].
  eapply wspec_extract; [intros w [Hinv Hr]; exact (proj2 (ci_drains _ _ Hinv _ _ (eq_sym Hr)))|]. intros Hid.
  eapply wspec_mono; [apply (advance_store n id r); [|done]|by intros w [? ?]|done].
  intros r1 [l Hr1]. apply handler_drop. apply audited; try done; [by eapply phase_text|by eapply drainOk_valid].
Qed.

Lemma handleGet_ok n source id p : Z.of_nat n < u64_max → handlerOk n (handleGet source id p).
Proof.
  intros Hn. apply authorized; [done|done|apply replyOk_refused|]. intros Hi Hp.
  apply handler_gets. intros [r|]; [|apply handler_drop; by apply handler_ret].
  case_bool_decide; [apply handler_drop; by apply handler_ret|].
  eapply wspec_extract; [intros w [Hinv Hr]; exact (drainOk_valid _ _ (proj1 (ci_drains _ _ Hinv _ _ (eq_sym Hr))))|].
  intros Hv. apply handler_drop. by apply handler_ret.
Qed.

(** A window of a history without gaps passes the client's check. *)
Lemma valid_window hist k previous : (∀ i a, hist !! i = Some a → auditOk (k + i) a) → 0 ≤ previous ≤ Z.of_nat k →
  validAuditsFrom previous hist = true.
Proof.
  revert k previous. induction hist as [|a hist IH]; intros k previous Hh Hp; [done|]. simpl.
  destruct (Hh 0%nat a eq_refl) as (Hs & -> & -> & -> & -> & Ht).
  rewrite (proj2 (Z.eqb_neq _ _)) by lia. rewrite (proj2 (Z.leb_gt _ _)) by lia. rewrite (proj2 (Z.eqb_neq _ _)) by lia. simpl.
  apply (IH (S k)); [|lia]. intros i b Hb. replace (S k + i)%nat with (k + S i)%nat by lia. by apply Hh.
Qed.

Lemma audits_valid n w : coInv n w → validDrainAudits (audits (svc w)) = true.
Proof.
  intros [_ _ _ _ _ (hist & (_ & -> & Hh) & _) _]. eapply (valid_window _ (length hist - Z.to_nat (AuditLimit (coConfig (svc w))))); [|lia].
  intros i a Ha. rewrite lookup_drop in Ha. by apply Hh.
Qed.

Lemma handleListAudit_ok n source p : Z.of_nat n < u64_max → handlerOk n (handleListAudit source p).
Proof.
  intros Hn. apply handler_gets. intros gw. apply handler_drop. destruct gw; simpl; [|by apply handler_ret].
  destruct (validPrincipal p) eqn:Hp; simpl; [|by apply handler_ret].
  apply handler_gets. intros ok. apply handler_drop. destruct ok; simpl; [|by apply audited_counted].
  apply handler_gets. intros l. apply (wspec_extract (validDrainAudits l = true)); [intros w [Hinv ->]; by eapply audits_valid|].
  intros Hv. apply handler_drop. by apply handler_ret.
Qed.

(** ** Stops *)

Lemma neighbours_strict l : StronglySorted refLe l → equalNeighbours l = false → StronglySorted refLt l.
Proof.
  induction 1 as [|a l HS IH Ha]; intros Hn; [constructor|]. destruct l as [|b l]; [by repeat constructor|].
  simpl in Hn. apply orb_false_iff in Hn as [Hab Hn]. specialize (IH Hn). constructor; [done|].
  inversion Ha as [|? ? Hb _]; subst. destruct Hb as [->|Hb]; [by rewrite bool_decide_true in Hab|].
  constructor; [done|]. apply StronglySorted_inv in IH as [_ IH]. eapply Forall_impl; [exact IH|]. intros c Hc. by etrans.
Qed.

Lemma sorted_fmap {A} (f : A → ServiceRef) (l : list A) :
  StronglySorted (λ a b, refLe (f a) (f b)) l → StronglySorted refLe (f <$> l).
Proof. induction 1 as [|a l HS IH Ha]; csimpl; constructor; [done|]. by apply Forall_fmap. Qed.

#[local] Instance stopRequestLe_trans : Transitive stopRequestLe.
Proof. intros a b c. apply refLe_trans. Qed.
#[local] Instance stopRequestLe_total : Total stopRequestLe.
Proof. intros a b. apply refLe_total. Qed.

Lemma normalize_stop q m : normalizeBeginStopRequest q = Ok m → stopRequestOk m.
Proof.
  unfold normalizeBeginStopRequest. intros H.
  destruct (validRequestID (bsRequestID q)) eqn:H1; simpl in H; [|done].
  destruct (validPrincipal (bsPrincipal q)) eqn:H2; simpl in H; [|done].
  destruct (forallb validStopTargetRequest (bsTargets q)) eqn:H3; simpl in H; [|done].
  destruct (equalNeighbours _) eqn:H4; [done|]. injection H as <-. split; simpl; [done..| |].
  - apply Forall_forall. intros t Ht. rewrite merge_sort_Permutation in Ht. rewrite forallb_forall in H3. by apply H3, list_elem_of_In.
  - apply neighbours_strict; [|done]. apply sorted_fmap, (StronglySorted_merge_sort stopRequestLe).
Qed.

Lemma stop_phase_text d r l : stopOk d r l → validTrimmedUTF8 (stopPhaseText (soPhase (spOperation r))) = true.
Proof. intros [_ _ _ _ _ _ _ _ (ts & _ & _ & _ & _ & _ & Hv)]. by destruct (soPhase (spOperation r)); [vm_compute..|]. Qed.

Lemma stop_reply d r l : stopOk d r l → drainOk d l → replyOk (replyStopOperation (spOperation r) None).
Proof.
  intros Hs Hd. simpl. intros Hne. eapply stopOk_valid; [exact Hs|done|]. intros He. apply Hne.
  destruct (so_targets _ _ _ Hs) as (ts & Hts & Hreq & _). rewrite He in Hreq. by rewrite Hts, (fmap_nil_inv _ _ Hreq).
Qed.

(** Advancing a stop of a finished drain, storing it, and answering. *)
Lemma advanceStop_store n id d r0 old (k : stopOperationRecord → Co coResponse) :
  (∀ r, (∃ l, stopOk d r l ∧ drainOk d l) → handlerOk n (k r)) →
  (∀ r1, old = Some r1 → stopTerminal (soPhase (spOperation r1)) = false) →
  wspec (λ w, (coInv n w ∧ operations (svc w) !! id = Some d ∧ stops (svc w) !! id = old) ∧ stopOk d r0 (log w))
    (r ← advanceStop r0; _ ← putStop id r; k r) (λ x w, coInv (S n) w ∧ replyOk x).
Proof.
  intros Hk Hold. eapply (wspec_bind _ _ _ (λ r w, (coInv n w ∧ operations (svc w) !! id = Some d ∧ stops (svc w) !! id = old)
    ∧ (stopOk d r (log w) ∧ drainOk d (log w)))).
  { eapply wspec_mono; [apply (wspec_ospec n (λ tb, tb.1.1.2 !! id = Some d ∧ tb.1.2 !! id = old)), ospec_advanceStop| |intros r w Hx; exact Hx].
    intros w [(Hinv & Hd & Hst) Hs]. split_and!; [done|done|done|done|]. by destruct (ci_drains _ _ Hinv _ _ Hd). }
  intros r. apply (wspec_extract (∃ l, stopOk d r l ∧ drainOk d l)); [intros w (_ & H); by exists (log w)|]. intros Hr.
  apply (wspec_bind _ _ _ (λ _, coInv n)); [|intros []; by apply Hk].
  eapply wspec_mono; [apply wspec_putStop|intros w [(Hinv & Hd & Hst) [Hs _]]; split_and!; [done..|]|done].
  intros r1 Hr1. apply Hold. congruence.
Qed.

Lemma replyOk_refusedStop e : replyOk (replyStopOperation zeroStopOperation (Some e)).
Proof. by destruct e. Qed.

Lemma handleBeginStop_ok n source q : Z.of_nat n < u64_max → handlerOk n (handleBeginStop source q).
Proof.
  intros Hn. apply handler_gets. intros gw. apply handler_drop. destruct gw; simpl; [|by apply handler_ret].
  destruct (normalizeBeginStopRequest q) as [m|e] eqn:Hm; [|apply handler_ret, replyOk_refusedStop].
  pose proof (normalize_stop _ _ Hm) as Hq. pose proof (bq_id _ Hq) as Hid. pose proof (bq_principal _ Hq) as Hp.
  apply handler_gets. intros ok. apply handler_drop. destruct ok; simpl; [|by apply audited_counted].
  apply handler_gets. intros [r|].
  { destruct (sameBeginStopRequest (spRequest r) m); simpl; [|apply handler_drop; by apply audited].
    eapply wspec_extract; [intros w [Hinv Hr]; destruct (ci_stops _ _ Hinv _ _ (eq_sym Hr)) as (d & Hd & Hs);
      exact (stop_reply _ _ _ Hs (proj1 (ci_drains _ _ Hinv _ _ Hd)))|].
    intros Hv. apply handler_drop. by apply audited_counted. }
  apply handler_more. intros [d|]; [|apply handler_drop; by apply audited].
  case_bool_decide as Hph; [apply handler_drop; by apply audited|].
  case_bool_decide as Hpr; [apply handler_drop; by apply audited|].
  destruct (matchesDrainStopTargets _ _) eqn:Hmt; simpl; [|apply handler_drop; by apply audited].
  apply bool_decide_eq_true in Hmt. assert (doPhase (drOperation d) = DrainReadyToStop) as Hready by (by destruct (decide (doPhase (drOperation d) = DrainReadyToStop))).
  set (id := bsRequestID m). eapply wspec_bind.
  { eapply wspec_mono; [apply (wspec_ospec n (λ tb, tb.1.1.2 !! id = Some d ∧ tb.1.2 !! id = None)), (ospec_directory (λ _, True)), _
      |intros w (Hinv & Hst & Hr); by split_and!|intros x w Hx; exact Hx]. }
  intros [[|]|e]; [|eapply wspec_mono; [by apply audited|by intros w [[? _] _]|done]..].
  eapply wspec_bind.
  { eapply wspec_mono; [apply (wspec_spec n (λ tb, tb.1.1.2 !! id = Some d ∧ tb.1.2 !! id = None)), (spec_now (λ _, True)), _|by intros w [? _]|].
    intros t w Hw. exact Hw. }
  intros t. apply (wspec_extract (0 < t)); [intros w (_ & _ & l0 & ->); apply clock_ok|]. intros Ht.
  eapply wspec_mono; [apply (advanceStop_store n id d _ None); [|done]| |done].
  - intros r (l & Hs & Hd). apply audited_counted; try done; [by eapply stop_phase_text|by eapply stop_reply].
  - intros w [(Hinv & Hd & Hst) _]. split; [done|]. destruct (ci_drains _ _ Hinv _ _ Hd) as [Hok Hdid].
    split; simpl; [done|done|done|apply Hok|done|lia|done|by rewrite Hdid|].
    eexists. split_and!; [reflexivity|..].
    + unfold stopTargetsFromRequest. rewrite <- list_fmap_compose. rewrite <- (list_fmap_id (bsTargets m)) at 2.
      apply list_fmap_ext. by intros i [] _.
    + unfold stopTargetsFromRequest. rewrite <- list_fmap_compose, <- Hmt. done.
    + apply Forall_fmap. eapply Forall_impl; [apply (bq_targets _ Hq)|]. intros [a b] Hv. unfold validStopTarget. simpl. by rewrite Hv.
    + apply Forall_fmap, Forall_forall. intros a _. by left.
    + done.
Qed.

Lemma handleResolveStop_ok n source id p : Z.of_nat n < u64_max → handlerOk n (handleResolveStop source id p).
Proof.
  intros Hn. apply authorized; [done|done|apply replyOk_refusedStop|]. intros Hi Hp.
  apply handler_gets. intros [r|]; [|apply handler_drop; by apply audited].
  case_bool_decide; [apply handler_drop; by apply audited|].
  destruct (stopTerminal (soPhase (spOperation r))) eqn:Hterm.
  - eapply (wspec_extract (∃ d l, stopOk d r l ∧ drainOk d l)).
    { intros w [Hinv Hr]. destruct (ci_stops _ _ Hinv _ _ (eq_sym Hr)) as (d & Hd & Hs). exists d, (log w).
      split; [done|]. by destruct (ci_drains _ _ Hinv _ _ Hd). }
    intros (d & l & Hs & Hd). apply handler_drop. apply audited; try done; [by eapply stop_phase_text|by eapply stop_reply].
  - intros w [Hinv Hr]. destruct (ci_stops _ _ Hinv _ _ (eq_sym Hr)) as (d & Hd & Hs).
    rewrite co_assoc. refine (advanceStop_store n id d r (Some r) (λ r, _ ← appendAudit id p "resolve_stop" (stopPhaseText (soPhase (spOperation r)));
              mret (replyStopOperation (spOperation r) None)) _ _ w _); [|by intros ? [= <-]|by split_and!].
    intros r1 (l & Hs1 & Hd1). apply audited; try done; [by eapply stop_phase_text|by eapply stop_reply].
Qed.

Lemma handleGetStop_ok n source id p : Z.of_nat n < u64_max → handlerOk n (handleGetStop source id p).
Proof.
  intros Hn. apply authorized; [done|done|apply replyOk_refusedStop|]. intros Hi Hp.
  apply handler_gets. intros [r|]; [|apply handler_drop; by apply handler_ret].
  case_bool_decide; [apply handler_drop; by apply handler_ret|].
  eapply wspec_extract; [intros w [Hinv Hr]; destruct (ci_stops _ _ Hinv _ _ (eq_sym Hr)) as (d & Hd & Hs);
    exact (stop_reply _ _ _ Hs (proj1 (ci_drains _ _ Hinv _ _ Hd)))|].
  intros Hv. apply handler_drop. by apply handler_ret.
Qed.

(** ** Recoveries *)

Lemma normalize_recovery q m : normalizeBeginRecoveryRequest q = Ok m →
  validRequestID (brRequestID m) = true ∧ validPrincipal (brPrincipal m) = true
  ∧ validDrainServiceSet (brExpected m) = true ∧ Name (brExpected m) = brGroup m.
Proof.
  unfold normalizeBeginRecoveryRequest. intros H.
  destruct (validRequestID (brRequestID q)) eqn:H1; simpl in H; [|done].
  destruct (validPrincipal (brPrincipal q)) eqn:H2; simpl in H; [|done].
  destruct (validDrainGroup (brGroup q)) eqn:H3; simpl in H; [|done].
  destruct (validDrainServiceSet (brExpected q)) eqn:H4; simpl in H; [|done].
  case_bool_decide as H5; simpl in H; [done|]. case_bool_decide; [done|].
  destruct (forallb validRecoveryTargetRequest (brTargets q)); simpl in H; [|done].
  destruct (equalNeighbours _); [done|]. injection H as <-. simpl. by split_and!.
Qed.

Lemma recovery_phase_text r l : recoveryOk r l → validTrimmedUTF8 (recoveryPhaseText (roPhase (rpOperation r))) = true.
Proof.
  intros (ts & _ & Hs & _)%recovery_facts. unfold recoveryShape in Hs. by destruct (roPhase (rpOperation r)); [vm_compute..|].
Qed.

Lemma replyOk_recovery o e : replyOk (replyRecoveryOperation o e).
Proof. by destruct e. Qed.

(** A program that changes a recovery, storing the result, and answering. *)
Lemma recovery_store n id r0 old (m : Co recoveryOperationRecord) (k : recoveryOperationRecord → Co coResponse) :
  spec (recoveryOk r0) m recoveryOk →
  (∀ r1, old = Some r1 → roPhase (rpOperation r1) ≠ RecoveryCompleted) →
  (∀ r, (∃ l, recoveryOk r l) → handlerOk n (k r)) →
  wspec (λ w, (coInv n w ∧ recoveries (svc w) !! id = old) ∧ recoveryOk r0 (log w)) (r ← m; _ ← putRecovery id r; k r)
    (λ x w, coInv (S n) w ∧ replyOk x).
Proof.
  intros Hm Hold Hk. eapply (wspec_bind _ _ _ (λ r w, (coInv n w ∧ recoveries (svc w) !! id = old) ∧ recoveryOk r (log w))).
  { eapply wspec_mono; [apply (wspec_spec n (λ tb, tb.2 !! id = old)), Hm|by intros w [? ?]|by intros r w [? ?]]. }
  intros r. apply (wspec_extract (∃ l, recoveryOk r l)); [intros w [_ H]; by exists (log w)|]. intros Hr.
  apply (wspec_bind _ _ _ (λ _, coInv n)); [|intros []; by apply Hk].
  eapply wspec_mono; [apply wspec_putRecovery|intros w [[Hinv Ho] Hs]; split_and!; [done..|]|done].
  intros r1 Hr1. apply Hold. congruence.
Qed.

Lemma handleBeginRecovery_ok n source q : Z.of_nat n < u64_max → handlerOk n (handleBeginRecovery source q).
Proof.
  intros Hn. apply handler_gets. intros gw. apply handler_drop. destruct gw; simpl; [|by apply handler_ret].
  destruct (normalizeBeginRecoveryRequest q) as [m|e] eqn:Hm; [|by apply handler_ret].
  destruct (normalize_recovery _ _ Hm) as (Hid & Hp & He & Hname).
  apply handler_gets. intros ok. apply handler_drop. destruct ok; simpl; [|by apply audited].
  apply handler_gets. intros [r|].
  { apply handler_drop. destruct (sameBeginRecoveryRequest (rpRequest r) m); simpl; [by apply handler_ret|by apply audited]. }
  apply handler_more. intros [st|]; [|apply handler_drop; by apply handler_ret].
  case_bool_decide; [apply handler_drop; by apply handler_ret|]. destruct (_ || _); [apply handler_drop; by apply handler_ret|].
  destruct (existsb _ _) eqn:Hex; [apply handler_drop; by apply handler_ret|].
  set (id := brRequestID m). set (F := λ w, coInv n w ∧ recoveries (svc w) !! id = None).
  apply (wspec_bind _ _ _ (λ _ w, F w)).
  { eapply wspec_mono; [apply (wspec_spec n (λ tb, tb.2 !! id = None)), (spec_get (λ _, True)), _|by intros w (? & ? & _)|by intros x w [? _]]. }
  intros [set|e]; [|apply handler_drop; by apply handler_ret].
  destruct (sameDrainServiceSet set (brExpected m)); simpl; [|apply handler_drop; by apply handler_ret].
  apply (wspec_bind _ _ _ (λ _ w, F w)).
  { eapply wspec_mono; [apply (wspec_spec n (λ tb, tb.2 !! id = None)), (spec_now (λ _, True)), _|done|by intros x w [? _]]. }
  intros t. eapply wspec_mono; [refine (recovery_store n id _ None _ _ (spec_advanceRecovery _) _ _); [done|]| |done].
  - intros r [l Hr]. apply audited_counted; try done. by eapply recovery_phase_text.
  - intros w Hw. split; [done|]. split; [|done|done|].
    + split; [done|done|]. apply Forall_forall. intros x Hx Hin.
      assert (existsb (λ t, containsRecoveryRef (refsOf (brExpected m)) (rrRemoved t)) (brTargets m) = true) as H1; [|congruence].
      apply existsb_exists. exists x. split; [by apply list_elem_of_In|by apply bool_decide_eq_true].
    + eexists. split_and!; [reflexivity|..].
      * simpl. unfold recoveryTargetsFromRequest. rewrite <- list_fmap_compose. rewrite <- (list_fmap_id (brTargets m)) at 2.
        apply list_fmap_ext. by intros i [] _.
      * apply Forall_fmap, Forall_forall. intros x _ [E|E]; simpl in E; discriminate E.
      * done.
Qed.

Lemma authorizedRecovery_ok n source id p action (k : res controlError recoveryOperationRecord → Co coResponse) :
  Z.of_nat n < u64_max → validTrimmedUTF8 action = true →
  (∀ e, wspec (coInv (S n)) (k (Err e)) (λ x w, coInv (S n) w ∧ replyOk x)) →
  (∀ r, validRequestID id = true → validPrincipal p = true →
        wspec (λ w, (coInv n w ∧ recoveries (svc w) !! id = Some r) ∧ recoveryOk r (log w)) (k (Ok r)) (λ x w, coInv (S n) w ∧ replyOk x)) →
  handlerOk n (authorizedRecovery source id p action ≫= k).
Proof.
  intros Hn Ha Herr Hok. unfold handlerOk.
  set (Q := λ (x : res controlError recoveryOperationRecord) w, match x with
    | Err e => coInv (S n) w | Ok r => ((coInv n w ∧ recoveries (svc w) !! id = Some r) ∧ recoveryOk r (log w)) ∧ validRequestID id = true ∧ validPrincipal p = true end).
  apply (wspec_bind _ _ _ Q).
  - assert (∀ e, wspec (coInv n) (mret (Err e)) Q) as Hret by (intros e; apply wspec_ret; intros w; apply coInv_mono; lia).
    unfold authorizedRecovery. eapply wspec_bind; [apply wspec_gets|]. intros gw. apply handler_drop.
    destruct gw; simpl; [|apply Hret]. destruct (validRequestID id) eqn:Hi; simpl; [|apply Hret].
    destruct (validPrincipal p) eqn:Hp; simpl; [|apply Hret].
    eapply wspec_bind; [apply wspec_gets|]. intros ok. apply handler_drop. destruct ok; simpl.
    + eapply wspec_bind; [apply wspec_gets|]. intros [r|]; [|apply handler_drop, Hret].
      case_bool_decide; [apply handler_drop, Hret|]. apply wspec_ret. intros w [Hinv Hr]. split; [|done].
      split; [done|]. by eapply ci_recoveries.
    + eapply wspec_bind; [by apply wspec_audit'|]. intros []. by apply wspec_ret.
  - intros [r|e]; [|apply Herr]. apply (wspec_extract (validRequestID id = true ∧ validPrincipal p = true)); [by intros w [_ ?]|].
    intros [Hi Hp]. eapply wspec_mono; [by apply Hok|by intros w [? _]|done].
Qed.

Lemma refused_recovery n e : wspec (coInv (S n)) (mret (replyRecoveryOperation zeroRecoveryOperation (Some e))) (λ x w, coInv (S n) w ∧ replyOk x).
Proof. apply wspec_ret. intros w Hw. split; [done|apply replyOk_recovery]. Qed.

Lemma handleResolveRecovery_ok n source id p : Z.of_nat n < u64_max → handlerOk n (handleResolveRecovery source id p).
Proof.
  intros Hn. apply authorizedRecovery_ok; [done|done|apply refused_recovery|]. intros r Hi Hp.
  destruct (recoveryTerminal (roPhase (rpOperation r))) eqn:Hterm.
  - apply (wspec_extract (∃ l, recoveryOk r l)); [intros w [_ H]; by exists (log w)|]. intros [l Hr].
    apply handler_base. apply audited; try done. by eapply recovery_phase_text.
  - intros w Hw. rewrite co_assoc.
    refine (recovery_store n id r (Some r) _ (λ r, _ ← appendAudit id p "resolve_recovery" (recoveryPhaseText (roPhase (rpOperation r)));
              mret (replyRecoveryOperation (rpOperation r) None)) (spec_advanceRecovery r) _ _ w Hw).
    { intros r1 [= <-] E. by rewrite E in Hterm. }
    intros r1 [l Hr]. apply audited; try done. by eapply recovery_phase_text.
Qed.

Lemma handleGetRecovery_ok n source id p : Z.of_nat n < u64_max → handlerOk n (handleGetRecovery source id p).
Proof.
  intros Hn. apply authorizedRecovery_ok; [done|done|apply refused_recovery|]. intros r Hi Hp.
  apply handler_base. apply handler_ret, replyOk_recovery.
Qed.

Lemma handleAbandonRecovery_ok n source id p : Z.of_nat n < u64_max → handlerOk n (handleAbandonRecovery source id p).
Proof.
  intros Hn. apply authorizedRecovery_ok; [done|done|apply refused_recovery|]. intros r Hi Hp.
  cbv zeta. destruct (bool_decide (roPhase (rpOperation r) = RecoveryCompleted) || bool_decide (roPhase (rpOperation r) = RecoveryPublishing)) eqn:Hph.
  { apply handler_base. apply handler_ret, replyOk_recovery. }
  apply orb_false_iff in Hph as [Hph _]. apply bool_decide_eq_false in Hph.
  apply (wspec_extract (∃ ts, roTargets (rpOperation r) = Some ts ∧ roPublished (rpOperation r) = zeroSet)).
  { intros w [_ (ts & Hts & Hs & _)%recovery_facts]. exists ts. split; [done|]. unfold recoveryShape in Hs.
    destruct (roPhase (rpOperation r)); naive_solver. }
  intros (ts & Hts & Hz). apply recovery_store; [by eapply spec_abandon|by intros ? [= <-]|].
  intros r1 [l Hr]. apply audited; try done. by eapply recovery_phase_text.
Qed.

(** The publication of [handleConfirmRecovery] and its conclusion. *)
Lemma wspec_confirm n id p r : roPhase (rpOperation r) = RecoveryAwaitingConfirmation →
  Z.of_nat n < u64_max → validRequestID id = true → validPrincipal p = true →
  wspec (λ w, (coInv n w ∧ recoveries (svc w) !! id = Some r) ∧ recoveryOk r (log w))
    (r' ← setRecoveryPhase r RecoveryPublishing;
     published ← publishRecoveryDirectory (rpOperation r') (recoveryPublishedSet (rpOperation r));
     match published with
     | Err _ =>
         _ ← putRecovery id r';
         _ ← appendAudit id p "confirm_recovery" "publishing";
         mret (replyRecoveryOperation (rpOperation r') None)
     | Ok set =>
         r' ← completeRecoveryPublish r' set;
         _ ← putRecovery id r';
         _ ← appendAudit id p "confirm_recovery" (recoveryPhaseText (roPhase (rpOperation r')));
         mret (replyRecoveryOperation (rpOperation r') None)
     end) (λ x w, coInv (S n) w ∧ replyOk x).
Proof.
  intros Hph Hn Hi Hp w Hw.
  pose proof (wspec_spec n (λ tb, tb.2 !! id = Some r) _ _ _ (spec_confirm r Hph) w Hw) as Hc.
  unfold mbind, co_bind in Hc |- *. destruct (setRecoveryPhase r RecoveryPublishing w) as [w1 r1].
  destruct (publishRecoveryDirectory (rpOperation r1) (recoveryPublishedSet (rpOperation r)) w1) as [w2 [set|e]].
  - destruct (completeRecoveryPublish r1 set w2) as [w3 r3]. simpl in Hc. destruct Hc as [Hinv Hok].
    refine (recovery_store n id r3 (Some r) (mret r3) (λ r, _ ← appendAudit id p "confirm_recovery" (recoveryPhaseText (roPhase (rpOperation r)));
              mret (replyRecoveryOperation (rpOperation r) None)) _ _ _ w3 _); [by apply spec_ret|intros ? [= <-]; by rewrite Hph| |by split].
    intros r4 [l Hr]. apply audited; try done. by eapply recovery_phase_text.
  - simpl in Hc. destruct Hc as [Hinv Hok].
    refine (recovery_store n id r1 (Some r) (mret r1) (λ r, _ ← appendAudit id p "confirm_recovery" "publishing";
              mret (replyRecoveryOperation (rpOperation r) None)) _ _ _ w2 _); [by apply spec_ret|intros ? [= <-]; by rewrite Hph| |by split].
    intros r4 [l Hr]. by apply audited.
Qed.

Lemma handleConfirmRecovery_ok n source id p : Z.of_nat n < u64_max → handlerOk n (handleConfirmRecovery source id p).
Proof.
  intros Hn. apply authorizedRecovery_ok; [done|done|apply refused_recovery|]. intros r Hi Hp.
  cbv zeta. case_bool_decide as Hph; [apply handler_base, handler_ret, replyOk_recovery|].
  assert (roPhase (rpOperation r) = RecoveryAwaitingConfirmation) as Hph'
    by (by destruct (decide (roPhase (rpOperation r) = RecoveryAwaitingConfirmation))).
  apply (wspec_bind _ _ _ (λ _ w, (coInv n w ∧ recoveries (svc w) !! id = Some r) ∧ recoveryOk r (log w))).
  { eapply wspec_mono; [apply (wspec_spec n (λ tb, tb.2 !! id = Some r)), (spec_get (recoveryOk r)), _|done|by intros x w [? [? _]]]. }
  intros x. destruct (match x with Ok current => sameDrainServiceSet current (roExpected (rpOperation r)) | Err _ => false end).
  - by apply (wspec_confirm n id p r).
  - apply (wspec_extract (∃ ts, roTargets (rpOperation r) = Some ts ∧ roPublished (rpOperation r) = zeroSet)).
    { intros w [_ (ts & Hts & Hs & _)%recovery_facts]. exists ts. split; [done|]. unfold recoveryShape in Hs.
      destruct (roPhase (rpOperation r)); naive_solver. }
    intros (ts & Hts & Hz). apply recovery_store; [by apply (spec_recoveryPhase _ ts)|intros ? [= <-]; by rewrite Hph'|].
    intros r1 _. apply handler_ret, replyOk_recovery.
Qed.
(** ** Every command, and every sequence of commands *)

Definition answerOk (x : option coResponse) : Prop := ∀ r, x = Some r → replyOk r.

Lemma answered n (m : Co coResponse) : handlerOk n m →
  wspec (coInv n) (x ← m; mret (Some x)) (λ x w, coInv (S n) w ∧ answerOk x).
Proof.
  intros H. eapply wspec_bind; [exact H|]. intros x. apply wspec_ret. intros w [? ?]. split; [done|]. by intros r [= <-].
Qed.

Lemma Handle_ok n source c : Z.of_nat n < u64_max → wspec (coInv n) (Handle source c) (λ x w, coInv (S n) w ∧ answerOk x).
Proof.
  intros Hn. destruct c as [| | | | | | | | | | | |k|]; simpl; try apply answered; try apply wspec_ret.
  all: auto using handleStart_ok, handleResolve_ok, handleGet_ok, handleListAudit_ok, handleBeginStop_ok, handleResolveStop_ok,
    handleGetStop_ok, handleBeginRecovery_ok, handleConfirmRecovery_ok, handleResolveRecovery_ok, handleGetRecovery_ok,
    handleAbandonRecovery_ok.
  - destruct k; apply wspec_ret; intros w Hw; (split; [eapply coInv_mono; [|done]; lia|by intros r [= <-]]).
  - intros w Hw. split; [eapply coInv_mono; [|done]; lia|by intros r].
Qed.

Lemma run_ok cs n : Z.of_nat (n + length cs) ≤ u64_max →
  wspec (coInv n) (run cs) (λ xs w, coInv (n + length cs) w ∧ Forall answerOk xs).
Proof.
  revert n. induction cs as [|[source c] cs IH]; intros n Hn; simpl.
  { apply wspec_ret. intros w Hw. split; [eapply coInv_mono; [|done]; lia|constructor]. }
  simpl in Hn. eapply wspec_bind; [apply Handle_ok; lia|]. intros x.
  apply (wspec_extract (answerOk x)); [by intros w [_ ?]|]. intros Hx. apply handler_drop.
  eapply wspec_bind; [apply IH; lia|]. intros xs. apply wspec_ret. intros w [Hw Hxs].
  split; [by replace (n + S (length cs))%nat with (S n + length cs)%nat by lia|by constructor].
Qed.
End Facts.
End Base.

(** ** A fresh service *)

#[global] Instance later_refl : Reflexive later.
Proof. intros s. split; intros id r Hr; exists r; by split_and!. Qed.

Lemma coInv_init c mc s : NewDrainCoordinatorService c mc = Ok s → coInv s 0 (mkWorld s []).
Proof.
  unfold NewDrainCoordinatorService. destruct (validDrainCoordinatorConfig c) eqn:Hc; simpl; [|done]. intros [= <-].
  unfold validDrainCoordinatorConfig in Hc. repeat (apply andb_true_iff in Hc as [Hc ?]).
  split; simpl; try done.
  - destruct (AuditLimit c =? 0) eqn:E; bool_prop; [done|]. lia.
  - intros l1 a t x l2 Hl. by destruct l1.
  - exists []. split; [by split_and!|simpl; lia].
Qed.

(** Any state the service reaches has the invariant, relative to itself. *)
Lemma coInv_self s0 n w : coInv s0 n w → coInv (svc w) n w.
Proof. intros []. by split. Qed.
