(* ===== verification/CoordinatorProps.v ===== *)
(** * The drain coordinator: properties

    What the invariant of [CoordinatorFacts] means for a service that starts empty
    and handles any sequence of commands in any environment, with a concrete
    rollout (drain, stop, recovery) that the witnesses run. *)

From stdpp Require Import prelude gmap strings list sorting.
From Stdlib Require Import ZArith Lia.
From S2P Require Import Prelude Types Metrics GoText Drain Directory DirectoryFacts DirectoryClient Control Coordinator CoordinatorInv.
From S2P Require Import CoordinatorStop CoordinatorRecovery CoordinatorFacts.

Local Open Scope Z_scope.

(** [reaches s n w]: a service that started as [s] is in the world [w] after [n] commands. *)
Definition reaches `{Env} (s : drainCoordinatorService) (n : nat) (w : world) : Prop :=
  (∃ c mc, NewDrainCoordinatorService c mc = Ok s)
  ∧ ∃ cs, length cs = n ∧ Z.of_nat n ≤ u64_max ∧ w = (run cs (mkWorld s [])).1.

Section Reachable.
Context {EN : Env} (clock_ok : ∀ l, 0 < ansClock l).

Lemma reaches_inv s n w : reaches s n w → coInv s n w ∧ Z.of_nat n ≤ u64_max.
Proof.
  intros [(c & mc & Hs) (cs & <- & Hn & ->)]. split; [|done].
  by apply (run_ok s clock_ok cs 0 Hn _ (coInv_init _ _ _ Hs)).
Qed.

(** What the rest of a history does to a world with the invariant. *)
Lemma reaches_later s n w cs : reaches s n w → Z.of_nat (n + length cs) ≤ u64_max → later (svc w) (svc (run cs w).1).
Proof.
  intros [Hinv _]%reaches_inv Hn. eapply ci_later.
  by apply (run_ok (svc w) clock_ok cs n Hn w), (coInv_self s).
Qed.
End Reachable.

(** ** A rollout *)

Module Rollout.
Definition gateway := mkRef "n1" 1.
Definition agent := mkRef "n1" 20.
Definition kept_member := mkRef "n1" 10.
Definition old_member := mkRef "n1" 11.
Definition new_member := mkRef "n1" 12.
Definition set0 : ServiceSet := mkSet "pool" (mkVersion 7 1) (Some [kept_member; old_member]) (Some ∅).
Definition set1 : ServiceSet := mkSet "pool" (mkVersion 7 2) (Some [kept_member]) (Some ∅).

(** The directory serves the last publication. *)
Fixpoint current (l : list event) (set : ServiceSet) : ServiceSet :=
  match l with
  | [] => set
  | DirectoryCall (PublishServiceSet _ _ _ _) (Ok (serviceSetResponse (Ok set'))) :: l => current l set'
  | _ :: l => current l set
  end.
Definition serve (l : list event) (c : Directory.command) : res groupError Directory.response :=
  let set := current l set0 in
  match c with
  | GetServiceSet _ => Ok (serviceSetResponse (Ok set))
  | PublishServiceSet name expected refs tags =>
      Ok (serviceSetResponse
        (if bool_decide (expected = Version set)
         then Ok (mkSet name (mkVersion (AuthorityEpoch expected) (Revision expected + 1)) (Some refs) tags)
         else Err Directory.responseVersionConflict))
  | _ => Err ErrInvalidGroup
  end.
#[export] Instance env : Env := {|
  ansDirectory := serve;
  ansVisitors _ _ := Ok (Some (ListResponse (Some []) Drain.responseOK));
  ansGuard _ _ _ := Ok (Some (mkStatus true 5, Drain.responseOK));
  ansStop _ _ t := Ok (Some (mkStopReceipt (ntRequestID t) (ntTarget t) StopTargetStopped StopFailureNone 6, responseOK));
  ansStopReceipt _ _ _ _ := Ok (Some (zeroStopReceipt, responseStopOperationNotFound));
  ansRecovery _ _ t := Ok (Some (mkRecoveryReceipt (rcRequestID t) (rcRemoved t) (rcBlueprint t) new_member
                                   RecoveryTargetCreated RecoveryFailureNone 7, responseOK));
  ansRecoveryReceipt _ _ _ _ := Ok (Some (zeroRecoveryReceipt, responseRecoveryNotFound));
  ansClock l := 100 + Z.of_nat (length l)
|}.
Lemma clock_ok l : 0 < ansClock l.
Proof. simpl. lia. Qed.

Definition config := mkCoConfig gateway ["ops"] (mkRef "n1" 2) (mkRef "n1" 3) 0 3.
Definition service := match NewDrainCoordinatorService config newMetricCollector with Ok s => s | Err _ => Stop (mkCoordinator config ∅ ∅ ∅ [] 0 newMetricCollector) end.
Definition drain := (gateway, StartDrain (mkStartDrain "r1" "ops" "pool" (mkVersion 7 1) [kept_member] None)).
Definition stop := (gateway, BeginStop (mkBeginStop "r1" "ops" [mkStopTargetRequest old_member agent])).
Definition recover := (gateway, BeginRecovery (mkBeginRecovery "r1" "ops" "pool" set1 [mkRecoveryTargetRequest old_member agent "bp"])).
Definition confirm := (gateway, ConfirmRecovery "r1" "ops").
Definition after (cs : list (ServiceRef * coCommand)) : world := (run cs (mkWorld service [])).1.

Lemma reached cs : (length cs ≤ 4)%nat → reaches service (length cs) (after cs).
Proof.
  intros Hn. split; [exists config, newMetricCollector; reflexivity|]. exists cs. split_and!; [done| |done].
  change u64_max with 18446744073709551615. lia.
Qed.
End Rollout.

(** ** Properties *)

Section Properties.
Context {EN : Env} (clock_ok : ∀ l, 0 < ansClock l).

(** C14. An order to stop a service is only ever sent with the evidence for it: the
    call directly before it read the directory as exactly the published set, the
    target is not a member of that set, and it belongs to a group of services that
    first all answered that they are draining, after which the directory was read as
    the published set, after which none of them had a strong visitor. *)
Theorem stop_orders_justified s n w l1 agent task r l2 :
  reaches s n w → log w = l1 ++ StopCall agent task r :: l2 →
  (∃ l0 e set, l1 = l0 ++ [e] ∧ directoryRead e (Name (ntPublished task)) set
               ∧ sameDrainServiceSet set (ntPublished task) = true)
  ∧ ntTarget task ∉ refsOf (ntPublished task)
  ∧ ∃ refs k1 e set k2, ntTarget task ∈ refs ∧ l1 = k1 ++ e :: k2 ∧ Forall (λ ref, guardedBy ref k1) refs
      ∧ directoryRead e (Name (ntPublished task)) set ∧ sameDrainServiceSet set (ntPublished task) = true
      ∧ Forall (λ ref, clearBy ref k2) refs.
Proof.
  intros [Hinv _]%(reaches_inv clock_ok) Hl. destruct (ci_orders _ _ _ Hinv _ _ _ _ _ Hl) as (H1 & H2 & refs & Hin & k1 & e & set & k2 & H).
  split_and!; [done..|]. exists refs, k1, e, set, k2. split; [done|exact H].
Qed.

(** C15. A drain that is ready to stop published exactly what was asked for, as the
    next version of the set it was asked for; its targets are exactly the members that
    this removed; each of them confirmed to be draining, then the directory was read
    as the published set, then none of them had a strong visitor. *)
Theorem drain_ready_sound s n w id r :
  reaches s n w → operations (svc w) !! id = Some r → doPhase (drOperation r) = DrainReadyToStop →
  let o := drOperation r in let q := drRequest r in let refs := dtRef <$> default [] (doTargets o) in
  sdRequestID q = id
  ∧ publishedAs (sdGroup q) (sdExpected q) (sdNextRefs q) (default ∅ (sdNextTags q)) (doPublished o)
  ∧ Version (doOriginal o) = sdExpected q
  ∧ (∀ ref, ref ∈ refs ↔ ref ∈ refsOf (doOriginal o) ∧ ref ∉ sdNextRefs q)
  ∧ readyBy (doPublished o) refs (log w).
Proof.
  intros [Hinv _]%(reaches_inv clock_ok) Hr Hph. destruct (ci_drains _ _ _ Hinv _ _ Hr) as [Hok Hid].
  pose proof (ok_shape _ _ Hok) as Hs. unfold shapeOk in Hs. rewrite Hph in Hs.
  destruct Hs as ((_ & _ & Hv) & Hp & (ts & Hts & Hrefs & _) & _ & Hready). split_and!; try done.
  intros ref. rewrite Hts. simpl. rewrite Hrefs. unfold drainTargets. rewrite merge_sort_Permutation.
  rewrite <- list_fmap_compose. change (dtRef ∘ _) with (λ ref : ServiceRef, ref). rewrite list_fmap_id, list_elem_of_filter.
  rewrite (pa_refs _ _ _ _ _ Hp). tauto.
Qed.

(** What is decided stays: whatever commands follow, every drain stays known and
    only moves along the phases, never changing its request, its published set or its
    targets and never forgetting a guard, and not at all from a final phase; a stop that was decided and a recovery that
    completed are never changed. *)
Theorem coordinator_decisions_final s n w cs :
  reaches s n w → Z.of_nat (n + length cs) ≤ u64_max → later (svc w) (svc (run cs w).1).
Proof. apply (reaches_later clock_ok). Qed.

(** A stop that completed stopped exactly the removed members of its drain: each
    of them is reported as stopped by a receipt of its own agent for this request. *)
Theorem stop_completed_reported s n w id r :
  reaches s n w → stops (svc w) !! id = Some r → soPhase (spOperation r) = StopCompleted →
  ∃ d ts, operations (svc w) !! id = Some d ∧ doPhase (drOperation d) = DrainReadyToStop
    ∧ soTargets (spOperation r) = Some ts ∧ stTarget <$> ts = dtRef <$> default [] (doTargets (drOperation d))
    ∧ Forall (λ t, stState t = StopTargetStopped ∧ receiptSeen (soRequestID (spOperation r)) t (log w)) ts.
Proof.
  intros [Hinv _]%(reaches_inv clock_ok) Hr Hph. destruct (ci_stops _ _ _ Hinv _ _ Hr) as (d & Hd & Hs).
  destruct (so_targets _ _ _ Hs) as (ts & Hts & _ & Hrefs & _ & Hrep & Hv). rewrite Hph in Hv. unfold stopVerdictOk in Hv.
  exists d, ts. split_and!; [done|apply Hs|done..|]. rewrite Forall_forall in Hrep, Hv |- *. intros t Ht.
  split; [by apply Hv|]. destruct (Hrep t Ht) as [[E _]|H]; [|done]. rewrite (Hv t Ht) in E. discriminate E.
Qed.

(** A recovery that completed published exactly the expected members and the
    replacements, strictly sorted, under the next version and with the expected tags;
    every replacement was reported by a receipt of the agent of the member it
    replaces.  The exchange sort of the code sorts. *)
Theorem recovery_completed_exact s n w id r :
  reaches s n w → recoveries (svc w) !! id = Some r → roPhase (rpOperation r) = RecoveryCompleted →
  let o := rpOperation r in
  ∃ ts, roTargets o = Some ts
    ∧ Version (roPublished o) = mkVersion (AuthorityEpoch (Version (roExpected o))) (u64_succ (Revision (Version (roExpected o))))
    ∧ StronglySorted refLt (refsOf (roPublished o))
    ∧ (∀ ref, ref ∈ refsOf (roPublished o) ↔ ref ∈ refsOf (roExpected o) ∨ ref ∈ rtCreated <$> ts)
    ∧ default ∅ (Tags (roPublished o)) = default ∅ (Tags (roExpected o))
    ∧ Forall (λ t, rtRemoved t ∉ refsOf (roExpected o) ∧ createdSeen (roRequestID o) t (log w)) ts.
Proof.
  intros [Hinv _]%(reaches_inv clock_ok) Hr Hph. pose proof (ci_recoveries _ _ _ Hinv _ _ Hr) as Hok.
  pose proof (recovery_facts _ _ Hok) as (ts & Hts & Hs & Hv & _). unfold recoveryShape in Hs. rewrite Hph in Hs.
  destruct Hs as [[_ _ He Hrev Hrefs Htags] Hpub]. destruct (recoveredRefs_spec _ Hv) as [Hsort Hin]. rewrite Hts in Hin.
  exists ts. rewrite Hrefs. split_and!; try done.
  - destruct (Version (roPublished (rpOperation r))). simpl in *. congruence.
  - destruct (rc_targets _ _ Hok) as (ts' & Hts' & Hreq & Hseen & _). assert (ts' = ts) as -> by congruence.
    destruct (rc_request _ _ Hok) as [_ _ Hout]. rewrite (rc_expected _ _ Hok), <- Hreq in *.
    rewrite Forall_fmap in Hout. rewrite Forall_forall in Hout, Hseen, Hpub |- *. intros t Ht.
    split; [by apply (Hout t)|]. apply Hseen; [done|]. right. by apply Hpub.
Qed.

(** The audits are the last ones, at most as many as configured, of a history
    that numbers every audit from 1 without gaps. *)
Theorem audits_window s n w :
  reaches s n w →
  Z.of_nat (length (audits (svc w))) ≤ AuditLimit (coConfig (svc w))
  ∧ sequence (svc w) ≤ Z.of_nat n
  ∧ ∀ i a, audits (svc w) !! i = Some a →
      auSequence a = sequence (svc w) - Z.of_nat (length (audits (svc w))) + Z.of_nat i + 1.
Proof.
  intros [Hinv _]%(reaches_inv clock_ok). pose proof (ci_limit _ _ _ Hinv) as Hlim.
  destruct (ci_audits _ _ _ Hinv) as (hist & (Hseq & Haud & Hh) & Hlen).
  rewrite Haud, Hseq, length_drop. split_and!; [lia|lia|]. intros i a Ha. rewrite lookup_drop in Ha.
  destruct (Hh _ _ Ha) as (-> & _). apply lookup_lt_Some in Ha. lia.
Qed.

(** What the coordinator answers passes the checks of its client: a successful
    answer about a drain, about a stop with targets, or with audits is returned by the
    client as it is. *)
Theorem coordinator_replies_accepted s n w source c :
  reaches s n w → Z.of_nat n < u64_max →
  let x := (Handle source c w).2 in
  (∀ o, x = Some (drainOperationResponse o responseOK) → drainOperationFromResponse x = Ok o)
  ∧ (∀ o, x = Some (stopOperationResponse o responseOK) → soTargets o ≠ None → stopOperationFromResponse x = Ok (cloneStopOperation o))
  ∧ (∀ l, x = Some (drainAuditsResponse l responseOK) → auditsFromResponse x = Ok l).
Proof.
  intros [Hinv _]%(reaches_inv clock_ok) Hn. destruct (Handle_ok s clock_ok n source c Hn w Hinv) as [_ Hx]. cbv zeta.
  split_and!; [intros o E|intros o E Ht|intros l E]; specialize (Hx _ E); rewrite E; simpl in Hx |- *; [by rewrite Hx..|].
  by rewrite Hx.
Qed.
End Properties.

(** ** Who may command *)

(** The principal in whose name a command comes. *)
Definition principalOf (c : coCommand) : option Principal :=
  match c with
  | StartDrain r => Some (sdPrincipal r)
  | BeginStop r => Some (bsPrincipal r)
  | BeginRecovery r => Some (brPrincipal r)
  | ResolveDrain _ p | GetDrain _ p | ListAudit p | ResolveStop _ p | GetStop _ p | ConfirmRecovery _ p | ResolveRecovery _ p
  | GetRecovery _ p | AbandonRecovery _ p => Some p
  | Coordinator.BadPayload _ | UnknownCommand => None
  end.

(** An answer that carries nothing but an error. *)
Definition refusal (x : option coResponse) : Prop :=
  match x with
  | Some (drainOperationResponse o c) => o = zeroDrainOperation ∧ c ≠ responseOK
  | Some (stopOperationResponse o c) => o = zeroStopOperation ∧ c ≠ responseOK
  | Some (recoveryOperationResponse o c) => o = zeroRecoveryOperation ∧ c ≠ responseOK
  | Some (drainAuditsResponse l c) => l = [] ∧ c ≠ responseOK
  | None => True
  end.

(** At most an audit was written: no call was made and no table changed. *)
Definition onlyAudited (w w' : world) : Prop :=
  tables (svc w') = tables (svc w) ∧ (log w' = log w ∨ ∃ t, log w' = log w ++ [Clock t]).
Lemma onlyAudited_refl w : onlyAudited w w.
Proof. split; [done|by left]. Qed.

Section Authority.
Context {EN : Env}.

Definition refuses {X} (w : world) (m : Co X) (R : X → Prop) : Prop := onlyAudited w (m w).1 ∧ R (m w).2.

Lemma audited_only w id p a b : onlyAudited w (appendAudit id p a b w).1.
Proof.
  unfold appendAudit, gets, now, mbind, co_bind. simpl. destruct (_ <=? _); (split; [done|]); right; by eexists.
Qed.
Lemma refuses_counted {X} w id p a b name (x : X) R : R x → refuses w (_ ← appendAudit id p a b; _ ← inc name; mret x) R.
Proof.
  intros Hx. unfold refuses, mbind, co_bind. pose proof (audited_only w id p a b) as Ha.
  by destruct (appendAudit id p a b w) as [w' []].
Qed.
Lemma refuses_audited {X} w id p a b (x : X) (R : X → Prop) : R x → refuses w (_ ← appendAudit id p a b; mret x) R.
Proof.
  intros Hx. unfold refuses, mbind, co_bind. pose proof (audited_only w id p a b) as Ha.
  by destruct (appendAudit id p a b w) as [w' []].
Qed.
Lemma refuses_ret {X} w (x : X) (R : X → Prop) : R x → refuses w (mret x) R.
Proof. intros Hx. split; [apply onlyAudited_refl|done]. Qed.
Lemma refuses_bind {X Y} w (m : Co X) (f : X → Y) (R : X → Prop) (R' : Y → Prop) :
  refuses w m R → (∀ x, R x → R' (f x)) → refuses w (x ← m; mret (f x)) R'.
Proof. unfold refuses, mbind, co_bind. destruct (m w) as [w' x]. intros [H1 H2] H. split; [done|by apply H]. Qed.
Lemma code_not_ok e : codeFromError (Some e) ≠ responseOK.
Proof. by destruct e. Qed.

(** The command does not come from the gateway, or its principal is not allowed. *)
Definition unauthorized (source : ServiceRef) (p : Principal) (s : drainCoordinatorService) : Prop :=
  source ≠ Gateway (coConfig s) ∨ p ∉ AllowedPrincipals (coConfig s).

Lemma unauthorized_cases source p w : unauthorized source p (svc w) →
  (gatewaySource source (svc w) = false ∨ gatewaySource source (svc w) = true ∧ allowed p (svc w) = false).
Proof.
  unfold unauthorized, gatewaySource, allowed. intros H. destruct (decide (source = Gateway (coConfig (svc w)))) as [E|E].
  - right. split; [by apply bool_decide_true|apply bool_decide_false; tauto].
  - left. by apply bool_decide_false.
Qed.

Lemma refuses_gets {X Y} w (f : drainCoordinatorService → X) (k : X → Co Y) R :
  refuses w (k (f (svc w))) R → refuses w (gets f ≫= k) R.
Proof. done. Qed.

Lemma authorize_refuses source id p a n w :
  unauthorized source p (svc w) → refuses w (authorize source id p a n) (λ x, ∃ e, x = Some e).
Proof.
  intros H%unauthorized_cases. apply refuses_gets. destruct H as [->|[-> Ha]]; simpl; [apply refuses_ret; by eexists|].
  destruct (validRequestID id); simpl; [|apply refuses_ret; by eexists].
  destruct (validPrincipal p); simpl; [|apply refuses_ret; by eexists].
  apply refuses_gets. rewrite Ha. simpl. apply refuses_counted. by eexists.
Qed.

Lemma authorizedRecovery_refuses source id p a w :
  unauthorized source p (svc w) → refuses w (authorizedRecovery source id p a) (λ x, ∃ e, x = Err e).
Proof.
  intros H%unauthorized_cases. apply refuses_gets. destruct H as [->|[-> Ha]]; simpl; [apply refuses_ret; by eexists|].
  destruct (validRequestID id); simpl; [|apply refuses_ret; by eexists].
  destruct (validPrincipal p); simpl; [|apply refuses_ret; by eexists].
  apply refuses_gets. rewrite Ha. simpl. apply refuses_audited. by eexists.
Qed.

(** Continuing after a refusal. *)
Lemma refuses_then {X Y E} w (m : Co X) (inj : E → X) (f : E → Y) (k : X → Co Y) (R : Y → Prop) :
  refuses w m (λ x, ∃ e, x = inj e) → (∀ e, k (inj e) = mret (f e)) → (∀ e, R (f e)) → refuses w (m ≫= k) R.
Proof.
  unfold refuses, mbind, co_bind. destruct (m w) as [w' a]. intros [H1 [e He]] Hk HR. simpl in He. subst a. rewrite Hk.
  split; [done|apply HR].
Qed.

(** The three handlers that normalise a request first. *)
Lemma start_refuses source q w : unauthorized source (sdPrincipal q) (svc w) → refuses w (handleStart source q) (λ x, refusal (Some x)).
Proof.
  intros H%unauthorized_cases. apply refuses_gets. destruct H as [->|[-> Ha]]; simpl; [by apply refuses_ret|].
  destruct (normalizeStartDrainRequest q) as [m|e] eqn:Hm; [|apply refuses_ret; split; [done|apply code_not_ok]].
  assert (sdPrincipal m = sdPrincipal q) as Hp by (unfold normalizeStartDrainRequest in Hm; repeat case_match; by simplify_eq).
  apply refuses_gets. rewrite Hp, Ha. simpl. by apply refuses_counted.
Qed.
Lemma begin_stop_refuses source q w :
  unauthorized source (bsPrincipal q) (svc w) → refuses w (handleBeginStop source q) (λ x, refusal (Some x)).
Proof.
  intros H%unauthorized_cases. apply refuses_gets. destruct H as [->|[-> Ha]]; simpl; [by apply refuses_ret|].
  destruct (normalizeBeginStopRequest q) as [m|e] eqn:Hm; [|apply refuses_ret; split; [done|apply code_not_ok]].
  assert (bsPrincipal m = bsPrincipal q) as Hp by (unfold normalizeBeginStopRequest in Hm; repeat case_match; by simplify_eq).
  apply refuses_gets. rewrite Hp, Ha. simpl. by apply refuses_counted.
Qed.
Lemma begin_recovery_refuses source q w :
  unauthorized source (brPrincipal q) (svc w) → refuses w (handleBeginRecovery source q) (λ x, refusal (Some x)).
Proof.
  intros H%unauthorized_cases. apply refuses_gets. destruct H as [->|[-> Ha]]; simpl; [by apply refuses_ret|].
  destruct (normalizeBeginRecoveryRequest q) as [m|e] eqn:Hm; [|apply refuses_ret; split; [done|apply code_not_ok]].
  assert (brPrincipal m = brPrincipal q) as Hp by (unfold normalizeBeginRecoveryRequest in Hm; repeat case_match; by simplify_eq).
  apply refuses_gets. rewrite Hp, Ha. simpl. by apply refuses_audited.
Qed.
Lemma list_audit_refuses source p w :
  unauthorized source p (svc w) → refuses w (handleListAudit source p) (λ x, refusal (Some x)).
Proof.
  intros H%unauthorized_cases. apply refuses_gets. destruct H as [->|[-> Ha]]; simpl; [by apply refuses_ret|].
  destruct (validPrincipal p); simpl; [|by apply refuses_ret]. apply refuses_gets. rewrite Ha. by apply refuses_counted.
Qed.

(** C16. Only the gateway, on behalf of an allowed principal, has any effect: every
    other command is refused with an error and nothing else, makes no call, and
    changes no operation; at most an audit of the refusal is written. *)
Theorem unauthorized_refused source c p w :
  principalOf c = Some p → unauthorized source p (svc w) →
  onlyAudited w (Handle source c w).1 ∧ refusal (Handle source c w).2.
Proof.
  intros Hp Hu. destruct c; simplify_eq/=;
    (apply (refuses_bind w _ Some (λ x, refusal (Some x)));
     [eauto using start_refuses, begin_stop_refuses, begin_recovery_refuses, list_audit_refuses|done]).
  all: try (eapply (refuses_then _ _ Some); [by apply authorize_refuses|done|intros e; split; [done|apply code_not_ok]]).
  all: eapply (refuses_then _ _ Err); [by apply authorizedRecovery_refuses|done|intros e; split; [done|apply code_not_ok]].
Qed.
End Authority.

(** ** The rollout, property by property *)

Module RolloutFacts.
Import Rollout.

Definition rollout := [drain; stop; recover; confirm].

Lemma stop_orders_justified_witness : ∃ task r l2,
  log (after rollout) = take 16 (log (after rollout)) ++ StopCall agent task r :: l2
  ∧ ∃ refs k1 e k2, old_member ∈ refs ∧ take 16 (log (after rollout)) = k1 ++ e :: k2
      ∧ Forall (λ ref, guardedBy ref k1) refs ∧ Forall (λ ref, clearBy ref k2) refs.
Proof.
  set (l1 := take 16 (log (after rollout))).
  exists (mkStopTask agent "r1" old_member "pool" set1).
  exists (Ok (Some (mkStopReceipt "r1" old_member StopTargetStopped StopFailureNone 6, responseOK))).
  exists (drop 17 (log (after rollout))).
  assert (log (after rollout) = l1 ++ StopCall agent (mkStopTask agent "r1" old_member "pool" set1)
    (Ok (Some (mkStopReceipt "r1" old_member StopTargetStopped StopFailureNone 6, responseOK))) :: drop 17 (log (after rollout))) as E
    by (vm_compute; reflexivity).
  split; [exact E|].
  destruct (stop_orders_justified clock_ok service 4 (after rollout) _ _ _ _ _ (reached rollout ltac:(simpl; lia)) E)
    as (_ & _ & refs & k1 & e & set & k2 & H1 & H2 & H3 & _ & _ & H4).
  exact (ex_intro _ refs (ex_intro _ k1 (ex_intro _ e (ex_intro _ k2 (conj H1 (conj H2 (conj H3 H4))))))).
Defined.

Lemma drain_ready_sound_witness : ∃ r, operations (svc (after [drain])) !! "r1" = Some r
  ∧ readyBy set1 [old_member] (log (after [drain])).
Proof.
  set (o := operations (svc (after [drain])) !! "r1").
  assert (∃ r, o = Some r ∧ doPhase (drOperation r) = DrainReadyToStop ∧ doPublished (drOperation r) = set1
               ∧ dtRef <$> default [] (doTargets (drOperation r)) = [old_member]) as (r & Hr & Hph & Hp & Ht).
  { eexists. split_and!; [vm_compute; reflexivity|reflexivity..]. }
  exists r. split; [exact Hr|]. rewrite <- Hp, <- Ht.
  exact (proj2 (proj2 (proj2 (proj2 (drain_ready_sound clock_ok service 1 (after [drain]) "r1" r (reached [drain] ltac:(simpl; lia)) Hr Hph))))).
Defined.

Lemma coordinator_decisions_final_witness : later (svc (after [drain; stop])) (svc (run [recover; confirm] (after [drain; stop])).1).
Proof.
  apply (coordinator_decisions_final clock_ok service 2); [by apply (reached [drain; stop]); simpl; lia|].
  change u64_max with 18446744073709551615. simpl. lia.
Defined.

Lemma stop_completed_reported_witness :
  ∃ r ts, stops (svc (after [drain; stop])) !! "r1" = Some r ∧ soTargets (spOperation r) = Some ts
    ∧ Forall (λ t, stState t = StopTargetStopped ∧ receiptSeen (soRequestID (spOperation r)) t (log (after [drain; stop]))) ts.
Proof.
  set (o := stops (svc (after [drain; stop])) !! "r1").
  assert (∃ r, o = Some r ∧ soPhase (spOperation r) = StopCompleted) as (r & Hr & Hph).
  { eexists. split; [vm_compute; reflexivity|reflexivity]. }
  destruct (stop_completed_reported clock_ok service 2 (after [drain; stop]) "r1" r (reached [drain; stop] ltac:(simpl; lia)) Hr Hph)
    as (d & ts & _ & _ & Hts & _ & H).
  exact (ex_intro _ r (ex_intro _ ts (conj Hr (conj Hts H)))).
Defined.

Lemma recovery_completed_exact_witness :
  ∃ r ts, recoveries (svc (after rollout)) !! "r1" = Some r ∧ roTargets (rpOperation r) = Some ts
    ∧ Forall (λ t, rtRemoved t ∉ refsOf (roExpected (rpOperation r)) ∧ createdSeen (roRequestID (rpOperation r)) t (log (after rollout))) ts.
Proof.
  set (o := recoveries (svc (after rollout)) !! "r1").
  assert (∃ r, o = Some r ∧ roPhase (rpOperation r) = RecoveryCompleted) as (r & Hr & Hph).
  { eexists. split; [vm_compute; reflexivity|reflexivity]. }
  destruct (recovery_completed_exact clock_ok service 4 (after rollout) "r1" r (reached rollout ltac:(simpl; lia)) Hr Hph)
    as (ts & Hts & _ & _ & _ & _ & H).
  exact (ex_intro _ r (ex_intro _ ts (conj Hr (conj Hts H)))).
Defined.

Lemma audits_window_witness :
  length (audits (svc (after rollout))) = 3%nat
  ∧ ∀ i a, audits (svc (after rollout)) !! i = Some a →
      auSequence a = sequence (svc (after rollout)) - Z.of_nat (length (audits (svc (after rollout)))) + Z.of_nat i + 1.
Proof.
  split; [vm_compute; reflexivity|].
  exact (proj2 (proj2 (audits_window clock_ok service 4 (after rollout) (reached rollout ltac:(simpl; lia))))).
Defined.

Lemma coordinator_replies_accepted_witness :
  ∃ o, (Handle gateway (GetDrain "r1" "ops") (after rollout)).2 = Some (drainOperationResponse o responseOK)
       ∧ drainOperationFromResponse (Handle gateway (GetDrain "r1" "ops") (after rollout)).2 = Ok o.
Proof.
  set (x := (Handle gateway (GetDrain "r1" "ops") (after rollout)).2).
  assert (∃ o, x = Some (drainOperationResponse o responseOK)) as (o & Ho) by (eexists; vm_compute; reflexivity).
  exists o. split; [exact Ho|].
  refine (proj1 (coordinator_replies_accepted clock_ok service 4 (after rollout) gateway (GetDrain "r1" "ops")
    (reached rollout ltac:(simpl; lia)) _) o Ho).
  change u64_max with 18446744073709551615. lia.
Defined.

Lemma unauthorized_refused_witness :
  onlyAudited (after [drain]) (Handle gateway (AbandonRecovery "r1" "intruder") (after [drain])).1
  ∧ refusal (Handle gateway (AbandonRecovery "r1" "intruder") (after [drain])).2.
Proof.
  apply (unauthorized_refused gateway (AbandonRecovery "r1" "intruder") "intruder"); [reflexivity|]. right.
  apply (bool_decide_unpack _). vm_compute. exact I.
Defined.

(** A drain that removes no member can be stopped, but the copy of its empty target
    list is nil and the client refuses the answer. *)
Example empty_stop_rejected :
  let all := (gateway, StartDrain (mkStartDrain "r1" "ops" "pool" (mkVersion 7 1) [kept_member; old_member] None)) in
  let x := (Handle gateway (BeginStop (mkBeginStop "r1" "ops" [])) (after [all])).2 in
  (∃ o, x = Some (stopOperationResponse o responseOK)) ∧ stopOperationFromResponse x = Err ErrInvalidResponse.
Proof. split; [eexists; vm_compute; reflexivity|vm_compute; reflexivity]. Qed.

(** A recovery whose directory changed while a target is still pending fails with the
    pending target, an operation that the client refuses. *)
Example failed_recovery_rejected :
  let o := mkRecoveryOperation "r2" "ops" "pool" set1 zeroSet
             (Some [mkRecoveryTarget old_member agent "bp" zeroRef RecoveryTargetPending RecoveryFailureNone]) RecoveryCreating 100 100 in
  let q := mkBeginRecovery "r2" "ops" "pool" set1 [mkRecoveryTargetRequest old_member agent "bp"] in
  let r := (advanceRecovery (mkRecoveryRecord q o) (after rollout)).2 in
  validRecoveryOperation o = true ∧ roPhase (rpOperation r) = RecoveryFailed ∧ validRecoveryOperation (rpOperation r) = false.
Proof. by vm_compute. Qed.
End RolloutFacts.
