(* ===== verification/Game.v ===== *)
(** * The business layer: types, validation and effects

    The data of [src/game/types.go], the errors of [errors.go] and the
    validation of [validation.go], with the effects a business service has on the
    world.  A service handler is a program of the small state monad [G]: it reads
    and writes the service's own fields and appends what it does to a trace.  What
    the world answers (whether a [Send] is accepted, what the clock reads) is the
    instance of [Env], a function of everything that happened before. *)

From stdpp Require Import prelude gmap strings list sorting.
From Stdlib Require Import ZArith Lia.
From S2P Require Import Prelude Types GoText.

Local Open Scope Z_scope.

Abbreviation PlayerID := string (only parsing).
Abbreviation AccountID := string (only parsing).
Abbreviation BattleID := Z (only parsing).
Abbreviation RoomID := string (only parsing).
Abbreviation RequestID := string (only parsing).
Abbreviation Currency := string (only parsing).
Abbreviation Amount := Z (only parsing).

Inductive gameError :=
| ErrInvalidID | ErrInvalidRequestID | ErrInvalidParticipant | ErrRequestConflict | ErrStateConflict
| ErrUnavailable | ErrContextExpired | ErrInvalidConfig | ErrInvalidCommand | ErrInvalidSettlement
| ErrNotFound | ErrUnauthorized | ErrClosed
| ErrRuntime (e : rtError)        (** an error of the runtime, passed through *)
| ErrApplication (text : string). (** an error of application code, passed through *)

(** ** [int64] *)

Definition i64 (z : Z) : Z := (z + 2 ^ 63) mod 2 ^ 64 - 2 ^ 63.

Lemma i64_idem z : i64 (i64 z) = i64 z.
Proof. unfold i64. rewrite Z.sub_add, Zmod_mod. done. Qed.

Lemma i64_add_l a b : i64 (i64 a + b) = i64 (a + b).
Proof.
  unfold i64. f_equal.
  replace ((a + 2 ^ 63) mod 2 ^ 64 - 2 ^ 63 + b + 2 ^ 63) with ((a + 2 ^ 63) mod 2 ^ 64 + b) by lia.
  rewrite Zplus_mod_idemp_l. f_equal. lia.
Qed.

Lemma i64_small z : - 2 ^ 63 ≤ z < 2 ^ 63 → i64 z = z.
Proof. intros. unfold i64. rewrite Z.mod_small by lia. lia. Qed.

(** ** Settlements *)

Inductive SettlementState :=
| SettlementPending | SettlementCommitted | SettlementRejected
| SettlementOther (text : string).   (** any other string, the zero value included *)

#[global] Instance SettlementState_eq_dec : EqDecision SettlementState.
Proof. solve_decision. Defined.

Record Balance := mkBalance { balPlayer : PlayerID; balCurrency : Currency; balAmount : Amount }.
Record SettlementEntry := mkEntry { Player : PlayerID; Delta : Amount }.

#[global] Instance Balance_eq_dec : EqDecision Balance.
Proof. solve_decision. Defined.
#[global] Instance SettlementEntry_eq_dec : EqDecision SettlementEntry.
Proof. solve_decision. Defined.

Record SettlementRequest := mkRequest {
  ReqID : RequestID; ReqSource : ServiceRef; ReqCurrency : Currency; Entries : list SettlementEntry
}.
Record SettlementResult := mkSettlement {
  ResID : RequestID; ResState : SettlementState; ResCurrency : Currency; Balances : list Balance;
  Reason : string
}.
Record LedgerRecord := mkLedgerRecord { recRequest : SettlementRequest; recResult : SettlementResult }.
Record LedgerTask := mkTask {
  taskWallet : ServiceRef; taskSource : ServiceRef; taskRequest : SettlementRequest
}.

#[global] Instance SettlementRequest_eq_dec : EqDecision SettlementRequest.
Proof. solve_decision. Defined.
#[global] Instance SettlementResult_eq_dec : EqDecision SettlementResult.
Proof. solve_decision. Defined.

(** Go's [SettlementResult{}]. *)
Definition zeroSettlement : SettlementResult := mkSettlement "" (SettlementOther "") "" [] "".

Definition terminal (st : SettlementState) : bool :=
  match st with SettlementCommitted | SettlementRejected => true | _ => false end.

(** ** Battle input *)

(** [Settlements] may be nil, which [reflect.DeepEqual] tells from empty; the
    entries of an accepted intent are never empty. *)
Record SettlementIntent := mkIntent {
  intID : RequestID; intCurrency : Currency; intEntries : list SettlementEntry
}.
Record FinishBattle := mkFinish { finID : RequestID; Settlements : option (list SettlementIntent) }.

#[global] Instance SettlementIntent_eq_dec : EqDecision SettlementIntent.
Proof. solve_decision. Defined.
#[global] Instance FinishBattle_eq_dec : EqDecision FinishBattle.
Proof. solve_decision. Defined.

Record Participant := mkParticipant { parPlayer : PlayerID; parRef : ServiceRef }.

(** ** Validation *)

Definition maxBusinessIDBytes : Z := 128.

Definition validText (value : string) (limit : Z) : bool :=
  bool_decide (value ≠ "") && ValidString value && bool_decide (TrimSpace value = value)
  && (Z.of_nat (String.length value) <=? limit).

Definition validateID (value : string) : bool := validText value maxBusinessIDBytes.
Definition validateRequestID (value : RequestID) : bool := validText value maxBusinessIDBytes.

Definition validServiceRef (ref : ServiceRef) : bool :=
  bool_decide (Node ref ≠ "") && negb (ID ref =? 0).

(** The loop over the entries, with the previous player. *)
Fixpoint validEntries (first : bool) (previous : PlayerID) (l : list SettlementEntry) : bool :=
  match l with
  | [] => true
  | e :: l =>
      validateID (Player e) && negb (Delta e =? 0) && (first || String.ltb previous (Player e))
      && validEntries false (Player e) l
  end.

Definition validateSettlementRequest (r : SettlementRequest) : bool :=
  validateRequestID (ReqID r) && validServiceRef (ReqSource r)
  && validText (ReqCurrency r) maxBusinessIDBytes
  && negb (Z.of_nat (length (Entries r)) =? 0) && (Z.of_nat (length (Entries r)) <=? 256)
  && validEntries true "" (Entries r).

Definition validateSettlementIntent (i : SettlementIntent) : bool :=
  validateSettlementRequest (mkRequest (intID i) (mkRef "intent" 1) (intCurrency i) (intEntries i)).

Definition sameSettlementRequest (a b : SettlementRequest) : bool :=
  bool_decide (ReqID a = ReqID b) && bool_decide (ReqSource a = ReqSource b)
  && bool_decide (ReqCurrency a = ReqCurrency b) && bool_decide (Entries a = Entries b).

Lemma sameSettlementRequest_spec a b : sameSettlementRequest a b = true ↔ a = b.
Proof.
  unfold sameSettlementRequest. rewrite !andb_true_iff, !bool_decide_eq_true.
  destruct a, b; simpl. naive_solver.
Qed.

Lemma sameSettlementRequest_false a b : sameSettlementRequest a b = false ↔ a ≠ b.
Proof. rewrite <- sameSettlementRequest_spec. by destruct (sameSettlementRequest a b). Qed.

(** Valid entries name every player once. *)
Lemma validEntries_sorted l : ∀ first prev,
  validEntries first prev l = true →
  StronglySorted (λ a b, String.ltb a b = true) (Player <$> l)
  ∧ (first = false → Forall (λ p, String.ltb prev p = true) (Player <$> l)).
Proof.
  induction l as [|e l IH]; intros first prev H; [by split; [constructor|intros; constructor]|].
  simpl in H. bool_prop. destruct (IH false (Player e)) as [HS HF]; [done|]. specialize (HF eq_refl).
  split; [by constructor|]. intros ->. simpl in *. constructor; [done|].
  eapply Forall_impl; [exact HF|]. intros p Hp. by eapply ltb_trans.
Qed.

Lemma validEntries_NoDup l : validEntries true "" l = true → NoDup (Player <$> l).
Proof.
  intros [HS _]%validEntries_sorted. revert HS. generalize (Player <$> l). clear l. intros l.
  induction 1 as [|p l _ IH Hp]; constructor; [|done].
  intros Hin. rewrite Forall_forall in Hp. specialize (Hp p Hin). by rewrite ltb_irrefl in Hp.
Qed.

(** ** Effects *)

Record timelineFire := mkFire { fireID : Z; fireRevision : Z; fireCommand : CommandID }.

Record BattleCreateRequest := mkCreate {
  creID : RequestID; creRoom : RoomID; crePlayers : list PlayerID
}.

#[global] Instance BattleCreateRequest_eq_dec : EqDecision BattleCreateRequest.
Proof. solve_decision. Defined.

Section Effects.
(** [V] is the application's payload type, [R] the type of the service's replies. *)
Context {V R : Type}.

Inductive message :=
| MsgCommit (r : SettlementRequest)
| MsgResult (r : SettlementResult)
| MsgFire (f : timelineFire)
| MsgApp (v : V).

Inductive effect :=
| Sent (target : ServiceRef) (c : CommandID) (m : message) (answer : error rtError)
| Replied (v : R) (answer : error rtError)
| TimerSet (delay : Duration) (c : CommandID) (m : message) (answer : error rtError)
| Submitted (t : LedgerTask) (answer : error gameError)
| Requested (r : BattleCreateRequest) (answer : error gameError)
| Counted (name : string)
| ClockRead (t : Time).

(** The world: what it answers, given everything that happened before. *)
Class Env := {
  self : ServiceRef;
  source : ServiceRef;
  ansSend : list effect → ServiceRef → CommandID → message → error rtError;
  ansReply : list effect → R → error rtError;
  ansAfter : list effect → Duration → CommandID → message → error rtError;
  ansSubmit : list effect → LedgerTask → error gameError;
  ansRequest : list effect → BattleCreateRequest → error gameError;
  ansClock : list effect → Time
}.

Record world (S : Type) := mkWorld { svc : S; trace : list effect }.
Definition G (S X : Type) : Type := world S → world S * X.
End Effects.
Arguments message V : clear implicits.
Arguments effect V R : clear implicits.
Arguments Env V R : clear implicits.
Arguments world V R S : clear implicits.
Arguments G V R S X : clear implicits.
Arguments svc {_ _ _} _.
Arguments trace {_ _ _} _.
Arguments mkWorld {_ _ _} _ _.

Section Monad.
Context {V R S : Type}.
Local Notation M := (G V R S).

Definition gret {X} (x : X) : M X := λ w, (w, x).
Definition gbind {X Y} (k : X → M Y) (c : M X) : M Y := λ w, let '(w, x) := c w in k x w.
Definition get {X} (f : S → X) : M X := λ w, (w, f (svc w)).
Definition put (f : S → S) : M unit := λ w, (mkWorld (f (svc w)) (trace w), tt).
Definition emit (e : effect V R) : M unit := λ w, (mkWorld (svc w) (trace w ++ [e]), tt).
Definition asks {X} (f : list (effect V R) → X) : M X := λ w, (w, f (trace w)).
End Monad.

Declare Scope game_scope.
Delimit Scope game_scope with game.
Notation "x ← c ; k" := (gbind (λ x, k) c)
  (at level 20, c at level 100, k at level 200, right associativity) : game_scope.
Notation "c ;; k" := (gbind (λ _, k) c)
  (at level 100, k at level 200, right associativity) : game_scope.

Section Operations.
Context {V R S : Type} {E : Env V R}.
Local Notation M := (G V R S).
Local Open Scope game_scope.

(** [ServiceContext.Send], [CommandContext.Reply], [ServiceContext.After], [Now],
    [Metrics().Inc]. *)
Definition send (target : ServiceRef) (c : CommandID) (m : message V) : M (error rtError) :=
  a ← asks (λ t, ansSend t target c m);
  emit (Sent target c m a) ;; gret a.
Definition after (delay : Duration) (c : CommandID) (m : message V) : M (error rtError) :=
  a ← asks (λ t, ansAfter t delay c m);
  emit (TimerSet delay c m a) ;; gret a.
Definition readNow : M Time :=
  t ← asks ansClock;
  emit (ClockRead t) ;; gret t.
Definition count (name : string) : M unit := emit (Counted name).
Definition submit (t : LedgerTask) : M (error gameError) :=
  a ← asks (λ tr, ansSubmit tr t);
  emit (Submitted t a) ;; gret a.
Definition requestBattle (r : BattleCreateRequest) : M (error gameError) :=
  a ← asks (λ tr, ansRequest tr r);
  emit (Requested r a) ;; gret a.

(** [reply]: a command that came by [Send] has nobody to answer, which is fine. *)
Definition reply (v : R) : M (error gameError) :=
  a ← asks (λ t, ansReply t v);
  emit (Replied v a) ;;
  gret (match a with
        | None => None
        | Some e => if errors_Is e ErrReplyUnavailable then None else Some (ErrRuntime e)
        end).
End Operations.
