(* ===== verification/Ledger.v ===== *)
(** * The ledger

    [src/game/memory_ledger.go], the in-memory [LedgerStore], and the work of a
    ledger runner ([processLedgerTask] and [LedgerRunner.Submit] of
    [ledger_runner.go]) against any store.  [ledger_refines] relates the store to
    its specification: a set of accepted requests, from which every balance
    follows. *)

From stdpp Require Import prelude gmap strings list sorting relations.
From Stdlib Require Import ZArith Lia.
From S2P Require Import Prelude Types GoText Game.

Local Open Scope Z_scope.

(** [LedgerStore].  The first argument is the error of the context, if any. *)
Class LedgerStore (St : Type) := {
  Commit : error gameError → LedgerRecord → St → St * res gameError SettlementResult;
  Lookup : error gameError → RequestID → St → res gameError (option SettlementResult)
}.

Record MemoryLedgerStore := mkStore {
  records : gmap RequestID LedgerRecord;
  balances : gmap Currency (gmap PlayerID Amount)
}.

Definition NewMemoryLedgerStore : MemoryLedgerStore := mkStore ∅ ∅.

(** The loop over the entries. *)
Definition applyEntry (currency : Currency) (acc : gmap PlayerID Amount * list Balance)
    (e : SettlementEntry) : gmap PlayerID Amount * list Balance :=
  let amount := i64 (default 0 (acc.1 !! Player e) + Delta e) in
  (<[Player e := amount]> acc.1, acc.2 ++ [mkBalance (Player e) currency amount]).

Definition memoryCommit (ctx : error gameError) (record : LedgerRecord) (s : MemoryLedgerStore)
  : MemoryLedgerStore * res gameError SettlementResult :=
  match ctx with
  | Some e => (s, Err e)
  | None =>
      let r := recRequest record in
      if negb (validateSettlementRequest r) then (s, Err ErrInvalidSettlement)
      else
        match records s !! ReqID r with
        | Some current =>
            if negb (sameSettlementRequest (recRequest current) r) then (s, Err ErrRequestConflict)
            else (s, Ok (recResult current))
        | None =>
            let old := default ∅ (balances s !! ReqCurrency r) in
            let '(new, list) := foldl (applyEntry (ReqCurrency r)) (old, []) (Entries r) in
            let result := mkSettlement (ReqID r) SettlementCommitted (ReqCurrency r) list "" in
            (mkStore (<[ReqID r := mkLedgerRecord r result]> (records s))
               (<[ReqCurrency r := new]> (balances s)), Ok result)
        end
  end.

Definition memoryLookup (ctx : error gameError) (id : RequestID) (s : MemoryLedgerStore)
  : res gameError (option SettlementResult) :=
  match ctx with
  | Some e => Err e
  | None => if negb (validateRequestID id) then Err ErrInvalidRequestID
            else Ok (recResult <$> records s !! id)
  end.

#[global] Instance memory_store : LedgerStore MemoryLedgerStore :=
  {| Commit := memoryCommit; Lookup := memoryLookup |}.

(** ** The runner's work *)

Record runnerResult := mkRunnerResult { rrResult : SettlementResult; rrTerminal : bool }.

(** [processLedgerTask] makes two calls of the store, each under the store's own
    lock: first [Lookup], which answers the task if the identifier is known ([None]:
    it is not) or the context is over, *)
Definition lookupTask `{LedgerStore St} (ctx : error gameError) (request : SettlementRequest) (s : St)
  : option runnerResult :=
  match Lookup ctx (ReqID request) s with
  | Err _ => Some (mkRunnerResult zeroSettlement false)
  | Ok (Some r) => Some (mkRunnerResult r (terminal (ResState r)))
  | Ok None => None
  end.

(** then [Commit], *)
Definition commitTask `{LedgerStore St} (ctx : error gameError) (request : SettlementRequest) (s : St)
  : St * runnerResult :=
  let '(s, c) := Commit ctx (mkLedgerRecord request zeroSettlement) s in
  match c with
  | Err _ => (s, mkRunnerResult zeroSettlement false)
  | Ok r => (s, mkRunnerResult r (terminal (ResState r)))
  end.

(** with whatever other workers do to the store in between.  The deadline may pass
    before either call: one context error each. *)
Definition processLedgerTask `{LedgerStore St} (ctx1 ctx2 : error gameError) (others : St → St)
    (request : SettlementRequest) (s : St) : St * runnerResult :=
  match lookupTask ctx1 request s with
  | Some rr => (s, rr)
  | None => commitTask ctx2 request (others s)
  end.

(** [LedgerRunner.Submit] before it queues the task on the core runner. *)
Definition submitError (t : LedgerTask) (queueErr : bool) : error gameError :=
  if negb (validServiceRef (taskWallet t)) || negb (validServiceRef (taskSource t))
     || negb (validateSettlementRequest (taskRequest t))
     || bool_decide (ReqSource (taskRequest t) ≠ taskSource t)
  then Some ErrInvalidSettlement
  else if queueErr then Some ErrUnavailable else None.

(** ** The specification: accepted requests *)

Definition entryDelta (p : PlayerID) (e : SettlementEntry) : Z := if bool_decide (Player e = p) then Delta e else 0.

Definition sumZ (l : list Z) : Z := foldr Z.add 0 l.

(** What a request moves on one account. *)
Definition deltaOf (cur : Currency) (p : PlayerID) (r : SettlementRequest) : Z :=
  if bool_decide (ReqCurrency r = cur) then sumZ (entryDelta p <$> Entries r) else 0.

Definition sumDeltas (cur : Currency) (p : PlayerID) (m : gmap RequestID LedgerRecord) : Z :=
  map_fold (λ _ rec acc, deltaOf cur p (recRequest rec) + acc) 0 m.

Definition balanceOf (s : MemoryLedgerStore) (cur : Currency) (p : PlayerID) : Amount :=
  default 0 (default ∅ (balances s !! cur) !! p).

Lemma sumDeltas_insert cur p m id rec :
  m !! id = None → sumDeltas cur p (<[id := rec]> m) = deltaOf cur p (recRequest rec) + sumDeltas cur p m.
Proof. intros H. unfold sumDeltas. rewrite map_fold_insert_L; [done|intros; lia|done]. Qed.

Lemma sum_cons p e l : sumZ (entryDelta p <$> e :: l) = entryDelta p e + sumZ (entryDelta p <$> l).
Proof. done. Qed.

Lemma applyEntries_balance cur p l : ∀ m out,
  i64 (default 0 (m !! p)) = default 0 (m !! p) →
  default 0 ((foldl (applyEntry cur) (m, out) l).1 !! p)
  = i64 (default 0 (m !! p) + sumZ (entryDelta p <$> l)).
Proof.
  induction l as [|e l IH]; intros m out Hm; [simpl; by rewrite Z.add_0_r|].
  rewrite sum_cons. cbn [foldl]. unfold applyEntry at 2. cbn [fst snd].
  assert (Hp : default 0 (<[Player e := i64 (default 0 (m !! Player e) + Delta e)]> m !! p)
               = i64 (default 0 (m !! p) + entryDelta p e)).
  { unfold entryDelta. destruct (decide (Player e = p)) as [<-|Hne].
    - by rewrite lookup_insert_eq, bool_decide_true.
    - by rewrite lookup_insert_ne, bool_decide_false, Z.add_0_r. }
  rewrite IH; rewrite Hp; [|by rewrite i64_idem]. rewrite i64_add_l. f_equal. lia.
Qed.

Record record_ok (id : RequestID) (rec : LedgerRecord) : Prop := {
  ro_id : ReqID (recRequest rec) = id;
  ro_valid : validateSettlementRequest (recRequest rec) = true;
  ro_result : ResID (recResult rec) = id ∧ ResState (recResult rec) = SettlementCommitted
              ∧ ResCurrency (recResult rec) = ReqCurrency (recRequest rec)
}.

Record ledger_inv (s : MemoryLedgerStore) : Prop := {
  li_records : map_Forall record_ok (records s);
  li_balances : ∀ cur p, balanceOf s cur p = i64 (sumDeltas cur p (records s))
}.

(** Committing a request whose identifier is new. *)
Lemma commit_fresh s r new out :
  ledger_inv s → records s !! ReqID r = None → validateSettlementRequest r = true →
  foldl (applyEntry (ReqCurrency r)) (default ∅ (balances s !! ReqCurrency r), []) (Entries r) = (new, out) →
  ledger_inv (mkStore (<[ReqID r := mkLedgerRecord r (mkSettlement (ReqID r) SettlementCommitted (ReqCurrency r) out "")]> (records s))
               (<[ReqCurrency r := new]> (balances s))).
Proof.
  intros [Hr Hb] Hfresh Hv Hf. split; simpl.
  - by apply map_Forall_insert_2.
  - intros cur p. rewrite sumDeltas_insert by done. unfold deltaOf. simpl.
    specialize (Hb cur p). unfold balanceOf in *. simpl.
    destruct (decide (ReqCurrency r = cur)) as [<-|Hne].
    + rewrite lookup_insert_eq, bool_decide_true by done. cbn [default from_option id].
      pose proof (applyEntries_balance (ReqCurrency r) p (Entries r) (default ∅ (balances s !! ReqCurrency r)) []) as H.
      rewrite Hf, Hb in H. cbn [fst] in H. unfold default, id in *. rewrite H by by rewrite i64_idem.
      rewrite i64_add_l. f_equal. lia.
    + rewrite lookup_insert_ne, bool_decide_false by done. exact Hb.
Qed.

(** ** Every commit, against the specification *)

Inductive ledger_step (s : MemoryLedgerStore) : MemoryLedgerStore → Prop :=
| ledger_commit ctx rec : ledger_step s (memoryCommit ctx rec s).1.

Definition ledger_reachable (s : MemoryLedgerStore) : Prop := rtc ledger_step NewMemoryLedgerStore s.

Lemma commit_inv ctx rec s : ledger_inv s → ledger_inv (memoryCommit ctx rec s).1.
Proof.
  intros Hi. unfold memoryCommit. destruct ctx; [done|].
  destruct (validateSettlementRequest (recRequest rec)) eqn:Hv; [|done]. simpl.
  destruct (records s !! ReqID (recRequest rec)) as [cur|] eqn:Hr; [by case_match|].
  destruct (foldl _ _ _) as [new out] eqn:Hf. by apply commit_fresh.
Qed.

Lemma ledger_reachable_inv s : ledger_reachable s → ledger_inv s.
Proof.
  intros H. assert (ledger_inv NewMemoryLedgerStore) as H0 by by split.
  revert H0. induction H as [|s1 s2 s3 [ctx rec] _ IH]; [done|]. intros. apply IH. by apply commit_inv.
Qed.

(** C18. The ledger is exactly its set of accepted requests.  After any sequence of
    commits, with retries, conflicting reuse of identifiers and failing contexts,
    every balance is the sum (in 64-bit arithmetic) of what the accepted requests
    move on that account, each counted once; a commit accepts a request if its
    identifier is new, answers the stored result without touching anything if the
    same request was accepted before, and otherwise refuses without touching
    anything. *)
Theorem ledger_refines s rec :
  ledger_reachable s →
  (∀ cur p, balanceOf s cur p = i64 (sumDeltas cur p (records s)))
  ∧ match memoryCommit None rec s with
    | (s', Ok result) =>
        recResult <$> records s' !! ReqID (recRequest rec) = Some result
        ∧ recRequest <$> records s' !! ReqID (recRequest rec) = Some (recRequest rec)
        ∧ ResState result = SettlementCommitted
        ∧ (records s !! ReqID (recRequest rec) = None
             ∧ records s' = <[ReqID (recRequest rec) := mkLedgerRecord (recRequest rec) result]> (records s)
           ∨ s' = s)
    | (s', Err e) =>
        s' = s ∧ (e = ErrInvalidSettlement ∧ validateSettlementRequest (recRequest rec) = false
                  ∨ e = ErrRequestConflict
                    ∧ ∃ other, recRequest <$> records s !! ReqID (recRequest rec) = Some other
                               ∧ other ≠ recRequest rec)
    end.
Proof.
  intros Hs%ledger_reachable_inv. split; [apply Hs|]. unfold memoryCommit.
  destruct (validateSettlementRequest (recRequest rec)) eqn:Hv; simpl; [|eauto].
  destruct (records s !! ReqID (recRequest rec)) as [cur|] eqn:Hr; simpl.
  - destruct (sameSettlementRequest _ _) eqn:Hsame; simpl.
    + apply sameSettlementRequest_spec in Hsame. rewrite Hr, <- Hsame. simpl.
      destruct (li_records _ Hs _ _ Hr) as [_ _ (_ & ? & _)]. eauto 6.
    + apply sameSettlementRequest_false in Hsame. eauto 6.
  - destruct (foldl _ _ _) as [new out] eqn:Hf. simpl. rewrite lookup_insert_eq. simpl. eauto 6.
Qed.

Definition demoRequest (id : RequestID) (d : Amount) : SettlementRequest :=
  mkRequest id (mkRef "game" 4) "coin" [mkEntry "alice" d; mkEntry "bob" (- d)].
Definition demoLedger : MemoryLedgerStore :=
  (memoryCommit None (mkLedgerRecord (demoRequest "r2" 5) zeroSettlement)
    (memoryCommit None (mkLedgerRecord (demoRequest "r1" 10) zeroSettlement) NewMemoryLedgerStore).1).1.

Lemma ledger_refines_witness :
  balanceOf demoLedger "coin" "alice" = 15
  ∧ i64 (sumDeltas "coin" "bob" (records demoLedger)) = -15.
Proof.
  destruct (ledger_refines demoLedger (mkLedgerRecord (demoRequest "r1" 10) zeroSettlement)) as [H _].
  - eapply rtc_l; [apply ledger_commit|]. eapply rtc_l; [apply ledger_commit|]. apply rtc_refl.
  - split; [by vm_compute|]. rewrite <- H. by vm_compute.
Defined.

(** ** The runner *)

(** What a lookup answers is the stored result under that identifier. *)
Lemma lookupTask_spec c r s rr :
  lookupTask c r s = Some rr → rrTerminal rr = true → recResult <$> records s !! ReqID r = Some (rrResult rr).
Proof.
  unfold lookupTask. cbn [Lookup memory_store]. unfold memoryLookup.
  destruct c; [by intros [= <-]|]. destruct (validateRequestID (ReqID r)); simpl; [|by intros [= <-]].
  destruct (records s !! ReqID r); [|done]. by intros [= <-].
Qed.

(** A commit leaves the store as it is or accepts the request, whose identifier was
    then new, and a terminal answer is the stored result under that identifier. *)
Lemma commitTask_spec c r s s' rr :
  ledger_inv s → commitTask c r s = (s', rr) →
  ledger_inv s'
  ∧ (s' = s ∨ records s !! ReqID r = None
        ∧ ∃ res, records s' = <[ReqID r := mkLedgerRecord r res]> (records s))
  ∧ (rrTerminal rr = true → recResult <$> records s' !! ReqID r = Some (rrResult rr)).
Proof.
  intros Hi. unfold commitTask. cbn [Commit memory_store].
  pose proof (commit_inv c (mkLedgerRecord r zeroSettlement) s Hi) as Hi'.
  destruct (memoryCommit _ _ _) as [s1 x] eqn:Hc. cbn [fst] in Hi'.
  unfold memoryCommit in Hc. cbn [recRequest] in Hc.
  destruct c; [simplify_eq; intros [= <- <-]; split_and!; [done|by left|done]|].
  destruct (validateSettlementRequest r); [|simplify_eq/=; intros [= <- <-]; split_and!; [done|by left|done]].
  cbn [negb] in Hc. destruct (records s !! ReqID r) as [cur|] eqn:Hr.
  - destruct (sameSettlementRequest _ _); simplify_eq/=; intros [= <- <-]; split_and!; try done; try by left.
    intros _. simpl. by rewrite Hr.
  - destruct (foldl _ _ _) as [new out]. simplify_eq. intros [= <- <-].
    split; [done|]. split; [right; simpl; eauto|]. intros _. simpl. by rewrite lookup_insert_eq.
Qed.

(** ** A conflict the runner does not see *)

(** [processLedgerTask] looks the identifier up before it commits and never
    compares requests: a second request that reuses the identifier is answered with
    the committed result of the first, although the store refuses it. *)
Theorem lookup_hides_conflict :
  let s := (memoryCommit None (mkLedgerRecord (demoRequest "r1" 10) zeroSettlement) NewMemoryLedgerStore).1 in
  let other := demoRequest "r1" 99 in
  (memoryCommit None (mkLedgerRecord other zeroSettlement) s).2 = Err ErrRequestConflict
  ∧ rrTerminal (processLedgerTask None None id other s).2 = true
  ∧ Some (rrResult (processLedgerTask None None id other s).2) = recResult <$> records s !! "r1".
Proof. by vm_compute. Qed.
