(* ===== verification/Wallet.v ===== *)
(** * The wallet service

    [src/game/wallet.go]: settlement requests by identifier, their results, and a
    projection of the balances.  The wallet never touches the ledger: it submits
    tasks to an executor and is told the results by a private command. *)

From stdpp Require Import prelude gmap strings list sorting.
From Stdlib Require Import ZArith Lia.
From S2P Require Import Prelude Types GoText Game Ledger.

Local Open Scope Z_scope.
Local Open Scope game_scope.

Definition ApplySettlementResultCommand : CommandID := 0x03000105.
Definition CommitSettlementCommand : CommandID := 0x03000501.

Record ledgerResult := mkLedgerResult {
  lrRequest : SettlementRequest; lrResult : SettlementResult; lrTerminal : bool
}.

Record WalletService := mkWallet {
  maxPending : Z;
  runnerNode : NodeID;
  requests : gmap RequestID SettlementRequest;
  results : gmap RequestID SettlementResult;
  walletBalances : gmap Currency (gmap PlayerID Amount)
}.

(** [hasExecutor] tells whether [config.Executor] is not nil. *)
Definition NewWalletService (hasExecutor : bool) (maxPending : Z) (runnerNode : NodeID)
  : res gameError WalletService :=
  if negb hasExecutor || (maxPending <=? 0) || bool_decide (runnerNode = "") then Err ErrInvalidConfig
  else Ok (mkWallet maxPending runnerNode ∅ ∅ ∅).

Definition set_request (id : RequestID) (r : SettlementRequest) (s : WalletService) :=
  mkWallet (maxPending s) (runnerNode s) (<[id := r]> (requests s)) (results s) (walletBalances s).
Definition set_result (id : RequestID) (r : SettlementResult) (s : WalletService) :=
  mkWallet (maxPending s) (runnerNode s) (requests s) (<[id := r]> (results s)) (walletBalances s).
Definition set_balances (b : gmap Currency (gmap PlayerID Amount)) (s : WalletService) :=
  mkWallet (maxPending s) (runnerNode s) (requests s) (results s) b.

Definition resultOf (s : WalletService) (id : RequestID) : SettlementResult :=
  default zeroSettlement (results s !! id).

Definition pendingCount (s : WalletService) : Z :=
  Z.of_nat (size (filter (λ e, ResState e.2 = SettlementPending) (results s))).

(** The loop that copies committed balances into the projection. *)
Definition projectBalances (l : list Balance) (b : gmap Currency (gmap PlayerID Amount))
  : gmap Currency (gmap PlayerID Amount) :=
  foldl (λ b x, <[balCurrency x := <[balPlayer x := balAmount x]> (default ∅ (b !! balCurrency x))]> b) b l.

Inductive walletReply := RSettlement (r : SettlementResult) | RBalance (b : Balance).

Inductive walletKind := KCommit | KGetSettlement | KGetBalance | KApply | KRecover.

Inductive walletCommand :=
| CommitSettlement (r : SettlementRequest)
| GetSettlement (id : RequestID)
| GetBalance (player : PlayerID) (currency : Currency)
| ApplyLedgerResult (failed : bool) (v : ledgerResult)     (** a [RunnerResult]; [failed]: [Err] is set *)
| RecoverSettlement (id : RequestID)
| WalletBadPayload (k : walletKind)
| WalletUnknown.

Section Wallet.
Context {V : Type} {E : Env V walletReply}.
Local Notation M := (G V walletReply WalletService).

Definition commit (r : SettlementRequest) : M (error gameError) :=
  if negb (validateSettlementRequest r) || bool_decide (ReqSource r ≠ source)
  then gret (Some ErrInvalidSettlement)
  else
    s ← get (λ s, s);
    match requests s !! ReqID r with
    | Some current =>
        if negb (sameSettlementRequest current r) then gret (Some ErrRequestConflict)
        else reply (RSettlement (resultOf s (ReqID r)))
    | None =>
        if maxPending s <=? pendingCount s then gret (Some ErrUnavailable)
        else
          let pending := mkSettlement (ReqID r) SettlementPending (ReqCurrency r) [] "" in
          put (set_request (ReqID r) r) ;;
          put (set_result (ReqID r) pending) ;;
          err ← submit (mkTask self (ReqSource r) r);
          match err with
          | Some _ =>
              let rejected := mkSettlement (ReqID r) SettlementRejected (ReqCurrency r) [] "unavailable" in
              put (set_result (ReqID r) rejected) ;;
              reply (RSettlement rejected)
          | None => reply (RSettlement pending)
          end
    end.

(** The runtime as the sender of runner results. *)
Definition fromRunner (s : WalletService) : bool := bool_decide (source = mkRef (runnerNode s) 0).

Definition apply (a : ledgerResult) : M (error gameError) :=
  s ← get (λ s, s);
  if negb (fromRunner s) then gret (Some ErrUnauthorized)
  else
    match requests s !! ReqID (lrRequest a) with
    | None => gret (Some ErrNotFound)
    | Some request =>
        if negb (sameSettlementRequest request (lrRequest a)) then gret (Some ErrNotFound)
        else if negb (lrTerminal a) then reply (RSettlement (resultOf s (ReqID request)))
        else if negb (terminal (ResState (lrResult a)))
                || bool_decide (ResID (lrResult a) ≠ ReqID request)
                || bool_decide (ResCurrency (lrResult a) ≠ ReqCurrency request)
        then gret (Some ErrInvalidSettlement)
        else
          let current := resultOf s (ReqID request) in
          if bool_decide (ResState current ≠ SettlementPending) then reply (RSettlement current)
          else
            let result := lrResult a in
            put (set_result (ReqID request) result) ;;
            (if bool_decide (ResState result = SettlementCommitted)
             then put (λ s, set_balances (projectBalances (Balances result) (walletBalances s)) s)
             else gret tt) ;;
            err ← send (ReqSource request) ApplySettlementResultCommand (MsgResult result);
            (match err with
             | Some _ => count "wallet_result_notify_failed_total"
             | None => gret tt
             end) ;;
            reply (RSettlement result)
    end.

Definition recover (id : RequestID) : M (error gameError) :=
  s ← get (λ s, s);
  match requests s !! id with
  | None => gret (Some ErrNotFound)
  | Some request =>
      if bool_decide (ResState (resultOf s id) ≠ SettlementPending)
      then reply (RSettlement (resultOf s id))
      else
        err ← submit (mkTask self (ReqSource request) request);
        match err with
        | Some _ => gret (Some ErrUnavailable)
        | None => reply (RSettlement (resultOf s id))
        end
  end.

Definition getSettlement (id : RequestID) : M (error gameError) :=
  if negb (validateRequestID id) then gret (Some ErrInvalidRequestID)
  else
    s ← get (λ s, s);
    match results s !! id with
    | None => gret (Some ErrNotFound)
    | Some r => reply (RSettlement r)
    end.

Definition getBalance (player : PlayerID) (currency : Currency) : M (error gameError) :=
  if negb (validateID player) || negb (validText currency maxBusinessIDBytes)
  then gret (Some ErrInvalidCommand)
  else
    s ← get (λ s, s);
    reply (RBalance (mkBalance player currency
                       (default 0 (default ∅ (walletBalances s !! currency) !! player)))).

Definition Handle (c : walletCommand) : M (error gameError) :=
  match c with
  | CommitSettlement r => commit r
  | GetSettlement id => getSettlement id
  | GetBalance p cur => getBalance p cur
  | ApplyLedgerResult failed v =>
      s ← get (λ s, s);
      if negb (fromRunner s) then gret (Some ErrUnauthorized)
      else if failed then gret None
      else apply v
  | RecoverSettlement id =>
      if negb (validateRequestID id) then gret (Some ErrInvalidRequestID) else recover id
  | WalletBadPayload k =>
      gret (Some (match k with
                  | KCommit | KApply => ErrInvalidSettlement
                  | KGetSettlement | KRecover => ErrInvalidRequestID
                  | KGetBalance => ErrInvalidCommand
                  end))
  | WalletUnknown => gret (Some (ErrRuntime (Sentinel ErrUnknownCommand)))
  end.

(** One command, its trace starting empty. *)
Definition runWallet (c : walletCommand) (s : WalletService)
  : WalletService * list (effect V walletReply) * error gameError :=
  let '(w, e) := Handle c (mkWorld s []) in (svc w, trace w, e).
End Wallet.
Arguments runWallet {V} E c s.
