(* ===== verification/WalletFacts.v ===== *)
(** * What the wallet guarantees

    What one command does to the wallet ([wallet_effect]), and the wallet together
    with its runner and its ledger as a transition system ([sys_step]): tasks and
    results are delivered in any order, or lost. *)

From stdpp Require Import prelude gmap strings list sorting relations.
From Stdlib Require Import ZArith Lia.
From S2P Require Import Prelude Types GoText Game Ledger Wallet.

Local Open Scope Z_scope.

Section Facts.
Context {V : Type}.
Local Notation trace := (list (effect V walletReply)) (only parsing).

(** The tasks an execution handed to the executor, and the results it sent. *)
Definition accepted (tr : trace) : list LedgerTask :=
  omap (λ e, match e with Submitted t None => Some t | _ => None end) tr.
Definition notices (tr : trace) : list (ServiceRef * SettlementResult) :=
  omap (λ e, match e with Sent target _ (MsgResult r) _ => Some (target, r) | _ => None end) tr.

Record wallet_inv (s : WalletService) : Prop := {
  wi_requests : map_Forall (λ id r, ReqID r = id ∧ validateSettlementRequest r = true) (requests s);
  wi_results : map_Forall (λ id r, ResID r = id
                 ∧ ∃ q, requests s !! id = Some q ∧ ResCurrency r = ReqCurrency q) (results s);
  wi_known : ∀ id q, requests s !! id = Some q → is_Some (results s !! id)
}.

Definition pendingResult (r : SettlementRequest) : SettlementResult :=
  mkSettlement (ReqID r) SettlementPending (ReqCurrency r) [] "".
Definition unavailableResult (r : SettlementRequest) : SettlementResult :=
  mkSettlement (ReqID r) SettlementRejected (ReqCurrency r) [] "unavailable".

(** What a command does: nothing to the tables, accept a request, or settle one. *)
Inductive wallet_effect (E : Env V walletReply) (s : WalletService)
  : walletCommand → WalletService → list LedgerTask → list (ServiceRef * SettlementResult) → Prop :=
| we_quiet c tasks :
    (∀ t, t ∈ tasks → requests s !! ReqID (taskRequest t) = Some (taskRequest t)
       ∧ ResState (resultOf s (ReqID (taskRequest t))) = SettlementPending) →
    wallet_effect E s c s tasks []
| we_pending r :
    requests s !! ReqID r = None → validateSettlementRequest r = true → ReqSource r = source →
    wallet_effect E s (CommitSettlement r)
      (set_result (ReqID r) (pendingResult r) (set_request (ReqID r) r s)) [mkTask self (ReqSource r) r] []
| we_refused r :
    requests s !! ReqID r = None → validateSettlementRequest r = true → ReqSource r = source →
    wallet_effect E s (CommitSettlement r)
      (set_result (ReqID r) (unavailableResult r)
         (set_result (ReqID r) (pendingResult r) (set_request (ReqID r) r s))) [] []
| we_settle a s' :
    source = mkRef (runnerNode s) 0 →
    requests s !! ReqID (lrRequest a) = Some (lrRequest a) →
    ResState (resultOf s (ReqID (lrRequest a))) = SettlementPending →
    lrTerminal a = true →
    terminal (ResState (lrResult a)) = true → ResID (lrResult a) = ReqID (lrRequest a) →
    ResCurrency (lrResult a) = ReqCurrency (lrRequest a) →
    requests s' = requests s →
    results s' = <[ReqID (lrRequest a) := lrResult a]> (results s) →
    runnerNode s' = runnerNode s →
    wallet_effect E s (ApplyLedgerResult false a) s' [] [(ReqSource (lrRequest a), lrResult a)].

Ltac quiet := apply we_quiet; intros ? []%elem_of_nil.

Lemma commit_effect (E : Env V walletReply) r s w e :
  wallet_inv s → commit r (mkWorld s []) = (w, e) →
  wallet_effect E s (CommitSettlement r) (svc w) (accepted (Game.trace w)) (notices (Game.trace w)).
Proof.
  intros Hi. unfold commit.
  destruct (validateSettlementRequest r) eqn:Hv; simpl; [|intros [= <- _]; quiet].
  case_bool_decide as Hsrc; [intros [= <- _]; quiet|].
  unfold gbind, get. simpl. destruct (requests s !! ReqID r) as [cur|] eqn:Hr.
  { destruct (sameSettlementRequest cur r); simpl; intros [= <- _]; quiet. }
  destruct (maxPending s <=? pendingCount s); [intros [= <- _]; quiet|].
  simpl.
  destruct (ansSubmit _ _); simpl; intros [= <- _]; [by apply we_refused|by apply we_pending].
Qed.

Lemma apply_effect (E : Env V walletReply) a s w e :
  wallet_inv s → apply a (mkWorld s []) = (w, e) →
  wallet_effect E s (ApplyLedgerResult false a) (svc w) (accepted (Game.trace w)) (notices (Game.trace w)).
Proof.
  intros Hi. unfold apply, gbind at 1, get at 1. simpl.
  destruct (fromRunner s) eqn:Hfrom; simpl; [|intros [= <- _]; quiet].
  unfold fromRunner in Hfrom. bool_prop.
  destruct (requests s !! ReqID (lrRequest a)) as [q|] eqn:Hq; [|intros [= <- _]; quiet].
  destruct (sameSettlementRequest q (lrRequest a)) eqn:Hs; simpl; [|intros [= <- _]; quiet].
  apply sameSettlementRequest_spec in Hs as ->.
  destruct (lrTerminal a) eqn:Hterm; simpl; [|intros [= <- _]; quiet].
  destruct (negb (terminal _) || _ || _) eqn:Hbad; simpl; [intros [= <- _]; quiet|].
  destruct (decide (ResState (resultOf s (ReqID (lrRequest a))) = SettlementPending)) as [Hpend|Hpend].
  2: { rewrite bool_decide_true by done. simpl. intros [= <- _]; quiet. }
  rewrite bool_decide_false by (intros Hx; by apply Hx).
  apply orb_false_iff in Hbad as [[Ht Hbi]%orb_false_iff Hbc]. apply negb_false_iff in Ht.
  apply bool_decide_eq_false, dec_stable in Hbi. apply bool_decide_eq_false, dec_stable in Hbc.
  unfold gbind, put, send, gret, asks, emit. simpl.
  case_bool_decide; simpl; destruct (ansSend _ _ _ _); simpl; intros [= <- _]; by apply we_settle.
Qed.

Lemma recover_effect (E : Env V walletReply) id s w e :
  wallet_inv s → recover id (mkWorld s []) = (w, e) →
  wallet_effect E s (RecoverSettlement id) (svc w) (accepted (Game.trace w)) (notices (Game.trace w)).
Proof.
  intros Hi. unfold recover, gbind at 1, get at 1. simpl.
  destruct (requests s !! id) as [q|] eqn:Hq; [|intros [= <- _]; quiet].
  destruct (decide (ResState (resultOf s id) = SettlementPending)) as [Hpend|Hpend].
  2: { rewrite bool_decide_true by done. simpl. intros [= <- _]; quiet. }
  rewrite bool_decide_false by (intros Hx; by apply Hx).
  destruct (wi_requests _ Hi _ _ Hq) as [Hid _].
  unfold gbind, submit, gret, asks, emit, reply. simpl.
  destruct (ansSubmit _ _); simpl; intros [= <- _]; apply we_quiet; simpl; [set_solver|].
  intros t ->%list_elem_of_singleton. simpl. by rewrite Hid.
Qed.

Lemma runWallet_effect (E : Env V walletReply) c s s' tr e :
  wallet_inv s → runWallet E c s = (s', tr, e) → wallet_effect E s c s' (accepted tr) (notices tr).
Proof.
  intros Hi. unfold runWallet. destruct (Handle c (mkWorld s [])) as [w e'] eqn:Hh.
  intros [= <- <- <-]. revert Hh.
  destruct c as [r|id|p cur|failed a|id|k|]; simpl; unfold getSettlement, getBalance.
  - by apply commit_effect.
  - unfold gbind at 1, get at 1. destruct (negb _); simpl; [intros [= <- _]; quiet|].
    destruct (results s !! id); simpl; intros [= <- _]; quiet.
  - destruct (_ || _); simpl; intros [= <- _]; quiet.
  - unfold gbind at 1, get at 1. simpl.
    destruct (fromRunner s); simpl; [|intros [= <- _]; quiet].
    destruct failed; [intros [= <- _]; quiet|]. by apply apply_effect.
  - destruct (negb _); [intros [= <- _]; quiet|]. by apply recover_effect.
  - intros [= <- _]. quiet.
  - intros [= <- _]. quiet.
Qed.
End Facts.

(** ** The wallet, its runner and its ledger *)

Record sys := mkSys {
  wallet : WalletService;
  ledger : MemoryLedgerStore;
  tasks : list LedgerTask;                          (** with the runner *)
  missed : list LedgerTask;                         (** looked up in vain, not yet committed *)
  flying : list ledgerResult;                       (** results on their way back *)
  told : list (ServiceRef * SettlementResult)       (** results sent to their sources *)
}.

Definition answerTo (t : LedgerTask) (rr : runnerResult) : ledgerResult :=
  mkLedgerResult (taskRequest t) (rrResult rr) (rrTerminal rr).

(** The tasks the runner has, queued or between the two calls of a worker. *)
Definition held (y : sys) (t : LedgerTask) : Prop := t ∈ tasks y ∨ t ∈ missed y.

Definition runnerRef (y : sys) : ServiceRef := mkRef (runnerNode (wallet y)) 0.

(** Several workers take tasks and deliver results in any order; between a worker's
    [Lookup] and its [Commit] anything may happen; a task or a result may be lost (a
    closed runner, a full mailbox); a context may expire at any call.  Only the
    runtime sends as [runnerRef]. *)
Inductive sys_step {V} (y : sys) : sys → Prop :=
| sys_command (E : Env V walletReply) c w tr e :
    source (Env := E) ≠ runnerRef y →
    runWallet E c (wallet y) = (w, tr, e) →
    sys_step y (mkSys w (ledger y) (tasks y ++ accepted tr) (missed y) (flying y) (told y ++ notices tr))
| sys_lookup t ts c rr :
    tasks y ≡ₚ t :: ts →
    lookupTask c (taskRequest t) (ledger y) = Some rr →
    sys_step y (mkSys (wallet y) (ledger y) ts (missed y) (flying y ++ [answerTo t rr]) (told y))
| sys_miss t ts c :
    tasks y ≡ₚ t :: ts →
    lookupTask c (taskRequest t) (ledger y) = None →
    sys_step y (mkSys (wallet y) (ledger y) ts (t :: missed y) (flying y) (told y))
| sys_commit t ms c l rr :
    missed y ≡ₚ t :: ms →
    commitTask c (taskRequest t) (ledger y) = (l, rr) →
    sys_step y (mkSys (wallet y) l (tasks y) ms (flying y ++ [answerTo t rr]) (told y))
| sys_deliver (E : Env V walletReply) a fs w tr e :
    flying y ≡ₚ a :: fs →
    source (Env := E) = runnerRef y →
    runWallet E (ApplyLedgerResult false a) (wallet y) = (w, tr, e) →
    sys_step y (mkSys w (ledger y) (tasks y ++ accepted tr) (missed y) fs (told y ++ notices tr))
| sys_lose_task ts ms :
    ts ⊆+ tasks y → ms ⊆+ missed y → sys_step y (mkSys (wallet y) (ledger y) ts ms (flying y) (told y))
| sys_lose_result fs :
    fs ⊆+ flying y → sys_step y (mkSys (wallet y) (ledger y) (tasks y) (missed y) fs (told y)).
Arguments sys_step V y : clear implicits.

Definition sys_initial (y : sys) : Prop :=
  ∃ b n node, NewWalletService b n node = Ok (wallet y)
    ∧ ledger y = NewMemoryLedgerStore ∧ tasks y = [] ∧ missed y = [] ∧ flying y = [] ∧ told y = [].

Definition sys_reachable (V : Type) (y : sys) : Prop := ∃ y0, sys_initial y0 ∧ rtc (sys_step V) y0 y.

Definition recorded (y : sys) (id : RequestID) (r : SettlementResult) : Prop :=
  ∃ rec, records (ledger y) !! id = Some rec ∧ recResult rec = r
    ∧ requests (wallet y) !! id = Some (recRequest rec).

Definition untouched (y : sys) (id : RequestID) : Prop :=
  records (ledger y) !! id = None ∧ (∀ t, held y t → ReqID (taskRequest t) ≠ id)
  ∧ (∀ a, a ∈ flying y → ReqID (lrRequest a) ≠ id).

Record sys_inv (y : sys) : Prop := {
  si_wallet : wallet_inv (wallet y);
  si_ledger : ledger_inv (ledger y);
  si_records : ∀ id rec, records (ledger y) !! id = Some rec →
    requests (wallet y) !! id = Some (recRequest rec);
  si_tasks : ∀ t, held y t → requests (wallet y) !! ReqID (taskRequest t) = Some (taskRequest t);
  si_flying : ∀ a, a ∈ flying y → requests (wallet y) !! ReqID (lrRequest a) = Some (lrRequest a)
    ∧ (lrTerminal a = true → recorded y (ReqID (lrRequest a)) (lrResult a));
  si_results : ∀ id r, results (wallet y) !! id = Some r →
    (ResState r = SettlementCommitted → recorded y id r) ∧ (ResState r = SettlementRejected → untouched y id);
  si_told : NoDup (ResID ∘ snd <$> told y) ∧ ∀ x, x ∈ told y →
    results (wallet y) !! ResID x.2 = Some x.2 ∧ terminal (ResState x.2) = true
    ∧ ∃ q, requests (wallet y) !! ResID x.2 = Some q ∧ ReqSource q = x.1
}.

(** ** The invariant is preserved *)

Lemma recorded_mono y y' id r :
  recorded y id r →
  (∀ rec, records (ledger y) !! id = Some rec → records (ledger y') !! id = Some rec) →
  (∀ q, requests (wallet y) !! id = Some q → requests (wallet y') !! id = Some q) →
  recorded y' id r.
Proof. intros (rec & H1 & H2 & H3) HL HR. exists rec. auto. Qed.

Lemma resultOf_Some s id r : results s !! id = Some r → resultOf s id = r.
Proof. unfold resultOf. by intros ->. Qed.

(** The wallet's tables after accepting a request with a new identifier. *)
Lemma wallet_inv_accept s r res :
  wallet_inv s → requests s !! ReqID r = None → validateSettlementRequest r = true →
  ResID res = ReqID r → ResCurrency res = ReqCurrency r →
  wallet_inv (set_result (ReqID r) res (set_request (ReqID r) r s)).
Proof.
  intros [Hq Hr Hk] Hnew Hv Hid Hcur. split; simpl.
  - by apply map_Forall_insert_2.
  - intros id x Hx. simpl in *. destruct (decide (ReqID r = id)) as [<-|Hne].
    + rewrite lookup_insert_eq in Hx. rewrite lookup_insert_eq. simplify_eq. eauto.
    + rewrite lookup_insert_ne in Hx by done. rewrite lookup_insert_ne by done. by apply Hr.
  - intros id q Hx. destruct (decide (ReqID r = id)) as [<-|Hne].
    + rewrite lookup_insert_eq. eauto.
    + rewrite lookup_insert_ne in Hx by done. rewrite lookup_insert_ne by done. eauto.
Qed.

(** A new identifier is unknown everywhere. *)
Lemma fresh_untouched y id : sys_inv y → requests (wallet y) !! id = None → untouched y id.
Proof.
  intros Hi Hn. split_and!.
  - destruct (records (ledger y) !! id) as [rec|] eqn:Hr; [|done].
    apply (si_records _ Hi) in Hr. congruence.
  - intros t Ht <-. apply (si_tasks _ Hi) in Ht. congruence.
  - intros a [Ha _]%(si_flying _ Hi) <-. congruence.
Qed.

Lemma held_app y w l new fs td t :
  held (mkSys w l (tasks y ++ new) (missed y) fs td) t → held y t ∨ t ∈ new.
Proof. unfold held. simpl. set_solver. Qed.

Lemma inv_accept y r res ts :
  sys_inv y → requests (wallet y) !! ReqID r = None → validateSettlementRequest r = true →
  (res = pendingResult r ∧ ts = [r] ∨ res = unavailableResult r ∧ ts = []) →
  ∀ w new, wallet_inv w → requests w = <[ReqID r := r]> (requests (wallet y)) →
  results w = <[ReqID r := res]> (results (wallet y)) → taskRequest <$> new = ts →
  sys_inv (mkSys w (ledger y) (tasks y ++ new) (missed y) (flying y) (told y)).
Proof.
  intros Hi Hn Hv Hres w new Hw Hreq Hresults Hnew.
  pose proof (fresh_untouched y _ Hi Hn) as (Hr0 & Ht0 & Hf0).
  assert (Hkeep : ∀ id q, requests (wallet y) !! id = Some q → requests w !! id = Some q).
  { intros id q Hq. rewrite Hreq, lookup_insert_ne; [done|]. congruence. }
  assert (Hts : ∀ t, t ∈ new → taskRequest t = r).
  { intros t Ht. assert (taskRequest t ∈ ts) by (rewrite <- Hnew; by apply list_elem_of_fmap_2).
    destruct Hres as [[_ ->]|[_ ->]]; set_solver. }
  destruct Hi as [_ Hl Hrec Htask Hfly Hresu [Hnd Htold]].
  split; simpl; try done.
  - intros id rec Hid. by apply Hkeep, Hrec.
  - intros t [Ht|Ht]%held_app; [by apply Hkeep, Htask|]. rewrite (Hts t Ht), Hreq. apply lookup_insert_eq.
  - intros a Ha. destruct (Hfly a Ha) as [H1 H2]. split; [by apply Hkeep|].
    intros Hterm. eapply recorded_mono; [by apply H2|done|apply Hkeep].
  - intros id x Hx. rewrite Hresults in Hx. destruct (decide (ReqID r = id)) as [<-|Hne].
    + rewrite lookup_insert_eq in Hx. simplify_eq. destruct Hres as [[-> _]|[-> Hnil]]; [done|].
      split; [done|]. intros _. split_and!; [done| |done].
      intros t [Ht|Ht]%held_app; [by apply Ht0|]. destruct new; [set_solver|done].
    + rewrite lookup_insert_ne in Hx by done. destruct (Hresu _ _ Hx) as [H1 H2]. split.
      * intros Hc. eapply recorded_mono; [by apply H1|done|apply Hkeep].
      * intros Hj. destruct (H2 Hj) as (U1 & U2 & U3). split_and!; [done| |done].
        intros t [Ht|Ht]%held_app; [by apply U2|]. by rewrite (Hts t Ht).
  - split; [done|]. intros x Hx. destruct (Htold x Hx) as (H1 & H2 & q & H3 & H4).
    split_and!; [|done|eauto]. rewrite Hresults, lookup_insert_ne; [done|]. congruence.
Qed.

(** Moving tasks about and losing some. *)
Lemma inv_lose y ts ms fs :
  sys_inv y → (∀ t, t ∈ ts ∨ t ∈ ms → held y t) → fs ⊆+ flying y →
  sys_inv (mkSys (wallet y) (ledger y) ts ms fs (told y)).
Proof.
  intros [Hw Hl Hrec Htask Hfly Hres Htold] Hts Hfs.
  split; simpl; try done.
  - intros t Ht. by apply Htask, Hts.
  - intros a Ha. apply Hfly. by eapply submseteq_elem_of.
  - intros id r Hr. destruct (Hres id r Hr) as [H1 H2]. split; [done|]. intros Hj.
    destruct (H2 Hj) as (U1 & U2 & U3). split_and!; [done|..]; simpl; eauto using submseteq_elem_of.
Qed.

Lemma inv_quiet y ts :
  sys_inv y →
  (∀ t, t ∈ ts → requests (wallet y) !! ReqID (taskRequest t) = Some (taskRequest t)
     ∧ ResState (resultOf (wallet y) (ReqID (taskRequest t))) = SettlementPending) →
  sys_inv (mkSys (wallet y) (ledger y) (tasks y ++ ts) (missed y) (flying y) (told y)).
Proof.
  intros [Hw Hl Hrec Htask Hfly Hres Htold] Hts. split; simpl; try done.
  - intros t [Ht|Ht]%held_app; [by apply Htask|by apply Hts].
  - intros id r Hr. destruct (Hres id r Hr) as [H1 H2]. split; [done|]. intros Hj.
    destruct (H2 Hj) as (U1 & U2 & U3). split_and!; [done| |done]. simpl.
    intros t [Ht|Ht]%held_app; [by apply U2|]. intros <-.
    destruct (Hts t Ht) as [_ Hp]. rewrite (resultOf_Some _ _ _ Hr) in Hp. congruence.
Qed.

Lemma inv_settle y a w :
  sys_inv y → requests (wallet y) !! ReqID (lrRequest a) = Some (lrRequest a) →
  recorded y (ReqID (lrRequest a)) (lrResult a) →
  ResState (resultOf (wallet y) (ReqID (lrRequest a))) = SettlementPending →
  ResID (lrResult a) = ReqID (lrRequest a) → ResCurrency (lrResult a) = ReqCurrency (lrRequest a) →
  requests w = requests (wallet y) →
  results w = <[ReqID (lrRequest a) := lrResult a]> (results (wallet y)) →
  sys_inv (mkSys w (ledger y) (tasks y ++ []) (missed y) (flying y)
             (told y ++ [(ReqSource (lrRequest a), lrResult a)])).
Proof.
  intros [[Wq Wr Wk] Hl Hrec Htask Hfly Hres [Hnd Htold]] Hq Hre Hp Hid Hcur Ereq Eres.
  set (id := ReqID (lrRequest a)) in *. rewrite app_nil_r.
  assert (Hcomm : ResState (lrResult a) = SettlementCommitted).
  { destruct Hre as (rec & Hr & <- & _). apply (li_records _ Hl _ _ Hr). }
  assert (Hold : ∀ x, x ∈ told y → ResID x.2 ≠ id).
  { intros x Hx Hxid. destruct (Htold x Hx) as (H1 & H2 & _). rewrite Hxid in H1.
    rewrite (resultOf_Some _ _ _ H1) in Hp. rewrite Hp in H2. done. }
  split; simpl; rewrite ?Ereq; try done.
  - split; rewrite ?Ereq; [done| |].
    + rewrite Eres. apply map_Forall_insert_2; [eauto|done].
    + intros i q Hi. rewrite Eres. destruct (decide (id = i)) as [<-|?];
        [rewrite lookup_insert_eq|rewrite lookup_insert_ne by done]; eauto.
  - intros b Hb. destruct (Hfly b Hb) as [H1 H2]. split; [done|]. intros Ht.
    eapply recorded_mono; [by apply H2|done|]. simpl. by rewrite Ereq.
  - intros i r Hr. rewrite Eres in Hr. destruct (decide (id = i)) as [<-|Hne].
    + rewrite lookup_insert_eq in Hr. simplify_eq. split; [|congruence]. intros _.
      eapply recorded_mono; [done|done|]. simpl. by rewrite Ereq.
    + rewrite lookup_insert_ne in Hr by done. destruct (Hres i r Hr) as [H1 H2]. split; [|done].
      intros Hc. eapply recorded_mono; [by apply H1|done|]. simpl. by rewrite Ereq.
  - rewrite fmap_app. split.
    + apply NoDup_app. split_and!; [done| |apply NoDup_singleton].
      intros i (x & -> & Hx)%list_elem_of_fmap. simpl. rewrite list_elem_of_singleton, Hid. by apply Hold.
    + intros x [Hx| ->%list_elem_of_singleton]%elem_of_app.
      * destruct (Htold x Hx) as (H1 & H2 & H3). rewrite Eres, lookup_insert_ne by (symmetry; by apply Hold). done.
      * simpl. rewrite Hid, Eres, lookup_insert_eq, Hcomm. eauto.
Qed.

(** A worker answers a task it has, from a ledger that kept its records or took in
    the task's request. *)
Lemma inv_work y t ts ms l rr :
  sys_inv y → held y t → (∀ u, u ∈ ts ∨ u ∈ ms → held y u) → ledger_inv l →
  (l = ledger y ∨ records (ledger y) !! ReqID (taskRequest t) = None
     ∧ ∃ res, records l = <[ReqID (taskRequest t) := mkLedgerRecord (taskRequest t) res]> (records (ledger y))) →
  (rrTerminal rr = true → recResult <$> records l !! ReqID (taskRequest t) = Some (rrResult rr)) →
  sys_inv (mkSys (wallet y) l ts ms (flying y ++ [answerTo t rr]) (told y)).
Proof.
  intros Hi Ht Hsub Hl' Hrec' Hterm.
  destruct Hi as [Hwi Hl Hrec Htask Hfly Hres Htold].
  assert (Hkeep : ∀ id rec, records (ledger y) !! id = Some rec → records l !! id = Some rec).
  { intros id rec Hid. destruct Hrec' as [->|(Hn & res & ->)]; [done|].
    rewrite lookup_insert_ne; [done|]. congruence. }
  assert (Hown : ∀ id rec, records l !! id = Some rec → requests (wallet y) !! id = Some (recRequest rec)).
  { intros id rec Hid. destruct Hrec' as [->|(Hn & res & E)]; [by apply Hrec|]. rewrite E in Hid.
    apply lookup_insert_Some in Hid as [[<- <-]|[_ Hid]]; [by apply Htask|by apply Hrec]. }
  split; simpl; try done.
  - intros u Hu. by apply Htask, Hsub.
  - intros a [Ha| ->%list_elem_of_singleton]%elem_of_app.
    + destruct (Hfly a Ha) as [H1 H2]. split; [done|]. intros Hx. eapply recorded_mono; [by apply H2|apply Hkeep|done].
    + simpl. split; [by apply Htask|]. intros Hx. specialize (Hterm Hx).
      apply fmap_Some in Hterm as (rec & Hr & Hrr). exists rec. eauto.
  - intros id r Hr. destruct (Hres id r Hr) as [H1 H2]. split.
    + intros Hc. eapply recorded_mono; [by apply H1|apply Hkeep|done].
    + intros Hj. destruct (H2 Hj) as (U1 & U2 & U3).
      assert (Hne : ReqID (taskRequest t) ≠ id) by by apply U2.
      split_and!; simpl.
      * destruct Hrec' as [->|(Hn & res & ->)]; [done|]. by rewrite lookup_insert_ne.
      * intros u Hu. by apply U2, Hsub.
      * intros a [Ha| ->%list_elem_of_singleton]%elem_of_app; [by apply U3|done].
Qed.

Lemma inv_wallet {V} (E : Env V walletReply) c y w ts ns :
  sys_inv y → wallet_effect E (wallet y) c w ts ns →
  (∀ a, c = ApplyLedgerResult false a → source (Env := E) = runnerRef y → lrTerminal a = true →
     recorded y (ReqID (lrRequest a)) (lrResult a)) →
  sys_inv (mkSys w (ledger y) (tasks y ++ ts) (missed y) (flying y) (told y ++ ns)).
Proof.
  intros Hi He Hfrom. pose proof (si_wallet _ Hi) as Hw.
  inversion He as [c' ts' Hts|r Hn Hv _|r Hn Hv _|a w' Hsrc Hq Hp Ht _ Hid Hcur Ereq Eres _]; subst.
  - rewrite (app_nil_r (told y)). by apply inv_quiet.
  - rewrite (app_nil_r (told y)). apply (inv_accept y r (pendingResult r) [r]); try done; [by left|].
    by apply wallet_inv_accept.
  - rewrite (app_nil_r (told y)). apply (inv_accept y r (unavailableResult r) []); try done; [by right|..]; simpl.
    + split; simpl; rewrite ?insert_insert_eq; by apply (wallet_inv_accept (wallet y) r (unavailableResult r)).
    + by rewrite insert_insert_eq.
  - apply inv_settle; eauto.
Qed.

Lemma sys_inv_step {V} y y' : sys_step V y y' → sys_inv y → sys_inv y'.
Proof.
  intros Hs Hi.
  destruct Hs as [E c w tr e Hsrc Hr|t ts c rr Hp Hl|t ts c Hp Hl|t ms c l rr Hp Hc|E a fs w tr e Hp Hsrc Hr|ts ms Hts Hms|fs Hfs].
  - eapply inv_wallet; [done|eapply runWallet_effect; [apply Hi|done]|]. done.
  - apply inv_work; [done| | |apply Hi|by left|by eapply lookupTask_spec]; unfold held; setoid_rewrite Hp; set_solver.
  - apply inv_lose; [done| |done]. unfold held. setoid_rewrite Hp. set_solver.
  - destruct (commitTask_spec _ _ _ _ _ (si_ledger _ Hi) Hc) as (H1 & H2 & H3).
    apply inv_work; try done; unfold held; setoid_rewrite Hp; set_solver.
  - assert (a ∈ flying y) as Ha by (rewrite Hp; set_solver).
    assert (fs ⊆+ flying y) as Hfs by (rewrite Hp; by apply submseteq_cons).
    apply (inv_wallet E (ApplyLedgerResult false a) (mkSys (wallet y) (ledger y) (tasks y) (missed y) fs (told y))).
    + by apply inv_lose.
    + eapply runWallet_effect; [apply Hi|done].
    + intros b [= <-] _ Ht. by apply (si_flying _ Hi).
  - apply inv_lose; [done| |done]. intros t [Ht|Ht]; [left|right]; by eapply submseteq_elem_of.
  - by apply inv_lose.
Qed.

Lemma sys_inv_steps {V} y y' : rtc (sys_step V) y y' → sys_inv y → sys_inv y'.
Proof. induction 1; eauto using sys_inv_step. Qed.

Lemma sys_reachable_inv {V} y : sys_reachable V y → sys_inv y.
Proof.
  intros (y0 & (b & n & node & Hn & El & Et & Em & Ef & Eo) & Hs). eapply sys_inv_steps; [done|].
  destruct y0 as [w l ts ms fs told]; simpl in *; subst. unfold NewWalletService in Hn. open_step Hn.
  split; simpl; unfold held; simpl; try done; try set_solver. split; [constructor|set_solver].
Qed.

(** C19. Exactly once or never.  However commands, retries, recoveries, workers and
    results interleave, and whatever is lost on the way: a settlement the wallet
    reports as committed has been applied to the ledger, once, as the request the
    wallet accepted under that identifier and with the balances it reports; one it
    reports as rejected has not been applied and never will be by work in flight;
    and every ledger balance is the sum of the accepted requests.  Each settled
    request is reported at most once, with that result, to the service that
    requested it. *)
Theorem settlement_exactly_once {V} y :
  sys_reachable V y →
  (∀ id r, results (wallet y) !! id = Some r → ResState r = SettlementCommitted → recorded y id r)
  ∧ (∀ id r, results (wallet y) !! id = Some r → ResState r = SettlementRejected → untouched y id)
  ∧ (∀ cur p, balanceOf (ledger y) cur p = i64 (sumDeltas cur p (records (ledger y))))
  ∧ NoDup (ResID ∘ snd <$> told y)
  ∧ (∀ x, x ∈ told y → results (wallet y) !! ResID x.2 = Some x.2
       ∧ ∃ q, requests (wallet y) !! ResID x.2 = Some q ∧ ReqSource q = x.1).
Proof.
  intros Hi%sys_reachable_inv. destruct (si_told _ Hi) as [Hnd Htold]. split_and!.
  - intros id r Hr. apply (si_results _ Hi _ _ Hr).
  - intros id r Hr. apply (si_results _ Hi _ _ Hr).
  - apply Hi.
  - done.
  - intros x Hx. destruct (Htold x Hx) as (? & _ & ?). done.
Qed.

(** ** Settled is settled *)

Lemma effect_keeps {V} (E : Env V walletReply) c s s' ts ns id r :
  wallet_inv s → wallet_effect E s c s' ts ns →
  results s !! id = Some r → terminal (ResState r) = true → results s' !! id = Some r.
Proof.
  intros Hi He Hr Ht.
  inversion He as [c' ts' Hts|q Hn Hv _|q Hn Hv _|a w' Hsrc Hq Hp Hta _ Hid Hcur Ereq Eres _]; subst; [done|..].
  1,2: destruct (wi_results _ Hi _ _ Hr) as (_ & q' & Hq' & _); simpl;
    rewrite ?insert_insert_eq, lookup_insert_ne by congruence; done.
  rewrite Eres, lookup_insert_ne; [done|]. intros <-. rewrite (resultOf_Some _ _ _ Hr) in Hp.
  by rewrite Hp in Ht.
Qed.

(** A terminal settlement result is final: no later command, retry, recovery or
    late ledger result changes what the wallet answers for that identifier. *)
Theorem settlement_final {V} y y' id r :
  sys_reachable V y → results (wallet y) !! id = Some r → terminal (ResState r) = true →
  rtc (sys_step V) y y' → results (wallet y') !! id = Some r.
Proof.
  intros Hi%sys_reachable_inv Hr Ht Hs. induction Hs as [|y1 y2 y3 Hs _ IH]; [done|].
  apply IH; [by eapply sys_inv_step|].
  destruct Hs as [E c w tr e _ Hw| | | |E a fs w tr e Hp _ Hw| | ]; try done; simpl;
    (eapply effect_keeps; [apply Hi|eapply runWallet_effect; [apply Hi|done]|done|done]).
Qed.

(** ** A wallet to try things on *)

Definition demoEnv (src : ServiceRef) (fail : bool) : Env Empty_set walletReply := {|
  self := mkRef "game" 2; source := src;
  ansSend _ _ _ _ := None; ansReply _ _ := Some (Sentinel ErrReplyUnavailable); ansAfter _ _ _ _ := None;
  ansSubmit _ _ := if fail then Some ErrUnavailable else None; ansRequest _ _ := None; ansClock _ := 1
|}.
Definition sysCommand (E : Env Empty_set walletReply) (c : walletCommand) (y : sys) : sys :=
  let '(w, tr, _) := runWallet E c (wallet y) in
  mkSys w (ledger y) (tasks y ++ accepted tr) (missed y) (flying y) (told y ++ notices tr).
Definition sysLookup (y : sys) : sys :=
  match tasks y with
  | [] => y
  | t :: ts =>
      match lookupTask None (taskRequest t) (ledger y) with
      | Some rr => mkSys (wallet y) (ledger y) ts (missed y) (flying y ++ [answerTo t rr]) (told y)
      | None => mkSys (wallet y) (ledger y) ts (t :: missed y) (flying y) (told y)
      end
  end.
Definition sysCommit (y : sys) : sys :=
  match missed y with
  | [] => y
  | t :: ms => let '(l, rr) := commitTask None (taskRequest t) (ledger y) in
      mkSys (wallet y) l (tasks y) ms (flying y ++ [answerTo t rr]) (told y)
  end.
Definition sysDeliver (E : Env Empty_set walletReply) (y : sys) : sys :=
  match flying y with
  | [] => y
  | a :: fs => let '(w, tr, _) := runWallet E (ApplyLedgerResult false a) (wallet y) in
      mkSys w (ledger y) (tasks y ++ accepted tr) (missed y) fs (told y ++ notices tr)
  end.

Lemma sysCommand_steps E c y : source (Env := E) ≠ runnerRef y → rtc (sys_step Empty_set) y (sysCommand E c y).
Proof.
  intros H. unfold sysCommand. destruct (runWallet E c (wallet y)) as [[w tr] e] eqn:Hr.
  eapply rtc_once, sys_command; eauto.
Qed.
Lemma sysLookup_steps y : rtc (sys_step Empty_set) y (sysLookup y).
Proof.
  unfold sysLookup. destruct (tasks y) as [|t ts] eqn:Ht; [apply rtc_refl|].
  destruct (lookupTask _ _ _) as [rr|] eqn:Hp; eapply rtc_once; [eapply sys_lookup|eapply sys_miss]; by rewrite ?Ht.
Qed.
Lemma sysCommit_steps y : rtc (sys_step Empty_set) y (sysCommit y).
Proof.
  unfold sysCommit. destruct (missed y) as [|t ms] eqn:Ht; [apply rtc_refl|].
  destruct (commitTask _ _ _) as [l rr] eqn:Hp. eapply rtc_once, sys_commit; [by rewrite Ht|done].
Qed.
Lemma sysDeliver_steps E y : source (Env := E) = runnerRef y → rtc (sys_step Empty_set) y (sysDeliver E y).
Proof.
  intros H. unfold sysDeliver. destruct (flying y) as [|a fs] eqn:Hf; [apply rtc_refl|].
  destruct (runWallet E _ (wallet y)) as [[w tr] e] eqn:Hr. eapply rtc_once, sys_deliver; [by rewrite Hf|done|done].
Qed.

Definition demoSys : sys := mkSys (mkWallet 4 "game" ∅ ∅ ∅) NewMemoryLedgerStore [] [] [] [].

(** The request is recovered while its task waits: two workers look it up in vain,
    both commit, and both results come back. *)
Definition demoCommitted : sys :=
  let runner := demoEnv (mkRef "game" 0) false in
  let battle := demoEnv (mkRef "game" 4) false in
  sysDeliver runner (sysDeliver runner (sysCommit (sysCommit (sysLookup (sysLookup
    (sysCommand battle (RecoverSettlement "r1")
      (sysCommand battle (CommitSettlement (demoRequest "r1" 10)) demoSys))))))).

Definition demoResult : SettlementResult :=
  mkSettlement "r1" SettlementCommitted "coin" [mkBalance "alice" "coin" 10; mkBalance "bob" "coin" (-10)] "".

Lemma demoCommitted_reachable : sys_reachable Empty_set demoCommitted.
Proof.
  exists demoSys. split; [by exists true, 4, "game"|]. unfold demoCommitted.
  do 2 (etrans; [|by apply (sysDeliver_steps (demoEnv _ _))]). do 2 (etrans; [|apply sysCommit_steps]).
  do 2 (etrans; [|apply sysLookup_steps]). etrans; [|by apply (sysCommand_steps (demoEnv _ _))].
  by apply (sysCommand_steps (demoEnv _ _)).
Qed.

Lemma settlement_exactly_once_witness :
  recorded demoCommitted "r1" demoResult ∧ balanceOf (ledger demoCommitted) "coin" "alice" = 10.
Proof.
  destruct (settlement_exactly_once demoCommitted demoCommitted_reachable) as (H & _ & _).
  split; [|by vm_compute]. apply H; by vm_compute.
Defined.

Lemma settlement_final_witness : results (wallet demoCommitted) !! "r1" = Some demoResult.
Proof.
  apply (settlement_final (V := Empty_set) demoCommitted);
    [apply demoCommitted_reachable|by vm_compute|by vm_compute|apply rtc_refl].
Defined.

(** ** A rejection nobody is told *)

(** When the executor refuses a new request, the wallet's result for it is a
    rejection, which is terminal, but nothing is sent to the requesting service: a
    battle that asked by [Send] is never told. *)
Theorem rejection_untold {V} (E : Env V walletReply) s r s' tr e :
  wallet_inv s → requests s !! ReqID r = None → validateSettlementRequest r = true → ReqSource r = source →
  pendingCount s < maxPending s → (∀ t task, is_Some (ansSubmit t task)) →
  runWallet E (CommitSettlement r) s = (s', tr, e) →
  results s' !! ReqID r = Some (unavailableResult r) ∧ notices tr = [].
Proof.
  intros Hi Hn Hv Hsrc Hp Hfail. unfold runWallet, Handle, commit, gbind, get. rewrite Hv, Hsrc.
  rewrite bool_decide_false by (intros Hx; by apply Hx). simpl. rewrite Hn.
  rewrite (proj2 (Z.leb_gt _ _) Hp). simpl.
  destruct (Hfail [] (mkTask self source r)) as [err Herr]. rewrite Herr.
  simpl. intros [= <- <- _]. simpl. by rewrite lookup_insert_eq.
Qed.
