(* ===== verification/GoValue.v ===== *)
(** * Payload copies

    [cloneValue] and [cloneTimelinePayload] of [src/game/timeline.go]: a deep copy
    of a payload by reflection.  A [goValue] is the tree of kinds the copy walks
    over; [VStruct] marks each field with whether reflection may set it (it is
    exported), and [VOther] stands for the kinds the copy refuses (floating point,
    complex, channel, function, unsafe pointer). *)

From stdpp Require Import prelude strings list.
From Stdlib Require Import ZArith.
From S2P Require Import Prelude Game.

Inductive goValue :=
| VInvalid                                   (** the zero [reflect.Value] *)
| VBool (b : bool)
| VInt (kind : string) (z : Z)               (** the integer kinds *)
| VString (s : string)
| VNil (kind : string)                       (** a nil interface, pointer, slice or map *)
| VInterface (v : goValue)
| VPointer (v : goValue)
| VSlice (l : list goValue)
| VArray (l : list goValue)
| VMap (l : list (goValue * goValue))
| VStruct (fields : list (bool * goValue))
| VOther (kind : string).

Fixpoint cloneValue (v : goValue) : option goValue :=
  match v with
  | VInvalid | VBool _ | VInt _ _ | VString _ => Some v
  | VNil kind => Some (VNil kind)
  | VInterface v => VInterface <$> cloneValue v
  | VPointer v => VPointer <$> cloneValue v
  | VSlice l => VSlice <$> mapM cloneValue l
  | VArray l => VArray <$> mapM cloneValue l
  | VMap l => VMap <$>
      mapM (λ p : goValue * goValue, let '(k, x) := p in cloneValue k ≫= λ k', pair k' <$> cloneValue x) l
  | VStruct fields => VStruct <$>
      mapM (λ p : bool * goValue, let '(b, x) := p in if b then pair true <$> cloneValue x else None) fields
  | VOther _ => None
  end.

(** What can be copied. *)
Fixpoint plain (v : goValue) : bool :=
  match v with
  | VInvalid | VBool _ | VInt _ _ | VString _ | VNil _ => true
  | VInterface v | VPointer v => plain v
  | VSlice l | VArray l => forallb plain l
  | VMap l => forallb (λ '(k, x), plain k && plain x) l
  | VStruct fields => forallb (λ '(b, x), b && plain x) fields
  | VOther _ => false
  end.

(** Induction through the lists of a value. *)
Section Induction.
Context (P : goValue → Prop).
Context (Hbase : ∀ v, match v with
                      | VInvalid | VBool _ | VInt _ _ | VString _ | VNil _ | VOther _ => P v
                      | _ => True
                      end).
Context (Hint : ∀ v, P v → P (VInterface v)) (Hptr : ∀ v, P v → P (VPointer v)).
Context (Hslice : ∀ l, Forall P l → P (VSlice l)) (Harray : ∀ l, Forall P l → P (VArray l)).
Context (Hmap : ∀ l, Forall (λ x, P x.1 ∧ P x.2) l → P (VMap l)).
Context (Hstruct : ∀ l, Forall (λ x, P x.2) l → P (VStruct l)).

Fixpoint goValue_ind' (v : goValue) : P v :=
  let fix values (l : list goValue) : Forall P l :=
    match l with
    | [] => List.Forall_nil _
    | x :: l => List.Forall_cons _ x l (goValue_ind' x) (values l)
    end in
  let fix pairs (l : list (goValue * goValue)) : Forall (λ x, P x.1 ∧ P x.2) l :=
    match l with
    | [] => List.Forall_nil _
    | x :: l => List.Forall_cons _ x l (conj (goValue_ind' x.1) (goValue_ind' x.2)) (pairs l)
    end in
  let fix fields (l : list (bool * goValue)) : Forall (λ x, P x.2) l :=
    match l with
    | [] => List.Forall_nil _
    | x :: l => List.Forall_cons _ x l (goValue_ind' x.2) (fields l)
    end in
  match v with
  | VInterface v => Hint v (goValue_ind' v)
  | VPointer v => Hptr v (goValue_ind' v)
  | VSlice l => Hslice l (values l)
  | VArray l => Harray l (values l)
  | VMap l => Hmap l (pairs l)
  | VStruct l => Hstruct l (fields l)
  | v => Hbase v
  end.
End Induction.

Lemma mapM_clone {A} (f : A → option A) (ok : A → bool) l :
  Forall (λ x, f x = if ok x then Some x else None) l →
  mapM f l = if forallb ok l then Some l else None.
Proof.
  induction 1 as [|x l Hx _ IH]; [done|]. simpl. rewrite Hx, IH.
  by destruct (ok x), (forallb ok l).
Qed.

(** The copy of a value is that value, or it is refused. *)
Lemma cloneValue_spec v : cloneValue v = if plain v then Some v else None.
Proof.
  apply (goValue_ind' (λ v, cloneValue v = if plain v then Some v else None)); clear v;
    [intros v|intros v IH..|intros l IH|intros l IH|intros l IH|intros l IH]; simpl.
  - by destruct v.
  - rewrite IH. by destruct (plain v).
  - rewrite IH. by destruct (plain v).
  - rewrite (mapM_clone _ plain) by done. by destruct (forallb plain l).
  - rewrite (mapM_clone _ plain) by done. by destruct (forallb plain l).
  - rewrite (mapM_clone _ (λ '(k, x), plain k && plain x)).
    { by destruct (forallb _ l). }
    eapply Forall_impl; [exact IH|]. intros [k x] [Hk Hx]. simpl in *. rewrite Hk, Hx.
    by destruct (plain k), (plain x).
  - rewrite (mapM_clone _ (λ '(b, x), b && plain x)).
    { by destruct (forallb _ l). }
    eapply Forall_impl; [exact IH|]. intros [[] x] Hx; simpl in *; [|done]. rewrite Hx. by destruct (plain x).
Qed.

(** [json.Marshal] succeeding on a payload; nothing else is known of it. *)
Class Marshal := { marshals : goValue → bool }.

(** A nil payload is [None]. *)
Definition cloneTimelinePayload `{Marshal} (payload : option goValue) : res gameError (option goValue) :=
  match payload with
  | None => Ok None
  | Some v => if negb (marshals v) then Err ErrInvalidCommand
              else match cloneValue v with
                   | Some v' => Ok (Some v')
                   | None => Err ErrInvalidCommand
                   end
  end.

(** A copy can be copied again, with the same result. *)
Lemma clone_again `{Marshal} p q : cloneTimelinePayload p = Ok q → q = p ∧ cloneTimelinePayload q = Ok q.
Proof.
  destruct p as [v|]; simpl; [|by intros [= <-]].
  destruct (marshals v) eqn:Hm; [|done]. simpl. rewrite cloneValue_spec.
  destruct (plain v) eqn:Hp; [|done]. intros [= <-]. split; [done|].
  simpl. by rewrite Hm, cloneValue_spec, Hp.
Qed.
