(* ===== verification/Battle.v ===== *)
(** * The battle service and its timeline

    [src/game/battle.go] and [src/game/timeline.go].  The game logic is an
    application interface: a [BattleLogic] handles a command by a program over the
    operations of its [BattleContext], which may end with any state and error.
    Map iterations whose order is not observable (the settlement check) are
    quantifiers; [Broadcast] visits the participants in the order of the model's
    map. *)

From stdpp Require Import prelude gmap strings list sorting.
From Stdlib Require Import ZArith Lia Strings.Byte.
From S2P Require Import Prelude Types GoText Game GoValue.

Local Open Scope Z_scope.
Local Open Scope game_scope.

Definition StartBattleCommand : CommandID := 0x03000101.
Definition GetBattleSnapshotCommand : CommandID := 0x03000102.
Definition SetParticipantConnectedCommand : CommandID := 0x03000103.
Definition FinishBattleCommand : CommandID := 0x03000104.
Definition ApplySettlementResultCommand : CommandID := 0x03000105.
Definition TimelineFireCommand : CommandID := 0x03000201.
Definition CommitSettlementCommand : CommandID := 0x03000501.

Definition reservedBattleCommand (c : CommandID) : bool :=
  bool_decide (c ∈ [StartBattleCommand; GetBattleSnapshotCommand; SetParticipantConnectedCommand;
                    FinishBattleCommand; ApplySettlementResultCommand; TimelineFireCommand]).

Definition validTimelineCommand (c : CommandID) : bool := negb (c =? 0) && negb (reservedBattleCommand c).

(** ** Data *)

Inductive TimelineState := TimelineScheduled | TimelineCancelled | TimelineFired.
Inductive BattlePhase := BattleCreated | BattleRunning | BattleSettling | BattleFinished | BattleFailed.
Inductive ParticipantStatus := ParticipantConnected | ParticipantOffline.

#[global] Instance TimelineState_eq_dec : EqDecision TimelineState.
Proof. solve_decision. Defined.
#[global] Instance BattlePhase_eq_dec : EqDecision BattlePhase.
Proof. solve_decision. Defined.

Record TimelineItem := mkItem {
  tlID : Z; tlRevision : Z; DueAt : Time; tlCommand : CommandID; tlState : TimelineState
}.
Record timelineRecord := mkTLRecord { item : TimelineItem; payload : option goValue }.
Record TimelineSnapshot := mkTLSnapshot { snNextID : Z; snItems : list TimelineItem }.

Record battleTimeline := mkTimeline { nextID : Z; items : gmap Z timelineRecord }.

Definition set_state (r : timelineRecord) (st : TimelineState) : timelineRecord :=
  mkTLRecord (mkItem (tlID (item r)) (tlRevision (item r)) (DueAt (item r)) (tlCommand (item r)) st) (payload r).

Definition cancelAll (t : battleTimeline) : battleTimeline :=
  mkTimeline (nextID t)
    ((λ r, if bool_decide (tlState (item r) = TimelineScheduled) then set_state r TimelineCancelled else r) <$> items t).

Definition byItemID : relation TimelineItem := λ a b, tlID a ≤ tlID b.
#[global] Instance byItemID_dec : RelDecision byItemID.
Proof. intros a b. unfold byItemID. apply _. Defined.

Definition timelineSnapshot (t : battleTimeline) : TimelineSnapshot :=
  mkTLSnapshot (nextID t) (merge_sort byItemID (item ∘ snd <$> map_to_list (items t))).

Record BattleSnapshot := mkBattleSnapshot {
  bsID : BattleID; bsPhase : BattlePhase; bsParticipants : gmap PlayerID ParticipantStatus;
  bsTimeline : TimelineSnapshot; bsState : list byte
}.

Record BattleService (L : Type) := mkBattle {
  battleID : BattleID;
  battleWallet : ServiceRef;
  logic : L;
  participants : gmap PlayerID Participant;
  statuses : gmap PlayerID ParticipantStatus;
  timeline : battleTimeline;
  phase : BattlePhase;
  finish : FinishBattle;
  settlements : gmap RequestID SettlementResult
}.
Arguments mkBattle {L} _ _ _ _ _ _ _ _ _.
Arguments battleID {L} _.
Arguments battleWallet {L} _.
Arguments logic {L} _.
Arguments participants {L} _.
Arguments statuses {L} _.
Arguments timeline {L} _.
Arguments phase {L} _.
Arguments finish {L} _.
Arguments settlements {L} _.

Inductive battleReply :=
| RPhase (p : BattlePhase) | RStatus (st : ParticipantStatus) | RBattle (b : BattleSnapshot)
| RApp (v : goValue).

(** ** The logic's interface *)

Inductive battleOp :=
| OReply (v : goValue)
| ONow
| OAfter (delay : Duration) (c : CommandID) (p : option goValue)
| OAt (at_ : Time) (c : CommandID) (p : option goValue)
| OReplace (id : Z) (delay : Duration) (c : CommandID) (p : option goValue)
| OCancel (id : Z)
| OTimelineSnapshot
| OFinish (f : FinishBattle)
| OBroadcast (c : CommandID) (p : goValue)
| OSend (target : ServiceRef) (c : CommandID) (p : goValue).

Inductive battleRes :=
| BErr (e : error gameError)
| BTime (t : Time)
| BNumber (r : res gameError Z)
| BBool (b : bool)
| BTimeline (s : TimelineSnapshot)
| BBroadcast (r : res gameError (Z * Z)).

Inductive bprog (X : Type) :=
| BRet (x : X)
| BDo (op : battleOp) (k : battleRes → bprog X).
Arguments BRet {X} x.
Arguments BDo {X} op k.

Class BattleLogic (L : Type) := {
  HandleBattle : L → CommandID → option goValue → bprog (L * error gameError);
  LogicSnapshot : L → bprog (L * res gameError (list byte))
}.

(** ** Construction *)

Fixpoint validParticipants (seen : gset PlayerID) (l : list Participant) : bool :=
  match l with
  | [] => true
  | p :: l =>
      validateID (parPlayer p) && (bool_decide (parRef p = zeroRef) || validServiceRef (parRef p))
      && negb (bool_decide (parPlayer p ∈ seen)) && validParticipants ({[parPlayer p]} ∪ seen) l
  end.

(** [logic] is [None] for a nil interface. *)
Definition NewBattleService {L} (id : BattleID) (ps : list Participant) (wallet : ServiceRef)
    (logic : option L) : res gameError (BattleService L) :=
  match logic with
  | None => Err ErrInvalidConfig
  | Some l =>
      if (id =? 0) || (Z.of_nat (length ps) =? 0) then Err ErrInvalidConfig
      else if negb (validParticipants ∅ ps) then Err ErrInvalidParticipant
      else Ok (mkBattle id wallet l
                 (list_to_map ((λ p, (parPlayer p, p)) <$> ps))
                 (list_to_map ((λ p, (parPlayer p, ParticipantOffline)) <$> ps))
                 (mkTimeline 0 ∅) BattleCreated (mkFinish "" None) ∅)
  end.

Section Setters.
Context {L : Type}.
Definition set_timeline (f : battleTimeline → battleTimeline) (b : BattleService L) :=
  mkBattle (battleID b) (battleWallet b) (logic b) (participants b) (statuses b) (f (timeline b)) (phase b)
    (finish b) (settlements b).
Definition set_items (f : gmap Z timelineRecord → gmap Z timelineRecord) (b : BattleService L) :=
  set_timeline (λ t, mkTimeline (nextID t) (f (items t))) b.
Definition set_logic (l : L) (b : BattleService L) :=
  mkBattle (battleID b) (battleWallet b) l (participants b) (statuses b) (timeline b) (phase b)
    (finish b) (settlements b).
Definition set_phase (p : BattlePhase) (b : BattleService L) :=
  mkBattle (battleID b) (battleWallet b) (logic b) (participants b) (statuses b) (timeline b) p
    (finish b) (settlements b).
Definition set_finish (f : FinishBattle) (b : BattleService L) :=
  mkBattle (battleID b) (battleWallet b) (logic b) (participants b) (statuses b) (timeline b) (phase b)
    f (settlements b).
Definition set_settlement (id : RequestID) (r : SettlementResult) (b : BattleService L) :=
  mkBattle (battleID b) (battleWallet b) (logic b) (participants b) (statuses b) (timeline b) (phase b)
    (finish b) (<[id := r]> (settlements b)).
Definition set_status (p : PlayerID) (st : ParticipantStatus) (b : BattleService L) :=
  mkBattle (battleID b) (battleWallet b) (logic b) (participants b) (<[p := st]> (statuses b)) (timeline b)
    (phase b) (finish b) (settlements b).
End Setters.

Section Battle.
Context {L : Type} {BL : BattleLogic L} {MA : Marshal} {E : Env goValue battleReply}.
Local Notation M := (G goValue battleReply (BattleService L)).

(** ** The timeline *)

(** [battleTimeline.schedule] *)
Definition scheduleTimer (r : timelineRecord) : M (error rtError) :=
  now ← readNow;
  after (Z.max 0 (DueAt (item r) - now)) TimelineFireCommand
    (MsgFire (mkFire (tlID (item r)) (tlRevision (item r)) (tlCommand (item r)))).

(** [timelineHandle.schedule] *)
Definition schedule (dueAt : Time) (c : CommandID) (p : option goValue) : M (res gameError Z) :=
  if negb (validTimelineCommand c) then gret (Err ErrInvalidCommand)
  else
    match cloneTimelinePayload p with
    | Err e => gret (Err e)
    | Ok p =>
        b ← get (λ b, b);
        if nextID (timeline b) =? u64_max then gret (Err ErrStateConflict)
        else
          let id := nextID (timeline b) + 1 in
          let r := mkTLRecord (mkItem id 1 dueAt c TimelineScheduled) p in
          err ← scheduleTimer r;
          match err with
          | Some e => gret (Err (ErrRuntime e))
          | None =>
              put (set_timeline (λ t, mkTimeline id (<[id := r]> (items t)))) ;;
              gret (Ok id)
          end
    end.

Definition timelineAfter (delay : Duration) (c : CommandID) (p : option goValue) : M (res gameError Z) :=
  if delay <? 0 then gret (Err ErrInvalidCommand)
  else now ← readNow; schedule (now + delay) c p.

Definition timelineAt (at_ : Time) (c : CommandID) (p : option goValue) : M (res gameError Z) :=
  if at_ =? 0 then gret (Err ErrInvalidCommand)
  else now ← readNow; schedule (if at_ <? now then now else at_) c p.

Definition timelineReplace (id : Z) (delay : Duration) (c : CommandID) (p : option goValue)
  : M (res gameError Z) :=
  if delay <? 0 then gret (Err ErrInvalidCommand)
  else
    b ← get (λ b, b);
    match items (timeline b) !! id with
    | None => gret (Err ErrStateConflict)
    | Some r =>
        if bool_decide (tlState (item r) ≠ TimelineScheduled) || (tlRevision (item r) =? u64_max)
        then gret (Err ErrStateConflict)
        else
          now ← readNow;
          if negb (validTimelineCommand c) then gret (Err ErrInvalidCommand)
          else
            match cloneTimelinePayload p with
            | Err e => gret (Err e)
            | Ok p =>
                let r := mkTLRecord (mkItem (tlID (item r)) (u64_succ (tlRevision (item r))) (now + delay) c
                                       TimelineScheduled) p in
                err ← scheduleTimer r;
                match err with
                | Some e => gret (Err (ErrRuntime e))
                | None => put (set_items (insert id r)) ;; gret (Ok (tlRevision (item r)))
                end
            end
    end.

Definition timelineCancel (id : Z) : M bool :=
  b ← get (λ b, b);
  match items (timeline b) !! id with
  | None => gret false
  | Some r =>
      if bool_decide (tlState (item r) ≠ TimelineScheduled) then gret false
      else put (set_items (insert id (set_state r TimelineCancelled))) ;; gret true
  end.

(** ** Finishing *)

(** The loop over the intents: all valid, no identifier twice. *)
Fixpoint validIntents (seen : gset RequestID) (l : list SettlementIntent) : bool :=
  match l with
  | [] => true
  | i :: l => validateSettlementIntent i && negb (bool_decide (intID i ∈ seen))
              && validIntents ({[intID i]} ∪ seen) l
  end.

Definition intentsOf (f : FinishBattle) : list SettlementIntent := default [] (Settlements f).

Definition requestOf (src : ServiceRef) (i : SettlementIntent) : SettlementRequest :=
  mkRequest (intID i) src (intCurrency i) (intEntries i).

(** [cloneFinishBattle] makes a non-nil slice. *)
Definition cloneFinish (f : FinishBattle) : FinishBattle := mkFinish (finID f) (Some (intentsOf f)).

Fixpoint sendRequests (wallet : ServiceRef) (l : list SettlementRequest) : M unit :=
  match l with
  | [] => gret tt
  | r :: l =>
      put (set_settlement (ReqID r) (mkSettlement (ReqID r) SettlementPending (ReqCurrency r) [] "")) ;;
      err ← send wallet CommitSettlementCommand (MsgCommit r);
      (match err with
       | Some _ => count "battle_settlement_send_failed_total"
       | None => gret tt
       end) ;;
      sendRequests wallet l
  end.

Definition finishBattle (f : FinishBattle) : M (error gameError) :=
  if negb (validateRequestID (finID f)) then gret (Some ErrInvalidRequestID)
  else
    b ← get (λ b, b);
    if bool_decide (phase b ≠ BattleRunning) then
      if bool_decide (finID (finish b) = finID f) then
        if bool_decide (finish b ≠ f) then gret (Some ErrRequestConflict) else reply (RPhase (phase b))
      else gret (Some ErrStateConflict)
    else if negb (validIntents ∅ (intentsOf f)) then gret (Some ErrInvalidSettlement)
    else
      let requests := requestOf self <$> intentsOf f in
      if bool_decide (requests ≠ []) && negb (validServiceRef (battleWallet b)) then gret (Some ErrUnavailable)
      else
        put (set_finish (cloneFinish f)) ;;
        put (set_phase BattleSettling) ;;
        sendRequests (battleWallet b) requests ;;
        (if bool_decide (requests = []) then
           put (set_phase BattleFinished) ;; put (set_timeline cancelAll)
         else gret tt) ;;
        b ← get (λ b, b);
        reply (RPhase (phase b)).

(** ** Programs of the logic *)

Fixpoint broadcast (c : CommandID) (p : goValue) (l : list Participant) (acc : Z * Z) : M (Z * Z) :=
  match l with
  | [] => gret acc
  | x :: l =>
      if negb (validServiceRef (parRef x)) then broadcast c p l acc
      else
        err ← send (parRef x) c (MsgApp p);
        match err with
        | Some _ => broadcast c p l (acc.1, acc.2 + 1)
        | None => broadcast c p l (acc.1 + 1, acc.2)
        end
  end.

(** An operation through a context that is still ([active]) or no longer usable. *)
Definition runOp (active : bool) (op : battleOp) : M battleRes :=
  if negb active then
    match op with
    | OReply _ | OFinish _ | OSend _ _ _ => gret (BErr (Some ErrContextExpired))
    | ONow => t ← readNow; gret (BTime t)
    | OAfter _ _ _ | OAt _ _ _ | OReplace _ _ _ _ => gret (BNumber (Err ErrContextExpired))
    | OCancel _ => gret (BBool false)
    | OTimelineSnapshot => gret (BTimeline (mkTLSnapshot 0 []))
    | OBroadcast _ _ => gret (BBroadcast (Err ErrContextExpired))
    end
  else
    match op with
    | OReply v => e ← reply (RApp v); gret (BErr e)
    | ONow => t ← readNow; gret (BTime t)
    | OAfter d c p => r ← timelineAfter d c p; gret (BNumber r)
    | OAt t c p => r ← timelineAt t c p; gret (BNumber r)
    | OReplace id d c p => r ← timelineReplace id d c p; gret (BNumber r)
    | OCancel id => r ← timelineCancel id; gret (BBool r)
    | OTimelineSnapshot => b ← get (λ b, b); gret (BTimeline (timelineSnapshot (timeline b)))
    | OFinish f => e ← finishBattle f; gret (BErr e)
    | OBroadcast c p =>
        b ← get (λ b, b);
        r ← broadcast c p (map_to_list (participants b)).*2 (0, 0);
        gret (BBroadcast (Ok r))
    | OSend target c p =>
        if negb (validServiceRef target) then gret (BErr (Some ErrUnavailable))
        else e ← send target c (MsgApp p); gret (BErr (ErrRuntime <$> e))
    end.

Fixpoint runProg {X} (p : bprog X) : M X :=
  match p with
  | BRet x => gret x
  | BDo op k => r ← runOp true op; runProg (k r)
  end.

(** ** Commands *)

Definition handleLogic (c : CommandID) (p : option goValue) : M (error gameError) :=
  b ← get (λ b, b);
  r ← runProg (HandleBattle (logic b) c p);
  put (set_logic r.1) ;; gret r.2.

Definition snapshot : M (res gameError BattleSnapshot) :=
  b ← get (λ b, b);
  r ← runProg (LogicSnapshot (logic b));
  put (set_logic r.1) ;;
  match r.2 with
  | Err e => gret (Err e)
  | Ok state =>
      b ← get (λ b, b);
      gret (Ok (mkBattleSnapshot (battleID b) (phase b) (statuses b) (timelineSnapshot (timeline b)) state))
  end.

Definition replySnapshot : M (error gameError) :=
  r ← snapshot;
  match r with
  | Err e => gret (Some e)
  | Ok s => reply (RBattle s)
  end.

Definition start (okPayload : bool) : M (error gameError) :=
  if negb okPayload then gret (Some ErrInvalidCommand)
  else
    b ← get (λ b, b);
    if bool_decide (phase b ≠ BattleCreated) then gret (Some ErrStateConflict)
    else put (set_phase BattleRunning) ;; replySnapshot.

Definition setParticipantConnected (player : PlayerID) (connected : bool) : M (error gameError) :=
  b ← get (λ b, b);
  match participants b !! player with
  | None => gret (Some ErrInvalidParticipant)
  | Some _ =>
      let st := if connected then ParticipantConnected else ParticipantOffline in
      put (set_status player st) ;; reply (RStatus st)
  end.

Definition applySettlement (r : SettlementResult) : M (error gameError) :=
  b ← get (λ b, b);
  if bool_decide (source ≠ battleWallet b) then gret (Some ErrUnauthorized)
  else
    match settlements b !! ResID r with
    | None => gret (Some ErrNotFound)
    | Some current =>
        if bool_decide (ResState current ≠ SettlementPending) then reply (RPhase (phase b))
        else if negb (terminal (ResState r)) || bool_decide (ResCurrency r ≠ ResCurrency current)
        then gret (Some ErrInvalidSettlement)
        else
          put (set_settlement (ResID r) r) ;;
          if bool_decide (ResState r = SettlementRejected) then
            put (set_phase BattleFailed) ;; put (set_timeline cancelAll) ;; reply (RPhase BattleFailed)
          else
            b ← get (λ b, b);
            if negb (bool_decide (map_Forall (λ _ x, ResState x = SettlementCommitted) (settlements b)))
            then reply (RPhase (phase b))
            else
              put (set_phase BattleFinished) ;; put (set_timeline cancelAll) ;; reply (RPhase BattleFinished)
    end.

Definition fire (f : timelineFire) : M (error gameError) :=
  b ← get (λ b, b);
  match items (timeline b) !! fireID f with
  | None => count "battle_timeline_ignored_total" ;; gret None
  | Some r =>
      if bool_decide (tlState (item r) ≠ TimelineScheduled)
         || negb (tlRevision (item r) =? fireRevision f) || negb (tlCommand (item r) =? fireCommand f)
      then count "battle_timeline_ignored_total" ;; gret None
      else if bool_decide (phase b ≠ BattleRunning)
      then count "battle_timeline_ignored_total" ;; gret None
      else
        put (set_items (insert (fireID f) (set_state r TimelineFired))) ;;
        match cloneTimelinePayload (payload r) with
        | Err e => gret (Some e)
        | Ok p => handleLogic (tlCommand (item r)) p
        end
  end.

Inductive battleCommand :=
| StartBattle (okPayload : bool)               (** [okPayload]: nil or [struct{}{}] *)
| GetBattleSnapshot (okPayload : bool)
| SetParticipantConnected (player : PlayerID) (connected : bool)
| FinishBattle_ (f : FinishBattle)
| ApplySettlementResult (r : SettlementResult)
| TimelineFire (f : timelineFire)
| BattleBadPayload (settlement : bool)         (** a reserved command, another payload type *)
| LogicCommand (c : CommandID) (p : option goValue).

Definition Handle (c : battleCommand) : M (error gameError) :=
  match c with
  | StartBattle ok => start ok
  | GetBattleSnapshot ok => if negb ok then gret (Some ErrInvalidCommand) else replySnapshot
  | SetParticipantConnected p b => setParticipantConnected p b
  | FinishBattle_ f => finishBattle f
  | ApplySettlementResult r => applySettlement r
  | TimelineFire f => fire f
  | BattleBadPayload settlement => gret (Some (if settlement then ErrInvalidSettlement else ErrInvalidCommand))
  | LogicCommand c p =>
      b ← get (λ b, b);
      if bool_decide (phase b ≠ BattleRunning) then gret (Some ErrStateConflict) else handleLogic c p
  end.

Definition Stop : M unit := put (set_timeline cancelAll).

Definition runBattle (c : battleCommand) (b : BattleService L)
  : BattleService L * list (effect goValue battleReply) * error gameError :=
  let '(w, e) := Handle c (mkWorld b []) in (svc w, trace w, e).
End Battle.
Arguments runBattle {L BL MA} E c b.
