(* ===== verification/BattleInv.v ===== *)
(** * The battle invariant

    What every command keeps true of a battle ([battle_inv]) and how a battle may
    evolve ([evolves]): phases only advance, a finish is frozen, settled results
    and fired or cancelled timeline items never change, and the wallet is asked
    once.  All of it holds for any game logic and any environment. *)

From stdpp Require Import prelude gmap strings list sorting.
From Stdlib Require Import ZArith Lia.
From S2P Require Import Prelude Types GoText Game GoValue Battle.

Local Open Scope Z_scope.
Local Open Scope game_scope.

Definition rank (p : BattlePhase) : nat :=
  match p with
  | BattleCreated => 0 | BattleRunning => 1 | BattleSettling => 2 | BattleFinished | BattleFailed => 3
  end.

Definition allCommitted (m : gmap RequestID SettlementResult) : Prop :=
  map_Forall (λ _ x, ResState x = SettlementCommitted) m.

(** The phase a frozen battle must be in, given its results. *)
Definition phase_ok (p : BattlePhase) (m : gmap RequestID SettlementResult) : Prop :=
  match p with
  | BattleCreated | BattleRunning => m = ∅
  | BattleSettling => (∃ id x, m !! id = Some x ∧ ResState x = SettlementPending)
                      ∧ map_Forall (λ _ x, ResState x ≠ SettlementRejected) m
  | BattleFinished => allCommitted m
  | BattleFailed => ∃ id x, m !! id = Some x ∧ ResState x = SettlementRejected
  end.

Definition item_ok `{Marshal} (last id : Z) (r : timelineRecord) : Prop :=
  tlID (item r) = id ∧ 1 ≤ id ≤ last ∧ 1 ≤ tlRevision (item r) ≤ u64_max
  ∧ cloneTimelinePayload (payload r) = Ok (payload r).

(** The entries of the settlement table: one per intent, with its currency. *)
Definition settlement_of (f : FinishBattle) (id : RequestID) (x : SettlementResult) : Prop :=
  ResID x = id ∧ (ResState x = SettlementPending ∨ terminal (ResState x) = true)
  ∧ ∃ i, i ∈ intentsOf f ∧ intID i = id ∧ intCurrency i = ResCurrency x.

Section Inv.
Context {L : Type} {BL : BattleLogic L} {MA : Marshal} {E : Env goValue battleReply}.
Local Notation M := (G goValue battleReply (BattleService L)).
Local Notation W := (world goValue battleReply (BattleService L)).

Record battle_inv (b : BattleService L) : Prop := {
  bi_phase : phase_ok (phase b) (settlements b);
  bi_results : map_Forall (settlement_of (finish b)) (settlements b);
  bi_complete : (1 < rank (phase b))%nat →
    ∀ i, i ∈ intentsOf (finish b) → is_Some (settlements b !! intID i);
  bi_unique : NoDup (intID <$> intentsOf (finish b));
  bi_items : map_Forall (item_ok (nextID (timeline b))) (items (timeline b)) ∧ 0 ≤ nextID (timeline b) ≤ u64_max
}.

(** The settlement requests the service sent, with their targets and commands. *)
Definition commits (tr : list (effect goValue battleReply)) : list (ServiceRef * CommandID * SettlementRequest) :=
  omap (λ e, match e with Sent t c (MsgCommit r) _ => Some (t, c, r) | _ => None end) tr.

(** The wallet's request for an intent. *)
Definition commitOf (wal me : ServiceRef) (i : SettlementIntent) : ServiceRef * CommandID * SettlementRequest :=
  (wal, CommitSettlementCommand, requestOf me i).

(** A logic that does not itself send the wallet's command. *)
Definition politeOp (op : battleOp) : Prop :=
  match op with OSend _ c _ | OBroadcast c _ => c ≠ CommitSettlementCommand | _ => True end.
Fixpoint polite {X} (p : bprog X) : Prop :=
  match p with BRet _ => True | BDo op k => politeOp op ∧ ∀ r, polite (k r) end.
Definition politeLogic : Prop :=
  (∀ l c p, polite (HandleBattle l c p)) ∧ ∀ l : L, polite (LogicSnapshot l).

(** A message under the wallet's command is a settlement request. *)
Definition proper (e : effect goValue battleReply) : Prop :=
  match e with
  | Sent _ c m _ => c = CommitSettlementCommand → match m with MsgCommit _ => True | _ => False end
  | _ => True
  end.

Record evolves (w w' : W) : Prop := {
  ev_phase : phase (svc w') = phase (svc w) ∨ (rank (phase (svc w)) < rank (phase (svc w')))%nat;
  ev_static : battleWallet (svc w') = battleWallet (svc w) ∧ battleID (svc w') = battleID (svc w)
              ∧ participants (svc w') = participants (svc w);
  ev_frozen : (1 < rank (phase (svc w)))%nat → finish (svc w') = finish (svc w);
  ev_settled : ∀ id x, settlements (svc w) !! id = Some x → terminal (ResState x) = true →
    settlements (svc w') !! id = Some x;
  ev_items : ∀ id r, items (timeline (svc w)) !! id = Some r →
    ∃ r', items (timeline (svc w')) !! id = Some r'
      ∧ tlRevision (item r) ≤ tlRevision (item r')
      ∧ (tlState (item r) ≠ TimelineScheduled → r' = r);
  ev_next : nextID (timeline (svc w)) ≤ nextID (timeline (svc w'));
  ev_commits : commits (trace w') = commits (trace w)
      ∧ (rank (phase (svc w)) ≤ 1 → rank (phase (svc w')) ≤ 1)%nat
    ∨ (rank (phase (svc w)) ≤ 1 < rank (phase (svc w')))%nat
      ∧ commits (trace w') = commits (trace w)
          ++ (commitOf (battleWallet (svc w)) self <$> intentsOf (finish (svc w')));
  ev_proper : politeLogic → Forall proper (trace w) → Forall proper (trace w')
}.

#[global] Instance evolves_preorder : PreOrder evolves.
Proof.
  split.
  - intros w. split; eauto; [|lia]. intros id r Hr. exists r. split_and!; [done|lia|done].
  - intros w1 w2 w3 [P1 (A1 & B1 & C1) F1 S1 I1 N1 K1 O1] [P2 (A2 & B2 & C2) F2 S2 I2 N2 K2 O2].
    assert (Hrank : (rank (phase (svc w1)) ≤ rank (phase (svc w2)) ≤ rank (phase (svc w3)))%nat).
    { split; [destruct P1 as [->|?]|destruct P2 as [->|?]]; lia. }
    split.
    + destruct P1 as [P1|P1], P2 as [P2|P2]; [left; congruence|right; congruence|right; congruence|right; lia].
    + split_and!; congruence.
    + intros Hr. rewrite F2, F1; [done|done|lia].
    + eauto.
    + intros id r Hr. destruct (I1 _ _ Hr) as (r2 & H2 & R2 & D2). destruct (I2 _ _ H2) as (r3 & H3 & R3 & D3).
      exists r3. split_and!; [done|lia|]. intros Hs. specialize (D2 Hs). subst. by apply D3.
    + lia.
    + destruct K1 as [[K1 Q1]|[R1 K1]], K2 as [[K2 Q2]|[R2 K2]]; rewrite ?K2, ?K1; [left; auto|..].
      * right. split; [lia|]. by rewrite A1.
      * right. split; [lia|]. by rewrite (F2 ltac:(lia)).
      * lia.
    + auto.
Qed.

Definition good (w w' : W) : Prop := battle_inv (svc w) → battle_inv (svc w') ∧ evolves w w'.

#[global] Instance good_preorder : PreOrder good.
Proof.
  split; [by intros w H|]. intros w1 w2 w3 H1 H2 Hi. destruct (H1 Hi) as [Hi2 ?].
  destruct (H2 Hi2) as [? ?]. split; [done|by etrans].
Qed.

(** A program run from [w] keeps the invariant. *)
Definition ok {X} (w : W) (c : M X) : Prop := good w (c w).1.

Lemma ok_bind {X Y} w (c : M X) (k : X → M Y) :
  ok w c → ok (c w).1 (k (c w).2) → ok w (gbind k c).
Proof. unfold ok, gbind. destruct (c w) as [w1 x]. simpl. intros H1 H2. by etrans. Qed.

Lemma ok_ret {X} w (x : X) : ok w (gret x).
Proof. by unfold ok. Qed.

Lemma ok_get {X Y} w (f : BattleService L → X) (k : X → M Y) : ok w (k (f (svc w))) → ok w (gbind k (get f)).
Proof. done. Qed.

(** Effects other than a request to the wallet. *)
Definition mute (e : effect goValue battleReply) : Prop := commits [e] = [].

Lemma good_emit w e : mute e → (politeLogic → proper e) → good w (mkWorld (svc w) (trace w ++ [e])).
Proof.
  intros He Ho Hi. split; [done|]. split; simpl; eauto.
  - intros id r Hr. exists r. split_and!; [done|lia|done].
  - lia.
  - left. split; [|done]. unfold commits. rewrite omap_app. unfold mute, commits in He. by rewrite He, app_nil_r.
  - intros Hp Ht. apply Forall_app. split; [done|]. by apply Forall_singleton, Ho.
Qed.

Lemma ok_readNow w : ok w readNow.
Proof. by apply good_emit. Qed.
Lemma ok_after w d c f : ok w (after d c (MsgFire f)).
Proof. by apply good_emit. Qed.
Lemma ok_count w n : ok w (count n).
Proof. by apply good_emit. Qed.
Lemma ok_reply w v : ok w (reply v).
Proof. by apply good_emit. Qed.
Lemma ok_sendApp w t c v : (politeLogic → c ≠ CommitSettlementCommand) → ok w (send t c (MsgApp v)).
Proof. intros H. apply good_emit; [done|]. intros Hp Hc. by apply H. Qed.

(** ** Timeline writes *)

Definition item_grows (t t' : battleTimeline) : Prop :=
  ∀ id r, items t !! id = Some r → ∃ r', items t' !! id = Some r'
    ∧ tlRevision (item r) ≤ tlRevision (item r') ∧ (tlState (item r) ≠ TimelineScheduled → r' = r).

Lemma ok_timeline w f :
  (battle_inv (svc w) →
     map_Forall (item_ok (nextID (f (timeline (svc w))))) (items (f (timeline (svc w))))
     ∧ nextID (timeline (svc w)) ≤ nextID (f (timeline (svc w))) ≤ u64_max
     ∧ item_grows (timeline (svc w)) (f (timeline (svc w)))) →
  ok w (put (set_timeline f)).
Proof.
  intros H Hi. destruct (H Hi) as (H1 & [H2 H3] & H4). destruct Hi as [P R C U [_ [? _]]].
  split; split; simpl; eauto. split; [done|lia].
Qed.

Lemma item_ok_mono last last' id r : last ≤ last' → item_ok last id r → item_ok last' id r.
Proof. intros ? (? & ? & ? & ?). split_and!; try done; lia. Qed.

(** Changing a scheduled item. *)
Lemma ok_item w id r r' :
  items (timeline (svc w)) !! id = Some r → tlState (item r) = TimelineScheduled →
  tlID (item r') = tlID (item r) → tlRevision (item r) ≤ tlRevision (item r') ≤ u64_max →
  cloneTimelinePayload (payload r') = Ok (payload r') →
  ok w (put (set_items (insert id r'))).
Proof.
  intros Hr Hs Hid Hrev Hp. apply (ok_timeline w (λ t, mkTimeline (nextID t) (insert id r' (items t)))).
  intros [_ _ _ _ [Hi [_ Hn]]]. simpl. split_and!; [|lia|done|].
  - apply map_Forall_insert_2; [|done]. destruct (Hi _ _ Hr) as (H1 & H2 & H3 & _).
    split_and!; [congruence|lia..|done].
  - intros j x Hj. simpl. destruct (decide (id = j)) as [<-|Hne].
    + rewrite lookup_insert_eq. simplify_eq. exists r'. split_and!; [done|lia|done].
    + rewrite lookup_insert_ne by done. exists x. split_and!; [done|lia|done].
Qed.

Lemma ok_cancelAll w : ok w (put (set_timeline cancelAll)).
Proof.
  apply ok_timeline. intros [_ _ _ _ [Hi [_ Hn]]]. simpl. split_and!; [|lia|done|].
  - intros id r. rewrite lookup_fmap. intros (x & Hx & ->)%fmap_Some.
    specialize (Hi _ _ Hx). by case_bool_decide.
  - intros id r Hr. simpl. rewrite lookup_fmap, Hr. simpl. eexists. split; [done|].
    case_bool_decide; split; simpl; try done; lia.
Qed.

(** A step that leaves the service alone. *)
Definition still {X} (c : M X) : Prop := ∀ w, svc (c w).1 = svc w.

Lemma still_schedule r : still (scheduleTimer r).
Proof. done. Qed.

Lemma ok_scheduleTimer w r : ok w (scheduleTimer r).
Proof. apply ok_bind; [apply ok_readNow|]. apply ok_after. Qed.

Lemma ok_schedule w d c p : ok w (schedule d c p).
Proof.
  unfold schedule. destruct (validTimelineCommand c); simpl; [|apply ok_ret].
  destruct (cloneTimelinePayload p) as [q|] eqn:Hq; [|apply ok_ret].
  apply clone_again in Hq as [-> Hq]. apply ok_get.
  destruct (Z.eqb_spec (nextID (timeline (svc w))) u64_max) as [|Hmax]; [apply ok_ret|].
  apply ok_bind; [apply ok_scheduleTimer|]. set (r := mkTLRecord _ _).
  destruct (scheduleTimer r w).2; [apply ok_ret|].
  apply ok_bind; [|apply ok_ret]. apply ok_timeline. rewrite still_schedule.
  intros [_ _ _ _ [Hi [H0 Hn]]]. simpl.
  assert (Hfresh : items (timeline (svc w)) !! (nextID (timeline (svc w)) + 1) = None).
  { destruct (items (timeline (svc w)) !! _) as [x|] eqn:Hx; [|done].
    destruct (Hi _ _ Hx) as (_ & ? & _). lia. }
  split_and!; [|lia|lia|].
  - apply map_Forall_insert_2.
    + split_and!; simpl; try done; unfold u64_max, u64_mod in *; lia.
    + eapply map_Forall_impl; [exact Hi|]. intros id x. apply item_ok_mono. lia.
  - intros id x Hx. exists x. simpl. rewrite lookup_insert_ne by congruence. split_and!; [done|lia|done].
Qed.

Lemma ok_timelineAfter w d c p : ok w (timelineAfter d c p).
Proof. unfold timelineAfter. case_match; [apply ok_ret|]. apply ok_bind; [apply ok_readNow|apply ok_schedule]. Qed.

Lemma ok_timelineAt w t c p : ok w (timelineAt t c p).
Proof. unfold timelineAt. case_match; [apply ok_ret|]. apply ok_bind; [apply ok_readNow|apply ok_schedule]. Qed.

Lemma ok_timelineReplace w id d c p : ok w (timelineReplace id d c p).
Proof.
  unfold timelineReplace. case_match; [apply ok_ret|]. apply ok_get.
  destruct (items (timeline (svc w)) !! id) as [r|] eqn:Hr; [|apply ok_ret].
  destruct (bool_decide _ || _) eqn:Hg; [apply ok_ret|]. bool_prop. apply dec_stable in H0.
  apply ok_bind; [apply ok_readNow|]. set (w1 := (readNow w).1).
  assert (svc w1 = svc w) as E1 by done. clearbody w1.
  destruct (validTimelineCommand c); simpl; [|apply ok_ret].
  destruct (cloneTimelinePayload p) as [q|] eqn:Hq; [|apply ok_ret]. apply clone_again in Hq as [-> Hq].
  apply ok_bind; [apply ok_scheduleTimer|]. set (r' := mkTLRecord _ _).
  destruct (scheduleTimer r' w1).2; [apply ok_ret|]. apply ok_bind; [|apply ok_ret].
  intros Hi. rewrite still_schedule, E1 in Hi.
  assert (1 ≤ tlRevision (item r) ≤ u64_max) as Hrev by by apply (proj1 (bi_items _ Hi) _ _ Hr).
  revert Hi. rewrite <- E1, <- (still_schedule r' w1). intros Hi. revert Hi.
  apply (ok_item _ id r r'); [by rewrite still_schedule, E1|done|done| |done].
  simpl. rewrite u64_succ_small by lia. lia.
Qed.

Lemma ok_timelineCancel w id : ok w (timelineCancel id).
Proof.
  unfold timelineCancel. apply ok_get. destruct (items (timeline (svc w)) !! id) as [r|] eqn:Hr; [|apply ok_ret].
  case_bool_decide as Hs; [apply ok_ret|]. apply ok_bind; [|apply ok_ret]. intros Hi.
  destruct (proj1 (bi_items _ Hi) _ _ Hr) as (_ & _ & ? & ?).
  revert Hi. apply (ok_item _ id r); simpl; done || lia.
Qed.

Lemma ok_broadcast c p l : (politeLogic → c ≠ CommitSettlementCommand) → ∀ acc w, ok w (broadcast c p l acc).
Proof.
  intros Hc. induction l as [|x l IH]; intros acc w; simpl; [apply ok_ret|].
  destruct (validServiceRef (parRef x)); simpl; [|apply IH].
  apply ok_bind; [by apply ok_sendApp|]. by destruct (send _ _ _ w).2.
Qed.

(** ** Finishing *)

Definition addPending (m : gmap RequestID SettlementResult) (l : list SettlementRequest) :=
  foldl (λ m r, <[ReqID r := mkSettlement (ReqID r) SettlementPending (ReqCurrency r) [] ""]> m) m l.

Definition set_settlements (m : gmap RequestID SettlementResult) (b : BattleService L) :=
  mkBattle (battleID b) (battleWallet b) (logic b) (participants b) (statuses b) (timeline b) (phase b)
    (finish b) m.

Lemma sendRequests_spec wal l : ∀ w : W,
  ∃ tr, (sendRequests wal l w).1 = mkWorld (set_settlements (addPending (settlements (svc w)) l) (svc w)) (trace w ++ tr)
    ∧ commits tr = (pair (wal, CommitSettlementCommand) <$> l) ∧ Forall proper tr.
Proof.
  induction l as [|r l IH]; intros [b t]; simpl.
  { exists []. rewrite app_nil_r. destruct b. split_and!; [done|done|constructor]. }
  unfold gbind at 1. unfold put at 1. cbn [svc trace].
  set (b1 := set_settlement _ _ b).
  destruct (ansSend t wal CommitSettlementCommand (MsgCommit r)) as [e|] eqn:Ha.
  - destruct (IH (mkWorld b1 ((t ++ [Sent wal CommitSettlementCommand (MsgCommit r) (Some e)])
                   ++ [Counted "battle_settlement_send_failed_total"]))) as (tr & HE & Hc & Ho).
    exists (Sent wal CommitSettlementCommand (MsgCommit r) (Some e)
            :: Counted "battle_settlement_send_failed_total" :: tr).
    split; [|split; [csimpl; by rewrite Hc|by repeat (constructor; [done|])]]. unfold send, count, gbind, asks, emit, gret. cbn [svc trace].
    rewrite Ha. cbn beta iota zeta. cbn [svc trace]. rewrite HE. simpl. by rewrite <- !app_assoc.
  - destruct (IH (mkWorld b1 (t ++ [Sent wal CommitSettlementCommand (MsgCommit r) None]))) as (tr & HE & Hc & Ho).
    exists (Sent wal CommitSettlementCommand (MsgCommit r) None :: tr).
    split; [|split; [csimpl; by rewrite Hc|by repeat (constructor; [done|])]]. unfold send, gbind, asks, emit, gret. cbn [svc trace].
    rewrite Ha. cbn beta iota zeta. cbn [svc trace]. rewrite HE. simpl. by rewrite <- !app_assoc.
Qed.

Lemma addPending_lookup l : ∀ m id x,
  addPending m l !! id = Some x →
  (∃ r, r ∈ l ∧ ReqID r = id ∧ x = mkSettlement id SettlementPending (ReqCurrency r) [] "") ∨ m !! id = Some x.
Proof.
  induction l as [|r l IH]; intros m id x; simpl; [by right|].
  intros [(q & Hq & Hid & ->)|Hx]%IH; [left; exists q; set_solver|].
  apply lookup_insert_Some in Hx as [[<- <-]|[_ Hx]]; [|by right]. left. exists r. set_solver.
Qed.

Lemma addPending_known l : ∀ m id,
  (∃ r, r ∈ l ∧ ReqID r = id) ∨ is_Some (m !! id) → is_Some (addPending m l !! id).
Proof.
  induction l as [|r l IH]; intros m id; simpl; [intros [(r & Hr & _)|H]; [set_solver|done]|].
  intros H. apply IH. destruct (decide (ReqID r = id)) as [<-|Hne].
  - right. rewrite lookup_insert_eq. eauto.
  - rewrite lookup_insert_ne by done. destruct H as [(q & [->|Hq]%elem_of_cons & ?)|H]; [done|eauto|eauto].
Qed.

(** Freezing a running battle, as one step. *)
Definition frozen (f : FinishBattle) (b : BattleService L) : BattleService L :=
  set_settlements (addPending (settlements b) (requestOf self <$> intentsOf f))
    (set_phase BattleSettling (set_finish (cloneFinish f) b)).

Lemma validIntents_NoDup l : ∀ seen,
  validIntents seen l = true → NoDup (intID <$> l) ∧ ∀ i, i ∈ l → intID i ∉ seen.
Proof.
  induction l as [|i l IH]; intros seen H; simpl in *; [split; [constructor|set_solver]|].
  bool_prop. destruct (IH _ H0) as [Hn Hs]. split.
  - constructor; [|done]. intros (j & Hj & Hin)%list_elem_of_fmap. specialize (Hs j Hin). set_solver.
  - intros j [->|Hj]%elem_of_cons; [done|]. specialize (Hs j Hj). set_solver.
Qed.

Lemma good_freeze w tr f p :
  validIntents ∅ (intentsOf f) = true →
  phase (svc w) = BattleRunning → commits tr = (commitOf (battleWallet (svc w)) self <$> intentsOf f) →
  Forall proper tr →
  (p = if bool_decide (intentsOf f = []) then BattleFinished else BattleSettling) →
  good w (mkWorld (set_phase p (frozen f (svc w))) (trace w ++ tr)).
Proof.
  intros [HU _]%validIntents_NoDup Hp Hc Ho Hpp [P R C U I]. rewrite Hp in P. simpl in P.
  assert (Hin : ∀ id x, addPending ∅ (requestOf self <$> intentsOf f) !! id = Some x →
    ∃ i, i ∈ intentsOf f ∧ intID i = id ∧ x = mkSettlement id SettlementPending (intCurrency i) [] "").
  { intros id x [(r & (i & -> & Hi)%list_elem_of_fmap & <- & ->)|Hx]%addPending_lookup;
      [exists i; done|]. by rewrite lookup_empty in Hx. }
  assert (Hknown : ∀ i, i ∈ intentsOf f → is_Some (addPending ∅ (requestOf self <$> intentsOf f) !! intID i)).
  { intros i Hi. apply addPending_known. left. exists (requestOf self i). split; [|done].
    by apply list_elem_of_fmap_2. }
  assert (Hrank : (1 < rank p)%nat) by (rewrite Hpp; case_bool_decide; simpl; lia).
  split; split; simpl; rewrite ?P; eauto.
  - rewrite Hpp. case_bool_decide as Hnil; simpl.
    + intros id x (i & Hi & _)%Hin. rewrite Hnil in Hi. set_solver.
    + destruct (intentsOf f) as [|i l] eqn:Hl; [done|]. split.
      * destruct (Hknown i) as [x Hx]; [set_solver|]. exists (intID i), x. split; [done|].
        apply Hin in Hx as (j & _ & _ & ->). done.
      * by intros id x (j & _ & _ & ->)%Hin.
  - intros id x (i & Hi & Hid & ->)%Hin. split_and!; [done|by left|]. simpl. eauto.
  - rewrite Hp. right. simpl. lia.
  - rewrite Hp. simpl. lia.
  - intros id x Hx. by rewrite lookup_empty in Hx.
  - intros id r Hr. exists r. split_and!; [done|lia|done].
  - lia.
  - right. rewrite Hp. split; [simpl; lia|]. unfold commits in *. by rewrite omap_app, Hc.
  - intros _ Ht. by apply Forall_app.
Qed.

Lemma ok_finishBattle w f : ok w (finishBattle f).
Proof.
  unfold finishBattle. destruct (validateRequestID (finID f)); simpl; [|apply ok_ret]. apply ok_get.
  destruct (decide (phase (svc w) = BattleRunning)) as [Hp|Hp].
  2: { rewrite bool_decide_true by done. repeat case_bool_decide; first [apply ok_ret|apply ok_reply]. }
  rewrite bool_decide_false by (intros Hx; by apply Hx).
  destruct (validIntents ∅ (intentsOf f)) eqn:Hv; simpl; [|apply ok_ret].
  destruct (bool_decide _ && _); [apply ok_ret|].
  unfold ok, gbind at 1, put at 1. simpl. unfold gbind at 1, put at 1. simpl.
  set (w1 := mkWorld _ _).
  destruct (sendRequests_spec (battleWallet (svc w)) (requestOf self <$> intentsOf f) w1) as (tr & Hs & Hc & Ho).
  rewrite <- list_fmap_compose in Hc.
  unfold gbind at 1. destruct (sendRequests _ _ w1) as [w2 []] eqn:H2. cbn [fst] in Hs. subst w2.
  case_bool_decide as Hnil.
  - etrans.
    { apply (good_freeze w tr f BattleFinished Hv Hp Hc Ho). rewrite bool_decide_true; [done|]. by apply fmap_nil_inv in Hnil. }
    apply (ok_bind _ (put (set_timeline cancelAll))); [apply ok_cancelAll|]. apply ok_reply.
  - etrans.
    { apply (good_freeze w tr f BattleSettling Hv Hp Hc Ho). rewrite bool_decide_false; [done|]. by intros E0; rewrite E0 in Hnil. }
    apply ok_reply.
Qed.

(** ** Settling *)

Definition nextPhase (p : BattlePhase) (r : SettlementResult) (m : gmap RequestID SettlementResult) : BattlePhase :=
  if bool_decide (ResState r = SettlementRejected) then BattleFailed
  else if bool_decide (allCommitted m) then BattleFinished else p.

Lemma pending_phase b id x :
  battle_inv b → settlements b !! id = Some x → ResState x = SettlementPending →
  phase b = BattleSettling ∨ phase b = BattleFailed.
Proof.
  intros [P _ _ _ _] Hx Hp. destruct (phase b); simpl in P; auto.
  - by rewrite P, lookup_empty in Hx.
  - by rewrite P, lookup_empty in Hx.
  - specialize (P _ _ Hx). simpl in P. congruence.
Qed.

(** The phase after a result arrived for a pending settlement. *)
Lemma settled_phase b r x :
  battle_inv b → settlements b !! ResID r = Some x → ResState x = SettlementPending →
  terminal (ResState r) = true →
  phase_ok (nextPhase (phase b) r (<[ResID r := r]> (settlements b))) (<[ResID r := r]> (settlements b)).
Proof.
  intros Hi Hx Hp Ht. unfold nextPhase. case_bool_decide as Hrej.
  { exists (ResID r), r. by rewrite lookup_insert_eq. }
  case_bool_decide as Hall; [done|].
  destruct (pending_phase _ _ _ Hi Hx Hp) as [E0|E0]; rewrite E0; pose proof (bi_phase _ Hi) as P;
    rewrite E0 in P; simpl in P; simpl.
  - destruct P as [_ Hno].
    assert (Hno' : map_Forall (λ _ x, ResState x ≠ SettlementRejected) (<[ResID r := r]> (settlements b)))
      by by apply map_Forall_insert_2.
    split; [|done]. apply map_not_Forall in Hall as (id & y & Hy & Hnc); [|apply _].
    exists id, y. split; [done|]. specialize (Hno' _ _ Hy). simpl in Hno', Hnc.
    apply lookup_insert_Some in Hy as [[<- <-]|[_ Hy]]; [by destruct (ResState r)|].
    destruct (bi_results _ Hi _ _ Hy) as (_ & [?|?] & _); [done|]. by destruct (ResState y).
  - destruct P as (id & y & Hy & Hj). exists id, y. split; [|done].
    rewrite lookup_insert_ne; [done|]. intros <-. congruence.
Qed.

Lemma good_settle w r x :
  settlements (svc w) !! ResID r = Some x → ResState x = SettlementPending →
  terminal (ResState r) = true → ResCurrency r = ResCurrency x →
  good w (mkWorld (set_phase (nextPhase (phase (svc w)) r (<[ResID r := r]> (settlements (svc w))))
                     (set_settlement (ResID r) r (svc w))) (trace w)).
Proof.
  intros Hx Hp Ht Hcur Hi. pose proof (settled_phase _ _ _ Hi Hx Hp Ht) as Hok.
  set (b := svc w) in *. set (p := nextPhase _ _ _) in *.
  assert (Hrk : p = phase b ∨ (rank (phase b) < rank p)%nat).
  { destruct (pending_phase _ _ _ Hi Hx Hp) as [E0|E0]; rewrite E0; unfold p, nextPhase; rewrite ?E0.
    - repeat case_bool_decide; simpl; auto; right; lia.
    - case_bool_decide; [by left|]. case_bool_decide as Hall; [|by left]. exfalso.
      pose proof (bi_phase _ Hi) as P. rewrite E0 in P. destruct P as (id & y & Hy & Hj).
      specialize (Hall id y). simpl in Hall. rewrite lookup_insert_ne in Hall by (intros <-; congruence).
      specialize (Hall Hy). congruence. }
  assert (H2 : (2 ≤ rank (phase b))%nat).
  { destruct (pending_phase _ _ _ Hi Hx Hp) as [E0|E0]; rewrite E0; simpl; lia. }
  destruct Hi as [P R C U I]. split; split; simpl; eauto.
  - intros id y Hy. apply lookup_insert_Some in Hy as [[<- <-]|[_ Hy]]; [|by apply R].
    destruct (R _ _ Hx) as (_ & _ & i & Hi & Hid & Hc). split_and!; [done|by right|].
    exists i. split_and!; congruence || done.
  - intros _ i Hi. destruct (decide (ResID r = intID i)) as [->|Hne].
    + rewrite lookup_insert_eq. eauto.
    + rewrite lookup_insert_ne by done. apply C; [lia|done].
  - intros id y Hy Hty. rewrite lookup_insert_ne; [done|]. intros <-. unfold b in *.
    rewrite Hx in Hy. simplify_eq. by rewrite Hp in Hty.
  - intros id q Hq. exists q. split_and!; [done|lia|done].
  - done.
  - left. split; [done|]. unfold b in *. lia.
Qed.

Lemma ok_applySettlement w r : ok w (applySettlement r).
Proof.
  unfold applySettlement. apply ok_get. case_bool_decide; [apply ok_ret|].
  destruct (settlements (svc w) !! ResID r) as [x|] eqn:Hx; [|apply ok_ret].
  destruct (decide (ResState x = SettlementPending)) as [Hp|Hp].
  2: { rewrite bool_decide_true by done. apply ok_reply. }
  rewrite bool_decide_false by (intros Hn; by apply Hn).
  destruct (_ || _) eqn:Hg; [apply ok_ret|]. apply orb_false_iff in Hg as [Ht%negb_false_iff Hc].
  apply bool_decide_eq_false, dec_stable in Hc.
  pose proof (good_settle w r x Hx Hp Ht Hc) as Hgood. unfold nextPhase in Hgood.
  unfold ok, gbind at 1, put at 1. cbn [svc trace].
  destruct (decide (ResState r = SettlementRejected)) as [Hj|Hj].
  - rewrite bool_decide_true in Hgood |- * by done. etrans; [exact Hgood|].
    apply (ok_bind _ (put (set_timeline cancelAll))); [apply ok_cancelAll|apply ok_reply].
  - rewrite bool_decide_false in Hgood |- * by done. unfold gbind at 1, get at 1. cbn [svc trace].
    destruct (decide (allCommitted (<[ResID r := r]> (settlements (svc w))))) as [Ha|Ha].
    + rewrite (bool_decide_true (allCommitted _)) in Hgood by done.
      rewrite (bool_decide_true (map_Forall _ _)) by exact Ha. simpl negb. cbv iota. etrans; [exact Hgood|].
      apply (ok_bind _ (put (set_timeline cancelAll))); [apply ok_cancelAll|apply ok_reply].
    + rewrite (bool_decide_false (allCommitted _)) in Hgood by done.
      rewrite (bool_decide_false (map_Forall _ _)) by exact Ha. simpl negb. cbv iota. etrans; [exact Hgood|].
      apply ok_reply.
Qed.

(** ** Programs of the logic, and commands *)

Lemma ok_runOp active w op : (politeLogic → politeOp op) → ok w (runOp active op).
Proof.
  intros Hop. unfold runOp. destruct active, op as [v| |d c p|t c p|id d c p|id| |f|c p|tg c p]; simpl;
    try apply ok_ret;
    try (apply ok_bind; [|apply ok_ret];
         first [ apply ok_reply | apply ok_readNow | apply ok_timelineAfter | apply ok_timelineAt
               | apply ok_timelineReplace | apply ok_timelineCancel | apply ok_finishBattle ]).
  - apply ok_get. apply ok_bind; [by apply ok_broadcast|apply ok_ret].
  - destruct (validServiceRef tg); simpl; [|apply ok_ret]. apply ok_bind; [by apply ok_sendApp|apply ok_ret].
Qed.

Lemma ok_runProg {X} (p : bprog X) : (politeLogic → polite p) → ∀ w, ok w (runProg p).
Proof.
  induction p as [x|op k IH]; intros Hp w; simpl; [apply ok_ret|].
  apply ok_bind; [apply ok_runOp|apply IH]; intros Hl; by apply Hp.
Qed.

Lemma ok_logic w l : ok w (put (set_logic l)).
Proof.
  intros [P R C U I]. split; split; simpl; eauto; [|lia].
  intros id r Hr. exists r. split_and!; [done|lia|done].
Qed.

Lemma ok_handleLogic w c p : ok w (handleLogic c p).
Proof.
  unfold handleLogic. apply ok_get. apply ok_bind; [apply ok_runProg; by intros [? _]|]. apply ok_bind; [apply ok_logic|apply ok_ret].
Qed.

Lemma ok_replySnapshot w : ok w replySnapshot.
Proof.
  unfold replySnapshot. apply ok_bind.
  - unfold snapshot. apply ok_get. apply ok_bind; [apply ok_runProg; by intros [_ ?]|]. apply ok_bind; [apply ok_logic|].
    case_match; [|apply ok_ret]. apply ok_get, ok_ret.
  - case_match; [apply ok_reply|apply ok_ret].
Qed.

Lemma ok_start w okPayload : ok w (start okPayload).
Proof.
  unfold start. destruct okPayload; simpl; [|apply ok_ret]. apply ok_get.
  case_bool_decide as Hp; [apply ok_ret|]. apply ok_bind; [|apply ok_replySnapshot].
  intros [P R C U I]. split; split; simpl; rewrite ?Hp in *; eauto.
  - intros Hr. simpl in Hr. lia.
  - intros id r Hr. exists r. split_and!; [done|lia|done].
  - lia.
Qed.

Lemma ok_setParticipantConnected w p c : ok w (setParticipantConnected p c).
Proof.
  unfold setParticipantConnected. apply ok_get. destruct (participants (svc w) !! p); [|apply ok_ret].
  apply ok_bind; [|apply ok_reply].
  intros [P R C U I]. split; split; simpl; eauto; [|lia].
  intros id r Hr. exists r. split_and!; [done|lia|done].
Qed.

Lemma ok_fire w f : ok w (fire f).
Proof.
  unfold fire. apply ok_get. destruct (items (timeline (svc w)) !! fireID f) as [r|] eqn:Hr.
  2: { apply ok_bind; [apply ok_count|apply ok_ret]. }
  destruct (_ || _) eqn:Hg; [apply ok_bind; [apply ok_count|apply ok_ret]|].
  destruct (bool_decide (phase (svc w) ≠ BattleRunning)); [apply ok_bind; [apply ok_count|apply ok_ret]|].
  apply orb_false_iff in Hg as [[Hs _]%orb_false_iff _]. apply bool_decide_eq_false, dec_stable in Hs.
  apply ok_bind.
  - intros Hi. destruct (proj1 (bi_items _ Hi) _ _ Hr) as (_ & _ & ? & ?).
    revert Hi. apply (ok_item _ _ r); simpl; done || lia.
  - destruct (cloneTimelinePayload (payload r)); [apply ok_handleLogic|apply ok_ret].
Qed.

Lemma ok_Handle w c : ok w (Handle c).
Proof.
  destruct c as [o|o|p c|f|r|f|st|c p]; simpl.
  - apply ok_start.
  - destruct o; [apply ok_replySnapshot|apply ok_ret].
  - apply ok_setParticipantConnected.
  - apply ok_finishBattle.
  - apply ok_applySettlement.
  - apply ok_fire.
  - apply ok_ret.
  - apply ok_get. case_bool_decide; [apply ok_ret|apply ok_handleLogic].
Qed.
End Inv.
#[export] Hint Resolve ok_cancelAll ok_scheduleTimer ok_schedule ok_ret ok_readNow ok_after ok_count ok_reply ok_sendApp : gsr.
