(* ===== verification/BattleFacts.v ===== *)
(** * What a battle guarantees

    Reachable battles, with everything they asked of the wallet; the meaning of
    their phases; the finality of what has been decided; and the fencing of
    timeline deliveries. *)

From stdpp Require Import prelude gmap strings list sorting relations.
From Stdlib Require Import ZArith Lia Strings.Byte.
From S2P Require Import Prelude Types GoText Game GoValue Battle BattleInv.

Local Open Scope Z_scope.

Section Facts.
Context {L : Type} {BL : BattleLogic L} {MA : Marshal}.

(** A battle with everything it has done so far, and the settlement requests among
    it: whom they went to, under which command. *)
Record history := mkHistory { battle : BattleService L; log : list (effect goValue battleReply) }.
Definition asked (h : history) : list (ServiceRef * CommandID * SettlementRequest) := commits (log h).

(** One command, from any sender and in any environment, or [Stop]. *)
Inductive battle_step (me : ServiceRef) (h : history) : history → Prop :=
| bs_command (E : Env goValue battleReply) c b tr e :
    self (Env := E) = me → runBattle E c (battle h) = (b, tr, e) →
    battle_step me h (mkHistory b (log h ++ tr))
| bs_stop : battle_step me h (mkHistory (set_timeline cancelAll (battle h)) (log h)).

Definition battle_initial (h : history) : Prop :=
  log h = [] ∧ ∃ id ps wallet l, NewBattleService id ps wallet l = Ok (battle h).

Definition battle_reachable (me : ServiceRef) (h : history) : Prop :=
  ∃ h0, battle_initial h0 ∧ rtc (battle_step me) h0 h.

(** The wallet is asked for nothing before the finish, then for exactly its intents. *)
Definition asked_ok (me : ServiceRef) (h : history) : Prop :=
  asked h = if bool_decide (1 < rank (phase (battle h)))%nat
            then commitOf (battleWallet (battle h)) me <$> intentsOf (finish (battle h)) else [].
(** A logic that keeps out of it sends nothing else under the wallet's command. *)
Definition log_ok (me : ServiceRef) (h : history) : Prop := asked_ok me h ∧ (politeLogic (L := L) → Forall proper (log h)).

(** What has been decided stays decided. *)
Record later (b b' : BattleService L) : Prop := {
  la_phase : phase b' = phase b ∨ (rank (phase b) < rank (phase b'))%nat;
  la_finish : (1 < rank (phase b))%nat → finish b' = finish b;
  la_settled : ∀ id x, settlements b !! id = Some x → terminal (ResState x) = true →
    settlements b' !! id = Some x;
  la_items : ∀ id r, items (timeline b) !! id = Some r →
    ∃ r', items (timeline b') !! id = Some r' ∧ tlRevision (item r) ≤ tlRevision (item r')
      ∧ (tlState (item r) ≠ TimelineScheduled → r' = r)
}.

Lemma evolves_later {E : Env goValue battleReply} w w' : evolves w w' → later (svc w) (svc w').
Proof. by intros []. Qed.

#[global] Instance later_preorder : PreOrder later.
Proof.
  split.
  - intros b. split; eauto. intros id r Hr. exists r. split_and!; [done|lia|done].
  - intros b1 b2 b3 [P1 F1 S1 I1] [P2 F2 S2 I2]. split.
    + destruct P1 as [P1|P1], P2 as [P2|P2]; [left; congruence|right; congruence|right; congruence|right; lia].
    + intros Hr. rewrite F2, F1; [done|done|]. destruct P1 as [->|?]; lia.
    + eauto.
    + intros id r Hr. destruct (I1 _ _ Hr) as (r2 & H2 & R2 & D2). destruct (I2 _ _ H2) as (r3 & H3 & R3 & D3).
      exists r3. split_and!; [done|lia|]. intros Hs. specialize (D2 Hs). subst. by apply D3.
Qed.

Lemma battle_step_inv me h h' :
  battle_step me h h' → battle_inv (battle h) → log_ok me h →
  battle_inv (battle h') ∧ log_ok me h' ∧ later (battle h) (battle h').
Proof.
  intros [E c b tr e Hme Hr|] Hi [Ha Hp].
  - unfold runBattle in Hr. destruct (Handle c (mkWorld (battle h) [])) as [w e0] eqn:Hh. simplify_eq.
    pose proof (ok_Handle (mkWorld (battle h) []) c) as Hok. unfold ok in Hok. rewrite Hh in Hok.
    destruct (Hok Hi) as [Hi' Hev]. simpl in *. split; [done|]. split; [|by apply (evolves_later _ _ Hev)].
    split; [|intros Hl; simpl; apply Forall_app; split; [by apply Hp|by apply (ev_proper _ _ Hev)]].
    unfold asked_ok in *. unfold asked, commits in *. simpl. rewrite omap_app, Ha.
    destruct (ev_static _ _ Hev) as (Hwal & _ & _). simpl in Hwal. rewrite Hwal.
    destruct (ev_commits _ _ Hev) as [[Hc Hle]|[[Hlo Hhi] Hc]]; unfold commits in Hc; rewrite Hc; simpl in *.
    + rewrite app_nil_r. destruct (ev_phase _ _ Hev) as [->|Hlt]; simpl in *.
      * case_bool_decide; [|done]. by rewrite (ev_frozen _ _ Hev) by done.
      * case_bool_decide as H1; case_bool_decide as H2; try done; [by rewrite (ev_frozen _ _ Hev) by done|lia..].
    + rewrite bool_decide_false, bool_decide_true by lia. done.
  - pose proof (ok_cancelAll (E := {| self := me; source := me; ansSend _ _ _ _ := None; ansReply _ _ := None;
      ansAfter _ _ _ _ := None; ansSubmit _ _ := None; ansRequest _ _ := None; ansClock _ := 0 |})
      (mkWorld (battle h) [])) as Hok.
    destruct (Hok Hi) as [Hi' Hev]. split; [done|]. split; [by split|by apply (evolves_later _ _ Hev)].
Qed.

Lemma battle_steps_inv me h h' :
  rtc (battle_step me) h h' → battle_inv (battle h) → log_ok me h →
  battle_inv (battle h') ∧ log_ok me h' ∧ later (battle h) (battle h').
Proof.
  induction 1 as [h|h1 h2 h3 Hs _ IH]; intros Hi Ha; [done|].
  destruct (battle_step_inv _ _ _ Hs Hi Ha) as (Hi2 & Ha2 & L2). destruct (IH Hi2 Ha2) as (? & ? & ?).
  split_and!; [done|done|by etrans].
Qed.

Lemma battle_reachable_inv me h : battle_reachable me h → battle_inv (battle h) ∧ log_ok me h.
Proof.
  intros (h0 & (Ha & id & ps & wal & l & Hn) & Hs). destruct h0 as [b0 a0]. simpl in *. subst.
  unfold NewBattleService in Hn. destruct l as [l|]; [|done]. open_step Hn.
  edestruct (battle_steps_inv me _ _ Hs) as (? & ? & _); [| |done].
  - split; simpl; try done; [intros; lia|constructor].
  - split; [done|by constructor].
Qed.

(** C20. Phases mean what they say, for every game logic.  A battle sends its wallet
    no settlement request before it is finished and then, once each and in order,
    exactly one [CommitSettlement] per frozen intent; if the logic does not itself use
    that command (nothing stops it from doing so through its context), no other
    message of the battle bears it, whoever the addressee.  The battle is settling
    only while a result is outstanding and none was a rejection, finished only when
    every intent was committed, and failed only because one was rejected. *)
Theorem battle_settles me h :
  battle_reachable me h →
  asked h = (if bool_decide (1 < rank (phase (battle h)))%nat
             then (λ i, (battleWallet (battle h), CommitSettlementCommand, requestOf me i))
                    <$> intentsOf (finish (battle h)) else [])
  ∧ NoDup (ReqID ∘ snd <$> asked h)
  ∧ (politeLogic (L := L) → ∀ t m a, Sent t CommitSettlementCommand m a ∈ log h →
       ∃ r, m = MsgCommit r ∧ (t, CommitSettlementCommand, r) ∈ asked h)
  ∧ match phase (battle h) with
    | BattleCreated | BattleRunning => settlements (battle h) = ∅
    | BattleSettling =>
        (∃ id x, settlements (battle h) !! id = Some x ∧ ResState x = SettlementPending)
        ∧ (∀ id x, settlements (battle h) !! id = Some x → ResState x ≠ SettlementRejected)
    | BattleFinished =>
        ∀ i, i ∈ intentsOf (finish (battle h)) →
          ∃ x, settlements (battle h) !! intID i = Some x ∧ ResState x = SettlementCommitted
               ∧ ResCurrency x = intCurrency i
    | BattleFailed =>
        ∃ i x, i ∈ intentsOf (finish (battle h)) ∧ settlements (battle h) !! intID i = Some x
               ∧ ResState x = SettlementRejected
    end.
Proof.
  intros [Hi [Ha Hlog]]%battle_reachable_inv. split; [exact Ha|]. split; [|split].
  { rewrite Ha. case_bool_decide; [|constructor]. rewrite <- list_fmap_compose. apply Hi. }
  { intros Hp t m a Hin. specialize (Hlog Hp). rewrite Forall_forall in Hlog. specialize (Hlog _ Hin eq_refl).
    destruct m as [r| | |]; try done. exists r. split; [done|]. apply list_elem_of_omap. by exists (Sent t CommitSettlementCommand (MsgCommit r) a). }
  pose proof (bi_phase _ Hi) as P. pose proof (bi_complete _ Hi) as C.
  destruct (phase (battle h)); simpl in *; try done.
  - intros i Hin. destruct (C ltac:(lia) i Hin) as [x Hx]. exists x. split_and!; [done|by apply (P _ _ Hx)|].
    destruct (bi_results _ Hi _ _ Hx) as (_ & _ & j & Hj & Hid & <-). f_equal.
    pose proof (bi_unique _ Hi) as U. apply list_elem_of_lookup in Hj as [a Hj], Hin as [c Hin].
    rewrite NoDup_alt in U. assert (a = c); [|congruence].
    eapply U; [by rewrite list_lookup_fmap, Hj|]. by rewrite list_lookup_fmap, Hin, Hid.
  - destruct P as (id & x & Hx & Hr). destruct (bi_results _ Hi _ _ Hx) as (_ & _ & j & Hj & <- & _). eauto.
Qed.

(** What a battle has decided is final.  Whatever follows, its phase never goes
    back and a finished or failed battle stays so; a frozen finish and a settled
    result never change; a fired or cancelled timeline item never changes and the
    revision of an item never decreases. *)
Theorem battle_decisions_final me h h' :
  battle_reachable me h → rtc (battle_step me) h h' →
  later (battle h) (battle h')
  ∧ (phase (battle h) = BattleFinished ∨ phase (battle h) = BattleFailed → phase (battle h') = phase (battle h)).
Proof.
  intros [Hi Ha]%battle_reachable_inv Hs. destruct (battle_steps_inv _ _ _ Hs Hi Ha) as (_ & _ & HL). split; [done|].
  intros Hp. destruct (la_phase _ _ HL) as [?|Hr]; [done|].
  destruct Hp as [E|E]; rewrite E in Hr; destruct (phase (battle h')); simpl in Hr; lia.
Qed.

(** ** Timeline deliveries *)

Definition ignored (b : BattleService L) : BattleService L * list (effect goValue battleReply) * error gameError :=
  (b, [Counted "battle_timeline_ignored_total"], None).

(** The delivery the timeline is waiting for. *)
Definition due (b : BattleService L) (f : timelineFire) : Prop :=
  phase b = BattleRunning
  ∧ match items (timeline b) !! fireID f with
    | Some r => tlState (item r) = TimelineScheduled ∧ tlRevision (item r) = fireRevision f
                ∧ tlCommand (item r) = fireCommand f
    | None => False
    end.

#[global] Instance due_dec b f : Decision (due b f).
Proof. unfold due. destruct (items (timeline b) !! fireID f); apply _. Defined.

Lemma fire_not_due (E : Env goValue battleReply) b f : ¬ due b f → runBattle E (TimelineFire f) b = ignored b.
Proof.
  intros Hn. unfold runBattle. simpl. unfold fire, gbind at 1, get at 1. simpl.
  destruct (items (timeline b) !! fireID f) as [r|] eqn:Hr; [|done].
  destruct (_ || _) eqn:Hg; [done|].
  destruct (bool_decide (phase b ≠ BattleRunning)) eqn:Hp; [done|]. exfalso. apply Hn.
  apply bool_decide_eq_false, dec_stable in Hp. apply orb_false_iff in Hg as [[H1 H2]%orb_false_iff H3].
  apply bool_decide_eq_false, dec_stable in H1. bool_prop. split; [done|]. by rewrite Hr.
Qed.

(** A due delivery marks its item and hands the stored payload to the logic. *)
Lemma fire_due (E : Env goValue battleReply) b f r :
  due b f → items (timeline b) !! fireID f = Some r → cloneTimelinePayload (payload r) = Ok (payload r) →
  Handle (TimelineFire f) (mkWorld b [])
  = handleLogic (fireCommand f) (payload r)
      (mkWorld (set_items (insert (fireID f) (set_state r TimelineFired)) b) []).
Proof.
  intros [Hp Hd] Hr Hcl. rewrite Hr in Hd. destruct Hd as (Hs & Hrev & Hc). simpl. unfold fire, gbind at 1, get at 1. simpl.
  rewrite Hr, Hs, Hrev, Hc, !Z.eqb_refl, Hp. unfold gbind, put. simpl. by rewrite Hcl.
Qed.

(** A timeline item is delivered to the logic at most once, only while the
    battle is running and only by the timer of its current revision.  A delivery
    that is due marks the item and runs the logic with the item's own command and
    payload; any later delivery for that item, by whatever timer, is ignored: it
    changes nothing and does nothing but count. *)
Theorem timeline_fires_once me h (E : Env goValue battleReply) f b' tr e h' :
  battle_reachable me h → self (Env := E) = me →
  runBattle E (TimelineFire f) (battle h) = (b', tr, e) →
  (¬ due (battle h) f ∧ (b', tr, e) = ignored (battle h))
  ∨ (∃ r, items (timeline (battle h)) !! fireID f = Some r
       ∧ Handle (TimelineFire f) (mkWorld (battle h) [])
         = handleLogic (fireCommand f) (payload r)
             (mkWorld (set_items (insert (fireID f) (set_state r TimelineFired)) (battle h)) [])
       ∧ (rtc (battle_step me) (mkHistory b' (log h ++ tr)) h' →
          ∀ (E' : Env goValue battleReply) f', fireID f' = fireID f →
            runBattle E' (TimelineFire f') (battle h') = ignored (battle h'))).
Proof.
  intros [Hi Ha]%battle_reachable_inv Hme Hrun.
  destruct (decide (due (battle h) f)) as [Hd|Hd].
  2: { left. split; [done|]. rewrite <- Hrun. by apply fire_not_due. }
  right. destruct (items (timeline (battle h)) !! fireID f) as [r|] eqn:Hr.
  2: { destruct Hd as [_ Hd]. rewrite Hr in Hd. destruct Hd. }
  assert (Hcl : cloneTimelinePayload (payload r) = Ok (payload r)) by by apply (proj1 (bi_items _ Hi) _ _ Hr).
  pose proof (fire_due E _ _ _ Hd Hr Hcl) as Hh. exists r. split_and!; [done|done|].
  intros Hs E' f' Hid. apply fire_not_due.
  set (h1 := mkHistory b' (log h ++ tr)) in *.
  destruct (battle_step_inv me h h1) as (Hi1 & Ha1 & _); [exact (bs_command me h E _ _ _ _ Hme Hrun)|done|done|].
  (* the item is fired when the logic starts, hence ever after *)
  assert (Hfired : ∃ q, items (timeline b') !! fireID f = Some q ∧ tlState (item q) = TimelineFired).
  { unfold runBattle in Hrun. rewrite Hh in Hrun.
    set (w1 := mkWorld (set_items _ (battle h)) []) in Hrun.
    destruct (handleLogic (fireCommand f) (payload r) w1) as [w2 e2] eqn:Hw2. simplify_eq.
    assert (Hinv1 : battle_inv (svc w1)).
    { apply (ok_item (E := E) (mkWorld (battle h) []) (fireID f) r); simpl; try done.
      - destruct Hd as [_ Hd]. rewrite Hr in Hd. apply Hd.
      - destruct (proj1 (bi_items _ Hi) _ _ Hr) as (_ & _ & ? & _). lia. }
    pose proof (ok_handleLogic (E := E) w1 (fireCommand f) (payload r) Hinv1) as [_ Hev]. rewrite Hw2 in Hev.
    destruct (ev_items (E := E) _ _ Hev (fireID f) (set_state r TimelineFired)) as (q & Hq & _ & Hfin).
    { simpl. apply lookup_insert_eq. }
    exists q. split; [done|]. by rewrite Hfin. }
  destruct Hfired as (q & Hq & Hqs). destruct (battle_steps_inv me _ _ Hs Hi1 Ha1) as (_ & _ & HL).
  destruct (la_items _ _ HL _ _ Hq) as (q' & Hq' & _ & Hfin). rewrite Hfin in Hq' by congruence.
  intros [_ Hd']. rewrite Hid, Hq' in Hd'. destruct Hd'. congruence.
Qed.
End Facts.

(** ** A battle to try things on *)

(** Command 7 plans command 8 in five nanoseconds; command 8 counts. *)
Definition demoLogic : BattleLogic nat := {|
  HandleBattle n c _ :=
    if c =? 7 then BDo (OAfter 5 8 None) (λ _, BRet (n, None)) else BRet (S n, None);
  LogicSnapshot n := BRet (n, Ok [])
|}.
Definition demoMarshal : Marshal := {| marshals _ := true |}.
#[local] Existing Instances demoLogic demoMarshal.

Definition demoMe : ServiceRef := mkRef "game" 4.
Definition demoWallet : ServiceRef := mkRef "game" 2.
Definition battleEnv (src : ServiceRef) : Env goValue battleReply := {|
  self := demoMe; source := src; ansSend _ _ _ _ := None; ansReply _ _ := None; ansAfter _ _ _ _ := None;
  ansSubmit _ _ := None; ansRequest _ _ := None; ansClock _ := 100
|}.

Definition play (src : ServiceRef) (c : battleCommand) (h : history (L := nat)) : history :=
  let '(b, tr, _) := runBattle (battleEnv src) c (battle h) in mkHistory b (log h ++ tr).

Definition demoBattle0 : history (L := nat) :=
  mkHistory (mkBattle 42 demoWallet 0%nat {["alice" := mkParticipant "alice" zeroRef]}
               {["alice" := ParticipantOffline]} (mkTimeline 0 ∅) BattleCreated (mkFinish "" None) ∅) [].

Lemma play_steps src c h : rtc (battle_step demoMe) h (play src c h).
Proof.
  unfold play. destruct (runBattle (battleEnv src) c (battle h)) as [[b tr] e] eqn:Hr.
  apply rtc_once. by eapply (bs_command _ _ (battleEnv src)).
Qed.

Definition demoPlanned : history := play demoMe (LogicCommand 7 None) (play demoMe (StartBattle true) demoBattle0).

Lemma demoBattle0_reachable : battle_reachable demoMe demoBattle0.
Proof.
  exists demoBattle0. split; [|apply rtc_refl]. split; [done|].
  exists 42, [mkParticipant "alice" zeroRef], demoWallet, (Some 0%nat). by vm_compute.
Qed.

Lemma reachable_play src c h : battle_reachable demoMe h → battle_reachable demoMe (play src c h).
Proof. intros (h0 & H0 & Hs). exists h0. split; [done|]. etrans; [done|apply play_steps]. Qed.

Lemma timeline_fires_once_witness :
  runBattle (battleEnv demoMe) (TimelineFire (mkFire 1 1 8))
    (battle (play demoMe (TimelineFire (mkFire 1 1 8)) demoPlanned))
  = ignored (battle (play demoMe (TimelineFire (mkFire 1 1 8)) demoPlanned)).
Proof.
  pose (h := play demoMe (TimelineFire (mkFire 1 1 8)) demoPlanned).
  destruct (runBattle (battleEnv demoMe) (TimelineFire (mkFire 1 1 8)) (battle demoPlanned)) as [[b tr] e] eqn:Hr.
  assert (Hh : h = mkHistory b (log demoPlanned ++ tr)) by (unfold h, play; by rewrite Hr).
  destruct (timeline_fires_once demoMe demoPlanned (battleEnv demoMe) (mkFire 1 1 8) b tr e h) as [[Hn _]|(r & _ & _ & H)].
  - do 2 apply reachable_play. apply demoBattle0_reachable.
  - done.
  - exact Hr.
  - exfalso. apply Hn. by vm_compute.
  - apply H; [rewrite <- Hh; apply rtc_refl|done].
Defined.

Definition demoFinish : FinishBattle :=
  mkFinish "finish-1" (Some [mkIntent "settle-1" "coin" [mkEntry "alice" 10]]).
Definition demoSettling : history := play demoMe (FinishBattle_ demoFinish) demoPlanned.
Definition demoFinished : history :=
  play demoWallet (ApplySettlementResult (mkSettlement "settle-1" SettlementCommitted "coin" [] "")) demoSettling.

Lemma demoSettling_reachable : battle_reachable demoMe demoSettling.
Proof. do 3 apply reachable_play. apply demoBattle0_reachable. Qed.

Lemma demoLogic_polite : politeLogic (L := nat).
Proof. split; [|done]. intros l c p. simpl. by destruct (c =? 7). Qed.

Lemma battle_settles_witness :
  asked demoSettling = [(demoWallet, CommitSettlementCommand, mkRequest "settle-1" demoMe "coin" [mkEntry "alice" 10])]
  ∧ NoDup (ReqID ∘ snd <$> asked demoSettling)
  ∧ ∀ t m a, Sent t CommitSettlementCommand m a ∈ log demoSettling → t = demoWallet.
Proof.
  destruct (battle_settles demoMe demoSettling demoSettling_reachable) as (H1 & H2 & H3 & _).
  assert (asked demoSettling = [(demoWallet, CommitSettlementCommand, mkRequest "settle-1" demoMe "coin" [mkEntry "alice" 10])])
    as H1' by (rewrite H1; by vm_compute).
  split_and!; [exact H1'|exact H2|]. intros t m a Hin.
  destruct (H3 demoLogic_polite t m a Hin) as (q & _ & Hq). rewrite H1' in Hq.
  apply list_elem_of_singleton in Hq. by injection Hq.
Defined.

Lemma battle_decisions_final_witness :
  phase (battle demoFinished) = BattleFinished
  ∧ phase (battle (play demoWallet (ApplySettlementResult
       (mkSettlement "settle-1" SettlementRejected "coin" [] "")) demoFinished)) = phase (battle demoFinished).
Proof.
  assert (Hf : phase (battle demoFinished) = BattleFinished) by by vm_compute.
  split; [exact Hf|]. apply (battle_decisions_final demoMe demoFinished).
  - apply reachable_play, demoSettling_reachable.
  - apply play_steps.
  - by left.
Defined.

(** ** A retry that is refused *)

(** An identical [FinishBattle] is repeated without settlements (a nil slice): the
    frozen copy holds an empty slice, which [reflect.DeepEqual] tells from nil, so
    the repetition is refused as a conflict instead of answered with the phase. *)
Theorem finish_retry_refused :
  let f := mkFinish "finish-1" None in
  let h := play demoMe (FinishBattle_ f) demoPlanned in
  phase (battle h) = BattleFinished ∧
  (runBattle (battleEnv demoMe) (FinishBattle_ f) (battle h)).2 = Some ErrRequestConflict.
Proof. by vm_compute. Qed.
