(* ===== verification/Room.v ===== *)
(** * The room service

    [src/game/room.go]: members up to a capacity, battle requests in flight, and
    the index of the battles a room has. *)

From stdpp Require Import prelude gmap strings list sorting relations.
From Stdlib Require Import ZArith Lia.
From S2P Require Import Prelude Types GoText Game.

Local Open Scope Z_scope.
Local Open Scope game_scope.

Inductive RoomPhase := RoomOpen | RoomClosed.
#[global] Instance RoomPhase_eq_dec : EqDecision RoomPhase.
Proof. solve_decision. Defined.

Record RoomSnapshot := mkRoomSnapshot {
  rsID : RoomID; rsPhase : RoomPhase; rsMembers : list PlayerID; rsBattles : gmap BattleID ServiceRef
}.
Record BattleCreatedResult := mkCreated { cdRequest : RequestID; cdBattle : BattleID; cdRef : ServiceRef }.
Record BattleFinishedNotice := mkNotice { ntBattle : BattleID; ntRef : ServiceRef }.

(** The [Factory] of a configuration: nil, a nil pointer in an interface, or one. *)
Inductive factory := FactoryNil | FactoryNilPointer | FactorySet.

Record RoomService := mkRoom {
  roomID : RoomID;
  capacity : Z;
  hasFactory : bool;
  factoryRef : ServiceRef;
  roomPhase : RoomPhase;
  members : gset PlayerID;
  pending : gmap RequestID BattleCreateRequest;
  battles : gmap BattleID ServiceRef
}.

Definition NewRoomService (id : RoomID) (cap : Z) (f : factory) (ref : ServiceRef)
  : res gameError RoomService :=
  if negb (validateID id) || (cap <=? 0) then Err ErrInvalidConfig
  else
    match f with
    | FactoryNilPointer => Err ErrInvalidConfig
    | FactoryNil => if bool_decide (ref ≠ zeroRef) then Err ErrInvalidConfig
                    else Ok (mkRoom id cap false ref RoomOpen ∅ ∅ ∅)
    | FactorySet => if negb (validServiceRef ref) then Err ErrInvalidConfig
                    else Ok (mkRoom id cap true ref RoomOpen ∅ ∅ ∅)
    end.

Definition set_members (m : gset PlayerID) (s : RoomService) :=
  mkRoom (roomID s) (capacity s) (hasFactory s) (factoryRef s) (roomPhase s) m (pending s) (battles s).
Definition set_pending (p : gmap RequestID BattleCreateRequest) (s : RoomService) :=
  mkRoom (roomID s) (capacity s) (hasFactory s) (factoryRef s) (roomPhase s) (members s) p (battles s).
Definition set_battles (b : gmap BattleID ServiceRef) (s : RoomService) :=
  mkRoom (roomID s) (capacity s) (hasFactory s) (factoryRef s) (roomPhase s) (members s) (pending s) b.

(** [sortedPlayerIDs] *)
Definition sortedPlayerIDs (m : gset PlayerID) : list PlayerID := merge_sort String.le (elements m).

Definition roomSnapshot (s : RoomService) : RoomSnapshot :=
  mkRoomSnapshot (roomID s) (roomPhase s) (sortedPlayerIDs (members s)) (battles s).

(** The loop over the players of a request; the first failing test decides. *)
Fixpoint checkPlayers (s : RoomService) (first : bool) (previous : PlayerID) (l : list PlayerID)
  : error gameError :=
  match l with
  | [] => None
  | p :: l =>
      if negb (validateID p) || negb (first || String.ltb previous p) then Some ErrInvalidCommand
      else if negb (bool_decide (p ∈ members s)) then Some ErrStateConflict
      else checkPlayers s false p l
  end.

Definition validateCreateRequest (s : RoomService) (r : BattleCreateRequest) : error gameError :=
  if negb (validateRequestID (creID r)) || bool_decide (creRoom r ≠ roomID s)
     || (Z.of_nat (length (crePlayers r)) =? 0)
  then Some ErrInvalidCommand
  else checkPlayers s true "" (crePlayers r).

Inductive roomKind := KPlayer | KOther.

Inductive roomCommand :=
| JoinRoom (p : PlayerID)
| LeaveRoom (p : PlayerID)
| StartRoomBattle (r : BattleCreateRequest)
| ApplyBattleCreated (c : BattleCreatedResult)
| ApplyBattleFinished (n : BattleFinishedNotice)
| GetRoomSnapshot
| RoomBadPayload (k : roomKind)
| RoomUnknown.

Section Room.
Context {V : Type} {E : Env V RoomSnapshot}.
Local Notation M := (G V RoomSnapshot RoomService).

Definition replyRoom : M (error gameError) := s ← get (λ s, s); reply (roomSnapshot s).

Definition join (p : PlayerID) : M (error gameError) :=
  if negb (validateID p) then gret (Some ErrInvalidID)
  else
    s ← get (λ s, s);
    if bool_decide (p ∈ members s) then replyRoom
    else if Z.of_nat (size (members s)) =? capacity s then gret (Some ErrStateConflict)
    else put (set_members ({[p]} ∪ members s)) ;; replyRoom.

Definition leave (p : PlayerID) : M (error gameError) :=
  if negb (validateID p) then gret (Some ErrInvalidID)
  else
    s ← get (λ s, s);
    if negb (bool_decide (p ∈ members s)) then gret (Some ErrNotFound)
    else put (set_members (members s ∖ {[p]})) ;; replyRoom.

Definition startRoom (r : BattleCreateRequest) : M (error gameError) :=
  s ← get (λ s, s);
  match validateCreateRequest s r with
  | Some e => gret (Some e)
  | None =>
      if negb (hasFactory s) then gret (Some ErrUnavailable)
      else
        match pending s !! creID r with
        | Some current =>
            if bool_decide (current ≠ r) then gret (Some ErrRequestConflict) else replyRoom
        | None =>
            put (set_pending (<[creID r := r]> (pending s))) ;;
            err ← requestBattle r;
            match err with
            | Some e => put (λ s, set_pending (delete (creID r) (pending s)) s) ;; gret (Some e)
            | None => replyRoom
            end
        end
  end.

Definition applyCreated (c : BattleCreatedResult) : M (error gameError) :=
  s ← get (λ s, s);
  if bool_decide (source ≠ factoryRef s) then gret (Some ErrUnauthorized)
  else
    match pending s !! cdRequest c with
    | None => gret (Some ErrNotFound)
    | Some request =>
        if (cdBattle c =? 0) || negb (validServiceRef (cdRef c)) then gret (Some ErrInvalidCommand)
        else
          match battles s !! cdBattle c with
          | Some _ => gret (Some ErrStateConflict)
          | None =>
              put (set_pending (delete (creID request) (pending s))) ;;
              put (λ s, set_battles (<[cdBattle c := cdRef c]> (battles s)) s) ;;
              replyRoom
          end
    end.

Definition applyFinished (n : BattleFinishedNotice) : M (error gameError) :=
  s ← get (λ s, s);
  if (ntBattle n =? 0) || negb (validServiceRef (ntRef n)) then gret (Some ErrInvalidCommand)
  else
    match battles s !! ntBattle n with
    | None => gret (Some ErrNotFound)
    | Some ref =>
        if bool_decide (ref ≠ ntRef n) then gret (Some ErrNotFound)
        else if bool_decide (source ≠ ref) then gret (Some ErrUnauthorized)
        else put (set_battles (delete (ntBattle n) (battles s))) ;; replyRoom
    end.

Definition Handle (c : roomCommand) : M (error gameError) :=
  s ← get (λ s, s);
  if bool_decide (roomPhase s ≠ RoomOpen) && negb (match c with GetRoomSnapshot => true | _ => false end)
  then gret (Some ErrClosed)
  else
    match c with
    | JoinRoom p => join p
    | LeaveRoom p => leave p
    | StartRoomBattle r => startRoom r
    | ApplyBattleCreated c => applyCreated c
    | ApplyBattleFinished n => applyFinished n
    | GetRoomSnapshot => replyRoom
    | RoomBadPayload KPlayer => gret (Some ErrInvalidID)
    | RoomBadPayload KOther => gret (Some ErrInvalidCommand)
    | RoomUnknown => gret (Some (ErrRuntime (Sentinel ErrUnknownCommand)))
    end.

Definition runRoom (c : roomCommand) (s : RoomService)
  : RoomService * list (effect V RoomSnapshot) * error gameError :=
  let '(w, e) := Handle c (mkWorld s []) in (svc w, trace w, e).
End Room.
Arguments runRoom {V} E c s.

(** [Close] *)
Definition CloseRoom (s : RoomService) : RoomService :=
  mkRoom (roomID s) (capacity s) (hasFactory s) (factoryRef s) RoomClosed (members s) (pending s) (battles s).

(** ** What a room guarantees *)

(** What one command does to the tables. *)
Inductive room_effect {V} (E : Env V RoomSnapshot) (s : RoomService) : roomCommand → RoomService → Prop :=
| re_same c : room_effect E s c s
| re_join p : p ∉ members s → Z.of_nat (size (members s)) ≠ capacity s →
    room_effect E s (JoinRoom p) (set_members ({[p]} ∪ members s) s)
| re_leave p : p ∈ members s → room_effect E s (LeaveRoom p) (set_members (members s ∖ {[p]}) s)
| re_start r : hasFactory s = true → pending s !! creID r = None → validateCreateRequest s r = None →
    room_effect E s (StartRoomBattle r) (set_pending (<[creID r := r]> (pending s)) s)
| re_undo r : pending s !! creID r = None →
    room_effect E s (StartRoomBattle r) (set_pending (delete (creID r) (<[creID r := r]> (pending s))) s)
| re_created c r : source = factoryRef s → pending s !! cdRequest c = Some r → battles s !! cdBattle c = None →
    cdBattle c ≠ 0 → validServiceRef (cdRef c) = true →
    room_effect E s (ApplyBattleCreated c)
      (set_battles (<[cdBattle c := cdRef c]> (battles s)) (set_pending (delete (creID r) (pending s)) s))
| re_finished n : battles s !! ntBattle n = Some (ntRef n) → source = ntRef n →
    room_effect E s (ApplyBattleFinished n) (set_battles (delete (ntBattle n) (battles s)) s).

Ltac room_eval := unfold gbind, get, put, gret, replyRoom, reply, asks, emit; simpl.

Lemma runRoom_effect {V} (E : Env V RoomSnapshot) c s s' tr e :
  runRoom E c s = (s', tr, e) → room_effect E s c s'.
Proof.
  unfold runRoom. destruct (Handle c (mkWorld s [])) as [w e0] eqn:Hh. intros [= <- _ _]. revert Hh.
  unfold Handle, gbind at 1, get at 1. cbn [svc].
  destruct (_ && _); [intros [= <- _]; apply re_same|].
  destruct c as [p|p|r|c|n| |[]|]; try (intros [= <- _]; apply re_same).
  - unfold join. destruct (negb _); [intros [= <- _]; apply re_same|]. unfold gbind at 1, get at 1. cbn [svc].
    case_bool_decide as Hin; [intros [= <- _]; apply re_same|].
    destruct (Z.eqb_spec (Z.of_nat (size (members s))) (capacity s)); [intros [= <- _]; apply re_same|].
    intros [= <- _]. by apply re_join.
  - unfold leave. destruct (negb (validateID p)); [intros [= <- _]; apply re_same|]. unfold gbind at 1, get at 1. cbn [svc].
    case_bool_decide as Hin; simpl; [|intros [= <- _]; apply re_same]. intros [= <- _]. by apply re_leave.
  - unfold startRoom, gbind at 1, get at 1. cbn [svc].
    destruct (validateCreateRequest s r) eqn:Hv; [intros [= <- _]; apply re_same|].
    destruct (hasFactory s) eqn:Hf; simpl; [|intros [= <- _]; apply re_same].
    destruct (pending s !! creID r) as [cur|] eqn:Hp; [case_bool_decide; intros [= <- _]; apply re_same|].
    room_eval. destruct (ansRequest _ _); intros [= <- _]; [exact (re_undo E s r Hp)|]. by apply re_start.
  - unfold applyCreated, gbind at 1, get at 1. cbn [svc]. case_bool_decide as Hsrc; [intros [= <- _]; apply re_same|].
    destruct (pending s !! cdRequest c) as [r|] eqn:Hp; [|intros [= <- _]; apply re_same].
    destruct (_ || _) eqn:Hg; [intros [= <- _]; apply re_same|].
    destruct (battles s !! cdBattle c) eqn:Hb; [intros [= <- _]; apply re_same|].
    intros [= <- _]. apply orb_false_iff in Hg as [Hz Hv%negb_false_iff]. bool_prop. exact (re_created E s c r Hsrc Hp Hb Hz Hv).
  - unfold applyFinished, gbind at 1, get at 1. cbn [svc]. destruct (_ || _); [intros [= <- _]; apply re_same|].
    destruct (battles s !! ntBattle n) as [ref|] eqn:Hb; [|intros [= <- _]; apply re_same].
    case_bool_decide as Hr; [intros [= <- _]; apply re_same|].
    case_bool_decide as Hsrc; [intros [= <- _]; apply re_same|].
    intros [= <- _]. subst ref. by apply re_finished.
Qed.

(** ** Runs *)

Section Facts.
Context {V : Type}.
Implicit Types (E : Env V RoomSnapshot) (s : RoomService).

(** A room handles one command at a time; senders and environments are arbitrary. *)
Definition stepRoom s (x : Env V RoomSnapshot * roomCommand) : RoomService := (runRoom x.1 x.2 s).1.1.
Definition runCommands (l : list (Env V RoomSnapshot * roomCommand)) s : RoomService := foldl stepRoom s l.

Lemma stepRoom_effect s x : room_effect x.1 s x.2 (stepRoom s x).
Proof.
  unfold stepRoom. destruct (runRoom x.1 x.2 s) as [[s' tr] e] eqn:H. by apply runRoom_effect in H.
Qed.

Lemma runCommands_ind (P : RoomService → Prop) :
  (∀ E c s s', P s → room_effect E s c s' → P s') → ∀ l s, P s → P (runCommands l s).
Proof.
  intros Hstep l. induction l as [|x l IH]; intros s Hs; [done|]. apply IH. eapply Hstep; [done|apply stepRoom_effect].
Qed.

(** What a pending request is: named by its key, of this room, for a strictly
    increasing and non-empty list of valid players. *)
Record request_ok (room : RoomID) (k : RequestID) (r : BattleCreateRequest) : Prop := {
  ro_key : creID r = k;
  ro_room : creRoom r = room;
  ro_some : crePlayers r ≠ [];
  ro_valid : Forall (λ p, validateID p = true) (crePlayers r);
  ro_sorted : StronglySorted (λ a b, String.ltb a b = true) (crePlayers r)
}.

Record room_ok s : Prop := {
  rk_capacity : 0 < capacity s;
  rk_members : Z.of_nat (size (members s)) ≤ capacity s;
  rk_pending : map_Forall (request_ok (roomID s)) (pending s);
  rk_battles : map_Forall (λ b ref, b ≠ 0 ∧ validServiceRef ref = true) (battles s);
  rk_factory : hasFactory s = false → pending s = ∅
}.

Lemma checkPlayers_ok s l : ∀ first prev, checkPlayers s first prev l = None →
  Forall (λ p, validateID p = true) l ∧ Forall (λ p, p ∈ members s) l
  ∧ StronglySorted (λ a b, String.ltb a b = true) l
  ∧ (first = false → Forall (λ p, String.ltb prev p = true) l).
Proof.
  induction l as [|p l IH]; intros first prev H; [split_and!; constructor|]. simpl in H.
  destruct (_ || _) eqn:Hg; [done|]. apply orb_false_iff in Hg as [Hv%negb_false_iff Hl%negb_false_iff].
  destruct (decide (p ∈ members s)) as [Hp|Hp]; [rewrite bool_decide_true in H by done|by rewrite bool_decide_false in H].
  simpl in H. destruct (IH _ _ H) as (V1 & M1 & S1 & B1). specialize (B1 eq_refl).
  split_and!; [by constructor..|]. intros ->. simpl in Hl. constructor; [done|].
  eapply Forall_impl; [exact B1|]. intros x. by apply ltb_trans.
Qed.

Lemma validateCreateRequest_ok s r :
  validateCreateRequest s r = None → request_ok (roomID s) (creID r) r ∧ Forall (λ p, p ∈ members s) (crePlayers r).
Proof.
  unfold validateCreateRequest. destruct (_ || _) eqn:Hg; [done|]. intros H.
  apply orb_false_iff in Hg as [[_ Hr]%orb_false_iff Hl]. apply bool_decide_eq_false, dec_stable in Hr.
  destruct (checkPlayers_ok _ _ _ _ H) as (V1 & M1 & S1 & _). split; [|done]. split; try done.
  intros E. by rewrite E in Hl.
Qed.

Lemma room_effect_ok E c s s' : room_ok s → room_effect E s c s' → room_ok s'.
Proof.
  intros [Hc Hm Hp Hb Hf] [ | | |r Hfa Hn Hv|r Hn|x r Hs Hr Hn Hz Hv|n Hn Hs]; try by split.
  - split; simpl; try done. rewrite size_union by set_solver. rewrite size_singleton. lia.
  - split; simpl; try done. pose proof (subseteq_size (members s ∖ {[p]}) (members s) ltac:(set_solver)). lia.
  - split; simpl; try done; [|congruence]. apply map_Forall_insert_2; [|done]. by apply validateCreateRequest_ok.
  - rewrite delete_insert_id by done. by split.
  - split; simpl; try done; [by apply map_Forall_delete|by apply map_Forall_insert_2|].
    intros F. by rewrite (Hf F), delete_empty.
  - split; simpl; try done. by apply map_Forall_delete.
Qed.

Lemma new_room_ok id cap f ref s : NewRoomService id cap f ref = Ok s → room_ok s.
Proof.
  unfold NewRoomService. destruct (_ || _) eqn:Hg; [done|]. apply orb_false_iff in Hg as [_ Hc%Z.leb_gt].
  destruct f; [|done|].
  - destruct (bool_decide _); [done|]. intros [= <-]. split; [simpl; lia|cbn [members capacity]; rewrite size_empty; lia|apply map_Forall_empty..|done].
  - destruct (negb _); [done|]. intros [= <-]. split; [simpl; lia|cbn [members capacity]; rewrite size_empty; lia|apply map_Forall_empty..|done].
Qed.
(** An entry goes only by the notice its own battle sends. *)
Lemma room_effect_keeps E c s s' b ref :
  room_effect E s c s' → battles s !! b = Some ref →
  battles s' !! b = Some ref ∨ (c = ApplyBattleFinished (mkNotice b ref) ∧ source = ref).
Proof.
  intros [ | | | | |x r Hs Hr Hn Hz Hv|n Hn Hs] Hb; simpl; try (by left).
  - left. rewrite lookup_insert_ne; [done|congruence].
  - destruct (decide (ntBattle n = b)) as [<-|]; [|left; by rewrite lookup_delete_ne].
    right. assert (ref = ntRef n) as -> by congruence. by destruct n.
Qed.

(** An entry comes only by an answer of the factory to a pending request. *)
Lemma room_effect_adds E c s s' b ref :
  room_effect E s c s' → battles s' !! b = Some ref →
  battles s !! b = Some ref
  ∨ ∃ q r, c = ApplyBattleCreated (mkCreated q b ref) ∧ source = factoryRef s ∧ pending s !! q = Some r.
Proof.
  intros [ | | | | |x r Hs Hr Hn Hz Hv|n Hn Hs] Hb; simpl in Hb; try (by left).
  - destruct (decide (cdBattle x = b)) as [<-|]; [|left; by rewrite lookup_insert_ne in Hb].
    rewrite lookup_insert_eq in Hb. right. exists (cdRequest x), r. split_and!; [|done..]. destruct x. simpl in *. congruence.
  - left. apply lookup_delete_Some in Hb as [_ Hb]. done.
Qed.

Lemma room_effect_pending E c s s' q r :
  room_effect E s c s' → pending s' !! q = Some r →
  pending s !! q = Some r
  ∨ (c = StartRoomBattle r ∧ hasFactory s = true ∧ Forall (λ p, p ∈ members s) (crePlayers r)).
Proof.
  intros [ | | |r' Hfa Hn Hv|r' Hn|x r' Hs Hr Hn Hz Hv| ] Hp; simpl in Hp; try (by left).
  - destruct (decide (creID r' = q)) as [<-|]; [|left; by rewrite lookup_insert_ne in Hp].
    rewrite lookup_insert_eq in Hp. simplify_eq. right. split_and!; [done..|]. by apply validateCreateRequest_ok in Hv as [_ ?].
  - rewrite delete_insert_id in Hp by done. by left.
  - left. by apply lookup_delete_Some in Hp as [_ Hp].
Qed.

Lemma room_effect_config E c s s' :
  room_effect E s c s' → roomID s' = roomID s ∧ factoryRef s' = factoryRef s ∧ hasFactory s' = hasFactory s.
Proof. by intros []. Qed.

Lemma runCommands_snoc l x s : runCommands (l ++ [x]) s = stepRoom (runCommands l s) x.
Proof. apply foldl_snoc. Qed.

Lemma runCommands_config l s :
  roomID (runCommands l s) = roomID s ∧ factoryRef (runCommands l s) = factoryRef s
  ∧ hasFactory (runCommands l s) = hasFactory s.
Proof.
  apply (runCommands_ind (λ s', roomID s' = roomID s ∧ factoryRef s' = factoryRef s ∧ hasFactory s' = hasFactory s)); [|done].
  intros E c s1 s2 (? & ? & ?) (? & ? & ?)%room_effect_config. split_and!; congruence.
Qed.

(** Where a request and a battle of a room come from. *)
Definition started_by (l : list (Env V RoomSnapshot * roomCommand)) (r : BattleCreateRequest) : Prop :=
  ∃ E, (E, StartRoomBattle r) ∈ l.
Definition created_by (l : list (Env V RoomSnapshot * roomCommand)) (factory : ServiceRef) (b : BattleID)
  (ref : ServiceRef) : Prop :=
  ∃ E q r, (E, ApplyBattleCreated (mkCreated q b ref)) ∈ l ∧ source (Env := E) = factory
           ∧ creID r = q ∧ started_by l r.

Lemma pending_origin l s q r :
  pending s = ∅ → pending (runCommands l s) !! q = Some r → started_by l r.
Proof.
  intros Hs. induction l as [|[E c] l IH] using rev_ind; intros Hp; [simpl in Hp; by rewrite Hs in Hp|].
  rewrite runCommands_snoc in Hp. destruct (room_effect_pending _ _ _ _ _ _ (stepRoom_effect _ _) Hp) as [H|[H _]].
  - destruct (IH H) as [E' HE]. exists E'. set_solver.
  - simpl in H. subst. exists E. set_solver.
Qed.

Lemma battle_origin l s b ref :
  room_ok s → pending s = ∅ → battles s = ∅ →
  battles (runCommands l s) !! b = Some ref → created_by l (factoryRef s) b ref.
Proof.
  intros Hok Hs Hb0. induction l as [|[E c] l IH] using rev_ind; intros Hb; [simpl in Hb; by rewrite Hb0 in Hb|].
  rewrite runCommands_snoc in Hb.
  destruct (room_effect_adds _ _ _ _ _ _ (stepRoom_effect _ _) Hb) as [H|(q & r & Hc & Hsrc & Hr)].
  - destruct (IH H) as (E' & q & r & H1 & H2 & H3 & E2 & H4). exists E', q, r.
    split_and!; [set_solver|done|done|exists E2; set_solver].
  - simpl in *. subst. exists E, q, r. destruct (pending_origin _ _ _ _ Hs Hr) as [E' HE'].
    assert (room_ok (runCommands l s)) as Hl.
    { apply (runCommands_ind room_ok); [|done]. intros ????. apply room_effect_ok. }
    split_and!; [set_solver|by rewrite Hsrc; apply runCommands_config|by apply (rk_pending _ Hl _ _ Hr)|exists E'; set_solver].
Qed.

Lemma battle_kept l s b ref :
  battles s !! b = Some ref →
  battles (runCommands l s) !! b = Some ref
  ∨ ∃ E, (E, ApplyBattleFinished (mkNotice b ref)) ∈ l ∧ source (Env := E) = ref.
Proof.
  intros Hb. induction l as [|[E c] l IH] using rev_ind; [by left|]. destruct IH as [IH|(E' & HE & HS)].
  - rewrite runCommands_snoc. destruct (room_effect_keeps _ _ _ _ _ _ (stepRoom_effect _ (E, c)) IH) as [|[Hc HS]]; [by left|].
    right. exists E. simpl in *. subst c. split; [set_solver|done].
  - right. exists E'. split; [set_solver|done].
Qed.
End Facts.

(** C34. A room never holds more members than its capacity, every battle of its index
    has a number and a valid reference, and every request waiting for the factory
    is of this room, stored under its own id and for a strictly ordered, non-empty
    list of valid players; without a factory nothing waits.  This holds after any
    commands from any senders, whatever the factory and the runtime answered. *)
Theorem room_well_formed {V} id cap f ref s0 (l : list (Env V RoomSnapshot * roomCommand)) :
  NewRoomService id cap f ref = Ok s0 → room_ok (runCommands l s0).
Proof.
  intros Hn%new_room_ok. apply (runCommands_ind room_ok); [|done]. intros ????. apply room_effect_ok.
Qed.

(** The battle index of a room is fenced.  An entry is there only if the
    configured factory announced it in answer to a request that was started here,
    and once there it stays, unchanged, until the very battle it points to sends
    the notice that it is finished: nobody else, and no notice for another
    reference, removes or replaces it. *)
Theorem battle_index_fenced {V} id cap f fref s0 (l l' : list (Env V RoomSnapshot * roomCommand)) b ref :
  NewRoomService id cap f fref = Ok s0 → battles (runCommands l s0) !! b = Some ref →
  created_by l fref b ref
  ∧ (battles (runCommands (l ++ l') s0) !! b = Some ref
     ∨ ∃ E, (E, ApplyBattleFinished (mkNotice b ref)) ∈ l' ∧ source (Env := E) = ref).
Proof.
  intros Hn Hb. split.
  - assert (factoryRef s0 = fref ∧ pending s0 = ∅ ∧ battles s0 = ∅) as (<- & Hp & Hb0).
    { unfold NewRoomService in Hn. destruct (_ || _), f; try done; destruct (_ : bool); by simplify_eq. }
    by eapply battle_origin; [eapply new_room_ok| |..].
  - unfold runCommands. rewrite foldl_app. by apply battle_kept.
Qed.

(** *** Witnesses *)

Definition sampleEnv (from : ServiceRef) : Env unit RoomSnapshot := {|
  self := mkRef "n1" 1; source := from; ansSend _ _ _ _ := None; ansReply _ _ := None;
  ansAfter _ _ _ _ := None; ansSubmit _ _ := None; ansRequest _ _ := None; ansClock _ := 0 |}.

Definition sampleRequest : BattleCreateRequest := mkCreate "q1" "lobby" ["ann"].
Definition sampleRoom : RoomService := mkRoom "lobby" 2 true (mkRef "n1" 9) RoomOpen ∅ ∅ ∅.
Definition sampleCommands : list (Env unit RoomSnapshot * roomCommand) :=
  [(sampleEnv zeroRef, JoinRoom "ann"); (sampleEnv zeroRef, StartRoomBattle sampleRequest);
   (sampleEnv (mkRef "n1" 9), ApplyBattleCreated (mkCreated "q1" 7 (mkRef "n1" 5)))].

Lemma room_well_formed_witness : room_ok (runCommands sampleCommands sampleRoom).
Proof. apply (room_well_formed "lobby" 2 FactorySet (mkRef "n1" 9)). vm_compute. reflexivity. Defined.

Lemma battle_index_fenced_witness :
  let finish from := [(sampleEnv from, ApplyBattleFinished (mkNotice 7 (mkRef "n1" 5)))] in
  created_by sampleCommands (mkRef "n1" 9) 7 (mkRef "n1" 5)
  ∧ battles (runCommands (sampleCommands ++ finish (mkRef "n1" 6)) sampleRoom) !! 7 = Some (mkRef "n1" 5)
  ∧ battles (runCommands (sampleCommands ++ finish (mkRef "n1" 5)) sampleRoom) !! 7 = None.
Proof.
  split.
  - apply (battle_index_fenced "lobby" 2 FactorySet (mkRef "n1" 9) sampleRoom sampleCommands []);
      vm_compute; reflexivity.
  - split; vm_compute; reflexivity.
Defined.
