(* ===== verification/Player.v ===== *)
(** * The player service

    [src/game/player.go] and [src/game/module.go]: the presence of a player, its
    room and battle bindings, and the modules that extend it.

    A [PlayerModule] is application code: a value with a name, the commands it
    declares, and three handlers, each a program over the operations of
    [PlayerContext] that ends with the module's next value.  A module object is
    shared between [modules] and [moduleRoutes]; the model keeps one value under
    the module's name, and a route is that name.  The runtime delivers commands
    between [Init] and [Close] only, so the service capability is there. *)

From stdpp Require Import prelude gmap strings list sorting.
From Stdlib Require Import ZArith Lia Strings.Byte.
From S2P Require Import Prelude Types GoText Game.

Local Open Scope Z_scope.
Local Open Scope game_scope.

Definition SetPlayerOnlineCommand : CommandID := 0x03000401.
Definition SetPlayerOfflineCommand : CommandID := 0x03000402.
Definition SetPlayerRoomCommand : CommandID := 0x03000403.
Definition SetPlayerBattleCommand : CommandID := 0x03000404.
Definition GetPlayerSnapshotCommand : CommandID := 0x03000405.
Definition ApplyPlayerReconnectSnapshotCommand : CommandID := 0x03000406.
Definition BackupPlayerCommand : CommandID := 0x03000407.

Record SessionIdentity := mkIdentity { idPlayer : PlayerID; idAccount : AccountID }.
#[global] Instance SessionIdentity_eq_dec : EqDecision SessionIdentity.
Proof. solve_decision. Defined.

Record PlayerState := mkPlayerState {
  stPlayer : PlayerID; stAccount : AccountID; stOnline : bool; stRoom : ServiceRef; stBattle : ServiceRef
}.
Record PlayerSnapshot := mkPlayerSnapshot { psState : PlayerState; psModules : gmap string (list byte) }.
Record PlayerPresence := mkPresence { prIdentity : SessionIdentity; prGeneration : string }.
Record PlayerBinding := mkBinding { bdID : RequestID; bdRef : ServiceRef }.
#[global] Instance PlayerBinding_eq_dec : EqDecision PlayerBinding.
Proof. solve_decision. Defined.
Record PlayerReconnectSnapshot := mkReconnect {
  rcPlayer : PlayerID; rcID : RequestID; rcState : list byte
}.

Inductive PlayerEventKind := PlayerActivated | PlayerOnline | PlayerOffline | PlayerBackup.
Record PlayerEvent := mkEvent { evKind : PlayerEventKind; evGeneration : string; evAt : Time }.

(** ** The interface of a module *)

Section Interface.
Context {V : Type}.

Inductive playerReply := RSnapshot (s : PlayerSnapshot) | RModule (v : V).

Inductive playerOp :=
| PSelf | PSource | PPlayerID | PAccountID | PNow
| PReply (v : V)
| PSend (target : ServiceRef) (c : CommandID) (v : V).

Inductive playerRes :=
| PRef (r : ServiceRef) | PText (s : string) | PTime (t : Time) | PErr (e : error gameError).

Inductive pprog (X : Type) := PRet (x : X) | PDo (op : playerOp) (k : playerRes → pprog X).
End Interface.
Arguments playerReply V : clear implicits.
Arguments playerOp V : clear implicits.
Arguments pprog V X : clear implicits.
Arguments PRet {V X} x.
Arguments PDo {V X} op k.

Class PlayerModule (V X : Type) := {
  mName : X → string;
  mCommands : X → list CommandID;
  mHandle : X → CommandID → V → pprog V (X * error gameError);
  mEvent : X → PlayerEvent → pprog V (X * error gameError);
  mSnapshot : X → pprog V (X * res gameError (list byte))
}.

Record PlayerService (X : Type) := mkPlayer {
  identity : SessionIdentity;
  pstate : PlayerState;
  generation : string;
  modules : gmap string X;
  moduleNames : list string;
  moduleRoutes : gmap CommandID string;
  attached : bool;                     (** [service] is set *)
  roomBindings : gmap RequestID PlayerBinding;
  battleBinds : gmap RequestID PlayerBinding;
  reconnect : list byte
}.
Arguments mkPlayer {X}.
Arguments identity {X}. Arguments pstate {X}. Arguments generation {X}. Arguments modules {X}.
Arguments moduleNames {X}. Arguments moduleRoutes {X}. Arguments attached {X}.
Arguments roomBindings {X}. Arguments battleBinds {X}. Arguments reconnect {X}.

Section Fields.
Context {X : Type}.
Implicit Types s : PlayerService X.
Definition set_pstate (f : PlayerState → PlayerState) s :=
  mkPlayer (identity s) (f (pstate s)) (generation s) (modules s) (moduleNames s) (moduleRoutes s)
    (attached s) (roomBindings s) (battleBinds s) (reconnect s).
Definition set_generation g s :=
  mkPlayer (identity s) (pstate s) g (modules s) (moduleNames s) (moduleRoutes s)
    (attached s) (roomBindings s) (battleBinds s) (reconnect s).
Definition set_modules (f : gmap string X → gmap string X) s :=
  mkPlayer (identity s) (pstate s) (generation s) (f (modules s)) (moduleNames s) (moduleRoutes s)
    (attached s) (roomBindings s) (battleBinds s) (reconnect s).
Definition set_attached a s :=
  mkPlayer (identity s) (pstate s) (generation s) (modules s) (moduleNames s) (moduleRoutes s)
    a (roomBindings s) (battleBinds s) (reconnect s).
Definition set_roomBindings f s :=
  mkPlayer (identity s) (pstate s) (generation s) (modules s) (moduleNames s) (moduleRoutes s)
    (attached s) (f (roomBindings s)) (battleBinds s) (reconnect s).
Definition set_battleBinds f s :=
  mkPlayer (identity s) (pstate s) (generation s) (modules s) (moduleNames s) (moduleRoutes s)
    (attached s) (roomBindings s) (f (battleBinds s)) (reconnect s).
Definition set_reconnect r s :=
  mkPlayer (identity s) (pstate s) (generation s) (modules s) (moduleNames s) (moduleRoutes s)
    (attached s) (roomBindings s) (battleBinds s) r.
Definition set_online b (st : PlayerState) := mkPlayerState (stPlayer st) (stAccount st) b (stRoom st) (stBattle st).
Definition set_room r (st : PlayerState) := mkPlayerState (stPlayer st) (stAccount st) (stOnline st) r (stBattle st).
Definition set_battle r (st : PlayerState) := mkPlayerState (stPlayer st) (stAccount st) (stOnline st) (stRoom st) r.
End Fields.

(** ** Construction *)

Definition moduleNameByte (c : Ascii.ascii) : bool :=
  let n := Z.of_nat (Ascii.nat_of_ascii c) in
  (n =? 45) || (n =? 95) || ((97 <=? n) && (n <=? 122)) || ((65 <=? n) && (n <=? 90)) || ((48 <=? n) && (n <=? 57)).

(** The characters allowed are ASCII, so that testing bytes is testing code points. *)
Definition validModuleName (name : string) : bool :=
  bool_decide (name ≠ "") && (Z.of_nat (String.length name) <=? 64) && bool_decide (TrimSpace name = name)
  && forallb moduleNameByte (String.list_ascii_of_string name).

Fixpoint strictLoop (seen : gset CommandID) (l : list CommandID) : bool :=
  match l with
  | [] => true
  | c :: l => negb (c =? 0) && negb (bool_decide (c ∈ seen)) && strictLoop ({[c]} ∪ seen) l
  end.
Definition strictCommandIDs (l : list CommandID) : bool :=
  negb (Z.of_nat (length l) =? 0) && strictLoop ∅ l.

Definition reservedCommands : list CommandID :=
  [SetPlayerOnlineCommand; SetPlayerOfflineCommand; SetPlayerRoomCommand; SetPlayerBattleCommand;
   GetPlayerSnapshotCommand; ApplyPlayerReconnectSnapshotCommand; BackupPlayerCommand].

Section New.
Context {V X : Type} {PM : PlayerModule V X}.

Record building := mkBuilding {
  bModules : gmap string X; bRoutes : gmap CommandID string; bSeen : gset CommandID
}.

Fixpoint addCommands (name : string) (l : list CommandID) (b : building) : option building :=
  match l with
  | [] => Some b
  | c :: l =>
      if bool_decide (c ∈ bSeen b) then None
      else addCommands name l (mkBuilding (bModules b) (<[c := name]> (bRoutes b)) ({[c]} ∪ bSeen b))
  end.

Definition addModule (x : X) (b : building) : option building :=
  if negb (validModuleName (mName x)) then None
  else
    if bool_decide (is_Some (bModules b !! mName x))
       || ((0 <? Z.of_nat (length (mCommands x))) && negb (strictCommandIDs (mCommands x)))
    then None
    else
      match addCommands (mName x) (mCommands x) b with
      | None => None
      | Some b => Some (mkBuilding (<[mName x := x]> (bModules b)) (bRoutes b) (bSeen b))
      end.

(** [None] in the list is a nil module. *)
Fixpoint addModules (l : list (option X)) (b : building) : option building :=
  match l with
  | [] => Some b
  | None :: _ => None
  | Some x :: l => match addModule x b with None => None | Some b => addModules l b end
  end.

Definition NewPlayerService (id : SessionIdentity) (l : list (option X)) : res gameError (PlayerService X) :=
  if negb (validateID (idPlayer id)) || negb (validateID (idAccount id)) then Err ErrInvalidConfig
  else
    match addModules l (mkBuilding ∅ ∅ (list_to_set reservedCommands)) with
    | None => Err ErrInvalidConfig
    | Some b =>
        Ok (mkPlayer id (mkPlayerState (idPlayer id) (idAccount id) false zeroRef zeroRef) "" (bModules b)
              (merge_sort String.le (map_to_list (bModules b)).*1) (bRoutes b) false ∅ ∅ [])
    end.
End New.

(** ** Contexts and modules *)

(** The command context a [playerContext] wraps: a command's own, or the one of
    [Init], which is its own source and cannot be answered. *)
Inductive commandContext := InitContext | CommandContext.

Section Player.
Context {V X : Type} {PM : PlayerModule V X} {E : Env V (playerReply V)}.
Local Notation M := (G V (playerReply V) (PlayerService X)).

(** An operation through a context that is still ([active]) or no longer usable. *)
Definition runOp (cc : commandContext) (active : bool) (op : playerOp V) : M playerRes :=
  match op with
  | PSelf => gret (PRef self)
  | PSource => gret (PRef (match cc with InitContext => self | CommandContext => source end))
  | PPlayerID => s ← get (λ s, s); gret (PText (idPlayer (identity s)))
  | PAccountID => s ← get (λ s, s); gret (PText (idAccount (identity s)))
  | PNow => t ← readNow; gret (PTime t)
  | PReply v =>
      if negb active then gret (PErr (Some ErrContextExpired))
      else match cc with
           | InitContext => gret (PErr None)
           | CommandContext => e ← reply (RModule v); gret (PErr e)
           end
  | PSend target c v =>
      if negb active then gret (PErr (Some ErrContextExpired))
      else if negb (validServiceRef target) then gret (PErr (Some ErrUnavailable))
      else e ← send target c (MsgApp v); gret (PErr (ErrRuntime <$> e))
  end.

Fixpoint runProg (cc : commandContext) {Y} (p : pprog V Y) : M Y :=
  match p with
  | PRet y => gret y
  | PDo op k => r ← runOp cc true op; runProg cc (k r)
  end.

(** One call of a module's method: it runs on the module's value and leaves the next. *)
Definition callModule (cc : commandContext) {Y} (name : string) (none : Y) (f : X → pprog V (X * Y)) : M Y :=
  s ← get (λ s, s);
  match modules s !! name with
  | None => gret none                  (** not reached: the names are the keys *)
  | Some x =>
      r ← runProg cc (f x);
      put (set_modules (insert name r.1)) ;; gret r.2
  end.

Fixpoint dispatchLoop (cc : commandContext) (ev : PlayerEvent) (names : list string) : M (error gameError) :=
  match names with
  | [] => gret None
  | n :: names =>
      e ← callModule cc n None (λ x, mEvent x ev);
      match e with Some e => gret (Some e) | None => dispatchLoop cc ev names end
  end.
Definition dispatchEvent (cc : commandContext) (ev : PlayerEvent) : M (error gameError) :=
  s ← get (λ s, s); dispatchLoop cc ev (moduleNames s).

Fixpoint snapshotLoop (names : list string) (acc : gmap string (list byte)) : M (res gameError (gmap string (list byte))) :=
  match names with
  | [] => gret (Ok acc)
  | n :: names =>
      r ← callModule CommandContext n (Ok []) (λ x, mSnapshot x);
      match r with Err e => gret (Err e) | Ok bs => snapshotLoop names (<[n := bs]> acc) end
  end.

(** [snapshot]: the player's own state is copied before the modules run. *)
Definition snapshot : M (res gameError PlayerSnapshot) :=
  s ← get (λ s, s);
  r ← snapshotLoop (moduleNames s) ∅;
  gret (match r with Err e => Err e | Ok m => Ok (mkPlayerSnapshot (pstate s) m) end).

Definition replySnapshot : M (error gameError) :=
  r ← snapshot;
  match r with Err e => gret (Some e) | Ok sn => reply (RSnapshot sn) end.

(** ** Commands *)

Definition Init : M (error gameError) :=
  put (set_attached true) ;;
  t ← readNow;
  dispatchEvent InitContext (mkEvent PlayerActivated "" t).

Definition presenceOk (s : PlayerService X) (p : PlayerPresence) : bool :=
  bool_decide (prIdentity p = identity s) && validText (prGeneration p) maxBusinessIDBytes.

(** The event of a command, then its reply. *)
Definition eventThenReply (kind : PlayerEventKind) (g : string) : M (error gameError) :=
  t ← readNow;
  e ← dispatchEvent CommandContext (mkEvent kind g t);
  match e with Some e => gret (Some e) | None => replySnapshot end.

Definition online (p : PlayerPresence) : M (error gameError) :=
  s ← get (λ s, s);
  if negb (presenceOk s p) then gret (Some ErrUnauthorized)
  else if stOnline (pstate s) && bool_decide (generation s = prGeneration p) then replySnapshot
  else
    put (set_generation (prGeneration p)) ;;
    put (set_pstate (set_online true)) ;;
    eventThenReply PlayerOnline (prGeneration p).

Definition offline (p : PlayerPresence) : M (error gameError) :=
  s ← get (λ s, s);
  if negb (presenceOk s p) then gret (Some ErrUnauthorized)
  else if negb (stOnline (pstate s)) || bool_decide (generation s ≠ prGeneration p) then replySnapshot
  else
    put (set_pstate (set_online false)) ;;
    eventThenReply PlayerOffline (prGeneration p).

Definition validBinding (b : PlayerBinding) : bool :=
  validateRequestID (bdID b) && (bool_decide (bdRef b = zeroRef) || validServiceRef (bdRef b)).

Definition bind (room : bool) (b : PlayerBinding) : M (error gameError) :=
  if negb (validBinding b) then gret (Some ErrInvalidCommand)
  else
    s ← get (λ s, s);
    match (if room then roomBindings s else battleBinds s) !! bdID b with
    | Some current => if bool_decide (current ≠ b) then gret (Some ErrRequestConflict) else replySnapshot
    | None =>
        (if room then put (set_roomBindings (insert (bdID b) b)) else put (set_battleBinds (insert (bdID b) b))) ;;
        put (set_pstate (if room then set_room (bdRef b) else set_battle (bdRef b))) ;;
        replySnapshot
    end.

Definition backup : M (error gameError) :=
  s ← get (λ s, s); eventThenReply PlayerBackup (generation s).

Inductive playerCommand :=
| SetPlayerOnline (p : PlayerPresence)
| SetPlayerOffline (p : PlayerPresence)
| SetPlayerBinding (room : bool) (b : PlayerBinding)
| GetPlayerSnapshot
| ApplyPlayerReconnectSnapshot (r : PlayerReconnectSnapshot)
| BackupPlayer
| PlayerBadPayload                     (** a reserved command, another payload type *)
| ModuleCommand (c : CommandID) (v : V). (** any other command *)

Definition Handle (c : playerCommand) : M (error gameError) :=
  match c with
  | SetPlayerOnline p => online p
  | SetPlayerOffline p => offline p
  | SetPlayerBinding room b => bind room b
  | GetPlayerSnapshot => replySnapshot
  | ApplyPlayerReconnectSnapshot r =>
      s ← get (λ s, s);
      if bool_decide (rcPlayer r ≠ idPlayer (identity s)) || negb (validateRequestID (rcID r))
      then gret (Some ErrInvalidCommand)
      else put (set_reconnect (rcState r)) ;; replySnapshot
  | BackupPlayer => backup
  | PlayerBadPayload => gret (Some ErrInvalidCommand)
  | ModuleCommand c v =>
      s ← get (λ s, s);
      match moduleRoutes s !! c with
      | None => gret (Some (ErrRuntime (Sentinel ErrUnknownCommand)))
      | Some name => callModule CommandContext name None (λ x, mHandle x c v)
      end
  end.

Definition runPlayer (c : playerCommand) (s : PlayerService X)
  : PlayerService X * list (effect V (playerReply V)) * error gameError :=
  let '(w, e) := Handle c (mkWorld s []) in (svc w, trace w, e).

Definition runInit (s : PlayerService X) : PlayerService X * list (effect V (playerReply V)) * error gameError :=
  let '(w, e) := Init (mkWorld s []) in (svc w, trace w, e).
End Player.
Arguments playerCommand V : clear implicits.
Arguments runPlayer {V X PM} E c s.
Arguments runInit {V X PM} E s.

Definition Close {X} (s : PlayerService X) : PlayerService X := set_attached false s.
