(* ===== verification/PlayerFacts.v ===== *)
(** * What a player service guarantees

    Modules never touch the player's own fields; presence follows the abstract
    machine of one current generation; bindings are decided once per request id;
    and a command reaches exactly the module that declared it. *)

From stdpp Require Import prelude gmap strings list sorting.
From Stdlib Require Import ZArith Lia Strings.Byte.
From S2P Require Import Prelude Types GoText Game Player.

Local Open Scope Z_scope.
Local Open Scope game_scope.

(** ** Frames *)

Section Frames.
Context {V X : Type} {PM : PlayerModule V X} {E : Env V (playerReply V)}.
Local Notation M := (G V (playerReply V) (PlayerService X)).

(** A computation that leaves the service alone, and one that changes at most the
    values of modules. *)
Definition silent {Y} (c : M Y) : Prop := ∀ w, svc (c w).1 = svc w.
Definition keeps {Y} (c : M Y) : Prop :=
  ∀ w, ∃ m, svc (c w).1 = set_modules (λ _, m) (svc w) ∧ dom m = dom (modules (svc w)).

Lemma set_modules_id (s : PlayerService X) : set_modules (λ _, modules s) s = s.
Proof. by destruct s. Qed.

Lemma silent_keeps {Y} (c : M Y) : silent c → keeps c.
Proof. intros H w. exists (modules (svc w)). rewrite H. by rewrite set_modules_id. Qed.

Lemma silent_ret {Y} (y : Y) : silent (gret y).
Proof. done. Qed.
Lemma silent_get {Y} (f : _ → Y) : silent (get f).
Proof. done. Qed.
Lemma silent_bind {Y Z} (c : M Y) (k : Y → M Z) : silent c → (∀ y, silent (k y)) → silent (gbind k c).
Proof. intros Hc Hk w. unfold gbind. specialize (Hc w). destruct (c w) as [w' y]. simpl in *. by rewrite Hk. Qed.
Lemma keeps_bind {Y Z} (c : M Y) (k : Y → M Z) : keeps c → (∀ y, keeps (k y)) → keeps (gbind k c).
Proof.
  intros Hc Hk w. unfold gbind. destruct (Hc w) as (m & E1 & D1). destruct (c w) as [w' y]. simpl in *.
  destruct (Hk y w') as (m' & E2 & D2). exists m'. rewrite E2, E1. split; [done|]. rewrite D2, E1. done.
Qed.

Lemma silent_readNow : silent readNow.
Proof. done. Qed.
Lemma silent_reply r : silent (reply r).
Proof. intros w. unfold reply, gbind, asks, emit, gret. simpl. done. Qed.
Lemma silent_send t c m : silent (send t c m).
Proof. done. Qed.

Lemma silent_runOp cc op : silent (runOp cc true op).
Proof.
  destruct op; simpl; try done; [destruct cc; [done|]|destruct (negb _); [done|]];
    apply silent_bind; auto using silent_reply, silent_send, silent_ret.
Qed.

Lemma silent_runProg {Y} cc (p : pprog V Y) : silent (runProg cc p).
Proof. induction p as [y|op k IH]; [done|]. simpl. apply silent_bind; [apply silent_runOp|done]. Qed.

(** A call of a module changes the value of that module only. *)
Lemma callModule_spec {Y} cc n (none : Y) (f : X → pprog V (X * Y)) w x :
  modules (svc w) !! n = Some x →
  ∃ x' y, (runProg cc (f x) w).2 = (x', y)
    ∧ callModule cc n none f w
      = (mkWorld (set_modules (insert n x') (svc w)) (trace (runProg cc (f x) w).1), y).
Proof.
  intros Hx. unfold callModule, gbind at 1, get. simpl. rewrite Hx. unfold gbind.
  pose proof (silent_runProg cc (f x) w) as Hs. destruct (runProg cc (f x) w) as [w' [x' y]]. simpl in *.
  exists x', y. split; [done|]. unfold put, gret. simpl. by rewrite Hs.
Qed.

Lemma keeps_callModule {Y} cc n (none : Y) (f : X → pprog V (X * Y)) : keeps (callModule cc n none f).
Proof.
  intros w. destruct (modules (svc w) !! n) as [x|] eqn:Hx.
  - destruct (callModule_spec cc n none f w x Hx) as (x' & y & _ & ->). simpl. eexists. split; [done|].
    rewrite dom_insert_lookup_L; [done|by eexists].
  - unfold callModule, gbind, get. simpl. rewrite Hx. by apply (silent_keeps (gret none)).
Qed.

Lemma keeps_dispatch cc ev : keeps (dispatchEvent cc ev).
Proof.
  unfold dispatchEvent. apply keeps_bind; [by apply silent_keeps|]. intros s.
  induction (moduleNames s) as [|n l IH]; [by apply silent_keeps|]. simpl.
  apply keeps_bind; [apply keeps_callModule|]. intros [e|]; [by apply silent_keeps|done].
Qed.

Lemma keeps_snapshot : keeps snapshot.
Proof.
  unfold snapshot. apply keeps_bind; [by apply silent_keeps|]. intros s. apply keeps_bind; [|intros; by apply silent_keeps].
  generalize (∅ : gmap string (list byte)). induction (moduleNames s) as [|n l IH]; intros acc; [by apply silent_keeps|].
  simpl. apply keeps_bind; [apply keeps_callModule|]. intros [bs|e]; [done|by apply silent_keeps].
Qed.

Lemma keeps_replySnapshot : keeps replySnapshot.
Proof.
  apply keeps_bind; [apply keeps_snapshot|]. intros [sn|e]; apply silent_keeps; [apply silent_reply|done].
Qed.

Lemma keeps_eventThenReply k g : keeps (eventThenReply k g).
Proof.
  apply keeps_bind; [apply silent_keeps, silent_readNow|]. intros t.
  apply keeps_bind; [apply keeps_dispatch|]. intros [e|]; [by apply silent_keeps|apply keeps_replySnapshot].
Qed.

(** A projection that modules cannot touch. *)
Definition own {Y} (f : PlayerService X → Y) : Prop := ∀ m s, f (set_modules m s) = f s.

Lemma keeps_own {Y Z} (c : M Y) (f : PlayerService X → Z) w : keeps c → own f → f (svc (c w).1) = f (svc w).
Proof. intros Hc Hf. destruct (Hc w) as (m & -> & _). apply Hf. Qed.
End Frames.

(** ** Runs *)

Section Facts.
Context {V X : Type} {PM : PlayerModule V X}.
Implicit Types (s : PlayerService X) (c : playerCommand V).
Local Notation inputs := (list (Env V (playerReply V) * playerCommand V)).

Definition stepPlayer s (x : Env V (playerReply V) * playerCommand V) : PlayerService X := (runPlayer x.1 x.2 s).1.1.
Definition runCommands (l : inputs) s : PlayerService X := foldl stepPlayer s l.

Lemma stepPlayer_svc E c s : stepPlayer s (E, c) = svc (Handle (E := E) c (mkWorld s [])).1.
Proof. unfold stepPlayer, runPlayer. simpl. by destruct (Handle c (mkWorld s [])). Qed.

Lemma runPlayer_snoc l x s : runCommands (l ++ [x]) s = stepPlayer (runCommands l s) x.
Proof. apply foldl_snoc. Qed.

(** *** Presence *)

Definition presence s : option string := if stOnline (pstate s) then Some (generation s) else None.

(** The machine a player is for its connections: the generation that is connected.
    A well-formed claim of this identity connects; only the connected generation
    disconnects. *)
Definition claim (id : SessionIdentity) (p : PlayerPresence) : bool :=
  bool_decide (prIdentity p = id) && validText (prGeneration p) maxBusinessIDBytes.
Definition presenceSpec (id : SessionIdentity) (p : option string) c : option string :=
  match c with
  | SetPlayerOnline q => if claim id q then Some (prGeneration q) else p
  | SetPlayerOffline q => if claim id q && bool_decide (p = Some (prGeneration q)) then None else p
  | _ => p
  end.

Lemma own_identity : own (X := X) identity.
Proof. done. Qed.
Lemma own_presence : own (X := X) presence.
Proof. done. Qed.
Lemma own_routes : own (X := X) moduleRoutes.
Proof. done. Qed.

(** What handling a command does to a field modules cannot touch: the one write of
    the command, if any. *)
Definition write s c : PlayerService X :=
  match c with
  | SetPlayerOnline p =>
      if claim (identity s) p && bool_decide (presence s ≠ Some (prGeneration p))
      then set_pstate (set_online true) (set_generation (prGeneration p) s) else s
  | SetPlayerOffline p =>
      if claim (identity s) p && bool_decide (presence s = Some (prGeneration p))
      then set_pstate (set_online false) s else s
  | SetPlayerBinding room b =>
      if validBinding b && bool_decide ((if room then roomBindings s else battleBinds s) !! bdID b = None)
      then set_pstate (if room then set_room (bdRef b) else set_battle (bdRef b))
             ((if room then set_roomBindings else set_battleBinds) (insert (bdID b) b) s) else s
  | ApplyPlayerReconnectSnapshot r =>
      if bool_decide (rcPlayer r = idPlayer (identity s)) && validateRequestID (rcID r)
      then set_reconnect (rcState r) s else s
  | _ => s
  end.

Lemma write_modules s c : modules (write s c) = modules s.
Proof. destruct c as [| |[]| | | | |]; simpl; try done; by destruct (_ && _). Qed.

Lemma presence_online s g : stOnline (pstate s) && bool_decide (generation s = g) = bool_decide (presence s = Some g).
Proof.
  unfold presence. destruct (stOnline (pstate s)); cbn [andb]; [|symmetry; by apply bool_decide_eq_false].
  apply bool_decide_ext. split; congruence.
Qed.

Lemma Handle_write {E : Env V (playerReply V)} c w :
  ∃ m, svc (Handle c w).1 = set_modules (λ _, m) (write (svc w) c) ∧ dom m = dom (modules (svc w)).
Proof.
  destruct w as [s tr]. cbn [svc].
  assert (∀ (k : G V (playerReply V) (PlayerService X) (error gameError)) tr' s1, keeps k → modules s1 = modules s →
    ∃ m, svc (k (mkWorld s1 tr')).1 = set_modules (λ _, m) s1 ∧ dom m = dom (modules s)) as K.
  { intros k tr' s1 Hk <-. apply (Hk (mkWorld s1 tr')). }
  pose proof (λ e : error gameError, silent_keeps (V := V) (X := X) (gret e) (silent_ret e)) as R.
  pose proof keeps_replySnapshot as S. pose proof keeps_eventThenReply as T.
  destruct c as [p|p|room b| |r| | |c v]; cbn [Handle write]; [| | |by apply K| |by apply (K (eventThenReply _ _))|by apply (K (gret _))|].
  - unfold online, gbind at 1, get at 1. cbn [svc]. change (presenceOk s p) with (claim (identity s) p).
    destruct (claim (identity s) p); cbn [negb andb]; [|by apply (K (gret _))]. rewrite presence_online, bool_decide_not.
    destruct (bool_decide _); cbn [negb]; [by apply K|]. by apply (K (eventThenReply _ _)).
  - unfold offline, gbind at 1, get at 1. cbn [svc]. change (presenceOk s p) with (claim (identity s) p).
    destruct (claim (identity s) p); cbn [negb andb]; [|by apply (K (gret _))].
    rewrite bool_decide_not, <- negb_andb, presence_online.
    destruct (bool_decide _); cbn [negb]; [|by apply K]. by apply (K (eventThenReply _ _)).
  - unfold bind. destruct (validBinding b); cbn [negb andb]; [|by apply (K (gret _))].
    unfold gbind at 1, get at 1. cbn [svc].
    destruct ((if room then roomBindings s else battleBinds s) !! bdID b) as [cur|].
    + rewrite (bool_decide_false (Some cur = None)) by done. destruct (bool_decide (cur ≠ b)); [by apply (K (gret _))|by apply K].
    + rewrite (bool_decide_true (None = None)) by done. destruct room; by apply (K replySnapshot).
  - unfold gbind at 1, get at 1. cbn [svc]. rewrite bool_decide_not, <- negb_andb.
    destruct (_ && _); cbn [negb]; [by apply (K replySnapshot)|by apply (K (gret _))].
  - unfold gbind at 1, get at 1. cbn [svc]. destruct (moduleRoutes s !! c); [|by apply (K (gret _))].
    apply K; [apply keeps_callModule|done].
Qed.

Lemma step_own {Y} (f : PlayerService X → Y) E c s : own f → f (stepPlayer s (E, c)) = f (write s c).
Proof. intros Hf. rewrite stepPlayer_svc. destruct (Handle_write c (mkWorld s [])) as (m & -> & _). apply Hf. Qed.

Lemma write_fixed s c :
  identity (write s c) = identity s ∧ moduleRoutes (write s c) = moduleRoutes s
  ∧ moduleNames (write s c) = moduleNames s.
Proof. destruct c as [| |[]| | | | |]; simpl; try done; by destruct (_ && _). Qed.

Lemma run_fixed l s :
  identity (runCommands l s) = identity s ∧ moduleRoutes (runCommands l s) = moduleRoutes s.
Proof.
  induction l as [|[E c] l IH] using rev_ind; [done|]. rewrite runPlayer_snoc.
  rewrite !step_own by done. destruct (write_fixed (runCommands l s) c) as (-> & -> & _). done.
Qed.

Lemma run_modules l s : dom (modules (runCommands l s)) = dom (modules s).
Proof.
  induction l as [|[E c] l IH] using rev_ind; [done|]. rewrite runPlayer_snoc, stepPlayer_svc.
  destruct (Handle_write c (mkWorld (runCommands l s) [])) as (m & -> & Hd). simpl. by rewrite Hd.
Qed.

Lemma write_presence s c : presence (write s c) = presenceSpec (identity s) (presence s) c.
Proof.
  destruct c as [p|p|[] b| |r| | |c v]; simpl; try done; try by destruct (_ && _).
  destruct (claim (identity s) p); simpl; [|done]. by case_bool_decide.
Qed.

Lemma run_presence l s :
  presence (runCommands l s) = foldl (presenceSpec (identity s)) (presence s) l.*2.
Proof.
  induction l as [|[E c] l IH] using rev_ind; [done|]. rewrite runPlayer_snoc, fmap_app, foldl_app. simpl.
  rewrite step_own by apply own_presence. rewrite write_presence, IH. by destruct (run_fixed l s) as [-> _].
Qed.

(** *** Bindings *)

Definition boundRef (room : bool) s : ServiceRef := if room then stRoom (pstate s) else stBattle (pstate s).
Definition bindings (room : bool) s : gmap RequestID PlayerBinding := if room then roomBindings s else battleBinds s.

Definition bindingOf (room : bool) c : option PlayerBinding :=
  match c with
  | SetPlayerBinding r b => if Bool.eqb r room && validBinding b then Some b else None
  | _ => None
  end.

(** The first use of each request id. *)
Definition decide1 (l : list PlayerBinding) (b : PlayerBinding) : list PlayerBinding :=
  if bool_decide (bdID b ∈ bdID <$> l) then l else l ++ [b].
Definition decisions (room : bool) (l : list (playerCommand V)) : list PlayerBinding :=
  foldl decide1 [] (omap (bindingOf room) l).

Lemma own_bound room : own (X := X) (λ s, (boundRef room s, bindings room s)).
Proof. intros m s. by destruct room. Qed.

Lemma write_bound room s c :
  (boundRef room (write s c), bindings room (write s c))
  = match bindingOf room c with
    | Some b => if bool_decide (bindings room s !! bdID b = None)
                then (bdRef b, <[bdID b := b]> (bindings room s)) else (boundRef room s, bindings room s)
    | None => (boundRef room s, bindings room s)
    end.
Proof.
  destruct c as [p|p|r b| |r| | |c v]; cbn [bindingOf write]; try done; try by destruct room, (_ && _).
  destruct (validBinding b); cbn [andb].
  - destruct r, room; cbn [Bool.eqb andb bindings]; by destruct (bool_decide _).
  - by rewrite andb_false_r.
Qed.

(** The table of a run holds its decisions, and the reference is the last one. *)
Definition bound_ok (room : bool) s (d : list PlayerBinding) : Prop :=
  boundRef room s = default zeroRef (bdRef <$> last d)
  ∧ ∀ id b, bindings room s !! id = Some b ↔ b ∈ d ∧ bdID b = id.

Lemma bound_ok_step room E c s d :
  bound_ok room s d → bound_ok room (stepPlayer s (E, c)) (foldl decide1 d (omap (bindingOf room) [c])).
Proof.
  intros [Hr Hb]. pose proof (step_own _ E c s (own_bound room)) as H. cbv beta in H. rewrite write_bound in H.
  assert (∀ b, bindings room s !! bdID b = None ↔ bdID b ∉ bdID <$> d) as Hin.
  { intros b. rewrite eq_None_not_Some, list_elem_of_fmap. apply not_iff_compat. split.
    - intros [b' [Hd Hi]%Hb]. eauto.
    - intros (b' & Hi & Hd). exists b'. by apply Hb. }
  simpl. destruct (bindingOf room c) as [b|]; [|injection H as H1 H2; simpl; unfold bound_ok; by rewrite H1, H2].
  simpl.
  unfold decide1. destruct (decide (bindings room s !! bdID b = None)) as [Hn|Hn].
  - rewrite bool_decide_true in H by done. injection H as H1 H2. apply Hin in Hn as Hn'. rewrite bool_decide_false by done.
    unfold bound_ok. rewrite H1, H2, last_snoc. split; [done|]. intros id b'. rewrite elem_of_app, list_elem_of_singleton.
    rewrite lookup_insert_Some, Hb. split.
    + intros [[<- <-]|[? [? ?]]]; auto.
    + intros [[Hd| ->] <-]; [|auto]. right. split; [|done]. intros Hc. apply Hn'. rewrite Hc. by apply list_elem_of_fmap_2.
  - rewrite bool_decide_false in H by done. injection H as H1 H2. rewrite bool_decide_true by (apply dec_stable; by rewrite <- Hin).
    unfold bound_ok. by rewrite H1, H2.
Qed.

Lemma run_bound room l s :
  boundRef room s = zeroRef → bindings room s = ∅ → bound_ok room (runCommands l s) (decisions room l.*2).
Proof.
  intros Hr Hb. induction l as [|[E c] l IH] using rev_ind.
  { unfold bound_ok. simpl. rewrite Hr, Hb. split; [done|]. intros id b. rewrite lookup_empty. set_solver. }
  rewrite runPlayer_snoc. unfold decisions. rewrite fmap_app, omap_app, foldl_app. by apply bound_ok_step.
Qed.
End Facts.

(** *** Modules *)

Section Modules.
Context {V X : Type} {PM : PlayerModule V X}.

(** What the construction has built from the modules [l]. *)
Record built (l : list X) (b : building) : Prop := {
  bu_routes : ∀ c (n : string), bRoutes b !! c = Some n ↔ ∃ x, x ∈ l ∧ mName x = n ∧ c ∈ mCommands x;
  bu_seen : ∀ c, c ∈ bSeen b ↔ c ∈ reservedCommands ∨ is_Some (bRoutes b !! c);
  bu_free : ∀ c, c ∈ reservedCommands → bRoutes b !! c = None;
  bu_modules : ∀ (n : string) (x : X), bModules b !! n = Some x ↔ x ∈ l ∧ mName x = n
}.

Lemma addCommands_spec n l : ∀ b b' : building (X := X), addCommands n l b = Some b' →
  bModules b' = bModules b ∧ (∀ c, c ∈ l → c ∉ bSeen b)
  ∧ (∀ c, c ∈ bSeen b' ↔ c ∈ l ∨ c ∈ bSeen b)
  ∧ (∀ c, bRoutes b' !! c = if bool_decide (c ∈ l) then Some n else bRoutes b !! c).
Proof.
  induction l as [|a l IH]; intros b b' H; simpl in H.
  { injection H as <-. split_and!; [done|set_solver..|]. intros c. by rewrite bool_decide_false by set_solver. }
  destruct (decide (a ∈ bSeen b)) as [Ha|Ha]; [by rewrite bool_decide_true in H|rewrite bool_decide_false in H by done].
  destruct (IH _ _ H) as (-> & N & S & R). simpl in *. split_and!; [done|set_solver|set_solver|].
  intros c. rewrite R. destruct (decide (c ∈ l)) as [Hc|Hc].
  - by rewrite !bool_decide_true by set_solver.
  - rewrite (bool_decide_false (c ∈ l)) by done. destruct (decide (c = a)) as [->|Hn].
    + by rewrite bool_decide_true, lookup_insert_eq by set_solver.
    + by rewrite bool_decide_false, lookup_insert_ne by set_solver.
Qed.

Lemma addModule_built l b b' x : built l b → addModule x b = Some b' → built (l ++ [x]) b'.
Proof.
  intros [R S F D] H. unfold addModule in H. destruct (negb _); [done|]. destruct (_ || _) eqn:Hg; [done|].
  apply orb_false_iff in Hg as [Hnew%bool_decide_eq_false _]. rewrite <- eq_None_not_Some in Hnew.
  destruct (addCommands _ _ b) as [b1|] eqn:Ha; [|done]. injection H as <-.
  destruct (addCommands_spec _ _ _ _ Ha) as (HM & HN & HS & HR). split; simpl.
  - intros c n. rewrite HR. case_bool_decide as Hc.
    + split; [intros [= <-]; exists x; set_solver|]. intros (y & [Hy|Hy]%elem_of_app & <- & Hcy).
      * destruct (HN c Hc). apply S. right. exists (mName y). apply R. eauto.
      * apply list_elem_of_singleton in Hy as ->. done.
    + rewrite R. split; intros (y & Hy & ? & ?); exists y; set_solver.
  - intros c. rewrite HS, S, HR. case_bool_decide as Hc; [|tauto].
    split; [intros _; right; by eexists|auto].
  - intros c Hc. rewrite HR, bool_decide_false; [by apply F|]. intros Hl. destruct (HN c Hl). apply S. auto.
  - intros n y. rewrite HM, lookup_insert_Some, D. split.
    + intros [[<- <-]|[Hn [Hy <-]]]; set_solver.
    + intros [[Hy|Hy]%elem_of_app <-]; [|apply list_elem_of_singleton in Hy as ->; auto].
      right. split; [|done]. intros Heq. assert (bModules b !! mName y = Some y) as H by by apply D.
      rewrite <- Heq in H. congruence.
Qed.

Lemma addModules_built (l : list (option X)) : ∀ done_ b b', built done_ b → addModules l b = Some b' →
  ∃ xs, l = Some <$> xs ∧ built (done_ ++ xs) b'.
Proof.
  induction l as [|[x|] l IH]; intros d b b' Hb H; simpl in H; [|destruct (addModule x b) as [b1|] eqn:Ha|]; try done.
  - injection H as <-. exists []. by rewrite app_nil_r.
  - destruct (IH _ _ _ (addModule_built _ _ _ _ Hb Ha) H) as (xs & -> & Hx). exists (x :: xs).
    by rewrite <- app_assoc in Hx.
Qed.

Lemma new_built id l s :
  NewPlayerService id l = Ok s →
  ∃ xs, l = Some <$> xs ∧ ∃ b, built xs b ∧ modules s = bModules b ∧ moduleRoutes s = bRoutes b
  ∧ identity s = id ∧ presence s = None ∧ ∀ room, boundRef room s = zeroRef ∧ bindings room s = ∅.
Proof.
  unfold NewPlayerService. destruct (_ || _); [done|]. destruct (addModules l _) as [b|] eqn:Ha; [|done].
  intros [= <-].
  assert (built ([] : list X) (mkBuilding ∅ ∅ (list_to_set reservedCommands))) as H0.
  { split; cbn [bRoutes bSeen bModules]; [| |done|].
    - intros c n. rewrite lookup_empty. set_solver.
    - intros c. rewrite lookup_empty, elem_of_list_to_set. split; [auto|]. by intros [?|[]].
    - intros n x. rewrite lookup_empty. set_solver. }
  destruct (addModules_built l [] _ b H0 Ha) as (xs & -> & Hx).
  exists xs. split; [done|]. exists b. split_and!; try done. by intros [].
Qed.

Local Notation inputs := (list (Env V (playerReply V) * playerCommand V)).

(** A program of a module that ends without an error, whatever its operations answer. *)
Fixpoint accepting (p : pprog V (X * error gameError)) : Prop :=
  match p with PRet r => r.2 = None | PDo _ k => ∀ r, accepting (k r) end.

Lemma runProg_accepting {E : Env V (playerReply V)} cc (p : pprog V (X * error gameError)) w :
  accepting p → (runProg (X := X) cc p w).2.2 = None.
Proof.
  revert w. induction p as [r|op k IH]; intros w Hp; [done|]. simpl. unfold gbind. destruct (runOp cc true op w) as [w' r]. by apply IH.
Qed.
Lemma dispatch_accepting {E : Env V (playerReply V)} cc ev w : (∀ x ev, accepting (mEvent x ev)) → (dispatchEvent cc ev w).2 = None.
Proof.
  intros Ha. unfold dispatchEvent, gbind at 1, get at 1. generalize (moduleNames (svc w)). intros l. revert w. induction l as [|n l IH]; intros w; [done|]. simpl.
  unfold gbind at 1. destruct (modules (svc w) !! n) as [x|] eqn:Hx.
  - destruct (callModule_spec cc n None (λ x, mEvent x ev) w x Hx) as (x' & e & H2 & ->).
    pose proof (runProg_accepting cc (mEvent x ev) w (Ha x ev)) as He. rewrite H2 in He. cbn in He. subst e. apply IH.
  - unfold callModule, gbind at 1, get at 1. rewrite Hx. apply IH.
Qed.
(** An event every module accepts is followed by the reply. *)
Lemma event_accepted {E : Env V (playerReply V)} kind g w : (∀ x ev, accepting (mEvent x ev)) →
  ∃ w', eventThenReply kind g w = replySnapshot w' ∧ presence (svc w') = presence (svc w).
Proof.
  intros Ha. unfold eventThenReply, gbind at 1. destruct (readNow w) as [w1 t] eqn:H1. unfold gbind at 1.
  pose proof (dispatch_accepting CommandContext (mkEvent kind g t) w1 Ha) as He.
  pose proof (keeps_own _ presence w1 (keeps_dispatch CommandContext (mkEvent kind g t)) own_presence) as Hp.
  destruct (dispatchEvent CommandContext (mkEvent kind g t) w1) as [w2 e]. cbn in He, Hp. subst e. exists w2. split; [done|]. rewrite Hp.
  pose proof (silent_readNow w) as Hs. rewrite H1 in Hs. cbn in Hs. by rewrite Hs.
Qed.

(** C35. With modules that accept the events of the player, its presence is exactly the
    machine of one current generation: after any commands, the player is online with
    the generation of the last well-formed connection of its own identity, unless that
    same generation disconnected; the disconnection of an older generation and a claim
    of another identity change nothing.  A well-formed connection or disconnection ends
    with the snapshot taken after the presence changed, and one that changes nothing, a
    repeated connection or a stale disconnection, delivers no event to the modules. *)
Theorem player_presence id mods s0 (l : inputs) :
  NewPlayerService id mods = Ok s0 → (∀ (x : X) ev, accepting (mEvent x ev)) →
  let s := runCommands l s0 in
  presence s = foldl (presenceSpec id) None l.*2
  ∧ ∀ (E : Env V (playerReply V)) c p tr, c = SetPlayerOnline p ∨ c = SetPlayerOffline p → claim id p = true →
      ∃ w, Handle c (mkWorld s tr) = replySnapshot w
        ∧ presence (svc w) = presenceSpec id (presence s) c
        ∧ (presenceSpec id (presence s) c = presence s → w = mkWorld s tr).
Proof.
  intros (xs & _ & b & _ & _ & _ & Hid & Hp & _)%new_built Ha s. split.
  { unfold s. rewrite run_presence. by rewrite Hid, Hp. }
  assert (identity s = id) as Hs by (by rewrite <- Hid; apply run_fixed). intros E c p tr [-> | ->] Hc; cbn [Handle presenceSpec]; rewrite Hc; cbn [andb].
  - unfold online, gbind at 1, get at 1. cbn [svc]. change (presenceOk s p) with (claim (identity s) p).
    rewrite Hs, Hc. cbn [negb]. rewrite presence_online. case_bool_decide as Hg; [by exists (mkWorld s tr)|].
    destruct (event_accepted PlayerOnline (prGeneration p) (mkWorld (set_pstate (set_online true) (set_generation (prGeneration p) s)) tr) Ha) as (w & Hw & Hpw).
    exists w. split_and!; [exact Hw|by rewrite Hpw|]. intros Hx. by destruct Hg.
  - unfold offline, gbind at 1, get at 1. cbn [svc]. change (presenceOk s p) with (claim (identity s) p).
    rewrite Hs, Hc. cbn [negb]. rewrite bool_decide_not, <- negb_andb, presence_online. case_bool_decide as Hg; cbn [negb]; [|by exists (mkWorld s tr)].
    destruct (event_accepted PlayerOffline (prGeneration p) (mkWorld (set_pstate (set_online false) s) tr) Ha) as (w & Hw & Hpw).
    exists w. split_and!; [exact Hw|by rewrite Hpw|]. intros Hx. congruence.
Qed.

(** A room or battle binding is decided once per request id, and the bound
    reference is that of the last decision, not of the last command: a repeated
    request answers a snapshot without rebinding, and the same id with another
    reference is refused as a conflict, with no effect at all. *)
Theorem player_bindings id mods s0 (l : inputs) room :
  NewPlayerService id mods = Ok s0 →
  let s := runCommands l s0 in
  boundRef room s = default zeroRef (bdRef <$> last (decisions room l.*2))
  ∧ ∀ (E : Env V (playerReply V)) b b', b' ∈ decisions room l.*2 → bdID b = bdID b' → validBinding b = true →
      Handle (SetPlayerBinding room b) (mkWorld s [])
      = if bool_decide (b = b') then replySnapshot (mkWorld s []) else (mkWorld s [], Some ErrRequestConflict).
Proof.
  intros (xs & _ & b0 & _ & _ & _ & _ & _ & Hb)%new_built s. destruct (Hb room) as [Hr0 Hb0].
  destruct (run_bound room l s0 Hr0 Hb0) as [Hr Hl]. change (runCommands l s0) with s in Hr, Hl.
  split; [done|]. intros E b b' Hin Hid Hv. simpl.
  unfold bind. rewrite Hv. cbn [negb]. unfold gbind at 1, get at 1. cbn [svc].
  change (if room then roomBindings s else battleBinds s) with (bindings room s).
  rewrite (proj2 (Hl (bdID b) b')) by done. rewrite bool_decide_not.
  destruct (decide (b = b')) as [->|Hn]; [by rewrite !bool_decide_true|]. by rewrite !bool_decide_false.
Qed.

(** C36. A command that is not the player's own runs exactly the module that declared
    it, on that module's current value, and leaves every other module and every
    field of the player alone; declared commands are never the player's own and
    never declared by two modules; an undeclared command is refused, with no
    effect. *)
Theorem player_module_routing id mods s0 (l : inputs) (E : Env V (playerReply V)) c v :
  NewPlayerService id mods = Ok s0 →
  let s := runCommands l s0 in
  (∃ x y w y' e, Some x ∈ mods ∧ c ∈ mCommands x ∧ c ∉ reservedCommands
     ∧ (∀ z, Some z ∈ mods → c ∈ mCommands z → z = x)
     ∧ modules s !! mName x = Some y
     ∧ runProg CommandContext (mHandle y c v) (mkWorld s []) = (w, (y', e))
     ∧ runPlayer E (ModuleCommand c v) s = (set_modules (insert (mName x) y') s, trace w, e))
  ∨ ((∀ x, Some x ∈ mods → c ∉ mCommands x)
     ∧ runPlayer E (ModuleCommand c v) s = (s, [], Some (ErrRuntime (Sentinel ErrUnknownCommand)))).
Proof.
  intros (xs & -> & b & Hb & Hm & Hr & _)%new_built s.
  assert (moduleRoutes s = bRoutes b) as Hrs by (rewrite <- Hr; apply run_fixed).
  assert (dom (modules s) = dom (bModules b)) as Hd by (rewrite <- Hm; apply run_modules).
  assert (∀ z : X, Some z ∈ Some <$> xs ↔ z ∈ xs) as Hin.
  { intros z. rewrite list_elem_of_fmap. split; [by intros (? & [= <-] & ?)|eauto]. }
  setoid_rewrite Hin.
  assert (∀ r, moduleRoutes s !! c = r → runPlayer E (ModuleCommand c v) s
    = let '(w, e) := match r with
                     | None => gret (Some (ErrRuntime (Sentinel ErrUnknownCommand)))
                     | Some name => callModule CommandContext name None (λ x, mHandle x c v)
                     end (mkWorld s []) in (svc w, trace w, e)) as Hrun.
  { intros r <-. done. }
  rewrite (Hrun _ eq_refl), Hrs. clear Hrun.
  destruct (bRoutes b !! c) as [n|] eqn:Hc.
  - left. apply (bu_routes _ _ Hb) in Hc as Hc'. destruct Hc' as (x & Hx & <- & Hcx).
    assert (is_Some (modules s !! mName x)) as [y Hy].
    { apply elem_of_dom. rewrite Hd. apply elem_of_dom. exists x. by apply (bu_modules _ _ Hb). }
    destruct (callModule_spec CommandContext (mName x) None (λ x, mHandle x c v) (mkWorld s []) y Hy) as (y' & e & H2 & ->).
    exists x, y. destruct (runProg CommandContext (mHandle y c v) (mkWorld s [])) as [w r] eqn:Hp. simpl in *.
    exists w, y', e. split_and!; try done; [| |by subst].
    + intros Hres%(bu_free _ _ Hb). congruence.
    + intros z Hz Hcz. assert (mName z = mName x) as Hn.
      { assert (bRoutes b !! c = Some (mName z)) by (apply (bu_routes _ _ Hb); eauto). congruence. }
      assert (bModules b !! mName x = Some z) by by apply (bu_modules _ _ Hb).
      assert (bModules b !! mName x = Some x) by by apply (bu_modules _ _ Hb). congruence.
  - right. split; [|done]. intros x Hx Hcx.
    assert (bRoutes b !! c = Some (mName x)) by (apply (bu_routes _ _ Hb); eauto). congruence.
Qed.
End Modules.

(** *** Witnesses *)

(** A module that counts its commands and shows the count. *)
#[local] Instance sampleModule : PlayerModule Z Z := {
  mName _ := "bag";
  mCommands _ := [0x100];
  mHandle n _ v := PDo (PReply (n + v)) (λ _, PRet (n + v, None));
  mEvent n _ := PRet (n, None);
  mSnapshot n := PRet (n, Ok [])
}.

Definition samplePlayerEnv : Env Z (playerReply Z) := {|
  self := mkRef "n1" 1; source := mkRef "n1" 2; ansSend _ _ _ _ := None; ansReply _ _ := None;
  ansAfter _ _ _ _ := None; ansSubmit _ _ := None; ansRequest _ _ := None; ansClock _ := 0 |}.

Definition sampleIdentity : SessionIdentity := mkIdentity "ann" "acc".
Definition samplePlayer : PlayerService Z :=
  mkPlayer sampleIdentity (mkPlayerState "ann" "acc" false zeroRef zeroRef) "" {["bag" := 5]} ["bag"]
    {[0x100 := "bag"]} false ∅ ∅ [].
Definition sampleInputs : list (Env Z (playerReply Z) * playerCommand Z) :=
  (samplePlayerEnv,.) <$>
    [SetPlayerOnline (mkPresence sampleIdentity "g1"); SetPlayerOnline (mkPresence sampleIdentity "g2");
     SetPlayerOffline (mkPresence sampleIdentity "g1"); ModuleCommand 0x100 3;
     SetPlayerBinding true (mkBinding "q1" (mkRef "n1" 7)); SetPlayerBinding true (mkBinding "q2" (mkRef "n1" 8));
     SetPlayerBinding true (mkBinding "q1" (mkRef "n1" 7))].

Lemma player_presence_witness :
  presence (runCommands sampleInputs samplePlayer) = foldl (presenceSpec sampleIdentity) None sampleInputs.*2
  ∧ foldl (presenceSpec sampleIdentity) None sampleInputs.*2 = Some "g2".
Proof.
  split; [|vm_compute; reflexivity].
  apply (player_presence sampleIdentity [Some 5] samplePlayer sampleInputs); [vm_compute; reflexivity|]. intros x ev. reflexivity.
Defined.

Lemma player_bindings_witness :
  boundRef true (runCommands sampleInputs samplePlayer)
  = default zeroRef (bdRef <$> last (decisions true sampleInputs.*2))
  ∧ boundRef true (runCommands sampleInputs samplePlayer) = mkRef "n1" 8.
Proof.
  split; [|vm_compute; reflexivity].
  apply (player_bindings sampleIdentity [Some 5] samplePlayer sampleInputs true). vm_compute. reflexivity.
Defined.

Lemma player_module_routing_witness :
  let s := runCommands sampleInputs samplePlayer in
  runPlayer samplePlayerEnv (ModuleCommand 0x100 3) s
  = (set_modules (insert "bag" 11) s, [Replied (RModule 11) None], None).
Proof.
  destruct (player_module_routing sampleIdentity [Some 5] samplePlayer sampleInputs samplePlayerEnv 0x100 3)
    as [(x & y & w & y' & e & Hx & _ & _ & _ & Hy & Hp & Hr)|[Hno _]]; [vm_compute; reflexivity| |].
  - intros s. change (runCommands sampleInputs samplePlayer) with s in Hr, Hp, Hy. rewrite Hr.
    apply list_elem_of_singleton in Hx. injection Hx as ->.
    assert (modules s !! "bag" = Some 8) as Hbag by (vm_compute; reflexivity). clearbody s.
    simpl in Hy. rewrite Hbag in Hy.
    injection Hy as <-. simpl in Hp. unfold gbind, reply, asks, emit, gret in Hp. simpl in Hp.
    injection Hp as <- <- <-. reflexivity.
  - destruct (Hno 5); [by apply list_elem_of_singleton|by apply list_elem_of_singleton].
Defined.
