(* ===== verification/NodeRunner.v ===== *)
(** * The worker pools of a node agent

    [src/tooling/control/stop_runner.go] and [recovery_runner.go].  Both are the same
    pool around another job, so the pool is written once, over a class [Job] of what
    a worker does with a task, and has two instances.

    The goroutines interleave at every point where they meet: the queue, the lock,
    the cancelled context and every call of the outside world.  A task carries the
    number of its acceptance, so that exactly once can be said. *)

From stdpp Require Import prelude gmap strings list sorting relations.
From Stdlib Require Import ZArith Lia.
From S2P Require Import Prelude Types GoText Directory DirectoryClient Control RunnerFacts.

Local Open Scope Z_scope.

(** What a worker does with a task: the calls it makes, one [Stage] each, what the
    answer to a call leads to, and what it reports when the runner was closed. *)
Class Job (Task Stage Answer Result : Type) := {
  validTask : Task → bool;
  start : Stage;
  exec : Task → Stage → Answer → option (Stage + Result);
  dropped : Task → Result;
  closedError : controlError;
  fullError : controlError;
  rank : Stage → Z
}.

Section Pool.
#[local] Arguments seq : simpl never.
Context {Task Stage Answer Result : Type} {J : Job Task Stage Answer Result}.

Inductive worker :=
| PIdle                                   (** in the [select] of [runWorker] *)
| PGot (n : nat) (t : Task)               (** received a task, before it looks at the context *)
| PExec (n : nat) (t : Task) (st : Stage) (** in the call [st] of [execute] *)
| PReport (n : nat) (t : Task) (r : Result) (leaving : bool)   (** in [sendResult] *)
| PLeaving                                (** in [cancelPending] *)
| PGone.

Record pool := mkPool {
  queueSize : Z;
  jobs : list (nat * Task);
  closed : bool;          (** set together with the cancellation of the context, under the lock *)
  workers : list worker;
  remaining : Z;
  done_ : bool;           (** the channel [done] is closed *)
  accepted : nat;
  sent : list (nat * Task * Result);
  calls : list (nat * nat * Task * Stage * Answer)   (** worker, number, task, call and answer *)
}.

Definition newPool (size n : Z) : pool := mkPool size [] false (replicate (Z.to_nat n) PIdle) n false 0 [] [].

Definition set_jobs v p := mkPool (queueSize p) v (closed p) (workers p) (remaining p) (done_ p) (accepted p) (sent p) (calls p).
Definition set_worker i w p :=
  mkPool (queueSize p) (jobs p) (closed p) (<[i := w]> (workers p)) (remaining p) (done_ p) (accepted p) (sent p) (calls p).

Definition Submit (t : Task) (p : pool) : pool * error controlError :=
  if negb (validTask t) then (p, Some ErrInvalidConfig)
  else if closed p then (p, Some closedError)
  else if Z.of_nat (length (jobs p)) <? queueSize p
  then (mkPool (queueSize p) (jobs p ++ [(accepted p, t)]) (closed p) (workers p) (remaining p) (done_ p) (S (accepted p)) (sent p) (calls p), None)
  else (p, Some fullError).

(** The locked part of [Close], which then waits for [done]. *)
Definition beginClose (p : pool) : pool :=
  mkPool (queueSize p) (jobs p) true (workers p) (remaining p) (done_ p) (accepted p) (sent p) (calls p).

Definition workerDone (p : pool) : pool :=
  let n := remaining p - 1 in
  mkPool (queueSize p) (jobs p) (closed p) (workers p) n (if n =? 0 then true else done_ p) (accepted p) (sent p) (calls p).

Inductive label :=
| LSubmit (t : Task)
| LClose
| LReceive (i : nat)      (** the [select] takes a task *)
| LCheck (i : nat)        (** [r.context.Err()] *)
| LAnswer (i : nat) (a : Answer)
| LReport (i : nat)
| LLeave (i : nat)        (** the [select] takes [Done] *)
| LDrain (i : nat)        (** [cancelPending] takes a task *)
| LExit (i : nat).        (** [cancelPending] finds none, [workerDone] *)

Definition stepWorker (i : nat) (l : label) (w : worker) (p : pool) : option pool :=
  match l, w with
  | LReceive _, PIdle =>
      match jobs p with (n, t) :: rest => Some (set_worker i (PGot n t) (set_jobs rest p)) | [] => None end
  | LCheck _, PGot n t =>
      Some (set_worker i (if closed p then PReport n t (dropped t) false else PExec n t start) p)
  | LAnswer _ a, PExec n t st =>
      match exec t st a with
      | None => None
      | Some next =>
          let p := mkPool (queueSize p) (jobs p) (closed p) (workers p) (remaining p) (done_ p) (accepted p) (sent p)
                     (calls p ++ [(i, n, t, st, a)]) in
          Some (set_worker i (match next with inl st => PExec n t st | inr r => PReport n t r false end) p)
      end
  | LReport _, PReport n t r leaving =>
      let p := mkPool (queueSize p) (jobs p) (closed p) (workers p) (remaining p) (done_ p) (accepted p) (sent p ++ [(n, t, r)])
                 (calls p) in
      Some (set_worker i (if leaving then PLeaving else PIdle) p)
  | LLeave _, PIdle => if closed p then Some (set_worker i PLeaving p) else None
  | LDrain _, PLeaving =>
      match jobs p with (n, t) :: rest => Some (set_worker i (PReport n t (dropped t) true) (set_jobs rest p)) | [] => None end
  | LExit _, PLeaving =>
      match jobs p with [] => Some (workerDone (set_worker i PGone p)) | _ => None end
  | _, _ => None
  end.

Definition step (l : label) (p : pool) : option pool :=
  match l with
  | LSubmit t => Some (Submit t p).1
  | LClose => Some (beginClose p)
  | LReceive i | LCheck i | LAnswer i _ | LReport i | LLeave i | LDrain i | LExit i =>
      w ← workers p !! i; stepWorker i l w p
  end.

(** [Close] answers nil. *)
Definition closeReturned (p : pool) : bool := closed p && done_ p.

(** ** The invariant *)

Definition holds (w : worker) : list nat :=
  match w with PGot n _ | PExec n _ _ | PReport n _ _ _ => [n] | _ => [] end.
Definition there (w : worker) : Z := match w with PGone => 0 | _ => 1 end.
Definition stays (w : worker) : Prop := match w with PLeaving | PGone | PReport _ _ _ true => False | _ => True end.

Record pool_inv (p : pool) : Prop := {
  pi_tasks : seq 0 (accepted p) ≡ₚ (sent p).*1.*1 ++ (jobs p).*1 ++ concat (holds <$> workers p);
  pi_queue : Z.of_nat (length (jobs p)) ≤ queueSize p;
  pi_workers : (0 < length (workers p))%nat;
  pi_remaining : remaining p = sumZ there (workers p);
  pi_done : done_ p = true ↔ remaining p = 0;
  pi_open : closed p = false → Forall stays (workers p);
  pi_gone : PGone ∈ workers p → jobs p = []
}.

(** The worker at [i] becomes [w']. *)
Lemma holds_split (ws : list worker) i w : ws !! i = Some w →
  ∃ rest, concat (holds <$> ws) ≡ₚ holds w ++ rest ∧ ∀ w', concat (holds <$> <[i := w']> ws) ≡ₚ holds w' ++ rest.
Proof.
  intros H. exists (concat (holds <$> take i ws) ++ concat (holds <$> drop (S i) ws)). split.
  - rewrite <- (take_drop_middle ws i w H) at 1. rewrite fmap_app, fmap_cons, concat_app. simpl. solve_Permutation.
  - intros w'. rewrite insert_take_drop by (by eapply lookup_lt_Some). rewrite fmap_app, fmap_cons, concat_app.
    simpl. solve_Permutation.
Qed.

Lemma gone_insert (ws : list worker) i w : w ≠ PGone → PGone ∈ <[i := w]> ws → PGone ∈ ws.
Proof.
  intros Hw [j Hj]%list_elem_of_lookup. destruct (decide (i = j)) as [<-|Hne].
  - destruct (decide (i < length ws)%nat); [by rewrite list_lookup_insert_eq in Hj; simplify_eq|].
    rewrite list_insert_ge in Hj by lia. by eapply list_elem_of_lookup_2.
  - rewrite list_lookup_insert_ne in Hj by done. by eapply list_elem_of_lookup_2.
Qed.

(** A step of a worker that neither leaves nor accepts. *)
Lemma pool_change (p p' : pool) i w w' :
  pool_inv p → workers p !! i = Some w →
  (queueSize p', closed p', workers p', remaining p', done_ p', accepted p')
    = (queueSize p, closed p, <[i := w']> (workers p), remaining p, done_ p, accepted p) →
  w ≠ PGone → w' ≠ PGone → (closed p = false → stays w') →
  (sent p').*1.*1 ++ (jobs p').*1 ++ holds w' ≡ₚ (sent p).*1.*1 ++ (jobs p).*1 ++ holds w →
  (length (jobs p') ≤ length (jobs p))%nat → pool_inv p'.
Proof.
  intros [] Hw Heq Hg Hg' Hst Hp Hl. injection Heq as E1 E2 E3 E4 E5 E6.
  destruct (holds_split _ _ _ Hw) as (rest & R & R'). split; rewrite ?E1, ?E2, ?E3, ?E4, ?E5, ?E6.
  - rewrite pi_tasks0, R, R'. transitivity (((sent p).*1.*1 ++ (jobs p).*1 ++ holds w) ++ rest); [solve_Permutation|].
    rewrite <- Hp. solve_Permutation.
  - lia.
  - by rewrite length_insert.
  - rewrite pi_remaining0, (sumZ_insert _ _ _ w) by done. assert (there w = 1 ∧ there w' = 1) as [-> ->] by (by destruct w, w'). lia.
  - done.
  - intros Hc. apply Forall_insert; auto.
  - intros Hin. apply gone_insert in Hin; [|done]. rewrite (pi_gone0 Hin) in Hl. destruct (jobs p'); [done|simpl in Hl; lia].
Qed.

Lemma pool_exit (p : pool) i : pool_inv p → workers p !! i = Some PLeaving → jobs p = [] → pool_inv (workerDone (set_worker i PGone p)).
Proof.
  intros [] Hw Hj. destruct (holds_split _ _ _ Hw) as (rest & R & R').
  assert (sumZ there (<[i := PGone]> (workers p)) = remaining p - 1) as Hs.
  { rewrite (sumZ_insert _ _ _ PLeaving) by done. simpl. lia. }
  split; simpl; try done.
  - rewrite pi_tasks0, R, R'. done.
  - by rewrite length_insert.
  - destruct (remaining p - 1 =? 0) eqn:E; bool_prop; [done|].
    split; [|done]. intros Hd. apply pi_done0 in Hd. rewrite pi_remaining0 in Hd.
    assert (there PLeaving = 0) as H0; [|done]. eapply (sumZ_zero there); [by intros []|exact Hd|by eapply list_elem_of_lookup_2].
  - intros Hc. specialize (pi_open0 Hc). rewrite Forall_lookup in pi_open0. by destruct (pi_open0 _ _ Hw).
Qed.

Lemma pool_step_inv l (p p' : pool) : pool_inv p → step l p = Some p' → pool_inv p'.
Proof.
  intros I H.
  assert (∀ i, (w ← workers p !! i; stepWorker i l w p) = Some p' → pool_inv p') as Hwork.
  { clear H. intros i H. destruct (workers p !! i) as [w|] eqn:Hw; simpl in H; [|done].
    destruct l, w; try discriminate H; simpl in H.
    - destruct (jobs p) as [|[n t] rest] eqn:Hj; [done|]. injection H as <-.
      eapply pool_change; [done|exact Hw|simpl; reflexivity|done|done|done|simpl; rewrite Hj; simpl; solve_Permutation|simpl; rewrite Hj; simpl; lia].
    - injection H as <-. destruct (closed p) eqn:Hc; (eapply pool_change; [done|exact Hw|simpl; by rewrite Hc|done|done|by rewrite ?Hc|done|done]).
    - destruct (exec t st a) as [next|]; [|done]. injection H as <-.
      eapply pool_change; [done|exact Hw|simpl; reflexivity|done|by destruct next|by destruct next|by destruct next|done].
    - injection H as <-. eapply pool_change; [done|exact Hw|simpl; reflexivity|done|by destruct leaving| |..|done].
      + intros Hc. destruct I. specialize (pi_open0 Hc). rewrite Forall_lookup in pi_open0. specialize (pi_open0 _ _ Hw). by destruct leaving.
      + simpl. rewrite !fmap_app. simpl. destruct leaving; simpl; solve_Permutation.
    - destruct (closed p) eqn:Hc; [|done]. injection H as <-.
      eapply pool_change; [done|exact Hw|simpl; by rewrite Hc|done|done|by rewrite Hc|done|done].
    - destruct (jobs p) as [|[n t] rest] eqn:Hj; [done|]. injection H as <-.
      eapply pool_change; [done|exact Hw|simpl; reflexivity|done|done| |simpl; rewrite Hj; simpl; solve_Permutation|simpl; rewrite Hj; simpl; lia].
      intros Hc. destruct I. specialize (pi_open0 Hc). rewrite Forall_lookup in pi_open0. by destruct (pi_open0 _ _ Hw).
    - destruct (jobs p) eqn:Hj; [|done]. injection H as <-. by apply pool_exit. }
  destruct l; try by eapply Hwork; exact H.
  - injection H as <-. unfold Submit. destruct (validTask t); simpl; [|done]. destruct (closed p) eqn:Hc; simpl; [done|].
    destruct (_ <? _) eqn:Hq; simpl; [|done]. bool_prop. destruct I. split; simpl; try done.
    + rewrite seq_S, pi_tasks0, fmap_app. simpl. solve_Permutation.
    + rewrite length_app. simpl. lia.
    + by intros _; apply pi_open0.
    + intros Hin. specialize (pi_open0 Hc). rewrite Forall_forall in pi_open0. by apply pi_open0 in Hin.
  - injection H as <-. destruct I. by split.
Qed.

Definition pool_step (p p' : pool) : Prop := ∃ l, step l p = Some p'.
Definition pool_reachable (size n : Z) (p : pool) : Prop := rtc pool_step (newPool size n) p.

Lemma newPool_inv size n : 0 < size → 0 < n → pool_inv (newPool size n).
Proof.
  intros Hs Hn. split; simpl.
  - induction (Z.to_nat n) as [|k IH]; [done|]. simpl. exact IH.
  - lia.
  - rewrite length_replicate. lia.
  - rewrite sumZ_replicate. simpl. lia.
  - split; [done|lia].
  - intros _. apply Forall_replicate. exact I.
  - by intros ?%elem_of_replicate_inv.
Qed.

Lemma pool_reachable_inv size n p : 0 < size → 0 < n → pool_reachable size n p → pool_inv p.
Proof.
  intros Hs Hn H. pose proof (newPool_inv size n Hs Hn) as I. unfold pool_reachable in H. revert I. generalize (newPool size n) H. clear H.
  intros p0 H. induction H as [|a b c [l Hl] _ IH]; intros I; [done|]. apply IH. by eapply pool_step_inv.
Qed.

(** A pool whose [Close] returned holds no task. *)
Lemma pool_returned p : pool_inv p → closeReturned p = true → jobs p = [] ∧ seq 0 (accepted p) ≡ₚ (sent p).*1.*1.
Proof.
  intros [] [Hc Hd]%andb_true_iff. apply pi_done0 in Hd. rewrite pi_remaining0 in Hd.
  assert (∀ w, w ∈ workers p → w = PGone) as Hall.
  { intros w Hw. assert (there w = 0) as H0; [|by destruct w]. eapply (sumZ_zero there); [by intros []|exact Hd|done]. }
  assert (jobs p = []) as Hj.
  { apply pi_gone0. destruct (workers p) as [|w ws] eqn:E; [simpl in pi_workers0; lia|]. rewrite <- (Hall w); [|set_solver]. set_solver. }
  split; [done|]. rewrite pi_tasks0, Hj. simpl.
  assert (concat (holds <$> workers p) = []) as ->; [|by rewrite app_nil_r].
  clear -Hall. induction (workers p) as [|w ws IH]; [done|]. simpl. rewrite (Hall w); [|set_solver]. apply IH. set_solver.
Qed.

(** ** What the calls of a worker follow from *)

Definition call_ : Type := nat * nat * Task * Stage * Answer.
Definition by_ (i : nat) (c : call_) : Prop := c.1.1.1.1 = i.
#[local] Instance by_dec i c : Decision (by_ i c).
Proof. unfold by_. apply _. Defined.
Definition lastCall (i : nat) (l : list call_) : option call_ := last (filter (by_ i) l).

(** The call [st] of worker [i] for task [n] is the first, or its previous call of
    this task led to it. *)
Definition justified (i n : nat) (t : Task) (st : Stage) (l : list call_) : Prop :=
  st = start ∨ ∃ st0 a, lastCall i l = Some (i, n, t, st0, a) ∧ exec t st0 a = Some (inl st).
(** The result [r] of task [n] is that of a dropped task, or of its last call. *)
Definition concluded (n : nat) (t : Task) (r : Result) (l : list call_) : Prop :=
  r = dropped t ∨ ∃ i st a, (i, n, t, st, a) ∈ l ∧ exec t st a = Some (inr r).

Record trace_inv (p : pool) : Prop := {
  ti_exec : ∀ i n t st, workers p !! i = Some (PExec n t st) → justified i n t st (calls p);
  ti_calls : ∀ l1 i n t st a l2, calls p = l1 ++ (i, n, t, st, a) :: l2 → justified i n t st l1;
  ti_report : ∀ i n t r b, workers p !! i = Some (PReport n t r b) → concluded n t r (calls p);
  ti_sent : ∀ n t r, (n, t, r) ∈ sent p → concluded n t r (calls p)
}.

Lemma lastCall_snoc i l c : lastCall i (l ++ [c]) = if decide (by_ i c) then Some c else lastCall i l.
Proof.
  unfold lastCall. rewrite filter_app. destruct (decide (by_ i c)) as [H|H].
  - rewrite (filter_cons_True _ _ _ H), filter_nil. apply last_snoc.
  - by rewrite (filter_cons_False _ _ _ H), filter_nil, app_nil_r.
Qed.

Lemma concluded_grows n t r l c : concluded n t r l → concluded n t r (l ++ [c]).
Proof. intros [?|(i & st & a & H & ?)]; [by left|right]. exists i, st, a. split; [set_solver|done]. Qed.

(** A step of worker [i] that makes no call. *)
Lemma trace_change (p p' : pool) i w' :
  trace_inv p → workers p' = <[i := w']> (workers p) → calls p' = calls p →
  (∀ n t st, w' = PExec n t st → st = start) → (∀ n t r b, w' = PReport n t r b → concluded n t r (calls p)) →
  (∀ n t r, (n, t, r) ∈ sent p' → (n, t, r) ∈ sent p ∨ concluded n t r (calls p)) → trace_inv p'.
Proof.
  intros [] Ew Ec He Hr Hs. split; rewrite ?Ew, ?Ec; try done.
  - intros j n t st H. destruct (decide (i = j)) as [<-|Hne]; [|rewrite list_lookup_insert_ne in H by done; auto].
    apply list_lookup_insert_Some in H as [(_ & E & _)|(? & _)]; [|done]. left. by eapply He.
  - intros j n t r b H. destruct (decide (i = j)) as [<-|Hne]; [|rewrite list_lookup_insert_ne in H by done; eauto].
    apply list_lookup_insert_Some in H as [(_ & E & _)|(? & _)]; [|done]. by eapply Hr.
  - intros n t r H. destruct (Hs _ _ _ H); auto.
Qed.

Lemma trace_answer (p : pool) i n t st a next : trace_inv p → workers p !! i = Some (PExec n t st) → exec t st a = Some next →
  trace_inv (set_worker i (match next with inl st => PExec n t st | inr r => PReport n t r false end)
    (mkPool (queueSize p) (jobs p) (closed p) (workers p) (remaining p) (done_ p) (accepted p) (sent p) (calls p ++ [(i, n, t, st, a)]))).
Proof.
  intros [] Hw Hx. split; simpl.
  - intros j n' t' st' H. unfold justified. rewrite lastCall_snoc. destruct (decide (i = j)) as [<-|Hne].
    + apply list_lookup_insert_Some in H as [(_ & E & _)|(? & _)]; [|done]. destruct next; [|done]. injection E as -> -> ->.
      right. exists st, a. by rewrite decide_True.
    + rewrite list_lookup_insert_ne in H by done. rewrite decide_False by done. by apply ti_exec0.
  - intros l1 j n' t' st' a' l2 E. destruct l2 as [|c l2 _] using rev_ind.
    + apply app_inj_tail in E as [E1 E2]. subst l1. injection E2 as <- <- <- <- <-. by apply ti_exec0.
    + rewrite app_comm_cons, app_assoc in E. apply app_inj_tail in E as [E _]. by eapply ti_calls0.
  - intros j n' t' r b H. destruct (decide (i = j)) as [<-|Hne].
    + apply list_lookup_insert_Some in H as [(_ & E & _)|(? & _)]; [|done]. destruct next; [done|]. injection E as -> -> -> _.
      right. exists i, st, a. split; [set_solver|done].
    + rewrite list_lookup_insert_ne in H by done. eapply concluded_grows, ti_report0. exact H.
  - intros n' t' r H. by apply concluded_grows, ti_sent0.
Qed.

Lemma pool_step_trace l (p p' : pool) : trace_inv p → step l p = Some p' → trace_inv p'.
Proof.
  intros I H.
  assert (∀ i, (w ← workers p !! i; stepWorker i l w p) = Some p' → trace_inv p') as Hwork.
  { clear H. intros i H. destruct (workers p !! i) as [w|] eqn:Hw; simpl in H; [|done].
    destruct l, w; try discriminate H; simpl in H.
    - destruct (jobs p) as [|[n t] rest]; [done|]. injection H as <-. eapply trace_change; [exact I|reflexivity|done|done|done|by left].
    - injection H as <-. eapply trace_change; [exact I|reflexivity|done| | |by left].
      + intros n' t' st. by destruct (closed p); intros [= -> -> <-].
      + intros n' t' r b. destruct (closed p); [|done]. intros [= -> -> <- <-]. by left.
    - destruct (exec t st a) as [next|] eqn:Hx; [|done]. injection H as <-. by apply trace_answer.
    - injection H as <-. eapply trace_change; [exact I|reflexivity|done|by destruct leaving|by destruct leaving|].
      simpl. intros n' t' r' [H|H]%elem_of_app; [by left|]. apply list_elem_of_singleton in H as [= -> -> ->].
      right. by eapply ti_report.
    - destruct (closed p); [|done]. injection H as <-. eapply trace_change; [exact I|reflexivity|done|done|done|by left].
    - destruct (jobs p) as [|[n t] rest]; [done|]. injection H as <-. eapply trace_change; [exact I|reflexivity|done|done| |by left].
      intros n' t' r b [= -> -> <- <-]. by left.
    - destruct (jobs p); [|done]. injection H as <-. eapply trace_change; [exact I|reflexivity|done|done|done|by left]. }
  destruct l; try by eapply Hwork; exact H.
  - injection H as <-. unfold Submit. destruct (validTask t); simpl; [|done]. destruct (closed p); simpl; [done|].
    destruct (_ <? _); simpl; [|done]. destruct I. by split.
  - injection H as <-. destruct I. by split.
Qed.

Lemma pool_reachable_trace size n p : pool_reachable size n p → trace_inv p.
Proof.
  intros H. assert (trace_inv (newPool size n)) as I.
  { split; simpl; try done.
    - intros i m t st [E _]%lookup_replicate. done.
    - intros [|] *; done.
    - intros i m t r b [E _]%lookup_replicate. done.
    - by intros m t r ?%elem_of_nil. }
  unfold pool_reachable in H. revert I. generalize (newPool size n) H. clear H.
  intros p0 H. induction H as [|x y z [l Hl] _ IH]; intros I; [done|]. apply IH. by eapply pool_step_trace.
Qed.

(** ** Closing ends *)

(** [rank] bounds the calls of a task, and every call can be answered. *)
Class JobLaws := {
  rank_start : 0 ≤ rank start;
  rank_next : ∀ t st a st', exec t st a = Some (inl st') → 0 ≤ rank st' < rank st;
  exec_answer : ∀ t st, ∃ a next, exec t st a = Some next
}.

Definition weight (w : worker) : Z :=
  match w with PGone => 0 | PLeaving => 1 | PIdle => 2 | PReport _ _ _ _ => 3 | PExec _ _ st => 4 + Z.max 0 (rank st) | PGot _ _ => 5 + Z.max 0 (rank start) end.
Definition measure (p : pool) : Z := (5 + Z.max 0 (rank start)) * Z.of_nat (length (jobs p)) + sumZ weight (workers p).

(** The steps of the workers. *)
Definition internal (l : label) : bool := match l with LSubmit _ | LClose => false | _ => true end.
Definition internal_step (p p' : pool) : Prop := ∃ l, internal l = true ∧ step l p = Some p'.

Lemma weight_nonneg w : 0 ≤ weight w.
Proof. destruct w; simpl; lia. Qed.
Lemma pool_measure_nonneg p : 0 ≤ measure p.
Proof. unfold measure. pose proof (sumZ_nonneg weight (workers p) weight_nonneg). nia. Qed.

Context {L : JobLaws}.

Lemma pool_internal_decreases p p' : internal_step p p' → measure p' < measure p.
Proof.
  intros (l & Hl & H).
  assert (∀ i, (w ← workers p !! i; stepWorker i l w p) = Some p' → measure p' < measure p) as Hwork.
  { clear H. intros i H. destruct (workers p !! i) as [w|] eqn:Hw; simpl in H; [|done]. unfold measure.
    destruct l, w; try discriminate H; simpl in H.
    - destruct (jobs p) as [|[n t] rest] eqn:Hj; [done|]. injection H as <-. simpl. rewrite (sumZ_insert _ _ _ _ _ Hw). simpl. nia.
    - injection H as <-. simpl. rewrite (sumZ_insert _ _ _ _ _ Hw). destruct (closed p); simpl; lia.
    - destruct (exec t st a) as [next|] eqn:Hx; [|done]. injection H as <-. simpl. rewrite (sumZ_insert _ _ _ _ _ Hw).
      destruct next; simpl; [pose proof (rank_next _ _ _ _ Hx); lia|lia].
    - injection H as <-. simpl. rewrite (sumZ_insert _ _ _ _ _ Hw). destruct leaving; simpl; lia.
    - destruct (closed p); [|done]. injection H as <-. simpl. rewrite (sumZ_insert _ _ _ _ _ Hw). simpl. lia.
    - destruct (jobs p) as [|[n t] rest] eqn:Hj; [done|]. injection H as <-. simpl. rewrite (sumZ_insert _ _ _ _ _ Hw). simpl. nia.
    - destruct (jobs p) eqn:Hj; [|done]. injection H as <-. simpl. rewrite (sumZ_insert _ _ _ _ _ Hw), Hj. simpl. lia. }
  destruct l; try discriminate Hl; by eapply Hwork; exact H.
Qed.

Lemma closed_progress p : pool_inv p → closed p = true → done_ p = false → ∃ p', internal_step p p'.
Proof.
  intros [] Hc Hd. assert (∃ i w, workers p !! i = Some w ∧ w ≠ PGone) as (i & w & Hw & Hg).
  { destruct (decide (Forall (λ w, there w = 0) (workers p))) as [H|H].
    - exfalso. assert (remaining p = 0) as H0; [|apply pi_done0 in H0; congruence]. rewrite pi_remaining0.
      clear -H. induction H; simpl; lia.
    - apply not_Forall_Exists in H; [|apply _]. apply Exists_exists in H as (w & [i Hi]%list_elem_of_lookup & Hw). exists i, w.
      split; [done|]. intros ->. by apply Hw. }
  assert (∀ l, internal l = true → (w ← workers p !! i; stepWorker i l w p) ≠ None →
    step l p = (w ← workers p !! i; stepWorker i l w p) → ∃ p', internal_step p p') as Hgo.
  { intros l Hl Hs E. destruct (workers p !! i ≫= _) as [p'|] eqn:Ew; [|done]. exists p', l. split; [done|]. by rewrite E. }
  destruct w as [|n t|n t st|n t r b| |]; [| | | | |done].
  - apply (Hgo (LLeave i)); [done|rewrite Hw; simpl; by rewrite Hc|done].
  - apply (Hgo (LCheck i)); [done|by rewrite Hw|done].
  - destruct (exec_answer t st) as (a & next & Hx). apply (Hgo (LAnswer i a)); [done|rewrite Hw; simpl; by rewrite Hx|done].
  - apply (Hgo (LReport i)); [done|by rewrite Hw|done].
  - destruct (jobs p) as [|[n t] rest] eqn:Hj.
    + apply (Hgo (LExit i)); [done|rewrite Hw; simpl; by rewrite Hj|done].
    + apply (Hgo (LDrain i)); [done|rewrite Hw; simpl; by rewrite Hj|done].
Qed.
End Pool.

(** ** Stopping services: [stop_runner.go] *)

Record NodeStopRunnerConfig := mkStopRunnerConfig {
  srcDirectory : ServiceRef; srcWorkers : Z; srcQueueSize : Z; srcCallTimeout : Duration; srcStopTimeout : Duration
}.
Definition validNodeStopRunnerConfig (c : NodeStopRunnerConfig) : bool :=
  validServiceRef (srcDirectory c) && (0 <? srcWorkers c) && (0 <? srcQueueSize c) && negb (srcCallTimeout c <? 0)
  && negb (srcStopTimeout c <? 0).

Inductive stopStage := ReadDirectory | StopService.
Inductive stopAnswer :=
| DirectoryAnswered (r : res groupError Directory.response)
| StopReturned (e : error rtError).

(** The directory client of the runner, with the answer the directory gives. *)
#[local] Instance answeredCaller : DirectoryCaller (res groupError Directory.response) := {| call c w := (w, w) |}.

Definition stopResult (t : NodeStopTask) (st : StopTargetState) (f : StopFailure) : nodeStopResult :=
  mkStopResult (ntRequestID t) (ntTarget t) st f.

(** [errors.Is] with the two errors of a service that is gone. *)
Definition alreadyGone (e : rtError) : bool :=
  errors_Is e ErrServiceClosed || errors_Is e ErrServiceNotFound.

(** [execute], call by call. *)
Definition executeStop (t : NodeStopTask) (st : stopStage) (a : stopAnswer) : option (stopStage + nodeStopResult) :=
  match st, a with
  | ReadDirectory, DirectoryAnswered r =>
      Some (match (DirectoryClient.Get (ntGroup t) r).2 with
            | Err _ => inr (stopResult t StopTargetPending StopFailureDirectoryUnavailable)
            | Ok current => if negb (sameDrainServiceSet current (ntPublished t))
                            then inr (stopResult t StopTargetSuperseded StopFailureNone)
                            else inl StopService
            end)
  | StopService, StopReturned e =>
      Some (inr (match e with
                 | None => stopResult t StopTargetStopped StopFailureNone
                 | Some e => if alreadyGone e then stopResult t StopTargetStopped StopFailureNone
                             else stopResult t StopTargetFailed StopFailureRuntimeStop
                 end))
  | _, _ => None
  end.

#[export] Instance stopJob : Job NodeStopTask stopStage stopAnswer nodeStopResult := {|
  validTask := validNodeStopTask;
  start := ReadDirectory;
  exec := executeStop;
  dropped t := stopResult t StopTargetFailed StopFailureRunnerClosed;
  closedError := ErrNodeStopRunnerClosed;
  fullError := ErrNodeStopQueueFull;
  rank st := match st with ReadDirectory => 1 | StopService => 0 end
|}.

Definition NewNodeStopRunner (c : NodeStopRunnerConfig)
  : res controlError (pool (Task := NodeStopTask) (Stage := stopStage) (Answer := stopAnswer) (Result := nodeStopResult)) :=
  if negb (validNodeStopRunnerConfig c) then Err ErrInvalidConfig else Ok (newPool (srcQueueSize c) (srcWorkers c)).

(** ** Creating replacements: [recovery_runner.go] *)

Section Recovery.
(** A [ServiceSpec] with its name and whether its service is nil, and a factory with
    what calling it returns. *)
Context {Spec Factory : Type} (specName : Spec → string) (nilService : Spec → bool) (runFactory : Factory → res rtError Spec).

(** [None] is a nil map or a nil factory. *)
Definition NewMapBlueprintRegistry (factories : option (gmap BlueprintID (option Factory)))
  : res controlError (gmap BlueprintID Factory) :=
  match factories with
  | None => Err ErrInvalidConfig
  | Some m =>
      if forallb (λ e, validBlueprintID e.1 && match e.2 with Some _ => true | None => false end) (map_to_list m)
      then Ok (omap id m) else Err ErrInvalidConfig
  end.

Definition Build (r : option (gmap BlueprintID Factory)) (id : BlueprintID) : res controlError Spec :=
  match r with
  | None => Err ErrInvalidConfig
  | Some factories =>
      if negb (validBlueprintID id) then Err ErrInvalidConfig
      else match factories !! id with
           | None => Err ErrInvalidConfig
           | Some factory =>
               match runFactory factory with
               | Err _ => Err ErrInvalidConfig
               | Ok spec => if bool_decide (specName spec ≠ "") || nilService spec then Err ErrInvalidConfig else Ok spec
               end
           end
  end.

Inductive recoveryStage := BuildSpec | CreateService (spec : Spec).
Inductive recoveryAnswer :=
| Built (r : res controlError Spec)        (** of any [BlueprintRegistry] *)
| CreateReturned (r : res rtError ServiceRef).

Definition recoveryResult (t : RecoveryCreateTask) (st : RecoveryTargetState) (f : RecoveryFailure) (created : ServiceRef)
  : recoveryCreateResult :=
  mkCreateResult (rcRequestID t) (rcRemoved t) (rcBlueprint t) created st f.

Definition acceptable (t : RecoveryCreateTask) (created : ServiceRef) : bool :=
  validServiceRef created && bool_decide (Node created = Node (rcAgent t)) && bool_decide (created ≠ rcRemoved t)
  && bool_decide (created ≠ rcAgent t).

Definition executeRecovery (t : RecoveryCreateTask) (st : recoveryStage) (a : recoveryAnswer)
  : option (recoveryStage + recoveryCreateResult) :=
  match st, a with
  | BuildSpec, Built (Err _) => Some (inr (recoveryResult t RecoveryTargetFailed RecoveryFailureBlueprintUnavailable zeroRef))
  | BuildSpec, Built (Ok spec) => Some (inl (CreateService spec))
  | CreateService _, CreateReturned r =>
      Some (inr (match r with
                 | Err _ => recoveryResult t RecoveryTargetFailed RecoveryFailureCreate zeroRef
                 | Ok created => if acceptable t created
                                 then recoveryResult t RecoveryTargetCreated RecoveryFailureNone created
                                 else recoveryResult t RecoveryTargetFailed RecoveryFailureCreate zeroRef
                 end))
  | _, _ => None
  end.

#[export] Instance recoveryJob : Job RecoveryCreateTask recoveryStage recoveryAnswer recoveryCreateResult := {|
  validTask := validRecoveryCreateTask;
  start := BuildSpec;
  exec := executeRecovery;
  dropped t := recoveryResult t RecoveryTargetFailed RecoveryFailureRunnerClosed zeroRef;
  closedError := ErrRecoveryRunnerClosed;
  fullError := ErrRecoveryQueueFull;
  rank st := match st with BuildSpec => 1 | CreateService _ => 0 end
|}.

Record RecoveryRunnerConfig := mkRecoveryRunnerConfig { rrcRegistry : bool; rrcWorkers : Z; rrcQueueSize : Z }.
Definition validRecoveryRunnerConfig (c : RecoveryRunnerConfig) : bool :=
  rrcRegistry c && (0 <? rrcWorkers c) && (0 <? rrcQueueSize c).

Definition NewRecoveryRunner (c : RecoveryRunnerConfig)
  : res controlError (pool (Task := RecoveryCreateTask) (Stage := recoveryStage) (Answer := recoveryAnswer) (Result := recoveryCreateResult)) :=
  if negb (validRecoveryRunnerConfig c) then Err ErrInvalidConfig else Ok (newPool (rrcQueueSize c) (rrcWorkers c)).

#[export] Instance recoveryLaws : JobLaws (J := recoveryJob).
Proof.
  split; [simpl; lia| |].
  - intros t [|spec] [[spec'|]|r] st' [= <-]; simpl; lia.
  - intros t [|spec]; [exists (Built (Err ErrInvalidConfig)); by eexists|].
    exists (CreateReturned (Err ContextCanceled)). by eexists.
Qed.
End Recovery.

#[export] Instance stopLaws : JobLaws (J := stopJob).
Proof.
  split; [simpl; lia| |].
  - intros t st a st' Hx. destruct st, a; simpl in Hx; try discriminate Hx.
    destruct (Get _ _).2; [|discriminate Hx]. destruct (sameDrainServiceSet _ _); [|discriminate Hx]. injection Hx as <-. simpl. lia.
  - intros t [|]; [exists (DirectoryAnswered (Err ErrInvalidGroup))|exists (StopReturned None)]; by eexists.
Qed.

(** ** Properties *)

(** In every interleaving of submitters, workers and a closer, each accepted task
    is in exactly one place: reported, queued or in the hands of one worker, and none
    is reported twice; the queue stays within its size; when [Close] has returned nil
    every accepted task was reported exactly once and the pool refuses every task.
    Once closed, the workers can always go on until [Close] returns, within a bounded
    number of steps. *)
Theorem pool_exactly_once {Task Stage Answer Result} {J : Job Task Stage Answer Result} {L : JobLaws (J := J)}
    size n (p : pool (Task := Task) (Stage := Stage) (Answer := Answer) (Result := Result)) :
  0 < size → 0 < n → pool_reachable size n p →
  seq 0 (accepted p) ≡ₚ (sent p).*1.*1 ++ (jobs p).*1 ++ concat (holds <$> workers p)
  ∧ Z.of_nat (length (jobs p)) ≤ queueSize p
  ∧ (closeReturned p = true → seq 0 (accepted p) ≡ₚ (sent p).*1.*1 ∧ ∀ t, (Submit t p).2 ≠ None)
  ∧ (closed p = true → closeReturned p = true ∨ ∃ p', internal_step p p')
  ∧ (∀ p', internal_step p p' → 0 ≤ measure p' < measure p).
Proof.
  intros Hs Hn Hr. pose proof (pool_reachable_inv _ _ _ Hs Hn Hr) as I. split_and!.
  - apply I.
  - apply I.
  - intros Hc. split; [by apply pool_returned|]. intros t. apply andb_true_iff in Hc as [Hc _]. unfold Submit. rewrite Hc.
    by destruct (negb (validTask t)).
  - intros Hc. destruct (done_ p) eqn:Hd; [left; unfold closeReturned; by rewrite Hc, Hd|right]. by apply closed_progress.
  - intros p' H. split; [apply pool_measure_nonneg|by apply pool_internal_decreases].
Qed.

(** A worker of the stop runner calls [Runtime.Stop] only when the call it made
    directly before, for the same task, read the directory as exactly the published
    set; it reports a target as stopped only when that [Runtime.Stop] returned nil or
    found the service gone. *)
Theorem stop_runner_checks_directory c p0 p :
  NewNodeStopRunner c = Ok p0 → rtc pool_step p0 p →
  (∀ l1 i n t a l2, calls p = l1 ++ (i, n, t, StopService, a) :: l2 →
     ∃ r set, lastCall i l1 = Some (i, n, t, ReadDirectory, DirectoryAnswered r)
              ∧ (DirectoryClient.Get (ntGroup t) r).2 = Ok set ∧ sameDrainServiceSet set (ntPublished t) = true)
  ∧ (∀ n t r, (n, t, r) ∈ sent p → nsState r = StopTargetStopped →
     ∃ i e, (i, n, t, StopService, StopReturned e) ∈ calls p ∧ match e with None => True | Some e => alreadyGone e = true end).
Proof.
  unfold NewNodeStopRunner. destruct (validNodeStopRunnerConfig c); simpl; [|done]. intros [= <-] Hr.
  pose proof (pool_reachable_trace _ _ _ Hr) as I. split.
  - intros l1 i n t a l2 Hl. destruct (ti_calls _ I _ _ _ _ _ _ _ Hl) as [[=]|(st0 & a0 & Hlast & Hx)].
    destruct st0, a0 as [r|e]; simpl in Hx; try discriminate Hx.
    destruct (Get (ntGroup t) r).2 as [set|e] eqn:Hg; [|discriminate Hx].
    destruct (sameDrainServiceSet set (ntPublished t)) eqn:Hs; [|discriminate Hx]. by exists r, set.
  - intros n t r Hin Hst. destruct (ti_sent _ I _ _ _ Hin) as [->|(i & st & a & Hc & Hx)]; [discriminate Hst|].
    destruct st, a as [r0|e]; simpl in Hx; try discriminate Hx.
    + destruct (Get (ntGroup t) r0).2 as [set|e]; [destruct (sameDrainServiceSet _ _)|]; simplify_eq/=; discriminate Hst.
    + exists i, e. split; [done|]. destruct e as [e|]; [|done]. by destruct (alreadyGone e); simplify_eq/=.
Qed.

(** ** A sample run *)

Section Labels.
Context {Task Stage Answer Result : Type} {J : Job Task Stage Answer Result}.
Fixpoint runPool (l : list label) (p : pool (Task := Task) (Stage := Stage) (Answer := Answer) (Result := Result)) : option pool :=
  match l with [] => Some p | x :: l => p ← step x p; runPool l p end.
Lemma runPool_steps l p p' : runPool l p = Some p' → rtc pool_step p p'.
Proof.
  revert p. induction l as [|x l IH]; intros p H; simpl in H; [by injection H as ->|].
  destruct (step x p) as [p1|] eqn:E; [|done]. eapply rtc_l; [by exists x|by apply IH].
Qed.
End Labels.

Definition sampleSet : ServiceSet := mkSet "pool" (mkVersion 7 2) (Some [mkRef "n1" 10]) (Some ∅).
Definition sampleStopTask : NodeStopTask := mkStopTask (mkRef "n1" 20) "r1" (mkRef "n1" 11) "pool" sampleSet.
Definition sampleStopConfig : NodeStopRunnerConfig := mkStopRunnerConfig (mkRef "n1" 2) 1 1 0 0.
Definition sampleStop : list (label (Task := NodeStopTask) (Answer := stopAnswer)) :=
  [LSubmit sampleStopTask; LReceive 0; LCheck 0; LAnswer 0 (DirectoryAnswered (Ok (serviceSetResponse (Ok sampleSet))));
   LAnswer 0 (StopReturned None); LReport 0; LClose; LLeave 0; LExit 0].
Definition sampleStopped : pool := Eval vm_compute in default (newPool 1 1) (runPool sampleStop (newPool 1 1)).

Lemma sampleStop_steps : rtc pool_step (newPool 1 1) sampleStopped.
Proof. apply (runPool_steps sampleStop). vm_compute. reflexivity. Qed.

Lemma pool_exactly_once_witness : closeReturned sampleStopped = true ∧ seq 0 1 ≡ₚ (sent sampleStopped).*1.*1.
Proof.
  split; [reflexivity|].
  exact (proj1 (proj1 (proj2 (proj2 (pool_exactly_once 1 1 sampleStopped eq_refl eq_refl sampleStop_steps))) eq_refl)).
Defined.

Lemma stop_runner_checks_directory_witness :
  ∃ i e, (i, 0%nat, sampleStopTask, StopService, StopReturned e) ∈ calls sampleStopped
         ∧ match e with None => True | Some e => alreadyGone e = true end.
Proof.
  assert ((0%nat, sampleStopTask, stopResult sampleStopTask StopTargetStopped StopFailureNone) ∈ sent sampleStopped) as H by (left).
  exact (proj2 (stop_runner_checks_directory sampleStopConfig (newPool 1 1) sampleStopped eq_refl sampleStop_steps) _ _ _ H eq_refl).
Defined.
