(* ===== verification/NodeAgent.v ===== *)
(** * The node agent

    [src/tooling/control/node_agent.go]: the service on every node that executes what
    the coordinator orders, through the worker pools of [NodeRunner], keeps a receipt
    per order, and keeps the lease of its node alive.

    What the executors, the discovery client, the timers and the clock answer is an
    instance of [AgentEnv], any function of the log so far.  The log also notes the
    results the agent recorded. *)

From stdpp Require Import prelude gmap strings list.
From Stdlib Require Import ZArith Lia.
From S2P Require Import Prelude Types Metrics GoText Directory Discovery Control Coordinator NodeRunner.

Local Open Scope Z_scope.

(** ** The service *)

(** [naReporter], [naStopExecutor] and [naRecoveryExecutor]: not nil. *)
Record NodeAgentConfig := mkAgentConfig {
  naReporter : bool; naObserverNode : NodeID; naDiscovery : ServiceRef; naAddress : string;
  naHeartbeatInterval : Duration; naCallTimeout : Duration;
  naStopCoordinator : ServiceRef; naStopExecutor : bool; naRecoveryCoordinator : ServiceRef; naRecoveryExecutor : bool
}.

Definition defaultHeartbeatInterval : Duration := 10 * 10 ^ 9.

Record nodeStopRecord := mkNodeStopRecord { nrTask : NodeStopTask; nrReceipt : NodeStopReceipt }.
Record nodeRecoveryRecord := mkNodeRecoveryRecord { vrTask : RecoveryCreateTask; vrReceipt : RecoveryReceipt }.
Abbreviation nodeStopKey := (RequestID * ServiceRef)%type (only parsing).
Abbreviation nodeRecoveryKey := (RequestID * ServiceRef)%type (only parsing).

Record nodeAgent := mkAgent {
  agConfig : NodeAgentConfig; Self : ServiceRef;
  lease : NodeLease; hasLease : bool;
  stopReceipts : gmap nodeStopKey nodeStopRecord; recoveryReceipts : gmap nodeRecoveryKey nodeRecoveryRecord;
  agMetrics : metricCollector
}.

Definition configured (coordinator : ServiceRef) (executor : bool) : bool := validServiceRef coordinator && executor.
Definition validNodeAgentConfig (c : NodeAgentConfig) : bool :=
  naReporter c && validNode (naObserverNode c) && validServiceRef (naDiscovery c) && bool_decide (TrimSpace (naAddress c) ≠ "")
  && negb (naHeartbeatInterval c <? 0) && negb (naCallTimeout c <? 0)
  && (negb (bool_decide (naStopCoordinator c ≠ zeroRef) || naStopExecutor c) || configured (naStopCoordinator c) (naStopExecutor c))
  && (negb (bool_decide (naRecoveryCoordinator c ≠ zeroRef) || naRecoveryExecutor c)
      || configured (naRecoveryCoordinator c) (naRecoveryExecutor c)).

Definition NewNodeAgentService (c : NodeAgentConfig) (self : ServiceRef) (mc : metricCollector) : res controlError nodeAgent :=
  if negb (validNodeAgentConfig c) then Err ErrInvalidConfig
  else
    let interval := if naHeartbeatInterval c =? 0 then defaultHeartbeatInterval else naHeartbeatInterval c in
    let timeout := if naCallTimeout c =? 0 then defaultCallTimeout else naCallTimeout c in
    Ok (mkAgent (mkAgentConfig (naReporter c) (naObserverNode c) (naDiscovery c) (naAddress c) interval timeout
                   (naStopCoordinator c) (naStopExecutor c) (naRecoveryCoordinator c) (naRecoveryExecutor c))
          self (Discovery.mkLease "" 0 0 0) false ∅ ∅ mc).

(** ** Effects *)

Inductive leaseCommand := RegisterLease | HeartbeatLease.
#[global] Instance leaseCommand_eq_dec : EqDecision leaseCommand.
Proof. solve_decision. Defined.

Inductive agEvent :=
| SubmittedStop (t : NodeStopTask) (e : error controlError)
| SubmittedRecovery (t : RecoveryCreateTask) (e : error controlError)
| Registered (r : res discoveryError NodeLease)
| Heartbeaten (l : NodeLease) (r : res discoveryError NodeLease)
| Unregistered (l : NodeLease) (e : error discoveryError)
| TimerSet (c : leaseCommand) (e : error rtError)
| Looked (t : Time)                      (** [Now] *)
| RecordedStop (k : nodeStopKey)         (** noted, not a call *)
| RecordedRecovery (k : nodeRecoveryKey).

Class AgentEnv := {
  agSubmitStop : list agEvent → NodeStopTask → error controlError;
  agSubmitRecovery : list agEvent → RecoveryCreateTask → error controlError;
  agRegister : list agEvent → NodeID → string → res discoveryError NodeLease;
  agHeartbeat : list agEvent → NodeLease → res discoveryError NodeLease;
  agUnregister : list agEvent → NodeLease → error discoveryError;
  agAfter : list agEvent → leaseCommand → error rtError;
  agNow : list agEvent → Time
}.

Record agWorld := mkAgWorld { agent : nodeAgent; trace : list agEvent }.
Definition Ag (X : Type) : Type := agWorld → agWorld * X.
#[global] Instance ag_ret : MRet Ag := λ X x w, (w, x).
#[global] Instance ag_bind : MBind Ag := λ X Y k m w, let '(w, x) := m w in k x w.

Definition aget {X} (f : nodeAgent → X) : Ag X := λ w, (w, f (agent w)).
Definition note (e : agEvent) (w : agWorld) : agWorld := mkAgWorld (agent w) (trace w ++ [e]).
Definition anote (e : agEvent) : Ag unit := λ w, (note e w, ()).
Definition amodify (f : nodeAgent → nodeAgent) : Ag unit := λ w, (mkAgWorld (f (agent w)) (trace w), ()).

Definition set_stop k r (a : nodeAgent) :=
  mkAgent (agConfig a) (Self a) (lease a) (hasLease a) (<[k := r]> (stopReceipts a)) (recoveryReceipts a) (agMetrics a).
Definition set_recovery k r (a : nodeAgent) :=
  mkAgent (agConfig a) (Self a) (lease a) (hasLease a) (stopReceipts a) (<[k := r]> (recoveryReceipts a)) (agMetrics a).
Definition set_lease l b (a : nodeAgent) :=
  mkAgent (agConfig a) (Self a) l b (stopReceipts a) (recoveryReceipts a) (agMetrics a).
Definition ainc (name : string) : Ag unit :=
  amodify (λ a, mkAgent (agConfig a) (Self a) (lease a) (hasLease a) (stopReceipts a) (recoveryReceipts a) (Inc name (agMetrics a))).

(** What a handler does: it replies, or it returns an error without a reply. *)
Inductive agError := Refused (e : controlError) | FromRuntime (e : rtError) | UnknownCommand.
Inductive agResponse {Report : Type} :=
| nodeReportResponse (r : option Report) (c : errorCode)
| nodeStopReceiptResponse (r : NodeStopReceipt) (c : errorCode)
| recoveryReceiptResponse (r : RecoveryReceipt) (c : errorCode).
Arguments agResponse : clear implicits.
Inductive agHandled {Report : Type} := AgReplied (r : agResponse Report) | AgReturned (e : error agError).
Arguments agHandled : clear implicits.

Section Agent.
Context {Report : Type} {EN : AgentEnv} (Capture : Report).

Definition anow : Ag Time := λ w, let t := agNow (trace w) in (note (Looked t) w, t).

Definition replyNodeStopReceipt (r : NodeStopReceipt) (e : error controlError) : agHandled Report :=
  AgReplied (nodeStopReceiptResponse r (codeFromError e)).
Definition replyRecoveryReceipt (r : RecoveryReceipt) (e : error controlError) : agHandled Report :=
  AgReplied (recoveryReceiptResponse r (codeFromError e)).

Definition runtimeNodeSource (source : ServiceRef) (a : nodeAgent) : bool :=
  bool_decide (Node source = Node (Self a)) && (ID source =? 0).
Definition allowedLeaseCommandSource (source : ServiceRef) (a : nodeAgent) : bool :=
  bool_decide (source = Self a) || runtimeNodeSource source a.
Definition stopEnabled (a : nodeAgent) : bool := configured (naStopCoordinator (agConfig a)) (naStopExecutor (agConfig a)).
Definition recoveryEnabled (a : nodeAgent) : bool :=
  configured (naRecoveryCoordinator (agConfig a)) (naRecoveryExecutor (agConfig a)).

(** [validNodeStopTask] and [validRecoveryTask] of the agent. *)
Definition agentStopTask (t : NodeStopTask) (a : nodeAgent) : bool := validNodeStopTask t && bool_decide (ntAgent t = Self a).
Definition agentRecoveryTask (t : RecoveryCreateTask) (a : nodeAgent) : bool :=
  validRecoveryCreateTask t && bool_decide (rcAgent t = Self a).

Definition handleGetNodeReport (source : ServiceRef) (payload : bool) (a : nodeAgent) : agHandled Report :=
  if negb payload then AgReplied (nodeReportResponse None responseInvalidRequest)
  else if bool_decide (Node source ≠ naObserverNode (agConfig a)) || (ID source =? 0)
  then AgReplied (nodeReportResponse None responseUnauthorized)
  else AgReplied (nodeReportResponse (Some Capture) responseOK).

(** ** Stopping *)

Definition setReceipt (r : NodeStopReceipt) (st : StopTargetState) (f : StopFailure) : NodeStopReceipt :=
  mkStopReceipt (srRequestID r) (srTarget r) st f (srUpdatedAt r).

Definition submitNodeStop (key : nodeStopKey) (t : NodeStopTask) : Ag (agHandled Report) :=
  now ← anow;
  let receipt := mkStopReceipt (ntRequestID t) (ntTarget t) StopTargetQueued StopFailureNone now in
  e ← (λ w, let e := agSubmitStop (trace w) t in (note (SubmittedStop t e) w, e));
  match e with
  | None =>
      _ ← amodify (set_stop key (mkNodeStopRecord t receipt));
      _ ← ainc "node_stop_queued_total";
      mret (replyNodeStopReceipt receipt None)
  | Some ErrNodeStopQueueFull =>
      let receipt := setReceipt receipt StopTargetPending StopFailureQueueFull in
      _ ← amodify (set_stop key (mkNodeStopRecord t receipt));
      mret (replyNodeStopReceipt receipt None)
  | Some ErrNodeStopRunnerClosed =>
      let receipt := setReceipt receipt StopTargetFailed StopFailureRunnerClosed in
      _ ← amodify (set_stop key (mkNodeStopRecord t receipt));
      _ ← ainc "node_stop_failed_total";
      mret (replyNodeStopReceipt receipt None)
  | Some _ => mret (replyNodeStopReceipt zeroStopReceipt (Some ErrInvalidResponse))
  end.

(** [None]: a payload of another type. *)
Definition handleBeginNodeStop (source : ServiceRef) (payload : option NodeStopTask) : Ag (agHandled Report) :=
  enabled ← aget stopEnabled;
  coordinator ← aget (naStopCoordinator ∘ agConfig);
  if negb enabled then mret (replyNodeStopReceipt zeroStopReceipt (Some ErrStopDisabled))
  else if bool_decide (source ≠ coordinator) then mret (replyNodeStopReceipt zeroStopReceipt (Some ErrUnauthorized))
  else
    valid ← aget (λ a, match payload with Some t => agentStopTask t a | None => false end);
    match payload, valid with
    | Some t, true =>
        let key := (ntRequestID t, ntTarget t) in
        existing ← aget (λ a, stopReceipts a !! key);
        match existing with
        | Some r =>
            if negb (sameNodeStopTask (nrTask r) t) then mret (replyNodeStopReceipt zeroStopReceipt (Some ErrInvalidStopRequest))
            else if bool_decide (srState (nrReceipt r) ≠ StopTargetPending) then mret (replyNodeStopReceipt (nrReceipt r) None)
            else submitNodeStop key t
        | None => submitNodeStop key t
        end
    | _, _ => mret (replyNodeStopReceipt zeroStopReceipt (Some ErrInvalidStopRequest))
    end.

Definition handleGetNodeStopReceipt (source : ServiceRef) (payload : option (RequestID * ServiceRef)) (a : nodeAgent)
  : agHandled Report :=
  if negb (stopEnabled a) then replyNodeStopReceipt zeroStopReceipt (Some ErrStopDisabled)
  else if bool_decide (source ≠ naStopCoordinator (agConfig a)) then replyNodeStopReceipt zeroStopReceipt (Some ErrUnauthorized)
  else
    match payload with
    | Some (id, target) =>
        if negb (validRequestID id) || negb (validServiceRef target) || bool_decide (Node target ≠ Node (Self a))
           || bool_decide (target = Self a)
        then replyNodeStopReceipt zeroStopReceipt (Some ErrInvalidStopRequest)
        else match stopReceipts a !! (id, target) with
             | None => replyNodeStopReceipt zeroStopReceipt (Some ErrStopOperationNotFound)
             | Some r => replyNodeStopReceipt (nrReceipt r) None
             end
    | None => replyNodeStopReceipt zeroStopReceipt (Some ErrInvalidStopRequest)
    end.

Definition handleNodeStopResult (source : ServiceRef) (payload : option nodeStopResult) : Ag (agHandled Report) :=
  ok ← aget (λ a, stopEnabled a && runtimeNodeSource source a);
  if negb ok then mret (AgReturned (Some (Refused ErrUnauthorized)))
  else
    let refuse : Ag (agHandled Report) := mret (AgReturned (Some (Refused ErrInvalidStopRequest))) in
    match payload with
    | None => refuse
    | Some result =>
        if negb (validNodeStopResult result) then refuse
        else
          let key := (nsRequestID result, nsTarget result) in
          existing ← aget (λ a, stopReceipts a !! key);
          match existing with
          | None => refuse
          | Some r =>
              if bool_decide (srState (nrReceipt r) ≠ StopTargetQueued) then refuse
              else
                now ← anow;
                _ ← amodify (set_stop key (mkNodeStopRecord (nrTask r)
                      (mkStopReceipt (srRequestID (nrReceipt r)) (srTarget (nrReceipt r)) (nsState result) (nsFailure result) now)));
                _ ← anote (RecordedStop key);
                _ ← match nsState result with
                    | StopTargetStopped => ainc "node_stop_completed_total"
                    | StopTargetSuperseded => ainc "node_stop_superseded_total"
                    | StopTargetFailed => ainc "node_stop_failed_total"
                    | _ => mret ()
                    end;
                mret (AgReturned None)
          end
    end.

(** ** Replacements *)

Definition submitRecovery (key : nodeRecoveryKey) (t : RecoveryCreateTask) : Ag (agHandled Report) :=
  now ← anow;
  let receipt st f := mkRecoveryReceipt (rcRequestID t) (rcRemoved t) (rcBlueprint t) zeroRef st f now in
  e ← (λ w, let e := agSubmitRecovery (trace w) t in (note (SubmittedRecovery t e) w, e));
  match e with
  | None =>
      let r := receipt RecoveryTargetCreating RecoveryFailureNone in
      _ ← amodify (set_recovery key (mkNodeRecoveryRecord t r));
      _ ← ainc "node_recovery_queued_total";
      mret (replyRecoveryReceipt r None)
  | Some ErrRecoveryQueueFull =>
      let r := receipt RecoveryTargetFailed RecoveryFailureQueueFull in
      _ ← amodify (set_recovery key (mkNodeRecoveryRecord t r));
      mret (replyRecoveryReceipt r None)
  | Some ErrRecoveryRunnerClosed =>
      let r := receipt RecoveryTargetFailed RecoveryFailureRunnerClosed in
      _ ← amodify (set_recovery key (mkNodeRecoveryRecord t r));
      _ ← ainc "node_recovery_failed_total";
      mret (replyRecoveryReceipt r None)
  | Some _ => mret (replyRecoveryReceipt zeroRecoveryReceipt (Some ErrInvalidResponse))
  end.

Definition handleBeginRecoveryCreate (source : ServiceRef) (payload : option RecoveryCreateTask) : Ag (agHandled Report) :=
  enabled ← aget recoveryEnabled;
  coordinator ← aget (naRecoveryCoordinator ∘ agConfig);
  if negb enabled then mret (replyRecoveryReceipt zeroRecoveryReceipt (Some ErrRecoveryNotReady))
  else if bool_decide (source ≠ coordinator) then mret (replyRecoveryReceipt zeroRecoveryReceipt (Some ErrUnauthorized))
  else
    valid ← aget (λ a, match payload with Some t => agentRecoveryTask t a | None => false end);
    match payload, valid with
    | Some t, true =>
        let key := (rcRequestID t, rcRemoved t) in
        existing ← aget (λ a, recoveryReceipts a !! key);
        match existing with
        | Some r =>
            if negb (sameRecoveryCreateTask (vrTask r) t)
            then mret (replyRecoveryReceipt zeroRecoveryReceipt (Some ErrInvalidRecoveryRequest))
            else if bool_decide (rvState (vrReceipt r) ≠ RecoveryTargetFailed)
                    || bool_decide (rvFailure (vrReceipt r) ≠ RecoveryFailureQueueFull)
            then mret (replyRecoveryReceipt (vrReceipt r) None)
            else submitRecovery key t
        | None => submitRecovery key t
        end
    | _, _ => mret (replyRecoveryReceipt zeroRecoveryReceipt (Some ErrInvalidRecoveryRequest))
    end.

Definition handleGetRecoveryReceipt (source : ServiceRef) (payload : option (RequestID * ServiceRef)) (a : nodeAgent)
  : agHandled Report :=
  if negb (recoveryEnabled a) then replyRecoveryReceipt zeroRecoveryReceipt (Some ErrRecoveryNotReady)
  else if bool_decide (source ≠ naRecoveryCoordinator (agConfig a))
  then replyRecoveryReceipt zeroRecoveryReceipt (Some ErrUnauthorized)
  else
    match payload with
    | Some (id, removed) =>
        if negb (validRequestID id) || negb (validServiceRef removed) || bool_decide (Node removed ≠ Node (Self a))
           || bool_decide (removed = Self a)
        then replyRecoveryReceipt zeroRecoveryReceipt (Some ErrInvalidRecoveryRequest)
        else match recoveryReceipts a !! (id, removed) with
             | None => replyRecoveryReceipt zeroRecoveryReceipt (Some ErrRecoveryOperationNotFound)
             | Some r => replyRecoveryReceipt (vrReceipt r) None
             end
    | None => replyRecoveryReceipt zeroRecoveryReceipt (Some ErrInvalidRecoveryRequest)
    end.

Definition handleRecoveryCreateResult (source : ServiceRef) (payload : option recoveryCreateResult) : Ag (agHandled Report) :=
  ok ← aget (λ a, recoveryEnabled a && runtimeNodeSource source a);
  self ← aget (Node ∘ Self);
  if negb ok then mret (AgReturned (Some (Refused ErrUnauthorized)))
  else
    let refuse : Ag (agHandled Report) := mret (AgReturned (Some (Refused ErrInvalidRecoveryRequest))) in
    match payload with
    | None => refuse
    | Some result =>
        if negb (validRecoveryCreateResult result)
           || bool_decide (rsCreated result ≠ zeroRef) && bool_decide (Node (rsCreated result) ≠ self)
           || bool_decide (Node (rsRemoved result) ≠ self)
        then refuse
        else
          let key := (rsRequestID result, rsRemoved result) in
          existing ← aget (λ a, recoveryReceipts a !! key);
          match existing with
          | None => refuse
          | Some r =>
              if bool_decide (rvState (vrReceipt r) ≠ RecoveryTargetCreating)
                 || bool_decide (rcBlueprint (vrTask r) ≠ rsBlueprint result) then refuse
              else
                now ← anow;
                let x := vrReceipt r in
                _ ← amodify (set_recovery key (mkNodeRecoveryRecord (vrTask r)
                      (mkRecoveryReceipt (rvRequestID x) (rvRemoved x) (rvBlueprint x) (rsCreated result) (rsState result)
                         (rsFailure result) now)));
                _ ← anote (RecordedRecovery key);
                _ ← match rsState result with
                    | RecoveryTargetCreated => ainc "node_recovery_created_total"
                    | RecoveryTargetFailed => ainc "node_recovery_failed_total"
                    | _ => mret ()
                    end;
                mret (AgReturned None)
          end
    end.

(** ** The lease *)

Definition schedule (c : leaseCommand) : Ag (agHandled Report) := λ w,
  let e := agAfter (trace w) c in (note (TimerSet c e) w, AgReturned (FromRuntime <$> e)).

Definition registerLease : Ag (agHandled Report) :=
  node ← aget (Node ∘ Self);
  address ← aget (naAddress ∘ agConfig);
  r ← (λ w, let r := agRegister (trace w) node address in (note (Registered r) w, r));
  match r with
  | Ok l => _ ← amodify (set_lease l true); schedule HeartbeatLease
  | Err _ => schedule RegisterLease
  end.

Definition heartbeatLease : Ag (agHandled Report) :=
  has ← aget hasLease;
  if negb has then registerLease
  else
    l ← aget lease;
    r ← (λ w, let r := agHeartbeat (trace w) l in (note (Heartbeaten l r) w, r));
    match r with
    | Ok l => _ ← amodify (set_lease l true); schedule HeartbeatLease
    | Err Discovery.ErrLeaseExpired => registerLease
    | Err _ => schedule HeartbeatLease
    end.

Definition unregisterNode (l : NodeLease) : Ag unit := λ w, (note (Unregistered l (agUnregister (trace w) l)) w, ()).

(** [Stop]: its error is always nil. *)
Definition StopAgent : Ag unit :=
  _ ← amodify (λ a, mkAgent (agConfig a) (Self a) (lease a) (hasLease a) ∅ ∅ (agMetrics a));
  has ← aget hasLease;
  if negb has then mret ()
  else
    l ← aget lease;
    _ ← amodify (set_lease l false);
    unregisterNode l.

(** ** The handler *)

Inductive agCommand :=
| GetNodeReport (payload : bool)
| BeginNodeStop (payload : option NodeStopTask)
| GetNodeStopReceipt (payload : option (RequestID * ServiceRef))
| RecordNodeStopResult (payload : option nodeStopResult)
| BeginRecoveryCreate (payload : option RecoveryCreateTask)
| GetRecoveryReceipt (payload : option (RequestID * ServiceRef))
| RecordRecoveryCreate (payload : option recoveryCreateResult)
| LeaseCommand (c : leaseCommand) (nilPayload : bool)
| OtherCommand.

Definition HandleAgent (source : ServiceRef) (c : agCommand) : Ag (agHandled Report) :=
  match c with
  | GetNodeReport payload => a ← aget (λ a, a); mret (handleGetNodeReport source payload a)
  | BeginNodeStop payload => handleBeginNodeStop source payload
  | GetNodeStopReceipt payload => a ← aget (λ a, a); mret (handleGetNodeStopReceipt source payload a)
  | RecordNodeStopResult payload => handleNodeStopResult source payload
  | BeginRecoveryCreate payload => handleBeginRecoveryCreate source payload
  | GetRecoveryReceipt payload => a ← aget (λ a, a); mret (handleGetRecoveryReceipt source payload a)
  | RecordRecoveryCreate payload => handleRecoveryCreateResult source payload
  | LeaseCommand RegisterLease nilPayload =>
      ok ← aget (allowedLeaseCommandSource source);
      if negb nilPayload || negb ok then mret (AgReturned (Some (Refused ErrUnauthorized))) else registerLease
  | LeaseCommand HeartbeatLease nilPayload =>
      ok ← aget (runtimeNodeSource source);
      if negb nilPayload || negb ok then mret (AgReturned (Some (Refused ErrUnauthorized))) else heartbeatLease
  | OtherCommand => mret (AgReturned (Some UnknownCommand))
  end.

Fixpoint runAgent (l : list (ServiceRef * agCommand)) : Ag (list (agHandled Report)) :=
  match l with
  | [] => mret []
  | (source, c) :: l => x ← HandleAgent source c; xs ← runAgent l; mret (x :: xs)
  end.
End Agent.

(** ** Orders in flight *)

(** What an event does to the number of orders for [k] that the executor accepted and
    whose result was not recorded. *)
Definition stopDelta (k : nodeStopKey) (e : agEvent) : Z :=
  match e with
  | SubmittedStop t None => if decide (k = (ntRequestID t, ntTarget t)) then 1 else 0
  | RecordedStop k' => if decide (k = k') then -1 else 0
  | _ => 0
  end.
Definition recoveryDelta (k : nodeRecoveryKey) (e : agEvent) : Z :=
  match e with
  | SubmittedRecovery t None => if decide (k = (rcRequestID t, rcRemoved t)) then 1 else 0
  | RecordedRecovery k' => if decide (k = k') then -1 else 0
  | _ => 0
  end.
Fixpoint total (delta : agEvent → Z) (l : list agEvent) : Z := match l with [] => 0 | e :: l => delta e + total delta l end.
Definition stopsInFlight (k : nodeStopKey) (l : list agEvent) : Z := total (stopDelta k) l.
Definition recoveriesInFlight (k : nodeRecoveryKey) (l : list agEvent) : Z := total (recoveryDelta k) l.

Lemma total_app delta l l' : total delta (l ++ l') = total delta l + total delta l'.
Proof. induction l as [|e l IH]; simpl; lia. Qed.
Lemma stops_snoc k l e : stopsInFlight k (l ++ [e]) = stopsInFlight k l + stopDelta k e.
Proof. unfold stopsInFlight. rewrite total_app. simpl. lia. Qed.
Lemma recoveries_snoc k l e : recoveriesInFlight k (l ++ [e]) = recoveriesInFlight k l + recoveryDelta k e.
Proof. unfold recoveriesInFlight. rewrite total_app. simpl. lia. Qed.

Definition queued (m : gmap nodeStopKey nodeStopRecord) (k : nodeStopKey) : Z :=
  match m !! k with Some r => if decide (srState (nrReceipt r) = StopTargetQueued) then 1 else 0 | None => 0 end.
Definition creating (m : gmap nodeRecoveryKey nodeRecoveryRecord) (k : nodeRecoveryKey) : Z :=
  match m !! k with Some r => if decide (rvState (vrReceipt r) = RecoveryTargetCreating) then 1 else 0 | None => 0 end.

(** The receipts of a well-formed agent. *)
Definition stopReceiptOk (k : nodeStopKey) (r : nodeStopRecord) : Prop :=
  validNodeStopReceipt (nrReceipt r) = true ∧ k = (srRequestID (nrReceipt r), srTarget (nrReceipt r))
  ∧ k = (ntRequestID (nrTask r), ntTarget (nrTask r)).
Definition recoveryReceiptOk (k : nodeRecoveryKey) (r : nodeRecoveryRecord) : Prop :=
  validRecoveryReceipt (vrReceipt r) = true ∧ k = (rvRequestID (vrReceipt r), rvRemoved (vrReceipt r))
  ∧ k = (rcRequestID (vrTask r), rcRemoved (vrTask r)) ∧ rvBlueprint (vrReceipt r) = rcBlueprint (vrTask r).

Record agInv (w : agWorld) : Prop := {
  ai_stops : ∀ k r, stopReceipts (agent w) !! k = Some r → stopReceiptOk k r;
  ai_recoveries : ∀ k r, recoveryReceipts (agent w) !! k = Some r → recoveryReceiptOk k r;
  ai_stopFlights : ∀ k, stopsInFlight k (trace w) = queued (stopReceipts (agent w)) k;
  ai_recoveryFlights : ∀ k, recoveriesInFlight k (trace w) = creating (recoveryReceipts (agent w)) k
}.

(** Receipts that say how an order ended. *)
Definition stopFinal (r : nodeStopRecord) : Prop :=
  srState (nrReceipt r) ≠ StopTargetPending ∧ srState (nrReceipt r) ≠ StopTargetQueued.
Definition recoveryFinal (r : nodeRecoveryRecord) : Prop :=
  rvState (vrReceipt r) ≠ RecoveryTargetCreating
  ∧ ¬ (rvState (vrReceipt r) = RecoveryTargetFailed ∧ rvFailure (vrReceipt r) = RecoveryFailureQueueFull).

Record agLater (a a' : nodeAgent) : Prop := {
  al_stops : ∀ k r, stopReceipts a !! k = Some r →
    ∃ r', stopReceipts a' !! k = Some r' ∧ (stopFinal r → r' = r);
  al_recoveries : ∀ k r, recoveryReceipts a !! k = Some r →
    ∃ r', recoveryReceipts a' !! k = Some r' ∧ (recoveryFinal r → r' = r)
}.
#[global] Instance agLater_preorder : PreOrder agLater.
Proof.
  split; [intros a; split; intros k r Hr; exists r; by split|].
  intros a b c [A1 A2] [B1 B2]. split; intros k r Hr.
  - destruct (A1 k r Hr) as (r1 & H1 & F1). destruct (B1 k r1 H1) as (r2 & H2 & F2). exists r2.
    split; [done|]. intros Hf. rewrite F2; [by apply F1|]. by rewrite F1.
  - destruct (A2 k r Hr) as (r1 & H1 & F1). destruct (B2 k r1 H1) as (r2 & H2 & F2). exists r2.
    split; [done|]. intros Hf. rewrite F2; [by apply F1|]. by rewrite F1.
Qed.

(** ** Every command keeps the invariant *)

(** A world with another receipt for a stop: the events in between change the orders
    in flight for its key as the receipt does. *)
Lemma put_stop (w : agWorld) k r (a' : nodeAgent) l :
  agInv w → stopReceiptOk k r → (∀ r0, stopReceipts (agent w) !! k = Some r0 → ¬ stopFinal r0) →
  stopReceipts a' = <[k := r]> (stopReceipts (agent w)) → recoveryReceipts a' = recoveryReceipts (agent w) →
  (∀ k', total (stopDelta k') l = if decide (k' = k) then queued (stopReceipts a') k - queued (stopReceipts (agent w)) k else 0) →
  (∀ k', total (recoveryDelta k') l = 0) →
  agInv (mkAgWorld a' (trace w ++ l)) ∧ agLater (agent w) a'.
Proof.
  intros [H1 H2 H3 H4] Hok Hopen Es Er Hd Hz. split.
  - split; simpl; rewrite ?Es, ?Er; try done.
    + intros k' r' H. destruct (decide (k = k')) as [<-|Hne]; [rewrite lookup_insert_eq in H; by simplify_eq|].
      rewrite lookup_insert_ne in H by done. auto.
    + intros k'. unfold stopsInFlight in *. rewrite total_app, H3, Hd, <- Es. destruct (decide (k' = k)) as [->|Hne]; [lia|].
      unfold queued. rewrite Es, lookup_insert_ne by done. lia.
    + intros k'. unfold recoveriesInFlight in *. rewrite total_app, H4, Hz. lia.
  - split; rewrite ?Es, ?Er.
    + intros k' r' H. destruct (decide (k = k')) as [<-|Hne]; [|rewrite lookup_insert_ne by done; by exists r'].
      exists r. rewrite lookup_insert_eq. split; [done|]. intros Hf. by destruct (Hopen r' H).
    + intros k' r' H. by exists r'.
Qed.
Lemma put_recovery (w : agWorld) k r (a' : nodeAgent) l :
  agInv w → recoveryReceiptOk k r → (∀ r0, recoveryReceipts (agent w) !! k = Some r0 → ¬ recoveryFinal r0) →
  recoveryReceipts a' = <[k := r]> (recoveryReceipts (agent w)) → stopReceipts a' = stopReceipts (agent w) →
  (∀ k', total (recoveryDelta k') l = if decide (k' = k) then creating (recoveryReceipts a') k - creating (recoveryReceipts (agent w)) k else 0) →
  (∀ k', total (stopDelta k') l = 0) →
  agInv (mkAgWorld a' (trace w ++ l)) ∧ agLater (agent w) a'.
Proof.
  intros [H1 H2 H3 H4] Hok Hopen Er Es Hd Hz. split.
  - split; simpl; rewrite ?Es, ?Er; try done.
    + intros k' r' H. destruct (decide (k = k')) as [<-|Hne]; [rewrite lookup_insert_eq in H; by simplify_eq|].
      rewrite lookup_insert_ne in H by done. auto.
    + intros k'. unfold stopsInFlight in *. rewrite total_app, H3, Hz. lia.
    + intros k'. unfold recoveriesInFlight in *. rewrite total_app, H4, Hd, <- Er. destruct (decide (k' = k)) as [->|Hne]; [lia|].
      unfold creating. rewrite Er, lookup_insert_ne by done. lia.
  - split; rewrite ?Es, ?Er.
    + intros k' r' H. by exists r'.
    + intros k' r' H. destruct (decide (k = k')) as [<-|Hne]; [|rewrite lookup_insert_ne by done; by exists r'].
      exists r. rewrite lookup_insert_eq. split; [done|]. intros Hf. by destruct (Hopen r' H).
Qed.
(** Events that are no orders, and no change of receipts. *)
Lemma put_nothing (w : agWorld) (a' : nodeAgent) l :
  agInv w → stopReceipts a' = stopReceipts (agent w) → recoveryReceipts a' = recoveryReceipts (agent w) →
  (∀ k, total (stopDelta k) l = 0) → (∀ k, total (recoveryDelta k) l = 0) →
  agInv (mkAgWorld a' (trace w ++ l)) ∧ agLater (agent w) a'.
Proof.
  intros [H1 H2 H3 H4] Es Er Hs Hr. split; split; simpl; rewrite ?Es, ?Er; try done.
  - intros k. unfold stopsInFlight in *. rewrite total_app, H3, Hs. lia.
  - intros k. unfold recoveriesInFlight in *. rewrite total_app, H4, Hr. lia.
  - intros k r H. by exists r.
  - intros k r H. by exists r.
Qed.

(** What the caller of a command checks of a successful answer. *)
Definition agReplyOk {Report} (c : agCommand) (x : agHandled Report) : Prop :=
  match c, x with
  | BeginNodeStop (Some t), AgReplied (nodeStopReceiptResponse r responseOK) =>
      validNodeStopReceipt r = true ∧ srRequestID r = ntRequestID t ∧ srTarget r = ntTarget t
  | GetNodeStopReceipt (Some (id, target)), AgReplied (nodeStopReceiptResponse r responseOK) =>
      validNodeStopReceipt r = true ∧ srRequestID r = id ∧ srTarget r = target
  | BeginRecoveryCreate (Some t), AgReplied (recoveryReceiptResponse r responseOK) =>
      validRecoveryReceipt r = true ∧ rvRequestID r = rcRequestID t ∧ rvRemoved r = rcRemoved t ∧ rvBlueprint r = rcBlueprint t
  | GetRecoveryReceipt (Some (id, removed)), AgReplied (recoveryReceiptResponse r responseOK) =>
      validRecoveryReceipt r = true ∧ rvRequestID r = id ∧ rvRemoved r = removed
  | _, _ => True
  end.

Section AgentFacts.
Context {Report : Type} {EN : AgentEnv} (Capture : Report) (clock_ok : ∀ l, 0 < agNow l).
#[local] Notation handled := (agHandled Report).

Definition keeps (c : agCommand) (w : agWorld) (m : Ag handled) : Prop :=
  agInv (m w).1 ∧ agLater (agent w) (agent (m w).1) ∧ agReplyOk c (m w).2.

Lemma keeps_ret c w x : agInv w → agReplyOk c x → keeps c w (mret x).
Proof. intros Hw Hx. by split_and!. Qed.

Lemma and_pair (A B C : Prop) : A ∧ B → C → A ∧ B ∧ C.
Proof. tauto. Qed.
Lemma stop_receipt_fields t st f now : validNodeStopTask t = true → 0 < now →
  match st with
  | StopTargetQueued => f = StopFailureNone
  | StopTargetPending => f = StopFailureQueueFull
  | StopTargetFailed => f = StopFailureRunnerClosed
  | _ => False
  end → validNodeStopReceipt (mkStopReceipt (ntRequestID t) (ntTarget t) st f now) = true.
Proof.
  unfold validNodeStopTask, validNodeStopReceipt. cbn [srRequestID srTarget srState srFailure srUpdatedAt]. intros Hv Hn Hst.
  do 5 apply andb_true_iff in Hv as [Hv _]. apply andb_true_iff in Hv as [Hv ->]. apply andb_true_iff in Hv as [_ ->].
  rewrite (proj2 (Z.eqb_neq now 0)) by lia. destruct st; try done; by subst f.
Qed.

(** The receipt that the executor's answer leads to. *)
Definition stopOutcome (e : error controlError) : option (StopTargetState * StopFailure) :=
  match e with
  | None => Some (StopTargetQueued, StopFailureNone)
  | Some ErrNodeStopQueueFull => Some (StopTargetPending, StopFailureQueueFull)
  | Some ErrNodeStopRunnerClosed => Some (StopTargetFailed, StopFailureRunnerClosed)
  | Some _ => None
  end.
Definition recoveryOutcome (e : error controlError) : option (RecoveryTargetState * RecoveryFailure) :=
  match e with
  | None => Some (RecoveryTargetCreating, RecoveryFailureNone)
  | Some ErrRecoveryQueueFull => Some (RecoveryTargetFailed, RecoveryFailureQueueFull)
  | Some ErrRecoveryRunnerClosed => Some (RecoveryTargetFailed, RecoveryFailureRunnerClosed)
  | Some _ => None
  end.

Lemma submit_stop_shape k t w :
  ∃ now e, 0 < now ∧
  let l := trace w ++ [Looked now; SubmittedStop t e] in
  let receipt st f := mkStopReceipt (ntRequestID t) (ntTarget t) st f now in
  match stopOutcome e with
  | Some (st, f) =>
      ∃ a', submitNodeStop (Report := Report) k t w = (mkAgWorld a' l, replyNodeStopReceipt (receipt st f) None)
        ∧ stopReceipts a' = <[k := mkNodeStopRecord t (receipt st f)]> (stopReceipts (agent w))
        ∧ recoveryReceipts a' = recoveryReceipts (agent w)
  | None => submitNodeStop (Report := Report) k t w = (mkAgWorld (agent w) l, replyNodeStopReceipt zeroStopReceipt (Some ErrInvalidResponse))
  end.
Proof.
  exists (agNow (trace w)), (agSubmitStop (trace w ++ [Looked (agNow (trace w))]) t). split; [apply clock_ok|]. cbv zeta.
  unfold submitNodeStop, anow, mbind, ag_bind, note. cbn [agent trace].
  rewrite <- app_assoc. simpl. destruct (agSubmitStop _ t) as [x|]; [destruct x|]; try done; by eexists.
Qed.
Lemma submit_recovery_shape k t w :
  ∃ now e, 0 < now ∧
  let l := trace w ++ [Looked now; SubmittedRecovery t e] in
  let receipt st f := mkRecoveryReceipt (rcRequestID t) (rcRemoved t) (rcBlueprint t) zeroRef st f now in
  match recoveryOutcome e with
  | Some (st, f) =>
      ∃ a', submitRecovery (Report := Report) k t w = (mkAgWorld a' l, replyRecoveryReceipt (receipt st f) None)
        ∧ recoveryReceipts a' = <[k := mkNodeRecoveryRecord t (receipt st f)]> (recoveryReceipts (agent w))
        ∧ stopReceipts a' = stopReceipts (agent w)
  | None => submitRecovery (Report := Report) k t w = (mkAgWorld (agent w) l, replyRecoveryReceipt zeroRecoveryReceipt (Some ErrInvalidResponse))
  end.
Proof.
  exists (agNow (trace w)), (agSubmitRecovery (trace w ++ [Looked (agNow (trace w))]) t). split; [apply clock_ok|]. cbv zeta.
  unfold submitRecovery, anow, mbind, ag_bind, note. cbn [agent trace].
  rewrite <- app_assoc. simpl. destruct (agSubmitRecovery _ t) as [x|]; [destruct x|]; try done; by eexists.
Qed.

Lemma stop_receipt_valid t e st f now : validNodeStopTask t = true → 0 < now → stopOutcome e = Some (st, f) →
  validNodeStopReceipt (mkStopReceipt (ntRequestID t) (ntTarget t) st f now) = true.
Proof. intros Hv Hn He. apply stop_receipt_fields; [done..|]. clear Hv. destruct e as [[]|]; simpl in He; try discriminate He; by injection He as <- <-. Qed.
Lemma recovery_receipt_valid t e st f now : validRecoveryCreateTask t = true → 0 < now → recoveryOutcome e = Some (st, f) →
  validRecoveryReceipt (mkRecoveryReceipt (rcRequestID t) (rcRemoved t) (rcBlueprint t) zeroRef st f now) = true.
Proof.
  unfold validRecoveryCreateTask. intros Hv Hn He. apply andb_true_iff in Hv as [Hv Hb]. do 2 apply andb_true_iff in Hv as [Hv _].
  apply andb_true_iff in Hv as [Hv Hr]. apply andb_true_iff in Hv as [_ Hi].
  unfold validRecoveryReceipt, validRecoveryCreateResult. cbn [rvRequestID rvRemoved rvBlueprint rvCreated rvState rvFailure rvUpdatedAt
    rsRequestID rsRemoved rsBlueprint rsCreated rsState rsFailure].
  rewrite Hi, Hr, Hb, (proj2 (Z.eqb_neq now 0)) by lia. clear Hi Hr Hb.
  destruct e as [[]|]; simpl in He; try discriminate He; injection He as <- <-; reflexivity.
Qed.

Lemma submit_stop w t : agInv w → validNodeStopTask t = true →
  (∀ r, stopReceipts (agent w) !! (ntRequestID t, ntTarget t) = Some r → srState (nrReceipt r) = StopTargetPending) →
  keeps (BeginNodeStop (Some t)) w (submitNodeStop (Report := Report) (ntRequestID t, ntTarget t) t).
Proof.
  intros Hinv Hv Hp. set (k := (ntRequestID t, ntTarget t)) in *. unfold keeps.
  destruct (submit_stop_shape k t w) as (now & e & Hn & Hs). cbv zeta in Hs.
  destruct (stopOutcome e) as [[st f]|] eqn:He.
  - destruct Hs as (a' & -> & Es & Er). simpl. pose proof (stop_receipt_valid t e st f now Hv Hn He) as Hval.
    apply and_pair; [|by split_and!].
    eapply put_stop; [done| | |exact Es|exact Er|..]; [by split_and!| | |done].
    + intros r0 Hr0 [Hf _]. by rewrite (Hp r0 Hr0) in Hf.
    + intros k'. assert (queued (stopReceipts (agent w)) k = 0) as ->.
      { unfold queued. destruct (stopReceipts (agent w) !! k) as [r|] eqn:E; [|done]. by rewrite (Hp r eq_refl). }
      rewrite Es. unfold queued. rewrite lookup_insert_eq. simpl. fold k.
      destruct e as [[]|]; simplify_eq/=; destruct (decide (k' = k)); lia.
  - rewrite Hs. simpl. apply and_pair; [|done]. apply put_nothing; try done. intros k'. by destruct e.
Qed.

Lemma submit_recovery w t : agInv w → validRecoveryCreateTask t = true →
  (∀ r, recoveryReceipts (agent w) !! (rcRequestID t, rcRemoved t) = Some r →
        rvState (vrReceipt r) = RecoveryTargetFailed ∧ rvFailure (vrReceipt r) = RecoveryFailureQueueFull) →
  keeps (BeginRecoveryCreate (Some t)) w (submitRecovery (Report := Report) (rcRequestID t, rcRemoved t) t).
Proof.
  intros Hinv Hv Hp. set (k := (rcRequestID t, rcRemoved t)) in *. unfold keeps.
  destruct (submit_recovery_shape k t w) as (now & e & Hn & Hs). cbv zeta in Hs.
  destruct (recoveryOutcome e) as [[st f]|] eqn:He.
  - destruct Hs as (a' & -> & Es & Er). simpl. pose proof (recovery_receipt_valid t e st f now Hv Hn He) as Hval.
    apply and_pair; [|by split_and!].
    eapply put_recovery; [done| | |exact Es|exact Er|..]; [by split_and!| | |done].
    + intros r0 Hr0 [_ Hf]. by destruct (Hf (Hp r0 Hr0)).
    + intros k'. assert (creating (recoveryReceipts (agent w)) k = 0) as ->.
      { unfold creating. destruct (recoveryReceipts (agent w) !! k) as [r|] eqn:E; [|done]. by rewrite (proj1 (Hp r eq_refl)). }
      rewrite Es. unfold creating. rewrite lookup_insert_eq. simpl. fold k.
      destruct e as [[]|]; simplify_eq/=; destruct (decide (k' = k)); lia.
  - rewrite Hs. simpl. apply and_pair; [|done]. apply put_nothing; try done. intros k'. by destruct e.
Qed.

Lemma keeps_get {X} c w (f : nodeAgent → X) (k : X → Ag handled) : keeps c w (k (f (agent w))) → keeps c w (aget f ≫= k).
Proof. done. Qed.

Lemma begin_stop_keeps w source payload : agInv w → keeps (BeginNodeStop payload) w (handleBeginNodeStop source payload).
Proof.
  intros Hinv. do 2 apply keeps_get.
  assert (∀ r e, agReplyOk (BeginNodeStop payload) (replyNodeStopReceipt (Report := Report) r (Some e))) as Hno.
  { intros r e. destruct payload; [|done]. simpl. by destruct e. }
  destruct (stopEnabled (agent w)); simpl negb; cbv iota; [|by apply keeps_ret].
  case_bool_decide; [by apply keeps_ret|]. apply keeps_get. destruct payload as [t|]; [|by apply keeps_ret].
  destruct (agentStopTask t (agent w)) eqn:Ht; [|by apply keeps_ret]. apply andb_true_iff in Ht as [Hv _].
  cbv zeta. apply keeps_get. destruct (stopReceipts (agent w) !! (ntRequestID t, ntTarget t)) as [r|] eqn:Hr; [|apply submit_stop; [done|done|by rewrite Hr]].
  destruct (sameNodeStopTask (nrTask r) t); simpl negb; cbv iota; [|by apply keeps_ret]. case_bool_decide as Hst.
  - apply keeps_ret; [done|]. destruct (ai_stops _ Hinv _ _ Hr) as (Hval & Hk & _). simpl. injection Hk as -> ->. done.
  - apply submit_stop; [done|done|]. rewrite Hr. intros r' [= <-]. by destruct (decide (srState (nrReceipt r) = StopTargetPending)).
Qed.

Lemma begin_recovery_keeps w source payload :
  agInv w → keeps (BeginRecoveryCreate payload) w (handleBeginRecoveryCreate source payload).
Proof.
  intros Hinv. do 2 apply keeps_get.
  assert (∀ r e, agReplyOk (BeginRecoveryCreate payload) (replyRecoveryReceipt (Report := Report) r (Some e))) as Hno.
  { intros r e. destruct payload; [|done]. simpl. by destruct e. }
  destruct (recoveryEnabled (agent w)); simpl negb; cbv iota; [|by apply keeps_ret].
  case_bool_decide; [by apply keeps_ret|]. apply keeps_get. destruct payload as [t|]; [|by apply keeps_ret].
  destruct (agentRecoveryTask t (agent w)) eqn:Ht; [|by apply keeps_ret]. apply andb_true_iff in Ht as [Hv _].
  cbv zeta. apply keeps_get. destruct (recoveryReceipts (agent w) !! (rcRequestID t, rcRemoved t)) as [r|] eqn:Hr; [|apply submit_recovery; [done|done|by rewrite Hr]].
  destruct (sameRecoveryCreateTask (vrTask r) t) eqn:Hsame; simpl negb; cbv iota; [|by apply keeps_ret].
  destruct (_ || _) eqn:Hst.
  - apply keeps_ret; [done|]. destruct (ai_recoveries _ Hinv _ _ Hr) as (Hval & Hk & _ & Hb). apply bool_decide_eq_true in Hsame.
    simpl. injection Hk as -> ->. by rewrite Hb, Hsame.
  - apply orb_false_iff in Hst as [H1 H2]. apply bool_decide_eq_false in H1, H2. apply submit_recovery; [done|done|]. rewrite Hr.
    intros r' [= <-]. split; [by destruct (decide (rvState (vrReceipt r) = RecoveryTargetFailed))
      |by destruct (decide (rvFailure (vrReceipt r) = RecoveryFailureQueueFull))].
Qed.

(** What a recorded result leaves. *)
Lemma stop_result_keeps w source payload : agInv w → keeps (RecordNodeStopResult payload) w (handleNodeStopResult source payload).
Proof.
  intros Hinv. apply keeps_get. destruct (_ && _); simpl negb; cbv iota zeta; [|by apply keeps_ret]. destruct payload as [x|]; [|by apply keeps_ret].
  destruct (validNodeStopResult x) eqn:Hv; simpl negb; cbv iota; [|by apply keeps_ret].
  set (k := (nsRequestID x, nsTarget x)). apply keeps_get. destruct (stopReceipts (agent w) !! k) as [r|] eqn:Hr; [|by apply keeps_ret].
  case_bool_decide as Hq; [by apply keeps_ret|].
  assert (srState (nrReceipt r) = StopTargetQueued) as Hq' by (by destruct (decide (srState (nrReceipt r) = StopTargetQueued))).
  unfold keeps, mbind, ag_bind, anow, amodify, anote, note. cbn [fst snd agent trace]. set (now := agNow (trace w)).
  set (r' := mkNodeStopRecord (nrTask r) (mkStopReceipt (srRequestID (nrReceipt r)) (srTarget (nrReceipt r)) (nsState x) (nsFailure x) now)).
  destruct (ai_stops _ Hinv _ _ Hr) as (Hval & Hk & Hk').
  assert (stopReceiptOk k r' ∧ nsState x ≠ StopTargetQueued) as [Hok Hne].
  { unfold validNodeStopResult in Hv. apply andb_true_iff in Hv as [Hv Hst]. apply andb_true_iff in Hv as [Hi Ht].
    split; [|by intros E; rewrite E in Hst]. split_and!; [|done|done].
    unfold validNodeStopReceipt. subst r'. cbn [nrReceipt srRequestID srTarget srState srFailure srUpdatedAt]. injection Hk as <- <-.
    rewrite Hi, Ht, (proj2 (Z.eqb_neq now 0)) by (pose proof (clock_ok (trace w)); lia). destruct (nsState x); try done; by rewrite Hst, ?orb_true_r. }
  assert (∀ a', stopReceipts a' = <[k := r']> (stopReceipts (agent w)) → recoveryReceipts a' = recoveryReceipts (agent w) →
    agInv (mkAgWorld a' ((trace w ++ [Looked now]) ++ [RecordedStop k])) ∧ agLater (agent w) a') as Hput.
  { intros a' Es Er. rewrite <- app_assoc. eapply put_stop; [done|exact Hok| |exact Es|exact Er| |done].
    - intros r0 Hr0 [_ Hf]. by simplify_eq.
    - intros k'. rewrite Es. unfold queued. rewrite lookup_insert_eq, Hr, Hq'. simpl. rewrite (decide_False (P := nsState x = _)) by done.
      destruct (decide (k' = k)); lia. }
  destruct (nsState x); apply and_pair; try done; by apply Hput.
Qed.

Lemma recovery_result_keeps w source payload :
  agInv w → keeps (RecordRecoveryCreate payload) w (handleRecoveryCreateResult source payload).
Proof.
  intros Hinv. do 2 apply keeps_get. destruct (recoveryEnabled _ && _); simpl negb; cbv iota zeta; [|by apply keeps_ret]. destruct payload as [x|]; [|by apply keeps_ret].
  destruct (validRecoveryCreateResult x) eqn:Hv; simpl negb; rewrite ?orb_false_l, ?orb_true_l; cbv iota; [|by apply keeps_ret]. destruct (_ || _); [by apply keeps_ret|].
  set (k := (rsRequestID x, rsRemoved x)). apply keeps_get. destruct (recoveryReceipts (agent w) !! k) as [r|] eqn:Hr; [|by apply keeps_ret].
  destruct (_ || _) eqn:Hq; [by apply keeps_ret|]. apply orb_false_iff in Hq as [Hq Hbp]. apply bool_decide_eq_false in Hq, Hbp.
  assert (rvState (vrReceipt r) = RecoveryTargetCreating) as Hq' by (by destruct (decide (rvState (vrReceipt r) = RecoveryTargetCreating))).
  assert (rcBlueprint (vrTask r) = rsBlueprint x) as Hbp' by (by destruct (decide (rcBlueprint (vrTask r) = rsBlueprint x))).
  unfold keeps, mbind, ag_bind, anow, amodify, anote, note. cbn [fst snd agent trace]. set (now := agNow (trace w)).
  set (r' := mkNodeRecoveryRecord (vrTask r) (mkRecoveryReceipt (rvRequestID (vrReceipt r)) (rvRemoved (vrReceipt r)) (rvBlueprint (vrReceipt r))
                (rsCreated x) (rsState x) (rsFailure x) now)).
  destruct (ai_recoveries _ Hinv _ _ Hr) as (Hval & Hk & Hk' & Hb).
  assert (recoveryReceiptOk k r' ∧ rsState x ≠ RecoveryTargetCreating) as [Hok Hne].
  { split; [|intros E; unfold validRecoveryCreateResult in Hv; rewrite E, andb_false_r in Hv; done]. split_and!; [|done|done|done].
    unfold validRecoveryReceipt. subst r'. cbn [vrReceipt rvRequestID rvRemoved rvBlueprint rvCreated rvState rvFailure rvUpdatedAt].
    rewrite (proj2 (Z.eqb_neq now 0)) by (pose proof (clock_ok (trace w)); lia). injection Hk as <- <-. rewrite Hb, Hbp'.
    destruct x as [i rm bp cr st f]. cbn [rsRequestID rsRemoved rsBlueprint rsCreated rsState rsFailure] in *.
    pose proof Hv as Hv'. unfold validRecoveryCreateResult in Hv'. cbn [rsRequestID rsRemoved rsBlueprint rsCreated rsState rsFailure] in Hv'.
    apply andb_true_iff in Hv' as [Hv' Hst]. do 2 apply andb_true_iff in Hv' as [Hv' _].
    apply andb_true_iff in Hv' as [Hv' ->]. apply andb_true_iff in Hv' as [-> ->]. destruct st; done. }
  assert (∀ a', recoveryReceipts a' = <[k := r']> (recoveryReceipts (agent w)) → stopReceipts a' = stopReceipts (agent w) →
    agInv (mkAgWorld a' ((trace w ++ [Looked now]) ++ [RecordedRecovery k])) ∧ agLater (agent w) a') as Hput.
  { intros a' Es Er. rewrite <- app_assoc. eapply put_recovery; [done|exact Hok| |exact Es|exact Er| |done].
    - intros r0 Hr0 [Hf _]. by simplify_eq.
    - intros k'. rewrite Es. unfold creating. rewrite lookup_insert_eq, Hr, Hq'. simpl. rewrite (decide_False (P := rsState x = _)) by done.
      destruct (decide (k' = k)); lia. }
  destruct (rsState x); apply and_pair; try done; by apply Hput.
Qed.

Lemma get_stop_ok w source payload : agInv w → agReplyOk (GetNodeStopReceipt payload) (handleGetNodeStopReceipt (Report := Report) source payload (agent w)).
Proof.
  intros Hinv. unfold handleGetNodeStopReceipt. destruct payload as [[id target]|]; [|done].
  destruct (stopEnabled (agent w)); [|done]. case_bool_decide; [done|]. destruct (_ || _); [done|].
  destruct (stopReceipts (agent w) !! (id, target)) as [r|] eqn:Hr; [|done].
  destruct (ai_stops _ Hinv _ _ Hr) as (Hval & [= -> ->] & _). done.
Qed.
Lemma get_recovery_ok w source payload :
  agInv w → agReplyOk (GetRecoveryReceipt payload) (handleGetRecoveryReceipt (Report := Report) source payload (agent w)).
Proof.
  intros Hinv. unfold handleGetRecoveryReceipt. destruct payload as [[id removed]|]; [|done].
  destruct (recoveryEnabled (agent w)); [|done]. case_bool_decide; [done|]. destruct (_ || _); [done|].
  destruct (recoveryReceipts (agent w) !! (id, removed)) as [r|] eqn:Hr; [|done].
  destruct (ai_recoveries _ Hinv _ _ Hr) as (Hval & [= -> ->] & _). done.
Qed.

(** ** The lease *)

(** The events of a lease command end with the one timer it sets; a heartbeat is
    scheduled only with the lease that was answered last. *)
Definition leaseRound (w w' : agWorld) : Prop :=
  ∃ l c e, trace w' = trace w ++ l ++ [TimerSet c e] ∧ Forall (λ x, match x with TimerSet _ _ => False | _ => True end) l
    ∧ (c = HeartbeatLease → hasLease (agent w') = true
       ∧ (Registered (Ok (lease (agent w'))) ∈ l ∨ (∃ l0, Heartbeaten l0 (Ok (lease (agent w'))) ∈ l)
          ∨ hasLease (agent w) = true ∧ lease (agent w') = lease (agent w))).

Definition sameReceipts (w w' : agWorld) : Prop :=
  stopReceipts (agent w') = stopReceipts (agent w) ∧ recoveryReceipts (agent w') = recoveryReceipts (agent w)
  ∧ ∃ l, trace w' = trace w ++ l ∧ (∀ k, total (stopDelta k) l = 0) ∧ ∀ k, total (recoveryDelta k) l = 0.

Lemma same_keeps w w' : agInv w → sameReceipts w w' → agInv w' ∧ agLater (agent w) (agent w').
Proof. intros Hinv (Es & Er & l & El & Hs & Hr). destruct w' as [a' l']. simpl in *. subst l'. by apply put_nothing. Qed.

Lemma register_round w : leaseRound w (registerLease (Report := Report) w).1 ∧ sameReceipts w (registerLease (Report := Report) w).1.
Proof using Type.
  clear clock_ok.
  unfold registerLease, aget, amodify, schedule, note, mbind, ag_bind. cbn [fst snd agent trace].
  set (r := agRegister (trace w) _ _). destruct r as [l|e] eqn:E; cbn [fst snd agent trace]; rewrite <- app_assoc; (split; [|split_and!; [done|done|by eexists]]).
  - eexists [_], HeartbeatLease, _. split_and!; [done|by repeat constructor|]. intros _. split; [done|]. left. set_solver.
  - eexists [_], RegisterLease, _. split_and!; [done|by repeat constructor|done].
Qed.

Lemma heartbeat_round w : leaseRound w (heartbeatLease (Report := Report) w).1 ∧ sameReceipts w (heartbeatLease (Report := Report) w).1.
Proof using Type.
  clear clock_ok.
  destruct (hasLease (agent w)) eqn:Hh.
  2: { assert (heartbeatLease (Report := Report) w = registerLease w) as -> by (unfold heartbeatLease, aget, mbind, ag_bind; by rewrite Hh).
       apply register_round. }
  unfold heartbeatLease, aget, mbind, ag_bind, amodify, schedule, note. rewrite Hh. cbn [negb fst snd agent trace].
  set (r := agHeartbeat (trace w) (lease (agent w))). destruct r as [l|e] eqn:E.
  - cbn [fst snd agent trace]. rewrite <- app_assoc. split; [|split_and!; [done|done|by eexists]].
    eexists [_], HeartbeatLease, _. split_and!; [done|by repeat constructor|]. intros _. split; [done|]. right; left.
    exists (lease (agent w)). set_solver.
  - destruct (register_round (mkAgWorld (agent w) (trace w ++ [Heartbeaten (lease (agent w)) (Err e)]))) as [(l & c & x & El & Hl & Hc) (Es & Er & l' & El' & Hs & Hr)].
    destruct e; cbn [fst snd agent trace]; try (rewrite <- app_assoc; split; [|split_and!; [done|done|by eexists]];
      eexists [_], HeartbeatLease, _; split_and!; [done|by repeat constructor|]; intros _; split; [done|by right; right]).
    simpl in El, El'. split.
    + exists (Heartbeaten (lease (agent w)) (Err Discovery.ErrLeaseExpired) :: l), c, x. rewrite El, <- app_assoc. split_and!; [done|by constructor|].
      intros Hh'. destruct (Hc Hh') as [H1 [H2|[(l0 & H2)|H2]]]; (split; [done|]); [left; set_solver|right; left; exists l0; set_solver|by right; right].
    + split_and!; [done|done|]. exists (Heartbeaten (lease (agent w)) (Err Discovery.ErrLeaseExpired) :: l'). rewrite El', <- app_assoc. by split_and!.
Qed.

Lemma lease_keeps w source c b : agInv w → keeps (LeaseCommand c b) w (HandleAgent Capture source (LeaseCommand c b)).
Proof.
  intros Hinv. destruct c; simpl; apply keeps_get; (destruct (_ || _); [by apply keeps_ret|]); apply and_pair; try done; apply same_keeps; try done.
  - apply register_round.
  - apply heartbeat_round.
Qed.

Lemma Handle_keeps w source c : agInv w → keeps c w (HandleAgent Capture source c).
Proof.
  intros Hinv. destruct c as [payload|payload|payload|payload|payload|payload|payload|c b|];
    [|by apply begin_stop_keeps| |by apply stop_result_keeps|by apply begin_recovery_keeps| |by apply recovery_result_keeps|by apply lease_keeps|by apply keeps_ret];
    simpl; apply keeps_get, keeps_ret; try done; [by apply get_stop_ok|by apply get_recovery_ok].
Qed.

Lemma runAgent_keeps cs w : agInv w →
  agInv (runAgent Capture cs w).1 ∧ agLater (agent w) (agent (runAgent Capture cs w).1).
Proof.
  revert w. induction cs as [|[source c] cs IH]; intros w Hinv; simpl; [done|]. unfold mbind, ag_bind.
  destruct (Handle_keeps w source c Hinv) as (H1 & H2 & _). destruct (HandleAgent Capture source c w) as [w1 x]. simpl in *.
  destruct (IH w1 H1) as [H3 H4]. destruct (runAgent Capture cs w1) as [w2 xs]. simpl in *. split; [done|by etrans].
Qed.

Lemma agInv_init c self mc a : NewNodeAgentService c self mc = Ok a → agInv (mkAgWorld a []).
Proof. unfold NewNodeAgentService. destruct (validNodeAgentConfig c); simpl; [|done]. intros [= <-]. by split. Qed.

(** ** Properties *)

(** C17. For every request and target at most one order is in flight: the orders the
    executor accepted and whose result the agent has not recorded are one exactly
    while the receipt says queued (or creating), and none otherwise, whatever commands
    come in whatever order. *)
Theorem agent_single_flight c self mc a cs k :
  NewNodeAgentService c self mc = Ok a →
  let w := (runAgent Capture cs (mkAgWorld a [])).1 in
  stopsInFlight k (trace w) = queued (stopReceipts (agent w)) k
  ∧ recoveriesInFlight k (trace w) = creating (recoveryReceipts (agent w)) k.
Proof. intros Ha. destruct (runAgent_keeps cs _ (agInv_init _ _ _ _ Ha)) as [[_ _ H1 H2] _]. by split. Qed.

(** What the agent answers to the coordinator passes the coordinator's checks: a
    successful receipt for an order or a question is valid and is about the request
    and the service that were asked about, so the coordinator uses it. *)
Theorem agent_receipts_accepted c self mc a cs source t tr id target :
  NewNodeAgentService c self mc = Ok a →
  let w := (runAgent Capture cs (mkAgWorld a [])).1 in
  (∀ r, (HandleAgent Capture source (BeginNodeStop (Some t)) w).2 = AgReplied (nodeStopReceiptResponse r responseOK) →
     nodeStopReceiptFromResponse (Ok (Some (r, responseOK))) (ntRequestID t) (ntTarget t) = Ok r)
  ∧ (∀ r, (HandleAgent Capture source (GetNodeStopReceipt (Some (id, target))) w).2 = AgReplied (nodeStopReceiptResponse r responseOK) →
     nodeStopReceiptFromResponse (Ok (Some (r, responseOK))) id target = Ok r)
  ∧ (∀ r, (HandleAgent Capture source (BeginRecoveryCreate (Some tr)) w).2 = AgReplied (recoveryReceiptResponse r responseOK) →
     recoveryReceiptFromResponse (Ok (Some (r, responseOK))) (rcRequestID tr)
       (mkRecoveryTarget (rcRemoved tr) (rcAgent tr) (rcBlueprint tr) zeroRef RecoveryTargetPending RecoveryFailureNone) = Ok r).
Proof.
  intros Ha. destruct (runAgent_keeps cs _ (agInv_init _ _ _ _ Ha)) as [Hinv _]. cbv zeta. split_and!; intros r Hr.
  - destruct (Handle_keeps _ source (BeginNodeStop (Some t)) Hinv) as (_ & _ & H). rewrite Hr in H. destruct H as (H1 & H2 & H3).
    unfold nodeStopReceiptFromResponse. simpl. rewrite H1, H2, H3. by repeat case_bool_decide.
  - destruct (Handle_keeps _ source (GetNodeStopReceipt (Some (id, target))) Hinv) as (_ & _ & H). rewrite Hr in H. destruct H as (H1 & H2 & H3).
    unfold nodeStopReceiptFromResponse. simpl. rewrite H1, H2, H3. by repeat case_bool_decide.
  - destruct (Handle_keeps _ source (BeginRecoveryCreate (Some tr)) Hinv) as (_ & _ & H). rewrite Hr in H. destruct H as (H1 & H2 & H3 & H4).
    unfold recoveryReceiptFromResponse. simpl. rewrite H1, H2, H3, H4. by repeat case_bool_decide.
Qed.

(** A receipt that says how an order ended is never changed. *)
Theorem agent_receipts_final c self mc a cs cs' :
  NewNodeAgentService c self mc = Ok a →
  let w := (runAgent Capture cs (mkAgWorld a [])).1 in agLater (agent w) (agent (runAgent Capture cs' w).1).
Proof. intros Ha. destruct (runAgent_keeps cs _ (agInv_init _ _ _ _ Ha)) as [Hinv _]. by apply runAgent_keeps. Qed.

(** The agent never stops renewing its lease: every lease command of an authorised
    source sets exactly one timer, as its last event, and when that timer is a
    heartbeat the agent holds the lease that discovery answered last, or the one it
    held before. *)
Theorem agent_keeps_renewing source c w :
  (match c with RegisterLease => allowedLeaseCommandSource source (agent w) | HeartbeatLease => runtimeNodeSource source (agent w) end) = true →
  leaseRound w (HandleAgent Capture source (LeaseCommand c true) w).1.
Proof.
  intros Hc. destruct c; simpl; unfold mbind, ag_bind, aget; rewrite Hc; simpl; [apply register_round|apply heartbeat_round].
Qed.

(** ** Agent and runner *)

Lemma stop_result_valid t r : validNodeStopTask t = true →
  (r = dropped t ∨ ∃ st a, exec t st a = Some (inr r)) →
  validNodeStopResult r = true ∧ nsRequestID r = ntRequestID t ∧ nsTarget r = ntTarget t.
Proof.
  unfold validNodeStopTask. intros Hv Hr. do 5 apply andb_true_iff in Hv as [Hv _].
  apply andb_true_iff in Hv as [Hv Ht]. apply andb_true_iff in Hv as [_ Hi].
  assert (∃ st f, r = stopResult t st f ∧ validNodeStopResult (stopResult t st f) = true) as (st & f & -> & H); [|done].
  unfold validNodeStopResult, stopResult. cbn [nsRequestID nsTarget nsState nsFailure]. rewrite Hi, Ht.
  destruct Hr as [->|(st & a & Hx)]; [by eexists _, _|]. destruct st, a as [x|x]; simpl in Hx; try discriminate Hx.
  - destruct (DirectoryClient.Get _ _).2; [destruct (sameDrainServiceSet _ _)|]; simplify_eq/=; by eexists _, _.
  - destruct x as [x|]; [destruct (alreadyGone x)|]; simplify_eq/=; by eexists _, _.
Qed.

(** What a worker reports of an order is recorded: while the receipt of a valid
    task says queued, whatever result the stop runner sends for it, after any answers
    of the directory and of [Runtime.Stop] or because it was closed, is accepted by
    the agent, and the receipt then says what the worker reported. *)
Theorem reported_stop_recorded w t r rec :
  agentStopTask t (agent w) = true → stopEnabled (agent w) = true →
  stopReceipts (agent w) !! (ntRequestID t, ntTarget t) = Some rec → srState (nrReceipt rec) = StopTargetQueued →
  (r = dropped t ∨ ∃ st a, exec t st a = Some (inr r)) →
  let '(w', x) := HandleAgent Capture (mkRef (Node (Self (agent w))) 0) (RecordNodeStopResult (Some r)) w in
  x = AgReturned None
  ∧ ∃ rec', stopReceipts (agent w') !! (ntRequestID t, ntTarget t) = Some rec'
            ∧ srState (nrReceipt rec') = nsState r ∧ srFailure (nrReceipt rec') = nsFailure r.
Proof.
  intros [Hv _]%andb_true_iff He Hr Hq Hres. destruct (stop_result_valid t r Hv Hres) as (Hval & Hi & Ht).
  simpl. unfold handleNodeStopResult, aget, mbind, ag_bind. rewrite He. unfold runtimeNodeSource. cbn [Node ID].
  rewrite bool_decide_true by done. simpl. rewrite Hval. cbn [negb]. rewrite Hi, Ht, Hr, Hq, bool_decide_false by tauto.
  unfold anow, amodify, anote, note. cbn [fst snd agent trace].
  destruct (nsState r); cbn [fst snd agent trace]; (split; [done|]); eexists; (split; [apply lookup_insert_eq|done]).
Qed.
End AgentFacts.

(** ** A sample agent *)

Module Sample.
#[export] Instance env : AgentEnv := {|
  agSubmitStop _ _ := None; agSubmitRecovery _ _ := None;
  agRegister _ node _ := Ok (Discovery.mkLease node 1 1 50); agHeartbeat _ l := Ok l; agUnregister _ _ := None;
  agAfter _ _ := None; agNow l := 100 + Z.of_nat (length l)
|}.
Lemma sample_clock_ok l : 0 < agNow l.
Proof. simpl. lia. Qed.
Definition self := mkRef "n1" 20.
Definition coordinator := mkRef "n1" 5.
Definition runtime := mkRef "n1" 0.
Definition config := mkAgentConfig true "obs" (mkRef "n1" 3) "addr" 0 0 coordinator true coordinator true.
Definition fresh : nodeAgent := match NewNodeAgentService config self newMetricCollector with Ok a => a | Err _ => mkAgent config self (Discovery.mkLease "" 0 0 0) false ∅ ∅ newMetricCollector end.
Definition order := (coordinator, BeginNodeStop (Some sampleStopTask)).
Definition replacement := mkCreateTask self "r1" (mkRef "n1" 11) "bp".
Definition after (cs : list (ServiceRef * agCommand)) : agWorld := (runAgent tt cs (mkAgWorld fresh [])).1.

Lemma agent_single_flight_witness : stopsInFlight ("r1", mkRef "n1" 11) (trace (after [order; order])) = 1
  ∧ recoveriesInFlight ("r1", mkRef "n1" 11) (trace (after [order; order])) = creating (recoveryReceipts (agent (after [order; order]))) ("r1", mkRef "n1" 11).
Proof.
  destruct (agent_single_flight tt sample_clock_ok config self newMetricCollector fresh [order; order] ("r1", mkRef "n1" 11) eq_refl) as [H1 H2].
  split; [|exact H2]. refine (eq_trans H1 _). vm_compute. reflexivity.
Defined.

Lemma agent_receipts_accepted_witness :
  ∃ r, (HandleAgent tt coordinator (BeginNodeStop (Some sampleStopTask)) (after [order])).2 = AgReplied (nodeStopReceiptResponse r responseOK)
       ∧ nodeStopReceiptFromResponse (Ok (Some (r, responseOK))) "r1" (mkRef "n1" 11) = Ok r.
Proof.
  assert (∃ r, (HandleAgent tt coordinator (BeginNodeStop (Some sampleStopTask)) (after [order])).2 = AgReplied (nodeStopReceiptResponse r responseOK))
    as [r Hr] by (eexists; vm_compute; reflexivity).
  exists r. split; [exact Hr|].
  exact (proj1 (agent_receipts_accepted tt sample_clock_ok config self newMetricCollector fresh [order] coordinator sampleStopTask replacement "r1" self eq_refl) r Hr).
Defined.

Lemma agent_keeps_renewing_witness :
  leaseRound (after []) (HandleAgent tt runtime (LeaseCommand RegisterLease true) (after [])).1.
Proof. apply (agent_keeps_renewing tt runtime RegisterLease (after [])). reflexivity. Defined.

Lemma reported_stop_recorded_witness :
  ∃ rec', stopReceipts (agent (HandleAgent tt runtime (RecordNodeStopResult (Some (stopResult sampleStopTask StopTargetStopped StopFailureNone)))
            (after [order])).1) !! ("r1", mkRef "n1" 11) = Some rec' ∧ srState (nrReceipt rec') = StopTargetStopped.
Proof.
  assert (∃ rec, stopReceipts (agent (after [order])) !! ("r1", mkRef "n1" 11) = Some rec ∧ srState (nrReceipt rec) = StopTargetQueued)
    as (rec & Hr & Hq) by (eexists; split; [vm_compute; reflexivity|reflexivity]).
  pose proof (reported_stop_recorded tt (after [order]) sampleStopTask (stopResult sampleStopTask StopTargetStopped StopFailureNone) rec
    eq_refl eq_refl Hr Hq (or_intror (ex_intro _ StopService (ex_intro _ (StopReturned None) eq_refl)))) as H.
  change (mkRef (Node (Self (agent (after [order])))) 0) with runtime in H.
  destruct (HandleAgent tt runtime _ (after [order])) as [w' x]. destruct H as (_ & rec' & H1 & H2 & _).
  exact (ex_intro _ rec' (conj H1 H2)).
Defined.
End Sample.
