(* ===== verification/Monitor.v ===== *)
(** * Inspection and reports

    [Runtime.Inspect] and its helpers ([src/runtime/inspection.go]), the inspection
    of runners, and the report a monitor makes of it ([src/tooling/monitor]).

    [Inspect] reads each table under its own lock; on a node whose operations are
    atomic it is a function of the state, of the clock reading and of the runners.
    The iteration order of the Go maps does not matter because it sorts. *)

From stdpp Require Import prelude gmap strings list sorting.
From Stdlib Require Import ZArith Lia.
From S2P Require Import Runner Prelude Types Metrics Mailbox Registry Pending Timers Tasks ClusterWire Runtime Lifecycle RuntimeInv LifecycleInv Demo LifecycleFacts.
From S2P Require Import Directory DirectoryFacts CoordinatorRecovery.

Local Open Scope Z_scope.

(** ** What is inspected *)

Inductive RuntimeStatus := RuntimeRunning | RuntimeClosing | RuntimeClosed.
Inductive RuntimeTaskKind := RuntimeTaskInit | RuntimeTaskDispatch | RuntimeTaskStop | RuntimeTaskClose.

Record ServiceInspection := mkServiceInspection {
  siRef : ServiceRef; siName : ServiceName; siStatus : ServiceStatus; siMailboxDepth : Z
}.
Record RunnerInspection := mkRunnerInspection {
  riName : string; riStatus : Runner.RunnerStatus; riWorkers : Z; riQueueDepth : Z; riActive : Z;
  riSubmitted : Z; riCompleted : Z; riFailed : Z; riRejected : Z; riDeliveryFailed : Z
}.
Record RuntimeTaskInspection := mkTaskInspection {
  tiID : Z; tiOwner : ServiceRef; tiKind : RuntimeTaskKind; tiStartedAt : Time; tiTimedOut : bool
}.
Record RuntimeInspection := mkInspection {
  inCapturedAt : Time; inNode : NodeID; inStatus : RuntimeStatus; inServices : list ServiceInspection;
  inRunners : list RunnerInspection; inTasks : list RuntimeTaskInspection; inPendingCalls : Z; inTimers : Z;
  inMetrics : metricCollector
}.

Definition publicRuntimeStatus (s : runtimeState) : RuntimeStatus :=
  match s with runtimeRunning => RuntimeRunning | runtimeClosing => RuntimeClosing | runtimeClosed => RuntimeClosed end.
Definition publicRuntimeTaskKind (k : runtimeTaskKind) : RuntimeTaskKind :=
  match k with
  | runtimeTaskInit => RuntimeTaskInit | runtimeTaskDispatch => RuntimeTaskDispatch
  | runtimeTaskStop => RuntimeTaskStop | runtimeTaskClose => RuntimeTaskClose
  end.

(** [Runner.inspection] and [runnerRegistry.inspections]. *)
Definition runnerInspection {Req Res} (r : Runner.Runner Req Res) : RunnerInspection :=
  mkRunnerInspection (Runner.rcName (Runner.config r)) (Runner.status r) (Runner.rcWorkers (Runner.config r))
    (Z.of_nat (length (Runner.queue r))) (Runner.active r) (Runner.submitted (Runner.counts r))
    (Runner.completed (Runner.counts r)) (Runner.failed (Runner.counts r)) (Runner.rejected (Runner.counts r))
    (Runner.delivery (Runner.counts r)).
Definition inspections {R} (inspect : R → RunnerInspection) (rs : gmap string R) : list RunnerInspection :=
  inspect <$> Runner.runnerSnapshot rs.

Definition serviceBefore (a b : ServiceInspection) : Prop := refLe (siRef a) (siRef b).
#[global] Instance serviceBefore_dec : RelDecision serviceBefore.
Proof. intros a b. unfold serviceBefore. apply _. Defined.
Definition taskBefore (a b : RuntimeTaskInspection) : Prop := tiID a ≤ tiID b.
#[global] Instance taskBefore_dec : RelDecision taskBefore.
Proof. intros a b. unfold taskBefore. apply _. Defined.
#[global] Instance serviceBefore_trans : Transitive serviceBefore.
Proof. intros a b c. apply refLe_trans. Qed.
#[global] Instance serviceBefore_total : Total serviceBefore.
Proof. intros a b. apply refLe_total. Qed.
#[global] Instance taskBefore_trans : Transitive taskBefore.
Proof. intros a b c. unfold taskBefore. lia. Qed.
#[global] Instance taskBefore_total : Total taskBefore.
Proof. intros a b. unfold taskBefore. lia. Qed.

Section Inspect.
Context {A : Type} {CC : ClusterCodec A} {CT : ClusterTransport} {CL : Clock}.
Context {MP : MapPick ServiceRef Time}.
Implicit Types r : Runtime A.

Definition inspectService r (h : handle) : ServiceInspection :=
  let i := default (nullInstance (A := A)) (heap r !! href h) in
  mkServiceInspection (href h) (hname h) (status i) (depth (box i)).
Definition inspectTask (e : Z * runtimeTask) : RuntimeTaskInspection :=
  mkTaskInspection e.1 (taskOwner e.2) (publicRuntimeTaskKind (taskKind e.2)) (taskStarted e.2) (timedOut e.2).

Definition Inspect (now : Time) (runners : list RunnerInspection) r : RuntimeInspection :=
  mkInspection now (node r) (publicRuntimeStatus (state r))
    (merge_sort serviceBefore (inspectService r <$> Registry.snapshot (registry r)))
    runners
    (merge_sort taskBefore (inspectTask <$> Tasks.active (tracker r)))
    (Z.of_nat (size (calls (pending r)))) (Z.of_nat (size (Timers.timers (timers r)))) (metrics r).
End Inspect.

(** ** The report *)

Record ServiceReport := mkServiceReport { srpRef : ServiceRef; srpName : ServiceName; srpStatus : string; srpDepth : Z }.
Record RunnerReport := mkRunnerReport {
  rrpName : string; rrpStatus : string; rrpWorkers : Z; rrpQueueDepth : Z; rrpActive : Z;
  rrpSubmitted : Z; rrpCompleted : Z; rrpFailed : Z; rrpRejected : Z; rrpDeliveryFailed : Z
}.
Record TaskReport := mkTaskReport { trpID : Z; trpOwner : ServiceRef; trpKind : string; trpStartedAt : Time; trpTimedOut : bool }.
Record MetricsReport := mkMetricsReport { mrCounters : gmap string Z; mrGauges : gmap string Z; mrDurationsNanos : gmap string Z }.
Record Report := mkReport {
  rpCapturedAt : Time; rpNode : NodeID; rpStatus : string; rpServiceCount : Z; rpServices : list ServiceReport;
  rpRunnerCount : Z; rpRunners : list RunnerReport; rpTaskCount : Z; rpTasks : list TaskReport;
  rpPendingCalls : Z; rpTimers : Z; rpMetrics : MetricsReport
}.

Definition runnerStatus (s : Runner.RunnerStatus) : string :=
  match s with Runner.RunnerRunning => "running" | Runner.RunnerClosing => "closing" | Runner.RunnerClosed => "closed" end.
Definition runtimeStatus (s : RuntimeStatus) : string :=
  match s with RuntimeRunning => "running" | RuntimeClosing => "closing" | RuntimeClosed => "closed" end.
Definition serviceStatus (s : ServiceStatus) : string :=
  match s with
  | ServiceCreated => "created" | ServiceStarting => "starting" | ServiceRunning => "running" | ServiceStopping => "stopping"
  | ServiceClosed => "closed" | ServiceFailed => "failed" | ServiceRestarting => "restarting"
  end.
Definition taskKindText (k : RuntimeTaskKind) : string :=
  match k with RuntimeTaskInit => "init" | RuntimeTaskDispatch => "dispatch" | RuntimeTaskStop => "stop" | RuntimeTaskClose => "close" end.

Definition Capture (i : RuntimeInspection) : Report :=
  mkReport (inCapturedAt i) (inNode i) (runtimeStatus (inStatus i))
    (Z.of_nat (length (inServices i)))
    ((λ s, mkServiceReport (siRef s) (siName s) (serviceStatus (siStatus s)) (siMailboxDepth s)) <$> inServices i)
    (Z.of_nat (length (inRunners i))) 
    ((λ r, mkRunnerReport (riName r) (runnerStatus (riStatus r)) (riWorkers r) (riQueueDepth r) (riActive r)
             (riSubmitted r) (riCompleted r) (riFailed r) (riRejected r) (riDeliveryFailed r)) <$> inRunners i)
    (Z.of_nat (length (inTasks i)))
    ((λ t, mkTaskReport (tiID t) (tiOwner t) (taskKindText (tiKind t)) (tiStartedAt t) (tiTimedOut t)) <$> inTasks i)
    (inPendingCalls i) (inTimers i)
    (mkMetricsReport (counters (inMetrics i)) (gauges (inMetrics i)) (durations (inMetrics i))).

(** ** Properties *)

Lemma serviceStatus_inj s s' : serviceStatus s = serviceStatus s' → s = s'.
Proof. by destruct s, s'. Qed.

Lemma length_sorted {X} (R : relation X) `{!RelDecision R} (l : list X) : length (merge_sort R l) = length l.
Proof. by rewrite merge_sort_Permutation. Qed.

Section Facts.
Context {A : Type} {CC : ClusterCodec A} {CT : ClusterTransport} {CL : Clock}.
Context {MP : MapPick ServiceRef Time}.

Lemma inspected_refs (r : Runtime A) : runtime_inv r →
  siRef <$> (inspectService r <$> Registry.snapshot (registry r)) = (map_to_list (services (registry r))).*1.
Proof.
  intros Hinv. unfold Registry.snapshot. rewrite <- !list_fmap_compose. apply list_fmap_ext. intros i [ref h] Hi. simpl.
  apply list_elem_of_lookup_2, elem_of_map_to_list in Hi. by destruct (inv_registered _ _ Hinv _ _ Hi).
Qed.

(** The report of a reachable node is exact: it lists every registered service
    once, in the order of references, with its own name, status and mailbox depth,
    and nothing else; the counts are the sizes of the tables.  The order in which Go
    iterates over its maps does not show. *)
Theorem report_exact (r : Runtime A) now runners :
  node_reachable r →
  let p := Capture (Inspect now runners r) in
  StronglySorted refLt (srpRef <$> rpServices p)
  ∧ (∀ ref name st d, mkServiceReport ref name st d ∈ rpServices p ↔
       ∃ i, services (registry r) !! ref = Some (mkHandle ref name) ∧ heap r !! ref = Some i
            ∧ st = serviceStatus (status i) ∧ d = depth (box i))
  ∧ rpServiceCount p = Z.of_nat (size (services (registry r)))
  ∧ rpTaskCount p = Z.of_nat (size (tasks (tracker r)))
  ∧ rpPendingCalls p = Z.of_nat (size (calls (pending r))) ∧ rpTimers p = Z.of_nat (size (Timers.timers (timers r)))
  ∧ rpNode p = node r.
Proof.
  intros Hinv%reachable_inv. cbv zeta. simpl. rewrite !length_sorted, !length_fmap. unfold Tasks.active. rewrite length_map_to_list.
  unfold Registry.snapshot at 3. rewrite length_fmap, length_map_to_list. split_and!; try done.
  - rewrite <- list_fmap_compose. change (srpRef ∘ _) with siRef. apply le_lt_sorted.
    + rewrite merge_sort_Permutation, inspected_refs by done. apply NoDup_fst_map_to_list.
    + assert (StronglySorted serviceBefore (merge_sort serviceBefore (inspectService r <$> Registry.snapshot (registry r)))) as H
        by apply (StronglySorted_merge_sort serviceBefore).
      induction H as [|a l _ IH Ha]; csimpl; constructor; [done|by apply Forall_fmap].
  - intros ref name st d. rewrite list_elem_of_fmap. split.
    + intros (s & [= -> -> -> ->] & Hs). rewrite merge_sort_Permutation in Hs. apply list_elem_of_fmap in Hs as (h & -> & Hh).
      apply list_elem_of_fmap in Hh as ([ref h'] & -> & Hh). apply elem_of_map_to_list in Hh. simpl.
      destruct (inv_registered _ _ Hinv _ _ Hh) as (Href & _ & i & Hi & _). subst ref. exists i. rewrite Hi. split_and!; try done.
      by destruct h'.
    + intros (i & Hs & Hi & -> & ->). exists (inspectService r (mkHandle ref name)). unfold inspectService. simpl. rewrite Hi. split; [done|].
      rewrite merge_sort_Permutation. apply list_elem_of_fmap. exists (mkHandle ref name). unfold inspectService. simpl. rewrite Hi.
      split; [done|]. apply list_elem_of_fmap. exists (ref, mkHandle ref name). split; [done|]. by apply elem_of_map_to_list.
Qed.
End Facts.

Lemma report_exact_witness :
  rpServices (Capture (Inspect 5 [] demoCreated)) = [mkServiceReport demoRef "lobby" "running" 0]
  ∧ StronglySorted refLt (srpRef <$> rpServices (Capture (Inspect 5 [] demoCreated))).
Proof.
  split; [vm_compute; reflexivity|].
  exact (proj1 (report_exact (CC := demoCodec) (CT := demoTransport) (CL := demoClock) (MP := demoPick) demoCreated 5 [] demoCreated_reachable)).
Defined.
