(* ===== verification/Observer.v ===== *)
(** * The cluster observer

    [src/tooling/control/service.go], [client.go] and [copy.go]: the service that
    caches the last report of every configured node, and its client.

    A refresh calls the agent of the node; the two clock readings and what the call
    answers are arguments.  A copy of a detail is the value itself. *)

From stdpp Require Import prelude gmap strings list sorting.
From Stdlib Require Import ZArith Lia.
From S2P Require Import Monitor Prelude Types Metrics GoText Control Coordinator.

Local Open Scope Z_scope.

(** ** Data *)

Record NodeConfig := mkNodeConfig { ncID : NodeID; ncAddress : string; ncRole : string; ncEnabled : bool }.
Record NodeTarget := mkNodeTarget { tgConfig : NodeConfig; tgAgent : ServiceRef }.
Inductive NodeStatus := NodeUnknown | NodeHealthy | NodeUnavailable | NodeDisabled | NodeStatusOther (text : string).
#[global] Instance NodeStatus_eq_dec : EqDecision NodeStatus.
Proof. solve_decision. Defined.
Record NodeObservedState := mkObserved {
  obID : NodeID; obStatus : NodeStatus; obCapturedAt : Time; obLatency : Duration; obLastError : string
}.
Record NodeDetail := mkDetail { ndConfig : NodeConfig; ndObserved : NodeObservedState; ndReport : Report; ndHasReport : bool }.
Record ObserverConfig := mkObserverConfig { ocNodes : list NodeTarget; ocCallTimeout : Duration }.

Definition zeroReport : Report := mkReport 0 "" "" 0 [] 0 [] 0 [] 0 0 (mkMetricsReport ∅ ∅ ∅).

Definition validNodeConfig (c : NodeConfig) : bool := validNode (ncID c) && negb (blank (ncAddress c)).
Definition validTarget (t : NodeTarget) : bool :=
  validNodeConfig (tgConfig t) && (negb (ncEnabled (tgConfig t)) || validAgent (ncID (tgConfig t)) (tgAgent t)).

(** [validDetail] of [codec.go]. *)
Definition validDetail (d : NodeDetail) : bool :=
  validNodeConfig (ndConfig d) && bool_decide (obID (ndObserved d) = ncID (ndConfig d))
  && match obStatus (ndObserved d) with NodeStatusOther _ => false | _ => true end
  && (negb (ndHasReport d) || validNode (rpNode (ndReport d)) && bool_decide (rpNode (ndReport d) = ncID (ndConfig d))).

(** Copies of values; [cloneReport] shares the slice of runners with its argument,
    which no operation of this package writes. *)
Definition cloneReport (r : Report) : Report := r.
Definition cloneNodeDetail (d : NodeDetail) : NodeDetail :=
  mkDetail (ndConfig d) (ndObserved d) (cloneReport (ndReport d)) (ndHasReport d).

(** ** The service *)

Record controlService := mkObserver {
  csConfig : ObserverConfig; csNodes : gmap NodeID NodeDetail; csMetrics : metricCollector
}.

(** The loop over the configured nodes. *)
Fixpoint addNodes (l : list NodeTarget) (nodes : gmap NodeID NodeDetail) : option (gmap NodeID NodeDetail) :=
  match l with
  | [] => Some nodes
  | t :: l =>
      let c := tgConfig t in
      if negb (validTarget t) then None
      else match nodes !! ncID c with
           | Some _ => None
           | None => addNodes l (<[ncID c := mkDetail c (mkObserved (ncID c) (if ncEnabled c then NodeUnknown else NodeDisabled) 0 0 "")
                                               zeroReport false]> nodes)
           end
  end.

Definition NewClusterObserverService (c : ObserverConfig) (mc : metricCollector) : res controlError controlService :=
  if ocCallTimeout c <? 0 then Err ErrInvalidConfig
  else match addNodes (ocNodes c) ∅ with
       | None => Err ErrInvalidConfig
       | Some nodes =>
           Ok (mkObserver (mkObserverConfig (ocNodes c) (if ocCallTimeout c =? 0 then defaultCallTimeout else ocCallTimeout c)) nodes mc)
       end.

Definition StopObserver (s : controlService) : controlService := mkObserver (csConfig s) ∅ (csMetrics s).

Definition detailBefore (a b : NodeDetail) : Prop := String.le (ncID (ndConfig a)) (ncID (ndConfig b)).
#[global] Instance detailBefore_dec : RelDecision detailBefore.
Proof. intros a b. unfold detailBefore. apply _. Defined.
Definition listNodes (s : controlService) : list NodeDetail :=
  merge_sort detailBefore (cloneNodeDetail <$> (map_to_list (csNodes s)).*2).

Definition agentFor (node : NodeID) (s : controlService) : ServiceRef :=
  from_option tgAgent zeroRef (head (filter (λ t, ncID (tgConfig t) = node) (ocNodes (csConfig s)))).

Definition nodeStatusMetric (st : NodeStatus) : Z :=
  match st with NodeHealthy => 1 | NodeUnavailable => 2 | NodeDisabled => 3 | _ => 0 end.

(** [errors.Is(err, context.DeadlineExceeded)] *)
Fixpoint deadlineExceeded (e : rtError) : bool :=
  match e with ContextDeadlineExceeded => true | JoinError es => existsb deadlineExceeded es | _ => false end.
Definition refreshError (e : controlError) : string :=
  match e with
  | ErrCall e => if deadlineExceeded e || errors_Is e ErrTimeout then "timeout" else "remote_unavailable"
  | ErrInvalidResponse => "invalid_response"
  | _ => "remote_unavailable"
  end.

(** [value.(nodeReportResponse)]; [None] is a value of another type. *)
Definition applyReport (d : NodeDetail) (value : option (Report * errorCode)) (completed : Time) (latency : Duration)
  : res controlError NodeDetail :=
  match value with
  | None => Err ErrInvalidResponse
  | Some (r, c) =>
      match errorFromCode c with
      | Some e => Err e
      | None =>
          if negb (validNode (rpNode r)) || bool_decide (rpNode r ≠ ncID (ndConfig d)) then Err ErrInvalidResponse
          else Ok (mkDetail (ndConfig d) (mkObserved (ncID (ndConfig d)) NodeHealthy completed latency "") (cloneReport r) true)
      end
  end.

Definition recordRefresh (node : NodeID) (latency : Duration) (succeeded : bool) (st : NodeStatus) (m : metricCollector) : metricCollector :=
  let m := Inc (if succeeded then "control_refresh_succeeded_total" else "control_refresh_failed_total") m in
  Observe "control_refresh_latency" latency (SetGauge ("control_node_status." +:+ node) (nodeStatusMetric st) m).

(** The answer is asked for only when the node is known and enabled. *)
Definition refreshNode (node : NodeID) (started completed : Time) (answer : ServiceRef → res rtError (option (Report * errorCode)))
    (s : controlService) : controlService * res controlError NodeDetail :=
  match csNodes s !! node with
  | None => (s, Err ErrNodeNotFound)
  | Some d =>
      if negb (ncEnabled (ndConfig d)) then (s, Err ErrNodeDisabled)
      else
        let latency := Z.max 0 (completed - started) in
        let r := match answer (agentFor node s) with Err e => Err (ErrCall e) | Ok v => applyReport d v completed latency end in
        let '(d, ok) := match r with
                        | Ok d => (d, true)
                        | Err e => (mkDetail (ndConfig d) (mkObserved node NodeUnavailable completed latency (refreshError e)) zeroReport false, false)
                        end in
        (mkObserver (csConfig s) (<[node := d]> (csNodes s)) (recordRefresh node latency ok (obStatus (ndObserved d)) (csMetrics s)), Ok d)
  end.

Inductive obCommand :=
| ListNodes | GetNodeDetail (node : NodeID) | RefreshNode (node : NodeID)
| ListBadPayload | DetailBadPayload | OtherCommand.
Inductive obResponse :=
| nodesResponse (l : list NodeDetail) (c : errorCode)
| nodeDetailResponse (d : option NodeDetail) (c : errorCode).   (** [None]: the zero value *)

(** [None] is [ErrUnknownCommand]. *)
Definition HandleObserver (c : obCommand) (started completed : Time)
    (answer : ServiceRef → res rtError (option (Report * errorCode))) (s : controlService) : controlService * option obResponse :=
  match c with
  | ListNodes => (s, Some (nodesResponse (listNodes s) responseOK))
  | ListBadPayload => (s, Some (nodesResponse [] responseInvalidRequest))
  | GetNodeDetail node =>
      (s, Some (if negb (validNode node) then nodeDetailResponse None responseInvalidNode
                else match csNodes s !! node with
                     | None => nodeDetailResponse None responseNodeNotFound
                     | Some d => nodeDetailResponse (Some (cloneNodeDetail d)) responseOK
                     end))
  | RefreshNode node =>
      if negb (validNode node) then (s, Some (nodeDetailResponse None responseInvalidNode))
      else
        let '(s, r) := refreshNode node started completed answer s in
        (s, Some (match r with
                  | Err e => nodeDetailResponse None (codeFromError (Some e))
                  | Ok d => nodeDetailResponse (Some (cloneNodeDetail d)) responseOK
                  end))
  | DetailBadPayload => (s, Some (nodeDetailResponse None responseInvalidNode))
  | OtherCommand => (s, None)
  end.

(** ** The client *)

Definition nodeDetailFromResponse (value : option obResponse) : res controlError NodeDetail :=
  match value with
  | Some (nodeDetailResponse d c) =>
      match errorFromCode c with
      | Some e => Err e
      | None => match d with
                | Some d => if validDetail d then Ok (cloneNodeDetail d) else Err ErrInvalidResponse
                | None => Err ErrInvalidResponse
                end
      end
  | _ => Err ErrInvalidResponse
  end.

Section Client.
Context {W : Type} (call : obCommand → W → W * res rtError (option obResponse)).

Definition ClientListNodes (w : W) : W * res controlError (list NodeDetail) :=
  let '(w, r) := call ListNodes w in
  (w, match r with
      | Err e => Err (ErrCall e)
      | Ok (Some (nodesResponse l c)) =>
          match errorFromCode c with
          | Some e => Err e
          | None => if forallb validDetail l then Ok (cloneNodeDetail <$> l) else Err ErrInvalidResponse
          end
      | Ok _ => Err ErrInvalidResponse
      end).
Definition ClientGetNodeDetail (node : NodeID) (w : W) : W * res controlError NodeDetail :=
  if negb (validNode node) then (w, Err ErrInvalidNode)
  else let '(w, r) := call (GetNodeDetail node) w in
       (w, match r with Err e => Err (ErrCall e) | Ok v => nodeDetailFromResponse v end).
Definition ClientRefreshNode (node : NodeID) (w : W) : W * res controlError NodeDetail :=
  if negb (validNode node) then (w, Err ErrInvalidNode)
  else let '(w, r) := call (RefreshNode node) w in
       (w, match r with Err e => Err (ErrCall e) | Ok v => nodeDetailFromResponse v end).
End Client.

(** ** What the cache holds *)

(** A detail of [node]: valid, healthy exactly with a report, disabled exactly when
    the configuration says so. *)
Definition detailOk (node : NodeID) (d : NodeDetail) : Prop :=
  ncID (ndConfig d) = node ∧ validDetail d = true
  ∧ (obStatus (ndObserved d) = NodeHealthy ↔ ndHasReport d = true)
  ∧ (obStatus (ndObserved d) = NodeDisabled ↔ ncEnabled (ndConfig d) = false)
  ∧ validNode node = true.

Record obInv (s : controlService) : Prop := {
  oi_details : ∀ node d, csNodes s !! node = Some d → detailOk node d;
  oi_targets : ∀ node c, (∃ d, csNodes s !! node = Some d ∧ ndConfig d = c) ↔ (∃ t, t ∈ ocNodes (csConfig s) ∧ tgConfig t = c ∧ ncID c = node);
  oi_valid : Forall (λ t, validTarget t = true) (ocNodes (csConfig s));
  oi_unique : NoDup ((ncID ∘ tgConfig) <$> ocNodes (csConfig s))
}.

Lemma validTarget_detail t : validTarget t = true →
  detailOk (ncID (tgConfig t)) (mkDetail (tgConfig t)
    (mkObserved (ncID (tgConfig t)) (if ncEnabled (tgConfig t) then NodeUnknown else NodeDisabled) 0 0 "") zeroReport false).
Proof.
  unfold validTarget. intros [Hv _]%andb_true_iff. pose proof Hv as Hv'. apply andb_true_iff in Hv' as [Hn _].
  unfold detailOk, validDetail. simpl. rewrite Hv, bool_decide_true by done.
  destruct (ncEnabled (tgConfig t)); split_and!; try done.
Qed.

Lemma addNodes_spec l m m' : addNodes l m = Some m' →
  Forall (λ t, validTarget t = true) l ∧ NoDup ((ncID ∘ tgConfig) <$> l)
  ∧ (∀ t, t ∈ l → m !! ncID (tgConfig t) = None)
  ∧ (∀ node d, m' !! node = Some d → m !! node = Some d ∨ detailOk node d ∧ ∃ t, t ∈ l ∧ tgConfig t = ndConfig d ∧ ncID (tgConfig t) = node)
  ∧ (∀ t, t ∈ l → ∃ d, m' !! ncID (tgConfig t) = Some d ∧ ndConfig d = tgConfig t)
  ∧ (∀ node d, m !! node = Some d → m' !! node = Some d).
Proof.
  revert m. induction l as [|t l IH]; intros m H; simpl in H.
  { injection H as <-. split_and!; [constructor|constructor|set_solver|by left|set_solver|done]. }
  destruct (validTarget t) eqn:Hv; simpl in H; [|done]. destruct (m !! ncID (tgConfig t)) eqn:Hm; [done|].
  destruct (IH _ H) as (H1 & H2 & H3 & H4 & H5 & H6). split_and!.
  - by constructor.
  - csimpl. constructor; [|done]. intros (t' & Et & Ht')%list_elem_of_fmap. simpl in Et. specialize (H3 t' Ht').
    rewrite <- Et in H3. rewrite lookup_insert_eq in H3. done.
  - intros t' [->|Ht']%elem_of_cons; [done|]. specialize (H3 t' Ht'). by apply lookup_insert_None in H3 as [? _].
  - intros node d Hd. destruct (H4 node d Hd) as [Hi|(Ho & t' & ? & ? & ?)]; [|right; split; [done|exists t'; set_solver]].
    apply lookup_insert_Some in Hi as [[<- <-]|[_ Hi]]; [|by left]. right. split; [by apply validTarget_detail|]. exists t. set_solver.
  - intros t' [->|Ht']%elem_of_cons; [|by apply H5]. eexists. split; [apply H6, lookup_insert_eq|done].
  - intros node d Hd. apply H6. rewrite lookup_insert_ne; [done|]. intros <-. congruence.
Qed.

Lemma obInv_init c mc s : NewClusterObserverService c mc = Ok s → obInv s.
Proof.
  unfold NewClusterObserverService. destruct (_ <? 0); [done|]. destruct (addNodes (ocNodes c) ∅) as [m|] eqn:H; [|done]. intros [= <-].
  destruct (addNodes_spec _ _ _ H) as (H1 & H2 & _ & H4 & H5 & _). split; simpl; try done.
  - intros node d Hd. destruct (H4 node d Hd) as [Hi|[? _]]; [by rewrite lookup_empty in Hi|done].
  - intros node c'. split.
    + intros (d & Hd & <-). destruct (H4 node d Hd) as [Hi|(_ & t & Ht & Hc & Hn)]; [by rewrite lookup_empty in Hi|].
      exists t. by rewrite <- Hc.
    + intros (t & Ht & <- & <-). destruct (H5 t Ht) as (d & Hd & Hc). by exists d.
Qed.

Lemma refresh_inv node t0 t1 answer s : obInv s → obInv (refreshNode node t0 t1 answer s).1.
Proof.
  intros Hinv. unfold refreshNode. destruct (csNodes s !! node) as [d|] eqn:Hd; [|done].
  destruct (ncEnabled (ndConfig d)) eqn:He; simpl; [|done].
  destruct (oi_details _ Hinv _ _ Hd) as (Hid & Hv & Hh & Hdis & Hnode). set (latency := Z.max 0 (t1 - t0)).
  assert (validNodeConfig (ndConfig d) = true) as Hcfg by (unfold validDetail in Hv; by do 3 apply andb_true_iff in Hv as [Hv _]).
  set (r := match answer _ with Err e => _ | Ok v => _ end).
  assert (∀ d', detailOk node d' → ndConfig d' = ndConfig d → ∀ m,
    obInv (mkObserver (csConfig s) (<[node := d']> (csNodes s)) m)) as Hput.
  { intros d' Hok' Hc m. destruct Hinv as [H1 H2 H3 H4]. split; simpl; try done.
    - intros n0 d0 H0. apply lookup_insert_Some in H0 as [[<- <-]|[_ H0]]; [done|auto].
    - intros n0 c0. rewrite <- H2. destruct (decide (node = n0)) as [<-|Hne]; [|by rewrite lookup_insert_ne].
      rewrite lookup_insert_eq. split; intros (d0 & [= <-] & <-) || intros (d0 & H0 & <-); eauto.
      assert (d0 = d) as -> by congruence. eauto. }
  destruct r as [d'|e] eqn:Er; simpl; apply Hput; try done.
  - subst r. destruct (answer _) as [v|e]; [|done]. unfold applyReport in Er. destruct v as [[rep c]|]; [|done].
    destruct (errorFromCode c); [done|]. destruct (validNode (rpNode rep)) eqn:Hr; simpl in Er; [|done]. case_bool_decide as Hn; [done|].
    injection Er as <-. unfold detailOk, validDetail, cloneReport. simpl. rewrite Hcfg, Hr, !bool_decide_true by done.
    split_and!; try done. by rewrite He.
  - subst r. destruct (answer _) as [v|e0]; [|done]. unfold applyReport in Er. by repeat case_match; simplify_eq/=.
  - unfold detailOk, validDetail. simpl. rewrite Hcfg, bool_decide_true by done. split_and!; try done. by rewrite He.
Qed.

(** A sequence of commands, each with its clock readings and the answer to its call. *)
Definition obInput : Type := obCommand * Time * Time * (ServiceRef → res rtError (option (Report * errorCode))).
Definition serveObserver (x : obInput) (s : controlService) : controlService * option obResponse :=
  HandleObserver x.1.1.1 x.1.1.2 x.1.2 x.2 s.
Definition runObserver (l : list obInput) (s : controlService) : controlService := foldl (λ s x, (serveObserver x s).1) s l.

Lemma serve_inv x s : obInv s → obInv (serveObserver x s).1.
Proof.
  intros Hinv. destruct x as [[[c t0] t1] answer]. unfold serveObserver. simpl. destruct c; simpl; try done.
  destruct (validNode node); simpl; [|done]. pose proof (refresh_inv node t0 t1 answer s Hinv). by destruct (refreshNode _ _ _ _ s) as [s' [|]].
Qed.
Lemma run_inv l s : obInv s → obInv (runObserver l s).
Proof. revert s. induction l as [|x l IH]; intros s Hs; simpl; [done|]. by apply IH, serve_inv. Qed.

(** The service as what the client calls. *)
Definition callObserver t0 t1 answer (c : obCommand) (s : controlService) : controlService * res rtError (option obResponse) :=
  let '(s, r) := serveObserver (c, t0, t1, answer) s in (s, Ok r).

#[local] Instance detailBefore_trans : Transitive detailBefore.
Proof. intros a b c. unfold detailBefore. apply transitivity. Qed.
#[local] Instance detailBefore_total : Total detailBefore.
Proof. intros a b. unfold detailBefore. apply (total String.le). Qed.

Lemma listed s d : obInv s → d ∈ listNodes s ↔ csNodes s !! ncID (ndConfig d) = Some d.
Proof.
  intros Hinv. unfold listNodes. rewrite merge_sort_Permutation, list_elem_of_fmap. split.
  - intros (d' & -> & Hd'). apply list_elem_of_fmap in Hd' as ([n d0] & -> & H0). apply elem_of_map_to_list in H0. simpl.
    destruct (oi_details _ Hinv _ _ H0) as [Hn _]. destruct d0. by rewrite <- Hn in H0.
  - intros Hd. exists d. split; [by destruct d|]. apply list_elem_of_fmap. exists (ncID (ndConfig d), d). split; [done|].
    by apply elem_of_map_to_list.
Qed.

(** In every state an observer reaches, whatever its agents answer, its client
    accepts every answer and sees exactly the cache: the list holds exactly the
    configured nodes with their configuration, in the order of their identifiers; a
    node is healthy exactly when it has a report, which is its own, and disabled
    exactly when it is configured so; a node that is not configured is not found. *)
Theorem observer_client_exact c mc s l t0 t1 answer :
  NewClusterObserverService c mc = Ok s →
  let s := runObserver l s in let call := callObserver t0 t1 answer in
  (ClientListNodes call s).2 = Ok (listNodes s)
  ∧ StronglySorted detailBefore (listNodes s)
  ∧ (∀ cfg, (∃ d, d ∈ listNodes s ∧ ndConfig d = cfg) ↔ (∃ t, t ∈ ocNodes (csConfig s) ∧ tgConfig t = cfg))
  ∧ (∀ node, validNode node = true → (ClientGetNodeDetail call node s).2 =
       match csNodes s !! node with Some d => Ok d | None => Err ErrNodeNotFound end)
  ∧ (∀ d, d ∈ listNodes s → validDetail d = true
       ∧ (obStatus (ndObserved d) = NodeHealthy ↔ ndHasReport d = true)
       ∧ (obStatus (ndObserved d) = NodeDisabled ↔ ncEnabled (ndConfig d) = false)).
Proof.
  intros Hs. cbv zeta. pose proof (run_inv l _ (obInv_init _ _ _ Hs)) as Hinv. clear Hs. generalize dependent (runObserver l s). clear s.
  intros s Hinv.
  assert (∀ d, d ∈ listNodes s → detailOk (ncID (ndConfig d)) d) as Hok by (intros d Hd; apply (oi_details _ Hinv), listed; done).
  split_and!.
  - unfold ClientListNodes, callObserver, serveObserver. simpl. rewrite (proj2 (forallb_forall _ _)).
    + f_equal. rewrite <- (list_fmap_id (listNodes s)) at 2. apply list_fmap_ext. by intros i [] _.
    + intros d Hd%list_elem_of_In%Hok. by destruct Hd as (_ & ? & _).
  - apply (StronglySorted_merge_sort detailBefore).
  - intros cfg. split.
    + intros (d & Hd & <-). apply listed in Hd; [|done].
      destruct (proj1 (oi_targets _ Hinv (ncID (ndConfig d)) (ndConfig d))) as (t & ? & ? & _); [by exists d|by exists t].
    + intros (t & Ht & <-). destruct (proj2 (oi_targets _ Hinv (ncID (tgConfig t)) (tgConfig t))) as (d & Hd & Hc); [by exists t|].
      exists d. split; [|done]. apply listed; [done|]. by rewrite Hc.
  - intros node Hn. unfold ClientGetNodeDetail, callObserver, serveObserver. simpl. rewrite Hn. simpl.
    destruct (csNodes s !! node) as [d|] eqn:Hd; simpl; [|done]. destruct (oi_details _ Hinv _ _ Hd) as (_ & Hv & _).
    destruct d. unfold cloneNodeDetail, cloneReport. simpl in *. by rewrite Hv.
  - intros d Hd. destruct (Hok d Hd) as (_ & ? & ? & ? & _). done.
Qed.

Definition sampleObserver : controlService := Eval vm_compute in
  match NewClusterObserverService (mkObserverConfig [mkNodeTarget (mkNodeConfig "n2" "b" "game" false) zeroRef;
      mkNodeTarget (mkNodeConfig "n1" "a" "game" true) (mkRef "n1" 9)] 0) newMetricCollector with
  | Ok s => s | Err _ => mkObserver (mkObserverConfig [] 0) ∅ newMetricCollector end.
Definition sampleInput : obInput :=
  (RefreshNode "n1", 5, 7, λ _, Ok (Some (mkReport 6 "n1" "running" 0 [] 0 [] 0 [] 0 0 (mkMetricsReport ∅ ∅ ∅), responseOK))).

Lemma observer_client_exact_witness :
  ((λ d, obStatus (ndObserved d)) <$> listNodes (runObserver [sampleInput] sampleObserver)) = [NodeHealthy; NodeDisabled]
  ∧ (ClientListNodes (callObserver 8 9 (λ _, Err ContextCanceled)) (runObserver [sampleInput] sampleObserver)).2
    = Ok (listNodes (runObserver [sampleInput] sampleObserver)).
Proof.
  split; [vm_compute; reflexivity|].
  exact (proj1 (observer_client_exact (mkObserverConfig [mkNodeTarget (mkNodeConfig "n2" "b" "game" false) zeroRef;
      mkNodeTarget (mkNodeConfig "n1" "a" "game" true) (mkRef "n1" 9)] 0) newMetricCollector sampleObserver [sampleInput] 8 9
      (λ _, Err ContextCanceled) eq_refl)).
Defined.
