(* ===== verification/NhskCards.v ===== *)
(** * Card patterns

    [src/examples/nhsk/card_rules.go]: what a set of cards is and which set
    presses which.  A card is a byte: its value in the low four bits (1 is the ace,
    13 the king), its suit in the high four.  Values are ranked 3 < ... < 13 < 1 < 2.

    The reference definition of a pattern is [shape], by the multiset of values; the
    classifier of the code, which counts values in an array, agrees with it
    ([classify_shape]).  Pressing is a strict order ([press_trans], [press_asym]), so
    the plays of a trick cannot go round in a circle. *)

From stdpp Require Import prelude list gmap strings.
From Stdlib Require Import ZArith Lia Strings.Byte.
From S2P Require Import Prelude Types Bytes GoText Encoding Game.

Local Open Scope Z_scope.

(** A card, a byte. *)
Abbreviation card := Z (only parsing).

Definition cardValueA : Z := 1.
Definition cardValueK : Z := 13.
Definition cardMinBomb : Z := 4.

Inductive cardPatternKind :=
| cardPatternInvalid | cardPatternSingle | cardPatternPair | cardPatternTriple | cardPatternThreeTwo | cardPatternBomb.
#[global] Instance cardPatternKind_eq_dec : EqDecision cardPatternKind.
Proof. solve_decision. Defined.

Record cardPattern := mkPattern { kind : cardPatternKind; rank : Z; count : Z }.
Definition zeroPattern : cardPattern := mkPattern cardPatternInvalid 0 0.

Definition cardValue (c : card) : Z := Z.land c 15.
Definition numCards (cards : list card) : Z := Z.of_nat (length cards).

(** The array [counts [14]int]. *)
Fixpoint countCards (cards : list card) (counts : list Z) : option (list Z) :=
  match cards with
  | [] => Some counts
  | c :: cards =>
      let value := cardValue c in
      if (value <? cardValueA) || (cardValueK <? value) then None
      else countCards cards (alter (Z.add 1) (Z.to_nat value) counts)
  end.

Definition countAt (counts : list Z) (value : Z) : Z := default 0 (counts !! Z.to_nat value).
Definition values : list Z := seqZ cardValueA cardValueK.

Definition firstCardValue (counts : list Z) : Z :=
  default 0 (head (filter (λ v, countAt counts v ≠ 0) values)).

(** One round of the loop that counts distinct values and remembers the last triple
    and the last pair. *)
Definition scan (counts : list Z) (acc : Z * Z * Z) (value : Z) : Z * Z * Z :=
  let '(unique, tripleValue, pairValue) := acc in
  if countAt counts value =? 0 then acc
  else (unique + 1, (if countAt counts value =? 3 then value else tripleValue),
        (if countAt counts value =? 2 then value else pairValue)).

Definition classifyCards (cards : list card) : option cardPattern :=
  if numCards cards =? 0 then None
  else match countCards cards (replicate 14 0) with
       | None => None
       | Some counts =>
           let '(unique, tripleValue, pairValue) := foldl (scan counts) (0, 0, 0) values in
           if (cardMinBomb <=? numCards cards) && (unique =? 1) then Some (mkPattern cardPatternBomb (firstCardValue counts) (numCards cards))
           else if (numCards cards =? 2) && (unique =? 1) then Some (mkPattern cardPatternPair (firstCardValue counts) (numCards cards))
           else if (numCards cards =? 3) && (unique =? 1) then Some (mkPattern cardPatternTriple (firstCardValue counts) (numCards cards))
           else if (numCards cards =? 5) && negb (tripleValue =? 0) && negb (pairValue =? 0)
           then Some (mkPattern cardPatternThreeTwo tripleValue (numCards cards))
           else if numCards cards =? 1 then Some (mkPattern cardPatternSingle (firstCardValue counts) (numCards cards))
           else None
       end.

Definition cardLogicValue (value : Z) : Z := if value <? 3 then value + 13 else value.

Definition compareCardSets (higher lower : list card) : Z :=
  match classifyCards higher, classifyCards lower with
  | Some h, Some l =>
      if bool_decide (kind h ≠ kind l) then
        if bool_decide (kind h = cardPatternBomb) then 1
        else if bool_decide (kind l = cardPatternBomb) then -1 else 0
      else if bool_decide (kind h = cardPatternBomb) && negb (count h =? count l) then
        if count l <? count h then 1 else -1
      else
        let higherRank := cardLogicValue (rank h) in
        let lowerRank := cardLogicValue (rank l) in
        if lowerRank <? higherRank then 1 else if higherRank <? lowerRank then -1 else 0
  | _, _ => 0
  end.

(** [scoreCardsIn]: fives are worth 5, tens and kings 10. *)
Definition cardScore (c : card) : Z :=
  if 4 <? Z.shiftr c 4 then 0
  else if cardValue c =? 5 then 5
  else if (cardValue c =? 10) || (cardValue c =? 13) then 10 else 0.
Definition u32 (z : Z) : Z := z mod 2 ^ 32.
Definition scoreCardsIn (cards : list card) : Z * list card :=
  foldl (λ '(score, scoreCards) c,
           if cardScore c =? 0 then (score, scoreCards) else (u32 (score + cardScore c), scoreCards ++ [c]))
    (0, []) cards.

(** ** The reference *)

(** A value that may be played. *)
Definition playable (v : Z) : Prop := cardValueA ≤ v ≤ cardValueK.
#[global] Instance playable_dec v : Decision (playable v).
Proof. unfold playable. apply _. Defined.

(** What a multiset of values is. *)
Inductive shape : list Z → cardPattern → Prop :=
| SSingle v : playable v → shape [v] (mkPattern cardPatternSingle v 1)
| SPair v : playable v → shape [v; v] (mkPattern cardPatternPair v 2)
| STriple v : playable v → shape [v; v; v] (mkPattern cardPatternTriple v 3)
| SThreeTwo v w : playable v → playable w → v ≠ w → shape [v; v; v; w; w] (mkPattern cardPatternThreeTwo v 5)
| SBomb v n : playable v → (4 ≤ n)%nat → shape (replicate n v) (mkPattern cardPatternBomb v (Z.of_nat n)).

Definition occurrences (v : Z) (vs : list Z) : Z := Z.of_nat (length (filter (λ x, x = v) vs)).

Lemma occurrences_cons v x vs : occurrences v (x :: vs) = (if bool_decide (x = v) then 1 else 0) + occurrences v vs.
Proof. unfold occurrences. rewrite filter_cons. case_decide; case_bool_decide; simpl; lia. Qed.
Lemma occurrences_nonneg v vs : 0 ≤ occurrences v vs.
Proof. unfold occurrences. lia. Qed.
Lemma occurrences_perm v vs vs' : vs ≡ₚ vs' → occurrences v vs = occurrences v vs'.
Proof. intros H. unfold occurrences. by rewrite H. Qed.
Lemma occurrences_replicate v w n : occurrences v (replicate n w) = if bool_decide (w = v) then Z.of_nat n else 0.
Proof. induction n as [|n IH]; simpl; [by case_bool_decide|]. rewrite occurrences_cons, IH. case_bool_decide; lia. Qed.
Lemma occurrences_pos v vs : 0 < occurrences v vs ↔ v ∈ vs.
Proof.
  induction vs as [|x vs IH]; [split; [done|inversion 1]|]. rewrite occurrences_cons, elem_of_cons, <- IH.
  pose proof (occurrences_nonneg v vs). case_bool_decide; naive_solver lia.
Qed.

(** The counting loop counts. *)
Lemma countCards_spec cards : ∀ counts, length counts = 14%nat →
  match countCards cards counts with
  | None => ¬ Forall playable (cardValue <$> cards)
  | Some counts' => Forall playable (cardValue <$> cards) ∧ length counts' = 14%nat
      ∧ ∀ v, playable v → countAt counts' v = countAt counts v + occurrences v (cardValue <$> cards)
  end.
Proof.
  induction cards as [|c cards IH]; intros counts Hl; cbn [countCards fmap list_fmap].
  { split_and!; [constructor|done|]. intros v _. unfold occurrences. simpl. lia. }
  destruct ((cardValue c <? cardValueA) || (cardValueK <? cardValue c)) eqn:Ec.
  { intros HF. inversion HF as [|? ? Hp _]. unfold playable in Hp. apply orb_true_iff in Ec as [?%Z.ltb_lt|?%Z.ltb_lt]; lia. }
  bool_prop. specialize (IH (alter (Z.add 1) (Z.to_nat (cardValue c)) counts)).
  rewrite length_alter in IH. specialize (IH Hl). destruct countCards as [counts'|].
  - destruct IH as (IH1 & IH2 & IH3). split_and!; [by constructor|done|]. intros v Hv. rewrite IH3, occurrences_cons by done.
    enough (countAt (alter (Z.add 1) (Z.to_nat (cardValue c)) counts) v
            = countAt counts v + (if bool_decide (cardValue c = v) then 1 else 0)) by lia.
    unfold countAt, playable, cardValueA, cardValueK in *. case_bool_decide as He.
    + subst v. rewrite list_lookup_alter_eq.
      destruct (lookup_lt_is_Some_2 counts (Z.to_nat (cardValue c))) as [x ->]; [lia|]. simpl. lia.
    + rewrite list_lookup_alter_ne by lia. lia.
  - intros HF. apply IH. by inversion HF.
Qed.

(** What the scan finds, for a list of distinct values. *)
Lemma scan_spec counts vs : ∀ u t p, NoDup vs →
  ∃ t' p', foldl (scan counts) (u, t, p) vs = (u + Z.of_nat (length (filter (λ v, countAt counts v ≠ 0) vs)), t', p')
    ∧ (t' = t ∧ Forall (λ v, countAt counts v ≠ 3) vs ∨ t' ∈ vs ∧ countAt counts t' = 3)
    ∧ (p' = p ∧ Forall (λ v, countAt counts v ≠ 2) vs ∨ p' ∈ vs ∧ countAt counts p' = 2).
Proof.
  induction vs as [|v vs IH]; intros u t p Hn; cbn [foldl].
  { exists t, p. split_and!; [|left|left]; [f_equal; f_equal; simpl; lia|done..]. }
  apply NoDup_cons in Hn as [_ Hn]. rewrite filter_cons. unfold scan at 2.
  destruct (Z.eqb_spec (countAt counts v) 0) as [E0|E0].
  - rewrite decide_False by tauto. destruct (IH u t p Hn) as (t' & p' & -> & Ht & Hp). exists t', p'. split_and!; [done| |].
    + destruct Ht as [[-> ?]|[? ?]]; [left; split; [done|constructor; [lia|done]]|right; set_solver].
    + destruct Hp as [[-> ?]|[? ?]]; [left; split; [done|constructor; [lia|done]]|right; set_solver].
  - rewrite decide_True by done.
    destruct (IH (u + 1) (if countAt counts v =? 3 then v else t) (if countAt counts v =? 2 then v else p) Hn) as (t' & p' & -> & Ht & Hp).
    exists t', p'. split_and!; [f_equal; f_equal; cbn [length]; lia| |].
    + destruct Ht as [[-> ?]|[? ?]]; [|right; set_solver].
      destruct (Z.eqb_spec (countAt counts v) 3); [right; set_solver|left; by split; [|constructor]].
    + destruct Hp as [[-> ?]|[? ?]]; [|right; set_solver].
      destruct (Z.eqb_spec (countAt counts v) 2); [right; set_solver|left; by split; [|constructor]].
Qed.

(** Two predicates that agree on the members of a list select the same ones. *)
Lemma filter_agree {A} (P Q : A → Prop) `{∀ x, Decision (P x), ∀ x, Decision (Q x)} (l : list A) :
  (∀ x, x ∈ l → (P x ↔ Q x)) → filter P l = filter Q l.
Proof.
  induction l as [|x l IH]; [done|]. intros Hl. rewrite !filter_cons, IH by set_solver.
  pose proof (Hl x ltac:(set_solver)). repeat case_decide; naive_solver.
Qed.

Lemma all_occurrences v vs : occurrences v vs = Z.of_nat (length vs) → vs = replicate (length vs) v.
Proof.
  induction vs as [|x vs IH]; [done|]. rewrite occurrences_cons. cbn [length replicate].
  assert (occurrences v vs ≤ Z.of_nat (length vs)) by (unfold occurrences; pose proof (length_filter (λ x, x = v) vs); lia).
  case_bool_decide; [|lia]. intros. f_equal; [done|]. apply IH. lia.
Qed.

Lemma filter_unique {A} `{EqDecision A} (l : list A) v : NoDup l → v ∈ l → filter (λ x, x = v) l = [v].
Proof.
  induction l as [|x l IH]; [inversion 2|]. intros [Hx Hn]%NoDup_cons Hv. rewrite filter_cons. case_decide as E.
  - subst x. f_equal. clear IH. induction l as [|y l IH]; [done|]. rewrite filter_cons, decide_False by set_solver. apply IH; [set_solver|by apply NoDup_cons in Hn as [_ ?]|set_solver].
  - apply IH; [done|]. set_solver.
Qed.

Lemma values_playable v : v ∈ values ↔ playable v.
Proof. unfold values, playable, cardValueA, cardValueK. rewrite elem_of_seqZ. lia. Qed.
Lemma values_NoDup : NoDup values.
Proof. apply NoDup_seqZ. Qed.

(** The values of [cards] that occur, in order. *)
Definition present (vs : list Z) : list Z := filter (λ v, occurrences v vs ≠ 0) values.

Lemma present_one vs v : Forall playable vs → present vs = [v] → vs = replicate (length vs) v.
Proof.
  intros Hp Hv. apply all_occurrences. assert (∀ x, x ∈ vs → x = v) as Ha.
  { intros x Hx. assert (x ∈ present vs) as H; [|rewrite Hv in H; set_solver].
    apply list_elem_of_filter. split; [apply occurrences_pos in Hx; lia|]. apply values_playable. by eapply Forall_forall. }
  clear Hp Hv. induction vs as [|x vs IH]; [done|]. rewrite occurrences_cons, bool_decide_true by set_solver.
  rewrite IH by set_solver. cbn [length]. lia.
Qed.
Lemma present_replicate n v : (0 < n)%nat → playable v → present (replicate n v) = [v].
Proof.
  intros Hn Hv. rewrite <- (filter_unique values v) by first [apply values_NoDup|by apply values_playable].
  apply list_filter_iff. intros x. rewrite occurrences_replicate. case_bool_decide; naive_solver lia.
Qed.
Lemma present_perm vs vs' : vs ≡ₚ vs' → present vs = present vs'.
Proof. intros H. apply list_filter_iff. intros x. by rewrite (occurrences_perm x _ _ H). Qed.

Lemma triple_pair vs t p : length vs = 5%nat → t ≠ p → occurrences t vs = 3 → occurrences p vs = 2 → vs ≡ₚ [t; t; t; p; p].
Proof.
  intros Hl Htp Ht Hp. rewrite <- (filter_app_complement (λ x, x = t) vs) at 1.
  assert (filter (λ x, x = t) vs = [t; t; t]) as ->.
  { assert (length (filter (λ x, x = t) vs) = 3%nat) as H3 by (unfold occurrences in Ht; lia).
    change [t; t; t] with (replicate 3 t). rewrite <- H3. apply all_occurrences. unfold occurrences. f_equal. f_equal.
    rewrite list_filter_filter. apply list_filter_iff. tauto. }
  assert (length (filter (λ x, ¬ x = t) vs) = 2%nat) as H2.
  { pose proof (filter_app_complement (λ x, x = t) vs) as H%Permutation_length. rewrite length_app in H. unfold occurrences in Ht. lia. }
  assert (filter (λ x, ¬ x = t) vs = [p; p]) as ->; [|done].
  change [p; p] with (replicate 2 p). rewrite <- H2. apply all_occurrences. rewrite H2. unfold occurrences in *.
  rewrite list_filter_filter. change (Z.of_nat 2) with 2. rewrite <- Hp. f_equal. f_equal. apply list_filter_iff. intros x. naive_solver.
Qed.

(** The classifier in terms of the occurrences of values. *)
Lemma classify_occurrences cards : cards ≠ [] →
  let vs := cardValue <$> cards in
  match classifyCards cards with
  | None => ¬ Forall playable vs
      ∨ (length (present vs) ≠ 1)%nat ∧ (length vs ≠ 1)%nat
        ∧ ¬ (length vs = 5%nat ∧ ∃ t p, playable t ∧ playable p ∧ occurrences t vs = 3 ∧ occurrences p vs = 2)
  | Some r => Forall playable vs ∧ count r = Z.of_nat (length vs)
      ∧ ((∃ v, present vs = [v] ∧ rank r = v
           ∧ kind r = match length vs with 1%nat => cardPatternSingle | 2%nat => cardPatternPair | 3%nat => cardPatternTriple | _ => cardPatternBomb end)
         ∨ length vs = 5%nat ∧ kind r = cardPatternThreeTwo ∧ length (present vs) ≠ 1%nat ∧ playable (rank r) ∧ occurrences (rank r) vs = 3
           ∧ ∃ p, playable p ∧ occurrences p vs = 2)
  end.
Proof.
  intros Hne vs. unfold classifyCards, numCards. destruct cards as [|c0 cs]; [done|]. rewrite (proj2 (Z.eqb_neq _ _)) by (simpl; lia).
  set (cards := c0 :: cs) in *. assert (length vs = length cards) as Hl by apply length_fmap. rewrite <- !Hl.
  pose proof (countCards_spec cards (replicate 14 0) eq_refl) as Hc. fold vs in Hc.
  destruct countCards as [counts|]; [|by left]. destruct Hc as (Hp & _ & Hc).
  assert (∀ v, playable v → countAt counts v = occurrences v vs) as Hc'.
  { intros v Hv. rewrite Hc by done. unfold countAt. rewrite lookup_replicate_2; [simpl; lia|].
    unfold playable, cardValueA, cardValueK in Hv. lia. } clear Hc.
  assert (filter (λ v, countAt counts v ≠ 0) values = present vs) as Hf.
  { unfold present. apply filter_agree. intros v Hv%values_playable. by rewrite Hc'. }
  destruct (scan_spec counts values 0 0 0 values_NoDup) as (t & p & -> & Ht & Hpr). rewrite Hf in *.
  assert (firstCardValue counts = default 0 (head (present vs))) as Hfirst by (unfold firstCardValue; by rewrite Hf).
  rewrite Hfirst. rewrite Z.add_0_l.
  assert (1 ≤ Z.of_nat (length vs)) as Hpos by (rewrite Hl; unfold cards; simpl; lia).
  assert (∀ k, length (present vs) = 1%nat → ∃ v, present vs = [v] ∧ rank (mkPattern k (default 0 (head (present vs))) (Z.of_nat (length vs))) = v) as Hone.
  { intros k H1. destruct (present vs) as [|v [|]]; try done. by exists v. }
  assert (∀ x, x ∈ values → countAt counts x = occurrences x vs) as Hcv by (intros x ?%values_playable; by apply Hc').
  clear Hc' Hf Hfirst Hl Hne. destruct (decide (length (present vs) = 1%nat)) as [H1|H1].
  - rewrite H1. destruct (present vs) as [|v [|]] eqn:Epr; try done. cbn [head default].
    assert (∃ k, length vs = S k) as [k Hk] by (exists (pred (length vs)); lia).
    rewrite Hk in *. destruct k as [|[|[|k]]]; [cbn; split_and!; [done..|]; left; by exists v..|].
    rewrite (proj2 (Z.leb_le cardMinBomb _)) by (unfold cardMinBomb; lia). cbn [andb]. split_and!; [done..|]. left. by exists v.
  - rewrite (proj2 (Z.eqb_neq (Z.of_nat (length (present vs))) 1)) by lia. rewrite !andb_false_r.
    destruct (Z.eqb_spec (Z.of_nat (length vs)) 5) as [H5|H5].
    + assert (length vs = 5%nat) as H5' by lia.
      destruct Ht as [[-> Ht]|[Htv Ht]].
      { replace (true && negb (0 =? 0) && negb (p =? 0)) with false by done. rewrite (proj2 (Z.eqb_neq _ 1)) by lia. right. split_and!; [done|lia|]. intros (_ & t & ? & Hpt & _ & H3 & _).
        rewrite Forall_forall in Ht. apply (Ht t); [by apply values_playable|]. rewrite Hcv by by apply values_playable. done. }
      destruct Hpr as [[-> Hpr]|[Hpv Hpr]].
      { replace (true && negb (t =? 0) && negb (0 =? 0)) with false by (by rewrite andb_false_r). rewrite (proj2 (Z.eqb_neq _ 1)) by lia. right. split_and!; [done|lia|]. intros (_ & ? & q & _ & Hpq & _ & H2).
        rewrite Forall_forall in Hpr. apply (Hpr q); [by apply values_playable|]. rewrite Hcv by by apply values_playable. done. }
      rewrite Hcv in Ht, Hpr by done. apply values_playable in Htv, Hpv.
      rewrite !(proj2 (Z.eqb_neq _ 0)) by (unfold playable, cardValueA in *; lia). cbn. split_and!; [done..|]. right. naive_solver.
    + cbn [andb]. destruct (Z.eqb_spec (Z.of_nat (length vs)) 1) as [H1'|H1'].
      * exfalso. apply H1. clearbody vs. clear - H1' Hp. destruct vs as [|v [|]]; [simpl in *; lia| |simpl in *; lia]. inversion Hp as [|? ? Hv _]; subst.
        change [v] with (replicate 1 v). rewrite present_replicate by (done || lia). done.
      * right. split_and!; [done|lia|]. intros [? _]. lia.
Qed.

(** The classifier computes the shape of the values. *)
Lemma classify_shape cards r : classifyCards cards = Some r ↔ ∃ vs, cardValue <$> cards ≡ₚ vs ∧ shape vs r.
Proof.
  destruct (decide (cards = [])) as [->|Hne].
  { split; [done|]. intros (vs & H & Hs). symmetry in H. apply Permutation_nil_r in H as ->.
    inversion Hs as [| | | |v n Hv Hn Hr]. destruct n; [lia|done]. }
  pose proof (classify_occurrences cards Hne) as Hc. cbv zeta in Hc. set (vs := cardValue <$> cards) in *. split.
  - intros Hr. rewrite Hr in Hc. destruct r as [k r n]. simpl in Hc. destruct Hc as (Hp & -> & [(v & Hv & -> & ->)|(Hl & -> & _ & Ht & H3 & p & Hq & H2)]).
    + assert (playable v) as Hpv.
      { apply values_playable. assert (v ∈ present vs) as H by (rewrite Hv; set_solver). by apply list_elem_of_filter in H as [_ H]. }
      exists vs. split; [done|]. rewrite (present_one vs v Hp Hv) at 1.
      assert (∃ k, length vs = S k) as [k ->].
      { exists (pred (length vs)). destruct vs eqn:Ev; [|done]. apply fmap_nil_inv in Ev. done. }
      destruct k as [|[|[|k]]]; try by constructor. apply SBomb; [done|lia].
    + exists [r; r; r; p; p]. split; [apply triple_pair; [done| |done..]; intros ->; lia|].
      rewrite Hl. apply SThreeTwo; [done..|]. intros ->. lia.
  - intros (vs' & Hperm & Hs). assert (∀ v, occurrences v vs = occurrences v vs') as Ho by (intros v; by apply occurrences_perm).
    assert (length vs = length vs') as Hl by by apply Permutation_length.
    assert (present vs = present vs') as Hpr by by apply present_perm.
    assert (Forall playable vs) as Hpl.
    { rewrite Hperm. destruct Hs; [repeat (apply Forall_cons_2; [done|]); apply Forall_nil_2..|by apply Forall_replicate]. }
    assert (∀ v n, vs' = replicate n v → (0 < n)%nat → playable v → present vs = [v] ∧ vs = replicate n v) as Hrep.
    { intros v n -> Hn Hv. rewrite Hpr, present_replicate by done. split; [done|]. 
      assert (length vs = n) as <- by (by rewrite Hl, length_replicate).
      apply present_one; [done|]. rewrite Hpr. by apply present_replicate. }
    assert (∀ v n k, vs' = replicate n v → (0 < n)%nat → playable v →
              k = match n with 1%nat => cardPatternSingle | 2%nat => cardPatternPair | 3%nat => cardPatternTriple | _ => cardPatternBomb end →
              classifyCards cards = Some (mkPattern k v (Z.of_nat n))) as Hsame.
    { intros v n k Hv' Hn Hv ->. destruct (Hrep v n Hv' Hn Hv) as [Hone Hvs]. rewrite Hone in Hc.
      destruct (classifyCards cards) as [[k r0 n0]|]; simpl in Hc; [|naive_solver].
      destruct Hc as (_ & -> & [(v0 & [= ->] & -> & ->)|(_ & _ & Hx & _)]); [|done].
      assert (length vs = n) as -> by (rewrite Hvs; apply length_replicate). done. }
    destruct Hs as [v Hv|v Hv|v Hv|v w Hv Hw Hvw|v n Hv Hn].
    + apply (Hsame v 1%nat); [done|lia|done|done].
    + apply (Hsame v 2%nat); [done|lia|done|done].
    + apply (Hsame v 3%nat); [done|lia|done|done].
    + assert (occurrences v vs = 3) as H3 by (rewrite Ho, !occurrences_cons, (bool_decide_true (v = v)), (bool_decide_false (w = v)) by congruence; done).
      assert (occurrences w vs = 2) as H2 by (rewrite Ho, !occurrences_cons, (bool_decide_true (w = w)), (bool_decide_false (v = w)) by congruence; done).
      assert (v ∈ present vs ∧ w ∈ present vs) as [Hpv Hpw]
        by (split; apply list_elem_of_filter; (split; [lia|by apply values_playable])).
      destruct (classifyCards cards) as [[k r0 n0]|]; simpl in Hc.
      * destruct Hc as (_ & -> & [(v0 & H1 & _)|(_ & -> & _ & Hr & Hr3 & _)]); [rewrite H1 in Hpv, Hpw; set_solver|].
        rewrite Hl. rewrite Ho, !occurrences_cons in Hr3. change (occurrences r0 []) with 0 in Hr3.
        repeat case_bool_decide; subst; try lia; done.
      * exfalso. destruct Hc as [Hc|(_ & _ & Hc)]; [done|]. apply Hc. split; [done|]. by exists v, w.
    + apply Hsame; [done|lia|done|]. by destruct n as [|[|[|[|n]]]]; [lia..|].
Qed.

(** ** Pressing *)

(** The strength of a pattern: bombs above everything, by length and then rank. *)
Definition presses (h l : cardPattern) : Prop :=
  match kind h, kind l with
  | cardPatternBomb, cardPatternBomb =>
      count l < count h ∨ count h = count l ∧ cardLogicValue (rank l) < cardLogicValue (rank h)
  | cardPatternBomb, _ => True
  | _, cardPatternBomb => False
  | k, k' => k = k' ∧ cardLogicValue (rank l) < cardLogicValue (rank h)
  end.

Lemma presses_irrefl p : ¬ presses p p.
Proof. unfold presses. destruct (kind p); lia. Qed.
Lemma presses_trans a b c : presses a b → presses b c → presses a c.
Proof. unfold presses. destruct (kind a), (kind b), (kind c); naive_solver lia. Qed.

Lemma compare_presses higher lower : 0 < compareCardSets higher lower ↔
  ∃ h l, classifyCards higher = Some h ∧ classifyCards lower = Some l ∧ presses h l.
Proof.
  unfold compareCardSets. destruct (classifyCards higher) as [h|] eqn:Eh; [|split; [lia|naive_solver]].
  destruct (classifyCards lower) as [l|] eqn:El; [|split; [lia|naive_solver]].
  transitivity (presses h l); [|naive_solver]. unfold presses.
  assert (∀ cards p, classifyCards cards = Some p → kind p ≠ cardPatternInvalid) as Hk.
  { intros cards p (vs & _ & Hs)%classify_shape. by destruct Hs. }
  pose proof (Hk _ _ Eh). pose proof (Hk _ _ El). clear Hk Eh El.
  destruct (kind h), (kind l); try done.
  all: repeat case_bool_decide; try congruence; cbn [andb negb].
  all: repeat case_match; bool_prop; (split; [intros; first [lia|split; [congruence|lia]|done]|first [lia|intros [? ?]; first [congruence|lia]]]).
Qed.

Lemma compare_antisym a b : compareCardSets a b = - compareCardSets b a.
Proof.
  unfold compareCardSets. destruct (classifyCards a) as [h|], (classifyCards b) as [l|]; try done.
  destruct (kind h), (kind l); repeat case_bool_decide; try congruence; cbn [andb negb]; try done;
    repeat case_match; bool_prop; lia.
Qed.

(** ** Points *)

Definition scoreOf (cards : list card) : Z := foldr (λ c s, cardScore c + s) 0 cards.

Lemma cardScore_range c : 0 ≤ cardScore c ≤ 10.
Proof. unfold cardScore. repeat case_match; lia. Qed.
Lemma scoreOf_cons c cards : scoreOf (c :: cards) = cardScore c + scoreOf cards.
Proof. done. Qed.
Lemma scoreOf_app a b : scoreOf (a ++ b) = scoreOf a + scoreOf b.
Proof. induction a as [|c a IH]; [done|]. cbn [app]. rewrite !scoreOf_cons, IH. lia. Qed.
Lemma scoreOf_perm a b : a ≡ₚ b → scoreOf a = scoreOf b.
Proof. induction 1; rewrite ?scoreOf_cons; lia. Qed.
Lemma scoreOf_range cards : 0 ≤ scoreOf cards ≤ 10 * numCards cards.
Proof.
  unfold numCards. induction cards as [|c cards IH]; [done|]. rewrite scoreOf_cons. pose proof (cardScore_range c). cbn [length]. lia.
Qed.

Lemma u32_add z w : u32 (u32 z + w) = u32 (z + w).
Proof. unfold u32. apply Zplus_mod_idemp_l. Qed.
Lemma u32_small z : 0 ≤ z < 2 ^ 32 → u32 z = z.
Proof. intros. by apply Z.mod_small. Qed.

Lemma scoreCardsIn_spec cards : scoreCardsIn cards = (u32 (scoreOf cards), filter (λ c, cardScore c ≠ 0) cards).
Proof.
  unfold scoreCardsIn. assert (∀ l s acc,
    foldl (λ '(score, scoreCards) c, if cardScore c =? 0 then (score, scoreCards) else (u32 (score + cardScore c), scoreCards ++ [c])) (u32 s, acc) l
    = (u32 (s + scoreOf l), acc ++ filter (λ c, cardScore c ≠ 0) l)) as H.
  { induction l as [|c l IH]; intros s acc; [by rewrite Z.add_0_r, app_nil_r|]. cbn [foldl]. rewrite scoreOf_cons, filter_cons.
    destruct (Z.eqb_spec (cardScore c) 0) as [E|E].
    - rewrite IH, E, decide_False by tauto. done.
    - rewrite u32_add, IH, decide_True by done. rewrite <- app_assoc. do 2 f_equal. lia. }
  apply (H cards 0 []).
Qed.

Lemma scoreOf_scoring cards : scoreOf (filter (λ c, cardScore c ≠ 0) cards) = scoreOf cards.
Proof.
  induction cards as [|c cards IH]; [done|]. rewrite filter_cons, scoreOf_cons. case_decide; rewrite ?scoreOf_cons; lia.
Qed.

(** ** Properties *)

(** C24. The classifier, which counts values in an array, recognises exactly the
    single cards, pairs, triples, three-with-two and bombs, whatever the order of
    the cards; and pressing, as the comparison decides it, is a strict order in
    which swapping the two sets negates the answer. *)
Theorem card_rules_sound :
  (∀ cards r, classifyCards cards = Some r ↔ ∃ vs, cardValue <$> cards ≡ₚ vs ∧ shape vs r)
  ∧ (∀ a b c, 0 < compareCardSets a b → 0 < compareCardSets b c → 0 < compareCardSets a c)
  ∧ (∀ a b, compareCardSets a b = - compareCardSets b a).
Proof.
  split_and!; [apply classify_shape| |apply compare_antisym].
  intros a b c. rewrite !compare_presses. intros (h & m & Ha & Hb & H1) (m' & l & Hb' & Hc & H2). simplify_eq.
  exists h, l. split_and!; [done..|]. by eapply presses_trans.
Qed.

(** * The card game: data, rules and configuration

    [src/examples/nhsk/commands.go] and [outputs.go]: requests, players and outputs
    of a battle for four seats; [rules.go]: the configuration and how it is read
    from the comma separated rule strings of the old system.

    An array [[4]T] indexed by seat is a [quad]. *)

(** ** Four seats *)

Record quad (A : Type) := mkQuad { q0 : A; q1 : A; q2 : A; q3 : A }.
Arguments mkQuad {A} _ _ _ _.
Arguments q0 {A} _.
Arguments q1 {A} _.
Arguments q2 {A} _.
Arguments q3 {A} _.
#[global] Instance quad_eq_dec {A} `{EqDecision A} : EqDecision (quad A).
Proof. solve_decision. Defined.

Definition qall {A} (x : A) : quad A := mkQuad x x x x.
Definition qlist {A} (q : quad A) : list A := [q0 q; q1 q; q2 q; q3 q].
(** [None] is an index out of range. *)
Definition qat {A} (q : quad A) (i : Z) : option A :=
  if i =? 0 then Some (q0 q) else if i =? 1 then Some (q1 q) else if i =? 2 then Some (q2 q)
  else if i =? 3 then Some (q3 q) else None.
Definition qset {A} (i : Z) (x : A) (q : quad A) : quad A :=
  if i =? 0 then mkQuad x (q1 q) (q2 q) (q3 q) else if i =? 1 then mkQuad (q0 q) x (q2 q) (q3 q)
  else if i =? 2 then mkQuad (q0 q) (q1 q) x (q3 q) else if i =? 3 then mkQuad (q0 q) (q1 q) (q2 q) x else q.
Definition qmap {A B} (f : A → B) (q : quad A) : quad B := mkQuad (f (q0 q)) (f (q1 q)) (f (q2 q)) (f (q3 q)).
Definition qget {A} (d : A) (q : quad A) (i : Z) : A := default d (qat q i).
(** The loop over the seats. *)
Definition qseats {A} (f : Z → A) : quad A := mkQuad (f 0) (f 1) (f 2) (f 3).
Definition seats : list Z := [0; 1; 2; 3].

Definition inSeats (i : Z) : Prop := 0 ≤ i < 4.

Lemma seat_cases i : inSeats i → i = 0 ∨ i = 1 ∨ i = 2 ∨ i = 3.
Proof. unfold inSeats. lia. Qed.
Ltac seat_split H := destruct (seat_cases _ H) as [?|[?|[?|?]]]; subst.

Lemma qat_in {A} (q : quad A) i : inSeats i → ∃ x, qat q i = Some x.
Proof. intros H. seat_split H; by eexists. Qed.
Lemma qat_qset {A} i (x : A) q : inSeats i → qat (qset i x q) i = Some x.
Proof. intros H. by seat_split H. Qed.
Lemma qat_qset_ne {A} i j (x : A) q : i ≠ j → qat (qset i x q) j = qat q j.
Proof. intros H. unfold qat, qset. repeat case_match; bool_prop; try done; lia. Qed.
Lemma qat_qseats {A} (f : Z → A) i : inSeats i → qat (qseats f) i = Some (f i).
Proof. intros H. by seat_split H. Qed.
Lemma qget_qseats {A} d (f : Z → A) i : inSeats i → qget d (qseats f) i = f i.
Proof. intros H. unfold qget. by rewrite qat_qseats. Qed.
Lemma elem_of_seats i : i ∈ seats ↔ inSeats i.
Proof. unfold seats, inSeats. rewrite !elem_of_cons, elem_of_nil. lia. Qed.

(** ** Configuration *)

Record NHSKConfig := mkNHSKConfig {
  MsFirstOutCard : Duration; MsOutCard : Duration; MsOutCardRobot : Duration; MsAITimeout : Duration;
  OfflineAutoUsesAI : bool; TimeoutAutoMove : bool; RobotLevel : Z; AutoSettlementMinCount : Z;
  AutoSettlementRatioFactor : Z; SingleCountToSwap : Z
}.
#[global] Instance NHSKConfig_eq_dec : EqDecision NHSKConfig.
Proof. solve_decision. Defined.

Definition Second : Duration := 10 ^ 9.
Definition Millisecond : Duration := 10 ^ 6.

Definition DefaultNHSKConfig : NHSKConfig :=
  mkNHSKConfig (10 * Second) (10 * Second) Second (6 * Second) false true 2 (-1) (-1) 4.

(** [strings.IndexByte] and the slice before it, then [strings.Split]. *)
Definition splitRule (rule : string) : list string :=
  string_of <$> splitAt x2c (match splitAt x3b (bytes_of rule) with f :: _ => f | [] => [] end).

(** [strconv.Atoi]: an optional sign and decimal digits, within 64 bits. *)
Definition Atoi (s : string) : option Z :=
  let parse (neg : bool) (l : list byte) :=
    if bool_decide (l = []) || negb (forallb isDigit l) then None
    else let v := if neg then - digitsValue l else digitsValue l in
         if (- 2 ^ 63 <=? v) && (v <? 2 ^ 63) then Some v else None in
  match bytes_of s with
  | b :: l => if bool_decide (b = x2d) then parse true l else if bool_decide (b = x2b) then parse false l else parse false (b :: l)
  | [] => None
  end.

Definition ruleInt (values : list string) (index : Z) : option Z :=
  if (index <? 0) || (Z.of_nat (length values) <=? index) then None
  else match values !! Z.to_nat index with Some v => Atoi (TrimSpace v) | None => None end.

Definition normalizeNHSKConfig (baseRule gameRule : string) : NHSKConfig :=
  let base := splitRule baseRule in
  let game := splitRule gameRule in
  let d := DefaultNHSKConfig in
  mkNHSKConfig (MsFirstOutCard d) (MsOutCard d) (MsOutCardRobot d) (MsAITimeout d)
    (from_option (λ v, negb (v =? 0)) (OfflineAutoUsesAI d) (ruleInt base 1))
    (from_option (λ v, 0 <? v) (TimeoutAutoMove d) (ruleInt base 6))
    (default (RobotLevel d) (ruleInt base 22))
    (default (AutoSettlementMinCount d) (ruleInt game 0))
    (default (AutoSettlementRatioFactor d) (ruleInt game 1))
    (default (SingleCountToSwap d) (ruleInt game 3)).

Record ReplayRuleSnapshot := mkReplayRules {
  TimeOutOver : bool; VoiceMode : bool; RandomSeatRoundStart : bool; GameNumToRandomSeat : Z
}.
#[global] Instance ReplayRuleSnapshot_eq_dec : EqDecision ReplayRuleSnapshot.
Proof. solve_decision. Defined.

Definition normalizeReplayRuleSnapshot (baseRule : string) : ReplayRuleSnapshot :=
  let base := splitRule baseRule in
  mkReplayRules (from_option (λ v, negb (v =? 0)) false (ruleInt base 49))
    (from_option (λ v, negb (v =? 0)) false (ruleInt base 38))
    (from_option (λ v, 0 <? v) false (ruleInt base 15)) (default 0 (ruleInt base 11)).

Definition outCardTimeout (c : NHSKConfig) : Duration := if MsOutCard c <=? 0 then MsOutCard DefaultNHSKConfig else MsOutCard c.
Definition firstOutCardTimeout (c : NHSKConfig) : Duration := if MsFirstOutCard c <=? 0 then outCardTimeout c else MsFirstOutCard c.

(** ** Requests *)

Record BattleIdentity := mkIdentity { idBattle : BattleID; idProduct : Z; idMatch : Z; idRound : Z; idRoundUniCode : string }.
#[global] Instance BattleIdentity_eq_dec : EqDecision BattleIdentity.
Proof. solve_decision. Defined.
Record ReplayMetadata := mkMetadata {
  MatchName : string; GameType : Z; ScoreType : Z; ScoreMode : Z; mdRoomID : Z; CreatorID : Z
}.
#[global] Instance ReplayMetadata_eq_dec : EqDecision ReplayMetadata.
Proof. solve_decision. Defined.

Record InitializeBattleRequest := mkInitialize {
  inIdentity : BattleIdentity; inMaxGameNum : Z; inMaxSubgameNum : Z; inFee : Z; inScoreBase : Z; inScoreDenominator : Z;
  inReplayMetadata : ReplayMetadata; inReplayRules : ReplayRuleSnapshot; inRules : option NHSKConfig
}.

Record BattlePlayer := mkPlayer {
  bpPlayer : PlayerID; bpUserID : Z; bpSeatID : Z; bpScore : Z; bpExp : Z; bpPlayerState : Z; bpNickname : string;
  bpClientID : Z; bpDress : string; bpAutomated : bool; bpExited : bool; bpIsBreak : bool; bpIsSeal : bool
}.
#[global] Instance BattlePlayer_eq_dec : EqDecision BattlePlayer.
Proof. solve_decision. Defined.
(** The zero value, which a map lookup of an unknown player yields. *)
Definition zeroPlayer : BattlePlayer := mkPlayer "" 0 0 0 0 0 "" 0 "" false false false false.
Definition setFlags (isBreak isSeal : bool) (dress : string) (p : BattlePlayer) : BattlePlayer :=
  mkPlayer (bpPlayer p) (bpUserID p) (bpSeatID p) (bpScore p) (bpExp p) (bpPlayerState p) (bpNickname p) (bpClientID p) dress
    (bpAutomated p) (bpExited p) isBreak isSeal.
Definition setExited (p : BattlePlayer) : BattlePlayer :=
  mkPlayer (bpPlayer p) (bpUserID p) (bpSeatID p) (bpScore p) (bpExp p) (bpPlayerState p) (bpNickname p) (bpClientID p) (bpDress p)
    (bpAutomated p) true (bpIsBreak p) (bpIsSeal p).
Definition setScore (score : Z) (p : BattlePlayer) : BattlePlayer :=
  mkPlayer (bpPlayer p) (bpUserID p) (bpSeatID p) score (bpExp p) (bpPlayerState p) (bpNickname p) (bpClientID p) (bpDress p)
    (bpAutomated p) (bpExited p) (bpIsBreak p) (bpIsSeal p).

Record UpdateRoundContextRequest := mkRoundContext { SecRoundTotal : Z; SecRoundUsed : Z; RoomInfo : string }.

Record SettlementGain := mkGain { PayTeamID : Z; GainTeamID : Z; gScore : Z }.
Record SettlementPlayerResult := mkPlayerResult { prPlayerID : Z; prFlag : Z; prScore : Z; prExp : Z; prTeamID : Z }.
Record CompleteSettlementRequest := mkComplete {
  csSuccess : bool; csResultType : Z; csTeamCount : Z; csGains : list SettlementGain; csPlayers : list SettlementPlayerResult
}.

(** ** Results *)

Inductive GameOverReason := GameOverReasonSuccess | GameOverReasonEscape | GameOverReasonOffline | GameOverReasonException | GameOverReasonDissolve.
Inductive SubgameResult := SubgameResultSingle | SubgameResultDouble | SubgameResultPeace.
Inductive PlayerOutcome := PlayerOutcomeWin | PlayerOutcomeLoss | PlayerOutcomePeace.
#[global] Instance GameOverReason_eq_dec : EqDecision GameOverReason.
Proof. solve_decision. Defined.
#[global] Instance SubgameResult_eq_dec : EqDecision SubgameResult.
Proof. solve_decision. Defined.
#[global] Instance PlayerOutcome_eq_dec : EqDecision PlayerOutcome.
Proof. solve_decision. Defined.

Record SettlementRequestOutput := mkSettlementRequest {
  soResultType : Z; soTeamCount : Z; soGains : list SettlementGain; soPlayers : list SettlementPlayerResult;
  soNoScoreBase : bool; soNoCheckSeal : bool; soNoRecharge : bool; soLevelScoreType : Z
}.
