(* ===== verification/NhskSettlement.v ===== *)
(** * Results and settlements of a subgame

    [src/examples/nhsk/settlement.go]: who wins a subgame and by how much, and the
    matrix of payments that is sent to the settlement system; with it the check of
    the answer, [settlementPlan] of [battle.go].

    A team is two opposite seats.  The multiples of a result always sum to zero,
    whoever played automatically ([multiples_zero_sum]), the matrix pays exactly the
    multiples, and an answer that confirms the matrix yields them as scores
    ([settlement_confirms]). *)

From stdpp Require Import prelude gmap strings list.
From Stdlib Require Import ZArith Lia.
From S2P Require Import Prelude Types Game NhskCards.

Local Open Scope Z_scope.
Local Open Scope go_scope.

Definition settlementFlagWin : Z := 0.
Definition settlementFlagLose : Z := 1.
Definition settlementFlagDraw : Z := 2.
Definition settlementFlagAsAuto : Z := 16.
Definition settlementFlagSeal : Z := 256.
Definition settlementFlagBreak : Z := 512.

Record subgameResultSnapshot := mkResult {
  rsReason : GameOverReason; rsResult : SubgameResult; rsWinningTeam : Z; rsMultiples : quad Z; rsOutcomes : quad PlayerOutcome;
  rsPoints : quad Z; rsRanks : quad Z; rsAutomated : quad bool
}.
(** [subgameResultSnapshot{}] *)
Definition zeroResult : subgameResultSnapshot :=
  mkResult GameOverReasonSuccess SubgameResultSingle 0 (qall 0) (qall PlayerOutcomeWin) (qall 0) (qall 0) (qall false).

(** [uint16] and [int32] arithmetic. *)
Definition u16 (z : Z) : Z := z mod 2 ^ 16.
Definition i32 (z : Z) : Z := (z + 2 ^ 31) mod 2 ^ 32 - 2 ^ 31.

(** The category and the winning team, from the ranks (4 for a seat that did not
    finish) and the captured points.  The sums of two ranks are [uint8] sums; ranks are
    at most 4, so they do not wrap and are written as sums of integers. *)
Definition decideWinner (ranks points : quad Z) : SubgameResult * Z :=
  let rankAt := qget 4 ranks in
  let pointAt := qget 0 points in
  let first := if (rankAt 1 =? 1) || (rankAt 3 =? 1) then 1 else 0 in
  let winner := first `mod` 2 in
  let loser := (first + 1) `mod` 2 in
  if (rankAt 0 + rankAt 2 =? 3) || (rankAt 1 + rankAt 3 =? 3) then (SubgameResultDouble, winner)
  else if (rankAt ((first + 2) `mod` 4) =? 3) || (rankAt first =? 3) then
    let second := if rankAt (first + 1) =? 2 then first + 1 else (first + 3) `mod` 4 in
    if pointAt second =? 200 then (SubgameResultDouble, loser)
    else if u16 (pointAt first + pointAt ((first + 2) `mod` 4)) =? 200 then (SubgameResultDouble, winner)
    else if pointAt second <? 105 then (SubgameResultSingle, winner)
    else (SubgameResultSingle, loser)
  else
    let second := if rankAt first =? 1 then first else (first + 2) `mod` 4 in
    if pointAt second =? 200 then (SubgameResultDouble, winner)
    else if u16 (pointAt (first + 1) + pointAt ((first + 3) `mod` 4)) =? 200 then (SubgameResultDouble, loser)
    else if u16 (pointAt ((first + 2) `mod` 4) + pointAt first) <? 100 then (SubgameResultSingle, loser)
    else (SubgameResultSingle, winner).

(** The loop that charges a player who played automatically for the partner; the
    multiples are read in the order in which the loop writes them, but it only reads
    the seat it writes. *)
Definition chargeAutomated (unit : Z) (automated : quad bool) (multiples : quad Z) : quad Z :=
  qseats (λ seat,
    let m := qget 0 multiples seat in
    let mine := qget false automated seat in
    let partner := qget false automated ((seat + 2) `mod` 4) in
    if mine && partner then m
    else if mine && (m <? 0) then i32 (m - unit)
    else if partner && (m <? 0) then 0 else m).

Definition outcomeOf (score : Z) : PlayerOutcome :=
  if 0 <? score then PlayerOutcomeWin else if score <? 0 then PlayerOutcomeLoss else PlayerOutcomePeace.

Definition calculateSubgameResult (reason : GameOverReason) (ranks points : quad Z) (automated : quad bool) : subgameResultSnapshot :=
  let ranks := qmap (λ r, if r =? 0 then 4 else r) ranks in
  if bool_decide (reason ≠ GameOverReasonSuccess)
  then mkResult reason SubgameResultPeace 0 (qall 0) (qall PlayerOutcomePeace) points ranks automated
  else
    let '(result, winner) := decideWinner ranks points in
    let unit := if bool_decide (result = SubgameResultDouble) then 2 else 1 in
    let multiples := qset ((winner + 3) `mod` 4) (- unit) (qset ((winner + 1) `mod` 4) (- unit)
                       (qset ((winner + 2) `mod` 4) unit (qset winner unit (qall 0)))) in
    let multiples := chargeAutomated unit automated multiples in
    mkResult reason result winner multiples (qmap outcomeOf multiples) points ranks automated.

(** Rows pay, columns gain. *)
Definition matrix : Type := quad (quad Z).
Definition entry (m : matrix) (i j : Z) : Z := qget 0 (qget (qall 0) m i) j.
Definition setEntry (i j v : Z) (m : matrix) : matrix := qset i (qset j v (qget (qall 0) m i)) m.

Definition resultScoreMatrix (r : subgameResultSnapshot) : matrix :=
  let m := qall (qall 0) in
  if bool_decide (rsResult r = SubgameResultPeace) || (1 <? rsWinningTeam r) then m
  else
    let winner := rsWinningTeam r in
    let loser := 1 - winner in
    let at_ := qget 0 (rsMultiples r) in
    let unit := at_ winner in
    let m := if at_ loser =? 0 then m else setEntry loser winner unit m in
    let m := setEntry loser (winner + 2) (- at_ loser - entry m loser winner) m in
    let m := if at_ (loser + 2) =? 0 then m else setEntry (loser + 2) (winner + 2) unit m in
    setEntry (loser + 2) winner (- at_ (loser + 2) - entry m (loser + 2) (winner + 2)) m.

Definition pairs : list (Z * Z) := i ← seats; j ← seats; [(i, j)].

Definition settlementFlag (r : subgameResultSnapshot) (seat : Z) : Z :=
  let flag := match qget PlayerOutcomePeace (rsOutcomes r) seat with
              | PlayerOutcomeWin => settlementFlagWin | PlayerOutcomeLoss => settlementFlagLose | PlayerOutcomePeace => settlementFlagDraw
              end in
  if qget false (rsAutomated r) seat then Z.lor flag settlementFlagAsAuto else flag.

Definition buildSettlementRequest (r : subgameResultSnapshot) (players : quad BattlePlayer) : SettlementRequestOutput :=
  let m := resultScoreMatrix r in
  let gains := omap (λ '(pay, gain), if 0 <? entry m pay gain then Some (mkGain pay gain (entry m pay gain)) else None) pairs in
  let player (seat : Z) :=
    let p := qget zeroPlayer players seat in mkPlayerResult (bpUserID p) (settlementFlag r seat) 0 (bpExp p) seat in
  mkSettlementRequest 1 4 gains (player <$> seats) false false false 1.

(** ** The answer of the settlement system *)

Record settlementPlan := mkPlan { plScores : quad Z; plIsBreak : quad bool; plIsSeal : quad bool; plFailed : bool }.

(** The user of each seat; [None] when a seat is empty, a user is zero or one user
    sits twice. *)
Fixpoint playerSeats (l : list (Z * option BattlePlayer)) (acc : gmap Z Z) : res string (gmap Z Z) :=
  match l with
  | [] => Ok acc
  | (seat, None) :: _ => Err "settlement Battle player"
  | (seat, Some p) :: l =>
      if bool_decide (bpPlayer p = "") then Err "settlement Battle player"
      else if bpUserID p =? 0 then Err "settlement player identity"
      else match acc !! bpUserID p with
           | Some _ => Err "duplicate settlement identity"
           | None => playerSeats l (<[bpUserID p := seat]> acc)
           end
  end.

(** The loop over the answered players, with those already seen. *)
Fixpoint planPlayers (userSeats : gmap Z Z) (l : list SettlementPlayerResult) (seen : gset Z) (plan : settlementPlan)
  : res string (gset Z * settlementPlan) :=
  match l with
  | [] => Ok (seen, plan)
  | r :: l =>
      match userSeats !! prPlayerID r with
      | None => Err "settlement player/team"
      | Some seat =>
          if bool_decide (prTeamID r ≠ seat) then Err "settlement player/team"
          else if bool_decide (prPlayerID r ∈ seen) then Err "duplicate settlement player"
          else planPlayers userSeats l ({[prPlayerID r]} ∪ seen)
                 (mkPlan (plScores plan) (qset seat (negb (Z.land (prFlag r) settlementFlagBreak =? 0)) (plIsBreak plan))
                    (qset seat (negb (Z.land (prFlag r) settlementFlagSeal =? 0)) (plIsSeal plan)) (plFailed plan))
      end
  end.

(** The loop over the transfers; the totals are 64-bit. *)
Fixpoint planGains (l : list SettlementGain) (seen : gset (Z * Z)) (totals : quad Z) : res string (quad Z) :=
  match l with
  | [] => Ok totals
  | g :: l =>
      if (gScore g <=? 0) || (4 <=? PayTeamID g) || (4 <=? GainTeamID g) || (PayTeamID g =? GainTeamID g)
      then Err "settlement gain"
      else if bool_decide ((PayTeamID g, GainTeamID g) ∈ seen) then Err "duplicate settlement gain"
      else
        let totals := qset (PayTeamID g) (i64 (qget 0 totals (PayTeamID g) - gScore g)) totals in
        planGains l ({[(PayTeamID g, GainTeamID g)]} ∪ seen)
          (qset (GainTeamID g) (i64 (qget 0 totals (GainTeamID g) + gScore g)) totals)
  end.

Definition fits32 (v : Z) : bool := (- 2 ^ 31 <=? v) && (v <=? 2 ^ 31 - 1).

Definition planSettlement (seated : quad (option BattlePlayer)) (r : CompleteSettlementRequest) : res string settlementPlan :=
  if negb (csSuccess r) then Ok (mkPlan (qall 0) (qall false) (qall false) true)
  else if negb (csTeamCount r =? 4) || negb (Z.of_nat (length (csPlayers r)) =? 4) then Err "settlement player matrix"
  else
    let! userSeats := playerSeats (zip seats (qlist seated)) ∅ in
    let! (seen, plan) := planPlayers userSeats (csPlayers r) ∅ (mkPlan (qall 0) (qall false) (qall false) false) in
    if negb (Z.of_nat (size seen) =? Z.of_nat (size userSeats)) then Err "incomplete settlement players"
    else
      let! totals := planGains (csGains r) ∅ (qall 0) in
      if forallb fits32 (qlist totals) then Ok (mkPlan totals (plIsBreak plan) (plIsSeal plan) (plFailed plan))
      else Err "settlement score overflow".

(** ** Lemmas *)

Definition qsum (q : quad Z) : Z := q0 q + q1 q + q2 q + q3 q.

Lemma decideWinner_range ranks points :
  let '(result, winner) := decideWinner ranks points in
  (result = SubgameResultSingle ∨ result = SubgameResultDouble) ∧ (winner = 0 ∨ winner = 1).
Proof.
  unfold decideWinner. cbv zeta. set (first := if _ || _ then 1 else 0).
  assert (first = 0 ∨ first = 1) as Hf by (unfold first; case_match; lia). clearbody first.
  assert (first `mod` 2 = 0 ∨ first `mod` 2 = 1) as H1 by (destruct Hf as [->| ->]; [by left|by right]).
  assert ((first + 1) `mod` 2 = 0 ∨ (first + 1) `mod` 2 = 1) as H2 by (destruct Hf as [->| ->]; [by right|by left]).
  repeat case_match; simplify_eq; (split; [first [by left|by right]|done]).
Qed.

(** The multiples, by winner, unit and who played automatically. *)
Lemma multiples_cases ranks points automated :
  let r := calculateSubgameResult GameOverReasonSuccess ranks points automated in
  ∃ winner unit result, (winner = 0 ∨ winner = 1) ∧ (unit = 1 ∨ unit = 2) ∧ result ≠ SubgameResultPeace
    ∧ rsResult r = result ∧ rsWinningTeam r = winner
    ∧ rsMultiples r = chargeAutomated unit automated
        (if winner =? 0 then mkQuad unit (- unit) unit (- unit) else mkQuad (- unit) unit (- unit) unit)
    ∧ rsOutcomes r = qmap outcomeOf (rsMultiples r) ∧ rsAutomated r = automated.
Proof.
  unfold calculateSubgameResult. rewrite bool_decide_false by tauto. cbv zeta.
  pose proof (decideWinner_range (qmap (λ r, if r =? 0 then 4 else r) ranks) points) as H.
  destruct decideWinner as [result winner]. destruct H as [Hr Hw]. cbn [rsResult rsWinningTeam rsMultiples rsOutcomes rsAutomated].
  exists winner, (if bool_decide (result = SubgameResultDouble) then 2 else 1), result.
  split_and!; [done|case_bool_decide; lia|by destruct Hr as [->| ->]|done..| |done|done].
  f_equal. by destruct Hw as [->| ->].
Qed.

(** Every case in turn: two winners, two units, sixteen ways to play automatically. *)
Ltac result_cases automated :=
  destruct automated as [[] [] [] []].

Lemma multiples_zero_sum ranks points automated : qsum (rsMultiples (calculateSubgameResult GameOverReasonSuccess ranks points automated)) = 0.
Proof.
  destruct (multiples_cases ranks points automated) as (w & u & x & Hw & Hu & _ & _ & _ & -> & _).
  destruct Hw as [->| ->], Hu as [->| ->]; result_cases automated; vm_compute; reflexivity.
Qed.

(** Four players with users that are not zero and differ. *)
Definition seatedWell (players : quad BattlePlayer) : Prop :=
  Forall (λ p, bpPlayer p ≠ "" ∧ bpUserID p ≠ 0) (qlist players) ∧ NoDup (bpUserID <$> qlist players).

(** What a settlement system answers that applied the request as it is. *)
Definition confirm (o : SettlementRequestOutput) : CompleteSettlementRequest :=
  mkComplete true (soResultType o) (soTeamCount o) (soGains o) (soPlayers o).

(** The seats of four distinct users, however they are looked up. *)
Lemma playerSeats_ok players : seatedWell players →
  ∃ m, playerSeats (zip seats (qlist (qmap Some players))) ∅ = Ok m ∧ size m = 4%nat
       ∧ ∀ seat, inSeats seat → m !! bpUserID (qget zeroPlayer players seat) = Some seat.
Proof.
  destruct players as [a b c d]. intros [Hp Hn]. unfold qlist, qmap in *. cbn [q0 q1 q2 q3 zip zip_with seats playerSeats fmap list_fmap] in *.
  repeat match goal with H : Forall _ (_ :: _) |- _ => apply Forall_cons in H as [[? ?] H] end.
  repeat match goal with H : NoDup (_ :: _) |- _ => apply NoDup_cons in H as [? H] end.
  repeat match goal with H : _ ∉ _ :: _ |- _ => apply not_elem_of_cons in H as [? ?] end.
  rewrite !bool_decide_false by done. rewrite !(proj2 (Z.eqb_neq _ 0)) by done.
  rewrite lookup_empty, !lookup_insert_ne, lookup_empty by congruence. eexists. split; [done|]. split.
  - rewrite !map_size_insert_None; [done|..]; rewrite ?lookup_insert_ne by congruence; try apply lookup_empty.
  - intros seat Hs. seat_split Hs; unfold qget, qat; simpl; rewrite ?lookup_insert_ne by congruence; apply lookup_insert_eq.
Qed.

(** Players answered in the order of their seats, none of them blocked. *)
Lemma planPlayers_ok players m (flag : Z → Z) exp plan : seatedWell players →
  (∀ seat, inSeats seat → m !! bpUserID (qget zeroPlayer players seat) = Some seat) →
  (∀ seat, inSeats seat → Z.land (flag seat) settlementFlagBreak = 0 ∧ Z.land (flag seat) settlementFlagSeal = 0) →
  ∃ seen, planPlayers m ((λ seat, mkPlayerResult (bpUserID (qget zeroPlayer players seat)) (flag seat) 0 (exp seat) seat) <$> seats) ∅ plan
          = Ok (seen, mkPlan (plScores plan) (qall false) (qall false) (plFailed plan)) ∧ size seen = 4%nat.
Proof.
  intros [_ Hn] Hm Hf. cbn [seats fmap list_fmap planPlayers prPlayerID prTeamID prFlag].
  pose proof (Hf 0 ltac:(unfold inSeats; lia)) as [H0 H0']. pose proof (Hf 1 ltac:(unfold inSeats; lia)) as [H1 H1'].
  pose proof (Hf 2 ltac:(unfold inSeats; lia)) as [H2 H2']. pose proof (Hf 3 ltac:(unfold inSeats; lia)) as [H3 H3'].
  rewrite !Hm by (unfold inSeats; lia). rewrite (bool_decide_false (0 ≠ 0)), (bool_decide_false (1 ≠ 1)), (bool_decide_false (2 ≠ 2)), (bool_decide_false (3 ≠ 3)) by tauto.
  rewrite H0, H0', H1, H1', H2, H2', H3, H3'. clear -Hn. unfold qlist in Hn. cbn [fmap list_fmap] in Hn.
  change (qget zeroPlayer players 0) with (q0 players). change (qget zeroPlayer players 1) with (q1 players).
  change (qget zeroPlayer players 2) with (q2 players). change (qget zeroPlayer players 3) with (q3 players).
  repeat match goal with H : NoDup (_ :: _) |- _ => apply NoDup_cons in H as [? H] end.
  repeat match goal with H : _ ∉ _ :: _ |- _ => apply not_elem_of_cons in H as [? ?] end.
  rewrite !bool_decide_false by set_solver. eexists. split; [reflexivity|].
  rewrite !size_union, !size_singleton, size_empty by set_solver. done.
Qed.

(** The transfers of a result add up to its multiples. *)
Lemma planGains_result ranks points automated players :
  let r := calculateSubgameResult GameOverReasonSuccess ranks points automated in
  planGains (soGains (buildSettlementRequest r players)) ∅ (qall 0) = Ok (rsMultiples r)
  ∧ forallb fits32 (qlist (rsMultiples r)) = true.
Proof.
  intros r. destruct (multiples_cases ranks points automated) as (w & u & x & Hw & Hu & Hx & Er & Ew & Em & _).
  fold r in Er, Ew, Em. unfold buildSettlementRequest, resultScoreMatrix. cbn [soGains]. rewrite Er, Ew, Em, bool_decide_false by done.
  destruct Hw as [->| ->], Hu as [->| ->]; result_cases automated; vm_compute; split; reflexivity.
Qed.

(** ** Properties *)

(** C26. The settlement of a finished subgame is conserved from end to end: the
    multiples of its result sum to zero whoever played automatically; the request
    built from them is accepted when the settlement system confirms it, and the
    scores it yields are exactly the multiples of the result, with nobody marked
    broken or sealed. *)
Theorem settlement_confirms ranks points automated players :
  seatedWell players →
  let r := calculateSubgameResult GameOverReasonSuccess ranks points automated in
  qsum (rsMultiples r) = 0
  ∧ planSettlement (qmap Some players) (confirm (buildSettlementRequest r players))
    = Ok (mkPlan (rsMultiples r) (qall false) (qall false) false).
Proof.
  intros Hp r. split; [apply multiples_zero_sum|]. destruct (playerSeats_ok players Hp) as (m & Hm & Hsize & Hseat).
  destruct (planGains_result ranks points automated players) as [Hg Hfit]. fold r in Hg, Hfit.
  unfold planSettlement, confirm. cbn [csSuccess csTeamCount csPlayers csGains negb].
  change (soTeamCount (buildSettlementRequest r players)) with 4.
  replace (negb (4 =? 4) || negb (Z.of_nat (length (soPlayers (buildSettlementRequest r players))) =? 4)) with false by done.
  rewrite Hm. cbn [res_bind].
  destruct (planPlayers_ok players m (settlementFlag r) (λ seat, bpExp (qget zeroPlayer players seat)) (mkPlan (qall 0) (qall false) (qall false) false) Hp Hseat) as (seen & Hs & Hs4).
  2: { refine (eq_trans (f_equal (res_bind _) Hs) _). cbn [res_bind plIsBreak plIsSeal plFailed]. rewrite Hs4, Hsize. replace (negb (Z.of_nat 4 =? Z.of_nat 4)) with false by done.
       rewrite Hg. cbn [res_bind]. by rewrite Hfit. }
  intros seat Hin. unfold settlementFlag. split; (destruct (qget PlayerOutcomePeace (rsOutcomes r) seat), (qget false (rsAutomated r) seat); reflexivity).
Qed.

Definition samplePlayer (player : PlayerID) (seat : Z) : BattlePlayer :=
  mkPlayer player (1001 + seat) seat 0 0 0 "" 0 "" false false false false.
Definition samplePlayers : quad BattlePlayer :=
  mkQuad (samplePlayer "east" 0) (samplePlayer "south" 1) (samplePlayer "west" 2) (samplePlayer "north" 3).

Lemma settlement_confirms_witness :
  planSettlement (qmap Some samplePlayers)
    (confirm (buildSettlementRequest (calculateSubgameResult GameOverReasonSuccess (mkQuad 1 2 3 0) (mkQuad 60 40 50 50) (mkQuad false true false false)) samplePlayers))
  = Ok (mkPlan (mkQuad 1 (-2) 1 0) (qall false) (qall false) false).
Proof.
  refine (proj2 (settlement_confirms (mkQuad 1 2 3 0) (mkQuad 60 40 50 50) (mkQuad false true false false) samplePlayers _)).
  split; [repeat constructor; discriminate|]. apply (bool_decide_unpack (NoDup _)). vm_compute. exact I.
Defined.

Lemma i64_mod z : ∃ k, i64 z = z + k * 2 ^ 64.
Proof.
  exists (- ((z + 2 ^ 63) / 2 ^ 64)). unfold i64. rewrite Z.mod_eq by done. lia.
Qed.

Lemma planGains_conserves l : ∀ seen totals totals',
  Forall (λ g, 0 ≤ PayTeamID g ∧ 0 ≤ GainTeamID g) l →
  planGains l seen totals = Ok totals' → ∃ k, qsum totals' = qsum totals + k * 2 ^ 64.
Proof.
  induction l as [|g l IH]; intros seen totals totals' Hl H; simpl in H; [injection H as <-; exists 0; lia|].
  apply Forall_cons in Hl as [[Hp Hg] Hl]. destruct (_ || _) eqn:Hv in H; [discriminate|]. bool_prop.
  case_bool_decide; [discriminate|]. apply IH in H as [k ->]; [|done].
  assert (inSeats (PayTeamID g)) as Sp by (unfold inSeats; lia). assert (inSeats (GainTeamID g)) as Sg by (unfold inSeats; lia).
  destruct (i64_mod (qget 0 totals (PayTeamID g) - gScore g)) as [k1 ->].
  set (t1 := qset _ _ totals). destruct (i64_mod (qget 0 t1 (GainTeamID g) + gScore g)) as [k2 ->].
  exists (k + k1 + k2). unfold t1. clear -H0 Sp Sg.
  destruct (seat_cases _ Sp) as [E|[E|[E|E]]], (seat_cases _ Sg) as [E'|[E'|[E'|E']]]; rewrite E, E' in *; try done;
    unfold qsum, qget, qat, qset; simpl; lia.
Qed.

(** Whatever the settlement system answers, scores that are applied sum to zero
    and fit into 32 bits: totals are formed in 64 bits and checked before they are
    narrowed. *)
Theorem settlement_plan_conserves seated r plan :
  Forall (λ g, 0 ≤ PayTeamID g ∧ 0 ≤ GainTeamID g) (csGains r) →
  planSettlement seated r = Ok plan →
  qsum (plScores plan) = 0 ∧ Forall (λ v, - 2 ^ 31 ≤ v < 2 ^ 31) (qlist (plScores plan)).
Proof.
  intros Hg. unfold planSettlement. destruct (csSuccess r); cbn [negb]; [|intros [= <-]; split; [done|repeat constructor; simpl; lia]].
  destruct (negb (csTeamCount r =? 4) || _); [done|]. destruct playerSeats as [m|]; [|done]. cbn [res_bind].
  destruct planPlayers as [[seen p]|]; [|done]. cbn [res_bind]. destruct (negb (_ =? Z.of_nat (size m))); [done|].
  destruct (planGains (csGains r) ∅ (qall 0)) as [totals|] eqn:Ht; [|done]. cbn [res_bind].
  apply planGains_conserves in Ht as [k Ht]; [|done]. change (qsum (qall 0)) with 0 in Ht.
  destruct totals as [a b c d]. unfold qlist, fits32. cbn [q0 q1 q2 q3 forallb].
  destruct (_ && _) eqn:Hf; [|by intros [=]]. intros [= <-]. bool_prop. unfold qsum in *. cbn [q0 q1 q2 q3 plScores] in *.
  split; [lia|]. repeat (apply Forall_cons_2; [lia|]). apply Forall_nil_2.
Qed.

Lemma settlement_plan_conserves_witness :
  qsum (plScores (mkPlan (mkQuad (-7) 3 4 0) (qall false) (qall false) false)) = 0.
Proof.
  refine (proj1 (settlement_plan_conserves (qmap Some samplePlayers)
    (mkComplete true 1 4 [mkGain 0 1 3; mkGain 0 2 4] ((λ seat, mkPlayerResult (1001 + seat) 0 0 0 seat) <$> seats)) _ _ _)).
  - repeat constructor; simpl; discriminate.
  - vm_compute. reflexivity.
Defined.
