(* ===== verification/NhskDeal.v ===== *)
(** * Dealing

    The deal of [src/examples/nhsk/battle.go]: the double deck, its shuffle, the
    adjustment that takes single cards out of a hand by exchanging them with other
    hands, and the distribution to the seats; and the hand operations
    [validateCards] and [removeCards].

    The adjustment loops while a hand has too many single cards; the exchange it
    makes takes at least one of them away, so the loop ends ([reduceSingles_fuel]),
    and it only ever exchanges two cards, so no card is lost or made up
    ([deal_conserves]). *)

From stdpp Require Import prelude gmap strings list.
From Stdlib Require Import ZArith Lia Strings.Byte.
From S2P Require Import Prelude Types Bytes GoText Encoding Game NhskCards.

Local Open Scope Z_scope.

(** ** Hands *)

(** Take one card out of a hand: the first that equals it. *)
Fixpoint removeCard (c : card) (hand : list card) : option (list card) :=
  match hand with
  | [] => None
  | held :: hand => if held =? c then Some hand else cons held <$> removeCard c hand
  end.

(** The loop of [validateCards] over a copy of the hand. *)
Fixpoint takeAll (cards hand : list card) : option (list card) :=
  match cards with
  | [] => Some hand
  | c :: cards => match removeCard c hand with Some hand => takeAll cards hand | None => None end
  end.

Definition validateCards (hand cards : list card) : option cardPattern :=
  if numCards cards =? 0 then Some zeroPattern
  else match classifyCards cards with
       | None => None
       | Some pattern => match takeAll cards hand with Some _ => Some pattern | None => None end
       end.

(** A card that is not held is skipped. *)
Fixpoint removeCards (hand cards : list card) : list card :=
  match cards with
  | [] => hand
  | c :: cards => removeCards (default hand (removeCard c hand)) cards
  end.

Lemma removeCard_perm c hand hand' : removeCard c hand = Some hand' → hand ≡ₚ c :: hand'.
Proof.
  revert hand'. induction hand as [|h hand IH]; intros hand' H; simpl in H; [done|]. destruct (Z.eqb_spec h c) as [->|_].
  - by injection H as <-.
  - apply fmap_Some in H as (k & Hk & ->). rewrite (IH _ Hk). apply Permutation_swap.
Qed.
Lemma takeAll_perm cards : ∀ hand hand', takeAll cards hand = Some hand' → hand ≡ₚ cards ++ hand' ∧ removeCards hand cards = hand'.
Proof.
  induction cards as [|c cards IH]; intros hand hand' H; simpl in *; [by injection H as ->|].
  destruct (removeCard c hand) as [k|] eqn:Hk; [|done]. simpl. destruct (IH _ _ H) as [IH1 IH2]. split; [|done].
  by rewrite (removeCard_perm _ _ _ Hk), IH1.
Qed.
(** A play that was validated is taken out of the hand, card by card. *)
Lemma validated_removed hand cards p : validateCards hand cards = Some p → hand ≡ₚ cards ++ removeCards hand cards.
Proof.
  unfold validateCards. destruct (numCards cards =? 0) eqn:Hn.
  { intros _. apply Z.eqb_eq in Hn. unfold numCards in Hn. by destruct cards. }
  destruct (classifyCards cards); [|done]. destruct (takeAll cards hand) as [k|] eqn:Hk; [|done]. intros _.
  destruct (takeAll_perm _ _ _ Hk) as [H ->]. done.
Qed.

(** The local choice of an automatic player: the smallest card by rank, then byte. *)
Definition smaller (candidate c : card) : bool :=
  let a := cardLogicValue (cardValue candidate) in
  let b := cardLogicValue (cardValue c) in
  (a <? b) || (a =? b) && (candidate <? c).
Definition smallestCard (hand : list card) : option card :=
  match hand with
  | [] => None
  | c :: hand => Some (foldl (λ c candidate, if smaller candidate c then candidate else c) c hand)
  end.

Lemma smallestCard_in hand c : smallestCard hand = Some c → c ∈ hand.
Proof.
  destruct hand as [|x hand]; [done|]. simpl. intros [= <-]. revert x. induction hand as [|y hand IH]; intros x; simpl; [set_solver|].
  destruct (smaller y x); specialize (IH); [specialize (IH y)|specialize (IH x)]; set_solver.
Qed.

(** ** The adjustment of a deal *)

Definition handOf (start n : nat) (cards : list card) : list card := take n (drop start cards).

Definition valueCount (cards : list card) (value : Z) : Z := Z.of_nat (length (filter (λ c, cardValue c = value) cards)).
Definition containsCardValue (cards : list card) (value : Z) : bool := 0 <? valueCount cards value.
(** [None] is -1. *)
Fixpoint findCardIndex (cards : list card) (c : card) : option nat :=
  match cards with
  | [] => None
  | x :: cards => if x =? c then Some 0%nat else S <$> findCardIndex cards c
  end.

(** The arrays [counts] and [first], by value. *)
Definition noteCard (table : list (Z * card)) (c : card) : list (Z * card) :=
  alter (λ '(n, first), (n + 1, if n =? 0 then c else first)) (Z.to_nat (cardValue c)) table.
Definition singleCards (cards : list card) : list card :=
  let table := foldl noteCard (replicate 16 (0, 0)) cards in
  omap (λ v, match table !! Z.to_nat v with Some (n, first) => if n =? 1 then Some first else None | None => None end) (seqZ 1 13).

Inductive search := Exchanged (cards : list card) | NoExchange | OutOfRange.

(** The innermost loop: the first card of another hand, by its index, that can be
    exchanged for [single]. *)
Fixpoint seekIndex (cards : list card) (start n : nat) (single : card) (indices : list nat) : search :=
  match indices with
  | [] => NoExchange
  | index :: indices =>
      let hand := handOf start n cards in
      match cards !! index with
      | None => OutOfRange
      | Some candidate =>
          if (cardValue candidate =? cardValue single) || negb (containsCardValue hand (cardValue candidate))
          then seekIndex cards start n single indices
          else match findCardIndex hand single with
               | None => seekIndex cards start n single indices
               | Some singleIndex =>
                   match cards !! (start + singleIndex)%nat with
                   | Some c => Exchanged (<[(start + singleIndex)%nat := candidate]> (<[index := c]> cards))
                   | None => OutOfRange
                   end
               end
      end
  end.

(** The loop over the other seats. *)
Fixpoint seekSeat (cards : list card) (seat n : nat) (single : card) (others : list nat) : search :=
  match others with
  | [] => NoExchange
  | other :: others =>
      if Nat.eqb other seat then seekSeat cards seat n single others
      else if Nat.ltb (length cards) (other * n + n) then OutOfRange
      else match seekIndex cards (seat * n) n single (seq (other * n) n) with
           | NoExchange => seekSeat cards seat n single others
           | r => r
           end
  end.

(** The loop over the single cards. *)
Fixpoint seekSingle (cards : list card) (playerNum seat n : nat) (singles : list card) : search :=
  match singles with
  | [] => NoExchange
  | single :: singles =>
      match seekSeat cards seat n single (seq 0 playerNum) with
      | NoExchange => seekSingle cards playerNum seat n singles
      | r => r
      end
  end.

(** The loop over one seat; the flag says that the whole function returned. *)
Fixpoint reduceSingles (fuel : nat) (cards : list card) (playerNum seat n : nat) (limit : Z) : list card * bool :=
  let singles := singleCards (handOf (seat * n) n cards) in
  if Z.of_nat (length singles) <=? limit then (cards, false)
  else match fuel with
       | O => (cards, true)
       | S fuel =>
           match seekSingle cards playerNum seat n singles with
           | Exchanged cards => reduceSingles fuel cards playerNum seat n limit
           | NoExchange => (cards, false)
           | OutOfRange => (cards, true)
           end
       end.

(** No hand has more than thirteen single cards. *)
Definition swapFuel : nat := 13.

Fixpoint swapSeats (cards : list card) (playerNum n : nat) (limit : Z) (seatList : list nat) : list card :=
  match seatList with
  | [] => cards
  | seat :: rest =>
      if Nat.ltb (length cards) (seat * n + n) then cards
      else let '(cards, returned) := reduceSingles swapFuel cards playerNum seat n limit in
           if returned then cards else swapSeats cards playerNum n limit rest
  end.

Definition swapSingleCards (cards : list card) (playerNum handCardCount : nat) (singleCountToSwap : Z) : list card :=
  if (Z.of_nat playerNum <=? 1) || (Z.of_nat handCardCount <=? 0) || (singleCountToSwap <=? 0) then cards
  else swapSeats cards playerNum handCardCount singleCountToSwap (seq 0 playerNum).

Definition adjustNewbieCards (cards : list card) (playerNum handCardCount newPlayerSeat : nat) : list card :=
  if (Z.of_nat playerNum <=? 0) || (Z.of_nat handCardCount <=? 0) || Nat.leb playerNum newPlayerSeat then cards
  else
    let start := (newPlayerSeat * handCardCount)%nat in
    if Nat.ltb (length cards) (start + handCardCount) then cards
    else
      let before := length (singleCards (handOf start handCardCount cards)) in
      let cards := swapSingleCards cards playerNum handCardCount 3 in
      let after := length (singleCards (handOf start handCardCount cards)) in
      if Nat.ltb before after then swapSingleCards cards playerNum handCardCount 4 else cards.

(** ** The deck *)

Definition oneDeck : list card := suit ← seqZ 0 4; value ← seqZ 1 13; [Z.lor (Z.shiftl suit 4) value].
Definition doubleDeck : list card := oneDeck ++ oneDeck.

(** [Shuffle]: the exchanges the random source asks for; an index out of range
    panics. *)
Fixpoint shuffle (swaps : list (nat * nat)) (deck : list card) : option (list card) :=
  match swaps with
  | [] => Some deck
  | (i, j) :: swaps =>
      match deck !! i, deck !! j with
      | Some x, Some y => shuffle swaps (<[i := y]> (<[j := x]> deck))
      | _, _ => None
      end
  end.

(** The hand of a seat: 26 cards from the offset of the seat behind the banker. *)
Definition dealDeck (bankerSeat : Z) (deck : list card) : quad (list card) :=
  qseats (λ seat, handOf (Z.to_nat ((seat - bankerSeat) `mod` 4) * 26) 26 deck).

(** ** Conservation *)

Lemma shuffle_perm swaps : ∀ deck deck', shuffle swaps deck = Some deck' → deck' ≡ₚ deck.
Proof.
  induction swaps as [|[i j] swaps IH]; intros deck deck' H; simpl in H; [by injection H as ->|].
  destruct (deck !! i) as [x|] eqn:Hi, (deck !! j) as [y|] eqn:Hj; try done. rewrite (IH _ _ H). by apply Permutation_insert_swap.
Qed.

Lemma findCardIndex_lookup cards c i : findCardIndex cards c = Some i → cards !! i = Some c.
Proof.
  revert i. induction cards as [|x cards IH]; intros i H; simpl in H; [done|]. destruct (Z.eqb_spec x c) as [->|_].
  - by injection H as <-.
  - apply fmap_Some in H as (k & Hk & ->). by apply IH.
Qed.
Lemma findCardIndex_in cards c : c ∈ cards → is_Some (findCardIndex cards c).
Proof.
  induction cards as [|x cards IH]; [inversion 1|]. intros Hc. simpl. destruct (Z.eqb_spec x c) as [->|Hne]; [done|].
  apply elem_of_cons in Hc as [->|Hc]; [done|]. destruct (IH Hc) as [k ->]. done.
Qed.

(** What an exchange is: the single card leaves the hand for a candidate of another
    value that the hand already holds. *)
Definition exchanges (start n : nat) (single : card) (cards cards' : list card) : Prop :=
  ∃ i index candidate, (start ≤ i < start + n)%nat ∧ (index < start ∨ start + n ≤ index)%nat
    ∧ cards !! i = Some single ∧ cards !! index = Some candidate
    ∧ cardValue candidate ≠ cardValue single ∧ containsCardValue (handOf start n cards) (cardValue candidate) = true
    ∧ cards' = <[i := candidate]> (<[index := single]> cards).

Lemma handOf_lookup start n cards i : (i < n)%nat → handOf start n cards !! i = cards !! (start + i)%nat.
Proof. intros H. unfold handOf. rewrite lookup_take_lt by done. apply lookup_drop. Qed.

Lemma seekIndex_exchanges cards start n single indices cards' :
  Forall (λ i, i < start ∨ start + n ≤ i)%nat indices →
  seekIndex cards start n single indices = Exchanged cards' → exchanges start n single cards cards'.
Proof.
  induction indices as [|index indices IH]; intros Hi H; simpl in H; [done|]. apply Forall_cons in Hi as [Hx Hi].
  destruct (cards !! index) as [candidate|] eqn:Hc; [|done]. destruct (_ || _) eqn:Hv; [by apply IH|]. bool_prop.
  destruct (findCardIndex _ single) as [k|] eqn:Hk; [|by apply IH].
  apply findCardIndex_lookup in Hk. assert (k < n)%nat as Hkn.
  { apply lookup_lt_Some in Hk. unfold handOf in Hk. rewrite length_take in Hk. lia. }
  rewrite handOf_lookup in Hk by done. rewrite Hk in H. injection H as <-.
  exists (start + k)%nat, index, candidate. split_and!; [lia|lia|done..].
Qed.

Lemma seekSeat_exchanges cards seat n single others cards' :
  seekSeat cards seat n single others = Exchanged cards' → exchanges (seat * n) n single cards cards'.
Proof.
  induction others as [|other others IH]; intros H; simpl in H; [done|]. destruct (Nat.eqb_spec other seat) as [_|Hne]; [by apply IH|].
  destruct (Nat.ltb _ _); [done|]. destruct (seekIndex _ _ _ _ _) eqn:Hs; [|by apply IH|done]. injection H as <-.
  apply seekIndex_exchanges in Hs; [done|]. apply Forall_forall. intros i Hi%elem_of_seq. nia.
Qed.
Lemma seekSingle_exchanges cards playerNum seat n singles cards' :
  seekSingle cards playerNum seat n singles = Exchanged cards' → ∃ single, single ∈ singles ∧ exchanges (seat * n) n single cards cards'.
Proof.
  induction singles as [|single singles IH]; intros H; simpl in H; [done|]. destruct seekSeat eqn:Hs.
  - injection H as <-. exists single. split; [set_solver|]. by eapply seekSeat_exchanges.
  - destruct (IH H) as (x & ? & ?). exists x. set_solver.
  - done.
Qed.

Lemma exchanges_perm start n single cards cards' : exchanges start n single cards cards' → cards' ≡ₚ cards ∧ length cards' = length cards.
Proof.
  intros (i & j & c & Hi & Hj & Ei & Ej & _ & _ & ->). split; [by apply Permutation_insert_swap|]. by rewrite !length_insert.
Qed.

Lemma reduceSingles_perm fuel : ∀ cards playerNum seat n limit,
  (reduceSingles fuel cards playerNum seat n limit).1 ≡ₚ cards.
Proof.
  induction fuel as [|fuel IH]; intros cards playerNum seat n limit; cbn [reduceSingles]; (destruct (_ <=? limit); [done|]); [done|].
  destruct (seekSingle _ _ _ _ _) eqn:Hs; try done. apply seekSingle_exchanges in Hs as (single & _ & Hx).
  rewrite IH. by apply exchanges_perm in Hx as [? _].
Qed.
Lemma swapSeats_perm seatList : ∀ cards playerNum n limit, swapSeats cards playerNum n limit seatList ≡ₚ cards.
Proof.
  induction seatList as [|seat seatList IH]; intros cards playerNum n limit; cbn [swapSeats]; [done|]. destruct (Nat.ltb _ _); [done|].
  pose proof (reduceSingles_perm swapFuel cards playerNum seat n limit) as Hp. destruct reduceSingles as [cards' []]; [done|].
  by rewrite IH.
Qed.
Lemma swapSingleCards_perm cards playerNum n limit : swapSingleCards cards playerNum n limit ≡ₚ cards.
Proof. unfold swapSingleCards. destruct (_ || _); [done|]. apply swapSeats_perm. Qed.
Lemma adjustNewbieCards_perm cards playerNum n seat : adjustNewbieCards cards playerNum n seat ≡ₚ cards.
Proof. unfold adjustNewbieCards. cbv zeta. destruct (_ || _); [done|]. destruct (Nat.ltb (length cards) _); [done|].
  destruct (Nat.ltb _ _); by rewrite !swapSingleCards_perm. Qed.

(** The hands of a full deck are the deck. *)
Lemma dealDeck_perm bankerSeat deck : length deck = 104%nat → concat (qlist (dealDeck bankerSeat deck)) ≡ₚ deck.
Proof.
  intros Hl. assert (deck = handOf 0 26 deck ++ handOf 26 26 deck ++ handOf 52 26 deck ++ handOf 78 26 deck) as Hd.
  { unfold handOf. rewrite drop_0.
    rewrite <- (take_drop 26 deck) at 1. f_equal. rewrite <- (take_drop 26 (drop 26 deck)) at 1. f_equal. rewrite drop_drop.
    rewrite <- (take_drop 26 (drop (26 + 26) deck)) at 1. f_equal. rewrite drop_drop. symmetry. apply take_ge. rewrite length_drop. lia. }
  unfold dealDeck, qlist, qseats. cbn [q0 q1 q2 q3].
  assert (0 ≤ bankerSeat `mod` 4 < 4) as Hb by (apply Z.mod_pos_bound; lia).
  assert (∀ s, (s - bankerSeat) `mod` 4 = (s - bankerSeat `mod` 4) `mod` 4) as Hm by (intros s; by rewrite Zminus_mod_idemp_r).
  rewrite !Hm. rewrite Hd at 5. clear Hd Hm Hl. set (h := λ k, handOf k 26 deck).
  change (handOf 0 26 deck) with (h 0%nat). change (handOf 26 26 deck) with (h 26%nat).
  change (handOf 52 26 deck) with (h 52%nat). change (handOf 78 26 deck) with (h 78%nat).
  assert (bankerSeat `mod` 4 = 0 ∨ bankerSeat `mod` 4 = 1 ∨ bankerSeat `mod` 4 = 2 ∨ bankerSeat `mod` 4 = 3) as Hc by lia.
  assert (∀ k, handOf k 26 deck = h k) as Hh by done. rewrite !Hh. clearbody h.
  destruct Hc as [->|[->|[->| ->]]]; cbn -[app]; rewrite app_nil_r; solve_Permutation.
Qed.

(** ** The adjustment ends *)

Lemma cardValue_range c : 0 ≤ cardValue c < 16.
Proof.
  unfold cardValue. replace 15 with (Z.ones 4) by done. rewrite Z.land_ones by lia. apply Z.mod_pos_bound. done.
Qed.

Lemma valueCount_app a b v : valueCount (a ++ b) v = valueCount a v + valueCount b v.
Proof. unfold valueCount. rewrite filter_app, length_app. lia. Qed.
Lemma valueCount_one c v : valueCount [c] v = if bool_decide (cardValue c = v) then 1 else 0.
Proof. unfold valueCount. rewrite filter_cons, filter_nil. case_decide; case_bool_decide; done. Qed.

(** What the two arrays hold. *)
Lemma noteCards_spec cards v : 0 ≤ v < 16 →
  foldl noteCard (replicate 16 (0, 0)) cards !! Z.to_nat v
  = Some (valueCount cards v, default 0 (head (filter (λ c, cardValue c = v) cards))).
Proof.
  intros Hv. induction cards as [|c cards IH] using rev_ind; [cbn [foldl]; by rewrite lookup_replicate_2 by lia|].
  rewrite foldl_app. cbn [foldl]. unfold noteCard at 1. rewrite valueCount_app, valueCount_one, filter_app, filter_cons, filter_nil.
  pose proof (cardValue_range c). case_bool_decide as E.
  - rewrite decide_True by done. rewrite E, list_lookup_alter_eq, IH. cbn [fmap option_fmap option_map].
    f_equal. f_equal. unfold valueCount. destruct (filter _ cards) as [|x l]; [done|].
    rewrite (proj2 (Z.eqb_neq _ 0)) by (cbn [length]; lia). done.
  - rewrite decide_False by done. rewrite list_lookup_alter_ne by lia. rewrite IH. by rewrite Z.add_0_r, app_nil_r.
Qed.

Lemma singleCards_spec cards :
  singleCards cards = omap (λ v, if valueCount cards v =? 1 then Some (default 0 (head (filter (λ c, cardValue c = v) cards))) else None) (seqZ 1 13).
Proof.
  unfold singleCards. cbv zeta. apply list_omap_ext. apply Forall2_same_length_lookup. split; [done|]. intros i v v' Hi Hi'.
  simplify_eq. apply list_elem_of_lookup_2, elem_of_seqZ in Hi. by rewrite noteCards_spec by lia.
Qed.

Lemma length_omap_if {A B} (p : A → bool) (f : A → B) l :
  length (omap (λ x, if p x then Some (f x) else None) l) = length (filter (λ x, p x = true) l).
Proof.
  induction l as [|x l IH]; [done|]. rewrite filter_cons. cbn. destruct (p x) eqn:E.
  - rewrite decide_True by done. cbn [length]. f_equal. exact IH.
  - rewrite decide_False by done. exact IH.
Qed.

(** How many single cards a hand has. *)
Lemma length_singles cards : length (singleCards cards) = length (filter (λ v, valueCount cards v = 1) (seqZ 1 13)).
Proof. rewrite singleCards_spec, length_omap_if. f_equal. apply list_filter_iff. intros v. apply Z.eqb_eq. Qed.
Lemma length_singles_bound cards : (length (singleCards cards) ≤ swapFuel)%nat.
Proof. rewrite length_singles. etransitivity; [apply length_filter|]. by rewrite length_seqZ. Qed.
Lemma single_once cards single : single ∈ singleCards cards → valueCount cards (cardValue single) = 1 ∧ 1 ≤ cardValue single ≤ 13.
Proof.
  rewrite singleCards_spec, list_elem_of_omap. intros (v & Hv%elem_of_seqZ & Hs). destruct (Z.eqb_spec (valueCount cards v) 1) as [H1|]; [|done].
  injection Hs as <-. unfold valueCount in *. destruct (filter _ cards) as [|x [|]] eqn:Hf in *; simpl in H1; try lia.
  assert (cardValue x = v) as Hx by (assert (x ∈ filter (λ c, cardValue c = v) cards) as H by (rewrite Hf; set_solver); by apply list_elem_of_filter in H as [? _]).
  simpl. rewrite Hx, Hf. split; [done|lia].
Qed.

Lemma valueCount_insert hand k x y v : hand !! k = Some x →
  valueCount (<[k := y]> hand) v = valueCount hand v - (if bool_decide (cardValue x = v) then 1 else 0) + (if bool_decide (cardValue y = v) then 1 else 0).
Proof.
  intros Hk. rewrite insert_take_drop by by eapply lookup_lt_Some. rewrite <- (take_drop_middle hand k x Hk) at 3.
  change (y :: drop (S k) hand) with ([y] ++ drop (S k) hand). change (x :: drop (S k) hand) with ([x] ++ drop (S k) hand).
  rewrite !valueCount_app, !valueCount_one. lia.
Qed.

(** The hand after an exchange. *)
Lemma handOf_exchange start n cards i index x y : (start ≤ i < start + n)%nat → (index < start ∨ start + n ≤ index)%nat →
  handOf start n (<[i := y]> (<[index := x]> cards)) = <[(i - start)%nat := y]> (handOf start n cards).
Proof.
  intros Hi Hx. apply list_eq. intros k. destruct (decide (k < n)%nat) as [Hk|Hk].
  - rewrite handOf_lookup by done. destruct (decide (start + k = i)%nat) as [<-|Hne].
    + replace (start + k - start)%nat with k by lia. destruct (decide (start + k < length cards)%nat) as [Hl|Hl].
      * rewrite list_lookup_insert_eq by (rewrite length_insert; lia). rewrite list_lookup_insert_eq; [done|].
        unfold handOf. rewrite length_take, length_drop. lia.
      * rewrite !lookup_ge_None_2; [done| |]; rewrite !length_insert; [|lia]. unfold handOf. rewrite length_take, length_drop. lia.
    + rewrite !list_lookup_insert_ne by lia. by rewrite handOf_lookup.
  - rewrite !lookup_ge_None_2; [done| |]; rewrite ?length_insert; unfold handOf; rewrite length_take; lia.
Qed.

(** An exchange of a single card leaves fewer of them. *)
Lemma exchange_decreases start n single cards cards' :
  single ∈ singleCards (handOf start n cards) → exchanges start n single cards cards' →
  (length (singleCards (handOf start n cards')) < length (singleCards (handOf start n cards)))%nat.
Proof.
  intros [H1 Hr]%single_once (i & index & c & Hi & Hx & Ei & Ec & Hne & Hcont & ->). rewrite !length_singles, handOf_exchange by done.
  set (hand := handOf start n cards) in *. assert (hand !! (i - start)%nat = Some single) as Hk.
  { unfold hand. rewrite handOf_lookup by lia. by replace (start + (i - start))%nat with i by lia. }
  unfold containsCardValue in Hcont. apply Z.ltb_lt in Hcont.
  assert (∀ v, valueCount (<[(i - start)%nat := c]> hand) v = 1 → valueCount hand v = 1 ∧ v ≠ cardValue single) as Hsub.
  { intros v. rewrite (valueCount_insert _ _ _ c v Hk). intros Hv. case_bool_decide as E1; case_bool_decide as E2; subst; try congruence; lia. }
  apply (Nat.le_lt_trans _ (length (filter (λ v, v ≠ cardValue single) (filter (λ v, valueCount hand v = 1) (seqZ 1 13))))).
  - rewrite list_filter_filter. induction (seqZ 1 13) as [|v l IH]; [done|]. rewrite !filter_cons. 
    destruct (decide (valueCount (<[(i - start)%nat := c]> hand) v = 1)) as [Hv|Hv].
    + apply Hsub in Hv. rewrite decide_True by tauto. simpl. lia.
    + case_decide; simpl; lia.
  - apply length_filter_lt with (cardValue single); [|tauto]. apply list_elem_of_filter. split; [done|]. apply elem_of_seqZ. lia.
Qed.

(** More fuel than single cards changes nothing: the loop has ended by itself. *)
Lemma reduceSingles_fuel fuel : ∀ fuel' cards playerNum seat n limit, 0 < limit →
  (length (singleCards (handOf (seat * n) n cards)) ≤ fuel)%nat → (fuel ≤ fuel')%nat →
  reduceSingles fuel' cards playerNum seat n limit = reduceSingles fuel cards playerNum seat n limit.
Proof.
  induction fuel as [|fuel IH]; intros fuel' cards playerNum seat n limit Hlim Hl Hf.
  - destruct fuel'; cbn [reduceSingles]; [done|]. by rewrite (proj2 (Z.leb_le _ limit)) by lia.
  - destruct fuel' as [|fuel']; [lia|]. cbn [reduceSingles]. destruct (_ <=? limit); [done|].
    destruct (seekSingle _ _ _ _ _) eqn:Hs; [|done..]. apply seekSingle_exchanges in Hs as (single & Hin & Hx).
    apply IH; [done| |lia]. pose proof (exchange_decreases _ _ _ _ _ Hin Hx). lia.
Qed.

(** ** Properties *)

Lemma handOf_length start n deck : (start + n ≤ length deck)%nat → length (handOf start n deck) = n.
Proof. intros H. unfold handOf. rewrite length_take, length_drop. lia. Qed.
Lemma dealDeck_length banker deck i : length deck = 104%nat → inSeats i → length (qget [] (dealDeck banker deck) i) = 26%nat.
Proof.
  intros Hl Hi. unfold dealDeck. rewrite qget_qseats by done. apply handOf_length. pose proof (Z.mod_pos_bound (i - banker) 4 ltac:(lia)). lia.
Qed.

(** C25. Every deal of the standard deck is fair in cards: however the deck was
    shuffled and whichever of the two adjustments was made, each of the four seats
    gets 26 cards and together they hold the double deck.  And the loop of the
    adjustment ends by itself: no more rounds than there are values change its
    result. *)
Theorem deal_conserves swaps deck bankerSeat limit newcomer adjusted :
  shuffle swaps doubleDeck = Some deck → 0 < limit →
  adjusted ∈ [deck; swapSingleCards deck 4 26 limit; adjustNewbieCards deck 4 26 newcomer] →
  concat (qlist (dealDeck bankerSeat adjusted)) ≡ₚ doubleDeck
  ∧ (∀ seat, inSeats seat → length (qget [] (dealDeck bankerSeat adjusted) seat) = 26%nat)
  ∧ ∀ fuel seat, (swapFuel ≤ fuel)%nat → reduceSingles fuel adjusted 4 seat 26 limit = reduceSingles swapFuel adjusted 4 seat 26 limit.
Proof.
  intros Hs Hlim Ha. apply shuffle_perm in Hs. assert (adjusted ≡ₚ doubleDeck) as Hp.
  { rewrite !elem_of_cons, elem_of_nil in Ha. destruct Ha as [->|[->|[->|[]]]]; [done|..]; rewrite <- Hs.
    - apply swapSingleCards_perm.
    - apply adjustNewbieCards_perm. }
  assert (length adjusted = 104%nat) as Hl by by rewrite Hp. split_and!.
  - by rewrite dealDeck_perm.
  - intros seat Hi. by apply dealDeck_length.
  - intros fuel seat Hf. apply reduceSingles_fuel; [done| |done]. apply length_singles_bound.
Qed.
Lemma deal_conserves_witness :
  concat (qlist (dealDeck 2 (swapSingleCards (default [] (shuffle [(0, 50); (31, 64)]%nat doubleDeck)) 4 26 4))) ≡ₚ doubleDeck.
Proof.
  refine (proj1 (deal_conserves [(0, 50); (31, 64)]%nat _ 2 4 0 _ _ _ _)); [vm_compute; reflexivity|reflexivity|]. set_solver.
Defined.

(** * Custom decks

    [src/examples/nhsk/custom_deck.go]: prepared decks for one subgame, the text
    grammar they are written in, and who may use them.  The grammar: blocks in
    braces, lines of hexadecimal bytes separated by commas, [@] and a seat for the
    banker, [#] for comments.  Lower-casing is that of ASCII: no other letter becomes
    a hexadecimal digit. *)

Definition customDeckCardCount : Z := 104.
Definition customDeckSeatCount : Z := 4.

(** The banker is -1 when the deck names none. *)
Record CustomDeck := mkDeck { dkCards : list card; dkBankerSeat : Z }.
Abbreviation CustomDeckCatalog := (list CustomDeck) (only parsing).

Definition validCatalog (c : CustomDeckCatalog) : bool :=
  negb (bool_decide (c = [])) && forallb (λ d, numCards (dkCards d) =? customDeckCardCount) c.
#[local] Instance CustomDeck_eq_dec : EqDecision CustomDeck.
Proof. solve_decision. Defined.

(** ** Text *)

Definition hasPrefix (b : byte) (l : list byte) : bool := match l with x :: _ => bool_decide (x = b) | [] => false end.
Definition trim (l : list byte) : list byte := bytes_of (TrimSpace (string_of l)).
Fixpoint dropCommas (l : list byte) : list byte :=
  match l with b :: l' => if bool_decide (b = x2c) then dropCommas l' else l | [] => [] end.
(** [strings.TrimRight(line, ",")] *)
Definition trimCommas (l : list byte) : list byte := reverse (dropCommas (reverse l)).
Definition toLower (b : byte) : byte := if (65 <=? byteZ b) && (byteZ b <=? 90) then byte_of_Z (byteZ b + 32) else b.
Definition hexDigit (b : byte) : option Z :=
  if isDigit b then Some (byteZ b - 48)
  else if (97 <=? byteZ b) && (byteZ b <=? 102) then Some (byteZ b - 87) else None.
(** [strconv.ParseUint(part, 16, 8)], of a string in lower case. *)
Fixpoint hexValue (l : list byte) (acc : Z) : option Z :=
  match l with
  | [] => Some acc
  | b :: l => match hexDigit b with
              | Some d => if 255 <? acc * 16 + d then None else hexValue l (acc * 16 + d)
              | None => None
              end
  end.
Definition parseCard (part : list byte) : option card :=
  let part := toLower <$> part in
  let part := match part with x30 :: x78 :: rest => rest | _ => part end in
  if bool_decide (part = []) then None else hexValue part 0.

(** ** The parser *)

Record parser := mkParser { inBlock : bool; current : list card; banker : Z; decks : CustomDeckCatalog }.

Definition appendBlock (s : parser) : parser :=
  if negb (numCards (current s) =? customDeckCardCount) then s
  else mkParser (inBlock s) (current s) (banker s) (decks s ++ [mkDeck (current s) (banker s)]).

Fixpoint parseParts (parts : list (list byte)) (s : parser) : option parser :=
  match parts with
  | [] => Some s
  | part :: parts =>
      let part := trim part in
      if bool_decide (part = []) then parseParts parts s
      else match parseCard part with
           | None => None
           | Some value =>
               parseParts parts (if numCards (current s) <? customDeckCardCount
                                 then mkParser (inBlock s) (current s ++ [value]) (banker s) (decks s) else s)
           end
  end.

(** What follows the opening brace of a line. *)
Definition parseBody (line : list byte) (s : parser) : option parser :=
  if hasPrefix x7d line then let s := appendBlock s in Some (mkParser false (current s) (banker s) (decks s))
  else if negb (inBlock s) then Some s
  else if hasPrefix x40 line then
    match Atoi (string_of (trim (tail line))) with
    | None => None
    | Some seat => Some (if (0 <=? seat) && (seat <? customDeckSeatCount) then mkParser (inBlock s) (current s) seat (decks s) else s)
    end
  else parseParts (splitAt x2c (trimCommas line)) s.

Definition parseLine (raw : list byte) (s : parser) : option parser :=
  let line := trim raw in
  if bool_decide (line = []) || hasPrefix x23 line then Some s
  else if hasPrefix x7b line then
    let s := mkParser true [] (-1) (decks s) in
    let line := trim (tail line) in
    if bool_decide (line = []) then Some s else parseBody line s
  else parseBody line s.

Fixpoint parseLines (lines : list (list byte)) (s : parser) : option parser :=
  match lines with [] => Some s | raw :: lines => match parseLine raw s with Some s => parseLines lines s | None => None end end.

(** [None] is an invalid card or banker. *)
Definition ParseCustomDeck (text : string) : option CustomDeckCatalog :=
  let text := trim (bytes_of text) in
  if bool_decide (text = []) then Some []
  else match parseLines (splitAt x0a text) (mkParser false [] (-1) []) with
       | None => None
       | Some s => Some (decks (if inBlock s then appendBlock s else s))
       end.

(** ** Authorisation *)

Record CustomDeckRunnerConfig := mkDeckRunnerConfig {
  drEnabled : bool; drAllowAnyAccount : bool; drAllowedAccounts : list Z; drQueueSize : Z; drWorkers : Z; drLoadTimeout : Duration
}.
Definition authorized (c : CustomDeckRunnerConfig) (userIDs : list Z) : bool :=
  if negb (drEnabled c) then false
  else if drAllowAnyAccount c then true
  else existsb (λ allowed, negb (allowed =? 0) && existsb (λ user, user =? allowed) userIDs) (drAllowedAccounts c).

(** ** Properties *)

(** A deck that can be dealt: 104 bytes and a banker that is a seat, or none. *)
Definition dealable (d : CustomDeck) : Prop :=
  numCards (dkCards d) = customDeckCardCount ∧ Forall (λ c, 0 ≤ c < 256) (dkCards d) ∧ -1 ≤ dkBankerSeat d < customDeckSeatCount.

Definition parser_inv (s : parser) : Prop :=
  Forall (λ c, 0 ≤ c < 256) (current s) ∧ -1 ≤ banker s < customDeckSeatCount ∧ Forall dealable (decks s).

Lemma hexValue_range l : ∀ acc v, 0 ≤ acc < 256 → hexValue l acc = Some v → 0 ≤ v < 256.
Proof.
  induction l as [|b l IH]; intros acc v Ha H; simpl in H; [by injection H as <-|]. destruct (hexDigit b) as [d|] eqn:Hd; [|done].
  destruct (255 <? acc * 16 + d) eqn:Hx; [done|]. bool_prop. apply IH in H; [done|]. unfold hexDigit, isDigit in Hd.
  repeat case_match; simplify_eq; bool_prop; lia.
Qed.
Lemma appendBlock_inv s : parser_inv s → parser_inv (appendBlock s).
Proof.
  intros (H1 & [H2 H2'] & H3). unfold appendBlock. destruct (negb _) eqn:Hn; [done|]. bool_prop. split_and!; [done..|]. simpl.
  apply Forall_app. split; [done|]. by repeat constructor.
Qed.
Lemma parseParts_inv parts : ∀ s s', parser_inv s → parseParts parts s = Some s' → parser_inv s'.
Proof.
  induction parts as [|part parts IH]; intros s s' Hs H; simpl in H; [by injection H as <-|]. case_bool_decide; [by eapply IH|].
  destruct (parseCard (trim part)) as [v|] eqn:Hv; [|done]. eapply IH; [|exact H]. destruct (_ <? _); [|done].
  destruct Hs as (H1 & [H2 H2'] & H3). split_and!; [|done..]. simpl. apply Forall_app. split; [done|]. repeat constructor.
  all: unfold parseCard in Hv; case_bool_decide; [done|]; apply hexValue_range in Hv; lia.
Qed.
Lemma parseBody_inv line s s' : parser_inv s → parseBody line s = Some s' → parser_inv s'.
Proof.
  intros Hs. unfold parseBody. destruct (hasPrefix x7d line).
  { intros [= <-]. destruct (appendBlock_inv s Hs) as (? & ? & ?). done. }
  destruct (negb (inBlock s)); [by intros [= <-]|]. destruct (hasPrefix x40 line); [|by apply parseParts_inv].
  destruct (Atoi _) as [seat|]; [|done]. intros [= <-]. destruct (_ && _) eqn:Hx; [|done]. bool_prop.
  destruct Hs as (H1 & H2 & H3). split_and!; simpl; [done|lia|lia|done].
Qed.
Lemma parseLines_inv lines : ∀ s s', parser_inv s → parseLines lines s = Some s' → parser_inv s'.
Proof.
  induction lines as [|raw lines IH]; intros s s' Hs H; simpl in H; [by injection H as <-|].
  destruct (parseLine raw s) as [s1|] eqn:H1; [|done]. eapply IH; [|exact H]. clear H. unfold parseLine in H1.
  destruct (_ || _); [by injection H1 as <-|]. destruct (hasPrefix x7b (trim raw)); [|by eapply parseBody_inv].
  assert (parser_inv (mkParser true [] (-1) (decks s))) as Hs' by (destruct Hs as (_ & _ & ?); split_and!; simpl; [constructor|lia|unfold customDeckSeatCount; lia|done]).
  case_bool_decide; [by injection H1 as <-|by eapply parseBody_inv].
Qed.

(** Every deck the text parser yields can be dealt, whatever the text: exactly
    104 cards, each a byte, and a banker that is a seat or absent; so a catalog read
    from text is accepted as soon as it is not empty. *)
Theorem parsed_decks_dealable text catalog :
  ParseCustomDeck text = Some catalog → Forall dealable catalog ∧ (catalog ≠ [] → validCatalog catalog = true).
Proof.
  intros H. assert (Forall dealable catalog) as Hd.
  { unfold ParseCustomDeck in H. case_bool_decide; [by injection H as <-|].
    destruct (parseLines _ _) as [s|] eqn:Hs; [|done]. injection H as <-. apply parseLines_inv in Hs.
    - destruct (inBlock s); [apply appendBlock_inv in Hs|]; by destruct Hs as (_ & _ & ?).
    - split_and!; simpl; [constructor|lia|unfold customDeckSeatCount; lia|constructor]. }
  split; [done|]. intros Hne. unfold validCatalog. rewrite bool_decide_false by done. simpl. apply forallb_forall. intros d Hin.
  rewrite Forall_forall in Hd. apply list_elem_of_In, Hd in Hin as (-> & _). done.
Qed.

Definition sampleText : string := "{@2" +:+ string_of [x0a] +:+ string_of (concat (replicate 104 [x31; x30; x2c])) +:+ string_of [x0a; x7d].
Lemma parsed_decks_dealable_witness : Forall dealable [mkDeck (replicate 104 16) 2].
Proof. refine (proj1 (parsed_decks_dealable sampleText _ _)). vm_compute. reflexivity. Defined.
