(* ===== verification/NhskReplay.v ===== *)
(** * Replay documents and outputs of a battle

    [src/examples/nhsk/replay_document.go]: the record of a subgame that is written
    when it ends; [outputs.go]: what a battle tells its clients and the old game
    master; the requests to the AI ([ai.go]).  Copies of slices are copies of values
    here: a document owns what it records. *)

From stdpp Require Import prelude gmap strings list.
From Stdlib Require Import ZArith Lia Strings.Byte.
From S2P Require Import Prelude Types Bytes Encoding Game NhskCards NhskSettlement NhskDeal.

Local Open Scope Z_scope.

(** ** The document *)

Record ReplayPlayerSnapshot := mkReplayPlayer {
  rpSeatID : Z; rpPlayer : PlayerID; rpUserID : Z; rpNickname : string; rpInitScore : Z; rpPlatform : Z; rpDress : string; rpAutomated : bool
}.

Record ReplayStartSnapshot := mkStart {
  rsBattleID : BattleID; rsIdentity : BattleIdentity; rsGameNum : Z; rsSubgameNum : Z; rsStartedAt : Time;
  rsReplayName : string; rsReplayUID : string; rsRelativePath : string; rsMaxGameNum : Z; rsMaxSubgameNum : Z; rsFee : Z;
  rsScoreBase : Z; rsScoreDenominator : Z; rsMetadata : ReplayMetadata; rsReplayRules : ReplayRuleSnapshot; rsRules : NHSKConfig;
  rsRoundContext : UpdateRoundContextRequest; rsPlayers : quad ReplayPlayerSnapshot; rsHands : quad (list card); rsBankerSeat : Z
}.

Inductive ReplayMoveKind := ReplayMoveDeal | ReplayMoveCurrentPoint | ReplayMoveOutCard | ReplayMoveCatchPoint | ReplayMoveTurnEnd | ReplayMoveProp.
Inductive ReplayMoveSource :=
| ReplayMoveSourceUnknown | ReplayMoveSourceSystem | ReplayMoveSourcePlayer | ReplayMoveSourceAI | ReplayMoveSourceTimeout | ReplayMoveSourceAuto.
#[global] Instance ReplayMoveSource_eq_dec : EqDecision ReplayMoveSource.
Proof. solve_decision. Defined.

Record ReplayMove := mkMove {
  mvKind : ReplayMoveKind; mvSeatID : Z; mvUserID : Z; mvHands : quad (list card); mvCards : list card; mvPoint : Z;
  mvScores : quad Z; mvCardType : string; mvSource : ReplayMoveSource; mvMilliseconds : Z; mvPropID : string; mvPropCount : Z;
  mvTargetIDs : list Z
}.
(** A move with the fields of its kind, the others zero. *)
Definition noHands : quad (list card) := qall [].
Definition dealMove (hands : quad (list card)) : ReplayMove :=
  mkMove ReplayMoveDeal 0 0 hands [] 0 (qall 0) "" ReplayMoveSourceUnknown 0 "" 0 [].
Definition pointMove (cards : list card) (point : Z) : ReplayMove :=
  mkMove ReplayMoveCurrentPoint 0 0 noHands cards point (qall 0) "" ReplayMoveSourceSystem 0 "" 0 [].
Definition outCardMove seat user cards cardType source ms : ReplayMove :=
  mkMove ReplayMoveOutCard seat user noHands cards 0 (qall 0) cardType source ms "" 0 [].
Definition catchMove seat user cards point : ReplayMove :=
  mkMove ReplayMoveCatchPoint seat user noHands cards point (qall 0) "" ReplayMoveSourceSystem 0 "" 0 [].
Definition turnEndMove (scores : quad Z) : ReplayMove :=
  mkMove ReplayMoveTurnEnd 0 0 noHands [] 0 scores "" ReplayMoveSourceSystem 0 "" 0 [].
Definition propMove user prop n targets : ReplayMove :=
  mkMove ReplayMoveProp 0 user noHands [] 0 (qall 0) "" ReplayMoveSourceUnknown 0 prop n targets.

Record replayCardDetail := mkDetail { cdType : string; cdCards : list card }.
Record replayEndSnapshot := mkEnd {
  enEndedAt : Time; enResult : subgameResultSnapshot; enFinalScores : quad Z; enPlayers : quad BattlePlayer;
  enMoveCount : quad Z; enAutoCount : quad Z; enMoveMilliseconds : quad Z; enActions : quad (list Z);
  enCardDetails : quad (list replayCardDetail)
}.
(** [None] is the zero document: no subgame was started. *)
Record ReplayDocument := mkDocument { rdStart : option ReplayStartSnapshot; rdMoves : list ReplayMove; rdEnd : option replayEndSnapshot }.
Definition zeroDocument : ReplayDocument := mkDocument None [] None.

Definition NewReplayDocument (start : ReplayStartSnapshot) : ReplayDocument :=
  mkDocument (Some start) [dealMove (rsHands start)] None.
Definition appendMove (m : ReplayMove) (d : ReplayDocument) : ReplayDocument := mkDocument (rdStart d) (rdMoves d ++ [m]) (rdEnd d).
Definition finalize (e : replayEndSnapshot) (d : ReplayDocument) : ReplayDocument := mkDocument (rdStart d) (rdMoves d) (Some e).

Fixpoint validSeats (l : list (Z * (ReplayPlayerSnapshot * list card))) (players : gset PlayerID) (users : gset Z) : bool :=
  match l with
  | [] => true
  | (seat, (p, hand)) :: l =>
      (rpSeatID p =? seat) && bool_decide (rpPlayer p ≠ "") && negb (rpUserID p =? 0) && (numCards hand =? 26)
      && bool_decide (rpPlayer p ∉ players) && bool_decide (rpUserID p ∉ users)
      && validSeats l ({[rpPlayer p]} ∪ players) ({[rpUserID p]} ∪ users)
  end.
(** [ReplayStartSnapshot.Valid] *)
Definition validStart (s : ReplayStartSnapshot) : bool :=
  negb (rsBattleID s =? 0) && (idBattle (rsIdentity s) =? rsBattleID s) && negb (idProduct (rsIdentity s) =? 0)
  && negb (idMatch (rsIdentity s) =? 0) && negb (rsGameNum s =? 0) && negb (rsSubgameNum s =? 0) && negb (rsStartedAt s =? 0)
  && bool_decide (rsReplayName s ≠ "") && bool_decide (rsReplayUID s ≠ "") && bool_decide (rsRelativePath s ≠ "")
  && (rsBankerSeat s <? 4)
  && validSeats (zip seats (zip (qlist (rsPlayers s)) (qlist (rsHands s)))) ∅ ∅.

Definition replayCardTypeName (pattern : cardPattern) (cardCount : Z) : string :=
  if cardCount =? 0 then "不出"
  else match kind pattern with
       | cardPatternSingle => "单张"
       | cardPatternPair => "对子"
       | cardPatternTriple => "三张"
       | cardPatternThreeTwo => "俘虏"
       | cardPatternBomb => if 0 <? count pattern then "炸弹" +:+ string_of (formatUint (count pattern)) else "炸弹4"
       | cardPatternInvalid => "不出"
       end.

(** ** Outputs *)

(** [copy] into a fixed array of bytes. *)
Definition fixed (n : nat) (cards : list card) : list card := take n (cards ++ replicate n 0).
Definition toFixedCards (cards : list card) : list card := fixed 26 cards.
Definition toFixedEight (cards : list card) : list card := fixed 8 cards.
Definition u8 (z : Z) : Z := z mod 2 ^ 8.
Definition i8 (z : Z) : Z := (z + 2 ^ 7) mod 2 ^ 8 - 2 ^ 7.

Inductive GameSceneState := GameSceneStatePlaying | GameSceneStateShowingResult.
Record GameScenePlayer := mkScenePlayer {
  spPlayer : PlayerID; spAutomated : bool; spOffline : bool; spHandCards : list card; spHandCount : Z; spLastPlayedCards : list card;
  spLastPlayCount : Z; spCapturedPoints : Z; spRank : Z
}.
Record GameScenePayload := mkScene {
  scState : GameSceneState; scActiveSeat : Z; scPreviousPlayerSeat : Z; scRemainingSeconds : Z; scTrickScoreCards : list card;
  scTrickScoreCardCount : Z; scFinishedPlayerCount : Z; scPlayers : quad GameScenePlayer
}.
Record GameResultPayload := mkGameResult {
  grReason : GameOverReason; grPlayers : quad PlayerID; grAutomated : quad bool; grScores : quad Z; grOutcomes : quad PlayerOutcome;
  grCapturedPoints : quad Z; grRanks : quad Z; grResult : SubgameResult; grWinningTeam : Z; grReplayUID : string
}.
Inductive OutCardRejectionReason :=
| OutCardRejectionCardCount | OutCardRejectionSeat | OutCardRejectionVerifyCode | OutCardRejectionCardType | OutCardRejectionPaused.
#[global] Instance OutCardRejectionReason_eq_dec : EqDecision OutCardRejectionReason.
Proof. solve_decision. Defined.

(** The payload determines the kind of a client output. *)
Inductive OutputPayload :=
| GameStartPayload
| RoundStatPayload
| GameInfoPayload (outCardSeconds serviceFee : Z) (scores : quad Z) (gameNum : Z)
| DealPayload (players : quad PlayerID) (seat : Z) (cards : list card)
| AskOutCardPayload (player : PlayerID) (verifyCode actionMilliseconds : Z)
| OutCardInfoPayload (player : PlayerID) (cards : list card) (cardCount : Z)
| TurnEndPayload (winner : PlayerID) (capturedPoints : Z)
| ShowCardsPayload (players : quad PlayerID) (handCounts : quad Z) (cards : quad (list card))
| GameResult (r : GameResultPayload)
| GameScene (s : GameScenePayload)
| OutCardRejectionPayload (reason : OutCardRejectionReason)
| CardSelectionPreviewPayload (player : PlayerID) (cards : list card) (cardCount : Z)
| PlayerAutoStatePayload (player : PlayerID) (enabled : bool).

Record GameOverPlayerData := mkOverPlayer { goScore : Z; goExp : Z; goAutomated : bool }.
Record GameOverOutput := mkOver { ovReason : GameOverReason; ovReplayName : string; ovIsGameOver : bool; ovPlayers : quad GameOverPlayerData }.

Inductive GameOutput :=
| ClientGameOutput (targets : list PlayerID) (payload : OutputPayload)
| GameStartedOutput (replayName : string)
| GameOver (o : GameOverOutput)
| SettlementRequested (o : SettlementRequestOutput)
| NoticeRoundOverOutput (reason : GameOverReason).

Record GameOutputBatch := mkBatch {
  baBattleID : BattleID; baMatchID : Z; baProductID : Z; baRef : ServiceRef; baGeneration : Z; baOutputs : list GameOutput
}.

(** ** The AI *)

Record AIScene := mkAIScene {
  aiActiveSeat : Z; aiFirstOutSeat : Z; aiHandCounts : quad Z; aiHand : list card; aiCapturedPoints : quad Z; aiRanks : quad Z;
  aiTrickPoint : Z; aiLeading : bool; aiOutedCards : list (list card)
}.
Record AIRequest := mkAIRequest {
  aqTarget : ServiceRef; aqBattleID : BattleID; aqProductID : Z; aqMatchID : Z; aqRoundID : Z; aqGameNum : Z; aqSubgameNum : Z;
  aqUserID : Z; aqSeatID : Z; aqTurnRevision : Z; aqVerifyCode : Z; aqStartedAt : Time; aqMoveMS : Z; aqActionMS : Z; aqScene : AIScene
}.
Record aiResult := mkAIResult {
  arBattleID : BattleID; arGameNum : Z; arSubgameNum : Z; arUserID : Z; arSeatID : Z; arTurnRevision : Z; arVerifyCode : Z;
  arStartedAt : Time; arCards : list card; arError : string
}.

Definition validAIRequest (r : AIRequest) : bool :=
  bool_decide (Node (aqTarget r) ≠ "") && negb (ID (aqTarget r) =? 0) && negb (aqBattleID r =? 0) && negb (aqProductID r =? 0)
  && negb (aqMatchID r =? 0) && negb (aqGameNum r =? 0) && negb (aqSubgameNum r =? 0) && negb (aqUserID r =? 0) && (aqSeatID r <? 4)
  && negb (aqTurnRevision r =? 0) && negb (aqVerifyCode r =? 0) && negb (aqStartedAt r =? 0) && negb (numCards (aiHand (aqScene r)) =? 0).

(** [LocalAIProvider.Move]: lead the smallest card, pass otherwise. *)
Definition localMove (r : AIRequest) : res string (list card) :=
  if negb (validAIRequest r) || (numCards (aiHand (aqScene r)) =? 0) then Err "nhsk: invalid AI request"
  else if negb (aiLeading (aqScene r)) then Ok []
  else Ok (option_list (smallestCard (aiHand (aqScene r)))).

(** The processor of the AI runner, for any provider. *)
Definition processAI (move : AIRequest → res string (list card)) (r : AIRequest) : aiResult * error string :=
  let result cards err :=
    mkAIResult (aqBattleID r) (aqGameNum r) (aqSubgameNum r) (aqUserID r) (aqSeatID r) (aqTurnRevision r) (aqVerifyCode r) (aqStartedAt r) cards err in
  match move r with Ok cards => (result cards "", None) | Err e => (result [] e, Some e) end.

Record ReplayArtifact := mkArtifact {
  atTarget : ServiceRef; atBattleID : BattleID; atGameNum : Z; atSubgameNum : Z; atReplayName : string; atRelativePath : string; atXML : list byte
}.
