(* ===== verification/NhskBattle.v ===== *)
(** * The card battle service

    [src/examples/nhsk/battle.go]: one table of four players.  Every command handler
    is a program of the monad [B]: it reads and writes the fields of the service,
    appends what it does to a log, and may stop early with an error or a panic.  What
    the outside answers (whether an output is accepted, the clock, the random source,
    the replay writer, the AI) is the instance of [Env], any function of the log.

    The fields of [NHSKBattleService] are grouped by who writes them: [fixedPart] at
    construction, [setup] at initialization, [people] between subgames and by the
    players' own commands, [table] and [statistics] by the play, [turn] by the
    actions, [round] at preparation and start, [record] for the replay.  The zero
    [time.Time] is 0. *)

From stdpp Require Import prelude gmap strings list sorting.
From Stdlib Require Import ZArith Lia Strings.Byte.
From S2P Require Import Prelude Types Bytes Game NhskCards NhskSettlement NhskDeal NhskReplay.

Local Open Scope Z_scope.

(** ** State *)

Inductive NHSKBattlePhase :=
| AwaitingInit | Preparing | Playing | AwaitingSettlement | FinalizingReplay | Finished | Stopping.
#[global] Instance NHSKBattlePhase_eq_dec : EqDecision NHSKBattlePhase.
Proof. solve_decision. Defined.

(** A submitter or reporter is present or nil; the random source and the clock are
    those of the environment. *)
Record NHSKBattleConfig := mkBattleConfig {
  cfID : BattleID; cfOutputRef : ServiceRef; cfMatchID : Z; cfProductID : Z; cfIsNewbie : bool; cfGeneration : Z; cfReporter : bool;
  cfRandom : bool; cfRandomSeed : option Z; cfReplaySubmitter : bool; cfReplayTimeout : Duration; cfAISubmitter : bool
}.

Record fixedPart := mkFixed {
  battleID : BattleID; outputRef : ServiceRef; connectionGeneration : Z; reporter : bool; isNewbie : bool; replaySubmitter : bool;
  replayTimeout : Duration; aiSubmitter : bool; randomSeed : Z; randomSeedKnown : bool
}.

Record battleInitialization := mkInitialization {
  izIdentity : BattleIdentity; izMaxGameNum : Z; izMaxSubgameNum : Z; izFee : Z; izScoreBase : Z; izScoreDenominator : Z;
  izMetadata : ReplayMetadata; izReplayRules : ReplayRuleSnapshot; izRules : NHSKConfig
}.
#[global] Instance battleInitialization_eq_dec : EqDecision battleInitialization.
Proof. solve_decision. Defined.

(** [initialized] is that there is an initialization; the fields that [initialize]
    copies from it are read from it. *)
Record setup := mkSetup { matchID : Z; productID : Z; rules : NHSKConfig; initialization : option battleInitialization }.

Record people := mkPeople {
  players : gmap PlayerID BattlePlayer; bySeat : quad PlayerID; auto : gmap PlayerID bool; offline : gmap PlayerID bool;
  clientReady : gmap PlayerID bool
}.

Record table := mkTable {
  hands : gmap PlayerID (list card); activeSeat : Z; lastCards : list card; lastRank : Z; lastCount : Z; preOutSeat : Z; passCount : Z;
  scoreCards : list card; capturedPoints : quad Z; finished : quad bool; ranks : quad Z; outedCards : list (list card);
  lastPlayedCards : quad (list card); lastPlayCounts : quad Z
}.

Record statistics := mkStatistics {
  moveCount : quad Z; autoCount : quad Z; moveMilliseconds : quad Z; actionCounts : quad (list Z); cardDetails : quad (list replayCardDetail)
}.

Record turn := mkTurn { verifyCode : Z; revision : Z; turnRevision : Z; actionStartedAt : Time; deadlineAt : Time }.

Record round := mkRound {
  gameNum : Z; subgameNum : Z; nextRound : UpdateRoundContextRequest; currentRound : UpdateRoundContextRequest;
  startedDresses : quad string; customDeckCatalog : CustomDeckCatalog; pendingResult : subgameResultSnapshot; settlementFailed : bool
}.

Record record := mkRecord { replayDocument : ReplayDocument; replayFinalized : bool; noticeAfterReplay : bool }.

Record NHSKBattleService := mkBattle {
  fx : fixedPart; service : bool; phase : NHSKBattlePhase; deleting : bool; su : setup; pe : people; ta : table; st : statistics;
  tu : turn; ro : round; re : record
}.

(** ** Construction *)

Definition zeroRound : UpdateRoundContextRequest := mkRoundContext 0 0 "".
Definition emptyTable : table :=
  mkTable ∅ 0 [] 0 0 (-1) 0 [] (qall 0) (qall false) (qall 0) [] (qall (replicate 8 0)) (qall (-1)).
Definition emptyStatistics : statistics := mkStatistics (qall 0) (qall 0) (qall 0) (qall (replicate 6 0)) (qall []).
Definition NHSKGameID : Z := 82.

(** [seed] is what [newBattleRandom] reads; [None] is a failure of the source. *)
Definition NewBattleService (c : NHSKBattleConfig) (seed : option Z) : res string NHSKBattleService :=
  if cfID c =? 0 then Err "nhsk: invalid Battle config"
  else
    match (if cfRandom c then Some (default 0 (cfRandomSeed c), match cfRandomSeed c with Some _ => true | None => false end)
           else match seed with Some s => Some (s, true) | None => None end) with
    | None => Err "nhsk: Battle random source failure"
    | Some (s, known) =>
        let timeout := if cfReplayTimeout c <=? 0 then 5 * Second else cfReplayTimeout c in
        Ok (mkBattle
              (mkFixed (cfID c) (cfOutputRef c) (cfGeneration c) (cfReporter c) (cfIsNewbie c) (cfReplaySubmitter c) timeout (cfAISubmitter c) s known)
              false AwaitingInit false
              (mkSetup (cfMatchID c) (if cfProductID c =? 0 then NHSKGameID else cfProductID c) DefaultNHSKConfig None)
              (mkPeople ∅ (qall "") ∅ ∅ ∅) emptyTable emptyStatistics (mkTurn 0 0 0 0 0)
              (mkRound 0 0 zeroRound zeroRound (qall "") [] zeroResult false) (mkRecord zeroDocument false false))
    end.

(** ** Setters *)

(** [upd rebuild s x v]: the record [s] rebuilt field by field with [v] for [x]. *)
Ltac upd rebuild s x v :=
  let t := eval cbv beta delta [rebuild] in (rebuild s) in
  let t := eval pattern x in t in
  lazymatch t with ?g _ => let r := eval cbv beta in (g v) in exact r end.

Definition rebuildBattle b := mkBattle (fx b) (service b) (phase b) (deleting b) (su b) (pe b) (ta b) (st b) (tu b) (ro b) (re b).
Definition rebuildTable t :=
  mkTable (hands t) (activeSeat t) (lastCards t) (lastRank t) (lastCount t) (preOutSeat t) (passCount t) (scoreCards t) (capturedPoints t)
    (finished t) (ranks t) (outedCards t) (lastPlayedCards t) (lastPlayCounts t).
Definition rebuildTurn t := mkTurn (verifyCode t) (revision t) (turnRevision t) (actionStartedAt t) (deadlineAt t).
Definition rebuildPeople p := mkPeople (players p) (bySeat p) (auto p) (offline p) (clientReady p).
Definition rebuildStatistics s := mkStatistics (moveCount s) (autoCount s) (moveMilliseconds s) (actionCounts s) (cardDetails s).
Definition rebuildRound r :=
  mkRound (gameNum r) (subgameNum r) (nextRound r) (currentRound r) (startedDresses r) (customDeckCatalog r) (pendingResult r) (settlementFailed r).
Definition rebuildRecord r := mkRecord (replayDocument r) (replayFinalized r) (noticeAfterReplay r).

Definition set_phase v b : NHSKBattleService := ltac:(upd rebuildBattle b (phase b) v).
Definition set_service v b : NHSKBattleService := ltac:(upd rebuildBattle b (service b) v).
Definition set_deleting v b : NHSKBattleService := ltac:(upd rebuildBattle b (deleting b) v).
Definition set_su v b : NHSKBattleService := ltac:(upd rebuildBattle b (su b) v).
Definition set_pe v b : NHSKBattleService := ltac:(upd rebuildBattle b (pe b) v).
Definition set_ta v b : NHSKBattleService := ltac:(upd rebuildBattle b (ta b) v).
Definition set_st v b : NHSKBattleService := ltac:(upd rebuildBattle b (st b) v).
Definition set_tu v b : NHSKBattleService := ltac:(upd rebuildBattle b (tu b) v).
Definition set_ro v b : NHSKBattleService := ltac:(upd rebuildBattle b (ro b) v).
Definition set_re v b : NHSKBattleService := ltac:(upd rebuildBattle b (re b) v).

Definition set_hands v t : table := ltac:(upd rebuildTable t (hands t) v).
Definition set_activeSeat v t : table := ltac:(upd rebuildTable t (activeSeat t) v).
Definition set_passCount v t : table := ltac:(upd rebuildTable t (passCount t) v).
Definition set_scoreCards v t : table := ltac:(upd rebuildTable t (scoreCards t) v).
Definition set_capturedPoints v t : table := ltac:(upd rebuildTable t (capturedPoints t) v).
Definition set_outedCards v t : table := ltac:(upd rebuildTable t (outedCards t) v).
Definition set_revision v t : turn := ltac:(upd rebuildTurn t (revision t) v).
Definition set_turnRevision v t : turn := ltac:(upd rebuildTurn t (turnRevision t) v).
Definition set_deadlineAt v t : turn := ltac:(upd rebuildTurn t (deadlineAt t) v).
Definition set_players v p : people := ltac:(upd rebuildPeople p (players p) v).
Definition set_auto v p : people := ltac:(upd rebuildPeople p (auto p) v).
Definition set_offline v p : people := ltac:(upd rebuildPeople p (offline p) v).
Definition set_clientReady v p : people := ltac:(upd rebuildPeople p (clientReady p) v).
Definition set_nextRound v r : round := ltac:(upd rebuildRound r (nextRound r) v).
Definition set_customDeckCatalog v r : round := ltac:(upd rebuildRound r (customDeckCatalog r) v).
Definition set_pendingResult v r : round := ltac:(upd rebuildRound r (pendingResult r) v).
Definition set_settlementFailed v r : round := ltac:(upd rebuildRound r (settlementFailed r) v).
Definition set_replayDocument v r : record := ltac:(upd rebuildRecord r (replayDocument r) v).
Definition set_replayFinalized v r : record := ltac:(upd rebuildRecord r (replayFinalized r) v).
Definition set_noticeAfterReplay v r : record := ltac:(upd rebuildRecord r (noticeAfterReplay r) v).

(** ** Effects *)

Inductive timerPayload :=
| replayFinalizeDeadline (gameNum subgameNum : Z)
| actionDeadline (turnRevision : Z) (source : ReplayMoveSource) (cards : list card)
| otherTimer.

Record NHSKBattleSnapshot := mkSnapshot {
  snBattleID : BattleID; snPhase : NHSKBattlePhase; snIdentity : option BattleIdentity; snPlayers : list BattlePlayer;
  snActivePlayer : PlayerID; snVerifyCode : Z; snHands : gmap PlayerID (list card); snAuto : gmap PlayerID bool; snRevision : Z;
  snTurnRevision : Z; snDeadlineUnix : Z
}.

(** A result is accepted or carries the text of the rejection. *)
Inductive nhskReply :=
| CommandResult (rejection : option string)
| ActionResult (rejection : option string)
| SettlementCommandResult (rejection : option string)
| SnapshotReply (s : NHSKBattleSnapshot).

Inductive nhskError := ErrInvalidClusterEnvelope | ErrUnauthorized | ErrUnknownCommand | ErrDeliver (e : rtError) | ErrPassed (e : rtError).

Inductive event :=
| Sent (batch : GameOutputBatch) (answer : error rtError)
| FailConnection (generation : Z)
| Replied (v : nhskReply) (answer : error rtError)
| TimerSet (delay : Duration) (p : timerPayload) (answer : error rtError)
| ReplaySubmitted (a : ReplayArtifact) (answer : error string)
| AISubmitted (r : AIRequest) (answer : error string)
| Looked (t : Time)
| Drawn (n : Z)
| Shuffled (swaps : list (nat * nat))
| Counted (name : string).

Class Env := {
  self : ServiceRef;
  ansSend : list event → GameOutputBatch → error rtError;
  ansReply : list event → nhskReply → error rtError;
  ansAfter : list event → Duration → timerPayload → error rtError;
  ansReplay : list event → ReplayArtifact → error string;
  ansAI : list event → AIRequest → error string;
  ansClock : list event → Time;
  ansIntn : list event → Z;
  ansShuffle : list event → list (nat * nat);
  (** [marshalReplayDocumentXML]; [None] is an error *)
  marshalXML : ReplayDocument → option (list byte);
  (** the formatting of [replayIdentity]: name, uid and path, from product, round,
      time, the user of seat 0 and the creator *)
  formatReplay : Z → Z → Time → Z → Z → string * string * string
}.

Record world := mkWorld { battle : NHSKBattleService; log : list event }.
Inductive outcome (X : Type) := Done (x : X) | Failed (e : nhskError) | Panicked.
Arguments Done {X} x.
Arguments Failed {X} e.
Arguments Panicked {X}.
Definition B (X : Type) : Type := world → world * outcome X.
#[global] Instance b_ret : MRet B := λ X x w, (w, Done x).
#[global] Instance b_bind : MBind B := λ X Y k m w,
  let '(w, o) := m w in match o with Done x => k x w | Failed e => (w, Failed e) | Panicked => (w, Panicked) end.

Definition fail {X} (e : nhskError) : B X := λ w, (w, Failed e).
Definition panic {X} : B X := λ w, (w, Panicked).
Definition get {X} (f : NHSKBattleService → X) : B X := λ w, (w, Done (f (battle w))).
Definition modify (f : NHSKBattleService → NHSKBattleService) : B unit := λ w, (mkWorld (f (battle w)) (log w), Done ()).
Definition note (e : event) : B unit := λ w, (mkWorld (battle w) (log w ++ [e]), Done ()).
Definition ask {X} (f : list event → X) : B X := λ w, (w, Done (f (log w))).
(** An index expression on an array of four. *)
Definition index {X} (q : quad X) (i : Z) : B X := match qat q i with Some x => mret x | None => panic end.

Definition onTable f : B unit := modify (λ b, set_ta (f (ta b)) b).
Definition onTurn f : B unit := modify (λ b, set_tu (f (tu b)) b).
Definition onPeople f : B unit := modify (λ b, set_pe (f (pe b)) b).
Definition onRound f : B unit := modify (λ b, set_ro (f (ro b)) b).
Definition onRecord f : B unit := modify (λ b, set_re (f (re b)) b).
Definition onStatistics f : B unit := modify (λ b, set_st (f (st b)) b).
Definition move (m : ReplayMove) : B unit := onRecord (λ r, set_replayDocument (appendMove m (replayDocument r)) r).

Definition playerOf (b : NHSKBattleService) (p : PlayerID) : BattlePlayer := default zeroPlayer (players (pe b) !! p).
Definition handOfPlayer (b : NHSKBattleService) (p : PlayerID) : list card := default [] (hands (ta b) !! p).
Definition isAuto (b : NHSKBattleService) (p : PlayerID) : bool := default false (auto (pe b) !! p).
Definition isOffline (b : NHSKBattleService) (p : PlayerID) : bool := default false (offline (pe b) !! p).
Definition isReady (b : NHSKBattleService) (p : PlayerID) : bool := default false (clientReady (pe b) !! p).
Definition initialized (b : NHSKBattleService) : bool := match initialization (su b) with Some _ => true | None => false end.
Definition known (b : NHSKBattleService) (p : PlayerID) : bool := negb (bool_decide (bpPlayer (playerOf b p) = "")).

Section Service.
Context {E : Env}.

Definition now : B Time := t ← ask ansClock; note (Looked t) ;; mret t.
Definition inc (name : string) : B unit := s ← get service; if s : bool then note (Counted name) else mret ().
Definition after (delay : Duration) (p : timerPayload) : B (error rtError) :=
  a ← ask (λ l, ansAfter l delay p); note (TimerSet delay p a) ;; mret a.

(** [reply]: a command that came by [Send] has nobody to answer, which is fine. *)
Definition reply (v : nhskReply) : B unit :=
  a ← ask (λ l, ansReply l v);
  note (Replied v a) ;;
  match a with
  | None => mret ()
  | Some e => if errors_Is e ErrReplyUnavailable then mret () else fail (ErrPassed e)
  end.
Definition errBattleInvalidRequest : string := "nhsk: invalid Battle request".
Definition errBattleStateConflict : string := "nhsk: battle state conflict".
Definition errBattleRandomFailure : string := "nhsk: Battle random source failure".
Definition reject (text : string) : B unit := reply (CommandResult (Some text)).
Definition accept : B unit := reply (CommandResult None).

(** [emit], with its error as a value. *)
Definition deliver (o : GameOutput) : B (error nhskError) :=
  b ← get id;
  if deleting b || negb (service b) || (ID (outputRef (fx b)) =? 0) || (matchID (su b) =? 0) || (productID (su b) =? 0) then mret None
  else
    let batch := mkBatch (battleID (fx b)) (matchID (su b)) (productID (su b)) self (connectionGeneration (fx b)) [o] in
    a ← ask (λ l, ansSend l batch);
    note (Sent batch a) ;;
    match a with
    | None => mret None
    | Some e =>
        (if reporter (fx b) && negb (connectionGeneration (fx b) =? 0) then note (FailConnection (connectionGeneration (fx b))) else mret ()) ;;
        mret (Some (ErrDeliver e))
    end.
Definition emit (o : GameOutput) : B unit := e ← deliver o; match e with None => mret () | Some e => fail e end.

(** *** Views *)

Definition activePlayersOf (b : NHSKBattleService) : list PlayerID :=
  filter (λ p, p ≠ "" ∧ bpExited (playerOf b p) = false) (qlist (bySeat (pe b))).
Definition roundStatPlayers (b : NHSKBattleService) : list PlayerID :=
  filter (λ p, p ≠ "" ∧ bpExited (playerOf b p) = false ∧ isReady b p = true) (qlist (bySeat (pe b))).
Definition toAll (payload : OutputPayload) : B unit := targets ← get activePlayersOf; emit (ClientGameOutput targets payload).
Definition toOne (p : PlayerID) (payload : OutputPayload) : B unit := emit (ClientGameOutput [p] payload).

Definition hasFourPlayers (b : NHSKBattleService) : bool :=
  forallb (λ p, negb (bool_decide (p = ""))) (qlist (bySeat (pe b))) && (4 <=? Z.of_nat (size (players (pe b)))).
Definition playersBySeat (b : NHSKBattleService) : quad BattlePlayer := qmap (playerOf b) (bySeat (pe b)).
Definition finishedPlayerCount (b : NHSKBattleService) : Z := Z.of_nat (length (filter (λ f, f = true) (qlist (finished (ta b))))).
Definition partnerSeat (seat : Z) : Z := (seat + 2) `mod` 4.
Definition seatOf (b : NHSKBattleService) (p : PlayerID) : Z :=
  default (-1) (fst <$> head (filter (λ e, e.2 = p) (zip seats (qlist (bySeat (pe b)))))).

Definition gameInfoPayload (b : NHSKBattleService) : OutputPayload :=
  GameInfoPayload (u32 (outCardTimeout (rules (su b)) `quot` Second)) (from_option izFee 0 (initialization (su b)))
    (qmap (λ p, if bool_decide (p = "") then 0 else bpScore (playerOf b p)) (bySeat (pe b))) (gameNum (ro b)).
Definition askOutCardPayload : B OutputPayload :=
  b ← get id;
  p ← index (bySeat (pe b)) (activeSeat (ta b));
  mret (AskOutCardPayload p (verifyCode (tu b)) (u32 (outCardTimeout (rules (su b)) `quot` Millisecond))).
Definition remainingActionMilliseconds : B Z :=
  deadline ← get (deadlineAt ∘ tu);
  if deadline =? 0 then mret 0
  else t ← now; mret (if deadline - t <=? 0 then 0 else u32 ((deadline - t) `quot` Millisecond)).
Definition currentActionMilliseconds : B Z :=
  started ← get (actionStartedAt ∘ tu);
  if started =? 0 then mret 0
  else t ← now; mret (if t - started <=? 0 then 0 else u32 ((t - started) `quot` Millisecond)).

(** [finishedSeat] -1 with [revealAll] shows every hand, a seat shows its partner. *)
Definition showCardsPayload (b : NHSKBattleService) (finishedSeat : Z) (revealAll : bool) : OutputPayload :=
  let partner := if (0 <=? finishedSeat) && (finishedSeat <? 4) then partnerSeat finishedSeat else -1 in
  ShowCardsPayload (bySeat (pe b)) (qmap (λ p, u8 (numCards (handOfPlayer b p))) (bySeat (pe b)))
    (qseats (λ seat, if revealAll || (seat =? partner) then toFixedCards (handOfPlayer b (qget "" (bySeat (pe b)) seat)) else toFixedCards [])).

Definition scenePayload (target : PlayerID) : B OutputPayload :=
  remaining ← remainingActionMilliseconds;
  b ← get id;
  let targetSeat := seatOf b target in
  mret (GameScene (mkScene
    (if bool_decide (phase b = AwaitingSettlement) then GameSceneStateShowingResult else GameSceneStatePlaying)
    (i8 (activeSeat (ta b))) (i8 (preOutSeat (ta b))) (remaining `quot` 1000) (fixed 24 (scoreCards (ta b)))
    (u8 (numCards (scoreCards (ta b)))) (u8 (finishedPlayerCount b))
    (qseats (λ seat,
       let p := qget "" (bySeat (pe b)) seat in
       mkScenePlayer p (isAuto b p) (isOffline b p)
         (if bool_decide (p = target) || ((0 <=? targetSeat) && (numCards (handOfPlayer b target) =? 0) && (seat =? partnerSeat targetSeat))
          then toFixedCards (handOfPlayer b p) else toFixedCards [])
         (u8 (numCards (handOfPlayer b p))) (qget [] (lastPlayedCards (ta b)) seat) (qget 0 (lastPlayCounts (ta b)) seat)
         (qget 0 (capturedPoints (ta b)) seat) (qget 0 (ranks (ta b)) seat))))).

Definition restorePlayerView (p : PlayerID) : B unit :=
  onPeople (λ q, set_clientReady (<[p := true]> (clientReady q)) q) ;;
  b ← get id;
  toOne p (gameInfoPayload b) ;;
  scene ← scenePayload p;
  toOne p scene ;;
  b ← get id;
  if bool_decide (phase b = Playing) then
    active ← index (bySeat (pe b)) (activeSeat (ta b));
    if bool_decide (active = p) then payload ← askOutCardPayload; toOne p payload else mret ()
  else mret ().

Definition gameResultPayload (b : NHSKBattleService) (reason : GameOverReason) (scores : quad Z) (r : subgameResultSnapshot) : OutputPayload :=
  GameResult (mkGameResult reason (bySeat (pe b)) (rsAutomated r) scores (rsOutcomes r) (rsPoints r) (rsRanks r) (rsResult r) (rsWinningTeam r)
    (from_option rsReplayUID "" (rdStart (replayDocument (re b))))).

(** *** Actions *)

(** The conversions [uint32(...)] of the configured count and the 64-bit product. *)
Definition settlementAutomated (b : NHSKBattleService) : quad bool :=
  let minCount := AutoSettlementMinCount (rules (su b)) in
  let factor := AutoSettlementRatioFactor (rules (su b)) in
  qseats (λ seat,
    let autos := qget 0 (autoCount (st b)) seat in
    let byCount := u32 minCount <=? autos in
    let byRatio := qget 0 (moveCount (st b)) seat <=? i64 (autos * factor) in
    if (0 <=? minCount) && (0 <=? factor) then byCount && byRatio
    else if 0 <=? minCount then byCount else if 0 <=? factor then byRatio else false).

Definition buildAIRequest (b : NHSKBattleService) (p : PlayerID) (startedAt : Time) (actionTimeout : Duration) : AIRequest :=
  mkAIRequest self (battleID (fx b)) (from_option (idProduct ∘ izIdentity) 0 (initialization (su b)))
    (from_option (idMatch ∘ izIdentity) 0 (initialization (su b))) (from_option (idRound ∘ izIdentity) 0 (initialization (su b)))
    (gameNum (ro b)) (subgameNum (ro b)) (bpUserID (playerOf b p)) (u8 (activeSeat (ta b))) (turnRevision (tu b)) (verifyCode (tu b)) startedAt
    (u32 (MsOutCardRobot (rules (su b)) `quot` Millisecond)) (u32 (actionTimeout `quot` Millisecond))
    (mkAIScene (u8 (activeSeat (ta b))) (from_option rsBankerSeat 0 (rdStart (replayDocument (re b))))
       (qmap (λ q, u8 (numCards (handOfPlayer b q))) (bySeat (pe b))) (handOfPlayer b p) (capturedPoints (ta b)) (ranks (ta b))
       (scoreCardsIn (scoreCards (ta b))).1 (numCards (lastCards (ta b)) =? 0) (outedCards (ta b))).

Definition usesAI (b : NHSKBattleService) (p : PlayerID) : bool :=
  negb (bool_decide (p = "")) && aiSubmitter (fx b)
  && (bpAutomated (playerOf b p) || isOffline b p && isAuto b p && OfflineAutoUsesAI (rules (su b))).

Definition startAction (timeout : Duration) : B unit :=
  onTurn (λ t, mkTurn (u32 (verifyCode t + 2)) (revision t) (u64 (turnRevision t + 1)) (actionStartedAt t) (deadlineAt t)) ;;
  startedAt ← now;
  onTurn (λ t, mkTurn (verifyCode t) (revision t) (turnRevision t) startedAt (deadlineAt t)) ;;
  has ← get service;
  (if has : bool then
     b ← get id;
     p ← index (bySeat (pe b)) (activeSeat (ta b));
     let useAI := usesAI b p in
     let automatic := negb useAI && negb (bool_decide (p = "")) && (isAuto b p || bpAutomated (playerOf b p)) in
     let source := if automatic then ReplayMoveSourceAuto else ReplayMoveSourceTimeout in
     let delay := if useAI then (if 0 <? MsAITimeout (rules (su b)) then MsAITimeout (rules (su b)) else timeout)
                  else if automatic then (if 0 <? MsOutCardRobot (rules (su b)) then MsOutCardRobot (rules (su b)) else timeout)
                  else timeout in
     onTurn (set_deadlineAt (startedAt + delay)) ;;
     rev ← get (turnRevision ∘ tu);
     e ← after delay (actionDeadline rev source []);
     match e with
     | Some e => fail (ErrPassed e)
     | None =>
         if useAI then
           b ← get id;
           let request := buildAIRequest b p startedAt timeout in
           a ← ask (λ l, ansAI l request);
           note (AISubmitted request a) ;;
           match a with Some _ => inc "nhsk_ai_submit_failure_total" | None => mret () end
         else mret ()
     end
   else onTurn (set_deadlineAt 0)) ;;
  b ← get id;
  if bool_decide (phase b ≠ Playing) then mret ()
  else
    p ← index (bySeat (pe b)) (activeSeat (ta b));
    if bool_decide (p = "") then mret ()
    else payload ← askOutCardPayload; toAll payload.

Definition startTurn : B unit := c ← get (rules ∘ su); startAction (outCardTimeout c).

Definition resetTrick (t : table) : table :=
  mkTable (hands t) (activeSeat t) [] (-1) 0 (-1) 0 [] (capturedPoints t) (finished t) (ranks t) (outedCards t) (qall (replicate 8 0)) (qall (-1)).

(** The loop over the four following seats, [steps] of them still to look at. *)
Fixpoint advanceSteps (b : NHSKBattleService) (steps : list Z) (t : table) : table :=
  match steps with
  | [] => t
  | step :: steps =>
      let seat := (activeSeat t + step) `mod` 4 in
      let p := qget "" (bySeat (pe b)) seat in
      if negb (bool_decide (p = "")) && negb (numCards (handOfPlayer b p) =? 0) && negb (bpExited (playerOf b p)) then set_activeSeat seat t
      else advanceSteps b steps (if 0 <=? preOutSeat t then set_passCount (passCount t + 1) t else t)
  end.
Definition advanceSeat : B unit := modify (λ b, set_ta (advanceSteps b [1; 2; 3; 4] (ta b)) b).

(** Points are [uint32] and are added to [uint16] totals. *)
Definition addPoints (seat points : Z) (q : quad Z) : quad Z := qset seat (u16 (qget 0 q seat + u16 points)) q.

Definition finishTrick : B unit :=
  b ← get id;
  let winnerSeat := preOutSeat (ta b) in
  if (winnerSeat <? 0) || (4 <=? winnerSeat) || bool_decide (qget "" (bySeat (pe b)) winnerSeat = "") then mret ()
  else
    let winner := qget "" (bySeat (pe b)) winnerSeat in
    let points := (scoreCardsIn (scoreCards (ta b))).1 in
    onTable (λ t, set_capturedPoints (addPoints winnerSeat points (capturedPoints t)) t) ;;
    (if 0 <? points then move (catchMove (u8 winnerSeat) (bpUserID (playerOf b winner)) (scoreCards (ta b)) points) else mret ()) ;;
    captured ← get (capturedPoints ∘ ta);
    move (turnEndMove captured) ;;
    toAll (TurnEndPayload winner points) ;;
    hand ← get (λ b, handOfPlayer b winner);
    onTable (set_activeSeat (if numCards hand =? 0 then partnerSeat winnerSeat else winnerSeat)) ;;
    onTable resetTrick ;;
    startTurn.

Definition advanceTurn : B unit :=
  advanceSeat ;;
  t ← get ta;
  if (0 <=? preOutSeat t) && (3 <=? passCount t) then finishTrick else startTurn.

Definition changeAutoState (p : PlayerID) (enabled : bool) : B unit :=
  current ← get (λ b, isAuto b p);
  if bool_decide (current = enabled) then mret ()
  else onPeople (λ q, set_auto (<[p := enabled]> (auto q)) q) ;; toAll (PlayerAutoStatePayload p enabled).

Definition actionReject (p : PlayerID) (reason : string) : B unit :=
  _ ← deliver (ClientGameOutput [p] (OutCardRejectionPayload OutCardRejectionCardCount));
  reply (ActionResult (Some reason)).
Definition actionFailure (p : PlayerID) (reason : string) (notify : bool) : B unit := if notify then actionReject p reason else mret ().

Definition awardFinalScoreCards : B unit :=
  b ← get id;
  let seat := preOutSeat (ta b) in
  (if (seat <? 0) || (4 <=? seat) then mret ()
   else
     let '(points, cards) := scoreCardsIn (scoreCards (ta b)) in
     if 0 <? points then
       onTable (λ t, set_capturedPoints (addPoints seat points (capturedPoints t)) t) ;;
       move (catchMove (u8 seat) (bpUserID (playerOf b (qget "" (bySeat (pe b)) seat))) cards points)
     else mret ()) ;;
  onTable (set_scoreCards []).

Definition actionIndex (k : cardPatternKind) (cards : list card) : nat :=
  if numCards cards =? 0 then 0%nat
  else match k with
       | cardPatternSingle => 1 | cardPatternPair => 2 | cardPatternTriple => 3 | cardPatternThreeTwo => 4 | cardPatternBomb => 5
       | cardPatternInvalid => 0
       end%nat.
Definition recordReplayAction (seat : Z) (pattern : cardPattern) (cards : list card) (s : statistics) : statistics :=
  mkStatistics (moveCount s) (autoCount s) (moveMilliseconds s)
    (qset seat (alter (λ n, u32 (n + 1)) (actionIndex (kind pattern) cards) (qget [] (actionCounts s) seat)) (actionCounts s))
    (if bool_decide (kind pattern = cardPatternBomb) && negb (numCards cards =? 0)
     then qset seat (qget [] (cardDetails s) seat ++ [mkDetail "ZhaDan" cards]) (cardDetails s) else cardDetails s).

Definition localAutoCards (b : NHSKBattleService) (p : PlayerID) : list card :=
  if negb (numCards (lastCards (ta b)) =? 0) || (numCards (handOfPlayer b p) =? 0) then []
  else option_list (smallestCard (handOfPlayer b p)).

Definition validActionCandidate (b : NHSKBattleService) (p : PlayerID) (cards : list card) : bool :=
  if (8 <? numCards cards) || (numCards cards =? 0) && (numCards (lastCards (ta b)) =? 0) then false
  else match validateCards (handOfPlayer b p) cards with
       | None => false
       | Some _ => (numCards cards =? 0) || (numCards (lastCards (ta b)) =? 0) || (0 <? compareCardSets cards (lastCards (ta b)))
       end.

(** The part of a play that changes the table, before it is announced. *)
Definition commitPlay (p : PlayerID) (cards : list card) (pattern : cardPattern) (t : table) : table :=
  let seat := activeSeat t in
  let t := set_hands (<[p := removeCards (default [] (hands t !! p)) cards]> (hands t)) t in
  if negb (numCards cards =? 0)
  then mkTable (hands t) seat cards (rank pattern) (count pattern) seat 0 (scoreCards t ++ (scoreCardsIn cards).2) (capturedPoints t)
         (finished t) (ranks t) (outedCards t)
         (qset seat (cards ++ drop (length cards) (qget [] (lastPlayedCards t) seat)) (lastPlayedCards t))
         (qset seat (i8 (numCards cards)) (lastPlayCounts t))
  else mkTable (hands t) seat (lastCards t) (lastRank t) (lastCount t) (preOutSeat t) (passCount t + 1) (scoreCards t) (capturedPoints t)
         (finished t) (ranks t) (outedCards t) (qset seat (replicate 8 0) (lastPlayedCards t)) (qset seat 0 (lastPlayCounts t)).

(** An accepted action, up to its announcement: none of these steps can fail. *)
Definition commitAction (p : PlayerID) (cards : list card) (pattern : cardPattern) (source : ReplayMoveSource) (ms : Z) : B unit :=
  onTable (commitPlay p cards pattern) ;;
  b ← get id;
  let seat := activeSeat (ta b) in
  (if negb (numCards cards =? 0)
   then move (pointMove (scoreCards (ta b)) (scoreCardsIn (scoreCards (ta b))).1) else mret ()) ;;
  move (outCardMove (u8 seat) (bpUserID (playerOf b p)) cards (replayCardTypeName pattern (numCards cards)) source ms) ;;
  onStatistics (λ s, recordReplayAction seat pattern cards
    (mkStatistics (qset seat (u32 (qget 0 (moveCount s) seat + 1)) (moveCount s)) (autoCount s)
       (qset seat (u32 (qget 0 (moveMilliseconds s) seat + ms)) (moveMilliseconds s)) (actionCounts s) (cardDetails s))) ;;
  onTable (λ t, set_outedCards (outedCards t ++ [cards]) t) ;;
  (if negb (bpAutomated (playerOf b p)) && bool_decide (source ≠ ReplayMoveSourcePlayer)
   then onStatistics (λ s, mkStatistics (moveCount s) (qset seat (u32 (qget 0 (autoCount s) seat + 1)) (autoCount s))
                             (moveMilliseconds s) (actionCounts s) (cardDetails s)) else mret ()) ;;
  onTurn (λ t, set_revision (u64 (revision t + 1)) t).

(** The end of a subgame by play. *)
Definition finishByPlay : B unit :=
  awardFinalScoreCards ;;
  modify (set_phase AwaitingSettlement) ;;
  onTurn (set_deadlineAt 0) ;;
  b ← get id;
  toAll (showCardsPayload b (-1) true) ;;
  b ← get id;
  let result := calculateSubgameResult GameOverReasonSuccess (ranks (ta b)) (capturedPoints (ta b)) (settlementAutomated b) in
  onRound (set_pendingResult result) ;;
  emit (SettlementRequested (buildSettlementRequest result (playersBySeat b))).

(** The active player has no cards left. *)
Definition leaveTable (p : PlayerID) (seat : Z) : B unit :=
  onTable (λ t, mkTable (hands t) (activeSeat t) (lastCards t) (lastRank t) (lastCount t) (preOutSeat t) (passCount t) (scoreCards t)
                  (capturedPoints t) (qset seat true (finished t)) (ranks t) (outedCards t) (lastPlayedCards t) (lastPlayCounts t)) ;;
  n ← get finishedPlayerCount;
  onTable (λ t, mkTable (hands t) (activeSeat t) (lastCards t) (lastRank t) (lastCount t) (preOutSeat t) (passCount t) (scoreCards t)
                  (capturedPoints t) (finished t) (qset seat (u8 n) (ranks t)) (outedCards t) (lastPlayedCards t) (lastPlayCounts t)) ;;
  b ← get id;
  if numCards (handOfPlayer b (qget "" (bySeat (pe b)) (partnerSeat seat))) =? 0 then finishByPlay
  else toOne p (showCardsPayload b seat false) ;; advanceTurn.

(** An accepted action is announced, and the next turn begins. *)
Definition announce (p : PlayerID) (cards : list card) : B unit :=
  toAll (OutCardInfoPayload p (toFixedEight cards) (u8 (numCards cards))) ;;
  b ← get id;
  let seat := activeSeat (ta b) in
  if (numCards (handOfPlayer b p) =? 0) && negb (qget false (finished (ta b)) seat) then leaveTable p seat else advanceTurn.

Definition playWithSource (p : PlayerID) (cards : list card) (code : Z) (source : ReplayMoveSource) (notify : bool) : B unit :=
  b ← get id;
  if bool_decide (phase b ≠ Playing) then actionFailure p "not_playing" notify
  else
    active ← index (bySeat (pe b)) (activeSeat (ta b));
    if bool_decide (p ≠ active) then actionFailure p "not_active" notify
    else if (code =? 0) || negb (code =? verifyCode (tu b)) then actionFailure p "stale_verify_code" notify
    else if 8 <? numCards cards then actionFailure p "card_count" notify
    else if (numCards cards =? 0) && (numCards (lastCards (ta b)) =? 0) then actionFailure p "first_play_cannot_pass" notify
    else
      match validateCards (handOfPlayer b p) cards with
      | None => actionFailure p "card_type" notify
      | Some pattern =>
          if negb (numCards cards =? 0) && negb (numCards (lastCards (ta b)) =? 0) && (compareCardSets cards (lastCards (ta b)) <=? 0)
          then actionFailure p "card_type" notify
          else
            (if bool_decide (source = ReplayMoveSourcePlayer) then changeAutoState p false else mret ()) ;;
            ms ← currentActionMilliseconds;
            commitAction p cards pattern source ms ;;
            announce p cards ;;
            if notify then reply (ActionResult None) else mret ()
      end.

(** *** The end of a subgame *)

Definition observeReplayFailure : B unit := inc "nhsk_replay_finalize_failure_total".

Definition finishReplay : B unit :=
  b ← get id;
  match rdEnd (replayDocument (re b)) with
  | None => mret ()
  | Some e =>
      if bool_decide (phase b ≠ FinalizingReplay) || replayFinalized (re b) then mret ()
      else
        onRecord (set_replayFinalized true) ;;
        targets ← get roundStatPlayers;
        (if bool_decide (targets = []) then mret () else emit (ClientGameOutput targets RoundStatPayload)) ;;
        emit (GameOver (mkOver (rsReason (enResult e)) (from_option rsReplayName "" (rdStart (replayDocument (re b)))) false
                 (qseats (λ seat, mkOverPlayer (qget 0 (enFinalScores e) seat) (bpExp (qget zeroPlayer (enPlayers e) seat))
                                    (qget false (rsAutomated (enResult e)) seat))))) ;;
        notice ← get (noticeAfterReplay ∘ re);
        (if notice : bool then onRecord (set_noticeAfterReplay false) ;; emit (NoticeRoundOverOutput GameOverReasonSuccess) else mret ()) ;;
        modify (set_phase Finished)
  end.

Definition finalizeReplay (r : subgameResultSnapshot) (scores : quad Z) : B unit :=
  t ← now;
  b ← get id;
  onRecord (λ x, set_replayDocument (finalize (mkEnd t r scores (playersBySeat b) (moveCount (st b)) (autoCount (st b))
    (moveMilliseconds (st b)) (actionCounts (st b)) (cardDetails (st b))) (replayDocument x)) x).

Definition beginReplayFinalization : B unit :=
  modify (set_phase FinalizingReplay) ;;
  b ← get id;
  match marshalXML (replayDocument (re b)) with
  | None => observeReplayFailure ;; finishReplay
  | Some xml =>
      if negb (replaySubmitter (fx b)) then finishReplay
      else
        let start := rdStart (replayDocument (re b)) in
        let artifact := mkArtifact self (battleID (fx b)) (gameNum (ro b)) (subgameNum (ro b)) (from_option rsReplayName "" start)
                          (from_option rsRelativePath "" start) xml in
        a ← ask (λ l, ansReplay l artifact);
        note (ReplaySubmitted artifact a) ;;
        match a with
        | Some _ => observeReplayFailure ;; finishReplay
        | None =>
            if negb (service b) then finishReplay
            else
              e ← after (replayTimeout (fx b)) (replayFinalizeDeadline (gameNum (ro b)) (subgameNum (ro b)));
              match e with Some _ => observeReplayFailure ;; finishReplay | None => mret () end
        end
  end.

Definition setScores (scores : quad Z) (b : NHSKBattleService) : NHSKBattleService :=
  foldl (λ b seat, let p := qget "" (bySeat (pe b)) seat in
           set_pe (set_players (<[p := setScore (qget 0 scores seat) (playerOf b p)]> (players (pe b))) (pe b)) b) b seats.

Definition forceFinish (payload : bool) : B unit :=
  if negb payload then reject errBattleInvalidRequest
  else
    b ← get id;
    (if bool_decide (phase b = Playing) || bool_decide (phase b = AwaitingSettlement) then
       onTurn (λ t, mkTurn (verifyCode t) (u64 (revision t + 1)) (u64 (turnRevision t + 1)) (actionStartedAt t) 0) ;;
       modify (set_phase Finished) ;;
       b ← get id;
       toAll (showCardsPayload b (-1) true) ;;
       b ← get id;
       let result := calculateSubgameResult GameOverReasonSuccess (ranks (ta b)) (capturedPoints (ta b)) (settlementAutomated b) in
       modify (setScores (rsMultiples result)) ;;
       b ← get id;
       toAll (gameResultPayload b GameOverReasonSuccess (rsMultiples result) result) ;;
       onRecord (set_noticeAfterReplay true) ;;
       finalizeReplay result (rsMultiples result) ;;
       beginReplayFinalization
     else mret ()) ;;
    accept.

Definition settlementReject (text : string) : B unit := reply (SettlementCommandResult (Some text)).

(** Whether every seat has a player, up to the first that has none. *)
Definition seatedPlayer (b : NHSKBattleService) (seat : Z) : bool :=
  let p := qget "" (bySeat (pe b)) seat in negb (bool_decide (p = "")) && known b p.
Fixpoint applyPlan (plan : settlementPlan) (seatList : list Z) (b : NHSKBattleService) : NHSKBattleService * bool :=
  match seatList with
  | [] => (b, true)
  | seat :: rest =>
      if negb (seatedPlayer b seat) then (b, false)
      else
        let p := qget "" (bySeat (pe b)) seat in
        let value := setFlags (qget false (plIsBreak plan) seat) (qget false (plIsSeal plan) seat) (bpDress (playerOf b p))
                       (setScore (qget 0 (plScores plan) seat) (playerOf b p)) in
        applyPlan plan rest (set_pe (set_players (<[p := value]> (players (pe b))) (pe b)) b)
  end.

Definition seatedPlayers (b : NHSKBattleService) : quad (option BattlePlayer) :=
  qmap (λ p, if bool_decide (p = "") then None else Some (playerOf b p)) (bySeat (pe b)).

Definition completeSettlement (payload : option CompleteSettlementRequest) : B unit :=
  b ← get id;
  match payload with
  | None => settlementReject errBattleStateConflict
  | Some request =>
      if bool_decide (phase b ≠ AwaitingSettlement) then settlementReject errBattleStateConflict
      else
        match planSettlement (seatedPlayers b) request with
        | Err detail => settlementReject (errBattleInvalidRequest +:+ ": " +:+ detail)
        | Ok plan =>
            let '(b', complete) := applyPlan plan seats b in
            modify (λ _, b') ;;
            if negb complete then settlementReject errBattleInvalidRequest
            else
              onRound (set_settlementFailed (plFailed plan)) ;;
              b ← get id;
              let compute reason := calculateSubgameResult reason (ranks (ta b)) (capturedPoints (ta b)) (settlementAutomated b) in
              let pending := pendingResult (ro b) in
              let result := if plFailed plan then compute GameOverReasonDissolve
                            else if bool_decide (rsRanks pending = qall 0) then compute GameOverReasonSuccess else pending in
              let reason := if plFailed plan then GameOverReasonDissolve else GameOverReasonSuccess in
              modify (set_phase Finished) ;;
              onTurn (λ t, set_revision (u64 (revision t + 1)) t) ;;
              b ← get id;
              toAll (gameResultPayload b reason (plScores plan) result) ;;
              finalizeReplay result (plScores plan) ;;
              beginReplayFinalization ;;
              reply (SettlementCommandResult None)
        end
  end.

(** *** Setting up *)

(** The request is [None] when the payload has another type, here and below. *)
Definition initialize (payload : option InitializeBattleRequest) : B unit :=
  b ← get id;
  match payload with
  | None => reject errBattleInvalidRequest
  | Some r =>
      let i := inIdentity r in
      if (idBattle i =? 0) || negb (idBattle i =? battleID (fx b)) || (idProduct i =? 0) || (idMatch i =? 0) then reject errBattleInvalidRequest
      else
        let rules := default DefaultNHSKConfig (inRules r) in
        let z := mkInitialization i (inMaxGameNum r) (inMaxSubgameNum r) (inFee r) (inScoreBase r) (inScoreDenominator r) (inReplayMetadata r)
                   (inReplayRules r) rules in
        match initialization (su b) with
        | Some z' => if bool_decide (z' = z) then accept else reject errBattleStateConflict
        | None => modify (set_su (mkSetup (idMatch i) (idProduct i) rules (Some z))) ;; accept
        end
  end.

(** The loop that checks the players of a request. *)
Fixpoint validPlayers (l : list BattlePlayer) (seenPlayers : gset PlayerID) (seenSeats : gset Z) : bool :=
  match l with
  | [] => true
  | p :: l =>
      negb (bool_decide (bpPlayer p = "")) && negb (bpUserID p =? 0) && (bpSeatID p <? 4)
      && negb (bool_decide (bpPlayer p ∈ seenPlayers)) && negb (bool_decide (bpSeatID p ∈ seenSeats))
      && validPlayers l ({[bpPlayer p]} ∪ seenPlayers) ({[bpSeatID p]} ∪ seenSeats)
  end.
(** The players after a request, which keeps flags and dress of those known. *)
Definition upsertPlayer (m : gmap PlayerID BattlePlayer) (p : BattlePlayer) : gmap PlayerID BattlePlayer :=
  let old := default zeroPlayer (m !! bpPlayer p) in
  <[bpPlayer p := setFlags (bpIsBreak old) (bpIsSeal old) (bpDress old) p]> m.
Definition upsertReady (m : gmap PlayerID bool) (p : BattlePlayer) : gmap PlayerID bool :=
  match m !! bpPlayer p with Some _ => m | None => <[bpPlayer p := true]> m end.
(** The loop over the map; [None] when two players claim one seat. *)
Fixpoint seatPlayers (l : list BattlePlayer) (q : quad PlayerID) : option (quad PlayerID) :=
  match l with
  | [] => Some q
  | p :: l =>
      let held := qget "" q (bpSeatID p) in
      if negb (bool_decide (held = "")) && negb (bool_decide (held = bpPlayer p)) then None
      else seatPlayers l (qset (bpSeatID p) (bpPlayer p) q)
  end.

Definition updatePlayers (payload : option (list BattlePlayer)) : B unit :=
  b ← get id;
  match payload with
  | None => reject errBattleInvalidRequest
  | Some request =>
      if negb (initialized b) || negb (bool_decide (phase b = AwaitingInit) || bool_decide (phase b = Preparing))
         || bool_decide (request = []) || negb (validPlayers request ∅ ∅)
      then reject errBattleInvalidRequest
      else
        let candidate := foldl upsertPlayer (players (pe b)) request in
        let ready := foldl upsertReady (map_imap (λ p _, Some (isReady b p)) (players (pe b))) request in
        match seatPlayers (map_to_list candidate).*2 (qall "") with
        | None => reject errBattleInvalidRequest
        | Some q => onPeople (λ p, mkPeople candidate q (auto p) (offline p) ready) ;; accept
        end
  end.

Definition prepare (payload : option (Z * Z)) : B unit :=
  b ← get id;
  match payload with
  | None => reject errBattleInvalidRequest
  | Some (game, subgame) =>
      if negb (initialized b) || (game =? 0) || (subgame =? 0) || negb (hasFourPlayers b) then reject errBattleInvalidRequest
      else if bool_decide (phase b = Preparing) && (gameNum (ro b) =? game) && (subgameNum (ro b) =? subgame) then accept
      else if negb (bool_decide (phase b ∈ [AwaitingInit; Finished; Preparing])) then reject errBattleStateConflict
      else
        onRound (λ r, mkRound game subgame (nextRound r) (currentRound r) (startedDresses r) [] (pendingResult r) (settlementFailed r)) ;;
        modify (set_phase Preparing) ;;
        accept
  end.

Definition provideCustomDeck (payload : option (BattleID * Z * Z * CustomDeckCatalog)) : B unit :=
  b ← get id;
  match payload with
  | None => reject errBattleInvalidRequest
  | Some (id, game, subgame, catalog) =>
      if negb (id =? battleID (fx b)) || (game =? 0) || (subgame =? 0) || negb (validCatalog catalog) then reject errBattleInvalidRequest
      else if negb (initialized b) || negb (bool_decide (phase b = Preparing)) || negb (gameNum (ro b) =? game) || negb (subgameNum (ro b) =? subgame)
      then reject errBattleStateConflict
      else onRound (set_customDeckCatalog catalog) ;; accept
  end.

(** A runner result: its error and whether a deck is available. *)
Definition applyCustomDeckLoadResult (source : ServiceRef) (payload : option (bool * bool * (BattleID * Z * Z * CustomDeckCatalog))) : B unit :=
  if negb (bool_decide (source = mkRef (Node self) 0)) then fail ErrUnauthorized
  else match payload with
       | Some (false, true, provision) => provideCustomDeck (Some provision)
       | _ => mret ()
       end.

Definition customDeckForSubgame (b : NHSKBattleService) : option CustomDeck :=
  if negb (validCatalog (customDeckCatalog (ro b))) then None
  else customDeckCatalog (ro b) !! Z.to_nat (u16 (subgameNum (ro b) - 1) `mod` Z.of_nat (length (customDeckCatalog (ro b)))).

(** *** Starting *)

Definition newPlayerSeat (b : NHSKBattleService) : option Z :=
  head (filter (λ seat, let p := qget "" (bySeat (pe b)) seat in p ≠ "" ∧ bpAutomated (playerOf b p) = false) seats).
Definition arrange (b : NHSKBattleService) (deck : list card) : list card :=
  if isNewbie (fx b) then
    match newPlayerSeat b with Some seat => adjustNewbieCards deck 4 26 (Z.to_nat seat) | None => deck end
  else swapSingleCards deck 4 26 (SingleCountToSwap (rules (su b))).
(** [hands[player] = ...] for each seat in turn. *)
Definition giveHands (b : NHSKBattleService) (q : quad (list card)) : gmap PlayerID (list card) :=
  foldl (λ m seat, <[qget "" (bySeat (pe b)) seat := qget [] q seat]> m) ∅ seats.

Definition deal (bankerSeat : Z) (custom : option CustomDeck) : B unit :=
  b ← get id;
  onTable (set_hands ∅) ;;
  match custom with
  | Some d => onTable (set_hands (giveHands b (dealDeck bankerSeat (dkCards d))))
  | None =>
      swaps ← ask ansShuffle;
      note (Shuffled swaps) ;;
      match shuffle swaps doubleDeck with
      | None => panic
      | Some deck => onTable (set_hands (giveHands b (dealDeck bankerSeat (arrange b deck))))
      end
  end.

Definition buildReplayStartSnapshot (b : NHSKBattleService) (startedAt : Time) : ReplayStartSnapshot :=
  let z := initialization (su b) in
  let i := from_option izIdentity (mkIdentity 0 0 0 0 "") z in
  let '(name, uid, path) := formatReplay (idProduct i) (idRound i) startedAt (bpUserID (playerOf b (q0 (bySeat (pe b)))))
                              (from_option (CreatorID ∘ izMetadata) 0 z) in
  mkStart (battleID (fx b)) i (gameNum (ro b)) (subgameNum (ro b)) startedAt name uid path (from_option izMaxGameNum 0 z)
    (from_option izMaxSubgameNum 0 z) (from_option izFee 0 z) (from_option izScoreBase 0 z) (from_option izScoreDenominator 0 z)
    (from_option izMetadata (mkMetadata "" 0 0 0 0 0) z) (from_option izReplayRules (mkReplayRules false false false 0) z) (rules (su b))
    (currentRound (ro b))
    (qseats (λ seat, let p := playerOf b (qget "" (bySeat (pe b)) seat) in
       mkReplayPlayer (bpSeatID p) (bpPlayer p) (bpUserID p) (bpNickname p) (bpScore p) (bpClientID p) (qget "" (startedDresses (ro b)) seat) (bpAutomated p)))
    (qmap (handOfPlayer b) (bySeat (pe b))) (u8 (activeSeat (ta b))).

(** The fields that a start resets, [bankerSeat] first to act. *)
Definition resetSubgame (bankerSeat : Z) (b : NHSKBattleService) : NHSKBattleService :=
  let t := set_activeSeat bankerSeat (ta b) in
  let t := resetTrick t in
  let t := mkTable (hands t) (activeSeat t) (lastCards t) (lastRank t) (lastCount t) (preOutSeat t) (passCount t) (scoreCards t) (qall 0) (qall false)
             (qall 0) [] (lastPlayedCards t) (lastPlayCounts t) in
  let r := ro b in
  let r := mkRound (gameNum r) (subgameNum r) (nextRound r) (nextRound r)
             (qseats (λ seat, let p := qget "" (bySeat (pe b)) seat in
                if bool_decide (p = "") then qget "" (startedDresses r) seat else bpDress (playerOf b p)))
             (customDeckCatalog r) zeroResult false in
  let p := set_players ((λ p, setFlags false false (bpDress p) p) <$> players (pe b)) (pe b) in
  mkBattle (fx b) (service b) Playing (deleting b) (su b) p t emptyStatistics
    (mkTurn 1 (revision (tu b)) (turnRevision (tu b)) (actionStartedAt (tu b)) (deadlineAt (tu b))) r
    (mkRecord (replayDocument (re b)) false false).

Fixpoint emitDeals (b : NHSKBattleService) (seatList : list Z) : B unit :=
  match seatList with
  | [] => mret ()
  | seat :: rest =>
      let p := qget "" (bySeat (pe b)) seat in
      toOne p (DealPayload (bySeat (pe b)) (u8 seat) (toFixedCards (handOfPlayer b p))) ;; emitDeals b rest
  end.

Definition start (payload : bool) : B unit :=
  if negb payload then reject errBattleInvalidRequest
  else
    b ← get id;
    if negb (bool_decide (phase b = Preparing)) || negb (hasFourPlayers b) then reject errBattleStateConflict
    else
      drawn ← ask ansIntn;
      note (Drawn drawn) ;;
      if (drawn <? 0) || (4 <=? drawn) then reject errBattleRandomFailure
      else
        let custom := customDeckForSubgame b in
        let bankerSeat := match custom with Some d => if 0 <=? dkBankerSeat d then dkBankerSeat d else drawn | None => drawn end in
        deal bankerSeat custom ;;
        startedAt ← now;
        modify (resetSubgame bankerSeat) ;;
        b ← get id;
        let s := buildReplayStartSnapshot b startedAt in
        onRecord (set_replayDocument (NewReplayDocument s)) ;;
        onTurn (λ t, set_revision (u64 (revision t + 1)) t) ;;
        toAll GameStartPayload ;;
        emit (GameStartedOutput (rsReplayName s)) ;;
        b ← get id;
        toAll (gameInfoPayload b) ;;
        emitDeals b seats ;;
        startAction (firstOutCardTimeout (rules (su b))) ;;
        accept.

(** *** Players *)

Definition updateRoundContext (payload : option UpdateRoundContextRequest) : B unit :=
  b ← get id;
  match payload with
  | Some r => if initialized b then onRound (set_nextRound r) ;; accept else reject errBattleInvalidRequest
  | None => reject errBattleInvalidRequest
  end.

Definition exit (payload : option PlayerID) : B unit :=
  b ← get id;
  match payload ≫= λ p, players (pe b) !! p with
  | None => reject errBattleInvalidRequest
  | Some player => onPeople (λ q, set_players (<[bpPlayer player := setExited player]> (players q)) q) ;; accept
  end.

Definition updateDress (payload : option (PlayerID * string)) : B unit :=
  b ← get id;
  match payload with
  | Some (p, dress) =>
      if bool_decide (p = "") || negb (known b p) then reject errBattleInvalidRequest
      else
        let player := playerOf b p in
        onPeople (λ q, set_players (<[p := setFlags (bpIsBreak player) (bpIsSeal player) dress player]> (players q)) q) ;; accept
  | None => reject errBattleInvalidRequest
  end.

Definition setAuto (payload : option (PlayerID * bool)) : B unit :=
  b ← get id;
  match payload with
  | None => reject errBattleInvalidRequest
  | Some (p, enabled) =>
      if negb (known b p) || negb (bool_decide (phase b = Playing)) then reject errBattleInvalidRequest
      else
        changeAutoState p enabled ;;
        toOne p (PlayerAutoStatePayload p enabled) ;;
        b ← get id;
        (if negb enabled then mret ()
         else
           active ← index (bySeat (pe b)) (activeSeat (ta b));
           if negb (bool_decide (p = active)) then mret ()
           else
             t ← now;
             if deadlineAt (tu b) - t <=? 100 * Millisecond then mret ()
             else
               onTurn (λ t, mkTurn (verifyCode t) (revision t) (u64 (turnRevision t + 1)) (actionStartedAt t) 0) ;;
               playWithSource p (localAutoCards b p) (verifyCode (tu b)) ReplayMoveSourceAuto false) ;;
        accept
  end.

Definition setOffline (payload : option (PlayerID * bool)) : B unit :=
  b ← get id;
  match payload with
  | None => reject errBattleInvalidRequest
  | Some (p, off) =>
      if negb (known b p) then reject errBattleInvalidRequest
      else onPeople (λ q, set_offline (<[p := off]> (offline q)) q) ;; accept
  end.

Definition reconnect (payload : option PlayerID) : B unit :=
  b ← get id;
  match payload with
  | None => reject errBattleInvalidRequest
  | Some p =>
      if negb (known b p) then reject errBattleInvalidRequest
      else
        onPeople (λ q, set_offline (<[p := false]> (offline q)) q) ;;
        (if bool_decide (phase b = Playing) then changeAutoState p false ;; restorePlayerView p else mret ()) ;;
        accept
  end.

Definition preview (payload : option (PlayerID * list card)) : B unit :=
  b ← get id;
  let refuse := reply (ActionResult (Some "invalid_preview")) in
  match payload with
  | None => refuse
  | Some (p, cards) =>
      if (26 <? numCards cards) || negb (bool_decide (phase b = Playing)) then refuse
      else
        active ← index (bySeat (pe b)) (activeSeat (ta b));
        if negb (bool_decide (p = active)) then refuse
        else toAll (CardSelectionPreviewPayload p (toFixedCards cards) (u8 (numCards cards))) ;; reply (ActionResult None)
  end.

Definition play (payload : option (PlayerID * list card * Z)) : B unit :=
  match payload with
  | None => reject errBattleInvalidRequest
  | Some (p, cards, code) => playWithSource p cards code ReplayMoveSourcePlayer true
  end.

Definition scene (payload : option PlayerID) : B unit :=
  b ← get id;
  match payload with
  | None => reject errBattleInvalidRequest
  | Some p =>
      if negb (known b p) || (gameNum (ro b) =? 0) || (subgameNum (ro b) =? 0) then reject errBattleInvalidRequest
      else
        changeAutoState p false ;;
        (if bool_decide (phase b = Playing) || bool_decide (phase b = AwaitingSettlement) then restorePlayerView p else mret ()) ;;
        accept
  end.

Definition recordPropUse (payload : option (Z * string * Z * list Z)) : B unit :=
  b ← get id;
  let drop := inc "nhsk_prop_fact_dropped_total" in
  match payload with
  | None => drop
  | Some (sender, prop, n, targets) =>
      if negb (bool_decide (phase b = Playing) || bool_decide (phase b = AwaitingSettlement))
         || (from_option rsBattleID 0 (rdStart (replayDocument (re b))) =? 0) then drop
      else if negb (existsb (λ e, bpUserID e.2 =? sender) (map_to_list (players (pe b)))) then drop
      else move (propMove sender prop n targets)
  end.

(** *** Results that come back *)

(** A result of the writer: battle, game, subgame and name, with its error text. *)
Definition applyReplayResult (payload : option (BattleID * Z * Z * string * string)) : B unit :=
  b ← get id;
  match payload with
  | None => mret ()
  | Some (id, game, subgame, name, err) =>
      if negb (id =? battleID (fx b)) || negb (game =? gameNum (ro b)) || negb (subgame =? subgameNum (ro b))
         || negb (bool_decide (name = from_option rsReplayName "" (rdStart (replayDocument (re b)))))
         || negb (bool_decide (phase b = FinalizingReplay)) then mret ()
      else (if bool_decide (err = "") then mret () else observeReplayFailure) ;; finishReplay
  end.

Definition timer (p : timerPayload) : B unit :=
  b ← get id;
  match p with
  | replayFinalizeDeadline game subgame =>
      if bool_decide (phase b = FinalizingReplay) && (game =? gameNum (ro b)) && (subgame =? subgameNum (ro b))
      then observeReplayFailure ;; finishReplay else mret ()
  | otherTimer => mret ()
  | actionDeadline rev source cards =>
      if negb (rev =? turnRevision (tu b)) || negb (bool_decide (phase b = Playing)) then mret ()
      else
        p ← index (bySeat (pe b)) (activeSeat (ta b));
        if bool_decide (p = "") || (numCards (handOfPlayer b p) =? 0) then mret ()
        else
          onTurn (set_deadlineAt 0) ;;
          let fresh := bool_decide (source = ReplayMoveSourceTimeout) && negb (isAuto b p) && negb (bpAutomated (playerOf b p)) in
          if fresh && negb (TimeoutAutoMove (rules (su b))) then mret ()
          else
            (if fresh then changeAutoState p true else mret ()) ;;
            let cards := if bool_decide (source = ReplayMoveSourceAI) then cards else localAutoCards b p in
            playWithSource p cards (verifyCode (tu b)) source false
  end.

(** A runner result with the text of its own error. *)
Definition applyAIResult (payload : option (aiResult * option string)) : B unit :=
  b ← get id;
  match payload with
  | None => mret ()
  | Some (r, runnerErr) =>
      let err := if bool_decide (arError r = "") then default "" runnerErr else arError r in
      if negb (bool_decide (err = "")) || negb (bool_decide (phase b = Playing)) || negb (arBattleID r =? battleID (fx b))
         || negb (arGameNum r =? gameNum (ro b)) || negb (arSubgameNum r =? subgameNum (ro b)) || negb (arTurnRevision r =? turnRevision (tu b))
         || negb (arVerifyCode r =? verifyCode (tu b)) || negb (arStartedAt r =? actionStartedAt (tu b)) || negb (arSeatID r =? activeSeat (ta b))
      then mret ()
      else
        p ← index (bySeat (pe b)) (activeSeat (ta b));
        if bool_decide (p = "") || negb (bpUserID (playerOf b p) =? arUserID r) || negb (validActionCandidate b p (arCards r)) then mret ()
        else
          onTurn (λ t, set_turnRevision (u64 (turnRevision t + 1)) t) ;;
          let robot := MsOutCardRobot (rules (su b)) in
          let go := onTurn (set_deadlineAt 0) ;; playWithSource p (arCards r) (verifyCode (tu b)) ReplayMoveSourceAI false in
          if negb (bpAutomated (playerOf b p)) && (0 <? robot) then
            t ← now;
            let remaining := robot - (t - arStartedAt r) in
            if remaining <=? 0 then go
            else
              onTurn (set_deadlineAt (t + remaining)) ;;
              if negb (service b) then go
              else
                rev ← get (turnRevision ∘ tu);
                e ← after remaining (actionDeadline rev ReplayMoveSourceAI (arCards r));
                match e with Some e => fail (ErrPassed e) | None => mret () end
          else go
  end.

(** *** The mailbox *)

Definition bySeatOrder (a b : BattlePlayer) : Prop := bpSeatID a ≤ bpSeatID b.
#[global] Instance bySeatOrder_dec : RelDecision bySeatOrder.
Proof. intros a b. unfold bySeatOrder. apply _. Defined.

Definition snapshot (b : NHSKBattleService) (active : PlayerID) : NHSKBattleSnapshot :=
  mkSnapshot (battleID (fx b)) (phase b) (izIdentity <$> initialization (su b))
    (merge_sort bySeatOrder (map_to_list (players (pe b))).*2) active (verifyCode (tu b)) (hands (ta b)) (auto (pe b)) (revision (tu b))
    (turnRevision (tu b)) (if deadlineAt (tu b) =? 0 then 0 else deadlineAt (tu b) `div` Second).
Definition snapshotReply : B unit :=
  b ← get id;
  active ← index (bySeat (pe b)) (activeSeat (ta b));
  reply (SnapshotReply (snapshot b active)).

Definition deleteBarrier (payload : option BattleID) : B unit :=
  b ← get id;
  match payload with
  | None => fail ErrInvalidClusterEnvelope
  | Some id =>
      if negb (id =? battleID (fx b)) then fail ErrInvalidClusterEnvelope
      else
        (if deleting b then mret ()
         else
           modify (set_deleting true) ;;
           modify (set_phase Stopping) ;;
           onTurn (λ t, mkTurn (verifyCode t) (revision t) (u64 (turnRevision t + 1)) (actionStartedAt t) 0) ;;
           onRecord (set_noticeAfterReplay false)) ;;
        accept
  end.

Inductive command :=
| Initialize (p : option InitializeBattleRequest)
| UpdatePlayers (p : option (list BattlePlayer))
| PrepareSubgame (p : option (Z * Z))
| StartSubgame (p : bool)
| ProvideCustomDeck (p : option (BattleID * Z * Z * CustomDeckCatalog))
| ApplyCustomDeckLoadResult (p : option (bool * bool * (BattleID * Z * Z * CustomDeckCatalog)))
| UpdateRoundContext (p : option UpdateRoundContextRequest)
| ExitPlayer (p : option PlayerID)
| UpdatePlayerDress (p : option (PlayerID * string))
| SetPlayerAutoState (p : option (PlayerID * bool))
| SetPlayerOffline (p : option (PlayerID * bool))
| ReconnectPlayer (p : option PlayerID)
| PlayCards (p : option (PlayerID * list card * Z))
| PreviewCardSelection (p : option (PlayerID * list card))
| RequestGameScene (p : option PlayerID)
| RecordPropUse (p : option (Z * string * Z * list Z))
| ForceFinishSubgame (p : bool)
| CompleteSettlement (p : option CompleteSettlementRequest)
| GetSnapshot
| Timer (p : timerPayload)
| ApplyReplayResult (p : option (BattleID * Z * Z * string * string))
| ApplyAIResult (p : option (aiResult * option string))
| DeleteBarrier (p : option BattleID)
| OtherCommand (id : Z).

(** The numbers of the commands. *)
Definition commandID (c : command) : Z :=
  match c with
  | Initialize _ => 0x04100201 | UpdatePlayers _ => 0x04100202 | PrepareSubgame _ => 0x04100203 | StartSubgame _ => 0x04100204
  | UpdateRoundContext _ => 0x04100205 | ExitPlayer _ => 0x04100206 | UpdatePlayerDress _ => 0x04100207 | ForceFinishSubgame _ => 0x04100208
  | ProvideCustomDeck _ => 0x04100209 | PlayCards _ => 0x04100301 | PreviewCardSelection _ => 0x04100302 | SetPlayerAutoState _ => 0x04100303
  | SetPlayerOffline _ => 0x04100304 | ReconnectPlayer _ => 0x04100305 | RequestGameScene _ => 0x04100306 | RecordPropUse _ => 0x04100307
  | CompleteSettlement _ => 0x04100401 | GetSnapshot => 0x04100402 | Timer _ => 0x0410f003 | ApplyReplayResult _ => 0x0410f006
  | ApplyAIResult _ => 0x0410f007 | DeleteBarrier _ => 0x0410f008 | ApplyCustomDeckLoadResult _ => 0x0410f01c | OtherCommand id => id
  end.

Definition Handle (source : ServiceRef) (c : command) : B unit :=
  d ← get deleting;
  match c with
  | DeleteBarrier p => deleteBarrier p
  | _ =>
      if d : bool then mret ()
      else match c with
           | Initialize p => initialize p
           | UpdatePlayers p => updatePlayers p
           | PrepareSubgame p => prepare p
           | StartSubgame p => start p
           | ProvideCustomDeck p => provideCustomDeck p
           | ApplyCustomDeckLoadResult p => applyCustomDeckLoadResult source p
           | UpdateRoundContext p => updateRoundContext p
           | ExitPlayer p => exit p
           | UpdatePlayerDress p => updateDress p
           | SetPlayerAutoState p => setAuto p
           | SetPlayerOffline p => setOffline p
           | ReconnectPlayer p => reconnect p
           | PlayCards p => play p
           | PreviewCardSelection p => preview p
           | RequestGameScene p => scene p
           | RecordPropUse p => recordPropUse p
           | ForceFinishSubgame p => forceFinish p
           | CompleteSettlement p => completeSettlement p
           | GetSnapshot => snapshotReply
           | Timer p => timer p
           | ApplyReplayResult p => applyReplayResult p
           | ApplyAIResult p => applyAIResult p
           | DeleteBarrier _ | OtherCommand _ => fail ErrUnknownCommand
           end
  end.

Definition Init : B unit := modify (set_service true).
Definition Close : B unit := modify (set_service false).
End Service.
