(* ===== verification/NhskBattleInv.v ===== *)
(** * The card battle: what its operations leave alone

    [Stays R m]: running [m], to its end or to an error or panic in its middle, moves
    the service along the preorder [R].  Programs that only answer, announce and count
    stay within equality of everything the invariants speak of. *)

From stdpp Require Import prelude gmap strings list.
From Stdlib Require Import ZArith Lia.
From S2P Require Import Prelude Types Game NhskCards NhskSettlement NhskDeal NhskReplay NhskBattle.

Local Open Scope Z_scope.

Definition Stays (R : relation NHSKBattleService) {X} (m : B X) : Prop := ∀ w, R (battle w) (battle (m w).1).

Section Stays.
Context (R : relation NHSKBattleService) `{!PreOrder R}.

Lemma stays_bind {X Y} (m : B X) (k : X → B Y) : Stays R m → (∀ x, Stays R (k x)) → Stays R (m ≫= k).
Proof.
  intros Hm Hk w. unfold mbind, b_bind. specialize (Hm w). destruct (m w) as [w1 [x| |]]; simpl in *; [|done..].
  etransitivity; [exact Hm|apply Hk].
Qed.
Lemma stays_same {X} (m : B X) : (∀ w, battle (m w).1 = battle w) → Stays R m.
Proof. intros H w. by rewrite H. Qed.
Lemma stays_ret {X} (x : X) : Stays R (mret x).
Proof. by apply stays_same. Qed.
Lemma stays_get {X} (f : NHSKBattleService → X) : Stays R (get f).
Proof. by apply stays_same. Qed.
Lemma stays_ask {X} (f : list event → X) : Stays R (ask f).
Proof. by apply stays_same. Qed.
Lemma stays_note e : Stays R (note e).
Proof. by apply stays_same. Qed.
Lemma stays_fail {X} e : Stays R (fail (X := X) e).
Proof. by apply stays_same. Qed.
Lemma stays_panic {X} : Stays R (panic (X := X)).
Proof. by apply stays_same. Qed.
Lemma stays_index {X} (q : quad X) i : Stays R (index q i).
Proof. unfold index. destruct (qat q i); [apply stays_ret|apply stays_panic]. Qed.
Lemma stays_modify f : (∀ b, R b (f b)) → Stays R (modify f).
Proof. intros H w. apply H. Qed.
End Stays.

Create HintDb stays.
#[export] Hint Resolve stays_ret stays_get stays_ask stays_note stays_fail stays_panic stays_index : stays.

(** Walk through a program: sequences, case distinctions, and the programs already
    known to stay. *)
Ltac stays :=
  repeat first
    [ solve [eauto 2 with stays typeclass_instances]
    | apply stays_bind; [solve [typeclasses eauto]| |intro]
    | progress cbv zeta
    | match goal with |- Stays _ (match ?x with _ => _ end) => destruct x end
    | apply stays_modify; intro; try done ].

(** ** Programs that change no field *)

Section Quiet.
Context {E : Env} (R : relation NHSKBattleService) `{!PreOrder R}.

Lemma stays_now : Stays R now.
Proof. unfold now. stays. Qed.
Lemma stays_inc s : Stays R (inc s).
Proof. unfold inc. stays. Qed.
Lemma stays_after d p : Stays R (after d p).
Proof. unfold after. stays. Qed.
Lemma stays_reply v : Stays R (reply v).
Proof. unfold reply. stays. Qed.
Lemma stays_deliver o : Stays R (deliver o).
Proof. unfold deliver. stays. Qed.
Hint Resolve stays_now stays_inc stays_after stays_reply stays_deliver : stays.
Lemma stays_reject s : Stays R (reject s).
Proof. apply stays_reply. Qed.
Lemma stays_accept : Stays R accept.
Proof. apply stays_reply. Qed.
Lemma stays_emit o : Stays R (emit o).
Proof. unfold emit. stays. Qed.
Hint Resolve stays_emit stays_reject stays_accept : stays.
Lemma stays_toAll p : Stays R (toAll p).
Proof. unfold toAll. stays. Qed.
Lemma stays_toOne p q : Stays R (toOne p q).
Proof. apply stays_emit. Qed.
Lemma stays_askOutCardPayload : Stays R askOutCardPayload.
Proof. unfold askOutCardPayload. stays. Qed.
Lemma stays_remaining : Stays R remainingActionMilliseconds.
Proof. unfold remainingActionMilliseconds. stays. Qed.
Lemma stays_current : Stays R currentActionMilliseconds.
Proof. unfold currentActionMilliseconds. stays. Qed.
Hint Resolve stays_toAll stays_toOne stays_askOutCardPayload stays_remaining stays_current : stays.
Lemma stays_scenePayload p : Stays R (scenePayload p).
Proof. unfold scenePayload. stays. Qed.
Lemma stays_actionFailure p r n : Stays R (actionFailure p r n).
Proof. unfold actionFailure, actionReject. stays. Qed.
Lemma stays_emitDeals b l : Stays R (emitDeals b l).
Proof. induction l as [|seat l IH]; simpl; stays. Qed.
Lemma stays_observe : Stays R observeReplayFailure.
Proof. apply stays_inc. Qed.
Lemma stays_settlementReject s : Stays R (settlementReject s).
Proof. apply stays_reply. Qed.
Lemma stays_snapshot : Stays R snapshotReply.
Proof. unfold snapshotReply. stays. Qed.
Lemma stays_preview p : Stays R (preview p).
Proof. unfold preview. stays. Qed.
End Quiet.
#[export] Hint Resolve stays_now stays_inc stays_after stays_reply stays_deliver stays_reject stays_accept stays_emit stays_toAll stays_toOne
  stays_askOutCardPayload stays_remaining stays_current stays_scenePayload stays_actionFailure stays_emitDeals stays_observe stays_settlementReject
  stays_snapshot stays_preview : stays.

(** ** Programs and what holds after them *)

(** [Q] holds of how [m] ends and of the service then, whatever has been logged. *)
Definition wp {X} (m : B X) (b : NHSKBattleService) (Q : outcome X → NHSKBattleService → Prop) : Prop :=
  ∀ l, Q (m (mkWorld b l)).2 (battle (m (mkWorld b l)).1).

Lemma wp_weaken {X} (m : B X) b (P Q : outcome X → NHSKBattleService → Prop) : wp m b P → (∀ o b', P o b' → Q o b') → wp m b Q.
Proof. intros H HQ l. apply HQ, H. Qed.
Lemma wp_seq {X Y} (m : B X) (k : X → B Y) b Q :
  wp m b (λ o b', match o with Done x => wp (k x) b' Q | Failed e => Q (Failed e) b' | Panicked => Q Panicked b' end) → wp (m ≫= k) b Q.
Proof.
  intros H l. specialize (H l). unfold mbind, b_bind. destruct (m (mkWorld b l)) as [[b' l'] [x| |]]; cbn in *; [apply H|done..].
Qed.
Lemma wp_done {X} (x : X) b Q : Q (Done x) b → wp (mret x) b Q.
Proof. by intros H l. Qed.
Lemma wp_read {X} (f : NHSKBattleService → X) b Q : Q (Done (f b)) b → wp (get f) b Q.
Proof. by intros H l. Qed.
Lemma wp_modify f b Q : Q (Done ()) (f b) → wp (modify f) b Q.
Proof. by intros H l. Qed.
Lemma wp_note e b Q : Q (Done ()) b → wp (note e) b Q.
Proof. by intros H l. Qed.
Lemma wp_ask {X} (f : list event → X) b Q : (∀ l, Q (Done (f l)) b) → wp (ask f) b Q.
Proof. intros H l. apply H. Qed.
Lemma wp_fail {X} e b (Q : outcome X → NHSKBattleService → Prop) : Q (Failed e) b → wp (fail e) b Q.
Proof. by intros H l. Qed.
Lemma wp_panic {X} b (Q : outcome X → NHSKBattleService → Prop) : Q Panicked b → wp panic b Q.
Proof. by intros H l. Qed.
Lemma wp_index {X} (q : quad X) i x b Q : qat q i = Some x → Q (Done x) b → wp (index q i) b Q.
Proof. intros H HQ l. unfold index. by rewrite H. Qed.
Lemma wp_stays {X} (R : relation NHSKBattleService) (m : B X) b Q : Stays R m → (∀ o b', R b b' → Q o b') → wp m b Q.
Proof. intros H HQ l. apply HQ, (H (mkWorld b l)). Qed.
Lemma stays_wp {X} (R : relation NHSKBattleService) (m : B X) : (∀ b, wp m b (λ _ b', R b b')) → Stays R m.
Proof. intros H [b l]. apply H. Qed.
Lemma wp_stays_bind {X Y} (R : relation NHSKBattleService) (m : B X) (k : X → B Y) b Q : Stays R m →
  (∀ b', R b b' → (∀ x, wp (k x) b' Q) ∧ (∀ e, Q (Failed e) b') ∧ Q Panicked b') → wp (m ≫= k) b Q.
Proof. intros H HQ. apply wp_seq. eapply wp_stays; [exact H|]. intros [x|e|] b' Hb; destruct (HQ _ Hb) as (? & ? & ?); auto. Qed.

(** ** Players and seats *)

(** Who sits at a seat is a known player of that seat; so nobody sits twice. *)
Definition seatsOk (q : people) : Prop :=
  (∀ p v, players q !! p = Some v → bpPlayer v = p)
  ∧ ∀ i p, qat (bySeat q) i = Some p → p ≠ "" → ∃ v, players q !! p = Some v ∧ bpSeatID v = i.

Lemma seatsOk_inj q i j p : seatsOk q → p ≠ "" → qat (bySeat q) i = Some p → qat (bySeat q) j = Some p → i = j.
Proof. intros [_ H] Hp Hi Hj. destruct (H _ _ Hi Hp) as (v & Hv & <-), (H _ _ Hj Hp) as (v' & Hv' & <-). congruence. Qed.

(** Changing a player's own data leaves the seats. *)
Lemma seatsOk_insert q p v v' : seatsOk q → default zeroPlayer (players q !! p) = v → bpPlayer v = p → bpPlayer v' = p → bpSeatID v' = bpSeatID v →
  seatsOk (set_players (<[p := v']> (players q)) q).
Proof.
  intros [H1 H2] Hv Hp Hp' Hs. split; cbn.
  - intros p1 v1. rewrite lookup_insert_Some. intros [[<- <-]|[_ ?]]; [done|by apply H1].
  - intros i p1 Hi Hne. destruct (H2 _ _ Hi Hne) as (w & Hw & Hi'). destruct (decide (p1 = p)) as [->|Hd].
    + exists v'. rewrite lookup_insert_eq. rewrite Hw in Hv. cbn in Hv. subst w. split; congruence.
    + exists w. by rewrite lookup_insert_ne.
Qed.
(** The player under a name, once there is one, has that name. *)
Lemma playerOf_name b p : seatsOk (pe b) → (p = "" ∨ known b p = true ∨ ∃ i, qat (bySeat (pe b)) i = Some p) → bpPlayer (playerOf b p) = p.
Proof.
  intros [H1 H2] H. unfold known, playerOf in *. destruct (players (pe b) !! p) as [v|] eqn:E; cbn in *; [by apply H1|].
  destruct H as [->|[H|[i Hi]]]; [done|done|]. destruct (decide (p = "")) as [->|Hne]; [done|]. destruct (H2 _ _ Hi Hne) as (v & ? & _). congruence.
Qed.

(** ** Cards *)

Definition heldCards (m : gmap PlayerID (list card)) : list card := concat (map_to_list m).*2.
Definition playedCards (b : NHSKBattleService) : list card := concat (outedCards (ta b)).
Definition dealtCards (b : NHSKBattleService) : list card := from_option (λ s, concat (qlist (rsHands s))) [] (rdStart (replayDocument (re b))).
(** The cards dealt are those in the hands and those that were played. *)
Definition conserved (b : NHSKBattleService) : Prop := heldCards (hands (ta b)) ++ playedCards b ≡ₚ dealtCards b.

Lemma heldCards_insert m p h : m !! p = None → heldCards (<[p := h]> m) ≡ₚ h ++ heldCards m.
Proof. intros H. unfold heldCards. by rewrite map_to_list_insert. Qed.
Lemma heldCards_update m p h : default [] (m !! p) ++ heldCards (<[p := h]> m) ≡ₚ h ++ heldCards m.
Proof.
  rewrite <- insert_delete_eq, heldCards_insert by by rewrite lookup_delete_eq. destruct (m !! p) as [h0|] eqn:E; cbn.
  - rewrite <- (insert_id m p h0 E) at 2. rewrite <- insert_delete_eq, heldCards_insert by by rewrite lookup_delete_eq. solve_Permutation.
  - by rewrite delete_id.
Qed.

(** What every step keeps: seats, and with them the cards. *)
Definition Safe : relation NHSKBattleService := λ b b', seatsOk (pe b) → seatsOk (pe b') ∧ (conserved b → conserved b').
#[global] Instance Safe_preorder : PreOrder Safe.
Proof. split; [by intros b|]. intros a b c H1 H2 Ha. destruct (H1 Ha) as [Hb ?]. destruct (H2 Hb). tauto. Qed.

(** The fields that [Safe] speaks of. *)
Definition cardFields (b : NHSKBattleService) := (hands (ta b), outedCards (ta b), rdStart (replayDocument (re b))).
Lemma safe_fields b b' : (seatsOk (pe b) → seatsOk (pe b')) → cardFields b' = cardFields b → Safe b b'.
Proof.
  unfold cardFields. intros Hs [= H1 H2 H3] Hb. split; [by apply Hs|]. unfold conserved, playedCards, dealtCards. by rewrite H1, H2, H3.
Qed.
#[export] Hint Extern 3 (Safe _ _) => (apply safe_fields; [done|reflexivity]) : stays.
Ltac safe := stays; eauto 2 with stays.

Section Safe.
Context {E : Env}.

Lemma safe_move m : Stays Safe (move m).
Proof. unfold move. safe. Qed.
Lemma safe_restore p : Stays Safe (restorePlayerView p).
Proof. unfold restorePlayerView. safe. Qed.
Lemma safe_changeAuto p e : Stays Safe (changeAutoState p e).
Proof. unfold changeAutoState. safe. Qed.
Lemma safe_startAction d : Stays Safe (startAction d).
Proof. unfold startAction. safe. Qed.
Hint Resolve safe_move safe_startAction : stays.
Lemma safe_finishTrick : Stays Safe finishTrick.
Proof. unfold finishTrick, startTurn. safe. Qed.
Lemma advanceSteps_fields b l t : cardFields (set_ta (advanceSteps b l t) b) = cardFields (set_ta t b).
Proof.
  revert t. induction l as [|x l IH]; intros t; cbn [advanceSteps]; [done|]. destruct (_ && _); [done|]. rewrite IH. by destruct (0 <=? _).
Qed.
Lemma safe_advanceSeat : Stays Safe advanceSeat.
Proof. apply stays_modify. intros b. apply safe_fields; [done|]. rewrite advanceSteps_fields. by destruct b. Qed.
Hint Resolve safe_advanceSeat safe_finishTrick : stays.
Lemma safe_advanceTurn : Stays Safe advanceTurn.
Proof. unfold advanceTurn, startTurn. safe. Qed.
Lemma safe_award : Stays Safe awardFinalScoreCards.
Proof. unfold awardFinalScoreCards. safe. Qed.
Hint Resolve safe_award safe_advanceTurn : stays.
Lemma safe_finishByPlay : Stays Safe finishByPlay.
Proof. unfold finishByPlay. safe. Qed.
Hint Resolve safe_finishByPlay : stays.
Lemma safe_leaveTable p s : Stays Safe (leaveTable p s).
Proof. unfold leaveTable. safe. Qed.
Lemma safe_finishReplay : Stays Safe finishReplay.
Proof. unfold finishReplay. safe. Qed.
Lemma safe_finalize r s : Stays Safe (finalizeReplay r s).
Proof. unfold finalizeReplay. safe. Qed.
Hint Resolve safe_finishReplay : stays.
Lemma safe_beginReplay : Stays Safe beginReplayFinalization.
Proof. unfold beginReplayFinalization. safe. Qed.
End Safe.
#[export] Hint Resolve safe_move safe_restore safe_changeAuto safe_startAction safe_advanceTurn safe_leaveTable safe_finishReplay safe_finalize
  safe_beginReplay : stays.

(** ** Playing *)

Section Handlers.
Context {E : Env}.

(** A sequence from a given world, when its first part is known to stay. *)
Lemma bind_from {X Y} (R S : relation NHSKBattleService) `{!PreOrder R} (m : B X) (k : X → B Y) w :
  Stays S m → subrelation S R → (∀ x w', S (battle w) (battle w') → R (battle w') (battle (k x w').1)) → R (battle w) (battle ((m ≫= k) w).1).
Proof.
  intros Hm Hs Hk. unfold mbind, b_bind. specialize (Hm w). destruct (m w) as [w' [x| |]]; cbn in *; [|by apply Hs..].
  etransitivity; [by apply Hs|by apply Hk].
Qed.

(** What the beginning of a play leaves alone. *)
Definition SameTable : relation NHSKBattleService := λ b b',
  ta b' = ta b ∧ rdStart (replayDocument (re b')) = rdStart (replayDocument (re b)) ∧ (seatsOk (pe b) → seatsOk (pe b')).
#[global] Instance SameTable_preorder : PreOrder SameTable.
Proof. split; [by intros b|]. intros a b c (? & ? & ?) (? & ? & ?). unfold SameTable. split_and!; [congruence..|tauto]. Qed.
Lemma same_safe : subrelation SameTable Safe.
Proof. intros b b' (H1 & H2 & H3). apply safe_fields; [done|]. unfold cardFields. by rewrite H1, H2. Qed.
Lemma same_changeAuto p e : Stays SameTable (changeAutoState p e).
Proof. unfold changeAutoState. stays. Qed.

(** A play that the hand covers moves its cards from the hand to the table. *)
Lemma commit_conserves b b' p cards pattern :
  validateCards (handOfPlayer b p) cards = Some pattern → pe b' = pe b →
  cardFields b' = (hands (commitPlay p cards pattern (ta b)), outedCards (ta b) ++ [cards], rdStart (replayDocument (re b))) → Safe b b'.
Proof.
  intros Hv Hp [= H1 H2 H3] Hs. rewrite Hp. split; [done|]. unfold conserved, playedCards, dealtCards. rewrite H1, H2, H3. intros <-.
  apply validated_removed in Hv. unfold handOfPlayer in Hv. set (rest := removeCards (default [] (hands (ta b) !! p)) cards) in *.
  assert (hands (commitPlay p cards pattern (ta b)) = <[p := rest]> (hands (ta b))) as -> by (unfold commitPlay; by destruct (negb _)).
  pose proof (heldCards_update (hands (ta b)) p rest) as Hu. rewrite Hv in Hu. rewrite concat_app. cbn. rewrite app_nil_r.
  apply (Permutation_app_inv_l rest). rewrite (app_assoc rest (heldCards (hands _))), <- Hu. solve_Permutation.
Qed.

(** What an accepted action does before it is announced. *)
Definition core (b : NHSKBattleService) :=
  (pe b, phase b, service b, (su b, deleting b, fx b, ro b), (rdStart (replayDocument (re b)), rdEnd (replayDocument (re b)))).
Lemma commitAction_run p cards pattern source ms b :
  wp (commitAction p cards pattern source ms) b (λ o b', o = Done () ∧ core b' = core b
    ∧ ta b' = set_outedCards (outedCards (ta b) ++ [cards]) (commitPlay p cards pattern (ta b))
    ∧ tu b' = set_revision (u64 (revision (tu b) + 1)) (tu b)).
Proof.
  unfold commitAction. apply wp_seq, wp_modify, wp_seq, wp_read. cbv zeta. set (b0 := id _). 
  apply wp_seq. apply (wp_weaken _ _ (λ o b', o = Done () ∧ core b' = core b ∧ ta b' = commitPlay p cards pattern (ta b) ∧ tu b' = tu b)).
  { destruct (negb (numCards cards =? 0)); [apply wp_modify|apply wp_done]; done. }
  intros _ b1 (-> & Hc & Ht & Hu). apply wp_seq, wp_modify, wp_seq, wp_modify, wp_seq, wp_modify. cbn.
  apply wp_seq. match goal with |- wp _ ?x _ => apply (wp_weaken _ _ (λ o b', o = Done () ∧ core b' = core x ∧ ta b' = ta x ∧ tu b' = tu x)) end.
  { destruct (negb _ && _); [apply wp_modify|apply wp_done]; done. }
  intros _ b2 (-> & Hc2 & Ht2 & Hu2). apply wp_modify. cbn. rewrite Ht2, Hu2. cbn. rewrite Ht, Hu. split_and!; [done| |by unfold commitPlay; destruct (negb _)|done].
  transitivity (core b2); [done|]. rewrite Hc2, <- Hc. done.
Qed.

Lemma safe_play p cards code source notify : Stays Safe (playWithSource p cards code source notify).
Proof.
  apply stays_wp. intros b. unfold playWithSource. apply wp_seq, wp_read. unfold id.
  assert (∀ reason b', Safe b b' → wp (actionFailure p reason notify) b' (λ _ b', Safe b b')) as Hfail.
  { intros reason b' Hb. eapply (wp_stays Safe); [apply stays_actionFailure; apply _|]. intros _ b'' ?. by transitivity b'. }
  destruct (bool_decide (phase b ≠ Playing)); [by apply Hfail|].
  apply (wp_stays_bind eq); [apply stays_index; apply _|]. intros _ <-. split; [|done]. intros active.
  do 4 (match goal with |- wp (if ?c then _ else _) _ _ => destruct c end; [by apply Hfail|]).
  destruct (validateCards _ cards) as [pattern|] eqn:Hv; [|by apply Hfail].
  match goal with |- wp (if ?c then _ else _) _ _ => destruct c end; [by apply Hfail|].
  apply (wp_stays_bind SameTable); [destruct (bool_decide _); [apply same_changeAuto|apply stays_ret; apply _]|].
  intros b1 Hb1. assert (Safe b b1) as Hs1 by by apply same_safe. split; [|done]. intros _.
  apply (wp_stays_bind eq); [apply stays_current; apply _|]. intros _ <-. split; [|done]. intros ms.
  apply wp_seq. eapply wp_weaken; [apply commitAction_run|]. intros _ b2 (-> & Hc & Ht & Hu).
  assert (Safe b b2) as Hs2.
  { transitivity b1; [done|]. destruct Hb1 as (Hbt & _). unfold core in Hc. simplify_eq. eapply commit_conserves with (pattern := pattern); [|done|].
    - unfold handOfPlayer. rewrite Hbt. exact Hv.
    - unfold cardFields. rewrite Ht. cbn. congruence. }
  eapply (wp_stays Safe); [|intros _ b3 ?; by transitivity b2]. unfold announce. stays.
Qed.
End Handlers.
#[export] Hint Resolve safe_play : stays.

(** ** Every handler *)

Section AllHandlers.
Context {E : Env}.

Lemma safe_setAuto p : Stays Safe (setAuto p).
Proof. unfold setAuto. safe. Qed.
Lemma safe_setOffline p : Stays Safe (setOffline p).
Proof. unfold setOffline. safe. Qed.
Lemma safe_reconnect p : Stays Safe (reconnect p).
Proof. unfold reconnect. safe. Qed.
Lemma safe_scene p : Stays Safe (scene p).
Proof. unfold scene. safe. Qed.
Lemma safe_recordPropUse p : Stays Safe (recordPropUse p).
Proof. unfold recordPropUse. safe. Qed.
Lemma safe_applyReplayResult p : Stays Safe (applyReplayResult p).
Proof. unfold applyReplayResult. safe. Qed.
Lemma safe_timer p : Stays Safe (timer p).
Proof. unfold timer. safe. Qed.
Lemma safe_applyAIResult p : Stays Safe (applyAIResult p).
Proof. unfold applyAIResult. safe. Qed.
Lemma safe_initialize p : Stays Safe (initialize p).
Proof. unfold initialize. safe. Qed.
Lemma safe_prepare p : Stays Safe (prepare p).
Proof. unfold prepare. safe. Qed.
Lemma safe_provide p : Stays Safe (provideCustomDeck p).
Proof. unfold provideCustomDeck. safe. Qed.
Hint Resolve safe_provide : stays.
Lemma safe_loadResult s p : Stays Safe (applyCustomDeckLoadResult s p).
Proof. unfold applyCustomDeckLoadResult. safe. Qed.
Lemma safe_roundContext p : Stays Safe (updateRoundContext p).
Proof. unfold updateRoundContext. safe. Qed.
Lemma safe_playHandler p : Stays Safe (play p).
Proof. unfold play. safe. Qed.
Lemma safe_deleteBarrier p : Stays Safe (deleteBarrier p).
Proof. unfold deleteBarrier. safe. Qed.

(** *** Changes of the players *)

Lemma safe_people b q : (seatsOk (pe b) → seatsOk q) → Safe b (set_pe q b).
Proof. intros H. by apply safe_fields. Qed.

Lemma exit_seats q p v : players q !! p = Some v → seatsOk q → seatsOk (set_players (<[bpPlayer v := setExited v]> (players q)) q).
Proof. intros Hv H. pose proof (proj1 H _ _ Hv) as Hp. subst p. eapply seatsOk_insert; [done|by rewrite Hv|done..]. Qed.
Lemma dress_seats b p d (v := playerOf b p) : known b p = true → seatsOk (pe b) →
  seatsOk (set_players (<[p := setFlags (bpIsBreak v) (bpIsSeal v) d v]> (players (pe b))) (pe b)).
Proof. intros Hk H. assert (bpPlayer v = p) as Hp by (apply playerOf_name; tauto). eapply seatsOk_insert; [done|reflexivity|done..]. Qed.

Lemma safe_exit p : Stays Safe (exit p).
Proof.
  apply stays_wp. intros b. unfold exit. apply wp_seq, wp_read. unfold id. destruct (p ≫= _) as [v|] eqn:Hv.
  2:{ eapply (wp_stays Safe); [apply stays_reject; apply _|done]. }
  apply wp_seq, wp_modify. eapply (wp_stays Safe); [apply stays_accept; apply _|]. intros _ b' Hb'. etransitivity; [|exact Hb'].
  apply safe_people. destruct p as [p|]; [|done]. by eapply exit_seats.
Qed.
Lemma safe_updateDress p : Stays Safe (updateDress p).
Proof.
  apply stays_wp. intros b. unfold updateDress. apply wp_seq, wp_read. unfold id. destruct p as [[p d]|].
  2:{ eapply (wp_stays Safe); [apply stays_reject; apply _|done]. }
  destruct (_ || _) eqn:Hk; [eapply (wp_stays Safe); [apply stays_reject; apply _|done]|]. apply orb_false_iff in Hk as [_ Hk%negb_false_iff].
  apply wp_seq, wp_modify. eapply (wp_stays Safe); [apply stays_accept; apply _|]. intros _ b' Hb'. etransitivity; [|exact Hb'].
  apply safe_people. by apply dress_seats.
Qed.

(** Scores are written seat by seat. *)
Lemma safe_setScores scores b : Safe b (setScores scores b).
Proof.
  unfold setScores. assert (Forall inSeats seats) as Hs by (apply Forall_forall; intros i; apply elem_of_seats). revert Hs.
  generalize seats as l. intros l. revert b. induction l as [|seat l IH]; intros b Hl; [done|]. apply Forall_cons in Hl as [Hi Hl]. cbn [foldl].
  etransitivity; [|by apply IH]. apply safe_people. intros H. destruct (qat_in (bySeat (pe b)) seat Hi) as [p Hp].
  assert (qget "" (bySeat (pe b)) seat = p) as -> by (unfold qget; by rewrite Hp).
  assert (bpPlayer (playerOf b p) = p) by (apply playerOf_name; eauto). by eapply seatsOk_insert.
Qed.
Lemma safe_applyPlan plan l : ∀ b, Safe b (applyPlan plan l b).1.
Proof.
  induction l as [|seat l IH]; intros b; cbn [applyPlan]; [done|]. destruct (negb (seatedPlayer b seat)) eqn:Hk; [done|].
  apply negb_false_iff in Hk. unfold seatedPlayer in Hk. apply andb_true_iff in Hk as [_ Hk]. cbv zeta.
  etransitivity; [|by apply IH]. apply safe_people. intros H.
  assert (bpPlayer (playerOf b (qget "" (bySeat (pe b)) seat)) = qget "" (bySeat (pe b)) seat) by (apply playerOf_name; tauto).
  by eapply seatsOk_insert.
Qed.
(** Both write players only, and none of the seats. *)
Lemma setScores_pe scores b : ∃ q, setScores scores b = set_pe q b ∧ bySeat q = bySeat (pe b).
Proof.
  unfold setScores. generalize seats as l. intros l. revert b. induction l as [|seat l IH]; intros b; [exists (pe b); by destruct b|]. cbn [foldl].
  match goal with |- context [foldl _ ?x l] => destruct (IH x) as (q & -> & Hq) end. by exists q.
Qed.
Lemma applyPlan_pe plan l : ∀ b, ∃ q, (applyPlan plan l b).1 = set_pe q b ∧ bySeat q = bySeat (pe b).
Proof.
  induction l as [|seat l IH]; intros b; cbn [applyPlan]; [exists (pe b); by destruct b|]. destruct (negb _); [exists (pe b); by destruct b|]. cbv zeta.
  match goal with |- context [applyPlan plan l ?x] => destruct (IH x) as (q & -> & Hq) end. by exists q.
Qed.
Lemma safe_forceFinish p : Stays Safe (forceFinish p).
Proof. unfold forceFinish. safe. apply safe_setScores. Qed.
Lemma safe_complete p : Stays Safe (completeSettlement p).
Proof.
  apply stays_wp. intros b. unfold completeSettlement. apply wp_seq, wp_read. unfold id.
  assert (∀ s b', Safe b b' → wp (settlementReject s) b' (λ _ b', Safe b b')) as Hrej.
  { intros s b' Hb. eapply (wp_stays Safe); [apply stays_settlementReject; apply _|]. intros _ b'' ?. by transitivity b'. }
  destruct p as [request|]; [|by apply Hrej]. destruct (bool_decide _); [by apply Hrej|]. destruct (planSettlement _ _) as [plan|]; [|by apply Hrej].
  pose proof (safe_applyPlan plan seats b) as Hp. destruct (applyPlan plan seats b) as [b' complete]. cbn in Hp.
  apply wp_seq, wp_modify. destruct complete; cbn [negb]; [|by apply Hrej].
  eapply (wp_stays Safe); [|intros _ b'' ?; by transitivity b']. safe.
Qed.

(** The seats of a request come from its players. *)
Lemma upsertPlayer_names l m : (∀ p v, m !! p = Some v → bpPlayer v = p) → ∀ p v, foldl upsertPlayer m l !! p = Some v → bpPlayer v = p.
Proof.
  revert m. induction l as [|x l IH]; intros m Hm; [done|]. cbn [foldl]. apply IH. intros p v. unfold upsertPlayer. rewrite lookup_insert_Some.
  intros [[<- <-]|[_ ?]]; [done|by apply Hm].
Qed.
Lemma seatPlayers_from l : ∀ q q' i p, seatPlayers l q = Some q' → qat q' i = Some p → p ≠ "" → (∃ v, v ∈ l ∧ bpPlayer v = p ∧ bpSeatID v = i) ∨ qat q i = Some p.
Proof.
  induction l as [|x l IH]; intros q q' i p H Hp Hne; cbn [seatPlayers] in H; [injection H as <-; by right|].
  destruct (_ && _); [done|]. destruct (IH _ _ _ _ H Hp Hne) as [(v & ? & ? & ?)|Hq]; [left; exists v; set_solver|].
  destruct (decide (bpSeatID x = i)) as [<-|Hd]; [|right; by rewrite qat_qset_ne in Hq].
  destruct (decide (inSeats (bpSeatID x))) as [Hi|Hi].
  - rewrite qat_qset in Hq by done. left. exists x. set_solver.
  - right. unfold qset in Hq. repeat case_match; bool_prop; try done; unfold inSeats in Hi; lia.
Qed.
Lemma update_seats b request q ready : seatPlayers (map_to_list (foldl upsertPlayer (players (pe b)) request)).*2 (qall "") = Some q → seatsOk (pe b) →
  seatsOk (mkPeople (foldl upsertPlayer (players (pe b)) request) q (auto (pe b)) (offline (pe b)) ready).
Proof.
  intros Hq H. pose proof (upsertPlayer_names request _ (proj1 H)) as Hn. split; [exact Hn|]. cbn.
  intros i p Hi Hne. destruct (seatPlayers_from _ _ _ _ _ Hq Hi Hne) as [(v & Hv & Hvp & Hvi)|Hv].
  - apply list_elem_of_fmap in Hv as ([k v'] & -> & Hm%elem_of_map_to_list). cbn in *. exists v'. pose proof (Hn _ _ Hm). split; congruence.
  - unfold qall, qat in Hv. cbn in Hv. repeat case_match; simplify_eq.
Qed.
Lemma safe_updatePlayers p : Stays Safe (updatePlayers p).
Proof.
  apply stays_wp. intros b. unfold updatePlayers. apply wp_seq, wp_read. unfold id.
  assert (∀ s, wp (reject s) b (λ _ b', Safe b b')) as Hrej.
  { intros s. eapply (wp_stays Safe); [apply stays_reject; apply _|done]. }
  destruct p as [request|]; [|by apply Hrej]. destruct (_ || negb _); [by apply Hrej|]. cbv zeta.
  destruct (seatPlayers _ _) as [q|] eqn:Hq; [|by apply Hrej]. apply wp_seq, wp_modify.
  eapply (wp_stays Safe); [apply stays_accept; apply _|]. intros _ b' Hb'. etransitivity; [|exact Hb'].
  apply safe_people. by apply update_seats.
Qed.
End AllHandlers.

(** ** Starting *)

(** Four players at four seats. *)
Definition fullTable (q : people) : Prop := seatsOk q ∧ ∀ i, inSeats i → qget "" (bySeat q) i ≠ "".

Lemma hasFour_full b : seatsOk (pe b) → hasFourPlayers b = true → fullTable (pe b).
Proof.
  intros H Hf. split; [done|]. unfold hasFourPlayers in Hf. apply andb_true_iff in Hf as [Hf _]. rewrite forallb_forall in Hf.
  intros i Hi. apply (bool_decide_eq_false (qget "" (bySeat (pe b)) i = "")), negb_true_iff, Hf. seat_split Hi; cbn; tauto.
Qed.
Lemma full_inj q i j : fullTable q → inSeats i → inSeats j → qget "" (bySeat q) i = qget "" (bySeat q) j → i = j.
Proof.
  intros [H Hne] Hi Hj He. destruct (qat_in (bySeat q) i Hi) as [p Hp], (qat_in (bySeat q) j Hj) as [p' Hp'].
  pose proof (Hne _ Hi). unfold qget in *. rewrite Hp, Hp' in *. cbn in *. subst p'. by eapply seatsOk_inj.
Qed.

(** A hand for each seat, of players that are all different. *)
Lemma giveHands_lookup b q i : fullTable (pe b) → inSeats i → giveHands b q !! qget "" (bySeat (pe b)) i = Some (qget [] q i).
Proof.
  intros H Hi. unfold giveHands, seats. cbn [foldl].
  assert (∀ j, inSeats j → i ≠ j → qget "" (bySeat (pe b)) j ≠ qget "" (bySeat (pe b)) i) as Hd.
  { intros j Hj Hne He. apply Hne. symmetry. by apply (full_inj (pe b)). }
  seat_split Hi; rewrite ?lookup_insert_ne by (apply Hd; [unfold inSeats; lia|done]); by rewrite lookup_insert_eq.
Qed.
Lemma giveHands_held b q : fullTable (pe b) → heldCards (giveHands b q) ≡ₚ concat (qlist q).
Proof.
  intros H. unfold giveHands, seats. cbn [foldl].
  assert (∀ i j, i ∈ seats → j ∈ seats → i ≠ j → qget "" (bySeat (pe b)) i ≠ qget "" (bySeat (pe b)) j) as Hd.
  { intros i j Hi%elem_of_seats Hj%elem_of_seats Hne He. apply Hne. by apply (full_inj (pe b)). }
  rewrite !heldCards_insert by (rewrite ?lookup_insert_ne by (apply Hd; [set_solver..|done]); done).
  unfold heldCards. rewrite map_to_list_empty. cbn. solve_Permutation.
Qed.

Section Start.
Context {E : Env}.

Lemma wp_now b Q : (∀ t, Q (Done t) b) → wp now b Q.
Proof. intros H. unfold now. apply wp_seq, wp_ask. intros l. apply wp_seq, wp_note, wp_done, H. Qed.

(** The state in which a shuffle that leaves the deck panics. *)
Definition noHands (b : NHSKBattleService) : NHSKBattleService := set_ta (set_hands ∅ (ta b)) b.

(** What a deal gives: some deck, in the order of the seats. *)
Lemma deal_run banker custom b Q :
  (∀ deck b', match custom with Some d => deck = dkCards d | None => deck ≡ₚ doubleDeck end →
     b' = set_ta (set_hands (giveHands b (dealDeck banker deck)) (ta b)) b → Q (Done ()) b') →
  Q Panicked (noHands b) → wp (deal banker custom) b Q.
Proof.
  intros HQ Hp. unfold deal. apply wp_seq, wp_read. unfold id. apply wp_seq, wp_modify. destruct custom as [d|].
  - apply wp_modify. by apply (HQ (dkCards d)).
  - apply wp_seq, wp_ask. intros l. apply wp_seq, wp_note. destruct (shuffle _ _) as [deck|] eqn:Hd; [|by apply wp_panic].
    apply wp_modify. apply (HQ (arrange b deck)); [|done]. rewrite <- (shuffle_perm _ _ _ Hd). unfold arrange.
    destruct (isNewbie _); [destruct (newPlayerSeat b); [apply adjustNewbieCards_perm|done]|apply swapSingleCards_perm].
Qed.

(** The service right after the deal of a start, before anything is announced. *)
Definition startedFrom (b : NHSKBattleService) (banker : Z) (deck : list card) (b' : NHSKBattleService) : Prop :=
  ∃ startedAt, let b1 := resetSubgame banker (set_ta (set_hands (giveHands b (dealDeck banker deck)) (ta b)) b) in
  b' = set_tu (set_revision (u64 (revision (tu b1) + 1)) (tu b1))
         (set_re (set_replayDocument (NewReplayDocument (buildReplayStartSnapshot b1 startedAt)) (re b1)) b1).

Lemma started_conserved b banker deck b' : fullTable (pe b) → startedFrom b banker deck b' → conserved b'.
Proof.
  intros Hf [t ->]. unfold conserved, playedCards, dealtCards. cbn -[giveHands dealDeck buildReplayStartSnapshot qlist].
  rewrite app_nil_r, giveHands_held by done. unfold buildReplayStartSnapshot. destruct (formatReplay _ _ _ _ _) as [[? ?] ?]. cbn [rsHands].
  unfold qmap, qlist. cbn [q0 q1 q2 q3]. unfold handOfPlayer. cbn [ta resetSubgame hands resetTrick set_activeSeat set_ta set_hands pe bySeat set_players].
  pose proof (λ i, giveHands_lookup b (dealDeck banker deck) i Hf) as Hl.
  pose proof (Hl 0) as H0. pose proof (Hl 1) as H1. pose proof (Hl 2) as H2. pose proof (Hl 3) as H3. unfold inSeats in *.
  unfold qget, qat in H0, H1, H2, H3. cbn -[giveHands dealDeck] in *. rewrite H0, H1, H2, H3 by lia. done.
Qed.
Lemma started_seats b banker deck b' : seatsOk (pe b) → startedFrom b banker deck b' → seatsOk (pe b').
Proof.
  intros [H1 H2] [t ->]. cbn. split; cbn.
  - intros p v Hv. rewrite lookup_fmap in Hv. apply fmap_Some in Hv as (v' & Hv' & ->). cbn. by apply H1.
  - intros i p Hi Hne. destruct (H2 i p Hi Hne) as (v & Hv & <-). eexists. split; [by rewrite lookup_fmap, Hv|done].
Qed.

(** A start is refused and changes nothing, panics in the deal, or deals, and then
    announces. *)
Lemma start_run payload b Q :
  (∀ o, Q o b) → Q Panicked (noHands b) →
  (∀ drawn custom deck b', phase b = Preparing → fullTable (pe b) → 0 ≤ drawn < 4 → custom = customDeckForSubgame b →
     match custom with Some d => deck = dkCards d | None => deck ≡ₚ doubleDeck end →
     startedFrom b (match custom with Some d => if 0 <=? dkBankerSeat d then dkBankerSeat d else drawn | None => drawn end) deck b' →
     wp (toAll GameStartPayload ;;
         emit (GameStartedOutput (from_option rsReplayName "" (rdStart (replayDocument (re b'))))) ;;
         b ← get id;
         toAll (gameInfoPayload b) ;;
         emitDeals b seats ;;
         startAction (firstOutCardTimeout (rules (su b))) ;;
         accept) b' Q) →
  seatsOk (pe b) → wp (start payload) b Q.
Proof.
  intros Hsame Hbad Hgo Hs. unfold start. assert (∀ s, wp (reject s) b Q) as Hrej.
  { intros s. eapply (wp_stays eq); [apply stays_reject; apply _|]. by intros o _ <-. }
  destruct payload; cbn [negb]; [|apply Hrej]. apply wp_seq, wp_read. unfold id.
  destruct (negb (bool_decide (phase b = Preparing)) || _) eqn:Hg; [apply Hrej|]. apply orb_false_iff in Hg as [Hp%negb_false_iff Hf%negb_false_iff].
  apply bool_decide_eq_true in Hp. apply hasFour_full in Hf; [|done].
  apply wp_seq, wp_ask. intros l0. generalize (ansIntn l0) as drawn. intros drawn. apply wp_seq, wp_note.
  destruct ((drawn <? 0) || (4 <=? drawn)) eqn:Hd; [apply Hrej|]. apply orb_false_iff in Hd as [Hd1%Z.ltb_ge Hd2%Z.leb_gt].
  cbv zeta. apply wp_seq, deal_run; [|done]. intros deck b1 Hdeck ->.
  apply wp_seq, wp_now. intros startedAt. apply wp_seq, wp_modify, wp_seq, wp_read, wp_seq, wp_modify, wp_seq, wp_modify.
  apply (Hgo drawn (customDeckForSubgame b) deck); [done|done|lia|done|done|]. by exists startedAt.
Qed.

Lemma safe_start payload b : seatsOk (pe b) →
  wp (start payload) b (λ o b', Safe b b' ∨ o = Panicked ∧ b' = noHands b).
Proof.
  intros Hs. apply start_run; [by left|by right| |done]. intros drawn custom deck b1 _ Hf _ _ _ Hb1.
  assert (Safe b b1) as H1 by (intros _; split; [by eapply started_seats|intros _; by eapply started_conserved]).
  eapply (wp_stays Safe); [|intros o b2 ?; left; by transitivity b1]. stays.
Qed.
End Start.

(** ** Reachable states *)

Section Reach.
Context {E : Env}.

Lemma safe_Handle source c : (∀ p, c ≠ StartSubgame p) → Stays Safe (Handle source c).
Proof.
  intros Hc. unfold Handle. apply stays_bind; [apply _|apply stays_get; apply _|intros d].
  destruct c; try (destruct d; [apply stays_ret; apply _|]);
    eauto using safe_setAuto, safe_setOffline, safe_reconnect, safe_scene, safe_recordPropUse, safe_applyReplayResult, safe_timer, safe_applyAIResult,
      safe_initialize, safe_prepare, safe_provide, safe_loadResult, safe_roundContext, safe_playHandler, safe_deleteBarrier, safe_exit,
      safe_updateDress, safe_forceFinish, safe_complete, safe_updatePlayers with stays typeclass_instances.
  all: match goal with H : ∀ p, StartSubgame ?q ≠ StartSubgame p |- _ => by destruct (H q) end.
Qed.

Lemma start_Handle source p w : seatsOk (pe (battle w)) →
  Safe (battle w) (battle (Handle source (StartSubgame p) w).1)
  ∨ (Handle source (StartSubgame p) w).2 = Panicked ∧ battle (Handle source (StartSubgame p) w).1 = noHands (battle w).
Proof.
  intros Hs. destruct w as [b l]. cbn [battle] in *.
  assert (wp (Handle source (StartSubgame p)) b (λ o b', Safe b b' ∨ o = Panicked ∧ b' = noHands b)) as H; [|exact (H l)].
  unfold Handle. apply wp_seq, wp_read. destruct (deleting b); [apply wp_done; by left|]. by apply safe_start.
Qed.

(** A service that has been constructed, and has handled any commands since, each to
    its end or to an error or panic in its middle; a start that panics is the last. *)
Inductive reachable : world → Prop :=
| reach_new c seed b l : NewBattleService c seed = Ok b → reachable (mkWorld b l)
| reach_init w : reachable w → reachable (Init w).1
| reach_close w : reachable w → reachable (Close w).1
| reach_handle w source c : reachable w → (∀ p, c ≠ StartSubgame p) ∨ (Handle source c w).2 ≠ Panicked →
    reachable (Handle source c w).1.

Lemma handle_safe source c w :
  seatsOk (pe (battle w)) → (∀ p, c ≠ StartSubgame p) ∨ (Handle source c w).2 ≠ Panicked →
  Safe (battle w) (battle (Handle source c w).1).
Proof.
  intros Hs Hc.
  destruct c; try (apply safe_Handle; done). destruct (start_Handle source p w Hs) as [?|[Hp _]]; [done|].
  destruct Hc as [Hc|Hc]; [by destruct (Hc p)|done].
Qed.

Lemma new_battle c seed b : NewBattleService c seed = Ok b →
  phase b = AwaitingInit ∧ pe b = mkPeople ∅ (qall "") ∅ ∅ ∅ ∧ ta b = emptyTable ∧ replayDocument (re b) = zeroDocument.
Proof. unfold NewBattleService. intros H. repeat case_match; simplify_eq; done. Qed.

Lemma reachable_safe w : reachable w → seatsOk (pe (battle w)) ∧ conserved (battle w).
Proof.
  induction 1 as [c seed b l Hn|w _ [H1 H2]|w _ [H1 H2]|w source c _ [H1 H2] Hc]; [|done..|].
  - apply new_battle in Hn as (_ & Hp & Ht & Hr). cbn. rewrite Hp. split; [split|].
    + done.
    + intros i p Hi Hne. unfold qall, qat in Hi. cbn in Hi. repeat case_match; simplify_eq.
    + unfold conserved, playedCards, dealtCards. by rewrite Ht, Hr.
  - destruct (handle_safe source c w H1 Hc H1). tauto.
Qed.
End Reach.
