(* ===== verification/NhskTrick.v ===== *)
(** * The card battle: tricks

    The rules of the table, as an invariant of the fields of [table] with the players
    of [people]: whose turn it is, what the current trick is about, who is out and in
    which rank, and where the points are.  An accepted action, the search for the next
    seat and the end of a trick keep it. *)

From stdpp Require Import prelude gmap strings list.
From Stdlib Require Import ZArith Lia.
From S2P Require Import Prelude Types Game NhskCards NhskSettlement NhskDeal NhskReplay NhskBattle NhskBattleInv.

Local Open Scope Z_scope.

(** ** The invariant *)

Definition handAt (q : people) (t : table) (i : Z) : list card := default [] (hands t !! qget "" (bySeat q) i).
Definition outCount (f : quad bool) : Z := Z.of_nat (length (filter (λ x, x = true) (qlist f))).

(** Who is out has a rank, up to the number of those out, and nobody shares it. *)
Definition ranksOk (f : quad bool) (r : quad Z) : Prop :=
  (∀ i, inSeats i → if qget false f i then 1 ≤ qget 0 r i ≤ outCount f else qget 0 r i = 0)
  ∧ ∀ i j, inSeats i → inSeats j → i ≠ j → qget false f i = true → qget false f j = true → qget 0 r i ≠ qget 0 r j.

Record tableOk (q : people) (t : table) : Prop := {
  tk_finished : ∀ i, inSeats i → qget false (finished t) i = true ↔ handAt q t i = [];
  tk_ranks : ranksOk (finished t) (ranks t);
  tk_points : qsum (capturedPoints t) + scoreOf (scoreCards t) = scoreOf (concat (outedCards t));
  tk_captured : ∀ i, inSeats i → 0 ≤ qget 0 (capturedPoints t) i;
  tk_size : (length (heldCards (hands t)) + length (concat (outedCards t)) = 104)%nat
}.

(** Of two partners one still has cards. *)
Definition partnersOk (q : people) (t : table) : Prop := ∀ i, inSeats i → handAt q t i ≠ [] ∨ handAt q t (partnerSeat i) ≠ [].

(** Actions so far, with what is left: four for each card still held, and the passes
    the current trick still allows. *)
Definition budget (t : table) : Z :=
  Z.of_nat (length (outedCards t)) + 4 * Z.of_nat (length (heldCards (hands t))) + (if bool_decide (lastCards t = []) then 0 else 3 - passCount t).
Definition maxActions : Z := 416.

(** A new trick, or one that [preOutSeat] leads after [passCount] seats passed. *)
Definition trickOk (t : table) : Prop :=
  preOutSeat t = -1 ∧ lastCards t = [] ∧ passCount t = 0 ∧ scoreCards t = []
  ∨ inSeats (preOutSeat t) ∧ lastCards t ≠ [] ∧ 0 ≤ passCount t ≤ 2 ∧ activeSeat t = (preOutSeat t + 1 + passCount t) `mod` 4.

(** A player's turn. *)
Definition turnOk (q : people) (t : table) : Prop :=
  tableOk q t ∧ partnersOk q t ∧ inSeats (activeSeat t) ∧ handAt q t (activeSeat t) ≠ [] ∧ trickOk t ∧ budget t ≤ maxActions.

(** Right after an action, before the next seat is looked for. *)
Definition actedOk (q : people) (t : table) : Prop :=
  tableOk q t ∧ inSeats (activeSeat t) ∧ inSeats (preOutSeat t) ∧ lastCards t ≠ [] ∧ 0 ≤ passCount t ≤ 3
  ∧ activeSeat t = (preOutSeat t + passCount t) `mod` 4 ∧ budget t ≤ maxActions.

(** The end by play: one pair of partners is out, the other is not. *)
Definition overOk (q : people) (t : table) : Prop :=
  tableOk q t ∧ inSeats (activeSeat t) ∧ scoreCards t = [] ∧ (∃ i, inSeats i ∧ handAt q t i = [] ∧ handAt q t (partnerSeat i) = []
    ∧ (handAt q t ((i + 1) `mod` 4) ≠ [] ∨ handAt q t ((i + 3) `mod` 4) ≠ [])) ∧ budget t ≤ maxActions.

(** ** Seats *)

Lemma partner_in i : inSeats (partnerSeat i).
Proof. unfold inSeats, partnerSeat. apply Z.mod_pos_bound. done. Qed.
Lemma mod_in i : inSeats (i `mod` 4).
Proof. unfold inSeats. apply Z.mod_pos_bound. done. Qed.
Lemma partner_ne i : inSeats i → partnerSeat i ≠ i.
Proof. intros H. by seat_split H. Qed.
Lemma partner_partner i : inSeats i → partnerSeat (partnerSeat i) = i.
Proof. intros H. by seat_split H. Qed.
Lemma next_ne i k : inSeats i → 1 ≤ k ≤ 3 → i ≠ (i + k) `mod` 4.
Proof. intros Hi Hk. assert (k = 1 ∨ k = 2 ∨ k = 3) as [->|[->| ->]] by lia; by seat_split Hi. Qed.
Lemma partner_next i : inSeats i → partnerSeat ((i + 1) `mod` 4) = (i + 3) `mod` 4.
Proof. intros Hi. by seat_split Hi. Qed.
Lemma qget_qset {A} (d : A) i x q : inSeats i → qget d (qset i x q) i = x.
Proof. intros H. unfold qget. by rewrite qat_qset. Qed.
Lemma qget_qset_ne {A} (d : A) i j x q : i ≠ j → qget d (qset i x q) j = qget d q j.
Proof. intros H. unfold qget. by rewrite qat_qset_ne. Qed.

Lemma outCount_range f : 0 ≤ outCount f ≤ 4.
Proof. destruct f as [[] [] [] []]; by vm_compute. Qed.
(** The next to be out gets the next rank. *)
Lemma ranks_next f r i : inSeats i → qget false f i = false → ranksOk f r →
  ranksOk (qset i true f) (qset i (u8 (outCount (qset i true f))) r).
Proof.
  intros Hi Hf [H1 H2]. assert (outCount (qset i true f) = outCount f + 1) as Hc.
  { destruct f as [[] [] [] []]; seat_split Hi; by vm_compute in Hf |- *. }
  pose proof (outCount_range f). pose proof (outCount_range (qset i true f)) as Hr. assert (u8 (outCount (qset i true f)) = outCount (qset i true f)) as -> by (apply Z.mod_small; lia).
  split.
  - intros j Hj. destruct (decide (i = j)) as [<-|Hne]; [rewrite !qget_qset by done; lia|]. rewrite !qget_qset_ne by done.
    specialize (H1 j Hj). destruct (qget false f j); lia.
  - intros j k Hj Hk Hne. pose proof (H1 j Hj) as Hj1. pose proof (H1 k Hk) as Hk1.
    destruct (decide (i = j)) as [<-|Hij], (decide (i = k)) as [<-|Hik]; [done|..];
      rewrite ?qget_qset, ?qget_qset_ne by done; intros Fj Fk; rewrite ?Fj, ?Fk in *; [lia..|]. by apply H2.
Qed.

(** ** Points *)

Lemma qsum_qset i x q : inSeats i → qsum (qset i x q) = qsum q - qget 0 q i + x.
Proof. intros H. destruct q. seat_split H; unfold qsum, qset, qget; cbn; lia. Qed.
Lemma qsum_nonneg q : (∀ i, inSeats i → 0 ≤ qget 0 q i) → ∀ i, inSeats i → 0 ≤ qget 0 q i ≤ qsum q.
Proof.
  intros H i Hi. pose proof (H 0 ltac:(unfold inSeats; lia)). pose proof (H 1 ltac:(unfold inSeats; lia)).
  pose proof (H 2 ltac:(unfold inSeats; lia)). pose proof (H 3 ltac:(unfold inSeats; lia)).
  destruct q. unfold qsum, qget, qat in *. cbn in *. seat_split Hi; cbn; lia.
Qed.
Lemma points_bound q t : tableOk q t → 0 ≤ scoreOf (scoreCards t) ∧ 0 ≤ qsum (capturedPoints t) ∧ scoreOf (concat (outedCards t)) ≤ 1040.
Proof.
  intros [_ _ Hp Hc Hs]. pose proof (scoreOf_range (scoreCards t)). pose proof (scoreOf_range (concat (outedCards t))) as Hr.
  unfold numCards in Hr. pose proof (qsum_nonneg _ Hc 0 ltac:(unfold inSeats; lia)). lia.
Qed.
(** No total overflows its 16 bits: the captured points are those of the cards. *)
Lemma addPoints_exact q t i : tableOk q t → inSeats i →
  addPoints i (scoreCardsIn (scoreCards t)).1 (capturedPoints t) = qset i (qget 0 (capturedPoints t) i + scoreOf (scoreCards t)) (capturedPoints t).
Proof.
  intros H Hi. pose proof (points_bound _ _ H) as (H1 & H2 & H3). destruct H as [_ _ Hp Hc _]. pose proof (qsum_nonneg _ Hc i Hi).
  unfold addPoints. rewrite scoreCardsIn_spec. cbn [fst]. rewrite u32_small by lia. f_equal. unfold u16.
  rewrite (Z.mod_small (scoreOf _)) by lia. apply Z.mod_small. lia.
Qed.
Lemma captured_ok t i (x := scoreOf (scoreCards t)) : inSeats i → 0 ≤ x → (∀ j, inSeats j → 0 ≤ qget 0 (capturedPoints t) j) →
  qsum (qset i (qget 0 (capturedPoints t) i + x) (capturedPoints t)) = qsum (capturedPoints t) + x
  ∧ ∀ j, inSeats j → 0 ≤ qget 0 (qset i (qget 0 (capturedPoints t) i + x) (capturedPoints t)) j.
Proof.
  intros Hi Hx Hc. split; [rewrite qsum_qset by done; lia|]. intros j Hj. destruct (decide (i = j)) as [<-|Hne].
  - rewrite qget_qset by done. specialize (Hc i Hi). lia.
  - rewrite qget_qset_ne by done. by apply Hc.
Qed.

(** ** An accepted action *)

Section Action.
Context (q : people) (Hq : fullTable q).

Definition actionTable (cards : list card) (pattern : cardPattern) (t : table) : table :=
  set_outedCards (outedCards t ++ [cards]) (commitPlay (qget "" (bySeat q) (activeSeat t)) cards pattern t).
(** The table when the active player has just played the last card. *)
Definition leftTable (t : table) : table :=
  mkTable (hands t) (activeSeat t) (lastCards t) (lastRank t) (lastCount t) (preOutSeat t) (passCount t) (scoreCards t) (capturedPoints t)
    (qset (activeSeat t) true (finished t)) (qset (activeSeat t) (u8 (outCount (qset (activeSeat t) true (finished t)))) (ranks t))
    (outedCards t) (lastPlayedCards t) (lastPlayCounts t).

Lemma handAt_insert t i j h : inSeats i → inSeats j →
  default [] (<[qget "" (bySeat q) i := h]> (hands t) !! qget "" (bySeat q) j) = if bool_decide (i = j) then h else handAt q t j.
Proof.
  intros Hi Hj. case_bool_decide as He; [subst; by rewrite lookup_insert_eq|]. rewrite lookup_insert_ne; [done|].
  intros Hp. apply He. by apply (full_inj q).
Qed.
Lemma action_hands cards pattern t : hands (actionTable cards pattern t)
  = <[qget "" (bySeat q) (activeSeat t) := removeCards (handAt q t (activeSeat t)) cards]> (hands t).
Proof. unfold actionTable, commitPlay. by destruct (negb _). Qed.
Lemma action_hand cards pattern t i : inSeats (activeSeat t) → inSeats i →
  handAt q (actionTable cards pattern t) i = if bool_decide (activeSeat t = i) then removeCards (handAt q t (activeSeat t)) cards else handAt q t i.
Proof. intros Ha Hi. unfold handAt at 1. rewrite action_hands. by apply handAt_insert. Qed.
Lemma action_same cards pattern t :
  let t' := actionTable cards pattern t in
  activeSeat t' = activeSeat t ∧ capturedPoints t' = capturedPoints t ∧ finished t' = finished t ∧ ranks t' = ranks t
  ∧ outedCards t' = outedCards t ++ [cards].
Proof. unfold actionTable, commitPlay. by destruct (negb _). Qed.
Lemma action_led cards pattern t : cards ≠ [] →
  let t' := actionTable cards pattern t in
  preOutSeat t' = activeSeat t ∧ passCount t' = 0 ∧ lastCards t' = cards ∧ scoreCards t' = scoreCards t ++ (scoreCardsIn cards).2.
Proof. intros Hc. unfold actionTable, commitPlay. by destruct cards. Qed.
Lemma action_passed pattern t :
  let t' := actionTable [] pattern t in
  preOutSeat t' = preOutSeat t ∧ passCount t' = passCount t + 1 ∧ lastCards t' = lastCards t ∧ scoreCards t' = scoreCards t.
Proof. done. Qed.

Lemma action_sizes cards pattern t : validateCards (handAt q t (activeSeat t)) cards = Some pattern →
  (length (heldCards (hands (actionTable cards pattern t))) + length cards = length (heldCards (hands t)))%nat.
Proof.
  intros Hv. apply validated_removed, Permutation_length in Hv. rewrite length_app in Hv. rewrite action_hands.
  pose proof (heldCards_update (hands t) (qget "" (bySeat q) (activeSeat t)) (removeCards (handAt q t (activeSeat t)) cards)) as Hu.
  apply Permutation_length in Hu. rewrite !length_app in Hu. unfold handAt in *. lia.
Qed.

(** What stays true of the table, but for the hand that changed. *)
Lemma action_points cards pattern t : validateCards (handAt q t (activeSeat t)) cards = Some pattern → tableOk q t →
  let t' := actionTable cards pattern t in
  qsum (capturedPoints t') + scoreOf (scoreCards t') = scoreOf (concat (outedCards t'))
  ∧ (length (heldCards (hands t')) + length (concat (outedCards t')) = 104)%nat.
Proof.
  intros Hv [_ _ Hp _ Hs] t'. pose proof (action_same cards pattern t) as (_ & Hc & _ & _ & Ho). fold t' in Hc, Ho.
  pose proof (action_sizes _ _ _ Hv) as Hl. fold t' in Hl. rewrite Hc, Ho, concat_app, scoreOf_app, length_app.
  change (concat [cards]) with (cards ++ []). rewrite app_nil_r.
  split; [|lia]. destruct (decide (cards = [])) as [->|Hne].
  - pose proof (action_passed pattern t) as (_ & _ & _ & Hsc). fold t' in Hsc. rewrite Hsc. cbn. lia.
  - pose proof (action_led cards pattern t Hne) as (_ & _ & _ & Hsc). fold t' in Hsc. rewrite Hsc, scoreOf_app, scoreCardsIn_spec. cbn [snd].
    rewrite scoreOf_scoring. lia.
Qed.

Lemma action_budget cards pattern t : validateCards (handAt q t (activeSeat t)) cards = Some pattern → turnOk q t → (cards = [] → lastCards t ≠ []) →
  let t' := actionTable cards pattern t in
  inSeats (preOutSeat t') ∧ lastCards t' ≠ [] ∧ 0 ≤ passCount t' ≤ 3 ∧ activeSeat t' = (preOutSeat t' + passCount t') `mod` 4 ∧ budget t' ≤ maxActions.
Proof.
  intros Hv (_ & _ & Ha & _ & Ht & Hb) Hpass t'. pose proof (action_same cards pattern t) as (Hac & _ & _ & _ & Ho).
  pose proof (action_sizes _ _ _ Hv) as Hl. fold t' in Hac, Ho, Hl. unfold budget in *. rewrite Ho, length_app. cbn [length].
  destruct (decide (cards = [])) as [->|Hne].
  - pose proof (action_passed pattern t) as (Hp & Hn & Hla & _). fold t' in Hp, Hn, Hla. rewrite Hac, Hp, Hn, Hla. specialize (Hpass eq_refl).
    rewrite bool_decide_false in * by done. destruct Ht as [(_ & ? & _)|(Hpo & _ & Hpc & Hact)]; [done|]. split_and!; [done|done|lia|lia| |cbn [length] in Hl; lia].
    rewrite Hact. f_equal. lia.
  - pose proof (action_led cards pattern t Hne) as (Hp & Hn & Hla & _). fold t' in Hp, Hn, Hla. rewrite Hac, Hp, Hn, Hla.
    rewrite (bool_decide_false (cards = [])) by done. split_and!; [done|done|lia|lia| |].
    + rewrite Z.add_0_r. symmetry. apply Z.mod_small. exact Ha.
    + assert (0 ≤ (if bool_decide (lastCards t = []) then 0 else 3 - passCount t)).
      { case_bool_decide; [lia|]. destruct Ht as [(_ & ? & _)|(_ & _ & ? & _)]; [done|lia]. }
      destruct cards; [done|]. cbn [length] in Hl. lia.
Qed.

(** The player still holds cards. *)
Lemma action_stays cards pattern t : validateCards (handAt q t (activeSeat t)) cards = Some pattern → turnOk q t → (cards = [] → lastCards t ≠ []) →
  handAt q (actionTable cards pattern t) (activeSeat t) ≠ [] →
  actedOk q (actionTable cards pattern t) ∧ partnersOk q (actionTable cards pattern t).
Proof.
  intros Hv Ht Hpass Hh. pose proof (action_budget _ _ _ Hv Ht Hpass) as Hb. pose proof Ht as (Hk & Hpa & Ha & Hn & _ & _).
  pose proof (action_points _ _ _ Hv Hk) as [Hp Hs]. pose proof (action_same cards pattern t) as (Hac & Hc & Hf & Hr & _). cbv zeta in *.
  assert (∀ i, inSeats i → handAt q (actionTable cards pattern t) i = [] ↔ handAt q t i = []) as He.
  { intros i Hi. rewrite action_hand by done. case_bool_decide as E; [|done]. subst i. rewrite action_hand in Hh by done.
    rewrite bool_decide_true in Hh by done. tauto. }
  split.
  - split; [|rewrite Hac in Hb |- *; tauto]. destruct Hk as [H1 H2 H3 H4 H5]. split; rewrite ?Hf, ?Hr, ?Hc; [|done|congruence|done|done].
    intros i Hi. rewrite He by done. by apply H1.
  - intros i Hi. rewrite !He by (done || apply partner_in). by apply Hpa.
Qed.

(** The player has played the last card. *)
Lemma action_leaves cards pattern t : validateCards (handAt q t (activeSeat t)) cards = Some pattern → turnOk q t → (cards = [] → lastCards t ≠ []) →
  let t' := actionTable cards pattern t in
  handAt q t' (activeSeat t) = [] →
  qget false (finished t') (activeSeat t) = false ∧ actedOk q (leftTable t')
  ∧ if bool_decide (handAt q t' (partnerSeat (activeSeat t)) = [])
    then handAt q t' ((activeSeat t + 1) `mod` 4) ≠ [] ∨ handAt q t' ((activeSeat t + 3) `mod` 4) ≠ []
    else partnersOk q (leftTable t').
Proof.
  intros Hv Ht Hpass t' Hh. pose proof (action_budget _ _ _ Hv Ht Hpass) as Hb. pose proof Ht as (Hk & Hpa & Ha & Hn & _ & _).
  pose proof (action_points _ _ _ Hv Hk) as [Hp Hs]. pose proof (action_same cards pattern t) as (Hac & Hc & Hf & Hr & _). cbv zeta in *. fold t' in Hb, Hp, Hs, Hac, Hc, Hf, Hr.
  assert (∀ i, inSeats i → handAt q t' i = if bool_decide (activeSeat t = i) then [] else handAt q t i) as He.
  { intros i Hi. unfold t'. rewrite action_hand by done. case_bool_decide as E; [|done]. subst i. unfold t' in Hh. rewrite action_hand in Hh by done.
    by rewrite bool_decide_true in Hh. }
  destruct Hk as [H1 H2 H3 H4 H5]. assert (qget false (finished t) (activeSeat t) = false) as Hfin.
  { destruct (qget false _ _) eqn:E; [|done]. by apply (H1 _ Ha) in E. }
  split; [by rewrite Hf|]. split.
  - split; [|rewrite <- Hac in Ha; exact (conj Ha Hb)]. unfold leftTable. rewrite Hf, Hr, Hac.
    split; cbn [finished ranks capturedPoints scoreCards outedCards hands]; [|by apply ranks_next|done|by rewrite Hc|exact Hs].
    intros i Hi. change (handAt q _ i) with (handAt q t' i). rewrite He by done. case_bool_decide as E.
    + subst i. rewrite qget_qset by done. done.
    + rewrite qget_qset_ne by done. by apply H1.
  - pose proof (He _ (partner_in (activeSeat t))) as Hpe. rewrite bool_decide_false in Hpe by (intros E; by apply (partner_ne _ Ha)).
    rewrite Hpe. case_bool_decide as E.
    + rewrite !He by apply mod_in. rewrite !bool_decide_false by (apply next_ne; [done|lia]).
      destruct (Hpa ((activeSeat t + 1) `mod` 4) (mod_in _)) as [?|Hx]; [by left|right].
      by rewrite <- partner_next.
    + intros i Hi. change (handAt q (leftTable t')) with (handAt q t'). rewrite !He by (done || apply partner_in).
      case_bool_decide as E1; [subst i; right; by rewrite bool_decide_false by (intros X; by apply (partner_ne _ Ha))|].
      case_bool_decide as E2; [|by apply Hpa]. left. rewrite E2 in E. by rewrite partner_partner in E.
Qed.
End Action.

(** ** The next seat *)

Lemma can_act_hand b seat (p := qget "" (bySeat (pe b)) seat) :
  negb (bool_decide (p = "")) && negb (numCards (handOfPlayer b p) =? 0) && negb (bpExited (playerOf b p)) = true → handAt (pe b) (ta b) seat ≠ [].
Proof.
  intros H. apply andb_true_iff in H as [H _]. apply andb_true_iff in H as [_ H]. unfold handAt, handOfPlayer, numCards, p in *. by destruct (default [] _).
Qed.
Lemma set_active_self t : t = set_passCount (passCount t) (set_activeSeat (activeSeat t) t).
Proof. by destruct t. Qed.

(** The loop either finds the first seat that can act, having counted those before it
    as passed, or counts all of them. *)
Lemma advanceSteps_spec b steps : ∀ t, 0 ≤ preOutSeat t → ∃ a n,
  advanceSteps b steps t = set_passCount n (set_activeSeat a t)
  ∧ ((∃ j k, steps !! j = Some k ∧ a = (activeSeat t + k) `mod` 4 ∧ n = passCount t + Z.of_nat j ∧ handAt (pe b) (ta b) a ≠ [])
     ∨ a = activeSeat t ∧ n = passCount t + Z.of_nat (length steps)).
Proof.
  induction steps as [|k steps IH]; intros t Hp; cbn [advanceSteps].
  - exists (activeSeat t), (passCount t). split; [apply set_active_self|]. right. cbn. split; [done|lia].
  - cbv zeta. destruct (_ && _ && _) eqn:Hc.
    + exists ((activeSeat t + k) `mod` 4), (passCount t). split; [by destruct t|]. left. exists 0%nat, k. split_and!; [done|done|cbn; lia|].
      by apply can_act_hand in Hc.
    + rewrite (proj2 (Z.leb_le 0 _)) by done. destruct (IH (set_passCount (passCount t + 1) t) Hp) as (a & n & -> & Hr).
      exists a, n. split; [done|]. cbn [activeSeat passCount set_passCount] in Hr. destruct Hr as [(j & k' & Hj & -> & -> & Hh)|[-> ->]].
      * left. exists (S j), k'. split_and!; [done|done|lia|done].
      * right. cbn [length]. split; [done|lia].
Qed.
Lemma advance_spec b : 0 ≤ preOutSeat (ta b) → ∃ a n,
  advanceSteps b [1; 2; 3; 4] (ta b) = set_passCount n (set_activeSeat a (ta b))
  ∧ ((∃ k, 1 ≤ k ≤ 4 ∧ a = (activeSeat (ta b) + k) `mod` 4 ∧ n = passCount (ta b) + k - 1 ∧ handAt (pe b) (ta b) a ≠ [])
     ∨ a = activeSeat (ta b) ∧ n = passCount (ta b) + 4).
Proof.
  intros Hp. destruct (advanceSteps_spec b [1; 2; 3; 4] (ta b) Hp) as (a & n & E & [(j & k & Hj & Ha & Hn & Hh)|Hr]); exists a, n; (split; [done|]); [left|by right].
  exists k. assert (k = Z.of_nat j + 1 ∧ 1 ≤ k ≤ 4) as [? ?]; [|split_and!; [lia|lia|done|lia|done]].
  destruct j as [|[|[|[|j]]]]; cbn in Hj; simplify_eq; lia.
Qed.

(** Fields that the rules do not depend on. *)
Lemma tableOk_active q t a n : tableOk q t → tableOk q (set_passCount n (set_activeSeat a t)).
Proof. by intros [H1 H2 H3 H4 H5]. Qed.

(** The next turn within the trick. *)
Lemma advance_turn b t a n : actedOk (pe b) (ta b) → partnersOk (pe b) (ta b) → t = set_passCount n (set_activeSeat a (ta b)) → n < 3 →
  ((∃ k, 1 ≤ k ≤ 4 ∧ a = (activeSeat (ta b) + k) `mod` 4 ∧ n = passCount (ta b) + k - 1 ∧ handAt (pe b) (ta b) a ≠ [])
     ∨ a = activeSeat (ta b) ∧ n = passCount (ta b) + 4) → turnOk (pe b) t.
Proof.
  intros (Hk & Ha & Hpo & Hl & Hpc & Hact & Hb) Hpa -> Hn [(k & Hk4 & -> & -> & Hh)|[-> ->]]; [|lia].
  split; [by apply tableOk_active|]. split; [exact Hpa|]. split; [apply mod_in|]. split; [exact Hh|]. split.
  - right. cbn [preOutSeat lastCards passCount activeSeat set_passCount set_activeSeat]. split_and!; [exact Hpo|exact Hl|lia|lia|].
    rewrite Hact, Zplus_mod_idemp_l. f_equal. lia.
  - unfold budget in *. cbn [outedCards hands lastCards passCount set_passCount set_activeSeat]. rewrite bool_decide_false in * by done. lia.
Qed.

(** ** The end of a trick *)

Definition caughtTable (q : people) (t : table) : table :=
  let t := set_capturedPoints (addPoints (preOutSeat t) (scoreCardsIn (scoreCards t)).1 (capturedPoints t)) t in
  resetTrick (set_activeSeat (if numCards (handAt q t (preOutSeat t)) =? 0 then partnerSeat (preOutSeat t) else preOutSeat t) t).

Lemma caught_turn q t : tableOk q t → partnersOk q t → inSeats (preOutSeat t) → lastCards t ≠ [] → budget t - (3 - passCount t) ≤ maxActions → turnOk q (caughtTable q t).
Proof.
  intros Hk Hpa Hpo Hl Hb. pose proof (points_bound _ _ Hk) as (Hs0 & _). pose proof (addPoints_exact _ _ _ Hk Hpo) as Hadd.
  destruct Hk as [H1 H2 H3 H4 H5]. destruct (captured_ok t (preOutSeat t) Hpo Hs0 H4) as [Hsum Hnn]. unfold caughtTable. cbv zeta.
  change (handAt q (set_capturedPoints _ t)) with (handAt q t). cbn [preOutSeat set_capturedPoints]. rewrite Hadd.
  set (a := if _ =? 0 then _ else _). assert (inSeats a ∧ handAt q t a ≠ []) as [Ha Hh].
  { unfold a, numCards. destruct (Z.eqb_spec (Z.of_nat (length (handAt q t (preOutSeat t)))) 0) as [E|E].
    - split; [apply partner_in|]. destruct (Hpa _ Hpo) as [Hx|?]; [|done]. by destruct (handAt q t (preOutSeat t)).
    - split; [done|]. by destruct (handAt q t (preOutSeat t)). }
  split; [|split; [exact Hpa|split; [exact Ha|split; [exact Hh|split; [by left|]]]]].
  - split; [exact H1|exact H2| |exact Hnn|exact H5]. cbn [resetTrick set_activeSeat set_capturedPoints capturedPoints scoreCards outedCards].
    rewrite Hsum, <- H3. cbn [scoreOf foldr]. lia.
  - unfold budget in *. cbn [resetTrick set_activeSeat set_capturedPoints lastCards passCount outedCards hands]. rewrite (bool_decide_false (lastCards t = [])) in Hb by done.
    rewrite bool_decide_true by done. lia.
Qed.

(** ** The end of a subgame *)

Definition wonTable (t : table) : table :=
  set_scoreCards [] (if 0 <? (scoreCardsIn (scoreCards t)).1
                     then set_capturedPoints (addPoints (preOutSeat t) (scoreCardsIn (scoreCards t)).1 (capturedPoints t)) t else t).

Lemma won_over q t i : actedOk q t → inSeats i → handAt q t i = [] → handAt q t (partnerSeat i) = [] →
  handAt q t ((i + 1) `mod` 4) ≠ [] ∨ handAt q t ((i + 3) `mod` 4) ≠ [] → overOk q (wonTable t).
Proof.
  intros (Hk & Ha & Hpo & Hl & Hpc & Hact & Hb) Hi Hh Hh' Hother. pose proof (points_bound _ _ Hk) as (Hs0 & _ & Hmax).
  pose proof (addPoints_exact _ _ _ Hk Hpo) as Hadd. pose proof Hk as [H1 H2 H3 H4 H5]. destruct (captured_ok t (preOutSeat t) Hpo Hs0 H4) as [Hsum Hnn].
  pose proof (qsum_nonneg _ H4 0 ltac:(unfold inSeats; lia)). assert ((scoreCardsIn (scoreCards t)).1 = scoreOf (scoreCards t)) as Hsc.
  { rewrite scoreCardsIn_spec. cbn. apply u32_small. lia. }
  unfold wonTable. rewrite Hadd, Hsc. destruct (Z.ltb_spec 0 (scoreOf (scoreCards t))) as [Hp|Hp].
  - split; [|split; [exact Ha|split; [done|split; [by exists i|exact Hb]]]]. split; [exact H1|exact H2| |exact Hnn|exact H5].
    cbn [set_scoreCards set_capturedPoints capturedPoints scoreCards outedCards scoreOf foldr]. lia.
  - split; [|split; [exact Ha|split; [done|split; [by exists i|exact Hb]]]]. split; [exact H1|exact H2| |exact H4|exact H5].
    cbn [set_scoreCards capturedPoints scoreCards outedCards scoreOf foldr]. lia.
Qed.

(** * The card battle: play

    The actions of the battle when its outputs and timers are accepted: an action is
    refused and changes nothing, or it is committed, and then it is somebody's turn
    again or one pair of partners is out and the settlement has been asked for.  On
    this rest the invariant of the battle and the end of every subgame. *)

(** The outputs and the timers are accepted. *)
Class Reliable (E : Env) : Prop := {
  accepts_output : ∀ l batch, ansSend l batch = None;
  accepts_timer : ∀ l d p, ansAfter l d p = None
}.

Section Reliable.
Context {E : Env} `{!Reliable E}.

Lemma wp_deliver o b Q : Q (Done None) b → wp (deliver o) b Q.
Proof.
  intros H. unfold deliver. apply wp_seq, wp_read. destruct (_ || _); [by apply wp_done|]. cbv zeta.
  apply wp_seq, wp_ask. intros l. rewrite accepts_output. apply wp_seq, wp_note. by apply wp_done.
Qed.
Lemma wp_emit o b Q : Q (Done ()) b → wp (emit o) b Q.
Proof. intros H. apply wp_seq, wp_deliver. by apply wp_done. Qed.
Lemma wp_toAll p b Q : Q (Done ()) b → wp (toAll p) b Q.
Proof. intros H. apply wp_seq, wp_read. by apply wp_emit. Qed.
Lemma wp_toOne p o b Q : Q (Done ()) b → wp (toOne p o) b Q.
Proof. intros H. by apply wp_emit. Qed.
Lemma wp_emitDeals b0 l b Q : Q (Done ()) b → wp (emitDeals b0 l) b Q.
Proof. intros H. induction l as [|x l IH]; [by apply wp_done|]. apply wp_seq, wp_toOne, IH. Qed.
Lemma wp_inc s b Q : Q (Done ()) b → wp (inc s) b Q.
Proof. intros H. unfold inc. apply wp_seq, wp_read. destruct (service b); [by apply wp_note|by apply wp_done]. Qed.
Lemma wp_after d p b Q : Q (Done None) b → wp (after d p) b Q.
Proof. intros H. unfold after. apply wp_seq, wp_ask. intros l. rewrite accepts_timer. apply wp_seq, wp_note. by apply wp_done. Qed.
Lemma wp_reply v b Q : (∀ o, o ≠ Panicked → Q o b) → wp (reply v) b Q.
Proof.
  intros H. unfold reply. apply wp_seq, wp_ask. intros l. apply wp_seq, wp_note.
  destruct (ansReply _ _) as [e|]; [destruct (errors_Is _ _); [|apply wp_fail]|]; [apply wp_done|..|apply wp_done]; by apply H.
Qed.
Lemma wp_actionFailure p reason notify b Q : (∀ o, o ≠ Panicked → Q o b) → wp (actionFailure p reason notify) b Q.
Proof.
  intros H. unfold actionFailure, actionReject. destruct notify; [|apply wp_done; by apply H]. apply wp_seq, wp_deliver. by apply wp_reply.
Qed.
Lemma wp_move m b Q : (∀ b', core b' = core b → ta b' = ta b → tu b' = tu b → Q (Done ()) b') → wp (move m) b Q.
Proof. intros H. apply wp_modify. by apply H. Qed.
Lemma wp_current b Q : (∀ ms, Q (Done ms) b) → wp currentActionMilliseconds b Q.
Proof.
  intros H. unfold currentActionMilliseconds. apply wp_seq, wp_read. destruct (_ =? 0); [by apply wp_done|]. apply wp_seq, wp_now. intros t. by apply wp_done.
Qed.
Lemma wp_askOutCard b Q : inSeats (activeSeat (ta b)) → (∀ o, Q (Done o) b) → wp askOutCardPayload b Q.
Proof.
  intros Ha H. unfold askOutCardPayload. apply wp_seq, wp_read, wp_seq. destruct (qat_in (bySeat (pe b)) _ Ha) as [p Hp].
  eapply wp_index; [exact Hp|]. by apply wp_done.
Qed.

(** The code of a turn is odd, hence never the zero that no play may carry. *)
Lemma odd_next v : Z.odd v = true → Z.odd (u32 (v + 2)) = true.
Proof. intros H. unfold u32. rewrite <- Z.bit0_odd, Z.mod_pow2_bits_low by lia. rewrite Z.bit0_odd, Z.odd_add. by rewrite H. Qed.

(** The turn after [t]: another revision, and a code that can be answered. *)
Definition nextTurn (t t' : turn) : Prop := Z.odd (verifyCode t') = true ∧ turnRevision t' = u64 (turnRevision t + 1).

(** A turn begins: the table stays, the code changes. *)
Lemma wp_startAction d b Q : inSeats (activeSeat (ta b)) → Z.odd (verifyCode (tu b)) = true →
  (∀ b', core b' = core b → ta b' = ta b → nextTurn (tu b) (tu b') → Q (Done ()) b') → wp (startAction d) b Q.
Proof.
  intros Ha Hodd HQ. unfold startAction. apply wp_seq, wp_modify, wp_seq, wp_now. intros startedAt. apply wp_seq, wp_modify, wp_seq, wp_read.
  match goal with |- wp _ ?x _ => set (b1 := x) end.
  assert (core b1 = core b ∧ ta b1 = ta b ∧ nextTurn (tu b) (tu b1)) as (Hc & Ht & Ho) by (split_and!; [done|done|split; [by apply odd_next|done]]).
  clearbody b1. rewrite <- Ht in Ha. destruct (qat_in (bySeat (pe b1)) _ Ha) as [p Hp].
  apply wp_seq. apply (wp_weaken _ _ (λ o b', o = Done () ∧ core b' = core b ∧ ta b' = ta b ∧ nextTurn (tu b) (tu b'))).
  - destruct (service b1).
    + apply wp_seq, wp_read, wp_seq. eapply wp_index; [exact Hp|]. cbv zeta. apply wp_seq, wp_modify, wp_seq, wp_read, wp_seq, wp_after.
      destruct (usesAI _ p); [|by apply wp_done]. apply wp_seq, wp_read, wp_seq, wp_ask. intros l. apply wp_seq, wp_note.
      destruct (ansAI _ _); [by apply wp_inc|by apply wp_done].
    + by apply wp_modify.
  - intros _ b2 (-> & Hc2 & Ht2 & Ho2). apply wp_seq, wp_read. destruct (bool_decide _); [apply wp_done; by apply HQ|].
    assert (inSeats (activeSeat (ta b2))) as Ha2 by (rewrite Ht2, <- Ht; exact Ha). destruct (qat_in (bySeat (pe b2)) _ Ha2) as [p2 Hp2].
    apply wp_seq. eapply wp_index; [exact Hp2|]. destruct (bool_decide _); [apply wp_done; by apply HQ|].
    apply wp_seq, wp_askOutCard; [done|]. intros o. apply wp_toAll. by apply HQ.
Qed.

(** ** Turns *)

Lemma wp_finishTrick b Q : fullTable (pe b) → tableOk (pe b) (ta b) → partnersOk (pe b) (ta b) → inSeats (preOutSeat (ta b)) → lastCards (ta b) ≠ [] →
  budget (ta b) - (3 - passCount (ta b)) ≤ maxActions → Z.odd (verifyCode (tu b)) = true →
  (∀ b', core b' = core b → ta b' = caughtTable (pe b) (ta b) → nextTurn (tu b) (tu b') → Q (Done ()) b') → wp finishTrick b Q.
Proof.
  intros Hf Hk Hpa Hpo Hl Hb Hodd HQ. pose proof (caught_turn _ _ Hk Hpa Hpo Hl Hb) as (_ & _ & Ha & _).
  unfold finishTrick. apply wp_seq, wp_read. unfold id. pose proof (proj2 Hf _ Hpo) as Hne. unfold inSeats in Hpo.
  rewrite (proj2 (Z.ltb_ge _ 0)), (proj2 (Z.leb_gt 4 _)), bool_decide_false by first [done|lia]. cbn [orb]. cbv zeta.
  apply wp_seq, wp_modify. match goal with |- wp _ ?x _ => set (b1 := x) end. apply wp_seq.
  apply (wp_weaken _ _ (λ o b', o = Done () ∧ core b' = core b ∧ ta b' = ta b1 ∧ tu b' = tu b)).
  { destruct (_ <? _); [|by apply wp_done]. by apply wp_move; intros; split_and!. }
  intros _ b2 (-> & Hc2 & Ht2 & Hu2). apply wp_seq, wp_read, wp_seq, wp_move. intros b3 Hc3 Ht3 Hu3.
  apply wp_seq, wp_toAll, wp_seq, wp_read, wp_seq, wp_modify, wp_seq, wp_modify. unfold startTurn. apply wp_seq, wp_read.
  assert (pe b3 = pe b) as Hpe by (unfold core in Hc2, Hc3; simplify_eq; congruence).
  match goal with |- wp _ ?x _ => set (b4 := x) end. assert (ta b4 = caughtTable (pe b) (ta b)) as Ht4.
  { unfold b4, caughtTable. cbn [ta set_ta]. unfold handOfPlayer. rewrite Ht3, Ht2. unfold b1. cbn [ta set_ta]. reflexivity. }
  assert (core b4 = core b) as Hc4 by (transitivity (core b3); [done|congruence]).
  apply wp_startAction; [by rewrite Ht4|by cbn; rewrite Hu3, Hu2|]. intros b5 Hc5 Ht5 Ho5.
  assert (tu b4 = tu b) as Hu4 by (cbn; congruence). rewrite Hu4 in Ho5. apply HQ; [congruence|congruence|done].
Qed.

Lemma wp_advanceTurn b Q : fullTable (pe b) → actedOk (pe b) (ta b) → partnersOk (pe b) (ta b) → Z.odd (verifyCode (tu b)) = true →
  (∀ b', core b' = core b → outedCards (ta b') = outedCards (ta b) → turnOk (pe b) (ta b') → nextTurn (tu b) (tu b') → Q (Done ()) b') →
  wp advanceTurn b Q.
Proof.
  intros Hf Hact Hpa Hodd HQ. pose proof Hact as (Hk & Ha & Hpo & Hl & Hpc & Hac & Hb). unfold advanceTurn, advanceSeat.
  destruct (advance_spec b ltac:(unfold inSeats in Hpo; lia)) as (a & n & Eadv & Hr).
  apply wp_seq, wp_modify. rewrite Eadv. apply wp_seq, wp_read. set (t := set_passCount n (set_activeSeat a (ta b))).
  set (b1 := set_ta t b). change (preOutSeat (ta b1)) with (preOutSeat (ta b)). change (passCount (ta b1)) with n.
  rewrite (proj2 (Z.leb_le 0 (preOutSeat (ta b))) (proj1 Hpo)). cbn [andb]. destruct (Z.leb_spec 3 n) as [Hn|Hn].
  - assert (budget t - (3 - passCount t) ≤ maxActions) as Hb'.
    { unfold budget in *. change (lastCards t) with (lastCards (ta b)). rewrite bool_decide_false in * by done.
      change (outedCards t) with (outedCards (ta b)). change (hands t) with (hands (ta b)). lia. }
    assert (tableOk (pe b) t) as Hk' by by apply tableOk_active.
    apply wp_finishTrick; [exact Hf|exact Hk'|exact Hpa|exact Hpo|exact Hl|exact Hb'|exact Hodd|].
    intros b2 Hc2 Ht2 Ho2. apply HQ; [exact Hc2|by rewrite Ht2| |done]. rewrite Ht2. apply caught_turn; [exact Hk'|exact Hpa|exact Hpo|exact Hl|exact Hb'].
  - pose proof (advance_turn b t a n Hact Hpa eq_refl Hn Hr) as Hturn. unfold startTurn. apply wp_seq, wp_read.
    apply wp_startAction; [apply Hturn|exact Hodd|]. intros b2 Hc2 Ht2 Ho2. apply HQ; [exact Hc2|by rewrite Ht2|by rewrite Ht2|done].
Qed.

Lemma wp_finishByPlay b Q : inSeats (preOutSeat (ta b)) →
  (∀ b', pe b' = pe b → su b' = su b → fx b' = fx b → deleting b' = deleting b → service b' = service b → phase b' = AwaitingSettlement →
     dealtCards b' = dealtCards b → ta b' = wonTable (ta b) → Q (Done ()) b') → wp finishByPlay b Q.
Proof.
  intros Hpo HQ. unfold finishByPlay, awardFinalScoreCards. apply wp_seq, wp_seq, wp_read. unfold id. unfold inSeats in Hpo.
  cbv zeta. rewrite (proj2 (Z.ltb_ge _ 0)), (proj2 (Z.leb_gt 4 _)) by lia. cbn [orb]. destruct (scoreCardsIn (scoreCards (ta b))) as [points scoring] eqn:Hs.
  apply wp_seq. apply (wp_weaken _ _ (λ o b', o = Done () ∧ core b' = core b ∧ set_scoreCards [] (ta b') = wonTable (ta b))).
  { unfold wonTable. rewrite Hs. cbn [fst]. destruct (0 <? points); [|by apply wp_done]. apply wp_seq, wp_modify, wp_move. intros b' Hc Ht _.
    split_and!; [done|exact Hc|by rewrite Ht]. }
  intros _ b1 (-> & Hc & Ht). apply wp_modify, wp_seq, wp_modify, wp_seq, wp_modify, wp_seq, wp_read, wp_seq, wp_toAll, wp_seq, wp_read.
  cbv zeta. apply wp_seq, wp_modify, wp_emit. unfold core in Hc. injection Hc as H1 H2 H3 H4 H5 H6 H7 H8 H9. apply HQ; try done. unfold dealtCards. by rewrite <- H8.
Qed.
End Reliable.

(** ** The invariant of the battle *)

(** Somebody's turn, with a code that can be answered. *)
Definition playOk (b : NHSKBattleService) : Prop := fullTable (pe b) ∧ turnOk (pe b) (ta b) ∧ Z.odd (verifyCode (tu b)) = true.
Definition battleOk (b : NHSKBattleService) : Prop :=
  seatsOk (pe b) ∧ inSeats (activeSeat (ta b)) ∧ (phase b = Playing → playOk b) ∧ (phase b = AwaitingSettlement → fullTable (pe b) ∧ overOk (pe b) (ta b)).

(** Names and seats; the rules do not look at the rest of the players. *)
Definition sameSeats (q q' : people) : Prop := players q' = players q ∧ bySeat q' = bySeat q.
Lemma fullTable_same q q' : sameSeats q q' → fullTable q → fullTable q'.
Proof. destruct q, q'. intros [H1 H2]. cbn in H1, H2. subst. intros H. exact H. Qed.
Lemma turnOk_same q q' t : bySeat q' = bySeat q → turnOk q t → turnOk q' t.
Proof. destruct q, q'. cbn. intros -> [[H1 H2 H3 H4 H5] H]. split; [by split|exact H]. Qed.

Lemma overOk_same q q' t : bySeat q' = bySeat q → overOk q t → overOk q' t.
Proof. destruct q, q'. cbn. intros -> [[H1 H2 H3 H4 H5] H]. split; [by split|exact H]. Qed.

(** An action has been committed. *)
Definition committed (b : NHSKBattleService) (cards : list card) (b' : NHSKBattleService) : Prop :=
  sameSeats (pe b) (pe b') ∧ dealtCards b' = dealtCards b ∧ su b' = su b ∧ fx b' = fx b ∧ deleting b' = deleting b ∧ service b' = service b
  ∧ outedCards (ta b') = outedCards (ta b) ++ [cards]
  ∧ (phase b' = Playing ∧ (playOk b' ∧ turnRevision (tu b') = u64 (turnRevision (tu b) + 1)) ∨ phase b' = AwaitingSettlement ∧ fullTable (pe b') ∧ overOk (pe b') (ta b')).

Lemma committed_ok b cards b' : committed b cards b' → battleOk b'.
Proof.
  intros (_ & _ & _ & _ & _ & _ & _ & [[Hp [Hk _]]|(Hp & Hf & Ho)]).
  - split; [apply Hk|]. split; [apply Hk|]. split; [done|]. congruence.
  - split; [apply Hf|]. split; [apply Ho|]. split; [congruence|done].
Qed.

Section Play.
Context {E : Env} `{!Reliable E}.

Lemma wp_changeAuto p e b Q : (∀ b', core b' = core (set_pe (pe b') b) → sameSeats (pe b) (pe b') → ta b' = ta b → tu b' = tu b → Q (Done ()) b') →
  wp (changeAutoState p e) b Q.
Proof.
  intros H. unfold changeAutoState. apply wp_seq, wp_read. destruct (bool_decide _); [by apply wp_done, H; destruct b|].
  apply wp_seq, wp_modify, wp_toAll. by apply H.
Qed.

Lemma numCards_nil_eqb l : numCards l =? 0 = bool_decide (l = []).
Proof. by destruct l. Qed.

(** The active player is out: the subgame is over or goes on. *)
Lemma wp_leaveTable p b Q : fullTable (pe b) → actedOk (pe b) (leftTable (ta b)) → handAt (pe b) (ta b) (activeSeat (ta b)) = [] →
  Z.odd (verifyCode (tu b)) = true →
  (if bool_decide (handAt (pe b) (ta b) (partnerSeat (activeSeat (ta b))) = [])
   then handAt (pe b) (ta b) ((activeSeat (ta b) + 1) `mod` 4) ≠ [] ∨ handAt (pe b) (ta b) ((activeSeat (ta b) + 3) `mod` 4) ≠ []
   else partnersOk (pe b) (leftTable (ta b))) →
  (∀ b', core b' = core b → outedCards (ta b') = outedCards (ta b) → turnOk (pe b) (ta b') → nextTurn (tu b) (tu b') → Q (Done ()) b') →
  (∀ b', pe b' = pe b → su b' = su b → fx b' = fx b → deleting b' = deleting b → service b' = service b → phase b' = AwaitingSettlement →
     dealtCards b' = dealtCards b → outedCards (ta b') = outedCards (ta b) → overOk (pe b) (ta b') → Q (Done ()) b') →
  wp (leaveTable p (activeSeat (ta b))) b Q.
Proof.
  intros Hf Hacted Hh Ho Hcase HQ1 HQ2. unfold leaveTable.
  apply wp_seq, wp_modify, wp_seq, wp_read, wp_seq, wp_modify, wp_seq, wp_read. unfold id.
  match goal with |- wp _ ?x _ => set (b2 := x) end. assert (ta b2 = leftTable (ta b)) as Ht2 by done.
  assert (core b2 = core b ∧ tu b2 = tu b ∧ pe b2 = pe b) as (Hc2 & Hu2 & Hpe2) by done. clearbody b2.
  change (handOfPlayer b2 (qget "" (bySeat (pe b2)) (partnerSeat (activeSeat (ta b))))) with (handAt (pe b2) (ta b2) (partnerSeat (activeSeat (ta b)))).
  rewrite numCards_nil_eqb, Hpe2, Ht2. change (handAt (pe b) (leftTable (ta b))) with (handAt (pe b) (ta b)). case_bool_decide as Hpart.
  - apply wp_finishByPlay; [rewrite Ht2; apply Hacted|]. unfold core in Hc2. injection Hc2 as H1 H2 H3 H4 H5 H6 H7 H8 H9.
    intros b3 Hpe3 Hsu3 Hfx3 Hde3 Hsv3 Hph3 Hdl3 Ht3. apply HQ2; try congruence.
    + rewrite Hdl3. unfold dealtCards. by rewrite H8.
    + rewrite Ht3, Ht2. unfold wonTable. by destruct (0 <? _).
    + rewrite Ht3, Ht2. apply (won_over _ _ (activeSeat (ta b))); [done|apply Hacted|done..].
  - apply wp_seq, wp_toOne, wp_advanceTurn; rewrite ?Hpe2, ?Ht2, ?Hu2; [done..|]. intros b3 Hc3 Ho3 Ht3 Hodd3. apply HQ1; [congruence|done..].
Qed.

Lemma wp_announce b b1 cards pattern Q : playOk b → phase b = Playing →
  validateCards (handAt (pe b) (ta b) (activeSeat (ta b))) cards = Some pattern → (cards = [] → lastCards (ta b) ≠ []) →
  core b1 = core b → ta b1 = actionTable (pe b) cards pattern (ta b) →
  Z.odd (verifyCode (tu b1)) = true → turnRevision (tu b1) = turnRevision (tu b) →
  (∀ b', committed b cards b' → Q (Done ()) b') →
  wp (announce (qget "" (bySeat (pe b)) (activeSeat (ta b))) cards) b1 Q.
Proof.
  intros (Hf & Ht & _) Hph Hv Hpass Hc Ht1 Ho Hrv HQ. pose proof Ht as (Hk & _ & Ha & _).
  pose proof (action_same (pe b) cards pattern (ta b)) as (Hac & _ & Hfin & _ & Hout). cbv zeta in Hac. rewrite <- Ht1 in Hac, Hout.
  unfold core in Hc. injection Hc as Hpe Hph1 Hsv Hsu Hde Hfx Hro Hrs Hre.
  assert (∀ b', core b' = core b1 → outedCards (ta b') = outedCards (ta b1) → turnOk (pe b) (ta b') → nextTurn (tu b1) (tu b') → Q (Done ()) b') as HQ1.
  { intros b' Hc' Ho' Ht' [Hodd' Hnx]. apply HQ. unfold core in Hc'. injection Hc' as H1 H2 H3 H4 H5 H6 H7 H8 H9.
    assert (pe b' = pe b) as Hpe' by congruence. split_and!; try congruence; [unfold sameSeats; by rewrite Hpe'|unfold dealtCards; by rewrite H8, Hrs|].
    left. split; [congruence|]. split; [|by rewrite Hnx, Hrv]. split; [by rewrite Hpe'|]. split; [by rewrite Hpe'|done]. }
  unfold announce. apply wp_seq, wp_toAll, wp_seq, wp_read. unfold id. cbv zeta. rewrite numCards_nil_eqb, Hac.
  change (handOfPlayer b1 (qget "" (bySeat (pe b)) (activeSeat (ta b)))) with (handAt (pe b) (ta b1) (activeSeat (ta b))).
  case_bool_decide as Hh; cbn [andb].
  - rewrite Ht1 in Hh. pose proof (action_leaves (pe b) Hf _ _ _ Hv Ht Hpass Hh) as (Hnf & Hacted & Hcase). cbv zeta in *.
    rewrite <- Ht1 in Hh, Hnf, Hacted, Hcase. rewrite Hnf. cbn [negb]. rewrite <- Hac in *.
    apply wp_leaveTable; rewrite ?Hpe; [done..|]. intros b' H1 H2 H3 H4 H5 H6 Hdl H7 H8. apply HQ. assert (pe b' = pe b) as Hpe' by congruence.
    split_and!; try congruence; [unfold sameSeats; by rewrite Hpe'|rewrite Hdl; unfold dealtCards; by rewrite Hrs|]. right. by rewrite Hpe'.
  - rewrite Ht1 in Hh. destruct (action_stays (pe b) Hf _ _ _ Hv Ht Hpass Hh) as [Hacted Hpa]. rewrite <- Ht1 in Hacted, Hpa.
    apply wp_advanceTurn; rewrite ?Hpe; done.
Qed.

(** The checks of an action. *)
Definition acceptable (b : NHSKBattleService) (p : PlayerID) (cards : list card) (code : Z) : Prop :=
  phase b = Playing ∧ p = qget "" (bySeat (pe b)) (activeSeat (ta b)) ∧ code = verifyCode (tu b) ∧ numCards cards ≤ 8
  ∧ (cards = [] → lastCards (ta b) ≠ []) ∧ ∃ pattern, validateCards (handOfPlayer b p) cards = Some pattern
  ∧ (cards ≠ [] → lastCards (ta b) ≠ [] → 0 < compareCardSets cards (lastCards (ta b))).

(** An action that passes them is committed. *)
Lemma wp_commit b cards pattern source notify Q (p := qget "" (bySeat (pe b)) (activeSeat (ta b))) :
  playOk b → phase b = Playing → (cards = [] → lastCards (ta b) ≠ []) → validateCards (handOfPlayer b p) cards = Some pattern →
  (∀ o b', committed b cards b' → o ≠ Panicked → (notify = false → o = Done ()) → Q o b') →
  wp ((if bool_decide (source = ReplayMoveSourcePlayer) then changeAutoState p false else mret ()) ;;
      ms ← currentActionMilliseconds;
      commitAction p cards pattern source ms ;;
      announce p cards ;;
      if notify then reply (ActionResult None) else mret ()) b Q.
Proof.
  intros (Hf & Ht & Hodd) Hph Hpass Hv HQ. apply wp_seq.
  apply (wp_weaken _ _ (λ o b', o = Done () ∧ core b' = core (set_pe (pe b') b) ∧ sameSeats (pe b) (pe b') ∧ ta b' = ta b ∧ tu b' = tu b)).
  { destruct (bool_decide _); [by apply wp_changeAuto|by apply wp_done; destruct b]. }
  intros _ b1 (-> & Hc1 & Hsame & Ht1 & Hu1). apply wp_seq, wp_current. intros ms. apply wp_seq. eapply wp_weaken; [apply commitAction_run|].
  intros _ b2 (-> & Hc2 & Ht2 & Hu2). apply wp_seq.
  set (b0 := set_pe (pe b1) b). assert (pe b0 = pe b1 ∧ ta b0 = ta b ∧ phase b0 = phase b ∧ tu b0 = tu b) as (Hpe0 & Ht0 & Hph0 & Hu0) by done.
  assert (p = qget "" (bySeat (pe b0)) (activeSeat (ta b0))) as Hp0 by (rewrite Hpe0, (proj2 Hsame); done).
  rewrite Hp0 in *. eapply (wp_announce b0 b2 cards pattern).
  - split; [by eapply fullTable_same|]. split; [|done]. eapply turnOk_same; [|done]. apply Hsame.
  - done.
  - exact Hv.
  - done.
  - by rewrite Hc2.
  - rewrite Ht2, Ht1. done.
  - rewrite Hu2, Hu1. done.
  - rewrite Hu2, Hu1. done.
  - intros b' Hb'. assert (committed b cards b') as Hcb.
    { destruct Hb' as ([H1 H1'] & H2). destruct Hsame as [H3 H4]. split; [split; cbn in *; congruence|done]. }
    destruct notify; [apply wp_reply; intros o ?; by apply HQ|apply wp_done; by apply HQ].
Qed.

(** Any action is refused and changes nothing, or is committed. *)
Lemma wp_playWithSource p cards code source notify b Q : inSeats (activeSeat (ta b)) → (phase b = Playing → playOk b) →
  (∀ o, o ≠ Panicked → ¬ acceptable b p cards code → Q o b) →
  (∀ o b', acceptable b p cards code → committed b cards b' → o ≠ Panicked → (notify = false → o = Done ()) → Q o b') →
  wp (playWithSource p cards code source notify) b Q.
Proof.
  intros Ha Hok Hsame Hcom. unfold playWithSource. apply wp_seq, wp_read. unfold id. unfold acceptable in *.
  case_bool_decide as Hph; [apply wp_actionFailure; intros; apply Hsame; tauto|]. specialize (Hok Hph).
  destruct (qat_in (bySeat (pe b)) _ Ha) as [p' Hp']. apply wp_seq. eapply wp_index; [exact Hp'|].
  assert (p' = qget "" (bySeat (pe b)) (activeSeat (ta b))) as Hp'' by (unfold qget; by rewrite Hp').
  case_bool_decide as Hp; [apply wp_actionFailure; intros; apply Hsame; [done|]; naive_solver|]. subst p p'.
  destruct ((code =? 0) || _) eqn:Hcode; [apply wp_actionFailure; intros; apply Hsame; [done|]|].
  { intros (_ & _ & -> & _). rewrite Z.eqb_refl, orb_false_r in Hcode. apply Z.eqb_eq in Hcode. destruct Hok as (_ & _ & Ho). by rewrite Hcode in Ho. }
  apply orb_false_iff in Hcode as [_ Hcode%negb_false_iff%Z.eqb_eq].
  destruct (Z.ltb_spec 8 (numCards cards)) as [Hn|Hn]; [apply wp_actionFailure; intros; apply Hsame; [done|]; intros (_ & _ & _ & ? & _); lia|].
  rewrite !numCards_nil_eqb. destruct (bool_decide (cards = []) && _) eqn:Hfirst.
  { apply wp_actionFailure. intros. apply Hsame; [done|]. apply andb_true_iff in Hfirst as [H1%bool_decide_eq_true H2%bool_decide_eq_true].
    intros (_ & _ & _ & _ & Hx & _). by apply Hx. }
  assert (cards = [] → lastCards (ta b) ≠ []) as Hpass by (intros -> X; by rewrite X in Hfirst).
  destruct (validateCards _ cards) as [pattern|] eqn:Hv; [|apply wp_actionFailure; intros; apply Hsame; [done|]; naive_solver].
  destruct (negb _ && _ && _) eqn:Hcmp.
  { apply wp_actionFailure. intros. apply Hsame; [done|]. apply andb_true_iff in Hcmp as [[H1%negb_true_iff H2%negb_true_iff]%andb_true_iff H3%Z.leb_le].
    apply bool_decide_eq_false in H1, H2. intros (_ & _ & _ & _ & _ & ? & _ & Hx). specialize (Hx H1 H2). lia. }
  apply wp_commit with (pattern := pattern); [done..|]. intros o b' Hb' Ho Hno. apply Hcom; [|done..]. split_and!; [done..|].
  exists pattern. split; [done|]. intros H1 H2. rewrite !bool_decide_false in Hcmp by done. cbn in Hcmp. by apply Z.leb_gt.
Qed.
End Play.
