(* ===== verification/NhskBattleProps.v ===== *)
(** * The card battle: what it promises

    [Sound m]: from a service in order, [m] does not panic and leaves the service in
    order.  Every handler but the start is sound when outputs and timers are
    accepted; a start is, unless the random source or a custom deck is out of range. *)

From stdpp Require Import prelude gmap strings list.
From Stdlib Require Import ZArith Lia.
From S2P Require Import Prelude Types Game NhskCards NhskSettlement NhskDeal NhskReplay NhskBattle NhskBattleInv NhskTrick.

Local Open Scope Z_scope.

Definition Sound {X} (m : B X) : Prop := ∀ b, battleOk b → wp m b (λ o b', o ≠ Panicked ∧ battleOk b').

Lemma sound_bind {X Y} (m : B X) (k : X → B Y) : Sound m → (∀ x, Sound (k x)) → Sound (m ≫= k).
Proof. intros Hm Hk b Hb. apply wp_seq. eapply wp_weaken; [by apply Hm|]. intros [x|e|] b' [H1 H2]; [by apply Hk|done..]. Qed.
(** What is read is that of a service in order. *)
Lemma sound_get {X Y} (f : NHSKBattleService → X) (k : X → B Y) : (∀ b, battleOk b → Sound (k (f b))) → Sound (get f ≫= k).
Proof. intros H b Hb. apply wp_seq, wp_read. by apply H. Qed.
Lemma sound_ret {X} (x : X) : Sound (mret x).
Proof. intros b Hb. by apply wp_done. Qed.
Lemma sound_ask {X} (f : list event → X) : Sound (ask f).
Proof. intros b Hb. by apply wp_ask. Qed.
Lemma sound_note e : Sound (note e).
Proof. intros b Hb. by apply wp_note. Qed.
Lemma sound_fail {X} e : Sound (fail (X := X) e).
Proof. intros b Hb. by apply wp_fail. Qed.
Lemma sound_modify f : (∀ b, battleOk b → battleOk (f b)) → Sound (modify f).
Proof. intros H b Hb. apply wp_modify. split; [done|]. by apply H. Qed.
Lemma sound_index {X} (q : quad X) b : battleOk b → Sound (index q (activeSeat (ta b))).
Proof. intros (_ & Ha & _). destruct (qat_in q _ Ha) as [x Hx]. intros b' Hb'. by eapply wp_index. Qed.

(** ** Changes *)

Lemma battleOk_people b q : (seatsOk (pe b) → seatsOk q) → bySeat q = bySeat (pe b) → battleOk b → battleOk (set_pe q b).
Proof.
  intros Hs Hq (H1 & H2 & H3 & H4). assert (fullTable (pe b) → fullTable q) as Hf by (intros [? Hne]; split; [by apply Hs|by rewrite Hq]).
  split; [by apply Hs|]. split; [done|]. split.
  - intros Hp. destruct (H3 Hp) as (? & ? & ?). split; [by apply Hf|]. split; [by eapply turnOk_same|done].
  - intros Hp. destruct (H4 Hp) as (? & Ho). split; [by apply Hf|]. by eapply overOk_same.
Qed.
Lemma battleOk_seats b q : sameSeats (pe b) q → battleOk b → battleOk (set_pe q b).
Proof. intros [H1 H2]. apply battleOk_people; [|done]. unfold seatsOk. by rewrite H1, H2. Qed.
Lemma battleOk_phase b v : v ≠ Playing → v ≠ AwaitingSettlement → battleOk b → battleOk (set_phase v b).
Proof. intros Hv1 Hv2 (H1 & H2 & _). split; [done|]. split; [done|]. by split. Qed.

Create HintDb sound.
#[export] Hint Resolve sound_ret sound_ask sound_note sound_fail sound_index : sound.
#[export] Hint Extern 3 (battleOk (set_pe _ _)) => (apply battleOk_seats; [done|assumption]) : sound.
#[export] Hint Extern 3 (battleOk (set_phase _ _)) => (apply battleOk_phase; [done|done|assumption]) : sound.
#[export] Hint Extern 4 (battleOk _) => (match goal with H : battleOk _ |- _ => exact H end) : sound.

Ltac sound :=
  repeat first
    [ solve [eauto 3 with sound]
    | apply sound_get; intros ? ?
    | apply sound_bind; [|intro]
    | progress cbv zeta
    | match goal with |- Sound (match ?x with _ => _ end) => destruct x end
    | apply sound_modify; intros ? ? ].

(** ** Programs that announce *)

Section Sound.
Context {E : Env} `{!Reliable E}.

Lemma sound_now : Sound now.
Proof. unfold now. sound. Qed.
Lemma sound_inc s : Sound (inc s).
Proof. unfold inc. sound. Qed.
Lemma sound_after d p : Sound (after d p).
Proof. unfold after. sound. Qed.
Lemma sound_reply v : Sound (reply v).
Proof. unfold reply. sound. Qed.
Lemma sound_emit o : Sound (emit o).
Proof. intros b Hb. by apply wp_emit. Qed.
Hint Resolve sound_now sound_inc sound_after sound_reply sound_emit : sound.
Lemma sound_toAll p : Sound (toAll p).
Proof. unfold toAll. sound. Qed.
Lemma sound_toOne p q : Sound (toOne p q).
Proof. unfold toOne. sound. Qed.
Lemma sound_reject s : Sound (reject s).
Proof. apply sound_reply. Qed.
Lemma sound_accept : Sound accept.
Proof. apply sound_reply. Qed.
Lemma sound_settlementReject s : Sound (settlementReject s).
Proof. apply sound_reply. Qed.
Lemma sound_observe : Sound observeReplayFailure.
Proof. apply sound_inc. Qed.
Lemma sound_move m : Sound (move m).
Proof. unfold move. sound. Qed.
Lemma sound_askOutCard : Sound askOutCardPayload.
Proof. unfold askOutCardPayload. sound. Qed.
Lemma sound_remaining : Sound remainingActionMilliseconds.
Proof. unfold remainingActionMilliseconds. sound. Qed.
Hint Resolve sound_toAll sound_toOne sound_reject sound_accept sound_settlementReject sound_observe sound_move sound_askOutCard sound_remaining : sound.
Lemma sound_scenePayload p : Sound (scenePayload p).
Proof. unfold scenePayload. sound. Qed.
Hint Resolve sound_scenePayload : sound.
Lemma sound_restore p : Sound (restorePlayerView p).
Proof. unfold restorePlayerView. sound. Qed.
Lemma sound_changeAuto p e : Sound (changeAutoState p e).
Proof. unfold changeAutoState. sound. Qed.
Lemma sound_snapshot : Sound snapshotReply.
Proof. unfold snapshotReply. sound. Qed.
Lemma sound_preview p : Sound (preview p).
Proof. unfold preview. sound. Qed.

(** An action. *)
Lemma sound_play p cards code source notify : Sound (playWithSource p cards code source notify).
Proof.
  intros b Hb. pose proof Hb as (_ & Ha & Hp & _). apply wp_playWithSource; [done|done|by intros|].
  intros o b' _ Hc Ho _. split; [done|]. by eapply committed_ok.
Qed.
Hint Resolve sound_restore sound_changeAuto sound_play : sound.

(** ** The handlers *)

Lemma sound_setAuto p : Sound (setAuto p).
Proof. unfold setAuto. sound. Qed.
Lemma sound_setOffline p : Sound (setOffline p).
Proof. unfold setOffline. sound. Qed.
Lemma sound_reconnect p : Sound (reconnect p).
Proof. unfold reconnect. sound. Qed.
Lemma sound_scene p : Sound (scene p).
Proof. unfold scene. sound. Qed.
Lemma sound_recordPropUse p : Sound (recordPropUse p).
Proof. unfold recordPropUse. sound. Qed.
Lemma sound_finishReplay : Sound finishReplay.
Proof. unfold finishReplay. sound. Qed.
Hint Resolve sound_finishReplay : sound.
Lemma sound_applyReplayResult p : Sound (applyReplayResult p).
Proof. unfold applyReplayResult. sound. Qed.
Lemma sound_timer p : Sound (timer p).
Proof. unfold timer. sound. Qed.
Lemma sound_applyAIResult p : Sound (applyAIResult p).
Proof. unfold applyAIResult. sound. Qed.
Lemma sound_initialize p : Sound (initialize p).
Proof. unfold initialize. sound. Qed.
Lemma sound_prepare p : Sound (prepare p).
Proof. unfold prepare. sound. Qed.
Lemma sound_provide p : Sound (provideCustomDeck p).
Proof. unfold provideCustomDeck. sound. Qed.
Hint Resolve sound_provide : sound.
Lemma sound_loadResult s p : Sound (applyCustomDeckLoadResult s p).
Proof. unfold applyCustomDeckLoadResult. sound. Qed.
Lemma sound_roundContext p : Sound (updateRoundContext p).
Proof. unfold updateRoundContext. sound. Qed.
Lemma sound_playHandler p : Sound (play p).
Proof. unfold play. sound. Qed.
Lemma sound_deleteBarrier p : Sound (deleteBarrier p).
Proof. unfold deleteBarrier. sound. Qed.

(** *** Handlers that change the players *)

Lemma wp_sound {X} (m : B X) b : Sound m → battleOk b → wp m b (λ o b', o ≠ Panicked ∧ battleOk b').
Proof. intros H. apply H. Qed.

Lemma sound_exit p : Sound (exit p).
Proof.
  intros b Hb. unfold exit. apply wp_seq, wp_read. unfold id. destruct (p ≫= _) as [v|] eqn:Hv; [|apply wp_sound; [sound|done]].
  apply wp_seq, wp_modify, wp_sound; [sound|]. destruct p as [p|]; [|done]. apply battleOk_people; [by eapply exit_seats|done|done].
Qed.
Lemma sound_updateDress p : Sound (updateDress p).
Proof.
  intros b Hb. unfold updateDress. apply wp_seq, wp_read. unfold id. destruct p as [[p d]|]; [|apply wp_sound; [sound|done]].
  destruct (_ || _) eqn:Hk; [apply wp_sound; [sound|done]|]. apply orb_false_iff in Hk as [_ Hk%negb_false_iff].
  apply wp_seq, wp_modify, wp_sound; [sound|]. apply battleOk_people; [by apply dress_seats|done|done].
Qed.
Lemma battleOk_scores scores b : battleOk b → battleOk (setScores scores b).
Proof.
  intros Hb. pose proof (safe_setScores scores b) as Hs. destruct (setScores_pe scores b) as (q & Eq & Hq). rewrite Eq in *.
  apply battleOk_people; [|done|done]. intros H. by apply Hs.
Qed.
Lemma sound_finalize r s : Sound (finalizeReplay r s).
Proof. unfold finalizeReplay. sound. Qed.
Lemma sound_beginReplay : Sound beginReplayFinalization.
Proof. unfold beginReplayFinalization. sound. Qed.
Hint Resolve battleOk_scores sound_finalize sound_beginReplay : sound.
Lemma sound_forceFinish p : Sound (forceFinish p).
Proof. unfold forceFinish. sound. Qed.
Lemma sound_complete p : Sound (completeSettlement p).
Proof.
  intros b Hb. unfold completeSettlement. apply wp_seq, wp_read. unfold id. destruct p as [request|]; [|apply wp_sound; [sound|done]].
  destruct (bool_decide _); [apply wp_sound; [sound|done]|]. destruct (planSettlement _ _) as [plan|]; [|apply wp_sound; [sound|done]].
  pose proof (safe_applyPlan plan seats b) as Hs. destruct (applyPlan_pe plan seats b) as (q & Eq & Hq). destruct (applyPlan plan seats b) as [b' complete].
  cbn [fst] in Hs, Eq. subst b'. apply wp_seq, wp_modify, wp_sound; [sound|]. apply battleOk_people; [|done|done]. intros H. by apply Hs.
Qed.
Lemma sound_updatePlayers p : Sound (updatePlayers p).
Proof.
  intros b Hb. unfold updatePlayers. apply wp_seq, wp_read. unfold id. destruct p as [request|]; [|apply wp_sound; [sound|done]].
  destruct (_ || negb (validPlayers _ _ _)) eqn:Hg; [apply wp_sound; [sound|done]|]. cbv zeta. destruct (seatPlayers _ _) as [q|] eqn:Hq; [|apply wp_sound; [sound|done]].
  apply wp_seq, wp_modify, wp_sound; [sound|]. destruct Hb as (H1 & H2 & _).
  assert (phase b = AwaitingInit ∨ phase b = Preparing) as Hp.
  { rewrite !orb_false_iff, !negb_false_iff, orb_true_iff, !bool_decide_eq_true in Hg. tauto. }
  split; [by apply update_seats|]. split; [done|]. cbn. split; intros X; destruct Hp; congruence.
Qed.
End Sound.

(** ** The start *)

Lemma customDeck_length b d : customDeckForSubgame b = Some d → length (dkCards d) = 104%nat.
Proof.
  unfold customDeckForSubgame, validCatalog. destruct (negb _) eqn:Hv; [done|]. apply negb_false_iff, andb_true_iff in Hv as [_ Hv].
  rewrite forallb_forall in Hv. intros Hd%list_elem_of_lookup_2%list_elem_of_In%Hv%Z.eqb_eq. unfold numCards, customDeckCardCount in Hd. lia.
Qed.
Section Start.
Context {E : Env} `{!Reliable E}.

(** Right after a deal it is the banker's turn, with all cards in the hands. *)
Lemma started_turn b banker deck b' : fullTable (pe b) → inSeats banker → length deck = 104%nat → startedFrom b banker deck b' →
  turnOk (pe b') (ta b') ∧ phase b' = Playing ∧ verifyCode (tu b') = 1 ∧ activeSeat (ta b') = banker.
Proof.
  intros Hf Hb Hl [t0 ->]. split; [|done]. match goal with |- turnOk ?x ?y => set (q := x); set (t := y) end.
  assert (hands t = giveHands b (dealDeck banker deck)) as Ht by done. assert (bySeat q = bySeat (pe b)) as Hq by done.
  assert (∀ i, inSeats i → handAt q t i = qget [] (dealDeck banker deck) i) as Hh.
  { intros i Hi. unfold handAt. rewrite Hq, Ht. by rewrite giveHands_lookup. }
  assert (∀ i, inSeats i → handAt q t i ≠ []) as Hne.
  { intros i Hi Hx. pose proof (dealDeck_length banker deck i Hl Hi) as H. by rewrite <- Hh, Hx in H. }
  assert (length (heldCards (hands t)) = 104%nat) as Hheld by (by rewrite Ht, giveHands_held, dealDeck_perm).
  split.
  - split; [| |done| |].
    + intros i Hi. split; [|intros Hx; by apply Hne in Hx]. change (finished t) with (qall false). by seat_split Hi.
    + change (finished t) with (qall false). change (ranks t) with (qall 0). split; [intros i Hi; by seat_split Hi|]. intros i j Hi _ _ Hx. by seat_split Hi.
    + intros i Hi. change (capturedPoints t) with (qall 0). by seat_split Hi.
    + rewrite Hheld. done.
  - split; [intros i Hi; left; by apply Hne|]. split; [exact Hb|]. split; [by apply Hne|]. split; [by left|]. unfold budget. rewrite Hheld. done.
Qed.

(** Nobody sits at a seat out of range: the first action of such a start panics. *)
Lemma qat_out {A} (q : quad A) i : ¬ inSeats i → qat q i = None.
Proof. intros H. unfold qat, inSeats in *. repeat case_match; bool_prop; try done; lia. Qed.
Lemma wp_startAction_out d b : ¬ inSeats (activeSeat (ta b)) → phase b = Playing → wp (startAction d) b (λ o _, o = Panicked).
Proof.
  intros Ha Hph. assert (∀ (q : quad PlayerID) b' (Q : outcome PlayerID → NHSKBattleService → Prop), Q Panicked b' → wp (index q (activeSeat (ta b))) b' Q) as Hi.
  { intros q b' Q HQ. unfold index. rewrite qat_out by done. by apply wp_panic. }
  unfold startAction. apply wp_seq, wp_modify, wp_seq, wp_now. intros t. apply wp_seq, wp_modify, wp_seq, wp_read. apply wp_seq.
  destruct (service _); [apply wp_seq, wp_read, wp_seq; by apply Hi|]. apply wp_modify, wp_seq, wp_read. unfold id. cbn [phase set_tu].
  rewrite bool_decide_false by (intros X; by apply X). apply wp_seq. by apply Hi.
Qed.

(** A start that does not panic leaves the service in order. *)
Lemma wp_start payload b : battleOk b → wp (start payload) b (λ o b', o ≠ Panicked → battleOk b').
Proof.
  intros Hb. apply start_run; [done|done| |exact (proj1 Hb)]. intros drawn custom deck b1 Hph Hf Hd -> Hdeck Hb1.
  match type of Hb1 with startedFrom _ ?x _ _ => set (banker := x) in * end.
  apply wp_seq, wp_toAll, wp_seq, wp_emit, wp_seq, wp_read, wp_seq, wp_toAll, wp_seq, wp_emitDeals.
  assert (length deck = 104%nat) as Hl.
  { revert Hdeck. clear. destruct (customDeckForSubgame b) as [d|] eqn:Hc; intros Hdeck; [rewrite Hdeck; by eapply customDeck_length|exact (Permutation_length Hdeck)]. }
  assert (fullTable (pe b1)) as Hf1 by (split; [eapply started_seats; [apply Hf|done]|destruct Hb1 as [t0 ->]; apply Hf]).
  apply wp_seq. destruct (decide (inSeats banker)) as [Hbk|Hbk].
  - destruct (started_turn _ _ _ _ Hf Hbk Hl Hb1) as (Ht & Hp & Hv & Ha).
    apply wp_startAction; [by rewrite Ha|by rewrite Hv|]. intros b2 Hc2 Ht2 [Ho2 _]. apply wp_reply. intros o _ _.
    unfold core in Hc2. injection Hc2 as H1 H2 H3 H4 H5 H6 H7 H8 H9. split; [by rewrite H1; apply Hf1|]. split; [by rewrite Ht2, Ha|]. split; [|congruence].
    intros _. split; [by rewrite H1|]. split; [by rewrite H1, Ht2|done].
  - eapply wp_weaken; [apply wp_startAction_out; destruct Hb1 as [t0 ->]; done|]. by intros o b2 ->.
Qed.

(** ** Every handler *)

Lemma wp_Handle source c b : battleOk b →
  wp (Handle source c) b (λ o b', (o ≠ Panicked → battleOk b') ∧ ((∀ p, c ≠ StartSubgame p) → o ≠ Panicked)).
Proof.
  intros Hb. assert (∀ m : B unit, Sound m → wp m b (λ o b', (o ≠ Panicked → battleOk b') ∧ ((∀ p, c ≠ StartSubgame p) → o ≠ Panicked))) as Hs.
  { intros m Hm. eapply wp_weaken; [by apply Hm|]. naive_solver. }
  unfold Handle. apply wp_seq, wp_read.
  destruct c; try (destruct (deleting b); [apply Hs; sound|]);
    try (apply Hs; eauto using sound_setAuto, sound_setOffline, sound_reconnect, sound_scene, sound_recordPropUse, sound_applyReplayResult, sound_timer,
      sound_applyAIResult, sound_initialize, sound_prepare, sound_provide, sound_loadResult, sound_roundContext, sound_playHandler, sound_deleteBarrier,
      sound_exit, sound_updateDress, sound_forceFinish, sound_complete, sound_updatePlayers, sound_snapshot, sound_preview, sound_fail; fail).
  eapply wp_weaken; [by apply wp_start|]. intros o b' H. split; [done|]. intros X. by destruct (X p).
Qed.
End Start.

(** * The card battle: properties

    Cards, turns and points of every battle that runs, and the end of a subgame that
    nobody attends to. *)

(** ** Runs *)

(** A service that has been constructed and has handled commands since, none of which
    panicked: the runtime delivers nothing to a service after that. *)
Inductive running `{E : Env} : world → Prop :=
| run_new c seed b l : NewBattleService c seed = Ok b → running (mkWorld b l)
| run_init w : running w → running (Init w).1
| run_close w : running w → running (Close w).1
| run_handle w source c : running w → (Handle source c w).2 ≠ Panicked → running (Handle source c w).1.

Section Runs.
Context {E : Env} `{!Reliable E}.

Lemma running_reachable w : running w → reachable w.
Proof. induction 1; [by eapply reach_new|by apply reach_init|by apply reach_close|apply reach_handle; [done|by right]]. Qed.
Lemma running_ok w : running w → battleOk (battle w).
Proof.
  induction 1 as [c seed b l Hn|w _ IH|w _ IH|w source c _ IH Ho]; [|exact IH..|].
  - pose proof (reachable_safe (mkWorld b l) ltac:(by eapply reach_new)) as [Hs _]. apply new_battle in Hn as (Hp & _ & Ht & _). cbn in *.
    split; [done|]. rewrite Ht, Hp. split; [done|]. by split.
  - destruct w as [b l]. by apply (wp_Handle source c b IH l).
Qed.

(** ** The timer of a turn *)

(** The deadlines that [startAction] has set, by the revision and the source they carry
    (an answer of the AI sets one of its own, which does not count here). *)
Definition turnTimers (l : list event) : list (Z * ReplayMoveSource) :=
  omap (λ e, match e with
             | TimerSet _ (actionDeadline rev source _) None => if bool_decide (source = ReplayMoveSourceAI) then None else Some (rev, source)
             | _ => None
             end) l.
Definition turnTimer (l : list event) : option (Z * ReplayMoveSource) := last (turnTimers l).

(** The last of them fires, with the payload it was set with. *)
Definition expire : B unit :=
  t ← ask turnTimer;
  match t with Some (rev, source) => timer (actionDeadline rev source []) | None => mret () end.
Definition expireAll (n : nat) (w : world) : world := Nat.iter n (λ w, (expire w).1) w.

(** The turn has a deadline of its own revision to come. *)
Definition armed (w : world) : Prop := ∃ source, turnTimer (log w) = Some (turnRevision (tu (battle w)), source).

Lemma turnTimer_source l rev source : turnTimer l = Some (rev, source) → source ≠ ReplayMoveSourceAI.
Proof.
  intros Hl%last_Some_elem_of. apply list_elem_of_omap in Hl as (e & _ & He). repeat case_match; simplify_eq. by apply bool_decide_eq_false in H2.
Qed.

(** What an automatic player plays is always accepted. *)
Lemma smallest_valid hand c : smallestCard hand = Some c → playable (cardValue c) → ∃ pattern, validateCards hand [c] = Some pattern.
Proof.
  intros Hs Hp. unfold validateCards. cbn [numCards length]. assert (classifyCards [c] = Some (mkPattern cardPatternSingle (cardValue c) 1)) as Hc.
  { apply classify_shape. exists [cardValue c]. split; [done|]. by constructor. }
  rewrite Hc. assert (∃ rest, takeAll [c] hand = Some rest) as [rest ->]; [|by eexists].
  apply smallestCard_in in Hs. clear -Hs. cbn [takeAll]. induction hand as [|x hand IH]; [inversion Hs|]. cbn [removeCard].
  destruct (Z.eqb_spec x c) as [->|Hne]; [by eexists|]. apply elem_of_cons in Hs as [->|Hs]; [done|]. destruct (IH Hs) as [rest Hr].
  destruct (removeCard c hand); [by eexists|done].
Qed.
Lemma localAuto_acceptable b p : phase b = Playing → playOk b → p = qget "" (bySeat (pe b)) (activeSeat (ta b)) →
  Forall (λ c, playable (cardValue c)) (handOfPlayer b p) → acceptable b p (localAutoCards b p) (verifyCode (tu b)).
Proof.
  intros Hph (_ & Ht & _) -> Hv. assert (handOfPlayer b (qget "" (bySeat (pe b)) (activeSeat (ta b))) ≠ []) as Hne by apply Ht.
  set (p := qget "" _ _) in *. unfold acceptable, localAutoCards. rewrite !numCards_nil_eqb, (bool_decide_false (handOfPlayer b p = [])), orb_false_r by done.
  case_bool_decide as Hl; cbn [negb].
  - destruct (smallestCard (handOfPlayer b p)) as [c|] eqn:Hs; [|by destruct (handOfPlayer b p)]. cbn [option_list].
    split_and!; [done..|]. destruct (smallest_valid _ _ Hs) as [pattern Hpat]; [|exists pattern; split; [done|congruence]].
    apply smallestCard_in in Hs. rewrite Forall_forall in Hv. by apply Hv.
  - split_and!; [done..|]. by exists zeroPattern.
Qed.

Lemma hand_held (m : gmap PlayerID (list card)) p c : c ∈ default [] (m !! p) → c ∈ heldCards m.
Proof.
  destruct (m !! p) as [h|] eqn:Hm; cbn; [|inversion 1]. intros Hc. unfold heldCards. apply list_elem_of_In, in_concat. exists h.
  rewrite <- !list_elem_of_In. split; [|done]. apply list_elem_of_fmap. exists (p, h). split; [done|]. by apply elem_of_map_to_list.
Qed.

(** When the time of a turn is over the battle acts for the player. *)
Lemma wp_deadline source b : battleOk b → conserved b → phase b = Playing → TimeoutAutoMove (rules (su b)) = true → source ≠ ReplayMoveSourceAI →
  Forall (λ c, playable (cardValue c)) (dealtCards b) →
  wp (timer (actionDeadline (turnRevision (tu b)) source [])) b (λ o b', o = Done () ∧ ∃ cards, committed b cards b').
Proof.
  intros (Hs & Ha & Hok & _) Hcons Hph Hauto Hsrc Hdealt. specialize (Hok Hph). pose proof Hok as (Hf & Ht & Hodd).
  unfold timer. apply wp_seq, wp_read. unfold id, compose. rewrite Z.eqb_refl, bool_decide_true by done. cbn [negb orb].
  destruct (qat_in (bySeat (pe b)) _ Ha) as [p Hp]. apply wp_seq. eapply wp_index; [exact Hp|].
  assert (p = qget "" (bySeat (pe b)) (activeSeat (ta b))) as Hpq by (unfold qget; by rewrite Hp).
  assert (handOfPlayer b p ≠ []) as Hne by (rewrite Hpq; apply Ht). rewrite bool_decide_false by (rewrite Hpq; by apply Hf).
  rewrite numCards_nil_eqb, bool_decide_false by done. cbn [orb]. apply wp_seq, wp_modify. cbv zeta. rewrite Hauto, andb_false_r.
  rewrite (bool_decide_false (source = ReplayMoveSourceAI)) by done. apply wp_seq.
  apply (wp_weaken _ _ (λ o b', o = Done () ∧ core b' = core (set_pe (pe b') b) ∧ sameSeats (pe b) (pe b') ∧ ta b' = ta b ∧ verifyCode (tu b') = verifyCode (tu b) ∧ turnRevision (tu b') = turnRevision (tu b))).
  { destruct (_ && negb (bpAutomated _)); [|apply wp_done; by destruct b]. apply wp_changeAuto. intros b' Hc Hsame Hta Htu. split_and!; [done..|by rewrite Htu|by rewrite Htu]. }
  intros _ b1 (-> & Hc & Hsame & Ht1 & Hv1 & Hrv1). unfold core in Hc. injection Hc as H2 H3 H4 H5 H6 H7 H8 H9. cbn in *.
  assert (playOk b1) as Hok1.
  { split; [by eapply fullTable_same|]. rewrite Ht1, Hv1. split; [|done]. eapply turnOk_same; [apply Hsame|done]. }
  assert (acceptable b1 p (localAutoCards b p) (verifyCode (tu b))) as Hacc.
  { replace (localAutoCards b p) with (localAutoCards b1 p) by (unfold localAutoCards, handOfPlayer; by rewrite Ht1). rewrite <- Hv1.
    apply localAuto_acceptable; [by rewrite H2|done|by rewrite Ht1, (proj2 Hsame)|]. apply Forall_forall. intros c Hin. rewrite Forall_forall in Hdealt.
    apply Hdealt. unfold conserved in Hcons. rewrite <- Hcons. apply elem_of_app. left. unfold handOfPlayer in Hin. rewrite Ht1 in Hin. by eapply hand_held. }
  apply wp_playWithSource; [by rewrite Ht1|done|done|]. intros o b2 _ Hcom _ Ho. split; [by apply Ho|]. exists (localAutoCards b p).
  destruct Hcom as ([? ?] & ? & ? & ? & ? & ? & ? & ?). destruct Hsame as [? ?]. unfold committed, sameSeats, dealtCards in *.
  rewrite Ht1, Hrv1 in *. split_and!; first [done|congruence|idtac].
Qed.

Lemma wp_and {X} (m : B X) b P Q : wp m b P → wp m b Q → wp m b (λ o b', P o b' ∧ Q o b').
Proof. intros H1 H2 l. split; [apply H1|apply H2]. Qed.
Lemma safe_expire : Stays Safe expire.
Proof.
  unfold expire. apply stays_bind; [apply _|apply stays_ask; apply _|]. intros [[rev source]|]; [apply safe_timer|apply stays_ret; apply _].
Qed.

(** *** The deadline of the next turn *)

(** From [w] to [w'] a turn with its deadline begins, or the turn and its deadline stay. *)
Definition Turned (w w' : world) : Prop := phase (battle w') = Playing → service (battle w') = true →
  armed w' ∨ phase (battle w) = Playing ∧ service (battle w) = true
             ∧ turnRevision (tu (battle w')) = turnRevision (tu (battle w)) ∧ turnTimers (log w') = turnTimers (log w).
#[global] Instance Turned_preorder : PreOrder Turned.
Proof.
  split; [by right|]. intros w1 w2 w3 H1 H2 Hp Hs. destruct (H2 Hp Hs) as [?|(Hp2 & Hs2 & Hr2 & Ht2)]; [by left|].
  destruct (H1 Hp2 Hs2) as [[source Ha]|(Hp1 & Hs1 & Hr1 & Ht1)].
  - left. exists source. unfold turnTimer in *. by rewrite Ht2, Hr2.
  - right. split_and!; congruence.
Qed.
Definition Turns {X} (m : B X) : Prop := ∀ w, (m w).2 ≠ Panicked → Turned w (m w).1.

Lemma turns_bind {X Y} (m : B X) (k : X → B Y) : Turns m → (∀ x, Turns (k x)) → Turns (m ≫= k).
Proof.
  intros Hm Hk w Hp. specialize (Hm w). unfold mbind, b_bind in *. destruct (m w) as [w1 [x|e|]]; cbn in *; [|by apply Hm|done].
  etransitivity; [by apply Hm|by apply Hk].
Qed.
Lemma turns_same {X} (m : B X) : (∀ w, battle (m w).1 = battle w ∧ turnTimers (log (m w).1) = turnTimers (log w)) → Turns m.
Proof. intros H w _ Hp Hs. destruct (H w) as [Hb Hl]. rewrite Hb, Hl in *. by right. Qed.
Lemma turns_note e : turnTimers [e] = [] → Turns (note e).
Proof. intros He. apply turns_same. intros w. split; [done|]. cbn. unfold turnTimers in *. by rewrite omap_app, He, app_nil_r. Qed.
Lemma turns_modify f :
  (∀ b, phase (f b) ≠ Playing ∨ phase (f b) = phase b ∧ service (f b) = service b ∧ turnRevision (tu (f b)) = turnRevision (tu b)) → Turns (modify f).
Proof. intros H w _ Hp Hs. cbn in *. destruct (H (battle w)) as [?|(H1 & H2 & H3)]; [done|]. right. split_and!; [congruence|congruence|done|done]. Qed.
Lemma turns_index {X} (q : quad X) i : Turns (index q i).
Proof. unfold index. destruct (qat q i); by apply turns_same. Qed.

Ltac turns :=
  repeat first
    [ solve [eauto 2 with turns]
    | apply turns_bind; [|intro]
    | progress cbv zeta
    | match goal with |- Turns (match ?x with _ => _ end) => destruct x end
    | apply turns_note; reflexivity
    | apply turns_modify; intro; solve [by left | by right]
    | by apply turns_same ].
Create HintDb turns.
Hint Resolve turns_index : turns.

Lemma turns_now : Turns now.
Proof. unfold now. turns. Qed.
Lemma turns_inc s : Turns (inc s).
Proof. unfold inc. turns. Qed.
Lemma turns_reply v : Turns (reply v).
Proof. unfold reply. turns. Qed.
Lemma turns_deliver o : Turns (deliver o).
Proof. unfold deliver. turns. Qed.
Hint Resolve turns_now turns_inc turns_reply turns_deliver : turns.
Lemma turns_emit o : Turns (emit o).
Proof. unfold emit. turns. Qed.
Hint Resolve turns_emit : turns.
Lemma turns_toAll p : Turns (toAll p).
Proof. unfold toAll. turns. Qed.
Lemma turns_ask : Turns askOutCardPayload.
Proof. unfold askOutCardPayload. turns. Qed.
Lemma turns_current : Turns currentActionMilliseconds.
Proof. unfold currentActionMilliseconds. turns. Qed.
Lemma turns_move m : Turns (move m).
Proof. unfold move, onRecord. turns. Qed.
Hint Resolve turns_toAll turns_ask turns_current turns_move : turns.

(** Programs after which the turn, if there is one, has its deadline. *)
Definition Arms {X} (m : B X) : Prop := ∀ w, (m w).2 ≠ Panicked → phase (battle (m w).1) = Playing → service (battle (m w).1) = true → armed (m w).1.
Definition NeverFails {X} (m : B X) : Prop := ∀ w e, (m w).2 ≠ Failed e.

Lemma arms_turns {X} (m : B X) : Arms m → Turns m.
Proof. intros H w Hp Hph Hs. left. by apply H. Qed.
Lemma arms_then {X Y} (m : B X) (k : X → B Y) : Arms m → (∀ x, Turns (k x)) → Arms (m ≫= k).
Proof.
  intros Hm Hk w. specialize (Hm w). unfold mbind, b_bind. destruct (m w) as [w1 [x|e|]]; cbn in *; [|intros _; by apply Hm|done].
  intros Hp Hph Hs. destruct (Hk x w1 Hp Hph Hs) as [?|(Hp1 & Hs1 & Hr & Ht)]; [done|]. destruct (Hm ltac:(done) Hp1 Hs1) as [source Ha].
  exists source. unfold turnTimer in *. by rewrite Hr, Ht.
Qed.
Lemma arms_after {X Y} (m : B X) (k : X → B Y) : NeverFails m → (∀ x, Arms (k x)) → Arms (m ≫= k).
Proof.
  intros Hm Hk w. specialize (Hm w). unfold mbind, b_bind. destruct (m w) as [w1 [x|e|]]; cbn in *; [apply Hk|by destruct (Hm e)|done].
Qed.
Lemma arms_service {Y} (k : bool → B Y) : Arms (k true) → Turns (k false) → Arms (get service ≫= k).
Proof.
  intros Ht Hf w. unfold mbind, b_bind, get. cbn. destruct (service (battle w)) eqn:Hw; [apply Ht|].
  intros Hp Hph Hs. destruct (Hf w Hp Hph Hs) as [?|(_ & ? & _)]; [done|congruence].
Qed.
Lemma arms_deadline {Y} d source (k : error rtError → B Y) : source ≠ ReplayMoveSourceAI → (∀ e, Turns (k e)) →
  Arms (rev ← get (turnRevision ∘ tu); e ← after d (actionDeadline rev source []); k e).
Proof.
  intros Hsrc Hk. assert (∀ w, armed (mkWorld (battle w) (log w ++ [TimerSet d (actionDeadline (turnRevision (tu (battle w))) source []) None]))) as Ha.
  { intros w. exists source. unfold turnTimer, turnTimers. cbn [log battle]. rewrite omap_app. cbn. rewrite bool_decide_false by done. by rewrite last_snoc. }
  intros w. unfold after, mbind, b_bind, get, ask, note. cbn. rewrite accepts_timer. cbn. intros Hp Hph Hs.
  match type of Hp with (k _ ?x).2 ≠ _ => set (w1 := x) in * end. specialize (Ha w : armed w1).
  destruct (Hk None w1 Hp Hph Hs) as [?|(_ & _ & Hr & Ht)]; [done|]. destruct Ha as [s0 Ha]. exists s0. unfold turnTimer in *. by rewrite Hr, Ht.
Qed.
Lemma total_modify f : NeverFails (modify f).
Proof. done. Qed.
Lemma total_get {X} (f : NHSKBattleService → X) : NeverFails (get f).
Proof. done. Qed.
Lemma total_now : NeverFails now.
Proof. done. Qed.
Lemma total_index {X} (q : quad X) i : NeverFails (index q i).
Proof. unfold index. by destruct (qat q i). Qed.
Lemma total_wp {X} (m : B X) : (∀ b, wp m b (λ o _, ∀ e, o ≠ Failed e)) → NeverFails m.
Proof. intros H [b l]. apply H. Qed.
Hint Resolve total_modify total_get total_now total_index : turns.

(** A turn that begins has its deadline. *)
Lemma arms_startAction d : Arms (startAction d).
Proof.
  unfold startAction. do 3 (apply arms_after; [eauto 2 with turns|intro]). apply arms_service.
  - apply arms_then; [|intro; turns]. do 2 (apply arms_after; [eauto 2 with turns|intro]). cbv zeta. apply arms_after; [eauto 2 with turns|intro].
    apply arms_deadline; [by case_match|]. intros e. turns.
  - unfold onTurn. turns.
Qed.
Lemma turns_startAction d : Turns (startAction d).
Proof. apply arms_turns, arms_startAction. Qed.
Hint Resolve turns_startAction : turns.

Lemma turns_finishTrick : Turns finishTrick.
Proof. unfold finishTrick, startTurn, onTable. turns. Qed.
Hint Resolve turns_finishTrick : turns.
Lemma turns_advanceTurn : Turns advanceTurn.
Proof. unfold advanceTurn, advanceSeat, startTurn. turns. Qed.
Lemma turns_finishByPlay : Turns finishByPlay.
Proof. unfold finishByPlay, awardFinalScoreCards, onTable, onTurn, onRound. turns. Qed.
Hint Resolve turns_advanceTurn turns_finishByPlay : turns.
Lemma turns_leaveTable p seat : Turns (leaveTable p seat).
Proof. unfold leaveTable, onTable, toOne. turns. Qed.
Lemma turns_changeAuto p e : Turns (changeAutoState p e).
Proof. unfold changeAutoState, onPeople. turns. Qed.
Lemma turns_commitAction p cards pattern source ms : Turns (commitAction p cards pattern source ms).
Proof. unfold commitAction, onTable, onStatistics, onTurn. turns. Qed.
Lemma turns_actionFailure p reason notify : Turns (actionFailure p reason notify).
Proof. unfold actionFailure, actionReject. turns. Qed.
Hint Resolve turns_leaveTable turns_changeAuto turns_commitAction turns_actionFailure : turns.
Lemma turns_play p cards code source notify : Turns (playWithSource p cards code source notify).
Proof. unfold playWithSource, announce. turns. Qed.
Hint Resolve turns_play : turns.
Lemma turns_deadline rev source cards : Turns (timer (actionDeadline rev source cards)).
Proof. unfold timer, onTurn. turns. Qed.

(** A start that deals begins a turn with its deadline. *)
Lemma total_deal banker custom : NeverFails (deal banker custom).
Proof. apply total_wp. intros b. by apply deal_run. Qed.
Definition ArmsFrom {X} (m : B X) (w : world) : Prop :=
  (m w).2 ≠ Panicked → phase (battle (m w).1) = Playing → service (battle (m w).1) = true → armed (m w).1.
Lemma from_get {X Y} (f : NHSKBattleService → X) (k : X → B Y) w : ArmsFrom (k (f (battle w))) w → ArmsFrom (get f ≫= k) w.
Proof. done. Qed.
Lemma from_drawn {Y} f g (k : Z → B Y) w :
  (∀ w', battle w' = battle w → ArmsFrom (k (f (log w))) w') → ArmsFrom (x ← ask f; note (g x) ;; k x) w.
Proof. intros H. by apply (H (mkWorld (battle w) (log w ++ [g (f (log w))]))). Qed.
Lemma from_reject s w : phase (battle w) ≠ Playing → ArmsFrom (reject s) w.
Proof. intros Hw _ Hph _. pose proof (stays_reject eq s w) as Hr. congruence. Qed.

Lemma start_arms payload w : phase (battle w) ≠ Playing → ArmsFrom (start payload) w.
Proof.
  intros Hnp.
  assert (∀ p, NeverFails (toAll p)) as Hall by (intros p; apply total_wp; intros b; by apply wp_toAll).
  assert (∀ o, NeverFails (emit o)) as Hemit by (intros o; apply total_wp; intros b; by apply wp_emit).
  assert (∀ b0 l, NeverFails (emitDeals b0 l)) as Hdeals by (intros b0 l; apply total_wp; intros b; by apply wp_emitDeals).
  unfold start. destruct payload; cbn [negb]; [|by apply from_reject]. apply from_get. unfold id at 1 2.
  destruct (_ || _); [by apply from_reject|]. apply from_drawn. intros w' Hw. destruct (_ || _); [apply from_reject; by rewrite Hw|]. cbv zeta.
  match goal with |- ArmsFrom ?m _ => assert (Arms m) as Ha; [|exact (Ha w')] end.
  apply arms_after; [apply total_deal|intro]. do 5 (apply arms_after; [eauto 2 with turns|intro]). cbv zeta.
  repeat (apply arms_after; [by eauto 3 with turns|intro]). apply arms_then; [apply arms_startAction|]. intros ?. apply turns_reply.
Qed.

(** A turn leaves at most the actions that the budget has left. *)
Lemma turn_budget q t : turnOk q t → Z.of_nat (length (outedCards t)) < maxActions.
Proof.
  intros (_ & _ & _ & Hne & Ht & Hb). unfold budget in Hb. assert (0 < length (heldCards (hands t)))%nat as Hl.
  { unfold handAt in Hne. destruct (default [] _) as [|c h] eqn:Hh; [done|]. pose proof (hand_held (hands t) (qget "" (bySeat q) (activeSeat t)) c) as Hc.
    rewrite Hh in Hc. specialize (Hc ltac:(set_solver)). destruct (heldCards _); [inversion Hc|cbn; lia]. }
  case_bool_decide; [lia|]. destruct Ht as [(_ & ? & _)|(_ & _ & ? & _)]; [done|lia].
Qed.

Lemma expire_idle w : phase (battle w) = AwaitingSettlement → battle (expire w).1 = battle w.
Proof.
  intros Hp. unfold expire, ask, mbind, b_bind. destruct (turnTimer (log w)) as [[rev source]|]; [|done].
  unfold timer, get, mbind, b_bind, id. rewrite Hp. by rewrite orb_true_r.
Qed.
Lemma expireAll_succ n w : expireAll (S n) w = expireAll n (expire w).1.
Proof. unfold expireAll. by rewrite Nat.iter_succ_r. Qed.
Lemma expireAll_idle n : ∀ w, phase (battle w) = AwaitingSettlement → battle (expireAll n w) = battle w.
Proof.
  induction n as [|n IH]; intros w Hp; [done|]. rewrite expireAll_succ, IH; rewrite expire_idle; done.
Qed.

(** The deadline of a turn plays for its player, and either the next turn has its
    deadline or the subgame is over. *)
Lemma expire_plays w : battleOk (battle w) → conserved (battle w) → phase (battle w) = Playing → service (battle w) = true → armed w →
  TimeoutAutoMove (rules (su (battle w))) = true → Forall (λ c, playable (cardValue c)) (dealtCards (battle w)) →
  ∃ cards, committed (battle w) cards (battle (expire w).1) ∧ (phase (battle (expire w).1) = Playing → armed (expire w).1).
Proof.
  intros Hok Hcons Hph Hsv [source Ht] Hauto Hdealt. destruct w as [b l]. cbn [battle log] in *.
  assert (expire (mkWorld b l) = timer (actionDeadline (turnRevision (tu b)) source []) (mkWorld b l)) as ->.
  { unfold expire, ask, mbind, b_bind. cbn [log]. by rewrite Ht. }
  destruct (wp_deadline source b Hok Hcons Hph Hauto (turnTimer_source _ _ _ Ht) Hdealt l) as (Ho & cards & Hcom).
  exists cards. split; [done|]. intros Hp'. pose proof (turns_deadline (turnRevision (tu b)) source [] (mkWorld b l)) as HT.
  destruct Hcom as (_ & _ & _ & _ & _ & Hs & _ & [[_ [_ Hrev]]|[Hx _]]); [|congruence].
  destruct HT as [?|(_ & _ & Hsame & _)]; [by rewrite Ho|done|congruence|done|]. cbn [battle] in Hsame. rewrite Hrev in Hsame.
  exfalso. unfold u64 in Hsame. revert Hsame. pose proof (Z.mod_pos_bound (turnRevision (tu b) + 1) u64_mod). unfold u64_mod in *. intros Hx.
  assert (turnRevision (tu b) < 2 ^ 64) by lia. destruct (decide (turnRevision (tu b) = 2 ^ 64 - 1)) as [E1|E1].
  - rewrite E1 in Hx. replace (2 ^ 64 - 1 + 1) with (2 ^ 64) in Hx by lia. rewrite Z.mod_same in Hx; lia.
  - rewrite Z.mod_small in Hx by lia. lia.
Qed.

Lemma expireAll_ends n : ∀ w, battleOk (battle w) → conserved (battle w) → phase (battle w) = Playing → service (battle w) = true → armed w →
  TimeoutAutoMove (rules (su (battle w))) = true → Forall (λ c, playable (cardValue c)) (dealtCards (battle w)) →
  maxActions ≤ Z.of_nat n + Z.of_nat (length (outedCards (ta (battle w)))) →
  phase (battle (expireAll n w)) = AwaitingSettlement ∧ overOk (pe (battle (expireAll n w))) (ta (battle (expireAll n w))).
Proof.
  induction n as [|n IH]; intros w Hok Hcons Hph Hsv Har Hauto Hdealt Hlen.
  { pose proof (turn_budget _ _ (proj1 (proj2 (proj1 (proj2 (proj2 Hok)) Hph)))). lia. }
  destruct (expire_plays w Hok Hcons Hph Hsv Har Hauto Hdealt) as (cards & Hcom & Har1).
  pose proof (safe_expire w (proj1 Hok)) as [_ Hcons1]. specialize (Hcons1 Hcons). rewrite expireAll_succ.
  set (w1 := (expire w).1) in *. clearbody w1. pose proof (committed_ok _ _ _ Hcom) as Hok1.
  destruct Hcom as (_ & Hdl & Hsu & _ & _ & Hs1 & Hout & [[Hp1 _]|(Hp1 & _ & Ho1)]).
  - apply IH; [done|done|done|congruence|by apply Har1|by rewrite Hsu|by rewrite Hdl|]. rewrite Hout, length_app. cbn [length]. lia.
  - by rewrite expireAll_idle.
Qed.
End Runs.

(** ** A battle to try the properties on *)

Definition sampleEnv : Env := {|
  self := mkRef "n1" 900; ansSend _ _ := None; ansReply _ _ := None; ansAfter _ _ _ := None; ansReplay _ _ := None; ansAI _ _ := None;
  ansClock l := 1000 + Z.of_nat (length l); ansIntn _ := 2; ansShuffle _ := [(0, 50); (7, 103); (31, 64)]%nat; marshalXML _ := Some [];
  formatReplay _ _ _ _ _ := ("name", "uid", "path")
|}.
#[local] Existing Instance sampleEnv.
#[global] Instance sampleEnv_reliable : Reliable sampleEnv.
Proof. by split. Qed.

Definition sampleConfig : NHSKBattleConfig := mkBattleConfig 7 (mkRef "n1" 901) 5 82 false 1 true false None true 0 false.
Definition sampleBattle : NHSKBattleService :=
  ltac:(let r := eval vm_compute in (NewBattleService sampleConfig (Some 11)) in lazymatch r with Ok ?b => exact b end).
Definition sampleCommands : list command :=
  [Initialize (Some (mkInitialize (mkIdentity 7 82 5 1 "r") 1 1 0 1 1 (mkMetadata "m" 0 0 0 0 0) (mkReplayRules false false false 0) None));
   UpdatePlayers (Some (qlist samplePlayers)); PrepareSubgame (Some (1, 1)); StartSubgame true].
Definition handleAll (cs : list command) (w : world) : world := foldl (λ w c, (Handle (mkRef "n1" 902) c w).1) w cs.
(** The four players have their cards and seat 2 is to act. *)
Definition sampleStarted : world := handleAll sampleCommands (Init (mkWorld sampleBattle [])).1.

Lemma sampleStarted_running : running sampleStarted.
Proof.
  unfold sampleStarted, handleAll, sampleCommands. cbn [foldl].
  do 4 (apply run_handle; [|vm_compute; discriminate]). apply run_init. apply (run_new sampleConfig (Some 11)). vm_compute. reflexivity.
Qed.

(** ** Properties *)

Section Properties.
Context {E : Env}.

(** C22. No card is lost or made up: in every state the battle can reach, whatever
    commands arrive and whatever the outputs, timers and other collaborators answer
    (an error or panic in the middle of a handler included), the cards in the hands
    and the cards played are the cards that were dealt.  The one exception ends the
    service: a start that panics because the random source shuffles outside the deck
    leaves no hands at all, and everything else as it was. *)
Theorem cards_conserved w : reachable w →
  heldCards (hands (ta (battle w))) ++ concat (outedCards (ta (battle w))) ≡ₚ dealtCards (battle w)
  ∧ ∀ source c, let '(w', o) := Handle source c w in
      heldCards (hands (ta (battle w'))) ++ concat (outedCards (ta (battle w'))) ≡ₚ dealtCards (battle w')
      ∨ o = Panicked ∧ (∃ p, c = StartSubgame p) ∧ battle w' = set_ta (set_hands ∅ (ta (battle w))) (battle w).
Proof.
  intros H. destruct (reachable_safe w H) as [Hs Hc]. split; [exact Hc|]. intros source c.
  assert (Safe (battle w) (battle (Handle source c w).1) ∨ (Handle source c w).2 = Panicked ∧ (∃ p, c = StartSubgame p)
          ∧ battle (Handle source c w).1 = noHands (battle w)) as Hor.
  { destruct c; try (left; by apply safe_Handle). destruct (start_Handle source p w Hs) as [?|[? ?]]; [by left|right; eauto]. }
  destruct (Handle source c w) as [w' o]. destruct Hor as [HS|?]; [left; by apply HS|by right].
Qed.

(** C21. A battle whose outputs and timers are accepted stays in order.  While it is
    played the player to act has cards and a code that is not zero; the trick is new,
    or its leader is known and the seats between the leader and the player to act
    have passed; the seats without cards are exactly those that are out, ranked in
    the order in which they got out; of two partners one still has cards; and the
    points captured and on the table are the points of the cards played, without
    overflow.  When it waits for the settlement exactly one pair of partners is out.
    And no command panics, but for a start whose shuffle or banker is out of range. *)
Theorem battle_in_order `{!Reliable E} w : running w →
  battleOk (battle w) ∧ ∀ source c, (∀ p, c ≠ StartSubgame p) → (Handle source c w).2 ≠ Panicked.
Proof.
  intros H. pose proof (running_ok w H) as Hok. split; [done|]. intros source c Hc. destruct w as [b l]. by apply (wp_Handle source c b Hok l).
Qed.

(** C23. A subgame that nobody attends to ends.  From any state of play (of an
    initialised service) whose turn has
    its deadline to come, when every turn runs into its deadline, each firing with the
    revision and source that [startAction] set it with, then after at most 416 turns the
    battle has asked for the settlement with one pair of partners out.  This supposes
    that outputs and timers are accepted, that the rules let the battle act on a timeout
    ([TimeoutAutoMove]) and that the cards dealt have the values of the game.  A start
    that deals leaves such a state. *)
Theorem unattended_subgame_ends `{!Reliable E} w : running w →
  (phase (battle w) = Playing → service (battle w) = true → armed w →
   TimeoutAutoMove (rules (su (battle w))) = true → Forall (λ c, playable (cardValue c)) (dealtCards (battle w)) →
   ∀ n, maxActions ≤ Z.of_nat n →
     phase (battle (expireAll n w)) = AwaitingSettlement
     ∧ overOk (pe (battle (expireAll n w))) (ta (battle (expireAll n w))))
  ∧ ∀ source p, let '(w', o) := Handle source (StartSubgame p) w in
      phase (battle w) ≠ Playing → o ≠ Panicked → phase (battle w') = Playing → service (battle w') = true → armed w'.
Proof.
  intros Hr. split.
  - intros Hp Hsv Ha Hauto Hd n Hn. apply expireAll_ends; [by apply running_ok|apply reachable_safe; by apply running_reachable|done..|lia].
  - intros source p. destruct (Handle source (StartSubgame p) w) as [w' o] eqn:Hh. intros Hnp Ho Hp Hsv.
    unfold Handle, mbind, b_bind, get in Hh. destruct (deleting (battle w)); [injection Hh as <- _; congruence|].
    pose proof (start_arms p w Hnp) as Ha. unfold ArmsFrom in Ha. rewrite Hh in Ha. by apply Ha.
Qed.
End Properties.

Lemma cards_conserved_witness :
  heldCards (hands (ta (battle sampleStarted))) ++ concat (outedCards (ta (battle sampleStarted))) ≡ₚ dealtCards (battle sampleStarted).
Proof. refine (proj1 (cards_conserved sampleStarted _)). apply running_reachable, sampleStarted_running. Defined.
Lemma battle_in_order_witness : battleOk (battle sampleStarted) ∧ phase (battle sampleStarted) = Playing.
Proof. split; [apply (battle_in_order sampleStarted sampleStarted_running)|vm_compute; reflexivity]. Defined.
Lemma unattended_subgame_ends_witness :
  phase (battle (expireAll 416 sampleStarted)) = AwaitingSettlement.
Proof.
  refine (proj1 (proj1 (unattended_subgame_ends sampleStarted sampleStarted_running) _ _ _ _ _ 416%nat _)).
  - vm_compute. reflexivity.
  - vm_compute. reflexivity.
  - exists ReplayMoveSourceTimeout. vm_compute. reflexivity.
  - vm_compute. reflexivity.
  - apply (bool_decide_unpack (Forall _ _)). vm_compute. exact I.
  - vm_compute. discriminate.
Defined.
