(* ===== verification/NhskQuarantine.v ===== *)
(** * The quarantine boundary of a battle

    [battleQuarantineBoundary] of [src/examples/nhsk/quarantine.go] wraps a battle: it
    records every command, checks the invariants of the battle after each one that
    succeeded, and when a handler panics or an invariant fails it reports the evidence
    to the host and the factory and panics.

    [validateDiagnosticInvariants] is the program's own idea of a battle in order.  It
    follows from [battleOk], so of a battle whose outputs are accepted only a start
    can ever be quarantined ([quarantine_only_by_start]). *)

From stdpp Require Import prelude gmap strings list.
From Stdlib Require Import ZArith Lia Strings.Byte.
From S2P Require Import Prelude Types Bytes Game NhskCards NhskSettlement NhskDeal NhskReplay NhskBattle NhskBattleInv NhskTrick NhskBattleProps.

Local Open Scope Z_scope.

(** ** Evidence *)

Record BattleCommandRecord := mkCommandRecord {
  crSequence : Z; crRecordedAt : Time; crSource : ServiceRef; crCommandID : Z; crPayload : list byte
}.
Record BattleDiagnosticEvidence := mkEvidence {
  evFailedAt : Time; evFailedCommand : Z; evCommandSequence : Z; evLastStable : option NHSKBattleSnapshot; evCommands : list BattleCommandRecord;
  evRandomSeed : Z; evRandomSeedKnown : bool; evClockAtFailure : Time; evStack : string
}.
Record battleQuarantineReport := mkReport { brBattleID : BattleID; brRef : ServiceRef; brGeneration : Z; brEvidence : BattleDiagnosticEvidence }.
Record battleQuarantineBoundaryConfig := mkBoundaryConfig { bcHost : ServiceRef; bcFactory : ServiceRef; bcGeneration : Z }.

(** ** The invariants the program checks *)

(** The loop over the seats, with the players seen. *)
Fixpoint seatsAgree (q : people) (l : list (Z * PlayerID)) (seen : gset PlayerID) : error string :=
  match l with
  | [] => None
  | (seat, p) :: l =>
      if bool_decide (p = "") then seatsAgree q l seen
      else match players q !! p with
           | None => Some "seat index disagrees with player state"
           | Some v => if negb (bpSeatID v =? seat) then Some "seat index disagrees with player state"
                       else if bool_decide (p ∈ seen) then Some "player occupies multiple seats"
                       else seatsAgree q l ({[p]} ∪ seen)
           end
  end.
Definition validateDiagnosticInvariants (b : NHSKBattleService) : error string :=
  if (battleID (fx b) =? 0) || (activeSeat (ta b) <? 0) || (4 <=? activeSeat (ta b)) then Some "invalid Battle identity or active seat"
  else match seatsAgree (pe b) (zip seats (qlist (bySeat (pe b)))) ∅ with
       | Some e => Some e
       | None => if bool_decide (phase b = Playing) && negb (hasFourPlayers b) then Some "playing Battle does not have four active players" else None
       end.

(** ** The boundary *)

(** What the boundary asks of the outside: the runtime's clock and JSON texts of
    payloads and stacks, and whether a report is accepted. *)
Class BoundaryEnv := {
  serviceNow : Z → Time;
  encodePayload : command → list byte;
  panicText : command → string;
  invariantText : string → string;
  ansReport : ServiceRef → battleQuarantineReport → error rtError
}.

Record boundary := mkBoundary {
  inner : world; bdConfig : battleQuarantineBoundaryConfig; sequence : Z; records : list BattleCommandRecord; lastStable : option NHSKBattleSnapshot;
  (** sent reports, with the answers *)
  reports : list (ServiceRef * battleQuarantineReport * error rtError)
}.

(** [snapshot] indexes the seats by the active one; [None] is its panic. *)
Definition snapshotOf (b : NHSKBattleService) : option NHSKBattleSnapshot := snapshot b <$> qat (bySeat (pe b)) (activeSeat (ta b)).

Definition newBattleQuarantineBoundary (w : world) (c : battleQuarantineBoundaryConfig) : res string boundary :=
  if bool_decide (Node (bcHost c) = "") || (ID (bcHost c) =? 0) then Err "nhsk: invalid Battle config"
  else Ok (mkBoundary w c 0 [] (snapshotOf (battle w)) []).

Section Boundary.
Context {E : Env} {F : BoundaryEnv}.

Definition evidence (d : boundary) (command : Z) (stack : string) : BattleDiagnosticEvidence :=
  mkEvidence (serviceNow (sequence d)) command (sequence d) (lastStable d) (records d) (randomSeed (fx (battle (inner d))))
    (randomSeedKnown (fx (battle (inner d)))) (ansClock (log (inner d))) stack.

(** The loop over the two targets. *)
Definition report (command : Z) (stack : string) (d : boundary) : boundary :=
  let r := mkReport (battleID (fx (battle (inner d)))) self (bcGeneration (bdConfig d)) (evidence d command stack) in
  let targets := filter (λ t, ID t ≠ 0) [bcHost (bdConfig d); bcFactory (bdConfig d)] in
  mkBoundary (inner d) (bdConfig d) (sequence d) (records d) (lastStable d) (reports d ++ ((λ t, (t, r, ansReport t r)) <$> targets)).

Definition set_inner (w : world) (d : boundary) : boundary := mkBoundary w (bdConfig d) (sequence d) (records d) (lastStable d) (reports d).
Definition set_lastStable (s : option NHSKBattleSnapshot) (d : boundary) : boundary := mkBoundary (inner d) (bdConfig d) (sequence d) (records d) s (reports d).
Definition recordCommand (source : ServiceRef) (c : command) (d : boundary) : boundary :=
  let n := u64 (sequence d + 1) in
  mkBoundary (inner d) (bdConfig d) n (records d ++ [mkCommandRecord n (serviceNow n) source (commandID c) (encodePayload c)]) (lastStable d) (reports d).

(** [Handle], but for the capture command, which only answers [evidence]. *)
Definition handleGuarded (source : ServiceRef) (c : command) (d : boundary) : boundary * outcome () :=
  let d := recordCommand source c d in
  let '(w, o) := Handle source c (inner d) in
  let d := set_inner w d in
  match o with
  | Panicked => (report (commandID c) (panicText c) d, Panicked)
  | Failed e => (d, Failed e)
  | Done _ =>
      match validateDiagnosticInvariants (battle w) with
      | Some e => (report (commandID c) (invariantText e) d, Panicked)
      | None => match snapshotOf (battle w) with Some s => (set_lastStable (Some s) d, Done ()) | None => (report (commandID c) (panicText c) d, Panicked) end
      end
  end.
End Boundary.

(** ** Identity *)

(** The fixed part of a battle is never written. *)
Definition SameFixed : relation NHSKBattleService := λ b b', fx b' = fx b.
#[global] Instance SameFixed_preorder : PreOrder SameFixed.
Proof. split; [done|]. intros a b c H1 H2. unfold SameFixed in *. congruence. Qed.

(** Walk through a program, unfolding what it calls. *)
Ltac walk :=
  repeat first
    [ solve [eauto 2 with stays typeclass_instances]
    | apply stays_bind; [solve [typeclasses eauto]| |intro]
    | progress cbv zeta
    | match goal with |- Stays _ (match ?x with _ => _ end) => destruct x end
    | apply stays_modify; intro; reflexivity
    | match goal with |- Stays _ ?m => let h := get_head m in unfold h end ].

Section Fixed.
Context {E : Env}.

Lemma fixed_startAction d : Stays SameFixed (startAction d).
Proof. walk. Qed.
Lemma fixed_advanceTurn : Stays SameFixed advanceTurn.
Proof. walk. Qed.
Hint Resolve fixed_startAction fixed_advanceTurn : stays.
Lemma fixed_play p cards code source notify : Stays SameFixed (playWithSource p cards code source notify).
Proof. walk. Qed.
Lemma fixed_finishReplay : Stays SameFixed finishReplay.
Proof. walk. Qed.
Hint Resolve fixed_play fixed_finishReplay : stays.
Lemma fixed_beginReplay : Stays SameFixed beginReplayFinalization.
Proof. walk. Qed.
Hint Resolve fixed_beginReplay : stays.
Lemma fixed_forceFinish p : Stays SameFixed (forceFinish p).
Proof. walk. Qed.
Lemma fixed_complete p : Stays SameFixed (completeSettlement p).
Proof.
  apply stays_wp. intros b. unfold completeSettlement. apply wp_seq, wp_read. unfold id.
  assert (∀ s, wp (settlementReject s) b (λ _ b', SameFixed b b')) as Hrej.
  { intros s. eapply (wp_stays SameFixed); [apply stays_settlementReject; apply _|done]. }
  destruct p as [request|]; [|apply Hrej]. destruct (bool_decide _); [apply Hrej|]. destruct (planSettlement _ _) as [plan|]; [|apply Hrej].
  destruct (applyPlan_pe plan seats b) as (q & Eq & _). destruct (applyPlan plan seats b) as [b' complete]. cbn [fst] in Eq. subst b'.
  apply wp_seq, wp_modify. eapply (wp_stays SameFixed); [|intros _ b' Hb'; exact Hb']. walk.
Qed.
Lemma fixed_deal banker custom : Stays SameFixed (deal banker custom).
Proof. walk. Qed.
Hint Resolve fixed_forceFinish fixed_complete fixed_deal : stays.
Lemma fixed_Handle source c : Stays SameFixed (Handle source c).
Proof. walk. Qed.
End Fixed.

Lemma running_id `{E : Env} w : running w → battleID (fx (battle w)) ≠ 0.
Proof.
  induction 1 as [c seed b l Hn|w _ IH|w _ IH|w source c _ IH _]; [|exact IH..|].
  - unfold NewBattleService in Hn. repeat case_match; simplify_eq; cbn; bool_prop; done.
  - pose proof (fixed_Handle source c w) as H. unfold SameFixed in H. congruence.
Qed.

(** ** The invariants hold *)

Lemma full_size q : fullTable q → (4 ≤ size (players q))%nat.
Proof.
  intros H. assert (NoDup (qlist (bySeat q))) as Hn.
  { apply NoDup_alt. intros i j p Hi Hj. assert (∀ k, qlist (bySeat q) !! k = Some p → inSeats (Z.of_nat k) ∧ qget "" (bySeat q) (Z.of_nat k) = p) as Hk.
    { intros k Hk. destruct k as [|[|[|[|k]]]]; cbn in Hk; simplify_eq; unfold inSeats; (split; [lia|done]). }
    destruct (Hk i Hi) as [Hi1 Hi2], (Hk j Hj) as [Hj1 Hj2]. apply Nat2Z.inj, (full_inj q); [done..|congruence]. }
  rewrite <- size_dom. change 4%nat with (length (qlist (bySeat q))). rewrite <- (size_list_to_set (C := gset PlayerID) _ Hn). apply subseteq_size.
  intros p Hp%elem_of_list_to_set. apply elem_of_dom. destruct H as [[_ Hs] Hne]. unfold qlist in Hp.
  assert (∃ i, inSeats i ∧ qat (bySeat q) i = Some p) as (i & Hi & Hq).
  { rewrite !elem_of_cons, elem_of_nil in Hp. destruct Hp as [->|[->|[->|[->|[]]]]]; [exists 0|exists 1|exists 2|exists 3]; (split; [unfold inSeats; lia|done]). }
  destruct (Hs i p Hq) as (v & Hv & _); [|by eexists]. specialize (Hne i Hi). unfold qget in Hne. by rewrite Hq in Hne.
Qed.
Lemma full_hasFour b : fullTable (pe b) → hasFourPlayers b = true.
Proof.
  intros H. unfold hasFourPlayers. apply andb_true_iff. split.
  - apply forallb_forall. intros p Hp. apply negb_true_iff, bool_decide_eq_false. destruct H as [_ Hne].
    pose proof (Hne 0 ltac:(unfold inSeats; lia)). pose proof (Hne 1 ltac:(unfold inSeats; lia)).
    pose proof (Hne 2 ltac:(unfold inSeats; lia)). pose proof (Hne 3 ltac:(unfold inSeats; lia)). unfold qget, qat in *. cbn in *. intuition congruence.
  - apply Z.leb_le. pose proof (full_size _ H). lia.
Qed.

Lemma seatsAgree_ok q l : seatsOk q → ∀ seen, (∀ i p, (i, p) ∈ l → qat (bySeat q) i = Some p) → NoDup l.*1 →
  (∀ p, p ∈ seen → ∃ j, j ∉ l.*1 ∧ qat (bySeat q) j = Some p) → seatsAgree q l seen = None.
Proof.
  intros Hs. induction l as [|[i p] l IH]; intros seen Hl Hn Hseen; [done|]. cbn [seatsAgree]. cbn in Hn. apply NoDup_cons in Hn as [Hi Hn].
  case_bool_decide as Hp.
  { apply IH; [set_solver|done|]. intros x Hx. destruct (Hseen x Hx) as (j & Hj & Hq). exists j. set_solver. }
  pose proof (Hl i p ltac:(set_solver)) as Hq. destruct (proj2 Hs i p Hq Hp) as (v & Hv & Hvi). rewrite Hv, Hvi, Z.eqb_refl. cbn [negb].
  rewrite bool_decide_false.
  - apply IH; [set_solver|done|]. intros x Hx. apply elem_of_union in Hx as [->%elem_of_singleton|Hx]; [by exists i|].
    destruct (Hseen x Hx) as (j & Hj & Hqj). exists j. set_solver.
  - intros Hx. destruct (Hseen p Hx) as (j & Hj & Hqj). apply Hj. rewrite (seatsOk_inj q j i p); [set_solver|done..].
Qed.

Lemma validate_ok b : battleID (fx b) ≠ 0 → battleOk b → validateDiagnosticInvariants b = None.
Proof.
  intros Hid (Hs & Ha & Hp & _). unfold validateDiagnosticInvariants. unfold inSeats in Ha.
  rewrite (proj2 (Z.eqb_neq _ 0)), (proj2 (Z.ltb_ge _ 0)), (proj2 (Z.leb_gt 4 _)) by first [done|lia]. cbn [orb].
  rewrite seatsAgree_ok; [|done| |by vm_compute; repeat (constructor; [set_solver|]); constructor|set_solver].
  - case_bool_decide as Hph; [|done]. cbn [andb]. rewrite full_hasFour; [done|]. by apply Hp.
  - intros i p Hin. cbn in Hin. rewrite !elem_of_cons, elem_of_nil in Hin. destruct Hin as [[= -> ->]|[[= -> ->]|[[= -> ->]|[[= -> ->]|[]]]]]; done.
Qed.

(** ** Properties *)

Section Properties.
Context {E : Env} `{!Reliable E} {F : BoundaryEnv}.

(** C30. A battle whose outputs and timers are accepted is quarantined by nothing but a
    start that panics: every other command, and a start that does not, passes the
    invariants that the boundary checks; nothing is reported, the command is recorded,
    and after a success the snapshot kept as evidence is that of the battle now. *)
Theorem quarantine_only_by_start d source c :
  running (inner d) → (∀ p, c ≠ StartSubgame p) ∨ (Handle source c (inner d)).2 ≠ Panicked →
  let '(d', o) := handleGuarded source c d in
  o ≠ Panicked ∧ reports d' = reports d ∧ records d' = records (recordCommand source c d) ∧ running (inner d')
  ∧ (o = Done () → lastStable d' = snapshotOf (battle (inner d')) ∧ is_Some (lastStable d')).
Proof.
  intros Hr Hc. assert ((Handle source c (inner d)).2 ≠ Panicked) as Ho.
  { destruct Hc as [Hc|Hc]; [|done]. pose proof (running_ok _ Hr) as Hok. destruct (inner d) as [b l]. by apply (wp_Handle source c b Hok l). }
  pose proof (run_handle _ source c Hr Ho) as Hr'. pose proof (running_ok _ Hr') as Hok'. pose proof (running_id _ Hr') as Hid.
  unfold handleGuarded. change (inner (recordCommand source c d)) with (inner d). destruct (Handle source c (inner d)) as [w o]. cbn [fst snd] in *.
  destruct o as [[]|e|]; [|by split_and!|done]. rewrite validate_ok by done. destruct (snapshotOf (battle w)) as [s|] eqn:Hs.
  - split_and!; [done..|]. intros _. cbn. split; [by rewrite Hs|done].
  - exfalso. unfold snapshotOf in Hs. destruct (qat_in (bySeat (pe (battle w))) _ (proj1 (proj2 Hok'))) as [p Hp]. by rewrite Hp in Hs.
Qed.
End Properties.

Definition sampleBoundaryEnv : BoundaryEnv := {|
  serviceNow n := 5000 + n; encodePayload _ := []; panicText _ := "panic"; invariantText e := e; ansReport _ _ := None
|}.
Definition sampleBoundary : boundary := mkBoundary sampleStarted (mkBoundaryConfig (mkRef "n1" 800) (mkRef "n1" 801) 1) 4 [] None [].
Lemma quarantine_only_by_start_witness :
  reports (@handleGuarded sampleEnv sampleBoundaryEnv (mkRef "n1" 902) (UpdateRoundContext (Some (mkRoundContext 9 1 "room"))) sampleBoundary).1 = [].
Proof.
  assert (∀ p, UpdateRoundContext (Some (mkRoundContext 9 1 "room")) ≠ StartSubgame p) as Hn by discriminate.
  pose proof (@quarantine_only_by_start sampleEnv sampleEnv_reliable sampleBoundaryEnv sampleBoundary (mkRef "n1" 902)
    (UpdateRoundContext (Some (mkRoundContext 9 1 "room"))) sampleStarted_running (or_introl Hn)) as H.
  destruct (handleGuarded _ _ _) as [d' o]. destruct H as (_ & H & _). exact H.
Defined.
