(* ===== verification/NhskHost.v ===== *)
(** * The host of the card battles

    [NHSKHostService] of [src/examples/nhsk/host.go]: the index from battle numbers to
    services.  It asks the factory to create and stop battles, keeps the number of a
    battle reserved from the request until its service is gone, and keeps a battle
    that failed until its evidence has been published.

    The host is a state monad over its fields and a log; whether the factory's mailbox
    and the diagnostic queue accept what they are sent, and what the clock says, is the
    instance of [HostEnv]. *)

From stdpp Require Import prelude gmap strings list sorting.
From Stdlib Require Import ZArith Lia.
From S2P Require Import Prelude Types Game NhskBattle NhskQuarantine.

Local Open Scope Z_scope.

(** ** Data *)

Record CreateBattleRequest := mkCreateRequest { cbBattleID : BattleID; cbIsNewbie : bool; cbGeneration : Z }.
#[global] Instance CreateBattleRequest_eq_dec : EqDecision CreateBattleRequest.
Proof. solve_decision. Defined.
Definition zeroCreateRequest : CreateBattleRequest := mkCreateRequest 0 false 0.

Inductive HostOperationPhase :=
| HostOperationCreating | HostOperationCompleted | HostOperationFailed | HostOperationStopping | HostOperationQuarantined.
#[global] Instance HostOperationPhase_eq_dec : EqDecision HostOperationPhase.
Proof. solve_decision. Defined.

Definition zeroRef : ServiceRef := mkRef "" 0.
Record CreateBattleOperation := mkOperation {
  coOperationID : Z; coBattleID : BattleID; coPhase : HostOperationPhase; coRef : ServiceRef; coRejection : string
}.
Definition zeroOperation : CreateBattleOperation := mkOperation 0 0 HostOperationFailed zeroRef "".
Definition failedOperation (o : CreateBattleOperation) (text : string) : CreateBattleOperation :=
  mkOperation (coOperationID o) (coBattleID o) HostOperationFailed (coRef o) text.

Inductive DiagnosticExportStatus := DiagnosticExportPending | DiagnosticExportFailed | DiagnosticExported.
#[global] Instance DiagnosticExportStatus_eq_dec : EqDecision DiagnosticExportStatus.
Proof. solve_decision. Defined.
Record ExternalEndObservation := mkObservation { eoFirst : Time; eoLatest : Time; eoCount : Z; eoGeneration : Z }.
Record DiagnosticReceipt := mkReceipt {
  drReceiptID : string; drBattleID : BattleID; drRef : ServiceRef; drDigest : string; drDirectory : string; drCreatedAt : Time
}.
#[global] Instance DiagnosticReceipt_eq_dec : EqDecision DiagnosticReceipt.
Proof. solve_decision. Defined.
Record QuarantinedBattleSnapshot := mkQuarantined {
  qsBattleID : BattleID; qsRef : ServiceRef; qsGeneration : Z; qsAt : Time; qsFailedCommand : Z; qsCommandSequence : Z;
  qsExportStatus : DiagnosticExportStatus; qsExportError : string; qsReceipt : option DiagnosticReceipt; qsExternalEnd : ExternalEndObservation
}.
Record quarantinedBattle := mkRetained { rtSnapshot : QuarantinedBattleSnapshot; rtEvidence : BattleDiagnosticEvidence; releasePending : bool }.

Definition validDiagnosticReceipt (r : DiagnosticReceipt) : bool :=
  negb (bool_decide (drReceiptID r = "")) && negb (drBattleID r =? 0) && negb (bool_decide (Node (drRef r) = "")) && negb (ID (drRef r) =? 0)
  && (Z.of_nat (String.length (drDigest r)) =? 64) && negb (bool_decide (drDirectory r = "")) && negb (drCreatedAt r =? 0).
Definition sameDiagnosticReceipt (a b : DiagnosticReceipt) : bool := bool_decide (a = b).

Record NHSKHostService := mkHost {
  hMax : Z; hFactory : ServiceRef; nextOp : Z; active : gmap BattleID ServiceRef; states : gmap BattleID HostOperationPhase;
  operations : gmap Z CreateBattleOperation; createRequests : gmap BattleID CreateBattleRequest; battleOperations : gmap BattleID Z;
  replacements : gmap BattleID Z; hDiagnostic : bool; quarantine : gmap BattleID quarantinedBattle
}.

Definition NewNHSKHostService (max : Z) (factory : ServiceRef) (diagnostic : bool) : res string NHSKHostService :=
  if (max =? 0) || bool_decide (Node factory = "") || (ID factory =? 0) then Err "nhsk: invalid Host config"
  else Ok (mkHost max factory 0 ∅ ∅ ∅ ∅ ∅ ∅ diagnostic ∅).

Definition rebuildHost h :=
  mkHost (hMax h) (hFactory h) (nextOp h) (active h) (states h) (operations h) (createRequests h) (battleOperations h) (replacements h)
    (hDiagnostic h) (quarantine h).
Definition set_nextOp v h : NHSKHostService := ltac:(upd rebuildHost h (nextOp h) v).
Definition set_active v h : NHSKHostService := ltac:(upd rebuildHost h (active h) v).
Definition set_states v h : NHSKHostService := ltac:(upd rebuildHost h (states h) v).
Definition set_operations v h : NHSKHostService := ltac:(upd rebuildHost h (operations h) v).
Definition set_createRequests v h : NHSKHostService := ltac:(upd rebuildHost h (createRequests h) v).
Definition set_battleOperations v h : NHSKHostService := ltac:(upd rebuildHost h (battleOperations h) v).
Definition set_replacements v h : NHSKHostService := ltac:(upd rebuildHost h (replacements h) v).
Definition set_quarantine v h : NHSKHostService := ltac:(upd rebuildHost h (quarantine h) v).

(** Messages to and from the factory. *)
Record createBattleInternal := mkCreateInternal { ciOperationID : Z; ciRequest : CreateBattleRequest; ciHost : ServiceRef }.
#[global] Instance createBattleInternal_eq_dec : EqDecision createBattleInternal.
Proof. solve_decision. Defined.
Record stopBattleInternal := mkStopInternal {
  siOperationID : Z; siBattleID : BattleID; siRef : ServiceRef; siHost : ServiceRef; siRelease : bool; siOrphan : bool; siGeneration : Z
}.
Record applyBattleCreated := mkCreated { acOperationID : Z; acBattleID : BattleID; acRef : ServiceRef; acGeneration : Z; acErr : string }.
Record applyBattleStopped := mkStopped { asOperationID : Z; asBattleID : BattleID; asRef : ServiceRef; asErr : string }.
Inductive factoryMessage := MCreate (r : createBattleInternal) | MStop (r : stopBattleInternal).

Record DiagnosticArtifact := mkDiagnostic {
  dgHost : ServiceRef; dgBattleID : BattleID; dgRef : ServiceRef; dgGeneration : Z; dgEvidence : BattleDiagnosticEvidence
}.

Record HostSnapshot := mkHostSnapshot { hsMax : Z; hsActive : gmap BattleID ServiceRef; hsQuarantined : list QuarantinedBattleSnapshot }.
Inductive hostReply :=
| OperationReply (o : CreateBattleOperation)
| ResolveReply (id : BattleID) (ref : ServiceRef)
| HostResult (accepted : bool) (rejection : string) (operation : Z)
| SnapshotAnswer (s : HostSnapshot)
| QuarantinedAnswer (l : list QuarantinedBattleSnapshot).

Inductive hostError := HInvalidEnvelope | HServiceNotFound | HInvalidBattleID | HQuarantined | HUnauthorized | HUnknownCommand | HPassed (e : rtError).
Inductive hostEvent :=
| FactorySent (m : factoryMessage) (answer : error rtError)
| HostReplied (v : hostReply) (answer : error rtError)
| DiagnosticSubmitted (a : DiagnosticArtifact) (answer : error string)
| HostLooked (t : Time)
| HostCounted (name : string)
| HostGauge (name : string) (value : Z).

Class HostEnv := {
  hSelf : ServiceRef;
  ansFactory : list hostEvent → factoryMessage → error rtError;
  ansHostReply : list hostEvent → hostReply → error rtError;
  ansDiagnostic : list hostEvent → DiagnosticArtifact → error string;
  hostClock : list hostEvent → Time
}.

(** ** Effects *)

Record hworld := mkHW { host : NHSKHostService; hlog : list hostEvent }.
Definition H (X : Type) : Type := hworld → hworld * X.
#[global] Instance h_ret : MRet H := λ X x w, (w, x).
#[global] Instance h_bind : MBind H := λ X Y k m w, let '(w, x) := m w in k x w.
Definition hget {X} (f : NHSKHostService → X) : H X := λ w, (w, f (host w)).
Definition hmodify (f : NHSKHostService → NHSKHostService) : H unit := λ w, (mkHW (f (host w)) (hlog w), ()).
Definition hnote (e : hostEvent) : H unit := λ w, (mkHW (host w) (hlog w ++ [e]), ()).
Definition hask {X} (f : list hostEvent → X) : H X := λ w, (w, f (hlog w)).

(** A handler ends with its error, nil most of the time. *)
Abbreviation handler := (H (error hostError)) (only parsing).

Definition onActive f : H unit := hmodify (λ h, set_active (f (active h)) h).
Definition onStates f : H unit := hmodify (λ h, set_states (f (states h)) h).
Definition onOperations f : H unit := hmodify (λ h, set_operations (f (operations h)) h).
Definition onCreateRequests f : H unit := hmodify (λ h, set_createRequests (f (createRequests h)) h).
Definition onBattleOperations f : H unit := hmodify (λ h, set_battleOperations (f (battleOperations h)) h).
Definition onReplacements f : H unit := hmodify (λ h, set_replacements (f (replacements h)) h).
Definition onQuarantine f : H unit := hmodify (λ h, set_quarantine (f (quarantine h)) h).

Section Host.
Context {E : HostEnv}.

Definition hreply (v : hostReply) : handler :=
  a ← hask (λ l, ansHostReply l v);
  hnote (HostReplied v a) ;;
  mret (match a with None => None | Some e => if errors_Is e ErrReplyUnavailable then None else Some (HPassed e) end).
Definition sendFactory (m : factoryMessage) : H (error rtError) :=
  a ← hask (λ l, ansFactory l m); hnote (FactorySent m a) ;; mret a.
Definition hnow : H Time := t ← hask hostClock; hnote (HostLooked t) ;; mret t.
(** [host.nextOp++] *)
Definition newOperation : H Z := hmodify (λ h, set_nextOp (u64 (nextOp h + 1)) h) ;; hget nextOp.

Definition isLocalAdmin (source : ServiceRef) : bool := bool_decide (Node source = Node hSelf) && (ID source =? 0).
Definition creatingCount (h : NHSKHostService) : Z :=
  Z.of_nat (size (filter (λ e : BattleID * HostOperationPhase, e.2 = HostOperationCreating) (states h))).
Definition u32h (z : Z) : Z := z mod 2 ^ 32.
(** The reserved numbers, as the code adds them. *)
Definition occupied (h : NHSKHostService) : Z := u32h (u32h (Z.of_nat (size (active h))) + u32h (creatingCount h)).

Definition forgetCreate (id : BattleID) : H unit :=
  onCreateRequests (delete id) ;; onBattleOperations (delete id).
Definition submitCreate (operation : Z) (r : CreateBattleRequest) : H (error rtError) := sendFactory (MCreate (mkCreateInternal operation r hSelf)).

(** *** Creating *)

Definition beginLegacyReplacement (r : CreateBattleRequest) : handler :=
  let id := cbBattleID r in
  ref ← hget (λ h, default zeroRef (active h !! id));
  op ← newOperation;
  let operation := mkOperation op id HostOperationStopping zeroRef "" in
  onOperations (insert op operation) ;;
  onCreateRequests (insert id r) ;;
  onBattleOperations (insert id op) ;;
  onReplacements (insert id op) ;;
  onStates (insert id HostOperationStopping) ;;
  e ← sendFactory (MStop (mkStopInternal op id ref hSelf false false 0));
  match e with
  | None => hreply (OperationReply operation)
  | Some e =>
      let operation := failedOperation operation (errorText e) in
      onOperations (insert op operation) ;;
      onStates (insert id HostOperationCompleted) ;;
      onReplacements (delete id) ;;
      forgetCreate id ;;
      hreply (OperationReply operation)
  end.

(** The end of [beginCreate]: a number that is free. *)
Definition createFresh (r : CreateBattleRequest) : handler :=
  let id := cbBattleID r in
  h ← hget (λ h, h);
  if hMax h <=? occupied h then hreply (OperationReply (mkOperation 0 id HostOperationFailed zeroRef "nhsk: Host capacity exhausted"))
  else
    op ← newOperation;
    let operation := mkOperation op id HostOperationCreating zeroRef "" in
    onOperations (insert op operation) ;;
    onStates (insert id HostOperationCreating) ;;
    onCreateRequests (insert id r) ;;
    onBattleOperations (insert id op) ;;
    e ← submitCreate op r;
    match e with
    | None => hreply (OperationReply operation)
    | Some e =>
        let operation := failedOperation operation (errorText e) in
        onOperations (insert op operation) ;;
        onStates (delete id) ;;
        forgetCreate id ;;
        hreply (OperationReply operation)
    end.

(** The payload is [None] when it has another type, here and below. *)
Definition beginCreate (source : ServiceRef) (payload : option CreateBattleRequest) : handler :=
  match payload with
  | None => hreply (OperationReply (mkOperation 0 0 HostOperationFailed zeroRef "nhsk: invalid BattleID"))
  | Some r =>
      let id := cbBattleID r in
      let refuse phase text := hreply (OperationReply (mkOperation 0 id phase zeroRef text)) in
      if id =? 0 then hreply (OperationReply (mkOperation 0 0 HostOperationFailed zeroRef "nhsk: invalid BattleID"))
      else if negb (cbGeneration r =? 0) && negb (isLocalAdmin source)
      then refuse HostOperationFailed "nhsk: connection generation is reserved for the local Legacy adapter"
      else
        h ← hget (λ h, h);
        match states h !! id with
        | None | Some HostOperationFailed => createFresh r
        | Some phase =>
            let operation := default 0 (battleOperations h !! id) in
            if negb (operation =? 0) && bool_decide (default zeroCreateRequest (createRequests h !! id) = r)
               && (bool_decide (phase = HostOperationCreating) || (default 0 (replacements h !! id) =? operation))
            then hreply (OperationReply (default zeroOperation (operations h !! operation)))
            else if bool_decide (phase = HostOperationCompleted) && negb (cbGeneration r =? 0) then beginLegacyReplacement r
            else refuse phase "nhsk: battle id in use"
        end
  end.

Definition applyCreated (source : ServiceRef) (payload : option applyBattleCreated) : handler :=
  h ← hget (λ h, h);
  if bool_decide (source ≠ hFactory h) then mret (Some HUnauthorized)
  else match payload with
       | None => mret (Some HInvalidEnvelope)
       | Some r =>
           let id := acBattleID r in
           match operations h !! acOperationID r, createRequests h !! id with
           | Some operation, Some request =>
               if negb (coBattleID operation =? id) || negb (default 0 (battleOperations h !! id) =? acOperationID r)
                  || negb (cbGeneration request =? acGeneration r) then mret None
               else
                 (if negb (bool_decide (acErr r = "")) || (ID (acRef r) =? 0) then
                    onStates (delete id) ;; forgetCreate id ;;
                    onOperations (insert (acOperationID r) (failedOperation operation (acErr r)))
                  else
                    onActive (insert id (acRef r)) ;;
                    onStates (insert id HostOperationCompleted) ;;
                    forgetCreate id ;;
                    onOperations (insert (acOperationID r)
                      (mkOperation (coOperationID operation) (coBattleID operation) HostOperationCompleted (acRef r) (coRejection operation)))) ;;
                 mret None
           | _, _ => mret None
           end
       end.

(** *** Reading *)

Definition getOperation (payload : option Z) : handler :=
  match payload with
  | None => mret (Some HInvalidEnvelope)
  | Some op =>
      if op =? 0 then mret (Some HInvalidEnvelope)
      else o ← hget (λ h, operations h !! op); match o with None => mret (Some HServiceNotFound) | Some o => hreply (OperationReply o) end
  end.

Definition resolve (payload : option BattleID) : handler :=
  match payload with
  | None => mret (Some HInvalidBattleID)
  | Some id =>
      if id =? 0 then mret (Some HInvalidBattleID)
      else
        h ← hget (λ h, h);
        match active h !! id with
        | None => mret (Some HServiceNotFound)
        | Some ref => if bool_decide (states h !! id = Some HostOperationQuarantined) then mret (Some HQuarantined) else hreply (ResolveReply id ref)
        end
  end.

Definition byBattleID (a b : QuarantinedBattleSnapshot) : Prop := qsBattleID a ≤ qsBattleID b.
#[global] Instance byBattleID_dec : RelDecision byBattleID.
Proof. intros a b. unfold byBattleID. apply _. Defined.
Definition hostSnapshot (h : NHSKHostService) : HostSnapshot :=
  mkHostSnapshot (hMax h) (active h) (merge_sort byBattleID (rtSnapshot <$> (map_to_list (quarantine h)).*2)).

(** *** Stopping *)

Definition observeEnd (now : Time) (generation : Z) (o : ExternalEndObservation) : ExternalEndObservation :=
  mkObservation (if eoCount o =? 0 then now else eoFirst o) now (u64 (eoCount o + 1)) generation.
Definition set_snapshot (f : QuarantinedBattleSnapshot → QuarantinedBattleSnapshot) (q : quarantinedBattle) : quarantinedBattle :=
  mkRetained (f (rtSnapshot q)) (rtEvidence q) (releasePending q).
Definition set_externalEnd (o : ExternalEndObservation) (s : QuarantinedBattleSnapshot) : QuarantinedBattleSnapshot :=
  mkQuarantined (qsBattleID s) (qsRef s) (qsGeneration s) (qsAt s) (qsFailedCommand s) (qsCommandSequence s) (qsExportStatus s) (qsExportError s) (qsReceipt s) o.
Definition set_export (status : DiagnosticExportStatus) (text : string) (receipt : option DiagnosticReceipt) (s : QuarantinedBattleSnapshot) : QuarantinedBattleSnapshot :=
  mkQuarantined (qsBattleID s) (qsRef s) (qsGeneration s) (qsAt s) (qsFailedCommand s) (qsCommandSequence s) status text receipt (qsExternalEnd s).

(** A delete request: battle, exact reference or zero, generation. *)
Definition deleteBattle (payload : option (BattleID * ServiceRef * Z)) : handler :=
  let refuse text := hreply (HostResult false text 0) in
  match payload with
  | None => refuse "nhsk: invalid BattleID"
  | Some (id, wanted, generation) =>
      if id =? 0 then refuse "nhsk: invalid BattleID"
      else
        h ← hget (λ h, h);
        match active h !! id with
        | None => refuse (sentinel_text ErrServiceNotFound)
        | Some ref =>
            if negb (ID wanted =? 0) && bool_decide (wanted ≠ ref) then refuse (sentinel_text ErrServiceNotFound)
            else match quarantine h !! id with
                 | Some retained =>
                     t ← hnow;
                     onQuarantine (insert id (set_snapshot (λ s, set_externalEnd (observeEnd t generation (qsExternalEnd s)) s) retained)) ;;
                     hreply (HostResult true "" 0)
                 | None =>
                     if bool_decide (states h !! id = Some HostOperationStopping) then hreply (HostResult true "" 0)
                     else
                       onStates (insert id HostOperationStopping) ;;
                       op ← newOperation;
                       e ← sendFactory (MStop (mkStopInternal op id ref hSelf false false 0));
                       match e with
                       | Some e => onStates (insert id HostOperationCompleted) ;; refuse (errorText e)
                       | None => hreply (HostResult true "" op)
                       end
                 end
        end
  end.

(** A replacement whose old battle is gone, or could not be stopped. *)
Definition replacementStopped (op : Z) (r : applyBattleStopped) : handler :=
  let id := asBattleID r in
  h ← hget (λ h, h);
  let operation := default zeroOperation (operations h !! op) in
  if negb (bool_decide (asErr r = "")) then
    onOperations (insert op (failedOperation operation (asErr r))) ;;
    onStates (insert id HostOperationCompleted) ;;
    onReplacements (delete id) ;;
    forgetCreate id ;;
    mret None
  else
    let operation := mkOperation (coOperationID operation) (coBattleID operation) HostOperationCreating zeroRef (coRejection operation) in
    onActive (delete id) ;;
    onOperations (insert op operation) ;;
    onStates (insert id HostOperationCreating) ;;
    onReplacements (delete id) ;;
    e ← submitCreate op (default zeroCreateRequest (createRequests h !! id));
    match e with
    | None => mret None
    | Some e =>
        onOperations (insert op (failedOperation operation (errorText e))) ;;
        onStates (delete id) ;;
        forgetCreate id ;;
        mret None
    end.

Definition gaugeQuarantined : H unit := n ← hget (λ h, Z.of_nat (size (quarantine h))); hnote (HostGauge "nhsk_quarantined_battles" n).

Definition applyStopped (source : ServiceRef) (payload : option applyBattleStopped) : handler :=
  h ← hget (λ h, h);
  if bool_decide (source ≠ hFactory h) then mret (Some HUnauthorized)
  else match payload with
       | None => mret (Some HInvalidEnvelope)
       | Some r =>
           let id := asBattleID r in
           if bool_decide (active h !! id ≠ Some (asRef r)) then mret None
           else
             let op := default 0 (replacements h !! id) in
             if negb (op =? 0) && (op =? asOperationID r) then replacementStopped op r
             else match quarantine h !! id with
                  | Some retained =>
                      if negb (releasePending retained) then mret None
                      else if negb (bool_decide (asErr r = "")) then
                        onQuarantine (insert id (mkRetained (rtSnapshot retained) (rtEvidence retained) false)) ;; mret None
                      else
                        onQuarantine (delete id) ;; onActive (delete id) ;; onStates (delete id) ;;
                        gaugeQuarantined ;; mret None
                  | None =>
                      if negb (bool_decide (asErr r = "")) then onStates (insert id HostOperationCompleted) ;; mret None
                      else onActive (delete id) ;; onStates (delete id) ;; mret None
                  end
       end.

(** *** Quarantine *)

Definition submitDiagnostic (a : DiagnosticArtifact) : H (error string) :=
  e ← hask (λ l, ansDiagnostic l a); hnote (DiagnosticSubmitted a e) ;; mret e.

Definition applyQuarantined (source : ServiceRef) (payload : option battleQuarantineReport) : handler :=
  match payload with
  | None => mret (Some HInvalidEnvelope)
  | Some r =>
      let id := brBattleID r in
      let ev := brEvidence r in
      if (id =? 0) || (ID (brRef r) =? 0) || (evFailedCommand ev =? 0) then mret (Some HInvalidEnvelope)
      else
        h ← hget (λ h, h);
        if bool_decide (source ≠ brRef r) && bool_decide (source ≠ hFactory h) && negb (isLocalAdmin source) then mret (Some HUnauthorized)
        else if bool_decide (active h !! id ≠ Some (brRef r)) then mret None
        else match quarantine h !! id with
             | Some _ => mret None
             | None =>
                 at_ ← (if evFailedAt ev =? 0 then hnow else mret (evFailedAt ev));
                 let snapshot := mkQuarantined id (brRef r) (brGeneration r) at_ (evFailedCommand ev) (evCommandSequence ev) DiagnosticExportPending "" None
                                   (mkObservation 0 0 0 0) in
                 let retained := mkRetained snapshot ev false in
                 onQuarantine (insert id retained) ;;
                 onStates (insert id HostOperationQuarantined) ;;
                 hnote (HostCounted "nhsk_battles_quarantined_total") ;;
                 gaugeQuarantined ;;
                 (if hDiagnostic h then
                    e ← submitDiagnostic (mkDiagnostic hSelf id (brRef r) (brGeneration r) ev);
                    match e with
                    | None => mret ()
                    | Some text =>
                        onQuarantine (insert id (set_snapshot (set_export DiagnosticExportPending text None) retained)) ;;
                        hnote (HostCounted "nhsk_diagnostic_submit_errors_total")
                    end
                  else mret ()) ;;
                 mret None
             end
  end.

(** A result of the exporter: battle, reference, receipt and error text, with the
    error of the runner. *)
Definition applyDiagnosticResult (source : ServiceRef) (payload : option (BattleID * ServiceRef * DiagnosticReceipt * string * option string)) : handler :=
  if negb (isLocalAdmin source) then mret (Some HUnauthorized)
  else match payload with
       | None => mret (Some HInvalidEnvelope)
       | Some (id, ref, receipt, text, runnerErr) =>
           let text := match runnerErr with Some e => if bool_decide (text = "") then e else text | None => text end in
           q ← hget quarantine;
           match q !! id with
           | None => mret None
           | Some retained =>
               if bool_decide (qsRef (rtSnapshot retained) ≠ ref) then mret None
               else
                 let s := rtSnapshot retained in
                 let s := if negb (bool_decide (text = "")) then set_export DiagnosticExportFailed text (qsReceipt s) s
                          else if negb (validDiagnosticReceipt receipt) || negb (drBattleID receipt =? id) || bool_decide (drRef receipt ≠ ref)
                          then set_export DiagnosticExportFailed "nhsk: invalid diagnostic artifact" (qsReceipt s) s
                          else set_export DiagnosticExported "" (Some receipt) s in
                 onQuarantine (insert id (mkRetained s (rtEvidence retained) (releasePending retained))) ;; mret None
           end
       end.

Definition listQuarantined (source : ServiceRef) : handler :=
  if negb (isLocalAdmin source) then mret (Some HUnauthorized)
  else h ← hget (λ h, h); hreply (QuarantinedAnswer (hsQuarantined (hostSnapshot h))).

Definition retryDiagnostic (source : ServiceRef) (payload : option (BattleID * ServiceRef)) : handler :=
  if negb (isLocalAdmin source) then mret (Some HUnauthorized)
  else
    h ← hget (λ h, h);
    let refuse text := hreply (HostResult false text 0) in
    match payload with
    | None => refuse (sentinel_text ErrServiceNotFound)
    | Some (id, ref) =>
        match quarantine h !! id with
        | None => refuse (sentinel_text ErrServiceNotFound)
        | Some retained =>
            let s := rtSnapshot retained in
            if bool_decide (qsRef s ≠ ref) then refuse (sentinel_text ErrServiceNotFound)
            else if bool_decide (qsExportStatus s = DiagnosticExported) then hreply (HostResult true "" 0)
            else if negb (hDiagnostic h) then refuse "nhsk: invalid diagnostic artifact"
            else
              e ← submitDiagnostic (mkDiagnostic hSelf id ref (qsGeneration s) (rtEvidence retained));
              onQuarantine (insert id (set_snapshot (set_export DiagnosticExportPending (default "" e) (qsReceipt s)) retained)) ;;
              match e with Some text => refuse text | None => hreply (HostResult true "" 0) end
        end
    end.

Definition releaseQuarantined (source : ServiceRef) (payload : option DiagnosticReceipt) : handler :=
  if negb (isLocalAdmin source) then mret (Some HUnauthorized)
  else match payload with
       | None => mret (Some HInvalidEnvelope)
       | Some receipt =>
           h ← hget (λ h, h);
           let mismatch := hreply (HostResult false "nhsk: diagnostic receipt mismatch" 0) in
           match quarantine h !! drBattleID receipt with
           | None => mismatch
           | Some retained =>
               match qsReceipt (rtSnapshot retained) with
               | None => mismatch
               | Some published =>
                   if negb (sameDiagnosticReceipt published receipt) then mismatch
                   else if releasePending retained then hreply (HostResult true "" 0)
                   else
                     op ← newOperation;
                     e ← sendFactory (MStop (mkStopInternal op (drBattleID receipt) (drRef receipt) hSelf true false 0));
                     match e with
                     | Some e => hreply (HostResult false (errorText e) 0)
                     | None =>
                         onQuarantine (insert (drBattleID receipt) (mkRetained (rtSnapshot retained) (rtEvidence retained) true)) ;;
                         hreply (HostResult true "" op)
                     end
               end
           end
       end.

(** *** The mailbox *)

Inductive hostCommand :=
| BeginCreateBattle (p : option CreateBattleRequest)
| GetCreateBattleOperation (p : option Z)
| ResolveBattle (p : option BattleID)
| RequestDeleteBattle (p : option (BattleID * ServiceRef * Z))
| GetHostSnapshot
| ApplyBattleCreated (p : option applyBattleCreated)
| ApplyBattleStopped (p : option applyBattleStopped)
| ReportBattleQuarantined (p : option battleQuarantineReport)
| ApplyDiagnosticExportResult (p : option (BattleID * ServiceRef * DiagnosticReceipt * string * option string))
| ListQuarantined
| RetryDiagnostic (p : option (BattleID * ServiceRef))
| ReleaseQuarantined (p : option DiagnosticReceipt)
| OtherHostCommand.

Definition handleHost (source : ServiceRef) (c : hostCommand) : handler :=
  match c with
  | BeginCreateBattle p => beginCreate source p
  | GetCreateBattleOperation p => getOperation p
  | ResolveBattle p => resolve p
  | RequestDeleteBattle p => deleteBattle p
  | GetHostSnapshot => h ← hget (λ h, h); hreply (SnapshotAnswer (hostSnapshot h))
  | ApplyBattleCreated p => applyCreated source p
  | ApplyBattleStopped p => applyStopped source p
  | ReportBattleQuarantined p => applyQuarantined source p
  | ApplyDiagnosticExportResult p => applyDiagnosticResult source p
  | ListQuarantined => listQuarantined source
  | RetryDiagnostic p => retryDiagnostic source p
  | ReleaseQuarantined p => releaseQuarantined source p
  | OtherHostCommand => mret (Some HUnknownCommand)
  end.
End Host.
