(* ===== verification/NhskHostFacts.v ===== *)
(** * The host of the card battles: bindings, capacity and evidence *)

From stdpp Require Import prelude gmap strings list.
From Stdlib Require Import ZArith Lia.
From S2P Require Import Prelude Types Game NhskBattle NhskQuarantine NhskHost.

Local Open Scope Z_scope.

(** ** Counting *)

Definition weight (phase : option HostOperationPhase) (ref : option ServiceRef) : Z :=
  (if ref then 1 else 0) + (if bool_decide (phase = Some HostOperationCreating) then 1 else 0).
Definition total (h : NHSKHostService) : Z := Z.of_nat (size (active h)) + creatingCount h.

Lemma map_size_split {A} (m : gmap BattleID A) i : Z.of_nat (size m) = Z.of_nat (size (delete i m)) + (if m !! i then 1 else 0).
Proof.
  destruct (m !! i) as [x|] eqn:Hi.
  - rewrite <- (insert_delete_id m i x Hi) at 1. rewrite map_size_insert_None by apply lookup_delete_eq. lia.
  - rewrite delete_id by done. lia.
Qed.
Definition creatingOf (m : gmap BattleID HostOperationPhase) : Z := Z.of_nat (size (filter (λ e : BattleID * HostOperationPhase, e.2 = HostOperationCreating) m)).
Lemma creating_split m i : creatingOf m = creatingOf (delete i m) + (if bool_decide (m !! i = Some HostOperationCreating) then 1 else 0).
Proof.
  unfold creatingOf. rewrite (map_size_split (filter _ m) i), <- map_filter_delete. f_equal.
  destruct (filter _ m !! i) as [x|] eqn:Hf.
  - apply map_lookup_filter_Some in Hf as [Hi Hx]. cbn in Hx. subst x. by rewrite bool_decide_true.
  - rewrite bool_decide_false; [done|]. intros Hi. rewrite map_lookup_filter_None in Hf. destruct Hf as [Hf|Hf]; [congruence|]. by apply (Hf _ Hi).
Qed.
Lemma total_split h i : total h = Z.of_nat (size (delete i (active h))) + creatingOf (delete i (states h)) + weight (states h !! i) (active h !! i).
Proof. unfold total, weight. change (creatingCount h) with (creatingOf (states h)). rewrite (map_size_split (active h) i), (creating_split (states h) i). lia. Qed.

(** ** The invariant *)

(** A number that is being created has no service yet; one that is completed,
    stopping or quarantined has. *)
Definition bound (phase : option HostOperationPhase) (ref : option ServiceRef) : Prop :=
  match phase with
  | None | Some HostOperationCreating => ref = None
  | Some HostOperationFailed => False
  | Some _ => is_Some ref
  end.

Record hostOk (h : NHSKHostService) (sent : list createBattleInternal) : Prop := {
  ho_bound : ∀ b, bound (states h !! b) (active h !! b);
  ho_total : total h ≤ hMax h < 2 ^ 32;
  ho_sent : ∀ r, r ∈ sent → 0 < ciOperationID r ≤ nextOp h
    ∧ (battleOperations h !! cbBattleID (ciRequest r) = Some (ciOperationID r) → states h !! cbBattleID (ciRequest r) = Some HostOperationCreating);
  ho_requests : ∀ b r, createRequests h !! b = Some r → cbBattleID r = b;
  ho_operations : ∀ b op, battleOperations h !! b = Some op → b ≠ 0 ∧ 0 < op ≤ nextOp h;
  ho_next : 0 ≤ nextOp h;
  ho_replacements : ∀ b op, replacements h !! b = Some op → 0 ≤ op ≤ nextOp h;
  ho_zero : active h !! 0 = None
}.

(** A change that touches one number only. *)
Record sameBut (i : BattleID) (h h' : NHSKHostService) : Prop := {
  sb_max : hMax h' = hMax h;
  sb_next : nextOp h ≤ nextOp h';
  sb_active : delete i (active h') = delete i (active h);
  sb_states : delete i (states h') = delete i (states h);
  sb_requests : delete i (createRequests h') = delete i (createRequests h);
  sb_operations : delete i (battleOperations h') = delete i (battleOperations h);
  sb_replacements : delete i (replacements h') = delete i (replacements h)
}.

Lemma delete_eq_lookup {A} (m m' : gmap BattleID A) i b : delete i m' = delete i m → b ≠ i → m' !! b = m !! b.
Proof. intros H Hb. rewrite <- (lookup_delete_ne m i b), <- (lookup_delete_ne m' i b) by done. by rewrite H. Qed.

Lemma hostOk_step i h h' sent sent' : hostOk h sent → sameBut i h h' → i ≠ 0 →
  bound (states h' !! i) (active h' !! i) →
  weight (states h' !! i) (active h' !! i) ≤ weight (states h !! i) (active h !! i) + (hMax h - total h) →
  (∀ r, createRequests h' !! i = Some r → cbBattleID r = i) →
  (∀ op, battleOperations h' !! i = Some op → 0 < op ≤ nextOp h') →
  (∀ op, replacements h' !! i = Some op → 0 ≤ op ≤ nextOp h') →
  (∀ r, r ∈ sent' → r ∈ sent ∨ 0 < ciOperationID r ≤ nextOp h' ∧ (cbBattleID (ciRequest r) = i ∨ cbBattleID (ciRequest r) = 0)) →
  (∀ r, r ∈ sent' → cbBattleID (ciRequest r) = i → battleOperations h' !! i = Some (ciOperationID r) → states h' !! i = Some HostOperationCreating) →
  hostOk h' sent'.
Proof.
  intros [H1 H2 H3 H4 H5 H6 H7 H8] [S1 S2 S3 S4 S5 S6 S7] Hi Hb Hw Hr Ho Hp Hs Hc. split.
  - intros b. destruct (decide (b = i)) as [->|Hne]; [done|]. by rewrite (delete_eq_lookup _ _ _ _ S3), (delete_eq_lookup _ _ _ _ S4).
  - rewrite S1. split; [|lia]. rewrite (total_split h' i), S3, S4. rewrite (total_split h i) in Hw. lia.
  - intros r Hin. destruct (decide (cbBattleID (ciRequest r) = i)) as [He|Hne].
    + split; [destruct (Hs r Hin) as [Hold|[? _]]; [destruct (H3 r Hold); lia|done]|]. rewrite He. by apply Hc.
    + rewrite (delete_eq_lookup _ _ _ _ S6), (delete_eq_lookup _ _ _ _ S4) by done. destruct (Hs r Hin) as [Hold|[? [?|Hz]]]; [|done|].
      * destruct (H3 r Hold) as [? ?]. split; [lia|done].
      * split; [done|]. intros Hx. rewrite Hz in Hx. by apply H5 in Hx as [? _].
  - intros b r. destruct (decide (b = i)) as [->|Hne]; [apply Hr|]. rewrite (delete_eq_lookup _ _ _ _ S5) by done. apply H4.
  - intros b op. destruct (decide (b = i)) as [->|Hne]; [intros; split; [done|by apply Ho]|]. rewrite (delete_eq_lookup _ _ _ _ S6) by done.
    intros Hx. destruct (H5 _ _ Hx). split; [done|lia].
  - lia.
  - intros b op. destruct (decide (b = i)) as [->|Hne]; [apply Hp|]. rewrite (delete_eq_lookup _ _ _ _ S7) by done. intros Hx. specialize (H7 _ _ Hx). lia.
  - by rewrite (delete_eq_lookup _ _ _ _ S3).
Qed.

(** What the operations and the quarantine are plays no part in it; operation
    numbers may be used up. *)
Lemma hostOk_quarantine h q sent : hostOk h sent → hostOk (set_quarantine q h) sent.
Proof. intros []. by split. Qed.
Lemma hostOk_nextOp mx fa nx nx' ac ss os cr bo re di qu sent : hostOk (mkHost mx fa nx ac ss os cr bo re di qu) sent → nx ≤ nx' →
  hostOk (mkHost mx fa nx' ac ss os cr bo re di qu) sent.
Proof.
  intros [H1 H2 H3 H4 H5 H6 H7 H8] Hn. cbn in *. split; cbn; [done|done| |done| | | |done].
  - intros r Hr. destruct (H3 r Hr). split; [lia|done].
  - intros b op Hx. destruct (H5 b op Hx). split; [done|lia].
  - lia.
  - intros b op Hx. specialize (H7 b op Hx). lia.
Qed.

(** A number with a service is not waiting for a creation. *)
Lemma bound_not_creating h sent i r : hostOk h sent → is_Some (active h !! i) → r ∈ sent → cbBattleID (ciRequest r) = i →
  battleOperations h !! i ≠ Some (ciOperationID r).
Proof.
  intros Hk Ha Hr He Hx. subst i. destruct (ho_sent _ _ Hk r Hr) as [_ Hs]. specialize (Hs Hx). pose proof (ho_bound _ _ Hk (cbBattleID (ciRequest r))) as Hb.
  rewrite Hs in Hb. cbn in Hb. rewrite Hb in Ha. by destruct Ha.
Qed.
Lemma occupied_exact h sent : hostOk h sent → occupied h = total h.
Proof.
  intros [_ H2 _ _ _ _ _ _]. unfold occupied, u32h, total in *. assert (0 ≤ creatingCount h) by (unfold creatingCount; lia).
  rewrite (Z.mod_small (Z.of_nat _)), (Z.mod_small (creatingCount h)) by lia. apply Z.mod_small. lia.
Qed.

(** ** The handlers *)

Definition createsOf (l : list hostEvent) : list createBattleInternal := omap (λ e, match e with FactorySent (MCreate r) _ => Some r | _ => None end) l.
Lemma createsOf_note l e : createsOf (l ++ [e]) = createsOf l ++ match e with FactorySent (MCreate r) _ => [r] | _ => [] end.
Proof. unfold createsOf. rewrite omap_app. f_equal. by destruct e as [[] | | | | |]. Qed.

Definition worldOk (w : hworld) : Prop := hostOk (host w) (createsOf (hlog w)).

(** [hwp m w Q]: after [m] from [w], [Q]. *)
Definition hwp {X} (m : H X) (w : hworld) (Q : hworld → Prop) : Prop := Q (m w).1.
Lemma hwp_modify {Y} f (k : unit → H Y) w Q : hwp (k ()) (mkHW (f (host w)) (hlog w)) Q → hwp (hmodify f ≫= k) w Q.
Proof. done. Qed.
Lemma hwp_get {X Y} (f : NHSKHostService → X) (k : X → H Y) w Q : hwp (k (f (host w))) w Q → hwp (hget f ≫= k) w Q.
Proof. done. Qed.
Lemma hwp_note {Y} e (k : unit → H Y) w Q : hwp (k ()) (mkHW (host w) (hlog w ++ [e])) Q → hwp (hnote e ≫= k) w Q.
Proof. done. Qed.
(** The same with the new state spelled out, so that states stay records of fields. *)
Lemma hwp_modify_to {Y} f (k : unit → H Y) h h' l Q : f h = h' → hwp (k ()) (mkHW h' l) Q → hwp (hmodify f ≫= k) (mkHW h l) Q.
Proof. by intros <-. Qed.
Lemma hwp_get_at {X Y} (f : NHSKHostService → X) (k : X → H Y) h l x Q : f h = x → hwp (k x) (mkHW h l) Q → hwp (hget f ≫= k) (mkHW h l) Q.
Proof. by intros <-. Qed.
Lemma hwp_note_at {Y} e (k : unit → H Y) h l Q : hwp (k ()) (mkHW h (l ++ [e])) Q → hwp (hnote e ≫= k) (mkHW h l) Q.
Proof. done. Qed.
Lemma hwp_ret {X} (x : X) w (Q : hworld → Prop) : Q w → hwp (mret x) w Q.
Proof. done. Qed.
Lemma hwp_assoc {X Y Z} (m : H X) (k : X → H Y) (j : Y → H Z) w Q : hwp (m ≫= λ x, k x ≫= j) w Q → hwp ((m ≫= k) ≫= j) w Q.
Proof. unfold hwp, mbind, h_bind. by destruct (m w). Qed.

(** A note that asks for no creation. *)
Lemma worldOk_note h l e : hostOk h (createsOf l) → (∀ r a, e ≠ FactorySent (MCreate r) a) → worldOk (mkHW h (l ++ [e])).
Proof. intros Hk He. unfold worldOk. cbn. rewrite createsOf_note. destruct e as [[r|r] a| | | | |]; [by destruct (He r a)|by rewrite app_nil_r..]. Qed.

Section Handlers.
Context {E : HostEnv}.

Lemma keeps_hreply v w : worldOk w → hwp (hreply v) w worldOk.
Proof. intros H. by apply worldOk_note. Qed.
Lemma hwp_send {Y} m (k : error rtError → H Y) w Q : (∀ a, hwp (k a) (mkHW (host w) (hlog w ++ [FactorySent m a])) Q) → hwp (sendFactory m ≫= k) w Q.
Proof. intros H. apply H. Qed.
Lemma hwp_now {Y} (k : Time → H Y) w Q : (∀ t, hwp (k t) (mkHW (host w) (hlog w ++ [HostLooked t])) Q) → hwp (hnow ≫= k) w Q.
Proof. intros H. apply H. Qed.
Lemma hwp_diagnostic {Y} d (k : error string → H Y) w Q : (∀ a, hwp (k a) (mkHW (host w) (hlog w ++ [DiagnosticSubmitted d a])) Q) → hwp (submitDiagnostic d ≫= k) w Q.
Proof. intros H. apply H. Qed.
Lemma hwp_send_at {Y} m (k : error rtError → H Y) h l Q : (∀ a, hwp (k a) (mkHW h (l ++ [FactorySent m a])) Q) → hwp (sendFactory m ≫= k) (mkHW h l) Q.
Proof. intros H. apply H. Qed.
Lemma hwp_newOperation_at {Y} (k : Z → H Y) mx fa nx ac ss os cr bo re di qu l Q : 0 ≤ nx → nx + 1 < 2 ^ 64 →
  hwp (k (nx + 1)) (mkHW (mkHost mx fa (nx + 1) ac ss os cr bo re di qu) l) Q → hwp (newOperation ≫= k) (mkHW (mkHost mx fa nx ac ss os cr bo re di qu) l) Q.
Proof.
  intros H0 H1 H. unfold newOperation. apply hwp_assoc. eapply hwp_modify_to; [reflexivity|]. eapply hwp_get_at; [reflexivity|].
  unfold set_nextOp. cbn [nextOp hMax hFactory active states operations createRequests battleOperations replacements hDiagnostic quarantine].
  assert (u64 (nx + 1) = nx + 1) as -> by (apply u64_small; unfold is_u64, u64_mod; lia). exact H.
Qed.

Lemma elem_app_one {A} (l : list A) x y : x ∈ l ++ [y] → x ∈ l ∨ x = y.
Proof. rewrite elem_of_app, list_elem_of_singleton. done. Qed.

Lemma hwp_seq {X Y} (m : H X) (k : X → H Y) w (P Q : hworld → Prop) : hwp m w P → (∀ x w', P w' → hwp (k x) w' Q) → hwp (m ≫= k) w Q.
Proof. unfold hwp, mbind, h_bind. destruct (m w) as [w' x]. intros H Hk. by apply Hk. Qed.
Lemma keeps_quarantine f w : worldOk w → hwp (onQuarantine f) w worldOk.
Proof. intros H. by apply hostOk_quarantine. Qed.

(** Steps that only read, note and change the quarantine. *)
Ltac keep_quiet :=
  repeat first
    [ progress cbv zeta
    | assumption
    | intros ?
    | apply hwp_ret
    | apply keeps_hreply
    | apply keeps_quarantine
    | apply worldOk_note; [|by intros; discriminate]
    | lazymatch goal with
      | |- hwp ((_ ≫= _) ≫= _) _ _ => apply hwp_assoc
      | |- hwp (hget _ ≫= _) _ _ => apply hwp_get
      | |- hwp (hnote _ ≫= _) _ _ => apply (hwp_seq _ _ _ worldOk); [by apply worldOk_note|]
      | |- hwp (hnote _) _ _ => by apply worldOk_note
      | |- hwp (sendFactory _ ≫= _) _ _ => apply (hwp_seq _ _ _ worldOk); [by apply worldOk_note|]
      | |- hwp (submitDiagnostic _ ≫= _) _ _ => apply (hwp_seq _ _ _ worldOk); [by apply worldOk_note|]
      | |- hwp (onQuarantine _ ≫= _) _ _ => apply (hwp_seq _ _ _ worldOk)
      | |- hwp ((if ?b then _ else _) ≫= _) _ _ => destruct b
      | |- hwp (match ?x with _ => _ end ≫= _) _ _ => destruct x
      | |- hwp (if ?b then _ else _) _ _ => destruct b
      | |- hwp (match ?x with _ => _ end) _ _ => destruct x
      end ].

(** The parts of [hostOk_step] for explicit changes at one number. *)
Ltac flat :=
  cbv beta iota delta [host hlog hMax hFactory nextOp active states operations createRequests battleOperations replacements hDiagnostic quarantine
       set_nextOp set_active set_states set_operations set_createRequests set_battleOperations set_replacements set_quarantine] in *.
Ltac flat_goal :=
  cbv beta iota delta [host hlog hMax hFactory nextOp active states operations createRequests battleOperations replacements hDiagnostic quarantine
       set_nextOp set_active set_states set_operations set_createRequests set_battleOperations set_replacements set_quarantine].
Ltac flatten w := let h := fresh "h" in let l := fresh "l" in destruct w as [h l]; destruct h as [mx fa nx ac ss os cr bo re di qu]; flat.
Ltac hmod :=
  repeat lazymatch goal with
    | |- hwp ((_ ≫= _) ≫= _) _ _ => apply hwp_assoc
    | |- hwp (hmodify _ ≫= _) _ _ => eapply hwp_modify_to; [flat_goal; reflexivity|]
    | |- hwp (hget _ ≫= _) _ _ => eapply hwp_get_at; [flat_goal; reflexivity|]
    | |- hwp (hnote _ ≫= _) _ _ => apply hwp_note_at
    end.
Ltac open_host := unfold forgetCreate, onOperations, onStates, onActive, onCreateRequests, onBattleOperations, onReplacements, onQuarantine.
Ltac at_number :=
  flat;
  rewrite ?delete_insert_eq, ?delete_delete_eq, ?lookup_delete_eq, ?lookup_insert_eq.
Ltac weigh := unfold weight; repeat case_bool_decide; try congruence; lia.
Ltac one_number := split; at_number; try done; lia.

Lemma keeps_createFresh r w (i := cbBattleID r) : worldOk w → i ≠ 0 → nextOp (host w) + 1 < 2 ^ 64 → states (host w) !! i = None →
  hwp (createFresh r) w worldOk.
Proof.
  intros Hw Hi Hn Hs. unfold createFresh. apply hwp_get. cbv zeta. pose proof (ho_next _ _ Hw) as H0. pose proof (ho_bound _ _ Hw i) as Hb. rewrite Hs in Hb. cbn in Hb.
  destruct (Z.leb_spec (hMax (host w)) (occupied (host w))) as [Hc|Hc]; [by apply keeps_hreply|]. rewrite (occupied_exact _ _ Hw) in Hc.
  flatten w. apply hwp_newOperation_at; [done..|]. open_host. hmod.
  apply hwp_send_at. intros a. fold i. assert (∀ x, x ∈ createsOf l ++ [mkCreateInternal (nx + 1) r hSelf] →
    x ∈ createsOf l ∨ 0 < ciOperationID x ≤ nx + 1 ∧ (cbBattleID (ciRequest x) = i ∨ cbBattleID (ciRequest x) = 0)) as Hnew.
  { intros x Hx. destruct (elem_app_one _ _ _ Hx) as [?| ->]; [by left|right]. cbn. split; [lia|by left]. }
  assert (∀ op, re !! i = Some op → 0 ≤ op ≤ nx + 1) as Hre by (intros op Hx; pose proof (ho_replacements _ _ Hw i op Hx) as Hz; flat; lia).
  destruct a as [e|]; cbv beta iota zeta; [hmod|]; apply keeps_hreply; unfold worldOk; flat; rewrite createsOf_note.
  - eapply (hostOk_step i); [exact Hw|one_number|done|..]; at_number; [exact Hb|weigh|done|done|exact Hre|exact Hnew|done].
  - eapply (hostOk_step i); [exact Hw|one_number|done|..]; at_number; [exact Hb|weigh| | |exact Hre|exact Hnew|done].
    + by intros x [= <-].
    + intros op [= <-]. lia.
Qed.

(** A number whose service exists, and keeps existing. *)
Lemma keeps_bound i phase w h' l' : worldOk w → i ≠ 0 → is_Some (active (host w) !! i) → phase ≠ HostOperationCreating → phase ≠ HostOperationFailed →
  sameBut i (host w) h' → createsOf l' = createsOf (hlog w) → states h' !! i = Some phase → active h' !! i = active (host w) !! i →
  (∀ r, createRequests h' !! i = Some r → cbBattleID r = i) →
  (∀ op, battleOperations h' !! i = Some op → battleOperations (host w) !! i = Some op ∨ nextOp (host w) < op ≤ nextOp h') →
  (∀ op, replacements h' !! i = Some op → replacements (host w) !! i = Some op ∨ op = nextOp h') → worldOk (mkHW h' l').
Proof.
  intros Hw Hi Ha Hp1 Hp2 Hs Hl Hst Hac Hr Ho Hre. unfold worldOk. cbn [host hlog]. rewrite Hl. pose proof (sb_next _ _ _ Hs) as Hnx.
  apply (hostOk_step i (host w) h' (createsOf (hlog w))); rewrite ?Hst, ?Hac; [exact Hw|done|done| | |done| | |by left|].
  - destruct phase; done.
  - pose proof (ho_total _ _ Hw) as Ht. pose proof (ho_bound _ _ Hw i) as Hb. unfold weight. rewrite (bool_decide_false (Some phase = _)) by congruence.
    case_bool_decide; lia.
  - intros op Hop. destruct (Ho op Hop) as [Hop'|?]; [destruct (ho_operations _ _ Hw _ _ Hop'); lia|]. pose proof (ho_next _ _ Hw). lia.
  - intros op Hop. pose proof (ho_next _ _ Hw). destruct (Hre op Hop) as [Hop'| ->]; [specialize (ho_replacements _ _ Hw _ _ Hop'); lia|lia].
  - intros r Hin He Hop. exfalso. destruct (Ho _ Hop) as [Hop'|Hop']; [by apply (bound_not_creating _ _ i r Hw)|].
    destruct (ho_sent _ _ Hw r Hin). lia.
Qed.

Lemma keeps_replacement r w (i := cbBattleID r) : worldOk w → i ≠ 0 → nextOp (host w) + 1 < 2 ^ 64 → states (host w) !! i = Some HostOperationCompleted →
  hwp (beginLegacyReplacement r) w worldOk.
Proof.
  intros Hw Hi Hn Hs. pose proof (ho_next _ _ Hw) as H0. pose proof (ho_bound _ _ Hw i) as Hb. rewrite Hs in Hb. cbn in Hb.
  unfold beginLegacyReplacement. cbv zeta. flatten w. eapply hwp_get_at; [flat_goal; reflexivity|]. apply hwp_newOperation_at; [done..|].
  open_host. hmod. apply hwp_send_at. intros a. fold i.
  destruct a as [e|]; cbv beta iota zeta; [hmod|]; apply keeps_hreply; flat.
  - eapply (keeps_bound i HostOperationCompleted); [exact Hw|done|exact Hb|done|done|one_number|flat; by rewrite createsOf_note, app_nil_r|..]; by at_number.
  - eapply (keeps_bound i HostOperationStopping); [exact Hw|done|exact Hb|done|done|one_number|flat; by rewrite createsOf_note, app_nil_r|..]; at_number; [done|done| | |].
    + by intros x [= <-].
    + intros op [= <-]. right. lia.
    + intros op [= <-]. by right.
Qed.

Lemma keeps_beginCreate source p w : worldOk w → nextOp (host w) + 1 < 2 ^ 64 → hwp (beginCreate source p) w worldOk.
Proof.
  intros Hw Hn. unfold beginCreate. destruct p as [r|]; [|by apply keeps_hreply]. cbv zeta. destruct (Z.eqb_spec (cbBattleID r) 0) as [|Hi]; [by apply keeps_hreply|].
  destruct (_ && _); [by apply keeps_hreply|]. apply hwp_get. destruct (states (host w) !! cbBattleID r) as [phase|] eqn:Hs; [|by apply keeps_createFresh].
  assert (phase ≠ HostOperationFailed) as Hp.
  { intros ->. pose proof (ho_bound _ _ Hw (cbBattleID r)) as Hb. by rewrite Hs in Hb. }
  destruct phase; try done; (destruct (_ && _); [by apply keeps_hreply|]); (destruct (_ && _) eqn:Hc; [|by apply keeps_hreply]); try done.
  by apply keeps_replacement.
Qed.

Lemma keeps_applyCreated source p w : worldOk w →
  (∀ r, p = Some r → source = hFactory (host w) → ∃ m, m ∈ createsOf (hlog w) ∧ ciOperationID m = acOperationID r ∧ cbBattleID (ciRequest m) = acBattleID r) →
  hwp (applyCreated source p) w worldOk.
Proof.
  intros Hw Hsent. unfold applyCreated. apply hwp_get. case_bool_decide as Hsrc; [by apply hwp_ret|]. destruct p as [r|]; [|by apply hwp_ret].
  cbv zeta. destruct (operations (host w) !! acOperationID r) as [operation|]; [|by apply hwp_ret].
  destruct (createRequests (host w) !! acBattleID r) as [request|]; [|by apply hwp_ret].
  destruct (_ || _) eqn:Hg; [by apply hwp_ret|]. rewrite !orb_false_iff, !negb_false_iff, !Z.eqb_eq in Hg. destruct Hg as [[_ Hop] _].
  destruct (Hsent r eq_refl) as (m & Hm & Hmo & Hmb); [by destruct (decide (source = hFactory (host w)))|].
  destruct (ho_sent _ _ Hw m Hm) as [Hmp Hmc]. rewrite Hmb, Hmo in *. destruct (battleOperations (host w) !! acBattleID r) as [op|] eqn:Hbo; cbn in Hop; [|lia].
  subst op. specialize (Hmc eq_refl). destruct (ho_operations _ _ Hw _ _ Hbo) as [Hi _]. pose proof (ho_bound _ _ Hw (acBattleID r)) as Hb. rewrite Hmc in Hb. cbn in Hb.
  pose proof (ho_total _ _ Hw) as Ht. flatten w. open_host.
  pose proof (ho_replacements _ _ Hw (acBattleID r)) as Hre. flat.
  destruct (_ || _); hmod; apply hwp_ret; unfold worldOk; flat.
  - eapply (hostOk_step (acBattleID r)); [exact Hw|one_number|done|..]; at_number; [exact Hb|weigh|done|done|exact Hre|by left|done].
  - eapply (hostOk_step (acBattleID r)); [exact Hw|one_number|done|..]; at_number; [by eexists|rewrite Hmc, Hb; weigh|done|done|exact Hre|by left|done].
Qed.

Lemma keeps_deleteBattle p w : worldOk w → nextOp (host w) + 1 < 2 ^ 64 → hwp (deleteBattle p) w worldOk.
Proof.
  intros Hw Hn. unfold deleteBattle. destruct p as [[[id wanted] generation]|]; [|by apply keeps_hreply]. cbv zeta.
  destruct (Z.eqb_spec id 0) as [|Hi]; [by apply keeps_hreply|]. apply hwp_get. destruct (active (host w) !! id) as [ref|] eqn:Ha; [|by apply keeps_hreply].
  destruct (_ && _); [by apply keeps_hreply|]. destruct (quarantine (host w) !! id) as [retained|].
  { apply hwp_now. intros t. unfold onQuarantine. apply hwp_modify, keeps_hreply, worldOk_note; [by apply hostOk_quarantine|done]. }
  case_bool_decide; [by apply keeps_hreply|]. pose proof (ho_next _ _ Hw) as H0. flatten w. open_host. hmod. apply hwp_newOperation_at; [done..|].
  apply hwp_send_at. intros a.
  destruct a as [e|]; cbv beta iota zeta; [hmod|]; apply keeps_hreply; flat.
  - eapply (keeps_bound id HostOperationCompleted); [exact Hw|done|by flat|done|done|one_number|flat; by rewrite createsOf_note, app_nil_r|..]; at_number;
      [done|done|by apply (ho_requests _ _ Hw)|by left|by left].
  - eapply (keeps_bound id HostOperationStopping); [exact Hw|done|by flat|done|done|one_number|flat; by rewrite createsOf_note, app_nil_r|..]; at_number;
      [done|done|by apply (ho_requests _ _ Hw)|by left|by left].
Qed.

Lemma keeps_replacementStopped op r w (i := asBattleID r) : worldOk w → is_Some (active (host w) !! i) → default 0 (replacements (host w) !! i) = op → op ≠ 0 →
  hwp (replacementStopped op r) w worldOk.
Proof.
  intros Hw Ha Hop Hz. assert (i ≠ 0) as Hi by (intros Hi; rewrite Hi, (ho_zero _ _ Hw) in Ha; by destruct Ha).
  assert (0 < op ≤ nextOp (host w)) as Hb.
  { destruct (replacements (host w) !! i) as [o|] eqn:Hr; cbn in Hop; [|done]. pose proof (ho_replacements _ _ Hw _ _ Hr). lia. }
  pose proof (ho_bound _ _ Hw i) as Hbd. pose proof (ho_total _ _ Hw) as Ht. pose proof (ho_requests _ _ Hw i) as Hrq. pose proof (ho_operations _ _ Hw i) as Hbo.
  unfold replacementStopped. fold i. flatten w. eapply hwp_get_at; [reflexivity|]. cbv zeta. open_host. destruct (negb _); hmod.
  { apply hwp_ret. eapply (keeps_bound i HostOperationCompleted); [exact Hw|done|exact Ha|done|done|one_number|done|..]; by at_number. }
  unfold submitCreate. apply hwp_send_at. intros a. flat.
  set (req := default zeroCreateRequest (cr !! i)). assert (cbBattleID req = i ∨ cbBattleID req = 0) as Hreq.
  { unfold req. destruct (cr !! i) as [q|]; [left; by apply Hrq|by right]. }
  assert (∀ x, x ∈ createsOf l ++ [mkCreateInternal op req hSelf] →
    x ∈ createsOf l ∨ 0 < ciOperationID x ≤ nx ∧ (cbBattleID (ciRequest x) = i ∨ cbBattleID (ciRequest x) = 0)) as Hnew.
  { intros x Hx. destruct (elem_app_one _ _ _ Hx) as [?| ->]; [by left|by right]. }
  assert (weight (Some HostOperationCreating) None ≤ weight (ss !! i) (ac !! i)) as Hwt.
  { unfold weight. destruct Ha as [? ->]. case_bool_decide; case_bool_decide; lia || done. }
  assert (0 ≤ weight (ss !! i) (ac !! i)) as Hw0 by (unfold weight; repeat case_match; lia).
  destruct a as [e|]; cbv beta iota zeta; hmod; apply hwp_ret; unfold worldOk; flat; rewrite createsOf_note.
  - eapply (hostOk_step i); [exact Hw|one_number|done|..]; at_number; [done| |done|done|done|exact Hnew|done]. change (weight None None) with 0. lia.
  - eapply (hostOk_step i); [exact Hw|one_number|done|..]; at_number; [done|lia|exact Hrq|by intros o Ho; destruct (Hbo o Ho)|done|exact Hnew|done].
Qed.

(** The number is given up with its service. *)
Lemma keeps_forget i w h' : worldOk w → i ≠ 0 → is_Some (active (host w) !! i) → sameBut i (host w) h' → states h' !! i = None → active h' !! i = None →
  createRequests h' !! i = createRequests (host w) !! i → battleOperations h' !! i = battleOperations (host w) !! i →
  replacements h' !! i = replacements (host w) !! i → nextOp h' = nextOp (host w) → hostOk h' (createsOf (hlog w)).
Proof.
  intros Hw Hi Ha Hs Hst Hac Hr Ho Hre Hn. apply (hostOk_step i (host w) h' (createsOf (hlog w))); rewrite ?Hst, ?Hac, ?Hr, ?Ho, ?Hre, ?Hn; [exact Hw|done|done|done| | | | |by left|].
  - pose proof (ho_total _ _ Hw) as Ht. assert (0 ≤ weight (states (host w) !! i) (active (host w) !! i)) by (unfold weight; repeat case_match; lia).
    change (weight None None) with 0. lia.
  - apply (ho_requests _ _ Hw).
  - intros op Hop. by destruct (ho_operations _ _ Hw _ _ Hop).
  - apply (ho_replacements _ _ Hw).
  - intros r Hin He Hop. exfalso. by apply (bound_not_creating _ _ i r Hw).
Qed.

Lemma keeps_applyStopped source p w : worldOk w → hwp (applyStopped source p) w worldOk.
Proof.
  intros Hw. unfold applyStopped. apply hwp_get. case_bool_decide; [by apply hwp_ret|]. destruct p as [r|]; [|by apply hwp_ret]. cbv zeta.
  case_bool_decide as Ha; [by apply hwp_ret|]. assert (active (host w) !! asBattleID r = Some (asRef r)) as Ha' by (by destruct (decide (active (host w) !! asBattleID r = Some (asRef r)))).
  assert (asBattleID r ≠ 0) as Hi by (intros Hi; rewrite Hi, (ho_zero _ _ Hw) in Ha'; done).
  destruct (_ && _) eqn:Hrep.
  { rewrite andb_true_iff, negb_true_iff, Z.eqb_neq in Hrep. apply keeps_replacementStopped; [done|by eexists|done|apply Hrep]. }
  destruct (quarantine (host w) !! asBattleID r) as [retained|].
  - clear Hrep. destruct (negb (releasePending retained)); [by apply hwp_ret|]. destruct (negb _); [unfold onQuarantine; apply hwp_modify, hwp_ret; by apply hostOk_quarantine|].
    pose proof (keeps_forget (asBattleID r) w) as Hf. flatten w. open_host. unfold gaugeQuarantined. hmod. apply hwp_ret, worldOk_note; [|done].
    apply Hf; [done|done|by eexists|one_number|by at_number..].
  - pose proof (keeps_forget (asBattleID r) w) as Hf. clear Hrep. flatten w. open_host. destruct (negb _); hmod; apply hwp_ret.
    + eapply (keeps_bound (asBattleID r) HostOperationCompleted); [exact Hw|done|by eexists|done|done|one_number|done|..]; at_number;
        [done|done|by apply (ho_requests _ _ Hw)|by left|by left].
    + unfold worldOk. flat. apply Hf; [done|done|by eexists|one_number|by at_number..].
Qed.

Lemma keeps_applyQuarantined source p w : worldOk w → hwp (applyQuarantined source p) w worldOk.
Proof.
  intros Hw. unfold applyQuarantined. destruct p as [r|]; [|by apply hwp_ret]. cbv zeta. destruct (_ || _) eqn:Hg; [by apply hwp_ret|]. apply hwp_get.
  destruct (_ && _); [by apply hwp_ret|]. case_bool_decide as Ha; [by apply hwp_ret|].
  assert (active (host w) !! brBattleID r = Some (brRef r)) as Ha' by (by destruct (decide (active (host w) !! brBattleID r = Some (brRef r)))).
  assert (brBattleID r ≠ 0) as Hi by (intros Hi; rewrite Hi, (ho_zero _ _ Hw) in Ha'; done).
  destruct (quarantine (host w) !! brBattleID r); [by apply hwp_ret|]. generalize (hDiagnostic (host w)). intros dg.
  apply (hwp_seq _ _ _ (λ w', worldOk w' ∧ active (host w') !! brBattleID r = Some (brRef r))).
  { destruct (evFailedAt _ =? 0); [|by apply hwp_ret]. split; [by apply worldOk_note|done]. }
  clear w Hw Ha Ha' Hg. intros t w [Hw Ha]. apply (hwp_seq _ _ _ (λ w', worldOk w' ∧ active (host w') !! brBattleID r = Some (brRef r))).
  { split; [by apply hostOk_quarantine|done]. }
  clear w Hw Ha. intros [] w [Hw Ha]. apply (hwp_seq _ _ _ worldOk).
  { flatten w. eapply (keeps_bound (brBattleID r) HostOperationQuarantined); [exact Hw|done|by eexists|done|done|one_number|done|..]; at_number;
      [done|done|by apply (ho_requests _ _ Hw)|by left|by left]. }
  intros [] w1 Hw1. unfold gaugeQuarantined. keep_quiet.
Qed.

Lemma keeps_applyDiagnosticResult source p w : worldOk w → hwp (applyDiagnosticResult source p) w worldOk.
Proof. intros Hw. unfold applyDiagnosticResult. keep_quiet. Qed.
Lemma keeps_retryDiagnostic source p w : worldOk w → hwp (retryDiagnostic source p) w worldOk.
Proof. intros Hw. unfold retryDiagnostic. keep_quiet. Qed.
Lemma keeps_releaseQuarantined source p w : worldOk w → nextOp (host w) + 1 < 2 ^ 64 → hwp (releaseQuarantined source p) w worldOk.
Proof.
  intros Hw Hn. pose proof (ho_next _ _ Hw) as H0. unfold releaseQuarantined. destruct (negb _); [by apply hwp_ret|]. destruct p as [r|]; [|by apply hwp_ret].
  apply hwp_get. cbv zeta. destruct (quarantine (host w) !! drBattleID r) as [rt|]; [|by apply keeps_hreply].
  destruct (qsReceipt (rtSnapshot rt)); [|by apply keeps_hreply]. destruct (negb _); [by apply keeps_hreply|]. destruct (releasePending rt); [by apply keeps_hreply|].
  flatten w. apply hwp_newOperation_at; [done..|].
  assert (worldOk (mkHW (mkHost mx fa (nx + 1) ac ss os cr bo re di qu) l)) as Hw' by (eapply hostOk_nextOp; [exact Hw|lia]). clear Hw. keep_quiet.
Qed.

(** *** What a handler leaves alone *)

Definition fixes {X Y} (f : NHSKHostService → X) (m : H Y) : Prop := ∀ w, f (host (m w).1) = f (host w).
Lemma fixes_bind {X Y Z} (f : NHSKHostService → X) (m : H Y) (k : Y → H Z) : fixes f m → (∀ y, fixes f (k y)) → fixes f (m ≫= k).
Proof. intros Hm Hk w. unfold mbind, h_bind. specialize (Hm w). destruct (m w) as [w' y]. cbn in Hm. rewrite <- Hm. apply Hk. Qed.
Lemma fixes_modify {X} (f : NHSKHostService → X) g : (∀ h, f (g h) = f h) → fixes f (hmodify g).
Proof. intros H w. apply H. Qed.
Lemma fixes_pure {X Y} (f : NHSKHostService → X) (m : H Y) : (∀ w, host (m w).1 = host w) → fixes f m.
Proof. intros H w. by rewrite H. Qed.
Ltac stays :=
  repeat first
    [ progress cbv zeta
    | apply fixes_bind; [|intros ?]
    | apply fixes_modify; intros ?; reflexivity
    | apply fixes_pure; intros ?; reflexivity
    | lazymatch goal with
      | |- fixes _ (match ?x with _ => _ end) => destruct x
      end ].

Lemma fixes_max source c : fixes hMax (handleHost source c).
Proof.
  destruct c; cbn [handleHost]; unfold beginCreate, beginLegacyReplacement, createFresh, submitCreate, getOperation, resolve, deleteBattle, applyCreated, applyStopped,
    replacementStopped, gaugeQuarantined, applyQuarantined, applyDiagnosticResult, listQuarantined, retryDiagnostic, releaseQuarantined, newOperation, forgetCreate; stays.
Qed.

(** A result of a creation from the factory answers a request it was sent. *)
Definition answersCreate (w : hworld) (source : ServiceRef) (c : hostCommand) : Prop :=
  match c with
  | ApplyBattleCreated (Some r) =>
      source = hFactory (host w) → ∃ m, m ∈ createsOf (hlog w) ∧ ciOperationID m = acOperationID r ∧ cbBattleID (ciRequest m) = acBattleID r
  | _ => True
  end.

Lemma keeps_handleHost source c w : worldOk w → nextOp (host w) + 1 < 2 ^ 64 → answersCreate w source c → hwp (handleHost source c) w worldOk.
Proof.
  intros Hw Hn Hc. destruct c as [p|p|p|p| |p|p|p|p| |p|p|]; cbn [handleHost].
  - by apply keeps_beginCreate.
  - unfold getOperation. keep_quiet.
  - unfold resolve. keep_quiet.
  - by apply keeps_deleteBattle.
  - keep_quiet.
  - apply keeps_applyCreated; [done|]. by intros r ->.
  - by apply keeps_applyStopped.
  - by apply keeps_applyQuarantined.
  - by apply keeps_applyDiagnosticResult.
  - unfold listQuarantined. keep_quiet.
  - by apply keeps_retryDiagnostic.
  - by apply keeps_releaseQuarantined.
  - by apply hwp_ret.
Qed.

(** The worlds of a host from its construction on. *)
Inductive hostReach (h0 : NHSKHostService) : hworld → Prop :=
| host_new : hostReach h0 (mkHW h0 [])
| host_step w source c : hostReach h0 w → nextOp (host w) + 1 < 2 ^ 64 → answersCreate w source c → hostReach h0 (handleHost source c w).1.

Lemma new_hostOk max factory diagnostic h0 : NewNHSKHostService max factory diagnostic = Ok h0 → 0 ≤ max < 2 ^ 32 → worldOk (mkHW h0 []) ∧ hMax h0 = max.
Proof.
  unfold NewNHSKHostService. destruct (_ || _); [done|]. intros [= <-] Hm. split; [|done]. split; cbn; [done| |by intros r ?%elem_of_nil|by intros b r|done|lia|by intros b op|done].
  unfold total, creatingCount. cbn. done.
Qed.
Lemma reach_hostOk max factory diagnostic h0 w : NewNHSKHostService max factory diagnostic = Ok h0 → 0 ≤ max < 2 ^ 32 → hostReach h0 w → worldOk w ∧ hMax (host w) = max.
Proof.
  intros Hnew Hm Hr. destruct (new_hostOk _ _ _ _ Hnew Hm) as [Hok Hmax]. induction Hr as [|w source c Hr [IH1 IH2] Hn Hc]; [done|].
  split; [by apply keeps_handleHost|]. by rewrite (fixes_max source c w).
Qed.
(** *** Evidence *)

(** A published receipt is a valid one of this battle; a release waits for the
    factory only when a receipt was published. *)
Definition retainedOk (b : BattleID) (rt : quarantinedBattle) : Prop :=
  (∀ r, qsReceipt (rtSnapshot rt) = Some r → validDiagnosticReceipt r = true ∧ drBattleID r = b ∧ drRef r = qsRef (rtSnapshot rt))
  ∧ (releasePending rt = true → is_Some (qsReceipt (rtSnapshot rt))).
Definition evidenceOk (q : gmap BattleID quarantinedBattle) : Prop := ∀ b rt, q !! b = Some rt → retainedOk b rt.
(** The same failure, reported about the same service. *)
Definition sameFailure (rt rt' : quarantinedBattle) : Prop := rtEvidence rt' = rtEvidence rt ∧ qsRef (rtSnapshot rt') = qsRef (rtSnapshot rt).
Definition kept (q q' : gmap BattleID quarantinedBattle) : Prop := ∀ b rt, q !! b = Some rt → ∃ rt', q' !! b = Some rt' ∧ sameFailure rt rt'.
Definition carries (q q' : gmap BattleID quarantinedBattle) : Prop := kept q q' ∧ (evidenceOk q → evidenceOk q').

Lemma sameFailure_refl rt : sameFailure rt rt.
Proof. by split. Qed.
Lemma carries_refl q : carries q q.
Proof. split; [|done]. intros b rt H. by exists rt. Qed.
Lemma carries_trans q1 q2 q3 : carries q1 q2 → carries q2 q3 → carries q1 q3.
Proof.
  intros [K1 E1] [K2 E2]. split; [|auto]. intros b rt H. destruct (K1 b rt H) as (rt1 & H1 & S1). destruct (K2 b rt1 H1) as (rt2 & H2 & S2).
  exists rt2. split; [done|]. destruct S1, S2. split; congruence.
Qed.
Lemma carries_insert q b rt' : (∀ rt, q !! b = Some rt → sameFailure rt rt') → (evidenceOk q → retainedOk b rt') → carries q (<[b := rt']> q).
Proof.
  intros Hs Hr. split.
  - intros b' rt H. destruct (decide (b = b')) as [<-|Hne]; [exists rt'; rewrite lookup_insert_eq; auto|]. exists rt. by rewrite lookup_insert_ne.
  - intros He b' rt H. destruct (decide (b = b')) as [<-|Hne]; [|rewrite lookup_insert_ne in H by done; by apply He].
    rewrite lookup_insert_eq in H. injection H as <-. auto.
Qed.

Abbreviation carry q m w := (hwp m w (λ w', carries q (quarantine (host w')))) (only parsing).
Lemma carry_seq {X Y} q (m : H X) (k : X → H Y) w : carry q m w → (∀ x w', carries q (quarantine (host w')) → carry q (k x) w') → carry q (m ≫= k) w.
Proof. apply hwp_seq. Qed.
Lemma carry_fixed {X} q (m : H X) w : fixes quarantine m → carries q (quarantine (host w)) → carry q m w.
Proof. intros Hf H. unfold hwp. by rewrite Hf. Qed.
Lemma fixes_hreply v : fixes quarantine (hreply v).
Proof. by apply fixes_pure. Qed.

(** The insertion of an entry, between steps that leave the quarantine alone. *)
Lemma carry_insert {X} b rt' (k : H X) w : (∀ rt, quarantine (host w) !! b = Some rt → sameFailure rt rt') → (evidenceOk (quarantine (host w)) → retainedOk b rt') →
  fixes quarantine k → carry (quarantine (host w)) (onQuarantine (insert b rt') ;; k) w.
Proof. intros Hs Hr Hk. apply (carry_seq _ (onQuarantine _)); [by apply carries_insert|]. intros [] w' H. by apply carry_fixed. Qed.

Lemma carry_deleteBattle p w : carry (quarantine (host w)) (deleteBattle p) w.
Proof.
  unfold deleteBattle. destruct p as [[[id wanted] generation]|]; [|by apply carries_refl]. cbv zeta. destruct (id =? 0); [by apply carries_refl|]. apply hwp_get.
  destruct (active (host w) !! id); [|by apply carries_refl]. destruct (_ && _); [by apply carries_refl|].
  destruct (quarantine (host w) !! id) as [rt|] eqn:Hq.
  - apply hwp_now. intros t. apply (carry_insert _ _ _ (mkHW (host w) _)); cbn [host]; [intros rt' Hrt'|intros He|apply fixes_hreply].
    + rewrite Hq in Hrt'. injection Hrt' as <-. by split.
    + by apply (He id rt).
  - apply carry_fixed; [|apply carries_refl]. unfold newOperation. stays.
Qed.

Lemma carry_applyQuarantined source p w : carry (quarantine (host w)) (applyQuarantined source p) w.
Proof.
  unfold applyQuarantined. destruct p as [r|]; [|by apply carries_refl]. cbv zeta. destruct (_ || _); [by apply carries_refl|]. apply hwp_get.
  destruct (_ && _); [by apply carries_refl|]. case_bool_decide; [by apply carries_refl|].
  destruct (quarantine (host w) !! brBattleID r) as [rt|] eqn:Hq; [by apply carries_refl|]. generalize (hDiagnostic (host w)). intros dg.
  assert (∀ rt', retainedOk (brBattleID r) rt' → carries (quarantine (host w)) (<[brBattleID r := rt']> (quarantine (host w)))) as Hins.
  { intros rt' Hrt'. apply carries_insert; [intros rt; by rewrite Hq|done]. }
  remember (quarantine (host w)) as q eqn:Hqw.
  apply (hwp_seq _ _ _ (λ w', quarantine (host w') = q)); [by destruct (evFailedAt _ =? 0); cbn|]. intros t w1 Hw1.
  apply (hwp_seq _ _ _ (λ w', quarantine (host w') = <[brBattleID r := mkRetained (mkQuarantined (brBattleID r) (brRef r) (brGeneration r) t
     (evFailedCommand (brEvidence r)) (evCommandSequence (brEvidence r)) DiagnosticExportPending "" None (mkObservation 0 0 0 0)) (brEvidence r) false]> q)).
  { unfold hwp, onQuarantine, hmodify. cbn [fst host quarantine set_quarantine]. by rewrite <- Hw1. }
  intros [] w2 Hw2. match type of Hw2 with _ = ?x => set (q1 := x) in Hw2 end.
  do 3 (apply (hwp_seq _ _ _ (λ w', quarantine (host w') = q1)); [exact Hw2|clear w2 Hw2; intros [] w2 Hw2]). subst q1.
  destruct dg; [|apply hwp_ret; rewrite Hw2; by apply Hins]. apply hwp_assoc, hwp_diagnostic. intros a. destruct a as [e|]; [|apply hwp_ret; cbn [host]; rewrite Hw2; by apply Hins].
  apply hwp_assoc. unfold onQuarantine. apply hwp_modify, hwp_note, hwp_ret. cbn [host quarantine set_quarantine]. rewrite Hw2, insert_insert_eq. by apply Hins.
Qed.

Lemma carry_applyDiagnosticResult source p w : carry (quarantine (host w)) (applyDiagnosticResult source p) w.
Proof.
  unfold applyDiagnosticResult. destruct (negb _); [by apply carries_refl|]. destruct p as [[[[[id ref] receipt] text] err]|]; [|by apply carries_refl]. cbv zeta.
  apply hwp_get. destruct (quarantine (host w) !! id) as [rt|] eqn:Hq; [|by apply carries_refl]. case_bool_decide as Href; [by apply carries_refl|].
  apply carry_insert; [intros rt' Hrt'|intros He|by apply fixes_pure].
  - rewrite Hq in Hrt'. injection Hrt' as <-. destruct (negb _); [by split|]. destruct (_ || _); by split.
  - destruct (He id rt Hq) as [Hr Hp]. destruct (negb _) eqn:Ht; [by split|]. destruct (_ || _) eqn:Hg; [by split|].
    rewrite !orb_false_iff, !negb_false_iff, Z.eqb_eq in Hg. destruct Hg as [[Hg1 Hg2] Hg3]. apply bool_decide_eq_false in Hg3. split; cbn; [|by eexists].
    intros r [= <-]. split; [done|]. split; [done|]. destruct (decide (drRef receipt = ref)); [|done]. destruct (decide (qsRef (rtSnapshot rt) = ref)); [congruence|done].
Qed.

Lemma carry_retryDiagnostic source p w : carry (quarantine (host w)) (retryDiagnostic source p) w.
Proof.
  unfold retryDiagnostic. destruct (negb _); [by apply carries_refl|]. apply hwp_get. cbv zeta. destruct p as [[id ref]|]; [|by apply carries_refl].
  destruct (quarantine (host w) !! id) as [rt|] eqn:Hq; [|by apply carries_refl]. case_bool_decide; [by apply carries_refl|]. case_bool_decide; [by apply carries_refl|].
  destruct (negb _); [by apply carries_refl|]. apply hwp_diagnostic. intros a.
  apply (carry_insert _ _ _ (mkHW (host w) _)); cbn [host]; [intros rt' Hrt'|intros He|destruct a; apply fixes_hreply].
  - rewrite Hq in Hrt'. injection Hrt' as <-. by split.
  - by apply (He id rt).
Qed.

Lemma carry_releaseQuarantined source p w : carry (quarantine (host w)) (releaseQuarantined source p) w.
Proof.
  unfold releaseQuarantined. destruct (negb _); [by apply carries_refl|]. destruct p as [r|]; [|by apply carries_refl]. apply hwp_get. cbv zeta.
  destruct (quarantine (host w) !! drBattleID r) as [rt|] eqn:Hq; [|by apply carries_refl].
  destruct (qsReceipt (rtSnapshot rt)) as [published|] eqn:Hp; [|by apply carries_refl]. destruct (negb _); [by apply carries_refl|].
  destruct (releasePending rt); [by apply carries_refl|]. apply (hwp_seq _ _ _ (λ w', quarantine (host w') = quarantine (host w))); [done|]. intros op w1 Hw1.
  rewrite <- Hw1 in *. apply hwp_send. intros a. destruct a as [e|]; [by apply carries_refl|].
  apply (carry_insert _ _ _ (mkHW (host w1) _)); cbn [host]; [intros rt' Hrt'|intros He|apply fixes_hreply].
  - rewrite Hq in Hrt'. injection Hrt' as <-. by split.
  - destruct (He _ rt Hq) as [Hr _]. split; [done|]. cbn. by rewrite Hp.
Qed.

(** The one way an entry leaves. *)
Definition released (w : hworld) (source : ServiceRef) (c : hostCommand) (b : BattleID) (rt : quarantinedBattle) : Prop :=
  ∃ r, c = ApplyBattleStopped (Some r) ∧ source = hFactory (host w) ∧ asBattleID r = b ∧ asErr r = "" ∧ releasePending rt = true
    ∧ active (host w) !! b = Some (asRef r).

Lemma step_applyStopped source p w : evidenceOk (quarantine (host w)) →
  hwp (applyStopped source p) w (λ w', evidenceOk (quarantine (host w'))
    ∧ ∀ b rt, quarantine (host w) !! b = Some rt → released w source (ApplyBattleStopped p) b rt ∨ ∃ rt', quarantine (host w') !! b = Some rt' ∧ sameFailure rt rt').
Proof.
  intros He. assert (∀ (m : H (error hostError)), hwp m w (λ w', carries (quarantine (host w)) (quarantine (host w'))) → hwp m w (λ w', evidenceOk (quarantine (host w'))
    ∧ ∀ b rt, quarantine (host w) !! b = Some rt → released w source (ApplyBattleStopped p) b rt ∨ ∃ rt', quarantine (host w') !! b = Some rt' ∧ sameFailure rt rt')) as Hplain.
  { intros m [Hk Hok]. split; [by apply Hok|]. intros b rt Hb. right. by apply Hk. }
  unfold applyStopped. apply hwp_get. case_bool_decide as Hsrc; [apply Hplain, carries_refl|]. destruct p as [r|]; [|apply Hplain, carries_refl]. cbv zeta.
  case_bool_decide as Hact; [apply Hplain, carries_refl|]. destruct (_ && _).
  { apply Hplain, carry_fixed; [|apply carries_refl]. unfold replacementStopped, submitCreate, forgetCreate. stays. }
  destruct (quarantine (host w) !! asBattleID r) as [rt|] eqn:Hq.
  2: { apply Hplain, carry_fixed; [|apply carries_refl]. stays. }
  destruct (releasePending rt) eqn:Hp; [|apply Hplain, carries_refl]. cbn [negb]. case_bool_decide as Herr; cbn [negb].
  - split.
    + intros b rt' Hb. change (delete (asBattleID r) (quarantine (host w)) !! b = Some rt') in Hb. apply lookup_delete_Some in Hb as [_ Hb]. by apply He.
    + intros b rt' Hb. destruct (decide (b = asBattleID r)) as [->|Hne].
      * left. exists r. rewrite Hq in Hb. injection Hb as <-. by destruct (decide (source = hFactory (host w))).
      * right. exists rt'. split; [|apply sameFailure_refl].
        change (delete (asBattleID r) (quarantine (host w)) !! b = Some rt'). by rewrite lookup_delete_ne.
  - apply Hplain, carry_insert; [intros rt' Hrt'|intros _|by apply fixes_pure].
    + rewrite Hq in Hrt'. injection Hrt' as <-. by split.
    + destruct (He _ rt Hq) as [Hr _]. by split.
Qed.

Lemma evidence_step source c w : evidenceOk (quarantine (host w)) →
  hwp (handleHost source c) w (λ w', evidenceOk (quarantine (host w'))
    ∧ ∀ b rt, quarantine (host w) !! b = Some rt → released w source c b rt ∨ ∃ rt', quarantine (host w') !! b = Some rt' ∧ sameFailure rt rt').
Proof.
  intros He. destruct c as [p|p|p|p| |p|p|p|p| |p|p|]; cbn [handleHost]; try (by apply step_applyStopped).
  all: match goal with |- hwp ?m _ _ => assert (carry (quarantine (host w)) m w) as [Hk Hok] end.
  all: try (split; [by apply Hok|]; intros b rt Hb; right; by apply Hk).
  - apply carry_fixed; [|apply carries_refl]. unfold beginCreate, beginLegacyReplacement, createFresh, submitCreate, newOperation, forgetCreate. stays.
  - apply carry_fixed; [|apply carries_refl]. unfold getOperation. stays.
  - apply carry_fixed; [|apply carries_refl]. unfold resolve. stays.
  - apply carry_deleteBattle.
  - apply carry_fixed; [|apply carries_refl]. stays.
  - apply carry_fixed; [|apply carries_refl]. unfold applyCreated, forgetCreate. stays.
  - apply carry_applyQuarantined.
  - apply carry_applyDiagnosticResult.
  - apply carry_fixed; [|apply carries_refl]. unfold listQuarantined. stays.
  - apply carry_retryDiagnostic.
  - apply carry_releaseQuarantined.
  - apply carries_refl.
Qed.
Lemma reach_evidenceOk max factory diagnostic h0 w : NewNHSKHostService max factory diagnostic = Ok h0 → hostReach h0 w → evidenceOk (quarantine (host w)).
Proof.
  intros Hnew Hr. induction Hr as [|w source c Hr IH Hn Hc]; [|by apply (evidence_step source c w IH)].
  revert Hnew. unfold NewNHSKHostService. destruct (_ || _); [done|]. by intros [= <-].
Qed.

(** ** Properties *)

(** C29. The evidence of a battle that failed is not lost: whatever the host handles, the
    entry stays with the same evidence and the same service, unless a release was asked
    for and the factory then reports the stop of the very service that the host holds
    under that number (the failed one, if no replacement was under way when it failed);
    and then a valid receipt for exactly this battle and service had been published. *)
Theorem evidence_kept max factory diagnostic h0 w source c b rt :
  NewNHSKHostService max factory diagnostic = Ok h0 → hostReach h0 w → quarantine (host w) !! b = Some rt →
  (∃ rt', quarantine (host (handleHost source c w).1) !! b = Some rt' ∧ rtEvidence rt' = rtEvidence rt ∧ qsRef (rtSnapshot rt') = qsRef (rtSnapshot rt))
  ∨ ∃ r receipt, c = ApplyBattleStopped (Some r) ∧ source = hFactory (host w) ∧ asBattleID r = b ∧ asErr r = "" ∧ releasePending rt = true
    ∧ active (host w) !! b = Some (asRef r)
    ∧ qsReceipt (rtSnapshot rt) = Some receipt ∧ validDiagnosticReceipt receipt = true ∧ drBattleID receipt = b ∧ drRef receipt = qsRef (rtSnapshot rt).
Proof.
  intros Hnew Hr Hb. pose proof (reach_evidenceOk _ _ _ _ _ Hnew Hr) as He. destruct (evidence_step source c w He) as [_ Hs].
  destruct (Hs b rt Hb) as [(r & Hc & H1 & H2 & H3 & Hp & Ha)|(rt' & H1 & H2)]; [right|left; by exists rt'].
  destruct (He b rt Hb) as [Hv Hi]. destruct (Hi Hp) as [receipt Hrec]. destruct (Hv receipt Hrec) as (V1 & V2 & V3). by exists r, receipt.
Qed.

(** Runs, for concrete hosts. *)
Definition answersCreateb (w : hworld) (source : ServiceRef) (c : hostCommand) : bool :=
  match c with
  | ApplyBattleCreated (Some r) => existsb (λ m, (ciOperationID m =? acOperationID r) && (cbBattleID (ciRequest m) =? acBattleID r)) (createsOf (hlog w))
  | _ => true
  end.
Fixpoint runHost (cs : list (ServiceRef * hostCommand)) (w : hworld) : option hworld :=
  match cs with
  | [] => Some w
  | (source, c) :: cs => if (nextOp (host w) + 1 <? 2 ^ 64) && answersCreateb w source c then runHost cs (handleHost source c w).1 else None
  end.
Lemma runHost_reach h0 cs w w' : hostReach h0 w → runHost cs w = Some w' → hostReach h0 w'.
Proof.
  revert w. induction cs as [|[source c] cs IH]; intros w Hr Hrun; [by injection Hrun as <-|]. cbn in Hrun. destruct (_ && _) eqn:Hg; [|done].
  rewrite andb_true_iff, Z.ltb_lt in Hg. destruct Hg as [Hn Ha].
  refine (IH _ (host_step _ _ source c Hr Hn _) Hrun). clear -Ha. destruct c as [| | | | |[r|]| | | | | | |]; try done. cbn in *. intros _.
  apply existsb_exists in Ha as (m & Hin & Hm). rewrite andb_true_iff, !Z.eqb_eq in Hm. exists m. rewrite list_elem_of_In. tauto.
Qed.
End Handlers.

Definition acceptingHost : HostEnv := {|
  hSelf := mkRef "n1" 800; ansFactory _ _ := None; ansHostReply _ _ := None; ansDiagnostic _ _ := None; hostClock _ := 77
|}.
#[local] Existing Instance acceptingHost.
Definition sampleHost : NHSKHostService := mkHost 2 (mkRef "n1" 801) 0 ∅ ∅ ∅ ∅ ∅ ∅ true ∅.
Definition admin : ServiceRef := mkRef "n1" 0.
Definition battleRef : ServiceRef := mkRef "n1" 900.
Definition sampleReceipt : DiagnosticReceipt :=
  mkReceipt "r1" 7 battleRef "0123456789012345678901234567890123456789012345678901234567890123" "/d" 99.
Definition sampleFailure : list (ServiceRef * hostCommand) :=
  [(admin, BeginCreateBattle (Some (mkCreateRequest 7 false 0))); (mkRef "n1" 801, ApplyBattleCreated (Some (mkCreated 1 7 battleRef 0 "")));
   (admin, BeginCreateBattle (Some (mkCreateRequest 8 false 0)));
   (battleRef, ReportBattleQuarantined (Some (mkReport 7 battleRef 0 (mkEvidence 50 4 9 None [] 0 true 50 "panic"))));
   (admin, ApplyDiagnosticExportResult (Some (7, battleRef, sampleReceipt, "", None))); (admin, ReleaseQuarantined (Some sampleReceipt))].
Definition sampleRun : hworld := Eval vm_compute in default (mkHW sampleHost []) (runHost sampleFailure (mkHW sampleHost [])).

Lemma sampleRun_reach : hostReach sampleHost sampleRun.
Proof. apply (runHost_reach _ sampleFailure (mkHW sampleHost [])); [apply host_new|vm_compute; reflexivity]. Qed.
(** The entry of battle 7 leaves when the factory has stopped the service. *)
Lemma evidence_kept_witness : ∃ rt receipt, quarantine (host sampleRun) !! 7 = Some rt ∧ releasePending rt = true ∧ qsReceipt (rtSnapshot rt) = Some receipt
  ∧ quarantine (host (handleHost (mkRef "n1" 801) (ApplyBattleStopped (Some (mkStopped 3 7 battleRef ""))) sampleRun).1) !! 7 = None ∧ drBattleID receipt = 7.
Proof.
  destruct (quarantine (host sampleRun) !! 7) as [rt|] eqn:Hq; [|vm_compute in Hq; discriminate].
  destruct (evidence_kept 2 (mkRef "n1" 801) true sampleHost sampleRun (mkRef "n1" 801) (ApplyBattleStopped (Some (mkStopped 3 7 battleRef ""))) 7 rt eq_refl sampleRun_reach Hq)
    as [(rt' & H & _)|(r & receipt & _ & _ & _ & _ & Hp & _ & Hr & _ & Hb & _)]; [vm_compute in H; discriminate|].
  exists rt, receipt. split; [done|]. split; [exact Hp|]. split; [exact Hr|]. split; [vm_compute; reflexivity|exact Hb].
Defined.

(** The report of a failure that arrives while a replacement is under way does not stop
    the replacement: the number is given to a new service although it is quarantined. *)
Definition sampleReplaced : list (ServiceRef * hostCommand) :=
  [(admin, BeginCreateBattle (Some (mkCreateRequest 7 false 1))); (mkRef "n1" 801, ApplyBattleCreated (Some (mkCreated 1 7 battleRef 1 "")));
   (admin, BeginCreateBattle (Some (mkCreateRequest 7 false 2)));
   (battleRef, ReportBattleQuarantined (Some (mkReport 7 battleRef 1 (mkEvidence 50 4 9 None [] 0 true 50 "panic"))));
   (mkRef "n1" 801, ApplyBattleStopped (Some (mkStopped 2 7 battleRef ""))); (mkRef "n1" 801, ApplyBattleCreated (Some (mkCreated 2 7 (mkRef "n1" 901) 2 "")))].
Example quarantined_number_replaced :
  ∃ w, runHost sampleReplaced (mkHW sampleHost []) = Some w
  ∧ active (host w) !! 7 = Some (mkRef "n1" 901) ∧ (qsRef ∘ rtSnapshot <$> quarantine (host w) !! 7) = Some battleRef.
Proof. eexists. split; [vm_compute; reflexivity|]. split; vm_compute; reflexivity. Qed.
