(* ===== verification/NhskFactory.v ===== *)
(** * The factory of the card battles

    [BattleFactoryService] of [src/examples/nhsk/host.go]: it creates and stops the
    services of the battles for the host, with two workers outside of its mailbox,
    [createLoop] and [stopLoop].  The model has the handler, one turn of each worker, and
    the delivery of what a worker has posted; [fstep] interleaves them.

    What the runtime answers (creation, stop, calls, sends) and the order in which a Go
    map is walked are the instance of [FactoryEnv]. *)

From stdpp Require Import prelude gmap strings list.
From Stdlib Require Import ZArith Lia.
From S2P Require Import Prelude Types Game NhskBattle NhskQuarantine NhskHost NhskHostFacts.

Local Open Scope Z_scope.

(** ** Data *)

Record factoryBattle := mkFactoryBattle { fbRef : ServiceRef; fbGeneration : Z; fbHost : ServiceRef; fbQuarantined : bool; fbStopping : bool }.
Record factoryCreateTask := mkTask { ftRequest : createBattleInternal; ftConfig : NHSKBattleConfig }.
Record applyFactoryCreateResult := mkCreateResult { crTask : factoryCreateTask; crRef : ServiceRef; crErr : string }.
Record applyFactoryStopResult := mkStopResult { srRequest : stopBattleInternal; srErr : string; srDefect : bool; srEvidence : BattleDiagnosticEvidence }.
Definition zeroEvidence : BattleDiagnosticEvidence := mkEvidence 0 0 0 None [] 0 false 0 "".

(** [factoryOutput]: reference, generation and whether there is a reporter. *)
Record BattleFactoryService := mkFactory {
  fSelf : ServiceRef; createQueue : list factoryCreateTask; stopQueue : list stopBattleInternal;
  creating : gmap BattleID factoryCreateTask; battles : gmap BattleID factoryBattle; closedThrough : Z;
  factoryOutput : ServiceRef * Z * bool; fReplaySubmitter : bool; fAISubmitter : bool
}.
Definition queueCapacity : Z := 10000.
(** [NewBattleFactoryService] and [Init]. *)
Definition newFactory (self : ServiceRef) (replay ai : bool) : BattleFactoryService := mkFactory self [] [] ∅ ∅ 0 (zeroRef, 0, false) replay ai.

Definition rebuildFactory f :=
  mkFactory (fSelf f) (createQueue f) (stopQueue f) (creating f) (battles f) (closedThrough f) (factoryOutput f) (fReplaySubmitter f) (fAISubmitter f).
Definition set_createQueue v f : BattleFactoryService := ltac:(upd rebuildFactory f (createQueue f) v).
Definition set_stopQueue v f : BattleFactoryService := ltac:(upd rebuildFactory f (stopQueue f) v).
Definition set_creating v f : BattleFactoryService := ltac:(upd rebuildFactory f (creating f) v).
Definition set_battles v f : BattleFactoryService := ltac:(upd rebuildFactory f (battles f) v).
Definition set_closedThrough v f : BattleFactoryService := ltac:(upd rebuildFactory f (closedThrough f) v).
Definition set_factoryOutput v f : BattleFactoryService := ltac:(upd rebuildFactory f (factoryOutput f) v).
Definition set_stopping (v : bool) (b : factoryBattle) : factoryBattle := mkFactoryBattle (fbRef b) (fbGeneration b) (fbHost b) (fbQuarantined b) v.
Definition set_quarantined (v : bool) (b : factoryBattle) : factoryBattle := mkFactoryBattle (fbRef b) (fbGeneration b) (fbHost b) v (fbStopping b).

Inductive hostMessage := Created (r : applyBattleCreated) | Stopped (r : applyBattleStopped) | Quarantined (r : battleQuarantineReport).

(** What the factory and its workers did, oldest first. *)
Inductive factoryEvent :=
| FReceived (source : ServiceRef) (r : createBattleInternal)
| FSent (to : ServiceRef) (m : hostMessage) (answer : error rtError)
| FMade (id : BattleID) (ref : ServiceRef)
| FStopTried (ref : ServiceRef) (answer : error rtError)
| FCalled (ref : ServiceRef) (answer : error rtError)
| FPosted (stop : bool) (ref : ServiceRef) (answer : error rtError)
| FOrphanDropped (id : BattleID) (ref : ServiceRef)
| FOrphanKept (id : BattleID) (ref : ServiceRef).

Class FactoryEnv := {
  ansHostMessage : list factoryEvent → ServiceRef → hostMessage → error rtError;
  ansCreate : list factoryEvent → BattleID → res string ServiceRef;
  ansSeed : list factoryEvent → option Z;
  ansStop : list factoryEvent → ServiceRef → error rtError;
  ansBarrier : list factoryEvent → ServiceRef → error rtError;
  ansCapture : list factoryEvent → ServiceRef → option BattleDiagnosticEvidence;
  ansPost : list factoryEvent → error rtError;
  rangeOrder : list factoryEvent → gmap BattleID factoryBattle → list (BattleID * factoryBattle)
}.

(** ** Effects *)

(** The mailbox holds what the workers have posted. *)
Record fworld := mkFW { factory : BattleFactoryService; flog : list factoryEvent; createResults : list applyFactoryCreateResult; stopResults : list applyFactoryStopResult }.
Definition F (X : Type) : Type := fworld → fworld * X.
#[global] Instance f_ret : MRet F := λ X x w, (w, x).
#[global] Instance f_bind : MBind F := λ X Y k m w, let '(w, x) := m w in k x w.
Definition fget {X} (f : BattleFactoryService → X) : F X := λ w, (w, f (factory w)).
Definition fmodify (f : BattleFactoryService → BattleFactoryService) : F unit := λ w, (mkFW (f (factory w)) (flog w) (createResults w) (stopResults w), ()).
Definition fnote (e : factoryEvent) : F unit := λ w, (mkFW (factory w) (flog w ++ [e]) (createResults w) (stopResults w), ()).
Definition fask {X} (f : list factoryEvent → X) : F X := λ w, (w, f (flog w)).
Definition postCreate (r : applyFactoryCreateResult) : F unit := λ w, (mkFW (factory w) (flog w) (createResults w ++ [r]) (stopResults w), ()).
Definition postStop (r : applyFactoryStopResult) : F unit := λ w, (mkFW (factory w) (flog w) (createResults w) (stopResults w ++ [r]), ()).

Definition onBattles f : F unit := fmodify (λ s, set_battles (f (battles s)) s).
Definition onCreating f : F unit := fmodify (λ s, set_creating (f (creating s)) s).

Section Factory.
Context {E : FactoryEnv}.

Definition isRootSource (f : BattleFactoryService) (source : ServiceRef) : bool := bool_decide (Node source = Node (fSelf f)) && (ID source =? 0).
Definition generationClosed (f : BattleFactoryService) (generation : Z) : bool := negb (generation =? 0) && (generation <=? closedThrough f).

Definition sendHost (to : ServiceRef) (m : hostMessage) : F (error rtError) :=
  a ← fask (λ l, ansHostMessage l to m); fnote (FSent to m a) ;; mret a.
(** The error as a text, empty for nil. *)
Definition reportCreateResult (r : createBattleInternal) (ref : ServiceRef) (err : string) : F (error rtError) :=
  sendHost (ciHost r) (Created (mkCreated (ciOperationID r) (cbBattleID (ciRequest r)) ref (cbGeneration (ciRequest r)) err)).

(** [select { case queue <- x: … default: … }] *)
Definition offerCreate (t : factoryCreateTask) : F bool :=
  q ← fget createQueue;
  if Z.of_nat (length q) <? queueCapacity then fmodify (set_createQueue (q ++ [t])) ;; mret true else mret false.
Definition offerStop (r : stopBattleInternal) : F bool :=
  q ← fget stopQueue;
  if Z.of_nat (length q) <? queueCapacity then fmodify (set_stopQueue (q ++ [r])) ;; mret true else mret false.

Definition enqueueOrphanStop (id : BattleID) (ref : ServiceRef) (generation : Z) : F unit :=
  ok ← offerStop (mkStopInternal 0 id ref zeroRef false true generation);
  if (ok : bool) then mret () else fnote (FOrphanDropped id ref).

(** ** The handler *)

Definition taskOf (f : BattleFactoryService) (r : createBattleInternal) : factoryCreateTask :=
  let q := ciRequest r in
  let '(ref, generation, reporter) := if (factoryOutput f).1.2 =? cbGeneration q then factoryOutput f else (zeroRef, 0, false) in
  mkTask r (mkBattleConfig (cbBattleID q) ref 0 0 (cbIsNewbie q) generation reporter false None (fReplaySubmitter f) 0 (fAISubmitter f)).

Definition fail (s : sentinel) : F (error rtError) := mret (Some (Sentinel s)).

Definition createInternal (source : ServiceRef) (p : option createBattleInternal) : F (error rtError) :=
  match p with
  | None => fail Types.ErrInvalidClusterEnvelope
  | Some r =>
      if bool_decide (source ≠ ciHost r) then fail Types.ErrInvalidClusterEnvelope
      else
        fnote (FReceived source r) ;;
        f ← fget (λ f, f);
        let id := cbBattleID (ciRequest r) in
        if generationClosed f (cbGeneration (ciRequest r)) then reportCreateResult r zeroRef "nhsk: connection generation closed"
        else match creating f !! id, battles f !! id with
             | None, None =>
                 onCreating (insert id (taskOf f r)) ;;
                 ok ← offerCreate (taskOf f r);
                 if (ok : bool) then mret None
                 else onCreating (delete id) ;; reportCreateResult r zeroRef (sentinel_text ErrMailboxFull)
             | _, _ => reportCreateResult r zeroRef "nhsk: battle id in use"
             end
  end.

Definition applyCreateResult (r : applyFactoryCreateResult) : F (error rtError) :=
  let request := ftRequest (crTask r) in
  let id := cbBattleID (ciRequest request) in
  let generation := cbGeneration (ciRequest request) in
  f ← fget (λ f, f);
  if bool_decide (ftRequest <$> creating f !! id ≠ Some request) then
    (if negb (ID (crRef r) =? 0) then enqueueOrphanStop id (crRef r) generation else mret ()) ;; mret None
  else
    onCreating (delete id) ;;
    if negb (bool_decide (crErr r = "")) || (ID (crRef r) =? 0) then
      reportCreateResult request zeroRef (if bool_decide (crErr r = "") then "nhsk: Battle creation returned an empty ServiceRef" else crErr r)
    else if generationClosed f generation then
      enqueueOrphanStop id (crRef r) generation ;; reportCreateResult request zeroRef "nhsk: connection generation closed"
    else match battles f !! id with
         | Some _ => enqueueOrphanStop id (crRef r) generation ;; reportCreateResult request zeroRef "nhsk: battle id in use"
         | None =>
             onBattles (insert id (mkFactoryBattle (crRef r) generation (ciHost request) false false)) ;;
             e ← reportCreateResult request (crRef r) "";
             match e with
             | None => mret None
             | Some e => onBattles (delete id) ;; enqueueOrphanStop id (crRef r) generation ;; mret (Some e)
             end
         end.

Definition stopInternal (source : ServiceRef) (p : option stopBattleInternal) : F (error rtError) :=
  match p with
  | None => fail Types.ErrInvalidClusterEnvelope
  | Some r =>
      f ← fget (λ f, f);
      match battles f !! siBattleID r with
      | None => fail Types.ErrServiceNotFound
      | Some b =>
          if bool_decide (fbRef b ≠ siRef r) || bool_decide (fbHost b ≠ siHost r) || bool_decide (source ≠ siHost r) || fbStopping b
             || (siRelease r && negb (fbQuarantined b)) || (negb (siRelease r) && fbQuarantined b)
          then fail Types.ErrServiceNotFound
          else
            ok ← offerStop (mkStopInternal (siOperationID r) (siBattleID r) (siRef r) (siHost r) (siRelease r) (siOrphan r) (fbGeneration b));
            if (ok : bool) then onBattles (insert (siBattleID r) (set_stopping true b)) ;; mret None else fail Types.ErrMailboxFull
      end
  end.

(** The walk over the battles of a generation. *)
Fixpoint stopEach (generation : Z) (l : list (BattleID * factoryBattle)) : F (error rtError) :=
  match l with
  | [] => mret None
  | (id, b) :: l =>
      if negb (fbGeneration b =? generation) || fbQuarantined b || fbStopping b then stopEach generation l
      else
        ok ← offerStop (mkStopInternal 0 id (fbRef b) (fbHost b) false false (fbGeneration b));
        if (ok : bool) then onBattles (insert id (set_stopping true b)) ;; stopEach generation l else fail Types.ErrMailboxFull
  end.
Definition stopGeneration (source : ServiceRef) (p : option Z) : F (error rtError) :=
  f ← fget (λ f, f);
  match p with
  | None => fail Types.ErrInvalidClusterEnvelope
  | Some generation =>
      if negb (isRootSource f source) || (generation =? 0) then fail Types.ErrInvalidClusterEnvelope
      else
        (if closedThrough f <? generation then fmodify (set_closedThrough generation) else mret ()) ;;
        l ← fask (λ l, rangeOrder l (battles f));
        stopEach generation l
  end.

Definition bindOutput (source : ServiceRef) (p : option (Z * ServiceRef * bool)) : F (error rtError) :=
  f ← fget (λ f, f);
  match p with
  | None => fail Types.ErrInvalidClusterEnvelope
  | Some (generation, ref, reporter) =>
      if negb (isRootSource f source) || (generation =? 0) || (ID ref =? 0) || negb reporter then fail Types.ErrInvalidClusterEnvelope
      else fmodify (set_factoryOutput (ref, generation, reporter)) ;; mret None
  end.
Definition unbindOutput (source : ServiceRef) (p : option Z) : F (error rtError) :=
  f ← fget (λ f, f);
  match p with
  | None => fail Types.ErrInvalidClusterEnvelope
  | Some generation =>
      if negb (isRootSource f source) then fail Types.ErrInvalidClusterEnvelope
      else (if generation =? (factoryOutput f).1.2 then fmodify (set_factoryOutput (zeroRef, 0, false)) else mret ()) ;; mret None
  end.

Definition reportQuarantined (source : ServiceRef) (p : option battleQuarantineReport) : F (error rtError) :=
  f ← fget (λ f, f);
  match p with
  | None => fail Types.ErrInvalidClusterEnvelope
  | Some r =>
      if bool_decide (source ≠ brRef r) && bool_decide (source ≠ fSelf f) && negb (isRootSource f source) then fail Types.ErrInvalidClusterEnvelope
      else match battles f !! brBattleID r with
           | Some b => if bool_decide (fbRef b = brRef r) then onBattles (insert (brBattleID r) (set_quarantined true b)) ;; mret None else mret None
           | None => mret None
           end
  end.

Definition deleteBattleBarrierCommand : Z := 0x0410f008.
Definition stopFailure (r : applyFactoryStopResult) : battleQuarantineReport :=
  let q := srRequest r in
  let ev := srEvidence r in
  mkReport (siBattleID q) (siRef q) (siGeneration q)
    (mkEvidence (evFailedAt ev) deleteBattleBarrierCommand (evCommandSequence ev) (evLastStable ev) (evCommands ev) (evRandomSeed ev) (evRandomSeedKnown ev)
       (evClockAtFailure ev) ("Battle Stop failure: " ++ srErr r)).

Definition applyStopResult (r : applyFactoryStopResult) : F (error rtError) :=
  let q := srRequest r in
  let id := siBattleID q in
  if siOrphan q then (if bool_decide (srErr r = "") then mret () else fnote (FOrphanKept id (siRef q))) ;; mret None
  else
    f ← fget (λ f, f);
    match battles f !! id with
    | None => mret None
    | Some b =>
        if bool_decide (fbRef b ≠ siRef q) then mret None
        else
          (if bool_decide (srErr r = "") then onBattles (delete id) else onBattles (insert id (set_stopping false b))) ;;
          (if negb (siRelease q) && srDefect r && negb (evCommandSequence (srEvidence r) =? 0) then
             sendHost (siHost q) (Quarantined (stopFailure r)) ;;
             onBattles (λ m, match m !! id with Some b => <[id := set_quarantined true b]> m | None => m end)
           else mret ()) ;;
          (if negb (ID (siHost q) =? 0) then sendHost (siHost q) (Stopped (mkStopped (siOperationID q) id (siRef q) (srErr r))) else mret None)
    end.

(** The mailbox, but for what the workers post. *)
Inductive factoryCommand :=
| CreateBattleInternal (p : option createBattleInternal)
| StopBattleInternal (p : option stopBattleInternal)
| BindOutputInternal (p : option (Z * ServiceRef * bool))
| UnbindOutputInternal (p : option Z)
| StopGeneration (p : option Z)
| ReportQuarantinedFactory (p : option battleQuarantineReport)
| ApplyFactoryCreateResult (p : option applyFactoryCreateResult)
| ApplyFactoryStopResult (p : option applyFactoryStopResult)
| OtherFactoryCommand.

Definition handleFactory (source : ServiceRef) (c : factoryCommand) : F (error rtError) :=
  match c with
  | CreateBattleInternal p => createInternal source p
  | StopBattleInternal p => stopInternal source p
  | BindOutputInternal p => bindOutput source p
  | UnbindOutputInternal p => unbindOutput source p
  | StopGeneration p => stopGeneration source p
  | ReportQuarantinedFactory p => reportQuarantined source p
  | ApplyFactoryCreateResult p =>
      f ← fget (λ f, f);
      match p with Some r => if isRootSource f source then applyCreateResult r else fail Types.ErrInvalidClusterEnvelope | None => fail Types.ErrInvalidClusterEnvelope end
  | ApplyFactoryStopResult p =>
      f ← fget (λ f, f);
      match p with Some r => if isRootSource f source then applyStopResult r else fail Types.ErrInvalidClusterEnvelope | None => fail Types.ErrInvalidClusterEnvelope end
  | OtherFactoryCommand => fail Types.ErrUnknownCommand
  end.

(** ** The workers *)

(** [errors.Is(err, context.DeadlineExceeded)] *)
Fixpoint isDeadline (e : rtError) : bool :=
  match e with ContextDeadlineExceeded => true | JoinError es => existsb isDeadline es | _ => false end.
Definition isLifecycleDefect (e : rtError) : bool := errors_Is e ErrStopTimeout || errors_Is e ErrServiceFailed || isDeadline e.

Definition tryStop (ref : ServiceRef) : F (error rtError) :=
  a ← fask (λ l, ansStop l ref); fnote (FStopTried ref a) ;; mret a.
(** A result for the factory's own mailbox, of a stop or of a creation. *)
Definition post (stop : bool) (ref : ServiceRef) : F (error rtError) := a ← fask ansPost; fnote (FPosted stop ref a) ;; mret a.

(** The service for a task; a failure has the zero reference. *)
Definition makeBattle (self : ServiceRef) (t : factoryCreateTask) : F (ServiceRef * string) :=
  let r := ftRequest t in
  seed ← fask ansSeed;
  match NewBattleService (ftConfig t) seed with
  | Err e => mret (zeroRef, e)
  | Ok b =>
      match newBattleQuarantineBoundary (mkWorld b []) (mkBoundaryConfig (ciHost r) self (cbGeneration (ciRequest r))) with
      | Err e => mret (zeroRef, e)
      | Ok _ =>
          a ← fask (λ l, ansCreate l (cbBattleID (ciRequest r)));
          match a with
          | Ok ref => fnote (FMade (cbBattleID (ciRequest r)) ref) ;; mret (ref, "")
          | Err e => mret (zeroRef, e)
          end
      end
  end.

(** One turn of [createLoop]. *)
Definition createTurn : F unit :=
  f ← fget (λ f, f);
  match createQueue f with
  | [] => mret ()
  | t :: rest =>
      fmodify (set_createQueue rest) ;;
      made ← makeBattle (fSelf f) t;
      a ← post false made.1;
      match a with
      | None => postCreate (mkCreateResult t made.1 made.2)
      | Some _ => if negb (ID made.1 =? 0) then tryStop made.1 ;; mret () else mret ()
      end
  end.

(** The barrier, the evidence and the stop of one request. *)
Definition barrier (ref : ServiceRef) : F (error rtError * BattleDiagnosticEvidence) :=
  a ← fask (λ l, ansBarrier l ref);
  fnote (FCalled ref a) ;;
  match a with
  | Some e => mret (Some e, zeroEvidence)
  | None => ev ← fask (λ l, ansCapture l ref); fnote (FCalled ref None) ;; mret (None, default zeroEvidence ev)
  end.
Definition stopTurn : F unit :=
  f ← fget (λ f, f);
  match stopQueue f with
  | [] => mret ()
  | r :: rest =>
      fmodify (set_stopQueue rest) ;;
      b ← (if negb (siRelease r) then barrier (siRef r) else mret (None, zeroEvidence));
      err ← (match b.1 with Some e => mret (Some e) | None => tryStop (siRef r) end);
      let err := match err with
                 | Some e => if siRelease r && (errors_Is e ErrServiceClosed || errors_Is e ErrServiceNotFound) then None else Some e
                 | None => None
                 end in
      a ← post true (siRef r);
      match a with
      | None => postStop (mkStopResult r (match err with Some e => errorText e | None => "" end)
                            (match err with Some e => isLifecycleDefect e | None => false end) b.2)
      | Some _ => mret ()
      end
  end.

(** ** Runs *)

Definition rootRef (f : BattleFactoryService) : ServiceRef := mkRef (Node (fSelf f)) 0.
(** The results reach the mailbox from the workers only. *)
Definition external (f : BattleFactoryService) (source : ServiceRef) (c : factoryCommand) : Prop :=
  match c with ApplyFactoryCreateResult _ | ApplyFactoryStopResult _ => isRootSource f source = false | _ => True end.
Definition withResults (cs : list applyFactoryCreateResult) (ss : list applyFactoryStopResult) (w : fworld) : fworld := mkFW (factory w) (flog w) cs ss.

Inductive fstep : fworld → fworld → Prop :=
| f_handle source c w : external (factory w) source c → fstep w (handleFactory source c w).1
| f_create w : fstep w (createTurn w).1
| f_stop w : fstep w (stopTurn w).1
| f_created w r rest : createResults w = r :: rest →
    fstep w (handleFactory (rootRef (factory w)) (ApplyFactoryCreateResult (Some r)) (withResults rest (stopResults w) w)).1
| f_stopped w r rest : stopResults w = r :: rest →
    fstep w (handleFactory (rootRef (factory w)) (ApplyFactoryStopResult (Some r)) (withResults (createResults w) rest w)).1.
End Factory.

(** * The factory of the card battles: no service is forgotten

    [factoryOk] follows every service the creator has made through the factory, and
    ties what is answered to the host to what the host asked.  [system] puts the factory
    and the host together: each handles what the other has sent it, and the theorems
    about the host need no assumption about the factory any more. *)

(** ** Where a service is *)

Definition held (f : BattleFactoryService) (ref : ServiceRef) : Prop := ∃ id b, battles f !! id = Some b ∧ fbRef b = ref.
Definition tried (l : list factoryEvent) (ref : ServiceRef) : Prop := ∃ a, FStopTried ref a ∈ l.
(** The three ways the code gives a service up: the queue for orphans is full, the
    barrier of an orphan failed, the mailbox refused the result of a stop. *)
Definition givenUp (l : list factoryEvent) (ref : ServiceRef) : Prop :=
  (∃ id, FOrphanDropped id ref ∈ l) ∨ (∃ id, FOrphanKept id ref ∈ l) ∨ (∃ e, FPosted true ref (Some e) ∈ l).
Definition accounted (w : fworld) (ref : ServiceRef) : Prop :=
  held (factory w) ref ∨ (∃ r, r ∈ createResults w ∧ crRef r = ref) ∨ (∃ r, r ∈ stopQueue (factory w) ∧ siRef r = ref)
  ∨ (∃ r, r ∈ stopResults w ∧ siRef (srRequest r) = ref) ∨ tried (flog w) ref ∨ givenUp (flog w) ref.

Definition asked (l : list factoryEvent) (t : factoryCreateTask) : Prop := FReceived (ciHost (ftRequest t)) (ftRequest t) ∈ l.

(** [hand]: services that a step holds and has not put anywhere yet. *)
Record factoryOk (hand : list ServiceRef) (w : fworld) : Prop := {
  fo_made : ∀ id ref, FMade id ref ∈ flog w → ID ref ≠ 0 → accounted w ref ∨ ref ∈ hand;
  fo_queued : ∀ r, r ∈ stopQueue (factory w) → siOrphan r = false → held (factory w) (siRef r) ∨ tried (flog w) (siRef r);
  fo_stopped : ∀ r, r ∈ stopResults w → siOrphan (srRequest r) = false → held (factory w) (siRef (srRequest r)) ∨ tried (flog w) (siRef (srRequest r));
  fo_success : ∀ r, r ∈ stopResults w → srErr r = "" → tried (flog w) (siRef (srRequest r));
  fo_failed : ∀ r, r ∈ createResults w → crErr r ≠ "" → ID (crRef r) = 0;
  fo_tasks : ∀ t, t ∈ createQueue (factory w) → asked (flog w) t;
  fo_results : ∀ r, r ∈ createResults w → asked (flog w) (crTask r);
  fo_answers : ∀ to r a, FSent to (Created r) a ∈ flog w → ∃ q, FReceived to q ∈ flog w ∧ ciOperationID q = acOperationID r ∧ cbBattleID (ciRequest q) = acBattleID r
}.

Lemma tried_app l l' ref : tried l ref → tried (l ++ l') ref.
Proof. intros [a H]. exists a. apply elem_of_app. by left. Qed.
Lemma givenUp_app l l' ref : givenUp l ref → givenUp (l ++ l') ref.
Proof. intros [[id H]|[[id H]|[e H]]]; [left|right; left|right; right]; eexists; apply elem_of_app; by left. Qed.

(** What a step may always do: keep the queues and lose nothing. *)
Lemma accounted_mono w w' ref : accounted w ref →
  (held (factory w) ref → held (factory w') ref ∨ tried (flog w') ref) → (∀ r, r ∈ createResults w → r ∈ createResults w') →
  (∀ r, r ∈ stopQueue (factory w) → r ∈ stopQueue (factory w')) → (∀ r, r ∈ stopResults w → r ∈ stopResults w') →
  (∃ l, flog w' = flog w ++ l) → accounted w' ref.
Proof.
  intros [H|[(r & H & Hr)|[(r & H & Hr)|[(r & H & Hr)|[H|H]]]]] H1 H2 H3 H4 [l Hl]; unfold accounted.
  - destruct (H1 H); tauto.
  - right. left. exists r. auto.
  - do 2 right. left. exists r. auto.
  - do 3 right. left. exists r. auto.
  - do 4 right. left. rewrite Hl. by apply tried_app.
  - do 5 right. rewrite Hl. by apply givenUp_app.
Qed.

(** ** Steps *)

Definition answersReceived (l : list factoryEvent) (e : factoryEvent) : Prop :=
  match e with
  | FSent to (Created r) _ => ∃ q, FReceived to q ∈ l ∧ ciOperationID q = acOperationID r ∧ cbBattleID (ciRequest q) = acBattleID r
  | _ => True
  end.
Lemma ok_event hand hand' w e : factoryOk hand w → hand ⊆ hand' → (∀ id ref, e = FMade id ref → ref ∈ hand') → answersReceived (flog w) e →
  factoryOk hand' (mkFW (factory w) (flog w ++ [e]) (createResults w) (stopResults w)).
Proof.
  intros [H1 H2 H3 H4 H5 H6 H7 H8] Hh He Ha. split; cbn.
  - intros id ref Hin Hid. apply elem_of_app in Hin as [Hin|Hin]; [|apply list_elem_of_singleton in Hin; right; by apply (He id)].
    destruct (H1 id ref Hin Hid) as [Hx|Hx]; [left|right; by apply Hh]. apply (accounted_mono w); cbn; eauto.
  - intros r Hr Ho. destruct (H2 r Hr Ho); [by left|right; by apply tried_app].
  - intros r Hr Ho. destruct (H3 r Hr Ho); [by left|right; by apply tried_app].
  - intros r Hr Ho. by apply tried_app, H4.
  - done.
  - intros t Ht. unfold asked. apply elem_of_app. left. by apply H6.
  - intros r Hr. unfold asked. apply elem_of_app. left. by apply H7.
  - intros to r a Hin. assert (∃ q, FReceived to q ∈ flog w ∧ ciOperationID q = acOperationID r ∧ cbBattleID (ciRequest q) = acBattleID r) as (q & Hq & Hq').
    { apply elem_of_app in Hin as [Hin|Hin]; [by apply (H8 to r a)|]. apply list_elem_of_singleton in Hin. by subst e. }
    exists q. split; [apply elem_of_app; by left|done].
Qed.

Lemma ok_put hand ref w : factoryOk (ref :: hand) w → accounted w ref ∨ ref ∈ hand → factoryOk hand w.
Proof.
  intros [H1 H2 H3 H4 H5 H6 H7 H8] Ha. split; try done. intros id r Hin Hid. destruct (H1 id r Hin Hid) as [?|Hx]; [by left|].
  apply elem_of_cons in Hx as [->|?]; [done|by right].
Qed.
Lemma ok_zero hand ref w : factoryOk (ref :: hand) w → ID ref = 0 → factoryOk hand w.
Proof.
  intros [H1 H2 H3 H4 H5 H6 H7 H8] Ha. split; try done. intros id r Hin Hid. destruct (H1 id r Hin Hid) as [?|Hx]; [by left|].
  apply elem_of_cons in Hx as [->|?]; [done|by right].
Qed.

(** A change of the fields: no service is let go of before it was stopped, new stop
    requests are for services that are held, new tasks were asked for. *)
Record fieldsOk (l : list factoryEvent) (f f' : BattleFactoryService) : Prop := {
  fd_held : ∀ ref, held f ref → held f' ref ∨ tried l ref;
  fd_stop : ∀ r, r ∈ stopQueue f → r ∈ stopQueue f';
  fd_stop_new : ∀ r, r ∈ stopQueue f' → r ∈ stopQueue f ∨ siOrphan r = true ∨ held f' (siRef r);
  fd_create : ∀ t, t ∈ createQueue f' → t ∈ createQueue f ∨ asked l t
}.
Lemma ok_fields hand w f' : factoryOk hand w → fieldsOk (flog w) (factory w) f' → factoryOk hand (mkFW f' (flog w) (createResults w) (stopResults w)).
Proof.
  intros [H1 H2 H3 H4 H5 H6 H7 H8] [D1 D2 D3 D4]. split; cbn; try done.
  - intros id ref Hin Hid. destruct (H1 id ref Hin Hid) as [Ha|Ha]; [left|by right]. apply (accounted_mono w); cbn; auto. exists []. by rewrite app_nil_r.
  - intros r Hr Ho. destruct (D3 r Hr) as [Hr'|[Hr'|Hr']]; [|congruence|by left]. destruct (H2 r Hr' Ho); [by apply D1|by right].
  - intros r Hr Ho. destruct (H3 r Hr Ho); [by apply D1|by right].
  - intros t Ht. destruct (D4 t Ht); [by apply H6|done].
Qed.
(** The fields that hold no service. *)
Lemma fields_same l f f' : battles f' = battles f → stopQueue f' = stopQueue f → createQueue f' = createQueue f → fieldsOk l f f'.
Proof. intros Hb Hs Hc. split; unfold held; rewrite ?Hb, ?Hs, ?Hc; auto. Qed.
Lemma fields_battles l f g : (∀ ref, held f ref → held (set_battles g f) ref ∨ tried l ref) → fieldsOk l f (set_battles g f).
Proof. intros Hh. by split; auto. Qed.

Lemma service_held_insert f id b ref : (∀ b', battles f !! id = Some b' → fbRef b = fbRef b') → held f ref → held (set_battles (<[id := b]> (battles f)) f) ref.
Proof.
  intros Hb (id' & b' & Hx & Hr). destruct (decide (id = id')) as [<-|Hne]; [exists id, b|exists id', b']; cbn.
  - rewrite lookup_insert_eq. split; [done|]. by rewrite (Hb _ Hx).
  - by rewrite lookup_insert_ne.
Qed.
Lemma service_held_delete f id ref : held f ref → held (set_battles (delete id (battles f)) f) ref ∨ ∃ b, battles f !! id = Some b ∧ fbRef b = ref.
Proof.
  intros (id' & b & Hx & Hr). destruct (decide (id = id')) as [<-|Hne]; [right; by exists b|left]. exists id', b. cbn. by rewrite lookup_delete_ne.
Qed.

(** ** The operations *)

Definition fwp {X} (m : F X) (w : fworld) (Q : X → fworld → Prop) : Prop := Q (m w).2 (m w).1.
Lemma fwp_bind {X Y} (m : F X) (k : X → F Y) w Q : fwp m w (λ x w', fwp (k x) w' Q) → fwp (m ≫= k) w Q.
Proof. unfold fwp, mbind, f_bind. by destruct (m w). Qed.
Lemma fwp_weaken {X} (m : F X) w (P Q : X → fworld → Prop) : fwp m w P → (∀ x w', P x w' → Q x w') → fwp m w Q.
Proof. intros H Hi. by apply Hi. Qed.
Lemma fwp_seq {X Y} (m : F X) (k : X → F Y) w P Q : fwp m w P → (∀ x w', P x w' → fwp (k x) w' Q) → fwp (m ≫= k) w Q.
Proof. intros H Hk. apply fwp_bind. by apply (fwp_weaken _ _ _ _ H). Qed.
Lemma fwp_get {X Y} (f : BattleFactoryService → X) (k : X → F Y) w Q : fwp (k (f (factory w))) w Q → fwp (fget f ≫= k) w Q.
Proof. done. Qed.
Lemma fwp_ask {X Y} (f : list factoryEvent → X) (k : X → F Y) w Q : fwp (k (f (flog w))) w Q → fwp (fask f ≫= k) w Q.
Proof. done. Qed.
Lemma fwp_ret {X} (x : X) w (Q : X → fworld → Prop) : Q x w → fwp (mret x) w Q.
Proof. done. Qed.

Abbreviation okAfter hand := (λ _ w', factoryOk hand w') (only parsing).

Section Operations.
Context {E : FactoryEnv}.

Lemma fwp_send {X} to m (k : error rtError → F X) w Q :
  (∀ a, fwp (k a) (mkFW (factory w) (flog w ++ [FSent to m a]) (createResults w) (stopResults w)) Q) → fwp (sendHost to m ≫= k) w Q.
Proof. intros H. apply H. Qed.
Lemma fwp_battles {X} g (k : unit → F X) w Q :
  fwp (k ()) (mkFW (set_battles (g (battles (factory w))) (factory w)) (flog w) (createResults w) (stopResults w)) Q → fwp (onBattles g ≫= k) w Q.
Proof. done. Qed.
Lemma ok_fnote hand w e : factoryOk hand w → (∀ id ref, e ≠ FMade id ref) → answersReceived (flog w) e → fwp (fnote e) w (okAfter hand).
Proof. intros Hok He Ha. apply (ok_event hand); [done|done|by intros id ref ->; destruct (He id ref)|done]. Qed.
Lemma ok_sendHost hand to m w : factoryOk hand w → (∀ a, answersReceived (flog w) (FSent to m a)) → fwp (sendHost to m) w (okAfter hand).
Proof. intros Hok Ha. unfold sendHost. apply fwp_ask, (fwp_seq _ _ _ (okAfter hand)); [by apply ok_fnote|done]. Qed.
Lemma ok_report hand r ref err w : factoryOk hand w → FReceived (ciHost r) r ∈ flog w → fwp (reportCreateResult r ref err) w (okAfter hand).
Proof. intros Hok Hr. apply ok_sendHost; [done|]. intros a. by exists r. Qed.

(** An offer: what is known of the rest of the world afterwards. *)
Lemma ok_offerStop hand r w : factoryOk hand w → siOrphan r = true ∨ held (factory w) (siRef r) →
  fwp (offerStop r) w (λ ok w', factoryOk hand w' ∧ battles (factory w') = battles (factory w) ∧ flog w' = flog w ∧ (ok = true → r ∈ stopQueue (factory w'))).
Proof.
  intros Hok Hr. unfold offerStop. apply fwp_get. destruct (_ <? _); [|by apply fwp_ret].
  apply fwp_bind. split; [|split; [done|split; [done|]]].
  - apply ok_fields; [done|]. split; cbn; auto.
    + intros x Hx. apply elem_of_app. by left.
    + intros x Hx. apply elem_of_app in Hx as [?|Hx]; [by left|]. apply list_elem_of_singleton in Hx. subst x. right. destruct Hr; [by left|by right].
  - intros _. cbn. apply elem_of_app. right. by apply list_elem_of_singleton.
Qed.
Lemma ok_orphan hand id ref generation w : factoryOk (ref :: hand) w → fwp (enqueueOrphanStop id ref generation) w (λ _ w', factoryOk hand w' ∧ ∀ e, e ∈ flog w → e ∈ flog w').
Proof.
  intros Hok. unfold enqueueOrphanStop. eapply fwp_seq; [apply (ok_offerStop _ _ _ Hok); by left|]. intros ok w' (Hok' & _ & Hl & Hq). destruct ok.
  - apply fwp_ret. rewrite Hl. split; [|done]. apply (ok_put _ ref); [done|]. left. do 2 right. left. eexists. split; [by apply Hq|done].
  - split.
    + apply (ok_put _ ref). { apply (ok_fnote _ _ _ Hok'); done. }
      left. do 5 right. left. exists id. cbn. apply elem_of_app. right. by apply list_elem_of_singleton.
    + intros e He. cbn. rewrite Hl. apply elem_of_app. by left.
Qed.

Lemma ok_offerCreate hand t w : factoryOk hand w → asked (flog w) t →
  fwp (offerCreate t) w (λ _ w', factoryOk hand w' ∧ flog w' = flog w).
Proof.
  intros Hok Ht. unfold offerCreate. apply fwp_get. destruct (_ <? _); [|by apply fwp_ret]. apply fwp_bind. split; [|done].
  apply ok_fields; [done|]. split; cbn; auto. intros x Hx. apply elem_of_app in Hx as [?|Hx]; [by left|]. apply list_elem_of_singleton in Hx. subst x. by right.
Qed.
Lemma ok_onCreating hand g w : factoryOk hand w → fwp (onCreating g) w (λ _ w', factoryOk hand w' ∧ flog w' = flog w ∧ battles (factory w') = battles (factory w)).
Proof. intros Hok. split; [|done]. apply ok_fields; [done|]. by apply fields_same. Qed.

Lemma asked_taskOf l f r : asked l (taskOf f r) ↔ FReceived (ciHost r) r ∈ l.
Proof. unfold asked, taskOf. by destruct (_ =? _), (factoryOutput f) as [[? ?] ?]. Qed.
Lemma ok_createInternal source p w : factoryOk [] w → fwp (createInternal source p) w (okAfter []).
Proof.
  intros Hok. unfold createInternal. destruct p as [r|]; [|done]. case_bool_decide as Hs; [done|].
  assert (source = ciHost r) as -> by (by destruct (decide (source = ciHost r))).
  apply (fwp_seq _ _ _ (λ _ w', factoryOk [] w' ∧ FReceived (ciHost r) r ∈ flog w')).
  { split; [by apply ok_fnote|]. cbn. apply elem_of_app. right. by apply list_elem_of_singleton. }
  clear w Hok. intros [] w [Hok Hr]. apply fwp_get. cbv zeta. destruct (generationClosed _ _); [by apply ok_report|].
  destruct (creating (factory w) !! _); [by apply ok_report|]. destruct (battles (factory w) !! _); [by apply ok_report|].
  eapply fwp_seq; [by apply (ok_onCreating [])|]. intros [] w1 (Hok1 & Hl1 & _). rewrite <- Hl1 in Hr.
  eapply fwp_seq; [apply (ok_offerCreate []); [done|]|].
  { by rewrite asked_taskOf. }
  intros [] w2 [Hok2 Hl2]; [done|]. rewrite <- Hl2 in Hr. eapply fwp_seq; [by apply (ok_onCreating [])|]. intros [] w3 (Hok3 & Hl3 & _). rewrite <- Hl3 in Hr. by apply ok_report.
Qed.

Lemma ok_applyCreateResult r w : factoryOk [crRef r] w → asked (flog w) (crTask r) → (crErr r ≠ "" → ID (crRef r) = 0) → fwp (applyCreateResult r) w (okAfter []).
Proof.
  intros Hok Ht Hf. unfold applyCreateResult. apply fwp_get. cbv zeta. case_bool_decide.
  { destruct (Z.eqb_spec (ID (crRef r)) 0) as [Hz|Hz]; cbn [negb]; [by apply (ok_zero _ _ _ Hok)|].
    eapply fwp_seq; [by apply (ok_orphan [])|]. by intros [] w' [Hok' _]. }
  generalize (generationClosed (factory w) (cbGeneration (ciRequest (ftRequest (crTask r))))). intros closed.
  eapply fwp_seq; [by apply (ok_onCreating [crRef r])|]. intros [] w1 (Hok1 & Hl1 & Hb1). rewrite <- Hb1. unfold asked in Ht. rewrite <- Hl1 in Ht. clear w Hok Hl1 H Hb1.
  set (request := ftRequest (crTask r)) in *. destruct (_ || _) eqn:Hg.
  { apply ok_report; [|done]. apply (ok_zero _ (crRef r)); [done|]. apply orb_true_iff in Hg as [Hg|Hg]; [|by apply Z.eqb_eq].
    apply Hf. apply negb_true_iff, bool_decide_eq_false in Hg. done. }
  assert (∀ text, fwp (enqueueOrphanStop (cbBattleID (ciRequest request)) (crRef r) (cbGeneration (ciRequest request)) ;; reportCreateResult request zeroRef text) w1 (okAfter [])) as Horphan.
  { intros text. eapply fwp_seq; [by apply (ok_orphan [])|]. intros [] w' [Hok' Hl]. apply ok_report; [done|by apply Hl]. }
  destruct closed; [apply Horphan|]. destruct (battles (factory w1) !! cbBattleID (ciRequest request)) as [b|] eqn:Hb; [apply Horphan|].
  set (nb := mkFactoryBattle (crRef r) (cbGeneration (ciRequest request)) (ciHost request) false false).
  apply fwp_battles. unfold reportCreateResult. apply fwp_send. set (m := Created _). intros a. cbn [flog factory createResults stopResults].
  assert (factoryOk [crRef r] (mkFW (factory w1) (flog w1 ++ [FSent (ciHost request) m a]) (createResults w1) (stopResults w1))) as Hok3.
  { apply (ok_event [crRef r]); [done|done|done|]. by exists request. }
  destruct a as [e|].
  - apply fwp_battles. destruct w1 as [[fs cq sq cr bs ct fo fr fa] l cs ss].
    cbn [flog factory createResults stopResults set_battles battles fSelf createQueue stopQueue creating closedThrough factoryOutput fReplaySubmitter fAISubmitter] in *.
    unfold set_battles. cbn [battles fSelf createQueue stopQueue creating closedThrough factoryOutput fReplaySubmitter fAISubmitter].
    rewrite delete_insert_id by done. eapply fwp_seq; [by apply (ok_orphan [])|]. by intros [] w' [Hok' _].
  - apply fwp_ret. apply (ok_put _ (crRef r)).
    + apply (ok_fields [crRef r] (mkFW (factory w1) _ _ _)); [done|]. apply fields_battles. intros ref Hh. left. apply service_held_insert; [|done]. by rewrite Hb.
    + left. left. exists (cbBattleID (ciRequest request)), nb. split; [apply lookup_insert_eq|done].
Qed.
(** A battle whose flags change keeps its service. *)
Lemma ok_flag hand id b b' w : factoryOk hand w → battles (factory w) !! id = Some b → fbRef b' = fbRef b →
  factoryOk hand (mkFW (set_battles (<[id := b']> (battles (factory w))) (factory w)) (flog w) (createResults w) (stopResults w)).
Proof.
  intros Hok Hb Hr. apply ok_fields; [done|]. apply fields_battles. intros ref Hh. left. apply service_held_insert; [|done]. intros x Hx. congruence.
Qed.
Lemma heldAt w id b : battles (factory w) !! id = Some b → held (factory w) (fbRef b).
Proof. intros H. by exists id, b. Qed.

Lemma ok_stopInternal source p w : factoryOk [] w → fwp (stopInternal source p) w (okAfter []).
Proof.
  intros Hok. unfold stopInternal. destruct p as [r|]; [|done]. apply fwp_get. destruct (battles (factory w) !! siBattleID r) as [b|] eqn:Hb; [|done].
  destruct (_ || _) eqn:Hg; [done|]. rewrite !orb_false_iff in Hg. destruct Hg as [[[[[Hr _] _] _] _] _]. apply bool_decide_eq_false in Hr.
  assert (fbRef b = siRef r) as Hr' by (by destruct (decide (fbRef b = siRef r))).
  eapply fwp_seq; [apply (ok_offerStop _ _ _ Hok); right; cbn; rewrite <- Hr'; by apply (heldAt _ _ _ Hb)|].
  intros ok w' (Hok' & Hb' & _). destruct ok; [|done]. rewrite <- Hb' in Hb. apply fwp_battles, fwp_ret. by apply (ok_flag _ _ b).
Qed.

Lemma ok_stopEach generation l w : factoryOk [] w → NoDup l.*1 → (∀ id b, (id, b) ∈ l → battles (factory w) !! id = Some b) →
  fwp (stopEach generation l) w (okAfter []).
Proof.
  revert w. induction l as [|[id b] l IH]; intros w Hok Hnd Hl; [done|]. cbn [stopEach fmap list_fmap fst] in *. apply NoDup_cons in Hnd as [Hid Hnd].
  assert (battles (factory w) !! id = Some b) as Hb by (apply Hl; by left).
  destruct (_ || _); [apply IH; [done|done|intros; apply Hl; by right]|].
  eapply fwp_seq; [apply (ok_offerStop _ _ _ Hok); right; by apply (heldAt _ _ _ Hb)|]. intros ok w' (Hok' & Hb' & _). destruct ok; [|done].
  rewrite <- Hb' in Hb. apply fwp_battles. apply IH; [by apply (ok_flag _ _ b)|done|]. intros id' b' Hin. cbn.
  rewrite lookup_insert_ne; [rewrite Hb'; apply Hl; by right|]. intros ->. apply Hid. by apply (list_elem_of_fmap_2 fst _ (id', b')).
Qed.

Hypothesis range_all : ∀ l m, rangeOrder l m ≡ₚ map_to_list m.
Lemma ok_stopGeneration source p w : factoryOk [] w → fwp (stopGeneration source p) w (okAfter []).
Proof.
  intros Hok. unfold stopGeneration. apply fwp_get. destruct p as [generation|]; [|done]. destruct (_ || _); [done|].
  apply (fwp_seq _ _ _ (λ _ w', factoryOk [] w' ∧ battles (factory w') = battles (factory w))).
  { destruct (_ <? _); [|done]. split; [|done]. apply ok_fields; [done|]. by apply fields_same. }
  intros [] w' [Hok' Hb']. apply fwp_ask. apply ok_stopEach; [done|by rewrite range_all; apply NoDup_fst_map_to_list|].
  intros id b. rewrite range_all, elem_of_map_to_list. by rewrite Hb'.
Qed.
Lemma ok_bindOutput source p w : factoryOk [] w → fwp (bindOutput source p) w (okAfter []).
Proof.
  intros Hok. unfold bindOutput. apply fwp_get. destruct p as [[[g ref] rep]|]; [|done]. destruct (_ || _); [done|]. apply ok_fields; [done|]. by apply fields_same.
Qed.
Lemma ok_unbindOutput source p w : factoryOk [] w → fwp (unbindOutput source p) w (okAfter []).
Proof.
  intros Hok. unfold unbindOutput. apply fwp_get. destruct p as [g|]; [|done]. destruct (negb _); [done|]. apply (fwp_seq _ _ _ (okAfter [])); [|done].
  destruct (_ =? _); [|done]. apply ok_fields; [done|]. by apply fields_same.
Qed.
Lemma ok_reportQuarantined source p w : factoryOk [] w → fwp (reportQuarantined source p) w (okAfter []).
Proof.
  intros Hok. unfold reportQuarantined. apply fwp_get. destruct p as [r|]; [|done]. destruct (_ && _); [done|].
  destruct (battles (factory w) !! brBattleID r) as [b|] eqn:Hb; [|done]. case_bool_decide; [|done]. apply fwp_battles, fwp_ret. by apply (ok_flag _ _ b).
Qed.

(** A result of a stop: the service was held or its stop was tried; a success was. *)
Lemma ok_applyStopResult r w (q := srRequest r) : factoryOk [siRef q] w → (siOrphan q = false → held (factory w) (siRef q) ∨ tried (flog w) (siRef q)) →
  (srErr r = "" → tried (flog w) (siRef q)) → fwp (applyStopResult r) w (okAfter []).
Proof.
  intros Hok Hheld Hdone. unfold applyStopResult. cbv zeta. fold q. destruct (siOrphan q).
  { case_bool_decide as Herr; [apply fwp_bind, fwp_ret, fwp_ret|apply (fwp_seq _ _ _ (okAfter [])); [|done]]; apply (ok_put _ (siRef q)).
    - done.
    - left. do 4 right. left. by apply Hdone.
    - by apply ok_fnote.
    - left. do 5 right. right. left. exists (siBattleID q). cbn. apply elem_of_app. right. by apply list_elem_of_singleton. }
  assert (factoryOk [] w) as Hok0.
  { apply (ok_put _ (siRef q)); [done|]. left. destruct (Hheld eq_refl); [by left|do 4 right; by left]. }
  clear Hok Hheld. apply fwp_get. destruct (battles (factory w) !! siBattleID q) as [b|] eqn:Hb; [|done]. case_bool_decide as Hr; [done|].
  assert (fbRef b = siRef q) as Hr' by (by destruct (decide (fbRef b = siRef q))).
  apply (fwp_seq _ _ _ (okAfter [])).
  { case_bool_decide as Herr; [|by apply (ok_flag _ _ b)]. apply ok_fields; [done|]. apply fields_battles. intros ref Hh.
    destruct (service_held_delete _ (siBattleID q) _ Hh) as [?|(b' & Hb' & Hrb)]; [by left|right]. rewrite Hb in Hb'. injection Hb' as <-. rewrite <- Hrb, Hr'. by apply Hdone. }
  clear w Hok0 Hb Hdone. intros [] w Hok. apply (fwp_seq _ _ _ (okAfter [])).
  - destruct (_ && _); [|done]. apply (fwp_seq _ _ _ (okAfter [])); [by apply ok_sendHost|]. clear w Hok. intros _ w Hok.
    unfold fwp, onBattles, fmodify. cbn [fst]. destruct (battles (factory w) !! siBattleID q) as [b'|] eqn:Hb'; [by apply (ok_flag _ _ b')|].
    apply ok_fields; [done|]. apply fields_battles. auto.
  - clear w Hok. intros [] w Hok. destruct (negb _); [by apply ok_sendHost|done].
Qed.

(** ** The workers *)

Lemma ok_hand hand hand' w : factoryOk hand w → hand ⊆ hand' → factoryOk hand' w.
Proof. intros [H1 H2 H3 H4 H5 H6 H7 H8] Hh. split; try done. intros id ref Hin Hid. destruct (H1 id ref Hin Hid); [by left|right; by apply Hh]. Qed.

Lemma ok_makeBattle self t w : factoryOk [] w →
  fwp (makeBattle self t) w (λ x w', factoryOk [x.1] w' ∧ (x.2 ≠ "" → ID x.1 = 0) ∧ ∀ e, e ∈ flog w → e ∈ flog w').
Proof.
  intros Hok. assert (∀ e, fwp (mret (zeroRef, e)) w (λ x w', factoryOk [x.1] w' ∧ (x.2 ≠ "" → ID x.1 = 0) ∧ ∀ e, e ∈ flog w → e ∈ flog w')) as Hfail.
  { intros e. apply fwp_ret. split; [apply (ok_hand [] _ _ Hok); set_solver|done]. }
  unfold makeBattle. cbv zeta. apply fwp_ask. destruct (NewBattleService _ _) as [b|e]; [|apply Hfail].
  destruct (newBattleQuarantineBoundary _ _); [|apply Hfail]. apply fwp_ask. destruct (ansCreate _ _) as [ref|e]; [|apply Hfail].
  apply fwp_bind, fwp_ret. split; [|split; [done|]].
  - apply (ok_event []); [done|set_solver|intros id ref' [= _ <-]; set_solver|done].
  - intros e He. apply elem_of_app. by left.
Qed.

Lemma ok_post hand stop ref w : factoryOk hand w → fwp (post stop ref) w (λ a w', factoryOk hand w' ∧ FPosted stop ref a ∈ flog w' ∧ factory w' = factory w ∧ ∀ e, e ∈ flog w → e ∈ flog w').
Proof.
  intros Hok. unfold post. apply fwp_ask, fwp_bind, fwp_ret. split; [by apply (ok_event hand)|]. split; [apply elem_of_app; right; by apply list_elem_of_singleton|].
  split; [done|]. intros e He. apply elem_of_app. by left.
Qed.
Lemma ok_tryStop hand ref w : factoryOk hand w → fwp (tryStop ref) w (λ _ w', factoryOk hand w' ∧ tried (flog w') ref ∧ factory w' = factory w).
Proof.
  intros Hok. unfold tryStop. apply fwp_ask, fwp_bind, fwp_ret. split; [by apply (ok_event hand)|]. split; [|done]. eexists. apply elem_of_app. right. by apply list_elem_of_singleton.
Qed.

Lemma ok_postCreate r w : factoryOk [crRef r] w → asked (flog w) (crTask r) → (crErr r ≠ "" → ID (crRef r) = 0) → fwp (postCreate r) w (okAfter []).
Proof.
  intros [H1 H2 H3 H4 H5 H6 H7 H8] Ht Hf. split; cbn; try done.
  - intros id ref Hin Hid. left. destruct (H1 id ref Hin Hid) as [Ha|Ha].
    + apply (accounted_mono w); cbn; auto; [intros x Hx; apply elem_of_app; by left|]. exists []. by rewrite app_nil_r.
    + apply list_elem_of_singleton in Ha. right. left. exists r. split; [cbn; apply elem_of_app; right; by apply list_elem_of_singleton|done].
  - intros x Hx. apply elem_of_app in Hx as [Hx|Hx]; [by apply H5|]. apply list_elem_of_singleton in Hx. by subst x.
  - intros x Hx. apply elem_of_app in Hx as [Hx|Hx]; [by apply H7|]. apply list_elem_of_singleton in Hx. by subst x.
Qed.

Lemma ok_createTurn w : factoryOk [] w → fwp createTurn w (okAfter []).
Proof.
  intros Hok. unfold createTurn. apply fwp_get. destruct (createQueue (factory w)) as [|t rest] eqn:Hq; [done|]. generalize (fSelf (factory w)). intros self.
  assert (asked (flog w) t) as Ht by (apply (fo_tasks _ _ Hok); rewrite Hq; by left).
  apply (fwp_seq _ _ _ (λ _ w', factoryOk [] w' ∧ flog w' = flog w)).
  { split; [|done]. apply ok_fields; [done|]. split; cbn; auto. intros x Hx. left. rewrite Hq. by right. }
  intros [] w1 [Hok1 Hl1]. eapply fwp_seq; [by apply (ok_makeBattle self t)|]. cbv beta. intros made w2 (Hok2 & Hf & Hl2).
  eapply fwp_seq; [by apply (ok_post [made.1] false made.1)|]. intros a w3 (Hok3 & Hp & _ & Hl3). destruct a as [e|].
  - destruct (Z.eqb_spec (ID made.1) 0) as [Hz|Hz]; cbn [negb]; [by apply (ok_zero _ made.1)|].
    eapply fwp_seq; [by apply (ok_tryStop [made.1] made.1)|]. intros _ w4 (Hok4 & Ht4 & _). apply fwp_ret, (ok_put _ made.1); [done|]. left. do 4 right. by left.
  - apply ok_postCreate; [done| |done]. unfold asked. cbn. apply Hl3, Hl2. by rewrite Hl1.
Qed.

Lemma ok_postStop r w (q := srRequest r) : factoryOk [siRef q] w → (siOrphan q = false → held (factory w) (siRef q) ∨ tried (flog w) (siRef q)) →
  (srErr r = "" → tried (flog w) (siRef q)) → fwp (postStop r) w (okAfter []).
Proof.
  intros [H1 H2 H3 H4 H5 H6 H7 H8] Hh Ht. split; cbn; try done.
  - intros id ref Hin Hid. left. destruct (H1 id ref Hin Hid) as [Ha|Ha].
    + apply (accounted_mono w); cbn; auto; [intros x Hx; apply elem_of_app; by left|]. exists []. by rewrite app_nil_r.
    + apply list_elem_of_singleton in Ha. do 3 right. left. exists r. split; [cbn; apply elem_of_app; right; by apply list_elem_of_singleton|done].
  - intros x Hx. apply elem_of_app in Hx as [Hx|Hx]; [by apply H3|]. apply list_elem_of_singleton in Hx. by subst x.
  - intros x Hx. apply elem_of_app in Hx as [Hx|Hx]; [by apply H4|]. apply list_elem_of_singleton in Hx. by subst x.
Qed.

Hypothesis barrier_named : ∀ l ref e, ansBarrier l ref = Some e → errorText e ≠ "".
Lemma ok_barrier hand ref w : factoryOk hand w →
  fwp (barrier ref) w (λ x w', factoryOk hand w' ∧ (∀ e, x.1 = Some e → errorText e ≠ "") ∧ factory w' = factory w ∧ ∀ e, e ∈ flog w → e ∈ flog w').
Proof.
  intros Hok. unfold barrier. apply fwp_ask. destruct (ansBarrier (flog w) ref) as [e|] eqn:Hb.
  - apply fwp_bind, fwp_ret. split; [by apply (ok_event hand)|]. split; [intros e' [= <-]; by apply (barrier_named _ _ _ Hb)|]. split; [done|]. intros e' He. apply elem_of_app. by left.
  - apply fwp_bind, fwp_ask, fwp_bind, fwp_ret. split; [|split; [done|split; [done|]]].
    + apply (ok_event hand (hand) (mkFW _ _ _ _)); [by apply (ok_event hand)|done|done|done].
    + intros e' He. cbn. rewrite !elem_of_app. auto.
Qed.

Lemma ok_stopTurn w : factoryOk [] w → fwp stopTurn w (okAfter []).
Proof.
  intros Hok. unfold stopTurn. apply fwp_get. destruct (stopQueue (factory w)) as [|r rest] eqn:Hq; [done|].
  apply (fwp_seq _ _ _ (λ _ w', factoryOk [siRef r] w' ∧ (siOrphan r = false → held (factory w') (siRef r) ∨ tried (flog w') (siRef r)))).
  { destruct Hok as [H1 H2 H3 H4 H5 H6 H7 H8]. split; [|intros Ho; apply H2; [rewrite Hq; by left|done]]. split; cbn; try done.
    - intros id ref Hin Hid. destruct (H1 id ref Hin Hid) as [Ha|Ha]; [|set_solver]. unfold accounted in Ha |- *. cbn. rewrite Hq in Ha.
      destruct Ha as [?|[?|[(x & Hx & Hxr)|?]]]; [tauto..| |tauto]. apply elem_of_cons in Hx as [->|Hx]; [right; by apply list_elem_of_singleton|].
      left. do 2 right. left. by exists x.
    - intros x Hx. apply H2. rewrite Hq. by right. }
  clear w Hok Hq. intros [] w [Hok Hh].
  set (safe := λ w', factoryOk [siRef r] w' ∧ (siOrphan r = false → held (factory w') (siRef r) ∨ tried (flog w') (siRef r))).
  assert (∀ w', safe w → factory w' = factory w → (∀ e, e ∈ flog w → e ∈ flog w') → siOrphan r = false → held (factory w') (siRef r) ∨ tried (flog w') (siRef r)) as Hsafe.
  { intros w' [_ Hs] Hf Hl Ho. rewrite Hf. destruct (Hs Ho) as [?|[a Ha]]; [by left|right]. exists a. by apply Hl. }
  apply (fwp_seq _ _ _ (λ x w', safe w' ∧ ∀ e, x.1 = Some e → errorText e ≠ "" ∧ siRelease r = false)).
  { destruct (siRelease r); cbn [negb]; [done|]. eapply fwp_weaken; [by apply (ok_barrier [siRef r])|]. cbv beta. intros x w' (Hok' & Hn & Hf & Hl).
    split; [split; [done|by apply Hsafe]|]. intros e He. split; [by apply Hn|done]. }
  clear w Hok Hh Hsafe. intros b w [[Hok Hh] Hn].
  apply (fwp_seq _ _ _ (λ x w', safe w' ∧ (tried (flog w') (siRef r) ∨ ∃ e, x = Some e ∧ errorText e ≠ "" ∧ siRelease r = false))).
  { destruct (b.1) as [e|]; [apply fwp_ret; split; [done|right]; exists e; split; [done|by apply Hn]|]. eapply fwp_weaken; [by apply (ok_tryStop [siRef r])|].
    cbv beta. intros x w' (Hok' & Ht & Hf). split; [split; [done|by right]|by left]. }
  clear w Hok Hh Hn. intros err w [[Hok Hh] Ht]. cbv zeta. eapply fwp_seq; [by apply (ok_post [siRef r] true (siRef r))|]. cbv beta. intros a w' (Hok' & Hp & Hf & Hl).
  assert (tried (flog w) (siRef r) → tried (flog w') (siRef r)) as Hmono by (intros [x Hx]; exists x; by apply Hl).
  destruct a as [e|].
  - apply fwp_ret, (ok_put _ (siRef r)); [done|]. left. do 5 right. right. right. by exists e.
  - apply ok_postStop; cbn; [done| |].
    + intros Ho. rewrite Hf. destruct (Hh Ho); [by left|right; by apply Hmono].
    + intros Herr. destruct Ht as [?|(e & -> & He & Hre)]; [by apply Hmono|]. by rewrite Hre in Herr.
Qed.

(** ** Runs *)

Lemma ok_popCreate w r rest : factoryOk [] w → createResults w = r :: rest → factoryOk [crRef r] (withResults rest (stopResults w) w).
Proof.
  intros [H1 H2 H3 H4 H5 H6 H7 H8] Hq. rewrite Hq in *. split; cbn; try done.
  - intros id ref Hin Hid. destruct (H1 id ref Hin Hid) as [Ha|Ha]; [|set_solver]. unfold accounted in Ha |- *. cbn. rewrite Hq in Ha.
    destruct Ha as [?|[(x & Hx & Hxr)|?]]; [tauto| |tauto]. apply elem_of_cons in Hx as [->|Hx]; [right; by apply list_elem_of_singleton|].
    left. right. left. by exists x.
  - intros x Hx. apply H5. by right.
  - intros x Hx. apply H7. by right.
Qed.
Lemma ok_popStop w r rest : factoryOk [] w → stopResults w = r :: rest → factoryOk [siRef (srRequest r)] (withResults (createResults w) rest w).
Proof.
  intros [H1 H2 H3 H4 H5 H6 H7 H8] Hq. rewrite Hq in *. split; cbn; try done.
  - intros id ref Hin Hid. destruct (H1 id ref Hin Hid) as [Ha|Ha]; [|set_solver]. unfold accounted in Ha |- *. cbn. rewrite Hq in Ha.
    destruct Ha as [?|[?|[?|[(x & Hx & Hxr)|?]]]]; [tauto..| |tauto]. apply elem_of_cons in Hx as [->|Hx]; [right; by apply list_elem_of_singleton|].
    left. do 3 right. left. by exists x.
  - intros x Hx. apply H3. by right.
  - intros x Hx. apply H4. by right.
Qed.

Lemma ok_external source c w : factoryOk [] w → external (factory w) source c → fwp (handleFactory source c) w (okAfter []).
Proof.
  intros Hok Hx. destruct c as [p|p|p|p|p|p|p|p|]; cbn [handleFactory].
  - by apply ok_createInternal.
  - by apply ok_stopInternal.
  - by apply ok_bindOutput.
  - by apply ok_unbindOutput.
  - by apply ok_stopGeneration.
  - by apply ok_reportQuarantined.
  - cbn in Hx. apply fwp_get. destruct p; [by rewrite Hx|done].
  - cbn in Hx. apply fwp_get. destruct p; [by rewrite Hx|done].
  - done.
Qed.
Lemma root_isRoot f : isRootSource f (rootRef f) = true.
Proof. unfold isRootSource, rootRef. cbn. by rewrite bool_decide_true. Qed.
Lemma ok_step w w' : factoryOk [] w → fstep w w' → factoryOk [] w'.
Proof.
  intros Hok Hs. destruct Hs as [source c w Hx|w|w|w r rest Hq|w r rest Hq].
  - by apply ok_external.
  - by apply ok_createTurn.
  - by apply ok_stopTurn.
  - apply (fwp_get (λ f, f) _ _ (okAfter [])). cbn [withResults factory]. rewrite root_isRoot.
    apply ok_applyCreateResult; [by apply ok_popCreate|apply (fo_results _ _ Hok)|apply (fo_failed _ _ Hok)]; rewrite Hq; by left.
  - apply (fwp_get (λ f, f) _ _ (okAfter [])). cbn [withResults factory]. rewrite root_isRoot.
    apply ok_applyStopResult; [by apply ok_popStop|apply (fo_stopped _ _ Hok)|apply (fo_success _ _ Hok)]; rewrite Hq; by left.
Qed.
Lemma ok_new self replay ai : factoryOk [] (mkFW (newFactory self replay ai) [] [] []).
Proof. split; cbn; intros; set_solver. Qed.
End Operations.
