(* ===== verification/NhskSystem.v ===== *)
(** * The host and the factory together

    [system] is the host of [src/examples/nhsk/host.go] and its factory with what each
    has sent the other and the other has not handled yet.  A run interleaves their
    handlers, the two workers of the factory and commands from elsewhere; the runtime
    says who sent a command, so nobody else speaks for the host or for the factory.

    The theorems about the host assume that the factory answers only what it was asked;
    here that is proved of the factory. *)

From stdpp Require Import prelude gmap strings list.
From Stdlib Require Import ZArith Lia.
From S2P Require Import Prelude Types Game NhskBattle NhskQuarantine NhskHost NhskHostFacts NhskFactory.

Local Open Scope Z_scope.

(** ** What the factory was asked *)

Definition received (l : list factoryEvent) : list (ServiceRef * createBattleInternal) :=
  omap (λ e, match e with FReceived source r => Some (source, r) | _ => None end) l.
Lemma received_in l source r : (source, r) ∈ received l ↔ FReceived source r ∈ l.
Proof.
  unfold received. rewrite list_elem_of_omap. split; [|intros H; by exists (FReceived source r)].
  intros (e & He & Hx). destruct e; try done. by injection Hx as <- <-.
Qed.

Definition deaf {X} (m : F X) : Prop := ∀ w, received (flog (m w).1) = received (flog w).
Lemma deaf_bind {X Y} (m : F X) (k : X → F Y) : deaf m → (∀ x, deaf (k x)) → deaf (m ≫= k).
Proof. intros Hm Hk w. unfold mbind, f_bind. specialize (Hm w). destruct (m w) as [w' x]. cbn in Hm. rewrite <- Hm. apply Hk. Qed.
Lemma deaf_same {X} (m : F X) : (∀ w, flog (m w).1 = flog w) → deaf m.
Proof. intros H w. by rewrite H. Qed.
Lemma deaf_note e : match e with FReceived _ _ => False | _ => True end → deaf (fnote e).
Proof. intros He w. unfold received. cbn. rewrite omap_app. destruct e; try done; cbn; by rewrite app_nil_r. Qed.
Lemma received_after {X} e (k : unit → F X) w : (∀ x, deaf (k x)) → received (flog ((fnote e ≫= k) w).1) = received (flog w ++ [e]).
Proof. intros Hk. exact (Hk () (mkFW (factory w) (flog w ++ [e]) (createResults w) (stopResults w))). Qed.
Ltac deafness :=
  repeat first
    [ progress cbv zeta
    | apply deaf_bind; [|intros ?]
    | apply deaf_same; intros ?; reflexivity
    | apply deaf_note; exact I
    | lazymatch goal with
      | |- deaf (match ?x with _ => _ end) => destruct x
      end ].

(** Nothing is removed from the log of the host. *)
Definition grows {X} (m : H X) : Prop := ∀ w, ∃ l, hlog (m w).1 = hlog w ++ l.
Lemma grows_bind {X Y} (m : H X) (k : X → H Y) : grows m → (∀ x, grows (k x)) → grows (m ≫= k).
Proof.
  intros Hm Hk w. unfold mbind, h_bind. destruct (Hm w) as [l Hl]. destruct (m w) as [w' x]. cbn in Hl. destruct (Hk x w') as [l' Hl'].
  exists (l ++ l'). by rewrite Hl', Hl, app_assoc.
Qed.
Lemma grows_same {X} (m : H X) : (∀ w, hlog (m w).1 = hlog w) → grows m.
Proof. intros H w. exists []. by rewrite H, app_nil_r. Qed.
Lemma grows_note e : grows (hnote e).
Proof. intros w. by exists [e]. Qed.
Ltac growth :=
  repeat first
    [ progress cbv zeta
    | apply grows_bind; [|intros ?]
    | apply grows_note
    | apply grows_same; intros ?; reflexivity
    | lazymatch goal with
      | |- grows (match ?x with _ => _ end) => destruct x
      end ].

Section System.
Context {EH : HostEnv} {EF : FactoryEnv}.

Lemma deaf_sendHost to m : deaf (sendHost to m).
Proof. unfold sendHost. deafness. Qed.
Lemma deaf_orphan id ref g : deaf (enqueueOrphanStop id ref g).
Proof. unfold enqueueOrphanStop, offerStop. deafness. Qed.
Lemma deaf_applyCreateResult r : deaf (applyCreateResult r).
Proof. unfold applyCreateResult, reportCreateResult. repeat first [apply deaf_sendHost | apply deaf_orphan | progress deafness]. Qed.
Lemma deaf_applyStopResult r : deaf (applyStopResult r).
Proof. unfold applyStopResult. repeat first [apply deaf_sendHost | progress deafness]. Qed.
Lemma deaf_stopEach g l : deaf (stopEach g l).
Proof. induction l as [|[id b] l IH]; cbn [stopEach]; unfold offerStop; repeat first [exact IH | progress deafness]. Qed.
Lemma deaf_makeBattle self t : deaf (makeBattle self t).
Proof. unfold makeBattle. deafness. Qed.
Lemma deaf_createTurn : deaf createTurn.
Proof. unfold createTurn, post, tryStop. repeat first [apply deaf_makeBattle | progress deafness]. Qed.
Lemma deaf_stopTurn : deaf stopTurn.
Proof. unfold stopTurn, post, tryStop, barrier. deafness. Qed.

(** Only a request to create is one, from the host it names. *)
Definition asks (source : ServiceRef) (c : factoryCommand) : list (ServiceRef * createBattleInternal) :=
  match c with CreateBattleInternal (Some r) => if bool_decide (source ≠ ciHost r) then [] else [(source, r)] | _ => [] end.
Lemma received_handle source c w : received (flog (handleFactory source c w).1) = received (flog w) ++ asks source c.
Proof.
  destruct c as [p|p|p|p|p|p|p|p|]; cbn [handleFactory asks].
  1: { unfold createInternal. destruct p as [q|]; [|by rewrite app_nil_r]. destruct (bool_decide _); [by rewrite app_nil_r|].
       rewrite received_after by (intros ?; unfold reportCreateResult, offerCreate; repeat first [apply deaf_sendHost | progress deafness]).
       unfold received at 1. by rewrite omap_app. }
  all: rewrite app_nil_r; match goal with |- received (flog (?m ?v).1) = _ => assert (deaf m) as Hd; [|by rewrite (Hd v)] end.
  - unfold stopInternal, offerStop. deafness.
  - unfold bindOutput. deafness.
  - unfold unbindOutput. deafness.
  - unfold stopGeneration. repeat first [apply deaf_stopEach | progress deafness].
  - unfold reportQuarantined. deafness.
  - repeat first [apply deaf_applyCreateResult | progress deafness].
  - repeat first [apply deaf_applyStopResult | progress deafness].
  - deafness.
Qed.

Lemma handleHost_grows source c : grows (handleHost source c).
Proof.
  assert (∀ v, grows (hreply v)) as Hreply by (intros v; unfold hreply; growth).
  destruct c; cbn [handleHost]; unfold beginCreate, beginLegacyReplacement, createFresh, submitCreate, sendFactory, getOperation, resolve, deleteBattle, applyCreated, applyStopped,
    replacementStopped, gaugeQuarantined, applyQuarantined, submitDiagnostic, hnow, applyDiagnosticResult, listQuarantined, retryDiagnostic, releaseQuarantined, newOperation, forgetCreate;
    repeat first [apply Hreply | progress growth].
Qed.

(** ** The system *)

Record system := mkSystem { sHost : hworld; sFactory : fworld; toHost : list hostMessage; toFactory : list factoryMessage }.

(** What the entries of a log after the first [n] say was delivered to the other. *)
Definition forFactory (n : nat) (l : list hostEvent) : list factoryMessage :=
  omap (λ e, match e with FactorySent m None => Some m | _ => None end) (drop n l).
Definition forHost (n : nat) (l : list factoryEvent) : list hostMessage :=
  omap (λ e, match e with FSent to m None => if bool_decide (to = hSelf) then Some m else None | _ => None end) (drop n l).
Definition hostDoes (w : hworld) (toHost : list hostMessage) (s : system) : system :=
  mkSystem w (sFactory s) toHost (toFactory s ++ forFactory (length (hlog (sHost s))) (hlog w)).
Definition factoryDoes (w : fworld) (toFactory : list factoryMessage) (s : system) : system :=
  mkSystem (sHost s) w (toHost s ++ forHost (length (flog (sFactory s))) (flog w)) toFactory.

Definition asHostCommand (m : hostMessage) : hostCommand :=
  match m with
  | Created r => ApplyBattleCreated (Some r)
  | Stopped r => ApplyBattleStopped (Some r)
  | Quarantined r => ReportBattleQuarantined (Some r)
  end.
Definition asFactoryCommand (m : factoryMessage) : factoryCommand :=
  match m with MCreate r => CreateBattleInternal (Some r) | MStop r => StopBattleInternal (Some r) end.

Inductive label :=
| HostFrom (source : ServiceRef) (c : hostCommand)
| HostFromFactory
| FactoryFrom (source : ServiceRef) (c : factoryCommand)
| FactoryFromHost
| CreateTurn
| StopTurn
| CreateDone
| StopDone.

Definition isExternal (f : BattleFactoryService) (source : ServiceRef) (c : factoryCommand) : bool :=
  match c with ApplyFactoryCreateResult _ | ApplyFactoryStopResult _ => negb (isRootSource f source) | _ => true end.
Definition systemStep (l : label) (s : system) : option system :=
  let h := sHost s in
  let f := sFactory s in
  let room := nextOp (host h) + 1 <? 2 ^ 64 in
  match l with
  | HostFrom source c =>
      if room && bool_decide (source ≠ hFactory (host h)) then Some (hostDoes (handleHost source c h).1 (toHost s) s) else None
  | HostFromFactory =>
      match toHost s with
      | m :: rest => if room then Some (hostDoes (handleHost (hFactory (host h)) (asHostCommand m) h).1 rest s) else None
      | [] => None
      end
  | FactoryFrom source c =>
      if bool_decide (source ≠ hSelf) && isExternal (factory f) source c then Some (factoryDoes (handleFactory source c f).1 (toFactory s) s) else None
  | FactoryFromHost =>
      match toFactory s with m :: rest => Some (factoryDoes (handleFactory hSelf (asFactoryCommand m) f).1 rest s) | [] => None end
  | CreateTurn => Some (factoryDoes (createTurn f).1 (toFactory s) s)
  | StopTurn => Some (factoryDoes (stopTurn f).1 (toFactory s) s)
  | CreateDone =>
      match createResults f with
      | r :: rest => Some (factoryDoes (handleFactory (rootRef (factory f)) (ApplyFactoryCreateResult (Some r)) (withResults rest (stopResults f) f)).1 (toFactory s) s)
      | [] => None
      end
  | StopDone =>
      match stopResults f with
      | r :: rest => Some (factoryDoes (handleFactory (rootRef (factory f)) (ApplyFactoryStopResult (Some r)) (withResults (createResults f) rest f)).1 (toFactory s) s)
      | [] => None
      end
  end.
Fixpoint systemRun (ls : list label) (s : system) : option system :=
  match ls with [] => Some s | l :: ls => match systemStep l s with Some s => systemRun ls s | None => None end end.

Definition newSystem (h0 : NHSKHostService) (replay ai : bool) : system := mkSystem (mkHW h0 []) (mkFW (newFactory (hFactory h0) replay ai) [] [] []) [] [].

Hypothesis range_all : ∀ l m, rangeOrder l m ≡ₚ map_to_list m.
Hypothesis barrier_named : ∀ l ref e, ansBarrier l ref = Some e → errorText e ≠ "".

(** ** The invariant *)

Record systemOk (h0 : NHSKHostService) (s : system) : Prop := {
  so_host : hostReach h0 (sHost s);
  so_factory : factoryOk [] (sFactory s);
  so_sent : ∀ r, MCreate r ∈ toFactory s → r ∈ createsOf (hlog (sHost s));
  so_received : ∀ r, FReceived hSelf r ∈ flog (sFactory s) → r ∈ createsOf (hlog (sHost s));
  so_answers : ∀ r, Created r ∈ toHost s → ∃ q, FReceived hSelf q ∈ flog (sFactory s) ∧ ciOperationID q = acOperationID r ∧ cbBattleID (ciRequest q) = acBattleID r
}.

Lemma systemOk_new h0 replay ai : hostReach h0 (mkHW h0 []) → systemOk h0 (newSystem h0 replay ai).
Proof. intros Hr. split; [done|by apply ok_new|..]; intros r Hx; by apply elem_of_nil in Hx. Qed.


Lemma hostDoes_ok h0 source c rest s : systemOk h0 s → nextOp (host (sHost s)) + 1 < 2 ^ 64 → answersCreate (sHost s) source c → (∀ m, m ∈ rest → m ∈ toHost s) →
  systemOk h0 (hostDoes (handleHost source c (sHost s)).1 rest s).
Proof.
  intros [S1 S2 S3 S4 S5] Hn Ha Hrest. destruct (handleHost_grows source c (sHost s)) as [l Hl].
  assert (∀ r, r ∈ createsOf (hlog (sHost s)) → r ∈ createsOf (hlog (handleHost source c (sHost s)).1)) as Hmono.
  { intros r Hr. rewrite Hl. unfold createsOf. rewrite omap_app, elem_of_app. by left. }
  split; cbn [hostDoes sHost sFactory toHost toFactory]; [by apply host_step|done| |auto|auto].
  intros r Hr. apply elem_of_app in Hr as [Hr|Hr]; [auto|]. unfold forFactory in Hr. rewrite Hl, drop_app_length in Hr. rewrite Hl. unfold createsOf.
  rewrite omap_app, elem_of_app. right. apply list_elem_of_omap in Hr as (e & He & Hx). apply list_elem_of_omap. exists e. split; [done|].
  destruct e as [m [x|]| | | | |]; try done. by injection Hx as ->.
Qed.

(** A step of the factory that was asked nothing new by the host, or what the host sent. *)
Lemma factoryDoes_ok h0 w rest s : systemOk h0 s → factoryOk [] w → (∀ m, m ∈ rest → m ∈ toFactory s) →
  (∀ r, FReceived hSelf r ∈ flog (sFactory s) → FReceived hSelf r ∈ flog w) →
  (∀ r, FReceived hSelf r ∈ flog w → FReceived hSelf r ∈ flog (sFactory s) ∨ MCreate r ∈ toFactory s) →
  systemOk h0 (factoryDoes w rest s).
Proof.
  intros [S1 S2 S3 S4 S5] Hok Hrest Hfw Hbw. split; cbn [factoryDoes sHost sFactory toHost toFactory]; [done|done|auto| |].
  - intros r Hr. destruct (Hbw r Hr); auto.
  - intros r Hr. apply elem_of_app in Hr as [Hr|Hr].
    + destruct (S5 r Hr) as (q & Hq & Hq'). exists q. split; [by apply Hfw|done].
    + unfold forHost in Hr. apply list_elem_of_omap in Hr as (e & He & Hx).
      assert (e ∈ flog w) as He' by (rewrite <- (take_drop (length (flog (sFactory s))) (flog w)); apply elem_of_app; by right).
      destruct e as [| to m [x|]| | | | | |]; try done. case_bool_decide as Hto; [|done]. injection Hx as ->. subst to. apply (fo_answers _ _ Hok _ _ _ He').
Qed.

Lemma system_step h0 l s s' : systemOk h0 s → systemStep l s = Some s' → systemOk h0 s'.
Proof.
  intros Hok Hs. pose proof (so_factory _ _ Hok) as Hf. destruct l as [source c| |source c| | | | |]; cbn [systemStep] in Hs; cbv zeta in Hs.
  - destruct (_ && _) eqn:Hg; [|done]. apply (inj Some) in Hs; subst s'. apply andb_true_iff in Hg as [Hn Hsrc]. apply Z.ltb_lt in Hn. apply bool_decide_eq_true in Hsrc.
    apply hostDoes_ok; [done|done| |done]. destruct c as [| | | | |[r|]| | | | | | |]; try done. by intros Hx.
  - destruct (toHost s) as [|m rest] eqn:Hq; [done|]. destruct (Z.ltb_spec (nextOp (host (sHost s)) + 1) (2 ^ 64)) as [Hn|]; [|done]. apply (inj Some) in Hs; subst s'.
    apply hostDoes_ok; [done|done| |intros x Hx; rewrite Hq; by right]. destruct m as [r| |]; cbn; [|done..]. intros _.
    destruct (so_answers _ _ Hok r) as (q & Hr & Hq'); [rewrite Hq; by left|]. exists q. split; [by apply (so_received _ _ Hok)|done].
  - destruct (_ && _) eqn:Hg; [|done]. apply (inj Some) in Hs; subst s'. apply andb_true_iff in Hg as [Hsrc Hx]. apply bool_decide_eq_true in Hsrc.
    apply factoryDoes_ok; [done| |done|..].
    + apply ok_external; [done|done|]. destruct c; try done; cbn in Hx |- *; by apply negb_true_iff.
    + intros r. rewrite <- !received_in, received_handle, elem_of_app. auto.
    + intros r. rewrite <- !received_in, received_handle, elem_of_app. intros [?|Ha]; [by left|]. destruct c as [[q|]| | | | | | | |]; try (by apply elem_of_nil in Ha).
      cbn in Ha. case_bool_decide; [by apply elem_of_nil in Ha|]. apply list_elem_of_singleton in Ha. injection Ha as <- _. done.
  - destruct (toFactory s) as [|m rest] eqn:Hq; [done|]. apply (inj Some) in Hs; subst s'. apply factoryDoes_ok; [done| |intros x Hx; rewrite Hq; by right|..].
    + apply ok_external; [done|done|]. by destruct m.
    + intros r. rewrite <- !received_in, received_handle, elem_of_app. auto.
    + intros r. rewrite <- !received_in, received_handle, elem_of_app, Hq. intros [?|Ha]; [by left|]. right. destruct m as [q|q]; cbn in Ha; [|by apply elem_of_nil in Ha].
      case_bool_decide; [by apply elem_of_nil in Ha|]. apply list_elem_of_singleton in Ha. injection Ha as ->. by left.
  - apply (inj Some) in Hs; subst s'. apply factoryDoes_ok; [done|by apply ok_createTurn|done|..]; intros r; rewrite <- !received_in, deaf_createTurn; auto.
  - apply (inj Some) in Hs; subst s'. apply factoryDoes_ok; [done|by apply ok_stopTurn|done|..]; intros r; rewrite <- !received_in, deaf_stopTurn; auto.
  - destruct (createResults (sFactory s)) as [|r rest] eqn:Hq; [done|]. apply (inj Some) in Hs; subst s'.
    apply factoryDoes_ok; [done|by apply (ok_step range_all barrier_named (sFactory s)); [|apply f_created]|done|..];
      intros x; rewrite <- !received_in, received_handle, app_nil_r; auto.
  - destruct (stopResults (sFactory s)) as [|r rest] eqn:Hq; [done|]. apply (inj Some) in Hs; subst s'.
    apply factoryDoes_ok; [done|by apply (ok_step range_all barrier_named (sFactory s)); [|apply f_stopped]|done|..];
      intros x; rewrite <- !received_in, received_handle, app_nil_r; auto.
Qed.

Lemma system_run h0 ls s s' : systemOk h0 s → systemRun ls s = Some s' → systemOk h0 s'.
Proof.
  revert s. induction ls as [|l ls IH]; intros s Hok Hr; [by injection Hr as <-|]. cbn in Hr. destruct (systemStep l s) as [s1|] eqn:Hs; [|done].
  apply (IH s1); [by apply (system_step h0 l s)|done].
Qed.

(** ** Properties *)

(** C27. The host and its factory never have more battles than the host was made for: in
    every run of the two, whatever others ask of them and whatever the runtime answers,
    the battles the host knows and those being created are at most the maximum
    together, and a number is bound to a service exactly while it is completed,
    stopping or quarantined.  The factory answers only creations it was asked for. *)
Theorem system_capacity max factory diagnostic h0 replay ai ls s :
  NewNHSKHostService max factory diagnostic = Ok h0 → 0 ≤ max < 2 ^ 32 → systemRun ls (newSystem h0 replay ai) = Some s →
  Z.of_nat (size (active (host (sHost s)))) + creatingCount (host (sHost s)) ≤ max
  ∧ (∀ b, bound (states (host (sHost s)) !! b) (active (host (sHost s)) !! b))
  ∧ ∀ r, Created r ∈ toHost s → ∃ q, q ∈ createsOf (hlog (sHost s)) ∧ ciOperationID q = acOperationID r ∧ cbBattleID (ciRequest q) = acBattleID r.
Proof.
  intros Hnew Hm Hr. pose proof (system_run h0 ls _ _ (systemOk_new h0 replay ai (host_new h0)) Hr) as Hok.
  destruct (reach_hostOk _ _ _ _ _ Hnew Hm (so_host _ _ Hok)) as [Hk Hmax]. pose proof (ho_total _ _ Hk) as Ht. rewrite Hmax in Ht.
  split; [apply Ht|]. split; [apply (ho_bound _ _ Hk)|]. intros r Hx. destruct (so_answers _ _ Hok r Hx) as (q & Hq & Hq').
  exists q. split; [by apply (so_received _ _ Hok)|done].
Qed.

(** C28. No service of a battle is forgotten: every service the runtime has made for the
    factory is the one of a battle it keeps, or is in the hands of one of its queues
    and workers, or its stop was tried, or it was given up in one of the three ways the
    code has: the queue of orphans was full, the barrier of an orphan failed, the
    mailbox refused the result of a stop. *)
Theorem services_accounted h0 replay ai ls s id ref :
  systemRun ls (newSystem h0 replay ai) = Some s → FMade id ref ∈ flog (sFactory s) → ID ref ≠ 0 → accounted (sFactory s) ref.
Proof.
  intros Hr Hm Hid. pose proof (system_run h0 ls _ _ (systemOk_new h0 replay ai (host_new h0)) Hr) as Hok.
  destruct (fo_made _ _ (so_factory _ _ Hok) id ref Hm Hid) as [?|Hx]; [done|by apply elem_of_nil in Hx].
Qed.
End System.

(** Everything is accepted, services get the numbers 901, 902, … *)
Definition acceptingFactory : FactoryEnv := {|
  ansHostMessage _ _ _ := None; ansCreate l _ := Ok (mkRef "n1" (901 + Z.of_nat (length l))); ansSeed _ := Some 5; ansStop _ _ := None; ansBarrier _ _ := None;
  ansCapture _ _ := None; ansPost _ := None; rangeOrder _ m := map_to_list m
|}.
#[local] Existing Instance acceptingHost.
#[local] Existing Instance acceptingFactory.
Lemma accepting_range l m : rangeOrder l m ≡ₚ map_to_list m.
Proof. reflexivity. Qed.
Lemma accepting_named l ref e : ansBarrier l ref = Some e → errorText e ≠ "".
Proof. done. Qed.

(** Two battles are created, the first is deleted, a third is asked for. *)
Definition sampleSchedule : list label :=
  [HostFrom admin (BeginCreateBattle (Some (mkCreateRequest 7 false 0))); HostFrom admin (BeginCreateBattle (Some (mkCreateRequest 8 false 0)));
   FactoryFromHost; FactoryFromHost; CreateTurn; CreateTurn; CreateDone; CreateDone; HostFromFactory; HostFromFactory;
   HostFrom admin (RequestDeleteBattle (Some (7, zeroRef, 0))); FactoryFromHost; StopTurn; StopDone; HostFromFactory;
   HostFrom admin (BeginCreateBattle (Some (mkCreateRequest 9 false 0)))].
Definition sampleSystem : system :=
  Eval vm_compute in default (newSystem sampleHost true true) (systemRun sampleSchedule (newSystem sampleHost true true)).
Lemma sampleSystem_run : systemRun sampleSchedule (newSystem sampleHost true true) = Some sampleSystem.
Proof. vm_compute. reflexivity. Qed.

Lemma system_capacity_witness : Z.of_nat (size (active (host (sHost sampleSystem)))) + creatingCount (host (sHost sampleSystem)) ≤ 2
  ∧ creatingCount (host (sHost sampleSystem)) = 1.
Proof.
  split; [|vm_compute; reflexivity].
  apply (system_capacity accepting_range accepting_named 2 (mkRef "n1" 801) true sampleHost true true sampleSchedule sampleSystem); [reflexivity|lia|exact sampleSystem_run].
Defined.
(** The second service, of battle 8, is still kept. *)
Lemma services_accounted_witness : FMade 8 (mkRef "n1" 905) ∈ flog (sFactory sampleSystem) ∧ accounted (sFactory sampleSystem) (mkRef "n1" 905).
Proof.
  assert (FMade 8 (mkRef "n1" 905) ∈ flog (sFactory sampleSystem)) as Hm by (cbn; repeat (first [apply list_elem_of_here | apply list_elem_of_further])).
  split; [exact Hm|]. apply (services_accounted accepting_range accepting_named sampleHost true true sampleSchedule sampleSystem 8); [exact sampleSystem_run|exact Hm|done].
Defined.
