(* ===== verification/NhskWire.v ===== *)
(** * The byte layouts of the old game master

    [src/examples/nhsk/internal/legacywire]: frames with a 24 byte header, the relay of
    client messages, the messages a battle sends, the messages clients and the game
    master send.  Every access to a slice is checked as Go checks it: a slice
    expression or an index out of range is [Crashed], a panic.  So that no input panics
    is a theorem, not a convention.

    A refusal carries the text of its error without the numbers formatted into it. *)

From stdpp Require Import prelude strings list.
From Stdlib Require Import ZArith Lia Strings.Byte.
From S2P Require Import Prelude Types Bytes.

Local Open Scope Z_scope.

(** ** Buffers *)

Inductive outcome (X : Type) := Got (x : X) | Refused (text : string) | Crashed.
Arguments Got {X} _.
Arguments Refused {X} _.
Arguments Crashed {X}.
#[global] Instance outcome_ret : MRet outcome := λ X x, Got x.
#[global] Instance outcome_bind : MBind outcome := λ X Y k m, match m with Got x => k x | Refused e => Refused e | Crashed => Crashed end.
(** A guard with an early return. *)
Definition guard_ (ok : bool) (text : string) : outcome unit := if ok then Got () else Refused text.
(** The error of a helper, with another text. *)
Definition rename {X} (text : string) (m : outcome X) : outcome X := match m with Refused _ => Refused text | _ => m end.

Definition le_bytes (n : nat) (v : Z) : list byte := reverse (be_bytes n v).
Definition le_value (l : list byte) : Z := be_value (reverse l).
(** [int32(x)] of a [uint32] *)
Definition int32 (z : Z) : Z := if z <? 2 ^ 31 then z else z - 2 ^ 32.

(** [d[a:b]] *)
Definition slice (d : list byte) (a b : Z) : outcome (list byte) :=
  if (0 <=? a) && (a <=? b) && (b <=? len d) then Got (take (Z.to_nat (b - a)) (drop (Z.to_nat a) d)) else Crashed.
(** [binary.LittleEndian.Uint32(d[a:a+4])] and the like *)
Definition u32at (d : list byte) (a : Z) : outcome Z := s ← slice d a (a + 4); mret (le_value s).
Definition u16at (d : list byte) (a : Z) : outcome Z := s ← slice d a (a + 2); mret (le_value s).
Definition i32at (d : list byte) (a : Z) : outcome Z := v ← u32at d a; mret (int32 v).
(** [d[a]] *)
Definition byteAt (d : list byte) (a : Z) : outcome Z := s ← slice d a (a + 1); mret (le_value s).

(** Writing [bs] at [a]; [copy] into a slice writes what fits. *)
Definition put (a : Z) (bs : list byte) (d : list byte) : outcome (list byte) :=
  if (0 <=? a) && (a + len bs <=? len d) then Got (take (Z.to_nat a) d ++ bs ++ drop (Z.to_nat (a + len bs)) d) else Crashed.
Definition u32 (v : Z) : list byte := le_bytes 4 v.
Definition u16 (v : Z) : list byte := le_bytes 2 v.
Definition u8 (v : Z) : list byte := le_bytes 1 v.
Definition flagByte (b : bool) : list byte := if b then u8 1 else [].
(** [make([]byte, n)] and the writes that follow, in order. *)
Definition build (n : Z) (writes : list (Z * list byte)) : outcome (list byte) :=
  foldl (λ m w, d ← m; put w.1 w.2 d) (Got (replicate (Z.to_nat n) x00)) writes.
(** Writes one after the other from [a] on, as a loop with a running offset does. *)
Fixpoint running (a : Z) (fields : list (list byte)) : list (Z * list byte) :=
  match fields with [] => [] | f :: fields => (a, f) :: running (a + len f) fields end.
(** [copy(d[a:a+n], s)] *)
Definition copyInto (n : Z) (s : list byte) : list byte := take (Z.to_nat n) s.
(** An array of bytes given as integers. *)
Definition byteArray (l : list Z) : list byte := byte_of_Z <$> l.

(** ** The header *)

Definition headerSize : Z := 24.
Record bsHeader := mkHeader { hdMagic : Z; hdSerial : Z; hdOrigin : Z; hdReserve : Z; hdType : Z; hdParam : Z; hdLength : Z }.
Definition headerFields (h : bsHeader) : list (list byte) :=
  [u32 (hdMagic h); u32 (hdSerial h); u16 (hdOrigin h); u16 (hdReserve h); u32 (hdType h); u32 (hdParam h); u32 (hdLength h)].
(** [encodeHeader(d[a:], h)] *)
Definition encodeHeader (a : Z) (h : bsHeader) : list (Z * list byte) := running a (headerFields h).
Definition typed (type length : Z) : bsHeader := mkHeader 0 0 0 0 type 0 length.
(** [decodeHeader(d[a:])] *)
Definition decodeHeader (d : list byte) (a : Z) : outcome bsHeader :=
  s ← slice d a (len d);
  if len s <? headerSize then Refused "legacywire: short BSHeader"
  else
    magic ← u32at s 0; serial ← u32at s 4; origin ← u16at s 8; reserve ← u16at s 10; type ← u32at s 12; param ← u32at s 16; length ← u32at s 20;
    mret (mkHeader magic serial origin reserve type param length).

Definition originGameMaster : Z := 100.
Definition originGameLogic : Z := 107.
Definition messageOrigin : Z := 0x0600.
Definition messageGameToAgentRelay : Z := 0x7400.
Definition messageAgentToGameRelay : Z := 0x7402.
Definition messageGMToGLGame : Z := 0x8605.
Definition messageGLToGMGame : Z := 0x8644.
Definition messageGLToGMGameStarted : Z := 0x8654.
Definition messageNHSKBase : Z := 0x7600.
Definition messageGameUserStateChange : Z := 0x720a.
Definition messageGameUserReconnect : Z := 0x7208.
Definition messageGameScene : Z := 0x720d.
Definition messageGameBroadcastUseProp : Z := 0x7218.
Definition messageGameStart : Z := 0x7205.
Definition messageNHSKGameInfo : Z := messageNHSKBase + 0x001.
Definition messageNHSKDeal : Z := messageNHSKBase + 0x002.
Definition messageNHSKAskOutCard : Z := messageNHSKBase + 0x003.
Definition messageNHSKOutCardInfo : Z := messageNHSKBase + 0x004.
Definition messageNHSKTurnEnd : Z := messageNHSKBase + 0x005.
Definition messageNHSKShowCards : Z := messageNHSKBase + 0x006.
Definition messageNHSKGameResult : Z := messageNHSKBase + 0x007.
Definition messageNHSKGameScene : Z := messageNHSKBase + 0x008.
Definition messageNHSKOutCardResult : Z := messageNHSKBase + 0x009.
Definition messageNHSKCardActionWatch : Z := messageNHSKBase + 0x011.
Definition messageNHSKOutCard : Z := messageNHSKBase + 0x101.
Definition messageNHSKCardAction : Z := messageNHSKBase + 0x102.

Definition encodeOrigin (origin : Z) : outcome (list byte) := build headerSize (encodeHeader 0 (mkHeader 0 0 origin 0 messageOrigin 0 headerSize)).

(** ** Frames *)

Definition legacyMaxFrameSize : Z := 8 * 1024.
Record Frame := mkFrame { frType : Z; frOrigin : Z; frBytes : list byte }.

(** [io.ReadFull] on what the connection delivers; [None] is [io.EOF] or a cut. *)
Definition readFullFrom (n : Z) (stream : list byte) : option (list byte * list byte) :=
  if n <=? len stream then Some (take (Z.to_nat n) stream, drop (Z.to_nat n) stream) else None.
Definition readLegacyFrame (stream : list byte) : outcome (bsHeader * list byte * list byte) :=
  match readFullFrom headerSize stream with
  | None => Refused (if len stream =? 0 then "EOF" else "legacywire: truncated frame")
  | Some (headerBytes, rest) =>
      header ← decodeHeader headerBytes 0;
      if (hdLength header <? headerSize) || (legacyMaxFrameSize <? hdLength header) then Refused "legacywire: invalid frame length"
      else match readFullFrom (hdLength header - headerSize) rest with
           | None => Refused "legacywire: truncated frame"
           | Some (body, rest) => mret (header, headerBytes ++ body, rest)
           end
  end.
Definition ReadFrame (stream : list byte) : outcome (Frame * list byte) :=
  r ← readLegacyFrame stream;
  let '(header, bytes, rest) := r in
  mret (mkFrame (hdType header) (hdOrigin header) bytes, rest).

(** The checks of [WriteFrame]; the bytes then go to the connection. *)
Definition WriteFrame (d : list byte) : outcome (list byte) :=
  if (len d <? headerSize) || (legacyMaxFrameSize <? len d) then Refused "legacywire: invalid frame length"
  else length ← u32at d 20; if negb (length =? len d) then Refused "legacywire: invalid frame length" else mret d.

(** [performOriginHandshake] on a connection that takes the origin: what is sent, and
    the rest of the stream. *)
Definition performOriginHandshake (timeout : Z) (stream : list byte) : outcome (list byte * list byte) :=
  if timeout <=? 0 then Refused "legacywire: origin handshake timeout must be positive"
  else
    sent ← encodeOrigin originGameLogic;
    r ← readLegacyFrame stream;
    let '(header, bytes, rest) := r in
    if negb (hdType header =? messageOrigin) || negb (hdOrigin header =? originGameMaster) || negb (len bytes =? headerSize)
    then Refused "legacywire: invalid GameMaster origin" else mret (sent, rest).

(** ** The relay *)

Definition glHeaderSize : Z := 34.
Definition gameHeaderSize : Z := 24.
Definition suffixIndexSize : Z := 8.
Definition relayFixedSize : Z := headerSize + gameHeaderSize + suffixIndexSize.
Definition gameFrameBase : Z := glHeaderSize + relayFixedSize.

Record GameHeader := mkGameHeader { ghUserID : Z; ghConnectType : Z; ghPlatformID : Z; ghMatchID : Z; ghProductID : Z; ghReserved : Z }.
Record InboundGameRelay := mkInbound { irBattleID : Z; irUserID : Z; irGameHeader : GameHeader; irPayload : list byte }.
Record OutboundGameRelay := mkOutbound { orBattleID : Z; orUserID : Z; orMatchID : Z; orProductID : Z; orPayload : list byte }.
Definition malformedRelay : string := "legacywire: malformed relay".

Definition DecodeInboundGameRelay (d : list byte) : outcome InboundGameRelay :=
  guard_ (gameFrameBase <=? len d) malformedRelay ;;
  guard_ (len d <=? legacyMaxFrameSize) malformedRelay ;;
  outer ← rename malformedRelay (decodeHeader d 0);
  guard_ (hdType outer =? messageGMToGLGame) malformedRelay ;;
  guard_ (negb (hdLength outer =? 0) && (hdLength outer =? len d)) malformedRelay ;;
  s ← slice d headerSize glHeaderSize;
  glLength ← u16at s 0;
  guard_ (glLength =? glHeaderSize) malformedRelay ;;
  inner ← slice d glHeaderSize (len d);
  innerHeader ← rename malformedRelay (decodeHeader inner 0);
  guard_ (hdType innerHeader =? messageAgentToGameRelay) malformedRelay ;;
  guard_ (negb (hdLength innerHeader =? 0) && (hdLength innerHeader =? len inner)) malformedRelay ;;
  suffixOffset ← u32at inner (headerSize + gameHeaderSize);
  suffixSize ← u32at inner (headerSize + gameHeaderSize + 4);
  guard_ (suffixOffset =? relayFixedSize) malformedRelay ;;
  guard_ (suffixOffset + suffixSize =? len inner) malformedRelay ;;
  user ← u32at inner headerSize;
  connect ← u32at inner (headerSize + 4);
  platform ← u32at inner (headerSize + 8);
  match_ ← u32at inner (headerSize + 12);
  product ← u32at inner (headerSize + 16);
  reserved ← u32at inner (headerSize + 20);
  payload ← slice inner suffixOffset (suffixOffset + suffixSize);
  battle ← u32at d 26;
  outerUser ← u32at d 30;
  mret (mkInbound battle outerUser (mkGameHeader user connect platform match_ product reserved) payload).

Definition EncodeOutboundGameRelay (m : OutboundGameRelay) : outcome (list byte) :=
  if legacyMaxFrameSize - gameFrameBase <? len (orPayload m) then Refused malformedRelay
  else
    let total := gameFrameBase + len (orPayload m) in
    let inner := relayFixedSize + len (orPayload m) in
    build total
      (encodeHeader 0 (typed messageGLToGMGame total)
       ++ [(headerSize, u16 glHeaderSize); (26, u32 (orBattleID m)); (30, u32 (orUserID m))]
       ++ encodeHeader glHeaderSize (typed messageGameToAgentRelay inner)
       ++ [(glHeaderSize + headerSize, u32 (orUserID m)); (glHeaderSize + headerSize + 12, u32 (orMatchID m));
           (glHeaderSize + headerSize + 16, u32 (orProductID m)); (glHeaderSize + headerSize + gameHeaderSize, u32 relayFixedSize);
           (glHeaderSize + headerSize + gameHeaderSize + 4, u32 (len (orPayload m))); (glHeaderSize + relayFixedSize, orPayload m)]).

(** ** What clients send *)

Definition hasNonzero (l : list byte) : bool := negb (forallb (λ b, byteZ b =? 0) l).

Definition DecodeClientGameplayMessage (d : list byte) : outcome Z :=
  guard_ ((headerSize <=? len d) && (len d <=? legacyMaxFrameSize)) "legacywire: invalid client gameplay frame length" ;;
  header ← rename "legacywire: decode client gameplay header" (decodeHeader d 0);
  guard_ (negb (hdLength header =? 0) && (hdLength header =? len d)) "legacywire: client gameplay header length" ;;
  mret (hdType header).

(** The checks that the fixed client messages share. *)
Definition fixedFrame (d : list byte) (size type : Z) (text : string) : outcome unit :=
  guard_ (len d =? size) text ;;
  header ← rename text (decodeHeader d 0);
  guard_ (hdType header =? type) text ;;
  guard_ (hdLength header =? size) text.

Definition cardCount26 : Z := 26.
Record OutCardRequest := mkOutCard { ocCards : list byte; ocCount : Z; ocVerifyCode : Z }.
Definition DecodeOutCardRequest (d : list byte) : outcome OutCardRequest :=
  let text := "legacywire: invalid OUT_CARD request" in
  fixedFrame d (headerSize + 31) messageNHSKOutCard text ;;
  count ← byteAt d (headerSize + cardCount26);
  verify ← u32at d (headerSize + cardCount26 + 1);
  guard_ (count <=? cardCount26) text ;;
  cards ← slice d headerSize (headerSize + cardCount26);
  after ← slice cards count (len cards);
  guard_ (negb (hasNonzero after)) text ;;
  before ← slice cards 0 count;
  mret (mkOutCard (before ++ replicate (Z.to_nat (cardCount26 - count)) x00) count verify).

Record CardActionRequest := mkCardAction { caCards : list byte; caCount : Z }.
Definition DecodeCardActionRequest (d : list byte) : outcome CardActionRequest :=
  let text := "legacywire: invalid CARD_ACTION request" in
  fixedFrame d (headerSize + 27) messageNHSKCardAction text ;;
  count ← byteAt d (headerSize + 26);
  guard_ (count <=? cardCount26) text ;;
  cards ← slice d headerSize (headerSize + cardCount26);
  after ← slice cards count (len cards);
  guard_ (negb (hasNonzero after)) text ;;
  before ← slice cards 0 count;
  mret (mkCardAction (before ++ replicate (Z.to_nat (cardCount26 - count)) x00) count).

Record UserStateChangeRequest := mkStateChange { ucUserID : Z; ucState : Z }.
Definition DecodeUserStateChange (d : list byte) : outcome UserStateChangeRequest :=
  fixedFrame d (headerSize + 8) messageGameUserStateChange "legacywire: invalid USER_STATE_CHANGE request" ;;
  user ← u32at d headerSize;
  state ← u32at d (headerSize + 4);
  mret (mkStateChange user state).

Record PlayerViewRequest := mkView { pvUserID : Z; pvMatchID : Z; pvProductID : Z }.
Definition decodePlayerViewRequest (d : list byte) (message : Z) : outcome PlayerViewRequest :=
  fixedFrame d (headerSize + gameHeaderSize) message "legacywire: invalid player view request" ;;
  user ← u32at d headerSize;
  match_ ← u32at d (headerSize + 12);
  product ← u32at d (headerSize + 16);
  mret (mkView user match_ product).
Definition DecodeUserReconnect (d : list byte) : outcome PlayerViewRequest := decodePlayerViewRequest d messageGameUserReconnect.
Definition DecodeGameSceneRequest (d : list byte) : outcome PlayerViewRequest := decodePlayerViewRequest d messageGameScene.

(** Zero bytes at the end are dropped. *)
Fixpoint dropZeros (l : list byte) : list byte := match l with b :: l' => if byteZ b =? 0 then dropZeros l' else l | [] => [] end.
Definition trimZero (l : list byte) : list byte := reverse (dropZeros (reverse l)).

(** [n] records of [size] bytes from [a] on. *)
Fixpoint records {X} (decode : Z → outcome X) (n : nat) (size a : Z) : outcome (list X) :=
  match n with
  | O => mret []
  | S n => x ← decode a; l ← records decode n size (a + size); mret (x :: l)
  end.

Record PropUse := mkPropUse { puSenderID : Z; puSendCount : Z; puPropID : string; puTargetIDs : list Z }.
Definition propUseFixedSize : Z := 52.
Definition DecodePropUse (d : list byte) : outcome PropUse :=
  guard_ ((propUseFixedSize <=? len d) && (len d <=? legacyMaxFrameSize)) "legacywire: invalid prop frame length" ;;
  header ← rename "legacywire: invalid prop header" (decodeHeader d 0);
  guard_ ((hdType header =? messageGameBroadcastUseProp) && (hdLength header =? len d)) "legacywire: invalid prop header" ;;
  propOffset ← u32at d 32;
  propSize ← u32at d 36;
  targetCount ← u32at d 40;
  targetOffset ← u32at d 44;
  targetSize ← u32at d 48;
  let propEnd := propOffset + propSize in
  let targetEnd := targetOffset + targetSize in
  guard_ ((propOffset =? propUseFixedSize) && (propEnd <=? len d) && (targetOffset =? propEnd) && (targetSize =? targetCount * 4) && (targetEnd =? len d))
    "legacywire: invalid prop suffixes" ;;
  targets ← records (u32at d) (Z.to_nat targetCount) 4 targetOffset;
  sender ← u32at d 28;
  sends ← u32at d 24;
  prop ← slice d propOffset propEnd;
  mret (mkPropUse sender sends (string_of (trimZero prop)) targets).

(** ** What the game master sends *)

Definition messageGM2GLInitGame : Z := 0x8600.
Definition messageGM2GLUpdatePlayer : Z := 0x8601.
Definition messageGM2GLCommand : Z := 0x8602.
Definition messageGM2GLChangeSeat : Z := 0x8603.
Definition messageGM2GLUpdateGame : Z := 0x8604.
Definition messageGM2GLGameMessage : Z := 0x8605.
Definition messageGM2GLPlayerExit : Z := 0x8606.
Definition messageGM2GLReplayMove : Z := 0x8607.
Definition messageGM2GLPlayerMoneyLimit : Z := 0x8608.
Definition messageGM2GLChangeRound : Z := 0x8609.
Definition messageGM2GLWithholdMoney : Z := 0x860a.
Definition messageGM2GLWithholdRefund : Z := 0x860b.
Definition messageGM2GLTakePoints : Z := 0x860c.
Definition messageGM2GLStartNewGame : Z := 0x860d.
Definition messageGM2GLDelOneGame : Z := 0x860e.
Definition messageGM2GLDress : Z := 0x8610.
Definition messageGM2GLNewGame : Z := 0x86c1.
Definition messageGM2GLDeleteGame : Z := 0x86c2.
Definition messageGM2GLSettlementAck : Z := 0x80008650.
Definition controlGLHeaderSize : Z := 34.
Definition controlSuffixSize : Z := 8.
Definition controlPlayerSize : Z := 90.
Definition settlementGainSize : Z := 12.
Definition settlementPlayerResultSize : Z := 20.

Record LegacySettlementGain := mkLegacyGain { lgPay : Z; lgGain : Z; lgScore : Z }.
Record LegacySettlementPlayerResult := mkLegacyResult { lrPlayerID : Z; lrFlag : Z; lrScore : Z; lrExp : Z; lrTeamID : Z }.
Record LegacyPlayer := mkLegacyPlayer {
  lpUserID : Z; lpClientID : Z; lpConnectionID : Z; lpSeatID : Z; lpScore : Z; lpFlag : Z; lpIsAI : bool; lpScoreChangeReason : Z;
  lpPlayerState : Z; lpPlayerFlag : Z; lpScoreChange : Z; lpExp : Z; lpNickname : string
}.
(** [LegacyControl] by kind, with the fields the kind sets; [UserID] is that of the
    [GLHeader]. *)
Record InitGame := mkInitGame {
  igProductID : Z; igMatchID : Z; igRoundID : Z; igGameID : Z; igGameType : Z; igScoreType : Z; igScoreMode : Z; igFee : Z; igScoreBase : Z;
  igScoreDenominator : Z; igMaxGameNum : Z; igMaxSubgameNum : Z; igRoomID : Z; igCreatorID : Z; igCreateTime : Z; igBaseRule : string;
  igGameRule : string; igMatchName : string; igRoundUniCode : string
}.
Record SettlementAck := mkAck {
  saSuccess : bool; saResultType : Z; saResultCount : Z; saPlayerCount : Z; saTeamCount : Z; saDetails : list LegacySettlementGain;
  saPlayers : list LegacySettlementPlayerResult
}.
Inductive ControlKind :=
| ControlNewGame (product game : Z) (newbie : bool)
| ControlInitGame (i : InitGame)
| ControlUpdatePlayers (players : list LegacyPlayer)
| ControlCommand (command : Z)
| ControlUpdateGame (gameNum subgameNum : Z)
| ControlStartNewGame (total used : Z) (roomInfo : string)
| ControlDress (dress : string)
| ControlPlayerExit (force : Z)
| ControlDeleteGame
| ControlSettlementAck (a : SettlementAck)
| ControlUnsupported.
Record LegacyControl := mkControl { lcType : Z; lcBattleID : Z; lcUserID : Z; lcKind : ControlKind }.

Definition readSuffixIndex (d : list byte) (index fixed : Z) : outcome (Z * Z) :=
  guard_ (index + controlSuffixSize <=? len d) "legacywire: suffix index outside frame" ;;
  offset ← u32at d index;
  size ← u32at d (index + 4);
  guard_ ((offset + size <=? len d) && (fixed <=? offset)) "legacywire: suffix boundary" ;;
  mret (offset, size).

Definition suffixBytes (d : list byte) (index fixed : Z) : outcome (list byte) :=
  i ← readSuffixIndex d index fixed;
  guard_ (i.1 + i.2 =? len d) "legacywire: suffix boundary" ;;
  slice d i.1 (i.1 + i.2).
Definition suffixString (d : list byte) (index fixed : Z) : outcome string := s ← suffixBytes d index fixed; mret (string_of (trimZero s)).
Definition allZero (l : list byte) : bool := forallb (λ b, byteZ b =? 0) l.

Definition decodeInitRuleSuffixes (d : list byte) : outcome (string * string * string) :=
  indexes ← slice d 68 92;
  if allZero indexes then mret ("", "", "")
  else
    base ← readSuffixIndex d 68 144;
    game ← readSuffixIndex d 76 144;
    match_ ← readSuffixIndex d 84 144;
    round ← readSuffixIndex d 136 144;
    guard_ ((base.1 =? 144) && (base.1 + base.2 =? game.1) && (game.1 + game.2 =? match_.1) && (match_.1 + match_.2 =? round.1))
      "legacywire: INIT_GAME suffix boundary" ;;
    b ← slice d base.1 (base.1 + base.2);
    g ← slice d game.1 (game.1 + game.2);
    m ← slice d match_.1 (match_.1 + match_.2);
    mret (string_of (trimZero b), string_of (trimZero g), string_of (trimZero m)).

(** [decodeLegacyPlayer(d[a:a+90])] *)
Definition decodeLegacyPlayer (s : list byte) (a : Z) : outcome LegacyPlayer :=
  d ← slice s a (a + controlPlayerSize);
  user ← u32at d 0; client ← u32at d 4; connection ← u32at d 8; seat ← byteAt d 12; score ← i32at d 13; flag ← u32at d 17; ai ← byteAt d 21;
  reason ← i32at d 22; state ← i32at d 26; pflag ← i32at d 30; change ← i32at d 34; exp ← i32at d 38; nick ← slice d 42 90;
  mret (mkLegacyPlayer user client connection seat score flag (negb (ai =? 0)) reason state pflag change exp (string_of (trimZero nick))).
Definition decodeGain (d : list byte) (a : Z) : outcome LegacySettlementGain :=
  pay ← u32at d a; gain ← u32at d (a + 4); score ← i32at d (a + 8); mret (mkLegacyGain pay gain score).
Definition decodePlayerResult (d : list byte) (a : Z) : outcome LegacySettlementPlayerResult :=
  player ← u32at d a; flag ← i32at d (a + 4); score ← i32at d (a + 8); exp ← i32at d (a + 12); team ← u32at d (a + 16);
  mret (mkLegacyResult player flag score exp team).

Definition decodeInitGame (d : list byte) : outcome ControlKind :=
  guard_ (144 <=? len d) "legacywire: INIT_GAME length" ;;
  product ← u32at d 34; match_ ← u32at d 46; round ← u32at d 56; game ← u32at d 64; type ← u32at d 92; stype ← i32at d 96; smode ← i32at d 100;
  fee ← i32at d 104; base ← i32at d 108; denominator ← i32at d 112; maxGame ← u32at d 116; maxSub ← u32at d 120; room ← u32at d 124;
  creator ← u32at d 128; time ← u32at d 132;
  rules ← decodeInitRuleSuffixes d;
  uni ← suffixString d 136 144;
  mret (ControlInitGame (mkInitGame product match_ round game type stype smode fee base denominator maxGame maxSub room creator time
          rules.1.1 rules.1.2 rules.2 uni)).
Definition decodeUpdatePlayers (d : list byte) : outcome ControlKind :=
  guard_ (46 <=? len d) "legacywire: UPDATE_PLAYER length" ;;
  count ← u32at d 34;
  suffix ← rename "legacywire: UPDATE_PLAYER players" (suffixBytes d 38 46);
  guard_ ((count <=? (legacyMaxFrameSize - 46) / controlPlayerSize) && (count * controlPlayerSize =? len suffix)) "legacywire: UPDATE_PLAYER players" ;;
  players ← records (decodeLegacyPlayer suffix) (Z.to_nat count) controlPlayerSize 0;
  mret (ControlUpdatePlayers players).
Definition decodeSettlementAck (d : list byte) : outcome ControlKind :=
  guard_ (67 <=? len d) "legacywire: settlement length" ;;
  success ← byteAt d 34;
  rtype ← i32at d 35; rcount ← i32at d 39; pcount ← i32at d 43; teams ← i32at d 47;
  result ← readSuffixIndex d 51 59;
  player ← readSuffixIndex d 59 67;
  guard_ (result.1 + result.2 =? player.1) "legacywire: settlement result boundary" ;;
  guard_ (player.1 + player.2 =? len d) "legacywire: settlement player boundary" ;;
  rs ← slice d result.1 (result.1 + result.2);
  ps ← slice d player.1 (player.1 + player.2);
  guard_ ((0 <=? rcount) && (0 <=? pcount) && (rcount * settlementGainSize =? len rs) && (pcount * settlementPlayerResultSize =? len ps))
    "legacywire: settlement record count" ;;
  details ← records (decodeGain rs) (Z.to_nat rcount) settlementGainSize 0;
  players ← records (decodePlayerResult ps) (Z.to_nat pcount) settlementPlayerResultSize 0;
  mret (ControlSettlementAck (mkAck (negb (success =? 0)) rtype rcount pcount teams details players)).

Definition unsupportedControls : list Z :=
  [messageGM2GLChangeSeat; messageGM2GLReplayMove; messageGM2GLPlayerMoneyLimit; messageGM2GLChangeRound; messageGM2GLWithholdMoney;
   messageGM2GLWithholdRefund; messageGM2GLTakePoints; messageGM2GLDelOneGame; messageGM2GLGameMessage].

(** The kinds with a [GLHeader]. *)
Definition decodeBattleControl (d : list byte) (type : Z) : outcome ControlKind :=
  if type =? messageGM2GLInitGame then decodeInitGame d
  else if type =? messageGM2GLUpdatePlayer then decodeUpdatePlayers d
  else if type =? messageGM2GLCommand then
    guard_ (len d =? 38) "legacywire: COMMAND length" ;; c ← i32at d 34; mret (ControlCommand c)
  else if type =? messageGM2GLUpdateGame then
    guard_ (len d =? 42) "legacywire: UPDATE_GAME length" ;; g ← u32at d 34; s ← u32at d 38; mret (ControlUpdateGame g s)
  else if type =? messageGM2GLStartNewGame then
    guard_ (50 <=? len d) "legacywire: START_NEW_GAME length" ;;
    total ← u32at d 34; used ← u32at d 38; room ← suffixString d 42 50; mret (ControlStartNewGame total used room)
  else if type =? messageGM2GLDress then
    guard_ (42 <=? len d) "legacywire: DRESS length" ;; dress ← suffixString d 34 42; mret (ControlDress dress)
  else if type =? messageGM2GLPlayerExit then
    guard_ (len d =? 35) "legacywire: PLAYER_EXIT length" ;; force ← byteAt d 34; mret (ControlPlayerExit force)
  else if type =? messageGM2GLSettlementAck then decodeSettlementAck d
  else Refused "legacywire: unsupported GameMaster control message".

Definition DecodeControl (d : list byte) : outcome LegacyControl :=
  guard_ ((headerSize <=? len d) && (len d <=? legacyMaxFrameSize)) "legacywire: control frame length" ;;
  header ← rename "legacywire: control header length" (decodeHeader d 0);
  guard_ (hdLength header =? len d) "legacywire: control header length" ;;
  let type := hdType header in
  if type =? messageGM2GLNewGame then
    guard_ (len d =? 44) "legacywire: NEW_GAME length" ;;
    battle ← u32at d 24; product ← u32at d 28; newbie ← u32at d 32; game ← u32at d 40;
    mret (mkControl type battle 0 (ControlNewGame product game (negb (newbie =? 0))))
  else if type =? messageGM2GLDeleteGame then
    guard_ (len d =? 28) "legacywire: DEL_GAME length" ;;
    battle ← u32at d 24; mret (mkControl type battle 0 ControlDeleteGame)
  else if bool_decide (type ∈ unsupportedControls) then mret (mkControl type 0 0 ControlUnsupported)
  else
    guard_ (controlGLHeaderSize <=? len d) "legacywire: control GLHeader length" ;;
    glLength ← u16at d 24;
    guard_ (glLength =? controlGLHeaderSize) "legacywire: control GLHeader length" ;;
    battle ← u32at d 26;
    user ← u32at d 30;
    kind ← decodeBattleControl d type;
    mret (mkControl type battle user kind).

(** ** What the program sends *)

(** A message: the size of its frame, its type and what is written behind the header. *)
Definition message (size type : Z) (body : list (Z * list byte)) : outcome (list byte) := build size (encodeHeader 0 (typed type size) ++ body).
(** The [GLHeader] of a frame to the game master: its length and the battle. *)
Definition glHeader (battle : Z) : list (Z * list byte) := [(24, u16 glHeaderSize); (26, u32 battle)].

Definition messageGLToGMNewGameAck : Z := 0x800086c0.
Definition EncodeNewGameAck (battle : Z) (accepted : bool) : outcome (list byte) :=
  message 29 messageGLToGMNewGameAck [(24, u32 battle); (28, flagByte accepted)].

Definition EncodeGameStart : outcome (list byte) := message headerSize messageGameStart [].

Definition messageGameRoundStat : Z := 0x7246.
Definition EncodeRoundStat : outcome (list byte) :=
  message (headerSize + 4 + suffixIndexSize) messageGameRoundStat
    [(headerSize, u32 0); (headerSize + 4, u32 (headerSize + 4 + suffixIndexSize)); (headerSize + 8, u32 0)].

Definition EncodeGameInfo (outCardSeconds serviceFee : Z) (scores : list Z) (gameNum : Z) : outcome (list byte) :=
  message (headerSize + 4 + 4 + 4 * 4 + 2) messageNHSKGameInfo (running headerSize ([u32 outCardSeconds; u32 serviceFee] ++ (u32 <$> scores) ++ [u16 gameNum])).

Definition EncodeDeal (users : list Z) (seat : Z) (cards : list Z) : outcome (list byte) :=
  if 4 <=? seat then Refused "legacywire: invalid DEAL seat"
  else message (headerSize + 4 * 4 + 4 * 26) messageNHSKDeal
         (running headerSize (u32 <$> users) ++ [(headerSize + 4 * 4 + seat * 26, copyInto 26 (byteArray cards))]).

Definition EncodeAskOutCard (user verify ms : Z) : outcome (list byte) :=
  message (headerSize + 4 + 4 + 4) messageNHSKAskOutCard [(headerSize, u32 user); (headerSize + 4, u32 verify); (headerSize + 8, u32 ms)].

Definition EncodeOutCardInfo (user : Z) (cards : list Z) : outcome (list byte) :=
  if 26 <? len cards then Refused "legacywire: too many OUT_CARD_INFO cards"
  else message (headerSize + 4 + 26 + 1) messageNHSKOutCardInfo
         [(headerSize, u32 user); (headerSize + 4, copyInto 26 (byteArray cards)); (headerSize + 30, u8 (len cards))].

Definition EncodeTurnEnd (winner points : Z) : outcome (list byte) :=
  message (headerSize + 4 + 4) messageNHSKTurnEnd [(headerSize, u32 winner); (headerSize + 4, u32 points)].

(** A count of cards and zeros behind it; a count beyond the array is a panic of the
    slice, but it is checked first. *)
Definition cardsOk (maximum : Z) (cards : list Z) (count : Z) : bool := (count <=? maximum) && forallb (Z.eqb 0) (drop (Z.to_nat count) cards).

Definition EncodeShowCards (users : list Z) (cards : list (list Z)) (counts : list Z) : outcome (list byte) :=
  if negb (forallb (λ p, cardsOk 26 p.1 p.2) (zip cards counts)) then Refused "legacywire: invalid SHOW_CARDS"
  else message (headerSize + 4 * 4 + 4 * 26 + 4) messageNHSKShowCards
         (running headerSize ((u32 <$> users) ++ ((λ c, copyInto 26 (byteArray c)) <$> cards)) ++ [(headerSize + 4 * 4 + 4 * 26, byteArray counts)]).

Record WireGameResult := mkWireResult {
  wrReason : Z; wrUserIDs : list Z; wrAutomated : list bool; wrScores : list Z; wrOutcomes : list Z; wrCapturedPoints : list Z; wrRanks : list Z;
  wrResult : Z; wrWinningTeam : Z; wrReplayUID : string
}.
Definition EncodeGameResult (r : WireGameResult) : outcome (list byte) :=
  if (4 <? wrReason r) || (2 <? wrResult r) || (1 <? wrWinningTeam r) || ((wrResult r =? 2) && negb (wrWinningTeam r =? 0))
     || negb (forallb (λ o, o <=? 2) (wrOutcomes r)) || negb (forallb (λ k, (1 <=? k) && (k <=? 4)) (wrRanks r))
  then Refused "legacywire: invalid GAME_RESULT"
  else message (headerSize + 8 + 122) messageNHSKGameResult
         ([(headerSize, u32 (headerSize + 8)); (headerSize + 4, u32 122)]
          ++ running (headerSize + 8)
               ([u32 (wrReason r)] ++ (u32 <$> wrUserIDs r) ++ ((λ b : bool, u8 (if b then 1 else 0)) <$> wrAutomated r) ++ (u32 <$> wrScores r)
                ++ [byteArray (wrOutcomes r)] ++ (u16 <$> wrCapturedPoints r) ++ [byteArray (wrRanks r); u8 (wrResult r); u8 (wrWinningTeam r)]
                ++ [copyInto 64 (bytes_of (wrReplayUID r))])).

Record WireScenePlayer := mkWirePlayer {
  wpUserID : Z; wpState : Z; wpHandCards : list Z; wpHandCount : Z; wpLastPlayedCards : list Z; wpLastPlayCount : Z; wpCapturedPoints : Z; wpRank : Z
}.
Record WireGameScene := mkWireScene {
  wsState : Z; wsActiveSeat : Z; wsPreviousPlayerSeat : Z; wsRemainingSeconds : Z; wsTrickScoreCards : list Z; wsTrickScoreCardCount : Z;
  wsFinishedPlayerCount : Z; wsPlayers : list WireScenePlayer
}.
Definition validGameSceneSeat (seat : Z) : bool := (-1 <=? seat) && (seat <? 4).
Definition scenePlayerOk (p : WireScenePlayer) : bool :=
  (Z.land (wpState p) (65535 - 3) =? 0) && cardsOk 26 (wpHandCards p) (wpHandCount p) && (wpRank p <=? 4)
  && (-1 <=? wpLastPlayCount p) && (wpLastPlayCount p <=? 8)
  && forallb (Z.eqb 0) (drop (Z.to_nat (wpLastPlayCount p)) (wpLastPlayedCards p)).
Definition scenePlayer (p : WireScenePlayer) : list (list byte) :=
  [u32 (wpUserID p); u16 (wpState p); copyInto 26 (byteArray (wpHandCards p)); u8 (wpHandCount p); copyInto 8 (byteArray (wpLastPlayedCards p));
   u32 (wpLastPlayCount p); u16 (wpCapturedPoints p); u16 (wpRank p)].
Definition gameSceneHeaderSize : Z := headerSize + 8 + 4 + 8.
Definition EncodeGameScene (s : WireGameScene) : outcome (list byte) :=
  if (negb (wsState s =? 3) && negb (wsState s =? 4)) || negb (validGameSceneSeat (wsActiveSeat s)) || negb (validGameSceneSeat (wsPreviousPlayerSeat s))
     || negb (cardsOk 24 (wsTrickScoreCards s) (wsTrickScoreCardCount s)) || (4 <? wsFinishedPlayerCount s) || negb (forallb scenePlayerOk (wsPlayers s))
  then Refused "legacywire: invalid GAME_SCENE"
  else message (gameSceneHeaderSize + 42 + 4 * 49) messageNHSKGameScene
         ([(headerSize, u32 gameSceneHeaderSize); (headerSize + 4, u32 42); (headerSize + 8, u32 4); (headerSize + 12, u32 (gameSceneHeaderSize + 42));
           (headerSize + 16, u32 (4 * 49))]
          ++ running gameSceneHeaderSize
               ([u32 (wsState s); u32 (wsActiveSeat s); u32 (wsPreviousPlayerSeat s); u32 (wsRemainingSeconds s); copyInto 24 (byteArray (wsTrickScoreCards s));
                 u8 (wsTrickScoreCardCount s); u8 (wsFinishedPlayerCount s)]
                ++ (wsPlayers s ≫= scenePlayer))).

Definition EncodeOutCardResult (reason : Z) : outcome (list byte) :=
  if (reason <? 1) || (5 <? reason) then Refused "legacywire: invalid OUT_CARD_RESULT"
  else message (headerSize + 4) messageNHSKOutCardResult [(headerSize, u32 reason)].

Definition EncodeCardActionWatch (user : Z) (cards : list Z) (count : Z) : outcome (list byte) :=
  if negb (cardsOk 26 cards count) then Refused "legacywire: invalid CARD_ACTION_WATCH"
  else message (headerSize + 4 + 26 + 1) messageNHSKCardActionWatch
         [(headerSize, u32 user); (headerSize + 4, copyInto 26 (byteArray cards)); (headerSize + 30, u8 count)].

Definition messageAckMask : Z := 0x80000000.
Definition EncodeUserStateChange (user : Z) (enabled : bool) : outcome (list byte) :=
  message (headerSize + 8) (Z.lor messageAckMask messageGameUserStateChange) ([(headerSize, u32 user)] ++ if enabled then [(headerSize + 4, u32 1)] else []).

Definition EncodeGameStarted (battle : Z) (replay : string) : outcome (list byte) :=
  message (glHeaderSize + 1 + 80) messageGLToGMGameStarted (glHeader battle ++ [(glHeaderSize, u8 1); (glHeaderSize + 1, copyInto 80 (bytes_of replay))]).

Definition messageGLToGMGameOver : Z := 0x8641.
Definition gameOverFixedSize : Z := 139.
Record WireGameOver := mkWireOver {
  woBattleID : Z; woReason : Z; woReplayName : string; woIsGameOver : bool; woEndReason : Z; woEndPlayer : Z; woPlayers : list (Z * Z * bool)
}.
Definition overPlayer (p : Z * Z * bool) : list (list byte) := [u32 p.1.1; u32 p.1.2; u8 (if p.2 then 1 else 0)].
Definition EncodeGameOver (v : WireGameOver) : outcome (list byte) :=
  if (woBattleID v =? 0) || bool_decide (woReplayName v = "") || (negb (len (woPlayers v) =? 0) && negb (len (woPlayers v) =? 4))
  then Refused "legacywire: invalid GAME_OVER"
  else message (gameOverFixedSize + len (woPlayers v) * 9) messageGLToGMGameOver
         (glHeader (woBattleID v)
          ++ [(34, u32 (woReason v)); (38, copyInto 80 (bytes_of (woReplayName v))); (118, flagByte (woIsGameOver v)); (119, u32 (len (woPlayers v)));
              (123, u32 gameOverFixedSize); (127, u32 (len (woPlayers v) * 9)); (131, u32 (woEndReason v)); (135, u32 (woEndPlayer v))]
          ++ running gameOverFixedSize (woPlayers v ≫= overPlayer)).

Definition messageGLToGMNoticeRoundOver : Z := 0x864e.
Definition EncodeNoticeRoundOver (battle reason player : Z) : outcome (list byte) :=
  if battle =? 0 then Refused "legacywire: invalid NOTICE_ROUND_OVER"
  else message 42 messageGLToGMNoticeRoundOver (glHeader battle ++ [(34, u32 reason); (38, u32 player)]).

Definition messageGLToGMSettlementRequest : Z := 0x8650.
Definition settlementRequestFixedSize : Z := 71.
Record WireSettlementRequest := mkWireSettlement {
  wqBattleID : Z; wqResultType : Z; wqTeamCount : Z; wqGains : list LegacySettlementGain; wqPlayers : list LegacySettlementPlayerResult;
  wqNoScoreBase : bool; wqNoCheckSeal : bool; wqNoRecharge : bool; wqLevelScoreType : Z
}.
Definition gainFields (g : LegacySettlementGain) : list (list byte) := [u32 (lgPay g); u32 (lgGain g); u32 (lgScore g)].
Definition playerFields (p : LegacySettlementPlayerResult) : list (list byte) := [u32 (lrPlayerID p); u32 (lrFlag p); u32 (lrScore p); u32 (lrExp p); u32 (lrTeamID p)].
Definition putSuffixIndex (a offset size : Z) : list (Z * list byte) := [(a, u32 offset); (a + 4, u32 size)].
Definition EncodeSettlementRequest (q : WireSettlementRequest) : outcome (list byte) :=
  if (wqBattleID q =? 0) || negb (wqTeamCount q =? 4) || negb (len (wqPlayers q) =? 4) then Refused "legacywire: invalid settlement request"
  else if negb (forallb (λ g, (lgPay g <? 4) && (lgGain g <? 4) && negb (lgPay g =? lgGain g) && (0 <? lgScore g)) (wqGains q))
  then Refused "legacywire: invalid settlement gain"
  else if negb (forallb (λ p, negb (lrPlayerID p.2 =? 0) && (lrTeamID p.2 =? p.1)) (zip [0; 1; 2; 3] (wqPlayers q)))
  then Refused "legacywire: invalid settlement player"
  else
    let gainSize := len (wqGains q) * settlementGainSize in
    let playerSize := len (wqPlayers q) * settlementPlayerResultSize in
    message (settlementRequestFixedSize + gainSize + playerSize) messageGLToGMSettlementRequest
      (glHeader (wqBattleID q)
       ++ [(35, u32 (wqResultType q)); (39, u32 (len (wqGains q))); (43, u32 (len (wqPlayers q))); (47, u32 (wqTeamCount q))]
       ++ putSuffixIndex 51 settlementRequestFixedSize gainSize ++ putSuffixIndex 59 (settlementRequestFixedSize + gainSize) playerSize
       ++ [(67, flagByte (wqNoScoreBase q)); (68, flagByte (wqNoCheckSeal q)); (69, flagByte (wqNoRecharge q)); (70, u8 (wqLevelScoreType q))]
       ++ running settlementRequestFixedSize ((wqGains q ≫= gainFields) ++ (wqPlayers q ≫= playerFields))).

(** * Facts about the layouts *)

(** ** Bytes *)

Lemma length_le_bytes n v : length (le_bytes n v) = n.
Proof. unfold le_bytes. by rewrite length_reverse, length_be_bytes. Qed.
Lemma len_le_bytes n v : len (le_bytes n v) = Z.of_nat n.
Proof. unfold len. by rewrite length_le_bytes. Qed.
Lemma le_value_bytes n v : le_value (le_bytes n v) = v mod 256 ^ Z.of_nat n.
Proof. unfold le_value, le_bytes. by rewrite reverse_involutive, be_value_bytes. Qed.
Lemma le_value_small n v : 0 ≤ v < 256 ^ Z.of_nat n → le_value (le_bytes n v) = v.
Proof. intros. rewrite le_value_bytes. by apply Z.mod_small. Qed.
Lemma le_value_range l : 0 ≤ le_value l < 256 ^ len l.
Proof. unfold le_value, len. rewrite <- length_reverse. apply be_value_range. Qed.
Lemma le_bytes_value l : le_bytes (length l) (le_value l) = l.
Proof. unfold le_bytes, le_value. rewrite <- (length_reverse l), be_bytes_value. apply reverse_involutive. Qed.

(** ** Reading does not panic *)

Definition safe {X} (m : outcome X) : Prop := m ≠ Crashed.
Lemma safe_bind {X Y} (m : outcome X) (k : X → outcome Y) : safe m → (∀ x, m = Got x → safe (k x)) → safe (m ≫= k).
Proof. intros Hm Hk. destruct m as [x| |]; [by apply Hk|done|by destruct Hm]. Qed.
Lemma safe_ret {X} (x : X) : safe (mret x).
Proof. done. Qed.
Lemma safe_guard b t : safe (guard_ b t).
Proof. by destruct b. Qed.
Lemma guard_Got b t x : guard_ b t = Got x → b = true.
Proof. by destruct b. Qed.
Lemma safe_rename {X} t (m : outcome X) : safe m → safe (rename t m).
Proof. by destruct m. Qed.
Lemma rename_Got {X} t (m : outcome X) x : rename t m = Got x → m = Got x.
Proof. by destruct m. Qed.
Lemma bind_Got {X Y} (m : outcome X) (k : X → outcome Y) y : m ≫= k = Got y → ∃ x, m = Got x ∧ k x = Got y.
Proof. destruct m as [x| |]; try done. by exists x. Qed.

Lemma slice_safe d a b : 0 ≤ a → a ≤ b → b ≤ len d → safe (slice d a b).
Proof. intros. unfold slice. by rewrite !(proj2 (Z.leb_le _ _)) by done. Qed.
Lemma slice_Got d a b s : slice d a b = Got s → 0 ≤ a ∧ a ≤ b ∧ b ≤ len d ∧ len s = b - a.
Proof.
  unfold slice. destruct (_ && _) eqn:Hg; [|done]. rewrite !andb_true_iff, !Z.leb_le in Hg. intros [= <-]. destruct Hg as [[? ?] ?].
  split_and!; try done. unfold len in *. rewrite length_take, length_drop. lia.
Qed.
Lemma u32at_safe d a : 0 ≤ a → a + 4 ≤ len d → safe (u32at d a).
Proof. intros. apply safe_bind; [apply slice_safe; lia|done]. Qed.
Lemma u32at_Got d a v : u32at d a = Got v → 0 ≤ v < 2 ^ 32.
Proof.
  intros (s & Hs & [= <-])%bind_Got. apply slice_Got in Hs as (_ & _ & _ & Hl). pose proof (le_value_range s) as Hr. rewrite Hl in Hr.
  replace (a + 4 - a) with 4 in Hr by lia. exact Hr.
Qed.
Lemma u16at_safe d a : 0 ≤ a → a + 2 ≤ len d → safe (u16at d a).
Proof. intros. apply safe_bind; [apply slice_safe; lia|done]. Qed.
Lemma i32at_safe d a : 0 ≤ a → a + 4 ≤ len d → safe (i32at d a).
Proof. intros. apply safe_bind; [by apply u32at_safe|done]. Qed.
Lemma byteAt_safe d a : 0 ≤ a → a + 1 ≤ len d → safe (byteAt d a).
Proof. intros. apply safe_bind; [apply slice_safe; lia|done]. Qed.
Lemma byteAt_Got d a v : byteAt d a = Got v → 0 ≤ v < 256.
Proof.
  intros (s & Hs & [= <-])%bind_Got. apply slice_Got in Hs as (_ & _ & _ & Hl). pose proof (le_value_range s) as Hr. rewrite Hl in Hr.
  replace (a + 1 - a) with 1 in Hr by lia. exact Hr.
Qed.
Lemma records_safe {X} (decode : Z → outcome X) n size a :
  (∀ i, 0 ≤ i < Z.of_nat n → safe (decode (a + i * size))) → safe (records decode n size a).
Proof.
  revert a. induction n as [|n IH]; intros a H; [done|]. apply safe_bind; [specialize (H 0 ltac:(lia)); by rewrite Z.mul_0_l, Z.add_0_r in H|].
  intros x _. apply safe_bind; [|done]. apply IH. intros i Hi. specialize (H (1 + i) ltac:(lia)). by replace (a + size + i * size) with (a + (1 + i) * size) by lia.
Qed.

(** What is known of a value read, for [lia]. *)
Ltac learn H :=
  lazymatch type of H with
  | guard_ _ _ = Got _ => apply guard_Got in H; rewrite ?andb_true_iff, ?negb_true_iff, ?Z.leb_le, ?Z.ltb_lt, ?Z.eqb_eq, ?Z.eqb_neq in H
  | rename _ _ = Got _ => apply rename_Got in H; learn H
  | slice _ _ _ = Got _ => apply slice_Got in H
  | u32at _ _ = Got _ => apply u32at_Got in H
  | byteAt _ _ = Got _ => apply byteAt_Got in H
  | _ => idtac
  end.
Ltac reads :=
  repeat first
    [ progress cbv zeta
    | lazymatch goal with
      | |- safe (mret _) => apply safe_ret
      | |- safe (Refused _) => done
      | |- safe (guard_ _ _) => apply safe_guard
      | |- safe (rename _ _) => apply safe_rename
      | |- safe (u32at _ _) => apply u32at_safe; lia
      | |- safe (i32at _ _) => apply i32at_safe; lia
      | |- safe (u16at _ _) => apply u16at_safe; lia
      | |- safe (byteAt _ _) => apply byteAt_safe; lia
      | |- safe (slice _ _ _) => apply slice_safe; lia
      | |- safe (_ ≫= _) => apply safe_bind; [|let x := fresh "x" in let H := fresh "H" in intros x H; learn H]
      | |- safe (if ?b then _ else _) => destruct b eqn:?
      end ].
Ltac sizes := unfold gameFrameBase, relayFixedSize, headerSize, glHeaderSize, gameHeaderSize, suffixIndexSize, controlGLHeaderSize, controlSuffixSize, controlPlayerSize, legacyMaxFrameSize,
  propUseFixedSize, cardCount26, settlementGainSize, settlementPlayerResultSize in *.

Lemma decodeHeader_safe d a : 0 ≤ a ≤ len d → safe (decodeHeader d a).
Proof.
  intros Ha. unfold decodeHeader. apply safe_bind; [apply slice_safe; lia|]. intros s Hs. learn Hs. destruct (Z.ltb_spec (len s) headerSize); [done|]. sizes. reads.
Qed.
Lemma fixedFrame_safe d size type text : safe (fixedFrame d size type text).
Proof. unfold fixedFrame. reads. apply decodeHeader_safe. pose proof (len_nonneg d). lia. Qed.
Lemma fixedFrame_Got d size type text x : fixedFrame d size type text = Got x → len d = size.
Proof. unfold fixedFrame. intros (y & H & _)%bind_Got. by learn H. Qed.

Lemma DecodeInboundGameRelay_safe d : safe (DecodeInboundGameRelay d).
Proof. pose proof (len_nonneg d). unfold DecodeInboundGameRelay. sizes. reads; try (apply decodeHeader_safe; lia). Qed.
Lemma DecodeClientGameplayMessage_safe d : safe (DecodeClientGameplayMessage d).
Proof. pose proof (len_nonneg d). unfold DecodeClientGameplayMessage. reads. apply decodeHeader_safe. lia. Qed.
Lemma DecodeOutCardRequest_safe d : safe (DecodeOutCardRequest d).
Proof.
  unfold DecodeOutCardRequest. cbv zeta. apply safe_bind; [apply fixedFrame_safe|]. intros x Hx. apply fixedFrame_Got in Hx. sizes. reads.
Qed.
Lemma DecodeCardActionRequest_safe d : safe (DecodeCardActionRequest d).
Proof.
  unfold DecodeCardActionRequest. cbv zeta. apply safe_bind; [apply fixedFrame_safe|]. intros x Hx. apply fixedFrame_Got in Hx. sizes. reads.
Qed.
Lemma DecodeUserStateChange_safe d : safe (DecodeUserStateChange d).
Proof. unfold DecodeUserStateChange. apply safe_bind; [apply fixedFrame_safe|]. intros x Hx. apply fixedFrame_Got in Hx. sizes. reads. Qed.
Lemma decodePlayerViewRequest_safe d m : safe (decodePlayerViewRequest d m).
Proof. unfold decodePlayerViewRequest. apply safe_bind; [apply fixedFrame_safe|]. intros x Hx. apply fixedFrame_Got in Hx. sizes. reads. Qed.
Lemma DecodePropUse_safe d : safe (DecodePropUse d).
Proof.
  pose proof (len_nonneg d). unfold DecodePropUse. sizes. reads; try (apply decodeHeader_safe; lia).
  apply records_safe. intros i Hi. apply u32at_safe; lia.
Qed.

Lemma readSuffixIndex_safe d index fixed : 0 ≤ index → safe (readSuffixIndex d index fixed).
Proof. intros. unfold readSuffixIndex. sizes. reads. Qed.
Lemma readSuffixIndex_Got d index fixed i : readSuffixIndex d index fixed = Got i → fixed ≤ i.1 ∧ 0 ≤ i.2 ∧ 0 ≤ i.1 ∧ i.1 + i.2 ≤ len d.
Proof.
  unfold readSuffixIndex. intros (? & _ & (offset & Ho & (size & Hs & (? & Hg & [= <-])%bind_Got)%bind_Got)%bind_Got)%bind_Got.
  learn Ho. learn Hs. learn Hg. cbn. lia.
Qed.
Lemma suffixBytes_safe d index fixed : 0 ≤ index → safe (suffixBytes d index fixed).
Proof.
  intros. unfold suffixBytes. apply safe_bind; [by apply readSuffixIndex_safe|]. intros i Hi. apply readSuffixIndex_Got in Hi. reads.
Qed.
Lemma suffixString_safe d index fixed : 0 ≤ index → safe (suffixString d index fixed).
Proof. intros. apply safe_bind; [by apply suffixBytes_safe|done]. Qed.
Lemma decodeInitRuleSuffixes_safe d : 144 ≤ len d → safe (decodeInitRuleSuffixes d).
Proof.
  intros Hl. unfold decodeInitRuleSuffixes. apply safe_bind; [apply slice_safe; lia|]. intros s _. destruct (allZero s); [done|].
  do 4 (apply safe_bind; [apply readSuffixIndex_safe; lia|]; let i := fresh "i" in let H := fresh "H" in intros i H; apply readSuffixIndex_Got in H).
  reads.
Qed.
Lemma decodeLegacyPlayer_safe s a : 0 ≤ a → a + 90 ≤ len s → safe (decodeLegacyPlayer s a).
Proof. intros. unfold decodeLegacyPlayer. sizes. reads. Qed.

Lemma decodeInitGame_safe d : safe (decodeInitGame d).
Proof.
  unfold decodeInitGame. reads; [by apply decodeInitRuleSuffixes_safe|]. apply suffixString_safe. lia.
Qed.
Lemma decodeUpdatePlayers_safe d : safe (decodeUpdatePlayers d).
Proof.
  unfold decodeUpdatePlayers. sizes. reads; [apply suffixBytes_safe; lia|]. apply records_safe. intros i Hi. apply decodeLegacyPlayer_safe; lia.
Qed.
Lemma decodeSettlementAck_safe d : safe (decodeSettlementAck d).
Proof.
  unfold decodeSettlementAck. sizes. reads; try (apply readSuffixIndex_safe; lia).
  all: repeat match goal with H : readSuffixIndex _ _ _ = Got _ |- _ => apply readSuffixIndex_Got in H end; try (apply slice_safe; lia).
  - apply records_safe. intros i Hi. unfold decodeGain. reads.
  - apply records_safe. intros i Hi. unfold decodePlayerResult. reads.
Qed.
Lemma DecodeControl_safe d : safe (DecodeControl d).
Proof.
  pose proof (len_nonneg d). unfold DecodeControl. sizes. reads; try (apply decodeHeader_safe; lia).
  unfold decodeBattleControl. reads; try (apply suffixString_safe; lia);
    [apply decodeInitGame_safe|apply decodeUpdatePlayers_safe|apply decodeSettlementAck_safe].
Qed.
Lemma readLegacyFrame_safe stream : safe (readLegacyFrame stream).
Proof.
  unfold readLegacyFrame. destruct (readFullFrom _ _) as [[h rest]|]; [|done]. pose proof (len_nonneg h). apply safe_bind; [apply decodeHeader_safe; lia|].
  intros x _. destruct (_ || _); [done|]. by destruct (readFullFrom _ _) as [[? ?]|].
Qed.

(** ** Writing *)

Definition writeAllTo (ws : list (Z * list byte)) (m : outcome (list byte)) : outcome (list byte) := foldl (λ m w, d ← m; put w.1 w.2 d) m ws.
Lemma writes_app ws ws' m : writeAllTo (ws ++ ws') m = writeAllTo ws' (writeAllTo ws m).
Proof. apply foldl_app. Qed.
Lemma writes_cons w ws d : writeAllTo (w :: ws) (Got d) = writeAllTo ws (put w.1 w.2 d).
Proof. done. Qed.
Lemma writes_crashed ws : writeAllTo ws Crashed = Crashed.
Proof. by induction ws. Qed.

Lemma put_Got a bs d d' : put a bs d = Got d' → 0 ≤ a ∧ a + len bs ≤ len d ∧ len d' = len d ∧ ∀ k, 0 ≤ k ≤ a → take (Z.to_nat k) d' = take (Z.to_nat k) d.
Proof.
  unfold put. destruct (_ && _) eqn:Hg; [|done]. rewrite andb_true_iff, !Z.leb_le in Hg. destruct Hg as [Ha Hb]. intros [= <-]. pose proof (len_nonneg bs).
  split; [done|]. split; [done|]. split.
  - unfold len in *. rewrite !length_app, length_take, length_drop. lia.
  - intros k Hk. unfold len in *. rewrite take_app_le by (rewrite length_take; lia). rewrite take_take. f_equal. lia.
Qed.
Lemma put_safe a bs d : 0 ≤ a → a + len bs ≤ len d → safe (put a bs d).
Proof. intros. unfold put. by rewrite !(proj2 (Z.leb_le _ _)) by done. Qed.

(** Writes behind the first [k] bytes leave them alone. *)
Lemma writes_prefix k ws d d' : 0 ≤ k → Forall (λ w, k ≤ w.1) ws → writeAllTo ws (Got d) = Got d' → len d' = len d ∧ take (Z.to_nat k) d' = take (Z.to_nat k) d.
Proof.
  intros Hk. revert d. induction ws as [|w ws IH]; intros d Hws Hd; [by injection Hd as <-|]. apply Forall_cons in Hws as [Hw Hws]. rewrite writes_cons in Hd.
  destruct (put w.1 w.2 d) as [d1|e|] eqn:Hp; [|unfold put in Hp; by destruct (_ && _)|by rewrite writes_crashed in Hd].
  apply put_Got in Hp as (_ & _ & Hl & Ht). destruct (IH d1 Hws Hd) as [Hl' Ht']. split; [lia|]. rewrite Ht'. apply Ht. lia.
Qed.
Lemma writes_never_refuse ws d e : writeAllTo ws (Got d) ≠ Refused e.
Proof.
  revert d. induction ws as [|w ws IH]; intros d; [done|]. rewrite writes_cons. destruct (put w.1 w.2 d) as [d1|e'|] eqn:Hp; [apply IH| |by rewrite writes_crashed].
  unfold put in Hp. by destruct (_ && _).
Qed.
(** Writes that fit do not panic. *)
Definition fitsIn (n : Z) (w : Z * list byte) : Prop := 0 ≤ w.1 ∧ w.1 + len w.2 ≤ n.
Lemma writes_safe ws d : Forall (fitsIn (len d)) ws → safe (writeAllTo ws (Got d)).
Proof.
  revert d. induction ws as [|w ws IH]; intros d Hws; [done|]. apply Forall_cons in Hws as [[Hw1 Hw2] Hws]. rewrite writes_cons.
  pose proof (put_safe _ _ _ Hw1 Hw2) as Hs. destruct (put w.1 w.2 d) as [d1|e|] eqn:Hp; [|unfold put in Hp; by destruct (_ && _)|done].
  apply put_Got in Hp as (_ & _ & Hl & _). apply IH. by rewrite Hl.
Qed.

Lemma running_from a fields : Forall (λ w, a ≤ w.1) (running a fields).
Proof.
  revert a. induction fields as [|f fields IH]; intros a; [constructor|]. constructor; [cbn; lia|]. eapply Forall_impl; [apply IH|]. pose proof (len_nonneg f). cbn. lia.
Qed.
Lemma running_fits a fields n : 0 ≤ a → a + len (concat fields) ≤ n → Forall (fitsIn n) (running a fields).
Proof.
  revert a. induction fields as [|f fields IH]; intros a Ha Hn; [constructor|]. cbn [concat] in Hn. rewrite len_app in Hn.
  pose proof (len_nonneg f). pose proof (len_nonneg (concat fields)). constructor; [split; cbn; lia|]. apply IH; lia.
Qed.
Lemma running_writes a fields d d' : writeAllTo (running a fields) (Got d) = Got d' → 0 ≤ a ≤ len d →
  take (Z.to_nat (a + len (concat fields))) d' = take (Z.to_nat a) d ++ concat fields.
Proof.
  revert a d. induction fields as [|f fields IH]; intros a d Hd Ha.
  { injection Hd as <-. cbn. by rewrite Z.add_0_r, app_nil_r. }
  cbn [running concat] in *. rewrite writes_cons in Hd. cbn [fst snd] in Hd. pose proof (len_nonneg f). pose proof (len_nonneg (concat fields)).
  destruct (put a f d) as [d1|e|] eqn:Hp; [|unfold put in Hp; by destruct (_ && _)|by rewrite writes_crashed in Hd].
  pose proof (put_Got _ _ _ _ Hp) as (_ & Hb & Hl & Ht). rewrite len_app, Z.add_assoc. rewrite (IH _ _ Hd) by lia.
  rewrite app_assoc. f_equal. unfold put in Hp. destruct (_ && _); [|done]. injection Hp as <-. unfold len in *. rewrite take_app_ge by (rewrite length_take; lia).
  f_equal. rewrite length_take, take_app_le by lia. apply take_ge. lia.
Qed.

(** ** The header of a message *)

Record headerOk (h : bsHeader) : Prop := {
  hk_magic : 0 ≤ hdMagic h < 2 ^ 32; hk_serial : 0 ≤ hdSerial h < 2 ^ 32; hk_origin : 0 ≤ hdOrigin h < 2 ^ 16; hk_reserve : 0 ≤ hdReserve h < 2 ^ 16;
  hk_type : 0 ≤ hdType h < 2 ^ 32; hk_param : 0 ≤ hdParam h < 2 ^ 32; hk_length : 0 ≤ hdLength h < 2 ^ 32
}.
Lemma len_u32 v : len (u32 v) = 4.
Proof. apply len_le_bytes. Qed.
Lemma len_u16 v : len (u16 v) = 2.
Proof. apply len_le_bytes. Qed.
Lemma len_u8 v : len (u8 v) = 1.
Proof. apply len_le_bytes. Qed.
Lemma len_headerFields h : len (concat (headerFields h)) = headerSize.
Proof. unfold headerFields. cbn [concat]. by rewrite !len_app, !len_u32, !len_u16. Qed.

Lemma slice_mid pre f post : slice (pre ++ f ++ post) (len pre) (len pre + len f) = Got f.
Proof.
  unfold slice, len. rewrite !length_app. rewrite !(proj2 (Z.leb_le _ _)) by lia. cbn [andb]. do 2 f_equal.
  replace (Z.of_nat (length pre) + Z.of_nat (length f) - Z.of_nat (length pre)) with (Z.of_nat (length f)) by lia. rewrite !Nat2Z.id, drop_app_length. apply take_app_length.
Qed.
Lemma slice_field pre f post a b d : d = pre ++ f ++ post → len pre = a → len f = b - a → slice d a b = Got f.
Proof. intros -> <- Hf. replace b with (len pre + len f) by lia. apply slice_mid. Qed.
Lemma u32at_field pre v post a d : d = pre ++ u32 v ++ post → len pre = a → 0 ≤ v < 2 ^ 32 → u32at d a = Got v.
Proof. intros Hd Ha Hv. unfold u32at. rewrite (slice_field pre (u32 v) post) by (done || rewrite len_u32; lia). cbn. by rewrite (le_value_small 4). Qed.
Lemma u16at_field pre v post a d : d = pre ++ u16 v ++ post → len pre = a → 0 ≤ v < 2 ^ 16 → u16at d a = Got v.
Proof. intros Hd Ha Hv. unfold u16at. rewrite (slice_field pre (u16 v) post) by (done || rewrite len_u16; lia). cbn. by rewrite (le_value_small 2). Qed.
Lemma slice_whole d : slice d 0 (len d) = Got d.
Proof. unfold slice. rewrite !(proj2 (Z.leb_le _ _)) by (pose proof (len_nonneg d); lia). cbn [andb]. f_equal. unfold len. rewrite Z.sub_0_r, Nat2Z.id. by apply take_ge. Qed.

Lemma decodeHeader_fields h rest : headerOk h → decodeHeader (concat (headerFields h) ++ rest) 0 = Got h.
Proof.
  intros [H1 H2 H3 H4 H5 H6 H7]. unfold decodeHeader. rewrite slice_whole. cbn [mbind outcome_bind].
  rewrite (proj2 (Z.ltb_ge _ _)) by (rewrite len_app, len_headerFields; pose proof (len_nonneg rest); lia).
  assert (concat (headerFields h) ++ rest = u32 (hdMagic h) ++ u32 (hdSerial h) ++ u16 (hdOrigin h) ++ u16 (hdReserve h) ++ u32 (hdType h) ++ u32 (hdParam h)
    ++ u32 (hdLength h) ++ rest) as Hd by (unfold headerFields; cbn [concat]; by rewrite <- !app_assoc). rewrite Hd. clear Hd.
  set (d := u32 (hdMagic h) ++ _).
  rewrite (u32at_field [] (hdMagic h) _ 0 d eq_refl eq_refl H1). cbn [mbind outcome_bind].
  rewrite (u32at_field (u32 (hdMagic h)) (hdSerial h) _ 4 d eq_refl (len_u32 _) H2). cbn [mbind outcome_bind].
  rewrite (u16at_field (u32 (hdMagic h) ++ u32 (hdSerial h)) (hdOrigin h) (u16 (hdReserve h) ++ u32 (hdType h) ++ u32 (hdParam h) ++ u32 (hdLength h) ++ rest) 8 d);
    [|by rewrite <- app_assoc|by rewrite len_app, !len_u32|done]. cbn [mbind outcome_bind].
  rewrite (u16at_field (u32 (hdMagic h) ++ u32 (hdSerial h) ++ u16 (hdOrigin h)) (hdReserve h) (u32 (hdType h) ++ u32 (hdParam h) ++ u32 (hdLength h) ++ rest) 10 d);
    [|by rewrite <- !app_assoc|by rewrite !len_app, !len_u32, len_u16|done]. cbn [mbind outcome_bind].
  rewrite (u32at_field (u32 (hdMagic h) ++ u32 (hdSerial h) ++ u16 (hdOrigin h) ++ u16 (hdReserve h)) (hdType h) (u32 (hdParam h) ++ u32 (hdLength h) ++ rest) 12 d);
    [|by rewrite <- !app_assoc|by rewrite !len_app, !len_u32, !len_u16|done]. cbn [mbind outcome_bind].
  rewrite (u32at_field (u32 (hdMagic h) ++ u32 (hdSerial h) ++ u16 (hdOrigin h) ++ u16 (hdReserve h) ++ u32 (hdType h)) (hdParam h) (u32 (hdLength h) ++ rest) 16 d);
    [|by rewrite <- !app_assoc|by rewrite !len_app, !len_u32, !len_u16|done]. cbn [mbind outcome_bind].
  rewrite (u32at_field (u32 (hdMagic h) ++ u32 (hdSerial h) ++ u16 (hdOrigin h) ++ u16 (hdReserve h) ++ u32 (hdType h) ++ u32 (hdParam h)) (hdLength h) rest 20 d);
    [|by rewrite <- !app_assoc|by rewrite !len_app, !len_u32, !len_u16|done]. cbn. by destruct h.
Qed.

Lemma slice_take d n a b : b ≤ n → n ≤ len d → slice (take (Z.to_nat n) d) a b = slice d a b.
Proof.
  intros Hb Hn. unfold slice. assert (0 ≤ n ∨ n < 0) as [Hn0|Hn0] by lia.
  2: { destruct (Z.leb_spec 0 a); [|done]. destruct (Z.leb_spec a b); [lia|done]. }
  assert (len (take (Z.to_nat n) d) = n) as -> by (unfold len in *; rewrite length_take; lia).
  destruct (Z.leb_spec 0 a); [|done]. destruct (Z.leb_spec a b); [|done]. rewrite !(proj2 (Z.leb_le _ _)) by lia. cbn [andb]. f_equal.
  rewrite skipn_firstn_comm, take_take. f_equal. lia.
Qed.
Lemma decodeHeader_take d : headerSize ≤ len d → decodeHeader (take (Z.to_nat headerSize) d) 0 = decodeHeader d 0.
Proof.
  intros Hl. unfold decodeHeader. rewrite !slice_whole. cbn [mbind outcome_bind].
  assert (len (take (Z.to_nat headerSize) d) = headerSize) as -> by (unfold len, headerSize in *; rewrite length_take; lia).
  rewrite !(proj2 (Z.ltb_ge _ _)) by lia. unfold u32at, u16at. by rewrite !(slice_take d headerSize) by (unfold headerSize in *; lia).
Qed.
Lemma decodeHeader_length d h : decodeHeader d 0 = Got h → headerSize ≤ len d ∧ u32at d 20 = Got (hdLength h).
Proof.
  unfold decodeHeader. rewrite slice_whole. cbn [mbind outcome_bind]. destruct (Z.ltb_spec (len d) headerSize); [done|].
  intros (? & _ & (? & _ & (? & _ & (? & _ & (? & _ & (? & _ & (l & Hl & [= <-])%bind_Got)%bind_Got)%bind_Got)%bind_Got)%bind_Got)%bind_Got)%bind_Got. done.
Qed.
Lemma decodeHeader_total d : headerSize ≤ len d → ∃ h, decodeHeader d 0 = Got h.
Proof.
  intros Hl. destruct (decodeHeader d 0) as [h|e|] eqn:Hd; [by exists h| |].
  - unfold decodeHeader in Hd. rewrite slice_whole in Hd. cbn [mbind outcome_bind] in Hd. rewrite (proj2 (Z.ltb_ge _ _)) in Hd by done.
    unfold u32at, u16at, slice in Hd. unfold headerSize in Hl. repeat (rewrite !(proj2 (Z.leb_le _ _)) in Hd by lia; cbn [andb mbind outcome_bind mret outcome_ret] in Hd). done.
  - exfalso. apply (decodeHeader_safe d 0); [unfold headerSize in *; lia|done].
Qed.

(** ** Frames *)

(** A frame that [WriteFrame] accepts. *)
Lemma WriteFrame_Got d x : WriteFrame d = Got x → headerSize ≤ len d ≤ legacyMaxFrameSize ∧ x = d ∧ ∃ h, decodeHeader d 0 = Got h ∧ hdLength h = len d.
Proof.
  unfold WriteFrame. destruct (_ || _) eqn:Hg; [done|]. rewrite orb_false_iff, !Z.ltb_ge in Hg. destruct (decodeHeader_total d (proj1 Hg)) as [h Hh].
  destruct (decodeHeader_length d h Hh) as [_ ->]. cbn [mbind outcome_bind]. destruct (Z.eqb_spec (hdLength h) (len d)) as [He|]; [|done]. cbn. intros [= <-].
  split; [lia|]. split; [done|]. by exists h.
Qed.
Lemma readFullFrom_app n a b : len a = n → readFullFrom n (a ++ b) = Some (a, b).
Proof.
  intros <-. unfold readFullFrom. rewrite (proj2 (Z.leb_le _ _)) by (rewrite len_app; pose proof (len_nonneg b); lia). unfold len. rewrite Nat2Z.id.
  by rewrite take_app_length, drop_app_length.
Qed.
Lemma ReadFrame_written d rest x : WriteFrame d = Got x → ∃ type origin, ReadFrame (d ++ rest) = Got (mkFrame type origin d, rest).
Proof.
  intros (Hl & _ & h & Hh & Hlen)%WriteFrame_Got. exists (hdType h), (hdOrigin h). unfold ReadFrame, readLegacyFrame.
  set (n := Z.to_nat headerSize). rewrite <- (take_drop n d) at 1. rewrite <- app_assoc, (readFullFrom_app headerSize).
  2: { unfold n, len, headerSize in *. rewrite length_take. lia. }
  unfold n at 1. rewrite decodeHeader_take, Hh by lia. cbn [mbind outcome_bind].
  destruct (_ || _) eqn:Hg; [rewrite orb_true_iff, !Z.ltb_lt in Hg; lia|]. rewrite (readFullFrom_app (hdLength h - headerSize)).
  - cbn. by rewrite take_drop.
  - unfold n, len, headerSize in *. rewrite length_drop. lia.
Qed.

(** The frames of a connection, one after the other. *)
Fixpoint readFrames (n : nat) (stream : list byte) : outcome (list (list byte) * list byte) :=
  match n with
  | O => mret ([], stream)
  | S n => r ← ReadFrame stream; q ← readFrames n r.2; mret (frBytes r.1 :: q.1, q.2)
  end.

(** Frames that [WriteFrame] accepts are read back as they were, one after the other,
    and nothing of what follows is consumed. *)
Lemma frames_read_back frames rest : Forall (λ d, WriteFrame d = Got d) frames → readFrames (length frames) (concat frames ++ rest) = Got (frames, rest).
Proof.
  induction 1 as [|d frames Hd _ IH]; [done|]. destruct (ReadFrame_written d (concat frames ++ rest) d Hd) as (type & origin & Hr).
  cbn [length readFrames concat]. rewrite <- app_assoc, Hr. cbn [mbind outcome_bind fst snd]. by rewrite IH.
Qed.

(** ** Messages *)

Lemma build_writes n ws : build n ws = writeAllTo ws (Got (replicate (Z.to_nat n) x00)).
Proof. done. Qed.
Lemma message_Got size type body d : headerSize ≤ size → Forall (λ w, headerSize ≤ w.1) body → message size type body = Got d →
  len d = size ∧ take (Z.to_nat headerSize) d = concat (headerFields (typed type size)).
Proof.
  intros Hs Hb Hd. unfold message in Hd. rewrite build_writes, writes_app in Hd.
  destruct (writeAllTo (encodeHeader 0 (typed type size)) _) as [d1|e|] eqn:H1; [|by apply writes_never_refuse in H1|by rewrite writes_crashed in Hd].
  destruct (writes_prefix 0 _ _ _ (Z.le_refl 0) (running_from 0 _) H1) as [Hl1 _].
  destruct (writes_prefix headerSize _ _ _ ltac:(done) Hb Hd) as [Hl2 Ht2]. assert (len d1 = size) as Hsize.
  { rewrite Hl1. unfold len. rewrite length_replicate. unfold headerSize in Hs. lia. }
  split; [lia|]. rewrite Ht2. pose proof (running_writes 0 _ _ _ H1) as Hr. rewrite len_headerFields in Hr. apply Hr. unfold len. lia.
Qed.
Lemma message_frame size type body d : headerSize ≤ size ≤ legacyMaxFrameSize → 0 ≤ type < 2 ^ 32 → Forall (λ w, headerSize ≤ w.1) body →
  message size type body = Got d → WriteFrame d = Got d ∧ decodeHeader d 0 = Got (typed type (len d)).
Proof.
  intros Hs Ht Hb Hd. destruct (message_Got size type body d (proj1 Hs) Hb Hd) as [Hl Htake].
  assert (decodeHeader d 0 = Got (typed type (len d))) as Hh.
  { rewrite <- (take_drop (Z.to_nat headerSize) d) at 1. rewrite Htake, Hl. apply decodeHeader_fields. unfold legacyMaxFrameSize, headerSize in Hs. split; cbn; lia. }
  split; [|done]. unfold WriteFrame. destruct (_ || _) eqn:Hg; [rewrite orb_true_iff, !Z.ltb_lt in Hg; lia|].
  destruct (decodeHeader_length _ _ Hh) as [_ ->]. cbn. by rewrite Z.eqb_refl.
Qed.
Lemma message_safe size type body : headerSize ≤ size → Forall (fitsIn size) body → safe (message size type body).
Proof.
  intros Hs Hb. unfold message. rewrite build_writes. apply writes_safe. assert (len (replicate (Z.to_nat size) x00) = size) as ->.
  { unfold len. rewrite length_replicate. unfold headerSize in Hs. lia. }
  apply Forall_app. split; [|done]. apply running_fits; [lia|]. by rewrite len_headerFields.
Qed.

(** A message that is sound: it does not panic and, when it is built, it is a frame of
    its type that [WriteFrame] accepts. *)
Definition sound (type : Z) (m : outcome (list byte)) : Prop :=
  safe m ∧ ∀ d, m = Got d → WriteFrame d = Got d ∧ decodeHeader d 0 = Got (typed type (len d)).
Definition behind (size : Z) (w : Z * list byte) : Prop := headerSize ≤ w.1 ∧ fitsIn size w.
Lemma sound_refused type e : sound type (Refused e).
Proof. by split. Qed.
Lemma sound_message size type body : headerSize ≤ size ≤ legacyMaxFrameSize → 0 ≤ type < 2 ^ 32 → Forall (behind size) body → sound type (message size type body).
Proof.
  intros Hs Ht Hb. split.
  - apply message_safe; [lia|]. eapply Forall_impl; [exact Hb|]. by intros w [].
  - intros d Hd. apply (message_frame size type body); [done|done| |done]. eapply Forall_impl; [exact Hb|]. by intros w [].
Qed.
Lemma behind_one size a bs m : headerSize ≤ a → len bs ≤ m → a + m ≤ size → behind size (a, bs).
Proof. intros. pose proof (len_nonneg bs). unfold headerSize in *. split; [done|]. split; cbn; lia. Qed.
Lemma behind_running size a fields m : headerSize ≤ a → len (concat fields) ≤ m → a + m ≤ size → Forall (behind size) (running a fields).
Proof.
  intros Ha Hf Hm. apply Forall_and. split; [|apply running_fits; unfold headerSize in *; lia].
  eapply Forall_impl; [apply running_from|]. cbn. lia.
Qed.

Lemma len_copyInto n s : 0 ≤ n → len (copyInto n s) ≤ n.
Proof. intros. unfold copyInto, len. rewrite length_take. lia. Qed.
Lemma len_flagByte b : len (flagByte b) ≤ 1.
Proof. destruct b; cbn [flagByte]; [by rewrite len_u8|done]. Qed.
Lemma len_byteArray l : len (byteArray l) = len l.
Proof. unfold len, byteArray. by rewrite length_fmap. Qed.
Lemma wlen_cons {A} (x : A) l : len (x :: l) = 1 + len l.
Proof. unfold len. cbn. lia. Qed.
(** Fields of the same size. *)
Lemma len_concat_map {A} (f : A → list byte) k l : (∀ x, len (f x) ≤ k) → len (concat (f <$> l)) ≤ k * len l.
Proof. intros Hf. induction l as [|x l IH]; [unfold len; cbn; lia|]. cbn [fmap list_fmap concat]. rewrite len_app, wlen_cons. specialize (Hf x). lia. Qed.
Lemma len_concat_bind {A} (f : A → list (list byte)) k l : (∀ x, len (concat (f x)) ≤ k) → len (concat (l ≫= f)) ≤ k * len l.
Proof. intros Hf. induction l as [|x l IH]; [unfold len; cbn; lia|]. cbn [mbind list_bind]. rewrite concat_app, len_app, wlen_cons. specialize (Hf x). lia. Qed.
Lemma len_concat_app (a b : list (list byte)) : len (concat (a ++ b)) = len (concat a) + len (concat b).
Proof. by rewrite concat_app, len_app. Qed.
Lemma len_concat_cons (a : list byte) (b : list (list byte)) : len (concat (a :: b)) = len a + len (concat b).
Proof. apply len_app. Qed.
Lemma le_len_u32 v : len (u32 v) ≤ 4.
Proof. by rewrite len_u32. Qed.
Lemma le_len_u16 v : len (u16 v) ≤ 2.
Proof. by rewrite len_u16. Qed.
Lemma le_len_u8 v : len (u8 v) ≤ 1.
Proof. by rewrite len_u8. Qed.

Ltac sizes_all := unfold message, gameSceneHeaderSize, gameOverFixedSize, settlementRequestFixedSize in *; sizes.
Ltac one_field :=
  first
    [ eapply behind_one; [..|first [apply le_len_u32 | apply le_len_u16 | apply le_len_u8 | apply len_flagByte | apply len_copyInto; lia]|]; sizes; lia ].
Ltac field_list := repeat (apply Forall_cons; split; [one_field|]); try apply Forall_nil_2.
Ltac sound_simple := apply sound_message; [sizes; lia|split; by vm_compute|]; unfold glHeader, putSuffixIndex; cbn [app]; field_list.

Lemma sound_newGameAck b a : sound messageGLToGMNewGameAck (EncodeNewGameAck b a).
Proof. unfold EncodeNewGameAck. sound_simple. Qed.
Lemma sound_gameStart : sound messageGameStart EncodeGameStart.
Proof. unfold EncodeGameStart. sound_simple. Qed.
Lemma sound_roundStat : sound messageGameRoundStat EncodeRoundStat.
Proof. unfold EncodeRoundStat. sound_simple. Qed.
Lemma sound_askFrame u v m : sound messageNHSKAskOutCard (EncodeAskOutCard u v m).
Proof. unfold EncodeAskOutCard. sound_simple. Qed.
Lemma sound_outCardInfo u c : sound messageNHSKOutCardInfo (EncodeOutCardInfo u c).
Proof. unfold EncodeOutCardInfo. destruct (_ <? _); [apply sound_refused|]. sound_simple. Qed.
Lemma sound_turnEnd w p : sound messageNHSKTurnEnd (EncodeTurnEnd w p).
Proof. unfold EncodeTurnEnd. sound_simple. Qed.
Lemma sound_outCardResult r : sound messageNHSKOutCardResult (EncodeOutCardResult r).
Proof. unfold EncodeOutCardResult. destruct (_ || _); [apply sound_refused|]. sound_simple. Qed.
Lemma sound_cardActionWatch u c n : sound messageNHSKCardActionWatch (EncodeCardActionWatch u c n).
Proof. unfold EncodeCardActionWatch. destruct (negb _); [apply sound_refused|]. sound_simple. Qed.
Lemma sound_userStateChange u e : sound (Z.lor messageAckMask messageGameUserStateChange) (EncodeUserStateChange u e).
Proof. unfold EncodeUserStateChange. destruct e; sound_simple. Qed.
Lemma sound_gameStarted b r : sound messageGLToGMGameStarted (EncodeGameStarted b r).
Proof. unfold EncodeGameStarted. sound_simple. Qed.
Lemma sound_noticeRoundOver b r p : sound messageGLToGMNoticeRoundOver (EncodeNoticeRoundOver b r p).
Proof. unfold EncodeNoticeRoundOver. destruct (_ =? _); [apply sound_refused|]. sound_simple. Qed.

(** Messages with loops; the arrays have four seats. *)
Ltac sum_fields :=
  rewrite ?len_concat_app, ?len_concat_cons, ?len_u32, ?len_u16, ?len_u8, ?len_byteArray;
  repeat match goal with
    | |- context [len (concat (u32 <$> ?l))] => learn_hyp (len_concat_map u32 4 l le_len_u32)
    | |- context [len (concat (u16 <$> ?l))] => learn_hyp (len_concat_map u16 2 l le_len_u16)
    | |- context [len (copyInto ?n ?s)] => learn_hyp (len_copyInto n s ltac:(lia))
    end.
Lemma len_nil {A} : len (@nil A) = 0.
Proof. done. Qed.

Lemma sound_gameInfo a b s g : len s = 4 → sound messageNHSKGameInfo (EncodeGameInfo a b s g).
Proof.
  intros Hs. unfold EncodeGameInfo. apply sound_message; [sizes; lia|split; by vm_compute|].
  eapply (behind_running _ _ _ (4 + 4 + 4 * 4 + 2)); [lia| |lia]. sum_fields. cbn [concat]. rewrite len_nil. lia.
Qed.
Lemma sound_deal u s c : 0 ≤ s → len u = 4 → sound messageNHSKDeal (EncodeDeal u s c).
Proof.
  intros Hs Hu. unfold EncodeDeal. destruct (Z.leb_spec 4 s); [apply sound_refused|]. apply sound_message; [sizes; lia|split; by vm_compute|].
  apply Forall_app. split.
  - eapply (behind_running _ _ _ 16); [lia| |sizes; lia]. sum_fields. lia.
  - apply Forall_cons. split; [|done]. eapply (behind_one _ _ _ 26); [sizes; lia|apply len_copyInto; lia|sizes; lia].
Qed.
Lemma sound_showCards u c n : len u = 4 → len c = 4 → len n = 4 → sound messageNHSKShowCards (EncodeShowCards u c n).
Proof.
  intros Hu Hc Hn. unfold EncodeShowCards. destruct (negb _); [apply sound_refused|]. apply sound_message; [sizes; lia|split; by vm_compute|]. apply Forall_app. split.
  - eapply (behind_running _ _ _ (16 + 4 * 26)); [lia| |sizes; lia]. sum_fields.
    pose proof (len_concat_map (λ c, copyInto 26 (byteArray c)) 26 c (λ x, len_copyInto 26 _ ltac:(lia))). lia.
  - apply Forall_cons. split; [|done]. eapply (behind_one _ _ _ 4); [sizes; lia|rewrite len_byteArray; lia|sizes; lia].
Qed.
(** The arrays of a result have four seats. *)
Definition fourSeats (r : WireGameResult) : Prop :=
  len (wrUserIDs r) = 4 ∧ len (wrAutomated r) = 4 ∧ len (wrScores r) = 4 ∧ len (wrOutcomes r) = 4 ∧ len (wrCapturedPoints r) = 4 ∧ len (wrRanks r) = 4.
Lemma sound_gameResult r : fourSeats r → sound messageNHSKGameResult (EncodeGameResult r).
Proof.
  intros (H1 & H2 & H3 & H4 & H5 & H6). unfold EncodeGameResult. destruct (_ || _); [apply sound_refused|]. apply sound_message; [sizes; lia|split; by vm_compute|].
  apply Forall_app. split; [field_list|]. eapply (behind_running _ _ _ 122); [sizes; lia| |sizes; lia]. sum_fields.
  pose proof (len_concat_map (λ b : bool, u8 (if b then 1 else 0)) 1 (wrAutomated r) (λ x, le_len_u8 _)). cbn [concat]. rewrite len_nil. lia.
Qed.
Lemma sound_gameScene s : len (wsPlayers s) = 4 → sound messageNHSKGameScene (EncodeGameScene s).
Proof.
  intros Hp. unfold EncodeGameScene. destruct (_ || _); [apply sound_refused|]. apply sound_message; [unfold gameSceneHeaderSize; sizes; lia|split; by vm_compute|].
  apply Forall_app. split; [unfold gameSceneHeaderSize; field_list|]. eapply (behind_running _ _ _ (42 + 4 * 49)); [unfold gameSceneHeaderSize; sizes; lia| |sizes; lia].
  assert (∀ p, len (concat (scenePlayer p)) ≤ 49) as Hone by (intros p; unfold scenePlayer; sum_fields; cbn [concat]; rewrite len_nil; lia).
  pose proof (len_concat_bind scenePlayer 49 (wsPlayers s) Hone). sum_fields. cbn [concat]. rewrite len_nil. lia.
Qed.
Lemma sound_gameOver v : sound messageGLToGMGameOver (EncodeGameOver v).
Proof.
  unfold EncodeGameOver. destruct (_ || _) eqn:Hg; [apply sound_refused|]. rewrite !orb_false_iff, andb_false_iff, !negb_false_iff, !Z.eqb_eq in Hg. destruct Hg as [_ Hn].
  unfold gameOverFixedSize. apply sound_message; [sizes; lia|split; by vm_compute|]. unfold glHeader. cbn [app]. field_list.
  assert (∀ p, len (concat (overPlayer p)) ≤ 9) as Hone by (intros p; unfold overPlayer; sum_fields; cbn [concat]; rewrite len_nil; lia).
  pose proof (len_concat_bind overPlayer 9 (woPlayers v) Hone).
  eapply (behind_running _ _ _ (len (woPlayers v) * 9)); [sizes; lia|lia|sizes; lia].
Qed.
(** At most 670 gains fit into a frame. *)
Lemma sound_settlement q : len (wqGains q) ≤ 670 → sound messageGLToGMSettlementRequest (EncodeSettlementRequest q).
Proof.
  intros Hq. unfold EncodeSettlementRequest. destruct (_ || _) eqn:Hg; [apply sound_refused|]. rewrite !orb_false_iff, !negb_false_iff, !Z.eqb_eq in Hg. destruct Hg as [_ Hn].
  destruct (negb _); [apply sound_refused|]. destruct (negb _); [apply sound_refused|]. cbv zeta. pose proof (len_nonneg (wqGains q)).
  unfold settlementRequestFixedSize. apply sound_message; [sizes; lia|split; by vm_compute|]. unfold glHeader, putSuffixIndex. cbn [app]. field_list.
  assert (∀ g, len (concat (gainFields g)) ≤ 12) as Hg by (intros p; unfold gainFields; sum_fields; cbn [concat]; rewrite len_nil; lia).
  assert (∀ p, len (concat (playerFields p)) ≤ 20) as Hp by (intros p; unfold playerFields; sum_fields; cbn [concat]; rewrite len_nil; lia).
  pose proof (len_concat_bind gainFields 12 (wqGains q) Hg). pose proof (len_concat_bind playerFields 20 (wqPlayers q) Hp).
  eapply (behind_running _ _ _ (len (wqGains q) * 12 + len (wqPlayers q) * 20)); [sizes; lia|rewrite len_concat_app; lia|sizes; lia].
Qed.
Lemma sound_relay m : sound messageGLToGMGame (EncodeOutboundGameRelay m).
Proof.
  unfold EncodeOutboundGameRelay. destruct (Z.ltb_spec (legacyMaxFrameSize - gameFrameBase) (len (orPayload m))); [apply sound_refused|]. cbv zeta.
  pose proof (len_nonneg (orPayload m)). change (build ?n (encodeHeader 0 (typed ?t ?n) ++ ?b)) with (message n t b).
  apply sound_message; [sizes; lia|split; by vm_compute|]. apply Forall_app. split; [field_list|]. apply Forall_app. split.
  - eapply (behind_running _ _ _ 24); [sizes; lia|by rewrite len_headerFields|sizes; lia].
  - do 5 (apply Forall_cons; split; [one_field|]). apply Forall_cons. split; [|done]. eapply (behind_one _ _ _ (len (orPayload m))); [sizes; lia|lia|sizes; lia].
Qed.

(** ** The relay the other way *)

(** A relay as the game master builds it: the layout of [0x8605] around [0x7402], with
    any serial numbers and the like in the headers. *)
Definition relayFields (outer inner : bsHeader) (r : InboundGameRelay) : list (list byte) :=
  headerFields outer ++ [u16 glHeaderSize; u32 (irBattleID r); u32 (irUserID r)] ++ headerFields inner
  ++ [u32 (ghUserID (irGameHeader r)); u32 (ghConnectType (irGameHeader r)); u32 (ghPlatformID (irGameHeader r)); u32 (ghMatchID (irGameHeader r));
      u32 (ghProductID (irGameHeader r)); u32 (ghReserved (irGameHeader r)); u32 relayFixedSize; u32 (len (irPayload r))].
Definition relayFrame (outer inner : bsHeader) (r : InboundGameRelay) : list byte := concat (relayFields outer inner r) ++ irPayload r.
Definition isU32 (z : Z) : Prop := 0 ≤ z < 2 ^ 32.
Record relayOk (outer inner : bsHeader) (r : InboundGameRelay) : Prop := {
  ry_outer : headerOk outer ∧ hdType outer = messageGMToGLGame ∧ hdLength outer = gameFrameBase + len (irPayload r);
  ry_inner : headerOk inner ∧ hdType inner = messageAgentToGameRelay ∧ hdLength inner = relayFixedSize + len (irPayload r);
  ry_size : len (irPayload r) ≤ legacyMaxFrameSize - gameFrameBase;
  ry_ids : isU32 (irBattleID r) ∧ isU32 (irUserID r);
  ry_game : isU32 (ghUserID (irGameHeader r)) ∧ isU32 (ghConnectType (irGameHeader r)) ∧ isU32 (ghPlatformID (irGameHeader r))
    ∧ isU32 (ghMatchID (irGameHeader r)) ∧ isU32 (ghProductID (irGameHeader r)) ∧ isU32 (ghReserved (irGameHeader r))
}.

Lemma concat_split {A} (l : list (list A)) i x : l !! i = Some x → concat l = concat (take i l) ++ x ++ concat (drop (S i) l).
Proof. intros H. rewrite <- (take_drop_middle l i x H) at 1. by rewrite concat_app. Qed.
Lemma u32at_nth fields i v rest a : fields !! i = Some (u32 v) → a = len (concat (take i fields)) → isU32 v → u32at (concat fields ++ rest) a = Got v.
Proof.
  intros Hi -> Hv. apply (u32at_field (concat (take i fields)) v (concat (drop (S i) fields) ++ rest)); [|done|done].
  by rewrite (concat_split _ _ _ Hi), <- !app_assoc.
Qed.
Ltac offset := repeat match goal with x := _ : list (list byte) |- _ => subst x end; cbn [relayFields headerFields app take concat]; rewrite ?len_app, ?len_u32, ?len_u16, ?len_nil; reflexivity.

Lemma relay_decodes outer inner r : relayOk outer inner r → DecodeInboundGameRelay (relayFrame outer inner r) = Got r.
Proof.
  intros [(Ho & Hot & Hol) (Hi & Hit & Hil) Hs (Hb & Hu) (G1 & G2 & G3 & G4 & G5 & G6)]. pose proof (len_nonneg (irPayload r)) as Hp.
  set (innerBytes := concat (headerFields inner ++ [u32 (ghUserID (irGameHeader r)); u32 (ghConnectType (irGameHeader r)); u32 (ghPlatformID (irGameHeader r));
    u32 (ghMatchID (irGameHeader r)); u32 (ghProductID (irGameHeader r)); u32 (ghReserved (irGameHeader r)); u32 relayFixedSize; u32 (len (irPayload r))]) ++ irPayload r).
  assert (relayFrame outer inner r = concat (headerFields outer) ++ (u16 glHeaderSize ++ u32 (irBattleID r) ++ u32 (irUserID r)) ++ innerBytes) as Hd.
  { unfold relayFrame, relayFields, innerBytes. rewrite !concat_app. cbn [concat]. rewrite !app_nil_r. by rewrite <- !app_assoc. }
  assert (len innerBytes = relayFixedSize + len (irPayload r)) as Hli.
  { unfold innerBytes. rewrite len_app, concat_app, len_app, len_headerFields. cbn [concat]. rewrite !len_app, !len_u32, len_nil. sizes. lia. }
  assert (len (relayFrame outer inner r) = gameFrameBase + len (irPayload r)) as Hl.
  { rewrite Hd, !len_app, len_headerFields, Hli, len_u16, !len_u32. sizes. lia. }
  unfold DecodeInboundGameRelay. rewrite !Hl. rewrite (proj2 (Z.leb_le gameFrameBase _)), (proj2 (Z.leb_le _ legacyMaxFrameSize)) by lia. cbn [guard_ mbind outcome_bind].
  assert (decodeHeader (relayFrame outer inner r) 0 = Got outer) as Hh by (rewrite Hd; by apply decodeHeader_fields).
  rewrite Hh. cbn [rename mbind outcome_bind]. rewrite Hot, Z.eqb_refl, Hol, Z.eqb_refl, (proj2 (Z.eqb_neq _ 0)) by (sizes; lia). cbn [guard_ negb andb mbind outcome_bind].
  rewrite (slice_field (concat (headerFields outer)) (u16 glHeaderSize ++ u32 (irBattleID r) ++ u32 (irUserID r)) innerBytes headerSize glHeaderSize (relayFrame outer inner r)); [|done|apply len_headerFields|by rewrite !len_app, !len_u32, len_u16].
  cbn [mbind outcome_bind]. rewrite (u16at_field [] glHeaderSize (u32 (irBattleID r) ++ u32 (irUserID r)) 0) by done. cbn [mbind outcome_bind]. rewrite Z.eqb_refl. cbn [guard_ mbind outcome_bind].
  rewrite (slice_field (concat (headerFields outer) ++ u16 glHeaderSize ++ u32 (irBattleID r) ++ u32 (irUserID r)) innerBytes [] glHeaderSize (gameFrameBase + len (irPayload r)) (relayFrame outer inner r)).
  2: { rewrite app_nil_r, <- app_assoc. exact Hd. }
  2: { by rewrite !len_app, len_headerFields, !len_u32, len_u16. }
  2: { rewrite Hli. sizes. lia. }
  cbn [mbind outcome_bind]. assert (decodeHeader innerBytes 0 = Got inner) as Hhi.
  { unfold innerBytes. rewrite concat_app, <- app_assoc. by apply decodeHeader_fields. }
  rewrite Hhi. cbn [rename mbind outcome_bind]. rewrite Hit, Z.eqb_refl, Hil, Hli, Z.eqb_refl, (proj2 (Z.eqb_neq _ 0)) by (sizes; lia). cbn [guard_ negb andb mbind outcome_bind].
  set (fields := headerFields inner ++ _) in innerBytes. subst innerBytes.
  assert (isU32 (len (irPayload r))) as Hpu by (unfold isU32; sizes; lia).
  assert (isU32 relayFixedSize) as Hru by done.
  rewrite (u32at_nth fields 13 relayFixedSize (irPayload r) (headerSize + gameHeaderSize)); [|done|offset|done]. cbn [mbind outcome_bind].
  rewrite (u32at_nth fields 14 (len (irPayload r)) (irPayload r) (headerSize + gameHeaderSize + 4)); [|done|offset|done]. cbn [mbind outcome_bind]. rewrite !Z.eqb_refl. cbn [guard_ mbind outcome_bind].
  rewrite (u32at_nth fields 7 (ghUserID (irGameHeader r)) (irPayload r) headerSize); [|done|offset|done]. cbn [mbind outcome_bind].
  rewrite (u32at_nth fields 8 (ghConnectType (irGameHeader r)) (irPayload r) (headerSize + 4)); [|done|offset|done]. cbn [mbind outcome_bind].
  rewrite (u32at_nth fields 9 (ghPlatformID (irGameHeader r)) (irPayload r) (headerSize + 8)); [|done|offset|done]. cbn [mbind outcome_bind].
  rewrite (u32at_nth fields 10 (ghMatchID (irGameHeader r)) (irPayload r) (headerSize + 12)); [|done|offset|done]. cbn [mbind outcome_bind].
  rewrite (u32at_nth fields 11 (ghProductID (irGameHeader r)) (irPayload r) (headerSize + 16)); [|done|offset|done]. cbn [mbind outcome_bind].
  rewrite (u32at_nth fields 12 (ghReserved (irGameHeader r)) (irPayload r) (headerSize + 20)); [|done|offset|done]. cbn [mbind outcome_bind].
  rewrite (slice_field (concat fields) (irPayload r) []); [|by rewrite app_nil_r|offset|lia]. cbn [mbind outcome_bind].
  unfold relayFrame. rewrite (u32at_nth (relayFields outer inner r) 8 (irBattleID r) (irPayload r) 26); [|done|offset|done]. cbn [mbind outcome_bind].
  rewrite (u32at_nth (relayFields outer inner r) 9 (irUserID r) (irPayload r) 30); [|done|offset|done]. cbn. by destruct r as [? ? [] ?].
Qed.

(** ** Claims *)

(** C33. Whatever bytes arrive on the connection, reading a frame and decoding it as a
    relay, as a client message or as a message of the game master returns a value or
    an error: no slice expression, no index and no conversion is ever out of range. *)
Theorem decoders_never_panic d :
  ReadFrame d ≠ Crashed ∧ DecodeControl d ≠ Crashed ∧ DecodeInboundGameRelay d ≠ Crashed ∧ DecodeClientGameplayMessage d ≠ Crashed
  ∧ DecodeOutCardRequest d ≠ Crashed ∧ DecodeCardActionRequest d ≠ Crashed ∧ DecodeUserStateChange d ≠ Crashed ∧ DecodeUserReconnect d ≠ Crashed
  ∧ DecodeGameSceneRequest d ≠ Crashed ∧ DecodePropUse d ≠ Crashed.
Proof.
  split_and!.
  - apply safe_bind; [apply readLegacyFrame_safe|]. by intros [[? ?] ?] _.
  - apply DecodeControl_safe.
  - apply DecodeInboundGameRelay_safe.
  - apply DecodeClientGameplayMessage_safe.
  - apply DecodeOutCardRequest_safe.
  - apply DecodeCardActionRequest_safe.
  - apply DecodeUserStateChange_safe.
  - apply decodePlayerViewRequest_safe.
  - apply decodePlayerViewRequest_safe.
  - apply DecodePropUse_safe.
Qed.
