(* ===== verification/NhskLegacy.v ===== *)
(** * The adapter to the old game master

    [src/examples/nhsk/legacy_mapper.go], [legacy_relay_mapper.go],
    [legacy_control_mapper.go]: the frames of the game master as commands for the host
    and the battles.  [legacy_egress.go], [output_service.go]: what a battle puts out
    as frames.  [legacy_connection.go]: the connection, its generations, its queues and
    the routes it remembers.

    Mapping and encoding are programs of [outcome]: an error carries its text, without
    the numbers formatted into it, and [Crashed] is a panic.  The connection is a
    program over [lworld]: the fields of the connection, and a log of what it did.  What
    the runtime and the host answer is the instance of [LegacyEnv], any functions of
    the log. *)

From stdpp Require Import prelude gmap strings list.
From Stdlib Require Import ZArith Lia Strings.Byte.
From S2P Require Import Prelude Types Bytes Encoding Game NhskCards NhskSettlement NhskReplay NhskBattle NhskHost NhskWire.

Local Open Scope Z_scope.

(** ** Commands of players *)

(** [fmt.Errorf("%w: %v", base, err)] *)
Definition wrap {X} (base : string) (m : outcome X) : outcome X :=
  match m with Refused e => Refused (base +:+ ": " +:+ e) | _ => m end.
Definition playerID (user : Z) : PlayerID := string_of (formatUint user).
Definition legacyPlayerStateAuto : Z := 1.
Definition invalidGameplay : string := "nhsk: invalid Legacy gameplay command".
Definition copyLegacyGameplayCards (cards : list byte) (count : Z) : outcome (list card) := s ← slice cards 0 count; mret (byteZ <$> (s : list byte)).

Definition mapLegacyGameplayCommand (user : Z) (payload : list byte) : outcome command :=
  if user =? 0 then Refused (invalidGameplay +:+ ": zero user ID")
  else
    message ← wrap invalidGameplay (DecodeClientGameplayMessage payload);
    let player := playerID user in
    if message =? messageNHSKOutCard then
      request ← wrap invalidGameplay (DecodeOutCardRequest payload);
      cards ← copyLegacyGameplayCards (ocCards request) (ocCount request);
      mret (PlayCards (Some (player, cards, ocVerifyCode request)))
    else if message =? messageNHSKCardAction then
      request ← wrap invalidGameplay (DecodeCardActionRequest payload);
      cards ← copyLegacyGameplayCards (caCards request) (caCount request);
      mret (PreviewCardSelection (Some (player, cards)))
    else if message =? messageGameUserStateChange then
      request ← wrap invalidGameplay (DecodeUserStateChange payload);
      if negb (ucUserID request =? user) then Refused (invalidGameplay +:+ ": outer UserID differs from payload UserID")
      else mret (SetPlayerAutoState (Some (player, negb (Z.land (ucState request) legacyPlayerStateAuto =? 0))))
    else if message =? messageGameUserReconnect then
      request ← wrap invalidGameplay (DecodeUserReconnect payload);
      if negb (pvUserID request =? user) then Refused (invalidGameplay +:+ ": reconnect user differs from outer user")
      else mret (ReconnectPlayer (Some player))
    else if message =? messageGameScene then
      request ← wrap invalidGameplay (DecodeGameSceneRequest payload);
      if negb (pvUserID request =? user) then Refused (invalidGameplay +:+ ": scene user differs from outer user")
      else mret (RequestGameScene (Some player))
    else if message =? messageGameBroadcastUseProp then
      request ← wrap invalidGameplay (DecodePropUse payload);
      if negb (puSenderID request =? user) then Refused (invalidGameplay +:+ ": prop sender differs from outer user")
      else mret (RecordPropUse (Some (puSenderID request, puPropID request, puSendCount request, puTargetIDs request)))
    else Refused (invalidGameplay +:+ ": unsupported client MessageID").

Definition invalidRelay : string := "nhsk: invalid Legacy inbound gameplay relay".
Record legacyInboundGameplayCommand := mkInboundCommand { icBattleID : BattleID; icMatchID : Z; icProductID : Z; icCommand : command }.
Definition mapLegacyInboundGameplayRelay (frame : list byte) : outcome legacyInboundGameplayCommand :=
  relay ← wrap invalidRelay (DecodeInboundGameRelay frame);
  if irBattleID relay =? 0 then Refused (invalidRelay +:+ ": zero BattleID")
  else if irUserID relay =? 0 then Refused (invalidRelay +:+ ": zero outer UserID")
  else if negb (ghUserID (irGameHeader relay) =? irUserID relay) then Refused (invalidRelay +:+ ": outer UserID differs from inner UserID")
  else
    c ← wrap invalidRelay (mapLegacyGameplayCommand (irUserID relay) (irPayload relay));
    mret (mkInboundCommand (irBattleID relay) (ghMatchID (irGameHeader relay)) (ghProductID (irGameHeader relay)) c).

(** ** Commands of the game master *)

(** [Target] and [Command] of a route; the unsupported kinds have neither. *)
Inductive LegacyControlTarget := LegacyControlTargetHost (c : hostCommand) | LegacyControlTargetBattle (c : command) | LegacyControlTargetNone.
Record LegacyControlRoute := mkRoute { lrKind : ControlKind; lrTarget : LegacyControlTarget; lrBattleID : BattleID }.
Definition isNewGame (k : ControlKind) : bool := match k with ControlNewGame _ _ _ => true | _ => false end.

Definition invalidControl : string := "nhsk: invalid Legacy control".
Definition unsupportedControl : string := "nhsk: unsupported Legacy control".
Definition legacyRoundStart : Z := 0.
Definition legacyRoundMatchStop : Z := 4.
Definition battleRoute (kind : ControlKind) (battle : BattleID) (c : command) : LegacyControlRoute := mkRoute kind (LegacyControlTargetBattle c) battle.
Definition mapLegacyRoundCommand (value : Z) : outcome command :=
  if value =? legacyRoundStart then mret (StartSubgame true)
  else if value =? legacyRoundMatchStop then mret (ForceFinishSubgame true)
  else Refused (unsupportedControl +:+ ": round command").

Definition mapLegacyInit (kind : ControlKind) (battle : BattleID) (i : InitGame) : outcome LegacyControlRoute :=
  if (igProductID i =? 0) || (igMatchID i =? 0) || (igRoundID i =? 0) || (65535 <? igMaxGameNum i) || (65535 <? igMaxSubgameNum i)
  then Refused (invalidControl +:+ ": INIT_GAME identity or limits")
  else mret (battleRoute kind battle (Initialize (Some (mkInitialize
    (mkIdentity battle (igProductID i) (igMatchID i) (igRoundID i) (igRoundUniCode i)) (igMaxGameNum i) (igMaxSubgameNum i) (igFee i) (igScoreBase i)
    (igScoreDenominator i) (mkMetadata (igMatchName i) (igGameType i) (igScoreType i) (igScoreMode i) (igRoomID i) (igCreatorID i))
    (normalizeReplayRuleSnapshot (igBaseRule i)) (Some (normalizeNHSKConfig (igBaseRule i) (igGameRule i))))))).

Definition mapLegacyPlayers (kind : ControlKind) (battle : BattleID) (l : list LegacyPlayer) : outcome LegacyControlRoute :=
  if existsb (λ p, (lpUserID p =? 0) || (4 <=? lpSeatID p)) l then Refused (invalidControl +:+ ": UPDATE_PLAYER record")
  else if len l =? 0 then Refused (invalidControl +:+ ": empty UPDATE_PLAYER")
  else mret (battleRoute kind battle (UpdatePlayers (Some ((λ p,
    mkPlayer (playerID (lpUserID p)) (lpUserID p) (lpSeatID p) (lpScore p) (lpExp p) (lpPlayerState p) (lpNickname p) (lpClientID p) "" (lpIsAI p) false false false) <$> l)))).

Definition MapLegacyControl (control : LegacyControl) (generation : Z) : outcome LegacyControlRoute :=
  let battle := lcBattleID control in
  let kind := lcKind control in
  if (battle =? 0) && negb (isNewGame kind) then Refused (invalidControl +:+ ": zero BattleID")
  else
    match kind with
    | ControlNewGame product game newbie =>
        if (battle =? 0) || (product =? 0) || (game =? 0) then Refused (invalidControl +:+ ": NEW_GAME identity")
        else if negb (game =? NHSKGameID) then Refused (unsupportedControl +:+ ": unsupported game id")
        else mret (mkRoute kind (LegacyControlTargetHost (BeginCreateBattle (Some (mkCreateRequest battle newbie generation)))) battle)
    | ControlDeleteGame => mret (mkRoute kind (LegacyControlTargetHost (RequestDeleteBattle (Some (battle, zeroRef, generation)))) battle)
    | ControlInitGame i => mapLegacyInit kind battle i
    | ControlUpdatePlayers l => mapLegacyPlayers kind battle l
    | ControlUpdateGame g s =>
        if (g =? 0) || (s =? 0) || (65535 <? g) || (65535 <? s) then Refused (invalidControl +:+ ": UPDATE_GAME numbers")
        else mret (battleRoute kind battle (PrepareSubgame (Some (g, s))))
    | ControlStartNewGame total used room => mret (battleRoute kind battle (UpdateRoundContext (Some (mkRoundContext total used room))))
    | ControlCommand value => c ← mapLegacyRoundCommand value; mret (battleRoute kind battle c)
    | ControlDress dress =>
        if lcUserID control =? 0 then Refused (invalidControl +:+ ": DRESS user")
        else mret (battleRoute kind battle (UpdatePlayerDress (Some (playerID (lcUserID control), dress))))
    | ControlPlayerExit _ =>
        if lcUserID control =? 0 then Refused (invalidControl +:+ ": PLAYER_EXIT user")
        else mret (battleRoute kind battle (ExitPlayer (Some (playerID (lcUserID control)))))
    | ControlSettlementAck a =>
        mret (battleRoute kind battle (CompleteSettlement (Some (mkComplete (saSuccess a) (saResultType a) (saTeamCount a)
          ((λ g, mkGain (lgPay g) (lgGain g) (lgScore g)) <$> saDetails a)
          ((λ p, mkPlayerResult (lrPlayerID p) (lrFlag p) (lrScore p) (lrExp p) (lrTeamID p)) <$> saPlayers a)))))
    | ControlUnsupported => mret (mkRoute kind LegacyControlTargetNone battle)
    end.

(** ** Outputs of a battle *)

Definition invalidOutput : string := "nhsk: invalid Legacy GameOutput".
Definition outputError {X} (text : string) : outcome X := Refused (invalidOutput +:+ ": " +:+ text).

(** [strconv.ParseUint(s, 10, 32)] *)
Definition ParseUint32 (s : string) : option Z :=
  let l := bytes_of s in
  if bool_decide (l = []) || negb (forallb isDigit l) || (2 ^ 32 <=? digitsValue l) then None else Some (digitsValue l).

(** The loop of [legacyTargetUserIDs], with the users seen so far. *)
Fixpoint targetUserIDs (seen : list Z) (targets : list PlayerID) : outcome (list Z) :=
  match targets with
  | [] => mret []
  | target :: targets =>
      match ParseUint32 target with
      | None => outputError "target"
      | Some user =>
          if user =? 0 then outputError "target"
          else if bool_decide (user ∈ seen) then outputError "duplicate target"
          else l ← targetUserIDs (user :: seen) targets; mret (user :: l)
      end
  end.
Definition legacyTargetUserIDs (targets : list PlayerID) : outcome (list Z) :=
  if len targets =? 0 then outputError "empty targets" else targetUserIDs [] targets.
(** [l[i]] *)
Definition item {X} (l : list X) (i : Z) : outcome X := match l !! Z.to_nat i with Some x => if 0 <=? i then Got x else Crashed | None => Crashed end.
(** [legacyTargetUserIDs([]game.PlayerID{p})] and its only element *)
Definition oneUserID (p : PlayerID) : outcome Z := l ← legacyTargetUserIDs [p]; item l 0.
Definition fourUserIDs (l : list Z) : outcome (list Z) := a ← item l 0; b ← item l 1; c ← item l 2; d ← item l 3; mret [a; b; c; d].

Definition encodeLegacyDeal (targets : list PlayerID) (players : quad PlayerID) (seat : Z) (cards : list card) : outcome (list byte) :=
  if negb (len targets =? 1) then outputError "DEAL target count"
  else if 4 <=? seat then outputError "DEAL seat"
  else
    users ← legacyTargetUserIDs (qlist players);
    ids ← legacyTargetUserIDs targets;
    target ← item ids 0;
    own ← item users seat;
    if negb (target =? own) then outputError "DEAL target does not match seat user"
    else four ← fourUserIDs users; wrap (invalidOutput +:+ ": DEAL") (EncodeDeal four seat cards).

Definition encodeLegacyAskOutCard (player : PlayerID) (verify ms : Z) : outcome (list byte) :=
  if verify =? 0 then outputError "ASK_OUT_CARD zero verify code" else active ← oneUserID player; EncodeAskOutCard active verify ms.
Definition encodeLegacyOutCardInfo (player : PlayerID) (cards : list card) (count : Z) : outcome (list byte) :=
  if len cards <? count then outputError "OUT_CARD_INFO card count"
  else user ← oneUserID player; wrap (invalidOutput +:+ ": OUT_CARD_INFO") (EncodeOutCardInfo user (take (Z.to_nat count) cards)).
Definition encodeLegacyTurnEnd (winner : PlayerID) (points : Z) : outcome (list byte) := user ← oneUserID winner; EncodeTurnEnd user points.
Definition encodeLegacyShowCards (players : quad PlayerID) (counts : quad Z) (cards : quad (list card)) : outcome (list byte) :=
  users ← legacyTargetUserIDs (qlist players);
  four ← fourUserIDs users;
  wrap (invalidOutput +:+ ": SHOW_CARDS") (EncodeShowCards four (qlist cards) (qlist counts)).

(** The values of the enumerations *)
Definition reasonValue (r : GameOverReason) : Z :=
  match r with GameOverReasonSuccess => 0 | GameOverReasonEscape => 1 | GameOverReasonOffline => 2 | GameOverReasonException => 3 | GameOverReasonDissolve => 4 end.
Definition resultValue (r : SubgameResult) : Z := match r with SubgameResultSingle => 0 | SubgameResultDouble => 1 | SubgameResultPeace => 2 end.
Definition outcomeValue (o : PlayerOutcome) : Z := match o with PlayerOutcomeWin => 0 | PlayerOutcomeLoss => 1 | PlayerOutcomePeace => 2 end.
Definition rejectionValue (r : OutCardRejectionReason) : Z :=
  match r with
  | OutCardRejectionCardCount => 1 | OutCardRejectionSeat => 2 | OutCardRejectionVerifyCode => 3 | OutCardRejectionCardType => 4 | OutCardRejectionPaused => 5
  end.
Definition sceneStateValue (s : GameSceneState) : Z := match s with GameSceneStatePlaying => 3 | GameSceneStateShowingResult => 4 end.

Definition encodeLegacyGameResult (r : GameResultPayload) : outcome (list byte) :=
  users ← legacyTargetUserIDs (qlist (grPlayers r));
  four ← fourUserIDs users;
  wrap (invalidOutput +:+ ": GAME_RESULT") (EncodeGameResult (mkWireResult (reasonValue (grReason r)) four (qlist (grAutomated r)) (qlist (grScores r))
    (outcomeValue <$> qlist (grOutcomes r)) (qlist (grCapturedPoints r)) (qlist (grRanks r)) (resultValue (grResult r)) (grWinningTeam r) (grReplayUID r))).

Definition scenePlayerState (p : GameScenePlayer) : Z := Z.lor (if spAutomated p then 1 else 0) (if spOffline p then 2 else 0).
Definition wireScenePlayer (user : Z) (p : GameScenePlayer) : WireScenePlayer :=
  mkWirePlayer user (scenePlayerState p) (spHandCards p) (spHandCount p) (spLastPlayedCards p) (spLastPlayCount p) (spCapturedPoints p) (spRank p).
Definition encodeLegacyGameScene (targets : list PlayerID) (s : GameScenePayload) : outcome (list byte) :=
  if negb (len targets =? 1) then outputError "GAME_SCENE target count"
  else
    users ← legacyTargetUserIDs (spPlayer <$> qlist (scPlayers s));
    ids ← legacyTargetUserIDs targets;
    target ← item ids 0;
    if negb (existsb (Z.eqb target) users) then outputError "GAME_SCENE target is not a player"
    else
      four ← fourUserIDs users;
      wrap (invalidOutput +:+ ": GAME_SCENE") (EncodeGameScene (mkWireScene (sceneStateValue (scState s)) (scActiveSeat s) (scPreviousPlayerSeat s)
        (scRemainingSeconds s) (scTrickScoreCards s) (scTrickScoreCardCount s) (scFinishedPlayerCount s)
        (zip_with wireScenePlayer four (qlist (scPlayers s))))).
Definition encodeLegacyOutCardRejection (targets : list PlayerID) (reason : OutCardRejectionReason) : outcome (list byte) :=
  if negb (len targets =? 1) then outputError "OUT_CARD_RESULT target count"
  else wrap (invalidOutput +:+ ": OUT_CARD_RESULT") (EncodeOutCardResult (rejectionValue reason)).
Definition encodeLegacyCardSelectionPreview (player : PlayerID) (cards : list card) (count : Z) : outcome (list byte) :=
  user ← oneUserID player; wrap (invalidOutput +:+ ": CARD_ACTION_WATCH") (EncodeCardActionWatch user cards count).

(** The payload determines the kind, so the mismatches of the two do not arise. *)
Definition encodeLegacyClientPayload (targets : list PlayerID) (payload : OutputPayload) : outcome (list byte) :=
  match payload with
  | GameStartPayload => EncodeGameStart
  | RoundStatPayload => EncodeRoundStat
  | GameInfoPayload seconds fee scores gameNum => EncodeGameInfo seconds fee (qlist scores) gameNum
  | DealPayload players seat cards => encodeLegacyDeal targets players seat cards
  | AskOutCardPayload player verify ms => encodeLegacyAskOutCard player verify ms
  | OutCardInfoPayload player cards count => encodeLegacyOutCardInfo player cards count
  | TurnEndPayload winner points => encodeLegacyTurnEnd winner points
  | ShowCardsPayload players counts cards => encodeLegacyShowCards players counts cards
  | GameResult r => encodeLegacyGameResult r
  | GameScene s => encodeLegacyGameScene targets s
  | OutCardRejectionPayload reason => encodeLegacyOutCardRejection targets reason
  | CardSelectionPreviewPayload player cards count => encodeLegacyCardSelectionPreview player cards count
  | PlayerAutoStatePayload player enabled => user ← oneUserID player; EncodeUserStateChange user enabled
  end.

Definition encodeLegacySettlementRequest (battle : BattleID) (o : SettlementRequestOutput) : outcome (list byte) :=
  wrap (invalidOutput +:+ ": settlement request") (EncodeSettlementRequest (mkWireSettlement battle (soResultType o) (soTeamCount o)
    ((λ g, mkLegacyGain (PayTeamID g) (GainTeamID g) (gScore g)) <$> soGains o)
    ((λ p, mkLegacyResult (prPlayerID p) (prFlag p) (prScore p) (prExp p) (prTeamID p)) <$> soPlayers o)
    (soNoScoreBase o) (soNoCheckSeal o) (soNoRecharge o) (soLevelScoreType o))).
(** An optional player, 0 when there is none. *)
Definition optionalUserID (p : PlayerID) : outcome Z := if bool_decide (p = "") then mret 0 else oneUserID p.
Definition encodeLegacyGameOver (battle : BattleID) (reason : Z) (replay : string) (isOver : bool) (endReason : Z) (endPlayer : PlayerID)
    (players : list GameOverPlayerData) : outcome (list byte) :=
  player ← wrap (invalidOutput +:+ ": GAME_OVER player") (optionalUserID endPlayer);
  wrap (invalidOutput +:+ ": GAME_OVER") (EncodeGameOver (mkWireOver battle reason replay isOver endReason player
    ((λ p, (goScore p, goExp p, goAutomated p)) <$> players))).
Definition encodeLegacyNotice (battle : BattleID) (reason : Z) (endPlayer : PlayerID) : outcome (list byte) :=
  player ← wrap (invalidOutput +:+ ": NOTICE_ROUND_OVER player") (optionalUserID endPlayer);
  wrap (invalidOutput +:+ ": NOTICE_ROUND_OVER") (EncodeNoticeRoundOver battle reason player).

(** [mapM] of the frames, one after the other. *)
Fixpoint collect {X Y} (f : X → outcome Y) (l : list X) : outcome (list Y) :=
  match l with [] => mret [] | x :: l => y ← f x; r ← collect f l; mret (y :: r) end.
(** A battle leaves the end player of its outputs empty. *)
Definition encodeLegacyOutput (batch : GameOutputBatch) (output : GameOutput) : outcome (list (list byte)) :=
  match output with
  | ClientGameOutput targets payload =>
      d ← encodeLegacyClientPayload targets payload;
      users ← legacyTargetUserIDs targets;
      collect (λ user, wrap (invalidOutput +:+ ": relay") (EncodeOutboundGameRelay (mkOutbound (baBattleID batch) user (baMatchID batch) (baProductID batch) d))) users
  | GameStartedOutput replay =>
      if bool_decide (replay = "") then outputError "empty GAME_STARTED replay name" else d ← EncodeGameStarted (baBattleID batch) replay; mret [d]
  | GameOver o => d ← encodeLegacyGameOver (baBattleID batch) (reasonValue (ovReason o)) (ovReplayName o) (ovIsGameOver o) 0 "" (qlist (ovPlayers o)); mret [d]
  | SettlementRequested o => d ← encodeLegacySettlementRequest (baBattleID batch) o; mret [d]
  | NoticeRoundOverOutput reason => d ← encodeLegacyNotice (baBattleID batch) (reasonValue reason) ""; mret [d]
  end.
Definition validGameOutputBatch (b : GameOutputBatch) : bool :=
  negb (baBattleID b =? 0) && negb (baMatchID b =? 0) && negb (baProductID b =? 0) && negb (bool_decide (Node (baRef b) = "")) && negb (ID (baRef b) =? 0)
  && negb (baGeneration b =? 0) && negb (len (baOutputs b) =? 0).
Definition encodeLegacyGameOutputBatch (batch : GameOutputBatch) : outcome (list (list byte)) :=
  if negb (validGameOutputBatch batch) then Refused invalidOutput
  else l ← collect (encodeLegacyOutput batch) (baOutputs batch); mret (concat l).

(** ** The connection *)

Inductive legacyError := LText (text : string) | LRuntime (e : rtError) | LPanicked.
Definition errLegacyConnectionClosed : legacyError := LText "nhsk: Legacy GM connection closed".
Definition errLegacyConnectionNotReady : legacyError := LText "nhsk: Legacy GM connection not ready".
Definition errLegacyCreateTimeout : legacyError := LText "nhsk: Legacy NEW_GAME completion timeout".

(** A connection is up until it is closed; [snDone] is set when its reader returned, and
    the writer then stops.  A queue holds at most [lwQueue] elements. *)
Record legacyConnectionSession := mkSession {
  snGeneration : Z; snUp : bool; snFrames : list (list byte); snOutputs : list GameOutputBatch; snDone : bool; snWriter : bool;
  snRoutes : gmap BattleID ServiceRef
}.
(** [LArrived] is a frame handed to [routeFrame], [LConnected] a session that begins. *)
Inductive legacyEvent :=
| LConnected (generation : Z)
| LArrived (generation : Z) (f : Frame)
| LSentBattle (battle : BattleID) (ref : ServiceRef) (c : command) (answer : error rtError)
| LSentHost (c : hostCommand) (answer : error rtError)
| LCalledHost (c : hostCommand) (answer : res rtError hostReply)
| LCalledBattle (battle : BattleID) (ref : ServiceRef) (c : command) (answer : res rtError nhskReply)
| LPrepared (generation : Z) (battle : BattleID) (gameNum subgameNum : Z)
| LWritten (d : list byte).
(** The output service of a generation lives from [OnConnected] to [OnDisconnected] of
    [process.go]. *)
Record gameOutputService := mkOutputService { gsGeneration : Z }.
Record lworld := mkLW {
  lwQueue : Z; lwGeneration : Z; lwSession : option legacyConnectionSession; lwOutput : option gameOutputService; lwLog : list legacyEvent
}.

(** The answers of the runtime, the host and the battles; how often the ticker of
    [waitLegacyCreateResult] fires before its deadline or the end of the context; which
    ready case a [select] takes; whether the hook of a prepared subgame is set. *)
Class LegacyEnv := {
  lHost : ServiceRef;
  ansSendBattle : list legacyEvent → ServiceRef → command → error rtError;
  ansSendHost : list legacyEvent → hostCommand → error rtError;
  ansCallHost : list legacyEvent → hostCommand → res rtError hostReply;
  ansCallBattle : list legacyEvent → ServiceRef → command → res rtError nhskReply;
  ansTicks : list legacyEvent → nat;
  ansCancelled : list legacyEvent → bool;
  ansSelect : list legacyEvent → bool;
  onSubgamePrepared : bool
}.

Definition L (X : Type) : Type := lworld → lworld * res legacyError X.
#[global] Instance l_ret : MRet L := λ X x w, (w, Ok x).
#[global] Instance l_bind : MBind L := λ X Y k m w, match m w with (w, Ok x) => k x w | (w, Err e) => (w, Err e) end.
Definition lfail {X} (e : legacyError) : L X := λ w, (w, Err e).
(** The result of a step with its error as a value. *)
Definition ltry {X} (m : L X) : L (res legacyError X) := λ w, let '(w, r) := m w in (w, Ok r).
Definition lof {X} (r : res legacyError X) : L X := λ w, (w, r).
Definition lift {X} (m : outcome X) : L X := lof (match m with Got x => Ok x | Refused e => Err (LText e) | Crashed => Err LPanicked end).
Definition lask {X} (f : list legacyEvent → X) : L X := λ w, (w, Ok (f (lwLog w))).
Definition lnote (e : legacyEvent) : L unit := λ w, (mkLW (lwQueue w) (lwGeneration w) (lwSession w) (lwOutput w) (lwLog w ++ [e]), Ok ()).
Definition lsession : L (option legacyConnectionSession) := λ w, (w, Ok (lwSession w)).
Definition lput (s : option legacyConnectionSession) : L unit := λ w, (mkLW (lwQueue w) (lwGeneration w) s (lwOutput w) (lwLog w), Ok ()).
Definition lqueue : L Z := λ w, (w, Ok (lwQueue w)).
Definition set_routes r s := mkSession (snGeneration s) (snUp s) (snFrames s) (snOutputs s) (snDone s) (snWriter s) r.
Definition set_frames fs s := mkSession (snGeneration s) (snUp s) fs (snOutputs s) (snDone s) (snWriter s) (snRoutes s).
Definition set_outputs os s := mkSession (snGeneration s) (snUp s) (snFrames s) os (snDone s) (snWriter s) (snRoutes s).
Definition set_up b s := mkSession (snGeneration s) b (snFrames s) (snOutputs s) (snDone s) (snWriter s) (snRoutes s).
Definition set_writer b s := mkSession (snGeneration s) (snUp s) (snFrames s) (snOutputs s) (snDone s) b (snRoutes s).
Definition set_done b s := mkSession (snGeneration s) (snUp s) (snFrames s) (snOutputs s) b (snWriter s) (snRoutes s).

Definition validRef (r : ServiceRef) : bool := negb (bool_decide (Node r = "")) && negb (ID r =? 0).

Section Connection.
Context {E : LegacyEnv}.

Definition sendBattle (battle : BattleID) (ref : ServiceRef) (c : command) : L unit :=
  a ← lask (λ l, ansSendBattle l ref c);
  lnote (LSentBattle battle ref c a) ;;
  match a with None => mret () | Some e => lfail (LRuntime e) end.
Definition sendHostControl (c : hostCommand) : L unit :=
  a ← lask (λ l, ansSendHost l c); lnote (LSentHost c a) ;; match a with None => mret () | Some e => lfail (LRuntime e) end.
Definition callHost (c : hostCommand) : L hostReply :=
  a ← lask (λ l, ansCallHost l c); lnote (LCalledHost c a) ;; lof (match a with Ok v => Ok v | Err e => Err (LRuntime e) end).
Definition callBattle (battle : BattleID) (ref : ServiceRef) (c : command) : L nhskReply :=
  a ← lask (λ l, ansCallBattle l ref c); lnote (LCalledBattle battle ref c a) ;; lof (match a with Ok v => Ok v | Err e => Err (LRuntime e) end).

(** *** The creation of a battle *)

Fixpoint waitTicks (n : nat) (o : CreateBattleOperation) : L CreateBattleOperation :=
  match n with
  | O => cancelled ← lask ansCancelled; lfail (if (cancelled : bool) then LText "context canceled" else errLegacyCreateTimeout)
  | S n =>
      v ← callHost (GetCreateBattleOperation (Some (coOperationID o)));
      match v with
      | OperationReply current =>
          match coPhase current with
          | HostOperationFailed => lfail (LText (coRejection current))
          | HostOperationCompleted => mret current
          | _ => waitTicks n current
          end
      | _ => lfail (LText (invalidControl +:+ ": operation reply"))
      end
  end.
Definition waitLegacyCreateResult (o : CreateBattleOperation) : L CreateBattleOperation :=
  match coPhase o with
  | HostOperationFailed => lfail (LText (coRejection o))
  | HostOperationCompleted => mret o
  | _ => n ← lask ansTicks; waitTicks n o
  end.
Definition completeLegacyCreate (battle : BattleID) (c : hostCommand) : L CreateBattleOperation :=
  v ← callHost c;
  match v with
  | OperationReply o =>
      o ← waitLegacyCreateResult o;
      if negb (coBattleID o =? battle) || negb (validRef (coRef o)) then lfail (LText (invalidControl +:+ ": invalid completed NEW_GAME operation"))
      else mret o
  | _ => lfail (LText (invalidControl +:+ ": NEW_GAME reply"))
  end.

(** *** The entries without a connection *)

Definition resolveLegacyBattle (battle : BattleID) : L ServiceRef :=
  v ← callHost (ResolveBattle (Some battle));
  match v with
  | ResolveReply id ref => if negb (id =? battle) || negb (validRef ref) then lfail (LText (invalidRelay +:+ ": invalid Host resolve reply")) else mret ref
  | _ => lfail (LText (invalidRelay +:+ ": invalid Host resolve reply"))
  end.
Definition RouteLegacyGameplaySend (frame : list byte) : L unit :=
  if negb (validRef lHost) then lfail (LText invalidRelay)
  else
    c ← lift (mapLegacyInboundGameplayRelay frame);
    ref ← resolveLegacyBattle (icBattleID c);
    sendBattle (icBattleID c) ref (icCommand c).
Definition RouteLegacyGameplayCall (frame : list byte) : L nhskReply :=
  if negb (validRef lHost) then lfail (LText invalidRelay)
  else
    c ← lift (mapLegacyInboundGameplayRelay frame);
    ref ← resolveLegacyBattle (icBattleID c);
    callBattle (icBattleID c) ref (icCommand c).
Definition sendLegacyHostControl (route : LegacyControlRoute) (c : hostCommand) : L unit :=
  if negb (isNewGame (lrKind route)) then sendHostControl c else _ ← completeLegacyCreate (lrBattleID route) c; mret ().
Definition RouteLegacyControlSend (frame : list byte) (generation : Z) : L unit :=
  if negb (validRef lHost) then lfail (LText invalidControl)
  else
    control ← lift (wrap invalidControl (DecodeControl frame));
    route ← lift (MapLegacyControl control generation);
    match lrTarget route with
    | LegacyControlTargetNone => mret ()
    | LegacyControlTargetHost c => sendLegacyHostControl route c
    | LegacyControlTargetBattle c => ref ← resolveLegacyBattle (lrBattleID route); sendBattle (lrBattleID route) ref c
    end.
(** What a call answers: the reply of the host or of the battle, or that an unsupported
    message was accepted. *)
Inductive legacyReply := FromHost (v : hostReply) | FromBattle (v : nhskReply) | FromCreate (o : CreateBattleOperation) | AcceptedUnsupported.
Definition callLegacyHostControl (route : LegacyControlRoute) (c : hostCommand) : L legacyReply :=
  if negb (isNewGame (lrKind route)) then v ← callHost c; mret (FromHost v) else o ← completeLegacyCreate (lrBattleID route) c; mret (FromCreate o).
Definition RouteLegacyControlCall (frame : list byte) (generation : Z) : L legacyReply :=
  if negb (validRef lHost) then lfail (LText invalidControl)
  else
    control ← lift (wrap invalidControl (DecodeControl frame));
    route ← lift (MapLegacyControl control generation);
    match lrTarget route with
    | LegacyControlTargetNone => mret AcceptedUnsupported
    | LegacyControlTargetHost c => callLegacyHostControl route c
    | LegacyControlTargetBattle c => ref ← resolveLegacyBattle (lrBattleID route); v ← callBattle (lrBattleID route) ref c; mret (FromBattle v)
    end.

(** *** Routes *)

Definition bindBattleRoute (generation : Z) (battle : BattleID) (ref : ServiceRef) : L unit :=
  if (battle =? 0) || negb (validRef ref) then lfail errLegacyConnectionNotReady
  else
    session ← lsession;
    match session with
    | Some s => if negb (snGeneration s =? generation) then lfail errLegacyConnectionNotReady else lput (Some (set_routes (<[battle := ref]> (snRoutes s)) s))
    | None => lfail errLegacyConnectionNotReady
    end.
Definition cachedBattleRoute (generation : Z) (battle : BattleID) : L ServiceRef :=
  session ← lsession;
  match session with
  | Some s =>
      if negb (snGeneration s =? generation) then lfail errLegacyConnectionNotReady
      else match snRoutes s !! battle with
           | Some ref => if negb (validRef ref) then lfail errLegacyConnectionNotReady else mret ref
           | None => lfail errLegacyConnectionNotReady
           end
  | None => lfail errLegacyConnectionNotReady
  end.
Definition invalidateBattleRoute (generation : Z) (battle : BattleID) : L unit :=
  session ← lsession;
  match session with
  | Some s => if snGeneration s =? generation then lput (Some (set_routes (delete battle (snRoutes s)) s)) else mret ()
  | None => mret ()
  end.

(** *** Queues *)

(** The [select] of [Submit] and [SubmitFrame]: when there is room and the session is
    done either case may be taken. *)
Definition offer (room : bool) (s : legacyConnectionSession) (full : string) (enqueue : L unit) : L unit :=
  choice ← lask ansSelect;
  if room && (negb (snDone s) || choice) then enqueue
  else if snDone s then lfail errLegacyConnectionClosed else lfail (LText full).
Definition Submit (batch : GameOutputBatch) : L unit :=
  if negb (validGameOutputBatch batch) then lfail (LText invalidOutput)
  else
    session ← lsession;
    match session with
    | None => lfail errLegacyConnectionNotReady
    | Some s =>
        n ← lqueue;
        offer (len (snOutputs s) <? n) s "nhsk: Legacy GM connection not ready: output queue full" (lput (Some (set_outputs (snOutputs s ++ [batch]) s)))
    end.
Definition SubmitFrame (frame : list byte) : L unit :=
  if len frame <? 24 then lfail errLegacyConnectionNotReady
  else
    session ← lsession;
    match session with
    | None => lfail errLegacyConnectionNotReady
    | Some s =>
        n ← lqueue;
        offer (len (snFrames s) <? n) s "nhsk: Legacy GM connection not ready: control queue full" (lput (Some (set_frames (snFrames s ++ [frame]) s)))
    end.

(** *** A frame *)

(** [replyNewGame(control, err)] with the result of the routing. *)
Definition replyNewGame (control : LegacyControl) (r : res legacyError unit) : L unit :=
  if negb (isNewGame (lcKind control)) then lof r
  else ack ← lift (EncodeNewGameAck (lcBattleID control) (match r with Ok _ => true | Err _ => false end)); SubmitFrame ack.
Definition sendControlRoute (generation : Z) (route : LegacyControlRoute) : L unit :=
  match lrTarget route with
  | LegacyControlTargetHost c =>
      invalidateBattleRoute generation (lrBattleID route) ;;
      if negb (isNewGame (lrKind route)) then sendHostControl c
      else o ← completeLegacyCreate (lrBattleID route) c; bindBattleRoute generation (lrBattleID route) (coRef o)
  | LegacyControlTargetBattle c => ref ← cachedBattleRoute generation (lrBattleID route); sendBattle (lrBattleID route) ref c
  | LegacyControlTargetNone => lfail (LText invalidControl)
  end.

Definition subgamePrepared (generation : Z) (control : LegacyControl) (r : res legacyError unit) : L unit :=
  match r, lcKind control with
  | Ok _, ControlUpdateGame g s => if onSubgamePrepared then lnote (LPrepared generation (lcBattleID control) (g mod 2 ^ 16) (s mod 2 ^ 16)) else mret ()
  | _, _ => mret ()
  end.
Definition routeFrame (generation : Z) (frame : Frame) : L unit :=
  lnote (LArrived generation frame) ;;
  if frType frame =? 0x8605 then
    c ← lift (mapLegacyInboundGameplayRelay (frBytes frame));
    ref ← cachedBattleRoute generation (icBattleID c);
    sendBattle (icBattleID c) ref (icCommand c)
  else
    control ← lift (DecodeControl (frBytes frame));
    route ← ltry (lift (MapLegacyControl control generation));
    match route with
    | Err e => replyNewGame control (Err e)
    | Ok route =>
        match lrTarget route with
        | LegacyControlTargetNone => mret ()
        | _ =>
            r ← ltry (sendControlRoute generation route);
            subgamePrepared generation control r ;;
            replyNewGame control r
        end
    end.

(** *** The life of a connection *)

Definition onSession (f : legacyConnectionSession → legacyConnectionSession) (w : lworld) : lworld :=
  mkLW (lwQueue w) (lwGeneration w) (f <$> lwSession w) (lwOutput w) (lwLog w).
Definition with_output (o : option gameOutputService) (w : lworld) : lworld := mkLW (lwQueue w) (lwGeneration w) (lwSession w) o (lwLog w).
Definition activate (s : legacyConnectionSession) (w : lworld) : lworld := mkLW (lwQueue w) (lwGeneration w) (Some s) (lwOutput w) (lwLog w).
(** The session is no longer the current one and its connection is closed. *)
Definition deactivate (w : lworld) : lworld := mkLW (lwQueue w) (lwGeneration w) None (lwOutput w) (lwLog w).
(** A turn of the loop of [run] begins: it has a generation of its own, and a session
    when dialling and the handshake succeeded. *)
Definition dial (up : bool) (w : lworld) : lworld :=
  let generation := (lwGeneration w + 1) mod 2 ^ 64 in
  if up then activate (mkSession generation true [] [] false true ∅) (mkLW (lwQueue w) generation None (lwOutput w) (lwLog w ++ [LConnected generation]))
  else mkLW (lwQueue w) generation (lwSession w) (lwOutput w) (lwLog w).
(** [newGameOutputServiceSpec]: the sink and the reporter are present or nil. *)
Definition newGameOutputServiceSpec (generation : Z) (sink reporter : bool) : option gameOutputService :=
  if (generation =? 0) || negb sink || negb reporter then None else Some (mkOutputService generation).
(** [OnConnected]; [made] is that the service was created and bound. *)
Definition onConnected (made : bool) (w : lworld) : lworld :=
  match lwSession w with
  | None => w
  | Some s =>
      match newGameOutputServiceSpec (snGeneration s) true true with
      | Some o => if made then with_output (Some o) w else deactivate w
      | None => deactivate w
      end
  end.
(** [OnDisconnected] stops the output service and waits for it.  A [Stop] that times out
    returns earlier and leaves the service to finish later; its handler only puts a
    batch into a bounded queue without waiting, and a batch of an old generation is
    refused there ([Submit]), so the service is gone at once in the model. *)
Definition onDisconnected (w : lworld) : lworld := with_output None w.
(** The reader returned: [done] is closed and the writer has stopped. *)
Definition endReader (w : lworld) : lworld := onSession (set_done true ∘ set_writer false) w.
(** One turn of the reader. *)
Definition readerTurn (stream : list byte) (w : lworld) : lworld :=
  match lwSession w with
  | None => w
  | Some s =>
      match ReadFrame stream with
      | Got (f, _) => let '(w, r) := routeFrame (snGeneration s) f w in match r with Ok _ => w | Err _ => endReader w end
      | _ => endReader w
      end
  end.

(** Writing stops at the first frame that is refused or cannot be written; [n] is how
    many writes the connection takes. *)
Fixpoint writeFrames (n : nat) (frames : list (list byte)) {struct frames} : L unit :=
  match frames with
  | [] => mret ()
  | d :: frames =>
      match WriteFrame d, n with
      | Got d, S n => lnote (LWritten d) ;; writeFrames n frames
      | _, _ => lfail (LText "legacywire: write frame")
      end
  end.
Definition stopWriter (w : lworld) : lworld := onSession (set_writer false ∘ set_up false) w.
(** One turn of the writer: a queued frame or a queued batch. *)
Definition writerTurn (batches : bool) (n : nat) (w : lworld) : lworld :=
  match lwSession w with
  | None => w
  | Some s =>
      if negb (snWriter s) then w
      else if batches then
        match snOutputs s with
        | [] => w
        | batch :: outputs =>
            let w := onSession (set_outputs outputs) w in
            match encodeLegacyGameOutputBatch batch with
            | Got frames => let '(w, r) := writeFrames n frames w in match r with Ok _ => w | Err _ => stopWriter w end
            | _ => stopWriter w
            end
        end
      else
        match snFrames s with
        | [] => w
        | d :: frames =>
            let '(w, r) := writeFrames n [d] (onSession (set_frames frames) w) in match r with Ok _ => w | Err _ => stopWriter w end
        end
  end.
Definition FailConnection (generation : Z) (w : lworld) : lworld :=
  match lwSession w with
  | Some s => if snGeneration s =? generation then onSession (set_up false) w else w
  | None => w
  end.
Definition newConnection (queue : Z) : lworld := mkLW (if queue <=? 0 then 64 else queue) 0 None None [].

(** *** The output service *)

Inductive outputServiceError := OUnknownCommand | OInvalidBatch | OGenerationMismatch | OSubmit (e : legacyError).
(** [Handle], with [None] for a payload of another type; the connection is its sink and
    its reporter. *)
Definition outputHandle (s : gameOutputService) (known : bool) (payload : option GameOutputBatch) (w : lworld) : lworld * error outputServiceError :=
  if negb known then (w, Some OUnknownCommand)
  else match payload with
       | None => (w, Some OInvalidBatch)
       | Some batch =>
           if negb (validGameOutputBatch batch) then (w, Some OInvalidBatch)
           else if negb (baGeneration batch =? gsGeneration s) then (w, Some OGenerationMismatch)
           else match Submit batch w with
                | (w, Ok _) => (w, None)
                | (w, Err e) => (FailConnection (gsGeneration s) w, Some (OSubmit e))
                end
       end.

(** *** Runs *)

(** The reader works only after [OnConnected], on any bytes the connection delivers; a
    closed connection makes it fail.  The next generation begins after
    [OnDisconnected]. *)
Inductive lstep : lworld → lworld → Prop :=
| l_dial up w : lwSession w = None → lwOutput w = None → lstep w (dial up w)
| l_ready made w s : lwSession w = Some s → lwOutput w = None → lstep w (onConnected made w)
| l_read stream w s o : lwSession w = Some s → lwOutput w = Some o → snUp s = true → snDone s = false → lstep w (readerTurn stream w)
| l_lost w o : lwOutput w = Some o → lstep w (endReader w)
| l_closed w s : lwSession w = Some s → snDone s = true → lstep w (deactivate w)
| l_disconnected w : lwSession w = None → lstep w (onDisconnected w)
| l_output o known payload w : lwOutput w = Some o → lstep w (outputHandle o known payload w).1
| l_write batches n w : lstep w (writerTurn batches n w)
| l_fail generation w : lstep w (FailConnection generation w).

End Connection.

(** * What the adapter guarantees *)

(** ** Commands *)

Lemma safe_wrap {X} base (m : outcome X) : safe m → safe (wrap base m).
Proof. by destruct m. Qed.
Lemma wrap_Got {X} base (m : outcome X) x : wrap base m = Got x → m = Got x.
Proof. by destruct m. Qed.
Lemma safe_outputError {X} text : safe (@outputError X text).
Proof. done. Qed.

Lemma cards_padded (before : list byte) count : 0 ≤ count ≤ cardCount26 → len before = count →
  safe (slice (before ++ replicate (Z.to_nat (cardCount26 - count)) x00) 0 count).
Proof. intros Hc Hb. apply slice_safe; [lia|lia|]. unfold len in *. rewrite length_app, length_replicate. lia. Qed.
Lemma outCard_count d r : DecodeOutCardRequest d = Got r → safe (copyLegacyGameplayCards (ocCards r) (ocCount r)).
Proof.
  unfold DecodeOutCardRequest. intros H. repeat (apply bind_Got in H as (? & ? & H)). injection H as <-. cbn [ocCards ocCount].
  apply safe_bind; [|done]. repeat match goal with H : guard_ _ _ = Got _ |- _ => learn H | H : slice _ _ _ = Got _ |- _ => learn H | H : byteAt _ _ = Got _ |- _ => learn H end.
  apply cards_padded; lia.
Qed.
Lemma cardAction_count d r : DecodeCardActionRequest d = Got r → safe (copyLegacyGameplayCards (caCards r) (caCount r)).
Proof.
  unfold DecodeCardActionRequest. intros H. repeat (apply bind_Got in H as (? & ? & H)). injection H as <-. cbn [caCards caCount].
  apply safe_bind; [|done]. repeat match goal with H : guard_ _ _ = Got _ |- _ => learn H | H : slice _ _ _ = Got _ |- _ => learn H | H : byteAt _ _ = Got _ |- _ => learn H end.
  apply cards_padded; lia.
Qed.

(** The player a command acts for. *)
Definition actsFor (user : Z) (c : command) : Prop :=
  match c with
  | PlayCards (Some (p, _, _)) | PreviewCardSelection (Some (p, _)) | SetPlayerAutoState (Some (p, _)) | ReconnectPlayer (Some p) | RequestGameScene (Some p) =>
      p = playerID user
  | RecordPropUse (Some (sender, _, _, _)) => sender = user
  | _ => False
  end.

Ltac gots H :=
  repeat first
    [ apply bind_Got in H as (? & ? & H)
    | lazymatch type of H with
      | (if ?b then _ else _) = Got _ => destruct b eqn:?
      | Refused _ = Got _ => discriminate H
      | mret _ = Got _ => injection H as H
      end ].

Lemma mapLegacyGameplayCommand_safe user payload : safe (mapLegacyGameplayCommand user payload).
Proof.
  unfold mapLegacyGameplayCommand. destruct (user =? 0); [done|]. apply safe_bind; [apply safe_wrap, DecodeClientGameplayMessage_safe|]. intros message _.
  destruct (message =? messageNHSKOutCard).
  { apply safe_bind; [apply safe_wrap, DecodeOutCardRequest_safe|]. intros r Hr%wrap_Got. apply safe_bind; [by apply (outCard_count payload)|done]. }
  destruct (message =? messageNHSKCardAction).
  { apply safe_bind; [apply safe_wrap, DecodeCardActionRequest_safe|]. intros r Hr%wrap_Got. apply safe_bind; [by apply (cardAction_count payload)|done]. }
  repeat lazymatch goal with
  | |- safe (if ?b then _ else _) => destruct b
  | |- safe (_ ≫= _) => apply safe_bind; [apply safe_wrap|intros ? _]
  end; first [done|apply DecodeUserStateChange_safe|apply decodePlayerViewRequest_safe|apply DecodePropUse_safe].
Qed.
Lemma mapLegacyGameplayCommand_acts user payload c : mapLegacyGameplayCommand user payload = Got c → actsFor user c.
Proof.
  unfold mapLegacyGameplayCommand. intros H. gots H; subst; cbn; try done.
  match goal with H : negb (_ =? _) = false |- _ => apply negb_false_iff, Z.eqb_eq in H; done end.
Qed.
Lemma mapLegacyInboundGameplayRelay_safe frame : safe (mapLegacyInboundGameplayRelay frame).
Proof.
  unfold mapLegacyInboundGameplayRelay. apply safe_bind; [apply safe_wrap, DecodeInboundGameRelay_safe|]. intros r _.
  repeat (case_match; [done|]). apply safe_bind; [apply safe_wrap, mapLegacyGameplayCommand_safe|done].
Qed.
Lemma mapLegacyInbound_Got frame c : mapLegacyInboundGameplayRelay frame = Got c →
  ∃ r, DecodeInboundGameRelay frame = Got r ∧ icBattleID c = irBattleID r ∧ irBattleID r ≠ 0 ∧ irUserID r ≠ 0 ∧ actsFor (irUserID r) (icCommand c).
Proof.
  unfold mapLegacyInboundGameplayRelay. intros H. gots H. subst c. repeat match goal with H : wrap _ _ = Got _ |- _ => apply wrap_Got in H end.
  eexists. split; [done|]. cbn. split_and!; [done|by apply Z.eqb_neq|by apply Z.eqb_neq|by eapply mapLegacyGameplayCommand_acts].
Qed.
Lemma MapLegacyControl_safe control g : safe (MapLegacyControl control g).
Proof.
  unfold MapLegacyControl, mapLegacyInit, mapLegacyPlayers, mapLegacyRoundCommand. destruct (_ && _); [done|].
  destruct (lcKind control); repeat lazymatch goal with
  | |- safe (if ?b then _ else _) => destruct b
  | |- safe (_ ≫= _) => apply safe_bind; [|intros ? _]
  end; done.
Qed.
(** A message for the host creates or deletes the battle it names. *)
Lemma MapLegacyControl_host control g route c : MapLegacyControl control g = Got route → lrTarget route = LegacyControlTargetHost c →
  lrBattleID route = lcBattleID control ∧ lcBattleID control ≠ 0 ∧ lrKind route = lcKind control
  ∧ if isNewGame (lcKind control) then ∃ newbie, c = BeginCreateBattle (Some (mkCreateRequest (lcBattleID control) newbie g))
    else c = RequestDeleteBattle (Some (lcBattleID control, zeroRef, g)).
Proof.
  unfold MapLegacyControl, mapLegacyInit, mapLegacyPlayers, mapLegacyRoundCommand. intros H Ht.
  destruct (_ && _) eqn:Hz; [done|]. destruct (lcKind control); gots H; subst route; cbn in *; try done.
  - injection Ht as <-. split_and!; [done| |done|by eexists]. intros Hb. by rewrite Hb in *.
  - injection Ht as <-. rewrite andb_true_r, Z.eqb_neq in Hz. done.
Qed.

(** ** Outputs *)

(** A field that nothing behind overwrites is in the message. *)
Lemma written_field ws1 a bs ws2 d0 d : writeAllTo (ws1 ++ (a, bs) :: ws2) (Got d0) = Got d → Forall (λ w, a + len bs ≤ w.1) ws2 →
  slice d a (a + len bs) = Got bs.
Proof.
  intros Hd Hws. rewrite writes_app in Hd. destruct (writeAllTo ws1 (Got d0)) as [d1|e|] eqn:H1; [|by apply writes_never_refuse in H1|by rewrite writes_crashed in Hd].
  rewrite writes_cons in Hd. cbn [fst snd] in Hd. destruct (put a bs d1) as [d2|e|] eqn:Hp; [|unfold put in Hp; by destruct (_ && _)|by rewrite writes_crashed in Hd].
  pose proof (put_Got _ _ _ _ Hp) as (Ha & Hb & Hl & _). pose proof (len_nonneg bs).
  destruct (writes_prefix (a + len bs) ws2 d2 d ltac:(lia) Hws Hd) as [Hl' Ht]. rewrite <- (slice_take d (a + len bs) a (a + len bs)) by lia. rewrite Ht, slice_take by lia.
  unfold put in Hp. destruct (_ && _); [|done]. injection Hp as <-. eapply slice_field; [reflexivity| |lia]. unfold len in *. rewrite length_take. lia.
Qed.
(** A relay names the battle and the user and carries the payload. *)
Record addressed (battle user : Z) (payload f : list byte) : Prop := {
  ad_battle : u32at f 26 = Got battle; ad_user : u32at f 30 = Got user; ad_payload : slice f gameFrameBase (len f) = Got payload
}.
Lemma relay_addressed m f : isU32 (orBattleID m) → isU32 (orUserID m) → EncodeOutboundGameRelay m = Got f → addressed (orBattleID m) (orUserID m) (orPayload m) f.
Proof.
  intros Hb Hu Hf. assert (len f = gameFrameBase + len (orPayload m)) as Hl.
  { unfold EncodeOutboundGameRelay in Hf. destruct (_ <? _); [done|]. cbv zeta in Hf. rewrite build_writes in Hf. pose proof (len_nonneg (orPayload m)).
    apply (writes_prefix 0) in Hf as [-> _]; [|done|].
    - unfold len at 1. rewrite length_replicate. sizes. lia.
    - repeat (apply Forall_app; split); [apply running_from|repeat constructor; by vm_compute| |repeat constructor; by vm_compute].
      eapply Forall_impl; [apply running_from|]. cbn. sizes. lia. }
  unfold EncodeOutboundGameRelay in Hf. destruct (_ <? _); [done|]. cbv zeta in Hf. rewrite build_writes in Hf.
  set (h1 := encodeHeader 0 _) in Hf. set (h2 := encodeHeader glHeaderSize _) in Hf.
  assert (Forall (λ w, 34 ≤ w.1) h2) as Hh2 by apply running_from.
  split.
  - unfold u32at. change (26 + 4) with (26 + len (u32 (orBattleID m))).
    erewrite (written_field (h1 ++ [_]) 26 (u32 (orBattleID m))); [|rewrite <- app_assoc; exact Hf|].
    + cbn [mbind outcome_bind]. by rewrite (le_value_small 4).
    + apply Forall_cons. split; [by vm_compute|]. apply Forall_app. split; [eapply Forall_impl; [exact Hh2|]; cbn; intros w ?; rewrite len_u32; lia|].
      repeat constructor; by vm_compute.
  - unfold u32at. change (30 + 4) with (30 + len (u32 (orUserID m))).
    erewrite (written_field (h1 ++ [_; _]) 30 (u32 (orUserID m))); [|rewrite <- app_assoc; exact Hf|].
    + cbn [mbind outcome_bind]. by rewrite (le_value_small 4).
    + apply Forall_app. split; [eapply Forall_impl; [exact Hh2|]; cbn; intros w ?; rewrite len_u32; lia|]. repeat constructor; by vm_compute.
  - rewrite Hl. change gameFrameBase with (glHeaderSize + relayFixedSize).
    eapply (written_field (h1 ++ [_; _; _] ++ h2 ++ [_; _; _; _; _]) (glHeaderSize + relayFixedSize) (orPayload m) []); [|constructor].
    rewrite <- !app_assoc. exact Hf.
Qed.

Lemma ParseUint32_range s u : ParseUint32 s = Some u → u < 2 ^ 32.
Proof. unfold ParseUint32. destruct (_ || _) eqn:Hg; [done|]. rewrite !orb_false_iff in Hg. destruct Hg as [_ Hg%Z.leb_gt]. by intros [= <-]. Qed.
Lemma digitsValue_nonneg l : forallb isDigit l = true → 0 ≤ digitsValue l.
Proof.
  unfold digitsValue. intros H. assert (∀ v, 0 ≤ v → 0 ≤ foldl (λ v b, v * 10 + (byteZ b - 48)) v l) as Hv; [|by apply Hv].
  revert H. induction l as [|b l IH]; intros H v Hv; [done|]. cbn in H. apply andb_true_iff in H as [Hb Hl]. apply IH; [done|].
  unfold isDigit in Hb. rewrite andb_true_iff, !Z.leb_le in Hb. lia.
Qed.
Lemma ParseUint32_u32 s u : ParseUint32 s = Some u → isU32 u.
Proof.
  intros H. split; [|by eapply ParseUint32_range]. unfold ParseUint32 in H. destruct (_ || _) eqn:Hg; [done|]. rewrite !orb_false_iff, negb_false_iff in Hg.
  destruct Hg as [[_ Hd] _]. injection H as <-. by apply digitsValue_nonneg.
Qed.
(** Users parsed from players, all different. *)
Lemma targetUserIDs_Got seen targets users : targetUserIDs seen targets = Got users →
  Forall2 (λ t u, ParseUint32 t = Some u ∧ u ≠ 0) targets users ∧ NoDup users ∧ ∀ u, u ∈ users → u ∉ seen.
Proof.
  revert seen users. induction targets as [|t targets IH]; intros seen users H; cbn in H.
  { injection H as <-. split_and!; [constructor|constructor|by intros u Hu%elem_of_nil]. }
  destruct (ParseUint32 t) as [u|] eqn:Hu; [|done]. destruct (Z.eqb_spec u 0); [done|]. case_bool_decide as Hs; [done|].
  apply bind_Got in H as (l & Hl & [= <-]). destruct (IH _ _ Hl) as (H1 & H2 & H3). split_and!.
  - by constructor.
  - constructor; [|done]. intros Hin. apply (H3 u Hin). by left.
  - intros v [->|Hv]%elem_of_cons; [done|]. intros Hin. apply (H3 v Hv). by right.
Qed.
Lemma targetUserIDs_safe seen targets : safe (targetUserIDs seen targets).
Proof.
  revert seen. induction targets as [|t targets IH]; intros seen; [done|]. cbn. destruct (ParseUint32 t); [|done]. destruct (_ =? 0); [done|].
  case_bool_decide; [done|]. by apply safe_bind.
Qed.
Lemma legacyTargetUserIDs_safe targets : safe (legacyTargetUserIDs targets).
Proof. unfold legacyTargetUserIDs. destruct (_ =? 0); [done|]. apply targetUserIDs_safe. Qed.
Lemma legacyTargetUserIDs_Got targets users : legacyTargetUserIDs targets = Got users →
  Forall2 (λ t u, ParseUint32 t = Some u ∧ u ≠ 0) targets users ∧ NoDup users ∧ users ≠ [].
Proof.
  unfold legacyTargetUserIDs. destruct (Z.eqb_spec (len targets) 0) as [|Hn]; [done|]. intros H. apply targetUserIDs_Got in H as (H1 & H2 & _).
  split_and!; [done|done|]. intros ->. by apply Forall2_nil_inv_r in H1 as ->.
Qed.
Lemma item_lookup {X} (l : list X) i : 0 ≤ i < len l → ∃ x, item l i = Got x ∧ l !! Z.to_nat i = Some x.
Proof.
  intros Hi. destruct (lookup_lt_is_Some_2 l (Z.to_nat i)) as [x Hx]; [unfold len in Hi; lia|]. exists x. unfold item. rewrite Hx, (proj2 (Z.leb_le _ _)) by lia. done.
Qed.
Lemma item_safe {X} (l : list X) i : 0 ≤ i < len l → safe (item l i).
Proof. intros Hi. destruct (item_lookup l i Hi) as (x & -> & _). done. Qed.
Lemma users_len targets users : legacyTargetUserIDs targets = Got users → len users = len targets.
Proof. intros H. apply legacyTargetUserIDs_Got in H as (H & _). apply Forall2_length in H. unfold len. lia. Qed.
Lemma oneUserID_safe p : safe (oneUserID p).
Proof. apply safe_bind; [apply legacyTargetUserIDs_safe|]. intros l Hl%users_len. apply item_safe. rewrite Hl. by vm_compute. Qed.
Lemma fourUserIDs_Got l : len l = 4 → ∃ four, fourUserIDs l = Got four ∧ len four = 4.
Proof.
  intros Hl. unfold fourUserIDs. destruct (item_lookup l 0) as (a & -> & _); [lia|]. destruct (item_lookup l 1) as (b & -> & _); [lia|].
  destruct (item_lookup l 2) as (c & -> & _); [lia|]. destruct (item_lookup l 3) as (d & -> & _); [lia|]. by eexists.
Qed.

Lemma len_qlist {A} (q : quad A) : len (qlist q) = 4.
Proof. done. Qed.
(** The seat of a deal is a byte; a settlement has at most 670 gains. *)
Definition outputFits (o : GameOutput) : Prop :=
  match o with
  | ClientGameOutput _ (DealPayload _ seat _) => 0 ≤ seat
  | SettlementRequested o => len (soGains o) ≤ 670
  | _ => True
  end.
Ltac encoders :=
  repeat lazymatch goal with
  | |- safe (outputError _) => done
  | |- safe (Refused _) => done
  | |- safe (wrap _ _) => apply safe_wrap
  | |- safe (legacyTargetUserIDs _) => apply legacyTargetUserIDs_safe
  | |- safe (oneUserID _) => apply oneUserID_safe
  | |- safe (if ?b then _ else _) => destruct b eqn:?
  | |- safe (_ ≫= _) => apply safe_bind; [|intros ? ?]
  end.
(** [legacyTargetUserIDs] of four players and the array made of it *)
Lemma safe_four {Y} players (k : list Z → outcome Y) : len players = 4 → (∀ four, len four = 4 → safe (k four)) →
  safe (users ← legacyTargetUserIDs players; four ← fourUserIDs users; k four).
Proof.
  intros Hp Hk. apply safe_bind; [apply legacyTargetUserIDs_safe|]. intros users Hu%users_len. destruct (fourUserIDs_Got users) as (four & -> & Hf); [lia|]. by apply Hk.
Qed.
Lemma encodeLegacyDeal_safe targets players seat cards : 0 ≤ seat → safe (encodeLegacyDeal targets players seat cards).
Proof.
  intros Hs. unfold encodeLegacyDeal. destruct (Z.eqb_spec (len targets) 1) as [Ht|]; [|done]. cbn [negb]. destruct (Z.leb_spec 4 seat); [done|].
  apply safe_bind; [apply legacyTargetUserIDs_safe|]. intros users Hu%users_len. rewrite len_qlist in Hu.
  apply safe_bind; [apply legacyTargetUserIDs_safe|]. intros ids Hi%users_len. apply safe_bind; [apply item_safe; lia|]. intros target _.
  apply safe_bind; [apply item_safe; lia|]. intros own _. destruct (negb _); [done|]. destruct (fourUserIDs_Got users Hu) as (four & -> & Hf).
  apply safe_wrap. by apply (sound_deal four seat cards).
Qed.
Lemma encodeLegacyGameScene_safe targets s : safe (encodeLegacyGameScene targets s).
Proof.
  unfold encodeLegacyGameScene. destruct (Z.eqb_spec (len targets) 1) as [Ht|]; [|done]. cbn [negb].
  apply safe_bind; [apply legacyTargetUserIDs_safe|]. intros users Hu%users_len. change (len (spPlayer <$> qlist (scPlayers s))) with 4 in Hu.
  apply safe_bind; [apply legacyTargetUserIDs_safe|]. intros ids Hi%users_len. apply safe_bind; [apply item_safe; lia|]. intros target _.
  destruct (negb _); [done|]. destruct (fourUserIDs_Got users Hu) as (four & -> & Hf). apply safe_wrap.
  apply (sound_gameScene (mkWireScene _ _ _ _ _ _ _ (zip_with wireScenePlayer four (qlist (scPlayers s))))). cbn [wsPlayers]. unfold len in *. rewrite length_zip_with. cbn. lia.
Qed.
Lemma encodeLegacyClientPayload_safe targets payload : outputFits (ClientGameOutput targets payload) → safe (encodeLegacyClientPayload targets payload).
Proof.
  intros Hf. destruct payload; cbn [encodeLegacyClientPayload].
  - apply sound_gameStart.
  - apply sound_roundStat.
  - by apply sound_gameInfo.
  - by apply encodeLegacyDeal_safe.
  - unfold encodeLegacyAskOutCard. encoders. apply sound_askFrame.
  - unfold encodeLegacyOutCardInfo. encoders. apply sound_outCardInfo.
  - unfold encodeLegacyTurnEnd. encoders. apply sound_turnEnd.
  - apply safe_four; [done|]. intros four H4. apply safe_wrap. by apply sound_showCards.
  - apply safe_four; [done|]. intros four H4. apply safe_wrap. by apply sound_gameResult.
  - apply encodeLegacyGameScene_safe.
  - unfold encodeLegacyOutCardRejection. encoders. apply sound_outCardResult.
  - unfold encodeLegacyCardSelectionPreview. encoders. apply sound_cardActionWatch.
  - encoders. apply sound_userStateChange.
Qed.

Lemma collect_safe {X Y} (f : X → outcome Y) l : Forall (λ x, safe (f x)) l → safe (collect f l).
Proof. induction 1 as [|x l Hx _ IH]; [done|]. cbn. apply safe_bind; [done|]. intros y _. by apply safe_bind. Qed.
Lemma collect_Got {X Y} (f : X → outcome Y) l r : collect f l = Got r → Forall2 (λ x y, f x = Got y) l r.
Proof.
  revert r. induction l as [|x l IH]; intros r H; cbn in H; [by injection H as <-; constructor|].
  apply bind_Got in H as (y & Hy & H). apply bind_Got in H as (r' & Hr & [= <-]). constructor; [done|by apply IH].
Qed.
(** A frame of its own that [WriteFrame] accepts. *)
Lemma sound_accepted type m d : sound type m → m = Got d → WriteFrame d = Got d.
Proof. intros [_ H] Hd. by apply H. Qed.
Lemma sound_wrap type base m : sound type m → sound type (wrap base m).
Proof. intros [H1 H2]. split; [by apply safe_wrap|]. intros d Hd%wrap_Got. by apply H2. Qed.
Lemma optionalUserID_safe p : safe (optionalUserID p).
Proof. unfold optionalUserID. destruct (bool_decide _); [done|apply oneUserID_safe]. Qed.
Lemma singleton_bind {X} (m : outcome X) l : (d ← m; mret [d]) = Got l → ∃ d, m = Got d ∧ l = [d].
Proof. intros H. apply bind_Got in H as (d & Hd & [= <-]). eauto. Qed.

(** What the frames of an output are: for a client output one relay of the same
    payload to each target, none twice; the hand of a deal goes to the player of its
    seat alone; for the others one frame. *)
Definition outputFrames (battle : BattleID) (o : GameOutput) (frames : list (list byte)) : Prop :=
  match o with
  | ClientGameOutput targets payload =>
      ∃ users d, encodeLegacyClientPayload targets payload = Got d ∧ Forall2 (λ t u, ParseUint32 t = Some u) targets users ∧ NoDup users ∧ users ≠ []
        ∧ Forall2 (λ u f, addressed battle u d f) users frames
        ∧ ∀ players seat cards, payload = DealPayload players seat cards → ∃ u, users = [u] ∧ ParseUint32 (qget "" players seat) = Some u
  | _ => ∃ d, frames = [d]
  end.

Lemma deal_private targets players seat cards d : 0 ≤ seat → encodeLegacyDeal targets players seat cards = Got d →
  ∃ t u, targets = [t] ∧ ParseUint32 t = Some u ∧ ParseUint32 (qget "" players seat) = Some u.
Proof.
  intros Hs. unfold encodeLegacyDeal. destruct (Z.eqb_spec (len targets) 1) as [Ht|]; [|done]. cbn [negb]. destruct (Z.leb_spec 4 seat) as [|Hlt]; [done|]. intros H.
  apply bind_Got in H as (users & Hu & H). apply bind_Got in H as (ids & Hi & H). apply bind_Got in H as (target & Htg & H). apply bind_Got in H as (own & Hown & H).
  destruct (negb (target =? own)) eqn:He; [done|]. clear H. apply negb_false_iff, Z.eqb_eq in He as ->.
  destruct targets as [|t [|]]; [done| |unfold len in Ht; cbn in Ht; lia]. apply legacyTargetUserIDs_Got in Hi as (Hi & _ & _).
  apply Forall2_cons_inv_l in Hi as (u & ids' & (Hp & _) & _ & ->). unfold item in Htg. cbn in Htg. injection Htg as ->.
  exists t, own. split_and!; [done|done|]. apply legacyTargetUserIDs_Got in Hu as (Hu & _ & _).
  unfold item in Hown. destruct (users !! Z.to_nat seat) as [x|] eqn:Hx; [|done]. destruct (0 <=? seat); [|done]. injection Hown as ->.
  destruct (Forall2_lookup_r _ _ _ _ _ Hu Hx) as (p & Hl & Hpp & _).
  assert (seat = 0 ∨ seat = 1 ∨ seat = 2 ∨ seat = 3) as [->|[->|[->| ->]]] by lia; cbn in Hl; injection Hl as <-; exact Hpp.
Qed.

Lemma encodeLegacyOutput_safe batch o : outputFits o → safe (encodeLegacyOutput batch o).
Proof.
  intros Hf. destruct o as [targets payload|replay|over|q|reason]; cbn [encodeLegacyOutput].
  - apply safe_bind; [by apply encodeLegacyClientPayload_safe|]. intros d _. apply safe_bind; [apply legacyTargetUserIDs_safe|]. intros users _.
    apply collect_safe, Forall_forall. intros u _. apply safe_wrap, sound_relay.
  - destruct (bool_decide _); [done|]. apply safe_bind; [apply sound_gameStarted|done].
  - apply safe_bind; [|done]. apply safe_bind; [apply safe_wrap, optionalUserID_safe|]. intros p _. apply safe_wrap, sound_gameOver.
  - apply safe_bind; [|done]. apply safe_wrap, sound_settlement. cbn [wqGains]. unfold len. by rewrite length_fmap.
  - apply safe_bind; [|done]. apply safe_bind; [apply safe_wrap, optionalUserID_safe|]. intros p _. apply safe_wrap, sound_noticeRoundOver.
Qed.
Lemma encodeLegacyOutput_accepted batch o frames : outputFits o → encodeLegacyOutput batch o = Got frames → Forall (λ d, WriteFrame d = Got d) frames.
Proof.
  intros Hf. destruct o as [targets payload|replay|over|q|reason]; cbn [encodeLegacyOutput]; intros H.
  - apply bind_Got in H as (d & _ & H). apply bind_Got in H as (users & _ & H). apply collect_Got in H. eapply Forall2_Forall_r; [exact H|].
    apply Forall_forall. intros u _ f Hr. eapply sound_accepted; [apply sound_wrap, sound_relay|exact Hr].
  - destruct (bool_decide _); [done|]. apply singleton_bind in H as (d & Hd & ->). constructor; [|done]. eapply sound_accepted; [apply sound_gameStarted|exact Hd].
  - apply singleton_bind in H as (d & Hd & ->). constructor; [|done]. apply bind_Got in Hd as (p & _ & Hd). eapply sound_accepted; [apply sound_wrap, sound_gameOver|exact Hd].
  - apply singleton_bind in H as (d & Hd & ->). constructor; [|done]. eapply sound_accepted; [apply sound_wrap, sound_settlement|exact Hd].
    cbn [wqGains]. unfold len. by rewrite length_fmap.
  - apply singleton_bind in H as (d & Hd & ->). constructor; [|done]. apply bind_Got in Hd as (p & _ & Hd).
    eapply sound_accepted; [apply sound_wrap, sound_noticeRoundOver|exact Hd].
Qed.
Lemma encodeLegacyOutput_frames batch o frames : isU32 (baBattleID batch) → outputFits o → encodeLegacyOutput batch o = Got frames →
  outputFrames (baBattleID batch) o frames.
Proof.
  intros Hb Hf. destruct o as [targets payload|replay|over|q|reason]; cbn [encodeLegacyOutput outputFrames]; intros H.
  - apply bind_Got in H as (d & Hd & H). apply bind_Got in H as (users & Hu & H). apply collect_Got in H.
    destruct (legacyTargetUserIDs_Got _ _ Hu) as (Hp & Hnd & Hne). assert (Forall2 (λ t u, ParseUint32 t = Some u) targets users) as Hp'.
    { eapply Forall2_impl; [exact Hp|]. by intros t u [? _]. }
    exists users, d. split_and!; [done|done|done|done| |].
    + eapply Forall2_same_length_lookup_2; [by eapply Forall2_length|]. intros i u f Hi Hif. destruct (Forall2_lookup_r _ _ _ _ _ Hp' Hi) as (t & _ & Ht). pose proof (Forall2_lookup_lr _ _ _ _ _ _ H Hi Hif) as Hr. cbn in Hr.
      apply wrap_Got in Hr. apply (relay_addressed (mkOutbound (baBattleID batch) u (baMatchID batch) (baProductID batch) d)); [done|by eapply ParseUint32_u32|done].
    + intros players seat cards ->. cbn in Hd, Hf. destruct (deal_private _ _ _ _ _ Hf Hd) as (t & u & -> & Ht & Hs). exists u. split; [|done].
      apply Forall2_cons_inv_l in Hp' as (u' & l & Hu' & Hl & ->). apply Forall2_nil_inv_l in Hl as ->. congruence.
  - destruct (bool_decide _); [done|]. apply singleton_bind in H as (d & _ & ->). eauto.
  - apply singleton_bind in H as (d & _ & ->). eauto.
  - apply singleton_bind in H as (d & _ & ->). eauto.
  - apply singleton_bind in H as (d & _ & ->). eauto.
Qed.

(** ** What is encoded *)

(** The players are different users of the game master. *)
Definition areUsers (players : list PlayerID) : Prop := ∃ users, players = playerID <$> users ∧ Forall (λ u, 0 < u < 2 ^ 32) users ∧ NoDup users.
Definition isUser (p : PlayerID) : Prop := areUsers [p].
(** At most [maximum] cards, and nothing behind them in the array. *)
Definition cardArray (maximum : Z) (cards : list card) (count : Z) : Prop := count ≤ maximum ∧ Forall (eq 0) (drop (Z.to_nat count) cards).
Definition legalSeat (seat : Z) : Prop := -1 ≤ seat ≤ 3.
Definition legalScenePlayer (p : GameScenePlayer) : Prop :=
  cardArray 26 (spHandCards p) (spHandCount p) ∧ cardArray 8 (spLastPlayedCards p) (spLastPlayCount p) ∧ -1 ≤ spLastPlayCount p ∧ spRank p ≤ 4.
(** What the protocol can say of a subgame: hands and plays of at most 26 cards, ranks
    from 1 to 4, teams 0 and 1, none of which wins a peace; a hand is dealt to the
    player of its seat alone, and a scene is shown to one of the four players. *)
Definition legalPayload (targets : list PlayerID) (payload : OutputPayload) : Prop :=
  match payload with
  | GameStartPayload | RoundStatPayload | GameInfoPayload _ _ _ _ => True
  | DealPayload players seat _ => areUsers (qlist players) ∧ 0 ≤ seat ≤ 3 ∧ targets = [qget "" players seat]
  | AskOutCardPayload player verify _ => isUser player ∧ verify ≠ 0
  | OutCardInfoPayload player cards count => isUser player ∧ count ≤ len cards ∧ count ≤ 26
  | TurnEndPayload winner _ => isUser winner
  | ShowCardsPayload players counts cards => areUsers (qlist players) ∧ Forall (λ p, cardArray 26 p.1 p.2) (zip (qlist cards) (qlist counts))
  | GameResult r =>
      areUsers (qlist (grPlayers r)) ∧ Forall (λ k, 1 ≤ k ≤ 4) (qlist (grRanks r)) ∧ grWinningTeam r ≤ 1
      ∧ (grResult r = SubgameResultPeace → grWinningTeam r = 0)
  | GameScene s =>
      areUsers (spPlayer <$> qlist (scPlayers s)) ∧ (∃ t, targets = [t] ∧ t ∈ (spPlayer <$> qlist (scPlayers s)))
      ∧ legalSeat (scActiveSeat s) ∧ legalSeat (scPreviousPlayerSeat s) ∧ cardArray 24 (scTrickScoreCards s) (scTrickScoreCardCount s)
      ∧ scFinishedPlayerCount s ≤ 4 ∧ Forall legalScenePlayer (qlist (scPlayers s))
  | OutCardRejectionPayload _ => len targets = 1
  | CardSelectionPreviewPayload player cards count => isUser player ∧ cardArray 26 cards count
  | PlayerAutoStatePayload player _ => isUser player
  end.
Definition legalSettlement (o : SettlementRequestOutput) : Prop :=
  soTeamCount o = 4 ∧ prTeamID <$> soPlayers o = [0; 1; 2; 3] ∧ Forall (λ p, prPlayerID p ≠ 0) (soPlayers o)
  ∧ len (soGains o) ≤ 670 ∧ Forall (λ g, PayTeamID g < 4 ∧ GainTeamID g < 4 ∧ PayTeamID g ≠ GainTeamID g ∧ 0 < gScore g) (soGains o).
Definition legalOutput (o : GameOutput) : Prop :=
  match o with
  | ClientGameOutput targets payload => targets ≠ [] ∧ areUsers targets ∧ legalPayload targets payload
  | GameStartedOutput replay => replay ≠ ""
  | GameOver o => ovReplayName o ≠ ""
  | SettlementRequested o => legalSettlement o
  | NoticeRoundOverOutput _ => True
  end.
Definition validBatch (b : GameOutputBatch) : Prop :=
  baBattleID b ≠ 0 ∧ baMatchID b ≠ 0 ∧ baProductID b ≠ 0 ∧ Node (baRef b) ≠ "" ∧ ID (baRef b) ≠ 0 ∧ baGeneration b ≠ 0 ∧ baOutputs b ≠ [].

(** A message of at most [n] bytes is built. *)
Definition delivers (n : Z) (m : outcome (list byte)) : Prop := ∃ d, m = Got d ∧ len d ≤ n.
Lemma delivers_wrap n base m : delivers n m → delivers n (wrap base m).
Proof. by intros (d & -> & Hd); exists d. Qed.
Lemma writes_len ws d d' : writeAllTo ws (Got d) = Got d' → len d' = len d.
Proof.
  revert d. induction ws as [|w ws IH]; intros d Hd; [by injection Hd as <-|]. rewrite writes_cons in Hd.
  destruct (put w.1 w.2 d) as [d1|e|] eqn:Hp; [|unfold put in Hp; by destruct (_ && _)|by rewrite writes_crashed in Hd].
  apply put_Got in Hp as (_ & _ & Hl & _). rewrite (IH d1 Hd). done.
Qed.
Lemma message_delivers n size type body : safe (message size type body) → 0 ≤ size ≤ n → delivers n (message size type body).
Proof.
  intros Hs Hn. destruct (message size type body) as [d|e|] eqn:Hm; [|by apply writes_never_refuse in Hm|done]. exists d. split; [done|].
  unfold message in Hm. rewrite build_writes in Hm. apply writes_len in Hm as ->. unfold len. rewrite length_replicate. lia.
Qed.
(** No payload exceeds this. *)
Definition payloadLimit : Z := 512.
(** A sound encoder whose checks pass. *)
Ltac deliver H := destruct H as [H _]; apply (message_delivers _ _ _ _ H); unfold payloadLimit, gameSceneHeaderSize; sizes; lia.

Lemma ParseUint32_playerID u : 0 < u < 2 ^ 32 → ParseUint32 (playerID u) = Some u.
Proof.
  intros Hu. assert (is_u64 u) as H64. { split; [lia|]. etrans; [apply Hu|]. by vm_compute. }
  destruct (formatUint_spec u H64 (proj1 Hu)) as (Hd & Hv & b & t & Hb & _).
  unfold ParseUint32, playerID. rewrite bytes_of_string_of, Hd, Hv, bool_decide_false by (by rewrite Hb). rewrite (proj2 (Z.leb_gt _ _)) by lia. done.
Qed.
Lemma targetUserIDs_users seen users : Forall (λ u, 0 < u < 2 ^ 32) users → NoDup users → (∀ u, u ∈ users → u ∉ seen) →
  targetUserIDs seen (playerID <$> users) = Got users.
Proof.
  intros Hu. revert seen. induction Hu as [|u users Hu _ IH]; intros seen Hnd Hs; [done|]. apply NoDup_cons in Hnd as [Hn Hnd]. rewrite fmap_cons. cbn [targetUserIDs].
  rewrite (ParseUint32_playerID u Hu), (proj2 (Z.eqb_neq u 0)) by lia. rewrite bool_decide_false by (apply Hs; by left).
  rewrite IH; [done|done|]. intros v Hv [->|Hin]%elem_of_cons; [done|]. apply (Hs v); [by right|done].
Qed.
Lemma users_parse players : players ≠ [] → areUsers players → ∃ users, players = playerID <$> users ∧ legacyTargetUserIDs players = Got users.
Proof.
  intros Hne (users & -> & Hu & Hnd). exists users. split; [done|]. unfold legacyTargetUserIDs. destruct users as [|u users]; [done|].
  rewrite (proj2 (Z.eqb_neq _ _)) by (unfold len; cbn; lia). apply targetUserIDs_users; [done|done|]. by intros v _ ?%elem_of_nil.
Qed.
Lemma oneUserID_user p : isUser p → ∃ u, oneUserID p = Got u.
Proof. intros (users & H1 & H2)%users_parse; [|done]. destruct users as [|u [|]]; try done. exists u. unfold oneUserID. by rewrite H2. Qed.
Lemma four_users players : len players = 4 → areUsers players → ∃ users, len users = 4 ∧ legacyTargetUserIDs players = Got users ∧ fourUserIDs users = Got users.
Proof.
  intros H4 (users & H1 & H2)%users_parse; [|by intros ->]. exists users. assert (len users = 4) as Hl by (rewrite <- H4; subst players; unfold len; by rewrite length_fmap).
  split_and!; [done|done|]. destruct users as [|a [|b [|c [|d [|]]]]]; try done. unfold len in Hl. cbn in Hl. lia.
Qed.
(** The user of one of several targets *)
Lemma one_target t : isUser t → ∃ u, legacyTargetUserIDs [t] = Got [u] ∧ ParseUint32 t = Some u.
Proof.
  intros (users & _ & Hu)%users_parse; [|done]. pose proof (legacyTargetUserIDs_Got _ _ Hu) as (H & _ & _). apply Forall2_cons_inv_l in H as (u & l & [Hp _] & Hl & ->).
  apply Forall2_nil_inv_l in Hl as ->. by exists u.
Qed.
Lemma zeros_blank (cards : list Z) : Forall (eq 0) cards → forallb (Z.eqb 0) cards = true.
Proof. by induction 1 as [|c cards <- _ IH]. Qed.
Lemma cardsOk_array maximum cards count : cardArray maximum cards count → cardsOk maximum cards count = true.
Proof. intros [Hc Hz%zeros_blank]. unfold cardsOk. by rewrite (proj2 (Z.leb_le _ _)), Hz. Qed.

Local Notation delivered := (delivers payloadLimit).
Lemma deal_delivers users seat cards : len users = 4 → 0 ≤ seat ≤ 3 → delivered (EncodeDeal users seat cards).
Proof.
  intros Hu Hs. pose proof (sound_deal users seat cards (proj1 Hs) Hu) as H. unfold EncodeDeal in *. destruct (Z.leb_spec 4 seat); [lia|]. deliver H.
Qed.
Lemma gameInfo_delivers a b s g : len s = 4 → delivered (EncodeGameInfo a b s g).
Proof. intros Hs. pose proof (sound_gameInfo a b s g Hs) as H. unfold EncodeGameInfo in *. deliver H. Qed.
Lemma outCardInfo_delivers user cards : len cards ≤ 26 → delivered (EncodeOutCardInfo user cards).
Proof. intros Hc. pose proof (sound_outCardInfo user cards) as H. unfold EncodeOutCardInfo in *. destruct (Z.ltb_spec 26 (len cards)); [lia|]. deliver H. Qed.
Lemma showCards_delivers users (cards : list (list Z)) counts : len users = 4 → len cards = 4 → len counts = 4 →
  Forall (λ p, cardArray 26 p.1 p.2) (zip cards counts) → delivered (EncodeShowCards users cards counts).
Proof.
  intros Hu Hc Hn Ha. pose proof (sound_showCards users cards counts Hu Hc Hn) as H. unfold EncodeShowCards in *.
  assert (forallb (λ p, cardsOk 26 p.1 p.2) (zip cards counts) = true) as Hok. { clear -Ha. induction Ha as [|p l Hp _ IH]; [done|]. cbn. by rewrite cardsOk_array. }
  rewrite Hok in *. cbn [negb] in *. deliver H.
Qed.
Lemma gameResult_delivers r : fourSeats r → wrReason r ≤ 4 → wrResult r ≤ 2 → wrWinningTeam r ≤ 1 → (wrResult r = 2 → wrWinningTeam r = 0) →
  Forall (λ o, o ≤ 2) (wrOutcomes r) → Forall (λ k, 1 ≤ k ≤ 4) (wrRanks r) → delivered (EncodeGameResult r).
Proof.
  intros H4 H1 H2 H3 Hp Ho Hk. pose proof (sound_gameResult r H4) as H. unfold EncodeGameResult in *.
  assert (forallb (λ o, o <=? 2) (wrOutcomes r) = true) as Ho'. { clear -Ho. induction Ho as [|o l Ho _ IH]; [done|]. cbn. by rewrite (proj2 (Z.leb_le _ _)). }
  assert (forallb (λ k, (1 <=? k) && (k <=? 4)) (wrRanks r) = true) as Hk'.
  { clear -Hk. induction Hk as [|k l [] _ IH]; [done|]. cbn. by rewrite !(proj2 (Z.leb_le _ _)). }
  destruct (_ || _) eqn:Hg; [exfalso|deliver H]. rewrite !orb_true_iff, andb_true_iff, !negb_true_iff, !Z.ltb_lt, Z.eqb_eq, Z.eqb_neq in Hg. rewrite Ho', Hk' in Hg.
  destruct Hg as [[[[[?|?]|?]|[? Hw]]|?]|?]; [lia|lia|lia| |done|done]. by apply Hw, Hp.
Qed.
Lemma gameScene_delivers s : len (wsPlayers s) = 4 → wsState s = 3 ∨ wsState s = 4 → legalSeat (wsActiveSeat s) → legalSeat (wsPreviousPlayerSeat s) →
  cardArray 24 (wsTrickScoreCards s) (wsTrickScoreCardCount s) → wsFinishedPlayerCount s ≤ 4 → forallb scenePlayerOk (wsPlayers s) = true →
  delivered (EncodeGameScene s).
Proof.
  unfold legalSeat. intros H4 Hst Ha Hp Hc%cardsOk_array Hf Hpl. pose proof (sound_gameScene s H4) as H. unfold EncodeGameScene in *.
  destruct (_ || _) eqn:Hg; [exfalso|deliver H]. unfold validGameSceneSeat in Hg. rewrite Hc, Hpl in Hg.
  rewrite !orb_true_iff, !negb_true_iff, !andb_true_iff, !negb_true_iff, !andb_false_iff, !Z.eqb_neq, !Z.leb_gt, !Z.ltb_ge, Z.ltb_lt in Hg.
  destruct Hg as [[[[[?|?]|?]|?]|?]|?]; try done; lia.
Qed.
Lemma wireScenePlayer_ok user p : legalScenePlayer p → scenePlayerOk (wireScenePlayer user p) = true.
Proof.
  intros (Hh & [Hl Hz%zeros_blank] & Hm & Hr). apply cardsOk_array in Hh. unfold scenePlayerOk, wireScenePlayer. cbn [wpState wpHandCards wpHandCount wpRank wpLastPlayCount wpLastPlayedCards].
  rewrite Hh, Hz, !(proj2 (Z.leb_le _ _)) by done. unfold scenePlayerState. by destruct (spAutomated p), (spOffline p).
Qed.

(** The encoders of the adapter *)
Lemma encodeLegacyDeal_delivers players seat cards : areUsers (qlist players) → isUser (qget "" players seat) → 0 ≤ seat ≤ 3 →
  delivered (encodeLegacyDeal [qget "" players seat] players seat cards).
Proof.
  intros (users & H4 & Hu & Hf)%four_users (t & Ht & Hp)%one_target Hs; [|done]. unfold encodeLegacyDeal. rewrite (proj2 (Z.leb_gt 4 seat)) by lia.
  change (negb (len [qget "" players seat] =? 1)) with false. cbn iota. rewrite Hu. cbn [mbind outcome_bind]. rewrite Ht. cbn [mbind outcome_bind].
  destruct (item_lookup users seat) as (own & Hi & Hl); [lia|]. change (item [t] 0) with (Got t). cbn [mbind outcome_bind]. rewrite Hi. cbn [mbind outcome_bind].
  apply legacyTargetUserIDs_Got in Hu as (Hu & _ & _). destruct (Forall2_lookup_r _ _ _ _ _ Hu Hl) as (p & Hq & Hpo & _).
  assert (p = qget "" players seat) as ->. { assert (seat = 0 ∨ seat = 1 ∨ seat = 2 ∨ seat = 3) as [->|[->|[->| ->]]] by lia; cbn in Hq; by injection Hq. }
  rewrite Hp in Hpo. injection Hpo as ->. rewrite Z.eqb_refl. cbn [negb]. rewrite Hf. by apply delivers_wrap, deal_delivers.
Qed.
Lemma encodeLegacyGameScene_delivers t s : isUser t → legalPayload [t] (GameScene s) → delivered (encodeLegacyGameScene [t] s).
Proof.
  intros (u & Hi & Hp)%one_target (Ha & (t' & [= <-] & Hin) & Hs1 & Hs2 & Hc & Hn & Hpl).
  assert (len (spPlayer <$> qlist (scPlayers s)) = 4) as Hl4 by done. destruct (four_users _ Hl4 Ha) as (users & H4 & Hu & Hf).
  unfold encodeLegacyGameScene. change (negb (len [t] =? 1)) with false. cbn iota. rewrite Hu. cbn [mbind outcome_bind]. rewrite Hi. cbn [mbind outcome_bind].
  change (item [u] 0) with (Got u). cbn [mbind outcome_bind]. assert (existsb (Z.eqb u) users = true) as ->.
  { apply list_elem_of_lookup in Hin as (i & Hit). apply legacyTargetUserIDs_Got in Hu as (Hu & _ & _). destruct (Forall2_lookup_l _ _ _ _ _ Hu Hit) as (u' & Hu' & Hpu & _).
    rewrite Hp in Hpu. injection Hpu as <-. apply existsb_exists. exists u. split; [|apply Z.eqb_refl]. apply list_elem_of_In. by eapply list_elem_of_lookup_2. }
  cbn [negb]. rewrite Hf. cbn [mbind outcome_bind]. apply delivers_wrap, gameScene_delivers; cbn [wsPlayers wsState wsActiveSeat wsPreviousPlayerSeat wsTrickScoreCards wsTrickScoreCardCount wsFinishedPlayerCount]; try done.
  - unfold len in *. rewrite length_zip_with. cbn. lia.
  - destruct (scState s); auto.
  - clear -Hpl. revert users. induction Hpl as [|p l Hp _ IH]; intros [|u users]; try done. cbn [zip_with forallb]. by rewrite wireScenePlayer_ok, IH.
Qed.
Lemma encodeLegacyClientPayload_delivers targets payload : targets ≠ [] → areUsers targets → legalPayload targets payload → delivered (encodeLegacyClientPayload targets payload).
Proof.
  intros Hne Ht Hl. destruct payload as [| |a b c d|players seat cards|player verify ms|player cards count|winner points|players counts cards|r|s|reason|player cards count|player on];
    cbn [encodeLegacyClientPayload legalPayload] in *.
  - pose proof sound_gameStart as H. unfold EncodeGameStart in *. deliver H.
  - pose proof sound_roundStat as H. unfold EncodeRoundStat in *. deliver H.
  - by apply gameInfo_delivers.
  - destruct Hl as (Hp & Hs & ->). by apply encodeLegacyDeal_delivers.
  - destruct Hl as [(u & Hu)%oneUserID_user Hv]. unfold encodeLegacyAskOutCard. rewrite (proj2 (Z.eqb_neq _ _)) by done. rewrite Hu.
    pose proof (sound_askFrame u verify ms) as H. cbn [mbind outcome_bind]. unfold EncodeAskOutCard in *. deliver H.
  - destruct Hl as ((u & Hu)%oneUserID_user & Hc & H26). unfold encodeLegacyOutCardInfo. rewrite (proj2 (Z.ltb_ge _ _)) by done. rewrite Hu.
    apply delivers_wrap, outCardInfo_delivers. unfold len. rewrite length_take. lia.
  - apply oneUserID_user in Hl as (u & Hu). unfold encodeLegacyTurnEnd. rewrite Hu. pose proof (sound_turnEnd u points) as H. cbn [mbind outcome_bind]. unfold EncodeTurnEnd in *. deliver H.
  - destruct Hl as [(users & H4 & Hu & Hf)%four_users Hc]; [|done]. unfold encodeLegacyShowCards. rewrite Hu. cbn [mbind outcome_bind]. rewrite Hf.
    by apply delivers_wrap, showCards_delivers.
  - destruct Hl as ((users & H4 & Hu & Hf)%four_users & Hk & Hw & Hp); [|done]. unfold encodeLegacyGameResult. rewrite Hu. cbn [mbind outcome_bind]. rewrite Hf.
    apply delivers_wrap, gameResult_delivers; cbn [wrReason wrResult wrWinningTeam wrOutcomes wrRanks]; [by repeat split|by destruct (grReason r)|by destruct (grResult r)|done| | |done].
    + intros H2. apply Hp. by destruct (grResult r).
    + repeat constructor; by match goal with |- outcomeValue ?o ≤ 2 => destruct o end.
  - pose proof Hl as (_ & (t & -> & _) & _). by apply encodeLegacyGameScene_delivers.
  - unfold encodeLegacyOutCardRejection. rewrite Hl. apply delivers_wrap. pose proof (sound_outCardResult (rejectionValue reason)) as H. unfold EncodeOutCardResult in *.
    destruct (_ || _) eqn:Hg; [by destruct reason|]. deliver H.
  - destruct Hl as [(u & Hu)%oneUserID_user Hc%cardsOk_array]. unfold encodeLegacyCardSelectionPreview. rewrite Hu. apply delivers_wrap.
    pose proof (sound_cardActionWatch u cards count) as H. unfold EncodeCardActionWatch in *. rewrite Hc in *. cbn [negb] in *. deliver H.
  - apply oneUserID_user in Hl as (u & Hu). rewrite Hu. pose proof (sound_userStateChange u on) as H. cbn [mbind outcome_bind]. unfold EncodeUserStateChange in *. deliver H.
Qed.
Lemma collect_encodes {X Y} (f : X → outcome Y) l : Forall (λ x, ∃ y, f x = Got y) l → ∃ r, collect f l = Got r.
Proof. induction 1 as [|x l [y Hy] _ [r Hr]]; [by exists []|]. exists (y :: r). cbn. by rewrite Hy, Hr. Qed.
Lemma relay_delivers m : len (orPayload m) ≤ payloadLimit → ∃ d, EncodeOutboundGameRelay m = Got d.
Proof.
  intros Hp. pose proof (proj1 (sound_relay m)) as H. destruct (EncodeOutboundGameRelay m) as [d|e|] eqn:He; [by exists d| |done]. exfalso.
  unfold EncodeOutboundGameRelay in He. destruct (Z.ltb_spec (legacyMaxFrameSize - gameFrameBase) (len (orPayload m))) as [Hlt|]; [|by apply writes_never_refuse in He].
  revert Hlt Hp. unfold payloadLimit, legacyMaxFrameSize. sizes. lia.
Qed.
Lemma settlement_delivers battle o : battle ≠ 0 → legalSettlement o → ∃ d, encodeLegacySettlementRequest battle o = Got d.
Proof.
  intros Hb (Ht & Hi & Hp & Hn & Hg). unfold encodeLegacySettlementRequest. destruct o as [rt tc gains players f1 f2 f3 lt].
  cbn [soTeamCount soPlayers soGains soResultType soNoScoreBase soNoCheckSeal soNoRecharge soLevelScoreType] in *. subst tc.
  match goal with |- ∃ d, wrap _ (EncodeSettlementRequest ?q) = _ => pose proof (sound_settlement q) as [H _]; [cbn [wqGains]; unfold len in *; by rewrite length_fmap|] end.
  destruct players as [|p0 [|p1 [|p2 [|p3 [|]]]]]; try done. injection Hi as H0 H1 H2 H3. rewrite !Forall_cons in Hp. destruct Hp as (P0 & P1 & P2 & P3 & _).
  match goal with |- ∃ d, wrap _ ?m = _ => destruct m as [d|e|] eqn:He; [by exists d| |done] end. exfalso. clear H.
  unfold EncodeSettlementRequest in He. cbn [wqBattleID wqTeamCount wqPlayers wqGains] in He. revert He.
  destruct (_ || _) eqn:Hg1; [rewrite (proj2 (Z.eqb_neq battle 0)) in Hg1 by done; done|].
  match goal with |- context [forallb ?f ((λ g, mkLegacyGain _ _ _) <$> gains)] => assert (forallb f ((λ g, mkLegacyGain (PayTeamID g) (GainTeamID g) (gScore g)) <$> gains) = true) as -> end.
  { clear -Hg. induction Hg as [|g l (G1 & G2 & G3 & G4) _ IH]; [done|]. rewrite fmap_cons. cbn [forallb lgPay lgGain lgScore].
    rewrite !(proj2 (Z.ltb_lt _ _)), (proj2 (Z.eqb_neq _ _)) by done. exact IH. }
  match goal with |- context [forallb ?f (zip ?l ?ps)] => assert (forallb f (zip l ps) = true) as -> end.
  { cbn [fmap list_fmap zip zip_with forallb fst snd lrPlayerID lrTeamID]. rewrite H0, H1, H2, H3, (proj2 (Z.eqb_neq _ _) P0), (proj2 (Z.eqb_neq _ _) P1), (proj2 (Z.eqb_neq _ _) P2), (proj2 (Z.eqb_neq _ _) P3). done. }
  cbn [negb]. intros He. by apply writes_never_refuse in He.
Qed.
Lemma encodeLegacyOutput_encodes batch o : baBattleID batch ≠ 0 → legalOutput o → ∃ frames, encodeLegacyOutput batch o = Got frames.
Proof.
  intros Hb Hl. destruct o as [targets payload|replay|over|q|reason]; cbn [encodeLegacyOutput legalOutput] in *.
  - destruct Hl as (Hne & Ht & Hl). destruct (encodeLegacyClientPayload_delivers targets payload Hne Ht Hl) as (d & Hd & Hlen). rewrite Hd. cbn [mbind outcome_bind].
    destruct (users_parse targets Hne Ht) as (users & _ & Hu). rewrite Hu. cbn [mbind outcome_bind]. apply collect_encodes, Forall_forall. intros u _.
    destruct (relay_delivers (mkOutbound (baBattleID batch) u (baMatchID batch) (baProductID batch) d) Hlen) as (f & Hf). exists f. by rewrite Hf.
  - rewrite bool_decide_false by done. pose proof (sound_gameStarted (baBattleID batch) replay) as H. assert (delivered (EncodeGameStarted (baBattleID batch) replay)) as (d & -> & _).
    { unfold EncodeGameStarted in *. deliver H. }
    by eexists.
  - unfold encodeLegacyGameOver. change (optionalUserID "") with (Got 0). cbn [wrap mbind outcome_bind].
    match goal with |- context [EncodeGameOver ?v] => pose proof (sound_gameOver v) as H; assert (delivered (EncodeGameOver v)) as (d & -> & _) end; [|by eexists].
    unfold EncodeGameOver in *. cbn [woBattleID woReplayName] in *. rewrite (proj2 (Z.eqb_neq (baBattleID batch) 0)), bool_decide_false in * by done. cbn [orb] in *.
    change (len (woPlayers _)) with 4 in *. cbn [Z.eqb Pos.eqb negb andb] in *. unfold gameOverFixedSize in *. deliver H.
  - destruct (settlement_delivers (baBattleID batch) q Hb Hl) as (d & ->). by eexists.
  - unfold encodeLegacyNotice. change (optionalUserID "") with (Got 0). cbn [wrap mbind outcome_bind].
    pose proof (sound_noticeRoundOver (baBattleID batch) (reasonValue reason) 0) as H.
    assert (delivered (EncodeNoticeRoundOver (baBattleID batch) (reasonValue reason) 0)) as (d & -> & _); [|by eexists].
    unfold EncodeNoticeRoundOver in *. rewrite (proj2 (Z.eqb_neq (baBattleID batch) 0)) in * by done. deliver H.
Qed.
Lemma validGameOutputBatch_valid b : validBatch b → validGameOutputBatch b = true.
Proof.
  intros (H1 & H2 & H3 & H4 & H5 & H6 & H7). unfold validGameOutputBatch. rewrite bool_decide_false by done. rewrite !(proj2 (Z.eqb_neq _ 0)); try done.
  destruct (baOutputs b); [done|]. unfold len. cbn. lia.
Qed.
Lemma batch_encodes batch : validBatch batch → Forall legalOutput (baOutputs batch) → ∃ frames, encodeLegacyGameOutputBatch batch = Got frames.
Proof.
  intros Hv Hl. unfold encodeLegacyGameOutputBatch. rewrite (validGameOutputBatch_valid batch Hv). cbn [negb].
  destruct (collect_encodes (encodeLegacyOutput batch) (baOutputs batch)) as (parts & ->); [|by eexists]. eapply Forall_impl; [exact Hl|]. intros o Ho.
  apply encodeLegacyOutput_encodes; [apply Hv|done].
Qed.

(** C32. A batch whose outputs are legal, of a battle that is known, is encoded: a list of
    frames comes out, no output is refused.  Legal is what the protocol can say
    ([legalOutput]): players are different users, hands have at most 26 cards, ranks are
    1 to 4, a hand is dealt to the player of its seat, a settlement has four players and
    at most 670 gains.  No batch makes the encoder panic, legal or not, as long as its
    settlements have at most 670 gains.  When a batch is encoded, every frame is one the
    connection accepts, and the stream of the frames is read back as exactly these
    frames, with nothing of what follows consumed.  The frames are those of the outputs
    in their order: a client output is one relay to each of its targets, none twice,
    which names the battle and the target and carries the payload; the hand of a deal
    goes to the player of its seat and to nobody else. *)
Theorem egress_frames_sound batch : isU32 (baBattleID batch) → Forall outputFits (baOutputs batch) →
  (validBatch batch → Forall legalOutput (baOutputs batch) → ∃ frames, encodeLegacyGameOutputBatch batch = Got frames)
  ∧ encodeLegacyGameOutputBatch batch ≠ Crashed
  ∧ ∀ frames, encodeLegacyGameOutputBatch batch = Got frames →
      Forall (λ d, WriteFrame d = Got d) frames
      ∧ (∀ rest, readFrames (length frames) (concat frames ++ rest) = Got (frames, rest))
      ∧ ∃ parts, frames = concat parts ∧ Forall2 (outputFrames (baBattleID batch)) (baOutputs batch) parts.
Proof.
  intros Hb Hf. split; [apply batch_encodes|]. unfold encodeLegacyGameOutputBatch. destruct (negb _); [by split|]. split.
  { apply safe_bind; [|done]. apply collect_safe. eapply Forall_impl; [exact Hf|]. intros o Ho. by apply encodeLegacyOutput_safe. }
  intros frames H. apply bind_Got in H as (parts & Hp%collect_Got & [= <-]).
  assert (Forall (λ d, WriteFrame d = Got d) (concat parts)) as Hw.
  { apply Forall_concat. eapply Forall2_Forall_r; [exact Hp|]. eapply Forall_impl; [exact Hf|]. intros o Ho part Hpart. by eapply encodeLegacyOutput_accepted. }
  split_and!; [done|intros rest; by apply frames_read_back|]. exists parts. split; [done|].
  eapply Forall2_same_length_lookup_2; [by eapply Forall2_length|]. intros i o part Hi Hpart.
  apply encodeLegacyOutput_frames; [done|by eapply Forall_lookup_1|exact (Forall2_lookup_lr _ _ _ _ _ _ Hp Hi Hpart)].
Qed.

(** ** Routes *)

(** The routes a conversation with the host gives, and the battle being created: a new
    connection knows none; a message that creates or deletes a battle drops its route;
    a completed creation of the battle that was asked for sets it. *)
Definition completed (battle : BattleID) (a : res rtError hostReply) : option ServiceRef :=
  match a with
  | Ok (OperationReply o) =>
      if bool_decide (coPhase o = HostOperationCompleted) && (coBattleID o =? battle) && validRef (coRef o) then Some (coRef o) else None
  | _ => None
  end.
Definition setRoute (battle : BattleID) (r : option ServiceRef) (routes : gmap BattleID ServiceRef) : gmap BattleID ServiceRef :=
  match r with Some ref => <[battle := ref]> routes | None => routes end.
Definition noteRoute (st : gmap BattleID ServiceRef * BattleID) (e : legacyEvent) : gmap BattleID ServiceRef * BattleID :=
  match e with
  | LConnected _ => (∅, 0)
  | LSentHost (RequestDeleteBattle (Some (battle, _, _))) _ => (delete battle st.1, st.2)
  | LCalledHost (BeginCreateBattle (Some r)) a => (setRoute (cbBattleID r) (completed (cbBattleID r) a) (delete (cbBattleID r) st.1), cbBattleID r)
  | LCalledHost (GetCreateBattleOperation _) a => (setRoute st.2 (completed st.2 a) st.1, st.2)
  | _ => st
  end.
Definition routeState (l : list legacyEvent) : gmap BattleID ServiceRef * BattleID := foldl noteRoute (∅, 0) l.
Definition routesOf (l : list legacyEvent) : gmap BattleID ServiceRef := (routeState l).1.
Definition currentGeneration (l : list legacyEvent) : Z := foldl (λ g e, match e with LConnected g' => g' | _ => g end) 0 l.

(** The command of a frame and its battle. *)
Definition frameCommand (generation : Z) (f : Frame) : outcome (BattleID * command) :=
  if frType f =? 0x8605 then c ← mapLegacyInboundGameplayRelay (frBytes f); mret (icBattleID c, icCommand c)
  else
    control ← DecodeControl (frBytes f);
    route ← MapLegacyControl control generation;
    match lrTarget route with LegacyControlTargetBattle c => mret (lrBattleID route, c) | _ => Refused "not for a battle" end.
(** A command is sent to a battle directly after a frame of the current connection that
    says so, to the service the host named for this battle on this connection. *)
Definition justifiedSend (before : list legacyEvent) (e : legacyEvent) : Prop :=
  match e with
  | LSentBattle battle ref c _ =>
      routesOf before !! battle = Some ref ∧ validRef ref = true
      ∧ ∃ l f, before = l ++ [LArrived (currentGeneration before) f] ∧ frameCommand (currentGeneration before) f = Got (battle, c)
  | _ => True
  end.
Definition justified (l : list legacyEvent) : Prop := ∀ before e after, l = before ++ e :: after → justifiedSend before e.

Lemma routeState_snoc l e : routeState (l ++ [e]) = noteRoute (routeState l) e.
Proof. apply foldl_snoc. Qed.
Lemma currentGeneration_snoc l e : currentGeneration (l ++ [e]) = match e with LConnected g => g | _ => currentGeneration l end.
Proof. unfold currentGeneration. by rewrite foldl_snoc. Qed.
Lemma justified_snoc l e : justified l → justifiedSend l e → justified (l ++ [e]).
Proof.
  intros Hl He before e' after Heq. destruct after as [|x after _] using rev_ind.
  - apply app_inj_tail in Heq as [-> ->]. done.
  - rewrite app_comm_cons, app_assoc in Heq. apply app_inj_tail in Heq as [-> _]. by eapply Hl.
Qed.

Section Routing.
Context {E : LegacyEnv}.

(** Events that neither send to a battle nor begin a connection. *)
Definition quiet (e : legacyEvent) : Prop := match e with LSentBattle _ _ _ _ | LConnected _ => False | _ => True end.
Record routed (w : lworld) : Prop := {
  rt_routes : ∀ s, lwSession w = Some s → snRoutes s = routesOf (lwLog w);
  rt_generation : ∀ s, lwSession w = Some s → snGeneration s = currentGeneration (lwLog w);
  rt_sends : justified (lwLog w);
  rt_queued : ∀ s, lwSession w = Some s → Forall (λ b, baGeneration b = snGeneration s) (snOutputs s);
  rt_output : ∀ s o, lwSession w = Some s → lwOutput w = Some o → gsGeneration o = snGeneration s
}.
(** What a step may do apart from the routes: log quiet events, and queue frames. *)
Record silent (w w' : lworld) : Prop := {
  si_log : ∃ l, lwLog w' = lwLog w ++ l ∧ Forall quiet l;
  si_output : lwOutput w' = lwOutput w;
  si_session : match lwSession w with
               | None => lwSession w' = None
               | Some s => ∃ s', lwSession w' = Some s' ∧ snGeneration s' = snGeneration s ∧ snOutputs s' = snOutputs s
               end
}.
Lemma silent_refl w : silent w w.
Proof. split; [exists []; by rewrite app_nil_r|done|]. destruct (lwSession w) as [s|]; [by exists s|done]. Qed.
Lemma silent_trans w1 w2 w3 : silent w1 w2 → silent w2 w3 → silent w1 w3.
Proof.
  intros [(l1 & Hl1 & H1) Ho1 Hs1] [(l2 & Hl2 & H2) Ho2 Hs2]. split.
  - exists (l1 ++ l2). rewrite Hl2, Hl1, app_assoc. split; [done|]. by apply Forall_app.
  - congruence.
  - destruct (lwSession w1) as [s1|].
    + destruct Hs1 as (s2 & Hs & Hg & Hout). rewrite Hs in Hs2. destruct Hs2 as (s3 & -> & Hg' & Hout'). exists s3. split_and!; congruence.
    + by rewrite Hs1 in Hs2.
Qed.
Lemma justified_quiet l l' : justified l → Forall quiet l' → justified (l ++ l').
Proof.
  intros Hl. induction l' as [|e l' IH] using rev_ind; intros Hq; [by rewrite app_nil_r|]. apply Forall_app in Hq as [Hq He]. apply Forall_inv in He.
  rewrite app_assoc. apply justified_snoc; [by apply IH|]. destruct e; first [exact I|by destruct He].
Qed.
Lemma generation_quiet l l' : Forall quiet l' → currentGeneration (l ++ l') = currentGeneration l.
Proof.
  induction l' as [|e l' IH] using rev_ind; intros Hq; [by rewrite app_nil_r|]. apply Forall_app in Hq as [Hq He]. apply Forall_inv in He.
  rewrite app_assoc, currentGeneration_snoc. destruct e; first [by destruct He|by apply IH].
Qed.
Lemma routed_silent w w' : routed w → silent w w' → (∀ s', lwSession w' = Some s' → snRoutes s' = routesOf (lwLog w')) → routed w'.
Proof.
  intros [Hr Hg Hj Hq Ho] [(l & Hl & Hquiet) Hout Hs] Hroutes. assert (∀ s', lwSession w' = Some s' → ∃ s, lwSession w = Some s ∧ snGeneration s' = snGeneration s ∧ snOutputs s' = snOutputs s) as Hback.
  { intros s' Hs'. destruct (lwSession w) as [s|]; [|congruence]. destruct Hs as (s2 & Hs2 & ? & ?). exists s. split; [done|]. rewrite Hs' in Hs2. injection Hs2 as ->. done. }
  split; [done| | | |].
  - intros s' Hs'. destruct (Hback s' Hs') as (s & H1 & -> & _). rewrite Hl, generation_quiet by done. by apply Hg.
  - rewrite Hl. by apply justified_quiet.
  - intros s' Hs'. destruct (Hback s' Hs') as (s & H1 & -> & ->). by apply Hq.
  - intros s' o Hs' Ho'. destruct (Hback s' Hs') as (s & H1 & -> & _). rewrite Hout in Ho'. by apply Ho.
Qed.

(** The answer of the host to a creation. *)
Lemma waitTicks_routes n o w :
  let '(w', r) := waitTicks n o w in
  silent w w' ∧ lwSession w' = lwSession w ∧ (routeState (lwLog w')).2 = (routeState (lwLog w)).2
  ∧ routesOf (lwLog w') = match r with
                          | Ok o' => setRoute (routeState (lwLog w)).2 (completed (routeState (lwLog w)).2 (Ok (OperationReply o'))) (routesOf (lwLog w))
                          | Err _ => routesOf (lwLog w)
                          end
  ∧ ∀ o', r = Ok o' → coPhase o' = HostOperationCompleted.
Proof.
  revert o w. induction n as [|n IH]; intros o w; cbn [waitTicks].
  { split_and!; try done. apply silent_refl. }
  unfold callHost, lask, lnote, lof, mbind, l_bind. cbn. set (a := ansCallHost (lwLog w) _). set (w1 := mkLW _ _ _ _ (lwLog w ++ [LCalledHost _ a])).
  assert (silent w w1) as Hs.
  { split; [eexists; split; [done|by repeat constructor]|done|]. cbn. destruct (lwSession w) as [s|]; [by exists s|done]. }
  assert (routeState (lwLog w1) = (setRoute (routeState (lwLog w)).2 (completed (routeState (lwLog w)).2 a) (routesOf (lwLog w)), (routeState (lwLog w)).2)) as Hst
    by apply routeState_snoc.
  assert (completed (routeState (lwLog w)).2 a = None → routesOf (lwLog w1) = routesOf (lwLog w)) as Hnone by (intros Hc; unfold routesOf at 1; by rewrite Hst, Hc).
  destruct a as [v|e] eqn:Ha; [|split_and!; [done|done|by rewrite Hst|by apply Hnone|done]].
  destruct v as [current| | | |]; [|split_and!; [done|done|by rewrite Hst|by apply Hnone|done]..].
  assert (coPhase current ≠ HostOperationCompleted → completed (routeState (lwLog w)).2 (Ok (OperationReply current)) = None) as Hcn.
  { intros Hp. unfold completed. by rewrite bool_decide_eq_false_2. }
  destruct (coPhase current) eqn:Hp.
  2: { split_and!; [done|done|by rewrite Hst|unfold routesOf at 1; by rewrite Hst|by intros o' [= <-]]. }
  2: { split_and!; [done|done|by rewrite Hst|by apply Hnone, Hcn|done]. }
  all: specialize (IH current w1); destruct (waitTicks n current w1) as [w' r]; destruct IH as (I1 & I2 & I3 & I4 & I5);
    split_and!; [by eapply silent_trans|done|by rewrite I3, Hst| |done]; rewrite I4, Hst; cbn [snd]; by rewrite (Hnone (Hcn ltac:(done))).
Qed.
Lemma completed_other battle o : coPhase o ≠ HostOperationCompleted → completed battle (Ok (OperationReply o)) = None.
Proof. intros Hp. unfold completed. by rewrite bool_decide_eq_false_2. Qed.
Lemma note_silent e w : quiet e → silent w (lnote e w).1.
Proof. intros He. split; [exists [e]; split; [done|by constructor]|done|]. cbn. destruct (lwSession w) as [s|]; [by exists s|done]. Qed.
Lemma completeLegacyCreate_routes battle newbie g w :
  let '(w', r) := completeLegacyCreate battle (BeginCreateBattle (Some (mkCreateRequest battle newbie g))) w in
  silent w w' ∧ lwSession w' = lwSession w
  ∧ routesOf (lwLog w') = match r with Ok o => <[battle := coRef o]> (delete battle (routesOf (lwLog w))) | Err _ => delete battle (routesOf (lwLog w)) end
  ∧ ∀ o, r = Ok o → validRef (coRef o) = true.
Proof.
  unfold completeLegacyCreate, callHost, lask, lof, mbind, l_bind. cbn. set (c := BeginCreateBattle _). set (a := ansCallHost (lwLog w) c).
  set (w1 := mkLW _ _ _ _ (lwLog w ++ [LCalledHost c a])).
  assert (silent w w1) as Hs by (apply (note_silent (LCalledHost c a) w); exact I).
  assert (routeState (lwLog w1) = (setRoute battle (completed battle a) (delete battle (routesOf (lwLog w))), battle)) as Hst by apply routeState_snoc.
  assert (completed battle a = None → routesOf (lwLog w1) = delete battle (routesOf (lwLog w))) as Hnone by (intros Hc; unfold routesOf at 1; by rewrite Hst, Hc).
  destruct a as [v|e] eqn:Ha; [|split_and!; [done|done|by apply Hnone|done]].
  destruct v as [o| | | |]; [|split_and!; [done|done|by apply Hnone|done]..].
  assert (let '(w', r) := waitLegacyCreateResult o w1 in silent w w' ∧ lwSession w' = lwSession w
    ∧ routesOf (lwLog w') = match r with
                            | Ok o' => setRoute battle (completed battle (Ok (OperationReply o'))) (delete battle (routesOf (lwLog w)))
                            | Err _ => delete battle (routesOf (lwLog w)) end
    ∧ ∀ o', r = Ok o' → coPhase o' = HostOperationCompleted) as Hwait.
  { unfold waitLegacyCreateResult. destruct (coPhase o) eqn:Hp.
    2: { split_and!; [done|done|unfold routesOf at 1; by rewrite Hst|by intros o' [= <-]]. }
    2: { split_and!; [done|done|by apply Hnone, completed_other; rewrite Hp|done]. }
    all: unfold lask, mbind, l_bind; cbn; pose proof (waitTicks_routes (ansTicks (lwLog w1)) o w1) as Hw;
      destruct (waitTicks _ o w1) as [w' r]; destruct Hw as (H1 & H2 & _ & H4 & H5); split_and!; [by eapply silent_trans|done| |done];
      rewrite H4, Hst; cbn [snd]; by rewrite (Hnone (completed_other battle o ltac:(by rewrite Hp))). }
  destruct (waitLegacyCreateResult o w1) as [w' [o'|e]]; destruct Hwait as (H1 & H2 & H3 & H4); [|split_and!; done].
  specialize (H4 o' eq_refl). cbn [completed] in H3. rewrite bool_decide_eq_true_2 in H3 by done. cbn [andb] in H3.
  destruct (coBattleID o' =? battle); cbn [negb orb andb] in *; [|split_and!; done].
  destruct (validRef (coRef o')) eqn:Hv; cbn [negb] in *; split_and!; try done. by intros ? [= <-].
Qed.

(** Queueing a frame keeps everything but the queue. *)
Lemma SubmitFrame_silent frame w :
  silent w (SubmitFrame frame w).1 ∧ lwLog (SubmitFrame frame w).1 = lwLog w ∧ (snRoutes <$> lwSession (SubmitFrame frame w).1) = (snRoutes <$> lwSession w).
Proof.
  unfold SubmitFrame. destruct (_ <? _); [split_and!; [apply silent_refl|done|done]|]. unfold lsession, lqueue, offer, lask, mbind, l_bind, lput, lfail. cbn.
  destruct (lwSession w) as [s|] eqn:Hs; [|cbn; rewrite Hs; split_and!; [apply silent_refl|done|done]].
  destruct (_ && _); cbn.
  - split_and!; [|done|done]. split; [exists []; by rewrite app_nil_r|done|]. cbn. rewrite Hs. by eexists.
  - destruct (snDone s); cbn; rewrite Hs; split_and!; try done; apply silent_refl.
Qed.
Lemma routed_SubmitFrame frame w : routed w → routed (SubmitFrame frame w).1.
Proof.
  intros Hw. destruct (SubmitFrame_silent frame w) as (Hs & Hl & Hr). apply (routed_silent w); [done|done|]. intros s' Hs'. rewrite Hl. rewrite Hs' in Hr.
  destruct (lwSession w) as [s|] eqn:Hsw; [|done]. cbn in Hr. apply (inj Some) in Hr. rewrite Hr. by apply (rt_routes w Hw).
Qed.
Lemma routed_replyNewGame control r w : routed w → routed (replyNewGame control r w).1.
Proof.
  intros Hw. unfold replyNewGame. destruct (negb _); [done|]. unfold lift, lof, mbind, l_bind.
  destruct (EncodeNewGameAck _ _) as [ack| |]; [by apply routed_SubmitFrame|done|done].
Qed.
(** Events that change no route. *)
Definition routeless (e : legacyEvent) : Prop := match e with LArrived _ _ | LPrepared _ _ _ _ | LWritten _ => True | _ => False end.
Lemma routed_note e w : routed w → routeless e → routed (lnote e w).1.
Proof.
  intros Hw He. apply (routed_silent w); [done|apply note_silent; by destruct e|]. intros s Hs. cbn in *. unfold routesOf. rewrite routeState_snoc.
  rewrite (rt_routes w Hw s Hs). by destruct e.
Qed.

(** The frame that was just noted is for this battle: the command goes to its route. *)
Lemma routed_send w g f battle c : routed w → currentGeneration (lwLog w) = g → frameCommand g f = Got (battle, c) →
  let w1 := (lnote (LArrived g f) w).1 in routed ((ref ← cachedBattleRoute g battle; sendBattle battle ref c) w1).1.
Proof.
  intros Hw Hg Hf w1. assert (routed w1) as Hw1 by (by apply routed_note). unfold cachedBattleRoute, lsession, mbind, l_bind, lfail.
  destruct (lwSession w1) as [s|] eqn:Hs; [|done]. destruct (negb (snGeneration s =? g)); [done|]. destruct (snRoutes s !! battle) as [ref|] eqn:Hr; [|done].
  destruct (negb (validRef ref)) eqn:Hv; [done|]. apply negb_false_iff in Hv. unfold sendBattle, lask, lnote, mret, l_ret, mbind, l_bind, lfail.
  set (a := ansSendBattle _ _ _). set (w2 := mkLW _ _ _ _ (lwLog w1 ++ [LSentBattle battle ref c a])). assert (routed w2) as Hw2; [|by destruct a].
  destruct Hw1 as [H1 H2 H3 H4 H5]. assert (currentGeneration (lwLog w1) = g) as Hg1 by (cbn; by rewrite currentGeneration_snoc).
  split; cbn [lwSession lwLog lwOutput w2]; [|intros s' Hs'; rewrite currentGeneration_snoc; by apply H2| |done|done].
  - intros s' Hs'. rewrite (H1 s' Hs'). unfold routesOf. by rewrite routeState_snoc.
  - apply justified_snoc; [done|]. cbn [justifiedSend]. rewrite <- (H1 s Hs), Hg1. split_and!; [done|done|]. by exists (lwLog w), f.
Qed.
Lemma invalidate_session w g battle : (∀ s, lwSession w = Some s → snGeneration s = g) →
  invalidateBattleRoute g battle w = (onSession (λ s, set_routes (delete battle (snRoutes s)) s) w, Ok ()).
Proof.
  intros Hg. unfold invalidateBattleRoute, lsession, lput, mbind, l_bind, onSession. destruct w as [q n [s|] o l]; [|done]. cbn in *. by rewrite (Hg s eq_refl), Z.eqb_refl.
Qed.
Lemma routed_host w g control route c : routed w → currentGeneration (lwLog w) = g →
  MapLegacyControl control g = Got route → lrTarget route = LegacyControlTargetHost c → routed (sendControlRoute g route w).1.
Proof.
  intros Hw Hg Hm Ht. destruct (MapLegacyControl_host _ _ _ _ Hm Ht) as (Hb & Hz & Hk & Hc). unfold sendControlRoute. rewrite Ht, Hk, Hb.
  assert (∀ s, lwSession w = Some s → snGeneration s = g) as Hsg by (intros s Hs; rewrite (rt_generation w Hw s Hs); done).
  unfold mbind at 1, l_bind at 1. rewrite (invalidate_session w g _ Hsg). set (b := lcBattleID control) in *. set (w1 := onSession _ w).
  assert (silent w w1) as Hs1.
  { split; [exists []; by rewrite app_nil_r|done|]. cbn. destruct (lwSession w) as [s|]; [by eexists|done]. }
  assert (∀ s, lwSession w1 = Some s → snRoutes s = delete b (routesOf (lwLog w))) as Hr1.
  { intros s Hs. cbn in Hs. destruct (lwSession w) as [s0|] eqn:H0; [|done]. injection Hs as <-. cbn. by rewrite (rt_routes w Hw s0 H0). }
  destruct (isNewGame (lcKind control)); cbn [negb].
  - destruct Hc as [newbie ->]. unfold mbind, l_bind. pose proof (completeLegacyCreate_routes b newbie g w1) as Hcc.
    destruct (completeLegacyCreate _ _ w1) as [w2 [o|e]]; destruct Hcc as (H1 & H2 & H3 & H4).
    + specialize (H4 o eq_refl). unfold bindBattleRoute. rewrite (proj2 (Z.eqb_neq b 0) Hz), H4. cbn [negb orb]. unfold lsession, lput, lfail, mbind, l_bind. rewrite H2.
      destruct (lwSession w1) as [s|] eqn:Hs; [|apply (routed_silent w); [done|by eapply silent_trans|cbn [fst]; intros s' Hs'; congruence]].
      assert (snGeneration s = g) as ->. { cbn in Hs. destruct (lwSession w) as [s0|]; [|done]. injection Hs as <-. cbn. by apply Hsg. }
      rewrite Z.eqb_refl. cbn [negb]. apply (routed_silent w); [done| |].
      * eapply silent_trans; [exact Hs1|]. eapply silent_trans; [exact H1|]. split; [exists []; by rewrite app_nil_r|done|]. cbn. rewrite H2. by eexists.
      * cbn. intros s' [= <-]. cbn. rewrite (Hr1 s eq_refl). symmetry. exact H3.
    + apply (routed_silent w); [done|by eapply silent_trans|]. cbn [fst]. intros s Hs. rewrite H2 in Hs. rewrite (Hr1 s Hs). symmetry. exact H3.
  - subst c. unfold sendHostControl, lask, mbind, l_bind. cbn. set (a := ansSendHost _ _). set (w2 := mkLW _ _ _ _ _). assert (routed w2) as Hw2; [|by destruct a].
    apply (routed_silent w); [done| |].
    + eapply silent_trans; [exact Hs1|]. apply (note_silent (LSentHost (RequestDeleteBattle (Some (b, zeroRef, g))) a) w1). exact I.
    + intros s Hs. unfold routesOf. cbn [w2 lwLog]. rewrite routeState_snoc. cbn. by apply Hr1.
Qed.
Lemma routed_prepared g control r w : routed w → routed (subgamePrepared g control r w).1 ∧ (subgamePrepared g control r w).2 = Ok ().
Proof. intros Hw. unfold subgamePrepared. destruct r; [|done]. destruct (lcKind control); try done. destruct onSubgamePrepared; [|done]. split; [by apply routed_note|done]. Qed.
Lemma routed_frame w g f : routed w → currentGeneration (lwLog w) = g → routed (routeFrame g f w).1.
Proof.
  intros Hw Hg. unfold routeFrame. unfold mbind at 1, l_bind at 1. change (lnote (LArrived g f) w) with ((lnote (LArrived g f) w).1, @Ok legacyError unit ()). cbv iota beta.
  set (w1 := (lnote (LArrived g f) w).1). assert (routed w1) as Hw1 by (by apply routed_note).
  assert (currentGeneration (lwLog w1) = g) as Hg1 by (cbn; by rewrite currentGeneration_snoc).
  destruct (frType f =? 34309) eqn:Hty.
  - unfold lift, lof. unfold mbind at 1, l_bind at 1. destruct (mapLegacyInboundGameplayRelay (frBytes f)) as [c|e|] eqn:Hc; [|done|done].
    apply routed_send; [done|done|]. unfold frameCommand. by rewrite Hty, Hc.
  - unfold lift, lof. unfold mbind at 1, l_bind at 1. destruct (DecodeControl (frBytes f)) as [control|e|] eqn:Hc; [|done|done].
    unfold mbind at 1, l_bind at 1, ltry at 1. destruct (MapLegacyControl control g) as [route|e|] eqn:Hm; [|by apply routed_replyNewGame|by apply routed_replyNewGame].
    assert (∀ r, lrTarget route ≠ LegacyControlTargetNone → r = sendControlRoute g route w1 → routed r.1 →
      routed ((r ← ltry (sendControlRoute g route); subgamePrepared g control r ;; replyNewGame control r) w1).1) as Hafter.
    { intros r _ -> Hr. unfold mbind, l_bind, ltry. destruct (sendControlRoute g route w1) as [w2 r]. cbn in Hr.
      destruct (routed_prepared g control r w2 Hr) as [Hp He]. destruct (subgamePrepared g control r w2) as [w3 e]. cbn in Hp, He. subst e. by apply routed_replyNewGame. }
    destruct (lrTarget route) as [c|c|] eqn:Ht; [| |done].
    + eapply Hafter; [done|done|]. by eapply routed_host.
    + eapply Hafter; [done|done|]. unfold sendControlRoute. rewrite Ht. apply routed_send; [done|done|]. unfold frameCommand. rewrite Hty, Hc. cbn [mbind outcome_bind]. rewrite Hm.
      cbn [mbind outcome_bind]. by rewrite Ht.
Qed.
(** Steps that touch neither routes nor generations: they may log what they wrote and
    take outputs from the queue. *)
Record idle (w w' : lworld) : Prop := {
  id_log : ∃ l, lwLog w' = lwLog w ++ l ∧ Forall routeless l;
  id_output : lwOutput w' = lwOutput w;
  id_session : ∀ s', lwSession w' = Some s' →
    ∃ s, lwSession w = Some s ∧ snGeneration s' = snGeneration s ∧ snRoutes s' = snRoutes s ∧ ∀ b, b ∈ snOutputs s' → b ∈ snOutputs s
}.
Lemma idle_trans w1 w2 w3 : idle w1 w2 → idle w2 w3 → idle w1 w3.
Proof.
  intros [(l1 & Hl1 & H1) Ho1 Hs1] [(l2 & Hl2 & H2) Ho2 Hs2]. split; [exists (l1 ++ l2); rewrite Hl2, Hl1, app_assoc; split; [done|by apply Forall_app]|congruence|].
  intros s3 Hs3. destruct (Hs2 s3 Hs3) as (s2 & Hw2 & G2 & R2 & O2). destruct (Hs1 s2 Hw2) as (s1 & Hw1 & G1 & R1 & O1). exists s1. split_and!; [done|congruence|congruence|]. eauto.
Qed.
Lemma idle_onSession f w :
  (∀ s, lwSession w = Some s → snGeneration (f s) = snGeneration s ∧ snRoutes (f s) = snRoutes s ∧ ∀ b, b ∈ snOutputs (f s) → b ∈ snOutputs s) → idle w (onSession f w).
Proof.
  intros Hf. split; [exists []; by rewrite app_nil_r|done|]. intros s' Hs'. cbn in Hs'. destruct (lwSession w) as [s|]; [|done]. injection Hs' as <-.
  destruct (Hf s eq_refl) as (? & ? & ?). by exists s.
Qed.
Lemma idle_refl w : idle w w.
Proof. split; [exists []; by rewrite app_nil_r|done|]. intros s Hs. by exists s. Qed.
Lemma idle_note e w : routeless e → idle w (lnote e w).1.
Proof. intros He. split; [exists [e]; split; [done|by constructor]|done|]. intros s Hs. by exists s. Qed.
Lemma idle_writeFrames n frames w : idle w (writeFrames n frames w).1.
Proof.
  revert n w. induction frames as [|d frames IH]; intros n w; cbn [writeFrames]; [apply idle_refl|]. destruct (WriteFrame d) as [d'| |]; [|apply idle_refl|apply idle_refl].
  destruct n; [apply idle_refl|]. eapply idle_trans; [by apply (idle_note (LWritten d'))|]. apply IH.
Qed.
Lemma routed_idle w w' : routed w → idle w w' → routed w'.
Proof.
  intros [H1 H2 H3 H4 H5] [(l & Hl & Hr) Ho Hs]. assert (routeState (lwLog w') = routeState (lwLog w) ∧ Forall quiet l) as [Hst Hq].
  { rewrite Hl. clear Hl. induction l as [|e l IH] using rev_ind; [by rewrite app_nil_r|]. apply Forall_app in Hr as [Hr He]. apply Forall_inv in He.
    destruct (IH Hr) as [I1 I2]. rewrite app_assoc, routeState_snoc, I1. split; [by destruct e|]. apply Forall_app. split; [done|]. constructor; [by destruct e|done]. }
  assert (currentGeneration (lwLog w') = currentGeneration (lwLog w)) as Hg by (rewrite Hl; by apply generation_quiet).
  split; [| | | |].
  - intros s' Hs'. destruct (Hs s' Hs') as (s & Hw & _ & -> & _). unfold routesOf. rewrite Hst. by apply H1.
  - intros s' Hs'. destruct (Hs s' Hs') as (s & Hw & -> & _). rewrite Hg. by apply H2.
  - rewrite Hl. by apply justified_quiet.
  - intros s' Hs'. destruct (Hs s' Hs') as (s & Hw & -> & _ & Hin). apply Forall_forall. intros b Hb. exact (proj1 (Forall_forall _ _) (H4 s Hw) b (Hin b Hb)).
  - intros s' o Hs' Ho'. destruct (Hs s' Hs') as (s & Hw & -> & _). rewrite Ho in Ho'. by apply H5.
Qed.
Lemma idle_stopWriter w : idle w (stopWriter w).
Proof. by apply idle_onSession. Qed.
Lemma idle_writerTurn batches n w : idle w (writerTurn batches n w).
Proof.
  unfold writerTurn. destruct (lwSession w) as [s|] eqn:Hs; [|apply idle_refl]. destruct (negb _); [apply idle_refl|].
  assert (∀ w1 frames, idle w w1 → idle w (let '(w2, r) := writeFrames n frames w1 in match r with Ok _ => w2 | Err _ => stopWriter w2 end)) as Hwrite.
  { intros w1 frames H1. pose proof (idle_writeFrames n frames w1) as H2. destruct (writeFrames n frames w1) as [w2 [u|e]].
    - by eapply idle_trans.
    - eapply idle_trans; [exact H1|]. eapply idle_trans; [exact H2|]. apply idle_stopWriter. }
  destruct batches.
  - destruct (snOutputs s) as [|batch outputs] eqn:Hout; [apply idle_refl|]. cbv zeta.
    assert (idle w (onSession (set_outputs outputs) w)) as Hpop.
    { apply idle_onSession. intros s' Hs'. rewrite Hs in Hs'. injection Hs' as <-. cbn. rewrite Hout. split_and!; [done|done|]. intros b Hb. by right. }
    destruct (encodeLegacyGameOutputBatch batch); [by apply Hwrite| |]; (eapply idle_trans; [exact Hpop|apply idle_stopWriter]).
  - destruct (snFrames s) as [|d frames]; [apply idle_refl|]. apply Hwrite. by apply idle_onSession.
Qed.
Lemma idle_Fail g w : idle w (FailConnection g w).
Proof. unfold FailConnection. destruct (lwSession w); [|apply idle_refl]. destruct (_ =? _); [by apply idle_onSession|apply idle_refl]. Qed.
Lemma idle_deactivate w : idle w (deactivate w).
Proof. split; [exists []; by rewrite app_nil_r|done|done]. Qed.
Lemma routed_Submit batch w : routed w → (∀ s, lwSession w = Some s → baGeneration batch = snGeneration s) → routed (Submit batch w).1.
Proof.
  intros Hw Hb. unfold Submit. destruct (negb _); [done|]. unfold lsession, lqueue, offer, lask, mbind, l_bind, lput, lfail. cbn.
  destruct (lwSession w) as [s|] eqn:Hs; [|done]. destruct (_ && _); cbn; [|by destruct (snDone s)].
  destruct Hw as [H1 H2 H3 H4 H5]. split; cbn.
  - intros s' [= <-]. exact (H1 s Hs).
  - intros s' [= <-]. exact (H2 s Hs).
  - done.
  - intros s' [= <-]. cbn. apply Forall_app. split; [exact (H4 s Hs)|]. constructor; [exact (Hb s eq_refl)|constructor].
  - intros s' o [= <-] Ho. exact (H5 s o Hs Ho).
Qed.
Lemma routed_output o known payload w : routed w → lwOutput w = Some o → routed (outputHandle o known payload w).1.
Proof.
  intros Hw Ho. unfold outputHandle. destruct (negb known); [done|]. destruct payload as [batch|]; [|done]. destruct (negb _); [done|].
  destruct (negb (baGeneration batch =? gsGeneration o)) eqn:Hg; [done|]. apply negb_false_iff, Z.eqb_eq in Hg.
  assert (routed (Submit batch w).1) as Hs by (apply routed_Submit; [done|]; intros s Hs; rewrite Hg; by apply (rt_output w Hw)).
  destruct (Submit batch w) as [w' [u|e]]; [done|]. cbn in Hs |- *. eapply routed_idle; [exact Hs|]. apply idle_Fail.
Qed.
Lemma routed_step w w' : lstep w w' → routed w → routed w'.
Proof.
  intros Hstep Hw. destruct Hstep.
  - unfold dial. destruct up.
    + destruct Hw as [H1 H2 H3 H4 H5]. split; cbn.
      * intros s [= <-]. cbn. unfold routesOf. by rewrite routeState_snoc.
      * intros s [= <-]. cbn. by rewrite currentGeneration_snoc.
      * by apply justified_snoc.
      * intros s [= <-]. constructor.
      * intros s o [= <-] Ho. congruence.
    + eapply routed_idle; [exact Hw|]. split; [exists []; by rewrite app_nil_r|done|]. cbn. intros s Hs. congruence.
  - unfold onConnected. rewrite H. unfold newGameOutputServiceSpec. destruct (_ || _); [eapply routed_idle; [exact Hw|apply idle_deactivate]|].
    destruct made; [|eapply routed_idle; [exact Hw|apply idle_deactivate]]. destruct Hw as [H1 H2 H3 H4 H5]. split; cbn; try done. intros s' o Hs' [= <-]. cbn. congruence.
  - unfold readerTurn. rewrite H. destruct (ReadFrame stream) as [[f rest]|e|]; [|eapply routed_idle; [exact Hw|by apply idle_onSession]..].
    pose proof (routed_frame w (snGeneration s) f Hw (eq_sym (rt_generation w Hw s H))) as Hf. destruct (routeFrame (snGeneration s) f w) as [w' [u|e]]; [done|].
    eapply routed_idle; [exact Hf|by apply idle_onSession].
  - eapply routed_idle; [exact Hw|by apply idle_onSession].
  - eapply routed_idle; [exact Hw|apply idle_deactivate].
  - destruct Hw as [H1 H2 H3 H4 H5]. split; cbn; try done.
  - by apply routed_output.
  - eapply routed_idle; [exact Hw|apply idle_writerTurn].
  - eapply routed_idle; [exact Hw|apply idle_Fail].
Qed.
Lemma routed_new queue : routed (newConnection queue).
Proof. split; cbn; try done. intros before e after Heq. by destruct before. Qed.
Lemma rtc_routed w w' : rtc lstep w w' → routed w → routed w'.
Proof. induction 1 as [|w1 w2 w3 Hs _ IH]; [done|]. intros Hw. apply IH. by eapply routed_step. Qed.
End Routing.

(** C31. In every run of the connection, whatever arrives, whatever the host, the runtime
    and the battles answer: the routes the connection remembers are exactly those that
    its conversation with the host gives on this connection, where creating or deleting
    a battle drops its route and only a completed creation sets it.  A command reaches a
    battle only directly after a frame of the current connection whose content is this
    command for this battle, and it goes to the service the host named.  A command of a
    player acts for the user the game master named.  Every batch that waits in the
    queue of a connection was put out for this connection. *)
Theorem routes_follow_host {E : LegacyEnv} queue w : rtc lstep (newConnection queue) w →
  (∀ s, lwSession w = Some s →
     snRoutes s = routesOf (lwLog w) ∧ snGeneration s = currentGeneration (lwLog w) ∧ Forall (λ b, baGeneration b = snGeneration s) (snOutputs s))
  ∧ ∀ before battle ref c answer after, lwLog w = before ++ LSentBattle battle ref c answer :: after →
      routesOf before !! battle = Some ref ∧ validRef ref = true
      ∧ ∃ l f, before = l ++ [LArrived (currentGeneration before) f] ∧ frameCommand (currentGeneration before) f = Got (battle, c)
          ∧ (frType f = 0x8605 → ∃ r, DecodeInboundGameRelay (frBytes f) = Got r ∧ irBattleID r = battle ∧ irUserID r ≠ 0 ∧ actsFor (irUserID r) c).
Proof.
  intros Hrun. assert (routed w) as [H1 H2 H3 H4 H5].
  { apply (rtc_routed (newConnection queue)); [done|apply routed_new]. }
  split; [intros s Hs; split_and!; auto|]. intros before battle ref c answer after Hl. destruct (H3 _ _ _ Hl) as (Hr & Hv & l & f & Hb & Hf). split_and!; [done|done|].
  exists l, f. split_and!; [done|done|]. intros Hty. unfold frameCommand in Hf. rewrite Hty in Hf. cbn [Z.eqb] in Hf.
  apply bind_Got in Hf as (ic & Hic & Hm). injection Hm as <- <-. destruct (mapLegacyInbound_Got _ _ Hic) as (r & ? & ? & _ & ? & ?). by exists r.
Qed.

(** ** Frames that are refused *)

(** A complete frame whose content is refused: a relay that does not hold a command of
    its user, a message that cannot be decoded or whose type is unknown, or one that is
    not [NEW_GAME] and maps to no route. *)
Definition frameFault (generation : Z) (f : Frame) : bool :=
  if frType f =? 0x8605 then match mapLegacyInboundGameplayRelay (frBytes f) with Refused _ => true | _ => false end
  else
    match DecodeControl (frBytes f) with
    | Refused _ => true
    | Got control => negb (isNewGame (lcKind control)) && match MapLegacyControl control generation with Refused _ => true | _ => false end
    | Crashed => false
    end.
Lemma decodeBattleControl_supported d type k : decodeBattleControl d type = Got k → k ≠ ControlUnsupported.
Proof. unfold decodeBattleControl, decodeInitGame, decodeUpdatePlayers, decodeSettlementAck. intros H. gots H; by subst k. Qed.
(** A message the decoder knows as unsupported carries no battle, and without a battle
    it is refused before its kind is looked at. *)
Lemma unsupported_fault g f control : (frType f =? 0x8605) = false → DecodeControl (frBytes f) = Got control → lcKind control = ControlUnsupported → frameFault g f = true.
Proof.
  intros Ht Hd Hk. unfold frameFault. rewrite Ht, Hd, Hk. cbn [isNewGame negb andb]. unfold MapLegacyControl. rewrite Hk. cbn [isNewGame negb].
  assert (lcBattleID control = 0) as ->; [|done]. unfold DecodeControl in Hd. cbv zeta in Hd. gots Hd; subst control; cbn in Hk |- *; try done.
  match goal with H : decodeBattleControl _ _ = Got _ |- _ => by apply decodeBattleControl_supported in H end.
Qed.
Lemma fault_routeFrame {E : LegacyEnv} w g f : frameFault g f = true → ∃ e, routeFrame g f w = ((lnote (LArrived g f) w).1, Err e).
Proof.
  unfold frameFault, routeFrame. intros Hf. unfold mbind at 1, l_bind at 1. change (lnote (LArrived g f) w) with ((lnote (LArrived g f) w).1, @Ok legacyError unit ()). cbv iota beta.
  set (w1 := (lnote (LArrived g f) w).1). unfold lift, lof. destruct (frType f =? 34309).
  - unfold mbind at 1, l_bind at 1. destruct (mapLegacyInboundGameplayRelay (frBytes f)); [done|by eexists|done].
  - unfold mbind at 1, l_bind at 1. destruct (DecodeControl (frBytes f)) as [control| |]; [|by eexists|done]. apply andb_true_iff in Hf as [Hn Hm].
    unfold mbind at 1, l_bind at 1, ltry at 1. destruct (MapLegacyControl control g); [done| |done]. unfold replyNewGame. rewrite Hn. by eexists.
Qed.
Lemma unrouted_routeFrame {E : LegacyEnv} w s f battle c : lwSession w = Some s → frameCommand (snGeneration s) f = Got (battle, c) → snRoutes s !! battle = None →
  routeFrame (snGeneration s) f w = ((lnote (LArrived (snGeneration s) f) w).1, Err errLegacyConnectionNotReady).
Proof.
  intros Hs Hf Hr. set (g := snGeneration s) in *. unfold routeFrame. unfold mbind at 1, l_bind at 1.
  change (lnote (LArrived g f) w) with ((lnote (LArrived g f) w).1, @Ok legacyError unit ()). cbv iota beta. set (w1 := (lnote (LArrived g f) w).1).
  assert (cachedBattleRoute g battle w1 = (w1, Err errLegacyConnectionNotReady)) as Hc.
  { unfold cachedBattleRoute, lsession, lfail, mbind, l_bind. cbn [w1 fst lnote lwSession]. rewrite Hs. unfold g. rewrite Z.eqb_refl. cbn [negb]. by rewrite Hr. }
  unfold frameCommand in Hf. unfold lift, lof. destruct (frType f =? 34309).
  - unfold mbind at 1, l_bind at 1. apply bind_Got in Hf as (ic & -> & Hm). injection Hm as Hb Hcm. unfold mbind, l_bind. by rewrite Hb, Hc.
  - apply bind_Got in Hf as (control & Hd & Hf). apply bind_Got in Hf as (route & Hm & Hf). rewrite Hd. unfold mbind at 1, l_bind at 1. rewrite Hm.
    unfold mbind at 1, l_bind at 1, ltry at 1. cbv iota beta. destruct (lrTarget route) as [c0|c0|] eqn:Ht; [done| |done]. injection Hf as Hb Hcm.
    unfold mbind at 1, l_bind at 1, ltry at 1. unfold sendControlRoute. rewrite Ht. unfold mbind at 1, l_bind at 1. rewrite Hb, Hc. unfold subgamePrepared.
    assert (isNewGame (lcKind control) = false) as Hn.
    { unfold MapLegacyControl in Hm. destruct (_ && _); [done|]. destruct (lcKind control); try done. gots Hm. by subst route. }
    unfold replyNewGame. rewrite Hn. done.
Qed.

(** A frame that is complete but refused ends the connection and with it every battle
    on it: nothing is sent or answered, the reader returns and the writer stops.  So does
    a frame for a battle that has no route, and so does every message the decoder knows
    as unsupported, which the mapper means to ignore.  The documented behaviour is to
    drop the frame and to go on with the next. *)
Theorem refused_frame_ends_connection {E : LegacyEnv} w s stream f rest :
  lwSession w = Some s → ReadFrame stream = Got (f, rest) →
  frameFault (snGeneration s) f = true
  ∨ (∃ battle c, frameCommand (snGeneration s) f = Got (battle, c) ∧ snRoutes s !! battle = None)
  ∨ (∃ control, (frType f =? 0x8605) = false ∧ DecodeControl (frBytes f) = Got control ∧ lcKind control = ControlUnsupported) →
  lwSession (readerTurn stream w) = Some (set_done true (set_writer false s))
  ∧ lwLog (readerTurn stream w) = lwLog w ++ [LArrived (snGeneration s) f]
  ∧ lstep (readerTurn stream w) (deactivate (readerTurn stream w)).
Proof.
  intros Hs Hf Hfault. assert (∃ e, routeFrame (snGeneration s) f w = ((lnote (LArrived (snGeneration s) f) w).1, Err e)) as [e He].
  { destruct Hfault as [Hfault|[(battle & c & Hc & Hr)|(control & Ht & Hd & Hk)]]; [by apply fault_routeFrame| |].
    - eexists. by eapply unrouted_routeFrame.
    - apply fault_routeFrame. by apply (unsupported_fault _ _ control). }
  assert (readerTurn stream w = endReader (lnote (LArrived (snGeneration s) f) w).1) as ->.
  { unfold readerTurn. by rewrite Hs, Hf, He. }
  assert (lwSession (endReader (lnote (LArrived (snGeneration s) f) w).1) = Some (set_done true (set_writer false s))) as Hend by (cbn; by rewrite Hs).
  split_and!; [done|done|]. by eapply l_closed.
Qed.

(** ** A sample connection *)

Module Sample.
#[global] Instance sampleLegacy : LegacyEnv := {|
  lHost := mkRef "n1" 1;
  ansSendBattle _ _ _ := None;
  ansSendHost _ _ := None;
  ansCallHost l c :=
    match c with
    | BeginCreateBattle (Some r) => Ok (OperationReply (mkOperation 1 (cbBattleID r) HostOperationCreating zeroRef ""))
    | GetCreateBattleOperation (Some o) => Ok (OperationReply (mkOperation o 7 (if len l <? 4 then HostOperationCreating else HostOperationCompleted) (mkRef "n1" 77) ""))
    | _ => Err (Sentinel ErrServiceNotFound)
    end;
  ansCallBattle _ _ _ := Err (Sentinel ErrServiceNotFound);
  ansTicks _ := 5%nat;
  ansCancelled _ := false;
  ansSelect _ := true;
  onSubgamePrepared := false
|}.
Definition bytesOf (m : outcome (list byte)) : list byte := match m with Got d => d | _ => [] end.
Definition newGameFrame : list byte := bytesOf (message 44 messageGM2GLNewGame [(24, u32 7); (28, u32 5); (40, u32 82)]).
Definition updateGameFrame : list byte := bytesOf (message 42 messageGM2GLUpdateGame (glHeader 7 ++ [(34, u32 1); (38, u32 1)])).
Definition changeSeatFrame : list byte := bytesOf (message 24 messageGM2GLChangeSeat []).
Definition ready : lworld := onConnected true (dial true (newConnection 0)).
Definition created : lworld := readerTurn newGameFrame ready.
Definition prepared : lworld := readerTurn updateGameFrame created.

Lemma step_read stream w : match lwSession w, lwOutput w with Some s, Some _ => snUp s && negb (snDone s) | _, _ => false end = true → lstep w (readerTurn stream w).
Proof.
  destruct (lwSession w) as [s|] eqn:Hs; [|done]. destruct (lwOutput w) as [o|] eqn:Ho; [|done]. intros [Hu Hd]%andb_true_iff. apply negb_true_iff in Hd. by eapply l_read.
Qed.
Lemma prepared_reached : rtc lstep (newConnection 0) prepared.
Proof.
  eapply rtc_l; [by apply (l_dial true)|]. eapply rtc_l; [by eapply (l_ready true)|]. eapply rtc_l; [apply (step_read newGameFrame); vm_compute; reflexivity|].
  eapply rtc_l; [apply (step_read updateGameFrame); vm_compute; reflexivity|]. apply rtc_refl.
Qed.
Definition sendEvent : legacyEvent := LSentBattle 7 (mkRef "n1" 77) (PrepareSubgame (Some (1, 1))) None.
Lemma routes_follow_host_witness : lwLog prepared = take 6 (lwLog prepared) ++ [sendEvent] ∧ routesOf (take 6 (lwLog prepared)) !! (7 : BattleID) = Some (mkRef "n1" 77).
Proof.
  assert (lwLog prepared = take 6 (lwLog prepared) ++ [sendEvent]) as Hl by (vm_compute; reflexivity). split; [exact Hl|].
  exact (proj1 (proj2 (routes_follow_host 0 prepared prepared_reached) _ _ _ _ _ _ Hl)).
Defined.

Definition dealBatch : GameOutputBatch :=
  mkBatch 7 5 82 (mkRef "n1" 77) 1 [GameStartedOutput "replay"; ClientGameOutput ["11"] (DealPayload (mkQuad "11" "12" "13" "14") 0 [17; 18])].
Lemma dealBatch_legal : Forall legalOutput (baOutputs dealBatch).
Proof.
  assert (areUsers ["11"]) as H1 by (exists [11]; split_and!; [vm_compute; reflexivity|repeat constructor; lia|apply NoDup_singleton]).
  assert (areUsers ["11"; "12"; "13"; "14"]) as H4.
  { exists [11; 12; 13; 14]. split_and!; [vm_compute; reflexivity|repeat constructor; lia|]. apply (bool_decide_unpack _). vm_compute. exact I. }
  repeat constructor; try done.
Qed.
Lemma egress_frames_sound_witness :
  ∃ frames, encodeLegacyGameOutputBatch dealBatch = Got frames ∧ Forall (λ d, WriteFrame d = Got d) frames.
Proof.
  assert (Forall outputFits (baOutputs dealBatch)) as Hf by (repeat constructor; cbn; lia).
  assert (isU32 (baBattleID dealBatch)) as Hb by (split; cbn; lia).
  destruct (egress_frames_sound dealBatch Hb Hf) as (Hgot & _ & Hall).
  destruct Hgot as (frames & He); [by repeat split|apply dealBatch_legal|]. exists frames. split; [exact He|]. exact (proj1 (Hall frames He)).
Defined.
Lemma refused_frame_ends_connection_witness : option_map snDone (lwSession (readerTurn changeSeatFrame created)) = Some true.
Proof.
  destruct (ReadFrame changeSeatFrame) as [[f rest]|e|] eqn:Hf; [|vm_compute in Hf; discriminate Hf|vm_compute in Hf; discriminate Hf].
  destruct (lwSession created) as [s|] eqn:Hs; [|vm_compute in Hs; discriminate Hs].
  assert (∃ control, (frType f =? 0x8605) = false ∧ DecodeControl (frBytes f) = Got control ∧ lcKind control = ControlUnsupported) as Hb.
  { vm_compute in Hf. injection Hf as <- <-. eexists. split; [vm_compute; reflexivity|]. split; [vm_compute; reflexivity|vm_compute; reflexivity]. }
  rewrite (proj1 (refused_frame_ends_connection created s changeSeatFrame f rest Hs Hf (or_intror (or_intror Hb)))). reflexivity.
Defined.
End Sample.
